(* ===== verification/_CoqProject ===== *)
-Q . S2P
Prelude.v
JsString.v
JsValue.v
JsRecord.v
JsDate.v
SegmentParser.v
UrlUtils.v
Templates.v
References.v
Bytes.v
AuthTemplates.v
VariableExpander.v
GithubUrl.v
BaseUrl.v
RuleMatcher.v
Registry.v
RunEnvironment.v
AccessSources.v
TokenRefresh.v
Permissions.v
Expander.v
RunStore.v
RunQueue.v
RunLifecycle.v
Runners.v
Callbacks.v
DeviceAuth.v
Credits.v
Billing.v
BillingLogic.v
StripeWebhooks.v
FirewallAuth.v
Automations.v
PermissionGrants.v
ZeroPrompts.v
ZeroRuns.v
RunCompose.v
FeatureSwitches.v
ComputerUse.v
ComputerUseInvariants.v
ComputerUseSafety.v
Json.v
Tokens.v
Auth.v
Storage.v
StorageRuns.v
StorageUpkeep.v
StorageSafety.v
StorageUploads.v
Aggregates.v
UsageIntake.v
UsageLedger.v
UsageSummary.v
UsageRecords.v
UsageAccounts.v
ModelPolicies.v
ModelSelection.v
