(* ===== verification/Prelude.v ===== *)
(** * A verification development for vm0

    vm0 runs agents in sandboxes. Its API server (turbo/apps/api) admits, queues,
    dispatches, completes and bills runs; its connector package
    (turbo/packages/connectors) describes which outbound requests of a run are
    allowed, as firewall configurations with URL and path patterns that are
    validated when they are created and matched when a request leaves the sandbox.
    This library models both parts in the order the data flows and proves the
    properties that make them correct. Paths below are relative to the repository's
    [turbo] directory; a definition keeps the name of the TypeScript symbol it
    translates, without the trailing dollar sign of a command.

    ** Files

    - [Prelude]: the result monad of code that throws, tactics, hint databases, lemmas on
      lists.
    - [JsString]: strings as lists of UTF-16 code units with the string operations
      the sources use, and their laws. [JsValue]: untyped JSON values and the class
      [Platform] of runtime operations that are not part of the repository (URL
      parser, case mappings, normalization forms, Unicode categories), with a
      concrete ASCII instance for evaluation. [JsRecord]: objects used as records,
      with reads that reach [Object.prototype]. [JsDate]: numbers read from text and
      the calendar of dates, in universal time.
    - [SegmentParser] (connectors/src/segment-parser.ts): one path or host segment,
      a literal or [prefix{name}suffix] with an optional greedy marker.
    - [UrlUtils] (firewall-url-utils.ts): white space and unsafe code points.
    - [Templates] (firewall-types.ts, first half): basic() authentication templates
      and secret and variable references.
    - [References]: the language of [${{ ns.name }}] references, shared by the next two
      files. [Bytes]: UTF-8, base64 and the order of strings.
    - [VariableExpander] (packages/core/src/variable-expander.ts): expansion of
      references in strings and nested values. [GithubUrl] (core/src/github-url.ts,
      storage-names.ts): repository URLs, skill references, storage names.
    - [BaseUrl] (firewall-types.ts, second half): validation of base URLs and
      auth.base URLs, variable resolution, host wildcards.
    - [RuleMatcher] (firewall-rule-matcher.ts): matching of paths, prefixes, hosts and
      base URLs, specificity, and the permissions that match a request.
    - [Registry] (firewalls/index.ts): built-in configurations, default policies,
      stored policies and grants over an arbitrary registry.
    - [Expander] (firewall-expander.ts): validation of rules and configurations and
      the expansion of a selection.
    - [RunEnvironment] and [Permissions] (apps/api/src/signals/services/
      agent-run-create.service.ts): artifacts, skill volumes and the environment of a
      run; its firewalls and network policies.
    - [RunStore]: the database tables of runs, queue entries, runner jobs and chat
      messages as one record [World], with an outbox of the signals sent.
    - [RunQueue] (apps/api/src/signals/services/zero-run-queue.service.ts,
      agent-run-queue-payload, zero-chat-queue-marker, queue-position): queue
      draining, expiry, payloads, markers.
    - [RunLifecycle] (services/agent-run-create, zero-run-cancel,
      agent-webhook-complete, cron-cleanup-sandboxes and routes/runners.ts, with what
      routes/internal-callbacks-chat.ts, webhooks-clerk-cleanup and zero-compose-data do to
      runs): creation, dispatch, claim, completion, cancellation, withdrawal, deletion and
      cleanup of runs, and a step relation with one step per committed transaction.
    - [Runners] (routes/runners.ts): runner heartbeats, polling, and the loop of a
      runner over the claim of [RunLifecycle]. [Callbacks]
      (services/agent-run-callback): delivery of run callbacks.
    - [DeviceAuth] (services/device-token, routes/cli-auth.ts): pairing of devices and
      the command line login, with a step relation of one step per statement group.
    - [AuthTemplates], [AccessSources], [TokenRefresh] and [FirewallAuth]
      (services/agent-webhook-firewall-auth.service.ts, connector-credential-status):
      the templates of a request and the keys they refer to; the sources, metadata and
      stored values of access secrets; the refresh of a token under the lock of its
      source; the handler that resolves the credentials of a request.
    - [Credits] (services/zero-credit-usage, zero-credit-recharge,
      zero-run-admission): charging, expiry and deduction of credits, the recharge
      slot, the credit check.
    - [Billing] (services/zero-billing-checkout, zero-billing-restore,
      zero-billing-downgrade, zero-billing-payment-method, stripe-subscription-schedules,
      stripe-preview-metadata, one-time-products, cron-billing-entitlements): the plan of
      an organization and the operations on its subscription. [BillingLogic]: how
      relations between the tables before and after a computation follow its structure,
      and the entitlement cron. [StripeWebhooks] (services/webhooks-stripe): the events
      of the payment provider, composed with the drain of the run queue.
    - [Automations] (services/automations/time-trigger, trigger-poller,
      default-interpreter and routes/internal-callbacks-trigger.ts): scheduling, the
      optimistic claim, the poller and the completion callback.
    - [PermissionGrants] (services/zero-user-permission-grants and its routes): what users allow
      and deny an agent. [ZeroPrompts] and [ZeroRuns] (services/zero-runs-create): the system
      prompt of a run of an agent; who may run it, with which connectors and policies.
      [RunCompose] (services/agent-run-create): the compose a run is created from, which is that
      of its checkpoint, session or version before that of its agent.
    - [FeatureSwitches] (packages/core/src/feature-switch.ts, identity-hash.ts, staff-org.ts,
      services/feature-switches): the registry, its two evaluators, stored overrides.
    - [ComputerUse] (services/zero-computer-use, cron-computer-use-screenshot-cleanup,
      routes/zero-computer-use.ts and its contract): desktops as hosts, the commands runs
      send them, audit trail, screenshots. [ComputerUseInvariants]: the abstract machine its
      operations refine and the invariant of both; [ComputerUseSafety]: the theorems.
    - [Json]: the text of JSON values, its parser, and UTF-8 decoding. [Tokens]
      (apps/api/src/signals/auth/tokens.ts, routes/agent-webhook-auth.ts): the signed tokens of
      runs, command lines and jobs. [Auth] (auth/auth-context.ts, auth-route.ts,
      clerk-session.ts, runner-auth.ts, services/auth): who a request acts for, the cache of
      memberships with all its writers, what a route requires.
    - [Storage] (services/storage-content-hash, storage-write, storage-read,
      zero-memory-detail, the functions of external/s3.ts they call, their routes and
      contracts): volumes and artifacts with versions named by their content.
      [StorageRuns] (services/storage-volume-upload, agent-run-storage): volumes the server
      writes and the storages a run mounts. [StorageUpkeep] (services/cron-sync-skills,
      webhooks-clerk-cleanup, zero-skill-delete, zero-compose-data): the volumes of system skills
      and the deletion of storages and objects. [StorageSafety]: the statements of all three, their
      invariant and the refinement; [StorageUploads]: round trips, isolation, manifests and
      paths.
    - [Aggregates]: groups, sums and sorting, as queries compute them. [UsageIntake]
      (routes/webhooks-agent-health-usage-telemetry.ts, services/zero-chat-usage-message,
      zero-credit-usage, cron-process-usage-events): what sandboxes report, its settlement over
      [Credits], the usage message of a chat; [UsageLedger]: its theorems. [UsageSummary]
      (services/usage, cron-aggregate-usage, routes/usage.ts): the daily usage of a user.
      [UsageRecords] (services/usage-period, zero-org-billing-period, zero-usage-record,
      zero-usage-reporting-ledger, zero-usage): periods, usage records, totals of members;
      [UsageAccounts]: its theorems.
    - [ModelPolicies] (services/zero-model-policy, zero-model-selection,
      routes/zero-model-policies.ts, contracts/model-providers.ts): the models a workspace
      offers, over which provider and credential, and the model of a member's run;
      [ModelSelection]: its theorems.

    ** How code is modelled

    Functions that may throw return [result]; the thrown message is kept. A handler
    is a function from the tables to its answer and the tables after it; a database
    transaction is one such function, so the tables of an aborted transaction are
    those before it. Rows are records with the columns the operations read or
    write. Time is an argument, read once per operation. A list is kept where the
    order of rows matters and a finite map where only keys do. Loops whose
    recursion is not structural take fuel. The billing operations, which mix calls to the
    payment provider with writes and transactions, are computations of a state and error
    monad: what was written before a throw stays, a transaction restores the tables, and
    calls are never taken back.

    Interfaces: [Platform] (runtime), [PayloadCodec] with [PayloadCodecLaws]
    (encryption and JSON of queued payloads), [CronLib] with [CronLaws] (the cron
    library), [Stripe] and [BillingServices] (the
    payment provider, the organization directory and the environment), [GeneratedRegistry] (the generated
    connector table), [ModelProviders] (the table of model provider firewalls),
    [Runtime] (hash and base64
    decoder), [AuthTables] (the tables of connector and provider auth methods), [StoredCipher]
    with [StoredCipherLaws] (encryption of stored secrets), [TokenRuntime] with [TokenLaws]
    (keyed hash, base64url decoder), [StorageServices] with [ContentHashLaws] (SHA-256 without
    collisions on contents, signed URLs, archives) and [RunServices] (what the
    poller calls). Usage reports take the order of texts, the offsets of a time zone, the
    subscriptions of the payment provider and the user directory as functions. A token refresh takes the provider as a function of its inputs, and
    what other requests commit before the lock is taken as a function on the tables. Theorems that use a
    law take it as a class, and their witnesses instantiate it.

    ** What the theorems show

    Firewall language: the segment parser accepts exactly the documented forms and
    is inverse to rendering ([SegmentParser]); matching of paths, prefixes and hosts
    implements a declarative pattern language, specificity is a strict order on what
    the matcher computes, and the permissions returned are exactly those with a most
    specific match ([RuleMatcher]); validation and matching agree on what a rule is,
    accepted configurations and base URLs have the promised shape, and selections
    grant exactly what was selected ([BaseUrl], [Expander]); stored policies are
    layered over the defaults ([Registry]); template parsing is the leftmost scan
    ([Templates]).

    Preparation of a run: expansion replaces exactly the references of the pattern,
    left to right, and reports each unresolved one once ([VariableExpander]); the
    environment of a sandbox does not depend on the value of a secret that a
    firewall injects, its validation succeeds exactly when expansion leaves nothing
    unresolved, and each variable has one deciding source ([RunEnvironment]); every
    permission a policy names is enforced by the network policy of its firewall
    ([Permissions]); tree URLs parse exactly when they have the documented form
    ([GithubUrl]).

    Runs: the invariant between runs, queue entries and runner jobs holds in every
    reachable state, up to what the withdrawal of a run and the deletion of an owner leave
    behind; statuses only move forward, but for the withdrawal, which cancels whatever the status
    is; a run is claimed once, completed once and cancelled effectively; the handlers refine the transaction system, which
    carries these results over to every interleaving of handlers ([RunLifecycle]);
    admission and draining respect the concurrency limit, drain in order, terminate
    and are work conserving; expiry, queue positions and markers are exact
    ([RunQueue]); a runner that polls and claims takes every job meant for it whose secrets can
    be decrypted ([Runners]); callbacks are sent to exactly the undelivered rows ([Callbacks]).

    Credentials of a request: the secrets resolved are exactly those the templates
    refer to, a header is the concatenation of its segments, and no other secret
    influences the result ([AuthTemplates]); requests that wait for one token call the
    provider once, whether it succeeds or fails, and a success returns what is stored
    ([TokenRefresh]); a positive answer is complete, authorized and leased within the
    credits of the organization, secrets of connectors are the stored ones, and the
    handler never raises an internal error ([FirewallAuth]).

    Device codes: a poll or an exchange only returns a token of the user who
    confirmed that code, and a device code is confirmed once ([DeviceAuth]).

    Credits: each usage event is charged once, the balance pays the sum of the
    charges, grants are spent first-expiring first, one recharge runs at a time
    ([Credits]).

    Billing: what the webhook does to credits and grants refines a ledger whose steps grant
    an invoice once with exactly its credits, expire grants, re-date the grants of a trial that
    ends or change neither, so
    redelivered and reordered events never credit a payment twice; a second delivery of a
    purchase changes nothing; a paid subscription invoice is credited, with a bounded amount
    and validity; a tier changes only for a paid invoice or the end of the organization's
    own subscription, and for an invoice once; the two copies of the expiry agree ([StripeWebhooks]); the entitlement
    cron suspends only who lost the entitlement ([BillingLogic]).

    Automations: a tick accounts for every row with the reason it was run, skipped or failed for,
    and touches only its batch, a claim is exclusive, the circuit breaker is an invariant, the completion callback
    reschedules ([Automations]).

    Permissions: a run of an agent gets, for each permission of the connectors its user enabled,
    the user's active grant or else the default; a stored grant takes effect in the next run and
    down to the network policies of its sandbox until it expires, a reset restores the defaults,
    and what others grant never matters; the run is of the compose of the agent that was checked,
    or of the checkpoint, session or version the request names ([ZeroRuns], [RunCompose],
    [PermissionGrants]).

    Desktop control: every request refines a machine whose ticks change one row along a
    legal transition, also while other requests run between the upload and the transaction
    of a completion; in every reachable state commands belong to a host of their user, a host
    runs one command at a time and nothing that asked for approval is handed out without it;
    finished commands never change but for the expiry of a screenshot; a poll is given the
    oldest command meant for the host; the token of a run reaches one host; what clients are
    sent fits the contract; the retention job ends, and is exact or stops at a deletion that the
    store refuses ([ComputerUseSafety]). The
    two evaluators of feature switches agree ([FeatureSwitches]).

    Requests: parsing is inverse to the text of JSON ([Json]); a signed token is accepted by the
    verifier of its scope until it expires, and by no other ([Tokens]); a handler runs exactly
    under the contexts that a declarative credential relation allows, the token of a run is
    confined to its user, run and own capabilities, and a removed member is locked out within a
    minute of the last statement that was decided before the removal ([Auth]).

    Storages: a version identifier stands for its content, up to the order of the files; rows and
    versions stay consistent, and objects in the store unless they were deleted, in every sequence
    of the statements that write and delete them, and every request is such a sequence; what is uploaded and committed is what is downloaded, and found
    again by the next upload; requests touch the storages of their owner only; a run mounts
    versions of its own organization's volumes, of the system's, and of its user's artifacts;
    files of a volume are written below its directory ([StorageSafety], [StorageUploads]).

    Usage: a use that a sandbox reports is charged once in every interleaving of deliveries and
    settlements, to the user and organization of its token; the usage message of a chat is
    complete, adds up and is sent once ([UsageLedger]); the daily usage is that of one query over
    the period, whatever part of it was kept ([UsageSummary]); today and yesterday are the days
    the clocks of the time zone show; the rows of a usage record, their breakdowns and the total
    account for every charge of the period ([UsageAccounts]).

    Models: an update of the model policies is refused by its validation or succeeds without
    violating a constraint of the tables, and is then what the workspace lists, with one default
    and valid routes; the default and the selected model of a member follow it, with the provider
    and credential of the route and at most one fallback ([ModelSelection]).

    Behaviour worth a second look, each with a theorem: runs that waited longer than
    the pending TTL escape the concurrency count; expiring grants forgives a debt;
    the connector type guard and variable expansion accept inherited property names;
    two concurrent exchanges of one device code both return a token; a desktop may name any
    stored object as its screenshot, its refused completion still replaces one, one of its
    error codes is not accepted, and an audit copy may be the whole result; the staff check
    accepts a hash collision; a memory that is emptied and filled again shows no files; ensuring
    an artifact may replace an upload by the empty version; deleting a user deletes the objects of
    the artifacts that others have under the same name; a run whose queued message was answered is
    cancelled whatever its status, and leaves its job; a job whose secrets cannot be decrypted is
    offered until it expires; a request may run any compose version by its identifier, that of a
    private agent too; a stored pointer without a bucket stops the retention job; a line break in
    a path makes two contents one version; version prefixes in upper case are found by downloads only; a run that
    completes after its day was counted stays out of the daily usage; where clocks skip midnight
    a day may start an hour early; a billing period that ends on the 31st may start in the same
    month; a model that the workspace does not offer can be selected, without a route.

    ** Bounds and fuel

    [drainOrgQueueToCapacity] needs one round more than there are queue entries,
    since every round that continues removes one, and the retention job one round more than
    there are commands. The template scanner
    gets the length of the text plus one, since every turn advances; the scan
    for the next template start, the removal of templates, URI decoding and the
    percent-encoding scans get the length of the text, or one more
    ([findNextLoop_spec], [strip_templates_done], [decode_uri_fuel],
    [percentLoop_fuel], [percentSyntaxLoop_fuel]). The search for midnight makes four turns, as
    the source does; [start_found] shows that three are enough with one change of the clocks. The
    search for the default model of a member calls itself once at most, so two units suffice.
    Amounts, counters and times are
    unbounded integers: the sources use doubles, exact up to 2^53 (a charge divides before it
    rounds up, which is exact here). File names may have any length.

    ** What is not modelled

    Logging, telemetry and abort signals; the creation of sessions and of zero_runs rows;
    loading of secrets and connectors of a run; the archive of a system skill, which is an
    argument, and the download of the repository of skills; export jobs; the parameters of a
    matched path are a finite map, where the source has an object on which [__proto__] is special; the list of runs with usage
    and the usage insights; realtime tokens of
    runners; the creation of checkout sessions and the redemption of promotions; the
    generated connector tables; OAuth exchanges; the other routes, the
    command line, the front ends and the Rust crates. A failed signal or
    callback is logged by the sources and has no effect on the tables, so signals
    are appended to the outbox. *)

From Stdlib Require Export ZArith Lia.
From stdpp Require Export strings numbers gmap sets.
From stdpp Require Export base option list.

#[global] Open Scope Z_scope.

(** ** The result monad of fallible code

    TypeScript functions that [throw new Error(msg)] return [Throw msg]; a value
    is [Ok]. The message is a UTF-16 string, see [JsString]. *)

Abbreviation jsstr := (list Z).

Inductive result (A : Type) : Type :=
| Ok (a : A)
| Throw (msg : jsstr).
Arguments Ok {A} a.
Arguments Throw {A} msg.

#[export] Instance result_ret : MRet result := fun A a => Ok a.
#[export] Instance result_bind : MBind result := fun A B f m =>
  match m with Ok a => f a | Throw e => Throw e end.
#[export] Instance result_fmap : FMap result := fun A B f m =>
  match m with Ok a => Ok (f a) | Throw e => Throw e end.

#[export] Instance Ok_inj {A} : Inj (=) (=) (@Ok A).
Proof. by intros a b [= ->]. Qed.

Definition is_ok {A} (r : result A) : bool :=
  match r with Ok _ => true | Throw _ => false end.

(** [if (c) throw new Error(msg);] *)
Definition throw_if (c : bool) (msg : jsstr) : result unit :=
  if c then Throw msg else Ok tt.

Lemma result_bind_ok {A B} (m : result A) (f : A -> result B) (b : B) :
  m ≫= f = Ok b -> exists a, m = Ok a /\ f a = Ok b.
Proof. destruct m; simpl; naive_solver. Qed.

Lemma throw_if_ok c msg u : throw_if c msg = Ok u -> c = false.
Proof. destruct c; by simpl. Qed.

(** ** The hint database of the transaction system, and tactics *)

Create HintDb store discriminated.

(** Split every [&&], [||] and [bool_decide] test of the context into facts. *)
Ltac bool_facts :=
  repeat match goal with
  | H : (_ && _)%bool = true |- _ => apply andb_true_iff in H as [? ?]
  | H : (_ || _)%bool = false |- _ => apply orb_false_iff in H as [? ?]
  | H : negb _ = true |- _ => apply negb_true_iff in H
  | H : negb _ = false |- _ => apply negb_false_iff in H
  | H : bool_decide _ = true |- _ => apply bool_decide_eq_true in H
  | H : bool_decide _ = false |- _ => apply bool_decide_eq_false in H
  | H : (_ =? _) = true |- _ => apply Z.eqb_eq in H
  | H : (_ =? _) = false |- _ => apply Z.eqb_neq in H
  | H : (_ <=? _) = true |- _ => apply Z.leb_le in H
  | H : (_ <=? _) = false |- _ => apply Z.leb_gt in H
  | H : (_ <? _) = true |- _ => apply Z.ltb_lt in H
  | H : (_ <? _) = false |- _ => apply Z.ltb_ge in H
  end.

(** Decompose a successful run of a monadic validator into its checks. *)
Ltac result_steps :=
  repeat match goal with
  | H : _ ≫= _ = Ok _ |- _ => apply result_bind_ok in H as (? & ? & ?)
  | H : throw_if _ _ = Ok _ |- _ => apply throw_if_ok in H
  | H : Throw _ = Ok _ |- _ => discriminate H
  | H : Ok _ = Ok _ |- _ => injection H as H; try subst
  | u : unit |- _ => destruct u
  end.

(** ** Lists *)

Lemma existsb_false {A} (f : A -> bool) l :
  existsb f l = false <-> forall x, x ∈ l -> f x = false.
Proof.
  rewrite <- not_true_iff_false, existsb_exists. setoid_rewrite <- list_elem_of_In.
  split.
  - intros H x Hx. destruct (f x) eqn:E; [exfalso; eauto | done].
  - intros H (x & Hx & E). by rewrite H in E.
Qed.

Lemma existsb_true {A} (f : A -> bool) l :
  existsb f l = true <-> exists x, x ∈ l /\ f x = true.
Proof. rewrite existsb_exists. by setoid_rewrite <- list_elem_of_In. Qed.

Lemma forallb_true {A} (f : A -> bool) l :
  forallb f l = true <-> forall x, x ∈ l -> f x = true.
Proof. rewrite forallb_forall. by setoid_rewrite <- list_elem_of_In. Qed.

Lemma elem_of_concat {A} (x : A) (ls : list (list A)) :
  x ∈ concat ls <-> exists l, x ∈ l /\ l ∈ ls.
Proof. induction ls as [|l ls IH]; simpl; [set_solver|]. rewrite elem_of_app, IH. set_solver. Qed.

Lemma filter_all {A} (P : A -> Prop) `{forall x, Decision (P x)} (l : list A) :
  (forall x, x ∈ l -> P x) -> filter P l = l.
Proof.
  induction l as [|a l IH]; intros Hl; [done|]. rewrite filter_cons_True by set_solver.
  f_equal. apply IH. set_solver.
Qed.

Lemma length_filter_lt_elem {A} (P : A -> Prop) `{forall x, Decision (P x)} (l : list A) (x : A) :
  x ∈ l -> ~ P x -> (length (filter P l) < length l)%nat.
Proof.
  induction l as [|a l IH]; intros Hin Hx; [set_solver|]. rewrite filter_cons.
  pose proof (length_filter P l). apply elem_of_cons in Hin as [->|Hin].
  - rewrite decide_False by done. simpl. lia.
  - specialize (IH Hin Hx). case_decide; simpl; lia.
Qed.

Lemma filter_ext_in {A} (P Q : A -> Prop) `{forall x, Decision (P x)} `{forall x, Decision (Q x)}
    (l : list A) :
  (forall x, x ∈ l -> P x <-> Q x) -> filter P l = filter Q l.
Proof.
  induction l as [|a l IH]; intros Hl; [done|]. rewrite !filter_cons.
  rewrite IH by set_solver. destruct (Hl a ltac:(set_solver)). repeat case_decide; tauto.
Qed.

Lemma Forall2_impl_elem {A B} (P Q : A -> B -> Prop) l k :
  Forall2 P l k -> (forall x y, x ∈ l -> P x y -> Q x y) -> Forall2 Q l k.
Proof.
  induction 1 as [|x y l k Hxy _ IH]; intros HPQ; [constructor|].
  constructor; [apply HPQ; [set_solver|done]|]. apply IH. set_solver.
Qed.

Lemma forallb_elem {A} (f : A -> bool) l x : forallb f l = true -> x ∈ l -> f x = true.
Proof. rewrite forallb_true. auto. Qed.

Lemma exists_elem_nil {A} (P : A -> Prop) : (exists x, x ∈ [] /\ P x) <-> False.
Proof. split; [by intros (x & ?%elem_of_nil & _)|done]. Qed.

Lemma exists_elem_cons {A} (P : A -> Prop) y l : (exists x, x ∈ y :: l /\ P x) <-> P y \/ exists x, x ∈ l /\ P x.
Proof. setoid_rewrite elem_of_cons. naive_solver. Qed.

Lemma exists_elem_app {A} (P : A -> Prop) l l' :
  (exists x, x ∈ l ++ l' /\ P x) <-> (exists x, x ∈ l /\ P x) \/ exists x, x ∈ l' /\ P x.
Proof. setoid_rewrite elem_of_app. naive_solver. Qed.

Lemma filter_nil_iff {A} (P : A -> Prop) `{forall x, Decision (P x)} (l : list A) :
  filter P l = [] <-> forall x, x ∈ l -> ~ P x.
Proof.
  induction l as [|a l IH]; [split; [set_solver|done]|]. rewrite filter_cons. case_decide as E.
  - split; [done|]. intros Ha. destruct (Ha a); [by left|done].
  - rewrite IH. set_solver.
Qed.

Lemma app_nil_iff {A} (l k : list A) : l ++ k = [] <-> l = [] /\ k = [].
Proof. destruct l, k; naive_solver. Qed.

Lemma fmap_nil_iff {A B} (f : A -> B) (l : list A) : f <$> l = [] <-> l = [].
Proof. by destruct l. Qed.
