(* ===== verification/JsString.v ===== *)
(** ECMAScript strings: sequences of UTF-16 code units with the String.prototype
    methods the repository uses, and the lemmas about them that the components
    share. *)

From stdpp Require Import pretty.
From S2P Require Import Prelude.

(** A code unit is a [Z] in [0, 65536); a string is a list of them. [js] writes an
    ASCII literal. *)
Fixpoint js (s : string) : jsstr :=
  match s with
  | EmptyString => []
  | String a r => Z.of_N (Ascii.N_of_ascii a) :: js r
  end.

Definition dq : jsstr := [34].
Definition quoted (s : jsstr) : jsstr := dq ++ s ++ dq.

(** [s.startsWith(p)] and [s.startsWith(p, i)]. *)
Fixpoint starts_with (s p : jsstr) {struct p} : bool :=
  match p, s with
  | [], _ => true
  | _ :: _, [] => false
  | c :: p', d :: s' => (d =? c) && starts_with s' p'
  end.
Definition starts_with_at (s p : jsstr) (i : nat) : bool := starts_with (drop i s) p.

(** [s.endsWith(p)]. *)
Definition ends_with (s p : jsstr) : bool := starts_with (reverse s) (reverse p).

(** [s.indexOf(p)] and [s.indexOf(p, i)]; [None] is the result -1. *)
Fixpoint index_of (s p : jsstr) : option nat :=
  if starts_with s p then Some 0%nat
  else match s with [] => None | _ :: s' => S <$> index_of s' p end.
Definition index_of_from (s p : jsstr) (i : nat) : option nat :=
  (fun k => i + k)%nat <$> index_of (drop i s) p.

(** [s.lastIndexOf(c)] for a one-unit string. *)
Fixpoint last_index_of (s : jsstr) (c : Z) : option nat :=
  match s with
  | [] => None
  | d :: s' =>
      match last_index_of s' c with
      | Some k => Some (S k)
      | None => if d =? c then Some 0%nat else None
      end
  end.

Definition includes (s p : jsstr) : bool := bool_decide (is_Some (index_of s p)).

(** [s.slice(a, b)] for [0 <= a] and [0 <= b]; [s.slice(0, -1)] is [drop_last]. *)
Definition slice (s : jsstr) (a b : nat) : jsstr := take (b - a) (drop a s).
Definition drop_last (s : jsstr) : jsstr := take (length s - 1) s.

(** The white space and line terminators of [trim] and of the regular expression
    class of white space. *)
Definition is_js_whitespace (c : Z) : bool :=
  ((9 <=? c) && (c <=? 13)) || (c =? 32) || (c =? 0xa0) || (c =? 0x1680) ||
  ((0x2000 <=? c) && (c <=? 0x200a)) || (c =? 0x2028) || (c =? 0x2029) || (c =? 0x202f) ||
  (c =? 0x205f) || (c =? 0x3000) || (c =? 0xfeff).

(** [s.trim()] *)
Fixpoint trim_start (s : jsstr) : jsstr :=
  match s with
  | c :: s' => if is_js_whitespace c then trim_start s' else s
  | [] => []
  end.
Definition trim (s : jsstr) : jsstr := reverse (trim_start (reverse (trim_start s))).

(** The decimal text of an array index. *)
Definition js_of_nat (n : nat) : jsstr := js (pretty (N.of_nat n)).

(** [s.split(c)] for a one-unit separator. *)
Fixpoint split_on (c : Z) (s : jsstr) : list jsstr :=
  match s with
  | [] => [[]]
  | d :: s' =>
      if d =? c then [] :: split_on c s'
      else match split_on c s' with
           | [] => [[d]]
           | w :: ws => (d :: w) :: ws
           end
  end.

(** [l.join(sep)]. *)
Fixpoint join (sep : jsstr) (l : list jsstr) : jsstr :=
  match l with
  | [] => []
  | [x] => x
  | x :: l' => x ++ sep ++ join sep l'
  end.

(** Iteration by code points ([for (const ch of s)], [[...s]]): a high surrogate
    followed by a low one is one element. *)
Definition is_high_surrogate (c : Z) : bool := (0xd800 <=? c) && (c <=? 0xdbff).
Definition is_low_surrogate (c : Z) : bool := (0xdc00 <=? c) && (c <=? 0xdfff).
Fixpoint code_points (s : jsstr) : list jsstr :=
  match s with
  | [] => []
  | c :: s' =>
      match s' with
      | d :: s'' =>
          if is_high_surrogate c && is_low_surrogate d
          then [c; d] :: code_points s''
          else [c] :: code_points s'
      | [] => [[c]]
      end
  end.

(** [ch.codePointAt(0)]. *)
Definition code_point_at0 (ch : jsstr) : option Z :=
  match ch with
  | [] => None
  | [c] => Some c
  | c :: d :: _ =>
      if is_high_surrogate c && is_low_surrogate d
      then Some ((c - 0xd800) * 0x400 + (d - 0xdc00) + 0x10000)
      else Some c
  end.

(** ** decodeURIComponent *)

Definition hex_value (c : Z) : option Z :=
  if (48 <=? c) && (c <=? 57) then Some (c - 48)
  else if (97 <=? c) && (c <=? 102) then Some (c - 87)
  else if (65 <=? c) && (c <=? 70) then Some (c - 55)
  else None.

(** One [%XX] escape at the head of the text. *)
Definition percent_byte (s : jsstr) : option (Z * jsstr) :=
  match s with
  | p :: h :: l :: rest =>
      if p =? 37 then
        hv ← hex_value h; lv ← hex_value l; Some (16 * hv + lv, rest)
      else None
  | _ => None
  end.

(** [n] escaped UTF-8 continuation bytes appended to the bits [acc]. *)
Fixpoint percent_tail (n : nat) (acc : Z) (s : jsstr) : option (Z * jsstr) :=
  match n with
  | O => Some (acc, s)
  | S n' =>
      '(b, rest) ← percent_byte s;
      if (0x80 <=? b) && (b <? 0xc0) then percent_tail n' (64 * acc + (b - 0x80)) rest else None
  end.

(** The UTF-16 encoding of a code point. *)
Definition utf16 (cp : Z) : jsstr :=
  if cp <? 0x10000 then [cp]
  else [0xd800 + (cp - 0x10000) / 0x400; 0xdc00 + (cp - 0x10000) mod 0x400].

(** One escaped UTF-8 sequence: overlong forms, surrogates and values past
    U+10FFFF are malformed. *)
Definition percent_char (s : jsstr) : option (jsstr * jsstr) :=
  '(b, rest) ← percent_byte s;
  if b <? 0x80 then Some ([b], rest)
  else
    '(n, acc, low) ←
      (if (0xc0 <=? b) && (b <? 0xe0) then Some (1%nat, b - 0xc0, 0x80)
       else if (0xe0 <=? b) && (b <? 0xf0) then Some (2%nat, b - 0xe0, 0x800)
       else if (0xf0 <=? b) && (b <? 0xf8) then Some (3%nat, b - 0xf0, 0x10000)
       else None);
    '(cp, rest') ← percent_tail n acc rest;
    if (cp <? low) || ((0xd800 <=? cp) && (cp <=? 0xdfff)) || (0x10ffff <? cp) then None
    else Some (utf16 cp, rest').

(** The whole string; every step consumes at least one unit, so the length of
    the text is enough fuel. [None] is the thrown [URIError]. *)
Fixpoint decode_uri (fuel : nat) (s : jsstr) : option jsstr :=
  match fuel, s with
  | _, [] => Some []
  | O, _ => None
  | S fuel', c :: s' =>
      if c =? 37 then
        '(u, rest) ← percent_char s; (fun t => u ++ t) <$> decode_uri fuel' rest
      else (fun t => c :: t) <$> decode_uri fuel' s'
  end.
Definition decodeURIComponent (s : jsstr) : option jsstr := decode_uri (length s) s.

(** ** Lemmas *)

Example decode_ascii : decodeURIComponent (js "a%7Bb") = Some (js "a{b").
Proof. reflexivity. Qed.
Example decode_ideographic_stop : decodeURIComponent (js "%E3%80%82") = Some [0x3002].
Proof. reflexivity. Qed.
Example decode_pair : decodeURIComponent (js "%F0%9F%98%80") = Some [0xd83d; 0xde00].
Proof. reflexivity. Qed.
Example decode_overlong : decodeURIComponent (js "%C0%AE") = None.
Proof. reflexivity. Qed.

Lemma starts_with_spec s p : starts_with s p = true <-> exists r, s = p ++ r.
Proof.
  revert s; induction p as [|c p IH]; intros s; simpl; [split; [intros _; by exists s|done]|].
  destruct s as [|d s]; [by split; [|intros (r & ?)]|].
  rewrite andb_true_iff, Z.eqb_eq, IH. split.
  - intros (-> & r & ->). eauto.
  - intros (r & [= -> ->]). eauto.
Qed.

Lemma starts_with_app p r : starts_with (p ++ r) p = true.
Proof. apply starts_with_spec; eauto. Qed.

Lemma starts_with_drop s p : starts_with s p = true -> s = p ++ drop (length p) s.
Proof. intros (r & ->)%starts_with_spec. by rewrite drop_app_length. Qed.

Lemma ends_with_spec s p : ends_with s p = true <-> exists r, s = r ++ p.
Proof.
  unfold ends_with. rewrite starts_with_spec. split.
  - intros (r & Hr). exists (reverse r).
    rewrite <- (reverse_involutive s), Hr, reverse_app, reverse_involutive. done.
  - intros (r & ->). rewrite reverse_app. eauto.
Qed.

Lemma index_of_Some s p i :
  index_of s p = Some i ->
  (exists a b, s = a ++ p ++ b /\ length a = i) /\
  (forall j, (j < i)%nat -> starts_with (drop j s) p = false).
Proof.
  revert i; induction s as [|c s IH]; intros i; simpl.
  - destruct (starts_with [] p) eqn:E; [|done]. intros [= <-].
    apply starts_with_spec in E as (r & Hr). split; [|lia]. by exists [], r.
  - destruct (starts_with (c :: s) p) eqn:E.
    + intros [= <-]. apply starts_with_spec in E as (r & Hr). split; [|lia]. by exists [], r.
    + destruct (index_of s p) as [k|]; simpl; [|done]. intros [= <-].
      destruct (IH k eq_refl) as ((a & b & -> & Ha) & Hmin). split.
      * exists (c :: a), b. simpl. auto.
      * intros [|j] Hj; [done|]. apply Hmin. lia.
Qed.

Lemma index_of_None s p j : index_of s p = None -> starts_with (drop j s) p = false.
Proof.
  revert j; induction s as [|c s IH]; intros j; simpl.
  - destruct (starts_with [] p) eqn:E; [done|]. by rewrite drop_nil.
  - destruct (starts_with (c :: s) p) eqn:E; [done|].
    destruct (index_of s p); [done|]. intros _. destruct j; [done|]. by apply IH.
Qed.

Lemma index_of_char_None s c : index_of s [c] = None <-> c ∉ s.
Proof.
  induction s as [|d s IH]; simpl; [set_solver|].
  rewrite andb_true_r. destruct (Z.eqb_spec d c) as [->|Hne]; [set_solver|].
  destruct (index_of s [c]); simpl; set_solver.
Qed.

Lemma index_of_char_app a b c : c ∉ a -> index_of (a ++ c :: b) [c] = Some (length a).
Proof.
  induction a as [|d a IH]; intros Ha; simpl; rewrite andb_true_r.
  - by rewrite Z.eqb_refl.
  - destruct (Z.eqb_spec d c) as [->|]; [set_solver|]. rewrite IH by set_solver. done.
Qed.

Lemma index_of_char_Some s c i :
  index_of s [c] = Some i ->
  exists a b, s = a ++ c :: b /\ length a = i /\ c ∉ a.
Proof.
  revert i; induction s as [|d s IH]; intros i; simpl; [done|].
  rewrite andb_true_r. destruct (Z.eqb_spec d c) as [->|Hne].
  - intros [= <-]. exists [], s. set_solver.
  - destruct (index_of s [c]) as [k|]; simpl; [|done]. intros [= <-].
    destruct (IH k eq_refl) as (a & b & -> & <- & Ha). exists (d :: a), b. set_solver.
Qed.

Lemma index_of_char_lt a b c : c ∈ a -> exists k, index_of (a ++ b) [c] = Some k /\ (k < length a)%nat.
Proof.
  induction a as [|d a IH]; simpl; [by intros ?%not_elem_of_nil|].
  rewrite andb_true_r. destruct (Z.eqb_spec d c) as [->|Hne]; intros Ha.
  - exists 0%nat. split; [done|lia].
  - destruct IH as (k & -> & Hk); [set_solver|]. exists (S k). simpl. split; [done|lia].
Qed.

Lemma includes_char s c : includes s [c] = true <-> c ∈ s.
Proof.
  unfold includes. rewrite bool_decide_eq_true.
  destruct (decide (c ∈ s)) as [Hin|Hout].
  - split; [done|]. intros _. destruct (index_of s [c]) eqn:E; [eauto|].
    by apply index_of_char_None in E.
  - apply index_of_char_None in Hout as Hn. rewrite Hn. split; [by intros []|done].
Qed.

Lemma includes_char_false s c : includes s [c] = false <-> c ∉ s.
Proof. rewrite <- not_true_iff_false, includes_char. done. Qed.

Lemma last_index_of_None s c : last_index_of s c = None <-> c ∉ s.
Proof.
  induction s as [|d s IH]; simpl; [set_solver|].
  rewrite not_elem_of_cons, <- IH.
  destruct (last_index_of s c); [by split; [|intros []]|].
  destruct (Z.eqb_spec d c) as [->|]; naive_solver.
Qed.

Lemma drop_last_app s c : drop_last (s ++ [c]) = s.
Proof. unfold drop_last. rewrite length_app, Nat.add_sub. by rewrite take_app_length. Qed.

Lemma split_on_cons c s : exists w ws, split_on c s = w :: ws.
Proof.
  destruct s as [|d s]; simpl; [eauto|]. destruct (d =? c); [eauto|].
  destruct (split_on c s); eauto.
Qed.

Lemma join_cons sep x l : l <> [] -> join sep (x :: l) = x ++ sep ++ join sep l.
Proof. by destruct l. Qed.

Lemma join_split c s : join [c] (split_on c s) = s.
Proof.
  induction s as [|d s IH]; simpl; [done|].
  destruct (split_on_cons c s) as (w & ws & E). rewrite E in IH |- *.
  destruct (Z.eqb_spec d c) as [->|].
  - rewrite join_cons by done. exact (f_equal (cons c) IH).
  - destruct ws; exact (f_equal (cons d) IH).
Qed.

Lemma split_on_no_sep c s w : w ∈ split_on c s -> c ∉ w.
Proof.
  revert w; induction s as [|d s IH]; simpl; intros w Hw.
  { apply list_elem_of_singleton in Hw as ->. apply not_elem_of_nil. }
  destruct (split_on_cons c s) as (v & vs & E). rewrite E in IH, Hw.
  destruct (Z.eqb_spec d c) as [->|Hne]; apply elem_of_cons in Hw as [->|Hw].
  - apply not_elem_of_nil.
  - by apply IH.
  - apply not_elem_of_cons. split; [done|]. apply IH. by left.
  - apply IH. by right.
Qed.

Lemma split_on_word c w : c ∉ w -> split_on c w = [w].
Proof.
  induction w as [|d w IH]; simpl; [done|]. intros Hw.
  destruct (Z.eqb_spec d c) as [->|]; [set_solver|]. rewrite IH by set_solver. done.
Qed.

Lemma split_on_app c w s : c ∉ w -> split_on c (w ++ c :: s) = w :: split_on c s.
Proof.
  induction w as [|d w IH]; simpl; intros Hw; [by rewrite Z.eqb_refl|].
  destruct (Z.eqb_spec d c) as [->|]; [set_solver|]. by rewrite IH by set_solver.
Qed.

(** Splitting a join of separator-free words gives the words back. *)
Lemma split_join c l :
  l <> [] -> (forall w, w ∈ l -> c ∉ w) -> split_on c (join [c] l) = l.
Proof.
  induction l as [|w l IH]; [done|]. intros _ Hl. destruct l as [|v l].
  - apply split_on_word. set_solver.
  - rewrite join_cons by done. simpl. rewrite split_on_app by set_solver.
    f_equal. apply IH; [done|set_solver].
Qed.

Lemma elem_of_join sep l w c : w ∈ l -> c ∈ w -> c ∈ join sep l.
Proof.
  induction l as [|x l IH]; intros Hw Hc; [by apply not_elem_of_nil in Hw|].
  destruct l as [|y l].
  - by apply list_elem_of_singleton in Hw as ->.
  - rewrite join_cons by done. rewrite !elem_of_app.
    apply elem_of_cons in Hw as [->|Hw]; [by left|]. right. right. by apply IH.
Qed.

Lemma length_slice s a b : (a <= b <= length s)%nat -> length (slice s a b) = (b - a)%nat.
Proof. intros. unfold slice. rewrite length_take, length_drop. lia. Qed.

Lemma slice_app_mid a b c : slice (a ++ b ++ c) (length a) (length a + length b) = b.
Proof.
  unfold slice. rewrite drop_app_length.
  replace (length a + length b - length a)%nat with (length b) by lia. by rewrite take_app_length.
Qed.

Lemma starts_with_at_spec s p i :
  p <> [] ->
  starts_with_at s p i = true <-> forall k c, p !! k = Some c -> s !! (i + k)%nat = Some c.
Proof.
  intros Hp. unfold starts_with_at. rewrite starts_with_spec. split.
  - intros (r & Hr) k c Hk. rewrite <- lookup_drop, Hr. rewrite lookup_app_l; [done|].
    by eapply lookup_lt_Some.
  - intros H. exists (drop (length p) (drop i s)).
    rewrite <- (take_drop (length p) (drop i s)) at 1. f_equal.
    apply list_eq. intros k. destruct (p !! k) as [c|] eqn:Ek.
    + rewrite lookup_take_lt by (by eapply lookup_lt_Some). rewrite lookup_drop. by apply H.
    + apply lookup_ge_None in Ek. apply lookup_take_ge. done.
Qed.

Lemma starts_with_at_length s p i :
  p <> [] -> starts_with_at s p i = true -> (i + length p <= length s)%nat.
Proof.
  intros Hp. unfold starts_with_at. intros (r & Hr)%starts_with_spec.
  assert (length (drop i s) = (length p + length r)%nat) as H by (by rewrite Hr, length_app).
  rewrite length_drop in H. destruct p; [done|]. simpl in *. lia.
Qed.

Lemma index_of_from_Some s p i k :
  index_of_from s p i = Some k ->
  (i <= k)%nat /\ starts_with_at s p k = true /\
  forall j, (i <= j < k)%nat -> starts_with_at s p j = false.
Proof.
  unfold index_of_from, starts_with_at. destruct (index_of (drop i s) p) as [m|] eqn:E; [|done].
  simpl. intros [= <-]. apply index_of_Some in E as ((a & b & Hab & Ha) & Hmin). split; [lia|].
  split.
  - rewrite <- drop_drop, Hab, drop_app_length' by done. apply starts_with_app.
  - intros j Hj. specialize (Hmin (j - i)%nat). rewrite drop_drop in Hmin.
    replace (i + (j - i))%nat with j in Hmin by lia. apply Hmin. lia.
Qed.

Lemma index_of_from_None s p i j :
  index_of_from s p i = None -> (i <= j)%nat -> starts_with_at s p j = false.
Proof.
  unfold index_of_from, starts_with_at. destruct (index_of (drop i s) p) as [m|] eqn:E; [done|].
  intros _ Hj. pose proof (index_of_None (drop i s) p (j - i) E) as H. rewrite drop_drop in H.
  by replace (i + (j - i))%nat with j in H by lia.
Qed.

(** [index_of_from] is determined by being the least occurrence. *)
Lemma index_of_from_unique s p i k :
  (i <= k)%nat -> starts_with_at s p k = true ->
  (forall j, (i <= j < k)%nat -> starts_with_at s p j = false) ->
  index_of_from s p i = Some k.
Proof.
  intros Hik Hk Hmin. destruct (index_of_from s p i) as [m|] eqn:E.
  - apply index_of_from_Some in E as (Him & Hm & Hmin').
    destruct (Nat.lt_trichotomy m k) as [Hlt|[->|Hgt]]; [|done|].
    + by rewrite Hmin in Hm by lia.
    + by rewrite Hmin' in Hk by lia.
  - by rewrite (index_of_from_None _ _ _ _ E Hik) in Hk.
Qed.

(** ** Fuel of [decodeURIComponent] *)

Lemma percent_byte_length s b r : percent_byte s = Some (b, r) -> (length r < length s)%nat.
Proof.
  unfold percent_byte. destruct s as [|p [|h [|l s]]]; try done. destruct (p =? 37); [|done].
  intros (hv & _ & (lv & _ & [= _ <-])%bind_Some)%bind_Some. simpl. lia.
Qed.

Lemma percent_tail_length n acc s v r : percent_tail n acc s = Some (v, r) -> (length r <= length s)%nat.
Proof.
  revert acc s. induction n as [|n IH]; intros acc s; cbn [percent_tail]; [intros [= _ <-]; lia|].
  intros ([b rest] & Hb%percent_byte_length & Ht)%bind_Some. destruct (_ && _)%bool; [|done].
  apply IH in Ht. lia.
Qed.

Lemma percent_char_length s u r : percent_char s = Some (u, r) -> (length r < length s)%nat.
Proof.
  unfold percent_char. intros ([b rest] & Hb%percent_byte_length & Hc)%bind_Some.
  destruct (b <? 0x80); [injection Hc as _ <-; lia|].
  apply bind_Some in Hc as ([[n acc] low] & _ & Hc). apply bind_Some in Hc as ([cp rest'] & Ht & Hc).
  apply percent_tail_length in Ht. destruct (_ || _)%bool; [done|]. injection Hc as _ <-. lia.
Qed.

(** More fuel than the length of the text does not change the decoding. *)
Lemma decode_uri_fuel n s : (length s <= n)%nat -> decode_uri n s = decodeURIComponent s.
Proof.
  unfold decodeURIComponent. revert s. enough (forall m s, (length s <= n)%nat -> (length s <= m)%nat ->
    decode_uri n s = decode_uri m s) as Hgen by (intros; apply Hgen; lia).
  induction n as [|n IH]; intros m s Hn Hm.
  { destruct s; [by destruct m|simpl in Hn; lia]. }
  destruct s as [|c s]; [by destruct m|]. destruct m as [|m]; [simpl in Hm; lia|].
  cbn [decode_uri]. simpl in Hn, Hm. destruct (c =? 37); [|by rewrite (IH m) by lia].
  destruct (percent_char (c :: s)) as [[u rest]|] eqn:E; [|done]. cbn.
  apply percent_char_length in E. simpl in E. by rewrite (IH m) by lia.
Qed.

(** ** Lemmas: [trim] *)

Definition trimmed (s : jsstr) : Prop :=
  (forall c, head s = Some c -> is_js_whitespace c = false) /\
  (forall c, last s = Some c -> is_js_whitespace c = false).

Lemma trim_start_head s c : head (trim_start s) = Some c -> is_js_whitespace c = false.
Proof. induction s as [|d s IH]; simpl; [done|]. destruct (is_js_whitespace d) eqn:E; [done|]. by intros [= <-]. Qed.

Lemma trim_start_id s : (forall c, head s = Some c -> is_js_whitespace c = false) -> trim_start s = s.
Proof. destruct s as [|c s]; simpl; [done|]. intros H. by rewrite H. Qed.

Lemma trim_start_suffix s : exists w, s = w ++ trim_start s.
Proof.
  induction s as [|c s [w IH]]; simpl; [by exists []|]. destruct (is_js_whitespace c); [|by exists []].
  exists (c :: w). simpl. by rewrite <- IH.
Qed.

Lemma trim_trimmed s : trimmed (trim s).
Proof.
  unfold trim. set (t := trim_start s). split.
  - intros c Hc. destruct (trim_start_suffix (reverse t)) as [w Hw].
    apply (f_equal reverse) in Hw. rewrite reverse_involutive, reverse_app in Hw.
    apply (trim_start_head s c). fold t. rewrite Hw. by destruct (reverse (trim_start (reverse t))).
  - intros c. rewrite last_reverse. apply trim_start_head.
Qed.

Lemma trim_id s : trimmed s -> trim s = s.
Proof.
  intros [Hh Hl]. unfold trim. rewrite (trim_start_id s) by done. rewrite trim_start_id; [apply reverse_involutive|].
  intros c. rewrite head_reverse. apply Hl.
Qed.
