(* ===== verification/JsValue.v ===== *)
(** Dynamically typed values ([unknown] in the TypeScript sources) and the
    runtime the repository runs on: the parts of the ECMAScript and WHATWG
    libraries whose behaviour is a data table or a parser outside the repository
    are the operations of the class [Platform]. *)

From S2P Require Import Prelude JsString.

(** ** Values *)

(** A plain object is its own enumerable properties in order; an object with
    another prototype than [Object.prototype] or [null] does not occur in parsed
    JSON and has no constructor here. *)
#[warnings="-register-all"]
Inductive JsVal :=
| JUndefined
| JNull
| JBool (b : bool)
| JNumber (n : Z)
| JString (s : jsstr)
| JArray (l : list JsVal)
| JObject (props : list (jsstr * JsVal)).

(** Induction with hypotheses for the items of arrays and the values of objects. *)
Fixpoint JsVal_nested_ind (P : JsVal -> Prop)
    (Hundef : P JUndefined) (Hnull : P JNull) (Hbool : forall b, P (JBool b))
    (Hnum : forall n, P (JNumber n)) (Hstr : forall s, P (JString s))
    (Harr : forall l, Forall P l -> P (JArray l))
    (Hobj : forall props, Forall (fun kv => P kv.2) props -> P (JObject props)) (v : JsVal) : P v :=
  let rec := JsVal_nested_ind P Hundef Hnull Hbool Hnum Hstr Harr Hobj in
  match v with
  | JUndefined => Hundef
  | JNull => Hnull
  | JBool b => Hbool b
  | JNumber n => Hnum n
  | JString s => Hstr s
  | JArray l => Harr l ((fix go l : Forall P l :=
      match l with [] => Forall_nil_2 _ | x :: l' => Forall_cons_2 _ _ _ (rec x) (go l') end) l)
  | JObject props => Hobj props ((fix go l : Forall (fun kv => P kv.2) l :=
      match l with [] => Forall_nil_2 _ | kv :: l' => Forall_cons_2 _ _ _ (rec kv.2) (go l') end) props)
  end.

#[export] Instance jsval_eq_dec : EqDecision JsVal.
Proof.
  refine (fix go (v w : JsVal) : Decision (v = w) :=
    match v, w with
    | JUndefined, JUndefined => left eq_refl
    | JNull, JNull => left eq_refl
    | JBool a, JBool b => cast_if (decide (a = b))
    | JNumber a, JNumber b => cast_if (decide (a = b))
    | JString a, JString b => cast_if (decide (a = b))
    | JArray a, JArray b => cast_if (@list_eq_dec _ go a b)
    | JObject a, JObject b => cast_if (@list_eq_dec _ (@prod_eq_dec _ _ _ go) a b)
    | _, _ => right _
    end); clear go; abstract congruence.
Defined.

Definition prop_of (props : list (jsstr * JsVal)) (k : jsstr) : JsVal :=
  match list_find (fun kv => kv.1 = k) props with
  | Some (_, (_, v)) => v
  | None => JUndefined
  end.

(** [typeof v === "string"] and [v !== undefined]. *)
Definition as_string (v : JsVal) : option jsstr :=
  match v with JString s => Some s | _ => None end.
Definition is_undefined (v : JsVal) : bool :=
  match v with JUndefined => true | _ => false end.

(** ** The runtime *)

(** The fields of a parsed [URL] the sources read. *)
Record Url := {
  url_protocol : jsstr;
  url_username : jsstr;
  url_password : jsstr;
  url_hostname : jsstr;
  url_port : jsstr;
  url_pathname : jsstr;
  url_search : jsstr;
  url_hash : jsstr;
}.

Class Platform := {
  (** [new URL(s)]; [None] when the constructor throws. *)
  new_URL : jsstr -> option Url;
  (** Unicode case mapping. *)
  toLowerCase : jsstr -> jsstr;
  toUpperCase : jsstr -> jsstr;
  (** [s.normalize("NFKD")] and [s.normalize("NFC")]. *)
  normalize_NFKD : jsstr -> jsstr;
  normalize_NFC : jsstr -> jsstr;
  (** [/\p{C}/u], [/\p{M}/u] and [/\p{L}/u] on one code point. *)
  is_unicode_control : jsstr -> bool;
  is_unicode_mark : jsstr -> bool;
  is_unicode_letter : jsstr -> bool;
}.

Definition ascii_lower (c : Z) : Z := if (65 <=? c) && (c <=? 90) then c + 32 else c.
Definition ascii_upper (c : Z) : Z := if (97 <=? c) && (c <=? 122) then c - 32 else c.
Definition ascii_unit (c : Z) : bool := (0 <=? c) && (c <=? 0x7f).

(** Documented behaviour of the case mappings on ASCII text. *)
Class PlatformLaws `{Platform} : Prop := {
  toLowerCase_ascii s : forallb ascii_unit s = true -> toLowerCase s = ascii_lower <$> s;
  toUpperCase_ascii s : forallb ascii_unit s = true -> toUpperCase s = ascii_upper <$> s;
}.

(** ** A concrete runtime for ASCII text

    Enough of the WHATWG parser for [scheme://host[:port][/path]] with an
    ASCII host: it is used to evaluate the model on concrete inputs. *)

Definition ascii_new_URL (s : jsstr) : option Url :=
  match index_of s (js "://") with
  | None => None
  | Some i =>
      let rest := drop (i + 3) s in
      let authority := match index_of rest (js "/") with Some k => take k rest | None => rest end in
      let path := drop (length authority) rest in
      let '(host, port) :=
        match last_index_of authority 58 with
        | Some k => (take k authority, drop (k + 1) authority)
        | None => (authority, [])
        end in
      if bool_decide (authority = []) then None
      else Some {| url_protocol := (ascii_lower <$> take i s) ++ js ":";
                   url_username := []; url_password := [];
                   url_hostname := ascii_lower <$> host; url_port := port;
                   url_pathname := if bool_decide (path = []) then js "/" else path;
                   url_search := []; url_hash := [] |}
  end.

Definition ascii_platform : Platform := {|
  new_URL := ascii_new_URL;
  toLowerCase s := ascii_lower <$> s;
  toUpperCase s := ascii_upper <$> s;
  normalize_NFKD s := s;
  normalize_NFC s := s;
  is_unicode_control s := false;
  is_unicode_mark s := false;
  is_unicode_letter s := match s with c :: _ => (65 <=? c) && (c <=? 122) | [] => false end;
|}.

Lemma ascii_platform_laws : @PlatformLaws ascii_platform.
Proof. by split. Qed.
