(* ===== verification/JsRecord.v ===== *)
(** Plain objects used as maps ([Record<string, T>] in the sources): reads that
    fall back to [Object.prototype], assignments, spreads and merges. *)

From S2P Require Import Prelude JsString.

(** A record is the list of its own entries in [Object.entries] order (names that
    are array indices, which an engine lists first, do not occur as variable or
    environment names). *)
Abbreviation Rec A := (list (jsstr * A)).

(** The names every object literal inherits from [Object.prototype]. *)
Definition object_prototype_names : list jsstr :=
  [js "constructor"; js "toString"; js "toLocaleString"; js "valueOf"; js "hasOwnProperty";
   js "isPrototypeOf"; js "propertyIsEnumerable"; js "__proto__"; js "__defineGetter__";
   js "__defineSetter__"; js "__lookupGetter__"; js "__lookupSetter__"].

Definition PROTO : jsstr := js "__proto__".

(** The text of an inherited property where a string is expected: a native function,
    or the prototype object itself. *)
Definition inherited_text (name : jsstr) : option jsstr :=
  if bool_decide (name = PROTO) then Some (js "[object Object]")
  else if bool_decide (name ∈ object_prototype_names) then
    Some (js "function " ++ (if bool_decide (name = js "constructor") then js "Object" else name) ++
          js "() { [native code] }")
  else None.

(** ** Operations *)

Fixpoint rec_own {A} (r : Rec A) (k : jsstr) : option A :=
  match r with
  | [] => None
  | (k', v) :: r' => if bool_decide (k' = k) then Some v else rec_own r' k
  end.

Definition rec_keys {A} (r : Rec A) : list jsstr := r.*1.

(** [k in r]. *)
Definition rec_in {A} (r : Rec A) (k : jsstr) : bool :=
  bool_decide (is_Some (rec_own r k)) || bool_decide (k ∈ object_prototype_names).

(** [r[k]] of a record of strings; [None] is [undefined]. *)
Definition rec_get (r : Rec jsstr) (k : jsstr) : option jsstr :=
  match rec_own r k with Some v => Some v | None => inherited_text k end.

(** [r?.[k]]. *)
Definition opt_get (r : option (Rec jsstr)) (k : jsstr) : option jsstr := r ≫= fun r => rec_get r k.

(** Definition of an own property, as a spread and [Object.fromEntries] do. *)
Fixpoint rec_define {A} (r : Rec A) (k : jsstr) (v : A) : Rec A :=
  match r with
  | [] => [(k, v)]
  | (k', v') :: r' => if bool_decide (k' = k) then (k', v) :: r' else (k', v') :: rec_define r' k v
  end.

(** [r[k] = v]: assigning [__proto__] calls the inherited setter, which adds no
    own property. *)
Definition rec_set {A} (r : Rec A) (k : jsstr) (v : A) : Rec A :=
  if bool_decide (k = PROTO) && negb (bool_decide (is_Some (rec_own r k))) then r
  else rec_define r k v.

(** [{ ...a, ...b }]. *)
Definition rec_spread {A} (a b : Rec A) : Rec A :=
  foldl (fun acc kv => rec_define acc kv.1 kv.2) a b.

(** [Object.assign(a, b)]. *)
Definition rec_assign {A} (a b : Rec A) : Rec A :=
  foldl (fun acc kv => rec_set acc kv.1 kv.2) a b.

(** [delete r[k]]. *)
Definition rec_delete {A} (r : Rec A) (k : jsstr) : Rec A := filter (fun kv => kv.1 <> k) r.

(** ** Lemmas *)

Lemma rec_own_elem {A} (r : Rec A) k : is_Some (rec_own r k) <-> k ∈ rec_keys r.
Proof.
  induction r as [|[k' v] r IH]; simpl; [split; [by intros []|set_solver]|].
  case_bool_decide; [subst; split; [set_solver|eauto]|]. rewrite IH, elem_of_cons. naive_solver.
Qed.

Lemma rec_own_None {A} (r : Rec A) k : rec_own r k = None <-> k ∉ rec_keys r.
Proof. rewrite <- rec_own_elem, <- eq_None_not_Some. done. Qed.

Lemma rec_own_define {A} (r : Rec A) k v k' :
  rec_own (rec_define r k v) k' = if bool_decide (k = k') then Some v else rec_own r k'.
Proof.
  induction r as [|[k0 v0] r IH]; simpl; [done|].
  destruct (bool_decide_reflect (k0 = k)); simpl; repeat case_bool_decide; subst; try done;
    rewrite IH; by case_bool_decide.
Qed.

Lemma elem_of_rec_define {A} (r : Rec A) k v kv :
  kv ∈ rec_define r k v -> kv ∈ r \/ kv.2 = v /\ kv.1 = k.
Proof.
  induction r as [|[k0 v0] r IH]; simpl; [set_solver|]. case_bool_decide; set_solver.
Qed.

Lemma rec_keys_define {A} (r : Rec A) k v :
  rec_keys (rec_define r k v) = if bool_decide (k ∈ rec_keys r) then rec_keys r else rec_keys r ++ [k].
Proof.
  unfold rec_keys. induction r as [|[k0 v0] r IH]; csimpl; [done|].
  destruct (bool_decide_reflect (k0 = k)) as [->|]; csimpl.
  - by rewrite bool_decide_eq_true_2 by set_solver.
  - rewrite IH. destruct (bool_decide_reflect (k ∈ r.*1)), (bool_decide_reflect (k ∈ k0 :: r.*1));
      set_solver.
Qed.

Lemma NoDup_rec_define {A} (r : Rec A) k v : NoDup (rec_keys r) -> NoDup (rec_keys (rec_define r k v)).
Proof.
  rewrite rec_keys_define. case_bool_decide; [done|]. intros. apply NoDup_app. split_and!; [done| |].
  - set_solver.
  - apply NoDup_singleton.
Qed.

Lemma rec_define_fresh {A} (r : Rec A) k v : k ∉ rec_keys r -> rec_define r k v = r ++ [(k, v)].
Proof.
  induction r as [|[k0 v0] r IH]; simpl; [done|]. intros Hk.
  rewrite bool_decide_eq_false_2 by set_solver. by rewrite IH by set_solver.
Qed.

Lemma rec_own_set {A} (r : Rec A) k v k' :
  k <> PROTO -> rec_own (rec_set r k v) k' = if bool_decide (k = k') then Some v else rec_own r k'.
Proof. intros. unfold rec_set. rewrite bool_decide_eq_false_2 by done. apply rec_own_define. Qed.

Lemma rec_own_set_other {A} (r : Rec A) k v k' : k <> k' -> rec_own (rec_set r k v) k' = rec_own r k'.
Proof.
  intros. unfold rec_set. destruct (_ && _); [done|]. rewrite rec_own_define.
  by rewrite bool_decide_eq_false_2.
Qed.

Lemma rec_own_app {A} (r r' : Rec A) k :
  rec_own (r ++ r') k = match rec_own r k with Some v => Some v | None => rec_own r' k end.
Proof. induction r as [|[k0 v0] r IH]; simpl; [done|]. by case_bool_decide. Qed.

Lemma rec_own_delete {A} (r : Rec A) k k' :
  rec_own (rec_delete r k) k' = if bool_decide (k = k') then None else rec_own r k'.
Proof.
  unfold rec_delete. induction r as [|[k0 v0] r IH]; [by case_bool_decide|]. rewrite filter_cons. cbn [fst rec_own].
  destruct (decide (k0 <> k)) as [Hne|Heq]; cbn [rec_own]; rewrite IH; repeat case_bool_decide; subst; done || tauto.
Qed.

(** The last binding of a key wins. *)
Lemma rec_own_spread {A} (a b : Rec A) k :
  NoDup (rec_keys b) ->
  rec_own (rec_spread a b) k = match rec_own b k with Some v => Some v | None => rec_own a k end.
Proof.
  unfold rec_spread. revert a. induction b as [|[k0 v0] b IH]; intros a Hnd; [done|].
  apply NoDup_cons in Hnd as [Hk Hnd]. cbn [foldl fst snd rec_own]. rewrite IH by done.
  rewrite rec_own_define. case_bool_decide; [|done]. subst.
  by rewrite (proj2 (rec_own_None b k)).
Qed.

Lemma rec_own_assign {A} (a b : Rec A) k :
  NoDup (rec_keys b) -> k <> PROTO ->
  rec_own (rec_assign a b) k = match rec_own b k with Some v => Some v | None => rec_own a k end.
Proof.
  unfold rec_assign. revert a. induction b as [|[k0 v0] b IH]; intros a Hnd Hk; [done|].
  apply NoDup_cons in Hnd as [Hk0 Hnd]. cbn [foldl fst snd rec_own]. rewrite IH by done.
  destruct (bool_decide_reflect (k0 = k)) as [->|].
  - rewrite (proj2 (rec_own_None b k)) by done. rewrite rec_own_set by done.
    by rewrite bool_decide_eq_true_2.
  - by rewrite rec_own_set_other.
Qed.

Lemma rec_assign_PROTO {A} (b : Rec A) a : rec_own a PROTO = None -> rec_own (rec_assign a b) PROTO = None.
Proof.
  revert a. induction b as [|[k0 v0] b IH]; intros a Ha; simpl; [done|]. apply IH.
  destruct (bool_decide_reflect (k0 = PROTO)) as [->|]; [|by rewrite rec_own_set_other].
  unfold rec_set. by rewrite Ha.
Qed.

Lemma inherited_text_names k : is_Some (inherited_text k) <-> k ∈ object_prototype_names.
Proof.
  assert (PROTO ∈ object_prototype_names)
    by (rewrite <- (bool_decide_eq_true (PROTO ∈ object_prototype_names)); reflexivity).
  unfold inherited_text. destruct (bool_decide_reflect (k = PROTO)) as [->|]; [by split; eauto|].
  case_bool_decide; (split; [|by eauto]); [done|by intros []].
Qed.

Lemma NoDup_rec_set {A} (r : Rec A) k v : NoDup (rec_keys r) -> NoDup (rec_keys (rec_set r k v)).
Proof. intros. unfold rec_set. destruct (_ && _); [done|]. by apply NoDup_rec_define. Qed.

Lemma rec_set_nil_PROTO {A} (r : Rec A) k v : PROTO ∉ rec_keys r -> PROTO ∉ rec_keys (rec_set r k v).
Proof.
  rewrite <- !rec_own_None. intros H. destruct (decide (k = PROTO)) as [->|].
  - unfold rec_set. by rewrite H.
  - by rewrite rec_own_set_other.
Qed.

(** Records built by assignments from the empty one: distinct keys, no [__proto__]. *)
Definition built {A} (r : Rec A) : Prop := NoDup (rec_keys r) /\ PROTO ∉ rec_keys r.

Lemma built_nil {A} : built (@nil (jsstr * A)).
Proof. split; [constructor|set_solver]. Qed.

Lemma built_set {A} (r : Rec A) k v : built r -> built (rec_set r k v).
Proof. intros [H1 H2]. split; [by apply NoDup_rec_set|by apply rec_set_nil_PROTO]. Qed.

Lemma built_foldl {A B} (f : Rec A -> B -> Rec A) l r :
  (forall r x, built r -> built (f r x)) -> built r -> built (foldl f r l).
Proof. intros Hf. revert r; induction l as [|x l IH]; intros r Hr; simpl; auto. Qed.

Lemma built_assign {A} (a b : Rec A) : built a -> built (rec_assign a b).
Proof. apply built_foldl. intros. by apply built_set. Qed.

Lemma rec_own_nil_iff {A} (r : Rec A) : r = [] <-> forall k, rec_own r k = None.
Proof.
  split; [by intros ->|]. destruct r as [|[k v] r]; [done|]. intros H. specialize (H k). simpl in H.
  by rewrite bool_decide_eq_true_2 in H.
Qed.
