(* ===== verification/JsDate.v ===== *)
(** Numbers read from strings ([Number(text)]) and calendar arithmetic of [Date], as far
    as the billing code uses them. *)

From S2P Require Import Prelude JsString.

Module JsDate.

(** ** Number(text)

    [Dec m e] is m times ten to the e; the sources round it to a double, which is exact
    for integers up to 2^53. *)

Inductive JsNumber := NaN | Infinite (negative : bool) | Dec (m e : Z).

Definition is_digit (c : Z) : bool := (48 <=? c) && (c <=? 57).

(** A run of digits: its value, its length and the rest. *)
Fixpoint take_digits (s : jsstr) (acc : Z) (n : nat) : Z * nat * jsstr :=
  match s with
  | c :: s' => if is_digit c then take_digits s' (acc * 10 + (c - 48)) (S n) else (acc, n, s)
  | [] => (acc, n, [])
  end.

Definition take_sign (s : jsstr) : bool * jsstr :=
  match s with
  | 45 :: s' => (true, s')
  | 43 :: s' => (false, s')
  | _ => (false, s)
  end.

(** The exponent part; [None] when the text does not end with it. *)
Definition exponent (s : jsstr) : option Z :=
  match s with
  | [] => Some 0
  | c :: s' =>
      if (c =? 101) || (c =? 69) then
        let '(negative, s'') := take_sign s' in
        let '(v, n, rest) := take_digits s'' 0 0 in
        if (n =? 0)%nat || negb (bool_decide (rest = [])) then None else Some (if negative then - v else v)
      else None
  end.

Definition decimal_literal (s : jsstr) : JsNumber :=
  let '(negative, s) := take_sign s in
  if bool_decide (s = js "Infinity") then Infinite negative
  else
    let '(whole, n, rest) := take_digits s 0 0 in
    let '(m, k, rest) := match rest with
      | 46 :: rest' => take_digits rest' whole 0
      | _ => (whole, 0%nat, rest) end in
    if (n + k =? 0)%nat then NaN
    else match exponent rest with
    | Some e => Dec (if negative then - m else m) (e - Z.of_nat k)
    | None => NaN
    end.

(** [0x], [0o] and [0b] literals. *)
Fixpoint radix_digits (radix : Z) (s : jsstr) (acc : Z) : option Z :=
  match s with
  | [] => Some acc
  | c :: s' => v ← hex_value c; if v <? radix then radix_digits radix s' (acc * radix + v) else None
  end.

Definition radix_of (c : Z) : option Z :=
  if (c =? 120) || (c =? 88) then Some 16
  else if (c =? 111) || (c =? 79) then Some 8
  else if (c =? 98) || (c =? 66) then Some 2 else None.

Definition number_of (text : jsstr) : JsNumber :=
  let s := trim text in
  match s with
  | [] => Dec 0 0
  | 48 :: c :: x :: rest =>
      match radix_of c with
      | Some radix => match radix_digits radix (x :: rest) 0 with Some v => Dec v 0 | None => NaN end
      | None => decimal_literal s
      end
  | _ => decimal_literal s
  end.

Definition integer_of (n : JsNumber) : option Z :=
  match n with
  | Dec m e =>
      if 0 <=? e then Some (m * 10 ^ e) else if m mod 10 ^ (- e) =? 0 then Some (m / 10 ^ (- e)) else None
  | _ => None
  end.

(** [!n]: zero and NaN are falsy. *)
Definition falsy (n : JsNumber) : bool := match n with NaN => true | Infinite _ => false | Dec m _ => m =? 0 end.

(** The parameter of a bigint column: the database rejects fractions and what does not fit
    64 bits. *)
Definition bigint_of (n : JsNumber) : result Z :=
  match integer_of n with
  | Some z => if (- 2 ^ 63 <=? z) && (z <? 2 ^ 63) then Ok z else Throw (js "value is out of range for type bigint")
  | None => Throw (js "invalid input syntax for type bigint")
  end.

Example number_texts :
  number_of <$> [js "20000"; js " 12 "; js ""; js "1.50"; js "-3e2"; js "0x1F"; js "12a"; js "."; js "-Infinity"; js "1e"] =
  [Dec 20000 0; Dec 12 0; Dec 0 0; Dec 150 (-2); Dec (-3) 2; Dec 31 0; NaN; NaN; Infinite true; NaN].
Proof. vm_compute. reflexivity. Qed.

Example bigint_texts :
  (bigint_of ∘ number_of) <$> [js "2.50e1"; js "0.5"; js "9223372036854775808"] =
  [Ok 25; Throw (js "invalid input syntax for type bigint"); Throw (js "value is out of range for type bigint")].
Proof. vm_compute. reflexivity. Qed.

(** ** Calendar

    Days are counted from 1970-01-01; months are numbered from 1 and years start in
    March, in the proleptic Gregorian calendar. *)

Definition DAY_MS : Z := 24 * 60 * 60 * 1000.

(** The first of March of a year, from the first of March of year 0. *)
Definition year_start (y : Z) : Z := y * 365 + y / 4 - y / 100 + y / 400.

(** The first of a month from the first of March: months have 31, 30, 31, 30, 31 days in
    turn, and February is last. *)
Definition month_offset (mp : Z) : Z := (153 * mp + 2) / 5.

(** The day of the first of a month; the month may lie outside 1..12. *)
Definition month_start (year month : Z) : Z :=
  let months := year * 12 + (month - 1) - 2 in
  year_start (months / 12) + month_offset (months mod 12) - 719468.

(** The year and the day in it, counted from March: whole periods of 400, 100, 4 and 1
    years; the last day of a leap period belongs to its last part. *)
Definition march_year (z : Z) : Z * Z :=
  let doe := z mod 146097 in
  let a := Z.min 3 (doe / 36524) in
  let b := (doe - 36524 * a) / 1461 in
  let r := (doe - 36524 * a) mod 1461 in
  let c := Z.min 3 (r / 365) in
  (z / 146097 * 400 + 100 * a + 4 * b + c, r - 365 * c).

(** The year and month of a day and the number of the day in the month. *)
Definition civil_of_days (days : Z) : Z * Z * Z :=
  let '(y, doy) := march_year (days + 719468) in
  let mp := (5 * doy + 2) / 153 in
  let d := doy - month_offset mp + 1 in
  if mp <? 10 then (y, mp + 3, d) else (y + 1, mp - 9, d).

(** [date.setMonth(date.getMonth() + 1)] in universal time: the day of the month is kept,
    and overflows into the month after a shorter one. *)
Definition add_month (ms : Z) : Z :=
  let '(y, m, d) := civil_of_days (ms / DAY_MS) in
  (month_start y (m + 1) + (d - 1)) * DAY_MS + ms mod DAY_MS.

(** 2024-01-31 becomes 2024-03-02, 2023-12-15 becomes 2024-01-15. *)
Example add_month_days :
  (fun d => add_month (d * DAY_MS) / DAY_MS) <$> [month_start 2024 1 + 30; month_start 2023 12 + 14] =
  [month_start 2024 3 + 1; month_start 2024 1 + 14].
Proof. vm_compute. reflexivity. Qed.

(** *** Lemmas *)

(** [lia] with quotients and remainders by constants. *)
Ltac div_lia := Z.to_euclidean_division_equations; lia.

Lemma march_year_spec z y doy :
  march_year z = (y, doy) -> z = year_start y + doy /\ 0 <= doy /\ doy < year_start (y + 1) - year_start y.
Proof.
  unfold march_year. intros [= <- <-].
  assert (forall e a b c, 0 <= a <= 3 -> 0 <= b <= 24 -> 0 <= c <= 3 ->
    year_start (e * 400 + 100 * a + 4 * b + c) = 146097 * e + 36524 * a + 1461 * b + 365 * c) as Hs
    by (intros; unfold year_start; div_lia).
  assert (forall e a b c, 0 <= a <= 3 -> 0 <= b <= 24 -> 0 <= c <= 3 ->
    year_start (e * 400 + 100 * a + 4 * b + c + 1) - year_start (e * 400 + 100 * a + 4 * b + c) =
    365 + (if (c =? 3) && (negb (b =? 24) || (a =? 3)) then 1 else 0)) as Hl.
  { intros. unfold year_start. destruct (Z.eqb_spec c 3), (Z.eqb_spec b 24), (Z.eqb_spec a 3); cbn; div_lia. }
  set (doe := z mod 146097). assert (0 <= doe < 146097) by (unfold doe; div_lia).
  set (a := Z.min 3 (doe / 36524)). assert (0 <= a <= 3) by (unfold a; div_lia).
  set (r1 := doe - 36524 * a). assert (0 <= r1 < 36524 \/ a = 3 /\ 0 <= r1 < 36525) by (unfold r1, a; div_lia).
  set (b := r1 / 1461). assert (0 <= b <= 24) by (unfold b; div_lia).
  set (r := r1 mod 1461). assert (0 <= r < 1461 /\ r1 = 1461 * b + r) by (unfold r, b; div_lia).
  set (c := Z.min 3 (r / 365)). assert (0 <= c <= 3 /\ 365 * c <= r) by (unfold c; div_lia).
  rewrite Hl, Hs by lia. assert (z = 146097 * (z / 146097) + doe) by (unfold doe; div_lia).
  split; [unfold r1 in *; lia|]. split; [lia|].
  destruct (Z.eqb_spec c 3); cbn; [|unfold c in *; div_lia].
  destruct (Z.eqb_spec b 24), (Z.eqb_spec a 3); cbn; lia.
Qed.

(** The first of the month and the day of the month give the day back, and the next month
    starts 28 to 31 days after this one. *)
Lemma civil_of_days_spec z y m d :
  civil_of_days z = (y, m, d) ->
  month_start y m + (d - 1) = z /\ 28 <= month_start y (m + 1) - month_start y m <= 31.
Proof.
  unfold civil_of_days. destruct (march_year (z + 719468)) as [y0 doy] eqn:E.
  apply march_year_spec in E as (Ez & Hd0 & Hd1). set (mp := (5 * doy + 2) / 153).
  assert (365 <= year_start (y0 + 1) - year_start y0 <= 366) as Hy by (unfold year_start; div_lia).
  assert (0 <= mp <= 11) as Hmp by (unfold mp; div_lia).
  assert (forall k, 0 <= k <= 11 -> (y0 * 12 + k) / 12 = y0 /\ (y0 * 12 + k) mod 12 = k) as Hdm by (intros; div_lia).
  assert (year_start y0 + month_offset mp - 719468 + (doy - month_offset mp + 1 - 1) = z) as H1 by lia.
  assert (28 <= (if mp =? 11 then year_start (y0 + 1) + month_offset 0
                 else year_start y0 + month_offset (mp + 1)) - (year_start y0 + month_offset mp) <= 31) as H2.
  { unfold month_offset. destruct (Z.eqb_spec mp 11) as [->|]; div_lia. }
  assert (forall year month, year * 12 + (month - 1) - 2 = y0 * 12 + mp ->
    month_start year month = year_start y0 + month_offset mp - 719468 /\
    month_start year (month + 1) = (if mp =? 11 then year_start (y0 + 1) + month_offset 0
      else year_start y0 + month_offset (mp + 1)) - 719468) as Hm.
  { intros year month Hym. unfold month_start.
    replace (year * 12 + (month + 1 - 1) - 2) with (y0 * 12 + mp + 1) by lia. rewrite Hym.
    destruct (Hdm mp Hmp) as [-> ->]. split; [done|]. destruct (Z.eqb_spec mp 11) as [->|].
    - replace (y0 * 12 + 11 + 1) with ((y0 + 1) * 12) by lia. by rewrite Z.div_mul, Z.mod_mul.
    - replace (y0 * 12 + mp + 1) with (y0 * 12 + (mp + 1)) by lia. by destruct (Hdm (mp + 1) ltac:(lia)) as [-> ->]. }
  destruct (Z.ltb_spec mp 10); intros [= <- <- <-];
    match goal with |- month_start ?yy ?mm + _ = _ /\ _ => destruct (Hm yy mm) as [-> ->]; [lia|] end; split; lia.
Qed.

(** One month later is 28 to 31 days later. *)
Lemma add_month_bounds ms : 28 * DAY_MS <= add_month ms - ms <= 31 * DAY_MS.
Proof.
  unfold add_month. destruct (civil_of_days (ms / DAY_MS)) as [[y m] d] eqn:E.
  apply civil_of_days_spec in E as [E1 E2]. pose proof (Z.div_mod ms DAY_MS ltac:(by unfold DAY_MS)).
  unfold DAY_MS in *. lia.
Qed.

End JsDate.
