(* ===== verification/SegmentParser.v ===== *)
(** The grammar of one host or path segment
    (turbo/packages/connectors/src/segment-parser.ts): [parseSegment],
    [splitPathSegments], and the theorems that the parser accepts exactly the
    documented forms. *)

From S2P Require Import Prelude JsString.

Module SegmentParser.

(** ** Data *)

Inductive Greedy := GNone | GPlus | GStar.

#[export] Instance greedy_eq_dec : EqDecision Greedy.
Proof. solve_decision. Defined.

Inductive SegmentParseResult :=
| SLiteral (value : jsstr)
| SParam (prefix name suffix : jsstr) (greedy : Greedy)
| SError (reason : jsstr).

Definition LBRACE : Z := 123.
Definition RBRACE : Z := 125.
Definition PLUS : Z := 43.
Definition STAR : Z := 42.
Definition SLASH : Z := 47.

(** ** Operations *)

Definition ERROR_HINT : jsstr :=
  js "use " ++ quoted (js "{name}") ++ js ", " ++ quoted (js "prefix{name}") ++ js ", " ++
  quoted (js "{name}suffix") ++ js ", or " ++ quoted (js "prefix{name}suffix").

Definition em_dash : jsstr := js " " ++ [0x2014] ++ js " ".

Definition unbalanced (seg : jsstr) : SegmentParseResult :=
  SError (js "unbalanced brace in segment " ++ quoted seg ++ em_dash ++ ERROR_HINT).
Definition adjacent_params (seg : jsstr) : SegmentParseResult :=
  SError (js "adjacent parameters in segment " ++ quoted seg ++ em_dash ++
          js "only one parameter per segment is allowed; " ++ ERROR_HINT).
Definition separated_params (seg : jsstr) : SegmentParseResult :=
  SError (js "literal-separated parameters in segment " ++ quoted seg ++ em_dash ++
          js "only one parameter per segment is allowed; " ++ ERROR_HINT).
Definition empty_param_name (seg : jsstr) : SegmentParseResult :=
  SError (js "empty parameter name in segment " ++ quoted seg ++ em_dash ++ ERROR_HINT).

Fixpoint countChar (s : jsstr) (ch : Z) : nat :=
  match s with
  | [] => 0
  | c :: s' => if c =? ch then S (countChar s' ch) else countChar s' ch
  end.

(** The optional trailing marker is stripped before the emptiness check. *)
Definition splitGreedy (content : jsstr) : jsstr * Greedy :=
  match last content with
  | Some c =>
      if c =? PLUS then (drop_last content, GPlus)
      else if c =? STAR then (drop_last content, GStar)
      else (content, GNone)
  | None => (content, GNone)
  end.

(** The two [indexOf] results are both found when control reaches them: the brace
    counts are equal and not zero. *)
Definition parseSegment (seg : jsstr) : SegmentParseResult :=
  let openCount := countChar seg LBRACE in
  let closeCount := countChar seg RBRACE in
  if (openCount =? 0)%nat && (closeCount =? 0)%nat then SLiteral seg
  else if negb (openCount =? closeCount)%nat then unbalanced seg
  else match index_of seg [LBRACE], index_of seg [RBRACE] with
  | Some open1, Some close1 =>
      if (close1 <? open1)%nat then unbalanced seg
      else if (2 <=? openCount)%nat then
        if bool_decide (index_of_from seg [LBRACE] (close1 + 1) = Some (close1 + 1)%nat)
        then adjacent_params seg else separated_params seg
      else
        let prefix := slice seg 0 open1 in
        let content := slice seg (open1 + 1) close1 in
        let suffix := drop (close1 + 1) seg in
        if includes prefix [LBRACE] || includes prefix [RBRACE] ||
           includes suffix [LBRACE] || includes suffix [RBRACE] then unbalanced seg
        else
          let '(name, greedy) := splitGreedy content in
          if bool_decide (name = []) then empty_param_name seg
          else SParam prefix name suffix greedy
  | _, _ => unbalanced seg
  end.

Definition splitPathSegments (path : jsstr) : list jsstr :=
  if bool_decide (path = []) || bool_decide (path = [SLASH]) then []
  else
    let pathWithoutLeadingSlash := if starts_with path [SLASH] then drop 1 path else path in
    if bool_decide (pathWithoutLeadingSlash = []) then []
    else split_on SLASH pathWithoutLeadingSlash.

(** ** Specification *)

Definition brace_free (s : jsstr) : Prop := (LBRACE ∉ s) /\ (RBRACE ∉ s).

#[export] Instance brace_free_dec s : Decision (brace_free s).
Proof. unfold brace_free. apply _. Defined.

Definition greedy_text (g : Greedy) : jsstr :=
  match g with GNone => [] | GPlus => [PLUS] | GStar => [STAR] end.

(** The text of a parameter segment. *)
Definition render_param (prefix name suffix : jsstr) (g : Greedy) : jsstr :=
  prefix ++ [LBRACE] ++ (name ++ greedy_text g) ++ [RBRACE] ++ suffix.

(** The parts of a documented parameter segment. A name without a marker does not
    end in [+] or [*], which would be read as one. *)
Definition param_wf (prefix name suffix : jsstr) (g : Greedy) : Prop :=
  brace_free prefix /\ brace_free name /\ brace_free suffix /\ name <> [] /\
  (g = GNone -> last name <> Some PLUS /\ last name <> Some STAR).

(** ** Lemmas *)

Lemma countChar_zero s c : countChar s c = 0%nat <-> c ∉ s.
Proof.
  induction s as [|d s IH]; simpl; [by split; [intros _; apply not_elem_of_nil|]|].
  rewrite not_elem_of_cons, <- IH. destruct (Z.eqb_spec d c); naive_solver lia.
Qed.

Lemma countChar_app s t c : countChar (s ++ t) c = (countChar s c + countChar t c)%nat.
Proof. induction s as [|d s IH]; simpl; [done|]. rewrite IH. by destruct (d =? c). Qed.

Lemma countChar_notin s c : c ∉ s -> countChar s c = 0%nat.
Proof. by rewrite countChar_zero. Qed.

Lemma splitGreedy_spec content name g :
  splitGreedy content = (name, g) <->
  content = name ++ greedy_text g /\
  (g = GNone -> last name <> Some PLUS /\ last name <> Some STAR).
Proof.
  unfold splitGreedy.
  destruct content as [|x l _] using rev_ind; simpl.
  - split.
    + intros [= <- <-]. done.
    + intros [H _]. destruct name; [|done]. by destruct g.
  - rewrite last_snoc, drop_last_app.
    assert (forall c, l ++ [x] = name ++ [c] <-> l = name /\ x = c) as Hsnoc.
    { intros c. split; [apply app_inj_tail|by intros [-> ->]]. }
    destruct (Z.eqb_spec x PLUS) as [->|Hp]; [|destruct (Z.eqb_spec x STAR) as [->|Hs]].
    + split; [intros [= <- <-]; done|]. intros [H Hg]. destruct g; simpl in H.
      * rewrite app_nil_r in H. subst. rewrite last_snoc in Hg. naive_solver.
      * by apply Hsnoc in H as [-> _].
      * by apply Hsnoc in H as [_ ?].
    + split; [intros [= <- <-]; done|]. intros [H Hg]. destruct g; simpl in H.
      * rewrite app_nil_r in H. subst. rewrite last_snoc in Hg. naive_solver.
      * by apply Hsnoc in H as [_ ?].
      * by apply Hsnoc in H as [-> _].
    + split.
      * intros [= <- <-]. rewrite app_nil_r, last_snoc. naive_solver.
      * intros [H Hg]. destruct g; simpl in H; [by rewrite app_nil_r in H; subst| |];
          by apply Hsnoc in H as [_ ?].
Qed.

Lemma brace_free_greedy name g : brace_free name -> brace_free (name ++ greedy_text g).
Proof.
  unfold brace_free. rewrite !not_elem_of_app. intros [? ?].
  destruct g; simpl; rewrite ?list_elem_of_singleton; split; split; try done; apply not_elem_of_nil.
Qed.

Lemma brace_free_literal s : brace_free s -> parseSegment s = SLiteral s.
Proof.
  intros [Ho Hc]. unfold parseSegment.
  by rewrite (countChar_notin _ _ Ho), (countChar_notin _ _ Hc).
Qed.

(** A segment with exactly one [{] before exactly one [}]. *)
Lemma parseSegment_one prefix content suffix :
  brace_free prefix -> brace_free content -> brace_free suffix ->
  let seg := prefix ++ [LBRACE] ++ content ++ [RBRACE] ++ suffix in
  parseSegment seg =
    let '(name, greedy) := splitGreedy content in
    if bool_decide (name = []) then empty_param_name seg
    else SParam prefix name suffix greedy.
Proof.
  intros [Hpo Hpc] [Hco Hcc] [Hso Hsc] seg.
  assert (countChar seg LBRACE = 1%nat) as Eo.
  { unfold seg. rewrite !countChar_app.
    by rewrite (countChar_notin prefix), (countChar_notin content), (countChar_notin suffix). }
  assert (countChar seg RBRACE = 1%nat) as Ec.
  { unfold seg. rewrite !countChar_app.
    by rewrite (countChar_notin prefix), (countChar_notin content), (countChar_notin suffix). }
  assert (index_of seg [LBRACE] = Some (length prefix)) as Io.
  { by apply index_of_char_app. }
  assert (seg = (prefix ++ [LBRACE] ++ content) ++ RBRACE :: suffix) as Eseg.
  { unfold seg. by rewrite <- !app_assoc. }
  assert (index_of seg [RBRACE] = Some (length prefix + 1 + length content)%nat) as Ic.
  { rewrite Eseg, index_of_char_app.
    - rewrite !length_app. simpl. f_equal. lia.
    - rewrite !not_elem_of_app, list_elem_of_singleton. by split. }
  unfold parseSegment. rewrite Eo, Ec, Io, Ic.
  cbn -[slice drop includes splitGreedy Nat.ltb Nat.add].
  replace (length prefix + 1 + length content <? length prefix)%nat with false
    by (symmetry; apply Nat.ltb_ge; lia).
  assert (slice seg 0 (length prefix) = prefix) as ->.
  { unfold slice, seg. rewrite drop_0, Nat.sub_0_r. apply take_app_length. }
  assert (slice seg (length prefix + 1) (length prefix + 1 + length content) = content) as ->.
  { unfold seg. rewrite (app_assoc prefix [LBRACE]).
    replace (length prefix + 1)%nat with (length (prefix ++ [LBRACE])) by (by rewrite length_app).
    apply slice_app_mid. }
  assert (drop (length prefix + 1 + length content + 1) seg = suffix) as ->.
  { rewrite Eseg, (app_assoc _ [RBRACE] suffix : _ ++ RBRACE :: suffix = _).
    apply drop_app_length'. rewrite !length_app. simpl. lia. }
  by rewrite !(proj2 (includes_char_false _ _)) by done.
Qed.

Lemma countChar_one s c : countChar s c = 1%nat -> exists a b, s = a ++ c :: b /\ (c ∉ a) /\ (c ∉ b).
Proof.
  induction s as [|d s IH]; simpl; [done|].
  destruct (Z.eqb_spec d c) as [->|Hne].
  - intros [= H]. exists [], s. rewrite countChar_zero in H. split_and!; [done| |done]. apply not_elem_of_nil.
  - intros H. destruct (IH H) as (a & b & -> & Ha & Hb). exists (d :: a), b.
    split_and!; [done| |done]. by apply not_elem_of_cons.
Qed.

(** Every segment falls in one of three shapes. *)
Lemma parseSegment_shapes seg :
  brace_free seg \/
  (exists prefix content suffix, brace_free prefix /\ brace_free content /\ brace_free suffix /\
     seg = prefix ++ [LBRACE] ++ content ++ [RBRACE] ++ suffix) \/
  (~ brace_free seg /\ exists reason, parseSegment seg = SError reason).
Proof.
  destruct (decide (brace_free seg)) as [Hb|Hb]; [by left|]. right.
  unfold parseSegment.
  destruct ((countChar seg LBRACE =? 0)%nat && (countChar seg RBRACE =? 0)%nat) eqn:E0.
  { apply andb_true_iff in E0 as [?%Nat.eqb_eq ?%Nat.eqb_eq]. exfalso. apply Hb.
    by split; apply countChar_zero. }
  destruct (negb (countChar seg LBRACE =? countChar seg RBRACE)%nat) eqn:E1; [right; unfold unbalanced; eauto|].
  apply negb_false_iff, Nat.eqb_eq in E1. rewrite <- E1 in E0.
  rewrite andb_diag in E0. apply Nat.eqb_neq in E0.
  destruct (index_of seg [LBRACE]) as [i|] eqn:Ei; [|right; unfold unbalanced; eauto].
  destruct (index_of seg [RBRACE]) as [j|] eqn:Ej; [|right; unfold unbalanced; eauto].
  destruct (j <? i)%nat eqn:Eji; [right; unfold unbalanced; eauto|].
  apply Nat.ltb_ge in Eji.
  destruct (2 <=? countChar seg LBRACE)%nat eqn:E2.
  { right. unfold adjacent_params, separated_params. split; [done|]. case_bool_decide; eauto. }
  apply Nat.leb_gt in E2. left.
  destruct (countChar_one seg LBRACE) as (a & b & -> & Ha & Hb'); [lia|].
  rewrite index_of_char_app in Ei by done. injection Ei as <-.
  assert (RBRACE ∉ a) as Har.
  { intros Hin. destruct (index_of_char_lt a (LBRACE :: b) RBRACE Hin) as (k & Ek & Hk).
    rewrite Ek in Ej. injection Ej as <-. lia. }
  assert (countChar b RBRACE = 1%nat) as Hone.
  { rewrite !countChar_app in E1. cbn [countChar] in E1.
    change (LBRACE =? LBRACE) with true in E1. change (LBRACE =? RBRACE) with false in E1.
    rewrite (countChar_notin a LBRACE), (countChar_notin a RBRACE), (countChar_notin b LBRACE) in E1 by done.
    by symmetry. }
  destruct (countChar_one b RBRACE Hone) as (c & d & -> & Hc & Hd).
  exists a, c, d. rewrite !not_elem_of_app, not_elem_of_cons in Hb'.
  unfold brace_free. naive_solver.
Qed.

(** ** Theorems *)

Lemma parseSegment_param_iff seg prefix name suffix g :
  parseSegment seg = SParam prefix name suffix g <->
  seg = render_param prefix name suffix g /\ param_wf prefix name suffix g.
Proof.
  split.
  - intros Hp. destruct (parseSegment_shapes seg) as [Hb|[(p & c & s & Hp' & Hc & Hs & ->)|(_ & r & Hr)]].
    + by rewrite (brace_free_literal seg Hb) in Hp.
    + rewrite parseSegment_one in Hp by done.
      destruct (splitGreedy c) as [n g'] eqn:Eg. case_bool_decide; [done|].
      injection Hp as -> -> -> ->. apply splitGreedy_spec in Eg as [-> Hg].
      split; [done|]. unfold param_wf, brace_free in *. rewrite !not_elem_of_app in Hc. naive_solver.
    + by rewrite Hr in Hp.
  - intros [-> (Hp & Hn & Hs & Hne & Hg)]. unfold render_param.
    rewrite parseSegment_one; [|done|by apply brace_free_greedy|done].
    rewrite (proj2 (splitGreedy_spec _ name g)) by done. by rewrite bool_decide_eq_false_2.
Qed.

(** [parseSegment] returns a parameter exactly on the text of a documented
    parameter segment, [prefix{name}suffix] with an optional [+] or [*] after the
    name, and the parts it returns are the parts of that text: parsing and
    rendering are inverse on the accepted forms. *)
Theorem parseSegment_param seg prefix name suffix g :
  parseSegment seg = SParam prefix name suffix g <->
  seg = render_param prefix name suffix g /\ param_wf prefix name suffix g.
Proof. apply parseSegment_param_iff. Qed.

Lemma parseSegment_literal seg v : parseSegment seg = SLiteral v <-> v = seg /\ brace_free seg.
Proof.
  split.
  - intros Hp. destruct (parseSegment_shapes seg) as [Hb|[(p & c & s & Hp' & Hc & Hs & ->)|(_ & r & Hr)]].
    + rewrite (brace_free_literal seg Hb) in Hp. injection Hp as <-. done.
    + rewrite parseSegment_one in Hp by done. destruct (splitGreedy c). by case_bool_decide.
    + by rewrite Hr in Hp.
  - intros [-> Hb]. by apply brace_free_literal.
Qed.

(** [parseSegment] rejects a segment exactly when the segment is neither a
    plain literal nor the text of a documented parameter segment: unbalanced,
    adjacent or separated braces and empty names are errors and nothing else is. *)
Theorem parseSegment_error seg :
  (exists reason, parseSegment seg = SError reason) <->
  ~ brace_free seg /\
  ~ (exists prefix name suffix g,
       seg = render_param prefix name suffix g /\ param_wf prefix name suffix g).
Proof.
  split.
  - intros (r & Hr). split.
    + intros Hb%brace_free_literal. congruence.
    + intros (p & n & s & g & Hp%parseSegment_param_iff). congruence.
  - intros [Hb Hp]. destruct (parseSegment seg) as [v|p n s g|r] eqn:E; [| |eauto].
    + apply parseSegment_literal in E as [_ E]. done.
    + exfalso. apply Hp. exists p, n, s, g. by apply parseSegment_param_iff.
Qed.

Lemma splitPathSegments_slash rest :
  splitPathSegments (SLASH :: rest) = if bool_decide (rest = []) then [] else split_on SLASH rest.
Proof.
  destruct rest as [|c r]; [done|]. unfold splitPathSegments.
  rewrite !bool_decide_eq_false_2 by done. cbn [orb].
  by change (starts_with (SLASH :: c :: r) [SLASH]) with true.
Qed.

(** Splitting an absolute path into segments loses nothing: joining the
    segments with [/] behind a leading [/] gives the path back, and no segment
    contains a [/]. *)
Theorem splitPathSegments_roundtrip path :
  starts_with path [SLASH] = true ->
  path = SLASH :: join [SLASH] (splitPathSegments path) /\
  (forall seg, seg ∈ splitPathSegments path -> SLASH ∉ seg).
Proof.
  intros (rest & ->)%starts_with_spec. simpl. rewrite splitPathSegments_slash.
  case_bool_decide as Hr; [subst; split; [done|by intros ? ?%not_elem_of_nil]|].
  rewrite join_split. split; [done|]. intros seg. apply split_on_no_sep.
Qed.

Lemma splitPathSegments_roundtrip_witness :
  let path := js "/v1/{id}/files" in
  starts_with path [SLASH] = true /\
  path = SLASH :: join [SLASH] (splitPathSegments path) /\
  (forall seg, seg ∈ splitPathSegments path -> SLASH ∉ seg).
Proof. split; [reflexivity|]. apply splitPathSegments_roundtrip. reflexivity. Defined.

End SegmentParser.
