(* ===== verification/UrlUtils.v ===== *)
(** Raw URL text checks (turbo/packages/connectors/src/firewall-url-utils.ts). *)

From S2P Require Import Prelude JsString.

Module UrlUtils.

Definition is_raw_whitespace (c : Z) : bool :=
  (c =? 32) || (c =? 9) || (c =? 10) || (c =? 13) || (c =? 12) || (c =? 11).

Definition hasRawWhitespace (value : jsstr) : bool := existsb is_raw_whitespace value.

Definition ASCII_CONTROL_MAX : Z := 0x20.
Definition ASCII_DELETE : Z := 0x7f.

(** The loop skips the low half of a well-formed surrogate pair. *)
Fixpoint hasUnsafeUrlCodepoint (value : jsstr) : bool :=
  match value with
  | [] => false
  | codeUnit :: rest =>
      if (codeUnit <? ASCII_CONTROL_MAX) || (codeUnit =? ASCII_DELETE) then true
      else if is_high_surrogate codeUnit then
        match rest with
        | next :: rest' => if is_low_surrogate next then hasUnsafeUrlCodepoint rest' else true
        | [] => true
        end
      else if is_low_surrogate codeUnit then true
      else hasUnsafeUrlCodepoint rest
  end.

(** ** Specification *)

(** Well-formed UTF-16 without ASCII control characters. *)
Inductive safe_text : jsstr -> Prop :=
| safe_nil : safe_text []
| safe_unit c s :
    0x20 <= c -> c <> 0x7f -> (c < 0xd800 \/ 0xdfff < c) -> safe_text s -> safe_text (c :: s)
| safe_pair h l s :
    0xd800 <= h <= 0xdbff -> 0xdc00 <= l <= 0xdfff -> safe_text s -> safe_text (h :: l :: s).

Lemma hasUnsafe_complete s : safe_text s -> hasUnsafeUrlCodepoint s = false.
Proof.
  unfold ASCII_CONTROL_MAX, ASCII_DELETE, is_high_surrogate, is_low_surrogate.
  induction 1 as [|c s H1 H2 H3 _ IH|h l s Hh Hl _ IH]; cbn [hasUnsafeUrlCodepoint]; [done| |];
    unfold ASCII_CONTROL_MAX, ASCII_DELETE, is_high_surrogate, is_low_surrogate.
  - destruct (Z.ltb_spec c 32), (Z.eqb_spec c 127), (Z.leb_spec 55296 c), (Z.leb_spec c 56319),
      (Z.leb_spec 56320 c), (Z.leb_spec c 57343); simpl; try done; lia.
  - destruct (Z.ltb_spec h 32), (Z.eqb_spec h 127), (Z.leb_spec 55296 h), (Z.leb_spec h 56319),
      (Z.leb_spec 56320 l), (Z.leb_spec l 57343); simpl; try done; lia.
Qed.

Lemma hasUnsafe_sound n s : (length s <= n)%nat -> hasUnsafeUrlCodepoint s = false -> safe_text s.
Proof.
  revert s; induction n as [|n IH]; intros [|c s]; simpl; try (by constructor); try lia.
  intros Hn. unfold ASCII_CONTROL_MAX, ASCII_DELETE, is_high_surrogate, is_low_surrogate.
  destruct (Z.ltb_spec c 32), (Z.eqb_spec c 127); simpl; try done.
  destruct (Z.leb_spec 55296 c), (Z.leb_spec c 56319), (Z.leb_spec 56320 c), (Z.leb_spec c 57343);
    simpl; try done; try lia;
    try (intros Hs; apply safe_unit; [lia|lia|lia|apply IH; [lia|done]]).
  all: destruct s as [|d s]; [done|]; simpl in *;
    destruct (Z.leb_spec 56320 d), (Z.leb_spec d 57343); simpl; try done;
    intros Hs; apply safe_pair; [lia|lia|apply IH; [lia|done]].
Qed.

(** [hasUnsafeUrlCodepoint] answers false exactly on well-formed UTF-16 text
    without ASCII control characters: every lone surrogate and every control unit
    is found, and a correct surrogate pair is not mistaken for one. *)
Theorem hasUnsafeUrlCodepoint_spec value :
  hasUnsafeUrlCodepoint value = false <-> safe_text value.
Proof. split; [by apply (hasUnsafe_sound (length value))|apply hasUnsafe_complete]. Qed.

End UrlUtils.
