(* ===== verification/Templates.v ===== *)
(** Auth templates of firewall configurations
    (turbo/packages/connectors/src/firewall-types.ts, first half): the data of a
    firewall configuration, the [${{ secrets.X }}] and [${{ vars.X }}] references,
    the [${{ basic(a, b) }}] parser and the extraction of secret names. *)

From S2P Require Import Prelude JsString JsRecord.

Module Templates.

(** ** Data *)

Record FirewallPermission := {
  perm_name : jsstr;
  perm_description : option jsstr;
  perm_rules : list jsstr;
}.

Record FirewallAwsSigv4Auth := {
  accessKeyId : jsstr;
  secretAccessKey : jsstr;
  sessionToken : option jsstr;
}.

(** A record of strings is the list of its entries in [Object.entries] order. *)
Record FirewallAuth := {
  auth_headers : option (list (jsstr * jsstr));
  auth_base : option jsstr;
  auth_query : option (list (jsstr * jsstr));
  auth_awsSigv4 : option FirewallAwsSigv4Auth;
}.

Record FirewallApi := {
  api_base : jsstr;
  api_auth : FirewallAuth;
  api_permissions : option (list FirewallPermission);
}.

Record FirewallConfig := {
  fc_name : jsstr;
  fc_description : option jsstr;
  fc_apis : list FirewallApi;
  fc_placeholders : option (list (jsstr * jsstr));
}.

Inductive FirewallTemplateReferenceNamespace := NsSecrets | NsVars.

#[export] Instance ns_eq_dec : EqDecision FirewallTemplateReferenceNamespace.
Proof. solve_decision. Defined.

(** [{}], [{ namespace, key }] or [{ literal }]. *)
Inductive BasicAuthTemplateArg :=
| ArgEmpty
| ArgRef (ns : FirewallTemplateReferenceNamespace) (key : jsstr)
| ArgLiteral (literal : jsstr).

Record BasicAuthTemplateMatch := {
  bm_start : nat;
  bm_end : nat;
  bm_first : BasicAuthTemplateArg;
  bm_second : BasicAuthTemplateArg;
}.

(** ** Characters and identifiers *)

Definition isTemplateWhitespace (c : Z) : bool :=
  (c =? 32) || (c =? 9) || (c =? 10) || (c =? 13) || (c =? 12) || (c =? 11).

(** The number of leading units that satisfy [f]. *)
Fixpoint span_length (f : Z -> bool) (s : jsstr) : nat :=
  match s with
  | c :: s' => if f c then S (span_length f s') else 0
  | [] => 0
  end.

Definition skipTemplateWhitespace (template : jsstr) (index : nat) : nat :=
  index + span_length isTemplateWhitespace (drop index template).

Definition isIdentifierStart (c : Z) : bool :=
  (c =? 95) || ((65 <=? c) && (c <=? 90)) || ((97 <=? c) && (c <=? 122)).
Definition isIdentifierPart (c : Z) : bool :=
  isIdentifierStart c || ((48 <=? c) && (c <=? 57)).

Definition parseTemplateIdentifier (template : jsstr) (index : nat) : option (jsstr * nat) :=
  match template !! index with
  | None => None
  | Some c =>
      if isIdentifierStart c then
        let nextIndex := (index + 1 + span_length isIdentifierPart (drop (index + 1) template))%nat in
        Some (slice template index nextIndex, nextIndex)
      else None
  end.

(** ** The basic() parser *)

(** One [Int32Array] of next occurrences; [None] is -1. The loop runs from the
    right and carries the last occurrence seen, which is the head of the rest. *)
Fixpoint next_indexes (test : jsstr -> bool) (s : jsstr) (i : nat) : list (option nat) :=
  match s with
  | [] => [None]
  | _ :: s' =>
      let rest := next_indexes test s' (S i) in
      (if test s then Some i else default None (head rest)) :: rest
  end.

Record BasicAuthTemplateParserContext := {
  nextQuoteIndexes : list (option nat);
  nextBackslashIndexes : list (option nat);
  nextTemplateIndexes : list (option nat);
}.

Definition DOLLAR_BRACES : jsstr := js "${{".
Definition BASIC_OPEN : jsstr := js "basic(".

Definition createBasicAuthTemplateParserContext (template : jsstr) : BasicAuthTemplateParserContext := {|
  nextQuoteIndexes := next_indexes (fun s => starts_with s [34]) template 0;
  nextBackslashIndexes := next_indexes (fun s => starts_with s [92]) template 0;
  nextTemplateIndexes := next_indexes (fun s => starts_with s DOLLAR_BRACES) template 0;
|}.

(** [context.nextXIndexes[i] ?? -1]. *)
Definition at_index (l : list (option nat)) (i : nat) : option nat := default None (l !! i).

Definition parseBasicAuthTemplateArg (context : BasicAuthTemplateParserContext)
    (template : jsstr) (index : nat) : option BasicAuthTemplateArg * nat :=
  let nextIndex := skipTemplateWhitespace template index in
  let char := template !! nextIndex in
  if bool_decide (char = Some 44) || bool_decide (char = Some 41) then (Some ArgEmpty, nextIndex)
  else if bool_decide (char = Some 34) then
    let literalStart := (nextIndex + 1)%nat in
    match at_index (nextQuoteIndexes context) literalStart with
    | None =>
        (None, match at_index (nextTemplateIndexes context) literalStart with
               | None => length template
               | Some nestedTemplateStart => nestedTemplateStart
               end)
    | Some quoteIndex =>
        match at_index (nextBackslashIndexes context) literalStart with
        | Some escapeIndex =>
            if (escapeIndex <? quoteIndex)%nat then
              (None, match at_index (nextTemplateIndexes context) literalStart with
                     | Some nestedTemplateStart =>
                         if (nestedTemplateStart <? escapeIndex)%nat
                         then nestedTemplateStart else (escapeIndex + 1)%nat
                     | None => (escapeIndex + 1)%nat
                     end)
            else (Some (ArgLiteral (slice template literalStart quoteIndex)), (quoteIndex + 1)%nat)
        | None => (Some (ArgLiteral (slice template literalStart quoteIndex)), (quoteIndex + 1)%nat)
        end
    end
  else
    let namespace :=
      if starts_with_at template (js "secrets.") nextIndex then Some (NsSecrets, (nextIndex + 8)%nat)
      else if starts_with_at template (js "vars.") nextIndex then Some (NsVars, (nextIndex + 5)%nat)
      else None in
    match namespace with
    | None => (None, nextIndex)
    | Some (ns, nextIndex') =>
        match parseTemplateIdentifier template nextIndex' with
        | None => (None, nextIndex')
        | Some (key, keyIndex) => (Some (ArgRef ns key), keyIndex)
        end
    end.

Definition parseBasicAuthTemplateAt (context : BasicAuthTemplateParserContext)
    (template : jsstr) (start : nat) : option BasicAuthTemplateMatch * nat :=
  let index := skipTemplateWhitespace template (start + 3) in
  if negb (starts_with_at template BASIC_OPEN index) then (None, (start + 3)%nat)
  else
    let '(first, firstIndex) := parseBasicAuthTemplateArg context template (index + 6) in
    match first with
    | None => (None, firstIndex)
    | Some firstArg =>
        let index := skipTemplateWhitespace template firstIndex in
        if negb (bool_decide (template !! index = Some 44)) then (None, Nat.max (index + 1) firstIndex)
        else
          let '(second, secondIndex) := parseBasicAuthTemplateArg context template (index + 1) in
          match second with
          | None => (None, secondIndex)
          | Some secondArg =>
              let index := skipTemplateWhitespace template secondIndex in
              if negb (bool_decide (template !! index = Some 41))
              then (None, Nat.max (index + 1) secondIndex)
              else
                let index := skipTemplateWhitespace template (index + 1) in
                if negb (starts_with_at template (js "}}") index)
                then (None, Nat.max (index + 1) secondIndex)
                else
                  let end_ := (index + 2)%nat in
                  (Some {| bm_start := start; bm_end := end_;
                           bm_first := firstArg; bm_second := secondArg |}, end_)
          end
    end.

(** Walk left over whitespace, not past [index]. *)
Fixpoint back_whitespace (template : jsstr) (index contentStart : nat) : nat :=
  match contentStart with
  | O => O
  | S p =>
      if (index <? contentStart)%nat &&
         match template !! p with Some c => isTemplateWhitespace c | None => false end
      then back_whitespace template index p
      else contentStart
  end.

(** The [while (basicIndex !== -1)] loop; each turn moves past one occurrence of
    [basic(], so the length of the text bounds the turns ([None] is -1). *)
Fixpoint findNextLoop (fuel : nat) (template : jsstr) (index : nat) (basicIndex : option nat) : option nat :=
  match fuel, basicIndex with
  | _, None => None
  | O, Some _ => None
  | S fuel', Some b =>
      let contentStart := back_whitespace template index b in
      if (3 <=? contentStart)%nat && (index <=? contentStart - 3)%nat &&
         starts_with_at template DOLLAR_BRACES (contentStart - 3)
      then Some (contentStart - 3)%nat
      else findNextLoop fuel' template index (index_of_from template BASIC_OPEN (b + 6))
  end.

Definition findNextBasicAuthTemplateStart (template : jsstr) (index : nat) : option nat :=
  findNextLoop (S (length template)) template index (index_of_from template BASIC_OPEN index).

(** The [while (start !== -1)] loop; [None] is fuel exhausted. *)
Fixpoint parseBasicLoop (fuel : nat) (context : BasicAuthTemplateParserContext)
    (template : jsstr) (start : option nat) : option (list BasicAuthTemplateMatch) :=
  match fuel, start with
  | _, None => Some []
  | O, Some _ => None
  | S fuel', Some st =>
      let '(m, index) := parseBasicAuthTemplateAt context template st in
      match m with
      | Some bm => (cons bm) <$>
          parseBasicLoop fuel' context template (findNextBasicAuthTemplateStart template index)
      | None =>
          parseBasicLoop fuel' context template
            (findNextBasicAuthTemplateStart template (Nat.max index (st + 3)))
      end
  end.

Definition parseBasicAuthTemplatesFuel (template : jsstr) : option (list BasicAuthTemplateMatch) :=
  parseBasicLoop (S (length template)) (createBasicAuthTemplateParserContext template) template
    (findNextBasicAuthTemplateStart template 0).

Definition parseBasicAuthTemplates (template : jsstr) : list BasicAuthTemplateMatch :=
  default [] (parseBasicAuthTemplatesFuel template).

(** [parts] in order: the text before each match, its replacement, the tail. *)
Fixpoint replace_parts (template : jsstr) (replacer : BasicAuthTemplateMatch -> jsstr)
    (matches : list BasicAuthTemplateMatch) (lastIndex : nat) : list jsstr :=
  match matches with
  | [] => [drop lastIndex template]
  | m :: ms => slice template lastIndex (bm_start m) :: replacer m ::
               replace_parts template replacer ms (bm_end m)
  end.

Definition replaceBasicAuthTemplates (template : jsstr)
    (replacer : BasicAuthTemplateMatch -> jsstr) : jsstr :=
  let matches := parseBasicAuthTemplates template in
  if (length matches =? 0)%nat then template
  else concat (replace_parts template replacer matches 0).

(** ** The simple references *)

(** The characters of [\s]. *)
Definition isRegexWhitespace (c : Z) : bool :=
  isTemplateWhitespace c || (c =? 0xa0) || (c =? 0x1680) || ((0x2000 <=? c) && (c <=? 0x200a)) ||
  (c =? 0x2028) || (c =? 0x2029) || (c =? 0x202f) || (c =? 0x205f) || (c =? 0x3000) || (c =? 0xfeff).

(** The reference pattern anchored at the start: the opening braces, optional
    whitespace, a namespace of [nss], an identifier, optional whitespace and the
    closing braces; the result is the namespace, the name and the length of the
    match. No two adjacent parts of the pattern share a character, so the greedy
    match is the only one. *)
Fixpoint match_ns {N} (nss : list (N * jsstr)) (s : jsstr) :
    option (N * nat) :=
  match nss with
  | [] => None
  | (ns, text) :: nss' =>
      if starts_with s text then Some (ns, length text) else match_ns nss' s
  end.

Definition REF_SECRETS := [(NsSecrets, js "secrets.")].
Definition REF_VARS := [(NsVars, js "vars.")].
Definition REF_BOTH := REF_SECRETS ++ REF_VARS.

Definition match_reference {N} (nss : list (N * jsstr)) (s : jsstr) :
    option (N * jsstr * nat) :=
  if negb (starts_with s DOLLAR_BRACES) then None
  else
    let i := (3 + span_length isRegexWhitespace (drop 3 s))%nat in
    '(ns, k) ← match_ns nss (drop i s);
    '(name, j) ← parseTemplateIdentifier s (i + k);
    let e := (j + span_length isRegexWhitespace (drop j s))%nat in
    if starts_with_at s (js "}}") e then Some (ns, name, (e + 2)%nat) else None.

(** [template.matchAll(pattern)]: the matches with their index, left to right,
    not overlapping; [skip] units of the current match are still to be passed. *)
Fixpoint match_all {N} (nss : list (N * jsstr)) (s : jsstr)
    (index skip : nat) : list (nat * N * jsstr) :=
  match s with
  | [] => []
  | _ :: s' =>
      match skip with
      | S k => match_all nss s' (S index) k
      | O =>
          match match_reference nss s with
          | Some (ns, name, len) => (index, ns, name) :: match_all nss s' (S index) (len - 1)
          | None => match_all nss s' (S index) 0
          end
      end
  end.

(** [template.replace(pattern_g, replacer)]; the replacer may throw. *)
Fixpoint regex_replace {N} (nss : list (N * jsstr))
    (replacer : jsstr -> result jsstr) (s : jsstr) (skip : nat) : result jsstr :=
  match s with
  | [] => Ok []
  | c :: s' =>
      match skip with
      | S k => regex_replace nss replacer s' k
      | O =>
          match match_reference nss s with
          | Some (_, name, len) =>
              v ← replacer name; rest ← regex_replace nss replacer s' (len - 1); Ok (v ++ rest)
          | None => rest ← regex_replace nss replacer s' 0; Ok (c :: rest)
          end
      end
  end.

(** Advance past the basic() matches that end at or before [i]. *)
Fixpoint skip_basic (basicMatches : list BasicAuthTemplateMatch) (i : nat) : list BasicAuthTemplateMatch :=
  match basicMatches with
  | m :: ms => if (bm_end m <=? i)%nat then skip_basic ms i else basicMatches
  | [] => []
  end.

(** The references in callback order. [!match[1] || !match[2]] never holds: both
    groups of the pattern are non-empty. *)
Fixpoint simple_references (basicMatches : list BasicAuthTemplateMatch)
    (refs : list (nat * FirewallTemplateReferenceNamespace * jsstr)) :
    list (FirewallTemplateReferenceNamespace * jsstr) :=
  match refs with
  | [] => []
  | (i, ns, name) :: refs' =>
      let basicMatches' := skip_basic basicMatches i in
      match basicMatches' with
      | m :: _ =>
          if (bm_start m <=? i)%nat && (i <? bm_end m)%nat
          then simple_references basicMatches' refs'
          else (ns, name) :: simple_references basicMatches' refs'
      | [] => (ns, name) :: simple_references basicMatches' refs'
      end
  end.

Definition forEachSimpleAuthReference (template : jsstr)
    (basicMatches : list BasicAuthTemplateMatch) : list (FirewallTemplateReferenceNamespace * jsstr) :=
  simple_references basicMatches (match_all REF_BOTH template 0 0).

(** ** Extraction *)

(** [set.add(x)] on an insertion-ordered [Set]. *)
Definition set_add (x : jsstr) (l : list jsstr) : list jsstr :=
  if bool_decide (x ∈ l) then l else l ++ [x].
Definition set_add_all (xs : list jsstr) (l : list jsstr) : list jsstr :=
  foldl (fun acc x => set_add x acc) l xs.

(** [if (arg.namespace === ns && arg.key)]; the key of a parsed reference is not
    empty. *)
Definition arg_key (ns : FirewallTemplateReferenceNamespace) (a : BasicAuthTemplateArg) : list jsstr :=
  match a with
  | ArgRef ns' key => if bool_decide (ns' = ns) && negb (bool_decide (key = [])) then [key] else []
  | _ => []
  end.

Definition names_of (ns : FirewallTemplateReferenceNamespace)
    (refs : list (FirewallTemplateReferenceNamespace * jsstr)) : list jsstr :=
  (filter (fun r => r.1 = ns) refs).*2.

Definition basic_names (ns : FirewallTemplateReferenceNamespace)
    (ms : list BasicAuthTemplateMatch) : list jsstr :=
  concat ((fun m => arg_key ns (bm_first m) ++ arg_key ns (bm_second m)) <$> ms).

Definition values_of (r : option (list (jsstr * jsstr))) : list jsstr := (default [] r).*2.

Definition sigv4_values (s : option FirewallAwsSigv4Auth) : list jsstr :=
  match s with
  | Some a => accessKeyId a :: secretAccessKey a :: option_list (sessionToken a)
  | None => []
  end.

(** Names added for one header value: the simple references, then the basic()
    arguments. *)
Definition header_secret_names (value : jsstr) : list jsstr :=
  let basicMatches := parseBasicAuthTemplates value in
  names_of NsSecrets (forEachSimpleAuthReference value basicMatches) ++
  basic_names NsSecrets basicMatches.

Definition simple_secret_names (value : jsstr) : list jsstr :=
  (fun r => r.2) <$> match_all REF_SECRETS value 0 0.

Definition api_secret_names (entry : FirewallApi) : list jsstr :=
  let auth := api_auth entry in
  concat (header_secret_names <$> values_of (auth_headers auth)) ++
  concat (simple_secret_names <$> option_list (auth_base auth)) ++
  concat (simple_secret_names <$> values_of (auth_query auth)) ++
  concat (simple_secret_names <$> sigv4_values (auth_awsSigv4 auth)).

Definition extractSecretNamesFromApis (apis : list FirewallApi) : list jsstr :=
  set_add_all (concat (api_secret_names <$> apis)) [].

Record FirewallTemplateReferences := { refs_secrets : list jsstr; refs_vars : list jsstr }.

Definition collectFirewallTemplateReferencesFromValue (template : jsstr)
    (references : FirewallTemplateReferences) : FirewallTemplateReferences :=
  let basicMatches := parseBasicAuthTemplates template in
  let refs := forEachSimpleAuthReference template basicMatches in
  let collect ns := names_of ns refs ++ basic_names ns basicMatches in
  {| refs_secrets := set_add_all (collect NsSecrets) (refs_secrets references);
     refs_vars := set_add_all (collect NsVars) (refs_vars references) |}.

(** The values of one entry, in scan order. An empty [auth.base] or credential is
    falsy and skipped. *)
Definition api_template_values (entry : FirewallApi) : list jsstr :=
  let auth := api_auth entry in
  values_of (auth_headers auth) ++
  filter (fun b => b <> []) (option_list (auth_base auth)) ++
  values_of (auth_query auth) ++
  filter (fun v => v <> []) (sigv4_values (auth_awsSigv4 auth)).

Definition extractFirewallTemplateReferences (apis : list FirewallApi) : FirewallTemplateReferences :=
  foldl (fun acc v => collectFirewallTemplateReferencesFromValue v acc)
    {| refs_secrets := []; refs_vars := [] |} (concat (api_template_values <$> apis)).

(** ** Base URL variables and parameters *)

Definition hasBaseUrlVars (base : jsstr) : bool :=
  match match_all REF_VARS base 0 0 with [] => false | _ => true end.

(** [vars?.[name]], falsy when absent or empty. *)
Definition lookup_var (vars : option (list (jsstr * jsstr))) (name : jsstr) : option jsstr :=
  match opt_get vars name with
  | Some v => if bool_decide (v = []) then None else Some v
  | None => None
  end.

(** The [while] loop that strips [${{ ... }}]; each turn removes at least five
    units. *)
Fixpoint strip_templates (fuel : nat) (stripped : jsstr) : jsstr :=
  match fuel with
  | O => stripped
  | S fuel' =>
      match index_of stripped DOLLAR_BRACES with
      | None => stripped
      | Some start =>
          match index_of_from stripped (js "}}") (start + 3) with
          | None => stripped
          | Some end_ => strip_templates fuel' (take start stripped ++ drop (end_ + 2) stripped)
          end
      end
  end.

Definition hasBaseUrlParams (base : jsstr) : bool :=
  let stripped := strip_templates (length base) base in
  includes stripped (js "{") && includes stripped (js "}").

(** The length of the text is enough fuel: the loop ends without a template left to
    strip. *)
Lemma strip_templates_done fuel s :
  (length s <= fuel)%nat ->
  let t := strip_templates fuel s in
  match index_of t DOLLAR_BRACES with
  | None => True
  | Some start => index_of_from t (js "}}") (start + 3) = None
  end.
Proof.
  revert s. induction fuel as [|fuel IH]; intros s Hs; cbn [strip_templates].
  { destruct s; [done|simpl in Hs; lia]. }
  destruct (index_of s DOLLAR_BRACES) as [st|] eqn:E; [|by rewrite E].
  destruct (index_of_from s (js "}}") (st + 3)) as [e|] eqn:E2; [|by rewrite E].
  apply IH. apply index_of_from_Some in E2 as (He & Hb & _).
  apply starts_with_at_length in Hb; [|done]. cbn [length js] in Hb.
  rewrite length_app, length_take, length_drop. simpl in Hb. lia.
Qed.

(** ** Lemmas: insertion-ordered sets *)

Lemma elem_of_set_add x y l : x ∈ set_add y l <-> x = y \/ x ∈ l.
Proof. unfold set_add. case_bool_decide; set_solver. Qed.

Lemma NoDup_set_add x l : NoDup l -> NoDup (set_add x l).
Proof.
  intros Hl. unfold set_add. case_bool_decide; [done|]. apply NoDup_app.
  split_and!; [done|set_solver|apply NoDup_singleton].
Qed.

Lemma elem_of_set_add_all x xs l : x ∈ set_add_all xs l <-> x ∈ xs \/ x ∈ l.
Proof.
  unfold set_add_all. revert l; induction xs as [|y xs IH]; intros l; simpl; [set_solver|].
  rewrite IH, elem_of_set_add. set_solver.
Qed.

Lemma NoDup_set_add_all xs l : NoDup l -> NoDup (set_add_all xs l).
Proof.
  unfold set_add_all. revert l; induction xs as [|y xs IH]; intros l Hl; simpl; [done|].
  apply IH. by apply NoDup_set_add.
Qed.

(** ** Lemmas: the scanning primitives *)

Lemma span_length_le f s : (span_length f s <= length s)%nat.
Proof. induction s as [|c s IH]; simpl; [lia|]. destruct (f c); lia. Qed.

Lemma span_length_all f s k c :
  (k < span_length f s)%nat -> s !! k = Some c -> f c = true.
Proof.
  revert k; induction s as [|d s IH]; intros k; simpl; [lia|].
  destruct (f d) eqn:E; [|lia]. destruct k as [|k]; simpl; [by intros _ [= <-]|].
  intros Hk. apply IH. lia.
Qed.

Lemma span_length_unique f s n :
  (forall k, (k < n)%nat -> exists c, s !! k = Some c /\ f c = true) ->
  (forall c, s !! n = Some c -> f c = false) ->
  span_length f s = n.
Proof.
  revert s; induction n as [|n IH]; intros s Hall Hstop.
  - destruct s as [|c s]; [done|]. simpl. by rewrite (Hstop c eq_refl).
  - destruct (Hall 0%nat) as (c & Hc & Hf); [lia|]. destruct s as [|d s]; [done|].
    injection Hc as ->. simpl. rewrite Hf. f_equal. apply IH; [|done].
    intros k Hk. apply (Hall (S k)). lia.
Qed.

Lemma skipTemplateWhitespace_ge t i : (i <= skipTemplateWhitespace t i)%nat.
Proof. unfold skipTemplateWhitespace. lia. Qed.

Lemma skipTemplateWhitespace_all t i j c :
  (i <= j < skipTemplateWhitespace t i)%nat -> t !! j = Some c -> isTemplateWhitespace c = true.
Proof.
  unfold skipTemplateWhitespace. intros Hj Hc.
  apply (span_length_all isTemplateWhitespace (drop i t) (j - i)); [lia|].
  rewrite lookup_drop. by replace (i + (j - i))%nat with j by lia.
Qed.

Lemma skipTemplateWhitespace_unique t i b :
  (i <= b)%nat ->
  (forall j, (i <= j < b)%nat -> exists c, t !! j = Some c /\ isTemplateWhitespace c = true) ->
  (forall c, t !! b = Some c -> isTemplateWhitespace c = false) ->
  skipTemplateWhitespace t i = b.
Proof.
  intros Hib Hall Hstop. unfold skipTemplateWhitespace.
  rewrite (span_length_unique _ _ (b - i)); [lia| |].
  - intros k Hk. rewrite lookup_drop. apply Hall. lia.
  - intros c. rewrite lookup_drop. replace (i + (b - i))%nat with b by lia. apply Hstop.
Qed.

Lemma next_indexes_length test s i : length (next_indexes test s i) = S (length s).
Proof. revert i; induction s as [|c s IH]; intros i; simpl; [done|]. by rewrite IH. Qed.

Lemma next_indexes_head p s i :
  p <> [] ->
  head (next_indexes (fun s => starts_with s p) s i) = Some ((fun k => i + k)%nat <$> index_of s p).
Proof.
  intros Hp. revert i; induction s as [|c s IH]; intros i; simpl.
  - destruct p; [done|]. done.
  - destruct (starts_with (c :: s) p) eqn:E; simpl.
    + f_equal. f_equal. lia.
    + rewrite IH. simpl. f_equal. destruct (index_of s p); simpl; [|done]. f_equal. lia.
Qed.

Lemma next_indexes_at p s i k :
  p <> [] -> (k <= length s)%nat ->
  at_index (next_indexes (fun s => starts_with s p) s i) k = (fun m => i + m)%nat <$> index_of_from s p k.
Proof.
  intros Hp. unfold at_index. revert i k; induction s as [|c s IH]; intros i k Hk.
  - destruct k; [|simpl in Hk; lia]. by destruct p.
  - destruct k as [|k].
    + rewrite <- head_lookup, next_indexes_head by done. unfold index_of_from. rewrite drop_0.
      cbn [default]. by destruct (index_of (c :: s) p).
    + simpl. simpl in Hk. rewrite IH by lia. unfold index_of_from. simpl.
      destruct (index_of (drop k s) p); simpl; [|done]. f_equal. lia.
Qed.

Lemma quote_index t i :
  (i <= length t)%nat ->
  at_index (nextQuoteIndexes (createBasicAuthTemplateParserContext t)) i = index_of_from t [34] i.
Proof. intros Hi. cbn [nextQuoteIndexes createBasicAuthTemplateParserContext].
  rewrite next_indexes_at by done. by destruct (index_of_from t [34] i). Qed.

(** The parser's precomputed arrays are the searches they replace: entry [i]
    of each array is the index of the next quote, backslash or template start at
    or after [i], for every position of the text, so a literal is found with the
    same result as [indexOf] in constant time. *)
Theorem createBasicAuthTemplateParserContext_spec template i :
  (i <= length template)%nat ->
  let context := createBasicAuthTemplateParserContext template in
  at_index (nextQuoteIndexes context) i = index_of_from template [34] i /\
  at_index (nextBackslashIndexes context) i = index_of_from template [92] i /\
  at_index (nextTemplateIndexes context) i = index_of_from template DOLLAR_BRACES i.
Proof.
  intros Hi. cbn [nextQuoteIndexes nextBackslashIndexes nextTemplateIndexes
                  createBasicAuthTemplateParserContext].
  rewrite !next_indexes_at by done.
  by destruct (index_of_from template [34] i), (index_of_from template [92] i),
    (index_of_from template DOLLAR_BRACES i).
Qed.

Lemma createBasicAuthTemplateParserContext_witness :
  (1 <= length (js "ab"))%nat /\
  at_index (nextQuoteIndexes (createBasicAuthTemplateParserContext (js "ab"))) 1 =
  index_of_from (js "ab") [34] 1.
Proof.
  split; [simpl; lia|].
  apply (createBasicAuthTemplateParserContext_spec (js "ab") 1). simpl; lia.
Defined.

(** ** Lemmas: the template search *)

(** Reference definition of a template start: the opening braces, then
    whitespace, then [basic(]. *)
Definition template_start (t : jsstr) (i s : nat) : Prop :=
  (i <= s)%nat /\ starts_with_at t DOLLAR_BRACES s = true /\
  starts_with_at t BASIC_OPEN (skipTemplateWhitespace t (s + 3)) = true.

Lemma back_whitespace_spec t i b :
  (i <= b)%nat ->
  (i <= back_whitespace t i b <= b)%nat /\
  (forall j, (back_whitespace t i b <= j < b)%nat ->
     exists c, t !! j = Some c /\ isTemplateWhitespace c = true) /\
  (back_whitespace t i b = i \/
   forall c, t !! (back_whitespace t i b - 1)%nat = Some c -> isTemplateWhitespace c = false).
Proof.
  induction b as [|b IH]; intros Hib; simpl.
  - split; [lia|]. split; [intros; lia|]. left. lia.
  - destruct (i <? S b)%nat eqn:E; simpl.
    + apply Nat.ltb_lt in E. destruct (t !! b) as [c|] eqn:Ec;
        [destruct (isTemplateWhitespace c) eqn:Ew|].
      * destruct IH as (H1 & H2 & H3); [lia|]. split; [lia|]. split; [|done].
        intros j Hj. destruct (decide (j = b)) as [->|]; [eauto|]. apply H2. lia.
      * split; [lia|]. split; [intros; lia|]. right. intros c'. replace (S b - 1)%nat with b by lia. congruence.
      * split; [lia|]. split; [intros; lia|]. right. intros c'. replace (S b - 1)%nat with b by lia. congruence.
    + apply Nat.ltb_ge in E. split; [lia|]. split; [intros; lia|]. left. lia.
Qed.

Lemma basic_open_unit t b : starts_with_at t BASIC_OPEN b = true -> t !! b = Some 98.
Proof.
  rewrite starts_with_at_spec by done. intros H. rewrite <- (Nat.add_0_r b). by apply H.
Qed.

Lemma dollar_braces_unit t s : starts_with_at t DOLLAR_BRACES s = true -> t !! (s + 2)%nat = Some 123.
Proof. rewrite starts_with_at_spec by done. intros H. by apply H. Qed.

(** The walk to the left from an occurrence of [basic(] finds the template start
    whose whitespace ends there, if there is one. *)
Lemma back_whitespace_start t i b s :
  (i <= b)%nat -> starts_with_at t BASIC_OPEN b = true ->
  (template_start t i s /\ skipTemplateWhitespace t (s + 3) = b) <->
  (3 <= back_whitespace t i b)%nat /\ (i <= back_whitespace t i b - 3)%nat /\
  starts_with_at t DOLLAR_BRACES (back_whitespace t i b - 3) = true /\
  s = (back_whitespace t i b - 3)%nat.
Proof.
  intros Hib Hb. destruct (back_whitespace_spec t i b Hib) as (Hc & Hws & Hstop).
  set (c := back_whitespace t i b) in *. split.
  - intros [(His & Hd & Hbo) Hskip].
    assert (s + 3 <= b)%nat by (rewrite <- Hskip; apply skipTemplateWhitespace_ge).
    assert (c = s + 3)%nat as ->; [|replace (s + 3 - 3)%nat with s by lia; split_and!; (done || lia)].
    destruct (Nat.lt_trichotomy c (s + 3)) as [Hlt|[Heq|Hgt]]; [|done|].
    + destruct (Hws (s + 2)%nat) as (d & Hd' & Hw); [lia|].
      rewrite (dollar_braces_unit t s Hd) in Hd'. injection Hd' as <-. done.
    + destruct Hstop as [->|Hstop]; [lia|].
      destruct (t !! (c - 1)%nat) as [d|] eqn:Ed.
      * specialize (Hstop d eq_refl).
        rewrite (skipTemplateWhitespace_all t (s + 3) (c - 1) d) in Hstop; [done| |done]. lia.
      * apply lookup_ge_None in Ed. pose proof (starts_with_at_length t BASIC_OPEN b) as Hl.
        specialize (Hl ltac:(done) Hb). simpl in Hl. lia.
  - intros (H3 & Hic & Hd & ->). replace (c - 3 + 3)%nat with c by lia.
    assert (skipTemplateWhitespace t c = b) as Hskip.
    { apply skipTemplateWhitespace_unique; [lia|done|].
      intros d Hd'. rewrite (basic_open_unit t b Hb) in Hd'. by injection Hd' as <-. }
    split; [|done]. unfold template_start. replace (c - 3 + 3)%nat with c by lia.
    rewrite Hskip. split_and!; done || lia.
Qed.

(** No second occurrence of [basic(] starts inside one. *)
Lemma basic_open_apart t b j :
  starts_with_at t BASIC_OPEN b = true -> (b < j < b + 6)%nat -> starts_with_at t BASIC_OPEN j = false.
Proof.
  intros Hb Hj. apply not_true_iff_false. intros Hj'. apply basic_open_unit in Hj'.
  rewrite starts_with_at_spec in Hb by done.
  assert (j = b + 1 \/ j = b + 2 \/ j = b + 3 \/ j = b + 4 \/ j = b + 5)%nat as Hk by lia.
  destruct Hk as [E|[E|[E|[E|E]]]]; subst j;
    [specialize (Hb 1%nat)|specialize (Hb 2%nat)|specialize (Hb 3%nat)|specialize (Hb 4%nat)|
     specialize (Hb 5%nat)]; rewrite Hj' in Hb; specialize (Hb _ eq_refl); discriminate.
Qed.

Lemma findNextLoop_spec fuel t i b0 :
  (i <= b0)%nat -> (length t < fuel + b0)%nat ->
  (forall s, template_start t i s -> (b0 <= skipTemplateWhitespace t (s + 3))%nat) ->
  match findNextLoop fuel t i (index_of_from t BASIC_OPEN b0) with
  | Some s => template_start t i s /\ forall s', template_start t i s' -> (s <= s')%nat
  | None => forall s, ~ template_start t i s
  end.
Proof.
  revert b0; induction fuel as [|fuel IH]; intros b0 Hib Hfuel Hinv.
  - destruct (index_of_from t BASIC_OPEN b0) as [b|] eqn:E; cbn [findNextLoop].
    + apply index_of_from_Some in E as (? & Hb & _).
      apply starts_with_at_length in Hb; [|done]. simpl in Hb. lia.
    + intros s Hs. specialize (Hinv s Hs). destruct Hs as (_ & _ & Hs).
      by rewrite (index_of_from_None _ _ _ _ E Hinv) in Hs.
  - destruct (index_of_from t BASIC_OPEN b0) as [b|] eqn:E; cbn [findNextLoop].
    + apply index_of_from_Some in E as (Hb0 & Hb & Hfirst).
      assert (forall s, template_start t i s -> (b <= skipTemplateWhitespace t (s + 3))%nat) as Hinv'.
      { intros s Hs. destruct (decide (b <= skipTemplateWhitespace t (s + 3))%nat); [done|].
        specialize (Hinv s Hs). destruct Hs as (_ & _ & Hs). rewrite Hfirst in Hs; [done|lia]. }
      pose proof (back_whitespace_start t i b) as Hback.
      set (c := back_whitespace t i b) in *.
      destruct ((3 <=? c)%nat && (i <=? c - 3)%nat && starts_with_at t DOLLAR_BRACES (c - 3)) eqn:Et.
      * apply andb_true_iff in Et as [[H3%Nat.leb_le Hic%Nat.leb_le]%andb_true_iff Hd].
        destruct (proj2 (Hback (c - 3)%nat ltac:(lia) Hb)) as [Hs Hskip]; [done|].
        split; [done|]. intros s' Hs'. specialize (Hinv' s' Hs').
        destruct (decide (skipTemplateWhitespace t (s' + 3) = b)) as [He|Hne].
        { destruct (proj1 (Hback s' ltac:(lia) Hb)) as (_ & _ & _ & ->); [done|lia]. }
        destruct (decide (c - 3 <= s')%nat); [done|]. exfalso.
        pose proof (back_whitespace_spec t i b ltac:(lia)) as (Hcb & _).
        pose proof (skipTemplateWhitespace_all t (s' + 3) b 98) as Hw.
        discriminate Hw; [fold c in Hcb; lia|by apply basic_open_unit].
      * apply IH; [lia| |].
        { apply starts_with_at_length in Hb; [|done]. simpl in Hb. lia. }
        intros s Hs. specialize (Hinv' s Hs).
        destruct (decide (skipTemplateWhitespace t (s + 3) = b)) as [He|Hne].
        { exfalso. destruct (proj1 (Hback s ltac:(lia) Hb)) as (H3 & Hic & Hd & _); [done|].
          rewrite Hd, (proj2 (Nat.leb_le _ _) H3), (proj2 (Nat.leb_le _ _) Hic) in Et. done. }
        destruct (decide (b + 6 <= skipTemplateWhitespace t (s + 3))%nat); [done|].
        destruct Hs as (_ & _ & Hs). rewrite (basic_open_apart t b) in Hs; [done|done|lia].
    + intros s Hs. specialize (Hinv s Hs). destruct Hs as (_ & _ & Hs).
      by rewrite (index_of_from_None _ _ _ _ E Hinv) in Hs.
Qed.

Lemma findNext_spec t i :
  match findNextBasicAuthTemplateStart t i with
  | Some s => template_start t i s /\ forall s', template_start t i s' -> (s <= s')%nat
  | None => forall s, ~ template_start t i s
  end.
Proof.
  apply findNextLoop_spec; [lia|lia|]. intros s (His & _).
  pose proof (skipTemplateWhitespace_ge t (s + 3)). lia.
Qed.

(** The backwards search of [findNextBasicAuthTemplateStart] finds exactly
    what a forward scan defines: the least position at or after [index] where the
    opening braces, optional whitespace and [basic(] follow each other, and -1
    only when there is none. The loop never runs out of occurrences early. *)
Theorem findNextBasicAuthTemplateStart_spec template index :
  match findNextBasicAuthTemplateStart template index with
  | Some s => template_start template index s /\
              forall s', template_start template index s' -> (s <= s')%nat
  | None => forall s, ~ template_start template index s
  end.
Proof. apply findNext_spec. Qed.

(** ** Lemmas: one template *)

Lemma identifier_index t i key j : parseTemplateIdentifier t i = Some (key, j) -> (i < j)%nat.
Proof.
  unfold parseTemplateIdentifier. destruct (t !! i); [|done].
  destruct (isIdentifierStart z); [|done]. intros [= _ <-]. lia.
Qed.

Lemma parseArg_index t i a j :
  parseBasicAuthTemplateArg (createBasicAuthTemplateParserContext t) t i = (Some a, j) -> (i <= j)%nat.
Proof.
  unfold parseBasicAuthTemplateArg. pose proof (skipTemplateWhitespace_ge t i) as Hge.
  set (n := skipTemplateWhitespace t i) in *.
  case_match eqn:E1; [by intros [= _ <-]|].
  case_match eqn:E2.
  - apply bool_decide_eq_true, lookup_lt_Some in E2.
    rewrite quote_index by lia.
    destruct (index_of_from t [34] (n + 1)) as [q|] eqn:Eq; [|done].
    apply index_of_from_Some in Eq as (Hq & _).
    repeat case_match; intros [= _ <-]; lia.
  - repeat case_match; simplify_eq; intros [= _ <-];
      match goal with H : parseTemplateIdentifier _ _ = _ |- _ => apply identifier_index in H end; lia.
Qed.

(** A match spans from the opening braces it was started at to the closing ones. *)
Lemma parseAt_match t st m j :
  parseBasicAuthTemplateAt (createBasicAuthTemplateParserContext t) t st = (Some m, j) ->
  bm_start m = st /\ bm_end m = j /\ (st + 3 + 2 <= j)%nat /\ starts_with_at t (js "}}") (j - 2) = true.
Proof.
  unfold parseBasicAuthTemplateAt.
  pose proof (skipTemplateWhitespace_ge t (st + 3)) as Hw0.
  case_match; [done|].
  destruct (parseBasicAuthTemplateArg _ t _) as [[first|] i1] eqn:E1; [|done].
  apply parseArg_index in E1.
  pose proof (skipTemplateWhitespace_ge t i1) as Hw2.
  case_match; [done|].
  destruct (parseBasicAuthTemplateArg _ t (skipTemplateWhitespace t i1 + 1)) as [[second|] i2] eqn:E2; [|done].
  apply parseArg_index in E2.
  pose proof (skipTemplateWhitespace_ge t i2) as Hw3.
  case_match; [done|].
  pose proof (skipTemplateWhitespace_ge t (skipTemplateWhitespace t i2 + 1)) as Hw4.
  case_match eqn:Eend; [done|]. intros [= <- <-]. apply negb_false_iff in Eend.
  split_and!; [done|done|lia|]. by rewrite Nat.add_sub.
Qed.

(** ** Lemmas: the list of templates *)

(** Matches in order from position [i]: each lies in the text after the previous
    one and is delimited by the template braces. *)
Inductive matches_from (t : jsstr) : nat -> list BasicAuthTemplateMatch -> Prop :=
| mf_nil i : matches_from t i []
| mf_cons i m ms :
    (i <= bm_start m)%nat -> (bm_start m < bm_end m)%nat -> (bm_end m <= length t)%nat ->
    template_start t i (bm_start m) -> starts_with_at t (js "}}") (bm_end m - 2) = true ->
    matches_from t (bm_end m) ms -> matches_from t i (m :: ms).

Lemma matches_from_le t i j ms : (i <= j)%nat -> matches_from t j ms -> matches_from t i ms.
Proof.
  intros Hij H. inversion H; subst; constructor; try done; try lia.
  unfold template_start in *. naive_solver lia.
Qed.

(** [st] is the leftmost template start from [i] on. *)
Definition first_start (t : jsstr) (i st : nat) : Prop :=
  template_start t i st /\ forall st', template_start t i st' -> (st <= st')%nat.

(** Reference definition of the scan: go to the leftmost template start; a template that
    parses there is a match and the scan goes on after it; otherwise it goes on behind
    the text that was rejected; it ends when no template starts any more. *)
Inductive leftmost_scan (t : jsstr) : nat -> list BasicAuthTemplateMatch -> Prop :=
| scan_end i : (forall st, ~ template_start t i st) -> leftmost_scan t i []
| scan_match i st m j ms :
    first_start t i st ->
    parseBasicAuthTemplateAt (createBasicAuthTemplateParserContext t) t st = (Some m, j) ->
    leftmost_scan t j ms -> leftmost_scan t i (m :: ms)
| scan_reject i st j ms :
    first_start t i st ->
    parseBasicAuthTemplateAt (createBasicAuthTemplateParserContext t) t st = (None, j) ->
    leftmost_scan t (Nat.max j (st + 3)) ms -> leftmost_scan t i ms.

Lemma parseBasicLoop_scan fuel t i :
  (length t < fuel + i)%nat ->
  exists ms, parseBasicLoop fuel (createBasicAuthTemplateParserContext t) t
               (findNextBasicAuthTemplateStart t i) = Some ms /\ leftmost_scan t i ms.
Proof.
  revert i; induction fuel as [|fuel IH]; intros i Hfuel;
    pose proof (findNext_spec t i) as Hspec;
    destruct (findNextBasicAuthTemplateStart t i) as [st|]; simpl;
    try (exists []; split; [done|by constructor]).
  - destruct Hspec as [(Hi & Hd & _) _]. apply starts_with_at_length in Hd; [|done]. simpl in Hd. lia.
  - pose proof Hspec as [(Hi & Hd & _) _]. apply starts_with_at_length in Hd; [|done]. simpl in Hd.
    destruct (parseBasicAuthTemplateAt _ t st) as [[m|] j] eqn:E.
    + pose proof (parseAt_match _ _ _ _ E) as (_ & _ & Hj & _).
      destruct (IH j) as (ms & -> & Hs); [lia|]. exists (m :: ms). split; [done|]. by eapply scan_match.
    + destruct (IH (Nat.max j (st + 3))) as (ms & -> & Hs); [lia|].
      exists ms. split; [done|]. by eapply scan_reject.
Qed.

Lemma scan_matches_from t i ms : leftmost_scan t i ms -> matches_from t i ms.
Proof.
  induction 1 as [i Hn|i st m j ms [Hst _] E _ IH|i st j ms [Hst _] E _ IH].
  - constructor.
  - apply parseAt_match in E as (Hms & Hme & Hj & Hend).
    pose proof (starts_with_at_length t (js "}}") (j - 2) ltac:(done) Hend) as Hl. simpl in Hl.
    destruct Hst as (Hi & Hst). constructor; rewrite ?Hms, ?Hme; try done; lia.
  - destruct Hst as (Hi & _). apply matches_from_le with (Nat.max j (st + 3)); [lia|done].
Qed.

Lemma parse_templates_spec t : matches_from t 0 (parseBasicAuthTemplates t).
Proof.
  unfold parseBasicAuthTemplates, parseBasicAuthTemplatesFuel.
  destruct (parseBasicLoop_scan (S (length t)) t 0) as (ms & -> & H); [lia|]. by apply scan_matches_from.
Qed.

(** [parseBasicAuthTemplates] terminates on every input with the fuel the model
    gives it; its result is the leftmost scan for templates, so no template
    that parses at a start the scan visits is missed; and its matches are disjoint, in order,
    inside the text and delimited by the opening and closing braces. *)
Theorem parseBasicAuthTemplates_spec template :
  parseBasicAuthTemplatesFuel template = Some (parseBasicAuthTemplates template) /\
  leftmost_scan template 0 (parseBasicAuthTemplates template) /\
  matches_from template 0 (parseBasicAuthTemplates template).
Proof.
  split; [|split; [|apply parse_templates_spec]];
    unfold parseBasicAuthTemplates, parseBasicAuthTemplatesFuel;
    by destruct (parseBasicLoop_scan (S (length template)) template 0) as (ms & -> & H); [lia|].
Qed.

Lemma replace_identity t i ms :
  (i <= length t)%nat -> matches_from t i ms ->
  concat (replace_parts t (fun m => slice t (bm_start m) (bm_end m)) ms i) = drop i t.
Proof.
  intros Hi H. induction H as [i|i m ms H1 H2 H3 _ _ _ IH]; simpl; [by rewrite app_nil_r|].
  rewrite IH by done. unfold slice.
  rewrite (app_assoc (take _ _)). 
  rewrite <- (take_drop (bm_start m - i) (drop i t)) at 2. rewrite <- app_assoc. f_equal.
  rewrite drop_drop. replace (i + (bm_start m - i))%nat with (bm_start m) by lia.
  rewrite <- (take_drop (bm_end m - bm_start m) (drop (bm_start m) t)) at 2. f_equal.
  rewrite drop_drop. f_equal. lia.
Qed.

(** Replacing every basic() template by its own text leaves the text unchanged,
    so [replaceBasicAuthTemplates] touches nothing outside the matched spans and
    drops nothing between them. *)
Theorem replaceBasicAuthTemplates_identity template :
  replaceBasicAuthTemplates template (fun m => slice template (bm_start m) (bm_end m)) = template.
Proof.
  unfold replaceBasicAuthTemplates. case_match; [done|].
  rewrite (replace_identity template 0); [by rewrite drop_0|lia|apply parse_templates_spec].
Qed.

(** A valid template between a rejected one and a plain reference. *)
Example sample_templates :
  (fun m => (bm_start m, bm_end m)) <$>
    parseBasicAuthTemplates (js "${{ basic(x) }} ${{ basic(secrets.USER, vars.PASS) }} ${{ secrets.T }}") =
  [(16%nat, 53%nat)].
Proof. vm_compute. reflexivity. Qed.

End Templates.
