(* ===== verification/References.v ===== *)
(** The language of references [${{ ns.name }}] of a regular expression, for any list of
    namespaces: which texts are references, how a text reads as references and
    single units, and what [matchAll] and [replace] of [Templates] do on that
    reading. *)

From S2P Require Import Prelude JsString Templates.

Import Templates.

Module References.

(** [value.replace(pattern_g, callback)] with a callback that updates [S]; it gets
    the text of the match, the namespace and the name. *)
Fixpoint replace_all {N S} (nss : list (N * jsstr)) (callback : S -> jsstr -> N -> jsstr -> S * jsstr)
    (st : S) (s : jsstr) (skip : nat) : S * jsstr :=
  match s with
  | [] => (st, [])
  | c :: s' =>
      match skip with
      | Datatypes.S k => replace_all nss callback st s' k
      | O =>
          match match_reference nss s with
          | Some (ns, n, len) =>
              let '(st1, text) := callback st (take len s) ns n in
              let '(st2, rest) := replace_all nss callback st1 s' (len - 1) in
              (st2, text ++ rest)
          | None => let '(st1, rest) := replace_all nss callback st s' 0 in (st1, c :: rest)
          end
      end
  end.

Definition is_identifier (n : jsstr) : bool :=
  match n with c :: n' => isIdentifierStart c && forallb isIdentifierPart n' | [] => false end.

(** The units of a namespace with its dot. *)
Definition is_ns_unit (c : Z) : bool := isIdentifierPart c || (c =? 46).

(** What a list of namespaces promises: one text per namespace, none of them a prefix of
    another. *)
Class RefPattern {N} (nss : list (N * jsstr)) := {
  ns_text : N -> jsstr;
  ns_complete : forall n rest, match_ns nss (ns_text n ++ rest) = Some (n, length (ns_text n));
  ns_sound : forall s n k, match_ns nss s = Some (n, k) -> starts_with s (ns_text n) = true /\ k = length (ns_text n);
  ns_units : forall n, forallb is_ns_unit (ns_text n) && negb (bool_decide (ns_text n = [])) = true;
}.

(** ** Runs of units *)

(** [stops f s]: [s] does not start with a unit of [f]. *)
Definition stops (f : Z -> bool) (s : jsstr) : Prop := forall c, head s = Some c -> f c = false.

Lemma span_app f a b : forallb f a = true -> stops f b -> span_length f (a ++ b) = length a.
Proof.
  induction a as [|c a IH]; simpl; intros Ha Hb.
  - destruct b as [|d b]; [done|]. simpl. by rewrite (Hb d).
  - apply andb_true_iff in Ha as [-> Ha]. by rewrite IH.
Qed.

Lemma span_split f s :
  exists a b, s = a ++ b /\ span_length f s = length a /\ forallb f a = true /\ stops f b.
Proof.
  induction s as [|c s IH]; [by exists [], []|]. simpl. destruct (f c) eqn:E.
  - destruct IH as (a & b & -> & -> & Ha & Hb). exists (c :: a), b. simpl. by rewrite E.
  - exists [], (c :: s). split_and!; try done. by intros d [= <-].
Qed.

Lemma stops_app f a b : a <> [] -> stops f a -> stops f (a ++ b).
Proof. by destruct a. Qed.

Lemma parse_identifier_app pre n rest :
  is_identifier n = true -> stops isIdentifierPart rest ->
  parseTemplateIdentifier (pre ++ n ++ rest) (length pre) = Some (n, length pre + length n)%nat.
Proof.
  destruct n as [|c n]; simpl; [done|]. intros [Hc Hn]%andb_true_iff Hr.
  unfold parseTemplateIdentifier. rewrite lookup_app_r by lia. rewrite Nat.sub_diag. simpl. rewrite Hc.
  rewrite drop_app_ge by lia. replace (length pre + 1 - length pre)%nat with 1%nat by lia. simpl.
  rewrite drop_0, span_app by done. unfold slice. rewrite drop_app_length.
  f_equal. f_equal; [|lia].
  replace (length pre + 1 + length n - length pre)%nat with (length (c :: n)) by (simpl; lia).
  change (c :: n ++ rest) with ((c :: n) ++ rest). by rewrite take_app_length.
Qed.

Lemma parse_identifier_inv s i n j :
  parseTemplateIdentifier s i = Some (n, j) ->
  exists rest, drop i s = n ++ rest /\ is_identifier n = true /\ j = (i + length n)%nat /\ (i < length s)%nat.
Proof.
  unfold parseTemplateIdentifier. destruct (s !! i) as [c|] eqn:Hc; [|done].
  destruct (isIdentifierStart c) eqn:Hs; [|done]. intros [= <- <-].
  pose proof (lookup_lt_Some _ _ _ Hc) as Hlt. rewrite (drop_S _ _ _ Hc) in *.
  destruct (span_split isIdentifierPart (drop (i + 1) s)) as (a & b & Hab & Hlen & Ha & _).
  exists b. rewrite Hlen. unfold slice. rewrite (drop_S _ _ _ Hc). rewrite Nat.add_1_r in *. rewrite Hab.
  replace (S i + length a - i)%nat with (length (c :: a)) by (simpl; lia).
  change (c :: a ++ b) with ((c :: a) ++ b). rewrite take_app_length.
  split_and!; [done| |simpl; lia|done]. simpl. by rewrite Hs, Ha.
Qed.

(** The four classes of units of the pattern do not meet. *)
Lemma whitespace_not_unit c : isRegexWhitespace c = true ->
  is_ns_unit c = false /\ c <> 36 /\ c <> 123 /\ c <> 125 /\ c <> 34.
Proof.
  unfold is_ns_unit, isRegexWhitespace, isTemplateWhitespace, isIdentifierPart, isIdentifierStart. intros Hc.
  repeat first [rewrite orb_true_iff in Hc | rewrite andb_true_iff in Hc | rewrite Z.eqb_eq in Hc
               | rewrite Z.leb_le in Hc].
  repeat first [rewrite orb_false_iff | rewrite andb_false_iff | rewrite Z.eqb_neq | rewrite Z.leb_gt].
  lia.
Qed.

Lemma ns_unit_plain c : is_ns_unit c = true ->
  isRegexWhitespace c = false /\ c <> 36 /\ c <> 123 /\ c <> 125 /\ c <> 34.
Proof.
  intros Hc. split; [|unfold is_ns_unit, isIdentifierPart, isIdentifierStart in Hc; lia].
  destruct (isRegexWhitespace c) eqn:E; [|done]. destruct (whitespace_not_unit c E) as [H _]. congruence.
Qed.

Lemma identifier_stops ws : forallb isRegexWhitespace ws = true -> stops isIdentifierPart (ws ++ js "}}").
Proof.
  destruct ws as [|c ws]; intros Hws d; [by intros [= <-]|]. intros [= <-]. simpl in Hws.
  apply andb_true_iff in Hws as [Hc _]. destruct (whitespace_not_unit c Hc) as [Hu _].
  unfold is_ns_unit in Hu. by apply orb_false_iff in Hu as [? _].
Qed.

(** ** References *)

Section Pattern.
Context {N : Type} (nss : list (N * jsstr)) `{!RefPattern nss}.

(** [full] is a text of the pattern, for the namespace [ns] and the name [n]. *)
Definition is_reference (full : jsstr) (ns : N) (n : jsstr) : Prop :=
  exists ws1 ws2,
    forallb isRegexWhitespace ws1 = true /\ forallb isRegexWhitespace ws2 = true /\
    is_identifier n = true /\
    full = DOLLAR_BRACES ++ ws1 ++ (ns_text ns ++ n) ++ ws2 ++ js "}}".

(** The matcher accepts the prefixes of the language, with the length of the match. *)
Lemma match_reference_complete full ns n rest :
  is_reference full ns n -> match_reference nss (full ++ rest) = Some (ns, n, length full).
Proof.
  intros (ws1 & ws2 & H1 & H2 & Hn & ->). unfold match_reference. rewrite <- !app_assoc.
  replace (starts_with _ DOLLAR_BRACES) with true by (symmetry; apply starts_with_app). cbn [negb].
  change 3%nat with (length DOLLAR_BRACES). rewrite drop_app_length, span_app; [|done|].
  2: { pose proof (ns_units ns) as [Hu Hne]%andb_true_iff.
       destruct (ns_text ns) as [|c t]; [done|]. intros d [= <-]. simpl in Hu.
       apply andb_true_iff in Hu as [Hu _]. by apply ns_unit_plain in Hu as [? _]. }
  rewrite <- length_app, app_assoc, drop_app_length, ns_complete. cbn [mbind option_bind].
  rewrite <- length_app, (app_assoc (_ ++ ws1)).
  rewrite parse_identifier_app; [|done|].
  2: { rewrite app_assoc. apply stops_app; [by destruct ws2|by apply identifier_stops]. }
  cbn [mbind option_bind].
  rewrite <- length_app, (app_assoc _ n), drop_app_length, span_app; [|done|by intros c [= <-]].
  unfold starts_with_at. rewrite <- length_app, (app_assoc _ ws2), drop_app_length.
  rewrite starts_with_app. f_equal. f_equal. rewrite !length_app. change (length (js "}}")) with 2%nat. lia.
Qed.

Lemma match_reference_sound s ns n len :
  match_reference nss s = Some (ns, n, len) ->
  exists rest, s = take len s ++ rest /\ length (take len s) = len /\ is_reference (take len s) ns n.
Proof.
  unfold match_reference. destruct (starts_with s DOLLAR_BRACES) eqn:E0; [|done]. cbn [negb].
  apply starts_with_spec in E0 as (s1 & ->). change 3%nat with (length DOLLAR_BRACES).
  rewrite drop_app_length. destruct (span_split isRegexWhitespace s1) as (ws1 & s2 & -> & -> & H1 & _).
  rewrite <- length_app, app_assoc, drop_app_length.
  destruct (match_ns nss s2) as [[ns' k]|] eqn:E2; cbn [mbind option_bind]; [|done].
  apply ns_sound in E2 as [(s3 & ->)%starts_with_spec ->].
  rewrite <- length_app, (app_assoc (_ ++ ws1)).
  destruct (parseTemplateIdentifier _ _) as [[n' j]|] eqn:E3; cbn [mbind option_bind]; [|done].
  apply parse_identifier_inv in E3 as (s4 & Hd & Hn & -> & _). rewrite drop_app_length in Hd. subst s3.
  rewrite <- length_app, (app_assoc _ n'), drop_app_length.
  destruct (span_split isRegexWhitespace s4) as (ws2 & s5 & -> & -> & H2 & _).
  unfold starts_with_at. rewrite <- length_app, (app_assoc _ ws2), drop_app_length.
  destruct (starts_with s5 (js "}}")) eqn:E4; [|done].
  set (pre := (((DOLLAR_BRACES ++ ws1) ++ ns_text ns') ++ n') ++ ws2). intros Heq.
  apply (inj Some), pair_equal_spec in Heq as [[-> ->]%pair_equal_spec <-].
  change 2%nat with (length (js "}}")).
  apply starts_with_spec in E4 as (rest & ->). exists rest. rewrite <- length_app.
  rewrite (app_assoc pre), take_app_length. split_and!; [done|done|].
  exists ws1, ws2. split_and!; [done..|]. subst pre. by rewrite <- !app_assoc.
Qed.

Lemma is_reference_cons full ns n : is_reference full ns n -> exists full', full = 36 :: full'.
Proof. intros (ws1 & ws2 & _ & _ & _ & ->). eexists. reflexivity. Qed.

(** ** The reading of a text

    From left to right: a reference where one starts, else one unit. *)

Inductive piece := Lit (c : Z) | Ref (full : jsstr) (ns : N) (n : jsstr).

Inductive decomposes : jsstr -> list piece -> Prop :=
| dec_nil : decomposes [] []
| dec_ref full ns n s ps :
    is_reference full ns n -> decomposes s ps -> decomposes (full ++ s) (Ref full ns n :: ps)
| dec_lit c s ps :
    (forall full ns n rest, is_reference full ns n -> c :: s <> full ++ rest) ->
    decomposes s ps -> decomposes (c :: s) (Lit c :: ps).

Lemma decompose s : exists ps, decomposes s ps.
Proof.
  remember (length s) as m eqn:Hm. assert (length s <= m)%nat as Hle by lia. clear Hm. revert s Hle.
  induction m as [|m IH]; intros [|c s] Hle; simpl in Hle; try lia; try (by exists []; constructor).
  destruct (match_reference nss (c :: s)) as [[[ns n] len]|] eqn:E.
  - apply match_reference_sound in E as (rest & Hs & Hlen & Href).
    destruct (is_reference_cons _ _ _ Href) as (full' & Hf).
    destruct (IH rest) as [ps Hps]; [|eexists; rewrite Hs; by apply dec_ref].
    apply (f_equal length) in Hs. rewrite length_app, Hf in Hs. simpl in Hs. lia.
  - destruct (IH s ltac:(lia)) as [ps Hps]. exists (Lit c :: ps). apply dec_lit; [|done].
    intros full ns n rest Href Heq. rewrite Heq, (match_reference_complete full ns n) in E; done.
Qed.

Lemma match_reference_None c s ps :
  decomposes (c :: s) (Lit c :: ps) -> match_reference nss (c :: s) = None.
Proof.
  inversion 1 as [| |? ? ? Hno]; subst. destruct (match_reference _ _) as [[[ns n] len]|] eqn:E; [|done].
  apply match_reference_sound in E as (rest & Hs & _ & Href). by destruct (Hno _ _ _ _ Href Hs).
Qed.

Lemma is_reference_unique full ns n rest full' ns' n' rest' :
  is_reference full ns n -> is_reference full' ns' n' -> full ++ rest = full' ++ rest' ->
  full = full' /\ ns = ns' /\ n = n' /\ rest = rest'.
Proof.
  intros H H' E. pose proof (match_reference_complete _ _ _ rest H) as M.
  rewrite E, (match_reference_complete _ _ _ rest' H') in M. injection M as E1 E2 E3.
  by destruct (app_inj_1 _ _ _ _ (eq_sym E3) E) as [-> ->].
Qed.

Lemma decomposes_unique s ps ps' : decomposes s ps -> decomposes s ps' -> ps' = ps.
Proof.
  intros H. revert ps'. induction H as [|full ns n s ps Href Hs IH|c s ps Hno Hs IH]; intros ps' H'.
  - inversion H' as [|full ns n s ps Href Hs E|]; [done|].
    by destruct (is_reference_cons _ _ _ Href) as (full' & ->).
  - inversion H' as [E|full' ns' n' s' ps1 Href' Hs' E|c s' ps1 Hno' Hs' E]; subst.
    + by destruct (is_reference_cons _ _ _ Href) as (full' & ->).
    + destruct (is_reference_unique _ _ _ _ _ _ _ _ Href' Href E) as (-> & -> & -> & ->). f_equal. auto.
    + by destruct (Hno' _ _ _ _ Href E).
  - inversion H' as [|full ns n s' ps1 Href Hs' E|c' s' ps1 Hno' Hs' E]; subst.
    + by destruct (Hno _ _ _ _ Href (eq_sym E)).
    + f_equal. auto.
Qed.

(** ** [matchAll] and [replace] on the reading *)

Definition piece_text (p : piece) : jsstr := match p with Lit c => [c] | Ref full _ _ => full end.

Lemma pieces_text s ps : decomposes s ps -> concat (piece_text <$> ps) = s.
Proof. induction 1 as [|full ns n s ps Href Hs IH|c s ps Hno Hs IH]; csimpl; by rewrite ?IH. Qed.

(** The references of a reading with their positions. *)
Fixpoint indexed (i : nat) (ps : list piece) : list (nat * N * jsstr) :=
  match ps with
  | [] => []
  | Lit _ :: ps' => indexed (S i) ps'
  | Ref full ns n :: ps' => (i, ns, n) :: indexed (i + length full) ps'
  end.

Definition piece_key (p : piece) : option (N * jsstr) :=
  match p with Lit _ => None | Ref _ ns n => Some (ns, n) end.

Lemma indexed_keys i ps : (fun '(_, ns, n) => (ns, n)) <$> indexed i ps = omap piece_key ps.
Proof. revert i; induction ps as [|[c|full ns n] ps IH]; intros i; csimpl; by rewrite ?IH. Qed.

Lemma match_all_skip s (i k : nat) :
  match_all nss s i k = match_all nss (drop k s) (i + Nat.min k (length s)) 0.
Proof.
  revert i k; induction s as [|c s IH]; intros i [|k]; try done.
  - by rewrite drop_0, Nat.min_0_l, Nat.add_0_r.
  - cbn [match_all drop length]. rewrite IH. f_equal. lia.
Qed.

Lemma match_all_pieces s ps i : decomposes s ps -> match_all nss s i 0 = indexed i ps.
Proof.
  intros H. revert i. induction H as [|full ns n s ps Href Hs IH|c s ps Hno Hs IH]; intros i; [done| |].
  - pose proof (match_reference_complete full ns n s Href) as E.
    destruct (is_reference_cons _ _ _ Href) as (full' & ->). cbn [app match_all].
    cbn [app] in E. rewrite E. csimpl. rewrite match_all_skip.
    rewrite Nat.sub_0_r, drop_app_length, IH. do 2 f_equal. rewrite length_app. lia.
  - cbn [match_all]. rewrite (match_reference_None c s ps); [|by constructor]. csimpl. apply IH.
Qed.

Lemma replace_all_skip {S} (f : S -> jsstr -> N -> jsstr -> S * jsstr) st s k :
  replace_all nss f st s k = replace_all nss f st (drop k s) 0.
Proof. revert st k; induction s as [|c s IH]; intros st [|k]; simpl; by rewrite ?IH. Qed.

(** A callback applied to the references of a reading in order. *)
Lemma replace_all_pieces {S} (f : S -> jsstr -> N -> jsstr -> S * jsstr) st s ps :
  decomposes s ps ->
  replace_all nss f st s 0 =
  foldr (fun p k st => match p with
    | Lit c => let '(st', rest) := k st in (st', c :: rest)
    | Ref full ns n => let '(st1, text) := f st full ns n in
                       let '(st2, rest) := k st1 in (st2, text ++ rest) end)
    (fun st => (st, [])) ps st.
Proof.
  intros H. revert st. induction H as [|full ns n s ps Href Hs IH|c s ps Hno Hs IH]; intros st; [done| |].
  - pose proof (match_reference_complete full ns n s Href) as E. cbn [foldr].
    rewrite <- (take_app_length full s) at 2.
    destruct (is_reference_cons _ _ _ Href) as (full' & Hf). rewrite Hf in E |- * at 1.
    cbn [app replace_all] in *. rewrite E. rewrite Hf.
    destruct (f st _ _ _) as [st1 text]. rewrite replace_all_skip. simpl.
    by rewrite Nat.sub_0_r, drop_app_length, IH.
  - cbn [replace_all foldr]. rewrite (match_reference_None c s ps); [|by constructor]. by rewrite IH.
Qed.

(** ** Readings of concatenations *)

(** The three parts of a reference: braces and white space, the key, white space and
    braces. *)
Lemma reference_parts full ns n :
  is_reference full ns n ->
  exists P K Q, full = P ++ K ++ Q /\ head full = Some 36 /\ last full = Some 125 /\
    (forall c, c ∈ tail P -> c = 123 \/ isRegexWhitespace c = true) /\ head P = Some 36 /\
    (forall c, c ∈ K -> is_ns_unit c = true) /\
    (forall c, c ∈ Q -> c = 125 \/ isRegexWhitespace c = true).
Proof.
  intros (ws1 & ws2 & H1 & H2 & Hn & ->). pose proof (ns_units ns) as [Hu _]%andb_true_iff.
  exists (DOLLAR_BRACES ++ ws1), (ns_text ns ++ n), (ws2 ++ js "}}").
  split_and!; [by rewrite <- app_assoc|done|by rewrite !app_assoc, last_app| |done| |].
  - change (tail (DOLLAR_BRACES ++ ws1)) with (123 :: 123 :: ws1). intros c.
    rewrite !elem_of_cons. intros [->|[->|Hc]]; [by left..|right]. exact (forallb_elem _ _ _ H1 Hc).
  - intros c [Hc|Hc]%elem_of_app; [exact (forallb_elem _ _ _ Hu Hc)|]. unfold is_ns_unit.
    destruct n as [|d n]; [done|]. simpl in Hn. apply andb_true_iff in Hn as [Hd Hn].
    apply elem_of_cons in Hc as [->|Hc]; [by unfold isIdentifierPart; rewrite Hd|].
    by rewrite (forallb_elem _ _ _ Hn Hc).
  - intros c [Hc|Hc]%elem_of_app; [right; exact (forallb_elem _ _ _ H2 Hc)|].
    change (js "}}") with [125; 125] in Hc. left. set_solver.
Qed.

(** A reference opens with the only dollar sign it has and contains no quote. *)
Lemma reference_units full ns n :
  is_reference full ns n -> exists t, full = 36 :: t /\ 36 ∉ t /\ 34 ∉ full.
Proof.
  intros (P & K & Q & -> & _ & _ & HP & HPh & HK & HQ)%reference_parts. destruct P as [|d P]; [done|].
  injection HPh as ->. simpl in HP. exists (P ++ K ++ Q).
  assert (forall c, c ∈ P ++ K ++ Q -> c <> 36 /\ c <> 34) as Hall.
  { intros c. rewrite !elem_of_app. intros [Hc|[Hc|Hc]].
    - apply HP in Hc as [->|Hc]; [done|]. by apply whitespace_not_unit in Hc as (_ & ? & _ & _ & ?).
    - by apply HK, ns_unit_plain in Hc as (_ & ? & _ & _ & ?).
    - apply HQ in Hc as [->|Hc]; [done|]. by apply whitespace_not_unit in Hc as (_ & ? & _ & _ & ?). }
  split_and!; [done| |].
  - by intros [? _]%Hall.
  - simpl. intros [?|Hc]%elem_of_cons; [done|]. by apply Hall in Hc as [_ ?].
Qed.

(** No reference starts in [a] and ends in [b]. *)
Definition no_cross (a b : jsstr) : Prop :=
  forall a1 a2 full ns n rest, a = a1 ++ a2 -> a2 <> [] -> is_reference full ns n -> a2 ++ b = full ++ rest ->
  (length full <= length a2)%nat.

Lemma no_cross_suffix a1 a b : no_cross (a1 ++ a) b -> no_cross a b.
Proof. intros H a2 a3 full ns n rest -> Hne Href E. eapply (H (a1 ++ a2)); eauto. by rewrite app_assoc. Qed.

Lemma decomposes_app a b ps qs :
  no_cross a b -> decomposes a ps -> decomposes b qs -> decomposes (a ++ b) (ps ++ qs).
Proof.
  intros Hx Ha Hb. induction Ha as [|full ns n s ps Href Hs IH|c s ps Hno Hs IH]; simpl; [done| |].
  - rewrite <- app_assoc. constructor; [done|]. apply IH. by eapply no_cross_suffix.
  - constructor; [|by apply IH, (no_cross_suffix [c])]. intros full ns n rest Href E.
    assert (length full <= length (c :: s))%nat as Hle by (eapply (Hx []); eauto).
    apply (Hno full ns n (drop (length full) (c :: s)) Href).
    rewrite <- (take_drop (length full) (c :: s)) at 1. f_equal.
    transitivity (take (length full) ((c :: s) ++ b)); [by rewrite take_app_le|].
    simpl app. rewrite E. apply take_app_length.
Qed.

Lemma no_cross_nil a : no_cross a [].
Proof.
  intros a1 a2 full ns n rest -> _ _ E. rewrite app_nil_r in E. rewrite E, length_app. lia.
Qed.

(** A reference that ends behind [a] contains what follows [a]. *)
Lemma crossing_split (a2 b full rest : jsstr) :
  a2 ++ b = full ++ rest -> (length a2 < length full)%nat ->
  exists k, full = a2 ++ k /\ b = k ++ rest /\ k <> [].
Proof.
  intros E Hlt. apply app_eq_inv in E as [(k & -> & ->)|(k & -> & ->)].
  - rewrite length_app in Hlt. lia.
  - exists k. split_and!; [done..|]. intros ->. rewrite app_nil_r in Hlt. lia.
Qed.

Lemma no_cross_dollar a b : no_cross a (36 :: b).
Proof.
  intros a1 a2 full ns n rest _ Hne Href E. destruct (decide (length full <= length a2)%nat); [done|].
  destruct (crossing_split a2 (36 :: b) full rest) as (k & Hf & Hk & Hkn); [done|lia|].
  apply reference_units in Href as (t & Ht & Hd & _). destruct a2 as [|c a2]; [done|]. destruct k as [|d k]; [done|].
  simplify_eq/=. set_solver.
Qed.

(** After every dollar sign of [a] there is a quote, or no reference starts there. *)
Lemma no_cross_quoted a b :
  (forall a1 a2, a = a1 ++ 36 :: a2 ->
     34 ∈ a2 \/ forall full ns n rest, is_reference full ns n -> (36 :: a2) ++ b <> full ++ rest) ->
  no_cross a b.
Proof.
  intros H a1 a2 full ns n rest -> Hne Href E. destruct (decide (length full <= length a2)%nat); [done|].
  destruct (crossing_split a2 b full rest) as (k & Hf & Hk & Hkn); [done|lia|].
  pose proof (reference_units _ _ _ Href) as (t & Ht & _ & Hq). destruct a2 as [|c a2]; [done|].
  rewrite Hf in Ht. injection Ht as -> _. destruct (H a1 a2 eq_refl) as [Hin|Hno].
  - destruct Hq. rewrite Hf. set_solver.
  - by destruct (Hno _ _ _ _ Href E).
Qed.

(** A word followed by a blank and a unit which is neither white space nor a brace. *)
Lemma no_cross_word a c w x r :
  isRegexWhitespace c = false -> c <> 36 -> c <> 123 -> 125 ∉ c :: w -> isRegexWhitespace x = false -> x <> 125 ->
  no_cross a (((c :: w) ++ [32]) ++ x :: r).
Proof.
  intros Hc H36 H123 Hw Hx H125 a1 a2 full ns n rest _ Hne Href E.
  destruct (decide (length full <= length a2)%nat); [done|]. exfalso.
  destruct (crossing_split a2 _ full rest E) as (k & Hf & Hk & Hkn); [lia|]. set (L := (c :: w) ++ [32]) in *.
  apply reference_parts in Href as (P & K & Q & HPKQ & _ & Hlast & HP & HPh & HK & HQ).
  assert (c ∉ P) as HcP.
  { destruct P as [|d P]; [done|]. injection HPh as ->. intros [->|Hin%HP]%elem_of_cons; [done|]. naive_solver congruence. }
  assert (c ∈ L) as HcL by (subst L; by left).
  destruct (app_eq_inv _ _ _ _ Hk) as [(u & HL & Hr)|(u & HL & Hr)].
  { rewrite Hf, last_app in Hlast. destruct (last k) as [y|] eqn:Ey; [|by apply last_None in Ey].
    injection Hlast as ->. apply last_Some in Ey as [k0 ->]. assert (125 ∈ L) as Hin by (rewrite HL; set_solver).
    apply elem_of_app in Hin as [Hin|Hin]; [done|]. set_solver. }
  rewrite Hf, HL in HPKQ. destruct u as [|y u].
  { subst L. by rewrite Hf, HL, app_nil_r, last_app, last_snoc in Hlast. }
  injection Hr as <- _. rewrite app_assoc in HPKQ. symmetry in HPKQ.
  destruct (app_eq_inv _ _ _ _ HPKQ) as [(v & HPv & _)|(v & HPv & HKQ)]; [rewrite HPv in HcP; set_solver|].
  destruct (app_eq_inv _ _ _ _ HKQ) as [(v' & HKv & _)|(v' & _ & HQv)].
  - destruct (last v) as [z|] eqn:Ez.
    + apply (f_equal last) in HPv. subst L.
      rewrite app_assoc, last_snoc, last_app, Ez in HPv. injection HPv as <-.
      apply last_Some in Ez as [v0 ->]. assert (is_ns_unit 32 = true) as Hu; [|done].
      apply HK. rewrite HKv. set_solver.
    + apply last_None in Ez as ->. rewrite app_nil_r in HPv. apply HcP. rewrite <- HPv. set_solver.
  - assert (x ∈ Q) as Hin by (rewrite HQv; set_solver). apply HQ in Hin as [?|?]; congruence.
Qed.

Lemma indexed_app i ps qs :
  indexed i (ps ++ qs) = indexed i ps ++ indexed (i + length (concat (piece_text <$> ps))) qs.
Proof.
  revert i; induction ps as [|[c|full ns n] ps IH]; intros i; csimpl.
  - by rewrite Nat.add_0_r.
  - rewrite IH. do 2 f_equal. lia.
  - rewrite IH. simpl. do 3 f_equal. rewrite length_app. lia.
Qed.

End Pattern.

Arguments piece : clear implicits.
Arguments Lit {N} c.
Arguments Ref {N} full ns n.

End References.
