(* ===== verification/Bytes.v ===== *)
(** [Buffer.from(text).toString("base64")], the order of [Array.prototype.sort] on
    strings, and what the components need to know about both. *)

From stdpp Require Import sorting.
From S2P Require Import Prelude JsString Templates.

Module Bytes.

(** ** UTF-8

    A unit that is not part of a surrogate pair becomes U+FFFD. *)

Definition utf8_code_point (cp : Z) : list Z :=
  if cp <? 0x80 then [cp]
  else if cp <? 0x800 then [Z.lor 0xc0 (Z.shiftr cp 6); Z.lor 0x80 (Z.land cp 0x3f)]
  else if (0xd800 <=? cp) && (cp <=? 0xdfff) then [0xef; 0xbf; 0xbd]
  else if cp <? 0x10000 then
    [Z.lor 0xe0 (Z.shiftr cp 12); Z.lor 0x80 (Z.land (Z.shiftr cp 6) 0x3f); Z.lor 0x80 (Z.land cp 0x3f)]
  else
    [Z.lor 0xf0 (Z.shiftr cp 18); Z.lor 0x80 (Z.land (Z.shiftr cp 12) 0x3f);
     Z.lor 0x80 (Z.land (Z.shiftr cp 6) 0x3f); Z.lor 0x80 (Z.land cp 0x3f)].

Definition utf8 (s : jsstr) : list Z :=
  concat ((fun ch => default [] (utf8_code_point <$> code_point_at0 ch)) <$> code_points s).

(** ** Base64 *)

Definition BASE64_ALPHABET : jsstr := js "ABCDEFGHIJKLMNOPQRSTUVWXYZabcdefghijklmnopqrstuvwxyz0123456789+/".

Definition sextet (n : Z) : Z := default 65 (BASE64_ALPHABET !! Z.to_nat n).

Fixpoint base64 (bytes : list Z) : jsstr :=
  match bytes with
  | a :: b :: c :: rest =>
      [sextet (Z.shiftr a 2); sextet (Z.lor (Z.shiftl (Z.land a 3) 4) (Z.shiftr b 4));
       sextet (Z.lor (Z.shiftl (Z.land b 15) 2) (Z.shiftr c 6)); sextet (Z.land c 63)] ++ base64 rest
  | [a; b] =>
      [sextet (Z.shiftr a 2); sextet (Z.lor (Z.shiftl (Z.land a 3) 4) (Z.shiftr b 4));
       sextet (Z.shiftl (Z.land b 15) 2); 61]
  | [a] => [sextet (Z.shiftr a 2); sextet (Z.shiftl (Z.land a 3) 4); 61; 61]
  | [] => []
  end.

Example base64_texts :
  (base64 ∘ utf8) <$> [js "user:pass"; js ":"; js "ab"; js "abc"; [0xe9; 0x20ac]; [0xd83d; 0xde00]; [0xd83d]] =
  [js "dXNlcjpwYXNz"; js "Og=="; js "YWI="; js "YWJj"; js "w6nigqw="; js "8J+YgA=="; js "77+9"].
Proof. vm_compute. reflexivity. Qed.

(** The units of an encoded text. *)
Definition is_base64_unit (c : Z) : bool :=
  negb (Templates.isRegexWhitespace c) && negb (c =? 125) && negb (c =? 36).

Lemma sextet_unit n : is_base64_unit (sextet n) = true.
Proof.
  unfold sextet. destruct (BASE64_ALPHABET !! Z.to_nat n) as [c|] eqn:E; [|done]. simpl.
  apply (forallb_elem is_base64_unit BASE64_ALPHABET c); [done|]. by eapply list_elem_of_lookup_2.
Qed.

Lemma base64_units bytes : forallb is_base64_unit (base64 bytes) = true.
Proof.
  remember (length bytes) as n eqn:Hn. assert (length bytes <= n)%nat as Hle by lia. clear Hn. revert bytes Hle.
  induction n as [|n IH]; intros [|a [|b [|c rest]]] Hle; simpl in Hle; try lia; cbn [base64 forallb app];
    rewrite ?sextet_unit; try done.
  apply IH. lia.
Qed.

Lemma base64_nonempty bytes : bytes <> [] -> base64 bytes <> [].
Proof. by destruct bytes as [|a [|b [|c rest]]]. Qed.

Lemma utf8_code_point_nonempty cp : utf8_code_point cp <> [].
Proof. unfold utf8_code_point. by repeat case_match. Qed.

(** ** The order of strings *)

Fixpoint str_le (a b : jsstr) : bool :=
  match a, b with
  | [], _ => true
  | _ :: _, [] => false
  | x :: a', y :: b' => if x <? y then true else if y <? x then false else str_le a' b'
  end.

Definition str_order (a b : jsstr) : Prop := str_le a b = true.

#[export] Instance str_order_dec a b : Decision (str_order a b).
Proof. unfold str_order. apply _. Defined.

Definition sort_strings (l : list jsstr) : list jsstr := merge_sort str_order l.

#[export] Instance str_order_total : Total str_order.
Proof.
  unfold str_order. intros a. induction a as [|x a IH]; intros [|y b]; simpl; [by left..|by right|].
  destruct (x <? y) eqn:E1, (y <? x) eqn:E2; auto.
Qed.

#[export] Instance str_order_trans : Transitive str_order.
Proof.
  unfold str_order. intros a. induction a as [|x a IH]; intros [|y b] [|z c]; simpl; try done.
  destruct (x <? y) eqn:E1; [|destruct (y <? x) eqn:E2; [done|]];
    (destruct (y <? z) eqn:E3; [|destruct (z <? y) eqn:E4; [done|]]); intros H1 H2.
  all: destruct (x <? z) eqn:E5; [done|]; destruct (z <? x) eqn:E6; try lia.
  by eapply IH.
Qed.

Lemma elem_of_sort_strings x l : x ∈ sort_strings l <-> x ∈ l.
Proof. unfold sort_strings. by rewrite merge_sort_Permutation. Qed.

Lemma NoDup_sort_strings l : NoDup l -> NoDup (sort_strings l).
Proof. unfold sort_strings. by rewrite merge_sort_Permutation. Qed.

Lemma sort_strings_sorted l : StronglySorted str_order (sort_strings l).
Proof. apply StronglySorted_merge_sort; apply _. Qed.

End Bytes.
