(* ===== verification/AuthTemplates.v ===== *)
(** Resolution of the auth templates of a firewall request
    (turbo/apps/api/src/signals/services/agent-webhook-firewall-auth.service.ts,
    last part): which secrets and variables a request refers to, and the headers,
    base, query and AWS credentials with their references replaced. *)

From stdpp Require Import sorting.
From S2P Require Import Prelude JsString JsRecord Templates References Bytes.

Import Templates References Bytes.

Module AuthTemplates.

(** ** Data *)

Abbreviation Ns := FirewallTemplateReferenceNamespace.

Record ReferencedAuthKeys := { rk_secrets : list jsstr; rk_vars : list jsstr }.

Record ResolveTemplatesArgs := {
  ra_authHeaders : Rec jsstr;
  ra_secrets : Rec jsstr;
  ra_vars : Rec jsstr;
  ra_authBase : option jsstr;
  ra_authQuery : option (Rec jsstr);
  ra_authAwsSigv4 : option FirewallAwsSigv4Auth;
}.

Record ResolvedTemplates := {
  rt_headers : Rec jsstr;
  rt_resolvedSecrets : list jsstr;
  rt_base : option jsstr;
  rt_query : option (Rec jsstr);
  rt_awsSigv4 : option FirewallAwsSigv4Auth;
}.

Definition TEMPLATE_RE : list (Ns * jsstr) := REF_BOTH.

(** ** The keys a request refers to *)

Definition addKey (keys : ReferencedAuthKeys) (ref : Ns * jsstr) : ReferencedAuthKeys :=
  match ref with
  | (NsSecrets, key) => {| rk_secrets := set_add key (rk_secrets keys); rk_vars := rk_vars keys |}
  | (NsVars, key) => {| rk_secrets := rk_secrets keys; rk_vars := set_add key (rk_vars keys) |}
  end.

(** [if (arg.namespace && arg.key)]. *)
Definition arg_ref (arg : BasicAuthTemplateArg) : list (Ns * jsstr) :=
  match arg with
  | ArgRef ns key => if bool_decide (key = []) then [] else [(ns, key)]
  | _ => []
  end.

Definition collectSimpleReferencesOutsideBasicTemplates (template : jsstr)
    (basicMatches : list BasicAuthTemplateMatch) (keys : ReferencedAuthKeys) : ReferencedAuthKeys :=
  foldl addKey keys (simple_references basicMatches (match_all TEMPLATE_RE template 0 0)).

Definition collectHeaderReferencedKeys (keys : ReferencedAuthKeys) (template : jsstr) : ReferencedAuthKeys :=
  let basicMatches := parseBasicAuthTemplates template in
  let keys := collectSimpleReferencesOutsideBasicTemplates template basicMatches keys in
  foldl (fun keys m => foldl addKey (foldl addKey keys (arg_ref (bm_first m))) (arg_ref (bm_second m)))
    keys basicMatches.

Definition collectSimpleReferencedKeys (keys : ReferencedAuthKeys) (template : jsstr) : ReferencedAuthKeys :=
  foldl addKey keys ((fun '(_, ns, key) => (ns, key)) <$> match_all TEMPLATE_RE template 0 0).

(** [if (template)]: an empty text is skipped. *)
Definition truthy_texts (l : list jsstr) : list jsstr := filter (fun v => v <> []) l.

Definition collectReferencedKeys (authHeaders : Rec jsstr) (authBase : option jsstr)
    (authQuery : option (Rec jsstr)) (authAwsSigv4 : option FirewallAwsSigv4Auth) : ReferencedAuthKeys :=
  let keys := foldl collectHeaderReferencedKeys {| rk_secrets := []; rk_vars := [] |} authHeaders.*2 in
  let keys := foldl collectSimpleReferencedKeys keys (truthy_texts (option_list authBase)) in
  let keys := foldl collectSimpleReferencedKeys keys (values_of authQuery) in
  foldl collectSimpleReferencedKeys keys (truthy_texts (sigv4_values authAwsSigv4)).

(** ** Resolution *)

Definition getOwnValue (values : Rec jsstr) (key : jsstr) : option jsstr := rec_own values key.

(** [getOwnValue(...) ?? ""]. *)
Definition reference_value (secrets vars : Rec jsstr) (ns : Ns) (key : jsstr) : jsstr :=
  default [] (getOwnValue (match ns with NsSecrets => secrets | NsVars => vars end) key).

(** [resolvedKeys.add(key)], for secrets only. *)
Definition add_resolved (ns : Ns) (key : jsstr) (resolvedKeys : list jsstr) : list jsstr :=
  match ns with NsSecrets => set_add key resolvedKeys | NsVars => resolvedKeys end.

Definition resolveBasicArg (secrets vars : Rec jsstr) (arg : BasicAuthTemplateArg)
    (resolvedKeys : list jsstr) : list jsstr * jsstr :=
  match arg with
  | ArgLiteral literal => (resolvedKeys, literal)
  | ArgEmpty => (resolvedKeys, [])
  | ArgRef ns key =>
      if bool_decide (key = []) then (resolvedKeys, [])
      else (add_resolved ns key resolvedKeys, reference_value secrets vars ns key)
  end.

Definition resolveSimple (secrets vars : Rec jsstr) (resolvedKeys : list jsstr) (template : jsstr) :
    list jsstr * jsstr :=
  replace_all TEMPLATE_RE (fun keys _ ns key => (add_resolved ns key keys, reference_value secrets vars ns key))
    resolvedKeys template 0.

(** The callback of [replaceBasicAuthTemplates]: the keys it adds and its text. *)
Definition resolve_basic (secrets vars : Rec jsstr) (m : BasicAuthTemplateMatch) (resolvedKeys : list jsstr) :
    list jsstr * jsstr :=
  let '(keys, user) := resolveBasicArg secrets vars (bm_first m) resolvedKeys in
  let '(keys, pass) := resolveBasicArg secrets vars (bm_second m) keys in
  (keys, js "Basic " ++ base64 (utf8 (user ++ js ":" ++ pass))).

Definition resolve_header (secrets vars : Rec jsstr) (resolvedKeys : list jsstr) (template : jsstr) :
    list jsstr * jsstr :=
  let keys := foldl (fun keys m => (resolve_basic secrets vars m keys).1) resolvedKeys
                (parseBasicAuthTemplates template) in
  resolveSimple secrets vars keys
    (replaceBasicAuthTemplates template (fun m => (resolve_basic secrets vars m []).2)).

(** A list of texts in order, the keys passed on. *)
Fixpoint resolve_list (resolve : list jsstr -> jsstr -> list jsstr * jsstr) (keys : list jsstr)
    (templates : list jsstr) : list jsstr * list jsstr :=
  match templates with
  | [] => (keys, [])
  | t :: ts =>
      let '(keys, text) := resolve keys t in
      let '(keys, texts) := resolve_list resolve keys ts in (keys, text :: texts)
  end.

(** An optional text that is skipped when it is empty. *)
Definition resolve_truthy (resolve : list jsstr -> jsstr -> list jsstr * jsstr) (keys : list jsstr)
    (template : option jsstr) : list jsstr * option jsstr :=
  match template with
  | None | Some [] => (keys, None)
  | Some t => let '(keys, text) := resolve keys t in (keys, Some text)
  end.

Definition resolveTemplates (args : ResolveTemplatesArgs) : ResolvedTemplates :=
  let resolveSimple := resolveSimple (ra_secrets args) (ra_vars args) in
  let '(keys, values) :=
    resolve_list (resolve_header (ra_secrets args) (ra_vars args)) [] (ra_authHeaders args).*2 in
  let headers := foldl (fun acc kv => rec_set acc kv.1 kv.2) [] (zip (ra_authHeaders args).*1 values) in
  let '(keys, base) := resolve_truthy resolveSimple keys (ra_authBase args) in
  let '(keys, query) :=
    match ra_authQuery args with
    | None => (keys, None)
    | Some q =>
        let '(keys, texts) := resolve_list resolveSimple keys q.*2 in
        (keys, Some (foldl (fun acc kv => rec_define acc kv.1 kv.2) [] (zip q.*1 texts)))
    end in
  let '(keys, awsSigv4) :=
    match ra_authAwsSigv4 args with
    | None => (keys, None)
    | Some a =>
        let '(keys, id) := resolveSimple keys (accessKeyId a) in
        let '(keys, key) := resolveSimple keys (secretAccessKey a) in
        let '(keys, token) := resolve_truthy resolveSimple keys (sessionToken a) in
        (keys, Some {| accessKeyId := id; secretAccessKey := key; sessionToken := token |})
    end in
  {| rt_headers := headers; rt_resolvedSecrets := sort_strings keys; rt_base := base; rt_query := query;
     rt_awsSigv4 := awsSigv4 |}.

Definition hasEmptyAwsSigv4Credential (credentials : option FirewallAwsSigv4Auth) : bool :=
  match credentials with
  | None => false
  | Some c => bool_decide (accessKeyId c = []) || bool_decide (secretAccessKey c = []) ||
              bool_decide (sessionToken c = Some [])
  end.

Example resolve_example :
  resolveTemplates {|
    ra_authHeaders := [(js "Authorization", js "${{ basic(vars.U, secrets.P) }}"); (js "X", js "k ${{ secrets.K }}")];
    ra_secrets := [(js "K", js "${{ secrets.P }}"); (js "P", js "pass")]; ra_vars := [(js "U", js "user")];
    ra_authBase := None; ra_authQuery := Some [(js "q", js "${{vars.U}}")]; ra_authAwsSigv4 := None |} =
  {| rt_headers := [(js "Authorization", js "Basic dXNlcjpwYXNz"); (js "X", js "k ${{ secrets.P }}")];
     rt_resolvedSecrets := [js "K"; js "P"]; rt_base := None; rt_query := Some [(js "q", js "user")];
     rt_awsSigv4 := None |}.
Proof. vm_compute. reflexivity. Qed.

(** ** The reading of a header

    The text between basic() templates reads as references and single units. *)

#[export] Instance REF_BOTH_ok : RefPattern TEMPLATE_RE.
Proof.
  apply (Build_RefPattern _ _ (fun ns => match ns with NsSecrets => js "secrets." | NsVars => js "vars." end)).
  - intros [] rest; done.
  - intros t ns k. unfold TEMPLATE_RE, REF_BOTH, REF_SECRETS, REF_VARS. cbn [match_ns app].
    destruct (starts_with t (js "secrets.")) eqn:E1; [by intros [= <- <-]|].
    destruct (starts_with t (js "vars.")) eqn:E2; [by intros [= <- <-]|done].
  - intros []; done.
Defined.

Abbreviation reads := (decomposes TEMPLATE_RE).

Inductive segment := Gap (ps : list (piece Ns)) | Basic (m : BasicAuthTemplateMatch).

(** The segments of [template] from position [i] on, for the basic() matches that
    follow. *)
Inductive segments (template : jsstr) : nat -> list BasicAuthTemplateMatch -> list segment -> Prop :=
| seg_end i ps : reads (drop i template) ps -> segments template i [] [Gap ps]
| seg_basic i m ms ps segs :
    reads (slice template i (bm_start m)) ps -> segments template (bm_end m) ms segs ->
    segments template i (m :: ms) (Gap ps :: Basic m :: segs).

Lemma segments_exist t i ms : exists segs, segments t i ms segs.
Proof.
  revert i; induction ms as [|m ms IH]; intros i.
  - destruct (decompose TEMPLATE_RE (drop i t)) as [ps H]. eexists. by constructor.
  - destruct (decompose TEMPLATE_RE (slice t i (bm_start m))) as [ps H], (IH (bm_end m)) as [segs Hs].
    eexists. by constructor.
Qed.

Lemma segments_unique t i ms segs segs' : segments t i ms segs -> segments t i ms segs' -> segs' = segs.
Proof.
  intros H. revert segs'. induction H as [i ps H|i m ms ps segs H Hs IH]; inversion 1; subst.
  - do 2 f_equal. by eapply (decomposes_unique TEMPLATE_RE).
  - f_equal; [f_equal; by eapply (decomposes_unique TEMPLATE_RE)|]. f_equal. auto.
Qed.

Definition piece_value (secrets vars : Rec jsstr) (p : piece Ns) : jsstr :=
  match p with Lit c => [c] | Ref _ ns key => reference_value secrets vars ns key end.

(** What a segment becomes and the keys it refers to. *)
Definition segment_value (secrets vars : Rec jsstr) (g : segment) : jsstr :=
  match g with
  | Gap ps => concat (piece_value secrets vars <$> ps)
  | Basic m => (resolve_basic secrets vars m []).2
  end.

Definition segment_refs (g : segment) : list (Ns * jsstr) :=
  match g with
  | Gap ps => omap piece_key ps
  | Basic m => arg_ref (bm_first m) ++ arg_ref (bm_second m)
  end.

(** ** A basic() template has no reference that leaves it *)

Lemma template_whitespace c : isTemplateWhitespace c = true -> isRegexWhitespace c = true.
Proof. intros H. unfold isRegexWhitespace. by rewrite H. Qed.

Lemma not_dollar_skip t i p : (i <= p < skipTemplateWhitespace t i)%nat -> t !! p <> Some 36.
Proof. intros Hp E. by pose proof (skipTemplateWhitespace_all t i p 36 Hp E). Qed.

Lemma not_dollar_text t i p q : starts_with_at t p i = true -> p <> [] -> 36 ∉ p ->
  (i <= q < i + length p)%nat -> t !! q <> Some 36.
Proof.
  intros Ht Hne Hp Hq E. rewrite starts_with_at_spec in Ht by done.
  destruct (lookup_lt_is_Some_2 p (q - i)) as [c Hc]; [lia|].
  specialize (Ht _ _ Hc). replace (i + (q - i))%nat with q in Ht by lia. rewrite E in Ht. injection Ht as <-.
  apply Hp. by eapply list_elem_of_lookup_2.
Qed.

Lemma not_dollar_identifier t i n j q : parseTemplateIdentifier t i = Some (n, j) -> (i <= q < j)%nat ->
  t !! q <> Some 36.
Proof.
  intros (rest & Hd & Hn & -> & _)%parse_identifier_inv Hq E.
  assert (n !! (q - i)%nat = Some 36) as Hl.
  { rewrite <- (lookup_app_l n rest) by lia. rewrite <- Hd, lookup_drop. by replace (i + (q - i))%nat with q by lia. }
  apply list_elem_of_lookup_2 in Hl. destruct n as [|c n]; [done|]. simpl in Hn. apply andb_true_iff in Hn as [Hc Hn].
  apply elem_of_cons in Hl as [<-|Hl]; [done|]. by apply (forallb_elem _ _ _ Hn) in Hl.
Qed.

(** After a dollar sign in [t] between [i] and [j] there is a quote before [j]. *)
Definition quoted_dollars (t : jsstr) (i j : nat) : Prop :=
  forall p, (i <= p < j)%nat -> t !! p = Some 36 -> exists q, (p < q < j)%nat /\ t !! q = Some 34.

Lemma quoted_dollars_none t i j : (forall p, (i <= p < j)%nat -> t !! p <> Some 36) -> quoted_dollars t i j.
Proof. intros H p Hp E. by destruct (H p Hp). Qed.

Lemma quoted_dollars_app t i j k : (j <= k)%nat -> quoted_dollars t i j -> quoted_dollars t j k -> quoted_dollars t i k.
Proof.
  intros Hjk H1 H2 p Hp E. destruct (decide (p < j)%nat).
  - destruct (H1 p ltac:(lia) E) as (q & ? & ?). exists q. split; [lia|done].
  - apply H2; [lia|done].
Qed.

Lemma quoted_skip t i : quoted_dollars t i (skipTemplateWhitespace t i).
Proof. apply quoted_dollars_none. apply not_dollar_skip. Qed.

Lemma quoted_unit t i c : t !! i = Some c -> c <> 36 -> quoted_dollars t i (i + 1).
Proof. intros E Hc. apply quoted_dollars_none. intros p Hp E'. replace p with i in E' by lia. congruence. Qed.

Lemma quoted_text t i p : starts_with_at t p i = true -> p <> [] -> 36 ∉ p -> quoted_dollars t i (i + length p).
Proof. intros. apply quoted_dollars_none. intros q Hq. by eapply not_dollar_text. Qed.

Lemma parseArg_quoted t i a j :
  parseBasicAuthTemplateArg (createBasicAuthTemplateParserContext t) t i = (Some a, j) -> quoted_dollars t i j.
Proof.
  intros E. pose proof (parseArg_index _ _ _ _ E) as Hij. revert E. unfold parseBasicAuthTemplateArg.
  pose proof (skipTemplateWhitespace_ge t i) as Hge. pose proof (quoted_skip t i) as Hskip.
  set (n := skipTemplateWhitespace t i) in *.
  case_match eqn:E1; [by intros [= _ <-]|]. case_match eqn:E2.
  - apply bool_decide_eq_true in E2. pose proof (lookup_lt_Some _ _ _ E2) as Hn. rewrite quote_index by lia.
    destruct (index_of_from t [34] (n + 1)) as [q|] eqn:Eq; [|done].
    apply index_of_from_Some in Eq as (Hq & Hquote & _).
    assert (t !! q = Some 34) as Hq34.
    { rewrite starts_with_at_spec in Hquote by done. rewrite <- (Nat.add_0_r q). by apply Hquote. }
    assert (quoted_dollars t i (q + 1)) as Hres.
    { apply (quoted_dollars_app t i n); [lia|done|]. intros p Hp E. exists q. split; [|done].
      assert (p <> q) by congruence. lia. }
    repeat case_match; intros [= _ <-]; done.
  - destruct (starts_with_at t (js "secrets.") n) eqn:Es; [|destruct (starts_with_at t (js "vars.") n) eqn:Ev; [|done]].
    + destruct (parseTemplateIdentifier t (n + 8)) as [[key k]|] eqn:Ek; [|done]. intros [= _ <-].
      pose proof (identifier_index _ _ _ _ Ek).
      apply (quoted_dollars_app t i n); [lia|done|]. apply (quoted_dollars_app t n (n + 8)); [lia| |].
      * apply (quoted_text t n (js "secrets.")); [done..|]. by apply (bool_decide_eq_false_1 (36 ∈ js "secrets.")).
      * apply quoted_dollars_none. intros q Hq. by eapply not_dollar_identifier.
    + destruct (parseTemplateIdentifier t (n + 5)) as [[key k]|] eqn:Ek; [|done]. intros [= _ <-].
      pose proof (identifier_index _ _ _ _ Ek).
      apply (quoted_dollars_app t i n); [lia|done|]. apply (quoted_dollars_app t n (n + 5)); [lia| |].
      * apply (quoted_text t n (js "vars.")); [done..|]. by apply (bool_decide_eq_false_1 (36 ∈ js "vars.")).
      * apply quoted_dollars_none. intros q Hq. by eapply not_dollar_identifier.
Qed.

Lemma parseAt_quoted t st m j :
  parseBasicAuthTemplateAt (createBasicAuthTemplateParserContext t) t st = (Some m, j) ->
  quoted_dollars t (st + 3) j.
Proof.
  intros E. pose proof (parseAt_match _ _ _ _ E) as (_ & _ & Hj & Hend). revert E. unfold parseBasicAuthTemplateAt.
  set (b := skipTemplateWhitespace t (st + 3)). case_match eqn:Eb; [done|]. apply negb_false_iff in Eb.
  destruct (parseBasicAuthTemplateArg _ t _) as [[first|] i1] eqn:E1; [|done].
  pose proof (parseArg_index _ _ _ _ E1) as Hi1. apply parseArg_quoted in E1.
  set (c := skipTemplateWhitespace t i1). case_match eqn:Ec; [done|]. apply negb_false_iff, bool_decide_eq_true in Ec.
  destruct (parseBasicAuthTemplateArg _ t (c + 1)) as [[second|] i2] eqn:E2; [|done].
  pose proof (parseArg_index _ _ _ _ E2) as Hi2. apply parseArg_quoted in E2.
  set (d := skipTemplateWhitespace t i2). case_match eqn:Ed; [done|]. apply negb_false_iff, bool_decide_eq_true in Ed.
  set (e := skipTemplateWhitespace t (d + 1)). case_match eqn:Ee; [done|]. apply negb_false_iff in Ee.
  intros [= _ <-].
  pose proof (skipTemplateWhitespace_ge t (st + 3)). pose proof (skipTemplateWhitespace_ge t i1).
  pose proof (skipTemplateWhitespace_ge t i2). pose proof (skipTemplateWhitespace_ge t (d + 1)).
  subst b c d e.
  eapply quoted_dollars_app; [|apply quoted_skip|]; [lia|].
  eapply quoted_dollars_app; [|apply (quoted_text _ _ _ Eb); [done|by apply (bool_decide_eq_false_1 (36 ∈ BASIC_OPEN))]|];
    [simpl; lia|].
  eapply quoted_dollars_app; [|exact E1|]; [lia|]. eapply quoted_dollars_app; [|apply quoted_skip|]; [lia|].
  eapply quoted_dollars_app; [|by eapply quoted_unit|]; [lia|]. eapply quoted_dollars_app; [|exact E2|]; [lia|].
  eapply quoted_dollars_app; [|apply quoted_skip|]; [lia|]. eapply quoted_dollars_app; [|by eapply quoted_unit|]; [lia|].
  eapply quoted_dollars_app; [|apply quoted_skip|]; [lia|].
  apply (quoted_text _ _ _ Ee); [done|]. by apply (bool_decide_eq_false_1 (36 ∈ js "}}")).
Qed.

(** No reference starts where a basic() template does. *)
Lemma template_not_reference t i st : template_start t i st -> match_reference TEMPLATE_RE (drop st t) = None.
Proof.
  intros (_ & Hd & Hb). unfold match_reference. destruct (starts_with (drop st t) DOLLAR_BRACES); [|done]. cbn [negb].
  rewrite drop_drop. unfold skipTemplateWhitespace, starts_with_at in Hb. rewrite <- drop_drop in Hb.
  set (s := drop (st + 3) t) in *. apply starts_with_spec in Hb as (r & Hr).
  assert (span_length isRegexWhitespace s = span_length isTemplateWhitespace s) as ->.
  { apply span_length_unique.
    - intros k Hk. pose proof (span_length_le isTemplateWhitespace s).
      destruct (lookup_lt_is_Some_2 s k) as [c Hc]; [lia|]. exists c. split; [done|].
      apply template_whitespace. by eapply span_length_all.
    - intros c Hc. rewrite <- (Nat.add_0_r (span_length _ s)), <- lookup_drop, Hr in Hc. by injection Hc as <-. }
  replace (drop (3 + span_length isTemplateWhitespace s) (drop st t)) with
    (drop (span_length isTemplateWhitespace s) s) by (subst s; rewrite !drop_drop; f_equal; lia).
  rewrite Hr. done.
Qed.

(** ** The references outside basic() templates *)

(** The matches from [i] on, with what the parser guarantees of each. *)
Definition matches_ok (t : jsstr) (i : nat) (ms : list BasicAuthTemplateMatch) : Prop :=
  matches_from t i ms /\ Forall (fun m => quoted_dollars t (bm_start m + 3) (bm_end m)) ms.

Lemma scan_quoted t i ms :
  leftmost_scan t i ms -> Forall (fun m => quoted_dollars t (bm_start m + 3) (bm_end m)) ms.
Proof.
  induction 1 as [i Hn|i st m j ms _ E _ IH|i st j ms _ E _ IH]; [constructor| |done].
  constructor; [|done]. pose proof (parseAt_match _ _ _ _ E) as (-> & -> & _). by eapply parseAt_quoted.
Qed.

Lemma matches_ok_parse t : matches_ok t 0 (parseBasicAuthTemplates t).
Proof.
  split; [apply parse_templates_spec|]. unfold parseBasicAuthTemplates, parseBasicAuthTemplatesFuel.
  destruct (parseBasicLoop_scan (S (length t)) t 0) as (ms & -> & H); [lia|]. by eapply scan_quoted.
Qed.

Lemma matches_ok_cons t i m ms : matches_ok t i (m :: ms) ->
  (i <= bm_start m)%nat /\ (bm_start m < bm_end m)%nat /\ (bm_end m <= length t)%nat /\
  template_start t i (bm_start m) /\ quoted_dollars t (bm_start m + 3) (bm_end m) /\ matches_ok t (bm_end m) ms.
Proof. intros [Hm [Hq Hf]%Forall_cons]. inversion Hm; subst. done. Qed.

Lemma slice_app_drop (t : jsstr) i j : (i <= j)%nat -> drop i t = slice t i j ++ drop j t.
Proof.
  intros Hij. unfold slice. rewrite <- (take_drop (j - i) (drop i t)) at 1. f_equal. rewrite drop_drop. f_equal. lia.
Qed.

Lemma slice_lookup (t : jsstr) i j k c : slice t i j !! k = Some c -> t !! (i + k)%nat = Some c /\ (i + k < j)%nat.
Proof. unfold slice. rewrite lookup_take_Some, lookup_drop. intros [? ?]. split; [done|lia]. Qed.

Lemma template_no_cross t i m ms : matches_ok t i (m :: ms) ->
  no_cross TEMPLATE_RE (slice t (bm_start m) (bm_end m)) (drop (bm_end m) t).
Proof.
  intros (_ & Hse & Hlen & Hst & Hq & _)%matches_ok_cons. apply no_cross_quoted. intros a1 a2 Ha.
  assert (t !! (bm_start m + length a1)%nat = Some 36 /\ (bm_start m + length a1 < bm_end m)%nat) as [Hp Hpe].
  { apply slice_lookup. rewrite Ha. rewrite lookup_app_r by lia. by rewrite Nat.sub_diag. }
  destruct a1 as [|c a1].
  - right. intros full ns n rest Href E. simpl in Ha. rewrite <- Ha, <- slice_app_drop in E by lia.
    pose proof (template_not_reference t i _ Hst) as Hn.
    by rewrite E, (match_reference_complete TEMPLATE_RE _ _ _ _ Href) in Hn.
  - left. destruct Hst as (_ & Hd & _). rewrite starts_with_at_spec in Hd by done.
    assert (3 <= length (c :: a1))%nat as H3.
    { destruct a1 as [|? [|? a1]]; simpl in *; [|..|lia].
      - by rewrite (Hd 1%nat 123 eq_refl) in Hp.
      - by rewrite (Hd 2%nat 123 eq_refl) in Hp. }
    destruct (Hq _ ltac:(split; [|exact Hpe]; lia) Hp) as (q & Hqr & Hq34).
    apply list_elem_of_lookup. exists (q - (bm_start m + length (c :: a1)) - 1)%nat.
    assert (slice t (bm_start m) (bm_end m) !! (q - bm_start m)%nat = Some 34) as Hl.
    { unfold slice. rewrite lookup_take_lt, lookup_drop by lia. by replace (bm_start m + (q - bm_start m))%nat with q by lia. }
    rewrite Ha, lookup_app_r in Hl by lia.
    replace (q - bm_start m - length (c :: a1))%nat with
      (S (q - (bm_start m + length (c :: a1)) - 1)) in Hl by lia. exact Hl.
Qed.

Definition ref_key (r : nat * Ns * jsstr) : Ns * jsstr := (r.1.2, r.2).
Definition gap_refs (g : segment) : list (Ns * jsstr) :=
  match g with Gap ps => omap piece_key ps | Basic _ => [] end.

Lemma ref_keys_indexed i ps : ref_key <$> indexed i ps = omap piece_key ps.
Proof. rewrite <- (indexed_keys i). apply list_fmap_ext. by intros _ [[]] _. Qed.

Lemma indexed_range i (ps : list (piece Ns)) r : r ∈ indexed i ps ->
  (i <= r.1.1)%nat /\ ((forall p, p ∈ ps -> piece_text p <> []) -> (r.1.1 < i + length (concat (piece_text <$> ps)))%nat).
Proof.
  revert i; induction ps as [|[c|full ns n] ps IH]; intros i; csimpl; [by intros ?%elem_of_nil| |].
  - intros [H1 H2]%IH. split; [lia|]. intros Hp. specialize (H2 ltac:(set_solver)). lia.
  - rewrite length_app. intros [->|[H1 H2]%IH]%elem_of_cons; simpl.
    + split; [lia|]. intros Hp. specialize (Hp (Ref full ns n) ltac:(set_solver)). simpl in Hp.
      destruct full; [done|]. simpl. lia.
    + split; [lia|]. intros Hp. specialize (H2 ltac:(set_solver)). lia.
Qed.

Lemma reads_nonempty s ps : reads s ps -> forall p, p ∈ ps -> piece_text p <> [].
Proof.
  induction 1 as [|full ns n s ps Href Hs IH|c s ps Hno Hs IH]; intros p; [by intros ?%elem_of_nil|..];
    intros [->|Hp]%elem_of_cons; auto.
  simpl. destruct (is_reference_cons _ _ _ _ Href) as [full' ->]. done.
Qed.

Lemma indexed_in s ps i r : reads s ps -> r ∈ indexed i ps -> (i <= r.1.1 < i + length s)%nat.
Proof.
  intros Hs Hr. pose proof (indexed_range _ _ _ Hr) as [H1 H2]. specialize (H2 (reads_nonempty _ _ Hs)).
  rewrite (pieces_text TEMPLATE_RE _ _ Hs) in H2. lia.
Qed.

Lemma simple_references_nil refs : simple_references [] refs = ref_key <$> refs.
Proof. induction refs as [|[[i ns] n] refs IH]; csimpl; by rewrite ?IH. Qed.

Lemma simple_references_before m ms A B : (bm_start m < bm_end m)%nat ->
  (forall r, r ∈ A -> (r.1.1 < bm_start m)%nat) ->
  simple_references (m :: ms) (A ++ B) = (ref_key <$> A) ++ simple_references (m :: ms) B.
Proof.
  intros Hm. induction A as [|[[i ns] n] A IH]; intros HA; csimpl; [done|].
  assert (i < bm_start m)%nat by (apply (HA (i, ns, n)); by left).
  rewrite (proj2 (Nat.leb_gt _ _)) by lia. rewrite (proj2 (Nat.leb_gt (bm_start m) i)) by lia. simpl.
  f_equal. apply IH. intros r Hr. apply HA. by right.
Qed.

Lemma simple_references_inside m ms A B :
  (forall r, r ∈ A -> (bm_start m <= r.1.1 < bm_end m)%nat) ->
  simple_references (m :: ms) (A ++ B) = simple_references (m :: ms) B.
Proof.
  induction A as [|[[i ns] n] A IH]; intros HA; csimpl; [done|].
  assert (bm_start m <= i < bm_end m)%nat by (apply (HA (i, ns, n)); by left).
  rewrite (proj2 (Nat.leb_gt _ _)) by lia. rewrite (proj2 (Nat.leb_le (bm_start m) i)) by lia.
  rewrite (proj2 (Nat.ltb_lt i (bm_end m))) by lia. simpl. apply IH. intros r Hr. apply HA. by right.
Qed.

Lemma simple_references_after m ms B :
  (forall r, r ∈ B -> (bm_end m <= r.1.1)%nat) -> simple_references (m :: ms) B = simple_references ms B.
Proof.
  destruct B as [|[[i ns] n] B]; intros HB; [done|]. cbn [simple_references skip_basic].
  assert (bm_end m <= i)%nat by (apply (HB (i, ns, n)); by left). by rewrite (proj2 (Nat.leb_le _ _)) by lia.
Qed.

(** The references found outside the basic() matches are those of the gaps. *)
Lemma outside_references t i ms segs :
  matches_ok t i ms -> (i <= length t)%nat -> segments t i ms segs ->
  exists ps, reads (drop i t) ps /\ simple_references ms (indexed i ps) = concat (gap_refs <$> segs).
Proof.
  intros Hok Hi Hs. induction Hs as [i ps H|i m ms ps segs H Hs IH].
  - exists ps. split; [done|]. rewrite simple_references_nil, ref_keys_indexed. csimpl. by rewrite app_nil_r.
  - pose proof (template_no_cross _ _ _ _ Hok) as Hx.
    apply matches_ok_cons in Hok as (H1 & H2 & H3 & Hst & _ & Hok).
    destruct (IH Hok H3) as (qs & Hq & Href). destruct (decompose TEMPLATE_RE (slice t (bm_start m) (bm_end m))) as [us Hu].
    assert (drop i t = slice t i (bm_start m) ++ drop (bm_start m) t) as Hi1 by (apply slice_app_drop; lia).
    assert (drop (bm_start m) t = slice t (bm_start m) (bm_end m) ++ drop (bm_end m) t) as Hi2
      by (apply slice_app_drop; lia).
    assert (length (slice t i (bm_start m)) = bm_start m - i)%nat as Hl1
      by (unfold slice; rewrite length_take, length_drop; lia).
    assert (length (slice t (bm_start m) (bm_end m)) = bm_end m - bm_start m)%nat as Hl2
      by (unfold slice; rewrite length_take, length_drop; lia).
    exists (ps ++ us ++ qs). split.
    + rewrite Hi1. apply decomposes_app; [|done|rewrite Hi2; by apply decomposes_app].
      destruct Hst as (_ & Hd & _). apply starts_with_spec in Hd as (r & ->). apply no_cross_dollar.
    + rewrite !indexed_app, (pieces_text TEMPLATE_RE _ _ H), (pieces_text TEMPLATE_RE _ _ Hu), Hl1, Hl2.
      replace (i + (bm_start m - i))%nat with (bm_start m) by lia.
      replace (bm_start m + (bm_end m - bm_start m))%nat with (bm_end m) by lia.
      rewrite simple_references_before; [|lia|].
      2: { intros r Hr. apply (indexed_in _ _ _ _ H) in Hr. lia. }
      rewrite simple_references_inside.
      2: { intros r Hr. apply (indexed_in _ _ _ _ Hu) in Hr. lia. }
      rewrite simple_references_after.
      2: { intros r Hr. apply (indexed_in _ _ _ _ Hq) in Hr. lia. }
      by rewrite Href, ref_keys_indexed.
Qed.

(** ** The text after the basic() templates are replaced *)

Lemma reads_plain s : 36 ∉ s -> reads s (Lit <$> s).
Proof.
  induction s as [|c s IH]; intros Hs; csimpl; constructor; [|apply IH; set_solver].
  intros full ns n rest Href E. destruct (is_reference_cons _ _ _ _ Href) as [full' ->].
  simplify_eq/=. set_solver.
Qed.

Lemma utf8_nonempty s : s <> [] -> utf8 s <> [].
Proof.
  destruct s as [|c s]; [done|]. intros _. unfold utf8.
  assert (exists ch rest cp, code_points (c :: s) = ch :: rest /\ code_point_at0 ch = Some cp) as (ch & rest & cp & E & Ec).
  { cbn [code_points]. destruct s as [|d s]; [by eexists _, _, _|].
    destruct (is_high_surrogate c && is_low_surrogate d) eqn:Es; eexists _, _, _; (split; [done|]); simpl; [by rewrite Es|done]. }
  rewrite E. csimpl. rewrite Ec. simpl. pose proof (utf8_code_point_nonempty cp). by destruct (utf8_code_point cp).
Qed.

(** The replacement of a basic() template is a word, a blank and base64. *)
Lemma resolve_basic_shape secrets vars m keys : exists x r,
  (resolve_basic secrets vars m keys).2 = ((66 :: js "asic") ++ [32]) ++ x :: r /\
  isRegexWhitespace x = false /\ x <> 125 /\ 36 ∉ (resolve_basic secrets vars m keys).2.
Proof.
  unfold resolve_basic. destruct (resolveBasicArg _ _ _ _) as [k1 user], (resolveBasicArg _ _ _ _) as [k2 pass]. cbn [snd].
  pose proof (base64_units (utf8 (user ++ js ":" ++ pass))) as Hu.
  pose proof (base64_nonempty (utf8 (user ++ js ":" ++ pass))) as Hne.
  destruct (base64 _) as [|x r]; [destruct Hne; [apply utf8_nonempty; by destruct user|done]|].
  exists x, r. assert (forall y, y ∈ x :: r -> isRegexWhitespace y = false /\ y <> 125 /\ y <> 36) as Hall.
  { intros y Hy. apply (forallb_elem _ _ _ Hu) in Hy. unfold is_base64_unit in Hy.
    apply andb_true_iff in Hy as [[H1 H2]%andb_true_iff H3].
    apply negb_true_iff in H1, H2, H3. split_and!; [done|lia|lia]. }
  destruct (Hall x) as (? & ? & _); [by left|]. split_and!; [done|done|done|].
  intros [Hin|Hin]%elem_of_app; [revert Hin; by apply (bool_decide_eq_false_1 (36 ∈ js "Basic "))|].
  by apply Hall in Hin as (_ & _ & ?).
Qed.

Definition add_all (keys : list jsstr) (refs : list (Ns * jsstr)) : list jsstr :=
  foldl (fun keys r => add_resolved r.1 r.2 keys) keys refs.

Lemma add_all_app keys l l' : add_all keys (l ++ l') = add_all (add_all keys l) l'.
Proof. apply foldl_app. Qed.

Lemma elem_of_add_all k keys refs : k ∈ add_all keys refs <-> (NsSecrets, k) ∈ refs \/ k ∈ keys.
Proof.
  revert keys; induction refs as [|[ns key] refs IH]; intros keys; simpl; [set_solver|].
  rewrite IH, elem_of_cons. destruct ns; simpl; [rewrite elem_of_set_add; naive_solver|naive_solver].
Qed.

Lemma NoDup_add_all keys refs : NoDup keys -> NoDup (add_all keys refs).
Proof.
  revert keys; induction refs as [|[[] key] refs IH]; intros keys Hk; simpl; [done|apply IH..]; [|done].
  by apply NoDup_set_add.
Qed.

Lemma resolveBasicArg_spec secrets vars arg keys :
  resolveBasicArg secrets vars arg keys =
  (add_all keys (arg_ref arg), (resolveBasicArg secrets vars arg []).2).
Proof. destruct arg as [|ns key|l]; simpl; try done. by case_bool_decide. Qed.

Lemma resolve_basic_spec secrets vars m keys :
  resolve_basic secrets vars m keys =
  (add_all keys (segment_refs (Basic m)), (resolve_basic secrets vars m []).2).
Proof.
  unfold resolve_basic. cbn [segment_refs]. rewrite add_all_app.
  rewrite (resolveBasicArg_spec _ _ (bm_first m) keys), (resolveBasicArg_spec _ _ (bm_first m) []).
  rewrite (resolveBasicArg_spec _ _ (bm_second m) (add_all keys _)),
    (resolveBasicArg_spec _ _ (bm_second m) (add_all [] _)).
  done.
Qed.

Lemma resolveSimple_spec secrets vars keys s ps : reads s ps ->
  resolveSimple secrets vars keys s =
  (add_all keys (omap piece_key ps), concat (piece_value secrets vars <$> ps)).
Proof.
  intros H. unfold resolveSimple. rewrite (replace_all_pieces _ _ _ _ _ H). clear H.
  revert keys; induction ps as [|[c|full ns n] ps IH]; intros keys; csimpl; [done| |]; by rewrite IH.
Qed.

Lemma replaced_reads secrets vars t i ms segs : segments t i ms segs ->
  exists ps, reads (concat (replace_parts t (fun m => (resolve_basic secrets vars m []).2) ms i)) ps /\
    concat (piece_value secrets vars <$> ps) = concat (segment_value secrets vars <$> segs) /\
    omap piece_key ps = concat (gap_refs <$> segs).
Proof.
  induction 1 as [i ps H|i m ms ps segs H Hs (qs & Hq & Hv & Hk)].
  - exists ps. csimpl. by rewrite !app_nil_r.
  - destruct (resolve_basic_shape secrets vars m []) as (x & r & Hb & Hx & H125 & H36).
    cbn [replace_parts concat]. set (B := (resolve_basic secrets vars m []).2) in *.
    exists (ps ++ (Lit <$> B) ++ qs). split_and!.
    + apply decomposes_app; [|done|apply decomposes_app; [|by apply reads_plain|done]].
      * rewrite Hb, <- app_assoc. cbn [app]. apply (no_cross_word TEMPLATE_RE _ 66 (js "asic")); try done.
        by apply (bool_decide_eq_false_1 (125 ∈ 66 :: js "asic")).
      * apply no_cross_quoted. intros a1 a2 E. rewrite E in H36. set_solver.
    + rewrite !fmap_app, !concat_app, Hv. csimpl. f_equal. f_equal. fold B. clear.
      induction B as [|c B IH]; csimpl; by rewrite ?IH.
    + rewrite !omap_app, Hk. csimpl. f_equal.
      assert (omap piece_key (Lit <$> B) = ([] : list (Ns * jsstr))) as ->; [|done]. clear. by induction B.
Qed.

Lemma replace_parts_text t f : replaceBasicAuthTemplates t f = concat (replace_parts t f (parseBasicAuthTemplates t) 0).
Proof.
  unfold replaceBasicAuthTemplates. case_match eqn:E; [|done]. apply Nat.eqb_eq in E.
  destruct (parseBasicAuthTemplates t); [|done]. simpl. by rewrite drop_0, app_nil_r.
Qed.

(** One header: its value and the keys it adds. *)
Lemma resolve_header_spec secrets vars keys t segs : segments t 0 (parseBasicAuthTemplates t) segs ->
  exists refs, resolve_header secrets vars keys t =
    (add_all keys refs, concat (segment_value secrets vars <$> segs)) /\
    forall r, r ∈ refs <-> r ∈ concat (segment_refs <$> segs).
Proof.
  intros Hs. unfold resolve_header. rewrite replace_parts_text.
  destruct (replaced_reads secrets vars _ _ _ _ Hs) as (ps & Hps & Hv & Hk).
  rewrite (resolveSimple_spec _ _ _ _ _ Hps), Hv, Hk.
  assert (forall ms keys, foldl (fun keys m => (resolve_basic secrets vars m keys).1) keys ms =
    add_all keys (concat ((segment_refs ∘ Basic) <$> ms))) as Hf.
  { clear. induction ms as [|m ms IH]; intros keys; csimpl; [done|].
    by rewrite add_all_app, (resolve_basic_spec _ _ m keys), IH. }
  rewrite Hf, <- add_all_app. eexists. split; [reflexivity|]. intros r. clear Hps Hv Hk Hf ps.
  generalize dependent (parseBasicAuthTemplates t). intros ms Hs.
  induction Hs as [i ps H|i m ms ps segs H Hs IH]; [done|]. csimpl. rewrite !elem_of_app in *. tauto.
Qed.

(** ** A whole request *)

(** The references of a header and of a text without basic() templates. *)
Definition header_ref (t : jsstr) (r : Ns * jsstr) : Prop :=
  exists segs, segments t 0 (parseBasicAuthTemplates t) segs /\ r ∈ concat (segment_refs <$> segs).
Definition simple_ref (t : jsstr) (r : Ns * jsstr) : Prop := exists ps, reads t ps /\ r ∈ omap piece_key ps.

(** The references of a request. *)
Definition refers (authHeaders : Rec jsstr) (authBase : option jsstr) (authQuery : option (Rec jsstr))
    (authAwsSigv4 : option FirewallAwsSigv4Auth) (r : Ns * jsstr) : Prop :=
  (exists t, t ∈ authHeaders.*2 /\ header_ref t r) \/
  (exists t, t ∈ option_list authBase ++ values_of authQuery ++ sigv4_values authAwsSigv4 /\ simple_ref t r).

Definition keys_of (ns : Ns) (keys : ReferencedAuthKeys) : list jsstr :=
  match ns with NsSecrets => rk_secrets keys | NsVars => rk_vars keys end.

Lemma elem_of_addKeys ns k keys refs : k ∈ keys_of ns (foldl addKey keys refs) <-> (ns, k) ∈ refs \/ k ∈ keys_of ns keys.
Proof.
  revert keys; induction refs as [|[ns' key] refs IH]; intros keys; simpl; [set_solver|].
  rewrite IH, elem_of_cons. destruct ns, ns'; simpl; rewrite ?elem_of_set_add; naive_solver.
Qed.

Lemma simple_ref_reads t ps r : reads t ps -> simple_ref t r <-> r ∈ omap piece_key ps.
Proof.
  intros H. split; [|by exists ps]. intros (ps' & H' & Hr). by rewrite (decomposes_unique _ _ _ _ H' H).
Qed.

Lemma header_ref_segments t segs r : segments t 0 (parseBasicAuthTemplates t) segs ->
  header_ref t r <-> r ∈ concat (segment_refs <$> segs).
Proof.
  intros H. split; [|by exists segs]. intros (segs' & H' & Hr). by rewrite (segments_unique _ _ _ _ _ H' H).
Qed.

Lemma collect_header ns k keys t :
  k ∈ keys_of ns (collectHeaderReferencedKeys keys t) <-> header_ref t (ns, k) \/ k ∈ keys_of ns keys.
Proof.
  unfold collectHeaderReferencedKeys, collectSimpleReferencesOutsideBasicTemplates.
  destruct (segments_exist t 0 (parseBasicAuthTemplates t)) as [segs Hs].
  rewrite (header_ref_segments _ _ _ Hs).
  destruct (outside_references t 0 _ segs (matches_ok_parse t) (Nat.le_0_l _) Hs) as (ps & Hps & Hr).
  rewrite drop_0 in Hps. rewrite (match_all_pieces _ _ _ _ Hps), Hr. clear Hps Hr ps.
  assert (forall ms keys, foldl (fun keys m => foldl addKey (foldl addKey keys (arg_ref (bm_first m)))
      (arg_ref (bm_second m))) keys ms = foldl addKey keys (concat ((segment_refs ∘ Basic) <$> ms))) as ->.
  { clear. induction ms as [|m ms IH]; intros keys; csimpl; [done|]. by rewrite IH, !foldl_app. }
  rewrite !elem_of_addKeys.
  assert ((ns, k) ∈ concat (segment_refs ∘ Basic <$> parseBasicAuthTemplates t) \/
          (ns, k) ∈ concat (gap_refs <$> segs) <-> (ns, k) ∈ concat (segment_refs <$> segs)) as Heq; [|tauto].
  generalize dependent (parseBasicAuthTemplates t). intros ms Hs.
  induction Hs as [i ps H|i m ms ps segs H Hs IH]; csimpl; rewrite ?elem_of_app in *; [set_solver|tauto].
Qed.

Lemma collect_simple ns k keys t :
  k ∈ keys_of ns (collectSimpleReferencedKeys keys t) <-> simple_ref t (ns, k) \/ k ∈ keys_of ns keys.
Proof.
  destruct (decompose TEMPLATE_RE t) as [ps H]. rewrite (simple_ref_reads _ _ _ H).
  unfold collectSimpleReferencedKeys. rewrite (match_all_pieces _ _ _ _ H), elem_of_addKeys.
  by rewrite (indexed_keys 0 ps).
Qed.

Lemma collect_list (f : ReferencedAuthKeys -> jsstr -> ReferencedAuthKeys) R ns k keys ts :
  (forall keys t, k ∈ keys_of ns (f keys t) <-> R t (ns, k) \/ k ∈ keys_of ns keys) ->
  k ∈ keys_of ns (foldl f keys ts) <-> (exists t, t ∈ ts /\ R t (ns, k)) \/ k ∈ keys_of ns keys.
Proof.
  intros Hf. revert keys; induction ts as [|t ts IH]; intros keys; simpl.
  - split; [by right|]. intros [(t & ?%elem_of_nil & _)|?]; done.
  - rewrite IH, Hf. setoid_rewrite elem_of_cons. naive_solver.
Qed.

Lemma simple_ref_nil r : ~ simple_ref [] r.
Proof. intros (ps & H & Hr). inversion H as [|full ns n s ps' Href Hs E|]; subst; [by apply elem_of_nil in Hr|].
  destruct (is_reference_cons _ _ _ _ Href) as [? ->]. done. Qed.

(** The collected keys are the references of the request. *)
Lemma collect_refers headers base query aws ns k :
  k ∈ keys_of ns (collectReferencedKeys headers base query aws) <-> refers headers base query aws (ns, k).
Proof.
  unfold collectReferencedKeys, refers, truthy_texts.
  rewrite !(collect_list collectSimpleReferencedKeys simple_ref) by (intros; apply collect_simple).
  rewrite (collect_list collectHeaderReferencedKeys header_ref) by (intros; apply collect_header).
  setoid_rewrite list_elem_of_filter. setoid_rewrite elem_of_app. setoid_rewrite elem_of_app.
  assert (forall t, simple_ref t (ns, k) -> t <> []) as Hne by (intros t Ht ->; by eapply simple_ref_nil).
  assert (k ∈ keys_of ns {| rk_secrets := []; rk_vars := [] |} <-> False) as ->.
  { destruct ns; simpl; split; [by intros ?%elem_of_nil|done|by intros ?%elem_of_nil|done]. }
  split.
  - intros [(t & [_ Ht] & Hr)|[(t & Ht & Hr)|[(t & [_ Ht] & Hr)|[(t & Ht & Hr)|[]]]]]; [right|right|right|left]; eauto 10.
  - intros [(t & Ht & Hr)|(t & [Ht|[Ht|Ht]] & Hr)]; eauto 12.
Qed.

(** [resolve] gives [v] and adds the secrets among the references [R] to the keys. *)
Definition acts {V} (resolve : list jsstr -> list jsstr * V) (R : Ns * jsstr -> Prop) (v : V) : Prop :=
  forall keys, exists l, resolve keys = (add_all keys l, v) /\ forall r, r ∈ l <-> R r.

Definition header_value (secrets vars : Rec jsstr) (t : jsstr) : jsstr := (resolve_header secrets vars [] t).2.
Definition simple_value (secrets vars : Rec jsstr) (t : jsstr) : jsstr := (resolveSimple secrets vars [] t).2.

Lemma header_acts secrets vars t :
  acts (fun keys => resolve_header secrets vars keys t) (header_ref t) (header_value secrets vars t).
Proof.
  intros keys. destruct (segments_exist t 0 (parseBasicAuthTemplates t)) as [segs Hs]. unfold header_value.
  destruct (resolve_header_spec secrets vars [] t segs Hs) as (l0 & -> & _).
  destruct (resolve_header_spec secrets vars keys t segs Hs) as (l & -> & Hl).
  exists l. split; [done|]. intros r. by rewrite (header_ref_segments _ _ _ Hs).
Qed.

Lemma simple_acts secrets vars t :
  acts (fun keys => resolveSimple secrets vars keys t) (simple_ref t) (simple_value secrets vars t).
Proof.
  intros keys. destruct (decompose TEMPLATE_RE t) as [ps H]. unfold simple_value.
  rewrite !(resolveSimple_spec _ _ _ _ _ H). eexists. split; [done|]. intros r. by rewrite (simple_ref_reads _ _ _ H).
Qed.

Lemma list_acts resolve R v ts : (forall t, acts (fun keys => resolve keys t) (R t) (v t)) ->
  acts (fun keys => resolve_list resolve keys ts) (fun r => exists t, t ∈ ts /\ R t r) (v <$> ts).
Proof.
  intros H. induction ts as [|t ts IH]; intros keys; csimpl.
  - exists []. split; [done|]. intros r. split; [by intros ?%elem_of_nil|]. by intros (t & ?%elem_of_nil & _).
  - destruct (H t keys) as (l & -> & Hl), (IH (add_all keys l)) as (l' & -> & Hl'). exists (l ++ l').
    rewrite add_all_app. split; [done|]. intros r. rewrite elem_of_app, Hl, Hl'. setoid_rewrite elem_of_cons. naive_solver.
Qed.

Lemma truthy_acts resolve R v o : (forall t, acts (fun keys => resolve keys t) (R t) (v t)) -> (forall r, ~ R [] r) ->
  acts (fun keys => resolve_truthy resolve keys o) (fun r => exists t, t ∈ option_list o /\ R t r)
    (match o with None | Some [] => None | Some t => Some (v t) end).
Proof.
  intros H Hnil keys. destruct o as [[|c t]|]; simpl.
  - exists []. split; [done|]. intros r. split; [by intros ?%elem_of_nil|].
    intros (t & ->%list_elem_of_singleton & Hr). by destruct (Hnil r).
  - destruct (H (c :: t) keys) as (l & -> & Hl). exists l. split; [done|]. intros r. rewrite Hl.
    setoid_rewrite list_elem_of_singleton. naive_solver.
  - exists []. split; [done|]. intros r. split; [by intros ?%elem_of_nil|]. by intros (t & ?%elem_of_nil & _).
Qed.

(** What [resolveTemplates] returns. *)
Definition resolved_headers (args : ResolveTemplatesArgs) : Rec jsstr :=
  foldl (fun acc kv => rec_set acc kv.1 (header_value (ra_secrets args) (ra_vars args) kv.2)) [] (ra_authHeaders args).

Definition truthy_value (args : ResolveTemplatesArgs) (o : option jsstr) : option jsstr :=
  match o with None | Some [] => None | Some t => Some (simple_value (ra_secrets args) (ra_vars args) t) end.

Lemma zip_values {A} (f : Rec A -> jsstr * jsstr -> Rec A) (v : jsstr -> jsstr) (l : Rec jsstr) acc :
  foldl f acc (zip l.*1 (v <$> l.*2)) = foldl (fun acc kv => f acc (kv.1, v kv.2)) acc l.
Proof. revert acc; induction l as [|[k t] l IH]; intros acc; csimpl; [done|]. apply IH. Qed.

Lemma resolveTemplates_eq args : exists l,
  resolveTemplates args = {|
    rt_headers := resolved_headers args;
    rt_resolvedSecrets := sort_strings (add_all [] l);
    rt_base := truthy_value args (ra_authBase args);
    rt_query := (fun q => foldl (fun acc kv =>
      rec_define acc kv.1 (simple_value (ra_secrets args) (ra_vars args) kv.2)) [] q) <$> ra_authQuery args;
    rt_awsSigv4 := (fun a => {|
      accessKeyId := simple_value (ra_secrets args) (ra_vars args) (accessKeyId a);
      secretAccessKey := simple_value (ra_secrets args) (ra_vars args) (secretAccessKey a);
      sessionToken := truthy_value args (sessionToken a) |}) <$> ra_authAwsSigv4 args |} /\
  forall r, r ∈ l <-> refers (ra_authHeaders args) (ra_authBase args) (ra_authQuery args) (ra_authAwsSigv4 args) r.
Proof.
  unfold resolveTemplates. set (s := ra_secrets args). set (v := ra_vars args).
  destruct (list_acts (resolve_header s v) header_ref (header_value s v) (ra_authHeaders args).*2
    (header_acts s v) []) as (l1 & -> & H1).
  destruct (truthy_acts (resolveSimple s v) simple_ref (simple_value s v) (ra_authBase args)
    (simple_acts s v) simple_ref_nil (add_all [] l1)) as (l2 & -> & H2).
  rewrite zip_values. rewrite <- add_all_app.
  assert (exists l3, match ra_authQuery args with
    | None => (add_all [] (l1 ++ l2), None)
    | Some q => let '(keys, texts) := resolve_list (resolveSimple s v) (add_all [] (l1 ++ l2)) q.*2 in
                (keys, Some (foldl (fun acc kv => rec_define acc kv.1 kv.2) [] (zip q.*1 texts)))
    end = (add_all [] ((l1 ++ l2) ++ l3),
      (fun q => foldl (fun acc kv => rec_define acc kv.1 (simple_value s v kv.2)) [] q) <$> ra_authQuery args) /\
    forall r, r ∈ l3 <-> exists t, t ∈ values_of (ra_authQuery args) /\ simple_ref t r) as (l3 & -> & H3).
  { destruct (ra_authQuery args) as [q|]; simpl.
    - destruct (list_acts (resolveSimple s v) simple_ref (simple_value s v) q.*2 (simple_acts s v)
        (add_all [] (l1 ++ l2))) as (l3 & -> & H3). exists l3. rewrite zip_values, <- add_all_app. done.
    - exists []. rewrite app_nil_r. split; [done|]. intros r. split; [by intros ?%elem_of_nil|].
      by intros (t & ?%elem_of_nil & _). }
  set (L := (l1 ++ l2) ++ l3).
  destruct (ra_authAwsSigv4 args) as [a|] eqn:Ea; simpl.
  - destruct (simple_acts s v (accessKeyId a) (add_all [] L)) as (m1 & -> & M1).
    destruct (simple_acts s v (secretAccessKey a) (add_all (add_all [] L) m1)) as (m2 & -> & M2).
    destruct (truthy_acts (resolveSimple s v) simple_ref (simple_value s v) (sessionToken a)
      (simple_acts s v) simple_ref_nil (add_all (add_all (add_all [] L) m1) m2)) as (m3 & -> & M3).
    rewrite <- !add_all_app. eexists. split; [reflexivity|]. intros r. unfold refers.
    subst L. rewrite !elem_of_app, H1, H2, H3, M1, M2, M3. cbn [sigv4_values].
    rewrite !exists_elem_app, !exists_elem_cons. tauto.
  - eexists. split; [reflexivity|]. intros r. unfold refers. subst L. rewrite !elem_of_app, H1, H2, H3.
    cbn [sigv4_values]. rewrite !exists_elem_app, exists_elem_nil. tauto.
Qed.

(** The secrets that resolution reports as used are exactly the ones that the reference
    check collected from the unresolved request, although the first reads the
    headers after their basic() templates were replaced and the second before; they
    are sorted and listed once. *)
Theorem resolveTemplates_keys args :
  let resolved := rt_resolvedSecrets (resolveTemplates args) in
  (forall k, k ∈ resolved <->
     k ∈ rk_secrets (collectReferencedKeys (ra_authHeaders args) (ra_authBase args) (ra_authQuery args)
                       (ra_authAwsSigv4 args))) /\
  NoDup resolved /\ StronglySorted str_order resolved.
Proof.
  destruct (resolveTemplates_eq args) as (l & -> & Hl). cbn [rt_resolvedSecrets]. split_and!.
  - intros k. rewrite elem_of_sort_strings, elem_of_add_all, Hl, <- collect_refers. set_solver.
  - apply NoDup_sort_strings, NoDup_add_all. constructor.
  - apply sort_strings_sorted.
Qed.

Lemma header_value_segments secrets vars t segs : segments t 0 (parseBasicAuthTemplates t) segs ->
  header_value secrets vars t = concat (segment_value secrets vars <$> segs).
Proof. intros H. unfold header_value. by destruct (resolve_header_spec secrets vars [] t segs H) as (l & -> & _). Qed.

Lemma foldl_set_value {A} (v : jsstr -> A) (l : Rec jsstr) acc k :
  PROTO ∉ rec_keys l -> NoDup (rec_keys l) -> k ∉ rec_keys acc \/ k ∉ rec_keys l ->
  rec_own (foldl (fun acc kv => rec_set acc kv.1 (v kv.2)) acc l) k =
  match rec_own l k with Some t => Some (v t) | None => rec_own acc k end.
Proof.
  revert acc; induction l as [|[k' t] l IH]; intros acc Hp Hnd Hk; [done|]. csimpl in *.
  apply NoDup_cons in Hnd as [Hk' Hnd]. apply not_elem_of_cons in Hp as [Hp' Hp].
  destruct (decide (k' = k)) as [->|Hne].
  - rewrite IH; [|done|done|by right]. rewrite (proj2 (rec_own_None l k)) by done.
    by rewrite rec_own_set, bool_decide_eq_true_2 by done.
  - rewrite IH; [|done|done|].
    + rewrite (bool_decide_eq_false_2 (k' = k)) by done. destruct (rec_own l k); [done|]. by apply rec_own_set_other.
    + destruct Hk as [Hk|Hk]; [|right; set_solver]. left.
      rewrite <- rec_own_None, rec_own_set_other by done. by rewrite rec_own_None.
Qed.

(** A header is its template read once from left to right: the basic() templates become
    the base64 of their two arguments, the references outside them become the values
    of their own property, everything else stays; no value is read again. *)
Theorem resolveTemplates_header args name template segs :
  built (ra_authHeaders args) -> rec_own (ra_authHeaders args) name = Some template ->
  segments template 0 (parseBasicAuthTemplates template) segs ->
  rec_own (rt_headers (resolveTemplates args)) name =
    Some (concat (segment_value (ra_secrets args) (ra_vars args) <$> segs)).
Proof.
  intros [Hnd Hp] Hn Hs. destruct (resolveTemplates_eq args) as (l & -> & _). cbn [rt_headers].
  unfold resolved_headers. rewrite foldl_set_value; [|done|done|left; apply not_elem_of_nil].
  by rewrite Hn, (header_value_segments _ _ _ _ Hs).
Qed.

Lemma piece_values_ext s1 v1 s2 v2 (ps : list (piece Ns)) :
  (forall r, r ∈ omap piece_key ps -> reference_value s1 v1 r.1 r.2 = reference_value s2 v2 r.1 r.2) ->
  piece_value s1 v1 <$> ps = piece_value s2 v2 <$> ps.
Proof.
  induction ps as [|[c|full ns n] ps IH]; intros H; csimpl in *; [done|by rewrite IH|].
  rewrite IH by (intros r Hr; apply H; set_solver). f_equal. apply (H (ns, n)). set_solver.
Qed.

Lemma basic_arg_ext s1 v1 s2 v2 arg keys :
  (forall r, r ∈ arg_ref arg -> reference_value s1 v1 r.1 r.2 = reference_value s2 v2 r.1 r.2) ->
  resolveBasicArg s1 v1 arg keys = resolveBasicArg s2 v2 arg keys.
Proof.
  intros H. destruct arg as [|ns key|lit]; simpl in *; [done| |done]. case_bool_decide; [done|].
  f_equal. apply (H (ns, key)). set_solver.
Qed.

Lemma segment_value_ext s1 v1 s2 v2 g :
  (forall r, r ∈ segment_refs g -> reference_value s1 v1 r.1 r.2 = reference_value s2 v2 r.1 r.2) ->
  segment_value s1 v1 g = segment_value s2 v2 g.
Proof.
  intros H. destruct g as [ps|m]; cbn [segment_value segment_refs] in *; [by rewrite (piece_values_ext s1 v1 s2 v2)|].
  unfold resolve_basic. rewrite (basic_arg_ext s1 v1 s2 v2 (bm_first m)) by (intros r Hr; apply H; set_solver).
  destruct (resolveBasicArg s2 v2 (bm_first m) []) as [keys user].
  by rewrite (basic_arg_ext s1 v1 s2 v2 (bm_second m)) by (intros r Hr; apply H; set_solver).
Qed.

Lemma header_value_ext s1 v1 s2 v2 t :
  (forall r, header_ref t r -> reference_value s1 v1 r.1 r.2 = reference_value s2 v2 r.1 r.2) ->
  header_value s1 v1 t = header_value s2 v2 t.
Proof.
  intros H. destruct (segments_exist t 0 (parseBasicAuthTemplates t)) as [segs Hs].
  rewrite !(header_value_segments _ _ _ _ Hs). f_equal. apply list_fmap_ext. intros i g Hg.
  apply segment_value_ext. intros r Hr. apply H. exists segs. split; [done|].
  apply elem_of_concat. exists (segment_refs g). split; [done|]. apply list_elem_of_fmap_2. by eapply list_elem_of_lookup_2.
Qed.

Lemma simple_value_ext s1 v1 s2 v2 t :
  (forall r, simple_ref t r -> reference_value s1 v1 r.1 r.2 = reference_value s2 v2 r.1 r.2) ->
  simple_value s1 v1 t = simple_value s2 v2 t.
Proof.
  intros H. destruct (decompose TEMPLATE_RE t) as [ps Hp]. unfold simple_value.
  rewrite !(resolveSimple_spec _ _ _ _ _ Hp). simpl. f_equal. apply piece_values_ext.
  intros r Hr. apply H. by exists ps.
Qed.

(** The request with other secrets. *)
Definition with_values (args : ResolveTemplatesArgs) (secrets vars : Rec jsstr) : ResolveTemplatesArgs :=
  {| ra_authHeaders := ra_authHeaders args; ra_secrets := secrets; ra_vars := vars; ra_authBase := ra_authBase args;
     ra_authQuery := ra_authQuery args; ra_authAwsSigv4 := ra_authAwsSigv4 args |}.

Lemma resolveTemplates_agree args s1 v1 s2 v2 :
  (forall r, refers (ra_authHeaders args) (ra_authBase args) (ra_authQuery args) (ra_authAwsSigv4 args) r ->
     reference_value s1 v1 r.1 r.2 = reference_value s2 v2 r.1 r.2) ->
  let r1 := resolveTemplates (with_values args s1 v1) in
  let r2 := resolveTemplates (with_values args s2 v2) in
  rt_headers r1 = rt_headers r2 /\ rt_base r1 = rt_base r2 /\ rt_query r1 = rt_query r2 /\
  rt_awsSigv4 r1 = rt_awsSigv4 r2.
Proof.
  intros H. assert (forall t, t ∈ (ra_authHeaders args).*2 -> header_value s1 v1 t = header_value s2 v2 t) as Hh.
  { intros t Ht. apply header_value_ext. intros r Hr. apply H. left. eauto. }
  assert (forall t, t ∈ option_list (ra_authBase args) ++ values_of (ra_authQuery args) ++
      sigv4_values (ra_authAwsSigv4 args) -> simple_value s1 v1 t = simple_value s2 v2 t) as Hs.
  { intros t Ht. apply simple_value_ext. intros r Hr. apply H. right. eauto. }
  clear H. destruct (resolveTemplates_eq (with_values args s1 v1)) as (l1 & -> & _).
  destruct (resolveTemplates_eq (with_values args s2 v2)) as (l2 & -> & _).
  unfold resolved_headers, truthy_value, with_values.
  cbn [rt_headers rt_base rt_query rt_awsSigv4 ra_authHeaders ra_authBase ra_authQuery ra_authAwsSigv4 ra_secrets ra_vars].
  split_and!.
  - generalize (@nil (jsstr * jsstr)) as acc. induction (ra_authHeaders args) as [|[k t] l IH]; intros acc; [done|].
    csimpl in *. rewrite (Hh t) by set_solver. apply IH. intros t' Ht'. apply Hh. set_solver.
  - destruct (ra_authBase args) as [[|c t]|]; try done. rewrite Hs; [done|]. simpl. set_solver.
  - destruct (ra_authQuery args) as [q|]; [|done]. simpl in Hs |- *. f_equal. generalize (@nil (jsstr * jsstr)) as acc.
    assert (forall t, t ∈ q.*2 -> simple_value s1 v1 t = simple_value s2 v2 t) as Hq.
    { intros t Ht. apply Hs. unfold values_of. simpl. set_solver. }
    clear Hs. induction q as [|[k t] l IH]; intros acc; [done|].
    csimpl in *. rewrite (Hq t) by set_solver. apply IH. intros t' Ht'. apply Hq. set_solver.
  - destruct (ra_authAwsSigv4 args) as [[id key token]|]; [|done]. cbn [fmap option_fmap option_map accessKeyId
      secretAccessKey sessionToken]. cbn [sigv4_values accessKeyId secretAccessKey sessionToken] in Hs.
    rewrite (Hs id), (Hs key) by set_solver. do 2 f_equal. destruct token as [[|c t]|]; try done.
    rewrite Hs; [done|]. simpl. set_solver.
Qed.

(** Resolution reads no value but the ones the request refers to: secrets that differ
    elsewhere give the same headers, base, query and credentials. *)
Theorem resolveTemplates_frame args s1 s2 :
  (forall k, k ∈ rk_secrets (collectReferencedKeys (ra_authHeaders args) (ra_authBase args) (ra_authQuery args)
               (ra_authAwsSigv4 args)) -> rec_own s1 k = rec_own s2 k) ->
  let r1 := resolveTemplates (with_values args s1 (ra_vars args)) in
  let r2 := resolveTemplates (with_values args s2 (ra_vars args)) in
  rt_headers r1 = rt_headers r2 /\ rt_base r1 = rt_base r2 /\ rt_query r1 = rt_query r2 /\
  rt_awsSigv4 r1 = rt_awsSigv4 r2.
Proof.
  intros H. apply resolveTemplates_agree. intros [[] k] Hr; [|done]. unfold reference_value, getOwnValue. simpl.
  by rewrite H by (by apply (collect_refers _ _ _ _ NsSecrets)).
Qed.

Definition sample_request : ResolveTemplatesArgs :=
  {| ra_authHeaders := [(js "Authorization", js "${{ basic(vars.U, secrets.P) }}")];
     ra_secrets := [(js "P", js "pass"); (js "K", js "other")]; ra_vars := [(js "U", js "user")];
     ra_authBase := None; ra_authQuery := None; ra_authAwsSigv4 := None |}.

Lemma resolveTemplates_header_witness :
  rec_own (rt_headers (resolveTemplates sample_request)) (js "Authorization") =
    Some (js "Basic dXNlcjpwYXNz").
Proof.
  set (m := {| bm_start := 0; bm_end := 31; bm_first := ArgRef NsVars (js "U"); bm_second := ArgRef NsSecrets (js "P") |}).
  rewrite (resolveTemplates_header sample_request (js "Authorization") (js "${{ basic(vars.U, secrets.P) }}")
    [Gap []; Basic m; Gap []]); [vm_compute; reflexivity| |reflexivity|].
  - split; [apply NoDup_singleton|]. by apply (bool_decide_eq_false_1 (PROTO ∈ [js "Authorization"])).
  - replace (parseBasicAuthTemplates _) with [m] by (vm_compute; reflexivity).
    apply seg_basic; [constructor|]. apply seg_end. constructor.
Defined.

Lemma resolveTemplates_frame_witness :
  rt_headers (resolveTemplates (with_values sample_request [(js "P", js "pass")] [(js "U", js "user")])) =
  rt_headers (resolveTemplates (with_values sample_request [(js "K", js "x"); (js "P", js "pass")] [(js "U", js "user")])).
Proof.
  apply (resolveTemplates_frame sample_request [(js "P", js "pass")] [(js "K", js "x"); (js "P", js "pass")]).
  intros k Hk. vm_compute in Hk. apply list_elem_of_singleton in Hk as ->. reflexivity.
Defined.

End AuthTemplates.
