(* ===== verification/VariableExpander.v ===== *)
(** Expansion of [${{ vars.X }}] references in agent configurations
    (turbo/packages/core/src/variable-expander.ts): the reference pattern, the
    extraction of references from nested values, expansion with the list of the
    missing variables, and their grouping for error messages. *)

From S2P Require Import Prelude JsString JsValue JsRecord Templates References.
Import Templates References.

Module VariableExpander.

(** ** Data *)

Inductive VariableSource := SrcEnv | SrcVars | SrcSecrets.

#[export] Instance variable_source_eq_dec : EqDecision VariableSource.
Proof. solve_decision. Defined.

Record VariableReference := { source : VariableSource; name : jsstr }.

#[export] Instance variable_reference_eq_dec : EqDecision VariableReference.
Proof. solve_decision. Defined.

(** An own property of [env] may hold [undefined]. *)
Record VariableSources := {
  src_env : option (Rec (option jsstr));
  src_vars : option (Rec jsstr);
  src_secrets : option (Rec jsstr);
}.

Record ExpansionResult (T : Type) := { exp_result : T; missingVars : list VariableReference }.
Arguments exp_result {T} e.
Arguments missingVars {T} e.
Arguments Build_ExpansionResult {T} exp_result missingVars.

Definition source_text (src : VariableSource) : jsstr :=
  match src with SrcEnv => js "env" | SrcVars => js "vars" | SrcSecrets => js "secrets" end.

(** The alternatives of the pattern's first group, each with the dot that follows
    the group; the rest of the pattern is in [match_reference]. *)
Definition VARIABLE_PATTERN : list (VariableSource * jsstr) :=
  [(SrcEnv, js "env."); (SrcVars, js "vars."); (SrcSecrets, js "secrets.")].

(** [sources[source]?.[name]]. *)
Definition source_value (sources : VariableSources) (ref : VariableReference) : option jsstr :=
  match source ref with
  | SrcEnv => env ← src_env sources;
      match rec_own env (name ref) with Some v => v | None => inherited_text (name ref) end
  | SrcVars => opt_get (src_vars sources) (name ref)
  | SrcSecrets => opt_get (src_secrets sources) (name ref)
  end.

(** [`${ref.source}.${ref.name}`]. *)
Definition refKey (ref : VariableReference) : jsstr := source_text (source ref) ++ js "." ++ name ref.

(** The array and the key set of the loops that collect references once. *)
Record RefSet := { rs_refs : list VariableReference; rs_seen : list jsstr }.

Definition emptyRefSet : RefSet := {| rs_refs := []; rs_seen := [] |}.

Definition pushRef (st : RefSet) (ref : VariableReference) : RefSet :=
  if bool_decide (refKey ref ∈ rs_seen st) then st
  else {| rs_refs := rs_refs st ++ [ref]; rs_seen := refKey ref :: rs_seen st |}.

(** ** Extraction *)

Definition extractVariableReferencesFromString (value : jsstr) : list VariableReference :=
  (fun '(_, src, n) => {| source := src; name := n |}) <$> match_all VARIABLE_PATTERN value 0 0.

Fixpoint scan (value : JsVal) (st : RefSet) : RefSet :=
  match value with
  | JString s => foldl pushRef st (extractVariableReferencesFromString s)
  | JArray l => foldl (fun st item => scan item st) st l
  | JObject props => foldl (fun st kv => scan (snd kv) st) st props
  | _ => st
  end.

Definition extractVariableReferences (obj : JsVal) : list VariableReference :=
  rs_refs (scan obj emptyRefSet).

(** ** Expansion *)

Definition expandVariablesInString (value : jsstr) (sources : VariableSources) : ExpansionResult jsstr :=
  let '(st, res) :=
    replace_all VARIABLE_PATTERN (fun st fullMatch src n =>
      let ref := {| source := src; name := n |} in
      match source_value sources ref with
      | None => (pushRef st ref, fullMatch)
      | Some resolved => (st, resolved)
      end) emptyRefSet value 0 in
  Build_ExpansionResult res (rs_refs st).

(** The closure [expand] of [expandVariables]; the state is its list of missing
    variables. *)
Fixpoint expand (sources : VariableSources) (st : RefSet) (value : JsVal) : RefSet * JsVal :=
  match value with
  | JString s =>
      let e := expandVariablesInString s sources in
      (foldl pushRef st (missingVars e), JString (exp_result e))
  | JArray l =>
      let '(st, items) := foldl (fun acc item =>
        let '(st, done) := acc in
        let '(st, item') := expand sources st item in (st, done ++ [item'])) (st, []) l in
      (st, JArray items)
  | JObject props =>
      let '(st, entries) := foldl (fun acc kv =>
        let '(st, done) := acc in
        let '(st, v) := expand sources st (snd kv) in (st, rec_set done (fst kv) v)) (st, []) props in
      (st, JObject entries)
  | _ => (st, value)
  end.

Definition expandVariables (obj : JsVal) (sources : VariableSources) : ExpansionResult JsVal :=
  let '(st, res) := expand sources emptyRefSet obj in Build_ExpansionResult res (rs_refs st).

(** ** Validation, grouping and messages *)

Definition validateRequiredVariables (refs : list VariableReference) (sources : VariableSources) :
    list VariableReference :=
  filter (fun ref => source_value sources ref = None) refs.

Record VariableGroups := {
  g_env : list VariableReference; g_vars : list VariableReference; g_secrets : list VariableReference }.

Definition pushGroup (g : VariableGroups) (ref : VariableReference) : VariableGroups :=
  match source ref with
  | SrcEnv => {| g_env := g_env g ++ [ref]; g_vars := g_vars g; g_secrets := g_secrets g |}
  | SrcVars => {| g_env := g_env g; g_vars := g_vars g ++ [ref]; g_secrets := g_secrets g |}
  | SrcSecrets => {| g_env := g_env g; g_vars := g_vars g; g_secrets := g_secrets g ++ [ref] |}
  end.

Definition groupVariablesBySource (refs : list VariableReference) : VariableGroups :=
  foldl pushGroup {| g_env := []; g_vars := []; g_secrets := [] |} refs.

Definition extractAndGroupVariables (obj : JsVal) : VariableGroups :=
  groupVariablesBySource (extractVariableReferences obj).

Definition group_message (title : jsstr) (refs : list VariableReference) : list jsstr :=
  if bool_decide (refs = []) then [] else [title ++ join (js ", ") (name <$> refs)].

Definition formatMissingVariables (missing : list VariableReference) : jsstr :=
  let grouped := groupVariablesBySource missing in
  join [10] (group_message (js "Environment variables: ") (g_env grouped) ++
             group_message (js "CLI variables (--vars): ") (g_vars grouped) ++
             group_message (js "Secrets: ") (g_secrets grouped)).

Example expand_example :
  expandVariablesInString (js "a ${{ vars.X }} ${{secrets.K}} ${{ vars.Y}}$")
    {| src_env := None; src_vars := Some [(js "X", js "${{ vars.Y }}")]; src_secrets := None |} =
  Build_ExpansionResult (js "a ${{ vars.Y }} ${{secrets.K}} ${{ vars.Y}}$")
    [{| source := SrcSecrets; name := js "K" |}; {| source := SrcVars; name := js "Y" |}].
Proof. reflexivity. Qed.

(** ** The pattern and its pieces *)

#[export] Instance VARIABLE_PATTERN_ok : RefPattern VARIABLE_PATTERN.
Proof.
  apply (Build_RefPattern _ _ (fun src => source_text src ++ js ".")).
  - intros [] rest; done.
  - intros t src k. unfold VARIABLE_PATTERN. cbn [match_ns].
    destruct (starts_with t (js "env.")) eqn:E1; [by intros [= <- <-]|].
    destruct (starts_with t (js "vars.")) eqn:E2; [by intros [= <- <-]|].
    destruct (starts_with t (js "secrets.")) eqn:E3; [by intros [= <- <-]|done].
  - intros []; done.
Defined.

Abbreviation reads := (decomposes VARIABLE_PATTERN).

Definition piece_ref (p : piece VariableSource) : option VariableReference :=
  match p with Lit _ => None | Ref _ src n => Some {| source := src; name := n |} end.
Definition piece_value (sources : VariableSources) (p : piece VariableSource) : jsstr :=
  match p with Lit c => [c] | Ref full src n => default full (source_value sources {| source := src; name := n |}) end.

(** The first occurrences of the elements of a list. *)
Fixpoint nub (l : list VariableReference) : list VariableReference :=
  match l with [] => [] | x :: l' => x :: filter (fun y => y <> x) (nub l') end.

(** ** Collecting references once *)

#[export] Instance refKey_inj : Inj (=) (=) refKey.
Proof. intros [[] n] [[] n']; unfold refKey; simpl; intros E; simplify_eq; done. Qed.

(** The key set is the keys of the array. *)
Definition ref_set_ok (st : RefSet) : Prop :=
  forall k, k ∈ rs_seen st <-> k ∈ refKey <$> rs_refs st.

Lemma ref_set_seen st ref : ref_set_ok st -> refKey ref ∈ rs_seen st <-> ref ∈ rs_refs st.
Proof. intros H. rewrite (H (refKey ref)), list_elem_of_fmap. naive_solver. Qed.

Lemma pushRef_ok st ref : ref_set_ok st -> ref_set_ok (pushRef st ref).
Proof.
  intros H k. unfold pushRef. case_bool_decide; [apply H|]. simpl.
  rewrite elem_of_cons, fmap_app, elem_of_app, (H k). set_solver.
Qed.

Lemma push_all_spec l st :
  ref_set_ok st ->
  ref_set_ok (foldl pushRef st l) /\
  rs_refs (foldl pushRef st l) = rs_refs st ++ filter (fun r => r ∉ rs_refs st) (nub l).
Proof.
  revert st; induction l as [|x l IH]; intros st Hok; simpl; [by rewrite app_nil_r|].
  destruct (IH (pushRef st x) (pushRef_ok _ _ Hok)) as [Hok' ->]. split; [done|].
  pose proof (ref_set_seen st x Hok) as Hx. unfold pushRef. case_bool_decide as E.
  - apply Hx in E. rewrite filter_cons_False by set_solver. f_equal. rewrite list_filter_filter.
    apply filter_ext_in. intros y _. split; [|tauto]. intros ?. split; [done|]. by intros ->.
  - rewrite Hx in E. rewrite filter_cons_True by done. cbn [rs_refs]. rewrite <- app_assoc. simpl.
    do 2 f_equal. rewrite list_filter_filter. apply filter_ext_in. intros y _.
    rewrite not_elem_of_app, list_elem_of_singleton. tauto.
Qed.

Lemma push_all_empty l : rs_refs (foldl pushRef emptyRefSet l) = nub l.
Proof.
  destruct (push_all_spec l emptyRefSet) as [_ ->]; [by split|]. simpl. apply filter_all. set_solver.
Qed.

Lemma push_filter_seen x l st :
  refKey x ∈ rs_seen st -> foldl pushRef st (filter (fun y => y <> x) l) = foldl pushRef st l.
Proof.
  revert st; induction l as [|y l IH]; intros st Hx; [done|]. rewrite filter_cons. case_decide as E; simpl.
  - apply IH. unfold pushRef. case_bool_decide; [done|]. simpl. set_solver.
  - subst y. rewrite IH by done. f_equal. unfold pushRef. by rewrite bool_decide_eq_true_2.
Qed.

Lemma push_nub l st : foldl pushRef st (nub l) = foldl pushRef st l.
Proof.
  revert st; induction l as [|x l IH]; intros st; [done|]. simpl. rewrite push_filter_seen; [apply IH|].
  unfold pushRef. case_bool_decide; [done|]. simpl. set_solver.
Qed.

Lemma elem_of_nub x l : x ∈ nub l <-> x ∈ l.
Proof.
  induction l as [|y l IH]; simpl; [done|]. rewrite !elem_of_cons, list_elem_of_filter, IH.
  destruct (decide (x = y)); tauto.
Qed.

Lemma NoDup_nub l : NoDup (nub l).
Proof.
  induction l as [|y l IH]; simpl; constructor.
  - rewrite list_elem_of_filter. tauto.
  - by apply NoDup_filter.
Qed.

Lemma filter_nub (P : VariableReference -> Prop) `{forall r, Decision (P r)} l :
  filter P (nub l) = nub (filter P l).
Proof.
  induction l as [|x l IH]; [done|]. cbn [nub]. rewrite !filter_cons. case_decide as E; cbn [nub].
  - f_equal. rewrite <- IH, !list_filter_filter. apply filter_ext_in. tauto.
  - rewrite list_filter_filter, <- IH. apply filter_ext_in. intros y _. split; [tauto|].
    intros ?. split; [done|]. by intros ->.
Qed.

(** ** Expansion of a text *)

Definition unresolved (sources : VariableSources) (ref : VariableReference) : Prop :=
  source_value sources ref = None.

#[export] Instance unresolved_dec sources ref : Decision (unresolved sources ref).
Proof. unfold unresolved. apply _. Defined.

Lemma extract_pieces s ps :
  reads s ps -> extractVariableReferencesFromString s = omap piece_ref ps.
Proof.
  intros H. unfold extractVariableReferencesFromString. rewrite (match_all_pieces _ _ _ _ H).
  transitivity ((fun '(src, n) => {| source := src; name := n |}) <$> omap piece_key ps).
  - rewrite <- (indexed_keys 0 ps), <- list_fmap_compose. apply list_fmap_ext. by intros _ [[]] _.
  - clear H. induction ps as [|[c|full src n] ps IH]; csimpl; by rewrite ?IH.
Qed.

Lemma expand_pieces s ps sources :
  reads s ps ->
  exp_result (expandVariablesInString s sources) = concat (piece_value sources <$> ps) /\
  missingVars (expandVariablesInString s sources) = nub (filter (unresolved sources) (omap piece_ref ps)).
Proof.
  intros H. unfold expandVariablesInString. rewrite (replace_all_pieces _ _ _ _ _ H). clear H.
  rewrite <- push_all_empty. generalize emptyRefSet as st.
  induction ps as [|[c|full src n] ps IH]; intros st; csimpl; [done| |].
  - specialize (IH st). destruct (foldr _ _ ps st) as [st' rest]. cbn [exp_result missingVars] in *.
    by destruct IH as [-> ->].
  - rewrite filter_cons. set (ref := {| source := src; name := n |}).
    case_decide as E; unfold unresolved in E.
    + rewrite E. specialize (IH (pushRef st ref)). destruct (foldr _ _ ps (pushRef st ref)) as [st' rest].
      cbn [exp_result missingVars] in *. by destruct IH as [-> ->].
    + destruct (source_value sources ref) as [v|]; [|done].
      specialize (IH st). destruct (foldr _ _ ps st) as [st' rest]. cbn [exp_result missingVars] in *.
      by destruct IH as [-> ->].
Qed.

(** The text reads in one way as references and single units, the references are the
    ones extracted, a defined reference is replaced by its value and an undefined
    one stays as it is and is reported once; the values are not expanded again. *)
Theorem expandVariablesInString_spec value sources :
  exists ps,
    reads value ps /\ (forall ps', reads value ps' -> ps' = ps) /\
    extractVariableReferencesFromString value = omap piece_ref ps /\
    exp_result (expandVariablesInString value sources) = concat (piece_value sources <$> ps) /\
    missingVars (expandVariablesInString value sources) =
      nub (filter (unresolved sources) (omap piece_ref ps)).
Proof.
  destruct (decompose VARIABLE_PATTERN value) as [ps H]. exists ps. destruct (expand_pieces _ _ sources H).
  split_and!; [done|eauto using decomposes_unique|by apply extract_pieces|done|done].
Qed.

(** ** Expansion of nested values *)

(** All references of a value in order, and the value with its texts mapped. *)
Fixpoint value_refs (v : JsVal) : list VariableReference :=
  match v with
  | JString s => extractVariableReferencesFromString s
  | JArray l => concat (value_refs <$> l)
  | JObject props => concat ((fun kv => value_refs kv.2) <$> props)
  | _ => []
  end.

Fixpoint map_strings (f : jsstr -> jsstr) (v : JsVal) : JsVal :=
  match v with
  | JString s => JString (f s)
  | JArray l => JArray (map_strings f <$> l)
  | JObject props => JObject (foldl (fun acc kv => rec_set acc kv.1 (map_strings f kv.2)) [] props)
  | _ => v
  end.

Lemma scan_refs v st : scan v st = foldl pushRef st (value_refs v).
Proof.
  revert st. induction v as [| | | | |l IH|props IH] using JsVal_nested_ind; intros st; simpl; try done;
    revert st; induction IH as [|x l Hx _ IHl]; intros st; csimpl; try done; by rewrite foldl_app, Hx, IHl.
Qed.

Lemma missing_push s sources st :
  foldl pushRef st (missingVars (expandVariablesInString s sources)) =
  foldl pushRef st (filter (unresolved sources) (extractVariableReferencesFromString s)).
Proof.
  destruct (decompose VARIABLE_PATTERN s) as [ps H]. destruct (expand_pieces _ _ sources H) as [_ ->].
  by rewrite push_nub, (extract_pieces _ _ H).
Qed.

Lemma expand_spec sources v st :
  expand sources st v =
  (foldl pushRef st (filter (unresolved sources) (value_refs v)),
   map_strings (fun s => exp_result (expandVariablesInString s sources)) v).
Proof.
  revert st. induction v as [| | | |s|l IH|props IH] using JsVal_nested_ind; intros st; try done.
  - cbn [expand value_refs map_strings]. by rewrite missing_push.
  - cbn [expand value_refs map_strings].
    assert (forall acc, foldl (fun acc item => let '(st, done) := acc in
        let '(st, item') := expand sources st item in (st, done ++ [item'])) (st, acc) l =
      (foldl pushRef st (filter (unresolved sources) (concat (value_refs <$> l))),
       acc ++ (map_strings (fun s => exp_result (expandVariablesInString s sources)) <$> l))) as ->;
      [|done].
    revert st. induction IH as [|x l Hx _ IHl]; intros st acc; csimpl; [by rewrite app_nil_r|].
    rewrite Hx, IHl, filter_app, foldl_app, <- app_assoc. done.
  - cbn [expand value_refs map_strings].
    assert (forall acc, foldl (fun acc kv => let '(st, done) := acc in
        let '(st, v) := expand sources st kv.2 in (st, rec_set done kv.1 v)) (st, acc) props =
      (foldl pushRef st (filter (unresolved sources) (concat ((fun kv => value_refs kv.2) <$> props))),
       foldl (fun acc kv => rec_set acc kv.1
         (map_strings (fun s => exp_result (expandVariablesInString s sources)) kv.2)) acc props)) as ->;
      [|done].
    revert st. induction IH as [|x l Hx _ IHl]; intros st acc; csimpl; [done|].
    by rewrite Hx, IHl, filter_app, foldl_app.
Qed.

Lemma expandVariables_eq obj sources :
  expandVariables obj sources =
  Build_ExpansionResult (map_strings (fun s => exp_result (expandVariablesInString s sources)) obj)
    (nub (filter (unresolved sources) (value_refs obj))).
Proof. unfold expandVariables. rewrite expand_spec, <- push_all_empty. done. Qed.

Lemma extract_refs obj : extractVariableReferences obj = nub (value_refs obj).
Proof. unfold extractVariableReferences. by rewrite scan_refs, push_all_empty. Qed.

(** The missing variables that expansion reports are the references of the value
    that validation finds undefined, each once and in the order of the value. *)
Theorem expandVariables_missing obj sources :
  missingVars (expandVariables obj sources) =
    validateRequiredVariables (extractVariableReferences obj) sources /\
  NoDup (extractVariableReferences obj).
Proof.
  rewrite expandVariables_eq, extract_refs. split; [symmetry; apply filter_nub|apply NoDup_nub].
Qed.

Lemma map_strings_ext f g v :
  (forall s, (forall r, r ∈ extractVariableReferencesFromString s -> r ∈ value_refs v) -> f s = g s) ->
  map_strings f v = map_strings g v.
Proof.
  induction v as [| | | |s|l IH|props IH] using JsVal_nested_ind; simpl; intros Hfg; try done.
  - by rewrite Hfg.
  - f_equal. induction IH as [|x l Hx _ IHl]; csimpl; [done|]. f_equal.
    + apply Hx. intros s Hs. apply Hfg. set_solver.
    + apply IHl. intros s Hs. apply Hfg. set_solver.
  - f_equal. generalize (@nil (jsstr * JsVal)) as acc.
    induction IH as [|x l Hx _ IHl]; intros acc; csimpl; [done|]. rewrite Hx.
    + apply IHl. intros s Hs. apply Hfg. set_solver.
    + intros s Hs. apply Hfg. set_solver.
Qed.

Lemma piece_value_ext (ps : list (piece VariableSource)) s1 s2 :
  (forall r, r ∈ omap piece_ref ps -> source_value s1 r = source_value s2 r) ->
  piece_value s1 <$> ps = piece_value s2 <$> ps.
Proof.
  intros H. apply list_fmap_ext. intros i [c|full src n] Hp; simpl; [done|]. rewrite H; [done|].
  apply list_elem_of_omap. exists (Ref full src n). split; [|done]. by eapply list_elem_of_lookup_2.
Qed.

Lemma expand_frame obj s1 s2 :
  (forall ref, ref ∈ extractVariableReferences obj -> source_value s1 ref = source_value s2 ref) ->
  expandVariables obj s1 = expandVariables obj s2.
Proof.
  rewrite extract_refs. setoid_rewrite elem_of_nub. intros Hs. rewrite !expandVariables_eq. f_equal.
  - apply map_strings_ext. intros s Hin. destruct (decompose VARIABLE_PATTERN s) as [ps H].
    destruct (expand_pieces _ _ s1 H) as [-> _], (expand_pieces _ _ s2 H) as [-> _]. f_equal.
    apply piece_value_ext. intros r Hr. apply Hs, Hin. by rewrite (extract_pieces _ _ H).
  - f_equal. apply filter_ext_in. intros r Hr. unfold unresolved. by rewrite Hs.
Qed.

Lemma expand_string_frame value s1 s2 :
  (forall ref, ref ∈ extractVariableReferencesFromString value -> source_value s1 ref = source_value s2 ref) ->
  expandVariablesInString value s1 = expandVariablesInString value s2.
Proof.
  intros Hs. destruct (decompose VARIABLE_PATTERN value) as [ps H]. rewrite (extract_pieces _ _ H) in Hs.
  destruct (expand_pieces _ _ s1 H) as [H1 H2], (expand_pieces _ _ s2 H) as [H3 H4].
  destruct (expandVariablesInString value s1), (expandVariablesInString value s2); simpl in *. subst. f_equal.
  - f_equal. by apply piece_value_ext.
  - f_equal. apply filter_ext_in. intros r Hr. unfold unresolved. by rewrite Hs.
Qed.

Lemma string_missing_nil value sources :
  missingVars (expandVariablesInString value sources) = [] <->
  forall ref, ref ∈ extractVariableReferencesFromString value -> source_value sources ref <> None.
Proof.
  destruct (decompose VARIABLE_PATTERN value) as [ps H]. rewrite (extract_pieces _ _ H).
  destruct (expand_pieces _ _ sources H) as [_ ->]. rewrite <- filter_nub.
  split.
  - intros E r Hr Hn. assert (r ∈ filter (unresolved sources) (nub (omap piece_ref ps))) as Hin.
    { apply list_elem_of_filter. split; [done|]. by apply elem_of_nub. }
    rewrite E in Hin. set_solver.
  - intros Hr. apply elem_of_nil_inv. intros r [Hn Hin]%list_elem_of_filter.
    rewrite elem_of_nub in Hin. exact (Hr r Hin Hn).
Qed.

(** Expansion reads no variable but the ones the value refers to: sources that agree
    on the extracted references give the same result. *)
Theorem expandVariables_frame obj s1 s2 :
  (forall ref, ref ∈ extractVariableReferences obj -> source_value s1 ref = source_value s2 ref) ->
  expandVariables obj s1 = expandVariables obj s2.
Proof. apply expand_frame. Qed.

Lemma expandVariables_frame_witness :
  expandVariables (JArray [JString (js "${{ vars.A }}"); JNull])
    {| src_env := None; src_vars := Some [(js "A", js "1")]; src_secrets := None |} =
  expandVariables (JArray [JString (js "${{ vars.A }}"); JNull])
    {| src_env := None; src_vars := Some [(js "B", js "2"); (js "A", js "1")]; src_secrets := Some [] |}.
Proof.
  apply expandVariables_frame. intros ref Href. vm_compute in Href.
  apply list_elem_of_singleton in Href as ->. reflexivity.
Defined.

(** Objects with distinct own names, none of them the accessor [__proto__]. *)
Fixpoint plain (v : JsVal) : Prop :=
  match v with
  | JArray l => foldr (fun x P => plain x /\ P) True l
  | JObject props => NoDup props.*1 /\ PROTO ∉ props.*1 /\ foldr (fun kv P => plain kv.2 /\ P) True props
  | _ => True
  end.

Lemma rec_set_fresh {A} (r : Rec A) k v : k ∉ rec_keys r -> k <> PROTO -> rec_set r k v = r ++ [(k, v)].
Proof.
  intros Hk Hp. unfold rec_set. rewrite bool_decide_eq_false_2 by done. by apply rec_define_fresh.
Qed.

(** On plain values the rebuilt object has the entries in place. *)
Lemma map_strings_id f v :
  plain v -> (forall s, (forall r, r ∈ extractVariableReferencesFromString s -> r ∈ value_refs v) -> f s = s) ->
  map_strings f v = v.
Proof.
  induction v as [| | | |s|l IH|props IH] using JsVal_nested_ind; simpl; intros Hp Hf; try done.
  - by rewrite Hf.
  - f_equal. induction IH as [|x l Hx _ IHl]; csimpl; [done|]. destruct Hp as [Hpx Hpl]. f_equal.
    + apply Hx; [done|]. intros s Hs. apply Hf. set_solver.
    + apply IHl; [done|]. intros s Hs. apply Hf. set_solver.
  - f_equal. destruct Hp as (Hnd & Hproto & Hp).
    assert (forall acc, (forall k, k ∈ acc.*1 -> k ∉ props.*1) ->
      foldl (fun acc kv => rec_set acc kv.1 (map_strings f kv.2)) acc props = acc ++ props) as H;
      [|apply (H []); set_solver].
    induction IH as [|[k x] l Hx _ IHl]; intros acc Hacc; csimpl in *; [by rewrite app_nil_r|].
    destruct Hp as [Hpx Hpl]. apply NoDup_cons in Hnd as [Hk Hnd]. apply not_elem_of_cons in Hproto as [? ?].
    rewrite Hx by (try done; intros s Hs; apply Hf; set_solver).
    rewrite rec_set_fresh; [|set_solver|done]. rewrite IHl; [by rewrite <- app_assoc|try done..].
    + intros s Hs. apply Hf. set_solver.
    + intros k'. rewrite fmap_app. set_solver.
Qed.

Lemma pieces_value s ps sources :
  reads s ps -> (forall r, r ∈ omap piece_ref ps -> source_value sources r = None) ->
  concat (piece_value sources <$> ps) = s.
Proof.
  induction 1 as [|full src n s ps Href Hs IH|c s ps Hno Hs IH]; csimpl; intros H; [done| |].
  - rewrite H by set_solver. simpl. rewrite IH; [done|]. set_solver.
  - by rewrite IH.
Qed.

(** A plain value none of whose references is defined comes back unchanged. *)
Theorem expandVariables_identity obj sources :
  plain obj ->
  (forall ref, ref ∈ extractVariableReferences obj -> source_value sources ref = None) ->
  exp_result (expandVariables obj sources) = obj.
Proof.
  rewrite extract_refs. setoid_rewrite elem_of_nub. intros Hp Hs. rewrite expandVariables_eq.
  apply map_strings_id; [done|]. intros s Hin. destruct (decompose VARIABLE_PATTERN s) as [ps H].
  destruct (expand_pieces _ _ sources H) as [-> _]. apply pieces_value; [done|].
  intros r Hr. apply Hs, Hin. by rewrite (extract_pieces _ _ H).
Qed.

(** A variable named like a member of [Object.prototype] is never missing, whatever
    the record holds: its reference expands to the text of the inherited member. *)
Theorem inherited_variable_never_missing n vars sources :
  n ∈ object_prototype_names -> src_vars sources = Some vars -> rec_own vars n = None ->
  validateRequiredVariables [{| source := SrcVars; name := n |}] sources = [] /\
  source_value sources {| source := SrcVars; name := n |} = inherited_text n.
Proof.
  intros Hn Hv Ho. apply inherited_text_names in Hn as [t Ht].
  assert (source_value sources {| source := SrcVars; name := n |} = Some t) as E.
  { unfold source_value, opt_get, rec_get. simpl. by rewrite Hv; simpl; rewrite Ho, Ht. }
  unfold validateRequiredVariables. rewrite filter_cons_False by (by rewrite E). by rewrite E, Ht.
Qed.

Lemma inherited_variable_never_missing_witness :
  exp_result (expandVariablesInString (js "${{ vars.constructor }}")
    {| src_env := None; src_vars := Some []; src_secrets := None |}) =
    js "function Object() { [native code] }" /\
  validateRequiredVariables [{| source := SrcVars; name := js "constructor" |}]
    {| src_env := None; src_vars := Some []; src_secrets := None |} = [].
Proof.
  split; [reflexivity|].
  by apply (inherited_variable_never_missing (js "constructor") []); [left| |].
Defined.

(** ** Groups *)

Lemma groupVariables_filter refs g :
  foldl pushGroup g refs =
  {| g_env := g_env g ++ filter (fun r => source r = SrcEnv) refs;
     g_vars := g_vars g ++ filter (fun r => source r = SrcVars) refs;
     g_secrets := g_secrets g ++ filter (fun r => source r = SrcSecrets) refs |}.
Proof.
  revert g; induction refs as [|[src n] refs IH]; intros [ge gv gs]; simpl; [by rewrite !app_nil_r|].
  rewrite IH, !filter_cons. destruct src; cbn [pushGroup source g_env g_vars g_secrets];
    repeat case_decide; try done; by rewrite <- ?app_assoc.
Qed.

Lemma groupVariables_spec refs :
  groupVariablesBySource refs =
  {| g_env := filter (fun r => source r = SrcEnv) refs; g_vars := filter (fun r => source r = SrcVars) refs;
     g_secrets := filter (fun r => source r = SrcSecrets) refs |}.
Proof. apply groupVariables_filter. Qed.
End VariableExpander.
