(* ===== verification/GithubUrl.v ===== *)
(** GitHub URLs of skills (turbo/packages/core/src/github-url.ts) and the storage
    names made from them (storage-names.ts). *)

From S2P Require Import Prelude JsString.

Module GithubUrl.

Definition SLASH : Z := 47.
Definition GITHUB : jsstr := js "https://github.com/".

Record ParsedGitHubTreeUrl := {
  t_owner : jsstr; t_repo : jsstr; t_branch : jsstr; t_path : jsstr;
  t_skillName : jsstr; t_fullPath : jsstr;
}.

Record ParsedGitHubUrl := {
  g_owner : jsstr; g_repo : jsstr; g_branch : option jsstr; g_path : option jsstr; g_fullPath : jsstr;
}.

(** ** The regular expressions *)

(** The units [.] does not match. *)
Definition is_line_terminator (c : Z) : bool :=
  (c =? 10) || (c =? 13) || (c =? 0x2028) || (c =? 0x2029).
Definition one_line (s : jsstr) : bool := negb (existsb is_line_terminator s).

(** [.+] up to the end of the text. *)
Definition dot_plus (s : jsstr) : bool := negb (bool_decide (s = [])) && one_line s.

(** A literal prefix, and a longest run of [[^/]+]; what follows such a run in the
    patterns is a slash or the end of the text, so the longest run is the only one
    that can match. *)
Definition strip_prefix (s p : jsstr) : option jsstr :=
  if starts_with s p then Some (drop (length p) s) else None.

Fixpoint until_slash (s : jsstr) : jsstr * jsstr :=
  match s with
  | [] => ([], [])
  | c :: s' => if c =? SLASH then ([], s) else let '(a, b) := until_slash s' in (c :: a, b)
  end.

Definition segment (s : jsstr) : option (jsstr * jsstr) :=
  let '(a, b) := until_slash s in if bool_decide (a = []) then None else Some (a, b).

(** The groups of the tree pattern: owner, repository, branch and optional path. *)
Definition match_tree (url : jsstr) : option (jsstr * jsstr * jsstr * option jsstr) :=
  s ← strip_prefix url GITHUB;
  '(owner, s) ← segment s;
  s ← strip_prefix s [SLASH];
  '(repo, s) ← segment s;
  s ← strip_prefix s (js "/tree/");
  '(branch, s) ← segment s;
  match s with
  | [] => Some (owner, repo, branch, None)
  | _ :: path => if dot_plus path then Some (owner, repo, branch, Some path) else None
  end.

(** The groups of the plain repository pattern. *)
Definition match_plain (url : jsstr) : option (jsstr * jsstr) :=
  s ← strip_prefix url GITHUB;
  '(owner, s) ← segment s;
  s ← strip_prefix s [SLASH];
  '(repo, s) ← segment s;
  match s with [] => Some (owner, repo) | _ => None end.

Definition match_full_path (url : jsstr) : option jsstr :=
  s ← strip_prefix url GITHUB; if dot_plus s then Some s else None.

(** [while (s.endsWith("/")) s = s.slice(0, -1)]. *)
Fixpoint strip_slashes (fuel : nat) (s : jsstr) : jsstr :=
  match fuel with
  | O => s
  | S fuel' => if ends_with s [SLASH] then strip_slashes fuel' (drop_last s) else s
  end.

Definition normalize (url : jsstr) : jsstr := strip_slashes (length url) url.

(** ** Parsers *)

(** The last of the segments that are not empty. *)
Definition last_segment (path : jsstr) : option jsstr :=
  last (filter (fun s => s <> []) (split_on SLASH path)).

Definition parseGitHubTreeUrl (url : jsstr) : option ParsedGitHubTreeUrl :=
  let normalizedUrl := normalize url in
  fullPath ← match_full_path normalizedUrl;
  '(owner, repo, branch, pathPart) ← match_tree normalizedUrl;
  let resolvedPath := default [] pathPart in
  Some {| t_owner := owner; t_repo := repo; t_branch := branch; t_path := resolvedPath;
          t_skillName := default repo (last_segment resolvedPath); t_fullPath := fullPath |}.

Definition getSkillNameFromPath (path : jsstr) : jsstr := default path (last_segment path).

Definition parseGitHubUrl (url : jsstr) : option ParsedGitHubUrl :=
  let normalizedUrl := normalize url in
  fullPath ← match_full_path normalizedUrl;
  match match_plain normalizedUrl with
  | Some (owner, repo) =>
      Some {| g_owner := owner; g_repo := repo; g_branch := None; g_path := None; g_fullPath := fullPath |}
  | None =>
      '(owner, repo, branch, path) ← match_tree normalizedUrl;
      Some {| g_owner := owner; g_repo := repo; g_branch := Some branch; g_path := path;
              g_fullPath := fullPath |}
  end.

(** ** Skill references *)

Definition DEFAULT_SKILLS_OWNER : jsstr := js "vm0-ai".
Definition DEFAULT_SKILLS_REPO : jsstr := js "vm0-skills".
Definition DEFAULT_SKILLS_BRANCH : jsstr := js "main".

Definition tree_url (owner repo branch : jsstr) : jsstr :=
  GITHUB ++ owner ++ [SLASH] ++ repo ++ js "/tree/" ++ branch.

Definition resolveSkillRef (input : jsstr) : result jsstr :=
  let trimmed := trim input in
  if bool_decide (trimmed = []) then Throw (js "Skill reference cannot be empty")
  else if negb (includes trimmed [SLASH]) && negb (starts_with trimmed (js "https://")) then
    Ok (tree_url DEFAULT_SKILLS_OWNER DEFAULT_SKILLS_REPO DEFAULT_SKILLS_BRANCH ++ [SLASH] ++ trimmed)
  else
    match parseGitHubUrl trimmed with
    | None => Throw (js "Invalid skill URL: " ++ trimmed ++
        js ". Expected a bare skill name (e.g. " ++ quoted (js "slack") ++
        js ") or a GitHub URL (https://github.com/{owner}/{repo}[/tree/{branch}[/path]])")
    | Some parsed =>
        match g_branch parsed with
        | None => Ok (tree_url (g_owner parsed) (g_repo parsed) DEFAULT_SKILLS_BRANCH)
        | Some _ => Ok trimmed
        end
    end.

(** ** Storage names *)

Definition VOLUME_ORG_USER_ID : jsstr := js "__org__".
Definition SYSTEM_ORG_ID : jsstr := js "__system__".
Definition getInstructionsStorageName (agentName : jsstr) : jsstr := js "agent-instructions@" ++ agentName.
Definition getSkillStorageName (fullPath : jsstr) : jsstr := js "agent-skills@" ++ fullPath.
Definition getCustomSkillStorageName (skillName : jsstr) : jsstr := js "custom-skill@" ++ skillName.
Definition MEMORY_ARTIFACT_NAME : jsstr := js "memory".

Example parse_example :
  parseGitHubTreeUrl (js "https://github.com/vm0-ai/vm0-skills/tree/main/a/b//") =
  Some {| t_owner := js "vm0-ai"; t_repo := js "vm0-skills"; t_branch := js "main"; t_path := js "a/b";
          t_skillName := js "b"; t_fullPath := js "vm0-ai/vm0-skills/tree/main/a/b" |}.
Proof. reflexivity. Qed.
Example resolve_plain :
  resolveSkillRef (js " https://github.com/o/r/ ") = Ok (js "https://github.com/o/r/tree/main").
Proof. reflexivity. Qed.

(** ** Lemmas: the patterns *)

Definition is_segment (s : jsstr) : Prop := s <> [] /\ SLASH ∉ s.
Definition at_slash (s : jsstr) : Prop := s = [] \/ exists s', s = SLASH :: s'.

Lemma strip_prefix_Some s p r : strip_prefix s p = Some r <-> s = p ++ r.
Proof.
  unfold strip_prefix. split.
  - destruct (starts_with s p) eqn:E; [|done]. intros [= <-]. by apply starts_with_drop.
  - intros ->. by rewrite starts_with_app, drop_app_length.
Qed.

Lemma until_slash_spec s a b : until_slash s = (a, b) <-> s = a ++ b /\ SLASH ∉ a /\ at_slash b.
Proof.
  revert a b; induction s as [|c s IH]; intros a b; cbn [until_slash].
  - split; [intros [= <- <-]; split_and!; [done|set_solver|by left]|].
    by intros (E & _ & _); destruct a, b.
  - destruct (c =? SLASH) eqn:E; bool_facts; subst.
    + split; [intros [= <- <-]; split_and!; [done|set_solver|right; eauto]|].
      intros (Eq & Hn & _). destruct a as [|d a]; [by simpl in Eq; subst|]. set_solver.
    + destruct (until_slash s) as [a0 b0]. split.
      * intros [= <- <-]. destruct (proj1 (IH a0 b0) eq_refl) as (-> & Hn & Hb). set_solver.
      * intros (Eq & Hn & Hb). destruct a as [|d a].
        -- simpl in Eq. subst b. destruct Hb as [|[s' [= ]]]; done.
        -- injection Eq as <- ->. assert ((a0, b0) = (a, b)) as E1 by (apply IH; set_solver).
           by injection E1 as -> ->.
Qed.

Lemma segment_Some s a b : segment s = Some (a, b) <-> s = a ++ b /\ is_segment a /\ at_slash b.
Proof.
  unfold segment, is_segment. destruct (until_slash s) as [a0 b0] eqn:E. case_bool_decide as Ha.
  - split; [done|]. intros (-> & [Hne Hn] & Hb).
    rewrite (proj2 (until_slash_spec (a ++ b) a b)) in E by done. by simplify_eq.
  - apply until_slash_spec in E as (-> & Hn & Hb). split; [by intros [= <- <-]|].
    intros (Eq & [Hne Hn'] & Hb').
    assert (until_slash (a0 ++ b0) = (a0, b0)) as E1 by (by apply until_slash_spec).
    rewrite (proj2 (until_slash_spec _ a b)) in E1 by done. by simplify_eq.
Qed.

Definition path_suffix (path : option jsstr) : jsstr :=
  match path with None => [] | Some p => SLASH :: p end.

Lemma match_tree_Some url owner repo branch path :
  match_tree url = Some (owner, repo, branch, path) <->
  is_segment owner /\ is_segment repo /\ is_segment branch /\
  (forall p, path = Some p -> dot_plus p = true) /\
  url = tree_url owner repo branch ++ path_suffix path.
Proof.
  unfold match_tree, tree_url. rewrite <- !app_assoc. split.
  - intros H. apply bind_Some in H as (s1 & Hs1%strip_prefix_Some & H).
    apply bind_Some in H as ([o s2] & (-> & Ho & _)%segment_Some & H).
    apply bind_Some in H as (s3 & ->%strip_prefix_Some & H).
    apply bind_Some in H as ([r s4] & (-> & Hr & _)%segment_Some & H).
    apply bind_Some in H as (s5 & ->%strip_prefix_Some & H).
    apply bind_Some in H as ([br s6] & (-> & Hb & Hs6)%segment_Some & H). subst url.
    destruct Hs6 as [->|[p ->]]; [by simplify_eq|].
    destruct (dot_plus p) eqn:E; [|done]. simplify_eq. by split_and!; try done; intros ? [= <-].
  - intros (Ho & Hr & Hb & Hp & ->).
    rewrite (proj2 (strip_prefix_Some _ GITHUB _)) by done. cbn [mbind option_bind].
    rewrite (proj2 (segment_Some _ owner _)) by (split_and!; [done|done|right; by eexists]).
    cbn [mbind option_bind]. rewrite (proj2 (strip_prefix_Some _ [SLASH] _)) by done. cbn [mbind option_bind].
    rewrite (proj2 (segment_Some _ repo _)) by (split_and!; [done|done|right; by eexists]).
    cbn [mbind option_bind]. rewrite (proj2 (strip_prefix_Some _ (js "/tree/") _)) by done.
    cbn [mbind option_bind]. rewrite (proj2 (segment_Some _ branch (path_suffix path))).
    2: { split_and!; [done|done|]. destruct path; [right; by eexists|by left]. }
    cbn [mbind option_bind]. destruct path as [p|]; cbn [path_suffix]; [by rewrite Hp|done].
Qed.

Lemma match_plain_Some url owner repo :
  match_plain url = Some (owner, repo) <->
  is_segment owner /\ is_segment repo /\ url = GITHUB ++ owner ++ [SLASH] ++ repo.
Proof.
  unfold match_plain. split.
  - intros H. apply bind_Some in H as (s1 & Hs1%strip_prefix_Some & H).
    apply bind_Some in H as ([o s2] & (-> & Ho & _)%segment_Some & H).
    apply bind_Some in H as (s3 & ->%strip_prefix_Some & H).
    apply bind_Some in H as ([r s4] & (-> & Hr & _)%segment_Some & H).
    destruct s4; [|done]. simplify_eq. by rewrite app_nil_r.
  - intros (Ho & Hr & ->). rewrite (proj2 (strip_prefix_Some _ GITHUB _)) by done. cbn [mbind option_bind].
    rewrite (proj2 (segment_Some _ owner _)) by (split_and!; [done|done|right; by eexists]).
    cbn [mbind option_bind]. rewrite (proj2 (strip_prefix_Some _ [SLASH] _)) by done. cbn [mbind option_bind].
    rewrite (proj2 (segment_Some _ repo [])); [done|].
    rewrite app_nil_r. split_and!; [done|done|by left].
Qed.

Lemma match_full_path_Some url p : match_full_path url = Some p <-> url = GITHUB ++ p /\ dot_plus p = true.
Proof.
  unfold match_full_path. split.
  - intros H. apply bind_Some in H as (s & ->%strip_prefix_Some & H). destruct (dot_plus s) eqn:E; [|done].
    by simplify_eq.
  - intros [-> H]. rewrite (proj2 (strip_prefix_Some _ GITHUB _)) by done. simpl. by rewrite H.
Qed.

(** ** Lemmas: trailing slashes *)

Definition slashes (n : nat) : jsstr := replicate n SLASH.

Lemma slashes_snoc n : slashes n ++ [SLASH] = slashes (S n).
Proof. unfold slashes. by rewrite replicate_S_end. Qed.

Lemma strip_slashes_spec fuel s :
  (length s <= fuel)%nat ->
  ends_with (strip_slashes fuel s) [SLASH] = false /\ exists n, s = strip_slashes fuel s ++ slashes n.
Proof.
  revert s; induction fuel as [|fuel IH]; intros s Hs; simpl.
  - destruct s; [|simpl in Hs; lia]. split; [done|by exists 0%nat].
  - destruct (ends_with s [SLASH]) eqn:E; [|split; [done|exists 0%nat; by rewrite app_nil_r]].
    apply ends_with_spec in E as (r & ->). rewrite drop_last_app. rewrite length_app in Hs. simpl in Hs.
    destruct (IH r ltac:(lia)) as (He & n & Hn). split; [done|]. exists (S n).
    rewrite <- slashes_snoc, app_assoc, <- Hn. done.
Qed.

Lemma strip_slashes_fixed fuel s n :
  ends_with s [SLASH] = false -> (n <= fuel)%nat -> strip_slashes fuel (s ++ slashes n) = s.
Proof.
  revert n; induction fuel as [|fuel IH]; intros n Hs Hn.
  - replace n with 0%nat by lia. simpl. by rewrite app_nil_r.
  - cbn [strip_slashes]. destruct n as [|n]; [by rewrite app_nil_r, Hs|].
    rewrite <- slashes_snoc, app_assoc. rewrite (proj2 (ends_with_spec _ _)) by eauto.
    rewrite drop_last_app. apply IH; [done|lia].
Qed.

Lemma normalize_spec url u :
  normalize url = u <-> ends_with u [SLASH] = false /\ exists n, url = u ++ slashes n.
Proof.
  unfold normalize. split.
  - intros <-. by apply strip_slashes_spec.
  - intros (He & n & ->). apply strip_slashes_fixed; [done|]. rewrite length_app.
    unfold slashes. rewrite length_replicate. lia.
Qed.

(** ** Theorems *)

Lemma dot_plus_spec s : dot_plus s = true <-> s <> [] /\ one_line s = true.
Proof. unfold dot_plus. rewrite andb_true_iff, negb_true_iff, bool_decide_eq_false. done. Qed.

Lemma one_line_app a b : one_line (a ++ b) = true <-> one_line a = true /\ one_line b = true.
Proof. unfold one_line. rewrite existsb_app, negb_orb. apply andb_true_iff. Qed.

Lemma ends_with_slash s : ends_with s [SLASH] = false <-> last s <> Some SLASH.
Proof.
  rewrite <- not_true_iff_false, ends_with_spec, last_Some. naive_solver.
Qed.

Lemma ends_with_slash_app a b : b <> [] -> ends_with (a ++ b) [SLASH] = ends_with b [SLASH].
Proof.
  intros Hb. apply eq_true_iff_eq. rewrite <- !not_false_iff_true, !ends_with_slash, last_app.
  destruct (last b) eqn:E; [done|]. by apply last_None in E.
Qed.

Lemma last_segment_char a s : is_segment s -> ends_with (a ++ s) [SLASH] = false.
Proof.
  intros [Hne Hn]. apply ends_with_slash. rewrite last_app. destruct (last s) as [c|] eqn:E.
  - apply last_Some_elem_of in E. intros [= ->]. done.
  - by apply last_None in E.
Qed.

(** A parsed tree URL in terms of its parts. *)
Definition tree_parts (p : ParsedGitHubTreeUrl) (path : option jsstr) : Prop :=
  is_segment (t_owner p) /\ is_segment (t_repo p) /\ is_segment (t_branch p) /\
  (forall q, path = Some q -> q <> [] /\ ends_with q [SLASH] = false) /\
  one_line (t_fullPath p) = true /\
  GITHUB ++ t_fullPath p = tree_url (t_owner p) (t_repo p) (t_branch p) ++ path_suffix path /\
  t_path p = default [] path /\ t_skillName p = default (t_repo p) (last_segment (t_path p)).

Lemma parse_tree_Some url p :
  parseGitHubTreeUrl url = Some p <->
  exists path n,
    url = tree_url (t_owner p) (t_repo p) (t_branch p) ++ path_suffix path ++ slashes n /\ tree_parts p path.
Proof.
  unfold parseGitHubTreeUrl, tree_parts. split.
  - intros H. apply bind_Some in H as (full & [Hn Hd]%match_full_path_Some & H).
    apply bind_Some in H as ([[[o r] b] path] & (Ho & Hr & Hb & Hp & Ht)%match_tree_Some & H).
    rewrite Hn in Ht. injection H as <-.
    cbn [t_owner t_repo t_branch t_path t_skillName t_fullPath]. apply normalize_spec in Hn as (He & n & ->). rewrite Ht in He |- *.
    exists path, n. apply dot_plus_spec in Hd as [_ Hd]. split; [by rewrite <- app_assoc|].
    split_and!; try done. intros q ->. specialize (Hp q eq_refl). apply dot_plus_spec in Hp as [Hne _].
    split; [done|]. cbn [path_suffix] in He. change (SLASH :: q) with ([SLASH] ++ q) in He.
    by rewrite app_assoc, ends_with_slash_app in He.
  - intros (path & n & -> & Ho & Hr & Hb & Hp & Hd & Hfull & Hpath & Hskill).
    rewrite app_assoc, <- Hfull.
    assert (normalize ((GITHUB ++ t_fullPath p) ++ slashes n) = GITHUB ++ t_fullPath p) as ->.
    { apply normalize_spec. split; [|by eexists]. rewrite Hfull. destruct path as [q|]; cbn [path_suffix].
      - destruct (Hp q eq_refl) as [Hne Hq]. change (SLASH :: q) with ([SLASH] ++ q).
        by rewrite app_assoc, ends_with_slash_app.
      - rewrite app_nil_r. unfold tree_url. rewrite !app_assoc. by apply last_segment_char. }
    assert (match_full_path (GITHUB ++ t_fullPath p) = Some (t_fullPath p)) as ->.
    { apply match_full_path_Some. split; [done|]. apply dot_plus_spec. split; [|done]. intros E.
      rewrite E in Hfull. destruct Ho as [Hne _]. unfold tree_url in Hfull. rewrite <- !app_assoc in Hfull.
      apply app_inv_head in Hfull. by destruct (t_owner p). }
    cbn [mbind option_bind]. rewrite Hfull.
    assert (match_tree (tree_url (t_owner p) (t_repo p) (t_branch p) ++ path_suffix path) =
            Some (t_owner p, t_repo p, t_branch p, path)) as ->.
    { apply match_tree_Some. split_and!; try done. intros q ->. apply dot_plus_spec.
      split; [by apply Hp|]. assert (one_line (GITHUB ++ t_fullPath p) = true) as Hl by (apply one_line_app; by split).
      rewrite Hfull in Hl. apply one_line_app in Hl as [_ Hl].
      by apply (one_line_app [SLASH] q) in Hl as [_ Hl]. }
    cbn [mbind option_bind]. rewrite <- Hpath, <- Hskill. by destruct p.
Qed.

(** Parsing inverts rendering: a URL parses exactly when it is a rendered tree URL
    of these parts, up to trailing slashes. *)
Theorem parseGitHubTreeUrl_iff url p :
  parseGitHubTreeUrl url = Some p <->
  exists path n,
    url = tree_url (t_owner p) (t_repo p) (t_branch p) ++ path_suffix path ++ slashes n /\ tree_parts p path.
Proof. apply parse_tree_Some. Qed.

Lemma split_on_segment s : is_segment s -> last_segment s = Some s.
Proof. intros [Hne Hn]. unfold last_segment. by rewrite split_on_word, filter_cons_True. Qed.

Lemma path_suffix_tree o r b path n :
  tree_url o r b ++ path_suffix path ++ slashes n = (tree_url o r b ++ path_suffix path) ++ slashes n.
Proof. by rewrite app_assoc. Qed.

(** Construction of a parse from its parts. *)
Lemma parse_parts o r b path :
  is_segment o -> is_segment r -> is_segment b ->
  (forall q, path = Some q -> q <> [] /\ ends_with q [SLASH] = false) ->
  one_line (tree_url o r b ++ path_suffix path) = true ->
  parseGitHubTreeUrl (tree_url o r b ++ path_suffix path) =
  Some {| t_owner := o; t_repo := r; t_branch := b; t_path := default [] path;
          t_skillName := default r (last_segment (default [] path));
          t_fullPath := drop (length GITHUB) (tree_url o r b ++ path_suffix path) |}.
Proof.
  intros Ho Hr Hb Hp Hl. apply parse_tree_Some. exists path, 0%nat. cbn [t_owner t_repo t_branch].
  split; [by rewrite app_nil_r|]. unfold tree_parts.
  cbn [t_owner t_repo t_branch t_path t_skillName t_fullPath].
  by split_and!.
Qed.

(** [parseGitHubUrl] on what the two patterns produce. *)
Lemma parse_url_Some url p :
  parseGitHubUrl url = Some p ->
  one_line (g_fullPath p) = true /\ normalize url = GITHUB ++ g_fullPath p /\
  is_segment (g_owner p) /\ is_segment (g_repo p) /\
  match g_branch p with
  | None => normalize url = GITHUB ++ g_owner p ++ [SLASH] ++ g_repo p
  | Some b => match_tree (normalize url) = Some (g_owner p, g_repo p, b, g_path p)
  end.
Proof.
  unfold parseGitHubUrl. intros H. apply bind_Some in H as (full & [Hn Hd]%match_full_path_Some & H).
  apply dot_plus_spec in Hd as [_ Hd].
  destruct (match_plain (normalize url)) as [[o r]|] eqn:E1.
  - injection H as <-. by apply match_plain_Some in E1 as (Ho & Hr & E).
  - apply bind_Some in H as ([[[o r] b] path] & E2 & H). injection H as <-.
    cbn [g_fullPath g_owner g_repo g_branch g_path].
    apply match_tree_Some in E2 as Ht. by destruct Ht as (Ho & Hr & _).
Qed.

Lemma normalize_idemp u : ends_with u [SLASH] = false -> normalize u = u.
Proof. intros H. apply normalize_spec. split; [done|]. exists 0%nat. by rewrite app_nil_r. Qed.

Lemma resolve_parsed u p : trimmed u -> includes u [SLASH] = true ->
  parseGitHubTreeUrl u = Some p -> match_plain (normalize u) = None -> resolveSkillRef u = Ok u.
Proof.
  intros Ht Hs Hp Hpl. unfold resolveSkillRef. rewrite trim_id by done.
  rewrite bool_decide_eq_false_2 by (by intros ->). rewrite Hs. cbn [negb andb].
  unfold parseGitHubUrl. unfold parseGitHubTreeUrl in Hp.
  apply bind_Some in Hp as (full & Hf & Hp). apply bind_Some in Hp as ([[[o r] b] path] & Hm & _).
  rewrite Hf. cbn [mbind option_bind]. by rewrite Hpl, Hm.
Qed.

Lemma tree_not_plain o r b path n :
  is_segment o -> is_segment r -> match_plain (tree_url o r b ++ path_suffix path ++ slashes n) = None.
Proof.
  intros Ho Hr. destruct (match_plain _) as [[o' r']|] eqn:E; [|done].
  apply match_plain_Some in E as (Ho' & Hr' & E). unfold tree_url in E. rewrite <- !app_assoc in E.
  apply app_inv_head in E.
  assert (segment (o' ++ [SLASH] ++ r') = Some (o', [SLASH] ++ r')) as E1
    by (apply segment_Some; split_and!; [done|done|right; by eexists]).
  rewrite <- E in E1. rewrite (proj2 (segment_Some _ o _)) in E1 by (split_and!; [done|done|right; by eexists]).
  apply (inj Some), pair_equal_spec in E1 as [_ E2]. apply app_inv_head in E2.
  destruct Hr' as [_ Hr']. rewrite <- E2 in Hr'. destruct Hr'. apply elem_of_app. right. by left.
Qed.

(** A rendered tree URL is a fixed point of [resolveSkillRef]. *)
Lemma resolve_tree_url o r b path :
  is_segment o -> is_segment r -> is_segment b ->
  (forall q, path = Some q -> q <> [] /\ ends_with q [SLASH] = false) ->
  one_line (tree_url o r b ++ path_suffix path) = true ->
  (forall c, last (tree_url o r b ++ path_suffix path) = Some c -> is_js_whitespace c = false) ->
  resolveSkillRef (tree_url o r b ++ path_suffix path) = Ok (tree_url o r b ++ path_suffix path).
Proof.
  intros Ho Hr Hb Hp Hl Hlast. set (u := tree_url o r b ++ path_suffix path) in *.
  pose proof (parse_parts o r b path Ho Hr Hb Hp Hl) as E. fold u in E.
  assert (trimmed u) as Ht by (split; [by intros c [= <-]|done]).
  eapply resolve_parsed; [done| |done|].
  - apply includes_char. unfold u, tree_url. rewrite <- !app_assoc. do 6 right. by left.
  - rewrite normalize_idemp; [|].
    + unfold u. rewrite <- (app_nil_r (path_suffix path)). by apply (tree_not_plain o r b path 0).
    + unfold u. destruct path as [q|]; cbn [path_suffix].
      * destruct (Hp q eq_refl) as [Hne Hq]. change (SLASH :: q) with ([SLASH] ++ q).
        by rewrite app_assoc, ends_with_slash_app.
      * rewrite app_nil_r. unfold tree_url. rewrite !app_assoc. by apply last_segment_char.
Qed.

(** A skill reference on one line resolves to a URL that [parseGitHubTreeUrl] accepts
    and that resolves to itself; a bare name is the skill name of that URL in the
    default repository. *)
Theorem resolveSkillRef_spec input u :
  one_line (trim input) = true ->
  resolveSkillRef input = Ok u ->
  resolveSkillRef u = Ok u /\
  exists p, parseGitHubTreeUrl u = Some p /\
    (SLASH ∉ trim input ->
     t_skillName p = trim input /\ t_owner p = DEFAULT_SKILLS_OWNER /\ t_repo p = DEFAULT_SKILLS_REPO /\
     t_branch p = DEFAULT_SKILLS_BRANCH).
Proof.
  intros Hl H. pose proof (trim_trimmed input) as Ht. pose proof H as Hres. unfold resolveSkillRef in H.
  set (t := trim input) in *. case_bool_decide as Hne; [done|].
  assert (is_segment DEFAULT_SKILLS_OWNER /\ is_segment DEFAULT_SKILLS_REPO /\ is_segment DEFAULT_SKILLS_BRANCH)
    as (HO & HR & HB)
    by (split_and!; (split; [done|]); rewrite <- includes_char_false; reflexivity).
  destruct (negb _ && negb _) eqn:Hbare.
  - apply andb_true_iff in Hbare as [Hbare%negb_true_iff _]. apply includes_char_false in Hbare as Hns.
    apply (inj Ok) in H as <-.
    assert (forall q, Some t = Some q -> q <> [] /\ ends_with q [SLASH] = false) as Hq.
    { intros q [= <-]. split; [done|]. rewrite <- (app_nil_l t). by apply last_segment_char. }
    assert (one_line (tree_url DEFAULT_SKILLS_OWNER DEFAULT_SKILLS_REPO DEFAULT_SKILLS_BRANCH ++
                      path_suffix (Some t)) = true) as Hlu
      by (apply one_line_app; split; [reflexivity|]; by apply (one_line_app [SLASH] t)).
    split; [apply (resolve_tree_url _ _ _ (Some t)); try done|].
    + intros c. change (path_suffix (Some t)) with ([SLASH] ++ t). rewrite app_assoc, last_app.
      destruct (last t) eqn:E; [|by apply last_None in E]. intros [= <-]. by apply Ht.
    + eexists. split; [apply (parse_parts _ _ _ (Some t)); done|]. intros _. simpl.
      by rewrite split_on_segment.
  - destruct (parseGitHubUrl t) as [q|] eqn:Hq; [|done].
    assert (SLASH ∈ t) as Hin.
    { apply includes_char. apply andb_false_iff in Hbare as [?%negb_false_iff|H1%negb_false_iff]; [done|].
      apply starts_with_spec in H1 as (r & ->). reflexivity. }
    apply parse_url_Some in Hq as (Hone & Hn & Ho & Hr & Hb).
    destruct (g_branch q) as [b|] eqn:Hbr.
    + apply (inj Ok) in H as <-. split; [unfold resolveSkillRef; rewrite trim_id by done; exact Hres|].
      unfold parseGitHubTreeUrl. apply match_tree_Some in Hb as Hm. destruct Hm as (_ & _ & Hbs & _).
      rewrite (proj2 (match_full_path_Some (normalize t) (g_fullPath q))).
      * cbn [mbind option_bind]. rewrite Hb. eexists. by split.
      * split; [done|]. apply dot_plus_spec. split; [|done]. intros E. rewrite Hn, E in Hb.
        apply match_tree_Some in Hb as (_ & _ & _ & _ & Hb). unfold tree_url in Hb.
        rewrite <- !app_assoc in Hb. apply app_inv_head in Hb. destruct Ho as [Ho _]. by destruct (g_owner q).
    + apply (inj Ok) in H as <-.
      assert (one_line (tree_url (g_owner q) (g_repo q) DEFAULT_SKILLS_BRANCH) = true) as Hlu.
      { rewrite Hn in Hb. apply app_inv_head in Hb. rewrite Hb in Hone.
        apply one_line_app in Hone as [H1 H2]. apply (one_line_app [SLASH]) in H2 as [_ H2]. unfold tree_url.
        by repeat (apply one_line_app; split). }
      rewrite <- (app_nil_r (tree_url _ _ _)).
      split; [apply (resolve_tree_url _ _ _ None); try done; cbn [path_suffix]; rewrite app_nil_r; [done|]|].
      * intros c. unfold tree_url. rewrite !app_assoc, last_app.
        by intros [= <-].
      * eexists. split; [apply (parse_parts _ _ _ None); try done; cbn [path_suffix]; by rewrite app_nil_r|done].
Qed.

Lemma resolveSkillRef_spec_witness :
  resolveSkillRef (js " slack ") = Ok (js "https://github.com/vm0-ai/vm0-skills/tree/main/slack") /\
  resolveSkillRef (js "https://github.com/vm0-ai/vm0-skills/tree/main/slack") =
    Ok (js "https://github.com/vm0-ai/vm0-skills/tree/main/slack").
Proof. split; [reflexivity|]. by apply (resolveSkillRef_spec (js " slack ")). Defined.
End GithubUrl.
