(* ===== verification/BaseUrl.v ===== *)
(** Validation of firewall base URLs and auth.base URLs
    (turbo/packages/connectors/src/firewall-types.ts, second half). The URL
    parser, the case mappings, the normalization forms and the Unicode categories
    are the operations of [Platform]. *)

From stdpp Require Import pretty.
From S2P Require Import Prelude JsString JsValue SegmentParser UrlUtils Templates.
Import SegmentParser UrlUtils Templates.

Module BaseUrl.

(** ** Characters *)

Definition DOT : Z := 46.
Definition is_dot_equivalent (c : Z) : bool :=
  (c =? 0x3002) || (c =? 0xff0e) || (c =? 0xff61).
Definition HOST_DOT_EQUIVALENTS : list jsstr := [[DOT]; [0x3002]; [0xff0e]; [0xff61]].

(** [host.replace(HOST_DOT_EQUIVALENT_PATTERN, ".")]. *)
Definition replace_dot_equivalents (host : jsstr) : jsstr :=
  (fun c => if is_dot_equivalent c then DOT else c) <$> host.

Definition FORBIDDEN_NORMALIZED_LABEL_CHARS : jsstr := js "#%,/:<>?@[\]^|[]".

Definition isHexDigit (ch : jsstr) : bool :=
  match ch with
  | [c] => ((48 <=? c) && (c <=? 57)) || ((97 <=? c) && (c <=? 102)) || ((65 <=? c) && (c <=? 70))
  | _ => false
  end.
Definition isAsciiDigit (ch : jsstr) : bool :=
  match ch with [c] => (48 <=? c) && (c <=? 57) | _ => false end.

Definition isAscii (value : jsstr) : bool := negb (existsb (fun c => 0x7f <? c) value).

(** [s[s.length - 1]] removed when it is a dot. *)
Definition strip_trailing_dot (s : jsstr) : jsstr :=
  if ends_with s [DOT] then drop_last s else s.

(** [host.startsWith("[") && host.endsWith("]")]. *)
Definition is_bracketed (host : jsstr) : bool := starts_with host (js "[") && ends_with host (js "]").

Definition errMsg (base svc detail : jsstr) : jsstr :=
  js "Invalid base URL " ++ quoted base ++ js " in firewall " ++ quoted svc ++ js ": " ++ detail.

(** The messages of [validateAuthBaseUrl]. *)
Definition authErrMsg (base svc detail : jsstr) : jsstr :=
  js "Invalid auth.base URL " ++ quoted base ++ js " in firewall " ++ quoted svc ++ js ": " ++ detail.

(** ** IPv4 *)

Definition all_chars (f : jsstr -> bool) (s : jsstr) : bool := forallb f (code_points s).

Fixpoint decimal_value (acc : Z) (s : jsstr) : Z :=
  match s with [] => acc | c :: s' => decimal_value (10 * acc + (c - 48)) s' end.

Definition IPV4_MAX_OCTET : Z := 255.

Definition isCanonicalIpv4Part (part : jsstr) : bool :=
  if bool_decide (part = []) || negb (all_chars isAsciiDigit part) then false
  else if (1 <? length part)%nat && starts_with part (js "0") then false
  else decimal_value 0 part <=? IPV4_MAX_OCTET.

Definition isCanonicalIpv4Address (value : jsstr) : bool :=
  let parts := split_on DOT value in
  if negb (length parts =? 4)%nat then false else forallb isCanonicalIpv4Part parts.

(** ** Code point tables *)

Definition codePointInRanges (codePoint : Z) (ranges : list (Z * Z)) : bool :=
  existsb (fun '(a, b) => (a <=? codePoint) && (codePoint <=? b)) ranges.

Definition IDNA_BIDI_RTL_LABEL_RANGES : list (Z * Z) :=
  [(0x061d, 0x061d); (0x0870, 0x088e); (0x08b5, 0x08b5); (0x08c8, 0x08c9); (0xfbc2, 0xfbc2);
   (0x10f70, 0x10f81); (0x10f86, 0x10f89)].
Definition UNSAFE_UTS46_COLLISION_CHARS : list Z :=
  [0x03f2; 0x04c0; 0x1e9e; 0x1806; 0x2132; 0x2183; 0x3164; 0xffa0; 0xfffc; 0xfffd;
   0x2f868; 0x2f874; 0x2f91f; 0x2f95f; 0x2f9bf].
Definition UNSAFE_UTS46_COLLISION_RANGES : list (Z * Z) :=
  [(0x10a0, 0x10c5); (0x115f, 0x1160); (0x17b4, 0x17b5); (0x2ff0, 0x2ffb)].
Definition UNSAFE_UTS46_IGNORABLE_RANGES : list (Z * Z) :=
  [(0x034f, 0x034f); (0x180b, 0x180d); (0x180f, 0x180f); (0xfe00, 0xfe0f); (0xe0100, 0xe01ef)].

(** A character of the collision set is compared by its code point. *)
Definition hasUnsafeUts46MappingChar (value : jsstr) : bool :=
  existsb (fun ch =>
    match code_point_at0 ch with
    | Some cp =>
        bool_decide (cp ∈ UNSAFE_UTS46_COLLISION_CHARS) ||
        codePointInRanges cp UNSAFE_UTS46_COLLISION_RANGES ||
        codePointInRanges cp UNSAFE_UTS46_IGNORABLE_RANGES
    | None => false
    end) (code_points value).

Definition isIdnaBidiRtlLabelChar (ch : jsstr) : bool :=
  match code_point_at0 ch with
  | Some cp => codePointInRanges cp IDNA_BIDI_RTL_LABEL_RANGES
  | None => false
  end.
Definition isArabicNumberForBidiCheck (ch : jsstr) : bool :=
  match code_point_at0 ch with Some cp => (0x0660 <=? cp) && (cp <=? 0x0669) | None => false end.
Definition isRtlEndCharForBidiCheck (ch : jsstr) : bool :=
  isIdnaBidiRtlLabelChar ch || isAsciiDigit ch || isArabicNumberForBidiCheck ch.

(** ** Authorities *)

Definition rawAuthorityFromBaseUrl (base : jsstr) : option jsstr :=
  match index_of base (js "://") with
  | None => None
  | Some schemeEnd =>
      let rest := drop (schemeEnd + 3) base in
      let delimiterIndexes :=
        omap (fun d => index_of rest d) [js "/"; js "?"; js "#"] in
      match delimiterIndexes with
      | [] => Some rest
      | i :: rest_idx => Some (take (foldr Nat.min i rest_idx) rest)
      end
  end.

Definition rawHostFromAuthority (authority : jsstr) : jsstr :=
  let withoutUserinfo :=
    match last_index_of authority 64 with Some k => drop (k + 1) authority | None => authority end in
  if starts_with withoutUserinfo (js "[") then
    match index_of withoutUserinfo (js "]") with
    | None => withoutUserinfo
    | Some closeBracket => take (closeBracket + 1) withoutUserinfo
    end
  else
    match last_index_of withoutUserinfo 58 with
    | None => withoutUserinfo
    | Some portSeparator => take portSeparator withoutUserinfo
    end.

Definition splitAuthorityHostSegments (host : jsstr) : list jsstr :=
  if is_bracketed host then [host] else split_on DOT host.

Definition validateNoUserinfo (authority base serviceName : jsstr) : result unit :=
  throw_if (includes authority (js "@")) (errMsg base serviceName (js "must not contain userinfo")).

Definition validateHostHasNoEmptyLabels (host base serviceName : jsstr) : result jsstr :=
  let normalizedHost := strip_trailing_dot (replace_dot_equivalents host) in
  if bool_decide (normalizedHost = []) || ends_with normalizedHost [DOT] ||
     existsb (fun label => bool_decide (label = [])) (split_on DOT normalizedHost)
  then Throw (errMsg base serviceName (js "host must not contain empty labels"))
  else Ok normalizedHost.

Record ParameterizedAuthorityParts := { normalizedHost : jsstr; portSuffix : jsstr }.

Definition splitParameterizedAuthority (authority base serviceName : jsstr) :
    result ParameterizedAuthorityParts :=
  let bad := Throw (errMsg base serviceName (js "not a valid URL authority")) in
  '(host, suffix) ←
    (if starts_with authority (js "[") then
       match index_of authority (js "]") with
       | None => bad
       | Some closeBracket =>
           let suffix := drop (closeBracket + 1) authority in
           if negb (bool_decide (suffix = [])) && negb (starts_with suffix (js ":")) then bad
           else Ok (take (closeBracket + 1) authority, suffix)
       end
     else
       match last_index_of authority 58 with
       | None => Ok (authority, [])
       | Some portSeparator => Ok (take portSeparator authority, drop portSeparator authority)
       end);
  host' ← validateHostHasNoEmptyLabels host base serviceName;
  Ok {| normalizedHost := host'; portSuffix := suffix |}.

Definition validateStaticHostLabels (hostname base serviceName : jsstr) : result unit :=
  if is_bracketed hostname then Ok tt
  else _ ← validateHostHasNoEmptyLabels hostname base serviceName; Ok tt.

(** ** Parameter segments *)

Definition greedy_truthy (g : Greedy) : bool := negb (bool_decide (g = GNone)).
Definition param_text (name : jsstr) (g : Greedy) : jsstr :=
  [LBRACE] ++ name ++ greedy_text g ++ [RBRACE].

Definition hostSegmentForSyntaxValidation (seg base svc : jsstr) : result jsstr :=
  match parseSegment seg with
  | SLiteral _ => Ok seg
  | SError reason => Throw (errMsg base svc reason)
  | SParam prefix _ suffix _ =>
      if negb (isAscii prefix) || negb (isAscii suffix) then
        Throw (errMsg base svc (js "host parameter segment " ++ quoted seg ++
                                js " must use ASCII literal prefix and suffix"))
      else Ok (prefix ++ js "x" ++ suffix)
  end.

(** [list.map] with a callback that may throw. *)
Fixpoint map_result {A B} (f : A -> result B) (l : list A) : result (list B) :=
  match l with
  | [] => Ok []
  | x :: l' => y ← f x; ys ← map_result f l'; Ok (y :: ys)
  end.

(** The loop of [validateHostParams] from index [i]; [hasStatic] and the set
    [paramNames] are the loop state. *)
Fixpoint hostParamsLoop (segments : list jsstr) (i : nat) (hasStatic : bool)
    (paramNames : list jsstr) (base svc : jsstr) : result (bool * list jsstr) :=
  match segments with
  | [] => Ok (hasStatic, paramNames)
  | seg :: segments' =>
      match parseSegment seg with
      | SError reason => Throw (errMsg base svc reason)
      | SLiteral _ => hostParamsLoop segments' (S i) true paramNames base svc
      | SParam prefix name suffix greedy =>
          _ ← throw_if (bool_decide (name ∈ paramNames))
                (errMsg base svc (js "duplicate parameter name " ++
                   quoted (param_text name GNone) ++ js " in host"));
          _ ← throw_if (greedy_truthy greedy && negb (i =? 0)%nat)
                (errMsg base svc (param_text name greedy ++ js " must be the first host segment"));
          _ ← throw_if (greedy_truthy greedy &&
                        (negb (bool_decide (prefix = [])) || negb (bool_decide (suffix = []))))
                (errMsg base svc (js "greedy parameter " ++ param_text name greedy ++
                   js " cannot be combined with a literal prefix or suffix in host segment " ++ quoted seg));
          hostParamsLoop segments' (S i) hasStatic (set_add name paramNames) base svc
      end
  end.

(** The updated [paramNames] is the result: the caller passes it on. *)
Definition validateHostParams (segments paramNames : list jsstr) (base svc : jsstr) : result (list jsstr) :=
  _ ← throw_if (length segments <? 2)%nat (errMsg base svc (js "host must have at least two segments"));
  '(hasStatic, names) ← hostParamsLoop segments 0 false paramNames base svc;
  _ ← throw_if (negb hasStatic) (errMsg base svc (js "host must have at least one static segment"));
  Ok names.

Fixpoint validatePathParams (segments paramNames : list jsstr) (base svc : jsstr) : result (list jsstr) :=
  match segments with
  | [] => Ok paramNames
  | seg :: segments' =>
      match parseSegment seg with
      | SError reason => Throw (errMsg base svc reason)
      | SLiteral _ => validatePathParams segments' paramNames base svc
      | SParam _ name _ greedy =>
          _ ← throw_if (greedy_truthy greedy)
                (errMsg base svc (js "greedy parameter " ++ param_text name greedy ++
                                  js " is not allowed in base URL path"));
          _ ← throw_if (bool_decide (name ∈ paramNames))
                (errMsg base svc (js "duplicate parameter name " ++ quoted (param_text name GNone)));
          validatePathParams segments' (set_add name paramNames) base svc
      end
  end.

(** ** Schemes *)

Inductive UrlLabel := LabelBaseUrl | LabelAuthBaseUrl.

Definition label_text (l : UrlLabel) : jsstr :=
  match l with LabelBaseUrl => js "base URL" | LabelAuthBaseUrl => js "auth.base URL" end.

Definition ALLOWED_BASE_URL_SCHEMES : list jsstr := [js "http"; js "https"].
Definition REQUIRED_AUTH_BASE_URL_SCHEME : jsstr := js "https".

Section WithPlatform.
Context `{Platform}.

Definition isIpv4NumberComponent (value : jsstr) : bool :=
  if bool_decide (value = []) then false
  else if starts_with (toLowerCase value) (js "0x") then
    (2 <? length value)%nat && all_chars isHexDigit (drop 2 value)
  else all_chars isAsciiDigit value.

Definition isIpv4LiteralLike (value : jsstr) : bool :=
  let parts := split_on DOT value in
  (1 <=? length parts)%nat && (length parts <=? 4)%nat && forallb isIpv4NumberComponent parts.

Definition normalizeLabelTextForIdnaValidation (value : jsstr) : jsstr :=
  toLowerCase (normalize_NFC (normalize_NFKD
    ((fun c => if c =? 0x0345 then 0x03b9 else c) <$> value))).

Definition normalizesToAscii (value : jsstr) : bool :=
  isAscii (normalizeLabelTextForIdnaValidation value).

Definition hasForbiddenNormalizedLabelChar (value : jsstr) : bool :=
  existsb (fun ch =>
    match ch with
    | [c] => bool_decide (c ∈ FORBIDDEN_NORMALIZED_LABEL_CHARS) || isRegexWhitespace c
    | _ => false
    end ||
    bool_decide (ch ∈ HOST_DOT_EQUIVALENTS) || is_unicode_control ch)
    (code_points (normalizeLabelTextForIdnaValidation value)).

Definition normalizedLabelStartsWithMark (value : jsstr) : bool :=
  match code_points (normalizeLabelTextForIdnaValidation value) with
  | firstChar :: _ => is_unicode_mark firstChar
  | [] => false
  end.

Definition isLtrLetterForBidiCheck (ch : jsstr) : bool :=
  is_unicode_letter ch && negb (isIdnaBidiRtlLabelChar ch).

(** The last character that is not a mark, else the last one. *)
Definition effectiveBidiEndChar (chars : list jsstr) : option jsstr :=
  match List.find (fun ch => negb (is_unicode_mark ch)) (reverse chars) with
  | Some ch => Some ch
  | None => last chars
  end.
Definition firstEffectiveBidiChar (chars : list jsstr) : option jsstr :=
  List.find (fun ch => negb (is_unicode_mark ch)) chars.

Definition bad_bidi_end (chars : list jsstr) : bool :=
  match effectiveBidiEndChar chars with
  | Some endChar => negb (isRtlEndCharForBidiCheck endChar)
  | None => false
  end.

Definition hasInvalidMixedBidiLabelText (value : jsstr) : bool :=
  let chars := code_points (normalizeLabelTextForIdnaValidation value) in
  match list_find (fun ch => isIdnaBidiRtlLabelChar ch = true) chars with
  | None => false
  | Some (firstRtlIndex, _) =>
      let suffix := drop (firstRtlIndex + 1) chars in
      if existsb isLtrLetterForBidiCheck suffix then true
      else if (firstRtlIndex =? 0)%nat then bad_bidi_end chars
      else
        let prefix := take firstRtlIndex chars in
        if existsb isLtrLetterForBidiCheck prefix then
          if existsb isArabicNumberForBidiCheck prefix then true
          else
            match firstEffectiveBidiChar prefix with
            | None => true
            | Some firstPrefixChar =>
                if negb (isLtrLetterForBidiCheck firstPrefixChar) then true
                else existsb (fun ch => negb (is_unicode_mark ch)) suffix
            end
        else bad_bidi_end chars
  end.

Definition validateLabelHasNoUnsafeIdnaMappings (label base serviceName : jsstr) : result unit :=
  let value := match parseSegment label with
               | SParam prefix _ suffix _ => prefix ++ suffix
               | _ => label
               end in
  if bool_decide (value = []) || isAscii value then Ok tt
  else
    _ ← throw_if (hasForbiddenNormalizedLabelChar value)
          (errMsg base serviceName (js "host must not contain characters that normalize to forbidden host syntax"));
    _ ← throw_if (normalizedLabelStartsWithMark value)
          (errMsg base serviceName (js "host label must not start with a combining mark"));
    _ ← throw_if (hasInvalidMixedBidiLabelText value)
          (errMsg base serviceName (js "host must not contain invalid bidirectional label text"));
    throw_if (hasUnsafeUts46MappingChar value || normalizesToAscii value)
      (errMsg base serviceName (js "host must not contain unsafe IDNA compatibility mappings")).

Fixpoint for_each {A} (f : A -> result unit) (l : list A) : result unit :=
  match l with [] => Ok tt | x :: l' => _ ← f x; for_each f l' end.

Definition validateHostHasNoUnsafeIdnaMappings (authorityOrHost base serviceName : jsstr) : result unit :=
  let host := rawHostFromAuthority authorityOrHost in
  if is_bracketed host then Ok tt
  else for_each (fun label => validateLabelHasNoUnsafeIdnaMappings label base serviceName)
         (split_on DOT (replace_dot_equivalents host)).

Definition normalizeHostForIpv4LiteralSyntax (host : jsstr) : jsstr :=
  strip_trailing_dot (toLowerCase (replace_dot_equivalents host)).
Definition rawHostForCanonicalIpv4Syntax (host : jsstr) : jsstr :=
  strip_trailing_dot (toLowerCase host).

Definition validateHostHasCanonicalIpv4Syntax (authorityOrHost base serviceName : jsstr) : result unit :=
  let host := rawHostFromAuthority authorityOrHost in
  if is_bracketed host then Ok tt
  else
    let normalizedHost := normalizeHostForIpv4LiteralSyntax host in
    throw_if (isIpv4LiteralLike normalizedHost &&
              (negb (bool_decide (rawHostForCanonicalIpv4Syntax host = normalizedHost)) ||
               negb (isCanonicalIpv4Address normalizedHost)))
      (errMsg base serviceName (js "host must use canonical IPv4 address syntax")).

(** The length of the maximal run of [%XX] escapes at the head. *)
Fixpoint percent_run (s : jsstr) : nat :=
  match s with
  | p :: h :: l :: rest =>
      if (p =? 37) && isHexDigit [h] && isHexDigit [l] then (3 + percent_run rest)%nat else 0%nat
  | _ => 0%nat
  end.

Definition check_decoded_host_char (base serviceName ch : jsstr) : result unit :=
  _ ← throw_if (bool_decide (ch = js "{") || bool_decide (ch = js "}"))
        (errMsg base serviceName (js "host must not contain percent-encoded braces"));
  _ ← throw_if (bool_decide (ch ∈ HOST_DOT_EQUIVALENTS))
        (errMsg base serviceName (js "host must not contain percent-encoded dots"));
  throw_if (bool_decide (ch = js ","))
    (errMsg base serviceName (js "host must not contain commas")).

(** The [for] loop over the host; every turn passes at least one unit. *)
Fixpoint percentLoop (fuel : nat) (s base serviceName : jsstr) : result unit :=
  match fuel, s with
  | _, [] => Ok tt
  | O, _ => Ok tt
  | S fuel', c :: s' =>
      if negb (c =? 37) then percentLoop fuel' s' base serviceName
      else
        let n := percent_run s in
        if (n =? 0)%nat then Throw (errMsg base serviceName (js "host has invalid percent encoding"))
        else
          match decodeURIComponent (take n s) with
          | None => Throw (errMsg base serviceName (js "host has invalid percent encoding"))
          | Some decoded =>
              _ ← for_each (check_decoded_host_char base serviceName) (code_points decoded);
              percentLoop fuel' (drop n s) base serviceName
          end
  end.

Definition validateHostPercentEncoding (host base serviceName : jsstr) : result unit :=
  _ ← throw_if (includes host (js ",")) (errMsg base serviceName (js "host must not contain commas"));
  _ ← percentLoop (length host) host base serviceName;
  if includes host (js "%") then
    match decodeURIComponent host with
    | None => Throw (errMsg base serviceName (js "host has invalid percent encoding"))
    | Some decoded => validateHostHasNoUnsafeIdnaMappings decoded base serviceName
    end
  else Ok tt.

Definition validateBaseUrlScheme (scheme base serviceName : jsstr) : result unit :=
  throw_if (negb (bool_decide (toLowerCase scheme ∈ ALLOWED_BASE_URL_SCHEMES)))
    (errMsg base serviceName (js "scheme must be http or https")).

Definition validateUrlSchemeDelimiter (value serviceName : jsstr) (label : UrlLabel)
    (displayValue : jsstr) : result unit :=
  let invalid detail :=
    Throw (js "Invalid " ++ label_text label ++ js " " ++ quoted displayValue ++
           js " in firewall " ++ quoted serviceName ++ js ": " ++ detail) in
  if includes value (js "://") then Ok tt
  else
    match index_of value (js ":") with
    | Some colonIndex =>
        let scheme := take colonIndex value in
        let schemeDetail :=
          match label with
          | LabelAuthBaseUrl => js "scheme must be https"
          | LabelBaseUrl => js "scheme must be http or https"
          end in
        let allowedScheme :=
          match label with
          | LabelAuthBaseUrl => bool_decide (toLowerCase scheme = REQUIRED_AUTH_BASE_URL_SCHEME)
          | LabelBaseUrl => bool_decide (toLowerCase scheme ∈ ALLOWED_BASE_URL_SCHEMES)
          end in
        if negb allowedScheme then invalid schemeDetail
        else invalid (js "URL must include " ++ quoted (js "://") ++ js " after the scheme")
    | None =>
        invalid (js "URL must include a scheme (e.g. " ++
                 quoted (js "https://" ++ displayValue) ++ js ")")
    end.

Definition validateParameterizedHostUrlSyntax (scheme : jsstr) (authority : ParameterizedAuthorityParts)
    (base serviceName : jsstr) : result unit :=
  segs ← map_result (fun seg => hostSegmentForSyntaxValidation seg base serviceName)
           (splitAuthorityHostSegments (normalizedHost authority));
  match new_URL (scheme ++ js "://" ++ join [DOT] segs ++ portSuffix authority) with
  | Some _ => Ok tt
  | None => Throw (errMsg base serviceName (js "not a valid URL authority"))
  end.

Definition validateBaseUrlParams (base serviceName : jsstr) : result unit :=
  match index_of base (js "://") with
  | None => Throw (errMsg base serviceName (js "missing scheme"))
  | Some schemeEnd =>
      let scheme := take schemeEnd base in
      _ ← throw_if (includes scheme (js "{"))
            (errMsg base serviceName (js "scheme must not contain parameters"));
      _ ← validateBaseUrlScheme scheme base serviceName;
      _ ← throw_if (includes base (js "?")) (errMsg base serviceName (js "must not contain query string"));
      _ ← throw_if (includes base (js "#")) (errMsg base serviceName (js "must not contain fragment"));
      let rest := drop (schemeEnd + 3) base in
      let '(host, path) :=
        match index_of rest (js "/") with
        | None => (rest, [])
        | Some slashIdx => (take slashIdx rest, drop slashIdx rest)
        end in
      _ ← validateNoUserinfo host base serviceName;
      _ ← validateHostPercentEncoding host base serviceName;
      authority ← splitParameterizedAuthority host base serviceName;
      _ ← validateHostHasCanonicalIpv4Syntax (normalizedHost authority) base serviceName;
      _ ← validateHostHasNoUnsafeIdnaMappings (normalizedHost authority) base serviceName;
      _ ← validateParameterizedHostUrlSyntax scheme authority base serviceName;
      paramNames ← validateHostParams (splitAuthorityHostSegments (normalizedHost authority)) []
                     base serviceName;
      if negb (bool_decide (path = [])) then
        _ ← validatePathParams (splitPathSegments path) paramNames base serviceName; Ok tt
      else Ok tt
  end.

(** [base.replace(BASE_URL_VARS_PATTERN_G, AUTH_TEMPLATE_URL_PLACEHOLDER)]: the
    replacement is a constant and does not throw. *)
Definition AUTH_TEMPLATE_URL_PLACEHOLDER : jsstr := js "placeholder".
Definition replace_refs (nss : list (FirewallTemplateReferenceNamespace * jsstr)) (s : jsstr) : jsstr :=
  match regex_replace nss (fun _ => Ok AUTH_TEMPLATE_URL_PLACEHOLDER) s 0 with
  | Ok t => t
  | Throw _ => s
  end.
Definition baseUrlRawSyntaxTarget (base : jsstr) : jsstr := replace_refs REF_VARS base.

(** The checks of a base URL without parameters, after [new URL(base)]. *)
Definition validateStaticBaseUrl (base serviceName : jsstr) : result unit :=
  match new_URL base with
  | None =>
      if negb (includes base (js "://")) then
        Throw (errMsg base serviceName (js "URL must include a scheme (e.g. " ++
                                        quoted (js "https://" ++ base) ++ js ")"))
      else Throw (errMsg base serviceName (js "not a valid URL"))
  | Some url =>
      _ ← validateBaseUrlScheme (drop_last (url_protocol url)) base serviceName;
      _ ← throw_if (negb (bool_decide (url_search url = [])))
            (errMsg base serviceName (js "must not contain query string"));
      _ ← throw_if (negb (bool_decide (url_hash url = [])))
            (errMsg base serviceName (js "must not contain fragment"));
      _ ← match rawAuthorityFromBaseUrl base with
          | None => Ok tt
          | Some authority =>
              _ ← throw_if (bool_decide (authority = []))
                    (errMsg base serviceName (js "not a valid URL authority"));
              _ ← validateNoUserinfo authority base serviceName;
              _ ← validateHostPercentEncoding authority base serviceName;
              _ ← validateHostHasCanonicalIpv4Syntax authority base serviceName;
              validateHostHasNoUnsafeIdnaMappings authority base serviceName
          end;
      _ ← validateStaticHostLabels (url_hostname url) base serviceName;
      throw_if (includes (url_hostname url) (js "{") || includes (url_hostname url) (js "}"))
        (errMsg base serviceName (js "host must not contain braces"))
  end.

Definition validateBaseUrl (base serviceName : jsstr) : result unit :=
  _ ← throw_if (includes base (js "\")) (errMsg base serviceName (js "must not contain backslash"));
  let rawSyntaxTarget := baseUrlRawSyntaxTarget base in
  _ ← throw_if (hasRawWhitespace rawSyntaxTarget)
        (errMsg base serviceName (js "must not contain whitespace"));
  _ ← throw_if (hasUnsafeUrlCodepoint rawSyntaxTarget)
        (errMsg base serviceName (js "must not contain control characters or invalid Unicode"));
  if hasBaseUrlVars base then Ok tt
  else
    _ ← validateUrlSchemeDelimiter base serviceName LabelBaseUrl base;
    if hasBaseUrlParams base then validateBaseUrlParams base serviceName
    else validateStaticBaseUrl base serviceName.

(** ** Auth base URLs *)

Record AuthBaseStaticValidationTarget := { target_url : option jsstr; dynamicPrefixSuffix : jsstr }.

Definition authBaseForStaticUrlValidation (authBase : jsstr) : AuthBaseStaticValidationTarget :=
  if negb (includes authBase DOLLAR_BRACES) then
    {| target_url := Some authBase; dynamicPrefixSuffix := [] |}
  else
    let replaced := replace_refs REF_BOTH authBase in
    if includes replaced DOLLAR_BRACES then
      {| target_url := Some authBase; dynamicPrefixSuffix := [] |}
    else
      match match_reference REF_BOTH authBase with
      | Some (_, _, len) =>
          {| target_url := None; dynamicPrefixSuffix := replace_refs REF_BOTH (drop len authBase) |}
      | None => {| target_url := Some replaced; dynamicPrefixSuffix := [] |}
      end.

Definition validateDynamicAuthBaseSuffix (authBase suffix serviceName : jsstr) : result unit :=
  let err := authErrMsg authBase serviceName in
  _ ← throw_if (includes suffix DOLLAR_BRACES) (err (js "contains unsupported template reference"));
  _ ← throw_if (hasRawWhitespace suffix) (err (js "must not contain whitespace"));
  _ ← throw_if (hasUnsafeUrlCodepoint suffix)
        (err (js "must not contain control characters or invalid Unicode"));
  _ ← throw_if (includes suffix (js "#")) (err (js "must not contain fragment"));
  throw_if (negb (bool_decide (suffix = [])) && negb (starts_with suffix (js "/")) &&
            negb (starts_with suffix (js "?")))
    (err (js "dynamic URL suffix must start with " ++ quoted (js "/") ++ js " or " ++ quoted (js "?"))).

Definition validateAuthBaseUrl (authBase serviceName : jsstr) : result unit :=
  let err := authErrMsg authBase serviceName in
  _ ← throw_if (includes authBase (js "\")) (err (js "must not contain backslash"));
  let target := authBaseForStaticUrlValidation authBase in
  _ ← validateDynamicAuthBaseSuffix authBase (dynamicPrefixSuffix target) serviceName;
  match target_url target with
  | None => Ok tt
  | Some validationUrl =>
      _ ← throw_if (includes validationUrl DOLLAR_BRACES)
            (err (js "contains unsupported template reference"));
      _ ← throw_if (hasRawWhitespace validationUrl) (err (js "must not contain whitespace"));
      _ ← throw_if (hasUnsafeUrlCodepoint validationUrl)
            (err (js "must not contain control characters or invalid Unicode"));
      _ ← validateUrlSchemeDelimiter validationUrl serviceName LabelAuthBaseUrl authBase;
      match new_URL validationUrl with
      | None => Throw (err (js "not a valid URL"))
      | Some url =>
          _ ← throw_if (negb (bool_decide
                 (toLowerCase (drop_last (url_protocol url)) = REQUIRED_AUTH_BASE_URL_SCHEME)))
                (err (js "scheme must be https"));
          _ ← throw_if (negb (bool_decide (url_hash url = []))) (err (js "must not contain fragment"));
          _ ← match rawAuthorityFromBaseUrl validationUrl with
              | None => Ok tt
              | Some authority =>
                  _ ← throw_if (bool_decide (authority = [])) (err (js "not a valid URL authority"));
                  _ ← throw_if (includes authority (js "@")) (err (js "must not contain userinfo"));
                  _ ← validateHostPercentEncoding authority validationUrl serviceName;
                  _ ← validateHostHasCanonicalIpv4Syntax authority validationUrl serviceName;
                  validateHostHasNoUnsafeIdnaMappings authority validationUrl serviceName
              end;
          validateStaticHostLabels (url_hostname url) validationUrl serviceName
      end
  end.

(** ** Variables and wildcards *)

Record Firewall := { fw_name : jsstr; fw_apis : list FirewallApi }.

Definition resolve_base_vars (fwName base : jsstr) (vars : option (list (jsstr * jsstr))) : result jsstr :=
  regex_replace REF_VARS (fun name =>
    match lookup_var vars name with
    | Some value => Ok value
    | None => Throw (js "Firewall " ++ quoted fwName ++ js " base URL requires variable " ++
                     quoted name ++ js " but it was not provided")
    end) base 0.

Definition resolveFirewallBaseUrlVars (firewalls : list Firewall)
    (vars : option (list (jsstr * jsstr))) : result (list Firewall) :=
  map_result (fun fw =>
    apis ← map_result (fun api =>
      if negb (hasBaseUrlVars (api_base api)) then Ok api
      else
        resolved ← resolve_base_vars (fw_name fw) (api_base api) vars;
        _ ← validateBaseUrl resolved (fw_name fw);
        Ok {| api_base := resolved; api_auth := api_auth api; api_permissions := api_permissions api |})
      (fw_apis fw);
    Ok {| fw_name := fw_name fw; fw_apis := apis |}) firewalls.

Definition HOST_WILDCARD_PARAM_PREFIX : jsstr := js "hostWildcard".

(** Expand one label; [paramIndex] counts the wildcards of the whole host. *)
Fixpoint expand_label (segment : jsstr) (paramIndex : nat) : jsstr * nat :=
  match segment with
  | [] => ([], paramIndex)
  | ch :: segment' =>
      if ch =? STAR then
        let '(rest, n) := expand_label segment' (S paramIndex) in
        ([LBRACE] ++ HOST_WILDCARD_PARAM_PREFIX ++ js (pretty (S paramIndex)) ++ [RBRACE] ++ rest, n)
      else let '(rest, n) := expand_label segment' paramIndex in (ch :: rest, n)
  end.

Fixpoint expand_labels (segments : list jsstr) (paramIndex : nat) : list jsstr :=
  match segments with
  | [] => []
  | seg :: segments' =>
      let '(expanded, n) := expand_label seg paramIndex in expanded :: expand_labels segments' n
  end.

Definition expandHostWildcardsInBaseUrl (base : jsstr) : jsstr :=
  match new_URL base with
  | None => base
  | Some url =>
      if negb (includes (url_hostname url) [STAR]) then base
      else
        let host := join [DOT] (expand_labels (split_on DOT (url_hostname url)) 0) in
        let authority :=
          if bool_decide (url_port url = []) then host else host ++ js ":" ++ url_port url in
        url_protocol url ++ js "//" ++ authority ++ url_pathname url ++ url_search url ++ url_hash url
  end.

End WithPlatform.

(** ** Parameters of an accepted base URL *)

(** The names of the parameter segments, in order. *)
Definition param_names (segments : list jsstr) : list jsstr :=
  omap (fun seg => match parseSegment seg with SParam _ name _ _ => Some name | _ => None end) segments.

Definition is_static_segment (seg : jsstr) : Prop := parseSegment seg = SLiteral seg.

(** A greedy parameter is the whole of the leftmost segment. *)
Definition greedy_leftmost (segments : list jsstr) : Prop :=
  forall i seg prefix name suffix g,
    segments !! i = Some seg -> parseSegment seg = SParam prefix name suffix g -> g <> GNone ->
    i = 0%nat /\ prefix = [] /\ suffix = [].

Lemma greedy_truthy_false g : greedy_truthy g = false <-> g = GNone.
Proof. unfold greedy_truthy. rewrite negb_false_iff, bool_decide_eq_true. done. Qed.

Lemma set_add_fresh x l : x ∉ l -> set_add x l = l ++ [x].
Proof. intros. unfold set_add. by rewrite bool_decide_false. Qed.

Lemma hostParamsLoop_sound segments i hasStatic names base svc hs out :
  NoDup names -> hostParamsLoop segments i hasStatic names base svc = Ok (hs, out) ->
  out = names ++ param_names segments /\ NoDup out /\
  (hs = true -> hasStatic = true \/ Exists is_static_segment segments) /\
  (forall j seg prefix name suffix g,
    segments !! j = Some seg -> parseSegment seg = SParam prefix name suffix g -> g <> GNone ->
    (i + j = 0)%nat /\ prefix = [] /\ suffix = []).
Proof.
  revert i hasStatic names. induction segments as [|seg segs IH]; intros i hasStatic names Hnd; simpl.
  { intros [= <- <-]. rewrite app_nil_r. split_and!; try done. auto. }
  unfold param_names. simpl. destruct (parseSegment seg) as [v|prefix name suffix g|r] eqn:Hp; [| |done].
  - intros (E & Hout & Hs & Hg)%IH; [|done]. split_and!; [done|done| |].
    + intros Hhs. right. left. unfold is_static_segment. rewrite Hp.
      by apply parseSegment_literal in Hp as [-> _].
    + intros [|j] seg' ? ? ? ? Hj; simpl in Hj; [congruence|]. intros. rewrite <- Nat.add_succ_comm. eauto.
  - intros (_ & Hdup%throw_if_ok & (_ & Hfirst%throw_if_ok & (_ & Hpure%throw_if_ok & E)%result_bind_ok)%result_bind_ok)%result_bind_ok.
    apply bool_decide_eq_false in Hdup. rewrite set_add_fresh in E by done.
    apply IH in E as (-> & Hout & Hs & Hg).
    2:{ apply NoDup_app. split_and!; [done|set_solver|]. apply NoDup_singleton. }
    rewrite <- app_assoc in *. split_and!; [done|done| |].
    + intros Hhs. destruct (Hs Hhs); [by left|right; by right].
    + intros [|j] seg' p' n' s' g' Hj Hp' Hgr; simpl in Hj.
      * injection Hj as <-. rewrite Hp in Hp'. injection Hp' as <- <- <- <-.
        destruct (greedy_truthy g) eqn:Ht; [|by apply greedy_truthy_false in Ht].
        simpl in Hfirst, Hpure. bool_facts. apply Nat.eqb_eq in Hfirst. split_and!; [lia|done|done].
      * rewrite <- Nat.add_succ_comm. eauto.
Qed.

Lemma validateHostParams_sound segments base svc names :
  validateHostParams segments [] base svc = Ok names ->
  (2 <= length segments)%nat /\ names = param_names segments /\ NoDup names /\
  Exists is_static_segment segments /\ greedy_leftmost segments.
Proof.
  unfold validateHostParams.
  intros (_ & Hlen%throw_if_ok & ([hs out] & Hl & (_ & Hst%throw_if_ok & [= <-])%result_bind_ok)%result_bind_ok)%result_bind_ok.
  apply hostParamsLoop_sound in Hl as (-> & Hnd & Hs & Hg); [|constructor].
  apply negb_false_iff in Hst. apply Nat.ltb_ge in Hlen. split_and!; try done.
  by destruct (Hs Hst).
Qed.

Lemma validatePathParams_sound segments names base svc out :
  NoDup names -> validatePathParams segments names base svc = Ok out ->
  out = names ++ param_names segments /\ NoDup out /\
  (forall seg prefix name suffix g,
    seg ∈ segments -> parseSegment seg = SParam prefix name suffix g -> g = GNone).
Proof.
  revert names. induction segments as [|seg segs IH]; intros names Hnd; simpl.
  { intros [= <-]. rewrite app_nil_r. split_and!; [done|done|set_solver]. }
  unfold param_names. simpl. destruct (parseSegment seg) as [v|prefix name suffix g|r] eqn:Hp; [| |done].
  - intros (-> & Hout & Hg)%IH; [|done]. split_and!; [done|done|].
    intros seg' ? ? ? ? [->|Hin]%elem_of_cons; [congruence|eauto].
  - intros (_ & Hgr%throw_if_ok & (_ & Hdup%throw_if_ok & E)%result_bind_ok)%result_bind_ok.
    apply bool_decide_eq_false in Hdup. rewrite set_add_fresh in E by done.
    apply IH in E as (-> & Hout & Hg).
    2:{ apply NoDup_app. split_and!; [done|set_solver|]. apply NoDup_singleton. }
    rewrite <- app_assoc in *. split_and!; [done|done|].
    intros seg' ? ? ? ? [->|Hin]%elem_of_cons; [|eauto]. rewrite Hp. intros [= <- <- <- <-].
    by apply greedy_truthy_false.
Qed.

Lemma drop_scheme (scheme rest : jsstr) : drop (length scheme + 3) (scheme ++ js "://" ++ rest) = rest.
Proof.
  rewrite app_assoc. replace (length scheme + 3)%nat with (length (scheme ++ js "://")).
  - apply drop_app_length.
  - by rewrite length_app.
Qed.

Lemma split_host_path rest :
  let '(host, path) :=
    match index_of rest (js "/") with
    | None => (rest, [])
    | Some slashIdx => (take slashIdx rest, drop slashIdx rest)
    end in
  rest = host ++ path /\ 47 ∉ host /\ (path = [] \/ starts_with path (js "/") = true).
Proof.
  destruct (index_of rest (js "/")) as [i|] eqn:E.
  - apply index_of_char_Some in E as (a & b & -> & <- & Ha).
    rewrite take_app_length, drop_app_length. split_and!; [done|done|]. right. apply (starts_with_app (js "/") b).
  - apply index_of_char_None in E. rewrite app_nil_r. auto.
Qed.

Section Accepted.
Context `{Platform}.

Lemma authBase_static_target authBase v suf :
  authBaseForStaticUrlValidation authBase = {| target_url := Some v; dynamicPrefixSuffix := suf |} ->
  v = authBase \/ v = replace_refs REF_BOTH authBase.
Proof.
  unfold authBaseForStaticUrlValidation. repeat case_match; intros [=]; subst; auto.
Qed.

Lemma authBase_dynamic_target authBase suf :
  authBaseForStaticUrlValidation authBase = {| target_url := None; dynamicPrefixSuffix := suf |} ->
  exists ns name len, match_reference REF_BOTH authBase = Some (ns, name, len) /\
    suf = replace_refs REF_BOTH (drop len authBase).
Proof.
  unfold authBaseForStaticUrlValidation. repeat case_match; intros [=]; subst; eauto.
Qed.

(** What an accepted parameterised base URL looks like. It splits into an http or
    https scheme without parameters, an authority without userinfo and a path, with no query or fragment;
    the host has at least two labels, one of them static; a greedy parameter is a whole
    leftmost host label and never in the path; and the parameter names of host and
    path are distinct. *)
Theorem validateBaseUrlParams_sound (base svc : jsstr) :
  validateBaseUrlParams base svc = Ok tt ->
  exists scheme host path authority,
    base = scheme ++ js "://" ++ host ++ path /\
    toLowerCase scheme ∈ ALLOWED_BASE_URL_SCHEMES /\ LBRACE ∉ scheme /\
    63 ∉ base /\ 35 ∉ base /\ 64 ∉ host /\ 47 ∉ host /\ (path = [] \/ starts_with path (js "/") = true) /\
    splitParameterizedAuthority host base svc = Ok authority /\
    let hostSegments := splitAuthorityHostSegments (normalizedHost authority) in
    let pathSegments := splitPathSegments path in
    (2 <= length hostSegments)%nat /\ Exists is_static_segment hostSegments /\
    greedy_leftmost hostSegments /\
    (forall seg prefix name suffix g,
      seg ∈ pathSegments -> parseSegment seg = SParam prefix name suffix g -> g = GNone) /\
    NoDup (param_names hostSegments ++ param_names pathSegments).
Proof.
  unfold validateBaseUrlParams. destruct (index_of base (js "://")) as [k|] eqn:Hk; [|done].
  destruct (index_of_Some _ _ _ Hk) as [(scheme & rest & Hbase & Hlen) _].
  replace (take k base) with scheme by (subst; by rewrite take_app_length).
  replace (drop (k + 3) base) with rest by (subst; by rewrite drop_scheme).
  pose proof (split_host_path rest) as Hsplit.
  destruct (match index_of rest (js "/") with Some i => _ | None => _ end) as [host path].
  destruct Hsplit as (-> & Hslash & Hpath). intros E.
  apply result_bind_ok in E as (_ & Hbrace%throw_if_ok%includes_char_false & E).
  apply result_bind_ok in E as (_ & Hscheme%throw_if_ok & E). bool_facts.
  apply result_bind_ok in E as (_ & Hq%throw_if_ok%includes_char_false & E).
  apply result_bind_ok in E as (_ & Hf%throw_if_ok%includes_char_false & E).
  apply result_bind_ok in E as (_ & Hat%throw_if_ok%includes_char_false & E).
  apply result_bind_ok in E as (_ & _ & E).
  apply result_bind_ok in E as (authority & Hauth & E).
  do 3 (apply result_bind_ok in E as (_ & _ & E)).
  apply result_bind_ok in E as (names & (Hlen2 & -> & Hnd & Hst & Hgr)%validateHostParams_sound & E).
  exists scheme, host, path, authority. cbv zeta. repeat (split; [done|]).
  destruct (bool_decide (path = [])) eqn:Hp; simpl in E; bool_facts.
  { rewrite Hp. unfold param_names at 2. change (splitPathSegments []) with (@nil jsstr). simpl.
    rewrite app_nil_r. split; [set_solver|done]. }
  apply result_bind_ok in E as (out & Ho & _).
  by apply (validatePathParams_sound _ _ _ _ _ Hnd) in Ho as (-> & Hnd2 & Hg).
Qed.

(** What an accepted auth.base URL looks like. No backslash; the URL either starts
    with a secret or variable reference, and what follows is empty or a path or query
    without fragment, or its static form parses as an https URL without fragment,
    white space, unsupported templates or, when it has an authority, userinfo. *)
Theorem validateAuthBaseUrl_sound (authBase svc : jsstr) :
  validateAuthBaseUrl authBase svc = Ok tt ->
  92 ∉ authBase /\
  ((exists ns name len,
      match_reference REF_BOTH authBase = Some (ns, name, len) /\
      let suffix := replace_refs REF_BOTH (drop len authBase) in
      35 ∉ suffix /\ hasRawWhitespace suffix = false /\ includes suffix DOLLAR_BRACES = false /\
      (suffix = [] \/ starts_with suffix (js "/") = true \/ starts_with suffix (js "?") = true)) \/
   (exists validationUrl url,
      (validationUrl = authBase \/ validationUrl = replace_refs REF_BOTH authBase) /\
      new_URL validationUrl = Some url /\
      toLowerCase (drop_last (url_protocol url)) = js "https" /\ url_hash url = [] /\
      hasRawWhitespace validationUrl = false /\ includes validationUrl DOLLAR_BRACES = false /\
      (forall authority, rawAuthorityFromBaseUrl validationUrl = Some authority ->
         authority <> [] /\ 64 ∉ authority))).
Proof.
  unfold validateAuthBaseUrl. intros E.
  apply result_bind_ok in E as (? & Hbs%throw_if_ok%includes_char_false & E).
  apply result_bind_ok in E as (? & Hdyn & E). split; [done|].
  destruct (authBaseForStaticUrlValidation authBase) as [[v|] suf] eqn:Ht; cbn [target_url dynamicPrefixSuffix] in *.
  - right. apply authBase_static_target in Ht.
    apply result_bind_ok in E as (? & Hdollar%throw_if_ok & E).
    apply result_bind_ok in E as (? & Hws%throw_if_ok & E).
    do 2 (apply result_bind_ok in E as (_ & _ & E)).
    destruct (new_URL v) as [url|] eqn:Hurl; [|done].
    apply result_bind_ok in E as (_ & Hsch%throw_if_ok & E).
    apply result_bind_ok in E as (_ & Hhash%throw_if_ok & E).
    apply result_bind_ok in E as (? & Hau & _). bool_facts.
    exists v, url. repeat (split; [done|]). intros authority Hr. rewrite Hr in Hau.
    apply result_bind_ok in Hau as (_ & Hne%throw_if_ok & Hau).
    apply result_bind_ok in Hau as (_ & Hat%throw_if_ok%includes_char_false & _). bool_facts. done.
  - left. apply authBase_dynamic_target in Ht as (ns & name & len & Hm & Hsuf). subst suf.
    exists ns, name, len. split; [done|]. cbv zeta. set (suffix := replace_refs _ _) in *.
    unfold validateDynamicAuthBaseSuffix in Hdyn.
    apply result_bind_ok in Hdyn as (_ & Hdollar%throw_if_ok & Hdyn).
    apply result_bind_ok in Hdyn as (_ & Hws%throw_if_ok & Hdyn).
    apply result_bind_ok in Hdyn as (_ & _ & Hdyn).
    apply result_bind_ok in Hdyn as (_ & Hh%throw_if_ok%includes_char_false & Hdyn%throw_if_ok).
    repeat (split; [done|]). destruct (bool_decide (suffix = [])) eqn:Hs; bool_facts; [by left|].
    right. destruct (starts_with suffix (js "/")); [by left|]. right.
    by destruct (starts_with suffix (js "?")).
Qed.

End Accepted.

(** ** Canonical IPv4 addresses *)

Definition digit (c : Z) : bool := (48 <=? c) && (c <=? 57).

Definition digits : list Z := [48; 49; 50; 51; 52; 53; 54; 55; 56; 57].

Lemma elem_of_digits c : digit c = true -> c ∈ digits.
Proof.
  unfold digit. intros. bool_facts. replace c with (48 + Z.of_nat (Z.to_nat (c - 48))) by lia.
  assert (Z.to_nat (c - 48) < 10)%nat as Hlt by lia. revert Hlt. generalize (Z.to_nat (c - 48)). intros n Hn.
  do 10 (destruct n as [|n]; [set_solver|]). lia.
Qed.

Lemma all_digits s : all_chars isAsciiDigit s = true -> Forall (fun c => digit c = true) s.
Proof.
  unfold all_chars. induction s as [|c s IH]; [constructor|]. simpl. destruct s as [|d s].
  - simpl. rewrite andb_true_r. by constructor.
  - destruct (_ && _)%bool; [done|]. intros [Hc Hs]%andb_true_iff. constructor; [done|auto].
Qed.

Lemma decimal_value_ge s acc : Forall (fun c => digit c = true) s -> 0 <= acc -> acc <= decimal_value acc s.
Proof.
  intros Hs. revert acc. induction Hs as [|c s Hc _ IH]; intros acc Hacc; simpl; [lia|].
  unfold digit in Hc. bool_facts. etrans; [|apply IH; lia]. lia.
Qed.

(** A canonical part is a decimal text of an octet. *)
Lemma isCanonicalIpv4Part_short part : isCanonicalIpv4Part part = true -> (length part <= 3)%nat.
Proof.
  unfold isCanonicalIpv4Part. destruct (_ || _)%bool eqn:E; [done|]. bool_facts.
  apply all_digits in H0. destruct (_ && _)%bool eqn:Hz; [done|]. intros Hv. bool_facts.
  destruct part as [|a [|b [|c [|d part]]]]; simpl; try lia. exfalso.
  apply Forall_cons in H0 as [Ha H0]. apply Forall_cons in H0 as [Hb H0].
  apply Forall_cons in H0 as [Hc H0]. apply Forall_cons in H0 as [Hd H0].
  unfold digit in Ha, Hb, Hc, Hd. bool_facts.
  assert (a <> 48) by (intros ->; by vm_compute in Hz).
  cbn [decimal_value] in Hv. unfold IPV4_MAX_OCTET in Hv.
  eapply Z.le_trans in Hv; [|apply decimal_value_ge; [done|lia]]. lia.
Qed.

Definition octet_text (n : Z) : jsstr := js_of_nat (Z.to_nat n).

Definition part_ok (part : jsstr) : bool :=
  implb (isCanonicalIpv4Part part) (bool_decide (part = octet_text (decimal_value 0 part))).

Lemma short_parts_ok :
  forallb (fun a => part_ok [a] && forallb (fun b => part_ok [a; b] && forallb (fun c => part_ok [a; b; c])
    digits) digits) digits = true.
Proof. vm_compute. reflexivity. Qed.

Lemma short_part_ok part :
  Forall (fun c => digit c = true) part -> part <> [] -> (length part <= 3)%nat -> part_ok part = true.
Proof.
  intros Hd Hne Hlen. pose proof short_parts_ok as Hall. rewrite forallb_true in Hall.
  destruct part as [|a part]; [done|]. apply Forall_cons in Hd as [Ha%elem_of_digits Hd].
  apply Hall, andb_true_iff in Ha as [H1 H2]. rewrite forallb_true in H2.
  destruct part as [|b part]; [done|]. apply Forall_cons in Hd as [Hb%elem_of_digits Hd].
  apply H2, andb_true_iff in Hb as [H3 H4]. rewrite forallb_true in H4.
  destruct part as [|c part]; [done|]. apply Forall_cons in Hd as [Hc%elem_of_digits Hd].
  destruct part; [by apply H4|]. simpl in Hlen. lia.
Qed.

Lemma octets_canonical : forallb (fun n => isCanonicalIpv4Part (octet_text (Z.of_nat n))) (seq 0 256) = true.
Proof. vm_compute. reflexivity. Qed.

Lemma isCanonicalIpv4Part_spec part :
  isCanonicalIpv4Part part = true <-> exists n, 0 <= n <= 255 /\ part = octet_text n.
Proof.
  split.
  - intros Hp. pose proof (isCanonicalIpv4Part_short part Hp) as Hlen.
    exists (decimal_value 0 part). pose proof Hp as Hp'. unfold isCanonicalIpv4Part in Hp'.
    destruct (_ || _)%bool eqn:E; [done|]. destruct (_ && _)%bool; [done|]. bool_facts.
    apply all_digits in H0. pose proof (decimal_value_ge part 0 H0 ltac:(lia)).
    unfold IPV4_MAX_OCTET in Hp'. split; [lia|].
    pose proof (short_part_ok part H0 ltac:(by destruct part) Hlen) as Hok.
    unfold part_ok in Hok. rewrite Hp in Hok. by apply bool_decide_eq_true in Hok.
  - intros (n & Hn & ->). pose proof octets_canonical as Hall. rewrite forallb_true in Hall.
    specialize (Hall (Z.to_nat n)). rewrite Z2Nat.id in Hall by lia. apply Hall, elem_of_seq. lia.
Qed.

Lemma octet_text_no_dot n : 0 <= n <= 255 -> DOT ∉ octet_text n.
Proof.
  intros Hn Hin. assert (isCanonicalIpv4Part (octet_text n) = true) as Hp
    by (apply isCanonicalIpv4Part_spec; eauto).
  unfold isCanonicalIpv4Part in Hp. destruct (_ || _)%bool eqn:E; [done|]. bool_facts.
  apply all_digits in H0. rewrite Forall_forall in H0. by apply H0 in Hin.
Qed.

(** The canonical IPv4 addresses are exactly the dotted decimal texts of four octets:
    no octal or hexadecimal parts, no leading zeros, no short forms. *)
Theorem isCanonicalIpv4Address_spec (value : jsstr) :
  isCanonicalIpv4Address value = true <->
  exists a b c d,
    0 <= a <= 255 /\ 0 <= b <= 255 /\ 0 <= c <= 255 /\ 0 <= d <= 255 /\
    value = join (js ".") [octet_text a; octet_text b; octet_text c; octet_text d].
Proof.
  unfold isCanonicalIpv4Address. split.
  - destruct (length (split_on DOT value) =? 4)%nat eqn:Hlen; [|done]. apply Nat.eqb_eq in Hlen.
    intros Hall. rewrite <- (join_split DOT value).
    destruct (split_on DOT value) as [|a [|b [|c [|d [|]]]]]; try done. simpl in Hall. bool_facts.
    apply isCanonicalIpv4Part_spec in H as (a' & ? & ->), H0 as (b' & ? & ->), H1 as (c' & ? & ->),
      H2 as (d' & ? & ->).
    exists a', b', c', d'. done.
  - intros (a & b & c & d & Ha & Hb & Hc & Hd & ->).
    change (js ".") with [DOT]. rewrite split_join by
      (first [done | intros w; rewrite !elem_of_cons; intros Hw;
        destruct_or! Hw; subst; try (by apply octet_text_no_dot); set_solver]).
    simpl. rewrite !(proj2 (isCanonicalIpv4Part_spec _)); eauto.
Qed.

(** ** Fuel *)

(** The length of the host is enough fuel for the percent-encoding scan. *)
Lemma percentLoop_fuel `{Platform} n m s base svc :
  (length s <= n)%nat -> (length s <= m)%nat -> percentLoop n s base svc = percentLoop m s base svc.
Proof.
  revert m s. induction n as [|n IH]; intros m s Hn Hm.
  { destruct s; [|simpl in Hn; lia]. by destruct m. }
  destruct s as [|c s]; [by destruct m|]. destruct m as [|m]; [simpl in Hm; lia|].
  simpl in Hn, Hm. cbn [percentLoop]. destruct (negb (c =? 37)); [apply IH; lia|].
  destruct (percent_run (c :: s) =? 0)%nat eqn:E; [done|]. apply Nat.eqb_neq in E.
  destruct (decodeURIComponent _) as [decoded|]; [|done].
  destruct (for_each _ _) as [[]|]; [|done]. apply IH; rewrite length_drop; cbn [length]; lia.
Qed.

(** ** Witnesses *)

Definition sample_base : jsstr := js "https://{region}.example.com/v1/{project}/items".

Lemma validateBaseUrlParams_witness :
  exists scheme host path,
    sample_base = scheme ++ js "://" ++ host ++ path /\ 64 ∉ host /\ 63 ∉ sample_base.
Proof.
  destruct (@validateBaseUrlParams_sound ascii_platform sample_base (js "svc"))
    as (scheme & host & path & authority & E & _ & _ & Hq & _ & Hat & _);
    [vm_compute; reflexivity|].
  exists scheme, host, path. split; [exact E|]. split; [exact Hat|exact Hq].
Defined.

(** Duplicate names, a greedy label that is not leftmost and a fully dynamic host are rejected. *)
Example sample_base_rejects :
  is_ok (@validateBaseUrlParams ascii_platform (js "https://{a}.example.com/{a}") (js "s")) = false /\
  is_ok (@validateBaseUrlParams ascii_platform (js "https://api.{a+}.com/") (js "s")) = false /\
  is_ok (@validateBaseUrlParams ascii_platform (js "https://{a}.{b}/") (js "s")) = false /\
  is_ok (@validateBaseUrlParams ascii_platform (js "https://{a+}.example.com/") (js "s")) = true.
Proof. vm_compute. done. Qed.

Lemma validateAuthBaseUrl_witness :
  92 ∉ js "https://auth.example.com/token".
Proof.
  apply (@validateAuthBaseUrl_sound ascii_platform (js "https://auth.example.com/token") (js "svc")).
  vm_compute. reflexivity.
Defined.

Example sample_auth_bases :
  is_ok (@validateAuthBaseUrl ascii_platform (js "http://auth.example.com/token") (js "s")) = false /\
  is_ok (@validateAuthBaseUrl ascii_platform (js "${{ vars.HOST }}/token") (js "s")) = true /\
  is_ok (@validateAuthBaseUrl ascii_platform (js "${{ vars.HOST }}.evil.com") (js "s")) = false.
Proof. vm_compute. done. Qed.

End BaseUrl.
