(* ===== verification/RuleMatcher.v ===== *)
(** Matching of requests against firewall rules
    (turbo/packages/connectors/src/firewall-rule-matcher.ts): segment, host and
    path matchers, rule specificity, base URL matching and
    [findMatchingPermissions]. *)

From S2P Require Import Prelude JsString JsValue SegmentParser UrlUtils Templates BaseUrl.
Import SegmentParser UrlUtils Templates BaseUrl.

Module RuleMatcher.

(** ** Data *)

(** The seven components of [PathSpecificity], in order of significance. *)
Abbreviation PathSpecificity := (list Z).

Record ApiMatchState := {
  bestSpecificity : option PathSpecificity;
  matched : list jsstr;
}.

Record FirewallBaseUrlMatch := {
  displayBase : jsstr;
  relativePath : jsstr;
  score : Z;
}.

Definition VALID_RULE_METHODS : list jsstr :=
  [js "GET"; js "POST"; js "PUT"; js "PATCH"; js "DELETE"; js "HEAD"; js "OPTIONS"; js "ANY"].
Definition FORBIDDEN_RUNTIME_HOST_CHARS : jsstr := js "#%,/<>?@\^|{}".
Definition FORBIDDEN_BASE_PATTERN_HOST_CHARS : jsstr := js "#%,/<>?@\^|".
Definition PERCENT_DECODED_AUTHORITY_SYNTAX_CHARS : list jsstr :=
  [js "{"; js "}"; js "."; [0x3002]; [0xff0e]; [0xff61]; js ":"].

(** ** Segments *)

Definition matchMixedSegment (runtime prefix suffix : jsstr) : option jsstr :=
  if negb (starts_with runtime prefix) then None
  else if negb (ends_with runtime suffix) then None
  else if (length runtime <=? length prefix + length suffix)%nat then None
  else Some (slice runtime (length prefix) (length runtime - length suffix)).

(** [hasNonEmptySegment(segments, pi)] on the segments from [pi] on. *)
Definition hasNonEmptySegment (segments : list jsstr) : bool :=
  existsb (fun seg => negb (bool_decide (seg = []))) segments.

Definition codePointLength (value : jsstr) : Z := Z.of_nat (length (code_points value)).

Definition hasUnsafeRuntimeUrlSyntax (value : jsstr) : bool :=
  hasUnsafeUrlCodepoint value || hasRawWhitespace value || includes value (js "\") ||
  negb (includes value (js "://")).

Definition stripTrailingSlash (value : jsstr) : jsstr :=
  if ends_with value [SLASH] then drop_last value else value.

Definition isInvalidGreedyParam (patternIndex lastPatternIndex : nat) (prefix suffix : jsstr) : bool :=
  negb (patternIndex =? lastPatternIndex)%nat || negb (bool_decide (prefix = [])) ||
  negb (bool_decide (suffix = [])).

(** ** Specificity *)

Record SpecCounts := {
  literalSegments : Z;
  mixedParamSegments : Z;
  plainParamSegments : Z;
  plusGreedySegments : Z;
  starGreedySegments : Z;
  literalChars : Z;
}.

Definition count_literal (n : Z) (s : SpecCounts) : SpecCounts :=
  {| literalSegments := literalSegments s + 1; mixedParamSegments := mixedParamSegments s;
     plainParamSegments := plainParamSegments s; plusGreedySegments := plusGreedySegments s;
     starGreedySegments := starGreedySegments s; literalChars := literalChars s + n |}.

Definition count_param (prefix suffix : jsstr) (greedy : Greedy) (s : SpecCounts) : SpecCounts :=
  let n := codePointLength prefix + codePointLength suffix in
  let mixed := negb (bool_decide (prefix = [])) || negb (bool_decide (suffix = [])) in
  let one (b : bool) := if b then 1 else 0 in
  {| literalSegments := literalSegments s;
     mixedParamSegments := mixedParamSegments s + one mixed;
     plainParamSegments := plainParamSegments s + one (negb mixed && bool_decide (greedy = GNone));
     plusGreedySegments := plusGreedySegments s + one (negb mixed && bool_decide (greedy = GPlus));
     starGreedySegments := starGreedySegments s + one (negb mixed && bool_decide (greedy = GStar));
     literalChars := literalChars s + n |}.

(** The [for] loop of [pathSpecificity] from segment [index]. *)
Fixpoint specificityLoop (segments : list jsstr) (index lastSegmentIndex : nat)
    (paramNames : list jsstr) (counts : SpecCounts) : option SpecCounts :=
  match segments with
  | [] => Some counts
  | seg :: segments' =>
      match parseSegment seg with
      | SError _ => None
      | SLiteral value =>
          specificityLoop segments' (S index) lastSegmentIndex paramNames
            (count_literal (codePointLength value) counts)
      | SParam prefix name suffix greedy =>
          if bool_decide (name ∈ paramNames) then None
          else if greedy_truthy greedy && isInvalidGreedyParam index lastSegmentIndex prefix suffix
          then None
          else specificityLoop segments' (S index) lastSegmentIndex (set_add name paramNames)
                 (count_param prefix suffix greedy counts)
      end
  end.

Definition zero_counts : SpecCounts :=
  {| literalSegments := 0; mixedParamSegments := 0; plainParamSegments := 0;
     plusGreedySegments := 0; starGreedySegments := 0; literalChars := 0 |}.

Definition pathSpecificity (pattern : jsstr) : option PathSpecificity :=
  if negb (starts_with pattern [SLASH]) || includes pattern (js "?") || includes pattern (js "#") ||
     includes pattern (js "\") || hasRawWhitespace pattern || hasUnsafeUrlCodepoint pattern
  then None
  else
    let segments := splitPathSegments pattern in
    (fun c => [literalSegments c; mixedParamSegments c; plainParamSegments c; plusGreedySegments c;
               - starGreedySegments c; literalChars c; Z.of_nat (length segments)]) <$>
    specificityLoop segments 0 (length segments - 1) [] zero_counts.

(** The first non-zero difference. *)
Fixpoint comparePathSpecificity (left right : PathSpecificity) : Z :=
  match left, right with
  | l :: ls, r :: rs => if l - r =? 0 then comparePathSpecificity ls rs else l - r
  | _, _ => 0
  end.

Definition matchingRulePath (rule upperMethod : jsstr) : option jsstr :=
  match index_of rule (js " ") with
  | None => None
  | Some spaceIdx =>
      let ruleMethod := take spaceIdx rule in
      if negb (bool_decide (ruleMethod ∈ VALID_RULE_METHODS)) then None
      else if negb (bool_decide (ruleMethod = js "ANY")) && negb (bool_decide (ruleMethod = upperMethod))
      then None
      else Some (drop (spaceIdx + 1) rule)
  end.

Definition recordPermissionMatch (state : ApiMatchState) (permission : jsstr)
    (specificity : PathSpecificity) : ApiMatchState :=
  let state :=
    match bestSpecificity state with
    | None => {| bestSpecificity := Some specificity; matched := [] |}
    | Some best =>
        if 0 <? comparePathSpecificity specificity best
        then {| bestSpecificity := Some specificity; matched := [] |} else state
    end in
  match bestSpecificity state with
  | Some best =>
      if (comparePathSpecificity specificity best =? 0) && negb (bool_decide (permission ∈ matched state))
      then {| bestSpecificity := Some best; matched := matched state ++ [permission] |}
      else state
  | None => state
  end.

(** ** Path matching *)

Abbreviation Params := (gmap jsstr jsstr).

(** The loop of [matchFirewallPath] at pattern segment [patternIndex], with the
    path segments from [pi] on. *)
Fixpoint matchPathLoop (patternSegs : list jsstr) (patternIndex lastPatternIndex : nat)
    (pathSegs : list jsstr) (params : Params) : option Params :=
  match patternSegs with
  | [] => if bool_decide (pathSegs = []) then Some params else None
  | seg :: patternSegs' =>
      match parseSegment seg with
      | SError _ => None
      | SLiteral value =>
          match pathSegs with
          | runtime :: pathSegs' =>
              if negb (bool_decide (runtime = value)) then None
              else matchPathLoop patternSegs' (S patternIndex) lastPatternIndex pathSegs' params
          | [] => None
          end
      | SParam prefix name suffix GPlus =>
          if isInvalidGreedyParam patternIndex lastPatternIndex prefix suffix then None
          else if bool_decide (pathSegs = []) || negb (hasNonEmptySegment pathSegs) then None
          else Some (<[name := join [SLASH] pathSegs]> params)
      | SParam prefix name suffix GStar =>
          if isInvalidGreedyParam patternIndex lastPatternIndex prefix suffix then None
          else Some (<[name := join [SLASH] pathSegs]> params)
      | SParam prefix name suffix GNone =>
          match pathSegs with
          | [] => None
          | runtime :: pathSegs' =>
              captured ←
                (if bool_decide (prefix = []) && bool_decide (suffix = []) then
                   if bool_decide (runtime = []) then None else Some runtime
                 else matchMixedSegment runtime prefix suffix);
              matchPathLoop patternSegs' (S patternIndex) lastPatternIndex pathSegs'
                (<[name := captured]> params)
          end
      end
  end.

Definition matchFirewallPath (path pattern : jsstr) : option Params :=
  let pathSegs := splitPathSegments path in
  let patternSegs := splitPathSegments pattern in
  matchPathLoop patternSegs 0 (length patternSegs - 1) pathSegs ∅.

(** [relativePathFromSegments(segments, consumed)] on the segments left. *)
Definition relativePathFromSegments (rest : list jsstr) : jsstr :=
  let text := join [SLASH] rest in
  if bool_decide (text = []) then [SLASH] else SLASH :: text.

Fixpoint matchPathPrefixLoop (patternSegs : list jsstr) (patternIndex lastPatternIndex : nat)
    (pathSegs : list jsstr) : option jsstr :=
  match patternSegs with
  | [] => Some (relativePathFromSegments pathSegs)
  | seg :: patternSegs' =>
      match parseSegment seg with
      | SError _ => None
      | SLiteral value =>
          match pathSegs with
          | runtime :: pathSegs' =>
              if negb (bool_decide (runtime = value)) then None
              else matchPathPrefixLoop patternSegs' (S patternIndex) lastPatternIndex pathSegs'
          | [] => None
          end
      | SParam prefix _ suffix GPlus =>
          if isInvalidGreedyParam patternIndex lastPatternIndex prefix suffix then None
          else if bool_decide (pathSegs = []) || negb (hasNonEmptySegment pathSegs) then None
          else Some [SLASH]
      | SParam prefix _ suffix GStar =>
          if isInvalidGreedyParam patternIndex lastPatternIndex prefix suffix then None
          else Some [SLASH]
      | SParam prefix _ suffix GNone =>
          match pathSegs with
          | [] => None
          | runtime :: pathSegs' =>
              _ ← (if bool_decide (prefix = []) && bool_decide (suffix = []) then
                     if bool_decide (runtime = []) then None else Some runtime
                   else matchMixedSegment runtime prefix suffix);
              matchPathPrefixLoop patternSegs' (S patternIndex) lastPatternIndex pathSegs'
          end
      end
  end.

Definition matchFirewallPathPrefix (path pattern : jsstr) : option jsstr :=
  let pathSegs := splitPathSegments path in
  let patternSegs := splitPathSegments pattern in
  matchPathPrefixLoop patternSegs 0 (length patternSegs - 1) pathSegs.

(** ** URLs as text *)

Definition stripUrlQueryAndFragment (url : jsstr) : jsstr :=
  let end0 := length url in
  let end1 := match index_of url (js "?") with Some q => Nat.min end0 q | None => end0 end in
  let end2 := match index_of url (js "#") with Some f => Nat.min end1 f | None => end1 end in
  take end2 url.

Definition authority_start (urlWithoutQuery : jsstr) : nat :=
  match index_of urlWithoutQuery (js "://") with None => 0 | Some schemeEnd => schemeEnd + 3 end.

Definition rawPathFromUrl (url : jsstr) : jsstr :=
  let urlWithoutQuery := stripUrlQueryAndFragment url in
  match index_of_from urlWithoutQuery (js "/") (authority_start urlWithoutQuery) with
  | None => js "/"
  | Some pathStart => drop pathStart urlWithoutQuery
  end.

Definition rawBasePathFromUrl (url : jsstr) : jsstr :=
  let urlWithoutQuery := stripUrlQueryAndFragment url in
  match index_of_from urlWithoutQuery (js "/") (authority_start urlWithoutQuery) with
  | None => []
  | Some pathStart => drop pathStart urlWithoutQuery
  end.

Definition rawAuthorityFromUrl (url : jsstr) : option jsstr :=
  let urlWithoutQuery := stripUrlQueryAndFragment url in
  match index_of urlWithoutQuery (js "://") with
  | None => None
  | Some schemeEnd =>
      let authorityStart := (schemeEnd + 3)%nat in
      let authority :=
        match index_of_from urlWithoutQuery (js "/") authorityStart with
        | None => drop authorityStart urlWithoutQuery
        | Some pathStart => slice urlWithoutQuery authorityStart pathStart
        end in
      if bool_decide (authority = []) then None else Some authority
  end.

Definition hasNonAscii (value : jsstr) : bool := existsb (fun c => 0x7f <? c) value.

Definition rawAuthorityHostStartsWithDigit (authority : jsstr) : bool :=
  match rawHostFromAuthority authority with
  | firstChar :: _ => (48 <=? firstChar) && (firstChar <=? 57)
  | [] => false
  end.

Definition runtimeAuthorityOriginForHostValidation (url : jsstr) : option jsstr :=
  match rawAuthorityFromUrl url with
  | None => None
  | Some authority =>
      if negb (includes authority (js "%")) && negb (hasNonAscii authority) &&
         negb (rawAuthorityHostStartsWithDigit authority) then None
      else
        match index_of url (js "://") with
        | None => None
        | Some schemeEnd => Some (take schemeEnd url ++ js "://" ++ authority)
        end
  end.

(** The inner loop over a run of escapes: its length, or [None] when an escape
    is malformed. *)
Fixpoint authority_run (s : jsstr) : option nat :=
  match s with
  | p :: rest =>
      if p =? 37 then
        match rest with
        | h :: l :: rest' =>
            if isHexDigit [h] && isHexDigit [l] then (fun n => 3 + n)%nat <$> authority_run rest' else None
        | _ => None
        end
      else Some 0%nat
  | [] => Some 0%nat
  end.

(** The outer loop; every turn passes one run of at least three units. *)
Fixpoint percentSyntaxLoop (fuel : nat) (value : jsstr) : bool :=
  match fuel with
  | O => true
  | S fuel' =>
      match index_of value (js "%") with
      | None => false
      | Some index =>
          let from := drop index value in
          match authority_run from with
          | None => true
          | Some n =>
              match decodeURIComponent (take n from) with
              | None => true
              | Some decodedRun =>
                  if existsb (fun ch => bool_decide (ch ∈ PERCENT_DECODED_AUTHORITY_SYNTAX_CHARS))
                       (code_points decodedRun)
                  then true
                  else percentSyntaxLoop fuel' (drop n from)
              end
          end
      end
  end.

Definition hasPercentEncodedAuthoritySyntax (value : jsstr) : bool :=
  percentSyntaxLoop (S (length value)) value.

Definition hasMalformedRuntimeAuthoritySyntax (url : jsstr) : bool :=
  match rawAuthorityFromUrl url with
  | None => false
  | Some authority => includes authority (js "\") || hasPercentEncodedAuthoritySyntax authority
  end.

(** ** Base URL scores *)

Definition scoreLiteralSegment (segment : jsstr) : Z := 1000 + codePointLength segment.

Definition scorePatternSegment (segment : jsstr) (allowParams : bool) : Z :=
  if negb allowParams then scoreLiteralSegment segment
  else
    match parseSegment segment with
    | SError _ => 0
    | SLiteral value => scoreLiteralSegment value
    | SParam prefix _ suffix greedy =>
        if negb (bool_decide (prefix = [])) || negb (bool_decide (suffix = []))
        then 100 + (codePointLength prefix + codePointLength suffix)
        else match greedy with GPlus => 1 | GStar => 0 | GNone => 10 end
    end.

Definition scorePatternSegments (segments : list jsstr) (allowParams : bool) : Z :=
  foldl (fun score segment => score + scorePatternSegment segment allowParams) 0 segments.

Definition scorePathPattern (path : jsstr) (allowParams : bool) : Z :=
  if bool_decide (path = []) then 0
  else if bool_decide (path = [SLASH]) then 1
  else scorePatternSegments (splitPathSegments path) allowParams.

Definition splitAuthoritySegments (authority : jsstr) : list jsstr :=
  if starts_with authority (js "[") then [authority]
  else
    let normalized := strip_trailing_dot authority in
    if bool_decide (normalized = []) then [] else split_on DOT normalized.

Definition baseUrlSpecificityScore (rawBase : jsstr) (hasParams : bool) : Z :=
  let baseForMatch := stripTrailingSlash rawBase in
  let authorityScore :=
    scorePatternSegments (splitAuthoritySegments (default [] (rawAuthorityFromUrl baseForMatch))) hasParams in
  let pathScore := scorePathPattern (rawBasePathFromUrl baseForMatch) hasParams in
  pathScore * 1000000 + authorityScore * 100 + (if hasParams then 0 else 1).

Definition matchStaticBasePathPrefix (path pattern : jsstr) : option jsstr :=
  if bool_decide (pattern = []) then Some (if bool_decide (path = []) then [SLASH] else path)
  else if negb (starts_with path pattern) then None
  else
    let relativePath := drop (length pattern) path in
    if negb (bool_decide (relativePath = [])) && negb (starts_with relativePath [SLASH]) then None
    else Some (if bool_decide (relativePath = []) then [SLASH] else relativePath).

(** ** Configuration values *)

Definition isObjectRecord (value : JsVal) : option (list (jsstr * JsVal)) :=
  match value with JObject props => Some props | _ => None end.

Definition isStringRecord (value : JsVal) : bool :=
  match isObjectRecord value with
  | None => false
  | Some props => forallb (fun kv => bool_decide (is_Some (as_string kv.2))) props
  end.

(** [value !== undefined && Object.keys(value).length > 0]. *)
Definition hasEntries (value : JsVal) : bool :=
  match value with JObject (_ :: _) => true | _ => false end.

Definition isValidAwsSigv4AuthConfig (value : JsVal) : bool :=
  match isObjectRecord value with
  | None => false
  | Some props =>
      let nonEmptyString v := match v with JString s => negb (bool_decide (s = [])) | _ => false end in
      if existsb (fun kv => negb (bool_decide (kv.1 ∈
           [js "accessKeyId"; js "secretAccessKey"; js "sessionToken"]))) props then false
      else if negb (nonEmptyString (prop_of props (js "accessKeyId"))) then false
      else if negb (nonEmptyString (prop_of props (js "secretAccessKey"))) then false
      else
        let optionalValue := prop_of props (js "sessionToken") in
        is_undefined optionalValue || nonEmptyString optionalValue
  end.

Definition isValidPermissionName (permissionName : jsstr) : bool :=
  negb (bool_decide (permissionName = [])) && negb (bool_decide (permissionName = js "all")).

Definition getPermissionName (permission : JsVal) : option jsstr :=
  match isObjectRecord permission with
  | None => None
  | Some props =>
      match prop_of props (js "name") with
      | JString name => if isValidPermissionName name then Some name else None
      | _ => None
      end
  end.

Definition getPermissionRules (permission : JsVal) : list jsstr :=
  match isObjectRecord permission with
  | None => []
  | Some props =>
      match prop_of props (js "rules") with
      | JArray rules => omap as_string rules
      | _ => []
      end
  end.

Section WithPlatform.
Context `{Platform}.

(** ** Host matching *)

Fixpoint matchHostLoop (patternSegs : list jsstr) (patternIndex lastPatternIndex : nat)
    (hostSegsOrig : list jsstr) (params : Params) : option Params :=
  match patternSegs with
  | [] => if bool_decide (hostSegsOrig = []) then Some params else None
  | seg :: patternSegs' =>
      match parseSegment seg with
      | SError _ => None
      | SLiteral value =>
          match hostSegsOrig with
          | host :: hostSegsOrig' =>
              if negb (bool_decide (toLowerCase host = toLowerCase value)) then None
              else matchHostLoop patternSegs' (S patternIndex) lastPatternIndex hostSegsOrig' params
          | [] => None
          end
      | SParam prefix name suffix GPlus =>
          if isInvalidGreedyParam patternIndex lastPatternIndex prefix suffix then None
          else if bool_decide (hostSegsOrig = []) then None
          else Some (<[name := join [DOT] (reverse hostSegsOrig)]> params)
      | SParam prefix name suffix GStar =>
          if isInvalidGreedyParam patternIndex lastPatternIndex prefix suffix then None
          else Some (<[name := join [DOT] (reverse hostSegsOrig)]> params)
      | SParam prefix name suffix GNone =>
          match hostSegsOrig with
          | [] => None
          | host :: hostSegsOrig' =>
              captured ←
                (if bool_decide (prefix = []) && bool_decide (suffix = []) then Some (toLowerCase host)
                 else matchMixedSegment (toLowerCase host) (toLowerCase prefix) (toLowerCase suffix));
              matchHostLoop patternSegs' (S patternIndex) lastPatternIndex hostSegsOrig'
                (<[name := captured]> params)
          end
      end
  end.

(** Segments are compared from the right. *)
Definition matchFirewallHost (host pattern : jsstr) : option Params :=
  let patternSegs := reverse (split_on DOT pattern) in
  matchHostLoop patternSegs 0 (length patternSegs - 1) (reverse (split_on DOT host)) ∅.

(** ** Base URL matching *)

Definition normalizeUrlHostname (hostname : jsstr) (allowHostParams : bool) : option jsstr :=
  let lower := toLowerCase hostname in
  let normalized := strip_trailing_dot lower in
  if ends_with lower [DOT] && (bool_decide (normalized = []) || ends_with normalized [DOT]) then None
  else if existsb (fun label => bool_decide (label = [])) (split_on DOT normalized) then None
  else
    let forbiddenChars :=
      if allowHostParams then FORBIDDEN_BASE_PATTERN_HOST_CHARS else FORBIDDEN_RUNTIME_HOST_CHARS in
    if negb (starts_with normalized (js "[")) &&
       existsb (fun ch => match ch with [c] => bool_decide (c ∈ forbiddenChars) | _ => false end)
         (code_points normalized)
    then None else Some normalized.

Definition normalizedUrlAuthority (parsed : Url) (allowHostParams : bool) : option jsstr :=
  if negb (bool_decide (url_username parsed = [])) || negb (bool_decide (url_password parsed = []))
  then None
  else
    match normalizeUrlHostname (url_hostname parsed) allowHostParams with
    | None => None
    | Some hostname =>
        if bool_decide (hostname = []) then None
        else Some (if bool_decide (url_port parsed = []) then hostname
                   else hostname ++ js ":" ++ url_port parsed)
    end.

(** [new URL] throws out of the function; its caller returns null then. *)
Definition matchStaticFirewallBaseUrl (url rawBase : jsstr) : option FirewallBaseUrlMatch :=
  parsedUrl ← new_URL url;
  parsedBase ← new_URL rawBase;
  if negb (bool_decide (toLowerCase (url_protocol parsedUrl) = toLowerCase (url_protocol parsedBase)))
  then None
  else
    let baseHasParams := hasBaseUrlParams rawBase in
    let baseForMatch := stripTrailingSlash rawBase in
    urlAuthority ← normalizedUrlAuthority parsedUrl false;
    baseAuthority ← normalizedUrlAuthority parsedBase baseHasParams;
    _ ← (if baseHasParams then
           match matchFirewallHost urlAuthority baseAuthority with Some _ => Some tt | None => None end
         else if negb (bool_decide (urlAuthority = baseAuthority)) then None else Some tt);
    let basePath := rawBasePathFromUrl baseForMatch in
    relativePath ← (if baseHasParams then matchFirewallPathPrefix (rawPathFromUrl url) basePath
                    else matchStaticBasePathPrefix (rawPathFromUrl url) basePath);
    Some {| displayBase := stripTrailingSlash rawBase;
            relativePath := relativePath;
            score := baseUrlSpecificityScore rawBase baseHasParams |}.

Definition matchFirewallBaseUrl (url rawBase : jsstr) : option FirewallBaseUrlMatch :=
  if hasUnsafeRuntimeUrlSyntax url || hasMalformedRuntimeAuthoritySyntax url then None
  else
    let attempt :=
      _ ← match runtimeAuthorityOriginForHostValidation url with
          | Some origin => validateBaseUrl origin (js "runtime")
          | None => Ok tt
          end;
      validateBaseUrl rawBase (js "firewall") in
    match attempt with
    | Ok _ => matchStaticFirewallBaseUrl url rawBase
    | Throw _ => None
    end.

(** ** Permissions *)

Definition isValidAuthConfig (auth : JsVal) (serviceName : jsstr) : result bool :=
  match isObjectRecord auth with
  | None => Ok false
  | Some props =>
      let headers := prop_of props (js "headers") in
      let query := prop_of props (js "query") in
      let awsSigv4 := prop_of props (js "awsSigv4") in
      let base := prop_of props (js "base") in
      if negb (is_undefined headers) && negb (isStringRecord headers) then Ok false
      else if negb (is_undefined query) && negb (isStringRecord query) then Ok false
      else if negb (is_undefined awsSigv4) && negb (isValidAwsSigv4AuthConfig awsSigv4) then Ok false
      else if negb (is_undefined awsSigv4) && (hasEntries headers || hasEntries query) then Ok false
      else if negb (is_undefined base) then
        match base with
        | JString b => _ ← validateAuthBaseUrl b serviceName; Ok true
        | _ => Ok false
        end
      else Ok true
  end.

Definition isValidApiEntry (api : JsVal) (serviceName : jsstr) : bool :=
  match isObjectRecord api with
  | None => false
  | Some props =>
      match prop_of props (js "base") with
      | JString base =>
          match (_ ← validateBaseUrl base serviceName;
                 isValidAuthConfig (prop_of props (js "auth")) serviceName) with
          | Ok b => b
          | Throw _ => false
          end
      | _ => false
      end
  end.

Definition getApiPermissionsForMatch (api : JsVal) (serviceName : jsstr) (apiBase : option jsstr) :
    option (list JsVal) :=
  if negb (isValidApiEntry api serviceName) then None
  else
    match isObjectRecord api with
    | None => None
    | Some props =>
        let base := default [] (as_string (prop_of props (js "base"))) in
        if match apiBase with Some b => negb (bool_decide (stripTrailingSlash base = b)) | None => false end
        then None
        else match prop_of props (js "permissions") with JArray l => Some l | _ => None end
    end.

(** One rule of a permission against the request. *)
Definition matchRule (upperMethod path permissionName rule : jsstr) (state : ApiMatchState) : ApiMatchState :=
  match matchingRulePath rule upperMethod with
  | None => state
  | Some rest =>
      match matchFirewallPath path rest with
      | None => state
      | Some _ =>
          match pathSpecificity rest with
          | None => state
          | Some specificity => recordPermissionMatch state permissionName specificity
          end
      end
  end.

Fixpoint permissionsLoop (upperMethod path : jsstr) (permissions : list JsVal)
    (seenPermissionNames : list jsstr) (state : ApiMatchState) : ApiMatchState :=
  match permissions with
  | [] => state
  | rawPermission :: permissions' =>
      match getPermissionName rawPermission with
      | None => permissionsLoop upperMethod path permissions' seenPermissionNames state
      | Some permissionName =>
          if bool_decide (permissionName ∈ seenPermissionNames)
          then permissionsLoop upperMethod path permissions' seenPermissionNames state
          else
            permissionsLoop upperMethod path permissions' (set_add permissionName seenPermissionNames)
              (foldl (fun st rule => matchRule upperMethod path permissionName rule st) state
                 (getPermissionRules rawPermission))
      end
  end.

Definition initial_state : ApiMatchState := {| bestSpecificity := None; matched := [] |}.

Definition findMatchingPermissions (method path : jsstr) (config : JsVal) (optApiBase : option jsstr) :
    list jsstr :=
  match isObjectRecord config with
  | None => []
  | Some props =>
      match prop_of props (js "name"), prop_of props (js "apis") with
      | JString name, JArray apis =>
          if bool_decide (name = []) then []
          else
            let upperMethod := toUpperCase method in
            let apiBase := stripTrailingSlash <$> optApiBase in
            foldl (fun acc api =>
              match getApiPermissionsForMatch api name apiBase with
              | None => acc
              | Some permissions =>
                  set_add_all (matched (permissionsLoop upperMethod path permissions [] initial_state)) acc
              end) [] apis
      | _, _ => []
      end
  end.

End WithPlatform.

(** ** Specification of path patterns *)

(** One pattern segment per rule; a parameter captures the non-empty text between
    its literal prefix and suffix, a greedy one the rest of the path. *)
Inductive path_matches : list jsstr -> list jsstr -> Params -> Params -> Prop :=
| pm_end ps : path_matches [] [] ps ps
| pm_literal seg pats segs ps ps' :
    brace_free seg -> path_matches pats segs ps ps' -> path_matches (seg :: pats) (seg :: segs) ps ps'
| pm_param prefix name suffix pats captured segs ps ps' :
    param_wf prefix name suffix GNone -> captured <> [] ->
    path_matches pats segs (<[name := captured]> ps) ps' ->
    path_matches (render_param prefix name suffix GNone :: pats)
                 ((prefix ++ captured ++ suffix) :: segs) ps ps'
| pm_plus name segs ps :
    param_wf [] name [] GPlus -> (exists seg, seg ∈ segs /\ seg <> []) ->
    path_matches [render_param [] name [] GPlus] segs ps (<[name := join [SLASH] segs]> ps)
| pm_star name segs ps :
    param_wf [] name [] GStar ->
    path_matches [render_param [] name [] GStar] segs ps (<[name := join [SLASH] segs]> ps).

(** ** Lemmas: segments *)

Lemma matchMixedSegment_iff runtime prefix suffix captured :
  matchMixedSegment runtime prefix suffix = Some captured <->
  runtime = prefix ++ captured ++ suffix /\ captured <> [].
Proof.
  unfold matchMixedSegment. split.
  - case_match eqn:E1; [done|]. case_match eqn:E2; [done|]. case_match eqn:E3; [done|].
    apply negb_false_iff, starts_with_spec in E1 as (r & ->).
    apply negb_false_iff, ends_with_spec in E2 as (l & Hl).
    apply Nat.leb_gt in E3. rewrite length_app in E3.
    intros [= <-].
    assert (exists m, r = m ++ suffix) as (m & ->).
    { exists (take (length r - length suffix) r).
      assert (drop (length l) (prefix ++ r) = suffix) as Hd by (by rewrite Hl, drop_app_length).
      assert (length prefix + length r = length l + length suffix)%nat as Hlen
        by (apply (f_equal length) in Hl; by rewrite !length_app in Hl).
      rewrite drop_app_ge in Hd by lia.
      replace (length l - length prefix)%nat with (length r - length suffix)%nat in Hd by lia.
      by rewrite <- Hd at 2; rewrite take_drop. }
    rewrite !length_app in *.
    replace (length prefix + (length m + length suffix) - length suffix)%nat
      with (length prefix + length m)%nat by lia.
    rewrite slice_app_mid. split; [done|]. intros ->. simpl in E3. lia.
  - intros [-> Hne]. rewrite starts_with_app, app_assoc.
    rewrite (proj2 (ends_with_spec _ suffix)) by eauto. simpl.
    rewrite <- app_assoc, !length_app.
    assert (0 < length captured)%nat by (destruct captured; simpl; [done|lia]).
    rewrite (proj2 (Nat.leb_gt _ _)) by lia. f_equal.
    replace (length prefix + (length captured + length suffix) - length suffix)%nat
      with (length prefix + length captured)%nat by lia.
    apply slice_app_mid.
Qed.

(** The capture of a non-greedy parameter, plain or mixed. *)
Lemma capture_iff runtime prefix suffix captured :
  (if bool_decide (prefix = []) && bool_decide (suffix = []) then
     if bool_decide (runtime = []) then None else Some runtime
   else matchMixedSegment runtime prefix suffix) = Some captured <->
  runtime = prefix ++ captured ++ suffix /\ captured <> [].
Proof.
  destruct (bool_decide (prefix = [])) eqn:E1, (bool_decide (suffix = [])) eqn:E2; simpl;
    [|apply matchMixedSegment_iff..].
  bool_facts. subst. simpl. rewrite app_nil_r. case_bool_decide; naive_solver.
Qed.

Lemma hasNonEmptySegment_iff segs : hasNonEmptySegment segs = true <-> exists seg, seg ∈ segs /\ seg <> [].
Proof.
  unfold hasNonEmptySegment. rewrite existsb_true.
  setoid_rewrite negb_true_iff. by setoid_rewrite bool_decide_eq_false.
Qed.

Lemma isInvalidGreedyParam_false i n prefix suffix :
  isInvalidGreedyParam i n prefix suffix = false <-> i = n /\ prefix = [] /\ suffix = [].
Proof.
  unfold isInvalidGreedyParam.
  rewrite !orb_false_iff, !negb_false_iff, Nat.eqb_eq, !bool_decide_eq_true. tauto.
Qed.

(** ** Lemmas: paths *)

Lemma parse_render prefix name suffix g :
  param_wf prefix name suffix g ->
  parseSegment (render_param prefix name suffix g) = SParam prefix name suffix g.
Proof. intros Hw. by apply parseSegment_param_iff. Qed.

Lemma matchPathLoop_complete pats segs ps ps' :
  path_matches pats segs ps ps' ->
  forall i, matchPathLoop pats i (i + length pats - 1) segs ps = Some ps'.
Proof.
  induction 1 as [ps|seg pats segs ps ps' Hb _ IH|prefix name suffix pats captured segs ps ps' Hw Hc _ IH
                 |name segs ps Hw Hne|name segs ps Hw]; intros i; cbn [matchPathLoop].
  - done.
  - rewrite (brace_free_literal seg Hb), bool_decide_eq_true_2 by done. cbn [negb length].
    rewrite <- (IH (S i)). f_equal. lia.
  - rewrite parse_render by done. rewrite (proj2 (capture_iff _ _ _ captured)) by done.
    cbn [mbind option_bind length]. rewrite <- (IH (S i)). f_equal. lia.
  - rewrite parse_render by done. simpl length.
    rewrite (proj2 (isInvalidGreedyParam_false _ _ _ _)) by (split_and!; done || lia).
    rewrite (proj2 (hasNonEmptySegment_iff segs)) by done. rewrite bool_decide_eq_false_2; [done|].
    intros ->. by destruct Hne as (? & ?%not_elem_of_nil & _).
  - rewrite parse_render by done. simpl length.
    by rewrite (proj2 (isInvalidGreedyParam_false _ _ _ _)) by (split_and!; done || lia).
Qed.

Lemma matchPathLoop_sound pats i segs ps ps' :
  matchPathLoop pats i (i + length pats - 1) segs ps = Some ps' -> path_matches pats segs ps ps'.
Proof.
  revert i segs ps; induction pats as [|seg pats IH]; intros i segs ps; cbn [matchPathLoop length].
  { case_bool_decide as Hs; [|done]. subst. intros [= <-]. constructor. }
  replace (i + S (length pats) - 1)%nat with (S i + length pats - 1)%nat by lia.
  destruct (parseSegment seg) as [v|prefix name suffix g|r] eqn:E; [|apply parseSegment_param_iff in E as [-> Hw]|done].
  - apply parseSegment_literal in E as [-> Hb]. destruct segs as [|s segs]; [done|].
    case_bool_decide; [|done]. subst. intros Hm%IH. by constructor.
  - destruct g.
    + destruct segs as [|s segs]; [done|]. intros (c & Hc & Hm)%bind_Some.
      apply capture_iff in Hc as [-> Hc]. apply IH in Hm. by econstructor.
    + case_match eqn:Eg; [done|]. apply isInvalidGreedyParam_false in Eg as (Hi & -> & ->).
      assert (pats = []) as -> by (destruct pats; simpl in Hi; [done|lia]).
      destruct (bool_decide (segs = [])); [done|]. destruct (hasNonEmptySegment segs) eqn:En; [|done].
      simpl. intros [= <-]. constructor; [done|by apply hasNonEmptySegment_iff].
    + case_match eqn:Eg; [done|]. apply isInvalidGreedyParam_false in Eg as (Hi & -> & ->).
      assert (pats = []) as -> by (destruct pats; simpl in Hi; [done|lia]).
      intros [= <-]. by constructor.
Qed.

Lemma matchFirewallPath_iff path pattern ps :
  matchFirewallPath path pattern = Some ps <->
  path_matches (splitPathSegments pattern) (splitPathSegments path) ∅ ps.
Proof.
  unfold matchFirewallPath. split.
  - intros Hm. by apply (matchPathLoop_sound _ 0) in Hm.
  - intros Hm. by apply (matchPathLoop_complete _ _ _ _ Hm 0).
Qed.

(** C5: [matchFirewallPath] implements the documented pattern language: it returns
    parameters [ps] exactly when the path's segments match the pattern's segments
    one by one, literals exactly, [{name}] and [prefix{name}suffix] with a
    non-empty capture, and a trailing [{name+}] or [{name*}] the rest of the
    path; the captured values are those of [ps]. *)
Theorem matchFirewallPath_spec path pattern ps :
  matchFirewallPath path pattern = Some ps <->
  path_matches (splitPathSegments pattern) (splitPathSegments path) ∅ ps.
Proof. apply matchFirewallPath_iff. Qed.

(** A mixed segment matches exactly the runtime segments that are the literal
    prefix, a non-empty capture and the literal suffix, and returns that capture. *)
Theorem matchMixedSegment_spec runtime prefix suffix captured :
  matchMixedSegment runtime prefix suffix = Some captured <->
  runtime = prefix ++ captured ++ suffix /\ captured <> [].
Proof. apply matchMixedSegment_iff. Qed.

(** ** Lemmas: base path prefixes *)

(** A pattern none of whose segments is a greedy parameter. *)
Definition no_greedy (pats : list jsstr) : Prop :=
  forall seg prefix name suffix g, seg ∈ pats -> parseSegment seg = SParam prefix name suffix g -> g = GNone.

Lemma matchPathPrefixLoop_iff pats i n segs rel :
  no_greedy pats ->
  matchPathPrefixLoop pats i n segs = Some rel <->
  exists pre rest, segs = pre ++ rest /\ (exists ps', path_matches pats pre ∅ ps') /\
                   rel = relativePathFromSegments rest.
Proof.
  intros Hg. cut (forall ps : Params, matchPathPrefixLoop pats i n segs = Some rel <->
    exists pre rest, segs = pre ++ rest /\ (exists ps', path_matches pats pre ps ps') /\
                     rel = relativePathFromSegments rest); [done|].
  revert i segs; induction pats as [|seg pats IH]; intros i segs ps; cbn [matchPathPrefixLoop].
  { split.
    - intros [= <-]. exists [], segs. split_and!; [done| |done]. eexists. constructor.
    - intros (pre & rest & -> & (ps' & Hm) & ->). by inversion Hm. }
  assert (no_greedy pats) as Hg' by (intros s p m u g Hs; apply (Hg s p m u g); by right).
  specialize (IH Hg').
  destruct (parseSegment seg) as [v|prefix name suffix g|r] eqn:E.
  - apply parseSegment_literal in E as [-> Hb]. split.
    + destruct segs as [|s segs]; [done|]. case_bool_decide; [|done]. subst.
      intros (pre & rest & -> & (ps' & Hm) & ->)%(IH _ _ ps).
      exists (seg :: pre), rest. split_and!; [done| |done]. exists ps'. by constructor.
    + intros (pre & rest & -> & (ps' & Hm) & ->).
      inversion Hm as [|seg' pats' segs' ps0 ps0' Hb' Hm'|prefix name suffix ? c ? ? ? Hw|name ? ? Hw|name ? ? Hw];
        subst; try (apply parse_render in Hw; rewrite brace_free_literal in Hw by done; done).
      simpl. rewrite bool_decide_eq_true_2 by done. apply (IH _ _ ps). exists segs', rest. eauto.
  - pose proof (Hg seg _ _ _ _ ltac:(by left) E) as ->. split.
    + destruct segs as [|s segs]; [done|]. intros (c & Hc & Hr)%bind_Some.
      apply parseSegment_param_iff in E as [-> Hw]. apply capture_iff in Hc as [-> Hc].
      apply (IH _ _ (<[name := c]> ps)) in Hr as (pre & rest & -> & (ps' & Hm) & ->).
      exists ((prefix ++ c ++ suffix) :: pre), rest. split_and!; [done| |done]. exists ps'. by constructor.
    + intros (pre & rest & -> & (ps' & Hm) & ->).
      inversion Hm as [|seg' pats' segs' ps0 ps0' Hb' Hm'|pf nm sf ? c ? ? ? Hw Hc Hm'|nm ? ? Hw|nm ? ? Hw]; subst.
      * by rewrite brace_free_literal in E.
      * rewrite (parse_render _ _ _ _ Hw) in E. injection E as -> -> ->. simpl.
        rewrite (proj2 (capture_iff _ _ _ c)) by done. simpl. apply (IH _ _ (<[name := c]> ps)). eauto 10.
      * by rewrite (parse_render _ _ _ _ Hw) in E.
      * by rewrite (parse_render _ _ _ _ Hw) in E.
  - split; [done|]. intros (pre & rest & -> & (ps' & Hm) & ->).
    inversion Hm as [|seg' pats' segs' ps0 ps0' Hb' Hm'|pf nm sf ? c ? ? ? Hw Hc Hm'|nm ? ? Hw|nm ? ? Hw]; subst;
      [by rewrite brace_free_literal in E|by rewrite (parse_render _ _ _ _ Hw) in E..].
Qed.

(** For a base path without greedy parameters, which is what base URL
    validation admits, [matchFirewallPathPrefix] returns [rel] exactly when some
    leading segments of the path match the whole base pattern and [rel] is the
    remaining path; a base never matches in the middle of a segment. *)
Theorem matchFirewallPathPrefix_spec path pattern rel :
  no_greedy (splitPathSegments pattern) ->
  matchFirewallPathPrefix path pattern = Some rel <->
  exists pre rest,
    splitPathSegments path = pre ++ rest /\
    (exists ps, path_matches (splitPathSegments pattern) pre ∅ ps) /\
    rel = relativePathFromSegments rest.
Proof. apply matchPathPrefixLoop_iff. Qed.

Lemma matchFirewallPathPrefix_witness :
  no_greedy (splitPathSegments (js "/v1/{org}")) /\
  exists pre rest,
    splitPathSegments (js "/v1/acme/repos") = pre ++ rest /\
    (exists ps, path_matches (splitPathSegments (js "/v1/{org}")) pre ∅ ps) /\
    js "/repos" = relativePathFromSegments rest.
Proof.
  assert (no_greedy (splitPathSegments (js "/v1/{org}"))) as Hg.
  { intros seg prefix name suffix g Hs.
    change (seg ∈ [js "v1"; js "{org}"]) in Hs. rewrite !elem_of_cons in Hs.
    destruct Hs as [->|[->|Hs]]; [|by intros [= _ _ _ <-]|by apply not_elem_of_nil in Hs].
    by intros [=]. }
  split; [exact Hg|].
  apply (proj1 (matchFirewallPathPrefix_spec (js "/v1/acme/repos") (js "/v1/{org}") (js "/repos") Hg)).
  reflexivity.
Defined.

(** A static base path matches a request path exactly when the path is the base
    path, or continues it with a [/]: a longer last segment does not match, and
    the relative path returned is the rest of the path. *)
Theorem matchStaticBasePathPrefix_spec path pattern rel :
  pattern <> [] ->
  matchStaticBasePathPrefix path pattern = Some rel <->
  (path = pattern /\ rel = [SLASH]) \/
  (exists rest, path = pattern ++ SLASH :: rest /\ rel = SLASH :: rest).
Proof.
  intros Hne. unfold matchStaticBasePathPrefix. rewrite bool_decide_eq_false_2 by done. split.
  - case_match eqn:E; [done|]. apply negb_false_iff, starts_with_spec in E as (r & ->).
    rewrite drop_app_length. destruct r as [|c r]; [rewrite app_nil_r; naive_solver|].
    rewrite bool_decide_eq_false_2 by done. simpl. rewrite andb_true_r.
    destruct (Z.eqb_spec c SLASH) as [->|]; [|done]. intros [= <-]. right. eauto.
  - intros [[-> ->]|(rest & -> & ->)].
    + pose proof (starts_with_app pattern []) as Hs. rewrite app_nil_r in Hs. rewrite Hs.
      by rewrite drop_ge by lia.
    + by rewrite starts_with_app, drop_app_length.
Qed.

Lemma matchStaticBasePathPrefix_witness :
  js "/v1" <> [] /\
  (matchStaticBasePathPrefix (js "/v10") (js "/v1") = Some (js "/0") <->
   (js "/v10" = js "/v1" /\ js "/0" = [SLASH]) \/
   (exists rest, js "/v10" = js "/v1" ++ SLASH :: rest /\ js "/0" = SLASH :: rest)).
Proof. split; [discriminate|]. apply matchStaticBasePathPrefix_spec. discriminate. Defined.

(** ** Lemmas: fuel of the authority scan *)

Lemma authority_run_head s n : authority_run (37 :: s) = Some n -> (3 <= n)%nat.
Proof.
  cbn [authority_run]. rewrite Z.eqb_refl. destruct s as [|h [|l s]]; try done.
  destruct (_ && _)%bool; [|done]. destruct (authority_run s); [|done]. intros [= <-]. lia.
Qed.

(** One more than the length of the text is enough fuel. *)
Lemma percentSyntaxLoop_fuel n m s :
  (length s < n)%nat -> (length s < m)%nat -> percentSyntaxLoop n s = percentSyntaxLoop m s.
Proof.
  revert m s. induction n as [|n IH]; intros m s Hn Hm; [lia|]. destruct m as [|m]; [lia|].
  cbn [percentSyntaxLoop]. destruct (index_of s (js "%")) as [k|] eqn:E; [|done].
  apply index_of_char_Some in E as (a & b & -> & <- & _). rewrite drop_app_length.
  rewrite length_app in Hn, Hm. cbn [length] in Hn, Hm.
  destruct (authority_run _) as [r|] eqn:Er; [|done]. apply authority_run_head in Er.
  destruct (decodeURIComponent _) as [d|]; [|done]. destruct (existsb _ _); [done|].
  apply IH; rewrite length_drop; cbn [length]; lia.
Qed.

(** ** Lemmas: the order of specificities *)

Lemma compare_refl a : comparePathSpecificity a a = 0.
Proof. induction a as [|x a IH]; simpl; [done|]. rewrite Z.sub_diag. done. Qed.

Lemma compare_antisym a b : comparePathSpecificity a b = - comparePathSpecificity b a.
Proof.
  revert b; induction a as [|x a IH]; intros [|y b]; simpl; try done.
  destruct (Z.eqb_spec (x - y) 0), (Z.eqb_spec (y - x) 0); try lia. apply IH.
Qed.

Lemma compare_zero a b : length a = length b -> comparePathSpecificity a b = 0 -> a = b.
Proof.
  revert b; induction a as [|x a IH]; intros [|y b]; simpl; try done.
  intros [= Hl]. destruct (Z.eqb_spec (x - y) 0); [|lia]. intros Hc. f_equal; [lia|]. by apply IH.
Qed.

Lemma compare_trans a b c :
  length a = length b -> length b = length c ->
  0 <= comparePathSpecificity a b -> 0 <= comparePathSpecificity b c ->
  0 <= comparePathSpecificity a c.
Proof.
  revert b c; induction a as [|x a IH]; intros [|y b] [|z c]; simpl; try done.
  intros [= H1] [= H2].
  destruct (Z.eqb_spec (x - y) 0), (Z.eqb_spec (y - z) 0), (Z.eqb_spec (x - z) 0); try lia.
  by apply IH.
Qed.

Lemma pathSpecificity_length pattern sp : pathSpecificity pattern = Some sp -> length sp = 7%nat.
Proof. unfold pathSpecificity. case_match; [done|]. by intros (c & _ & ->)%fmap_Some. Qed.

(** On the specificities the matcher computes, [comparePathSpecificity] is a
    total order: it is zero only on equal specificities, changes sign when its
    arguments are swapped, and is transitive, so "most specific" is well defined. *)
Theorem comparePathSpecificity_order p1 p2 p3 a b c :
  pathSpecificity p1 = Some a -> pathSpecificity p2 = Some b -> pathSpecificity p3 = Some c ->
  (comparePathSpecificity a b = 0 <-> a = b) /\
  comparePathSpecificity a b = - comparePathSpecificity b a /\
  (0 <= comparePathSpecificity a b -> 0 <= comparePathSpecificity b c -> 0 <= comparePathSpecificity a c).
Proof.
  intros Ha%pathSpecificity_length Hb%pathSpecificity_length Hc%pathSpecificity_length.
  split; [|split].
  - split; [apply compare_zero; congruence|intros ->; apply compare_refl].
  - apply compare_antisym.
  - apply compare_trans; congruence.
Qed.

Lemma comparePathSpecificity_order_witness :
  exists a b c, pathSpecificity (js "/a/{b}") = Some a /\ pathSpecificity (js "/{b+}") = Some b /\
    pathSpecificity (js "/{c*}") = Some c /\ 0 <= comparePathSpecificity a c.
Proof.
  do 3 eexists. split; [vm_compute; reflexivity|]. split; [vm_compute; reflexivity|].
  split; [vm_compute; reflexivity|].
  eapply (comparePathSpecificity_order (js "/a/{b}") (js "/{b+}") (js "/{c*}"));
    try (vm_compute; reflexivity); vm_compute; discriminate.
Defined.

(** ** Lemmas: the most specific permissions *)

(** The state after recording the candidates [l]: the best specificity is one of
    them and none exceeds it, and the names are those of its candidates. *)
Definition state_ok (l : list (jsstr * PathSpecificity)) (st : ApiMatchState) : Prop :=
  NoDup (matched st) /\
  match bestSpecificity st with
  | None => l = [] /\ matched st = []
  | Some b =>
      length b = 7%nat /\ (exists p, (p, b) ∈ l) /\
      (forall q s, (q, s) ∈ l -> comparePathSpecificity s b <= 0) /\
      (forall p, p ∈ matched st <-> (p, b) ∈ l)
  end.

Lemma state_ok_record l st p s :
  Forall (fun c => length c.2 = 7%nat) l -> length s = 7%nat ->
  state_ok l st -> state_ok (l ++ [(p, s)]) (recordPermissionMatch st p s).
Proof.
  intros Hl Hs [Hnd Hst]. unfold recordPermissionMatch.
  destruct (bestSpecificity st) as [b|] eqn:Eb.
  - destruct Hst as (Hb & (p0 & Hp0) & Hmax & Hmem).
    destruct (Z.ltb_spec 0 (comparePathSpecificity s b)) as [Hgt|Hle]; cbn [bestSpecificity matched].
    + rewrite compare_refl. simpl.
      split; [apply NoDup_singleton|]. simpl. split_and!; [done|exists p; set_solver| |].
      * intros q t Hq. apply elem_of_app in Hq as [Hq|Hq].
        -- pose proof (Hmax q t Hq) as Hqb. pose proof (compare_antisym t b).
           rewrite Forall_forall in Hl. specialize (Hl _ Hq). simpl in Hl.
           pose proof (compare_trans s b t). pose proof (compare_antisym s t). lia.
        -- apply list_elem_of_singleton in Hq as [= -> ->]. rewrite compare_refl. lia.
      * intros q. rewrite list_elem_of_singleton. split; [intros ->; set_solver|].
        intros Hq. apply elem_of_app in Hq as [Hq|Hq]; [specialize (Hmax q s Hq); lia|].
        by apply list_elem_of_singleton in Hq as [= ->].
    + rewrite Eb. destruct (Z.eqb_spec (comparePathSpecificity s b) 0) as [Hz|Hnz]; cbn [andb].
      * apply compare_zero in Hz; [subst s|congruence].
        assert (forall q t, (q, t) ∈ l ++ [(p, b)] -> comparePathSpecificity t b <= 0) as Hmax'.
        { intros q t Hq. apply elem_of_app in Hq as [Hq|Hq]; [eauto|].
          apply list_elem_of_singleton in Hq as [= -> ->]. rewrite compare_refl. lia. }
        destruct (bool_decide (p ∈ matched st)) eqn:Ep; bool_facts; simpl; (split; [|rewrite ?Eb]).
        -- done.
        -- split_and!; [done|exists p; set_solver|done|]. intros q. rewrite Hmem. set_solver.
        -- apply NoDup_app. split_and!; [done|set_solver|apply NoDup_singleton].
        -- split_and!; [done|exists p; set_solver|done|].
           intros q. cbn [matched]. rewrite elem_of_app, list_elem_of_singleton, Hmem. set_solver.
      * split; [done|]. rewrite Eb. split_and!; [done|exists p0; set_solver| |].
        -- intros q t Hq. apply elem_of_app in Hq as [Hq|Hq]; [eauto|].
           by apply list_elem_of_singleton in Hq as [= -> ->].
        -- intros q. rewrite Hmem, elem_of_app, list_elem_of_singleton. split; [by left|].
           intros [?|[= -> ->]]; [done|]. by rewrite compare_refl in Hnz.
  - destruct Hst as [-> Hm]. cbn [bestSpecificity matched]. rewrite compare_refl. simpl.
    split; [apply NoDup_singleton|]. simpl.
    split_and!; [done|exists p; set_solver| |].
    + intros q t Hq. apply list_elem_of_singleton in Hq as [= -> ->]. rewrite compare_refl. lia.
    + intros q. rewrite !list_elem_of_singleton. naive_solver.
Qed.

(** What one rule contributes. *)
Definition rule_candidate (upperMethod path permissionName rule : jsstr) : option (jsstr * PathSpecificity) :=
  match matchingRulePath rule upperMethod with
  | None => None
  | Some rest =>
      match matchFirewallPath path rest with
      | None => None
      | Some _ => (fun sp => (permissionName, sp)) <$> pathSpecificity rest
      end
  end.

Fixpoint candidates (upperMethod path : jsstr) (permissions : list JsVal) (seen : list jsstr) :
    list (jsstr * PathSpecificity) :=
  match permissions with
  | [] => []
  | perm :: permissions' =>
      match getPermissionName perm with
      | None => candidates upperMethod path permissions' seen
      | Some name =>
          if bool_decide (name ∈ seen) then candidates upperMethod path permissions' seen
          else omap (rule_candidate upperMethod path name) (getPermissionRules perm) ++
               candidates upperMethod path permissions' (set_add name seen)
      end
  end.

(** Permission [p] of the entry's list matches the request with specificity [s]:
    it is the first permission with its name, and one of its rules has the
    request's method and a path pattern of that specificity that matches. *)
Definition permission_matches (upperMethod path : jsstr) (permissions : list JsVal) (p : jsstr)
    (s : PathSpecificity) : Prop :=
  exists i perm rule rest,
    permissions !! i = Some perm /\ getPermissionName perm = Some p /\
    (forall j perm', (j < i)%nat -> permissions !! j = Some perm' -> getPermissionName perm' <> Some p) /\
    rule ∈ getPermissionRules perm /\ matchingRulePath rule upperMethod = Some rest /\
    is_Some (matchFirewallPath path rest) /\ pathSpecificity rest = Some s.

Lemma rule_candidate_iff upper path name rule p s :
  rule_candidate upper path name rule = Some (p, s) <->
  p = name /\ exists rest, matchingRulePath rule upper = Some rest /\
    is_Some (matchFirewallPath path rest) /\ pathSpecificity rest = Some s.
Proof.
  unfold rule_candidate. destruct (matchingRulePath rule upper) as [rest|]; [|naive_solver].
  destruct (matchFirewallPath path rest) as [ps|] eqn:E.
  - rewrite fmap_Some. split.
    + intros (x & Hx & [= -> ->]). split; [done|]. exists rest. rewrite E. eauto.
    + intros (-> & rest' & [= <-] & _ & Hs). eauto.
  - split; [done|]. intros (-> & rest' & [= <-] & [? Hm] & _). congruence.
Qed.

Lemma candidates_iff upper path permissions seen p s :
  (p, s) ∈ candidates upper path permissions seen <->
  (p ∉ seen) /\ permission_matches upper path permissions p s.
Proof.
  revert seen; induction permissions as [|perm perms IH]; intros seen; simpl.
  { split; [by intros ?%not_elem_of_nil|]. by intros (_ & i & ? & ? & ? & ? & _). }
  assert (getPermissionName perm <> Some p ->
    permission_matches upper path (perm :: perms) p s <-> permission_matches upper path perms p s) as Hskip.
  { intros Hn. unfold permission_matches. split.
    - intros (i & pm & r & rest & Hi & Hp & Hmin & ? & ? & ? & ?). destruct i as [|i]; [by injection Hi as ->|].
      exists i, pm, r, rest. split_and!; try done. intros j pm' Hj Hpm'.
      apply (Hmin (S j)); [lia|done].
    - intros (i & pm & r & rest & Hi & Hp & Hmin & ? & ? & ? & ?). exists (S i), pm, r, rest.
      split_and!; try done. intros [|j] pm' Hj Hpm'; [by injection Hpm' as <-|].
      apply (Hmin j); [lia|done]. }
  destruct (getPermissionName perm) as [name|] eqn:En; [|rewrite IH, Hskip by done; done].
  case_bool_decide as Hseen.
  { rewrite IH. split; intros [Hp Hm]; (split; [done|]); apply Hskip; try done; congruence. }
  rewrite elem_of_app, IH, list_elem_of_omap, elem_of_set_add.
  setoid_rewrite rule_candidate_iff.
  destruct (decide (p = name)) as [->|Hne].
  - split.
    + intros [(r & Hr & _ & rest & H1 & H2 & H3)|[Hn _]]; [|naive_solver]. split; [done|].
      exists 0%nat, perm, r, rest. split_and!; try done. intros; lia.
    + intros (_ & i & pm & r & rest & Hi & Hp & Hmin & Hr & H1 & H2 & H3). left.
      destruct i as [|i]; [|exfalso; by apply (Hmin 0%nat perm); [lia|done|]].
      injection Hi as <-. exists r. split; [done|]. split; [done|]. eauto.
  - rewrite Hskip by congruence. naive_solver.
Qed.

Lemma candidates_length upper path permissions seen :
  Forall (fun c => length c.2 = 7%nat) (candidates upper path permissions seen).
Proof.
  apply Forall_forall. intros [p s] [_ (? & ? & ? & rest & ? & ? & ? & ? & ? & ? & Hs)]%candidates_iff.
  by apply pathSpecificity_length in Hs.
Qed.

Lemma permissionsLoop_fold upper path permissions seen st :
  permissionsLoop upper path permissions seen st =
  foldl (fun st c => recordPermissionMatch st c.1 c.2) st (candidates upper path permissions seen).
Proof.
  revert seen st; induction permissions as [|perm perms IH]; intros seen st; simpl; [done|].
  destruct (getPermissionName perm) as [name|]; [|apply IH].
  case_bool_decide; [apply IH|]. rewrite IH, foldl_app. f_equal.
  generalize (getPermissionRules perm) as rules. intros rules. revert st.
  induction rules as [|r rules IHr]; intros st; simpl; [done|]. rewrite IHr.
  unfold matchRule, rule_candidate.
  destruct (matchingRulePath r upper) as [rest|]; [|done].
  destruct (matchFirewallPath path rest); [|done]. by destruct (pathSpecificity rest).
Qed.

Lemma fold_state_ok l k st :
  Forall (fun c => length c.2 = 7%nat) (k ++ l) -> state_ok k st ->
  state_ok (k ++ l) (foldl (fun st c => recordPermissionMatch st c.1 c.2) st l).
Proof.
  revert k st; induction l as [|[p s] l IH]; intros k st Hl Hst; simpl; [by rewrite app_nil_r|].
  rewrite Forall_app, Forall_cons in Hl. destruct Hl as (Hk & Hs & Hl).
  rewrite (cons_middle (p, s)), app_assoc. apply IH.
  - rewrite Forall_app, Forall_app, Forall_cons. auto.
  - by apply state_ok_record.
Qed.

(** The names one API entry contributes: those whose match is maximal. *)
Lemma permissionsLoop_iff upper path permissions p :
  p ∈ matched (permissionsLoop upper path permissions [] initial_state) <->
  exists s, permission_matches upper path permissions p s /\
    forall q s', permission_matches upper path permissions q s' -> comparePathSpecificity s' s <= 0.
Proof.
  assert (forall q s, (q, s) ∈ candidates upper path permissions [] <->
                      permission_matches upper path permissions q s) as Hc.
  { intros q s. rewrite candidates_iff. pose proof (not_elem_of_nil q). tauto. }
  rewrite permissionsLoop_fold.
  pose proof (fold_state_ok (candidates upper path permissions []) [] initial_state
                (candidates_length _ _ _ _)) as [_ Hst]; [split; [apply NoDup_nil_2|done]|].
  destruct (bestSpecificity _) as [b|].
  - destruct Hst as (Hb & (p0 & Hp0) & Hmax & Hmem). rewrite Hmem. simpl in *. split.
    + intros Hp. exists b. split; [by apply Hc|]. intros q s' Hq%Hc. eauto.
    + intros (s & Hs & Hmax'). apply Hc in Hs as Hs'. pose proof (Hmax _ _ Hs').
      pose proof (Hmax' _ _ (proj1 (Hc _ _) Hp0)). pose proof (compare_antisym s b).
      pose proof (candidates_length upper path permissions []) as Hl. rewrite Forall_forall in Hl.
      specialize (Hl _ Hs'). simpl in Hl.
      rewrite (compare_zero b s); [done|congruence|lia].
  - destruct Hst as [Hnil ->]. split; [by intros ?%not_elem_of_nil|].
    intros (s & Hs & _). apply Hc in Hs. simpl in Hnil. rewrite Hnil in Hs. by apply not_elem_of_nil in Hs.
Qed.

Section Permissions.
Context `{Platform}.

(** ** Lemmas: hosts *)

(** Every segment of a matched pattern that is not the greedy one faces the host
    label at the same distance from the right. *)
Lemma matchHostLoop_literal pats i n segs ps ps' k v :
  matchHostLoop pats i n segs ps = Some ps' -> pats !! k = Some v -> brace_free v ->
  (exists h, segs !! k = Some h /\ toLowerCase h = toLowerCase v) \/
  (exists j, (j < k)%nat /\ n = (i + j)%nat).
Proof.
  revert i segs ps k; induction pats as [|seg pats IH]; intros i segs ps k; cbn [matchHostLoop]; [done|].
  intros Hm Hk Hb. destruct k as [|k].
  { injection Hk as ->. rewrite brace_free_literal in Hm by done.
    destruct segs as [|h segs]; [done|]. case_bool_decide; [|done]. left. eauto. }
  simpl in Hk.
  assert (forall segs' ps0, matchHostLoop pats (S i) n segs' ps0 = Some ps' ->
    (exists h, segs' !! k = Some h /\ toLowerCase h = toLowerCase v) \/
    (exists j, (j < S k)%nat /\ n = (i + j)%nat)) as Hrec.
  { intros segs' ps0 Hm'. destruct (IH _ _ _ _ Hm' Hk Hb) as [?|(j & Hj & ->)]; [by left|].
    right. exists (S j). split; lia. }
  destruct (parseSegment seg) as [w|prefix name suffix g|r] eqn:E; [|destruct g|done].
  - destruct segs as [|h segs]; [done|]. case_bool_decide; [|done]. by apply Hrec in Hm.
  - destruct segs as [|h segs]; [done|]. apply bind_Some in Hm as (c & _ & Hm). by apply Hrec in Hm.
  - right. case_match eqn:Eg; [done|]. apply isInvalidGreedyParam_false in Eg as (<- & _).
    exists 0%nat. lia.
  - right. case_match eqn:Eg; [done|]. apply isInvalidGreedyParam_false in Eg as (<- & _).
    exists 0%nat. lia.
Qed.

(** A host that matches a base host pattern agrees with the pattern on every
    literal label, counted from the right and up to case: the labels of a
    registered domain in the pattern cannot be moved, dropped or extended by the
    caller. *)
Theorem matchFirewallHost_literals host pattern ps k v :
  matchFirewallHost host pattern = Some ps ->
  reverse (split_on DOT pattern) !! k = Some v -> brace_free v ->
  exists h, reverse (split_on DOT host) !! k = Some h /\ toLowerCase h = toLowerCase v.
Proof.
  unfold matchFirewallHost. intros Hm Hk Hb.
  destruct (matchHostLoop_literal _ _ _ _ _ _ _ _ Hm Hk Hb) as [?|(j & Hj & Hlast)]; [done|].
  apply lookup_lt_Some in Hk. lia.
Qed.

(** C16: [findMatchingPermissions] returns exactly the permissions with a most
    specific matching rule: a name is returned when in some usable API entry it
    matches the request and no permission of that entry matches with a more
    specific rule. A less specific rule never grants when a more specific one
    exists. *)
Theorem findMatchingPermissions_spec method path props name apis optApiBase p :
  prop_of props (js "name") = JString name -> name <> [] -> prop_of props (js "apis") = JArray apis ->
  p ∈ findMatchingPermissions method path (JObject props) optApiBase <->
  exists api permissions s,
    api ∈ apis /\
    getApiPermissionsForMatch api name (stripTrailingSlash <$> optApiBase) = Some permissions /\
    permission_matches (toUpperCase method) path permissions p s /\
    forall q s', permission_matches (toUpperCase method) path permissions q s' ->
      comparePathSpecificity s' s <= 0.
Proof.
  intros Hn Hne Ha. unfold findMatchingPermissions. cbn [isObjectRecord]. rewrite Hn, Ha, bool_decide_eq_false_2 by done.
  set (f := fun acc api => _). clear Hn Ha.
  cut (forall acc, p ∈ foldl f acc apis <-> p ∈ acc \/ exists api permissions s,
    api ∈ apis /\ getApiPermissionsForMatch api name (stripTrailingSlash <$> optApiBase) = Some permissions /\
    permission_matches (toUpperCase method) path permissions p s /\
    forall q s', permission_matches (toUpperCase method) path permissions q s' ->
      comparePathSpecificity s' s <= 0).
  { intros ->. pose proof (not_elem_of_nil p). tauto. }
  induction apis as [|api apis IH]; intros acc; simpl.
  - split; [by left|]. intros [?|(? & ? & ? & ?%not_elem_of_nil & _)]; done.
  - rewrite IH. unfold f at 1.
    destruct (getApiPermissionsForMatch api name _) as [perms|] eqn:E.
    + rewrite elem_of_set_add_all, permissionsLoop_iff. set_solver.
    + set_solver.
Qed.

(** [findMatchingPermissions] never lists a permission twice, also when several
    API entries grant it. *)
Theorem findMatchingPermissions_NoDup method path config optApiBase :
  NoDup (findMatchingPermissions method path config optApiBase).
Proof.
  unfold findMatchingPermissions. destruct (isObjectRecord config) as [props|]; [|apply NoDup_nil_2].
  repeat case_match; try apply NoDup_nil_2. set (f := fun acc api => _).
  cut (forall apis acc, NoDup acc -> NoDup (foldl f acc apis)); [intros Hf; apply Hf, NoDup_nil_2|].
  intros apis. induction apis as [|api apis IH]; intros acc Hacc; simpl; [done|].
  apply IH. unfold f. case_match; [by apply NoDup_set_add_all|done].
Qed.

(** ** Lemmas: case *)

Context `{!PlatformLaws}.

Lemma ascii_lower_ascii c : ascii_unit c = true -> ascii_unit (ascii_lower c) = true.
Proof. unfold ascii_unit, ascii_lower. intros. bool_facts. case_match; bool_facts; apply andb_true_iff; lia. Qed.

Lemma ascii_lower_idem c : ascii_lower (ascii_lower c) = ascii_lower c.
Proof.
  unfold ascii_lower.
  destruct (Z.leb_spec 65 c), (Z.leb_spec c 90); simpl;
    [destruct (Z.leb_spec 65 (c + 32)), (Z.leb_spec (c + 32) 90); simpl; lia| | |];
    destruct (Z.leb_spec 65 c), (Z.leb_spec c 90); simpl; lia.
Qed.

Lemma toLowerCase_lowered (s : jsstr) :
  forallb ascii_unit s = true -> toLowerCase (ascii_lower <$> s) = toLowerCase s.
Proof.
  intros Hs. rewrite !toLowerCase_ascii; [|done|].
  - rewrite <- list_fmap_compose. apply list_fmap_ext. intros. apply ascii_lower_idem.
  - apply forallb_true. intros x (y & -> & Hy)%list_elem_of_fmap. apply ascii_lower_ascii.
    rewrite forallb_true in Hs. auto.
Qed.

Lemma split_on_lowered (s : jsstr) :
  split_on DOT (ascii_lower <$> s) = (fun w : jsstr => ascii_lower <$> w) <$> split_on DOT s.
Proof.
  induction s as [|c s IH]; [done|]. rewrite fmap_cons. cbn [split_on].
  assert ((ascii_lower c =? DOT) = (c =? DOT)) as ->.
  { unfold ascii_lower, DOT. case_match; [|done]. bool_facts.
    destruct (Z.eqb_spec (c + 32) 46), (Z.eqb_spec c 46); lia. }
  rewrite IH. destruct (c =? DOT); [done|]. by destruct (split_on DOT s).
Qed.

Lemma matchHostLoop_lowered pats i n segs ps qs :
  Forall (fun h => forallb ascii_unit h = true) segs ->
  is_Some (matchHostLoop pats i n ((fun w : jsstr => ascii_lower <$> w) <$> segs) ps) <->
  is_Some (matchHostLoop pats i n segs qs).
Proof.
  revert i segs ps qs; induction pats as [|seg pats IH]; intros i segs ps qs Hs; cbn [matchHostLoop].
  { destruct segs; simpl; rewrite ?bool_decide_eq_true_2, ?bool_decide_eq_false_2 by done;
      split; intros [? ?]; eauto; done. }
  destruct (parseSegment seg) as [w|prefix name suffix g|r]; [|destruct g|done].
  - destruct segs as [|h segs]; [done|]. apply Forall_cons in Hs as [Hh Hs]. cbn [fmap list_fmap].
    rewrite toLowerCase_lowered by done. case_match; [done|by apply IH].
  - destruct segs as [|h segs]; [done|]. apply Forall_cons in Hs as [Hh Hs]. cbn [fmap list_fmap].
    rewrite toLowerCase_lowered by done.
    destruct (if bool_decide (prefix = []) && bool_decide (suffix = []) then _ else _); [|done].
    by apply IH.
  - case_match; [done|]. destruct segs; simpl; [done|]. by split; eauto.
  - case_match; [done|]. by split; eauto.
Qed.

(** Host matching ignores the case of an ASCII host: lowering the host changes
    nothing about which patterns it matches. *)
Theorem matchFirewallHost_case_insensitive (host : jsstr) pattern :
  forallb ascii_unit host = true ->
  is_Some (matchFirewallHost (ascii_lower <$> host) pattern) <-> is_Some (matchFirewallHost host pattern).
Proof.
  intros Hh. unfold matchFirewallHost. rewrite split_on_lowered, <- fmap_reverse.
  apply matchHostLoop_lowered. apply Forall_forall. intros w Hw. rewrite elem_of_reverse in Hw.
  apply forallb_true. intros c Hc. rewrite forallb_true in Hh. apply Hh.
  rewrite <- (join_split DOT host). by apply (elem_of_join [DOT] _ w).
Qed.

End Permissions.

(** ** Witnesses *)

Section Witnesses.
#[local] Existing Instance ascii_platform.

Definition sample_permission (name : jsstr) (rules : list jsstr) : JsVal :=
  JObject [(js "name", JString name); (js "rules", JArray (JString <$> rules))].

Definition sample_api : JsVal :=
  JObject [(js "base", JString (js "https://api.github.com"));
           (js "auth", JObject []);
           (js "permissions", JArray
              [sample_permission (js "repo-read") [js "GET /repos/{owner}/{repo}"];
               sample_permission (js "everything") [js "ANY /{path+}"]])].

Definition sample_config : list (jsstr * JsVal) :=
  [(js "name", JString (js "github")); (js "apis", JArray [sample_api])].

Lemma findMatchingPermissions_witness :
  prop_of sample_config (js "name") = JString (js "github") /\
  exists api permissions s,
    api ∈ [sample_api] /\
    getApiPermissionsForMatch api (js "github") (stripTrailingSlash <$> None) = Some permissions /\
    permission_matches (toUpperCase (js "get")) (js "/repos/vm0/vm0") permissions (js "repo-read") s /\
    forall q s', permission_matches (toUpperCase (js "get")) (js "/repos/vm0/vm0") permissions q s' ->
      comparePathSpecificity s' s <= 0.
Proof.
  split; [reflexivity|].
  apply (findMatchingPermissions_spec (js "get") (js "/repos/vm0/vm0") sample_config (js "github")
           [sample_api] None (js "repo-read")); [reflexivity|discriminate|reflexivity|].
  apply list_elem_of_In. vm_compute. by left.
Defined.

Lemma matchFirewallHost_literals_witness :
  exists ps, matchFirewallHost (js "Uploads.GitHub.com") (js "{sub}.github.com") = Some ps /\
  exists h, reverse (split_on DOT (js "Uploads.GitHub.com")) !! 1%nat = Some h /\
            toLowerCase h = toLowerCase (js "github").
Proof.
  eexists. split; [vm_compute; reflexivity|].
  eapply (matchFirewallHost_literals (js "Uploads.GitHub.com") (js "{sub}.github.com") _ 1 (js "github"));
    [vm_compute; reflexivity|reflexivity|].
  apply (bool_decide_unpack _). vm_compute. exact I.
Defined.

Lemma matchFirewallHost_case_insensitive_witness :
  forallb ascii_unit (js "API.github.com") = true /\
  (is_Some (matchFirewallHost (ascii_lower <$> js "API.github.com") (js "api.github.com")) <->
   is_Some (matchFirewallHost (js "API.github.com") (js "api.github.com"))).
Proof.
  split; [reflexivity|].
  apply (@matchFirewallHost_case_insensitive ascii_platform ascii_platform_laws). reflexivity.
Defined.

End Witnesses.

End RuleMatcher.
