(* ===== verification/Registry.v ===== *)
(** Built-in connector firewalls and permission policies
    (turbo/packages/connectors/src/firewalls/index.ts). The generated
    configurations and allow lists the module imports are the fields of
    [GeneratedRegistry]. *)

From S2P Require Import Prelude JsString JsValue JsRecord Templates.
Import Templates.

Module Registry.

(** ** Data *)

Inductive FirewallPolicyValue := PAllow | PDeny | PAsk.

#[export] Instance policy_value_eq_dec : EqDecision FirewallPolicyValue.
Proof. solve_decision. Defined.

Record FirewallPolicy := {
  policies : gmap jsstr FirewallPolicyValue;
  unknownPolicy : option FirewallPolicyValue;
}.

(** A [FirewallPolicies] object maps connector names to policies. *)
Abbreviation FirewallPolicies := (gmap jsstr FirewallPolicy).

Record FirewallPermissionGrant := {
  connectorRef : jsstr;
  permission : jsstr;
  action : FirewallPolicyValue;
}.

Record EnvBindingEntry := { envName : jsstr; valueRef : jsstr }.

(** The data of the generated modules. *)
Class GeneratedRegistry := {
  CONNECTOR_FIREWALLS : list (jsstr * FirewallConfig);
  DEFAULT_ALLOWED : jsstr -> option (list jsstr);
  getConnectorEnvBindingEntries : jsstr -> list EnvBindingEntry;
}.

Definition UNKNOWN_PERMISSION_GRANT : jsstr := js "__unknown__".

(** ** Placeholders *)

Definition str_entries := list (jsstr * jsstr).

(** [if (!expanded[k]) expanded[k] = v]: an absent or empty value is filled; an
    inherited name is neither. *)
Definition fill (k v : jsstr) (l : str_entries) : str_entries :=
  match rec_get l k with
  | None | Some [] => rec_define l k v
  | Some _ => l
  end.

Definition SECRETS_PREFIX : jsstr := js "$secrets.".

(** The environment names of the entries that refer to [ref]. *)
Definition fill_aliases (entries : list EnvBindingEntry) (ref v : jsstr) (l : str_entries) : str_entries :=
  foldl (fun acc e => if bool_decide (valueRef e = ref) then fill (envName e) v acc else acc) l entries.

Definition expand_one (entries : list EnvBindingEntry) (acc : str_entries) (kv : jsstr * jsstr) : str_entries :=
  let '(key, placeholderValue) := kv in
  let valueRefs := valueRef <$> filter (fun e => envName e = key) entries in
  let acc := foldl (fun acc ref =>
      if negb (starts_with ref SECRETS_PREFIX) then acc
      else fill_aliases entries ref placeholderValue
             (fill (drop (length SECRETS_PREFIX) ref) placeholderValue acc)) acc valueRefs in
  fill_aliases entries (SECRETS_PREFIX ++ key) placeholderValue acc.

Section WithRegistry.
Context `{GeneratedRegistry}.

Definition expandPlaceholders (firewall : FirewallConfig) (connectorType : jsstr) : FirewallConfig :=
  match fc_placeholders firewall with
  | None => firewall
  | Some placeholders =>
      let envBindingEntries := getConnectorEnvBindingEntries connectorType in
      if (length envBindingEntries =? 0)%nat then firewall
      else {| fc_name := fc_name firewall; fc_description := fc_description firewall;
              fc_apis := fc_apis firewall;
              fc_placeholders := Some (foldl (expand_one envBindingEntries) placeholders placeholders) |}
  end.

(** ** Lookup *)

Definition registry_lookup (type : jsstr) : option FirewallConfig :=
  match list_find (fun kv => kv.1 = type) CONNECTOR_FIREWALLS with
  | Some (_, (_, fw)) => Some fw
  | None => None
  end.

(** [type in CONNECTOR_FIREWALLS]: own and inherited property names. *)
Definition isFirewallConnectorType (type : jsstr) : bool :=
  bool_decide (is_Some (registry_lookup type)) || bool_decide (type ∈ object_prototype_names).

(** [EXPANDED_CONNECTOR_FIREWALLS[type]]; [None] when the value is an inherited
    property and not a configuration. *)
Definition getConnectorFirewall (type : jsstr) : option FirewallConfig :=
  (fun fw => expandPlaceholders fw type) <$> registry_lookup type.

(** ** Policies *)

Definition config_permissions (config : FirewallConfig) : list FirewallPermission :=
  concat ((fun api => default [] (api_permissions api)) <$> fc_apis config).

Definition getDefaultFirewallPolicies (type : jsstr) (config : FirewallConfig) : FirewallPolicy :=
  let allowSet := DEFAULT_ALLOWED type in
  {| policies :=
       foldl (fun acc p =>
         <[perm_name p := if match allowSet with None => true | Some a => bool_decide (perm_name p ∈ a) end
                          then PAllow else PDeny]> acc) ∅ (config_permissions config);
     unknownPolicy := Some PAllow |}.

(** One connector of [resolveFirewallPolicies]; [None] is [null]. Reading the
    configuration of an inherited name throws a TypeError. *)
Definition resolve_connector (resolved : option FirewallPolicies) (connector : jsstr) :
    result (option FirewallPolicies) :=
  if negb (isFirewallConnectorType connector) then Ok resolved
  else
    match getConnectorFirewall connector with
    | None => Throw (js "TypeError")
    | Some config =>
        let defaults := getDefaultFirewallPolicies connector config in
        let base := default ∅ resolved in
        let existing := base !! connector in
        let merged := {|
          policies := match existing with
                      | Some e => policies e ∪ policies defaults
                      | None => policies defaults
                      end;
          unknownPolicy := match existing with
                           | Some e => match unknownPolicy e with
                                       | Some u => Some u
                                       | None => unknownPolicy defaults
                                       end
                           | None => unknownPolicy defaults
                           end |} in
        Ok (Some (<[connector := merged]> base))
    end.

Fixpoint resolveFirewallPolicies (stored : option FirewallPolicies) (connectors : list jsstr) :
    result (option FirewallPolicies) :=
  match connectors with
  | [] => Ok stored
  | c :: cs => r ← resolve_connector stored c; resolveFirewallPolicies r cs
  end.

End WithRegistry.

(** ** Grants *)

Definition apply_grant (acc : FirewallPolicies) (g : FirewallPermissionGrant) : FirewallPolicies :=
  let current := default {| policies := ∅; unknownPolicy := None |} (acc !! connectorRef g) in
  if bool_decide (permission g = UNKNOWN_PERMISSION_GRANT) then
    <[connectorRef g := {| policies := policies current; unknownPolicy := Some (action g) |}]> acc
  else
    <[connectorRef g := {| policies := <[permission g := action g]> (policies current);
                           unknownPolicy := unknownPolicy current |}]> acc.

Definition permissionGrantsToFirewallPolicies (grants : list FirewallPermissionGrant) :
    option FirewallPolicies :=
  let result := foldl apply_grant ∅ grants in
  if bool_decide (0 < size result)%nat then Some result else None.

(** ** Categories *)

(** [displayOrder] and the category of each permission. *)
Definition groupPermissionsByCategory {T} (name_of : T -> jsstr) (permissions : list T)
    (categoryData : option (list jsstr * (jsstr -> option jsstr))) : option (list (jsstr * list T)) :=
  match categoryData with
  | None => None
  | Some (displayOrder, categories) =>
      Some (filter (fun g => g.2 <> [])
        ((fun category => (category, filter (fun p => categories (name_of p) = Some category) permissions))
           <$> displayOrder))
  end.

(** ** Theorems *)

Lemma foldl_insert_lookup {A} (f : A -> FirewallPolicyValue) (key : A -> jsstr)
    (l : list A) (m : gmap jsstr FirewallPolicyValue) k :
  (forall x y, key x = key y -> f x = f y) ->
  foldl (fun acc x => <[key x := f x]> acc) m l !! k =
  match list_find (fun x => key x = k) l with Some (_, x) => Some (f x) | None => m !! k end.
Proof.
  intros Hf. revert m; induction l as [|y l IH]; intros m; simpl; [done|].
  rewrite IH. destruct (decide (key y = k)) as [<-|Hne].
  - destruct (list_find (fun x => key x = key y) l) as [[i x]|] eqn:E.
    + apply list_find_Some in E as (_ & Hx & _). simpl. f_equal. by apply Hf.
    + simpl. apply lookup_insert_eq.
  - destruct (list_find (fun x => key x = k) l) as [[i x]|]; simpl; [done|]. by apply lookup_insert_ne.
Qed.

Section Theorems.
Context `{GeneratedRegistry}.

(** The default policies of a connector decide every permission of its
    configuration and nothing else: a permission outside a connector's
    default-allowed list is denied, and without such a list everything is
    allowed. *)
Theorem getDefaultFirewallPolicies_spec type config p :
  policies (getDefaultFirewallPolicies type config) !! p =
  if bool_decide (p ∈ perm_name <$> config_permissions config) then
    Some (match DEFAULT_ALLOWED type with
          | None => PAllow
          | Some allowed => if bool_decide (p ∈ allowed) then PAllow else PDeny
          end)
  else None.
Proof.
  unfold getDefaultFirewallPolicies. cbn [policies].
  set (f := fun q : FirewallPermission =>
    if match DEFAULT_ALLOWED type with None => true | Some a => bool_decide (perm_name q ∈ a) end
    then PAllow else PDeny).
  change (foldl (fun (acc : gmap jsstr FirewallPolicyValue) x => <[perm_name x := f x]> acc) ∅
            (config_permissions config) !! p =
          if bool_decide (p ∈ perm_name <$> config_permissions config) then
            Some (match DEFAULT_ALLOWED type with
                  | None => PAllow
                  | Some allowed => if bool_decide (p ∈ allowed) then PAllow else PDeny
                  end)
          else None).
  rewrite foldl_insert_lookup by (intros x y Hxy; unfold f; by rewrite Hxy).
  case_bool_decide as Hp.
  - apply list_elem_of_fmap in Hp as (q & -> & Hq).
    destruct (list_find _ _) as [[i x]|] eqn:E.
    + apply list_find_Some in E as (_ & Hx & _). unfold f. rewrite Hx. by destruct (DEFAULT_ALLOWED type).
    + apply list_find_None in E. rewrite Forall_forall in E. by specialize (E q Hq).
  - destruct (list_find _ _) as [[i x]|] eqn:E; [|apply lookup_empty].
    apply list_find_Some in E as (Hi & <- & _). exfalso. apply Hp.
    apply list_elem_of_fmap. exists x. split; [done|]. by apply list_elem_of_lookup_2 in Hi.
Qed.

(** Resolving stored policies layers them over the defaults: a stored decision
    for a permission always wins, a permission the user never decided gets the
    default, and the connectors that were not asked for keep their entry. *)
Theorem resolve_connector_spec resolved connector config r :
  registry_lookup connector = Some config ->
  resolve_connector resolved connector = Ok r ->
  exists m, r = Some m /\
    (forall c, c <> connector -> m !! c = default ∅ resolved !! c) /\
    exists pol, m !! connector = Some pol /\ is_Some (unknownPolicy pol) /\
      forall p, policies pol !! p =
        match (default ∅ resolved !! connector) ≫= (fun e => policies e !! p) with
        | Some v => Some v
        | None => policies (getDefaultFirewallPolicies connector (expandPlaceholders config connector)) !! p
        end.
Proof.
  intros Hreg. unfold resolve_connector, isFirewallConnectorType, getConnectorFirewall.
  rewrite Hreg. rewrite bool_decide_eq_true_2 by eauto. simpl. intros [= <-].
  eexists. split; [done|]. split; [intros c Hc; by apply lookup_insert_ne|].
  eexists. rewrite lookup_insert_eq. split; [done|].
  destruct (default ∅ resolved !! connector) as [e|]; simpl; [|by split; [eauto|]].
  split; [by destruct (unknownPolicy e); eauto|].
  intros p. rewrite lookup_union. by destruct (policies e !! p), (foldl _ _ _ !! p).
Qed.

(** [isFirewallConnectorType] also accepts the names every object inherits, for
    which the registry holds no configuration, so that resolving the policies of
    such a connector name throws instead of skipping it. *)
Theorem isFirewallConnectorType_inherited name resolved :
  name ∈ object_prototype_names ->
  registry_lookup name = None ->
  isFirewallConnectorType name = true /\ getConnectorFirewall name = None /\
  resolve_connector resolved name = Throw (js "TypeError").
Proof.
  intros Hin Hn. unfold resolve_connector, isFirewallConnectorType, getConnectorFirewall. rewrite Hn.
  rewrite (bool_decide_eq_true_2 (_ ∈ _)) by done. by rewrite orb_true_r.
Qed.

End Theorems.

(** The last grant of a list for one permission of a connector. *)
Definition last_grant (grants : list FirewallPermissionGrant) (c p : jsstr) : option FirewallPermissionGrant :=
  last (filter (fun g => connectorRef g = c /\ permission g = p) grants).

Lemma last_grant_snoc grants g c p :
  last_grant (grants ++ [g]) c p =
  if decide (connectorRef g = c /\ permission g = p) then Some g else last_grant grants c p.
Proof.
  unfold last_grant. rewrite filter_app, filter_cons, filter_nil.
  case_decide; [apply last_snoc|by rewrite app_nil_r].
Qed.

Definition granted (m : FirewallPolicies) (c p : jsstr) : option FirewallPolicyValue :=
  m !! c ≫= (fun pol => if decide (p = UNKNOWN_PERMISSION_GRANT) then unknownPolicy pol
                         else policies pol !! p).

Lemma apply_grant_granted m g c p :
  granted (apply_grant m g) c p =
  if decide (connectorRef g = c /\ permission g = p) then Some (action g) else granted m c p.
Proof.
  unfold granted, apply_grant.
  destruct (decide (connectorRef g = c)) as [<-|Hne].
  2: { rewrite decide_False by naive_solver. case_bool_decide; by rewrite lookup_insert_ne. }
  case_bool_decide as Hu; rewrite lookup_insert_eq; simpl; repeat case_decide; simplify_eq;
    destruct_and?; simplify_eq; try tauto; try done.
  - by destruct (m !! connectorRef g).
  - by destruct (m !! connectorRef g).
  - by rewrite lookup_insert_eq.
  - rewrite lookup_insert_ne by naive_solver. by destruct (m !! connectorRef g); simpl; rewrite ?lookup_empty.
Qed.

(** Converting a user's grants to policies keeps exactly the last grant of every
    permission of every connector, with the reserved name deciding the unknown
    policy; [null] is returned only when there is nothing to decide. *)
Theorem permissionGrantsToFirewallPolicies_spec grants c p :
  (permissionGrantsToFirewallPolicies grants ≫= fun m => granted m c p) =
  action <$> last_grant grants c p.
Proof.
  assert (granted (foldl apply_grant ∅ grants) c p = action <$> last_grant grants c p) as Hall.
  { induction grants as [|g grants IH] using rev_ind; [done|].
    rewrite foldl_snoc, apply_grant_granted, last_grant_snoc, IH. by case_decide. }
  unfold permissionGrantsToFirewallPolicies. case_bool_decide as Hs; simpl; [done|].
  rewrite <- Hall. assert (foldl apply_grant ∅ grants = ∅) as ->; [|done].
  apply map_size_empty_inv. lia.
Qed.

(** ** Witnesses *)

Section Witnesses.

Definition sample_registry : GeneratedRegistry := {|
  CONNECTOR_FIREWALLS :=
    [(js "slack", {| fc_name := js "slack"; fc_description := None; fc_apis := []; fc_placeholders := None |})];
  DEFAULT_ALLOWED type := if bool_decide (type = js "slack") then Some [] else None;
  getConnectorEnvBindingEntries _ := [];
|}.

#[local] Existing Instance sample_registry.

Lemma resolve_connector_witness :
  exists config r, registry_lookup (js "slack") = Some config /\
    resolve_connector None (js "slack") = Ok r /\ exists m, r = Some m.
Proof.
  do 2 eexists. split; [reflexivity|]. split; [reflexivity|].
  edestruct (resolve_connector_spec None (js "slack")) as (m & Hm & _); [reflexivity|reflexivity|].
  exists m. exact Hm.
Defined.

Lemma isFirewallConnectorType_inherited_witness :
  registry_lookup (js "toString") = None /\ isFirewallConnectorType (js "toString") = true.
Proof.
  split; [reflexivity|]. apply (isFirewallConnectorType_inherited (js "toString") None); [|reflexivity].
  apply (bool_decide_eq_true_1 _). vm_compute. reflexivity.
Defined.

End Witnesses.

End Registry.
