(* ===== verification/RunEnvironment.v ===== *)
(** The environment, artifacts and skill volumes of a run
    (turbo/apps/api/src/signals/services/agent-run-create.service.ts, with
    turbo/packages/core/src/frameworks.ts, zero-seed-skills.ts and the mount paths of
    turbo/packages/api-contracts). *)

From S2P Require Import Prelude JsString JsValue JsRecord Templates VariableExpander GithubUrl.
Import Templates VariableExpander GithubUrl.

Module RunEnvironment.

(** ** Data *)

Inductive SupportedFramework := ClaudeCode | Codex.

#[export] Instance framework_eq_dec : EqDecision SupportedFramework.
Proof. solve_decision. Defined.

Definition SUPPORTED_FRAMEWORKS : list (jsstr * SupportedFramework) :=
  [(js "claude-code", ClaudeCode); (js "codex", Codex)].

(** [isSupportedFramework], with the framework it narrows to. *)
Definition isSupportedFramework (framework : option jsstr) : option SupportedFramework :=
  framework ≫= rec_own SUPPORTED_FRAMEWORKS.

Record ContextArtifact := {
  ca_name : jsstr; ca_version : option jsstr; ca_mountPath : jsstr; ca_missingRootPolicy : option jsstr }.

#[export] Instance context_artifact_eq_dec : EqDecision ContextArtifact.
Proof. solve_decision. Defined.

Record ComposeArtifact := { co_name : jsstr; co_version : option jsstr; co_mount_path : option jsstr }.

Record AdditionalVolume := {
  av_name : jsstr; av_version : option jsstr; av_mountPath : jsstr; av_system : option bool }.

(** [experimental_runner?: { group?: string }] is an option of an option. *)
Record AgentConfig := {
  ag_framework : option jsstr;
  ag_environment : option (Rec jsstr);
  ag_experimental_runner : option (option jsstr);
  ag_experimental_profile : option jsstr;
}.

Record AgentComposeContent := {
  ac_agent : option AgentConfig;
  ac_agents : option (Rec (option AgentConfig));
  ac_artifacts : option (list ComposeArtifact);
}.

(** The fields of [ResolvedCompose] the artifacts depend on. *)
Record ResolvedCompose := {
  rc_content : AgentComposeContent;
  rc_sessionId : option jsstr;
  rc_resumedFromCheckpointId : option jsstr;
  rc_artifacts : list ContextArtifact;
}.

Record PersistedRunEnvironmentVariable := { pv_name : jsstr; pv_value : jsstr; pv_userId : jsstr }.

(** ** Constants *)

Definition ORG_SENTINEL_USER_ID : jsstr := js "__org__".
Definition AUTO_MEMORY_ARTIFACT_NAME : jsstr := MEMORY_ARTIFACT_NAME.
Definition AUTO_MEMORY_MISSING_ROOT_POLICY : jsstr := js "preserveParentVersion".
Definition CONNECTOR_SECRET_REF_PREFIX : jsstr := js "$secrets.".
Definition CONNECTOR_VAR_REF_PREFIX : jsstr := js "$vars.".
Definition CANONICAL_GUEST_HOME_DIR : jsstr := js "/home/user".
Definition CANONICAL_WORKING_DIR : jsstr := CANONICAL_GUEST_HOME_DIR ++ js "/workspace".
(** The working directory without its first slash and with dashes for the others. *)
Definition CANONICAL_CLAUDE_PROJECT_NAME : jsstr :=
  (fun c => if c =? 47 then 45 else c) <$> drop 1 CANONICAL_WORKING_DIR.
Definition CANONICAL_CLAUDE_MEMORY_MOUNT_PATH : jsstr :=
  CANONICAL_GUEST_HOME_DIR ++ js "/.claude/projects/-" ++ CANONICAL_CLAUDE_PROJECT_NAME ++ js "/memory".
Definition CANONICAL_CODEX_MEMORY_MOUNT_PATH : jsstr := CANONICAL_GUEST_HOME_DIR ++ js "/.codex/memories".
Definition DEFAULT_PROFILE : jsstr := js "vm0/default".
Definition MOUNT_PATH_TEMPLATE : jsstr := js "${{ working_dir }}".
Definition DEFAULT_PLACEHOLDER : jsstr := js "c0ffee5afe10ca1c0ffee5afe10ca1c0ffee5afe".

Definition SEED_SKILLS : list jsstr :=
  [js "deep-dive"; js "account-reconciliation"; js "analysis-qa"; js "audit-readiness";
   js "brand-guidelines"; js "campaign-strategy"; js "computer-use"; js "competitor-matrix";
   js "contract-redline"; js "copywriting"; js "customer-intel"; js "customer-reply";
   js "data-profiling"; js "escalation-brief"; js "flux-analysis"; js "gaap-reporting"; js "gen";
   js "issue-triage"; js "journal-entries"; js "kb-authoring"; js "legal-briefing";
   js "legal-risk-scoring"; js "marketing-analytics"; js "nda-screening"; js "paid-ads-operator";
   js "period-close"; js "prd-writing"; js "privacy-compliance"; js "product-metrics";
   js "reply-templates"; js "research-synthesis"; js "roadmap-planning"; js "sql-cookbook";
   js "stats-methods"; js "status-updates"].

(** ** Records *)

Definition compactRecord {A} (values : Rec A) : option (Rec A) :=
  if bool_decide (length values = 0%nat) then None else Some values.

Definition mergeRecords {A} (records : list (option (Rec A))) : option (Rec A) :=
  compactRecord (foldl (fun merged record =>
    match record with Some r => rec_assign merged r | None => merged end) [] records).

Definition filterSecretConnectorMap (secretConnectorMap : option (Rec jsstr))
    (overriddenSecrets : list (option (Rec jsstr))) : option (Rec jsstr) :=
  scm ← secretConnectorMap;
  let overridden := concat ((fun secrets => rec_keys (default [] secrets)) <$> overriddenSecrets) in
  compactRecord (filter (fun kv => kv.1 ∉ overridden) scm).

(** The keys are environment names, none of them inherited. *)
Definition filterSecretConnectorMetadataMap {M} (secretConnectorMetadataMap : option (Rec M))
    (secretConnectorMap : option (Rec jsstr)) : option (Rec M) :=
  metadata ← secretConnectorMetadataMap;
  scm ← secretConnectorMap;
  compactRecord (foldl (fun filtered key =>
    match rec_own metadata key with
    | Some m => rec_set filtered key m
    | None => filtered
    end) [] (rec_keys scm)).

Definition buildMergedVariables (variables : list PersistedRunEnvironmentVariable)
    (runVars : option (Rec jsstr)) : option (Rec jsstr) :=
  let '(orgVars, userVars) := foldl (fun acc row =>
    let '(orgVars, userVars) := acc in
    if bool_decide (pv_userId row = ORG_SENTINEL_USER_ID)
    then (rec_set orgVars (pv_name row) (pv_value row), userVars)
    else (orgVars, rec_set userVars (pv_name row) (pv_value row))) ([], []) variables in
  compactRecord (rec_spread (rec_spread (rec_spread [] orgVars) userVars) (default [] runVars)).

(** The values in [secretValues] are masked. *)
Definition sanitizeEnvironment (environment : option (Rec jsstr)) (secretValues : list jsstr) : Rec jsstr :=
  foldl (fun sanitized kv =>
    rec_set sanitized kv.1 (if bool_decide (kv.2 ∈ secretValues) then js "***" else kv.2))
    [] (default [] environment).

(** ** Agents and frameworks *)

(** An empty name is falsy: an [agents] record that starts with one has no first agent. *)
Definition firstAgent (content : AgentComposeContent) : option AgentConfig :=
  match ac_agent content with
  | Some a => Some a
  | None =>
      match ac_agents content with
      | None | Some [] => None
      | Some ((firstKey, a) :: _) => if bool_decide (firstKey = []) then None else a
      end
  end.

Definition first_environment (content : AgentComposeContent) : option (Rec jsstr) :=
  a ← firstAgent content; ag_environment a.

Definition resolveFramework (content : AgentComposeContent) : option SupportedFramework :=
  isSupportedFramework (a ← firstAgent content; ag_framework a).

Definition frameworkApiKeyEnv (framework : SupportedFramework) : jsstr :=
  match framework with Codex => js "OPENAI_API_KEY" | ClaudeCode => js "ANTHROPIC_API_KEY" end.

Definition hasExplicitFrameworkApiKey (content : AgentComposeContent) (framework : SupportedFramework) : bool :=
  bool_decide (is_Some (opt_get (first_environment content) (frameworkApiKeyEnv framework))).

Definition runnerGroup (content : AgentComposeContent) : option jsstr :=
  a ← firstAgent content; r ← ag_experimental_runner a; r.

Definition runnerProfile (content : AgentComposeContent) : jsstr :=
  default DEFAULT_PROFILE (a ← firstAgent content; ag_experimental_profile a).

Definition isOfficialRunnerGroup (group : jsstr) : bool :=
  bool_decide (head (split_on SLASH group) = Some (js "vm0")).

(** ** Artifacts *)

Definition expandMountPath (mountPath : option jsstr) : jsstr :=
  match mountPath with
  | None => CANONICAL_WORKING_DIR
  | Some p => if bool_decide (p = MOUNT_PATH_TEMPLATE) then CANONICAL_WORKING_DIR else p
  end.

Definition autoMemoryMountPath (framework : SupportedFramework) : jsstr :=
  match framework with
  | Codex => CANONICAL_CODEX_MEMORY_MOUNT_PATH
  | ClaudeCode => CANONICAL_CLAUDE_MEMORY_MOUNT_PATH
  end.

Definition withAutoMemoryMissingRootPolicy (artifact : ContextArtifact) : ContextArtifact :=
  {| ca_name := ca_name artifact; ca_version := ca_version artifact; ca_mountPath := ca_mountPath artifact;
     ca_missingRootPolicy := Some AUTO_MEMORY_MISSING_ROOT_POLICY |}.

Definition autoMemoryArtifact (framework : SupportedFramework) : ContextArtifact :=
  withAutoMemoryMissingRootPolicy
    {| ca_name := AUTO_MEMORY_ARTIFACT_NAME; ca_version := None;
       ca_mountPath := autoMemoryMountPath framework; ca_missingRootPolicy := None |}.

Definition isCanonicalAutoMemoryArtifact (artifact : ContextArtifact) (framework : SupportedFramework) : bool :=
  bool_decide (ca_name artifact = AUTO_MEMORY_ARTIFACT_NAME) &&
  bool_decide (ca_mountPath artifact = autoMemoryMountPath framework).

Definition withCanonicalAutoMemoryMissingRootPolicy (artifacts : list ContextArtifact)
    (framework : SupportedFramework) : list ContextArtifact :=
  (fun artifact => if isCanonicalAutoMemoryArtifact artifact framework
                   then withAutoMemoryMissingRootPolicy artifact else artifact) <$> artifacts.

Definition claimsAutoMemorySlot (artifact : ContextArtifact) (framework : SupportedFramework) : bool :=
  bool_decide (ca_name artifact = AUTO_MEMORY_ARTIFACT_NAME) ||
  bool_decide (ca_mountPath artifact = autoMemoryMountPath framework).

(** [artifacts.filter((artifact, index) => ...)]. *)
Definition withoutSupersededAutoMemoryArtifacts (artifacts : list ContextArtifact)
    (framework : SupportedFramework) (slotOwnerIndex : nat) : list ContextArtifact :=
  (filter (fun ia => (slotOwnerIndex <= ia.1)%nat \/ isCanonicalAutoMemoryArtifact ia.2 framework = false)
     (zip (seq 0 (length artifacts)) artifacts)).*2.

Definition resolveComposeArtifactMountPath (artifact : ComposeArtifact) : jsstr :=
  expandMountPath (co_mount_path artifact).

Definition composeArtifacts (content : AgentComposeContent) : list ContextArtifact :=
  (fun artifact => {| ca_name := co_name artifact; ca_version := co_version artifact;
                      ca_mountPath := resolveComposeArtifactMountPath artifact;
                      ca_missingRootPolicy := None |}) <$> default [] (ac_artifacts content).

(** The loop from the last index down; [n] indexes are left. *)
Fixpoint lastSlotOwner (artifacts : list ContextArtifact) (framework : SupportedFramework) (n : nat) :
    option nat :=
  match n with
  | O => None
  | S index =>
      match artifacts !! index with
      | Some artifact =>
          if claimsAutoMemorySlot artifact framework then Some index
          else lastSlotOwner artifacts framework index
      | None => lastSlotOwner artifacts framework index
      end
  end.

(** [Boolean(id)]. *)
Definition truthy (s : option jsstr) : bool :=
  match s with None | Some [] => false | Some _ => true end.

Definition runInputArtifacts (resolved : ResolvedCompose) (bodyArtifacts : option (list ContextArtifact)) :
    list ContextArtifact :=
  let isContinuation := truthy (rc_sessionId resolved) || truthy (rc_resumedFromCheckpointId resolved) in
  let baseArtifacts :=
    if isContinuation then rc_artifacts resolved
    else composeArtifacts (rc_content resolved) ++ rc_artifacts resolved in
  baseArtifacts ++ default [] bodyArtifacts.

Definition artifactsForRun (resolved : ResolvedCompose) (framework : SupportedFramework)
    (bodyArtifacts : option (list ContextArtifact)) : list ContextArtifact :=
  let artifacts := runInputArtifacts resolved bodyArtifacts in
  match lastSlotOwner artifacts framework (length artifacts) with
  | None => artifacts ++ [autoMemoryArtifact framework]
  | Some index =>
      match artifacts !! index with
      | Some slotOwner =>
          if negb (isCanonicalAutoMemoryArtifact slotOwner framework) then
            withoutSupersededAutoMemoryArtifacts artifacts framework index
          else withCanonicalAutoMemoryMissingRootPolicy artifacts framework
      | None => artifacts
      end
  end.

(** ** Volumes *)

Definition mergeAdditionalVolumes (prepend base : option (list AdditionalVolume)) :
    option (list AdditionalVolume) :=
  match prepend, base with
  | None, None => None
  | _, _ => Some (default [] prepend ++ default [] base)
  end.

Definition frameworkSkillsMountPath (framework : SupportedFramework) : jsstr :=
  match framework with
  | Codex => js "/home/user/.codex/skills"
  | ClaudeCode => js "/home/user/.claude/skills"
  end.

Definition skillMountPath (framework : SupportedFramework) (skillName : jsstr) : jsstr :=
  frameworkSkillsMountPath framework ++ [SLASH] ++ skillName.

(** [[...new Set(l)]]. *)
Definition unique (l : list jsstr) : list jsstr := set_add_all l [].

(** [flatMap] of one skill; [resolveSkillRef] may throw. *)
Definition skill_volume (framework : SupportedFramework) (skillName : jsstr) : result (list AdditionalVolume) :=
  url ← resolveSkillRef skillName;
  match parseGitHubTreeUrl url with
  | None => Ok []
  | Some parsed =>
      Ok [{| av_name := getSkillStorageName (t_fullPath parsed); av_version := None;
             av_mountPath := skillMountPath framework (t_skillName parsed); av_system := Some true |}]
  end.

Fixpoint flat_map_result {A B} (f : A -> result (list B)) (l : list A) : result (list B) :=
  match l with
  | [] => Ok []
  | x :: l' => y ← f x; ys ← flat_map_result f l'; Ok (y ++ ys)
  end.

Definition buildSystemSkillVolumes (connectorTypes : list jsstr) (framework : SupportedFramework) :
    result (list AdditionalVolume) :=
  flat_map_result (skill_volume framework) (unique (SEED_SKILLS ++ connectorTypes)).

Definition buildCustomSkillVolumes (customSkills : list jsstr) (framework : SupportedFramework) :
    list AdditionalVolume :=
  (fun n => {| av_name := getCustomSkillStorageName n; av_version := None;
               av_mountPath := skillMountPath framework n; av_system := None |}) <$>
  filter (fun n => n ∉ SEED_SKILLS) customSkills.

(** [injectSkillVolumes] is its [customSkills]. *)
Definition buildInjectedSkillVolumes (injectSkillVolumes : option (list jsstr))
    (allowedConnectorTypes : option (list jsstr)) (framework : SupportedFramework) :
    result (option (list AdditionalVolume)) :=
  match injectSkillVolumes with
  | None => Ok None
  | Some customSkills =>
      system ← buildSystemSkillVolumes (default [] allowedConnectorTypes) framework;
      Ok (Some (system ++ buildCustomSkillVolumes customSkills framework))
  end.

(** ** The environment *)

Definition connectorEnvironmentTemplate (envName valueRef : jsstr) : jsstr :=
  if starts_with valueRef CONNECTOR_SECRET_REF_PREFIX then js "${{ secrets." ++ envName ++ js " }}"
  else if starts_with valueRef CONNECTOR_VAR_REF_PREFIX then js "${{ vars." ++ envName ++ js " }}"
  else valueRef.

Definition addConnectorEnvironmentTemplate (environment : Rec jsstr) (envName valueRef : jsstr) : Rec jsstr :=
  if rec_in environment envName then environment
  else rec_set environment envName (connectorEnvironmentTemplate envName valueRef).

(** The arguments of [expandEnvironment] and [missingEnvironmentReferences]. *)
Record EnvironmentArgs := {
  ea_content : AgentComposeContent;
  ea_vars : option (Rec jsstr);
  ea_secrets : option (Rec jsstr);
  ea_additionalEnvironment : option (Rec jsstr);
  ea_environmentFirewalls : option (list FirewallConfig);
  ea_storedConnectorEnvironment : option (Rec jsstr);
  ea_connectorVars : option (Rec jsstr);
}.

Definition environmentTemplates (args : EnvironmentArgs) : option (Rec jsstr) :=
  mergeRecords [ea_additionalEnvironment args; first_environment (ea_content args)].

Definition firewall_placeholders (placeholders : Rec jsstr) (firewall : FirewallConfig) : Rec jsstr :=
  let placeholders := foldl (fun acc n =>
    rec_set acc n (default DEFAULT_PLACEHOLDER (opt_get (fc_placeholders firewall) n)))
    placeholders (extractSecretNamesFromApis (fc_apis firewall)) in
  foldl (fun acc kv => rec_set acc kv.1 kv.2) placeholders (default [] (fc_placeholders firewall)).

Definition firewallSecretPlaceholders (environmentFirewalls : option (list FirewallConfig)) :
    option (Rec jsstr) :=
  match environmentFirewalls with
  | None | Some [] => None
  | Some firewalls => compactRecord (foldl firewall_placeholders [] firewalls)
  end.

Definition effectiveStoredConnectorEnvironment (args : EnvironmentArgs) : option (Rec jsstr) :=
  stored ← ea_storedConnectorEnvironment args;
  match environmentTemplates args with
  | None => Some stored
  | Some overrides =>
      compactRecord (foldl (fun environment kv =>
        match rec_get overrides kv.1 with
        | None => rec_set environment kv.1 kv.2
        | Some _ => environment
        end) [] stored)
  end.

Definition formatMissingReferences (refs : list VariableReference) : jsstr := join (js ", ") (refKey <$> refs).

Definition STORED_MISSING : jsstr := js "Stored connector environment is missing required values: ".

Fixpoint expand_stored (sources : VariableSources) (entries expanded : Rec jsstr) : result (Rec jsstr) :=
  match entries with
  | [] => Ok expanded
  | (key, value) :: entries' =>
      let expansion := expandVariablesInString value sources in
      if bool_decide (missingVars expansion = []) then
        expand_stored sources entries' (rec_set expanded key (exp_result expansion))
      else Throw (STORED_MISSING ++ formatMissingReferences (missingVars expansion))
  end.

Definition expandStoredConnectorEnvironment (environment vars secrets : option (Rec jsstr))
    (environmentFirewalls : option (list FirewallConfig)) : result (option (Rec jsstr)) :=
  match environment with
  | None => Ok None
  | Some env =>
      let secretSources := mergeRecords [secrets; firewallSecretPlaceholders environmentFirewalls] in
      expanded ← expand_stored {| src_env := None; src_vars := vars; src_secrets := secretSources |} env [];
      Ok (compactRecord expanded)
  end.

(** A record of strings as a value and back. *)
Definition record_value (r : Rec jsstr) : JsVal := JObject ((fun kv => (kv.1, JString kv.2)) <$> r).
Definition value_record (v : JsVal) : Rec jsstr :=
  match v with
  | JObject props => omap (fun kv => pair kv.1 <$> as_string kv.2) props
  | _ => []
  end.

Definition environment_sources (args : EnvironmentArgs) : VariableSources :=
  {| src_env := None; src_vars := ea_vars args;
     src_secrets := Some (rec_spread (rec_spread [] (default [] (ea_secrets args)))
       (default [] (firewallSecretPlaceholders (ea_environmentFirewalls args)))) |}.

Definition expandEnvironment (args : EnvironmentArgs) : result (option (Rec jsstr)) :=
  storedConnectorEnvironment ←
    expandStoredConnectorEnvironment (effectiveStoredConnectorEnvironment args) (ea_connectorVars args)
      (ea_secrets args) (ea_environmentFirewalls args);
  match environmentTemplates args with
  | None => Ok storedConnectorEnvironment
  | Some mergedEnvironment =>
      let result := value_record
        (exp_result (expandVariables (record_value mergedEnvironment) (environment_sources args))) in
      Ok (mergeRecords [Some result; storedConnectorEnvironment])
  end.

(** ** Missing references *)

Definition missingReferencesInEnvironment (environment vars secrets : option (Rec jsstr))
    (environmentFirewalls : option (list FirewallConfig)) : list jsstr :=
  match environment with
  | None => []
  | Some env =>
      let grouped := extractAndGroupVariables (record_value env) in
      let firewallPlaceholders := firewallSecretPlaceholders environmentFirewalls in
      let missingVars := (fun ref => js "vars." ++ name ref) <$>
        filter (fun ref => opt_get vars (name ref) = None) (g_vars grouped) in
      let missingSecrets := (fun ref => js "secrets." ++ name ref) <$>
        filter (fun ref => opt_get secrets (name ref) = None /\
                           opt_get firewallPlaceholders (name ref) = None) (g_secrets grouped) in
      missingVars ++ missingSecrets
  end.

Definition assertStoredConnectorEnvironmentReferences (environment vars secrets : option (Rec jsstr))
    (environmentFirewalls : option (list FirewallConfig)) : result unit :=
  let missing := missingReferencesInEnvironment environment vars secrets environmentFirewalls in
  throw_if (negb (bool_decide (missing = []))) (STORED_MISSING ++ join (js ", ") missing).

Definition missingEnvironmentReferences (args : EnvironmentArgs) : result (list jsstr) :=
  _ ← assertStoredConnectorEnvironmentReferences (effectiveStoredConnectorEnvironment args)
        (ea_connectorVars args) (ea_secrets args) (ea_environmentFirewalls args);
  Ok (missingReferencesInEnvironment (environmentTemplates args) (ea_vars args) (ea_secrets args)
        (ea_environmentFirewalls args)).

(** ** Lemmas: records *)

Lemma compact_get r1 r2 k :
  (forall k, rec_own r1 k = rec_own r2 k) -> opt_get (compactRecord r1) k = opt_get (compactRecord r2) k.
Proof.
  intros H. unfold compactRecord. assert (r1 = [] <-> r2 = []) as Hnil
    by (rewrite !rec_own_nil_iff; by setoid_rewrite H).
  destruct r1 as [|e1 r1], r2 as [|e2 r2]; try done; [by destruct Hnil as [[] _]|by destruct Hnil as [_ []]|].
  simpl. unfold rec_get. by rewrite H.
Qed.

Lemma compact_default {A} (r : Rec A) : default [] (compactRecord r) = r.
Proof. by destruct r. Qed.

Lemma compact_own {A} (r : Rec A) k : rec_own (default [] (compactRecord r)) k = rec_own r k.
Proof. by destruct r. Qed.

Lemma compact_built {A} (r : Rec A) : built r -> built (default [] (compactRecord r)).
Proof. by destruct r. Qed.

Definition merged {A} (records : list (option (Rec A))) : Rec A :=
  foldl (fun merged record => match record with Some r => rec_assign merged r | None => merged end) [] records.

Lemma merged_built {A} (records : list (option (Rec A))) : built (merged records).
Proof.
  apply built_foldl; [|apply built_nil]. intros r [x|] Hr; [by apply built_assign|done].
Qed.

Lemma merged_two {A} (a b : option (Rec A)) k :
  NoDup (rec_keys (default [] a)) -> NoDup (rec_keys (default [] b)) ->
  rec_own (merged [a; b]) k =
  if bool_decide (k = PROTO) then None
  else match rec_own (default [] b) k with Some v => Some v | None => rec_own (default [] a) k end.
Proof.
  intros Ha Hb. case_bool_decide as Hk.
  - subst. apply rec_own_None, merged_built.
  - assert (forall x : option (Rec A), NoDup (rec_keys (default [] x)) ->
      rec_own (merged [x]) k = rec_own (default [] x) k) as H1.
    { intros [x|] Hx; [|done]. unfold merged. simpl. rewrite rec_own_assign by done.
      by destruct (rec_own x k). }
    destruct b as [b|]; [|rewrite <- (H1 a) by done; by destruct a].
    simpl default at 1. rewrite <- (H1 a) by done. unfold merged at 1. simpl foldl.
    rewrite rec_own_assign by done. by destruct a.
Qed.

(** ** Lemmas: placeholders *)

Lemma firewall_placeholders_built r fw : built r -> built (firewall_placeholders r fw).
Proof. intros H. apply built_foldl; [intros; by apply built_set|]. apply built_foldl; [intros; by apply built_set|done]. Qed.

Lemma placeholders_built fws : built (default [] (firewallSecretPlaceholders fws)).
Proof.
  unfold firewallSecretPlaceholders. destruct fws as [[|fw fws]|]; [apply built_nil| |apply built_nil].
  apply compact_built, built_foldl; [|apply built_nil]. intros. by apply firewall_placeholders_built.
Qed.

(** The secrets the firewalls inject into requests. *)
Definition firewall_secret_names (fws : option (list FirewallConfig)) : list jsstr :=
  concat ((fun fw => extractSecretNamesFromApis (fc_apis fw)) <$> default [] fws).

Lemma rec_set_keeps {A} (r : Rec A) k v k' : is_Some (rec_own r k') -> is_Some (rec_own (rec_set r k v) k').
Proof.
  intros H. destruct (decide (k = k')) as [->|]; [|by rewrite rec_own_set_other].
  unfold rec_set. destruct (_ && _); [done|]. rewrite rec_own_define. rewrite bool_decide_eq_true_2 by done. eauto.
Qed.

Lemma foldl_set_keeps {A B} (key : B -> jsstr) (val : B -> A) l (r : Rec A) k :
  is_Some (rec_own r k) -> is_Some (rec_own (foldl (fun acc x => rec_set acc (key x) (val x)) r l) k).
Proof. revert r; induction l as [|x l IH]; intros r Hr; simpl; [done|]. apply IH. by apply rec_set_keeps. Qed.

Lemma foldl_set_covers {A B} (key : B -> jsstr) (val : B -> A) l (r : Rec A) k :
  k ∈ key <$> l -> k <> PROTO ->
  is_Some (rec_own (foldl (fun acc x => rec_set acc (key x) (val x)) r l) k).
Proof.
  revert r; induction l as [|x l IH]; intros r Hk Hp; csimpl in *; [set_solver|].
  apply elem_of_cons in Hk as [->|Hk]; [|by apply IH].
  apply foldl_set_keeps. rewrite rec_own_set by done. rewrite bool_decide_eq_true_2 by done. eauto.
Qed.

Lemma firewall_placeholders_keeps r fw k :
  is_Some (rec_own r k) -> is_Some (rec_own (firewall_placeholders r fw) k).
Proof. intros H. apply foldl_set_keeps. by apply (foldl_set_keeps (fun x => x)). Qed.

(** Every secret a firewall injects has a placeholder. *)
Lemma placeholders_cover fws k :
  k ∈ firewall_secret_names fws -> k <> PROTO ->
  is_Some (rec_own (default [] (firewallSecretPlaceholders fws)) k).
Proof.
  unfold firewall_secret_names, firewallSecretPlaceholders. intros Hk Hp.
  destruct fws as [[|fw0 fws0]|]; [set_solver| |set_solver]. rewrite compact_own. simpl default in Hk.
  set (fws := fw0 :: fws0) in *. clearbody fws. clear fw0 fws0.
  assert (forall r, is_Some (rec_own (foldl firewall_placeholders r fws) k)) as H; [|apply H].
  induction fws as [|fw fws IH]; csimpl in *; [set_solver|]. intros r.
  apply elem_of_app in Hk as [Hk|Hk]; [|by apply IH].
  assert (forall l r, is_Some (rec_own r k) -> is_Some (rec_own (foldl firewall_placeholders r l) k)) as Hkeep.
  { induction l as [|x l IHl]; intros r0 Hr0; simpl; [done|]. apply IHl. by apply firewall_placeholders_keeps. }
  apply Hkeep. unfold firewall_placeholders. apply foldl_set_keeps.
  apply (foldl_set_covers (fun x => x)); [by rewrite list_fmap_id|done].
Qed.

(** ** The environment does not reveal injected secrets *)

Definition with_secrets (args : EnvironmentArgs) (secrets : option (Rec jsstr)) : EnvironmentArgs :=
  {| ea_content := ea_content args; ea_vars := ea_vars args; ea_secrets := secrets;
     ea_additionalEnvironment := ea_additionalEnvironment args;
     ea_environmentFirewalls := ea_environmentFirewalls args;
     ea_storedConnectorEnvironment := ea_storedConnectorEnvironment args;
     ea_connectorVars := ea_connectorVars args |}.

(** Two secret records that differ only in secrets the firewalls inject. *)
Definition agree_outside (fws : option (list FirewallConfig)) (s1 s2 : option (Rec jsstr)) : Prop :=
  NoDup (rec_keys (default [] s1)) /\ NoDup (rec_keys (default [] s2)) /\
  forall k, k ∉ firewall_secret_names fws \/ k = PROTO -> rec_own (default [] s1) k = rec_own (default [] s2) k.

Lemma agree_stored fws s1 s2 k :
  agree_outside fws s1 s2 ->
  opt_get (mergeRecords [s1; firewallSecretPlaceholders fws]) k =
  opt_get (mergeRecords [s2; firewallSecretPlaceholders fws]) k.
Proof.
  intros (H1 & H2 & Ha). apply compact_get. clear k. intros k.
  pose proof (placeholders_built fws) as [Hnd _]. fold (merged [s1; firewallSecretPlaceholders fws]).
  fold (merged [s2; firewallSecretPlaceholders fws]). rewrite !merged_two by done.
  case_bool_decide as Hk; [done|]. destruct (rec_own (default [] (firewallSecretPlaceholders fws)) k) eqn:E; [done|].
  apply Ha. left. intros Hin. apply (placeholders_cover _ _ Hin) in Hk. rewrite E in Hk. by destruct Hk.
Qed.

Lemma agree_spread fws s1 s2 k :
  agree_outside fws s1 s2 ->
  rec_get (rec_spread (rec_spread [] (default [] s1)) (default [] (firewallSecretPlaceholders fws))) k =
  rec_get (rec_spread (rec_spread [] (default [] s2)) (default [] (firewallSecretPlaceholders fws))) k.
Proof.
  intros (H1 & H2 & Ha). pose proof (placeholders_built fws) as [Hnd _]. unfold rec_get.
  rewrite !rec_own_spread by done. simpl rec_own.
  destruct (rec_own (default [] (firewallSecretPlaceholders fws)) k) eqn:E; [done|].
  rewrite Ha; [done|]. destruct (decide (k = PROTO)) as [|Hk]; [by right|left]. intros Hin.
  apply (placeholders_cover _ _ Hin) in Hk. rewrite E in Hk. by destruct Hk.
Qed.

Lemma expand_stored_frame s1 s2 entries acc :
  (forall ref, source_value s1 ref = source_value s2 ref) ->
  expand_stored s1 entries acc = expand_stored s2 entries acc.
Proof.
  intros H. revert acc. induction entries as [|[k v] entries IH]; intros acc; simpl; [done|].
  rewrite (expand_string_frame v s1 s2) by auto. case_bool_decide; [apply IH|done].
Qed.

Lemma stored_frame env vars fws s1 s2 :
  agree_outside fws s1 s2 ->
  expandStoredConnectorEnvironment env vars s1 fws = expandStoredConnectorEnvironment env vars s2 fws.
Proof.
  intros Ha. unfold expandStoredConnectorEnvironment. destruct env as [env|]; [|done].
  erewrite expand_stored_frame; [done|]. intros [[] n]; [done..|]. by apply agree_stored.
Qed.

(** C6: The environment of the sandbox does not depend on the value of any secret a
    firewall of the run injects: replacing those values changes neither the
    environment nor the error. *)
Theorem expandEnvironment_hides_secrets args s1 s2 :
  agree_outside (ea_environmentFirewalls args) s1 s2 ->
  expandEnvironment (with_secrets args s1) = expandEnvironment (with_secrets args s2).
Proof.
  intros Ha. unfold expandEnvironment.
  change (environmentTemplates (with_secrets args s1)) with (environmentTemplates (with_secrets args s2)).
  change (effectiveStoredConnectorEnvironment (with_secrets args s1))
    with (effectiveStoredConnectorEnvironment (with_secrets args s2)).
  rewrite (stored_frame _ _ _ s1 s2 Ha). destruct (expandStoredConnectorEnvironment _ _ _ _); [|done].
  simpl mbind. destruct (environmentTemplates (with_secrets args s2)); [|done].
  rewrite (expand_frame _ (environment_sources (with_secrets args s1))
             (environment_sources (with_secrets args s2))); [done|].
  intros [[] n] _; [done..|]. by apply agree_spread.
Qed.

Definition example_firewall : FirewallConfig :=
  {| fc_name := js "github"; fc_description := None;
     fc_apis := [{| api_base := js "https://api.github.com";
                    api_auth := {| auth_headers := Some [(js "Authorization", js "Bearer ${{ secrets.GH }}")];
                                   auth_base := None; auth_query := None; auth_awsSigv4 := None |};
                    api_permissions := None |}];
     fc_placeholders := None |}.

Definition example_args : EnvironmentArgs :=
  {| ea_content := {| ac_agent := Some {| ag_framework := None;
        ag_environment := Some [(js "TOKEN", js "${{ secrets.GH }}-${{ vars.X }}")];
        ag_experimental_runner := None; ag_experimental_profile := None |};
        ac_agents := None; ac_artifacts := None |};
     ea_vars := Some [(js "X", js "1")]; ea_secrets := None; ea_additionalEnvironment := None;
     ea_environmentFirewalls := Some [example_firewall];
     ea_storedConnectorEnvironment := Some [(js "GH2", js "${{ secrets.GH }}"); (js "TOKEN", js "old")];
     ea_connectorVars := None |}.

Lemma expandEnvironment_hides_secrets_witness :
  expandEnvironment (with_secrets example_args (Some [(js "GH", js "real")])) =
    Ok (Some [(js "TOKEN", js "c0ffee5afe10ca1c0ffee5afe10ca1c0ffee5afe-1");
              (js "GH2", js "c0ffee5afe10ca1c0ffee5afe10ca1c0ffee5afe")]) /\
  expandEnvironment (with_secrets example_args (Some [(js "GH", js "real")])) =
  expandEnvironment (with_secrets example_args None).
Proof.
  split; [vm_compute; reflexivity|]. apply (expandEnvironment_hides_secrets example_args).
  split_and!; [apply NoDup_singleton|constructor|].
  assert (firewall_secret_names (ea_environmentFirewalls example_args) = [js "GH"]) as ->
    by (vm_compute; reflexivity).
  intros k Hk. destruct (decide (k = js "GH")) as [->|Hne]; [destruct Hk as [Hk|Hk]; [set_solver|done]|].
  apply rec_own_None. set_solver.
Defined.

(** ** Validation and expansion agree *)

(** A reference that is neither to [env] nor to a name every object inherits. *)
Definition ordinary (ref : VariableReference) : Prop :=
  source ref <> SrcEnv /\ name ref ∉ object_prototype_names.

Lemma opt_get_ordinary r n : n ∉ object_prototype_names -> opt_get r n = rec_own (default [] r) n.
Proof.
  intros Hn. assert (inherited_text n = None) as E
    by (rewrite eq_None_not_Some, inherited_text_names; done).
  destruct r as [r|]; [|done]. simpl. unfold rec_get. by destruct (rec_own r n).
Qed.

Lemma PROTO_inherited : PROTO ∈ object_prototype_names.
Proof. rewrite <- (bool_decide_eq_true (PROTO ∈ object_prototype_names)). reflexivity. Qed.

(** A source of validation, against either record of secrets of the expansion. *)
Definition resolvable (vars secrets : option (Rec jsstr)) (fws : option (list FirewallConfig))
    (ref : VariableReference) : Prop :=
  match source ref with
  | SrcEnv => False
  | SrcVars => opt_get vars (name ref) <> None
  | SrcSecrets => opt_get secrets (name ref) <> None \/ opt_get (firewallSecretPlaceholders fws) (name ref) <> None
  end.

Lemma resolvable_stored vars secrets fws ref :
  NoDup (rec_keys (default [] secrets)) -> ordinary ref ->
  source_value {| src_env := None; src_vars := vars;
                  src_secrets := mergeRecords [secrets; firewallSecretPlaceholders fws] |} ref <> None <->
  resolvable vars secrets fws ref.
Proof.
  intros Hnd [Hs Hn]. pose proof (placeholders_built fws) as [Hph _]. pose proof PROTO_inherited.
  unfold resolvable, source_value. destruct ref as [[] n]; simpl in *; [done|done|].
  rewrite !opt_get_ordinary by done. unfold mergeRecords. rewrite compact_own.
  fold (merged [secrets; firewallSecretPlaceholders fws]). rewrite merged_two by done.
  rewrite bool_decide_eq_false_2 by (by intros ->).
  destruct (rec_own (default [] (firewallSecretPlaceholders fws)) n), (rec_own (default [] secrets) n); naive_solver.
Qed.

Lemma resolvable_template args ref :
  NoDup (rec_keys (default [] (ea_secrets args))) -> ordinary ref ->
  source_value (environment_sources args) ref <> None <->
  resolvable (ea_vars args) (ea_secrets args) (ea_environmentFirewalls args) ref.
Proof.
  intros Hnd [Hs Hn]. pose proof (placeholders_built (ea_environmentFirewalls args)) as [Hph _].
  unfold resolvable, source_value, environment_sources. destruct ref as [[] n]; simpl in *; [done|done|].
  assert (inherited_text n = None) as E by (rewrite eq_None_not_Some, inherited_text_names; done).
  rewrite !opt_get_ordinary by done. unfold rec_get. rewrite !rec_own_spread by done. simpl rec_own. rewrite E.
  destruct (rec_own (default [] (firewallSecretPlaceholders (ea_environmentFirewalls args))) n),
    (rec_own (default [] (ea_secrets args)) n); naive_solver.
Qed.

Lemma missing_nil environment vars secrets fws :
  (forall ref, ref ∈ extractVariableReferences (record_value (default [] environment)) -> ordinary ref) ->
  missingReferencesInEnvironment environment vars secrets fws = [] <->
  forall ref, ref ∈ extractVariableReferences (record_value (default [] environment)) ->
    resolvable vars secrets fws ref.
Proof.
  intros Hord. unfold missingReferencesInEnvironment. destruct environment as [env|].
  2: { split; [|done]. intros _ ref Hin. by apply elem_of_nil in Hin. }
  simpl default in *. unfold extractAndGroupVariables. rewrite groupVariables_spec. cbn [g_vars g_secrets].
  set (refs := extractVariableReferences (record_value env)) in *.
  rewrite app_nil_iff, !fmap_nil_iff, !filter_nil_iff. setoid_rewrite list_elem_of_filter.
  unfold resolvable. split.
  - intros [H1 H2] ref Hin. destruct (Hord ref Hin) as [Hs _]. specialize (H1 ref). specialize (H2 ref).
    destruct (source ref) eqn:E; [done|by apply H1|].
    destruct (opt_get secrets (name ref)) eqn:Es; [by left|].
    destruct (opt_get (firewallSecretPlaceholders fws) (name ref)) eqn:Ep; [by right|].
    by destruct (H2 (conj eq_refl Hin)).
  - intros Hres. split; intros ref [Hsrc Hin] Hn; specialize (Hres ref Hin); rewrite Hsrc in Hres; naive_solver.
Qed.

Lemma fmap_record_refs env ref :
  ref ∈ extractVariableReferences (record_value env) <->
  exists kv, kv ∈ env /\ ref ∈ extractVariableReferencesFromString kv.2.
Proof.
  rewrite extract_refs, elem_of_nub. simpl. rewrite <- list_fmap_compose, elem_of_concat.
  split.
  - intros (l & Hl & (kv & -> & Hkv)%list_elem_of_fmap). eauto.
  - intros (kv & Hkv & Hl). eexists. split; [exact Hl|]. apply list_elem_of_fmap. by exists kv.
Qed.

Lemma expand_stored_ok sources entries acc :
  is_ok (expand_stored sources entries acc) = true <->
  forall ref, ref ∈ extractVariableReferences (record_value entries) -> source_value sources ref <> None.
Proof.
  setoid_rewrite fmap_record_refs. revert acc. induction entries as [|[k v] entries IH]; intros acc; simpl.
  - split; [|done]. intros _ ref (kv & Hin & _). set_solver.
  - case_bool_decide as E.
    + rewrite IH. rewrite string_missing_nil in E. split; [|set_solver].
      intros H ref (kv & [->|Hin]%elem_of_cons & Href); [by apply E|]. eauto.
    + split; [done|]. intros H. destruct E. apply string_missing_nil. intros ref Href. apply H.
      exists (k, v). split; [by left|done].
Qed.

(** On ordinary references the validation accepts a run exactly when the expansion of
    the stored connector environment succeeds and the expansion of the compose
    environment leaves no reference behind. *)
Theorem environment_validation args :
  NoDup (rec_keys (default [] (ea_secrets args))) ->
  (forall ref, ref ∈ extractVariableReferences (record_value (default [] (effectiveStoredConnectorEnvironment args))) ++
                     extractVariableReferences (record_value (default [] (environmentTemplates args))) ->
    ordinary ref) ->
  missingEnvironmentReferences args = Ok [] <->
  is_ok (expandEnvironment args) = true /\
  missingVars (expandVariables (record_value (default [] (environmentTemplates args)))
                 (environment_sources args)) = [].
Proof.
  intros Hnd Hord. unfold missingEnvironmentReferences, assertStoredConnectorEnvironmentReferences, throw_if.
  setoid_rewrite elem_of_app in Hord. set (stored := effectiveStoredConnectorEnvironment args) in *.
  assert (is_ok (expandEnvironment args) = true <->
          missingReferencesInEnvironment stored (ea_connectorVars args) (ea_secrets args)
            (ea_environmentFirewalls args) = []) as ->.
  { rewrite missing_nil by auto. unfold expandEnvironment, expandStoredConnectorEnvironment. fold stored.
    destruct stored as [env|].
    - pose proof (expand_stored_ok {| src_env := None; src_vars := ea_connectorVars args;
        src_secrets := mergeRecords [ea_secrets args;
          firewallSecretPlaceholders (ea_environmentFirewalls args)] |} env []) as Hok.
      transitivity (is_ok (expand_stored {| src_env := None; src_vars := ea_connectorVars args;
        src_secrets := mergeRecords [ea_secrets args;
          firewallSecretPlaceholders (ea_environmentFirewalls args)] |} env []) = true).
      { destruct (expand_stored _ _ _); simpl; [|done]. by destruct (environmentTemplates args). }
      rewrite Hok. simpl default in *. split; intros H ref Hin; [|].
      + apply resolvable_stored; auto.
      + apply resolvable_stored; auto.
    - simpl. split; [intros _ ref Hin; by apply elem_of_nil in Hin|]. by destruct (environmentTemplates args). }
  assert (missingVars (expandVariables (record_value (default [] (environmentTemplates args)))
            (environment_sources args)) = [] <->
          missingReferencesInEnvironment (environmentTemplates args) (ea_vars args) (ea_secrets args)
            (ea_environmentFirewalls args) = []) as ->.
  { rewrite missing_nil by auto. rewrite expandVariables_eq. cbn [missingVars].
    rewrite <- filter_nub, <- extract_refs, filter_nil_iff.
    split; intros H ref Hin; [apply resolvable_template; auto; by apply H|].
    intros Hn. by apply (proj2 (resolvable_template args ref Hnd (Hord ref (or_intror Hin)))); auto. }
  case_bool_decide as E; simpl; [|split; [done|by intros [? _]]]. rewrite E. split; [|by intros [_ ->]].
  intros H. split; [done|]. by apply (inj Ok) in H.
Qed.

Lemma environment_validation_witness :
  missingEnvironmentReferences example_args = Ok [] /\
  is_ok (expandEnvironment example_args) = true.
Proof.
  assert (missingEnvironmentReferences example_args = Ok []) as H by (vm_compute; reflexivity).
  split; [done|]. refine (proj1 (proj1 (environment_validation example_args _ _) H)).
  - constructor.
  - intros ref Hin. vm_compute in Hin.
    repeat (apply elem_of_cons in Hin as [->|Hin]); [..|by apply elem_of_nil in Hin];
      (split; [done|]); by refine (bool_decide_eq_false_1 (_ ∈ object_prototype_names) _).
Defined.

(** ** Precedence *)

Lemma rec_own_fmap {A B} (f : A -> B) (r : Rec A) k :
  rec_own ((fun kv => (kv.1, f kv.2)) <$> r) k = f <$> rec_own r k.
Proof. induction r as [|[k0 v] r IH]; csimpl; [done|]. by case_bool_decide. Qed.

Lemma map_record f m : built m ->
  value_record (map_strings f (record_value m)) = (fun kv => (kv.1, f kv.2)) <$> m.
Proof.
  intros [Hnd Hp]. simpl.
  assert (forall acc, (forall k, k ∈ acc.*1 -> k ∉ m.*1) ->
    foldl (fun acc kv => rec_set acc kv.1 (map_strings f kv.2)) acc ((fun kv => (kv.1, JString kv.2)) <$> m) =
    acc ++ ((fun kv => (kv.1, JString (f kv.2))) <$> m)) as H.
  { induction m as [|[k v] m IH]; intros acc Hacc; csimpl in *; [by rewrite app_nil_r|].
    apply NoDup_cons in Hnd as [Hk Hnd]. apply not_elem_of_cons in Hp as [? ?].
    rewrite rec_set_fresh; [|set_solver|done]. rewrite IH; [by rewrite <- app_assoc|done|done|].
    intros k'. rewrite fmap_app. set_solver. }
  rewrite H by set_solver. simpl. clear. induction m as [|[k v] m IH]; csimpl; [done|]. by rewrite IH.
Qed.

Lemma foldl_cond_own {A} (P : jsstr -> bool) (l acc : Rec A) k :
  NoDup (rec_keys l) -> k <> PROTO ->
  rec_own (foldl (fun acc kv => if P kv.1 then rec_set acc kv.1 kv.2 else acc) acc l) k =
  if P k then match rec_own l k with Some v => Some v | None => rec_own acc k end else rec_own acc k.
Proof.
  revert acc; induction l as [|[k0 v] l IH]; intros acc Hnd Hk; csimpl in *; [by destruct (P k)|].
  apply NoDup_cons in Hnd as [Hk0 Hnd]. rewrite IH by done. case_bool_decide as E.
  - subst. rewrite (proj2 (rec_own_None l k)) by done. destruct (P k); [|done].
    rewrite rec_own_set by done. by rewrite bool_decide_eq_true_2.
  - destruct (P k0); [|done]. by rewrite rec_own_set_other.
Qed.

Lemma expand_stored_own sources entries acc r k :
  NoDup (rec_keys entries) -> k <> PROTO -> expand_stored sources entries acc = Ok r ->
  rec_own r k = match rec_own entries k with
                | Some t => Some (exp_result (expandVariablesInString t sources))
                | None => rec_own acc k end.
Proof.
  revert acc; induction entries as [|[k0 v] entries IH]; intros acc Hnd Hk; csimpl in *; [by intros [= <-]|].
  apply NoDup_cons in Hnd as [Hk0 Hnd]. case_bool_decide; [|done]. intros H1.
  rewrite (IH _ Hnd Hk H1). case_bool_decide as E.
  - subst. rewrite (proj2 (rec_own_None entries k)) by done. rewrite rec_own_set by done.
    by rewrite bool_decide_eq_true_2.
  - by rewrite rec_own_set_other.
Qed.

Lemma expand_stored_built sources entries acc r :
  built acc -> expand_stored sources entries acc = Ok r -> built r.
Proof.
  revert acc; induction entries as [|[k0 v] entries IH]; intros acc Hb; simpl; [by intros [= <-]|].
  case_bool_decide; [|done]. apply IH. by apply built_set.
Qed.

Lemma foldl_keys_sublist {A} (P : jsstr -> bool) (l acc : Rec A) :
  NoDup (rec_keys acc) ->
  NoDup (rec_keys (foldl (fun acc kv => if P kv.1 then rec_set acc kv.1 kv.2 else acc) acc l)).
Proof.
  revert acc; induction l as [|kv l IH]; intros acc H; simpl; [done|]. apply IH.
  destruct (P kv.1); [by apply NoDup_rec_set|done].
Qed.

Definition stored_sources (args : EnvironmentArgs) : VariableSources :=
  {| src_env := None; src_vars := ea_connectorVars args;
     src_secrets := mergeRecords [ea_secrets args; firewallSecretPlaceholders (ea_environmentFirewalls args)] |}.

Definition not_overridden (overrides : Rec jsstr) (k : jsstr) : bool :=
  match rec_get overrides k with None => true | Some _ => false end.

(** The stored entries that no override hides. *)
Lemma effective_own args k :
  NoDup (rec_keys (default [] (ea_storedConnectorEnvironment args))) -> k ∉ object_prototype_names ->
  NoDup (rec_keys (default [] (effectiveStoredConnectorEnvironment args))) /\
  rec_own (default [] (effectiveStoredConnectorEnvironment args)) k =
  match rec_own (default [] (environmentTemplates args)) k with
  | Some _ => None
  | None => rec_own (default [] (ea_storedConnectorEnvironment args)) k
  end.
Proof.
  intros Hnd Hk. unfold effectiveStoredConnectorEnvironment.
  destruct (ea_storedConnectorEnvironment args) as [stored|]; simpl; [|by destruct (rec_own _ k)].
  destruct (environmentTemplates args) as [overrides|] eqn:E; simpl; [|done].
  assert (foldl (fun environment kv => match rec_get overrides kv.1 with
        | None => rec_set environment kv.1 kv.2 | Some _ => environment end) [] stored =
      foldl (fun acc kv => if not_overridden overrides kv.1 then rec_set acc kv.1 kv.2 else acc)
        [] stored) as ->.
  { generalize (@nil (jsstr * jsstr)) as acc. clear. induction stored as [|kv l IH]; intros acc; simpl; [done|].
    rewrite IH. f_equal. unfold not_overridden. by destruct (rec_get overrides kv.1). }
  rewrite compact_default.
  split; [apply (foldl_keys_sublist (not_overridden overrides)); constructor|].
  rewrite (foldl_cond_own (not_overridden overrides)); [|done|].
  2: { intros ->. apply Hk, PROTO_inherited. }
  pose proof (opt_get_ordinary (Some overrides) k Hk) as Hg. simpl in Hg.
  unfold not_overridden. rewrite Hg. destruct (rec_own overrides k); simpl; [done|]. by destruct (rec_own stored k).
Qed.

Lemma stored_built env vars secrets fws st :
  expandStoredConnectorEnvironment env vars secrets fws = Ok st -> built (default [] st).
Proof.
  unfold expandStoredConnectorEnvironment. destruct env as [env|]; [|intros [= <-]; apply built_nil].
  intros (r & Hr & [= <-])%result_bind_ok. apply compact_built. eapply expand_stored_built; [|done].
  apply built_nil.
Qed.

(** The value of a variable: the compose environment before the provider's additional
    environment before the stored connector environment, each expanded with its own
    sources; nothing else is defined. *)
Theorem expandEnvironment_precedence args e k :
  NoDup (rec_keys (default [] (first_environment (ea_content args)))) ->
  NoDup (rec_keys (default [] (ea_additionalEnvironment args))) ->
  NoDup (rec_keys (default [] (ea_storedConnectorEnvironment args))) ->
  expandEnvironment args = Ok e -> k ∉ object_prototype_names ->
  rec_own (default [] e) k =
  match rec_own (default [] (first_environment (ea_content args))) k,
        rec_own (default [] (ea_additionalEnvironment args)) k,
        rec_own (default [] (ea_storedConnectorEnvironment args)) k with
  | Some t, _, _ | None, Some t, _ => Some (exp_result (expandVariablesInString t (environment_sources args)))
  | None, None, Some t => Some (exp_result (expandVariablesInString t (stored_sources args)))
  | None, None, None => None
  end.
Proof.
  intros Hc Ha Hs H Hk. assert (k <> PROTO) as Hp by (intros ->; apply Hk, PROTO_inherited).
  destruct (effective_own args k Hs Hk) as [Hnd Heff].
  unfold expandEnvironment in H. apply result_bind_ok in H as (st & Hst & H).
  assert (rec_own (default [] st) k =
    (fun t => exp_result (expandVariablesInString t (stored_sources args))) <$>
      rec_own (default [] (effectiveStoredConnectorEnvironment args)) k) as Hown.
  { unfold expandStoredConnectorEnvironment in Hst.
    destruct (effectiveStoredConnectorEnvironment args) as [env|]; simpl in Hnd |- *; [|by simplify_eq].
    apply result_bind_ok in Hst as (r & Hr & [= <-]). rewrite compact_own.
    rewrite (expand_stored_own _ _ _ _ k Hnd Hp Hr). by destruct (rec_own env k). }
  assert (rec_own (default [] (environmentTemplates args)) k =
    match rec_own (default [] (first_environment (ea_content args))) k with
    | Some t => Some t | None => rec_own (default [] (ea_additionalEnvironment args)) k end) as Htpl.
  { unfold environmentTemplates, mergeRecords. rewrite compact_own.
    fold (merged [ea_additionalEnvironment args; first_environment (ea_content args)]).
    rewrite merged_two by done. by rewrite bool_decide_eq_false_2. }
  rewrite Heff in Hown. rewrite Htpl in Hown. apply stored_built in Hst.
  destruct (environmentTemplates args) as [m|] eqn:Em; apply (inj Ok) in H as <-.
  - unfold mergeRecords. rewrite compact_own. rewrite expandVariables_eq. cbn [exp_result].
    assert (built m) as Hm.
    { pose proof (compact_built _ (merged_built [ea_additionalEnvironment args; first_environment (ea_content args)]))
        as Hb. unfold environmentTemplates, mergeRecords in Em. unfold merged in Hb. by rewrite Em in Hb. }
    rewrite map_record by done.
    fold (merged [Some ((fun kv : jsstr * jsstr => (kv.1, exp_result (expandVariablesInString kv.2
      (environment_sources args)))) <$> m); st]).
    rewrite merged_two; [|by simpl; unfold rec_keys; rewrite <- list_fmap_compose; apply Hm|apply Hst].
    rewrite bool_decide_eq_false_2 by done. simpl default.
    rewrite (rec_own_fmap (fun t => exp_result (expandVariablesInString t (environment_sources args)))), Hown.
    simpl default in Htpl.
    rewrite Htpl. destruct (rec_own (default [] (first_environment _)) k); [done|].
    destruct (rec_own (default [] (ea_additionalEnvironment args)) k); [done|].
    by destruct (rec_own (default [] (ea_storedConnectorEnvironment args)) k).
  - simpl in Htpl. rewrite Hown. destruct (rec_own (default [] (first_environment _)) k); [done|].
    rewrite <- Htpl. by destruct (rec_own (default [] (ea_storedConnectorEnvironment args)) k).
Qed.

Lemma expandEnvironment_precedence_witness :
  rec_own (default [] (match expandEnvironment example_args with Ok e => e | Throw _ => None end)) (js "TOKEN") =
  Some (js "c0ffee5afe10ca1c0ffee5afe10ca1c0ffee5afe-1").
Proof.
  rewrite (expandEnvironment_precedence example_args); [vm_compute; reflexivity|..].
  - apply NoDup_singleton.
  - constructor.
  - by apply (bool_decide_eq_true_1 (NoDup [js "GH2"; js "TOKEN"])).
  - vm_compute. reflexivity.
  - by refine (bool_decide_eq_false_1 (_ ∈ object_prototype_names) _).
Defined.

(** ** Artifacts *)

Lemma lastSlotOwner_spec l fw n :
  (n <= length l)%nat ->
  match lastSlotOwner l fw n with
  | Some i => (i < n)%nat /\ exists a, l !! i = Some a /\ claimsAutoMemorySlot a fw = true /\
      forall j b, (i < j < n)%nat -> l !! j = Some b -> claimsAutoMemorySlot b fw = false
  | None => forall j b, (j < n)%nat -> l !! j = Some b -> claimsAutoMemorySlot b fw = false
  end.
Proof.
  induction n as [|n IH]; intros Hn; simpl; [intros; lia|]. specialize (IH ltac:(lia)).
  destruct (lookup_lt_is_Some_2 l n ltac:(lia)) as [a Ha]. rewrite Ha.
  destruct (claimsAutoMemorySlot a fw) eqn:E; [by split; [lia|]; exists a; split_and!; try done; intros; lia|].
  destruct (lastSlotOwner l fw n) as [i|].
  - destruct IH as (Hi & b & Hb & Hc & Hrest). split; [lia|]. exists b. split_and!; try done.
    intros j c Hj Hc'. destruct (decide (j = n)) as [->|]; [congruence|]. apply (Hrest j); [lia|done].
  - intros j b Hj Hb. destruct (decide (j = n)) as [->|]; [congruence|]. apply (IH j); [lia|done].
Qed.

Lemma canonical_claims a fw : isCanonicalAutoMemoryArtifact a fw = true -> claimsAutoMemorySlot a fw = true.
Proof. unfold isCanonicalAutoMemoryArtifact, claimsAutoMemorySlot. by intros [-> _]%andb_true_iff. Qed.

Lemma filter_zip_seq {A} (P : nat * A -> Prop) (Q : A -> Prop) `{forall x, Decision (P x)}
    `{forall x, Decision (Q x)} (l : list A) n :
  (forall i a, l !! i = Some a -> P ((n + i)%nat, a) <-> Q a) ->
  (filter P (zip (seq n (length l)) l)).*2 = filter Q l.
Proof.
  revert n; induction l as [|a l IH]; intros n HPQ; [done|]. simpl. rewrite !filter_cons.
  destruct (HPQ 0%nat a eq_refl) as [H1 H2]. rewrite Nat.add_0_r in H1, H2.
  assert ((filter P (zip (seq (S n) (length l)) l)).*2 = filter Q l) as IH'.
  { apply IH. intros i b Hb. rewrite Nat.add_succ_comm. by apply (HPQ (S i)). }
  case_decide; case_decide; csimpl; rewrite ?IH'; tauto.
Qed.

Lemma last_filter_lookup {A} (P : A -> Prop) `{forall x, Decision (P x)} (l : list A) i a :
  l !! i = Some a -> P a -> (forall j b, (i < j)%nat -> l !! j = Some b -> ~ P b) -> last (filter P l) = Some a.
Proof.
  intros Hi HP Hrest. rewrite <- (take_drop_middle l i a Hi). rewrite filter_app, filter_cons_True by done.
  replace (filter P (drop (S i) l)) with (@nil A).
  - by rewrite last_snoc.
  - symmetry. apply filter_nil_iff. intros x [j Hj]%list_elem_of_lookup. rewrite lookup_drop in Hj.
    by apply (Hrest (S i + j)%nat); [lia|].
Qed.

(** The auto memory slot goes to the last artifact that claims it by name or by mount
    path. A canonical owner makes every canonical artifact keep its parent version,
    another owner removes the canonical ones, and without an owner the memory
    artifact is added: the slot is always claimed, and canonical artifacts always
    carry the policy. *)
Theorem artifactsForRun_spec resolved fw body :
  let artifacts := runInputArtifacts resolved body in
  let out := artifactsForRun resolved fw body in
  match last (filter (fun a => claimsAutoMemorySlot a fw = true) artifacts) with
  | None => out = artifacts ++ [autoMemoryArtifact fw]
  | Some owner =>
      if isCanonicalAutoMemoryArtifact owner fw
      then out = withCanonicalAutoMemoryMissingRootPolicy artifacts fw
      else out = filter (fun a => isCanonicalAutoMemoryArtifact a fw = false) artifacts
  end /\
  (exists a, a ∈ out /\ claimsAutoMemorySlot a fw = true) /\
  (forall a, a ∈ out -> isCanonicalAutoMemoryArtifact a fw = true ->
     ca_missingRootPolicy a = Some AUTO_MEMORY_MISSING_ROOT_POLICY).
Proof.
  cbn zeta. unfold artifactsForRun. set (l := runInputArtifacts resolved body).
  pose proof (lastSlotOwner_spec l fw (length l) ltac:(lia)) as H.
  destruct (lastSlotOwner l fw (length l)) as [i|].
  - destruct H as (Hi & owner & Ho & Hc & Hrest). rewrite Ho.
    assert (forall j b, (i < j)%nat -> l !! j = Some b -> claimsAutoMemorySlot b fw = false) as Hlater.
    { intros j b Hj Hb. apply (Hrest j); [|done]. split; [lia|]. by eapply lookup_lt_Some. }
    rewrite (last_filter_lookup _ l i owner) by (try done; intros j b Hj Hb; by rewrite (Hlater j b)).
    apply list_elem_of_lookup_2 in Ho as Hin.
    destruct (isCanonicalAutoMemoryArtifact owner fw) eqn:Ec; simpl negb; cbv iota.
    + split_and!; [done| |].
      * exists (withAutoMemoryMissingRootPolicy owner). split; [|done].
        apply list_elem_of_fmap. exists owner. by rewrite Ec.
      * intros a (b & -> & Hb)%list_elem_of_fmap. destruct (isCanonicalAutoMemoryArtifact b fw) eqn:Eb; [done|].
        by rewrite Eb.
    + assert (withoutSupersededAutoMemoryArtifacts l fw i =
              filter (fun a => isCanonicalAutoMemoryArtifact a fw = false) l) as ->.
      { apply filter_zip_seq. intros j b Hj. simpl. split; [|by right]. intros [Hge|]; [|done].
        destruct (isCanonicalAutoMemoryArtifact b fw) eqn:Eb; [|done]. destruct (decide (j = i)) as [->|].
        - congruence.
        - apply canonical_claims in Eb. rewrite (Hlater j) in Eb; [done|lia|done]. }
      split_and!; [done| |].
      * exists owner. by rewrite list_elem_of_filter.
      * intros a [Ha _]%list_elem_of_filter. by rewrite Ha.
  - assert (filter (fun a => claimsAutoMemorySlot a fw = true) l = []) as ->.
    { apply filter_nil_iff. intros a [j Hj]%list_elem_of_lookup. rewrite (H j); [done| |done].
      by eapply lookup_lt_Some. }
    split_and!; [done| |].
    + exists (autoMemoryArtifact fw). split; [set_solver|]. by destruct fw.
    + intros a [Ha|Ha%list_elem_of_singleton]%elem_of_app Hcan; [|by subst].
      apply list_elem_of_lookup in Ha as [j Hj]. apply canonical_claims in Hcan.
      rewrite (H j) in Hcan; [done| |done]. by eapply lookup_lt_Some.
Qed.

(** ** Skill volumes *)

Definition is_bare_name (n : jsstr) : Prop := n <> [] /\ SLASH ∉ n /\ one_line n = true /\ trimmed n.

Lemma unique_spec l : NoDup (unique l) /\ forall x, x ∈ unique l <-> x ∈ l.
Proof.
  split; [apply NoDup_set_add_all; constructor|]. intros x. unfold unique. rewrite elem_of_set_add_all. set_solver.
Qed.

Lemma SEED_SKILLS_bare : Forall is_bare_name SEED_SKILLS.
Proof.
  unfold SEED_SKILLS. repeat (apply Forall_cons; split); [..|by apply Forall_nil];
    (split_and!; [done|by refine (bool_decide_eq_false_1 (_ ∈ _) _)|reflexivity|split; by intros c [= <-]]).
Qed.

(** The volume of a bare skill name. *)
Lemma skill_volume_bare fw n :
  is_bare_name n -> exists v, skill_volume fw n = Ok [v] /\ av_mountPath v = skillMountPath fw n /\
    av_system v = Some true /\
    av_name v = js "agent-skills@vm0-ai/vm0-skills/tree/main/" ++ n.
Proof.
  intros (Hne & Hs & Hl & Ht). unfold skill_volume.
  assert (resolveSkillRef n = Ok (tree_url DEFAULT_SKILLS_OWNER DEFAULT_SKILLS_REPO DEFAULT_SKILLS_BRANCH ++
    path_suffix (Some n))) as ->.
  { unfold resolveSkillRef. rewrite trim_id by done. rewrite bool_decide_eq_false_2 by done.
    rewrite (proj2 (includes_char_false n SLASH)) by done. cbn [negb andb].
    destruct (starts_with n (js "https://")) eqn:E; [|done].
    apply starts_with_spec in E as (r & ->). destruct Hs. apply elem_of_app. left.
    by refine (bool_decide_eq_true_1 (_ ∈ _) _). }
  cbn [mbind result_bind]. rewrite parse_parts.
  - cbn [default t_skillName t_fullPath]. rewrite split_on_segment by done.
    eexists. split_and!; [reflexivity|done|done|reflexivity].
  - by refine (conj _ (bool_decide_eq_false_1 (_ ∈ _) _)).
  - by refine (conj _ (bool_decide_eq_false_1 (_ ∈ _) _)).
  - by refine (conj _ (bool_decide_eq_false_1 (_ ∈ _) _)).
  - intros q [= <-]. split; [done|]. rewrite <- (app_nil_l n). by apply last_segment_char.
  - apply one_line_app. split; [reflexivity|]. by apply (one_line_app [SLASH] n).
Qed.

#[export] Instance skillMountPath_inj fw : Inj (=) (=) (skillMountPath fw).
Proof. intros a b. unfold skillMountPath. by intros ?%app_inv_head%app_inv_head. Qed.

(** Every seed skill and every allowed connector gets one system volume, named after
    its path in the skills repository, and no two volumes share a mount path. *)
Theorem buildSystemSkillVolumes_spec types fw :
  Forall is_bare_name types ->
  exists vols, buildSystemSkillVolumes types fw = Ok vols /\
    av_mountPath <$> vols = skillMountPath fw <$> unique (SEED_SKILLS ++ types) /\
    NoDup (av_mountPath <$> vols) /\
    Forall (fun v => av_system v = Some true) vols /\
    forall n, n ∈ SEED_SKILLS \/ n ∈ types -> exists v, v ∈ vols /\ av_mountPath v = skillMountPath fw n /\
      av_name v = js "agent-skills@vm0-ai/vm0-skills/tree/main/" ++ n.
Proof.
  intros Ht. unfold buildSystemSkillVolumes. destruct (unique_spec (SEED_SKILLS ++ types)) as [Hnd Helem].
  assert (Forall is_bare_name (unique (SEED_SKILLS ++ types))) as Hb.
  { apply Forall_forall. intros n Hn. apply Helem, elem_of_app in Hn as [Hn|Hn].
    - by apply (proj1 (Forall_forall _ _) SEED_SKILLS_bare).
    - by apply (proj1 (Forall_forall _ _) Ht). }
  assert (exists vols, flat_map_result (skill_volume fw) (unique (SEED_SKILLS ++ types)) = Ok vols /\
    Forall2 (fun n v => av_mountPath v = skillMountPath fw n /\ av_system v = Some true /\
      av_name v = js "agent-skills@vm0-ai/vm0-skills/tree/main/" ++ n) (unique (SEED_SKILLS ++ types)) vols)
    as (vols & -> & H2).
  { clear - Hb. induction Hb as [|n l Hn _ (vols & Hv & H2)]; simpl; [by exists []; split|].
    destruct (skill_volume_bare fw n Hn) as (v & -> & Hm & Hs & Hname). simpl. rewrite Hv. simpl.
    exists (v :: vols). split; [done|]. by constructor. }
  exists vols. assert (av_mountPath <$> vols = skillMountPath fw <$> unique (SEED_SKILLS ++ types)) as Hmap.
  { clear - H2. induction H2 as [|n v l vols [Hm _] _ IH]; csimpl; [done|]. by rewrite Hm, IH. }
  split_and!; [done|done| | |].
  - rewrite Hmap. apply (NoDup_fmap_2 (skillMountPath fw)). exact Hnd.
  - eapply Forall2_Forall_r; [exact H2|]. apply Forall_forall. by intros ? _ ? (? & ? & ?).
  - intros n Hn. assert (n ∈ unique (SEED_SKILLS ++ types)) as Hin by (apply Helem, elem_of_app; tauto).
    apply list_elem_of_lookup in Hin as [i Hi]. destruct (Forall2_lookup_l _ _ _ _ _ H2 Hi) as (v & Hv & Hp).
    exists v. split; [by eapply list_elem_of_lookup_2|]. by destruct Hp as (? & ? & ?).
Qed.

Lemma buildSystemSkillVolumes_spec_witness :
  exists vols, buildSystemSkillVolumes [js "slack"; js "gen"] Codex = Ok vols /\ NoDup (av_mountPath <$> vols).
Proof.
  assert (Forall is_bare_name [js "slack"; js "gen"]) as Hb.
  { repeat (apply Forall_cons; split); [..|by apply Forall_nil];
      (split_and!; [done|by refine (bool_decide_eq_false_1 (_ ∈ _) _)|reflexivity|split; by intros c [= <-]]). }
  destruct (buildSystemSkillVolumes_spec _ Codex Hb) as (vols & H & _ & Hnd & _).
  exact (ex_intro _ vols (conj H Hnd)).
Defined.

(** Secret values never reach the recorded environment: each value is the mask or is
    not a secret. *)
Theorem sanitizeEnvironment_safe environment secretValues kv :
  kv ∈ sanitizeEnvironment environment secretValues -> kv.2 = js "***" \/ kv.2 ∉ secretValues.
Proof.
  unfold sanitizeEnvironment. assert (forall l acc,
    Forall (fun kv => kv.2 = js "***" \/ kv.2 ∉ secretValues) acc ->
    Forall (fun kv => kv.2 = js "***" \/ kv.2 ∉ secretValues)
      (foldl (fun s kv => rec_set s kv.1 (if bool_decide (kv.2 ∈ secretValues) then js "***" else kv.2)) acc l)) as H.
  { induction l as [|x l IH]; intros acc Hacc; simpl; [done|]. apply IH. apply Forall_forall. intros y Hy.
    unfold rec_set in Hy. destruct (_ && _); [by apply (proj1 (Forall_forall _ _) Hacc)|].
    apply elem_of_rec_define in Hy as [Hy|[-> _]]; [by apply (proj1 (Forall_forall _ _) Hacc)|].
    case_bool_decide; tauto. }
  intros Hkv. by apply (proj1 (Forall_forall _ _) (H (default [] environment) [] (Forall_nil_2 _))).
Qed.
End RunEnvironment.
