(* ===== verification/AccessSources.v ===== *)
(** Sources of access secrets
    (turbo/apps/api/src/signals/services/agent-webhook-firewall-auth.service.ts, first
    part): connectors and model providers, the metadata of their auth methods, the
    tables their tokens are stored in, and the lookups over both. *)

From S2P Require Import Prelude JsString JsRecord Templates RunEnvironment.

Import RunEnvironment.

Module AccessSources.

(** ** Data *)

Inductive AccessSecretSource := FromConnector | FromModelProvider.

#[export] Instance access_secret_source_eq_dec : EqDecision AccessSecretSource.
Proof. solve_decision. Defined.

(** The column [type] of a secret. *)
Definition source_text (t : AccessSecretSource) : jsstr :=
  match t with FromConnector => js "connector" | FromModelProvider => js "model-provider" end.

Record SecretConnectorMetadata := {
  sm_sourceType : AccessSecretSource; sm_sourceUserId : option jsstr; sm_metadataKey : option jsstr }.

Inductive ConnectorRuntimeBindingSource :=
| ConnectorSecret (n : jsstr) | ConnectorVariable (n : jsstr) | PlatformSecret (n : jsstr).

(** The place of a refresh input or output of a connector. *)
Inductive ConnectorOutputTarget := TargetSecret (n : jsstr) | TargetVariable (n : jsstr).

Inductive ConnectorAuthMethodAccessMetadata :=
| AccessStatic
| AccessRefreshToken (inputs outputs : Rec ConnectorOutputTarget) (refreshableSecrets : list jsstr)
| AccessNone.

Record ConnectorRuntimeBindingEntry := { rb_envName : jsstr; rb_source : ConnectorRuntimeBindingSource }.

Record ModelProviderRefreshMetadata := {
  mr_isRefreshable : bool; mr_refreshableSecrets : list jsstr; mr_inputs : Rec jsstr; mr_outputs : Rec jsstr }.

(** The generated tables of connectors and model providers, and whether a client of a
    provider is configured in the environment of the server. *)
Class AuthTables := {
  isConnectorType : jsstr -> bool;
  isConnectorAuthMethodId : jsstr -> bool;
  getConnectorAuthMethodAccessMetadata : jsstr -> jsstr -> option ConnectorAuthMethodAccessMetadata;
  getConnectorAuthMethodRuntimeMetadata : jsstr -> jsstr -> option (list ConnectorRuntimeBindingEntry);
  connectorAuthMethodRefHasRefreshToken : jsstr -> jsstr -> bool;
  hasAuthClient : jsstr -> jsstr -> bool;
  authClientConfigured : jsstr -> jsstr -> bool;
  isModelProviderType : jsstr -> bool;
  getModelProviderEnvBindings : jsstr -> option (Rec jsstr);
  getModelProviderRefreshMetadata : jsstr -> option ModelProviderRefreshMetadata;
  isModelProviderRefreshConfigured : jsstr -> bool;
}.

(** Encryption of stored secrets. *)
Class StoredCipher := {
  encryptStoredSecretValue : jsstr -> jsstr;
  decryptStoredSecretValue : jsstr -> jsstr;
}.
Class StoredCipherLaws `{StoredCipher} := {
  decrypt_encrypt : forall v, decryptStoredSecretValue (encryptStoredSecretValue v) = v;
}.

(** ** Tables *)

(** A row of [connectors] or [model_providers]; times in milliseconds, the last update
    in microseconds of the database clock. [ar_authMethod] is a column of the first
    table and [ar_lastRefreshErrorCode] of the second. *)
Record AuthRow := {
  ar_authMethod : jsstr; ar_tokenExpiresAt : option Z; ar_needsReconnect : bool;
  ar_lastRefreshErrorCode : option jsstr; ar_updatedAtMicros : Z }.

(** Rows by organization, user and type; secrets by organization, user, name and type;
    connector variables by organization, user and name. *)
Record AuthDb := {
  connectors : gmap (jsstr * jsstr * jsstr) AuthRow;
  modelProviders : gmap (jsstr * jsstr * jsstr) AuthRow;
  secretsTable : gmap (jsstr * jsstr * jsstr * jsstr) jsstr;
  variablesTable : gmap (jsstr * jsstr * jsstr) jsstr;
}.

Definition with_connectors f (d : AuthDb) : AuthDb :=
  {| connectors := f (connectors d); modelProviders := modelProviders d; secretsTable := secretsTable d;
     variablesTable := variablesTable d |}.
Definition with_modelProviders f (d : AuthDb) : AuthDb :=
  {| connectors := connectors d; modelProviders := f (modelProviders d); secretsTable := secretsTable d;
     variablesTable := variablesTable d |}.

Section Lookups.
Context `{AuthTables} `{StoredCipher}.

Definition getSecretValue (orgId userId name : jsstr) (type : AccessSecretSource) (d : AuthDb) : option jsstr :=
  decryptStoredSecretValue <$> secretsTable d !! (orgId, userId, name, source_text type).

Definition getVariableValue (orgId userId name : jsstr) (d : AuthDb) : option jsstr :=
  variablesTable d !! (orgId, userId, name).

Definition upsertSecretValue (orgId userId name value : jsstr) (type : AccessSecretSource) (d : AuthDb) : AuthDb :=
  {| connectors := connectors d; modelProviders := modelProviders d;
     secretsTable := <[(orgId, userId, name, source_text type) := encryptStoredSecretValue value]> (secretsTable d);
     variablesTable := variablesTable d |}.

Definition upsertConnectorVariableValue (orgId userId name value : jsstr) (d : AuthDb) : AuthDb :=
  {| connectors := connectors d; modelProviders := modelProviders d; secretsTable := secretsTable d;
     variablesTable := <[(orgId, userId, name) := value]> (variablesTable d) |}.

(** ** Metadata *)

Definition isModelProviderRefreshProviderKey (providerKey : jsstr) : bool :=
  bool_decide (is_Some (getModelProviderRefreshMetadata providerKey)).

Definition getRefreshProviderKeySourceType (providerKey : jsstr) : AccessSecretSource :=
  if isModelProviderRefreshProviderKey providerKey then FromModelProvider else FromConnector.

Definition modelProviderTypeForRefreshProviderKey (providerKey : jsstr) : option jsstr :=
  if isModelProviderRefreshProviderKey providerKey then Some providerKey else None.

Definition resolveSecretUserId (sourceType : AccessSecretSource) (userId : jsstr) (sourceUserId : option jsstr) : jsstr :=
  match sourceType with FromModelProvider => default ORG_SENTINEL_USER_ID sourceUserId | FromConnector => userId end.

Definition resolveRefreshMetadata (connectorType : jsstr) (metadata : option SecretConnectorMetadata) :
    SecretConnectorMetadata :=
  let sourceType := match metadata with
    | Some m => sm_sourceType m
    | None => getRefreshProviderKeySourceType connectorType end in
  match sourceType with
  | FromModelProvider =>
      {| sm_sourceType := sourceType; sm_sourceUserId := metadata ≫= sm_sourceUserId;
         sm_metadataKey := match metadata ≫= sm_metadataKey with
           | Some k => Some k
           | None => modelProviderTypeForRefreshProviderKey connectorType end |}
  | FromConnector => {| sm_sourceType := sourceType; sm_sourceUserId := None; sm_metadataKey := None |}
  end.

(** A falsy (empty) provider type is not parsed. *)
Definition modelProviderTypeForMetadata (connectorType : jsstr) (metadata : SecretConnectorMetadata) : option jsstr :=
  match match sm_metadataKey metadata with
        | Some k => Some k
        | None => modelProviderTypeForRefreshProviderKey connectorType end with
  | Some t => if bool_decide (t = []) then None else if isModelProviderType t then Some t else None
  | None => None
  end.

Definition getConnectorRuntimeBindingSecretName (runtimeBindings : list ConnectorRuntimeBindingEntry)
    (envName : jsstr) : option jsstr :=
  head (omap (fun entry => match rb_source entry with
    | ConnectorSecret n => if bool_decide (rb_envName entry = envName) then Some n else None
    | _ => None end) runtimeBindings).

Definition connectorRefreshMetadataHasRefreshableSecret (metadata : ConnectorAuthMethodAccessMetadata)
    (secretName : jsstr) : bool :=
  match metadata with AccessRefreshToken _ _ refreshable => bool_decide (secretName ∈ refreshable) | _ => false end.

(** ** Connector states *)

Record RefreshSourceState := { ss_tokenExpiresAt : option Z; ss_needsReconnect : bool }.

Record ConnectorAccessState := {
  ca_authMethod : jsstr; ca_accessMetadata : ConnectorAuthMethodAccessMetadata;
  ca_runtimeMetadata : list ConnectorRuntimeBindingEntry; ca_state : RefreshSourceState }.

Definition refreshSourceStateFromRow (row : AuthRow) : RefreshSourceState :=
  {| ss_tokenExpiresAt := (fun ms => ms / 1000) <$> ar_tokenExpiresAt row; ss_needsReconnect := ar_needsReconnect row |}.

(** The state of one type; [None] when there is no row or its method is unknown. *)
Definition connector_access_state (orgId userId type : jsstr) (d : AuthDb) : option ConnectorAccessState :=
  row ← connectors d !! (orgId, userId, type);
  if negb (isConnectorType type) then None else
  access ← getConnectorAuthMethodAccessMetadata type (ar_authMethod row);
  runtime ← getConnectorAuthMethodRuntimeMetadata type (ar_authMethod row);
  Some {| ca_authMethod := ar_authMethod row; ca_accessMetadata := access; ca_runtimeMetadata := runtime;
          ca_state := refreshSourceStateFromRow row |}.

Definition loadConnectorAccessStates (orgId userId : jsstr) (connectorTypes : list jsstr) (d : AuthDb) :
    gmap jsstr ConnectorAccessState :=
  foldl (fun result type => match connector_access_state orgId userId type d with
    | Some st => <[type := st]> result
    | None => result end) ∅ connectorTypes.

(** ** Runtime secrets *)

Definition modelProviderRuntimeSecretName (key connectorType : jsstr) (metadata : SecretConnectorMetadata) :
    option jsstr :=
  secretMetadata ← getModelProviderRefreshMetadata connectorType;
  if negb (mr_isRefreshable secretMetadata) then None else
  providerType ← modelProviderTypeForMetadata connectorType metadata;
  bindings ← getModelProviderEnvBindings providerType;
  valueRef ← rec_own bindings key;
  if starts_with valueRef CONNECTOR_SECRET_REF_PREFIX
  then Some (drop (length CONNECTOR_SECRET_REF_PREFIX) valueRef) else None.

(** [secretName && ... ? secretName : undefined]: an empty name is falsy. *)
Definition keep_name (o : option jsstr) (test : jsstr -> bool) : option jsstr :=
  match o with
  | Some n => if negb (bool_decide (n = [])) && test n then Some n else None
  | None => None
  end.

Definition refreshableRuntimeSecretNameForSource (key connectorType : jsstr) (metadata : SecretConnectorMetadata)
    (connectorAccessByType : gmap jsstr ConnectorAccessState) : option jsstr :=
  match sm_sourceType metadata with
  | FromModelProvider =>
      keep_name (modelProviderRuntimeSecretName key connectorType metadata) (fun n =>
        match getModelProviderRefreshMetadata connectorType with
        | Some m => bool_decide (n ∈ mr_refreshableSecrets m)
        | None => false end)
  | FromConnector =>
      match connectorAccessByType !! connectorType with
      | None => None
      | Some connectorAccess =>
          keep_name (getConnectorRuntimeBindingSecretName (ca_runtimeMetadata connectorAccess) key)
            (connectorRefreshMetadataHasRefreshableSecret (ca_accessMetadata connectorAccess))
      end
  end.

Definition runtimeOutputSecretsForSource (connectorType : jsstr) (metadata : SecretConnectorMetadata)
    (accessEnvVars : list jsstr) (connectorAccessByType : gmap jsstr ConnectorAccessState) : Rec jsstr :=
  foldl (fun acc key =>
    match refreshableRuntimeSecretNameForSource key connectorType metadata connectorAccessByType with
    | Some secretName => if bool_decide (secretName = []) then acc else rec_define acc key secretName
    | None => acc end) [] accessEnvVars.

(** ** Current secrets *)

Record SecretTokenLookupArgs := {
  tl_connectorType : jsstr; tl_orgId : jsstr; tl_userId : jsstr; tl_sourceType : AccessSecretSource;
  tl_sourceUserId : option jsstr; tl_metadataKey : option jsstr;
  tl_connectorAccessByType : gmap jsstr ConnectorAccessState; tl_accessEnvVars : list jsstr }.

(** The secrets are read once per name and then looked up by variable. *)
Definition getCurrentAccessSecrets (args : SecretTokenLookupArgs) (metadata : SecretConnectorMetadata) (d : AuthDb) :
    Rec (option jsstr) :=
  let runtimeOutputSecrets := runtimeOutputSecretsForSource (tl_connectorType args) metadata
    (tl_accessEnvVars args) (tl_connectorAccessByType args) in
  let secretUserId := resolveSecretUserId (tl_sourceType args) (tl_userId args) (tl_sourceUserId args) in
  (fun '(envName, secretName) =>
     (envName, getSecretValue (tl_orgId args) secretUserId secretName (tl_sourceType args) d)) <$> runtimeOutputSecrets.

(** ** Source states *)

Record ModelProviderSourceLookup := { pl_providerKey : jsstr; pl_providerType : jsstr; pl_userId : jsstr }.

Definition modelProviderSourceLookup (providerKey userId : jsstr)
    (metadataByConnector : gmap jsstr SecretConnectorMetadata) : ModelProviderSourceLookup :=
  let metadata := resolveRefreshMetadata providerKey (metadataByConnector !! providerKey) in
  {| pl_providerKey := providerKey;
     pl_providerType := match sm_metadataKey metadata with
       | Some k => k
       | None => default providerKey (modelProviderTypeForRefreshProviderKey providerKey) end;
     pl_userId := resolveSecretUserId FromModelProvider userId (sm_sourceUserId metadata) |}.

(** The rows are read in one query per owner; a row is the one of the lookup's owner and
    type, so the grouping does not change what a provider key gets. *)
Definition loadModelProviderSourceStates (orgId userId : jsstr) (providerKeys : list jsstr)
    (metadataByConnector : gmap jsstr SecretConnectorMetadata) (d : AuthDb) : gmap jsstr RefreshSourceState :=
  foldl (fun result providerKey =>
    let lookup := modelProviderSourceLookup providerKey userId metadataByConnector in
    match modelProviders d !! (orgId, pl_userId lookup, pl_providerType lookup) with
    | Some row => <[pl_providerKey lookup := refreshSourceStateFromRow row]> result
    | None => result end) ∅ providerKeys.

Definition keys_of_source (sourceType : AccessSecretSource) (metadataByConnector : gmap jsstr SecretConnectorMetadata)
    (connectorTypes : list jsstr) : list jsstr :=
  filter (fun t => sm_sourceType (resolveRefreshMetadata t (metadataByConnector !! t)) = sourceType) connectorTypes.

Definition getSourceStateByProviderKey (orgId userId : jsstr) (connectorTypes : list jsstr)
    (metadataByConnector : gmap jsstr SecretConnectorMetadata)
    (connectorAccessByType : gmap jsstr ConnectorAccessState) (d : AuthDb) : gmap jsstr RefreshSourceState :=
  let merged := foldl (fun merged t => match connectorAccessByType !! t with
    | Some st => <[t := ca_state st]> merged
    | None => merged end) ∅ (keys_of_source FromConnector metadataByConnector connectorTypes) in
  loadModelProviderSourceStates orgId userId (keys_of_source FromModelProvider metadataByConnector connectorTypes)
    metadataByConnector d ∪ merged.

Definition loadCurrentSourceStateSnapshot (orgId userId : jsstr) (connectorTypes : list jsstr)
    (metadataByConnector : gmap jsstr SecretConnectorMetadata) (d : AuthDb) :
    gmap jsstr RefreshSourceState * gmap jsstr ConnectorAccessState :=
  let connectorAccessByType := loadConnectorAccessStates orgId userId
    (keys_of_source FromConnector metadataByConnector connectorTypes) d in
  (getSourceStateByProviderKey orgId userId connectorTypes metadataByConnector connectorAccessByType d,
   connectorAccessByType).

End Lookups.

End AccessSources.
