(* ===== verification/TokenRefresh.v ===== *)
(** Refresh of access tokens
    (turbo/apps/api/src/signals/services/agent-webhook-firewall-auth.service.ts, middle
    part): a request reads the state of a token, takes the lock of its source, reads
    the state again and decides whether another request refreshed it meanwhile,
    failed to, or whether it has to call the provider itself. *)

From S2P Require Import Prelude JsString JsRecord Templates RunEnvironment AccessSources.

Import RunEnvironment AccessSources.

Module TokenRefresh.

(** ** Data *)

Inductive FirewallAuthFailureReason := UpstreamProvider | ReconnectRequired.

#[export] Instance failure_reason_eq_dec : EqDecision FirewallAuthFailureReason.
Proof. solve_decision. Defined.

Inductive RefreshInputSource := InSecret (n : jsstr) | InVariable (n : jsstr).
Inductive RefreshOutputTarget := OutSecret (n : jsstr) | OutVariable (n : jsstr).

Record RefreshTokenContext := {
  rc_inputSources : Rec RefreshInputSource; rc_outputTargets : Rec RefreshOutputTarget;
  rc_runtimeOutputSecrets : Rec jsstr; rc_secretUserId : jsstr }.

Record RefreshState := {
  rs_outputValues : Rec (option jsstr); rs_inputValues : Rec (option jsstr); rs_tokenExpiresAt : option Z;
  rs_needsReconnect : bool; rs_lastRefreshErrorCode : option jsstr; rs_updatedAtMicros : Z }.

Record RefreshAccessTokenArgs := {
  ta_lookup : SecretTokenLookupArgs; ta_forceRefresh : bool; ta_forceRefreshStartedAtMicros : option Z }.

Inductive PrepareFailure := PfClientUnconfigured | PfNotRefreshable | PfRefreshTokenMissing.

Inductive RefreshFailure := ClientUnconfigured | NotRefreshable | RefreshFailed | RefreshTokenMissing | SourceMissing.

Inductive RefreshAccessTokenResult :=
| RefreshOk (refreshed : bool) (secrets : Rec jsstr)
| RefreshError (reason : RefreshFailure) (failureReason : option FirewallAuthFailureReason).

(** What a provider's refresh rejects with, as far as the sources look at it. *)
Inductive ProviderError :=
| ChatgptRefreshError (code : jsstr)
| OAuthProviderHttpError (oauthError : option jsstr) (status : Z)
| ProviderHttpError (status : Z)
| ProviderResponseError
| FetchNetworkError
| OtherError.

(** The settled refresh: outputs and lifetime, or an error and whether the time limit
    caused it. *)
Inductive ProviderResult :=
| ProviderOk (outputs : Rec (option jsstr)) (expiresIn : option Z)
| ProviderFailed (error : ProviderError) (timedOut : bool).

Definition REFRESH_BUFFER_SECS : Z := 60.
Definition DEFAULT_ACCESS_TOKEN_EXPIRES_IN_SECS : Z := 15 * 60.
Definition REFRESH_TIMEOUT_ERROR_CODE : jsstr := js "oauth_refresh_timeout".

(** ** Classification of failures *)

Definition isReconnectRequiredRefreshErrorCode (errorCode : option jsstr) : bool :=
  match errorCode with
  | Some c => bool_decide (c ∈ [js "refresh_token_expired"; js "refresh_token_reused";
                                js "refresh_token_invalidated"; js "invalid_grant"])
  | None => false
  end.

Definition refreshFailureReasonFromError (error : ProviderError) (refreshTimedOut : bool) :
    option FirewallAuthFailureReason :=
  if refreshTimedOut then Some UpstreamProvider
  else match error with
  | ChatgptRefreshError code =>
      if isReconnectRequiredRefreshErrorCode (Some code) then Some ReconnectRequired else None
  | OAuthProviderHttpError oauthError status =>
      if bool_decide (oauthError = Some (js "invalid_grant")) then Some ReconnectRequired
      else if bool_decide (oauthError = Some (js "server_error")) ||
              bool_decide (oauthError = Some (js "temporarily_unavailable")) || (500 <=? status) || (status =? 429)
      then Some UpstreamProvider
      else None
  | ProviderHttpError status => if (500 <=? status) || (status =? 429) then Some UpstreamProvider else None
  | ProviderResponseError | FetchNetworkError => Some UpstreamProvider
  | OtherError => None
  end.

Definition refreshErrorCodeFromError (error : ProviderError) (refreshTimedOut : bool) : option jsstr :=
  if refreshTimedOut then Some REFRESH_TIMEOUT_ERROR_CODE
  else match error with
  | ChatgptRefreshError code => Some code
  | OAuthProviderHttpError oauthError _ =>
      if isReconnectRequiredRefreshErrorCode oauthError then oauthError else None
  | _ => None
  end.

Definition classifyRefreshFailure (error : ProviderError) (timedOut : bool) :
    option jsstr * option FirewallAuthFailureReason :=
  (refreshErrorCodeFromError error timedOut, refreshFailureReasonFromError error timedOut).

(** ** Context of a refresh *)

Section Refresh.
Context `{AuthTables} `{StoredCipher}.

Definition refreshInputSourceFromConnectorMetadata (m : ConnectorOutputTarget) : RefreshInputSource :=
  match m with TargetSecret n => InSecret n | TargetVariable n => InVariable n end.

Definition refreshOutputTargetFromConnectorTarget (t : ConnectorOutputTarget) : RefreshOutputTarget :=
  match t with TargetSecret n => OutSecret n | TargetVariable n => OutVariable n end.

Definition connectorRefreshInputSources (inputs : Rec ConnectorOutputTarget) : Rec RefreshInputSource :=
  (fun kv => (kv.1, refreshInputSourceFromConnectorMetadata kv.2)) <$> inputs.

Definition connectorRefreshOutputTargets (outputs : Rec ConnectorOutputTarget) : Rec RefreshOutputTarget :=
  (fun kv => (kv.1, refreshOutputTargetFromConnectorTarget kv.2)) <$> outputs.

Definition modelProviderRefreshOutputTargets (outputs : Rec jsstr) : Rec RefreshOutputTarget :=
  (fun kv => (kv.1, OutSecret kv.2)) <$> outputs.

(** A falsy (empty) text is left out. *)
Definition truthy_text (o : option jsstr) : option jsstr :=
  match o with Some [] => None | _ => o end.

Definition prepareRefreshTokenContext (args : SecretTokenLookupArgs) : result (PrepareFailure + RefreshTokenContext) :=
  let metadata := resolveRefreshMetadata (tl_connectorType args) (Some {|
    sm_sourceType := tl_sourceType args; sm_sourceUserId := truthy_text (tl_sourceUserId args);
    sm_metadataKey := truthy_text (tl_metadataKey args) |}) in
  let runtimeOutputSecrets := runtimeOutputSecretsForSource (tl_connectorType args) metadata
    (tl_accessEnvVars args) (tl_connectorAccessByType args) in
  let secretUserId := resolveSecretUserId (tl_sourceType args) (tl_userId args) (tl_sourceUserId args) in
  if bool_decide (runtimeOutputSecrets = []) then Ok (inl PfNotRefreshable)
  else match tl_sourceType args with
  | FromModelProvider =>
      match getModelProviderRefreshMetadata (tl_connectorType args) with
      | None => Ok (inl PfNotRefreshable)
      | Some secretMetadata =>
          if negb (mr_isRefreshable secretMetadata) then Ok (inl PfNotRefreshable)
          else match truthy_text (tl_metadataKey args) with
          | None => Throw (js "metadataKey required for model-provider source on " ++ tl_connectorType args)
          | Some _ =>
              if negb (isModelProviderRefreshConfigured (tl_connectorType args)) then Ok (inl PfClientUnconfigured)
              else Ok (inr {|
                rc_inputSources := (fun kv => (kv.1, InSecret kv.2)) <$> mr_inputs secretMetadata;
                rc_outputTargets := modelProviderRefreshOutputTargets (mr_outputs secretMetadata);
                rc_runtimeOutputSecrets := runtimeOutputSecrets; rc_secretUserId := secretUserId |})
          end
      end
  | FromConnector =>
      match tl_connectorAccessByType args !! tl_connectorType args with
      | Some connectorAccess =>
          match ca_accessMetadata connectorAccess with
          | AccessRefreshToken inputs outputs _ =>
              if negb (isConnectorType (tl_connectorType args)) ||
                 negb (isConnectorAuthMethodId (ca_authMethod connectorAccess)) ||
                 negb (connectorAuthMethodRefHasRefreshToken (tl_connectorType args) (ca_authMethod connectorAccess))
              then Ok (inl PfNotRefreshable)
              else
                let context := {|
                  rc_inputSources := connectorRefreshInputSources inputs;
                  rc_outputTargets := connectorRefreshOutputTargets outputs;
                  rc_runtimeOutputSecrets := runtimeOutputSecrets; rc_secretUserId := secretUserId |} in
                if hasAuthClient (tl_connectorType args) (ca_authMethod connectorAccess) then
                  if authClientConfigured (tl_connectorType args) (ca_authMethod connectorAccess)
                  then Ok (inr context) else Ok (inl PfClientUnconfigured)
                else Ok (inr context)
          | _ => Ok (inl PfNotRefreshable)
          end
      | None => Ok (inl PfNotRefreshable)
      end
  end.

(** ** The state of a token *)

Definition requiredRuntimeOutputSecretNames (context : RefreshTokenContext) : list jsstr :=
  Templates.set_add_all (rc_runtimeOutputSecrets context).*2 [].

(** The key of the row of a source. *)
Definition source_key (args : SecretTokenLookupArgs) (context : RefreshTokenContext) : jsstr * jsstr * jsstr :=
  match tl_sourceType args with
  | FromModelProvider => (tl_orgId args, rc_secretUserId context, default [] (tl_metadataKey args))
  | FromConnector => (tl_orgId args, tl_userId args, tl_connectorType args)
  end.

(** The columns a request sees: a connector row has no error code. *)
Definition visible (args : SecretTokenLookupArgs) (row : AuthRow) : AuthRow :=
  match tl_sourceType args with
  | FromModelProvider => row
  | FromConnector =>
      {| ar_authMethod := ar_authMethod row; ar_tokenExpiresAt := ar_tokenExpiresAt row;
         ar_needsReconnect := ar_needsReconnect row; ar_lastRefreshErrorCode := None;
         ar_updatedAtMicros := ar_updatedAtMicros row |}
  end.

Definition source_row (args : SecretTokenLookupArgs) (context : RefreshTokenContext) (d : AuthDb) : option AuthRow :=
  match tl_sourceType args with
  | FromModelProvider => modelProviders d !! source_key args context
  | FromConnector => connectors d !! source_key args context
  end.

Definition loadRefreshStateRow (args : SecretTokenLookupArgs) (context : RefreshTokenContext) (d : AuthDb) :
    option AuthRow := visible args <$> source_row args context d.

Definition input_value (args : SecretTokenLookupArgs) (context : RefreshTokenContext) (d : AuthDb)
    (source : RefreshInputSource) : option jsstr :=
  match source with
  | InSecret n => getSecretValue (tl_orgId args) (rc_secretUserId context) n (tl_sourceType args) d
  | InVariable n => getVariableValue (tl_orgId args) (rc_secretUserId context) n d
  end.

Definition loadRefreshState (args : SecretTokenLookupArgs) (context : RefreshTokenContext) (d : AuthDb) :
    option RefreshState :=
  row ← loadRefreshStateRow args context d;
  Some {|
    rs_outputValues := (fun n => (n, getSecretValue (tl_orgId args) (rc_secretUserId context) n (tl_sourceType args) d))
                         <$> requiredRuntimeOutputSecretNames context;
    rs_inputValues := (fun kv => (kv.1, input_value args context d kv.2)) <$> rc_inputSources context;
    rs_tokenExpiresAt := ar_tokenExpiresAt row; rs_needsReconnect := ar_needsReconnect row;
    rs_lastRefreshErrorCode := ar_lastRefreshErrorCode row; rs_updatedAtMicros := ar_updatedAtMicros row |}.

Definition tokenExpiresAtNeedsRefresh (now : Z) (tokenExpiresAt : option Z) : bool :=
  match tokenExpiresAt with
  | None => true
  | Some e => e / 1000 <=? now / 1000 + REFRESH_BUFFER_SECS
  end.

(** A null or empty input is missing. *)
Definition missingRefreshInputNames (state : RefreshState) : list jsstr :=
  omap (fun kv => match truthy_text kv.2 with None => Some kv.1 | Some _ => None end) (rs_inputValues state).

(** [values[key] ?? null]. *)
Definition nullable (values : Rec (option jsstr)) (key : jsstr) : option jsstr := rec_own values key ≫= id.

Definition runtimeOutputValues (context : RefreshTokenContext) (state : RefreshState) : Rec (option jsstr) :=
  (fun kv => (kv.1, nullable (rs_outputValues state) kv.2)) <$> rc_runtimeOutputSecrets context.

Definition allRuntimeOutputsAvailable (context : RefreshTokenContext) (state : RefreshState) : bool :=
  forallb (fun kv => bool_decide (is_Some kv.2)) (runtimeOutputValues context state).

Definition nonNullRuntimeOutputValues (context : RefreshTokenContext) (state : RefreshState) : option (Rec jsstr) :=
  foldl (fun acc kv => acc' ← acc; v ← kv.2; Some (rec_set acc' kv.1 v)) (Some []) (runtimeOutputValues context state).

Definition sameStringRecord (left right : Rec (option jsstr)) : bool :=
  forallb (fun key => bool_decide (nullable left key = nullable right key))
    (Templates.set_add_all (rec_keys left ++ rec_keys right) []).

Definition sameTokenExpiresAt (left right : option Z) : bool := bool_decide (left = right).

Definition sameRefreshTokenState (initialState : option RefreshState) (state : RefreshState) : bool :=
  match initialState with
  | None => false
  | Some i => sameStringRecord (rs_outputValues i) (rs_outputValues state) &&
              sameStringRecord (rs_inputValues i) (rs_inputValues state) &&
              sameTokenExpiresAt (rs_tokenExpiresAt i) (rs_tokenExpiresAt state)
  end.

(** ** Decisions under the lock *)

(** [snapshotValue !== undefined && snapshotValue !== outputValue]; an inherited member is
    neither undefined nor a string. *)
Definition snapshot_differs (connectorSecrets : Rec jsstr) (kv : jsstr * option jsstr) : bool :=
  match rec_own connectorSecrets kv.1 with
  | Some v => negb (bool_decide (Some v = kv.2))
  | None => bool_decide (kv.1 ∈ object_prototype_names)
  end.

Definition shouldUseLockedCurrentAccess (now : Z) (args : RefreshAccessTokenArgs) (connectorSecrets : Rec jsstr)
    (context : RefreshTokenContext) (initialState : option RefreshState) (requestStartedAtMicros : option Z)
    (state : RefreshState) : bool :=
  if negb (allRuntimeOutputsAvailable context state) then false
  else if tokenExpiresAtNeedsRefresh now (rs_tokenExpiresAt state) then false
  else if rs_needsReconnect state then false
  else if negb (ta_forceRefresh args) then true
  else if existsb (snapshot_differs connectorSecrets) (runtimeOutputValues context state) then true
  else if match requestStartedAtMicros with Some t => t <? rs_updatedAtMicros state | None => false end then true
  else match initialState with
  | None => true
  | Some i =>
      if negb (sameStringRecord (rs_outputValues i) (rs_outputValues state)) ||
         negb (sameStringRecord (rs_inputValues i) (rs_inputValues state)) then true
      else
        negb (bool_decide ((fun ms => ms / 1000) <$> rs_tokenExpiresAt i = (fun ms => ms / 1000) <$> rs_tokenExpiresAt state)) ||
        negb (rs_updatedAtMicros i =? rs_updatedAtMicros state)
  end.

Definition lockedRefreshFailureReasonDuringRequest (now : Z) (initialState : option RefreshState)
    (requestStartedAtMicros : option Z) (state : RefreshState) : option FirewallAuthFailureReason :=
  if match requestStartedAtMicros with None => true | Some t => rs_updatedAtMicros state <=? t end then None
  else if match initialState with Some i => rs_updatedAtMicros i =? rs_updatedAtMicros state | None => false end then None
  else if rs_needsReconnect state then
    if negb (bool_decide (missingRefreshInputNames state = [])) ||
       isReconnectRequiredRefreshErrorCode (rs_lastRefreshErrorCode state)
    then Some ReconnectRequired else None
  else
    let tokenStateUnchanged := sameRefreshTokenState initialState state in
    if tokenExpiresAtNeedsRefresh now (rs_tokenExpiresAt state) then
      if negb (bool_decide (is_Some initialState)) || tokenStateUnchanged then Some UpstreamProvider else None
    else if tokenStateUnchanged then Some UpstreamProvider else None.

Definition didLockedRefreshFailDuringRequest (now : Z) (initialState : option RefreshState)
    (requestStartedAtMicros : option Z) (state : RefreshState) : bool :=
  if negb (rs_needsReconnect state) then
    bool_decide (is_Some (lockedRefreshFailureReasonDuringRequest now initialState requestStartedAtMicros state))
  else match initialState with
  | Some i => negb (rs_needsReconnect i) || negb (rs_updatedAtMicros i =? rs_updatedAtMicros state)
  | None => match requestStartedAtMicros with Some t => t <? rs_updatedAtMicros state | None => false end
  end.

(** ** Outcomes *)

(** The instants a request under the lock reads: the server's clock when it decides and
    when the provider has settled (milliseconds), the database's when it writes
    (microseconds). *)
Record RefreshClock := { ck_now : Z; ck_settled : Z; ck_micros : Z }.

(** [outputTargets[name]]: [None] when undefined, [Some None] for an inherited member, which
    has no kind. *)
Definition output_target (context : RefreshTokenContext) (name : jsstr) : option (option RefreshOutputTarget) :=
  match rec_own (rc_outputTargets context) name with
  | Some target => Some (Some target)
  | None => if bool_decide (name ∈ object_prototype_names) then Some None else None
  end.

(** The outputs with their targets; [None] when one is not declared. *)
Fixpoint declared_outputs (context : RefreshTokenContext) (outputs : Rec (option jsstr)) :
    option (list (option RefreshOutputTarget * jsstr)) :=
  match outputs with
  | [] => Some []
  | (_, None) :: rest => declared_outputs context rest
  | (name, Some value) :: rest =>
      target ← output_target context name; outs ← declared_outputs context rest; Some ((target, value) :: outs)
  end.

Definition secret_names (outputs : list (option RefreshOutputTarget * jsstr)) : list jsstr :=
  omap (fun o => match o.1 with Some (OutSecret n) => Some n | _ => None end) outputs.

Definition validateRefreshResultOutputs (context : RefreshTokenContext) (result : Rec (option jsstr)) :
    option (list (option RefreshOutputTarget * jsstr)) :=
  outputs ← declared_outputs context result;
  if forallb (fun n => bool_decide (n ∈ secret_names outputs)) (requiredRuntimeOutputSecretNames context)
  then Some outputs else None.

(** One output written: the store, and the map of the secrets written so far. *)
Definition write_output (args : SecretTokenLookupArgs) (context : RefreshTokenContext)
    (acc : result (AuthDb * Rec jsstr)) (output : option RefreshOutputTarget * jsstr) : result (AuthDb * Rec jsstr) :=
  '(d, returned) ← acc;
  match output with
  | (Some (OutSecret n), value) =>
      Ok (upsertSecretValue (tl_orgId args) (rc_secretUserId context) n value (tl_sourceType args) d,
          rec_define returned n value)
  | (Some (OutVariable n), value) =>
      match tl_sourceType args with
      | FromModelProvider => Throw (js "Model provider refresh cannot write connector variables")
      | FromConnector => Ok (upsertConnectorVariableValue (tl_orgId args) (rc_secretUserId context) n value d, returned)
      end
  | (None, _) => Ok (d, returned)
  end.

(** An [UPDATE] of the row of a source. *)
Definition update_source (args : SecretTokenLookupArgs) (context : RefreshTokenContext) (f : AuthRow -> AuthRow)
    (d : AuthDb) : AuthDb :=
  match tl_sourceType args with
  | FromModelProvider => with_modelProviders (alter f (source_key args context)) d
  | FromConnector => with_connectors (alter f (source_key args context)) d
  end.

(** [Date] of the end of a token's life. *)
Definition refreshed_expiry (clock : RefreshClock) (expiresIn : option Z) : Z :=
  ck_settled clock + default DEFAULT_ACCESS_TOKEN_EXPIRES_IN_SECS expiresIn * 1000.

Definition success_row (clock : RefreshClock) (expiresIn : option Z) (row : AuthRow) : AuthRow :=
  {| ar_authMethod := ar_authMethod row; ar_tokenExpiresAt := Some (refreshed_expiry clock expiresIn);
     ar_needsReconnect := false; ar_lastRefreshErrorCode := None; ar_updatedAtMicros := ck_micros clock |}.

Definition markRefreshSuccess (clock : RefreshClock) (args : SecretTokenLookupArgs) (context : RefreshTokenContext)
    (outputs : list (option RefreshOutputTarget * jsstr)) (expiresIn : option Z) (d : AuthDb) :
    result (AuthDb * Rec jsstr) :=
  '(d, returned) ← foldl (write_output args context) (Ok (d, [])) outputs;
  Ok (update_source args context (success_row clock expiresIn) d, returned).

Definition failure_row (clock : RefreshClock) (errorCode : option jsstr)
    (failureReason : option FirewallAuthFailureReason) (row : AuthRow) : AuthRow :=
  if bool_decide (failureReason = Some UpstreamProvider) then
    {| ar_authMethod := ar_authMethod row; ar_tokenExpiresAt := ar_tokenExpiresAt row;
       ar_needsReconnect := ar_needsReconnect row; ar_lastRefreshErrorCode := ar_lastRefreshErrorCode row;
       ar_updatedAtMicros := ck_micros clock |}
  else
    {| ar_authMethod := ar_authMethod row; ar_tokenExpiresAt := ar_tokenExpiresAt row;
       ar_needsReconnect := true; ar_lastRefreshErrorCode := errorCode; ar_updatedAtMicros := ck_micros clock |}.

Definition markRefreshFailure (clock : RefreshClock) (args : SecretTokenLookupArgs) (context : RefreshTokenContext)
    (errorCode : option jsstr) (failureReason : option FirewallAuthFailureReason) (d : AuthDb) : AuthDb :=
  update_source args context (failure_row clock errorCode failureReason) d.

Definition refreshTokenMissingResult : RefreshAccessTokenResult :=
  RefreshError RefreshTokenMissing (Some ReconnectRequired).

Definition markRefreshTokenMissing (clock : RefreshClock) (args : SecretTokenLookupArgs)
    (context : RefreshTokenContext) (d : AuthDb) : RefreshAccessTokenResult * AuthDb :=
  (refreshTokenMissingResult, markRefreshFailure clock args context None (Some ReconnectRequired) d).

Definition markAndReturnRefreshFailure (clock : RefreshClock) (args : SecretTokenLookupArgs)
    (context : RefreshTokenContext) (error : ProviderError) (timedOut : bool) (d : AuthDb) :
    RefreshAccessTokenResult * AuthDb :=
  let '(errorCode, failureReason) := classifyRefreshFailure error timedOut in
  (RefreshError RefreshFailed failureReason, markRefreshFailure clock args context errorCode failureReason d).

Definition currentRefreshAccessResult (connectorType : jsstr) (context : RefreshTokenContext)
    (state : RefreshState) : result RefreshAccessTokenResult :=
  match nonNullRuntimeOutputValues context state with
  | Some secrets => Ok (RefreshOk false secrets)
  | None => Throw (connectorType ++ js " current refresh outputs disappeared unexpectedly")
  end.

Definition refreshInputsFromLockedState (connectorType : jsstr) (state : RefreshState) : result (Rec jsstr) :=
  foldl (fun acc kv => acc' ← acc; match kv.2 with
    | None => Throw (connectorType ++ js " refresh input " ++ kv.1 ++ js " missing")
    | Some value => Ok (rec_set acc' kv.1 value) end) (Ok []) (rs_inputValues state).

Definition runtimeSecretsFromRefreshResult (connectorType : jsstr) (context : RefreshTokenContext)
    (returnedSecretValues : Rec jsstr) : result (Rec jsstr) :=
  foldl (fun acc kv => acc' ← acc; match rec_own returnedSecretValues kv.2 with
    | None => Throw (connectorType ++ js " token refresh did not return runtime secret " ++ kv.2)
    | Some value => Ok (rec_set acc' kv.1 value) end) (Ok []) (rc_runtimeOutputSecrets context).

(** ** Requests *)

(** The transaction under the lock: the result, the store and the request's own secrets,
    which a refresh assigns to. A throw rolls the store back. *)
Definition refreshLockedAccessToken (clock : RefreshClock) (provider : Rec jsstr -> ProviderResult)
    (refreshArgs : RefreshAccessTokenArgs) (connectorSecrets : Rec jsstr) (context : RefreshTokenContext)
    (initialState : option RefreshState) (requestStartedAtMicros : option Z) (d : AuthDb) :
    result (RefreshAccessTokenResult * AuthDb * Rec jsstr) :=
  let args := ta_lookup refreshArgs in
  let connectorType := tl_connectorType args in
  match loadRefreshState args context d with
  | None => Ok (RefreshError SourceMissing None, d, connectorSecrets)
  | Some lockedState =>
      if didLockedRefreshFailDuringRequest (ck_now clock) initialState requestStartedAtMicros lockedState then
        Ok (RefreshError RefreshFailed
              (lockedRefreshFailureReasonDuringRequest (ck_now clock) initialState requestStartedAtMicros lockedState),
            d, connectorSecrets)
      else if shouldUseLockedCurrentAccess (ck_now clock) refreshArgs connectorSecrets context initialState
                requestStartedAtMicros lockedState then
        r ← currentRefreshAccessResult connectorType context lockedState; Ok (r, d, connectorSecrets)
      else if negb (bool_decide (missingRefreshInputNames lockedState = [])) then
        Ok (markRefreshTokenMissing clock args context d, connectorSecrets)
      else
        inputs ← refreshInputsFromLockedState connectorType lockedState;
        match provider inputs with
        | ProviderFailed error timedOut =>
            Ok (markAndReturnRefreshFailure clock args context error timedOut d, connectorSecrets)
        | ProviderOk result expiresIn =>
            match validateRefreshResultOutputs context result with
            | None =>
                Ok (RefreshError RefreshFailed (Some UpstreamProvider),
                    markRefreshFailure clock args context None (Some UpstreamProvider) d, connectorSecrets)
            | Some outputs =>
                '(d', returned) ← markRefreshSuccess clock args context outputs expiresIn d;
                refreshedSecrets ← runtimeSecretsFromRefreshResult connectorType context returned;
                Ok (RefreshOk true refreshedSecrets, d', rec_assign (rec_assign connectorSecrets returned) refreshedSecrets)
            end
        end
  end.

(** A request between its first reads and the lock. *)
Record RefreshAttempt := {
  at_context : RefreshTokenContext; at_initialState : option RefreshState; at_startedAtMicros : option Z }.

Definition beginRefresh (dbNow : Z) (args : RefreshAccessTokenArgs) (d : AuthDb) :
    result (RefreshAccessTokenResult + RefreshAttempt) :=
  preparation ← prepareRefreshTokenContext (ta_lookup args);
  Ok (match preparation with
  | inl PfRefreshTokenMissing => inl refreshTokenMissingResult
  | inl PfClientUnconfigured => inl (RefreshError ClientUnconfigured None)
  | inl PfNotRefreshable => inl (RefreshError NotRefreshable None)
  | inr context => inr {|
      at_context := context; at_initialState := loadRefreshState (ta_lookup args) context d;
      at_startedAtMicros := if ta_forceRefresh args then ta_forceRefreshStartedAtMicros args else Some dbNow |}
  end).

(** [others] is what other requests commit before this one gets the lock. *)
Definition refreshAccessTokenForSource (clock : RefreshClock) (dbNow : Z) (others : AuthDb -> AuthDb)
    (provider : Rec jsstr -> ProviderResult) (args : RefreshAccessTokenArgs) (connectorSecrets : Rec jsstr)
    (d : AuthDb) : result (RefreshAccessTokenResult * AuthDb * Rec jsstr) :=
  begun ← beginRefresh dbNow args d;
  match begun with
  | inl r => Ok (r, d, connectorSecrets)
  | inr attempt => refreshLockedAccessToken clock provider args connectorSecrets (at_context attempt)
                     (at_initialState attempt) (at_startedAtMicros attempt) (others d)
  end.

End Refresh.

(** ** Lemmas: the store *)

Lemma rec_own_tabulate {A} (f : jsstr -> A) (l : list jsstr) k :
  rec_own ((fun n => (n, f n)) <$> l) k = if bool_decide (k ∈ l) then Some (f k) else None.
Proof.
  induction l as [|n l IH]; [done|]. cbn [fmap list_fmap rec_own]. rewrite IH.
  repeat case_bool_decide; subst; done || set_solver.
Qed.

Section Store.
Context `{AuthTables} `{StoredCipher} `{!StoredCipherLaws}.

Lemma getSecretValue_update_source o u n t args context f d :
  getSecretValue o u n t (update_source args context f d) = getSecretValue o u n t d.
Proof. unfold update_source. by destruct (tl_sourceType args). Qed.

Lemma input_value_update_source args args' context context' f d s :
  input_value args context (update_source args' context' f d) s = input_value args context d s.
Proof. unfold update_source, input_value. by destruct s, (tl_sourceType args'). Qed.

Lemma source_row_update args context f d :
  source_row args context (update_source args context f d) = f <$> source_row args context d.
Proof. unfold source_row, update_source. destruct (tl_sourceType args); apply lookup_alter_eq. Qed.

Lemma loadRefreshState_row args context d :
  loadRefreshState args context d =
  (fun row => {|
    rs_outputValues := (fun n => (n, getSecretValue (tl_orgId args) (rc_secretUserId context) n (tl_sourceType args) d))
                         <$> requiredRuntimeOutputSecretNames context;
    rs_inputValues := (fun kv => (kv.1, input_value args context d kv.2)) <$> rc_inputSources context;
    rs_tokenExpiresAt := ar_tokenExpiresAt row; rs_needsReconnect := ar_needsReconnect row;
    rs_lastRefreshErrorCode := ar_lastRefreshErrorCode (visible args row);
    rs_updatedAtMicros := ar_updatedAtMicros row |}) <$> source_row args context d.
Proof.
  unfold loadRefreshState, loadRefreshStateRow. destruct (source_row args context d) as [row|]; [|done].
  cbn. unfold visible. by destruct (tl_sourceType args).
Qed.

(** An output of a loaded state is the stored secret. *)
Lemma loaded_output args context d state n :
  loadRefreshState args context d = Some state -> n ∈ requiredRuntimeOutputSecretNames context ->
  nullable (rs_outputValues state) n =
  getSecretValue (tl_orgId args) (rc_secretUserId context) n (tl_sourceType args) d.
Proof.
  rewrite loadRefreshState_row. intros (row & _ & ->)%fmap_Some_1 Hn. cbn. unfold nullable.
  rewrite rec_own_tabulate. by rewrite bool_decide_eq_true_2.
Qed.

Lemma required_names context env n :
  (env, n) ∈ rc_runtimeOutputSecrets context -> n ∈ requiredRuntimeOutputSecretNames context.
Proof.
  intros Hin. unfold requiredRuntimeOutputSecretNames. apply Templates.elem_of_set_add_all. left.
  apply list_elem_of_fmap. by exists (env, n).
Qed.

(** ** Lemmas: writes of outputs *)

Lemma write_output_throw args context outs msg :
  foldl (write_output args context) (Throw msg) outs = Throw msg.
Proof. by induction outs. Qed.

Lemma getSecretValue_upsert o u n v t o' u' n' t' d :
  getSecretValue o' u' n' t' (upsertSecretValue o u n v t d) =
  if bool_decide ((o, u, n, source_text t) = (o', u', n', source_text t')) then Some v
  else getSecretValue o' u' n' t' d.
Proof.
  unfold getSecretValue, upsertSecretValue; cbn [secretsTable]. case_bool_decide as E.
  - rewrite E, lookup_insert_eq. cbn. by rewrite decrypt_encrypt.
  - by rewrite lookup_insert_ne.
Qed.

(** The values returned are the ones stored. *)
Definition written (args : SecretTokenLookupArgs) (context : RefreshTokenContext) (acc : AuthDb * Rec jsstr) : Prop :=
  forall n v, rec_own acc.2 n = Some v ->
  getSecretValue (tl_orgId args) (rc_secretUserId context) n (tl_sourceType args) acc.1 = Some v.

Lemma write_output_ok args context acc o acc' :
  write_output args context (Ok acc) o = Ok acc' -> written args context acc ->
  written args context acc' /\ source_row args context acc'.1 = source_row args context acc.1 /\
  (forall n, is_Some (rec_own acc'.2 n) <-> n ∈ secret_names [o] \/ is_Some (rec_own acc.2 n)).
Proof.
  destruct acc as [d ret], o as [[[n0|n0]|] v0]; cbn [write_output mbind result_bind].
  - intros [= <-] Hw. cbn. split_and!; [|unfold source_row; by destruct (tl_sourceType args)|].
    + intros n v. cbn [fst snd]. rewrite rec_own_define, getSecretValue_upsert.
      destruct (bool_decide_reflect (n0 = n)) as [->|Hn]; [by rewrite bool_decide_eq_true_2|].
      rewrite bool_decide_eq_false_2 by congruence. apply Hw.
    + intros n. cbn [fst snd]. rewrite rec_own_define. case_bool_decide; subst; set_solver.
  - destruct (tl_sourceType args) eqn:Et; [|done]. intros [= <-] Hw. cbn.
    split_and!; [exact Hw|unfold source_row; by rewrite Et|set_solver].
  - intros [= <-] Hw. cbn. split_and!; [exact Hw|done|set_solver].
Qed.

Lemma write_outputs_ok args context outs acc acc' :
  foldl (write_output args context) (Ok acc) outs = Ok acc' -> written args context acc ->
  written args context acc' /\ source_row args context acc'.1 = source_row args context acc.1 /\
  (forall n, is_Some (rec_own acc'.2 n) <-> n ∈ secret_names outs \/ is_Some (rec_own acc.2 n)).
Proof.
  revert acc. induction outs as [|o outs IH]; intros acc; cbn [foldl].
  - intros [= <-] Hw. split_and!; [done|done|]. set_solver.
  - intros Hf Hw. destruct (write_output args context (Ok acc) o) as [acc1|msg] eqn:E;
      [|by rewrite write_output_throw in Hf].
    destruct (write_output_ok _ _ _ _ _ E Hw) as (Hw1 & Hr1 & Hn1).
    destruct (IH acc1 Hf Hw1) as (Hw2 & Hr2 & Hn2). split_and!; [done|congruence|].
    intros n. rewrite Hn2, Hn1. change (o :: outs) with ([o] ++ outs). unfold secret_names at 3.
    rewrite omap_app, elem_of_app. tauto.
Qed.

(** What a recorded success leaves behind. *)
Lemma markRefreshSuccess_ok clock args context outs expiresIn d d' returned :
  markRefreshSuccess clock args context outs expiresIn d = Ok (d', returned) ->
  written args context (d', returned) /\
  source_row args context d' = success_row clock expiresIn <$> source_row args context d /\
  (forall n, is_Some (rec_own returned n) <-> n ∈ secret_names outs).
Proof.
  unfold markRefreshSuccess. intros ([d1 r1] & Hf & [= <- <-])%result_bind_ok.
  destruct (write_outputs_ok _ _ _ _ _ Hf) as (Hw & Hr & Hn); [by intros n v|]. cbn [fst snd] in *.
  split_and!.
  - intros n v. cbn [fst snd]. rewrite getSecretValue_update_source. apply Hw.
  - by rewrite source_row_update, Hr.
  - intros n. rewrite Hn. split; [|by left]. by intros [|[? ?]].
Qed.

(** ** Lemmas: the secrets of a result *)

Lemma nonNull_of_runtime connectorType context returned secs state :
  runtimeSecretsFromRefreshResult connectorType context returned = Ok secs ->
  (forall env n v, (env, n) ∈ rc_runtimeOutputSecrets context -> rec_own returned n = Some v ->
     nullable (rs_outputValues state) n = Some v) ->
  nonNullRuntimeOutputValues context state = Some secs.
Proof.
  unfold runtimeSecretsFromRefreshResult, nonNullRuntimeOutputValues, runtimeOutputValues.
  generalize (@nil (jsstr * jsstr)) as acc. induction (rc_runtimeOutputSecrets context) as [|[env n] l IH];
    intros acc; cbn [foldl fmap list_fmap]; [by intros [= <-]|]. cbn [fst snd mbind result_bind].
  intros Hf Hv. destruct (rec_own returned n) as [v|] eqn:E.
  - rewrite (Hv env n v) by (done || set_solver). cbn. apply IH; [exact Hf|]. set_solver.
  - exfalso. revert Hf. generalize (connectorType ++ js " token refresh did not return runtime secret " ++ n) as msg.
    clear. induction l; cbn; [done|]. intros msg. apply IHl.
Qed.

Lemma nonNull_available context state secs :
  nonNullRuntimeOutputValues context state = Some secs -> allRuntimeOutputsAvailable context state = true.
Proof.
  unfold nonNullRuntimeOutputValues, allRuntimeOutputsAvailable. generalize (@nil (jsstr * jsstr)) as acc.
  induction (runtimeOutputValues context state) as [|[env [v|]] l IH]; intros acc; cbn; [done|apply IH|].
  intros Hf. exfalso. revert Hf. clear. by induction l.
Qed.

End Store.

(** ** Theorems *)

Section Concurrency.
Context `{AuthTables} `{StoredCipher} `{!StoredCipherLaws}.

(** The expiry stored for the token of a source. *)
Definition stored_expiry (args : SecretTokenLookupArgs) (context : RefreshTokenContext) (d : AuthDb) : option Z :=
  source_row args context d ≫= ar_tokenExpiresAt.

(** The stored values of the secrets a context returns are [secs]. *)
Definition stores (args : SecretTokenLookupArgs) (context : RefreshTokenContext) (d : AuthDb) (secs : Rec jsstr) : Prop :=
  exists state, loadRefreshState args context d = Some state /\
    nonNullRuntimeOutputValues context state = Some secs.

Lemma locked_refreshed clock provider args connectorSecrets context initialState started d secs d' connectorSecrets' :
  refreshLockedAccessToken clock provider args connectorSecrets context initialState started d =
    Ok (RefreshOk true secs, d', connectorSecrets') ->
  exists outs expiresIn returned,
    markRefreshSuccess clock (ta_lookup args) context outs expiresIn d = Ok (d', returned) /\
    runtimeSecretsFromRefreshResult (tl_connectorType (ta_lookup args)) context returned = Ok secs /\
    is_Some (source_row (ta_lookup args) context d).
Proof.
  unfold refreshLockedAccessToken. destruct (loadRefreshState _ _ _) as [state|] eqn:El; [|done].
  rewrite loadRefreshState_row in El. apply fmap_Some_1 in El as (row & Hrow & _).
  destruct (didLockedRefreshFailDuringRequest _ _ _ _); [done|].
  destruct (shouldUseLockedCurrentAccess _ _ _ _ _ _ _).
  { intros (r & Hr & [= -> ->])%result_bind_ok. unfold currentRefreshAccessResult in Hr. by case_match. }
  destruct (negb _); [done|]. intros (inputs & _ & Hp)%result_bind_ok.
  destruct (provider inputs) as [result expiresIn|error timedOut]; [|done].
  destruct (validateRefreshResultOutputs context result) as [outs|]; [|done].
  apply result_bind_ok in Hp as ([d1 returned] & Hm & Hp).
  apply result_bind_ok in Hp as (secs1 & Hs & [= -> -> _]). by eauto 6.
Qed.

(** What a refresh leaves behind: the returned values are stored, the token is marked
    refreshed at the instant of the write. *)
Lemma locked_refreshed_state clock provider args connectorSecrets context initialState started d secs d' s' :
  refreshLockedAccessToken clock provider args connectorSecrets context initialState started d =
    Ok (RefreshOk true secs, d', s') ->
  exists state, loadRefreshState (ta_lookup args) context d' = Some state /\
    nonNullRuntimeOutputValues context state = Some secs /\ rs_needsReconnect state = false /\
    rs_updatedAtMicros state = ck_micros clock /\
    rs_tokenExpiresAt state = stored_expiry (ta_lookup args) context d'.
Proof.
  intros (outs & expiresIn & returned & Hm & Hs & row & Hrow)%locked_refreshed.
  destruct (markRefreshSuccess_ok _ _ _ _ _ _ _ _ Hm) as (Hw & Hr & _).
  unfold stored_expiry. pose proof (loadRefreshState_row (ta_lookup args) context d') as Hl.
  rewrite Hr, Hrow in Hl |- *. cbn in Hl. eexists. split; [exact Hl|].
  split; [|split_and!; done].
  eapply nonNull_of_runtime; [exact Hs|]. intros env n v Hin Hv.
  rewrite (loaded_output _ _ _ _ _ Hl) by by eapply required_names. exact (Hw n v Hv).
Qed.

(** A token refreshed at [micros] is used as it is by a request that began before. *)
Lemma current_after_refresh now args connectorSecrets context initialState t state secs :
  nonNullRuntimeOutputValues context state = Some secs -> rs_needsReconnect state = false ->
  t < rs_updatedAtMicros state -> tokenExpiresAtNeedsRefresh now (rs_tokenExpiresAt state) = false ->
  rs_tokenExpiresAt <$> initialState <> Some (rs_tokenExpiresAt state) ->
  didLockedRefreshFailDuringRequest now initialState (Some t) state = false /\
  shouldUseLockedCurrentAccess now args connectorSecrets context initialState (Some t) state = true.
Proof.
  intros Hs Hn Ht Hfresh Hi. split.
  - unfold didLockedRefreshFailDuringRequest, lockedRefreshFailureReasonDuringRequest. rewrite Hn, Hfresh. cbn [negb].
    destruct (Z.leb_spec (rs_updatedAtMicros state) t); [lia|].
    destruct initialState as [i|]; [|done]. destruct (_ =? _); [done|].
    unfold sameRefreshTokenState, sameTokenExpiresAt. rewrite (bool_decide_eq_false_2 (_ = _)) by (cbn in Hi; congruence).
    by rewrite andb_false_r.
  - unfold shouldUseLockedCurrentAccess. rewrite (nonNull_available _ _ _ Hs), Hfresh, Hn. cbn [negb].
    destruct (negb _); [done|]. destruct (existsb _ _); [done|]. by destruct (Z.ltb_spec t (rs_updatedAtMicros state)); [|lia].
Qed.

(** C8: a token is refreshed once for all the requests that wait for it. Suppose request A
    took the lock and refreshed the token. A request B for the same source that began
    before A wrote, whatever its own view of the secrets and whether or not it was asked
    to force a refresh, then gets the lock: it returns exactly the secrets A returned, as
    current ones, without writing and without calling the provider (the result is the
    same for every provider), as long as the new token has not come within the refresh
    buffer and B did not read the new expiry at its start. *)
Theorem refresh_single_flight args context clockA providerA forceA sinceA secretsA initialA startedA d secs d' secretsA'
    clockB providerB forceB sinceB secretsB initialB startedB :
  refreshLockedAccessToken clockA providerA
    {| ta_lookup := args; ta_forceRefresh := forceA; ta_forceRefreshStartedAtMicros := sinceA |}
    secretsA context initialA startedA d = Ok (RefreshOk true secs, d', secretsA') ->
  startedB < ck_micros clockA ->
  tokenExpiresAtNeedsRefresh (ck_now clockB) (stored_expiry args context d') = false ->
  rs_tokenExpiresAt <$> initialB <> Some (stored_expiry args context d') ->
  refreshLockedAccessToken clockB providerB
    {| ta_lookup := args; ta_forceRefresh := forceB; ta_forceRefreshStartedAtMicros := sinceB |}
    secretsB context initialB (Some startedB) d' = Ok (RefreshOk false secs, d', secretsB).
Proof.
  intros (state & Hl & Hs & Hn & Hu & He)%locked_refreshed_state Ht Hfresh Hi. cbn [ta_lookup] in *.
  rewrite <- He in Hfresh, Hi. rewrite <- Hu in Ht.
  edestruct current_after_refresh as [Hd Hc]; [exact Hs|exact Hn|exact Ht|exact Hfresh|exact Hi|].
  unfold refreshLockedAccessToken. cbn [ta_lookup]. rewrite Hl, Hd, Hc.
  unfold currentRefreshAccessResult. by rewrite Hs.
Qed.

(** *** Failures *)

Lemma sameStringRecord_refl r : sameStringRecord r r = true.
Proof. unfold sameStringRecord. apply forallb_forall. intros k _. by apply bool_decide_eq_true_2. Qed.

(** A failed request that wrote marked the failure. *)
Lemma locked_failed clock provider args connectorSecrets context initialState started d reason fr d' s' :
  refreshLockedAccessToken clock provider args connectorSecrets context initialState started d =
    Ok (RefreshError reason fr, d', s') -> d' <> d ->
  exists code fr', d' = markRefreshFailure clock (ta_lookup args) context code fr' d /\
    is_Some (source_row (ta_lookup args) context d).
Proof.
  unfold refreshLockedAccessToken. destruct (loadRefreshState _ _ _) as [state|] eqn:El;
    [|intros Hq Hne; by apply (inj Ok) in Hq; simplify_eq].
  rewrite loadRefreshState_row in El. apply fmap_Some_1 in El as (row & Hrow & _).
  destruct (didLockedRefreshFailDuringRequest _ _ _ _); [intros Hq Hne; by apply (inj Ok) in Hq; simplify_eq|].
  destruct (shouldUseLockedCurrentAccess _ _ _ _ _ _ _).
  { intros (r & Hr & Hq)%result_bind_ok Hne. apply (inj Ok) in Hq. by simplify_eq. }
  destruct (negb _).
  { intros Hq _. unfold markRefreshTokenMissing in Hq. simplify_eq. by eauto. }
  intros (inputs & _ & Hp)%result_bind_ok _. destruct (provider inputs) as [result expiresIn|error timedOut].
  - destruct (validateRefreshResultOutputs context result) as [outs|]; [|simplify_eq; by eauto].
    apply result_bind_ok in Hp as ([d1 returned] & _ & Hp). by apply result_bind_ok in Hp as (secs1 & _ & [=]).
  - unfold markAndReturnRefreshFailure in Hp. destruct (classifyRefreshFailure error timedOut). simplify_eq. by eauto.
Qed.

(** A recorded failure changes neither the tokens nor their expiry. *)
Lemma failed_state clock args context code fr d state :
  loadRefreshState args context d = Some state ->
  exists state', loadRefreshState args context (markRefreshFailure clock args context code fr d) = Some state' /\
    rs_outputValues state' = rs_outputValues state /\ rs_inputValues state' = rs_inputValues state /\
    rs_tokenExpiresAt state' = rs_tokenExpiresAt state /\ rs_updatedAtMicros state' = ck_micros clock.
Proof.
  rewrite !loadRefreshState_row. unfold markRefreshFailure. rewrite source_row_update.
  intros (row & -> & ->)%fmap_Some_1. cbn. eexists. split; [done|]. cbn. split_and!.
  - apply list_fmap_ext. intros _ n _. by rewrite getSecretValue_update_source.
  - apply list_fmap_ext. intros _ kv _. by rewrite input_value_update_source.
  - unfold failure_row. by case_bool_decide.
  - unfold failure_row. by case_bool_decide.
Qed.

Lemma failed_after_failure now state state' t :
  rs_outputValues state' = rs_outputValues state -> rs_inputValues state' = rs_inputValues state ->
  rs_tokenExpiresAt state' = rs_tokenExpiresAt state ->
  t < rs_updatedAtMicros state' -> rs_updatedAtMicros state <> rs_updatedAtMicros state' ->
  didLockedRefreshFailDuringRequest now (Some state) (Some t) state' = true.
Proof.
  intros Ho Hi He Ht Hu%Z.eqb_neq. unfold didLockedRefreshFailDuringRequest. rewrite Hu, orb_true_r.
  destruct (rs_needsReconnect state') eqn:En; [done|]. cbn [negb].
  unfold lockedRefreshFailureReasonDuringRequest, sameRefreshTokenState, sameTokenExpiresAt.
  rewrite Hu, En, Ho, Hi, He, !sameStringRecord_refl.
  rewrite (bool_decide_eq_true_2 (rs_tokenExpiresAt state = rs_tokenExpiresAt state)) by done. cbn [andb].
  destruct (Z.leb_spec (rs_updatedAtMicros state') t); [lia|]. rewrite orb_true_r.
  by destruct (tokenExpiresAtNeedsRefresh _ _).
Qed.

(** A failed refresh is shared too. When request A failed under the lock and recorded
    it (missing inputs, an error or time-out of the provider, undeclared or incomplete
    outputs), a request B that read the state before and then gets the lock fails at once:
    it neither calls the provider nor writes, so a failing provider sees one call for all
    the requests that waited. *)
Theorem refresh_failure_shared args context clockA providerA forceA sinceA secretsA initialA startedA d reason fr d' secretsA'
    clockB forceB sinceB secretsB stateB startedB :
  refreshLockedAccessToken clockA providerA
    {| ta_lookup := args; ta_forceRefresh := forceA; ta_forceRefreshStartedAtMicros := sinceA |}
    secretsA context initialA startedA d = Ok (RefreshError reason fr, d', secretsA') -> d' <> d ->
  loadRefreshState args context d = Some stateB ->
  startedB < ck_micros clockA -> rs_updatedAtMicros stateB <> ck_micros clockA ->
  exists frB, forall providerB,
    refreshLockedAccessToken clockB providerB
      {| ta_lookup := args; ta_forceRefresh := forceB; ta_forceRefreshStartedAtMicros := sinceB |}
      secretsB context (Some stateB) (Some startedB) d' = Ok (RefreshError RefreshFailed frB, d', secretsB).
Proof.
  intros HA Hne Hl Ht Hu. destruct (locked_failed _ _ _ _ _ _ _ _ _ _ _ _ HA Hne) as (code & fr' & -> & Hrow).
  cbn [ta_lookup] in *.
  destruct (failed_state clockA args context code fr' d stateB Hl) as (state' & Hl' & Ho & Hi & He & Hup).
  rewrite <- Hup in Ht, Hu. pose proof (failed_after_failure (ck_now clockB) _ _ _ Ho Hi He Ht Hu) as Hd.
  unfold refreshLockedAccessToken. cbn [ta_lookup]. rewrite Hl'. rewrite Hd. by eexists.
Qed.

(** *** Successes *)

(** A request that succeeds returns what is stored: the secrets of the result are the
    values of the stored secrets, the row of the source does not ask for a reconnect, and
    a request that did not refresh left the store alone and found a token beyond the
    refresh buffer. *)
Theorem refresh_ok_current clock provider args connectorSecrets context initialState started d refreshed secs d' s' :
  refreshLockedAccessToken clock provider args connectorSecrets context initialState started d =
    Ok (RefreshOk refreshed secs, d', s') ->
  stores (ta_lookup args) context d' secs /\
  ar_needsReconnect <$> source_row (ta_lookup args) context d' = Some false /\
  (refreshed = false -> d' = d /\ s' = connectorSecrets /\
     tokenExpiresAtNeedsRefresh (ck_now clock) (stored_expiry (ta_lookup args) context d) = false).
Proof.
  intros HA. destruct refreshed.
  { destruct (locked_refreshed_state _ _ _ _ _ _ _ _ _ _ _ HA) as (state & Hl & Hs & Hn & _).
    split_and!; [by exists state| |done]. rewrite loadRefreshState_row in Hl.
    apply fmap_Some_1 in Hl as (row & -> & ->). by rewrite <- Hn. }
  revert HA. unfold refreshLockedAccessToken. destruct (loadRefreshState _ _ _) as [state|] eqn:El; [|done].
  destruct (didLockedRefreshFailDuringRequest _ _ _ _); [done|].
  destruct (shouldUseLockedCurrentAccess _ _ _ _ _ _ _) eqn:Eu.
  - intros (r & Hr & Hq)%result_bind_ok. apply (inj Ok) in Hq. simplify_eq.
    unfold currentRefreshAccessResult in Hr. destruct (nonNullRuntimeOutputValues context state) eqn:En; [|done].
    simplify_eq. unfold shouldUseLockedCurrentAccess in Eu.
    destruct (negb (allRuntimeOutputsAvailable context state)); [done|].
    destruct (tokenExpiresAtNeedsRefresh _ _) eqn:Ef; [done|]. destruct (rs_needsReconnect state) eqn:Ec; [done|].
    pose proof El as Hl. rewrite loadRefreshState_row in Hl. apply fmap_Some_1 in Hl as (row & Hrow & ->).
    split_and!; [by eexists|rewrite Hrow; cbn; by rewrite <- Ec|].
    intros _. unfold stored_expiry. by rewrite Hrow.
  - destruct (negb _); [done|]. intros (inputs & _ & Hp)%result_bind_ok.
    destruct (provider inputs) as [result expiresIn|error timedOut]; [|by destruct (classifyRefreshFailure error timedOut)].
    destruct (validateRefreshResultOutputs context result) as [outs|]; [|done].
    apply result_bind_ok in Hp as ([d1 returned] & _ & Hp). by apply result_bind_ok in Hp as (secs1 & _ & [=]).
Qed.

(** *** Totality *)

Lemma nonNull_total context state :
  allRuntimeOutputsAvailable context state = true -> is_Some (nonNullRuntimeOutputValues context state).
Proof.
  unfold nonNullRuntimeOutputValues, allRuntimeOutputsAvailable. generalize (@nil (jsstr * jsstr)) as acc.
  induction (runtimeOutputValues context state) as [|[env [v|]] l IH]; intros acc; cbn; [by eauto|apply IH|done].
Qed.

Lemma refreshInputs_total connectorType state :
  missingRefreshInputNames state = [] -> exists inputs, refreshInputsFromLockedState connectorType state = Ok inputs.
Proof.
  unfold refreshInputsFromLockedState, missingRefreshInputNames. generalize (@nil (jsstr * jsstr)) as acc.
  induction (rs_inputValues state) as [|[n [[|c v]|]] l IH]; intros acc; cbn; [by eauto|done| |done]. apply IH.
Qed.

Lemma runtimeSecrets_total connectorType context returned :
  (forall env n, (env, n) ∈ rc_runtimeOutputSecrets context -> is_Some (rec_own returned n)) ->
  exists secs, runtimeSecretsFromRefreshResult connectorType context returned = Ok secs.
Proof.
  unfold runtimeSecretsFromRefreshResult. generalize (@nil (jsstr * jsstr)) as acc.
  induction (rc_runtimeOutputSecrets context) as [|[env n] l IH]; intros acc Hn; cbn; [by eauto|].
  destruct (Hn env n) as [v ->]; [set_solver|]. apply IH. set_solver.
Qed.

(** The outputs a source can have: a model provider declares secrets only. *)
Definition writable (args : SecretTokenLookupArgs) (target : option RefreshOutputTarget) : bool :=
  match tl_sourceType args, target with FromModelProvider, Some (OutVariable _) => false | _, _ => true end.

Lemma write_outputs_total args context outs acc :
  forallb (fun o => writable args o.1) outs = true ->
  exists acc', foldl (write_output args context) (Ok acc) outs = Ok acc'.
Proof.
  revert acc. induction outs as [|[t v] outs IH]; intros [d ret]; cbn [forallb foldl fst]; [by eauto|].
  intros [Ht Hf]%andb_true_iff. unfold writable in Ht. cbn [write_output mbind result_bind].
  destruct t as [[n|n]|]; [by apply IH| |by apply IH]. destruct (tl_sourceType args); [by apply IH|done].
Qed.

Lemma declared_outputs_writable args context outputs outs :
  forallb (fun kv => writable args (Some kv.2)) (rc_outputTargets context) = true ->
  declared_outputs context outputs = Some outs -> forallb (fun o => writable args o.1) outs = true.
Proof.
  intros Hw. revert outs. induction outputs as [|[name [value|]] rest IH]; intros outs; cbn [declared_outputs];
    [by intros [= <-]| |by apply IH].
  destruct (output_target context name) as [t|] eqn:Et; [|done]. cbn [mbind option_bind].
  destruct (declared_outputs context rest) as [outs'|]; [|done]. intros [= <-]. cbn [forallb fst].
  rewrite (IH outs') by done. rewrite andb_true_r. unfold output_target in Et.
  destruct (rec_own (rc_outputTargets context) name) as [t0|] eqn:Eo;
    [|case_bool_decide; [by simplify_eq; unfold writable; destruct (tl_sourceType args)|done]].
  simplify_eq. revert Hw Eo. induction (rc_outputTargets context) as [|[k t] l IHl]; cbn; [done|].
  intros [Hk1 Hk2]%andb_true_iff. case_bool_decide; [by intros [= ->]|by apply IHl].
Qed.

Lemma prepared_writable args context :
  prepareRefreshTokenContext args = Ok (inr context) ->
  forallb (fun kv => writable args (Some kv.2)) (rc_outputTargets context) = true.
Proof.
  unfold prepareRefreshTokenContext, writable. destruct (tl_sourceType args) eqn:Es;
    [intros _; by induction (rc_outputTargets context)|].
  case_bool_decide; [done|]. destruct (getModelProviderRefreshMetadata _) as [m|]; [|done].
  destruct (negb (mr_isRefreshable m)); [done|]. destruct (truthy_text (tl_metadataKey args)); [|done].
  destruct (negb _); [done|]. intros Hq. apply (inj Ok) in Hq. simplify_eq. cbn [rc_outputTargets].
  unfold modelProviderRefreshOutputTargets. by induction (mr_outputs m).
Qed.

Lemma locked_total clock provider args connectorSecrets context initialState started d :
  forallb (fun kv => writable (ta_lookup args) (Some kv.2)) (rc_outputTargets context) = true ->
  exists r, refreshLockedAccessToken clock provider args connectorSecrets context initialState started d = Ok r.
Proof.
  intros Hw. unfold refreshLockedAccessToken. destruct (loadRefreshState _ _ _) as [state|]; [|by eauto].
  destruct (didLockedRefreshFailDuringRequest _ _ _ _); [by eauto|].
  destruct (shouldUseLockedCurrentAccess _ _ _ _ _ _ _) eqn:Eu.
  { unfold shouldUseLockedCurrentAccess in Eu. unfold currentRefreshAccessResult.
    destruct (allRuntimeOutputsAvailable context state) eqn:Ea; [|done].
    destruct (nonNull_total _ _ Ea) as [secs ->]. by eexists. }
  case_bool_decide as Em; [|by eexists]. cbn [negb].
  destruct (refreshInputs_total (tl_connectorType (ta_lookup args)) state Em) as [inputs ->]. cbn [mbind result_bind].
  destruct (provider inputs) as [result expiresIn|error timedOut]; [|by eexists].
  destruct (validateRefreshResultOutputs context result) as [outs|] eqn:Ev; [|by eexists].
  unfold validateRefreshResultOutputs in Ev. destruct (declared_outputs context result) as [outs'|] eqn:Ed; [|done].
  cbn in Ev. destruct (forallb _ _) eqn:Er in Ev; [|done]. simplify_eq.
  destruct (markRefreshSuccess clock (ta_lookup args) context outs expiresIn d) as [[d' returned]|msg] eqn:Es.
  - cbn [mbind result_bind]. destruct (markRefreshSuccess_ok _ _ _ _ _ _ _ _ Es) as (_ & _ & Hn).
    destruct (runtimeSecrets_total (tl_connectorType (ta_lookup args)) context returned) as [secs ->]; [|by eexists].
    intros env n Hin. apply Hn. apply required_names in Hin.
    by apply (bool_decide_eq_true _), (forallb_elem _ _ _ Er Hin).
  - exfalso. unfold markRefreshSuccess in Es.
    destruct (write_outputs_total (ta_lookup args) context outs (d, [])) as [[d1 r1] Hf];
      [by eapply declared_outputs_writable|]. by rewrite Hf in Es.
Qed.

(** Refreshing always returns. The internal errors of the code (outputs that
    disappeared, a null input, a required secret missing from a validated result, a
    variable written for a model provider) are never raised, whatever the provider
    answers and whatever other requests commit in between; the only throw left is the
    one for a model provider source without a metadata key. *)
Lemma refreshAccessTokenForSource_total clock dbNow others provider args connectorSecrets d :
  (tl_sourceType (ta_lookup args) = FromModelProvider -> truthy_text (tl_metadataKey (ta_lookup args)) <> None) ->
  exists r, refreshAccessTokenForSource clock dbNow others provider args connectorSecrets d = Ok r.
Proof.
  intros Hk. unfold refreshAccessTokenForSource, beginRefresh.
  destruct (prepareRefreshTokenContext (ta_lookup args)) as [[f|context]|msg] eqn:Ep; cbn [mbind result_bind].
  - by destruct f; eexists.
  - apply locked_total. by eapply prepared_writable.
  - exfalso. revert Ep. unfold prepareRefreshTokenContext. case_bool_decide; [done|].
    destruct (tl_sourceType (ta_lookup args)); [repeat case_match; done|].
    destruct (getModelProviderRefreshMetadata _); [|done]. destruct (negb _); [done|].
    destruct (truthy_text (tl_metadataKey (ta_lookup args))); [by case_match|]. by destruct Hk.
Qed.

End Concurrency.

(** ** Concrete requests *)

#[local] Instance sample_cipher : StoredCipher :=
  {| encryptStoredSecretValue := reverse; decryptStoredSecretValue := reverse |}.
#[local] Instance sample_cipher_laws : StoredCipherLaws.
Proof. constructor. exact (@reverse_involutive Z). Qed.

Definition sample_access : ConnectorAuthMethodAccessMetadata :=
  AccessRefreshToken [(js "refreshToken", TargetSecret (js "NOTION_REFRESH_TOKEN"))]
    [(js "accessToken", TargetSecret (js "NOTION_ACCESS_TOKEN"));
     (js "refreshToken", TargetSecret (js "NOTION_REFRESH_TOKEN"))] [js "NOTION_ACCESS_TOKEN"].

Definition sample_bindings : list ConnectorRuntimeBindingEntry :=
  [{| rb_envName := js "NOTION_TOKEN"; rb_source := ConnectorSecret (js "NOTION_ACCESS_TOKEN") |}].

#[local] Instance sample_tables : AuthTables := {|
  isConnectorType := fun t => bool_decide (t = js "notion");
  isConnectorAuthMethodId := fun m => bool_decide (m = js "oauth");
  getConnectorAuthMethodAccessMetadata := fun _ _ => Some sample_access;
  getConnectorAuthMethodRuntimeMetadata := fun _ _ => Some sample_bindings;
  connectorAuthMethodRefHasRefreshToken := fun _ _ => true;
  hasAuthClient := fun _ _ => true; authClientConfigured := fun _ _ => true;
  isModelProviderType := fun _ => false; getModelProviderEnvBindings := fun _ => None;
  getModelProviderRefreshMetadata := fun _ => None; isModelProviderRefreshConfigured := fun _ => false |}.

(** A token that expires in 10 seconds at the instant 1000 s. *)
Definition sample_store : AuthDb := {|
  connectors := {[ (js "org", js "user", js "notion") :=
    {| ar_authMethod := js "oauth"; ar_tokenExpiresAt := Some 1010000; ar_needsReconnect := false;
       ar_lastRefreshErrorCode := None; ar_updatedAtMicros := 400000000 |} ]};
  modelProviders := ∅;
  secretsTable := {[ (js "org", js "user", js "NOTION_ACCESS_TOKEN", js "connector") := reverse (js "old");
                     (js "org", js "user", js "NOTION_REFRESH_TOKEN", js "connector") := reverse (js "r1") ]};
  variablesTable := ∅ |}.

Definition sample_lookup : SecretTokenLookupArgs := {|
  tl_connectorType := js "notion"; tl_orgId := js "org"; tl_userId := js "user"; tl_sourceType := FromConnector;
  tl_sourceUserId := None; tl_metadataKey := None;
  tl_connectorAccessByType := loadConnectorAccessStates (js "org") (js "user") [js "notion"] sample_store;
  tl_accessEnvVars := [js "NOTION_TOKEN"] |}.

Definition sample_args (force : bool) : RefreshAccessTokenArgs :=
  {| ta_lookup := sample_lookup; ta_forceRefresh := force; ta_forceRefreshStartedAtMicros := Some 1000000000 |}.

Definition sample_context : RefreshTokenContext := {|
  rc_inputSources := [(js "refreshToken", InSecret (js "NOTION_REFRESH_TOKEN"))];
  rc_outputTargets := [(js "accessToken", OutSecret (js "NOTION_ACCESS_TOKEN"));
                       (js "refreshToken", OutSecret (js "NOTION_REFRESH_TOKEN"))];
  rc_runtimeOutputSecrets := [(js "NOTION_TOKEN", js "NOTION_ACCESS_TOKEN")]; rc_secretUserId := js "user" |}.

Example sample_context_ok : prepareRefreshTokenContext sample_lookup = Ok (inr sample_context).
Proof. vm_compute. reflexivity. Qed.

Definition sample_provider (inputs : Rec jsstr) : ProviderResult :=
  if bool_decide (rec_own inputs (js "refreshToken") = Some (js "r1"))
  then ProviderOk [(js "accessToken", Some (js "new")); (js "refreshToken", Some (js "r2"))] (Some 3600)
  else ProviderFailed (OAuthProviderHttpError (Some (js "invalid_grant")) 400) false.

Definition sample_clock (seconds : Z) : RefreshClock :=
  {| ck_now := seconds * 1000; ck_settled := seconds * 1000; ck_micros := seconds * 1000000 |}.

(** The first of two requests for the token. *)
Definition sample_first (provider : Rec jsstr -> ProviderResult) : result (RefreshAccessTokenResult * AuthDb * Rec jsstr) :=
  refreshLockedAccessToken (sample_clock 1001) provider (sample_args false) [] sample_context
    (loadRefreshState sample_lookup sample_context sample_store) (Some 1000000000) sample_store.

Definition sample_after (provider : Rec jsstr -> ProviderResult) : AuthDb :=
  match sample_first provider with Ok (_, d, _) => d | Throw _ => sample_store end.

Definition sample_outcome (provider : Rec jsstr -> ProviderResult) : option (RefreshAccessTokenResult * Rec jsstr) :=
  match sample_first provider with Ok (r, _, s) => Some (r, s) | Throw _ => None end.

Lemma sample_first_outcome provider r s :
  sample_outcome provider = Some (r, s) -> sample_first provider = Ok (r, sample_after provider, s).
Proof. unfold sample_outcome, sample_after. destruct (sample_first provider) as [[[? ?] ?]|]; [by intros [= -> ->]|done]. Qed.

Example sample_first_ok :
  sample_outcome sample_provider =
  Some (RefreshOk true [(js "NOTION_TOKEN", js "new")],
        [(js "NOTION_ACCESS_TOKEN", js "new"); (js "NOTION_REFRESH_TOKEN", js "r2"); (js "NOTION_TOKEN", js "new")]).
Proof. vm_compute. reflexivity. Qed.

(** A provider that is down. *)
Definition sample_down (inputs : Rec jsstr) : ProviderResult := ProviderFailed (ProviderHttpError 503) false.

Example sample_first_down : sample_outcome sample_down = Some (RefreshError RefreshFailed (Some UpstreamProvider), []).
Proof. vm_compute. reflexivity. Qed.

(** The second request, forced, had read the state before the first one wrote; the
    provider has gone down since. *)
Lemma refresh_single_flight_witness :
  refreshLockedAccessToken (sample_clock 1002) sample_down (sample_args true) [(js "NOTION_TOKEN", js "old")] sample_context
    (loadRefreshState sample_lookup sample_context sample_store) (Some 1000000000) (sample_after sample_provider) =
  Ok (RefreshOk false [(js "NOTION_TOKEN", js "new")], sample_after sample_provider, [(js "NOTION_TOKEN", js "old")]).
Proof.
  unfold sample_args.
  eapply (refresh_single_flight sample_lookup sample_context (sample_clock 1001) sample_provider).
  - exact (sample_first_outcome _ _ _ sample_first_ok).
  - reflexivity.
  - vm_compute. reflexivity.
  - vm_compute. discriminate.
Defined.

Lemma refresh_failure_shared_witness :
  exists frB, forall provider,
  refreshLockedAccessToken (sample_clock 1002) provider (sample_args false) [] sample_context
    (loadRefreshState sample_lookup sample_context sample_store) (Some 1000000000) (sample_after sample_down) =
  Ok (RefreshError RefreshFailed frB, sample_after sample_down, []).
Proof.
  unfold sample_args. destruct (loadRefreshState sample_lookup sample_context sample_store) as [state|] eqn:El;
    [|vm_compute in El; discriminate].
  eapply (refresh_failure_shared sample_lookup sample_context (sample_clock 1001) sample_down).
  - exact (sample_first_outcome _ _ _ sample_first_down).
  - intros E%(f_equal (fun d => ar_updatedAtMicros <$> source_row sample_lookup sample_context d)).
    vm_compute in E. discriminate.
  - exact El.
  - reflexivity.
  - intros E. apply (f_equal (fmap rs_updatedAtMicros)) in El. cbn [fmap option_fmap option_map] in El.
    rewrite E in El. vm_compute in El. discriminate.
Defined.

Lemma refresh_ok_current_witness :
  stores sample_lookup sample_context (sample_after sample_provider) [(js "NOTION_TOKEN", js "new")].
Proof. exact (proj1 (refresh_ok_current _ _ _ _ _ _ _ _ _ _ _ _ (sample_first_outcome _ _ _ sample_first_ok))). Defined.

End TokenRefresh.
