(* ===== verification/Permissions.v ===== *)
(** The permission manifest of a run: which firewalls are enforced and with which
    network policies (turbo/apps/api/src/signals/services/agent-run-create.service.ts,
    [buildPermissionManifest] and the functions it calls). The table of model
    provider firewalls is a field of [ModelProviders]. *)

From S2P Require Import Prelude JsString JsValue JsRecord Templates BaseUrl Registry RunEnvironment.
Import Templates BaseUrl Registry RunEnvironment.

Module Permissions.

(** ** Data *)

Record NetworkPolicy := {
  np_allow : list jsstr; np_deny : list jsstr; np_ask : list jsstr; np_unknownPolicy : FirewallPolicyValue }.

Inductive ExecutionFirewallEntry :=
| BuiltinEntry (entry_name : jsstr) (baseUrlVars : option (Rec jsstr))
| InlineEntry (firewall : Firewall).

Record PermissionManifest := {
  pm_firewalls : list ExecutionFirewallEntry;
  pm_networkPolicies : Rec NetworkPolicy;
  pm_environmentFirewalls : list FirewallConfig;
}.

(** [defaultPolicies] of a model provider firewall. *)
Record DefaultPolicies := {
  dp_deny : option (list jsstr); dp_ask : option (list jsstr); dp_unknown : option FirewallPolicyValue }.

Class ModelProviders := {
  getModelProviderFirewall : jsstr -> option (FirewallConfig * option DefaultPolicies);
}.

(** The fields of [ResolvedModelProviderEnvironment] the manifest reads. *)
Record ModelProviderRef := { mp_type : jsstr; mp_concreteType : option jsstr }.

Definition entry_name (e : ExecutionFirewallEntry) : jsstr :=
  match e with BuiltinEntry n _ => n | InlineEntry fw => fw_name fw end.

(** ** Entries *)

Definition collectPermissionNames (apis : list FirewallApi) : list jsstr :=
  set_add_all (concat ((fun api => perm_name <$> default [] (api_permissions api)) <$> apis)) [].

Definition runtimeFirewall (firewall : FirewallConfig) : Firewall :=
  {| fw_name := fc_name firewall;
     fw_apis := (fun api => {| api_base := api_base api; api_auth := api_auth api;
                               api_permissions := Some (default [] (api_permissions api)) |}) <$> fc_apis firewall |}.

(** A runtime firewall where an expanded configuration is expected. *)
Definition firewall_config (fw : Firewall) : FirewallConfig :=
  {| fc_name := fw_name fw; fc_description := None; fc_apis := fw_apis fw; fc_placeholders := None |}.

Definition base_url_var_names (firewall : FirewallConfig) : list jsstr :=
  set_add_all (concat ((fun api => (fun m => m.2) <$> match_all REF_VARS (api_base api) 0 0) <$> fc_apis firewall)) [].

Fixpoint collect_base_url_vars (fwName : jsstr) (vars : option (Rec jsstr)) (names : list jsstr)
    (baseUrlVars : Rec jsstr) : result (Rec jsstr) :=
  match names with
  | [] => Ok baseUrlVars
  | n :: names' =>
      match lookup_var vars n with
      | None => Throw (js "Firewall " ++ quoted fwName ++ js " base URL requires variable " ++
                       quoted n ++ js " but it was not provided")
      | Some value => collect_base_url_vars fwName vars names' (rec_set baseUrlVars n value)
      end
  end.

Section WithPlatform.
Context `{Platform}.

Definition builtinFirewallEntry (firewall : FirewallConfig) (vars : option (Rec jsstr)) :
    result ExecutionFirewallEntry :=
  let names := base_url_var_names firewall in
  if bool_decide (names = []) then Ok (BuiltinEntry (fc_name firewall) None)
  else
    baseUrlVars ← collect_base_url_vars (fc_name firewall) vars names [];
    _ ← resolveFirewallBaseUrlVars [runtimeFirewall firewall] vars;
    Ok (BuiltinEntry (fc_name firewall) (Some baseUrlVars)).

Definition inlineFirewallEntry (firewall : FirewallConfig) : result ExecutionFirewallEntry :=
  Ok (InlineEntry (runtimeFirewall firewall)).

(** ** Policies *)

(** The policy of one firewall; an inherited name as a firewall name reads a function
    without policies, whose result is the same as for a missing policy when the
    firewall has no permissions, as custom connectors have none. *)
Definition network_policy (policy : option FirewallPolicy) (permissionNames : list jsstr) : NetworkPolicy :=
  match policy with
  | None => {| np_allow := permissionNames; np_deny := []; np_ask := []; np_unknownPolicy := PAllow |}
  | Some p =>
      {| np_allow := filter (fun n => policies p !! n = Some PAllow) permissionNames;
         np_deny := filter (fun n => policies p !! n = Some PDeny) permissionNames;
         np_ask := filter (fun n => policies p !! n = Some PAsk) permissionNames;
         np_unknownPolicy := default PAllow (unknownPolicy p) |}
  end.

(** The loop; an undefined configuration (an inherited connector name) throws. *)
Fixpoint applyConnectorPolicies (connectorFirewalls : list (option FirewallConfig))
    (pols : option (Rec FirewallPolicy)) (entryForFirewall : FirewallConfig -> result ExecutionFirewallEntry)
    (firewalls : list ExecutionFirewallEntry) (networkPolicies : Rec NetworkPolicy) :
    result (list ExecutionFirewallEntry * Rec NetworkPolicy) :=
  match connectorFirewalls with
  | [] => Ok (firewalls, networkPolicies)
  | None :: _ => Throw (js "TypeError")
  | Some firewall :: rest =>
      let policy := rec_own (default [] pols) (fc_name firewall) in
      let permissionNames := collectPermissionNames (fc_apis firewall) in
      entry ← entryForFirewall firewall;
      applyConnectorPolicies rest pols entryForFirewall (firewalls ++ [entry])
        (rec_set networkPolicies (fc_name firewall) (network_policy policy permissionNames))
  end.

Section WithTables.
Context `{GeneratedRegistry} `{ModelProviders}.

Definition modelProviderPermissionManifest (modelProvider : option ModelProviderRef)
    (vars : option (Rec jsstr)) : result (option PermissionManifest) :=
  match modelProvider with
  | None => Ok None
  | Some mp =>
      match getModelProviderFirewall (default (mp_type mp) (mp_concreteType mp)) with
      | None => Ok None
      | Some (firewall, defaults) =>
          let permissionNames := collectPermissionNames (fc_apis firewall) in
          let denySet := set_add_all (default [] (d ← defaults; dp_deny d)) [] in
          let askSet := set_add_all (default [] (d ← defaults; dp_ask d)) [] in
          entry ← builtinFirewallEntry firewall vars;
          Ok (Some {|
            pm_firewalls := [entry];
            pm_environmentFirewalls := [firewall];
            pm_networkPolicies := [(fc_name firewall, {|
              np_allow := filter (fun n => n ∉ denySet /\ n ∉ askSet) permissionNames;
              np_deny := denySet; np_ask := askSet;
              np_unknownPolicy := default PAllow (d ← defaults; dp_unknown d) |})] |})
      end
  end.

Record ManifestArgs := {
  ma_modelProvider : option ModelProviderRef;
  ma_permissionPolicies : option (Rec FirewallPolicy);
  ma_vars : option (Rec jsstr);
  ma_connectorVars : option (Rec jsstr);
  ma_connectorTypes : option (list jsstr);
  ma_customConnectorFirewalls : option (list FirewallConfig);
}.

(** The connector types whose firewalls apply. *)
Definition manifest_types (args : ManifestArgs) : list jsstr :=
  filter (fun t => isFirewallConnectorType t = true)
    (match ma_connectorTypes args with
     | Some ts => ts
     | None => filter (fun t => isFirewallConnectorType t = true)
                 (rec_keys (default [] (ma_permissionPolicies args)))
     end).

Definition buildPermissionManifest (args : ManifestArgs) : result (option PermissionManifest) :=
  let connectorBaseUrlVars := mergeRecords [ma_vars args; ma_connectorVars args] in
  let connectorFirewalls := getConnectorFirewall <$> manifest_types args in
  '(cFirewalls, cPolicies) ←
    applyConnectorPolicies connectorFirewalls (ma_permissionPolicies args)
      (fun firewall => builtinFirewallEntry firewall connectorBaseUrlVars) [] [];
  resolvedCustom ←
    resolveFirewallBaseUrlVars (runtimeFirewall <$> default [] (ma_customConnectorFirewalls args)) (ma_vars args);
  '(uFirewalls, uPolicies) ←
    applyConnectorPolicies (Some ∘ firewall_config <$> resolvedCustom) (ma_permissionPolicies args)
      inlineFirewallEntry [] [];
  providerManifest ← modelProviderPermissionManifest (ma_modelProvider args) (ma_vars args);
  let pFirewalls := default [] (pm_firewalls <$> providerManifest) in
  let firewalls := pFirewalls ++ cFirewalls ++ uFirewalls in
  if bool_decide (firewalls = []) then Ok None
  else Ok (Some {|
    pm_firewalls := firewalls;
    pm_environmentFirewalls :=
      default [] (pm_environmentFirewalls <$> providerManifest) ++
      omap id connectorFirewalls ++ default [] (ma_customConnectorFirewalls args);
    pm_networkPolicies :=
      rec_spread (rec_spread (default [] (pm_networkPolicies <$> providerManifest)) cPolicies) uPolicies |}).

End WithTables.
End WithPlatform.

(** ** Billing *)

Definition BILLABLE_CONNECTORS : list jsstr := [js "x"].

Definition billableFirewallsForPermissions (modelProvider : option ModelProviderRef)
    (permissions : option PermissionManifest) : list jsstr :=
  let firewallNames := entry_name <$> default [] (pm_firewalls <$> permissions) in
  let modelFirewalls :=
    if bool_decide (mp_type <$> modelProvider = Some (js "vm0"))
    then filter (fun n => starts_with n (js "model-provider:") = true) firewallNames else [] in
  let connectorFirewalls := filter (fun n => n ∈ BILLABLE_CONNECTORS) firewallNames in
  modelFirewalls ++ connectorFirewalls.

(** ** Theorems *)

Lemma map_result_names (f : Firewall -> result Firewall) l l' :
  (forall a b, f a = Ok b -> fw_name b = fw_name a) ->
  map_result f l = Ok l' -> fw_name <$> l' = fw_name <$> l.
Proof.
  intros Hf. revert l'; induction l as [|a l IH]; intros l'; simpl; [by intros [= <-]|].
  intros H. apply result_bind_ok in H as (b & Hb & H). apply result_bind_ok in H as (bs & Hbs & [= <-]).
  csimpl. by rewrite (Hf _ _ Hb), (IH _ Hbs).
Qed.

Section Theorems.
Context `{Platform}.

Lemma resolve_names fws vars fws' :
  resolveFirewallBaseUrlVars fws vars = Ok fws' -> fw_name <$> fws' = fw_name <$> fws.
Proof.
  apply map_result_names. intros a b Hb. apply result_bind_ok in Hb as (apis & _ & [= <-]). done.
Qed.

Lemma builtin_name firewall vars e : builtinFirewallEntry firewall vars = Ok e -> entry_name e = fc_name firewall.
Proof.
  unfold builtinFirewallEntry. case_bool_decide; [by intros [= <-]|].
  intros (r & _ & Hb)%result_bind_ok. apply result_bind_ok in Hb as (? & _ & [= <-]). done.
Qed.

Lemma inline_name firewall e : inlineFirewallEntry firewall = Ok e -> entry_name e = fc_name firewall.
Proof. by intros [= <-]. Qed.

(** What a successful loop adds. *)
Lemma applyConnectorPolicies_ok l pols f fws nps fws' nps' :
  (forall fw e, f fw = Ok e -> entry_name e = fc_name fw) ->
  applyConnectorPolicies l pols f fws nps = Ok (fws', nps') ->
  entry_name <$> fws' = (entry_name <$> fws) ++ (fc_name <$> omap id l) /\
  (forall n, is_Some (rec_own nps n) \/ n ∈ fc_name <$> omap id l /\ n <> PROTO -> is_Some (rec_own nps' n)) /\
  (forall n np, rec_own nps' n = Some np -> rec_own nps n = Some np \/
     exists fw, fw ∈ omap id l /\ fc_name fw = n /\
       np = network_policy (rec_own (default [] pols) n) (collectPermissionNames (fc_apis fw))) /\
  (NoDup (rec_keys nps) -> NoDup (rec_keys nps')).
Proof.
  intros Hf. revert fws nps; induction l as [|[fw|] l IH]; intros fws nps; cbn [applyConnectorPolicies]; [| |done].
  - intros [= <- <-]. csimpl. rewrite app_nil_r. split_and!; [done|set_solver|by left|done].
  - intros (e & He & Hl)%result_bind_ok. destruct (IH _ _ Hl) as (Hn & Hc & Hp & Hd). csimpl. split_and!.
    + rewrite Hn, fmap_app, <- app_assoc. csimpl. by rewrite (Hf _ _ He).
    + intros n Hcase. apply Hc. destruct Hcase as [Hs|[[->|Hin]%elem_of_cons Hne]]; [left|left|by right].
      * by apply rec_set_keeps.
      * rewrite rec_own_set by done. rewrite bool_decide_eq_true_2 by done. eauto.
    + intros n np Hnp. destruct (Hp _ _ Hnp) as [Hs|(fw' & Hin & <- & ->)]; [|right; exists fw'; set_solver].
      unfold rec_set in Hs. destruct (_ && _); [by left|]. rewrite rec_own_define in Hs.
      case_bool_decide as E; [|by left]. subst. right. exists fw. split; [by left|]. split; [done|congruence].
    + intros Hnd. apply Hd. by apply NoDup_rec_set.
Qed.

(** Under a policy every listed permission is in the list of its action only. *)
Lemma network_policy_lists p names n :
  (n ∈ np_allow (network_policy (Some p) names) <-> n ∈ names /\ policies p !! n = Some PAllow) /\
  (n ∈ np_deny (network_policy (Some p) names) <-> n ∈ names /\ policies p !! n = Some PDeny) /\
  (n ∈ np_ask (network_policy (Some p) names) <-> n ∈ names /\ policies p !! n = Some PAsk).
Proof. simpl. rewrite !list_elem_of_filter. tauto. Qed.

Context `{GeneratedRegistry} `{ModelProviders}.

(** The name of the provider firewall, which has policies of its own. *)
Definition provider_firewall_name (mp : option ModelProviderRef) : option jsstr :=
  m ← mp; '(fw, _) ← getModelProviderFirewall (default (mp_type m) (mp_concreteType m)); Some (fc_name fw).

Lemma provider_manifest_ok mp vars pm :
  modelProviderPermissionManifest mp vars = Ok pm ->
  entry_name <$> default [] (pm_firewalls <$> pm) =
    fc_name <$> default [] (pm_environmentFirewalls <$> pm) /\
  rec_keys (default [] (pm_networkPolicies <$> pm)) = option_list (provider_firewall_name mp) /\
  fc_name <$> default [] (pm_environmentFirewalls <$> pm) = option_list (provider_firewall_name mp).
Proof.
  unfold modelProviderPermissionManifest, provider_firewall_name.
  destruct mp as [m|]; [|by intros [= <-]]. simpl.
  destruct (getModelProviderFirewall _) as [[fw d]|]; simpl; [|by intros [= <-]].
  intros (e & He & [= <-])%result_bind_ok. csimpl. by rewrite (builtin_name _ _ _ He).
Qed.

Lemma permission_manifest_ok args m :
  buildPermissionManifest args = Ok (Some m) ->
  entry_name <$> pm_firewalls m = fc_name <$> pm_environmentFirewalls m /\
  (forall n, n ∈ fc_name <$> pm_environmentFirewalls m -> n <> PROTO ->
     is_Some (rec_own (pm_networkPolicies m) n)) /\
  (forall n p perm np,
     rec_own (default [] (ma_permissionPolicies args)) n = Some p ->
     policies p !! perm <> Some PAllow ->
     provider_firewall_name (ma_modelProvider args) <> Some n ->
     rec_own (pm_networkPolicies m) n = Some np -> perm ∉ np_allow np).
Proof.
  unfold buildPermissionManifest. intros Hm.
  apply result_bind_ok in Hm as ([cf cp] & Hc & Hm). apply result_bind_ok in Hm as (rc & Hr & Hm).
  apply result_bind_ok in Hm as ([uf up] & Hu & Hm). apply result_bind_ok in Hm as (pm & Hpm & Hm).
  case_bool_decide; [done|]. apply (inj Ok), (inj Some) in Hm as <-. cbn [pm_firewalls pm_environmentFirewalls pm_networkPolicies].
  apply applyConnectorPolicies_ok in Hc as (Hc1 & Hc2 & Hc3 & Hc4); [|intros; by eapply builtin_name].
  apply applyConnectorPolicies_ok in Hu as (Hu1 & Hu2 & Hu3 & Hu4); [|intros; by eapply inline_name].
  apply provider_manifest_ok in Hpm as (Hp1 & Hp2 & Hp3). apply resolve_names in Hr.
  assert (fc_name <$> omap id (Some ∘ firewall_config <$> rc) =
          fc_name <$> default [] (ma_customConnectorFirewalls args)) as Hcustom.
  { rewrite <- list_fmap_compose in Hr. change (fw_name ∘ runtimeFirewall) with fc_name in Hr. rewrite <- Hr.
    clear. induction rc as [|a rc IH]; csimpl; [done|]. by rewrite IH. }
  specialize (Hc4 NoDup_nil_2). specialize (Hu4 NoDup_nil_2). split_and!.
  - rewrite !fmap_app, Hp1, Hc1, Hu1, Hcustom. done.
  - intros n Hn Hne. rewrite !rec_own_spread by done.
    destruct (rec_own up n) eqn:Eu; [eauto|]. destruct (rec_own cp n) eqn:Ec; [eauto|].
    rewrite !fmap_app, !elem_of_app in Hn. destruct Hn as [Hn|[Hn|Hn]].
    + apply rec_own_elem. by rewrite Hp2, <- Hp3.
    + specialize (Hc2 n (or_intror (conj Hn Hne))). rewrite Ec in Hc2. by destruct Hc2.
    + rewrite <- Hcustom in Hn. specialize (Hu2 n (or_intror (conj Hn Hne))). rewrite Eu in Hu2. by destruct Hu2.
  - intros n p perm np Hpol Hperm Hprov. rewrite !rec_own_spread by done.
    assert (forall fw, np = network_policy (rec_own (default [] (ma_permissionPolicies args)) n)
      (collectPermissionNames (fc_apis fw)) -> perm ∉ np_allow np) as Hfin.
    { intros fw ->. rewrite Hpol. intros Hin. apply (network_policy_lists p _ perm) in Hin as [_ Hin]. done. }
    destruct (rec_own up n) eqn:Eu.
    { intros [= ->]. destruct (Hu3 _ _ Eu) as [|(fw & _ & _ & E)]; [done|by eapply Hfin]. }
    destruct (rec_own cp n) eqn:Ec.
    { intros [= ->]. destruct (Hc3 _ _ Ec) as [|(fw & _ & _ & E)]; [done|by eapply Hfin]. }
    intros Hown. destruct Hprov. assert (n ∈ option_list (provider_firewall_name (ma_modelProvider args))) as Hin
      by (rewrite <- Hp2; apply rec_own_elem; eauto).
    destruct (provider_firewall_name (ma_modelProvider args)); [|by apply elem_of_nil in Hin].
    by apply list_elem_of_singleton in Hin as ->.
Qed.

(** Every firewall whose secrets are replaced by placeholders is enforced, in the same
    order and under a network policy, and a permission that the run's policies do
    not allow is never in an allow list. *)
Theorem buildPermissionManifest_enforced args m :
  buildPermissionManifest args = Ok (Some m) ->
  entry_name <$> pm_firewalls m = fc_name <$> pm_environmentFirewalls m /\
  (forall n, n ∈ fc_name <$> pm_environmentFirewalls m -> n <> PROTO ->
     is_Some (rec_own (pm_networkPolicies m) n)) /\
  (forall n p perm np,
     rec_own (default [] (ma_permissionPolicies args)) n = Some p ->
     policies p !! perm <> Some PAllow ->
     provider_firewall_name (ma_modelProvider args) <> Some n ->
     rec_own (pm_networkPolicies m) n = Some np -> perm ∉ np_allow np).
Proof. apply permission_manifest_ok. Qed.

End Theorems.

Section Witnesses.

#[local] Existing Instance ascii_platform.
#[local] Existing Instance sample_registry.

Definition sample_providers : ModelProviders := {| getModelProviderFirewall _ := None |}.
#[local] Existing Instance sample_providers.

Definition sample_args : ManifestArgs :=
  {| ma_modelProvider := None;
     ma_permissionPolicies := Some [(js "slack", {| policies := {[js "read" := PDeny]}; unknownPolicy := None |})];
     ma_vars := None; ma_connectorVars := None; ma_connectorTypes := None; ma_customConnectorFirewalls := None |}.

Lemma buildPermissionManifest_enforced_witness :
  exists m, buildPermissionManifest sample_args = Ok (Some m) /\
    entry_name <$> pm_firewalls m = fc_name <$> pm_environmentFirewalls m.
Proof.
  eexists. split; [vm_compute; reflexivity|].
  apply (buildPermissionManifest_enforced sample_args). vm_compute. reflexivity.
Defined.

End Witnesses.

End Permissions.
