(* ===== verification/Expander.v ===== *)
(** Firewall selections (turbo/packages/connectors/src/firewall-expander.ts): rule
    and configuration validation, and the expansion of a selection of built-in
    firewalls into the configurations a run receives. *)

From S2P Require Import Prelude JsString JsValue SegmentParser UrlUtils Templates BaseUrl RuleMatcher Registry.
Import SegmentParser UrlUtils Templates BaseUrl Registry.

Module Expander.

(** ** Data *)

Inductive PermissionSelection :=
| SelAll
| SelNames (names : list jsstr).

Record FirewallSelection := { sel_permissions : PermissionSelection }.

Definition VALID_RULE_METHODS : list jsstr :=
  [js "GET"; js "POST"; js "PUT"; js "PATCH"; js "DELETE"; js "HEAD"; js "OPTIONS"; js "ANY"].

(** ** Rules *)

Definition ruleErr (rule permName serviceName detail : jsstr) : jsstr :=
  js "Invalid rule " ++ quoted rule ++ js " in permission " ++ quoted permName ++
  js " of firewall " ++ quoted serviceName ++ js ": " ++ detail.

(** The [for] loop of [validatePathSegments] from segment [i]. *)
Fixpoint pathSegmentsLoop (segments : list jsstr) (i len : nat) (paramNames : list jsstr)
    (err : jsstr -> jsstr) : result unit :=
  match segments with
  | [] => Ok tt
  | seg :: segments' =>
      match parseSegment seg with
      | SError reason => Throw (err reason)
      | SLiteral _ => pathSegmentsLoop segments' (S i) len paramNames err
      | SParam prefix name suffix greedy =>
          _ ← throw_if (bool_decide (name ∈ paramNames))
                (err (js "duplicate parameter name " ++ quoted (param_text name GNone)));
          _ ← throw_if (greedy_truthy greedy && negb (i =? len - 1)%nat)
                (err (param_text name greedy ++ js " must be the last segment"));
          _ ← throw_if (greedy_truthy greedy &&
                        (negb (bool_decide (prefix = [])) || negb (bool_decide (suffix = []))))
                (err (js "greedy parameter " ++ param_text name greedy ++
                      js " cannot be combined with a literal prefix or suffix in segment " ++ quoted seg));
          pathSegmentsLoop segments' (S i) len (set_add name paramNames) err
      end
  end.

Definition validatePathSegments (path rule permName serviceName : jsstr) : result unit :=
  let err := ruleErr rule permName serviceName in
  _ ← throw_if (negb (starts_with path [SLASH])) (err (js "path must start with " ++ quoted (js "/")));
  _ ← throw_if (hasRawWhitespace path) (err (js "path must not contain whitespace"));
  _ ← throw_if (hasUnsafeUrlCodepoint path)
        (err (js "path must not contain control characters or invalid Unicode"));
  _ ← throw_if (includes path (js "\")) (err (js "path must not contain backslash"));
  _ ← throw_if (includes path (js "?") || includes path (js "#"))
        (err (js "path must not contain query string or fragment"));
  let segments := splitPathSegments path in
  pathSegmentsLoop segments 0 (length segments) [] err.

Definition validateRule (rule permName serviceName : jsstr) : result unit :=
  let err := ruleErr rule permName serviceName in
  match index_of rule (js " ") with
  | None => Throw (err (js "must be " ++ quoted (js "METHOD /path")))
  | Some spaceIdx =>
      let method := slice rule 0 spaceIdx in
      let rest := drop (spaceIdx + 1) rule in
      _ ← throw_if (bool_decide (method = []) || bool_decide (rest = []))
            (err (js "must be " ++ quoted (js "METHOD /path")));
      _ ← throw_if (negb (bool_decide (method ∈ VALID_RULE_METHODS)))
            (err (js "unknown method " ++ quoted method ++ js " (must be uppercase)"));
      validatePathSegments rest rule permName serviceName
  end.

Section WithPlatform.
Context `{Platform}.

(** ** Configurations *)

(** The [for] loop over the permissions of one API; [seen] and [available] are
    the two sets. *)
Fixpoint permissionsValidateLoop (fwName base : jsstr) (perms : list FirewallPermission)
    (seen available : list jsstr) : result (list jsstr) :=
  match perms with
  | [] => Ok available
  | perm :: perms' =>
      let name := perm_name perm in
      _ ← throw_if (bool_decide (name = []))
            (js "Firewall " ++ quoted fwName ++ js " has a permission with empty name");
      _ ← throw_if (bool_decide (name = js "all") || bool_decide (name = UNKNOWN_PERMISSION_GRANT))
            (js "Firewall " ++ quoted fwName ++ js " has a permission named " ++ quoted name ++
             js ", which is a reserved keyword");
      _ ← throw_if (bool_decide (name ∈ seen))
            (js "Duplicate permission name " ++ quoted name ++ js " in API entry " ++ quoted base ++
             js " of firewall " ++ quoted fwName);
      _ ← throw_if (length (perm_rules perm) =? 0)%nat
            (js "Permission " ++ quoted name ++ js " in firewall " ++ quoted fwName ++ js " has no rules");
      _ ← for_each (fun rule => validateRule rule name fwName) (perm_rules perm);
      permissionsValidateLoop fwName base perms' (set_add name seen) (set_add name available)
  end.

Fixpoint apisValidateLoop (fwName : jsstr) (apis : list FirewallApi) (available : list jsstr) :
    result (list jsstr) :=
  match apis with
  | [] => Ok available
  | api :: apis' =>
      _ ← validateBaseUrl (api_base api) fwName;
      _ ← match auth_base (api_auth api) with
          | Some authBase => validateAuthBaseUrl authBase fwName
          | None => Ok tt
          end;
      available' ← permissionsValidateLoop fwName (api_base api) (default [] (api_permissions api)) [] available;
      apisValidateLoop fwName apis' available'
  end.

Definition collectAndValidatePermissions (serviceConfig : FirewallConfig) : result (list jsstr) :=
  _ ← throw_if (length (fc_apis serviceConfig) =? 0)%nat
        (js "Firewall " ++ quoted (fc_name serviceConfig) ++ js " has no api entries");
  apisValidateLoop (fc_name serviceConfig) (fc_apis serviceConfig) [].

(** ** Selections *)

Section WithRegistry.
Context `{GeneratedRegistry}.

(** [None] is the value of an inherited property name, which is no configuration. *)
Definition resolveBuiltinFirewallConfig (name : jsstr) : result (option FirewallConfig) :=
  let trimmed := trim name in
  _ ← throw_if (includes trimmed [SLASH] || negb (isFirewallConnectorType trimmed))
        (js "Unsupported firewall " ++ quoted name ++ js ": only built-in connector firewalls are supported");
  Ok (getConnectorFirewall trimmed).

Fixpoint checkSelected (serviceName : jsstr) (available names : list jsstr) : result unit :=
  match names with
  | [] => Ok tt
  | name :: names' =>
      _ ← throw_if (negb (bool_decide (name ∈ available)))
            (js "Permission " ++ quoted name ++ js " does not exist in firewall " ++ quoted serviceName ++
             js ". Available: " ++ join (js ", ") available);
      checkSelected serviceName available names'
  end.

Definition with_permissions (api : FirewallApi) (perms : option (list FirewallPermission)) : FirewallApi :=
  {| api_base := api_base api; api_auth := api_auth api; api_permissions := perms |}.

Definition filterApis (selection : PermissionSelection) (apis : list FirewallApi) : list FirewallApi :=
  match selection with
  | SelAll => (fun api => with_permissions api (api_permissions api)) <$> apis
  | SelNames names =>
      filter (fun api => (0 < length (default [] (api_permissions api)))%nat)
        ((fun api => with_permissions api
            (Some (filter (fun p => perm_name p ∈ names) (default [] (api_permissions api))))) <$> apis)
  end.

(** One iteration of the loop of [resolveFirewallSelections]: no entry when no
    API remains. *)
Definition expandSelection (selection : FirewallSelection) (serviceConfig : option FirewallConfig) :
    result (list FirewallConfig) :=
  match serviceConfig with
  | None => Throw (js "TypeError")
  | Some serviceConfig =>
      availablePermissions ← collectAndValidatePermissions serviceConfig;
      _ ← match sel_permissions selection with
          | SelAll => Ok tt
          | SelNames names => checkSelected (fc_name serviceConfig) availablePermissions names
          end;
      let filteredApis := filterApis (sel_permissions selection) (fc_apis serviceConfig) in
      Ok (if (length filteredApis =? 0)%nat then []
          else [{| fc_name := fc_name serviceConfig; fc_description := fc_description serviceConfig;
                   fc_apis := filteredApis; fc_placeholders := fc_placeholders serviceConfig |}])
  end.

Fixpoint selectionsLoop (selections : list FirewallSelection) (configs : list (option FirewallConfig)) :
    result (list FirewallConfig) :=
  match selections, configs with
  | s :: selections', c :: configs' =>
      entry ← expandSelection s c; rest ← selectionsLoop selections' configs'; Ok (entry ++ rest)
  | _, _ => Ok []
  end.

(** The selections are the entries of the record. *)
Definition resolveFirewallSelections (selections : list (jsstr * FirewallSelection)) :
    result (list FirewallConfig) :=
  resolvedConfigs ← map_result resolveBuiltinFirewallConfig selections.*1;
  selectionsLoop selections.*2 resolvedConfigs.

End WithRegistry.
End WithPlatform.

(** ** Theorems: rules *)

(** The validator's loop and the matcher's specificity loop accept the same
    segments. *)
Lemma loops_agree segs i len names err counts :
  pathSegmentsLoop segs i len names err = Ok tt <->
  is_Some (RuleMatcher.specificityLoop segs i (len - 1) names counts).
Proof.
  revert i names counts; induction segs as [|seg segs IH]; intros i names counts;
    cbn [pathSegmentsLoop RuleMatcher.specificityLoop]; [by split; eauto|].
  destruct (parseSegment seg) as [v|pre name suf g|reason]; [apply IH| |split; [done|intros [? [=]]]].
  unfold RuleMatcher.isInvalidGreedyParam.
  destruct (bool_decide (name ∈ names)); cbn; [split; [done|intros [? [=]]]|].
  destruct (greedy_truthy g); cbn [andb throw_if mbind result_bind]; [|apply IH].
  destruct (i =? len - 1)%nat; cbn; [|split; [done|intros [? [=]]]].
  destruct (bool_decide (pre = [])), (bool_decide (suf = [])); cbn;
    first [apply IH|split; [done|intros [? [=]]]].
Qed.

Lemma throw_if_bind c msg (k : result unit) :
  (throw_if c msg ≫= fun _ => k) = Ok tt <-> c = false /\ k = Ok tt.
Proof. destruct c; cbn; naive_solver. Qed.

Lemma validatePathSegments_iff path rule permName serviceName :
  validatePathSegments path rule permName serviceName = Ok tt <->
  is_Some (RuleMatcher.pathSpecificity path).
Proof.
  unfold validatePathSegments, RuleMatcher.pathSpecificity. rewrite !throw_if_bind.
  rewrite (loops_agree _ _ _ _ _ RuleMatcher.zero_counts).
  destruct (starts_with path [SLASH]), (hasRawWhitespace path), (hasUnsafeUrlCodepoint path),
    (includes path (js "\")), (includes path (js "?")), (includes path (js "#")); cbn [negb orb];
    try (split; [naive_solver|intros [? [=]]]).
  rewrite fmap_is_Some. naive_solver.
Qed.

Lemma validateRule_split rule permName serviceName :
  validateRule rule permName serviceName = Ok tt <->
  exists method path, rule = method ++ js " " ++ path /\ method ∈ VALID_RULE_METHODS /\
    is_Some (RuleMatcher.pathSpecificity path).
Proof.
  unfold validateRule. change (js " ") with [32]. split.
  - destruct (index_of rule [32]) as [k|] eqn:E; [|done].
    apply index_of_char_Some in E as (a & b & -> & <- & Ha).
    rewrite !throw_if_bind, validatePathSegments_iff. intros (_ & Hm & Hp). bool_facts.
    unfold slice in Hm. rewrite Nat.sub_0_r, drop_0, take_app_length in Hm.
    exists a, b. split; [done|]. split; [done|].
    by rewrite (drop_app_ge _ _ (length a + 1)), Nat.add_comm, Nat.add_sub in Hp by lia.
  - intros (m & path & -> & Hm & Hp). change ([32] ++ path) with (32 :: path).
    assert (32 ∉ m) as Hsp.
    { assert (forallb (fun m : jsstr => negb (bool_decide (32 ∈ m))) VALID_RULE_METHODS = true) as Hall
        by (vm_compute; reflexivity).
      rewrite forallb_true in Hall. apply Hall in Hm. by bool_facts. }
    rewrite index_of_char_app by done. unfold slice. rewrite Nat.sub_0_r, drop_0, take_app_length.
    rewrite (drop_app_ge _ _ (length m + 1)), Nat.add_comm, Nat.add_sub by lia.
    change (drop 1 (32 :: path)) with path. rewrite !throw_if_bind, validatePathSegments_iff.
    split; [|split; [by rewrite bool_decide_eq_true_2|done]].
    rewrite (bool_decide_eq_false_2 (m = [])), (bool_decide_eq_false_2 (path = [])); [done| |].
    + intros ->. destruct Hp as [? [=]].
    + intros ->. apply (bool_decide_eq_true_2 _) in Hm. by vm_compute in Hm.
Qed.

(** The validator and the runtime matcher agree on what a rule is: a rule passes
    [validateRule] exactly when it is a known upper-case method, one space and a
    path to which the matcher gives a specificity, so no accepted rule is silently
    skipped when a request is matched, and none that the matcher would use is refused. *)
Theorem validateRule_iff rule permName serviceName :
  validateRule rule permName serviceName = Ok tt <->
  exists method path, rule = method ++ js " " ++ path /\ method ∈ VALID_RULE_METHODS /\
    is_Some (RuleMatcher.pathSpecificity path).
Proof. apply validateRule_split. Qed.

(** ** Theorems: configurations *)

Lemma for_each_ok {A} (f : A -> result unit) l :
  for_each f l = Ok tt <-> forall x, x ∈ l -> f x = Ok tt.
Proof.
  induction l as [|a l IH]; simpl; [set_solver|]. destruct (f a) as [[]|e] eqn:E; simpl.
  - rewrite IH. setoid_rewrite elem_of_cons. naive_solver.
  - split; [done|]. intros Hall. rewrite Hall in E by set_solver. done.
Qed.

(** What one validated permission looks like. *)
Definition permission_valid (perm : FirewallPermission) : Prop :=
  perm_name perm <> [] /\ perm_name perm <> js "all" /\ perm_name perm <> UNKNOWN_PERMISSION_GRANT /\
  perm_rules perm <> [] /\
  forall rule, rule ∈ perm_rules perm ->
    exists method path, rule = method ++ js " " ++ path /\ method ∈ VALID_RULE_METHODS /\
      is_Some (RuleMatcher.pathSpecificity path).

Lemma permissionsValidateLoop_ok fwName base perms seen available out :
  permissionsValidateLoop fwName base perms seen available = Ok out ->
  out = set_add_all (perm_name <$> perms) available /\
  NoDup (perm_name <$> perms) /\ (forall n, n ∈ perm_name <$> perms -> n ∉ seen) /\
  Forall permission_valid perms.
Proof.
  revert seen available; induction perms as [|p perms IH]; intros seen available;
    cbn [permissionsValidateLoop].
  - intros [= <-]. split_and!; [done|constructor|set_solver|constructor].
  - intros Hrun. result_steps. bool_facts.
    destruct (IH _ _ ltac:(eassumption)) as (-> & Hnd & Hseen & Hval). csimpl.
    split_and!; [done| | |].
    + constructor; [|done]. intros Hin. apply Hseen in Hin. apply Hin. apply elem_of_set_add. by left.
    + intros n. rewrite elem_of_cons. intros [->|Hin]; [done|].
      apply Hseen in Hin. rewrite elem_of_set_add in Hin. tauto.
    + constructor; [|done]. unfold permission_valid. split_and!; try done.
      * by destruct (perm_rules p).
      * intros rule Hr. apply (validateRule_split rule (perm_name p) fwName).
        match goal with H : for_each _ _ = Ok _ |- _ => rewrite for_each_ok in H; by apply H end.
Qed.

Section ConfigTheorems.
Context `{Platform}.

Definition api_valid (fwName : jsstr) (api : FirewallApi) : Prop :=
  validateBaseUrl (api_base api) fwName = Ok tt /\
  (forall b, auth_base (api_auth api) = Some b -> validateAuthBaseUrl b fwName = Ok tt) /\
  NoDup (perm_name <$> default [] (api_permissions api)) /\
  Forall permission_valid (default [] (api_permissions api)).

Lemma apisValidateLoop_ok fwName apis available out :
  apisValidateLoop fwName apis available = Ok out ->
  Forall (api_valid fwName) apis /\
  (forall n, n ∈ out <->
     n ∈ available \/ exists api, api ∈ apis /\ n ∈ perm_name <$> default [] (api_permissions api)).
Proof.
  revert available; induction apis as [|api apis IH]; intros available; cbn [apisValidateLoop].
  - intros [= <-]. split; [constructor|]. set_solver.
  - intros Hrun. result_steps.
    match goal with H : permissionsValidateLoop _ _ _ _ _ = Ok _ |- _ =>
      apply permissionsValidateLoop_ok in H as (-> & Hnd & _ & Hval) end.
    destruct (IH _ ltac:(eassumption)) as [Hapis Hout]. split.
    + constructor; [|done]. split_and!; try done. intros b Hb. by rewrite Hb in *.
    + intros n. rewrite Hout, elem_of_set_add_all. setoid_rewrite elem_of_cons. naive_solver.
Qed.

Lemma collect_valid config available :
  collectAndValidatePermissions config = Ok available ->
  fc_apis config <> [] /\ Forall (api_valid (fc_name config)) (fc_apis config) /\
  forall n, n ∈ available <-> n ∈ perm_name <$> config_permissions config.
Proof.
  unfold collectAndValidatePermissions. intros Hrun. result_steps.
  match goal with H : apisValidateLoop _ _ _ = Ok _ |- _ =>
    apply apisValidateLoop_ok in H as [Hapis Hout] end.
  split; [by destruct (fc_apis config)|]. split; [done|]. intros n. rewrite Hout. clear.
  unfold config_permissions. rewrite list_elem_of_fmap. setoid_rewrite elem_of_concat.
  setoid_rewrite list_elem_of_fmap. set_solver.
Qed.

(** A configuration that passes [collectAndValidatePermissions] has at least one
    API; every API has a valid base URL and distinct permission names, no
    permission has a reserved or empty name or no rules, every rule of it is one
    the matcher uses, and the returned set is exactly the configuration's names. *)
Theorem collectAndValidatePermissions_sound config available :
  collectAndValidatePermissions config = Ok available ->
  fc_apis config <> [] /\ Forall (api_valid (fc_name config)) (fc_apis config) /\
  forall n, n ∈ available <-> n ∈ perm_name <$> config_permissions config.
Proof. apply collect_valid. Qed.

(** ** Theorems: selections *)

Lemma checkSelected_ok svc available names :
  checkSelected svc available names = Ok tt <-> forall n, n ∈ names -> n ∈ available.
Proof.
  induction names as [|n names IH]; cbn [checkSelected]; [set_solver|].
  rewrite throw_if_bind, IH, negb_false_iff, bool_decide_eq_true. set_solver.
Qed.

(** The specification of the filtering: which permissions survive under which
    base. *)
Definition selected (s : PermissionSelection) (p : jsstr) : Prop :=
  match s with SelAll => True | SelNames names => p ∈ names end.

Definition offers (apis : list FirewallApi) (base : jsstr) (p : FirewallPermission) : Prop :=
  exists api, api ∈ apis /\ api_base api = base /\ p ∈ default [] (api_permissions api).

Lemma filterApis_offers s apis base p :
  offers (filterApis s apis) base p <-> offers apis base p /\ selected s (perm_name p).
Proof.
  unfold offers, filterApis, selected. destruct s as [|names].
  - setoid_rewrite list_elem_of_fmap. split.
    + intros (? & (api & -> & Ha) & Hb & Hp). eauto.
    + intros [(api & Ha & Hb & Hp) _]. eexists. split; [by exists api|]. done.
  - setoid_rewrite list_elem_of_filter. setoid_rewrite list_elem_of_fmap. split.
    + intros (? & (_ & api & -> & Ha) & Hb & Hp). cbn in Hp.
      apply list_elem_of_filter in Hp as [Hn Hp]. eauto.
    + intros [(api & Ha & Hb & Hp) Hn]. eexists. split; [split; [|by exists api]|].
      * cbn. assert (p ∈ filter (fun q => perm_name q ∈ names) (default [] (api_permissions api))) as Hf
          by by apply list_elem_of_filter.
        destruct (filter _ _); [by apply not_elem_of_nil in Hf|simpl; lia].
      * cbn. split; [done|]. by apply list_elem_of_filter.
Qed.

Context `{GeneratedRegistry}.

Lemma expandSelection_ok sel c out :
  expandSelection sel c = Ok out ->
  exists config, c = Some config /\ Forall (api_valid (fc_name config)) (fc_apis config) /\
    (forall names, sel_permissions sel = SelNames names ->
       forall n, n ∈ names -> n ∈ perm_name <$> config_permissions config) /\
    (forall e, e ∈ out -> fc_name e = fc_name config /\ fc_apis e <> []) /\
    forall base p, (exists e, e ∈ out /\ offers (fc_apis e) base p) <->
      offers (fc_apis config) base p /\ selected (sel_permissions sel) (perm_name p).
Proof.
  unfold expandSelection. destruct c as [config|]; [|done]. intros Hrun. result_steps.
  match goal with H : collectAndValidatePermissions _ = Ok _ |- _ =>
    apply collect_valid in H as (_ & Hapis & Havail) end.
  exists config. split_and!; [done|done| | |].
  - intros names Hsel. rewrite Hsel in *. intros n Hn. apply Havail.
    match goal with H : checkSelected _ _ _ = Ok _ |- _ => rewrite checkSelected_ok in H; eauto end.
  - destruct (filterApis _ _) eqn:E; cbn; [set_solver|]. intros e ->%list_elem_of_singleton.
    cbn. by split.
  - intros base p. rewrite <- filterApis_offers.
    destruct (filterApis _ _) as [|a l] eqn:E; cbn [length Nat.eqb]; [unfold offers; set_solver|].
    setoid_rewrite list_elem_of_singleton. rewrite <- E. split; [by intros (e & -> & ?)|]. eauto.
Qed.

Lemma map_result_Forall2 {A B} (f : A -> result B) l k :
  map_result f l = Ok k -> Forall2 (fun a b => f a = Ok b) l k.
Proof.
  revert k; induction l as [|a l IH]; intros k; cbn [map_result]; [intros [= <-]; constructor|].
  intros Hrun. result_steps. constructor; [done|]. by apply IH.
Qed.

(** The configuration a selected name stands for. *)
Definition selected_config (name : jsstr) (config : FirewallConfig) : Prop :=
  includes (trim name) [SLASH] = false /\ getConnectorFirewall (trim name) = Some config.

Lemma selectionsLoop_ok entries configs out :
  Forall2 (fun name c => resolveBuiltinFirewallConfig name = Ok c) entries.*1 configs ->
  selectionsLoop entries.*2 configs = Ok out ->
  forall base p, (exists e, e ∈ out /\ offers (fc_apis e) base p) <->
    exists name sel config, (name, sel) ∈ entries /\ selected_config name config /\
      offers (fc_apis config) base p /\ selected (sel_permissions sel) (perm_name p).
Proof.
  revert configs out; induction entries as [|[name sel] entries IH]; intros configs out Hf; csimpl in *.
  - inversion Hf; subst. intros [= <-] base p. set_solver.
  - inversion Hf as [|? c ? configs' Hc Hf']; subst. cbn [selectionsLoop]. intros Hrun base p.
    result_steps. unfold resolveBuiltinFirewallConfig in Hc. result_steps. bool_facts.
    match goal with H : expandSelection _ _ = Ok _ |- _ =>
      apply expandSelection_ok in H as (config & Hcfg & _ & _ & _ & Hoff) end.
    match goal with H : selectionsLoop _ _ = Ok ?r |- _ => pose proof (IH _ r Hf' H base p) as Hrest end.
    setoid_rewrite elem_of_app. setoid_rewrite elem_of_cons. specialize (Hoff base p). split.
    + intros (e & [He|He] & Ho).
      * exists name, sel, config. split; [by left|]. split; [by split|]. apply Hoff. eauto.
      * destruct Hrest as [Hrest _]. destruct Hrest as (n & s & cf & ? & ?); [eauto|].
        exists n, s, cf. split; [by right|done].
    + intros (n & s & cf & [[= -> ->]|Hin] & [Hs Hcf'] & Ho).
      * rewrite Hcfg in Hcf'. injection Hcf' as <-. apply Hoff in Ho as (e & ? & ?). eauto.
      * destruct Hrest as [_ Hrest]. destruct Hrest as (e & ? & ?); [|eauto].
        exists n, s, cf. destruct Ho. split_and!; [done|by split|done|done].
Qed.

(** A resolved selection grants exactly what was selected: a permission is
    offered under a base URL by the expanded configurations if and only if some
    selected firewall's built-in configuration offers it there and the selection
    of that firewall is all or names it. *)
Theorem resolveFirewallSelections_spec selections out base p :
  resolveFirewallSelections selections = Ok out ->
  (exists e, e ∈ out /\ offers (fc_apis e) base p) <->
  exists name sel config, (name, sel) ∈ selections /\ selected_config name config /\
    offers (fc_apis config) base p /\ selected (sel_permissions sel) (perm_name p).
Proof.
  unfold resolveFirewallSelections. intros Hrun. result_steps.
  eapply selectionsLoop_ok; [by apply map_result_Forall2|done].
Qed.

(** A selection that names a permission the configuration does not have is
    refused as a whole: nothing is granted for a selection with a wrong name. *)
Theorem resolveFirewallSelections_unknown selections name names config p out :
  (name, {| sel_permissions := SelNames names |}) ∈ selections ->
  getConnectorFirewall (trim name) = Some config ->
  p ∈ names -> p ∉ perm_name <$> config_permissions config ->
  resolveFirewallSelections selections <> Ok out.
Proof.
  intros Hin Hcfg Hp Hnot. unfold resolveFirewallSelections. intros Hrun. result_steps.
  match goal with H : map_result _ _ = Ok ?c |- _ => apply map_result_Forall2 in H as Hf; clear H;
    rename c into configs end.
  match goal with H : selectionsLoop _ _ = Ok _ |- _ => revert Hf H end.
  clear -Hin Hcfg Hp Hnot. revert configs out.
  induction selections as [|[n s] selections IH]; intros configs out Hf; csimpl in *.
  { by apply not_elem_of_nil in Hin. }
  inversion Hf as [|? c ? configs' Hc Hf']; subst. cbn [selectionsLoop]. intros Hrun. result_steps.
  apply elem_of_cons in Hin as [[= <- <-]|Hin]; [|by eapply IH].
  unfold resolveBuiltinFirewallConfig in Hc. result_steps.
  match goal with H : expandSelection _ _ = Ok _ |- _ =>
    apply expandSelection_ok in H as (config' & Hcfg' & _ & Hsel & _) end.
  rewrite Hcfg in Hcfg'. injection Hcfg' as <-. apply Hnot. by eapply Hsel.
Qed.

End ConfigTheorems.

(** ** Witnesses *)

Section Witnesses.

Definition sample_config : FirewallConfig := {|
  fc_name := js "files"; fc_description := None; fc_placeholders := None;
  fc_apis := [{| api_base := js "https://api.example.com";
                 api_auth := {| auth_headers := None; auth_base := None; auth_query := None;
                                auth_awsSigv4 := None |};
                 api_permissions := Some [{| perm_name := js "read"; perm_description := None;
                                             perm_rules := [js "GET /files/{id}"] |};
                                          {| perm_name := js "write"; perm_description := None;
                                             perm_rules := [js "POST /files/{path+}"] |}] |}];
|}.

Definition files_registry : GeneratedRegistry := {|
  CONNECTOR_FIREWALLS := [(js "files", sample_config)];
  DEFAULT_ALLOWED _ := None;
  getConnectorEnvBindingEntries _ := [];
|}.

#[local] Existing Instance files_registry.
#[local] Existing Instance ascii_platform.

Definition read_selection : FirewallSelection := {| sel_permissions := SelNames [js "read"] |}.

Lemma collectAndValidatePermissions_witness :
  collectAndValidatePermissions sample_config = Ok [js "read"; js "write"] /\ fc_apis sample_config <> [].
Proof.
  split; [vm_compute; reflexivity|].
  apply (collectAndValidatePermissions_sound sample_config [js "read"; js "write"]).
  vm_compute; reflexivity.
Defined.

Lemma resolveFirewallSelections_witness :
  exists out, resolveFirewallSelections [(js " files ", read_selection)] = Ok out /\
    forall p, (exists e, e ∈ out /\ offers (fc_apis e) (js "https://api.example.com") p) ->
      exists name sel config, (name, sel) ∈ [(js " files ", read_selection)] /\
        selected_config name config /\
        offers (fc_apis config) (js "https://api.example.com") p /\
        selected (sel_permissions sel) (perm_name p).
Proof.
  eexists. split; [vm_compute; reflexivity|]. intros p.
  apply (resolveFirewallSelections_spec [(js " files ", read_selection)]).
  vm_compute; reflexivity.
Defined.

Lemma resolveFirewallSelections_unknown_witness :
  resolveFirewallSelections [(js "files", {| sel_permissions := SelNames [js "admin"] |})] <> Ok [].
Proof.
  apply (resolveFirewallSelections_unknown _ (js "files") [js "admin"] sample_config (js "admin")).
  - apply list_elem_of_singleton. reflexivity.
  - vm_compute. reflexivity.
  - apply list_elem_of_singleton. reflexivity.
  - apply (bool_decide_eq_true_1 _). vm_compute. reflexivity.
Defined.

End Witnesses.

End Expander.
