(* ===== verification/RunStore.v ===== *)
(** The tables of the run lifecycle and the queries the run services share
    (turbo/packages/db/src/schema: agent_runs, agent_run_queue, runner_job_queue,
    org_metadata, chat_messages), and the concurrency limits. A committed
    transaction is a function on [World]; a rolled-back one returns it unchanged.
    Times are milliseconds. *)

From S2P Require Import Prelude JsString.

Module RunStore.

(** ** Rows *)

Inductive RunStatus := Queued | Pending | Running | Completed | Failed | Timeout | Cancelled.

#[export] Instance run_status_eq_dec : EqDecision RunStatus.
Proof. solve_decision. Defined.

(** The result a completed run stores. *)
Record RunResult := {
  res_checkpointId : jsstr;
  res_agentSessionId : jsstr;
  res_conversationId : jsstr;
  res_artifact : option (list (jsstr * jsstr));
  res_volumes : option (list (jsstr * jsstr));
}.

Record Run := {
  run_userId : jsstr;
  run_orgId : jsstr;
  run_status : RunStatus;
  run_createdAt : Z;
  run_startedAt : option Z;
  run_completedAt : option Z;
  run_lastHeartbeatAt : option Z;
  run_runnerGroup : option jsstr;
  run_sandboxId : option jsstr;
  run_error : option jsstr;
  run_lastEventSequence : option Z;
  run_composeName : option jsstr;
  run_result : option RunResult;
  run_sandboxReuseResult : option jsstr;
}.

Record QueueEntry := {
  q_runId : jsstr;
  q_userId : jsstr;
  q_orgId : jsstr;
  q_encryptedParams : option jsstr;
  q_createdAt : Z;
  q_expiresAt : Z;
}.

(** The execution context is stored and forwarded, never inspected here. *)
Record RunnerJob := {
  job_runnerGroup : jsstr;
  job_profile : jsstr;
  job_sessionId : option jsstr;
  job_context : jsstr;
  job_apiStartTime : Z;
  job_claimedAt : option Z;
  job_createdAt : Z;
  job_expiresAt : Z;
}.

Inductive Role := RoleUser | RoleAssistant.
#[export] Instance role_eq_dec : EqDecision Role.
Proof. solve_decision. Defined.

Record ChatMessage := {
  msg_id : Z;
  msg_chatThreadId : jsstr;
  msg_role : Role;
  msg_content : option jsstr;
  msg_runId : option jsstr;
  msg_runEventId : option jsstr;
  msg_revokesMessageId : option Z;
}.

(** Messages to clients and runners and requests to other services (callback
    dispatch, credit settlement, usage messages), in the order they are sent. *)
Inductive Signal :=
| SigQueueChanged (orgId : jsstr)
| SigChatThreadMessageCreated (userId chatThreadId : jsstr)
| SigThreadListChanged (userId : jsstr)
| SigRunnerJob (runId runnerGroup profile : jsstr) (sessionId : option jsstr)
| SigRunChanged (userId runId : jsstr) (status : RunStatus)
| SigCancelToRunnerGroup (runnerGroup runId : jsstr)
| SigRunCallbacks (runId : jsstr) (status : RunStatus) (error : option jsstr)
| SigProcessUsageEvents (orgId : jsstr)
| SigRunUsageMessage (runId : jsstr).

(** [nextId] stands for the random primary keys the database draws. *)
Record World := {
  agentRuns : gmap jsstr Run;
  agentRunQueue : list QueueEntry;
  runnerJobQueue : gmap jsstr RunnerJob;
  orgTiers : gmap jsstr jsstr;
  chatMessages : list ChatMessage;
  nextId : Z;
  outbox : list Signal;
}.

(** ** Field updates *)

Definition with_runs (f : gmap jsstr Run -> gmap jsstr Run) (w : World) : World :=
  {| agentRuns := f (agentRuns w); agentRunQueue := agentRunQueue w; runnerJobQueue := runnerJobQueue w;
     orgTiers := orgTiers w; chatMessages := chatMessages w; nextId := nextId w; outbox := outbox w |}.
Definition with_queue (f : list QueueEntry -> list QueueEntry) (w : World) : World :=
  {| agentRuns := agentRuns w; agentRunQueue := f (agentRunQueue w); runnerJobQueue := runnerJobQueue w;
     orgTiers := orgTiers w; chatMessages := chatMessages w; nextId := nextId w; outbox := outbox w |}.
Definition with_jobs (f : gmap jsstr RunnerJob -> gmap jsstr RunnerJob) (w : World) : World :=
  {| agentRuns := agentRuns w; agentRunQueue := agentRunQueue w; runnerJobQueue := f (runnerJobQueue w);
     orgTiers := orgTiers w; chatMessages := chatMessages w; nextId := nextId w; outbox := outbox w |}.
Definition insert_message (m : Z -> ChatMessage) (w : World) : World :=
  {| agentRuns := agentRuns w; agentRunQueue := agentRunQueue w; runnerJobQueue := runnerJobQueue w;
     orgTiers := orgTiers w; chatMessages := chatMessages w ++ [m (nextId w)]; nextId := nextId w + 1;
     outbox := outbox w |}.
Definition publish (s : Signal) (w : World) : World :=
  {| agentRuns := agentRuns w; agentRunQueue := agentRunQueue w; runnerJobQueue := runnerJobQueue w;
     orgTiers := orgTiers w; chatMessages := chatMessages w; nextId := nextId w; outbox := outbox w ++ [s] |}.

(** [UPDATE agent_runs SET f WHERE id = .. AND guard RETURNING id] *)
Definition update_run (id : jsstr) (guard : Run -> bool) (f : Run -> Run) (w : World) : bool * World :=
  match agentRuns w !! id with
  | Some r => if guard r then (true, with_runs (<[id := f r]>) w) else (false, w)
  | None => (false, w)
  end.

Definition delete_queue (id : jsstr) : World -> World :=
  with_queue (filter (fun e => q_runId e <> id)).
Definition delete_job (id : jsstr) : World -> World := with_jobs (delete id).

(** An insert that violates the primary key throws. *)
Definition unique_violation : jsstr := js "duplicate key value violates unique constraint".
Definition insert_job (id : jsstr) (job : RunnerJob) (w : World) : result World :=
  match runnerJobQueue w !! id with
  | Some _ => Throw unique_violation
  | None => Ok (with_jobs (<[id := job]>) w)
  end.
Definition insert_queue (e : QueueEntry) (w : World) : result World :=
  if existsb (fun x => bool_decide (q_runId x = q_runId e)) (agentRunQueue w)
  then Throw unique_violation else Ok (with_queue (fun q => q ++ [e]) w).

Definition set_status (s : RunStatus) (r : Run) : Run :=
  {| run_userId := run_userId r; run_orgId := run_orgId r; run_status := s; run_createdAt := run_createdAt r;
     run_startedAt := run_startedAt r; run_completedAt := run_completedAt r;
     run_lastHeartbeatAt := run_lastHeartbeatAt r; run_runnerGroup := run_runnerGroup r;
     run_sandboxId := run_sandboxId r; run_error := run_error r;
     run_lastEventSequence := run_lastEventSequence r; run_composeName := run_composeName r;
     run_result := run_result r; run_sandboxReuseResult := run_sandboxReuseResult r |}.
Definition set_started (t : Z) (r : Run) : Run :=
  {| run_userId := run_userId r; run_orgId := run_orgId r; run_status := run_status r;
     run_createdAt := run_createdAt r;
     run_startedAt := Some t; run_completedAt := run_completedAt r;
     run_lastHeartbeatAt := run_lastHeartbeatAt r; run_runnerGroup := run_runnerGroup r;
     run_sandboxId := run_sandboxId r; run_error := run_error r;
     run_lastEventSequence := run_lastEventSequence r; run_composeName := run_composeName r;
     run_result := run_result r; run_sandboxReuseResult := run_sandboxReuseResult r |}.
Definition set_completed (t : Z) (r : Run) : Run :=
  {| run_userId := run_userId r; run_orgId := run_orgId r; run_status := run_status r;
     run_createdAt := run_createdAt r;
     run_startedAt := run_startedAt r; run_completedAt := Some t;
     run_lastHeartbeatAt := run_lastHeartbeatAt r; run_runnerGroup := run_runnerGroup r;
     run_sandboxId := run_sandboxId r; run_error := run_error r;
     run_lastEventSequence := run_lastEventSequence r; run_composeName := run_composeName r;
     run_result := run_result r; run_sandboxReuseResult := run_sandboxReuseResult r |}.
Definition set_heartbeat (t : Z) (r : Run) : Run :=
  {| run_userId := run_userId r; run_orgId := run_orgId r; run_status := run_status r;
     run_createdAt := run_createdAt r;
     run_startedAt := run_startedAt r; run_completedAt := run_completedAt r;
     run_lastHeartbeatAt := Some t; run_runnerGroup := run_runnerGroup r;
     run_sandboxId := run_sandboxId r; run_error := run_error r;
     run_lastEventSequence := run_lastEventSequence r; run_composeName := run_composeName r;
     run_result := run_result r; run_sandboxReuseResult := run_sandboxReuseResult r |}.
Definition set_runnerGroup (g : jsstr) (r : Run) : Run :=
  {| run_userId := run_userId r; run_orgId := run_orgId r; run_status := run_status r;
     run_createdAt := run_createdAt r;
     run_startedAt := run_startedAt r; run_completedAt := run_completedAt r;
     run_lastHeartbeatAt := run_lastHeartbeatAt r; run_runnerGroup := Some g;
     run_sandboxId := run_sandboxId r; run_error := run_error r;
     run_lastEventSequence := run_lastEventSequence r; run_composeName := run_composeName r;
     run_result := run_result r; run_sandboxReuseResult := run_sandboxReuseResult r |}.
Definition set_error (e : option jsstr) (r : Run) : Run :=
  {| run_userId := run_userId r; run_orgId := run_orgId r; run_status := run_status r;
     run_createdAt := run_createdAt r;
     run_startedAt := run_startedAt r; run_completedAt := run_completedAt r;
     run_lastHeartbeatAt := run_lastHeartbeatAt r; run_runnerGroup := run_runnerGroup r;
     run_sandboxId := run_sandboxId r; run_error := e;
     run_lastEventSequence := run_lastEventSequence r; run_composeName := run_composeName r;
     run_result := run_result r; run_sandboxReuseResult := run_sandboxReuseResult r |}.
Definition set_sandboxId (s : option jsstr) (r : Run) : Run :=
  {| run_userId := run_userId r; run_orgId := run_orgId r; run_status := run_status r;
     run_createdAt := run_createdAt r;
     run_startedAt := run_startedAt r; run_completedAt := run_completedAt r;
     run_lastHeartbeatAt := run_lastHeartbeatAt r; run_runnerGroup := run_runnerGroup r;
     run_sandboxId := s; run_error := run_error r;
     run_lastEventSequence := run_lastEventSequence r; run_composeName := run_composeName r;
     run_result := run_result r; run_sandboxReuseResult := run_sandboxReuseResult r |}.
Definition set_lastEventSequence (n : Z) (r : Run) : Run :=
  {| run_userId := run_userId r; run_orgId := run_orgId r; run_status := run_status r;
     run_createdAt := run_createdAt r;
     run_startedAt := run_startedAt r; run_completedAt := run_completedAt r;
     run_lastHeartbeatAt := run_lastHeartbeatAt r; run_runnerGroup := run_runnerGroup r;
     run_sandboxId := run_sandboxId r; run_error := run_error r;
     run_lastEventSequence := Some n; run_composeName := run_composeName r;
     run_result := run_result r; run_sandboxReuseResult := run_sandboxReuseResult r |}.

Definition set_result (x : option RunResult) (r : Run) : Run :=
  {| run_userId := run_userId r; run_orgId := run_orgId r; run_status := run_status r;
     run_createdAt := run_createdAt r;
     run_startedAt := run_startedAt r; run_completedAt := run_completedAt r;
     run_lastHeartbeatAt := run_lastHeartbeatAt r; run_runnerGroup := run_runnerGroup r;
     run_sandboxId := run_sandboxId r; run_error := run_error r;
     run_lastEventSequence := run_lastEventSequence r; run_composeName := run_composeName r;
     run_result := x; run_sandboxReuseResult := run_sandboxReuseResult r |}.
Definition set_sandboxReuseResult (x : option jsstr) (r : Run) : Run :=
  {| run_userId := run_userId r; run_orgId := run_orgId r; run_status := run_status r;
     run_createdAt := run_createdAt r;
     run_startedAt := run_startedAt r; run_completedAt := run_completedAt r;
     run_lastHeartbeatAt := run_lastHeartbeatAt r; run_runnerGroup := run_runnerGroup r;
     run_sandboxId := run_sandboxId r; run_error := run_error r;
     run_lastEventSequence := run_lastEventSequence r; run_composeName := run_composeName r;
     run_result := run_result r; run_sandboxReuseResult := x |}.

(** ** Active runs and limits *)

Definition PENDING_RUN_TTL_MS : Z := 15 * 60 * 1000.

(** The rows the concurrency queries count: running, or pending and created after
    the stale threshold. *)
Definition is_active (orgId : jsstr) (staleThreshold : Z) (r : Run) : bool :=
  bool_decide (run_orgId r = orgId) &&
  (bool_decide (run_status r = Running) ||
   (bool_decide (run_status r = Pending) && (staleThreshold <? run_createdAt r))).

(** [SELECT count( * ) FROM agent_runs WHERE f] *)
Definition count_map (f : Run -> bool) (m : gmap jsstr Run) : nat :=
  size (filter (fun kv => f kv.2 = true) m).

Definition activeCount (w : World) (orgId : jsstr) (now : Z) : Z :=
  Z.of_nat (count_map (is_active orgId (now - PENDING_RUN_TTL_MS)) (agentRuns w)).

(** A JavaScript number used as a limit: [undefined] and NaN compare as false. *)
Inductive Limit := LNum (n : Z) | LInfinity | LUndefined.

(** [count >= limit] *)
Definition reaches (count : Z) (limit : Limit) : bool :=
  match limit with LNum n => n <=? count | LInfinity | LUndefined => false end.

Definition TIER_CONCURRENCY_LIMITS : list (jsstr * Z) :=
  [(js "free", 1); (js "pro-suspend", 0); (js "pro", 2); (js "team", 10)].

Definition tier_limit (limits : list (jsstr * Z)) (tier : jsstr) : option Z :=
  match list_find (fun kv => kv.1 = tier) limits with Some (_, (_, n)) => Some n | None => None end.

(** [cap] is the environment's CONCURRENT_RUN_LIMIT_CAP. *)
Definition effectiveOrgConcurrencyLimit (cap : option Z) (tier : option jsstr) : Limit :=
  match tier with
  | None | Some [] => LNum 0
  | Some tier =>
      let limit := tier_limit TIER_CONCURRENCY_LIMITS tier in
      if bool_decide (limit = Some 0) then LNum 0
      else match cap, limit with
           | Some 0, _ => LInfinity
           | None, Some n => LNum n
           | Some c, Some n => LNum (Z.min n c)
           | _, None => LUndefined
           end
  end.

(** ** Lemmas *)

Lemma update_run_true id guard f w w' :
  update_run id guard f w = (true, w') ->
  exists r, agentRuns w !! id = Some r /\ guard r = true /\ w' = with_runs (<[id := f r]>) w.
Proof.
  unfold update_run. destruct (agentRuns w !! id) as [r|] eqn:E; [|done].
  destruct (guard r) eqn:Hg; [|done]. intros [= <-]. eauto.
Qed.

Lemma update_run_false id guard f w w' :
  update_run id guard f w = (false, w') -> w' = w.
Proof.
  unfold update_run. destruct (agentRuns w !! id) as [r|]; [|by intros [= <-]].
  destruct (guard r); [done|]. by intros [= <-].
Qed.

Lemma count_map_insert f m id r :
  count_map f (<[id := r]> m) =
  (count_map f (delete id m) + if f r then 1 else 0)%nat.
Proof.
  unfold count_map. rewrite <- insert_delete_eq. destruct (f r) eqn:E.
  - rewrite map_filter_insert_True by done.
    rewrite map_size_insert_None; [lia|].
    apply map_lookup_filter_None. left. apply lookup_delete_eq.
  - rewrite map_filter_insert_False by (simpl; congruence).
    rewrite delete_delete_eq. lia.
Qed.

(** Replacing a row changes the count by the difference of the two tests. *)
Lemma count_map_update f m id r0 r :
  m !! id = Some r0 ->
  (count_map f (<[id := r]> m) + (if f r0 then 1 else 0) =
   count_map f m + (if f r then 1 else 0))%nat.
Proof.
  intros Hm. rewrite count_map_insert.
  assert (count_map f m = count_map f (delete id m) + if f r0 then 1 else 0)%nat as ->; [|lia].
  rewrite <- count_map_insert, insert_id by done. done.
Qed.

Lemma count_map_new f m id r :
  m !! id = None ->
  count_map f (<[id := r]> m) = (count_map f m + if f r then 1 else 0)%nat.
Proof. intros Hm. by rewrite count_map_insert, delete_id. Qed.

Lemma count_map_mono f g m :
  (forall id r, m !! id = Some r -> f r = true -> g r = true) ->
  (count_map f m <= count_map g m)%nat.
Proof.
  intros Hfg. unfold count_map. apply map_subseteq_size, map_subseteq_spec. intros id r.
  rewrite !map_lookup_filter_Some. naive_solver.
Qed.

Lemma count_map_ext f g m :
  (forall id r, m !! id = Some r -> f r = g r) -> count_map f m = count_map g m.
Proof.
  intros Hfg. apply Nat.le_antisymm; apply count_map_mono; intros id r Hr; by rewrite (Hfg id r Hr).
Qed.

End RunStore.
