(* ===== verification/RunQueue.v ===== *)
(** The run queue of an organization
    (turbo/apps/api/src/signals/services/zero-run-queue.service.ts,
    agent-run-queue-payload.service.ts, zero-chat-queue-marker.service.ts,
    queue-position.service.ts): promotion of queued runs, draining, expiry. The
    clock is read once per operation; telemetry is left out. *)

From stdpp Require Import sorting.
From S2P Require Import Prelude JsString RunStore.
Import RunStore.

Module RunQueue.

(** ** Payloads *)

Record QueuedRunnerJobPayload := {
  p_runnerGroup : jsstr;
  p_profile : jsstr;
  p_sessionId : option jsstr;
  p_context : jsstr;
  p_apiStartTime : Z;
}.

(** The envelope encryption of secret maps under a user's feature switches, and the
    JSON schema library. *)
Class PayloadCodec := {
  FeatureSwitchContext : Type;
  loadUserFeatureSwitchContext : jsstr -> jsstr -> FeatureSwitchContext;
  encryptPersistentSecretsMap : list (jsstr * jsstr) -> FeatureSwitchContext -> option jsstr;
  decryptPersistentSecretsMap : jsstr -> FeatureSwitchContext -> result (option (list (jsstr * jsstr)));
  payload_stringify : QueuedRunnerJobPayload -> jsstr;
  payload_parse : jsstr -> result QueuedRunnerJobPayload;
}.

(** Documented behaviour: decryption inverts encryption and never yields an empty
    envelope; parsing inverts printing and no payload prints as the empty text. *)
Class PayloadCodecLaws `{PayloadCodec} : Prop := {
  decrypt_encrypt m ctx c : encryptPersistentSecretsMap m ctx = Some c ->
    c <> [] /\ decryptPersistentSecretsMap c ctx = Ok (Some m);
  parse_stringify p : payload_stringify p <> [] /\ payload_parse (payload_stringify p) = Ok p;
}.

Definition QUEUED_RUNNER_JOB_PAYLOAD_KEY : jsstr := js "__api_runner_job_payload__".

Definition map_entry (m : list (jsstr * jsstr)) (k : jsstr) : option jsstr :=
  match list_find (fun kv => kv.1 = k) m with Some (_, (_, v)) => Some v | None => None end.

Definition encryptQueuedRunnerJobPayload `{PayloadCodec} (payload : QueuedRunnerJobPayload)
    (ctx : FeatureSwitchContext) : result jsstr :=
  match encryptPersistentSecretsMap [(QUEUED_RUNNER_JOB_PAYLOAD_KEY, payload_stringify payload)] ctx with
  | None | Some [] => Throw (js "Failed to encrypt queued runner job payload")
  | Some encrypted => Ok encrypted
  end.

Definition decryptQueuedRunnerJobPayload `{PayloadCodec} (encryptedParams : option jsstr)
    (ctx : FeatureSwitchContext) : result (option QueuedRunnerJobPayload) :=
  match encryptedParams with
  | None | Some [] => Ok None
  | Some e =>
      decrypted ← decryptPersistentSecretsMap e ctx;
      match decrypted ≫= (fun m => map_entry m QUEUED_RUNNER_JOB_PAYLOAD_KEY) with
      | None | Some [] => Ok None
      | Some rawPayload => p ← payload_parse rawPayload; Ok (Some p)
      end
  end.

(** ** Chat markers *)

Definition QUEUED_RUN_ASSISTANT_MESSAGE : jsstr := js "Waiting in queue...".
Definition QUEUED_RUN_MARKER_EVENT_ID : jsstr := js "queue:queued".
Definition QUEUED_RUN_MARKER_REVOKE_EVENT_ID : jsstr := js "queue:dequeued".

Definition is_marker (runId : jsstr) (m : ChatMessage) : bool :=
  bool_decide (msg_runId m = Some runId) && bool_decide (msg_role m = RoleAssistant) &&
  bool_decide (msg_runEventId m = Some QUEUED_RUN_MARKER_EVENT_ID).

Definition is_revoked (msgs : list ChatMessage) (id : Z) : bool :=
  existsb (fun m => bool_decide (msg_revokesMessageId m = Some id)) msgs.

Definition queued_marker (chatThreadId runId : jsstr) (id : Z) : ChatMessage :=
  {| msg_id := id; msg_chatThreadId := chatThreadId; msg_role := RoleAssistant;
     msg_content := Some QUEUED_RUN_ASSISTANT_MESSAGE; msg_runId := Some runId;
     msg_runEventId := Some QUEUED_RUN_MARKER_EVENT_ID; msg_revokesMessageId := None |}.

Definition appendQueuedRunAssistantMarker (chatThreadId runId : jsstr) (w : World) : World :=
  match agentRuns w !! runId with
  | Some run =>
      if negb (bool_decide (run_status run = Queued)) then w
      else if existsb (is_marker runId) (chatMessages w) then w
      else insert_message (queued_marker chatThreadId runId) w
  | None => w
  end.

Definition revoke_marker (runId : jsstr) (marker : ChatMessage) (id : Z) : ChatMessage :=
  {| msg_id := id; msg_chatThreadId := msg_chatThreadId marker; msg_role := RoleAssistant;
     msg_content := None; msg_runId := Some runId;
     msg_runEventId := Some QUEUED_RUN_MARKER_REVOKE_EVENT_ID;
     msg_revokesMessageId := Some (msg_id marker) |}.

(** The insert does nothing when the marker is already revoked. *)
Fixpoint revokeLoop (runId : jsstr) (markers : list ChatMessage) (notifiedThreadId : option jsstr)
    (w : World) : option jsstr * World :=
  match markers with
  | [] => (notifiedThreadId, w)
  | marker :: markers' =>
      if is_revoked (chatMessages w) (msg_id marker) then revokeLoop runId markers' notifiedThreadId w
      else revokeLoop runId markers' (Some (msg_chatThreadId marker))
             (insert_message (revoke_marker runId marker) w)
  end.

Record QueueMarkerRevokeNotification := { n_chatThreadId : jsstr; n_userId : jsstr }.

Definition revokeQueuedRunAssistantMarkers (runId userId : jsstr) (w : World) :
    option QueueMarkerRevokeNotification * World :=
  let markers := filter (fun m => is_marker runId m && negb (is_revoked (chatMessages w) (msg_id m)) = true)
                   (chatMessages w) in
  let '(notifiedThreadId, w') := revokeLoop runId markers None w in
  (match notifiedThreadId with
   | None | Some [] => None
   | Some t => Some {| n_chatThreadId := t; n_userId := userId |}
   end, w').

(** ** Promotion *)

Record QueueCandidate := {
  c_runId : jsstr;
  c_userId : jsstr;
  c_createdAt : Z;
  c_encryptedParams : option jsstr;
  c_runStatus : option RunStatus;
}.

Record RunnerNotification := {
  rn_runId : jsstr;
  rn_runnerGroup : jsstr;
  rn_profile : jsstr;
  rn_sessionId : option jsstr;
}.

Inductive PromoteQueuedCandidateResult :=
| Promoted (runnerNotification : option RunnerNotification)
           (queueMarkerNotification : option QueueMarkerRevokeNotification)
| Full
| RemovedStale
| Lost.

Definition RUNNER_JOB_TTL_MS : Z := 2 * 60 * 60 * 1000.

Definition insertPromotedRunnerJob (promotedAt : Z) (runId : jsstr) (payload : QueuedRunnerJobPayload)
    (w : World) : result World :=
  insert_job runId
    {| job_runnerGroup := p_runnerGroup payload; job_profile := p_profile payload;
       job_sessionId := p_sessionId payload; job_context := p_context payload;
       job_apiStartTime := promotedAt; job_claimedAt := None; job_createdAt := promotedAt;
       job_expiresAt := promotedAt + RUNNER_JOB_TTL_MS |} w.

(** A row of the left join of the queue with the runs. *)
Definition candidate_of (w : World) (e : QueueEntry) : QueueCandidate :=
  {| c_runId := q_runId e; c_userId := q_userId e; c_createdAt := q_createdAt e;
     c_encryptedParams := q_encryptedParams e;
     c_runStatus := run_status <$> agentRuns w !! q_runId e |}.

(** [ORDER BY created_at]; rows with the same time keep their storage order. *)
Fixpoint insert_by_created (e : QueueEntry) (l : list QueueEntry) : list QueueEntry :=
  match l with
  | [] => [e]
  | x :: l' => if q_createdAt e <=? q_createdAt x then e :: l else x :: insert_by_created e l'
  end.
Definition order_by_created (l : list QueueEntry) : list QueueEntry := foldr insert_by_created [] l.

Section WithEnv.
Context (cap : option Z).

Definition org_limit (w : World) (orgId : jsstr) : Limit :=
  effectiveOrgConcurrencyLimit cap (orgTiers w !! orgId).

Definition loadDrainCandidates (now : Z) (orgId : jsstr) (w : World) : list QueueCandidate :=
  if reaches (activeCount w orgId now) (org_limit w orgId) then []
  else candidate_of w <$> order_by_created (filter (fun e => q_orgId e = orgId) (agentRunQueue w)).

(** The new values of a promoted run. *)
Definition promoted_run (now : Z) (payload : option QueuedRunnerJobPayload) (r : Run) : Run :=
  let r := set_heartbeat now (set_status Pending r) in
  match payload with Some p => set_runnerGroup (p_runnerGroup p) r | None => r end.

(** One transaction; a thrown error rolls it back. *)
Definition promoteQueuedCandidate (now : Z) (orgId : jsstr) (row : QueueCandidate)
    (payload : option QueuedRunnerJobPayload) (w : World) : result PromoteQueuedCandidateResult * World :=
  if reaches (activeCount w orgId now) (org_limit w orgId) then (Ok Full, w)
  else
    match agentRuns w !! c_runId row with
    | None => (Ok RemovedStale, delete_queue (c_runId row) w)
    | Some lockedRun =>
        if negb (bool_decide (run_status lockedRun = Queued))
        then (Ok RemovedStale, delete_queue (c_runId row) w)
        else if negb (bool_decide (c_runStatus row = Some Queued)) then (Ok Lost, w)
        else if negb (existsb (fun e => bool_decide (q_runId e = c_runId row) && bool_decide (q_orgId e = orgId))
                        (agentRunQueue w)) then (Ok Lost, w)
        else
          let '(updated, w1) :=
            update_run (c_runId row) (fun r => bool_decide (run_status r = Queued)) (promoted_run now payload) w in
          if negb updated then (Ok Lost, w1)
          else
            let w2 := delete_queue (c_runId row) w1 in
            let '(marker, w3) := revokeQueuedRunAssistantMarkers (c_runId row) (c_userId row) w2 in
            match payload with
            | None => (Ok (Promoted None marker), w3)
            | Some p =>
                match insertPromotedRunnerJob now (c_runId row) p w3 with
                | Throw e => (Throw e, w)
                | Ok w4 =>
                    (Ok (Promoted (Some {| rn_runId := c_runId row; rn_runnerGroup := p_runnerGroup p;
                                           rn_profile := p_profile p; rn_sessionId := p_sessionId p |}) marker), w4)
                end
            end
    end.

(** ** Draining *)

Context `{PayloadCodec}.

Definition loadQueuedRunnerJobPayload (orgId userId : jsstr) (encryptedParams : option jsstr) :
    result (option QueuedRunnerJobPayload) :=
  decryptQueuedRunnerJobPayload encryptedParams (loadUserFeatureSwitchContext orgId userId).

(** The messages of one successful promotion. *)
Definition announce (orgId : jsstr) (notification : option RunnerNotification)
    (marker : option QueueMarkerRevokeNotification) (w : World) : World :=
  let w := publish (SigQueueChanged orgId) w in
  let w := match marker with
           | Some n => publish (SigThreadListChanged (n_userId n))
                         (publish (SigChatThreadMessageCreated (n_userId n) (n_chatThreadId n)) w)
           | None => w
           end in
  match notification with
  | Some n => publish (SigRunnerJob (rn_runId n) (rn_runnerGroup n) (rn_profile n) (rn_sessionId n)) w
  | None => w
  end.

(** The loop of [drainOrgQueue$] over the candidates. *)
Fixpoint drainLoop (now : Z) (orgId : jsstr) (rows : list QueueCandidate) (w : World) :
    result nat * World :=
  match rows with
  | [] => (Ok 0%nat, w)
  | row :: rows' =>
      let payload :=
        if bool_decide (c_runStatus row = Some Queued)
        then loadQueuedRunnerJobPayload orgId (c_userId row) (c_encryptedParams row) else Ok None in
      match payload with
      | Throw e => (Throw e, w)
      | Ok payload =>
          match promoteQueuedCandidate now orgId row payload w with
          | (Throw e, w') => (Throw e, w')
          | (Ok RemovedStale, w') => drainLoop now orgId rows' (publish (SigQueueChanged orgId) w')
          | (Ok Full, w') => (Ok 0%nat, w')
          | (Ok Lost, w') => drainLoop now orgId rows' w'
          | (Ok (Promoted notification marker), w') => (Ok 1%nat, announce orgId notification marker w')
          end
      end
  end.

Definition drainOrgQueue (now : Z) (orgId : jsstr) (w : World) : result nat * World :=
  drainLoop now orgId (loadDrainCandidates now orgId w) w.

(** [while (true)]: [None] is a run out of fuel. *)
Fixpoint drainOrgQueueToCapacity (fuel : nat) (now : Z) (orgId : jsstr) (drained : nat) (w : World) :
    option (result nat * World) :=
  match fuel with
  | O => None
  | S fuel =>
      match drainOrgQueue now orgId w with
      | (Throw e, w') => Some (Throw e, w')
      | (Ok 0%nat, w') => Some (Ok drained, w')
      | (Ok promoted, w') => drainOrgQueueToCapacity fuel now orgId (drained + promoted) w'
      end
  end.

(** ** Expiry *)

Definition QUEUE_EXPIRED_ERROR : jsstr := js "Queued run expired (exceeded queue TTL)".

Definition expired_entry (now : Z) (e : QueueEntry) : bool := q_expiresAt e <? now.

(** One run of the bulk update. *)
Definition expire_run (now : Z) (r : Run) : Run :=
  if bool_decide (run_status r = Queued)
  then set_error (Some QUEUE_EXPIRED_ERROR) (set_completed now (set_status Timeout r)) else r.

Definition cleanupExpiredQueueEntries (now : Z) (w : World) : nat * World :=
  let expiredRunIds := q_runId <$> filter (fun e => expired_entry now e = true) (agentRunQueue w) in
  let w1 := with_runs (map_imap (fun id r =>
              Some (if bool_decide (id ∈ expiredRunIds) then expire_run now r else r))) w in
  let deletable := filter (fun e => expired_entry now e &&
                     match agentRuns w1 !! q_runId e with
                     | None => true
                     | Some r => negb (bool_decide (run_status r = Queued))
                     end = true) (agentRunQueue w1) in
  if (length deletable =? 0)%nat then (0%nat, w1)
  else
    let ids := q_runId <$> deletable in
    (length (filter (fun e => q_runId e ∈ ids) (agentRunQueue w1)),
     with_queue (filter (fun e => q_runId e ∉ ids)) w1).

(** The distinct organizations of the queue. *)
Definition queue_orgs (w : World) : list jsstr := remove_dups (q_orgId <$> agentRunQueue w).

Fixpoint drainStaleLoop (now : Z) (orgs : list jsstr) (drained : nat) (w : World) : result nat * World :=
  match orgs with
  | [] => (Ok drained, w)
  | orgId :: orgs' =>
      if activeCount w orgId now =? 0 then
        match drainOrgQueue now orgId w with
        | (Throw e, w') => (Throw e, w')
        | (Ok _, w') => drainStaleLoop now orgs' (S drained) w'
        end
      else drainStaleLoop now orgs' drained w
  end.

Definition drainStaleQueues (now : Z) (w : World) : result nat * World :=
  drainStaleLoop now (queue_orgs w) 0 w.

(** ** Queue position *)

Record QueuePosition := { position : nat; total : nat }.

Definition queuePosition (runId userId : jsstr) (orgId : option jsstr) (w : World) : option QueuePosition :=
  match agentRuns w !! runId with
  | Some run =>
      if bool_decide (run_userId run = userId) &&
         match orgId with None | Some [] => true | Some o => bool_decide (run_orgId run = o) end then
        match list_find (fun e => q_runId e = runId) (agentRunQueue w) with
        | None => Some {| position := 0; total := 0 |}
        | Some (_, entry) =>
            let ahead := filter (fun e => q_orgId e = run_orgId run /\ q_createdAt e <= q_createdAt entry)
                           (agentRunQueue w) in
            Some {| position := length ahead; total := length ahead |}
        end
      else None
  | None => None
  end.

End WithEnv.

(** ** Lemmas: promotion *)

(** Everything but the chat messages. *)
Definition same_runs_queue_jobs (w w' : World) : Prop :=
  agentRuns w' = agentRuns w /\ agentRunQueue w' = agentRunQueue w /\
  runnerJobQueue w' = runnerJobQueue w /\ orgTiers w' = orgTiers w.

Lemma revokeLoop_frame runId markers t w :
  same_runs_queue_jobs w (revokeLoop runId markers t w).2.
Proof.
  revert t w; induction markers as [|m markers IH]; intros t w; cbn [revokeLoop]; [done|].
  destruct (is_revoked _ _); [apply IH|].
  destruct (IH (Some (msg_chatThreadId m)) (insert_message (revoke_marker runId m) w)) as (? & ? & ? & ?).
  done.
Qed.

Lemma revoke_frame runId userId w :
  same_runs_queue_jobs w (revokeQueuedRunAssistantMarkers runId userId w).2.
Proof.
  unfold revokeQueuedRunAssistantMarkers.
  match goal with |- context [revokeLoop ?r ?ms ?t w] =>
    pose proof (revokeLoop_frame r ms t w) as Hf; destruct (revokeLoop r ms t w) as [n w'] end.
  done.
Qed.

(** What a successful promotion does to the run, queue and job tables. *)
Record promotes (now : Z) (orgId : jsstr) (row : QueueCandidate)
    (payload : option QueuedRunnerJobPayload) (w w' : World) (r : Run) : Prop := {
  promotes_run : agentRuns w !! c_runId row = Some r;
  promotes_queued : run_status r = Queued;
  promotes_entry : exists e, e ∈ agentRunQueue w /\ q_runId e = c_runId row /\ q_orgId e = orgId;
  promotes_runs : agentRuns w' = <[c_runId row := promoted_run now payload r]> (agentRuns w);
  promotes_queue : agentRunQueue w' = filter (fun e => q_runId e <> c_runId row) (agentRunQueue w);
  promotes_tiers : orgTiers w' = orgTiers w;
  promotes_jobs :
    match payload with
    | None => runnerJobQueue w' = runnerJobQueue w
    | Some p => runnerJobQueue w !! c_runId row = None /\
        exists job, runnerJobQueue w' = <[c_runId row := job]> (runnerJobQueue w) /\
          job_runnerGroup job = p_runnerGroup p /\ job_profile job = p_profile p /\
          job_sessionId job = p_sessionId p /\ job_context job = p_context p /\ job_claimedAt job = None /\
          job_apiStartTime job = now /\ job_expiresAt job = now + RUNNER_JOB_TTL_MS
    end;
}.

Section Promotion.
Context (cap : option Z).

(** The outcomes of the transaction and what each does. *)
Lemma promote_cases now orgId row payload w res w' :
  promoteQueuedCandidate cap now orgId row payload w = (res, w') ->
  match res with
  | Throw _ => w' = w /\ is_Some (runnerJobQueue w !! c_runId row) /\
      (run_status <$> agentRuns w !! c_runId row) = Some Queued
  | Ok Full => w' = w /\ reaches (activeCount w orgId now) (org_limit cap w orgId) = true
  | Ok RemovedStale =>
      w' = delete_queue (c_runId row) w /\
      (run_status <$> agentRuns w !! c_runId row) <> Some Queued
  | Ok Lost => w' = w /\ (run_status <$> agentRuns w !! c_runId row) = Some Queued /\
      (c_runStatus row <> Some Queued \/
       ~ exists e, e ∈ agentRunQueue w /\ q_runId e = c_runId row /\ q_orgId e = orgId)
  | Ok (Promoted _ _) =>
      reaches (activeCount w orgId now) (org_limit cap w orgId) = false /\
      exists r, promotes now orgId row payload w w' r
  end.
Proof.
  unfold promoteQueuedCandidate. destruct (reaches _ _) eqn:Hlim; [by intros [= <- <-]|].
  destruct (agentRuns w !! c_runId row) as [r|] eqn:Hrun; [|intros [= <- <-]; split; [done|by rewrite ?Hrun]].
  case_bool_decide as Hq; simpl; [|intros [= <- <-]; split; [done|]; rewrite ?Hrun; simpl; congruence].
  case_bool_decide as Hc; simpl; [|intros [= <- <-]; rewrite ?Hrun; simpl; split_and!; [done|congruence|by left]].
  destruct (existsb _ _) eqn:Hex; simpl; [apply existsb_true in Hex as (e & He & Hb); bool_facts|].
  2: { intros [= <- <-]. rewrite ?Hrun. simpl. split_and!; [done|congruence|right].
       intros (e & He & Hid & Horg). rewrite existsb_false in Hex. specialize (Hex e He).
       by rewrite !bool_decide_eq_true_2 in Hex by done. }
  unfold update_run. rewrite Hrun, bool_decide_eq_true_2 by done. simpl.
  set (w2 := delete_queue _ _). pose proof (revoke_frame (c_runId row) (c_userId row) w2) as Hframe.
  destruct (revokeQueuedRunAssistantMarkers _ _ w2) as [marker w3]. cbn [snd] in Hframe. destruct Hframe as (F1 & F2 & F3 & F4).
  assert (exists e, e ∈ agentRunQueue w /\ q_runId e = c_runId row /\ q_orgId e = orgId) as Hentry by eauto.
  destruct payload as [p|].
  - unfold insertPromotedRunnerJob, insert_job. rewrite F3. cbn.
    destruct (runnerJobQueue w !! c_runId row) eqn:Hjob; intros [= <- <-];
      [split_and!; [done|by eauto|rewrite ?Hrun; simpl; congruence]|].
    split; [done|]. exists r. split; cbn; try done; rewrite ?F1, ?F2, ?F3, ?F4; try done.
    split; [done|]. eexists. split; [done|]. done.
  - intros [= <- <-]. split; [done|]. exists r. by split.
Qed.

End Promotion.

(** ** Lemmas: draining *)

(** The effect of removing stale entries: only entries of runs that are not queued
    leave the queue. *)
Definition pruned (w w' : World) : Prop :=
  agentRuns w' = agentRuns w /\ runnerJobQueue w' = runnerJobQueue w /\ orgTiers w' = orgTiers w /\
  exists ids : list jsstr, agentRunQueue w' = filter (fun e => q_runId e ∉ ids) (agentRunQueue w) /\
    forall id, id ∈ ids -> run_status <$> agentRuns w !! id <> Some Queued.

Lemma pruned_refl w : pruned w w.
Proof.
  split_and!; try done. exists []. split; [|set_solver].
  symmetry. apply filter_all. set_solver.
Qed.

Lemma pruned_delete w w' id sig :
  run_status <$> agentRuns w !! id <> Some Queued ->
  pruned (publish sig (delete_queue id w)) w' -> pruned w w'.
Proof.
  intros Hid (H1 & H2 & H3 & ids & Hq & Hids). split_and!; try done. exists (id :: ids). split.
  - rewrite Hq. cbn. rewrite list_filter_filter. apply filter_ext_in. intros e. set_solver.
  - intros j. rewrite elem_of_cons. intros [->|Hj]; [done|]. by apply Hids.
Qed.

Lemma pruned_entry w w' e :
  pruned w w' -> run_status <$> agentRuns w !! q_runId e = Some Queued ->
  e ∈ agentRunQueue w' <-> e ∈ agentRunQueue w.
Proof.
  intros (_ & _ & _ & ids & -> & Hids) He. rewrite list_elem_of_filter. split; [tauto|].
  intros Hin. split; [|done]. intros Hbad. by apply Hids in Hbad.
Qed.

Lemma activeCount_runs w w' orgId now :
  agentRuns w' = agentRuns w -> activeCount w' orgId now = activeCount w orgId now.
Proof. unfold activeCount. by intros ->. Qed.

Lemma announce_frame orgId n m w : same_runs_queue_jobs w (announce orgId n m w).
Proof. unfold announce. by destruct n, m. Qed.

Section Draining.
Context (cap : option Z) `{PayloadCodec}.

Definition row_payload (orgId : jsstr) (row : QueueCandidate) : result (option QueuedRunnerJobPayload) :=
  loadQueuedRunnerJobPayload orgId (c_userId row) (c_encryptedParams row).

(** The rows are a faithful reading of the store and every queued one still has its
    entry. *)
Definition rows_current (orgId : jsstr) (rows : list QueueCandidate) (w : World) : Prop :=
  forall row, row ∈ rows ->
    c_runStatus row = run_status <$> agentRuns w !! c_runId row /\
    (c_runStatus row = Some Queued ->
     exists e, e ∈ agentRunQueue w /\ q_runId e = c_runId row /\ q_orgId e = orgId).

Lemma rows_current_delete orgId rows w row sig :
  run_status <$> agentRuns w !! c_runId row <> Some Queued ->
  rows_current orgId (row :: rows) w ->
  rows_current orgId rows (publish sig (delete_queue (c_runId row) w)).
Proof.
  intros Hrow Hcur row' Hin. destruct (Hcur row') as [Hst Hent]; [set_solver|]. split; [done|].
  intros Hq. destruct (Hent Hq) as (e & He & Hid & Horg). exists e. split; [|done]. cbn.
  apply list_elem_of_filter. split; [|done]. rewrite Hid. intros Heq. apply Hrow. rewrite <- Heq. congruence.
Qed.

Lemma drainLoop_cases now orgId rows w res w' :
  rows_current orgId rows w ->
  drainLoop cap now orgId rows w = (res, w') ->
  match res with
  | Ok 1%nat =>
      exists pre row post payload w1 w2 r, rows = pre ++ row :: post /\
        (forall x, x ∈ pre -> c_runStatus x <> Some Queued) /\ c_runStatus row = Some Queued /\
        row_payload orgId row = Ok payload /\ pruned w w1 /\
        reaches (activeCount w orgId now) (org_limit cap w orgId) = false /\
        promotes now orgId row payload w1 w2 r /\ same_runs_queue_jobs w2 w'
  | Ok 0%nat => pruned w w' /\
      (reaches (activeCount w orgId now) (org_limit cap w orgId) = true \/
       forall x, x ∈ rows -> c_runStatus x <> Some Queued)
  | Ok _ => False
  | Throw _ => pruned w w'
  end.
Proof.
  revert w; induction rows as [|row rows IH]; intros w Hcur; cbn [drainLoop].
  { intros [= <- <-]. split; [apply pruned_refl|right; set_solver]. }
  destruct (Hcur row) as [Hst Hent]; [set_solver|].
  case_bool_decide as Hq.
  - fold (row_payload orgId row). destruct (row_payload orgId row) as [payload|e] eqn:Hp;
      [|intros [= <- <-]; apply pruned_refl].
    destruct (promoteQueuedCandidate cap now orgId row payload w) as [res1 w1] eqn:Hpr.
    apply promote_cases in Hpr. destruct res1 as [[n m| | |]|e]; cbn in Hpr.
    + destruct Hpr as (Hlim & r & Hprom). intros [= <- <-].
      exists [], row, rows, payload, w, w1, r. split_and!; try done; [set_solver|apply pruned_refl|].
      apply announce_frame.
    + destruct Hpr as [-> Hlim]. intros [= <- <-]. split; [apply pruned_refl|by left].
    + destruct Hpr as [_ Hne]. congruence.
    + destruct Hpr as (_ & _ & [Hne|Hno]); [done|]. destruct Hno. by apply Hent.
    + destruct Hpr as [-> _]. intros [= <- <-]. apply pruned_refl.
  - destruct (promoteQueuedCandidate cap now orgId row None w) as [res1 w1] eqn:Hpr.
    apply promote_cases in Hpr. destruct res1 as [[n m| | |]|e]; cbn in Hpr.
    + destruct Hpr as (_ & r & Hprom). rewrite Hst, (promotes_run _ _ _ _ _ _ _ Hprom) in Hq.
      simpl in Hq. by rewrite (promotes_queued _ _ _ _ _ _ _ Hprom) in Hq.
    + destruct Hpr as [-> Hlim]. intros [= <- <-]. split; [apply pruned_refl|by left].
    + destruct Hpr as [-> Hne]. intros Hrun.
      apply IH in Hrun; [|by apply rows_current_delete]. destruct res as [[|[|n]]|e]; try done.
      * destruct Hrun as [Hpruned Hwhy]. split; [by eapply pruned_delete|].
        destruct Hwhy as [Hwhy|Hwhy]; [by left|right; set_solver].
      * destruct Hrun as (pre & row' & post & payload & w1 & w2 & r & -> & Hpre & Hrest).
        exists (row :: pre), row', post, payload, w1, w2, r. split; [done|]. split; [set_solver|].
        destruct Hrest as (? & ? & ? & ?). split_and!; try done; try tauto. by eapply pruned_delete.
      * by eapply pruned_delete.
    + destruct Hpr as (_ & Hne & _). congruence.
    + destruct Hpr as [-> _]. intros [= <- <-]. apply pruned_refl.
Qed.

End Draining.

(** ** Theorems *)

Lemma elem_of_insert_by_created e x l : x ∈ insert_by_created e l <-> x = e \/ x ∈ l.
Proof.
  induction l as [|y l IH]; cbn [insert_by_created]; [set_solver|]. destruct (_ <=? _); set_solver.
Qed.

Lemma elem_of_order_by_created x l : x ∈ order_by_created l <-> x ∈ l.
Proof.
  induction l as [|e l IH]; [done|]. unfold order_by_created in *. cbn [foldr].
  rewrite elem_of_insert_by_created, IH. set_solver.
Qed.

Lemma insert_by_created_sorted e l :
  StronglySorted (fun a b => q_createdAt a <= q_createdAt b) l ->
  StronglySorted (fun a b => q_createdAt a <= q_createdAt b) (insert_by_created e l).
Proof.
  induction 1 as [|x l Hs IH Hx]; cbn [insert_by_created]; [repeat constructor|].
  destruct (Z.leb_spec (q_createdAt e) (q_createdAt x)) as [Hle|Hgt].
  - constructor; [by constructor|]. constructor; [done|]. eapply Forall_impl; [exact Hx|]. simpl. lia.
  - constructor; [done|]. apply Forall_forall. intros y. rewrite elem_of_insert_by_created.
    rewrite Forall_forall in Hx. intros [->|Hy]; [lia|by apply Hx].
Qed.

Lemma order_by_created_sorted l :
  StronglySorted (fun a b => q_createdAt a <= q_createdAt b) (order_by_created l).
Proof. induction l; [constructor|]. by apply insert_by_created_sorted. Qed.

Section Theorems.
Context (cap : option Z) `{PayloadCodec}.

Lemma loadDrainCandidates_current now orgId w :
  rows_current orgId (loadDrainCandidates cap now orgId w) w.
Proof.
  unfold loadDrainCandidates. intros row. destruct (reaches _ _); [set_solver|].
  rewrite list_elem_of_fmap. intros (e & -> & He). rewrite elem_of_order_by_created in He.
  apply list_elem_of_filter in He as [Horg He]. split; [done|]. intros _. by exists e.
Qed.

Lemma drainOrgQueue_cases now orgId w res w' :
  drainOrgQueue cap now orgId w = (res, w') ->
  match res with
  | Ok 1%nat =>
      exists pre row post payload w1 w2 r,
        loadDrainCandidates cap now orgId w = pre ++ row :: post /\
        (forall x, x ∈ pre -> c_runStatus x <> Some Queued) /\ c_runStatus row = Some Queued /\
        row_payload orgId row = Ok payload /\ pruned w w1 /\
        reaches (activeCount w orgId now) (org_limit cap w orgId) = false /\
        promotes now orgId row payload w1 w2 r /\ same_runs_queue_jobs w2 w'
  | Ok 0%nat => pruned w w' /\
      (reaches (activeCount w orgId now) (org_limit cap w orgId) = true \/
       forall x, x ∈ loadDrainCandidates cap now orgId w -> c_runStatus x <> Some Queued)
  | Ok _ => False
  | Throw _ => pruned w w'
  end.
Proof. apply drainLoop_cases, loadDrainCandidates_current. Qed.

(** The queue entries of an organization whose run is still queued. *)
Definition waiting (w : World) (orgId : jsstr) (e : QueueEntry) : Prop :=
  e ∈ agentRunQueue w /\ q_orgId e = orgId /\ run_status <$> agentRuns w !! q_runId e = Some Queued.

Lemma candidates_waiting now orgId w e :
  reaches (activeCount w orgId now) (org_limit cap w orgId) = false ->
  waiting w orgId e -> candidate_of w e ∈ loadDrainCandidates cap now orgId w.
Proof.
  intros Hlim (He & Horg & _). unfold loadDrainCandidates. rewrite Hlim. apply list_elem_of_fmap_2.
  apply elem_of_order_by_created, list_elem_of_filter. done.
Qed.

Lemma drain_first now orgId w pre row post e :
  loadDrainCandidates cap now orgId w = pre ++ row :: post ->
  (forall x, x ∈ pre -> c_runStatus x <> Some Queued) ->
  waiting w orgId e -> reaches (activeCount w orgId now) (org_limit cap w orgId) = false ->
  c_createdAt row <= q_createdAt e.
Proof.
  intros Heq Hpre Hw Hlim. pose proof (candidates_waiting now orgId w e Hlim Hw) as Hin.
  unfold loadDrainCandidates in *. rewrite Hlim in *.
  pose proof (order_by_created_sorted (filter (fun x => q_orgId x = orgId) (agentRunQueue w))) as Hs.
  revert Heq Hin Hs. generalize (order_by_created (filter (fun x => q_orgId x = orgId) (agentRunQueue w))).
  intros l Hl Hin Hs. apply fmap_app_inv in Hl as (l1 & l2 & -> & Hl2 & ->).
  symmetry in Hl2. apply fmap_cons_inv in Hl2 as (e0 & l3 & -> & -> & ->). cbn [candidate_of c_createdAt].
  apply StronglySorted_app in Hs as (_ & _ & Hs). apply StronglySorted_inv in Hs as [_ Hmin].
  rewrite fmap_app, fmap_cons, elem_of_app, elem_of_cons in Hin. destruct Hin as [Hin|[Hin|Hin]].
  - exfalso. apply (Hpre _ Hin). apply Hw.
  - inversion Hin. lia.
  - apply list_elem_of_fmap in Hin as (e' & Heq & Hin). rewrite Forall_forall in Hmin.
    specialize (Hmin e' Hin). inversion Heq. simpl in *. lia.
Qed.

(** Draining an organization's queue is first-in first-out: when a drain
    promotes a run, that run was queued, it becomes pending and leaves the queue,
    every other run keeps its row, and no waiting entry of the organization is
    older than the one promoted. *)
Theorem drainOrgQueue_fifo now orgId w w' :
  drainOrgQueue cap now orgId w = (Ok 1%nat, w') ->
  exists e r payload, waiting w orgId e /\ agentRuns w !! q_runId e = Some r /\
    (forall e', waiting w orgId e' -> q_createdAt e <= q_createdAt e') /\
    agentRuns w' = <[q_runId e := promoted_run now payload r]> (agentRuns w) /\
    (forall e', e' ∈ agentRunQueue w' -> q_runId e' <> q_runId e).
Proof.
  intros Hrun. apply drainOrgQueue_cases in Hrun as
    (pre & row & post & payload & w1 & w2 & r & Hrows & Hpre & Hst & _ & Hpr & Hlim & Hprom & F1 & F2 & _).
  assert (row ∈ loadDrainCandidates cap now orgId w) as Hin by (rewrite Hrows; set_solver).
  pose proof Hin as Hin'. unfold loadDrainCandidates in Hin'. rewrite Hlim in Hin'.
  apply list_elem_of_fmap in Hin' as (e & Hrow & He). rewrite elem_of_order_by_created in He.
  apply list_elem_of_filter in He as [Horg He]. destruct Hpr as (P1 & _).
  exists e, r, payload. subst row.
  pose proof (promotes_run _ _ _ _ _ _ _ Hprom) as Hr. cbn in Hr, Hst. rewrite P1 in Hr. split_and!.
  - by split.
  - done.
  - intros e' He'. by apply (drain_first now orgId w pre (candidate_of w e) post e').
  - rewrite F1, (promotes_runs _ _ _ _ _ _ _ Hprom), P1. done.
  - intros e'. rewrite F2, (promotes_queue _ _ _ _ _ _ _ Hprom). rewrite list_elem_of_filter. by intros [? _].
Qed.

(** Every run of the organization that occupies or may occupy a slot. *)
Definition is_inflight (orgId : jsstr) (r : Run) : bool :=
  bool_decide (run_orgId r = orgId) &&
  (bool_decide (run_status r = Running) || bool_decide (run_status r = Pending)).

Definition inflight (w : World) (orgId : jsstr) : Z :=
  Z.of_nat (count_map (is_inflight orgId) (agentRuns w)).

(** No pending or queued run of the organization is past the pending TTL. *)
Definition fresh_runs (w : World) (orgId : jsstr) (now : Z) : Prop :=
  forall id r, agentRuns w !! id = Some r -> run_orgId r = orgId ->
    run_status r = Pending \/ run_status r = Queued -> now - PENDING_RUN_TTL_MS < run_createdAt r.

Lemma fresh_inflight w orgId now : fresh_runs w orgId now -> inflight w orgId = activeCount w orgId now.
Proof.
  intros Hfresh. unfold inflight, activeCount. f_equal. apply count_map_ext. intros id r Hr.
  unfold is_inflight, is_active. case_bool_decide as Ho; [|done]. cbn [andb]. f_equal.
  case_bool_decide as Hp; [|done]. symmetry. apply Z.ltb_lt. eapply Hfresh; eauto.
Qed.

Lemma promoted_run_org now payload r : run_orgId (promoted_run now payload r) = run_orgId r.
Proof. by destruct payload. Qed.
Lemma promoted_run_status now payload r : run_status (promoted_run now payload r) = Pending.
Proof. by destruct payload. Qed.
Lemma promoted_run_created now payload r : run_createdAt (promoted_run now payload r) = run_createdAt r.
Proof. by destruct payload. Qed.

Lemma drain_runs now orgId w res w' :
  drainOrgQueue cap now orgId w = (res, w') ->
  orgTiers w' = orgTiers w /\
  ((res <> Ok 1%nat /\ agentRuns w' = agentRuns w) \/
   (res = Ok 1%nat /\ reaches (activeCount w orgId now) (org_limit cap w orgId) = false /\
    exists id r payload, agentRuns w !! id = Some r /\ run_status r = Queued /\
      agentRuns w' = <[id := promoted_run now payload r]> (agentRuns w))).
Proof.
  intros Hrun. apply drainOrgQueue_cases in Hrun. destruct res as [[|[|n]]|e]; [| |done|].
  - destruct Hrun as [(P1 & _ & P3 & _) _]. split; [done|]. left. by split.
  - destruct Hrun as (pre & row & post & payload & w1 & w2 & r & _ & _ & _ & _ & Hpr & Hlim & Hprom & F).
    destruct F as (F1 & _ & _ & F4), Hpr as (P1 & _ & P3 & _).
    split; [by rewrite F4, (promotes_tiers _ _ _ _ _ _ _ Hprom)|]. right.
    split_and!; try done. exists (c_runId row), r, payload.
    rewrite F1, <- P1, (promotes_runs _ _ _ _ _ _ _ Hprom).
    split_and!; [apply Hprom|apply Hprom|done].
  - destruct Hrun as (P1 & _ & P3 & _). split; [done|]. left. by split.
Qed.

Lemma drain_fresh now orgId w res w' :
  fresh_runs w orgId now -> drainOrgQueue cap now orgId w = (res, w') -> fresh_runs w' orgId now.
Proof.
  intros Hf Hrun. apply drain_runs in Hrun as [_ [[_ Heq]|(_ & _ & id & r & p & Hr & Hq & Heq)]];
    intros j r' Hj; rewrite Heq in Hj; [by eapply Hf|].
  apply lookup_insert_Some in Hj as [[<- <-]|[_ Hj]]; [|by eapply Hf].
  rewrite promoted_run_org, promoted_run_created. intros Ho _. eapply Hf; eauto.
Qed.

Lemma drain_inflight now orgId w res w' n :
  fresh_runs w orgId now -> org_limit cap w orgId = LNum n ->
  drainOrgQueue cap now orgId w = (res, w') -> inflight w' orgId <= Z.max (inflight w orgId) n.
Proof.
  intros Hf Hn Hrun. pose proof (fresh_inflight _ _ _ Hf) as Hact.
  apply drain_runs in Hrun as [_ [[_ Heq]|(_ & Hlim & id & r & p & Hr & Hq & Heq)]].
  - unfold inflight. rewrite Heq. lia.
  - rewrite Hn, <- Hact in Hlim. cbn in Hlim. apply Z.leb_gt in Hlim. unfold inflight in *. rewrite Heq.
    pose proof (count_map_update (is_inflight orgId) _ _ _ (promoted_run now p r) Hr).
    destruct (is_inflight orgId r), (is_inflight orgId (promoted_run now p r)); lia.
Qed.

Lemma drain_limit_tiers now orgId w res w' :
  drainOrgQueue cap now orgId w = (res, w') -> org_limit cap w' orgId = org_limit cap w orgId.
Proof. intros Hrun. apply drain_runs in Hrun as [Ht _]. unfold org_limit. by rewrite Ht. Qed.

Lemma drain_shrinks now orgId w n w' :
  drainOrgQueue cap now orgId w = (Ok (S n), w') -> (length (agentRunQueue w') < length (agentRunQueue w))%nat.
Proof.
  intros Hrun. apply drainOrgQueue_cases in Hrun. destruct n; [|done].
  destruct Hrun as (pre & row & post & payload & w1 & w2 & r & _ & _ & _ & _ & Hpr & _ & Hprom & F).
  destruct F as (_ & F2 & _), Hpr as (_ & _ & _ & ids & Hq & _).
  rewrite F2, (promotes_queue _ _ _ _ _ _ _ Hprom).
  destruct (promotes_entry _ _ _ _ _ _ _ Hprom) as (e & He & Hid & _).
  assert (length (agentRunQueue w1) <= length (agentRunQueue w))%nat
    by (rewrite Hq; apply length_filter).
  eapply Nat.lt_le_trans; [|done]. apply (length_filter_lt_elem _ _ e); [done|]. naive_solver.
Qed.

(** With more fuel than queue entries the loop returns. *)
Lemma drainOrgQueueToCapacity_returns fuel now orgId drained w :
  (length (agentRunQueue w) < fuel)%nat ->
  exists res w', drainOrgQueueToCapacity cap fuel now orgId drained w = Some (res, w').
Proof.
  revert drained w; induction fuel as [|fuel IH]; intros drained w Hlen; [lia|].
  cbn [drainOrgQueueToCapacity]. destruct (drainOrgQueue cap now orgId w) as [[[|k]|e] w1] eqn:Hd; eauto.
  apply IH. apply drain_shrinks in Hd. lia.
Qed.

Lemma drainOrgQueueToCapacity_inflight fuel now orgId drained w res w' n :
  fresh_runs w orgId now -> org_limit cap w orgId = LNum n ->
  drainOrgQueueToCapacity cap fuel now orgId drained w = Some (res, w') ->
  inflight w' orgId <= Z.max (inflight w orgId) n.
Proof.
  revert drained w; induction fuel as [|fuel IH]; intros drained w Hf Hn; cbn [drainOrgQueueToCapacity]; [done|].
  destruct (drainOrgQueue cap now orgId w) as [r1 w1] eqn:Hd.
  pose proof (drain_inflight _ _ _ _ _ _ Hf Hn Hd) as Hle. pose proof (drain_fresh _ _ _ _ _ Hf Hd) as Hf1.
  pose proof (drain_limit_tiers _ _ _ _ _ Hd) as Hn1. rewrite Hn in Hn1.
  destruct r1 as [[|k]|e]; [by intros [= <- <-]| |by intros [= <- <-]].
  intros Hrun. specialize (IH _ _ Hf1 Hn1 Hrun). lia.
Qed.

(** C2: while every pending and queued run of an organization is younger than the
    pending TTL, draining to capacity returns and does not lift the number of running
    and pending runs above the organization's limit (it stays where it was if it
    already was above). One round more than there are queue entries is enough. *)
Theorem drainOrgQueueToCapacity_limit fuel now orgId drained w n :
  (length (agentRunQueue w) < fuel)%nat -> fresh_runs w orgId now -> org_limit cap w orgId = LNum n ->
  exists res w', drainOrgQueueToCapacity cap fuel now orgId drained w = Some (res, w') /\
    inflight w' orgId <= Z.max (inflight w orgId) n.
Proof.
  intros Hlen Hf Hn. destruct (drainOrgQueueToCapacity_returns fuel now orgId drained w Hlen) as (res & w' & Hrun).
  exists res, w'. split; [done|]. by eapply drainOrgQueueToCapacity_inflight.
Qed.

(** Draining to capacity always ends, within one round more than there are queue
    entries, and it is work conserving: when it returns without an error, either
    the organization's limit is reached or no entry is waiting any more. *)
Theorem drainOrgQueueToCapacity_terminates fuel now orgId drained w :
  (length (agentRunQueue w) < fuel)%nat ->
  exists res w', drainOrgQueueToCapacity cap fuel now orgId drained w = Some (res, w') /\
    (is_ok res = true ->
     reaches (activeCount w' orgId now) (org_limit cap w' orgId) = true \/
     forall e, ~ waiting w' orgId e).
Proof.
  revert drained w; induction fuel as [|fuel IH]; intros drained w Hlen; [lia|].
  cbn [drainOrgQueueToCapacity]. destruct (drainOrgQueue cap now orgId w) as [[[|k]|e] w1] eqn:Hd.
  - do 2 eexists. split; [done|]. intros _. apply drainOrgQueue_cases in Hd as [Hpr Hwhy].
    destruct (decide (reaches (activeCount w orgId now) (org_limit cap w orgId) = true)) as [Hl|Hl].
    + left. destruct Hpr as (P1 & _ & P3 & _). unfold org_limit. by rewrite (activeCount_runs _ _ _ _ P1), P3.
    + right. intros e (He & Horg & Hst). pose proof Hpr as (P1 & _). rewrite P1 in Hst.
      apply (pruned_entry _ _ _ Hpr Hst) in He. destruct Hwhy as [?|Hwhy]; [done|].
      apply not_true_iff_false in Hl. by apply (Hwhy _ (candidates_waiting _ _ _ e Hl ltac:(by split))).
  - apply IH. apply drain_shrinks in Hd. lia.
  - do 2 eexists. split; [done|]. done.
Qed.

Definition stale_queued (w : World) (orgId : jsstr) (now : Z) : Prop :=
  forall id r, agentRuns w !! id = Some r -> run_orgId r = orgId -> run_status r = Queued ->
    run_createdAt r <= now - PENDING_RUN_TTL_MS.

Lemma drain_stale_step now orgId w res w' :
  stale_queued w orgId now -> drainOrgQueue cap now orgId w = (res, w') ->
  stale_queued w' orgId now /\ activeCount w' orgId now = activeCount w orgId now.
Proof.
  intros Hst Hrun. apply drain_runs in Hrun as [_ [[_ Heq]|(_ & _ & id & r & p & Hr & Hq & Heq)]].
  - split; [|by apply activeCount_runs]. intros j r'. rewrite Heq. apply Hst.
  - split.
    + intros j r'. rewrite Heq. intros Hj. apply lookup_insert_Some in Hj as [[_ <-]|[_ Hj]]; [|by eapply Hst].
      rewrite promoted_run_status. done.
    + unfold activeCount. rewrite Heq. f_equal.
      pose proof (count_map_update (is_active orgId (now - PENDING_RUN_TTL_MS)) _ _ _ (promoted_run now p r) Hr) as Hc.
      assert (is_active orgId (now - PENDING_RUN_TTL_MS) r = false) as E1.
      { unfold is_active. rewrite Hq. cbn. apply andb_false_r. }
      assert (is_active orgId (now - PENDING_RUN_TTL_MS) (promoted_run now p r) = false) as E2.
      { unfold is_active. rewrite promoted_run_org, promoted_run_status, promoted_run_created. cbn.
        case_bool_decide as Ho; [|done]. cbn. apply Z.ltb_ge. by eapply Hst. }
      rewrite E1, E2 in Hc. lia.
Qed.

Lemma drainOrgQueueToCapacity_stale fuel now orgId drained w n w' :
  stale_queued w orgId now ->
  reaches (activeCount w orgId now) (org_limit cap w orgId) = false ->
  drainOrgQueueToCapacity cap fuel now orgId drained w = Some (Ok n, w') ->
  activeCount w' orgId now = activeCount w orgId now /\ forall e, ~ waiting w' orgId e.
Proof.
  revert drained w; induction fuel as [|fuel IH]; intros drained w Hst Hlim; cbn [drainOrgQueueToCapacity]; [done|].
  destruct (drainOrgQueue cap now orgId w) as [[[|k]|e] w1] eqn:Hd; [| |done];
    pose proof (drain_stale_step _ _ _ _ _ Hst Hd) as [Hst1 Hact].
  - intros [= _ <-]. split; [done|]. intros e (He & Horg & Hs).
    apply drainOrgQueue_cases in Hd as [Hpr [?|Hwhy]]; [congruence|].
    pose proof Hpr as (P1 & _). rewrite P1 in Hs. apply (pruned_entry _ _ _ Hpr Hs) in He.
    by apply (Hwhy _ (candidates_waiting _ _ _ e Hlim ltac:(by split))).
  - intros Hrun. rewrite <- Hact. eapply (IH (drained + S k)%nat w1 Hst1); [|done].
    by rewrite Hact, (drain_limit_tiers _ _ _ _ _ Hd).
Qed.

(** A queued run that waited longer than the pending TTL is not counted as active
    after its promotion, because the count looks at the creation time and promotion
    does not change it. So when all queued runs of an organization are that old and
    one slot is free, draining to capacity returns and, if no payload fails, has promoted every one of them, whatever the
    organization's limit is. *)
Theorem drainOrgQueueToCapacity_stale_overrun fuel now orgId drained w :
  (length (agentRunQueue w) < fuel)%nat -> stale_queued w orgId now ->
  reaches (activeCount w orgId now) (org_limit cap w orgId) = false ->
  exists res w', drainOrgQueueToCapacity cap fuel now orgId drained w = Some (res, w') /\
    (is_ok res = true -> activeCount w' orgId now = activeCount w orgId now /\ forall e, ~ waiting w' orgId e).
Proof.
  intros Hlen Hst Hlim. destruct (drainOrgQueueToCapacity_returns fuel now orgId drained w Hlen) as (res & w' & Hrun).
  exists res, w'. split; [done|]. destruct res as [n|]; [|done]. intros _.
  by eapply drainOrgQueueToCapacity_stale.
Qed.

(** The payload that was encrypted when a run was queued is the payload the drain
    hands to the runner: decryption inverts encryption for the same user. *)
Theorem decryptQueuedRunnerJobPayload_roundtrip `{!PayloadCodecLaws} payload ctx encrypted :
  encryptQueuedRunnerJobPayload payload ctx = Ok encrypted ->
  decryptQueuedRunnerJobPayload (Some encrypted) ctx = Ok (Some payload).
Proof.
  unfold encryptQueuedRunnerJobPayload, decryptQueuedRunnerJobPayload.
  destruct (encryptPersistentSecretsMap _ ctx) as [[|c cs]|] eqn:E; try done. intros [= <-].
  apply decrypt_encrypt in E as [_ ->]. cbn [mbind result_bind option_bind].
  unfold map_entry. cbn [list_find]. rewrite decide_True by done. cbn.
  destruct (parse_stringify payload) as [Hne Hp]. destruct (payload_stringify payload); [done|].
  by rewrite Hp.
Qed.

(** The run has a queue entry past its expiry. *)
Definition expired_run (now : Z) (w : World) (id : jsstr) : Prop :=
  exists e, e ∈ agentRunQueue w /\ q_runId e = id /\ q_expiresAt e < now.

Lemma elem_of_expired now w id :
  id ∈ q_runId <$> filter (fun e => expired_entry now e = true) (agentRunQueue w) <-> expired_run now w id.
Proof.
  rewrite list_elem_of_fmap. setoid_rewrite list_elem_of_filter. unfold expired_entry, expired_run.
  setoid_rewrite Z.ltb_lt. naive_solver.
Qed.

Definition expired_runs (now : Z) (w : World) : World :=
  with_runs (map_imap (fun id r =>
    Some (if bool_decide (id ∈ q_runId <$> filter (fun e => expired_entry now e = true) (agentRunQueue w))
          then expire_run now r else r))) w.

Lemma expired_runs_lookup now w id :
  agentRuns (expired_runs now w) !! id =
  (fun r => if bool_decide (id ∈ q_runId <$> filter (fun e => expired_entry now e = true) (agentRunQueue w))
            then expire_run now r else r) <$> agentRuns w !! id.
Proof. cbn. rewrite map_lookup_imap. by destruct (agentRuns w !! id). Qed.

Lemma expire_run_status now r : run_status (expire_run now r) <> Queued.
Proof. unfold expire_run. by case_bool_decide. Qed.

(** After the update every expired entry can be deleted. *)
Lemma expired_deletable now w :
  filter (fun e => expired_entry now e &&
    match agentRuns (expired_runs now w) !! q_runId e with
    | None => true
    | Some r => negb (bool_decide (run_status r = Queued))
    end = true) (agentRunQueue w) = filter (fun e => expired_entry now e = true) (agentRunQueue w).
Proof.
  apply filter_ext_in. intros e He. destruct (expired_entry now e) eqn:Hexp; [|done]. cbn [andb].
  split; [done|]. intros _. rewrite expired_runs_lookup.
  destruct (agentRuns w !! q_runId e) as [r|]; [|done]. cbn.
  rewrite (bool_decide_eq_true_2 (_ ∈ _)) by (apply list_elem_of_fmap_2, list_elem_of_filter; done).
  rewrite bool_decide_eq_false_2; [done|]. apply expire_run_status.
Qed.

(** The effect of the expiry. *)
Lemma cleanupExpired_cases now w n w' :
  cleanupExpiredQueueEntries now w = (n, w') ->
  (forall e, e ∈ agentRunQueue w' <-> e ∈ agentRunQueue w /\ ~ expired_run now w (q_runId e)) /\
  forall id r, agentRuns w !! id = Some r ->
    (run_status r = Queued -> expired_run now w id ->
       agentRuns w' !! id =
         Some (set_error (Some QUEUE_EXPIRED_ERROR) (set_completed now (set_status Timeout r)))) /\
    (run_status r <> Queued \/ ~ expired_run now w id -> agentRuns w' !! id = Some r).
Proof.
  unfold cleanupExpiredQueueEntries. fold (expired_runs now w). change (agentRunQueue (expired_runs now w)) with (agentRunQueue w).
  rewrite expired_deletable. intros Hrun.
  assert (agentRuns w' = agentRuns (expired_runs now w) /\
    forall e, e ∈ agentRunQueue w' <-> e ∈ agentRunQueue w /\ ~ expired_run now w (q_runId e)) as [Hr Hq].
  { setoid_rewrite <- elem_of_expired. destruct (_ =? 0)%nat eqn:E; injection Hrun as _ <-; cbn.
    - apply Nat.eqb_eq, nil_length_inv in E. rewrite E. split; [done|]. set_solver.
    - split; [done|]. intros e. rewrite list_elem_of_filter. tauto. }
  split; [done|]. intros id r Hid. rewrite Hr, expired_runs_lookup, Hid. cbn [fmap option_fmap option_map].
  pose proof (elem_of_expired now w id) as Hiff. unfold expire_run. repeat case_bool_decide; naive_solver.
Qed.

(** Expiring queue entries times out exactly the queued runs of expired entries,
    leaves every other run as it is, and removes exactly the entries of expired
    runs from the queue. *)
Theorem cleanupExpiredQueueEntries_spec now w n w' :
  cleanupExpiredQueueEntries now w = (n, w') ->
  (forall e, e ∈ agentRunQueue w' <-> e ∈ agentRunQueue w /\ ~ expired_run now w (q_runId e)) /\
  forall id r, agentRuns w !! id = Some r ->
    (run_status r = Queued -> expired_run now w id ->
       agentRuns w' !! id =
         Some (set_error (Some QUEUE_EXPIRED_ERROR) (set_completed now (set_status Timeout r)))) /\
    (run_status r <> Queued \/ ~ expired_run now w id -> agentRuns w' !! id = Some r).
Proof. apply cleanupExpired_cases. Qed.

End Theorems.

(** *** Markers *)

(** The constraints of the message table: ids are unique and below the next one,
    and no message is revoked twice. *)
Record messages_ok (w : World) : Prop := {
  msg_ids : NoDup (msg_id <$> chatMessages w);
  msg_bound : forall m, m ∈ chatMessages w -> msg_id m < nextId w;
  msg_revokes : NoDup (omap msg_revokesMessageId (chatMessages w));
}.

Lemma is_revoked_spec msgs id : is_revoked msgs id = true <-> id ∈ omap msg_revokesMessageId msgs.
Proof.
  unfold is_revoked. rewrite existsb_true, list_elem_of_omap. setoid_rewrite bool_decide_eq_true. done.
Qed.

Lemma insert_message_ok f w :
  messages_ok w -> msg_id (f (nextId w)) = nextId w ->
  (forall j, msg_revokesMessageId (f (nextId w)) = Some j -> is_revoked (chatMessages w) j = false) ->
  messages_ok (insert_message f w).
Proof.
  intros [Hids Hbound Hrev] Hid Hnew. split; cbn.
  - rewrite fmap_app, NoDup_app. split_and!; [done| |repeat constructor; set_solver].
    intros x Hx Hy. apply list_elem_of_fmap in Hx as (m & -> & Hm). apply Hbound in Hm.
    cbn in Hy. rewrite Hid in Hy. apply list_elem_of_singleton in Hy. lia.
  - intros m. rewrite elem_of_app, list_elem_of_singleton. intros [Hm| ->]; [apply Hbound in Hm|]; lia.
  - rewrite omap_app, NoDup_app. split_and!; [done| |].
    + intros x Hx Hy. cbn in Hy. destruct (msg_revokesMessageId _) as [j|] eqn:E; [|set_solver].
      apply list_elem_of_singleton in Hy as ->. apply is_revoked_spec in Hx. by rewrite Hnew in Hx.
    + cbn. destruct (msg_revokesMessageId _); repeat constructor; set_solver.
Qed.

Lemma revokeLoop_messages runId markers t w :
  messages_ok w ->
  let w' := (revokeLoop runId markers t w).2 in
  messages_ok w' /\ (forall m, m ∈ markers -> is_revoked (chatMessages w') (msg_id m) = true) /\
  exists new, chatMessages w' = chatMessages w ++ new /\ forall m, m ∈ new -> is_marker runId m = false.
Proof.
  revert t w; induction markers as [|mk markers IH]; intros t w Hok; cbn [revokeLoop snd].
  { split_and!; [done|set_solver|]. exists []. rewrite app_nil_r. set_solver. }
  destruct (is_revoked (chatMessages w) (msg_id mk)) eqn:Hrev.
  - destruct (IH t w Hok) as (Hok' & Hall & new & Hnew & Hnm). split_and!; [done| |by exists new].
    intros m. rewrite elem_of_cons. intros [->|Hm]; [|by apply Hall].
    apply is_revoked_spec. rewrite Hnew, omap_app, elem_of_app. left. by apply is_revoked_spec.
  - destruct (IH (Some (msg_chatThreadId mk)) (insert_message (revoke_marker runId mk) w))
      as (Hok' & Hall & new & Hnew & Hnm).
    { apply insert_message_ok; [done|done|]. cbn. by intros j [= <-]. }
    split_and!; [done| |].
    + intros m. rewrite elem_of_cons. intros [->|Hm]; [|by apply Hall].
      apply is_revoked_spec. rewrite Hnew. cbn. rewrite !omap_app, !elem_of_app. left. right. set_solver.
    + eexists. cbn in Hnew. rewrite <- app_assoc in Hnew. split; [exact Hnew|].
      intros m. rewrite elem_of_app, list_elem_of_singleton. intros [->|Hm]; [|by apply Hnm].
      unfold is_marker. rewrite (bool_decide_eq_false_2 (msg_runEventId _ = _)) by done. apply andb_false_r.
Qed.

(** Revoking the queue markers of a run keeps the table's constraints, leaves
    every marker of that run revoked, keeps all earlier messages, and is
    idempotent: a second call changes nothing and notifies nobody. *)
Theorem revokeQueuedRunAssistantMarkers_spec runId userId w n w' :
  messages_ok w ->
  revokeQueuedRunAssistantMarkers runId userId w = (n, w') ->
  messages_ok w' /\ (exists new, chatMessages w' = chatMessages w ++ new) /\
  (forall m, m ∈ chatMessages w' -> is_marker runId m = true -> is_revoked (chatMessages w') (msg_id m) = true) /\
  revokeQueuedRunAssistantMarkers runId userId w' = (None, w').
Proof.
  intros Hok. unfold revokeQueuedRunAssistantMarkers at 1.
  set (markers := filter _ (chatMessages w)).
  pose proof (revokeLoop_messages runId markers None w Hok) as (Hok' & Hall & new & Hnew & Hnm).
  destruct (revokeLoop runId markers None w) as [t w1]. cbn [snd] in *. intros [= _ <-].
  assert (forall m, m ∈ chatMessages w1 -> is_marker runId m = true ->
            is_revoked (chatMessages w1) (msg_id m) = true) as Hrev.
  { intros m Hm Hmk. rewrite Hnew in Hm. apply elem_of_app in Hm as [Hm|Hm]; [|by rewrite Hnm in Hmk].
    destruct (is_revoked (chatMessages w) (msg_id m)) eqn:E.
    - apply is_revoked_spec. rewrite Hnew, omap_app, elem_of_app. left. by apply is_revoked_spec.
    - apply Hall, list_elem_of_filter. by rewrite Hmk, E. }
  split_and!; [done|by exists new|done|]. unfold revokeQueuedRunAssistantMarkers.
  assert (filter (fun m => is_marker runId m && negb (is_revoked (chatMessages w1) (msg_id m)) = true)
            (chatMessages w1) = []) as ->; [|done].
  apply elem_of_nil_inv. intros m. rewrite list_elem_of_filter. intros [Hb Hm]. bool_facts.
  by rewrite Hrev in *.
Qed.

(** *** Position *)

Lemma insert_by_created_perm e l : insert_by_created e l ≡ₚ e :: l.
Proof.
  induction l as [|x l IH]; cbn [insert_by_created]; [done|]. destruct (_ <=? _); [done|].
  rewrite IH. by constructor.
Qed.

Lemma order_by_created_perm l : order_by_created l ≡ₚ l.
Proof.
  induction l as [|e l IH]; [done|]. unfold order_by_created in *. cbn [foldr].
  by rewrite insert_by_created_perm, IH.
Qed.

Lemma sorted_prefix_count (l : list QueueEntry) i e :
  StronglySorted (fun a b => q_createdAt a <= q_createdAt b) l -> NoDup (q_createdAt <$> l) ->
  l !! i = Some e -> length (filter (fun x => q_createdAt x <= q_createdAt e) l) = S i.
Proof.
  intros Hs Hnd Hi. apply list_elem_of_split_length in Hi as (l1 & l2 & -> & Hlen).
  rewrite fmap_app, fmap_cons, NoDup_app, NoDup_cons in Hnd. destruct Hnd as (_ & Hd1 & Hd2 & _).
  apply StronglySorted_app in Hs as (Hs1 & _ & Hs2). apply StronglySorted_inv in Hs2 as [_ Hs2].
  rewrite Forall_forall in Hs2. rewrite filter_app, filter_cons_True by lia.
  rewrite (filter_all _ l1) by (intros x Hx; apply Hs1; set_solver).
  assert (filter (fun x => q_createdAt x <= q_createdAt e) l2 = []) as ->.
  { apply elem_of_nil_inv. intros x. rewrite list_elem_of_filter. intros [Hle Hx]. apply Hd2.
    specialize (Hs2 x Hx). simpl in Hs2.
    replace (q_createdAt e) with (q_createdAt x) by lia. by apply list_elem_of_fmap_2. }
  rewrite length_app. simpl. lia.
Qed.

(** The position a user is shown is the position of the run in the order the
    drain promotes: the run at index [i] of the organization's queue is told that
    it is number [i + 1]. *)
Theorem queuePosition_drain_order runId userId orgId w run e i :
  agentRuns w !! runId = Some run -> run_userId run = userId ->
  NoDup (q_runId <$> agentRunQueue w) ->
  NoDup (q_createdAt <$> filter (fun x => q_orgId x = run_orgId run) (agentRunQueue w)) ->
  order_by_created (filter (fun x => q_orgId x = run_orgId run) (agentRunQueue w)) !! i = Some e ->
  q_runId e = runId -> orgId = None \/ orgId = Some (run_orgId run) ->
  queuePosition runId userId orgId w = Some {| position := S i; total := S i |}.
Proof.
  intros Hrun Huser Hid Hct Hi He Horg. unfold queuePosition. rewrite Hrun, bool_decide_eq_true_2 by done.
  assert (match orgId with None | Some [] => true | Some o => bool_decide (run_orgId run = o) end = true) as ->.
  { destruct Horg as [->| ->]; [done|]. destruct (run_orgId run); [done|]. by apply bool_decide_eq_true. }
  cbn [andb]. assert (e ∈ agentRunQueue w) as Hin.
  { apply list_elem_of_lookup_2 in Hi. rewrite order_by_created_perm in Hi. by apply list_elem_of_filter in Hi as [_ ?]. }
  destruct (list_find (fun x => q_runId x = runId) (agentRunQueue w)) as [[k e']|] eqn:Hf.
  2: { apply list_find_None in Hf. rewrite Forall_forall in Hf. by destruct (Hf e Hin). }
  apply list_find_Some in Hf as (Hk & Hid' & _).
  assert (e' = e) as ->.
  { apply list_elem_of_lookup_1 in Hin as [k' Hk'].
    assert (k = k') as -> by (eapply (NoDup_lookup _ k k' runId Hid); rewrite list_lookup_fmap, ?Hk, ?Hk'; simpl; congruence).
    congruence. }
  assert (length (filter (fun x => q_orgId x = run_orgId run /\ q_createdAt x <= q_createdAt e) (agentRunQueue w)) = S i)
    as ->; [|done].
  rewrite <- (sorted_prefix_count _ i e
    (order_by_created_sorted (filter (fun x => q_orgId x = run_orgId run) (agentRunQueue w))));
    [|by rewrite order_by_created_perm|done].
  rewrite order_by_created_perm, list_filter_filter. f_equal. apply filter_ext_in. tauto.
Qed.

(** ** Witnesses *)

Section Witnesses.

(** A codec that satisfies the laws: texts carry the code of the value. *)
Definition payload_tuple (p : QueuedRunnerJobPayload) : jsstr * jsstr * option jsstr * jsstr * Z :=
  (p_runnerGroup p, p_profile p, p_sessionId p, p_context p, p_apiStartTime p).

Definition sample_codec : PayloadCodec := {|
  FeatureSwitchContext := unit;
  loadUserFeatureSwitchContext _ _ := tt;
  encryptPersistentSecretsMap m _ := Some [Zpos (encode m)];
  decryptPersistentSecretsMap c _ :=
    match c with
    | [Zpos n] => Ok (decode n)
    | _ => Throw (js "Invalid payload")
    end;
  payload_stringify p := [Zpos (encode (payload_tuple p))];
  payload_parse s :=
    match s with
    | [Zpos n] =>
        match (decode n : option (jsstr * jsstr * option jsstr * jsstr * Z)) with
        | Some (g, pr, s, c, t) => Ok {| p_runnerGroup := g; p_profile := pr; p_sessionId := s;
                                         p_context := c; p_apiStartTime := t |}
        | None => Throw (js "Invalid payload")
        end
    | _ => Throw (js "Invalid payload")
    end;
|}.

Lemma sample_codec_laws : @PayloadCodecLaws sample_codec.
Proof.
  split.
  - intros m ctx c [= <-]. split; [done|]. cbn. by rewrite decode_encode.
  - intros p. split; [done|]. cbn. rewrite decode_encode. by destruct p.
Defined.

#[local] Existing Instance sample_codec.
#[local] Existing Instance sample_codec_laws.

Definition sample_payload : QueuedRunnerJobPayload :=
  {| p_runnerGroup := js "vm0/a"; p_profile := js "p"; p_sessionId := None; p_context := js "c";
     p_apiStartTime := 0 |}.

Definition sample_run (createdAt : Z) : Run :=
  {| run_userId := js "u"; run_orgId := js "o"; run_status := Queued; run_createdAt := createdAt;
     run_startedAt := None; run_completedAt := None; run_lastHeartbeatAt := None; run_runnerGroup := None;
     run_sandboxId := None; run_error := None; run_lastEventSequence := None; run_composeName := None;
     run_result := None; run_sandboxReuseResult := None |}.

Definition sample_entry (id : jsstr) (createdAt : Z) : QueueEntry :=
  {| q_runId := id; q_userId := js "u"; q_orgId := js "o"; q_encryptedParams := None;
     q_createdAt := createdAt; q_expiresAt := createdAt + 7200000 |}.

(** Three queued runs of an organization on the free tier. *)
Definition sample_world : World :=
  {| agentRuns := {[js "a" := sample_run 2; js "b" := sample_run 1; js "c" := sample_run 3]};
     agentRunQueue := [sample_entry (js "a") 2; sample_entry (js "b") 1; sample_entry (js "c") 3];
     runnerJobQueue := ∅; orgTiers := {[js "o" := js "free"]};
     chatMessages := [queued_marker (js "t") (js "b") 0]; nextId := 1; outbox := [] |}.

Lemma sample_runs id r : agentRuns sample_world !! id = Some r -> exists t, r = sample_run t /\ 1 <= t <= 3.
Proof.
  unfold sample_world; cbn [agentRuns]. rewrite !lookup_insert_Some, lookup_singleton_Some. intros [[_ <-]|[_ [[_ <-]|[_ [_ <-]]]]];
    eexists; (split; [reflexivity|lia]).
Qed.

Lemma drainOrgQueue_fifo_witness :
  exists w', drainOrgQueue None 10 (js "o") sample_world = (Ok 1%nat, w') /\
    exists e, waiting sample_world (js "o") e /\
      forall e', waiting sample_world (js "o") e' -> q_createdAt e <= q_createdAt e'.
Proof.
  eexists. split; [vm_compute; reflexivity|].
  edestruct (drainOrgQueue_fifo None 10 (js "o") sample_world) as (e & r & p & Hw & _ & Hmin & _);
    [vm_compute; reflexivity|].
  exists e. split; [exact Hw|exact Hmin].
Defined.

Lemma drainOrgQueueToCapacity_limit_witness :
  exists res w', drainOrgQueueToCapacity None 4 10 (js "o") 0 sample_world = Some (res, w') /\
    inflight w' (js "o") <= 1.
Proof.
  destruct (drainOrgQueueToCapacity_limit None 4 10 (js "o") 0 sample_world 1) as (res & w' & Hrun & Hle).
  - vm_compute. lia.
  - intros id r Hr _ _. apply sample_runs in Hr as (t & -> & Ht). cbn. unfold PENDING_RUN_TTL_MS. lia.
  - vm_compute. reflexivity.
  - exists res, w'. split; [exact Hrun|]. vm_compute in Hle. vm_compute. exact Hle.
Defined.

Lemma drainOrgQueueToCapacity_terminates_witness :
  exists res w', drainOrgQueueToCapacity None 4 10 (js "o") 0 sample_world = Some (res, w').
Proof.
  destruct (drainOrgQueueToCapacity_terminates None 4 10 (js "o") 0 sample_world) as (res & w' & Hrun & _).
  - cbn. lia.
  - exists res, w'. exact Hrun.
Defined.

(** Twenty minutes later all three runs are promoted although the limit is one. *)
Lemma drainOrgQueueToCapacity_stale_overrun_witness :
  org_limit None sample_world (js "o") = LNum 1 /\
  exists w', drainOrgQueueToCapacity None 4 1200003 (js "o") 0 sample_world = Some (Ok 3%nat, w') /\
    inflight w' (js "o") = 3 /\ activeCount w' (js "o") 1200003 = 0 /\ forall e, ~ waiting w' (js "o") e.
Proof.
  split; [vm_compute; reflexivity|].
  destruct (drainOrgQueueToCapacity_stale_overrun None 4 1200003 (js "o") 0 sample_world)
    as (res & w' & Hrun & Hok).
  - vm_compute. lia.
  - intros id r Hr _ _. apply sample_runs in Hr as (t & -> & Ht). cbn. unfold PENDING_RUN_TTL_MS. lia.
  - vm_compute. reflexivity.
  - eexists. split; [vm_compute; reflexivity|]. split; [vm_compute; reflexivity|].
    vm_compute in Hrun. injection Hrun as <- <-. destruct (Hok eq_refl) as [Hact Hnone]. split; [|exact Hnone].
    etransitivity; [exact Hact|]. vm_compute. reflexivity.
Defined.

Lemma decryptQueuedRunnerJobPayload_roundtrip_witness :
  exists encrypted, encryptQueuedRunnerJobPayload sample_payload tt = Ok encrypted /\
    decryptQueuedRunnerJobPayload (Some encrypted) tt = Ok (Some sample_payload).
Proof.
  eexists. split; [reflexivity|]. apply decryptQueuedRunnerJobPayload_roundtrip. reflexivity.
Defined.

Lemma cleanupExpiredQueueEntries_witness :
  exists n w', cleanupExpiredQueueEntries 7200003 sample_world = (n, w') /\
    agentRuns w' !! js "c" = Some (sample_run 3).
Proof.
  do 2 eexists. split; [reflexivity|].
  edestruct (cleanupExpiredQueueEntries_spec 7200003 sample_world) as [_ Hruns]; [reflexivity|].
  apply Hruns; [reflexivity|]. right. intros (e & He & Hid & Hexp). cbn in He.
  repeat (apply elem_of_cons in He as [->|He]; [cbn in *; first [lia|discriminate Hid]|]).
  apply not_elem_of_nil in He. exact He.
Defined.

Lemma revokeQueuedRunAssistantMarkers_witness :
  exists n w', revokeQueuedRunAssistantMarkers (js "b") (js "u") sample_world = (n, w') /\ messages_ok w'.
Proof.
  do 2 eexists. split; [vm_compute; reflexivity|].
  eapply (revokeQueuedRunAssistantMarkers_spec (js "b") (js "u") sample_world); [|vm_compute; reflexivity].
  split; cbn.
  - apply NoDup_singleton.
  - intros m Hm. apply list_elem_of_singleton in Hm as ->. cbn. lia.
  - apply NoDup_nil_2.
Defined.

Lemma queuePosition_drain_order_witness :
  queuePosition (js "a") (js "u") None sample_world = Some {| position := 2; total := 2 |}.
Proof.
  apply (queuePosition_drain_order (js "a") (js "u") None sample_world (sample_run 2)
           (sample_entry (js "a") 2) 1).
  - vm_compute. reflexivity.
  - reflexivity.
  - apply (bool_decide_eq_true_1 _). vm_compute. reflexivity.
  - apply (bool_decide_eq_true_1 _). vm_compute. reflexivity.
  - vm_compute. reflexivity.
  - reflexivity.
  - left. reflexivity.
Defined.

End Witnesses.

End RunQueue.
