(* ===== verification/RunLifecycle.v ===== *)
(** The life of a run after the queue
    (turbo/apps/api/src/signals/services/agent-run-create.service.ts for admission,
    dispatch and enqueueing, routes/runners.ts for polling and claiming,
    zero-run-cancel.service.ts, agent-webhook-complete.service.ts,
    cron-cleanup-sandboxes.service.ts; the withdrawal of a run whose message another run
    answered, of routes/internal-callbacks-chat.ts; the end of the runs of an organization, a user
    or an agent, of webhooks-clerk-cleanup.service.ts and zero-compose-data.service.ts), and the
    step relation of all committed transactions with its invariant. *)

From stdpp Require Import sorting.
From S2P Require Import Prelude JsString JsValue RunStore RunQueue.
Import RunStore RunQueue.

Module RunLifecycle.

(** ** Admission *)

Definition TIER_LIMITS : list (jsstr * Z) := [(js "free", 1); (js "pro", 2); (js "team", 10)].
Definition QUEUED_RUN_TTL_MS : Z := 2 * 60 * 60 * 1000.

(** Zero means no limit. *)
Definition getEffectiveConcurrencyLimit (cap : option Z) (tier : jsstr) : Z :=
  let tierLimit := default 0 (tier_limit TIER_LIMITS tier) in
  match cap with
  | Some c => if c =? 0 then 0 else Z.min tierLimit c
  | None => tierLimit
  end.

Definition orgTier (w : World) (orgId : jsstr) : jsstr :=
  match orgTiers w !! orgId with
  | Some t => if bool_decide (t = js "pro") || bool_decide (t = js "team") then t else js "free"
  | None => js "free"
  end.

Inductive CreateRunError := ConcurrentRunLimit | InsufficientCredits | InvalidContext.

Definition checkRunConcurrencyLimit (cap : option Z) (now : Z) (orgId : jsstr) (w : World) :
    option CreateRunError :=
  let limit := getEffectiveConcurrencyLimit cap (orgTier w orgId) in
  if limit =? 0 then None
  else if limit <=? activeCount w orgId now then Some ConcurrentRunLimit else None.

Definition checkOrgRunTier (w : World) (orgId : jsstr) : option CreateRunError :=
  match orgTiers w !! orgId with
  | None => Some InsufficientCredits
  | Some tier => if bool_decide (tier = js "pro-suspend") then Some InsufficientCredits else None
  end.

Record CreateAgentRunArgs := {
  a_userId : jsstr;
  a_orgId : jsstr;
  a_queueOnConcurrencyLimit : bool;
  a_enforceVm0Credits : bool;
}.

(** What the preparation of a run yields for this part: the compose name, whether
    the model provider is vm0, and the runner job payload or the error of building
    it. *)
Record PreparedRunContext := {
  x_composeName : option jsstr;
  x_isVm0 : bool;
  x_payload : result QueuedRunnerJobPayload;
}.

(** The new row; [id] is the key the database draws. *)
Definition new_run (now : Z) (args : CreateAgentRunArgs) (ctx : PreparedRunContext) (status : RunStatus) : Run :=
  {| run_userId := a_userId args; run_orgId := a_orgId args; run_status := status; run_createdAt := now;
     run_startedAt := None; run_completedAt := None; run_lastHeartbeatAt := Some now;
     run_runnerGroup := None; run_sandboxId := None; run_error := None; run_lastEventSequence := None;
     run_composeName := x_composeName ctx; run_result := None; run_sandboxReuseResult := None |}.

Definition insert_run (id : jsstr) (r : Run) (w : World) : result World :=
  match agentRuns w !! id with
  | Some _ => Throw unique_violation
  | None => Ok (with_runs (<[id := r]>) w)
  end.

(** One transaction under the organization's lock. *)
Definition insertRunWithConcurrency (cap : option Z) (now : Z) (id : jsstr) (args : CreateAgentRunArgs)
    (ctx : PreparedRunContext) (w : World) : result (CreateRunError + RunStatus) * World :=
  let insert status :=
    match insert_run id (new_run now args ctx status) w with
    | Throw e => (Throw e, w)
    | Ok w' => (Ok (inr status), w')
    end in
  match checkRunConcurrencyLimit cap now (a_orgId args) w with
  | Some e => if a_queueOnConcurrencyLimit args then insert Queued else (Ok (inl e), w)
  | None => insert Pending
  end.

(** ** Dispatch and enqueueing *)

Record DerivedPersistenceResult := { d_status : RunStatus; d_sandboxId : option jsstr }.

Definition lockRunForDerivedPersistence (id : jsstr) (w : World) : option DerivedPersistenceResult :=
  (fun r => {| d_status := run_status r;
               d_sandboxId := match run_sandboxId r with Some [] => None | s => s end |}) <$> agentRuns w !! id.

Definition is_status (s : RunStatus) (r : Run) : bool := bool_decide (run_status r = s).

(** The transaction of [dispatchRun]. *)
Definition persistRunnerJob (now : Z) (id : jsstr) (payload : QueuedRunnerJobPayload) (w : World) :
    result DerivedPersistenceResult * World :=
  match lockRunForDerivedPersistence id w with
  | None => (Throw (js "Run disappeared before runner job persistence"), w)
  | Some currentRun =>
      if negb (bool_decide (d_status currentRun = Pending)) then (Ok currentRun, w)
      else
        let job := {| job_runnerGroup := p_runnerGroup payload; job_profile := p_profile payload;
                      job_sessionId := p_sessionId payload; job_context := p_context payload;
                      job_apiStartTime := p_apiStartTime payload; job_claimedAt := None;
                      job_createdAt := now; job_expiresAt := now + 2 * 60 * 60 * 1000 |} in
        match insert_job id job w with
        | Throw e => (Throw e, w)
        | Ok w1 =>
            (Ok {| d_status := Pending; d_sandboxId := None |},
             (update_run id (is_status Pending) (set_runnerGroup (p_runnerGroup payload)) w1).2)
        end
  end.

Definition dispatchRun (now : Z) (id : jsstr) (ctx : PreparedRunContext) (w : World) :
    result DerivedPersistenceResult * World :=
  let w1 := (update_run id (is_status Pending) (set_heartbeat now) w).2 in
  match x_payload ctx with
  | Throw e => (Throw e, w1)
  | Ok payload =>
      match persistRunnerJob now id payload w1 with
      | (Throw e, w2) => (Throw e, w2)
      | (Ok persisted, w2) =>
          (Ok persisted,
           if bool_decide (d_status persisted = Pending)
           then publish (SigRunnerJob id (p_runnerGroup payload) (p_profile payload) (p_sessionId payload)) w2
           else w2)
      end
  end.

Section WithCodec.
Context `{PayloadCodec}.

(** The transaction of [enqueueRunForConcurrency]; [createdAt] is the run's. *)
Definition persistQueueEntry (now : Z) (id : jsstr) (createdAt : Z) (userId orgId : jsstr)
    (payload : QueuedRunnerJobPayload) (encryptedParams : jsstr) (w : World) :
    result DerivedPersistenceResult * World :=
  match lockRunForDerivedPersistence id w with
  | None => (Throw (js "Run disappeared before queue persistence"), w)
  | Some currentRun =>
      if negb (bool_decide (d_status currentRun = Queued)) then (Ok currentRun, w)
      else
        let entry := {| q_runId := id; q_userId := userId; q_orgId := orgId;
                        q_encryptedParams := Some encryptedParams; q_createdAt := createdAt;
                        q_expiresAt := now + QUEUED_RUN_TTL_MS |} in
        match insert_queue entry w with
        | Throw e => (Throw e, w)
        | Ok w1 =>
            (Ok {| d_status := Queued; d_sandboxId := None |},
             (update_run id (is_status Queued) (set_runnerGroup (p_runnerGroup payload)) w1).2)
        end
  end.

Definition enqueueRunForConcurrency (now : Z) (id : jsstr) (createdAt : Z) (args : CreateAgentRunArgs)
    (ctx : PreparedRunContext) (w : World) : result DerivedPersistenceResult * World :=
  match x_payload ctx ≫= (fun payload =>
          encryptQueuedRunnerJobPayload payload
            (loadUserFeatureSwitchContext (a_orgId args) (a_userId args)) ≫= fun enc => Ok (payload, enc)) with
  | Throw e => (Throw e, w)
  | Ok (payload, encryptedParams) =>
      match persistQueueEntry now id createdAt (a_userId args) (a_orgId args) payload encryptedParams w with
      | (Throw e, w1) => (Throw e, w1)
      | (Ok persisted, w1) =>
          (Ok persisted,
           if bool_decide (d_status persisted = Queued) then publish (SigQueueChanged (a_orgId args)) w1 else w1)
      end
  end.

Definition markRunFailed (now : Z) (id message : jsstr) (w : World) : bool * World :=
  match update_run id (fun r => is_status Queued r || is_status Pending r || is_status Running r)
          (fun r => set_completed now (set_error (Some message) (set_status Failed r))) w with
  | (false, w1) => (false, w1)
  | (true, w1) =>
      let userId := default [] (run_userId <$> agentRuns w !! id) in
      (true, publish (SigRunCallbacks id Failed (Some message)) (publish (SigRunChanged userId id Failed) w1))
  end.

Inductive CreateRunRouteResult :=
| Created201 (runId : jsstr) (status : RunStatus) (sandboxId error : option jsstr)
| RouteError (e : CreateRunError).

Definition createdRunResponse (id : jsstr) (d : DerivedPersistenceResult) : CreateRunRouteResult :=
  Created201 id (d_status d) (d_sandboxId d) None.
Definition failedRunResponse (id error : jsstr) : CreateRunRouteResult :=
  Created201 id Failed None (Some error).

Definition completeQueuedRun (now : Z) (id : jsstr) (args : CreateAgentRunArgs) (ctx : PreparedRunContext)
    (w : World) : CreateRunRouteResult * World :=
  match enqueueRunForConcurrency now id now args ctx w with
  | (Ok d, w1) => (createdRunResponse id d, w1)
  | (Throw e, w1) => (failedRunResponse id e, (markRunFailed now id e w1).2)
  end.

Definition completePendingRun (cap : option Z) (now : Z) (id : jsstr) (args : CreateAgentRunArgs)
    (ctx : PreparedRunContext) (w : World) : CreateRunRouteResult * World :=
  match dispatchRun now id ctx w with
  | (Ok d, w1) => (createdRunResponse id d, w1)
  | (Throw e, w1) =>
      match markRunFailed now id e w1 with
      | (true, w2) => (failedRunResponse id e, (drainOrgQueue cap now (a_orgId args) w2).2)
      | (false, w2) => (failedRunResponse id e, w2)
      end
  end.

(** [context] is the outcome of the preparation and [hasCredits] of the vm0 credit
    check. *)
Definition createAgentRun (cap : option Z) (now : Z) (id : jsstr) (args : CreateAgentRunArgs)
    (context : option PreparedRunContext) (hasCredits : bool) (w : World) :
    result CreateRunRouteResult * World :=
  match checkOrgRunTier w (a_orgId args) with
  | Some e => (Ok (RouteError e), w)
  | None =>
      match context with
      | None => (Ok (RouteError InvalidContext), w)
      | Some ctx =>
          if a_enforceVm0Credits args && x_isVm0 ctx && negb hasCredits
          then (Ok (RouteError InsufficientCredits), w)
          else
            match insertRunWithConcurrency cap now id args ctx w with
            | (Throw e, w1) => (Throw e, w1)
            | (Ok (inl e), w1) => (Ok (RouteError e), w1)
            | (Ok (inr Queued), w1) =>
                let '(r, w2) := completeQueuedRun now id args ctx w1 in (Ok r, w2)
            | (Ok (inr _), w1) =>
                let '(r, w2) := completePendingRun cap now id args ctx w1 in (Ok r, w2)
            end
      end
  end.

(** ** Runners *)

Inductive RunnerAuthContext := OfficialRunner | UserRunner (userId : jsstr).

Definition isOfficialRunnerGroup (group : jsstr) : bool :=
  bool_decide (head (split_on 47 group) = Some (js "vm0")).

Inductive HttpError := Unauthorized | Forbidden | NotFound | Conflict | BadRequest.

Definition job_expired (now : Z) (job : RunnerJob) : bool := job_expiresAt job <=? now.

Record ClaimableJob := { cj_job : RunnerJob; cj_run : Run }.

Definition getClaimableJob (now : Z) (id : jsstr) (w : World) : HttpError + ClaimableJob :=
  match runnerJobQueue w !! id, agentRuns w !! id with
  | Some job, Some run =>
      if bool_decide (job_claimedAt job = None) && negb (job_expired now job)
      then inr {| cj_job := job; cj_run := run |}
      else if job_expired now job then inl NotFound else inl Conflict
  | Some job, None => if job_expired now job then inl NotFound else inl Conflict
  | None, _ => inl NotFound
  end.

Definition claimAuthorizationError (auth : RunnerAuthContext) (j : ClaimableJob) : option HttpError :=
  match auth with
  | OfficialRunner => if isOfficialRunnerGroup (job_runnerGroup (cj_job j)) then None else Some Forbidden
  | UserRunner userId =>
      if negb (bool_decide (run_userId (cj_run j) = userId)) then Some Forbidden
      else if isOfficialRunnerGroup (job_runnerGroup (cj_job j)) then None else Some Forbidden
  end.

Inductive ClaimTransitionResult := Claimed (claimedAt : Z) | ClaimConflict | JobNotFound | RunNotFound.

Definition transitionClaimedJobToRunning (now : Z) (id : jsstr) (w : World) : ClaimTransitionResult * World :=
  match agentRuns w !! id with
  | None => (RunNotFound, w)
  | Some run =>
      if negb (is_status Pending run) then (RunNotFound, delete_job id w)
      else
        match runnerJobQueue w !! id with
        | None => (JobNotFound, w)
        | Some job =>
            if job_expired now job then (JobNotFound, w)
            else if negb (bool_decide (job_claimedAt job = None)) then (ClaimConflict, w)
            else
              let w1 := (update_run id (is_status Pending)
                           (fun r => set_heartbeat now (set_started now (set_status Running r))) w).2 in
              (Claimed now, delete_job id w1)
        end
  end.

Inductive PoisonJobResult := PoisonFailed | PoisonConflict | PoisonJobNotFound | PoisonRunNotFound.

Definition failPoisonQueuedJob (now : Z) (id errorMessage : jsstr) (w : World) : PoisonJobResult * World :=
  match agentRuns w !! id with
  | None => (PoisonRunNotFound, w)
  | Some run =>
      if negb (is_status Pending run) then (PoisonRunNotFound, delete_job id w)
      else
        match runnerJobQueue w !! id with
        | None => (PoisonJobNotFound, w)
        | Some job =>
            if job_expired now job then (PoisonJobNotFound, w)
            else if negb (bool_decide (job_claimedAt job = None)) then (PoisonConflict, w)
            else
              let w1 := (update_run id (is_status Pending)
                           (fun r => set_error (Some errorMessage) (set_completed now (set_status Failed r))) w).2 in
              (PoisonFailed, delete_job id w1)
        end
  end.

(** ** Completion *)

Inductive TerminalStatus := TCompleted | TFailed.
#[export] Instance terminal_eq_dec : EqDecision TerminalStatus.
Proof. solve_decision. Defined.

Definition terminal_run_status (t : TerminalStatus) : RunStatus :=
  match t with TCompleted => Completed | TFailed => Failed end.

Record TerminalSideEffectsInput := {
  t_runId : jsstr;
  t_orgId : jsstr;
  t_status : TerminalStatus;
  t_error : option jsstr;
}.

(** Callbacks, then a drain whose errors are logged, then credit settlement and the
    usage message. *)
Definition dispatchCompleteSideEffects (cap : option Z) (now : Z) (input : TerminalSideEffectsInput)
    (w : World) : World :=
  let w1 := publish (SigRunCallbacks (t_runId input) (terminal_run_status (t_status input)) (t_error input)) w in
  let w2 := (drainOrgQueue cap now (t_orgId input) w1).2 in
  publish (SigRunUsageMessage (t_runId input)) (publish (SigProcessUsageEvents (t_orgId input)) w2).

(** The claim route; [validContext] is the schema of the stored execution context and
    [secretValues] what [secretValuesForRunner] makes of it under the feature switches of the
    run's organization and user. It decrypts, and its error ends the request. *)
Definition INVALID_EXECUTION_CONTEXT_ERROR : jsstr := js "Runner job missing valid execution context".

Record ClaimedJob := { cl_job : RunnerJob; cl_secretValues : option (list jsstr) }.

Definition SecretValues : Type := jsstr -> jsstr -> jsstr -> result (option (list jsstr)).

Definition claim (cap : option Z) (now : Z) (validContext : jsstr -> bool) (secretValues : SecretValues)
    (auth : option RunnerAuthContext) (id : jsstr) (w : World) : result (HttpError + ClaimedJob) * World :=
  match auth with
  | None => (Ok (inl Unauthorized), w)
  | Some auth =>
      match getClaimableJob now id w with
      | inl e => (Ok (inl e), w)
      | inr j =>
          match claimAuthorizationError auth j with
          | Some e => (Ok (inl e), w)
          | None =>
              if negb (validContext (job_context (cj_job j))) then
                match failPoisonQueuedJob now id INVALID_EXECUTION_CONTEXT_ERROR w with
                | (PoisonConflict, w1) => (Ok (inl Conflict), w1)
                | (PoisonJobNotFound, w1) => (Ok (inl NotFound), w1)
                | (PoisonRunNotFound, w1) => (Ok (inl NotFound), w1)
                | (PoisonFailed, w1) =>
                    let w2 := publish (SigRunChanged (run_userId (cj_run j)) id Failed) w1 in
                    (Ok (inl BadRequest),
                     dispatchCompleteSideEffects cap now
                       {| t_runId := id; t_orgId := run_orgId (cj_run j); t_status := TFailed;
                          t_error := Some INVALID_EXECUTION_CONTEXT_ERROR |} w2)
                end
              else
                match secretValues (run_orgId (cj_run j)) (run_userId (cj_run j)) (job_context (cj_job j)) with
                | Throw e => (Throw e, w)
                | Ok values =>
                    match transitionClaimedJobToRunning now id w with
                    | (ClaimConflict, w1) => (Ok (inl Conflict), w1)
                    | (JobNotFound, w1) => (Ok (inl NotFound), w1)
                    | (RunNotFound, w1) => (Ok (inl NotFound), w1)
                    | (Claimed _, w1) =>
                        (Ok (inr {| cl_job := cj_job j; cl_secretValues := values |}),
                         publish (SigRunChanged (run_userId (cj_run j)) id Running) w1)
                    end
                end
          end
      end
  end.

Definition isVolumeVersionsSnapshot (value : JsVal) : option (list (jsstr * jsstr)) :=
  match value with
  | JObject props =>
      match prop_of props (js "versions") with
      | JObject versions =>
          if forallb (fun kv => bool_decide (is_Some (as_string kv.2))) versions
          then Some (omap (fun kv => (fun v => (kv.1, v)) <$> as_string kv.2) versions) else None
      | _ => None
      end
  | _ => None
  end.

(** The name and version of an artifact snapshot. *)
Definition isArtifactSnapshot (value : JsVal) : option (jsstr * jsstr) :=
  match value with
  | JObject props =>
      match prop_of props (js "name"), prop_of props (js "version"), prop_of props (js "mountPath") with
      | JString name, JString version, JString _ => Some (name, version)
      | _, _, _ => None
      end
  | _ => None
  end.

(** [result[name] = version]: a repeated name keeps its place and takes the last
    version. *)
Definition record_set (k v : jsstr) (l : list (jsstr * jsstr)) : list (jsstr * jsstr) :=
  if bool_decide (k ∈ l.*1) then (fun kv => if bool_decide (kv.1 = k) then (k, v) else kv) <$> l
  else l ++ [(k, v)].

Fixpoint decodeArtifactsLoop (entries : list JsVal) (index : nat) (acc : list (jsstr * jsstr)) :
    result (list (jsstr * jsstr)) :=
  match entries with
  | [] => Ok acc
  | entry :: entries' =>
      match isArtifactSnapshot entry with
      | None => Throw (js "Invalid checkpoint artifact snapshot at index " ++ js_of_nat index)
      | Some (name, version) => decodeArtifactsLoop entries' (S index) (record_set name version acc)
      end
  end.

Definition decodeArtifactSnapshotsToRecord (raw : JsVal) : result (option (list (jsstr * jsstr))) :=
  match raw with
  | JArray (e :: l) => r ← decodeArtifactsLoop (e :: l) 0 []; Ok (Some r)
  | _ => Ok None
  end.

Record Checkpoint := {
  cp_id : jsstr;
  cp_conversationId : jsstr;
  cp_artifactSnapshots : JsVal;
  cp_volumeVersionsSnapshot : JsVal;
}.

Definition buildRunResult (checkpoint : Checkpoint) (sessionId : option jsstr) : result RunResult :=
  artifact ← decodeArtifactSnapshotsToRecord (cp_artifactSnapshots checkpoint);
  Ok {| res_checkpointId := cp_id checkpoint;
        res_agentSessionId := default (cp_conversationId checkpoint) sessionId;
        res_conversationId := cp_conversationId checkpoint;
        res_artifact := artifact;
        res_volumes := isVolumeVersionsSnapshot (cp_volumeVersionsSnapshot checkpoint) |}.

Definition persistLastEventSequence (id userId : jsstr) (n : Z) (w : World) : World :=
  (update_run id (fun r => bool_decide (run_userId r = userId))
     (fun r => set_lastEventSequence (Z.max (default (-1) (run_lastEventSequence r)) n) r) w).2.

Definition readCompletionResponseStatus (id userId : jsstr) (w : World) : TerminalStatus :=
  match agentRuns w !! id with
  | Some r => if bool_decide (run_userId r = userId) && is_status Completed r then TCompleted else TFailed
  | None => TFailed
  end.

(** The columns of a terminal update; an undefined one is left alone. *)
Record TerminalUpdate := {
  u_status : RunStatus;
  u_completedAt : Z;
  u_error : option jsstr;
  u_result : option RunResult;
  u_sandboxId : option jsstr;
  u_sandboxReuseResult : option jsstr;
}.

Definition set_defined {A} (f : option A -> Run -> Run) (x : option A) (r : Run) : Run :=
  match x with Some _ => f x r | None => r end.

Definition apply_update (u : TerminalUpdate) (r : Run) : Run :=
  set_defined set_sandboxReuseResult (u_sandboxReuseResult u)
    (set_defined set_sandboxId (u_sandboxId u)
      (set_defined set_result (u_result u)
        (set_defined set_error (u_error u)
          (set_completed (u_completedAt u) (set_status (u_status u) r))))).

Definition transitionRunStatus (id : jsstr) (u : TerminalUpdate) (allowedFromStatuses : list RunStatus)
    (w : World) : bool * World :=
  update_run id (fun r => bool_decide (run_status r ∈ allowedFromStatuses)) (apply_update u) w.

Record WebhookCompleteBody := {
  b_runId : jsstr;
  b_exitCode : Z;
  b_error : option jsstr;
  b_lastEventSequence : option Z;
  b_sandboxId : option jsstr;
  b_sandboxReuseResult : option jsstr;
}.

Record CompletionResponse := {
  resp_body : HttpError + TerminalStatus;
  resp_sideEffects : option TerminalSideEffectsInput;
}.

Definition successResponse (id orgId : jsstr) (status : TerminalStatus) (error : option jsstr) :
    CompletionResponse :=
  {| resp_body := inr status;
     resp_sideEffects := Some {| t_runId := id; t_orgId := orgId; t_status := status;
                                 t_error := match error with Some [] => None | e => e end |} |}.

Definition currentStatusResponse (id userId : jsstr) (w : World) : CompletionResponse :=
  {| resp_body := inr (readCompletionResponseStatus id userId w); resp_sideEffects := None |}.

Definition COMPLETABLE : list RunStatus := [Pending; Running; Timeout].

Definition terminal_update (now : Z) (status : RunStatus) (error : option jsstr) (res : option RunResult)
    (body : WebhookCompleteBody) : TerminalUpdate :=
  {| u_status := status; u_completedAt := now; u_error := error; u_result := res;
     u_sandboxId := b_sandboxId body; u_sandboxReuseResult := b_sandboxReuseResult body |}.

Definition MISSING_CHECKPOINT_ERROR : jsstr := js "Checkpoint for run not found".

Definition handleMissingCheckpoint (now : Z) (body : WebhookCompleteBody) (userId : jsstr) (run : Run)
    (w : World) : CompletionResponse * World :=
  match transitionRunStatus (b_runId body)
          (terminal_update now Failed (Some MISSING_CHECKPOINT_ERROR) None body) COMPLETABLE w with
  | (false, w1) => (currentStatusResponse (b_runId body) userId w1, w1)
  | (true, w1) =>
      ({| resp_body := inl NotFound;
          resp_sideEffects := Some {| t_runId := b_runId body; t_orgId := run_orgId run; t_status := TFailed;
                                      t_error := Some MISSING_CHECKPOINT_ERROR |} |},
       publish (SigRunChanged (run_userId run) (b_runId body) Failed) w1)
  end.

(** [checkpoints] and [sessions] answer the two lookups. *)
Definition handleSuccessfulCompletion (now : Z) (checkpoints : jsstr -> option Checkpoint)
    (sessions : jsstr -> option jsstr) (body : WebhookCompleteBody) (userId : jsstr) (run : Run)
    (w : World) : result CompletionResponse * World :=
  match checkpoints (b_runId body) with
  | None => let '(r, w1) := handleMissingCheckpoint now body userId run w in (Ok r, w1)
  | Some checkpoint =>
      match buildRunResult checkpoint (sessions (cp_conversationId checkpoint)) with
      | Throw e => (Throw e, w)
      | Ok res =>
          match transitionRunStatus (b_runId body) (terminal_update now Completed None (Some res) body)
                  COMPLETABLE w with
          | (false, w1) => (Ok (currentStatusResponse (b_runId body) userId w1), w1)
          | (true, w1) =>
              (Ok (successResponse (b_runId body) (run_orgId run) TCompleted None),
               publish (SigRunChanged (run_userId run) (b_runId body) Completed) w1)
          end
      end
  end.

Definition handleFailedCompletion (now : Z) (body : WebhookCompleteBody)
    (userId : jsstr) (run : Run) (w : World) : CompletionResponse * World :=
  let error := match trim <$> b_error body with
               | None | Some [] => js "Run failed without error message"
               | Some e => e
               end in
  match transitionRunStatus (b_runId body) (terminal_update now Failed (Some error) None body) COMPLETABLE w with
  | (false, w1) => (currentStatusResponse (b_runId body) userId w1, w1)
  | (true, w1) =>
      (successResponse (b_runId body) (run_orgId run) TFailed (Some error),
       publish (SigRunChanged (run_userId run) (b_runId body) Failed) w1)
  end.

Definition completeAgentRun (now : Z) (checkpoints : jsstr -> option Checkpoint)
    (sessions : jsstr -> option jsstr) (userId : jsstr) (body : WebhookCompleteBody) (w : World) :
    result CompletionResponse * World :=
  match agentRuns w !! b_runId body with
  | Some run =>
      if negb (bool_decide (run_userId run = userId))
      then (Ok {| resp_body := inl NotFound; resp_sideEffects := None |}, w)
      else
        let w1 := match b_lastEventSequence body with
                  | Some n => persistLastEventSequence (b_runId body) userId n w
                  | None => w
                  end in
        if is_status Completed run then (Ok {| resp_body := inr TCompleted; resp_sideEffects := None |}, w1)
        else if is_status Failed run then (Ok {| resp_body := inr TFailed; resp_sideEffects := None |}, w1)
        else if b_exitCode body =? 0 then handleSuccessfulCompletion now checkpoints sessions body userId run w1
        else let '(r, w2) := handleFailedCompletion now body userId run w1 in (Ok r, w2)
  | None => (Ok {| resp_body := inl NotFound; resp_sideEffects := None |}, w)
  end.

(** ** Cancellation *)

Definition ACTIVE_STATUSES : list RunStatus := [Queued; Pending; Running].
Definition isActiveStatus (s : RunStatus) : bool := bool_decide (s ∈ ACTIVE_STATUSES).

Record CancelRunResult := {
  cr_runId : jsstr;
  cr_previousStatus : RunStatus;
  cr_userId : jsstr;
  cr_orgId : jsstr;
  cr_sandboxId : option jsstr;
  cr_runnerGroup : option jsstr;
  cr_alreadyCancelled : bool;
}.

Inductive CancelResponse := CancelNotFound | RunNotCancellable (status : RunStatus) | CancelOk (r : CancelRunResult).

Definition cancelRun (now : Z) (id userId orgId : jsstr) (w : World) : CancelResponse * World :=
  match agentRuns w !! id with
  | Some run =>
      if negb (bool_decide (run_userId run = userId) && bool_decide (run_orgId run = orgId)) then (CancelNotFound, w)
      else
        let out already :=
          {| cr_runId := id; cr_previousStatus := run_status run; cr_userId := run_userId run;
             cr_orgId := run_orgId run; cr_sandboxId := run_sandboxId run;
             cr_runnerGroup := run_runnerGroup run; cr_alreadyCancelled := already |} in
        if is_status Cancelled run then (CancelOk (out true), w)
        else if negb (isActiveStatus (run_status run)) then (RunNotCancellable (run_status run), w)
        else
          let w1 := (update_run id (is_status (run_status run))
                       (fun r => set_completed now (set_status Cancelled r)) w).2 in
          (CancelOk (out false), delete_job id (delete_queue id w1))
  | None => (CancelNotFound, w)
  end.

(** The drain is awaited without a handler: its error ends the side effects. *)
Definition dispatchCancelSideEffects (cap : option Z) (now : Z) (r : CancelRunResult) (w : World) :
    result unit * World :=
  if cr_alreadyCancelled r then (Ok tt, w)
  else
    let w1 := match cr_previousStatus r, cr_runnerGroup r with
              | Running, Some (c :: g) => publish (SigCancelToRunnerGroup (c :: g) (cr_runId r)) w
              | _, _ => w
              end in
    let w2 := publish (SigRunChanged (cr_userId r) (cr_runId r) Cancelled)
                (publish (SigQueueChanged (cr_orgId r)) w1) in
    let w3 := publish (SigRunCallbacks (cr_runId r) Failed (Some (js "Run cancelled"))) w2 in
    match drainOrgQueue cap now (cr_orgId r) w3 with
    | (Throw e, w4) => (Throw e, w4)
    | (Ok _, w4) =>
        (Ok tt,
         if bool_decide (cr_previousStatus r = Running) || bool_decide (cr_previousStatus r = Pending)
         then publish (SigProcessUsageEvents (cr_orgId r)) w4 else w4)
    end.

(** ** Periodic cleanup *)

Definition HEARTBEAT_TIMEOUT_MS : Z := 2 * 60 * 1000.
Definition DEBUG_HEARTBEAT_TIMEOUT_MS : Z := 60 * 60 * 1000.
Definition PENDING_TIMEOUT_MS : Z := 5 * 60 * 1000.
Definition DEBUG_COMPOSE_PREFIX : jsstr := js "debug-".

Record CleanupCutoffs := { cut_running : Z; cut_debug : Z; cut_pending : Z }.

Definition staleRunCutoff (run : Run) (cutoffs : CleanupCutoffs) : Z :=
  if is_status Pending run then cut_pending cutoffs
  else
    let isDebug := match run_composeName run with
                   | Some n => starts_with n DEBUG_COMPOSE_PREFIX
                   | None => false
                   end in
    if isDebug then cut_debug cutoffs else cut_running cutoffs.

Definition referenceTime (run : Run) : Z := default (run_createdAt run) (run_lastHeartbeatAt run).
Definition isExpiredRun (run : Run) (cutoffs : CleanupCutoffs) : bool :=
  referenceTime run <? staleRunCutoff run cutoffs.

Definition timeoutReason (run : Run) : jsstr :=
  if is_status Pending run then js "Run timed out while pending (never started)"
  else js "Run timed out (no heartbeat)".

(** The transaction of [cleanupSingleRun$]; [run] is the row as it was listed. *)
Definition timeoutRun (now : Z) (id : jsstr) (run : Run) (cutoffs : CleanupCutoffs) (w : World) : bool * World :=
  match update_run id
          (fun r => is_status (run_status run) r && (referenceTime r <? staleRunCutoff run cutoffs))
          (fun r => set_error (Some (timeoutReason run)) (set_completed now (set_status Timeout r))) w with
  | (false, w1) => (false, w1)
  | (true, w1) => (true, delete_job id w1)
  end.

Definition cleanupSingleRun (cap : option Z) (now : Z) (id : jsstr) (run : Run) (cutoffs : CleanupCutoffs)
    (w : World) : bool * World :=
  match timeoutRun now id run cutoffs w with
  | (false, w1) => (false, w1)
  | (true, w1) =>
      (true, dispatchCompleteSideEffects cap now
               {| t_runId := id; t_orgId := run_orgId run; t_status := TFailed;
                  t_error := Some (timeoutReason run) |} w1)
  end.

Definition cleanupExpiredRunnerJobs (now : Z) (w : World) : nat * World :=
  let expired := filter (fun kv => job_expired now kv.2 = true) (runnerJobQueue w) in
  (size expired, with_jobs (filter (fun kv => job_expired now kv.2 = false)) w).

Fixpoint cleanupLoop (cap : option Z) (now : Z) (cutoffs : CleanupCutoffs) (runs : list (jsstr * Run))
    (cleaned : list jsstr) (w : World) : list jsstr * World :=
  match runs with
  | [] => (cleaned, w)
  | (id, run) :: runs' =>
      let '(ok, w1) := cleanupSingleRun cap now id run cutoffs w in
      cleanupLoop cap now cutoffs runs' (if ok then cleaned ++ [id] else cleaned) w1
  end.

Definition cutoffs_at (now : Z) : CleanupCutoffs :=
  {| cut_running := now - HEARTBEAT_TIMEOUT_MS; cut_debug := now - DEBUG_HEARTBEAT_TIMEOUT_MS;
     cut_pending := now - PENDING_TIMEOUT_MS |}.

(** The runs of [cleanupSandboxes$], listed before the queue maintenance; the result
    is the timed out runs. The export jobs are a table of their own. *)
Definition cleanupSandboxes (cap : option Z) (now : Z) (w : World) : result (list jsstr) * World :=
  let cutoffs := cutoffs_at now in
  let staleRuns := filter (fun kv => run_status kv.2 = Pending \/ run_status kv.2 = Running)
                     (map_to_list (agentRuns w)) in
  let expiredRuns := filter (fun kv => isExpiredRun kv.2 cutoffs = true) staleRuns in
  let w1 := (cleanupExpiredQueueEntries now w).2 in
  let w2 := (cleanupExpiredRunnerJobs now w1).2 in
  match drainStaleQueues cap now w2 with
  | (Throw e, w3) => (Throw e, w3)
  | (Ok _, w3) => let '(cleaned, w4) := cleanupLoop cap now cutoffs expiredRuns [] w3 in (Ok cleaned, w4)
  end.

(** ** Sandbox heartbeat *)

Definition heartbeat (now : Z) (id userId : jsstr) (w : World) : bool * World :=
  update_run id (fun r => bool_decide (run_userId r = userId)) (set_heartbeat now) w.

End WithCodec.

(** ** Runs that are taken back or removed

    A queued chat message that another run answered already: the run created for it is
    cancelled, whatever its status, and keeps its queue entry and its job. *)
Definition ALREADY_CLAIMED_ERROR : jsstr := js "Queued message already claimed".

Definition claimed_message (messageId : Z) (content : option jsstr) (runId threadId : jsstr) (id : Z) : ChatMessage :=
  {| msg_id := id; msg_chatThreadId := threadId; msg_role := RoleUser; msg_content := content;
     msg_runId := Some runId; msg_runEventId := None; msg_revokesMessageId := Some messageId |}.

Definition claimQueuedUserMessage (messageId : Z) (content : option jsstr) (runId threadId : jsstr) (w : World) :
    bool * World :=
  if is_revoked (chatMessages w) messageId
  then (false, (update_run runId (fun _ => true)
                  (fun r => set_error (Some ALREADY_CLAIMED_ERROR) (set_status Cancelled r)) w).2)
  else (true, insert_message (claimed_message messageId content runId threadId) w).

(** Accounts that are deleted or banned: two statements and the signals, in no transaction. *)
Definition cancel_run (now : Z) (mine : Run -> bool) (r : Run) : Run :=
  if mine r && isActiveStatus (run_status r) then set_completed now (set_status Cancelled r) else r.

Definition cancel_runs (now : Z) (mine : Run -> bool) : World -> World := with_runs (fmap (cancel_run now mine)).

Definition publishCancelBestEffort (runnerGroup : option jsstr) (runId : jsstr) (w : World) : World :=
  match runnerGroup with
  | Some (c :: g) => publish (SigCancelToRunnerGroup (c :: g) runId) w
  | _ => w
  end.

Definition cancel_and_publish (now : Z) (mine : Run -> bool) (theirs : QueueEntry -> bool) (w : World) : World :=
  let cancelled := filter (fun kv => mine kv.2 && isActiveStatus (run_status kv.2) = true) (map_to_list (agentRuns w)) in
  let w1 := with_queue (fun q => filter (fun e => negb (theirs e) = true) q) (cancel_runs now mine w) in
  foldl (fun w kv => publishCancelBestEffort (run_runnerGroup kv.2) kv.1 w) w1 cancelled.

Definition cancelOrgRuns (now : Z) (orgId : jsstr) : World -> World :=
  cancel_and_publish now (fun r => bool_decide (run_orgId r = orgId)) (fun e => bool_decide (q_orgId e = orgId)).

Definition cancelUserRuns (now : Z) (userId : jsstr) : World -> World :=
  cancel_and_publish now (fun r => bool_decide (run_userId r = userId)) (fun e => bool_decide (q_userId e = userId)).

(** Queue entries and jobs go with their run. *)
Definition delete_runs (gone : jsstr -> Run -> bool) (w : World) : World :=
  let stays id := match agentRuns w !! id with Some r => negb (gone id r) | None => true end in
  with_jobs (fun jobs => filter (fun kv => stays kv.1 = true) jobs)
    (with_queue (fun q => filter (fun e => stays (q_runId e) = true) q)
      (with_runs (fun runs => filter (fun kv => gone kv.1 kv.2 = false) runs) w)).

(** What the deletion of an organization or a user does to runs; [cascaded] are the runs of
    sessions that go with the deleted agents. *)
Definition deleteOrgData (now : Z) (orgId : jsstr) (cascaded : jsstr -> bool) (w : World) : World :=
  delete_runs (fun id _ => cascaded id)
    (delete_runs (fun _ r => bool_decide (run_orgId r = orgId)) (cancelOrgRuns now orgId w)).

Definition deleteUserData (now : Z) (userId : jsstr) (cascaded : jsstr -> bool) (w : World) : World :=
  delete_runs (fun id _ => cascaded id)
    (delete_runs (fun _ r => bool_decide (run_userId r = userId)) (cancelUserRuns now userId w)).

(** The deletion of an agent: refused while one of its runs is pending or running, otherwise
    its runs and those of its sessions go. [ofCompose] and [ofSessions] select them. *)
Definition ACTIVE_RUN_STATUSES : list RunStatus := [Pending; Running].

Definition deleteComposeById (ofCompose ofSessions : jsstr -> bool) (w : World) : bool * World :=
  if existsb (fun kv => ofCompose kv.1 && bool_decide (run_status kv.2 ∈ ACTIVE_RUN_STATUSES)) (map_to_list (agentRuns w))
  then (false, w)
  else (true, delete_runs (fun id _ => ofSessions id) (delete_runs (fun id _ => ofCompose id) w)).

(** ** The step relation

    One step per committed transaction, with arbitrary arguments: a handler that read
    stale rows before its transaction is covered. The label is the run a runner
    claimed, if the step is a successful claim. *)

Definition with_tiers (f : gmap jsstr jsstr -> gmap jsstr jsstr) (w : World) : World :=
  {| agentRuns := agentRuns w; agentRunQueue := agentRunQueue w; runnerJobQueue := runnerJobQueue w;
     orgTiers := f (orgTiers w); chatMessages := chatMessages w; nextId := nextId w; outbox := outbox w |}.

Inductive step : option jsstr -> World -> World -> Prop :=
| step_create cap now id args ctx w res w' :
    insertRunWithConcurrency cap now id args ctx w = (res, w') -> step None w w'
| step_dispatch_heartbeat now id w w' ok :
    update_run id (is_status Pending) (set_heartbeat now) w = (ok, w') -> step None w w'
| step_persist_job now id payload w res w' :
    persistRunnerJob now id payload w = (res, w') -> step None w w'
| step_enqueue now id createdAt userId orgId payload enc w res w' :
    (forall r, agentRuns w !! id = Some r -> run_orgId r = orgId) ->
    persistQueueEntry now id createdAt userId orgId payload enc w = (res, w') -> step None w w'
| step_fail now id message w ok w' :
    markRunFailed now id message w = (ok, w') -> step None w w'
| step_promote cap now orgId row payload w res w' :
    promoteQueuedCandidate cap now orgId row payload w = (res, w') -> step None w w'
| step_expire_queue now w n w' :
    cleanupExpiredQueueEntries now w = (n, w') -> step None w w'
| step_claim now id w t w' :
    transitionClaimedJobToRunning now id w = (Claimed t, w') -> step (Some id) w w'
| step_claim_refused now id w res w' :
    transitionClaimedJobToRunning now id w = (res, w') -> (forall t, res <> Claimed t) -> step None w w'
| step_poison now id message w res w' :
    failPoisonQueuedJob now id message w = (res, w') -> step None w w'
| step_event_sequence id userId n w :
    step None w (persistLastEventSequence id userId n w)
| step_complete id u w ok w' :
    u_status u = Completed \/ u_status u = Failed ->
    transitionRunStatus id u COMPLETABLE w = (ok, w') -> step None w w'
| step_cancel now id userId orgId w res w' :
    cancelRun now id userId orgId w = (res, w') -> step None w w'
| step_timeout now id run cutoffs w ok w' :
    run_status run = Pending \/ run_status run = Running ->
    timeoutRun now id run cutoffs w = (ok, w') -> step None w w'
| step_expire_jobs now w n w' :
    cleanupExpiredRunnerJobs now w = (n, w') -> step None w w'
| step_heartbeat now id userId w ok w' :
    heartbeat now id userId w = (ok, w') -> step None w w'
| step_marker chatThreadId runId w :
    step None w (appendQueuedRunAssistantMarker chatThreadId runId w)
| step_claim_message messageId content runId threadId w ok w' :
    claimQueuedUserMessage messageId content runId threadId w = (ok, w') -> step None w w'
| step_cancel_runs now mine w : step None w (cancel_runs now mine w)
| step_drop_entries (keep : QueueEntry -> bool) w :
    step None w (with_queue (fun q => filter (fun e => keep e = true) q) w)
| step_publish sig w : step None w (publish sig w)
| step_tier f w : step None w (with_tiers f w).

Definition labelled (l : option jsstr) (ls : list jsstr) : list jsstr :=
  match l with Some id => id :: ls | None => ls end.

(** Sequences of such steps. *)
Inductive steps : list jsstr -> World -> World -> Prop :=
| steps_nil w : steps [] w w
| steps_step l ls w w1 w2 : step l w w1 -> steps ls w1 w2 -> steps (labelled l ls) w w2.

(** Sequences of steps and deletions. The keys of runs are random and are not drawn again:
    [gone] collects the runs deleted so far, and no step brings one of them back. *)
Inductive trace_from (gone : gset jsstr) : list jsstr -> World -> World -> Prop :=
| trace_nil w : trace_from gone [] w w
| trace_step l ls w w1 w2 :
    step l w w1 -> (forall id, id ∈ gone -> agentRuns w !! id = None -> agentRuns w1 !! id = None) ->
    trace_from gone ls w1 w2 -> trace_from gone (labelled l ls) w w2
| trace_delete del ls w w2 :
    trace_from (gone ∪ (dom (agentRuns w) ∖ dom (agentRuns (delete_runs del w)))) ls (delete_runs del w) w2 ->
    trace_from gone ls w w2.

Definition trace : list jsstr -> World -> World -> Prop := trace_from ∅.

(** The transitions between two statuses. *)
Definition edge (s s' : RunStatus) : bool :=
  match s, s' with
  | Cancelled, _ => false
  | _, Cancelled => true
  | Queued, (Pending | Timeout | Failed) => true
  | Pending, (Running | Timeout | Completed | Failed) => true
  | Running, (Timeout | Completed | Failed) => true
  | Timeout, (Completed | Failed) => true
  | _, _ => false
  end.

Definition terminal (s : RunStatus) : bool :=
  match s with Completed | Failed | Cancelled => true | _ => false end.

(** What a step may do to one run. *)
Definition evolves (r r' : Run) : Prop :=
  run_orgId r' = run_orgId r /\ run_userId r' = run_userId r /\ run_createdAt r' = run_createdAt r /\
  (run_status r' = run_status r \/ edge (run_status r) (run_status r') = true).

Definition runs_evolve (w w' : World) : Prop :=
  (forall id r, agentRuns w !! id = Some r -> exists r', agentRuns w' !! id = Some r' /\ evolves r r') /\
  (forall id r, agentRuns w !! id = None -> agentRuns w' !! id = Some r ->
     run_status r = Queued \/ run_status r = Pending).

Lemma evolves_refl r : evolves r r.
Proof. by repeat split; left. Qed.

Lemma runs_evolve_same w w' : agentRuns w' = agentRuns w -> runs_evolve w w'.
Proof.
  intros Heq. split; intros id r; rewrite Heq; [|congruence]. intros Hr. exists r. split; [done|].
  apply evolves_refl.
Qed.

Lemma runs_evolve_insert w w' id r r' :
  agentRuns w !! id = Some r -> agentRuns w' = <[id := r']> (agentRuns w) -> evolves r r' -> runs_evolve w w'.
Proof.
  intros Hr Heq Hev. split; intros j x; rewrite Heq.
  - intros Hx. destruct (decide (id = j)) as [<-|Hne].
    + rewrite Hr in Hx. injection Hx as <-. exists r'. by rewrite lookup_insert_eq.
    + exists x. rewrite lookup_insert_ne by done. split; [done|apply evolves_refl].
  - intros Hn. rewrite lookup_insert_ne by congruence. congruence.
Qed.

Lemma update_run_evolve id guard f w ok w' :
  update_run id guard f w = (ok, w') -> (forall r, guard r = true -> evolves r (f r)) -> runs_evolve w w'.
Proof.
  intros Hup Hev. destruct ok.
  - apply update_run_true in Hup as (r & Hr & Hg & ->). by eapply runs_evolve_insert; eauto.
  - apply update_run_false in Hup as ->. by apply runs_evolve_same.
Qed.

(** Deletions after the update do not touch the runs. *)
Lemma runs_evolve_frame w w1 w' : agentRuns w' = agentRuns w1 -> runs_evolve w w1 -> runs_evolve w w'.
Proof. intros Heq [H1 H2]. split; intros id r; rewrite Heq; [apply H1|apply H2]. Qed.

Lemma apply_update_evolves u r :
  u_status u = Completed \/ u_status u = Failed -> run_status r ∈ COMPLETABLE -> evolves r (apply_update u r).
Proof.
  intros Hu Hin. unfold apply_update, set_defined.
  assert (edge (run_status r) (u_status u) = true).
  { unfold COMPLETABLE in Hin. set_unfold in Hin. destruct Hu as [-> | ->], Hin as [->|[->|[->|[]]]]; done. }
  destruct (u_error u), (u_result u), (u_sandboxId u), (u_sandboxReuseResult u); repeat split; by right.
Qed.

Lemma apply_update_status u r :
  run_orgId (apply_update u r) = run_orgId r /\ run_status (apply_update u r) = u_status u.
Proof.
  unfold apply_update, set_defined.
  by destruct (u_error u), (u_result u), (u_sandboxId u), (u_sandboxReuseResult u).
Qed.

(** Close an [evolves] goal of a concrete update under a status guard. *)
Ltac solve_evolves :=
  repeat match goal with
  | H : is_status _ _ = true |- _ => apply bool_decide_eq_true in H
  | H : (_ || _)%bool = true |- _ => apply orb_true_iff in H as [H|H]
  | H : (_ && _)%bool = true |- _ => apply andb_true_iff in H as [H ?]
  end;
  first [ by repeat split; left
        | repeat split; right; cbn;
          repeat match goal with H : run_status _ = _ |- _ => rewrite H; clear H end; reflexivity ].

Lemma persistRunnerJob_cases now id payload w res w' :
  persistRunnerJob now id payload w = (res, w') ->
  w' = w \/ exists r job, agentRuns w !! id = Some r /\ run_status r = Pending /\
    runnerJobQueue w !! id = None /\
    w' = with_runs (<[id := set_runnerGroup (p_runnerGroup payload) r]>) (with_jobs (<[id := job]>) w).
Proof.
  unfold persistRunnerJob, lockRunForDerivedPersistence.
  destruct (agentRuns w !! id) as [r|] eqn:Hr; cbn; [|intros [= _ <-]; by left].
  case_bool_decide as Hp; cbn; [|intros [= _ <-]; by left]. unfold insert_job.
  destruct (runnerJobQueue w !! id) eqn:Hj; [intros [= _ <-]; by left|].
  unfold update_run. cbn. rewrite Hr. unfold is_status. rewrite bool_decide_eq_true_2 by done.
  intros [= _ <-]. right. eexists r, _. split_and!; done.
Qed.

Lemma persistQueueEntry_cases now id createdAt userId orgId payload enc w res w' :
  persistQueueEntry now id createdAt userId orgId payload enc w = (res, w') ->
  w' = w \/ exists r e, agentRuns w !! id = Some r /\ run_status r = Queued /\
    q_runId e = id /\ q_orgId e = orgId /\ q_createdAt e = createdAt /\ q_encryptedParams e = Some enc /\
    (forall x, x ∈ agentRunQueue w -> q_runId x <> id) /\
    w' = with_runs (<[id := set_runnerGroup (p_runnerGroup payload) r]>)
           (with_queue (fun q => q ++ [e]) w).
Proof.
  unfold persistQueueEntry, lockRunForDerivedPersistence.
  destruct (agentRuns w !! id) as [r|] eqn:Hr; cbn; [|intros [= _ <-]; by left].
  case_bool_decide as Hp; cbn; [|intros [= _ <-]; by left]. unfold insert_queue.
  destruct (existsb _ _) eqn:Hex; [intros [= _ <-]; by left|].
  unfold update_run. cbn. rewrite Hr. unfold is_status. rewrite bool_decide_eq_true_2 by done.
  intros [= _ <-]. right. eexists r, _. split_and!; try done. all: try reflexivity.
  intros x Hx. rewrite existsb_false in Hex. apply Hex in Hx. by apply bool_decide_eq_false in Hx.
Qed.

Lemma claim_cases now id w res w' :
  transitionClaimedJobToRunning now id w = (res, w') ->
  (w' = w \/ w' = delete_job id w) /\ (forall t, res <> Claimed t) \/
  exists r job, res = Claimed now /\ agentRuns w !! id = Some r /\ run_status r = Pending /\
    runnerJobQueue w !! id = Some job /\ job_claimedAt job = None /\
    w' = delete_job id (with_runs (<[id := set_heartbeat now (set_started now (set_status Running r))]>) w).
Proof.
  unfold transitionClaimedJobToRunning.
  destruct (agentRuns w !! id) as [r|] eqn:Hr; [|intros [= <- <-]; left; split; [by left|done]].
  unfold is_status. case_bool_decide as Hp; cbn; [|intros [= <- <-]; left; split; [by right|done]].
  destruct (runnerJobQueue w !! id) as [job|] eqn:Hj; [|intros [= <- <-]; left; split; [by left|done]].
  destruct (job_expired now job); [intros [= <- <-]; left; split; [by left|done]|].
  case_bool_decide as Hc; cbn; [|intros [= <- <-]; left; split; [by left|done]].
  unfold update_run. rewrite Hr, bool_decide_eq_true_2 by done. intros [= <- <-]. right. by exists r, job.
Qed.

Lemma poison_cases now id message w res w' :
  failPoisonQueuedJob now id message w = (res, w') ->
  w' = w \/ w' = delete_job id w \/
  exists r, agentRuns w !! id = Some r /\ run_status r = Pending /\
    w' = delete_job id (with_runs
           (<[id := set_error (Some message) (set_completed now (set_status Failed r))]>) w).
Proof.
  unfold failPoisonQueuedJob.
  destruct (agentRuns w !! id) as [r|] eqn:Hr; [|intros [= <- <-]; by left].
  unfold is_status. case_bool_decide as Hp; cbn; [|intros [= <- <-]; right; by left].
  destruct (runnerJobQueue w !! id) as [job|] eqn:Hj; [|intros [= <- <-]; by left].
  destruct (job_expired now job); [intros [= <- <-]; by left|].
  case_bool_decide as Hc; cbn; [|intros [= <- <-]; by left].
  unfold update_run. rewrite Hr, bool_decide_eq_true_2 by done. intros [= <- <-]. right; right. by exists r.
Qed.

Lemma cancel_cases now id userId orgId w res w' :
  cancelRun now id userId orgId w = (res, w') ->
  w' = w \/ exists r, agentRuns w !! id = Some r /\ isActiveStatus (run_status r) = true /\
    w' = delete_job id (delete_queue id (with_runs (<[id := set_completed now (set_status Cancelled r)]>) w)).
Proof.
  unfold cancelRun. destruct (agentRuns w !! id) as [r|] eqn:Hr; [|intros [= <- <-]; by left].
  destruct (negb _); [intros [= <- <-]; by left|].
  destruct (is_status Cancelled r); [intros [= <- <-]; by left|].
  destruct (isActiveStatus (run_status r)) eqn:Ha; cbn; [|intros [= <- <-]; by left].
  unfold update_run. rewrite Hr. unfold is_status. rewrite bool_decide_eq_true_2 by done.
  intros [= <- <-]. right. by exists r.
Qed.

Lemma timeout_cases now id run cutoffs w ok w' :
  timeoutRun now id run cutoffs w = (ok, w') ->
  w' = w \/ exists r, agentRuns w !! id = Some r /\ run_status r = run_status run /\
    w' = delete_job id (with_runs
           (<[id := set_error (Some (timeoutReason run)) (set_completed now (set_status Timeout r))]>) w).
Proof.
  unfold timeoutRun. destruct (update_run _ _ _ w) as [[|] w1] eqn:Hup.
  - apply update_run_true in Hup as (r & Hr & Hg & ->). bool_facts. intros [= <- <-]. right.
    exists r. unfold is_status in *. bool_facts. done.
  - apply update_run_false in Hup as ->. intros [= <- <-]. by left.
Qed.

Lemma markRunFailed_cases now id message w ok w' :
  markRunFailed now id message w = (ok, w') ->
  same_runs_queue_jobs w w' \/
  exists r, agentRuns w !! id = Some r /\ isActiveStatus (run_status r) = true /\
    same_runs_queue_jobs
      (with_runs (<[id := set_completed now (set_error (Some message) (set_status Failed r))]>) w) w'.
Proof.
  unfold markRunFailed. destruct (update_run _ _ _ w) as [[|] w1] eqn:Hup.
  - apply update_run_true in Hup as (r & Hr & Hg & ->). intros [= <- <-]. right. exists r.
    split_and!; [done| |done]. unfold is_status, isActiveStatus, ACTIVE_STATUSES in *.
    apply bool_decide_eq_true. apply orb_true_iff in Hg as [Hg|Hg]; [apply orb_true_iff in Hg as [Hg|Hg]|];
      bool_facts; rewrite Hg; set_solver.
  - apply update_run_false in Hup as ->. intros [= <- <-]. by left.
Qed.

Lemma active_edge s s' :
  isActiveStatus s = true -> s' = Failed \/ s' = Cancelled -> edge s s' = true.
Proof.
  unfold isActiveStatus. intros Ha. apply bool_decide_eq_true in Ha. unfold ACTIVE_STATUSES in Ha.
  set_unfold in Ha. destruct Ha as [->|[->|[->|[]]]]; by intros [-> | ->].
Qed.

Lemma create_cases cap now id args ctx w res w' :
  insertRunWithConcurrency cap now id args ctx w = (res, w') ->
  (w' = w /\ forall s, res <> Ok (inr s)) \/ exists s, (s = Queued \/ s = Pending) /\ res = Ok (inr s) /\ agentRuns w !! id = None /\
    (s = Pending -> checkRunConcurrencyLimit cap now (a_orgId args) w = None) /\
    w' = with_runs (<[id := new_run now args ctx s]>) w.
Proof.
  unfold insertRunWithConcurrency, insert_run.
  destruct (agentRuns w !! id) eqn:Hid, (checkRunConcurrencyLimit _ _ _ _) eqn:Hc;
    destruct (a_queueOnConcurrencyLimit args); intros [= <- <-]; try (by left; split); right.
  1: exists Queued; split_and!; try done; by left.
  all: exists Pending; split_and!; try done; by right.
Qed.

Lemma create_evolve cap now id args ctx w res w' :
  insertRunWithConcurrency cap now id args ctx w = (res, w') -> runs_evolve w w'.
Proof.
  intros [[-> _]|(s & Hst & _ & Hn & _ & ->)]%create_cases; [by apply runs_evolve_same|].
  split; intros j r; cbn.
  - intros Hr. exists r. rewrite lookup_insert_ne by congruence. split; [done|apply evolves_refl].
  - intros Hj. rewrite lookup_insert_Some. intros [[_ <-]|[_ ?]]; [by cbn|congruence].
Qed.

Lemma promote_evolve cap now orgId row payload w res w' :
  promoteQueuedCandidate cap now orgId row payload w = (res, w') -> runs_evolve w w'.
Proof.
  intros Hs%promote_cases. destruct res as [[n m| | |]|e].
  { destruct Hs as (_ & r & Hp). destruct Hp. eapply runs_evolve_insert; [done|done|].
    split_and!; [by destruct payload|by destruct payload|by destruct payload|right].
    rewrite promotes_queued0. by destruct payload. }
  all: destruct Hs as [-> _]; by apply runs_evolve_same.
Qed.

Lemma expire_evolve now w n w' : cleanupExpiredQueueEntries now w = (n, w') -> runs_evolve w w'.
Proof.
  unfold cleanupExpiredQueueEntries. fold (expired_runs now w). intros Hs.
  apply (runs_evolve_frame _ (expired_runs now w)); [by destruct (_ =? 0)%nat; injection Hs as _ <-|].
  split; intros id r; rewrite expired_runs_lookup.
  - intros ->. cbn. eexists. split; [done|]. case_bool_decide; [|apply evolves_refl].
    unfold expire_run. case_bool_decide as Hq; [|apply evolves_refl]. repeat split. right. by rewrite Hq.
  - intros ->. done.
Qed.

Lemma cancelled_evolves r r' :
  run_orgId r' = run_orgId r -> run_userId r' = run_userId r -> run_createdAt r' = run_createdAt r ->
  run_status r' = Cancelled -> evolves r r'.
Proof. intros ? ? ? Hst. split_and!; try done. rewrite Hst. destruct (run_status r); naive_solver. Qed.

Lemma claimMessage_evolve messageId content runId threadId w ok w' :
  claimQueuedUserMessage messageId content runId threadId w = (ok, w') -> runs_evolve w w'.
Proof.
  unfold claimQueuedUserMessage. destruct (is_revoked _ _); intros [= _ <-]; [|by apply runs_evolve_same].
  destruct (update_run _ _ _ w) as [ok' w'] eqn:Hup. eapply update_run_evolve; [exact Hup|]. intros r _.
  by apply cancelled_evolves.
Qed.

Lemma cancel_run_cases now mine r : cancel_run now mine r = r \/
  (isActiveStatus (run_status r) = true /\ cancel_run now mine r = set_completed now (set_status Cancelled r)).
Proof. unfold cancel_run. destruct (mine r), (isActiveStatus (run_status r)); simpl; auto. Qed.

Lemma cancel_runs_evolve now mine w : runs_evolve w (cancel_runs now mine w).
Proof.
  split; intros id r; cbn; rewrite lookup_fmap; [|by intros ->]. intros ->. eexists. split; [done|].
  destruct (cancel_run_cases now mine r) as [->|[_ ->]]; [apply evolves_refl|by apply cancelled_evolves].
Qed.

Lemma step_runs l w w' : step l w w' -> runs_evolve w w'.
Proof.
  destruct 1 as [? ? id ? ? ? ? ? Hs|? ? ? ? ? Hs|? ? ? ? ? ? Hs|? ? ? ? ? ? ? ? ? ? _ Hs|? ? ? ? ? ? Hs
    |cap ? ? row payload ? res ? Hs|? ? ? ? Hs|? ? ? ? ? Hs|? ? ? ? ? Hs _|? ? ? ? ? ? Hs|? ? ? ?|? u ? ? ? Hu Hs
    |? ? ? ? ? ? ? Hs|? ? ? ? ? ? ? Hrs Hs|? ? ? ? Hs|? ? ? ? ? ? Hs|? ? ?|? ? ? ? ? ? ? Hs|? mine ?|? ?|? ?|? ?].
  - by eapply create_evolve.
  - eapply update_run_evolve; [done|]. intros. solve_evolves.
  - apply persistRunnerJob_cases in Hs as [->|(r & job & Hr & _ & _ & ->)]; [by apply runs_evolve_same|].
    eapply runs_evolve_insert; [done|done|solve_evolves].
  - apply persistQueueEntry_cases in Hs as [->|(r & e & Hr & _ & _ & _ & _ & _ & _ & ->)]; [by apply runs_evolve_same|].
    eapply runs_evolve_insert; [done|done|solve_evolves].
  - apply markRunFailed_cases in Hs as [(Heq & _)|(r & Hr & Ha & Heq & _)]; [by apply runs_evolve_same|].
    eapply runs_evolve_insert; [done|exact Heq|]. repeat split. right. apply active_edge; [done|by left].
  - by eapply promote_evolve.
  - by eapply expire_evolve.
  - apply claim_cases in Hs as [[_ Hno]|(r & job & _ & Hr & Hp & _ & _ & ->)]; [by destruct (Hno t)|].
    eapply runs_evolve_insert; [done|done|]. repeat split. right. cbn. by rewrite Hp.
  - apply claim_cases in Hs as [[[-> | ->] _]|(r & job & _ & Hr & Hp & _ & _ & ->)];
      [by apply runs_evolve_same|by apply runs_evolve_same|].
    eapply runs_evolve_insert; [done|done|]. repeat split. right. cbn. by rewrite Hp.
  - apply poison_cases in Hs as [->|[->|(r & Hr & Hp & ->)]]; [by apply runs_evolve_same|by apply runs_evolve_same|].
    eapply runs_evolve_insert; [done|done|]. repeat split. right. cbn. by rewrite Hp.
  - unfold persistLastEventSequence. destruct (update_run _ _ _ w) as [ok w'] eqn:Hup.
    eapply update_run_evolve; [done|]. intros. solve_evolves.
  - eapply update_run_evolve; [exact Hs|]. intros r Hg. apply apply_update_evolves; [done|]. by apply bool_decide_eq_true in Hg.
  - apply cancel_cases in Hs as [->|(r & Hr & Ha & ->)]; [by apply runs_evolve_same|].
    eapply runs_evolve_insert; [done|done|]. repeat split. right. apply active_edge; [done|by right].
  - apply timeout_cases in Hs as [->|(r & Hr & Hst & ->)]; [by apply runs_evolve_same|].
    eapply runs_evolve_insert; [done|done|]. repeat split. right. cbn. rewrite Hst. by destruct Hrs as [-> | ->].
  - injection Hs as _ <-. by apply runs_evolve_same.
  - eapply update_run_evolve; [exact Hs|]. intros. solve_evolves.
  - apply runs_evolve_same. unfold appendQueuedRunAssistantMarker.
    destruct (agentRuns w !! runId); [|done]. by repeat case_match.
  - by eapply claimMessage_evolve.
  - apply cancel_runs_evolve.
  - by apply runs_evolve_same.
  - by apply runs_evolve_same.
  - by apply runs_evolve_same.
Qed.

(** ** Theorems: the status machine *)

Definition rank (s : RunStatus) : nat :=
  match s with Queued => 0 | Pending => 1 | Running => 2 | Timeout => 3 | Completed | Failed => 4 | Cancelled => 5 end.

Lemma edge_rank s s' : edge s s' = true -> (rank s < rank s')%nat.
Proof. destruct s, s'; simpl; try done; lia. Qed.

(** A deletion removes runs and leaves the others as they are. *)
Lemma delete_runs_lookup del w id : agentRuns (delete_runs del w) !! id =
  match agentRuns w !! id with Some r => if del id r then None else Some r | None => None end.
Proof.
  cbn. rewrite map_lookup_filter. destruct (agentRuns w !! id) as [r|]; cbn; [|done].
  destruct (del id r) eqn:E; [by rewrite option_guard_False by (cbn; congruence)|by rewrite option_guard_True].
Qed.

Lemma delete_runs_gone del w id r : agentRuns w !! id = Some r ->
  agentRuns (delete_runs del w) !! id = Some r \/
  (agentRuns (delete_runs del w) !! id = None /\
   id ∈ dom (agentRuns w) ∖ dom (agentRuns (delete_runs del w))).
Proof.
  intros Hr. destruct (agentRuns (delete_runs del w) !! id) eqn:E; pose proof E as E'; rewrite delete_runs_lookup, Hr in E.
  - left. by destruct (del id r).
  - right. split; [done|]. apply elem_of_difference. rewrite elem_of_dom, not_elem_of_dom. by split; [eexists|].
Qed.

Lemma delete_runs_none del w id : agentRuns w !! id = None -> agentRuns (delete_runs del w) !! id = None.
Proof. intros E. by rewrite delete_runs_lookup, E. Qed.

Lemma step_claim_status id w w' :
  step (Some id) w w' ->
  (exists r, agentRuns w !! id = Some r /\ run_status r = Pending) /\
  (exists r, agentRuns w' !! id = Some r /\ run_status r = Running).
Proof.
  inversion 1; subst.
  match goal with H : transitionClaimedJobToRunning _ _ _ = _ |- _ =>
    apply claim_cases in H as [[_ Hno]|(r & job & _ & Hr & Hp & _ & _ & ->)]; [by destruct (Hno t)|] end.
  split; [eauto|]. eexists. cbn. rewrite lookup_insert_eq. done.
Qed.

(** A deleted run does not come back and is not claimed. *)
Lemma trace_gone gone ls w w' id :
  trace_from gone ls w w' -> id ∈ gone -> agentRuns w !! id = None -> agentRuns w' !! id = None /\ id ∉ ls.
Proof.
  induction 1 as [gone w|gone l ls w w1 w2 Hs Hf Ht IH|gone del ls w w2 Ht IH]; intros Hin Hn; [by split; [|set_solver]| |].
  - destruct (IH Hin (Hf id Hin Hn)) as [Hw2 Hls]. split; [done|]. destruct l as [j|]; [|done]. cbn.
    apply not_elem_of_cons. split; [|done]. intros ->. apply step_claim_status in Hs as [(r & Hr & _) _]. congruence.
  - apply IH; [set_solver|by apply delete_runs_none].
Qed.

Definition moved_on (r r' : Run) : Prop :=
  run_orgId r' = run_orgId r /\ run_userId r' = run_userId r /\ run_createdAt r' = run_createdAt r /\
  (run_status r' = run_status r \/ (rank (run_status r) < rank (run_status r'))%nat).

Lemma trace_evolves gone ls w w' id r : trace_from gone ls w w' -> agentRuns w !! id = Some r ->
  match agentRuns w' !! id with Some r' => moved_on r r' | None => True end.
Proof.
  intros Ht; revert r; induction Ht as [gone w|gone l ls w w1 w2 Hs Hf Ht IH|gone del ls w w2 Ht IH]; intros r Hr.
  - rewrite Hr. split_and!; try done. by left.
  - apply step_runs in Hs as [Hev _]. destruct (Hev id r Hr) as (r1 & Hr1 & Ho & Hu & Hc & Hst).
    specialize (IH r1 Hr1). destruct (agentRuns w2 !! id) as [r2|]; [|done].
    destruct IH as (Ho2 & Hu2 & Hc2 & Hst2). split_and!; try congruence.
    destruct Hst as [Heq|He]; [by rewrite <- Heq|]. right. apply edge_rank in He.
    destruct Hst2 as [->|Hlt]; [done|lia].
  - destruct (delete_runs_gone del w id r Hr) as [Hr1|[Hn Hin]]; [by apply IH|].
    destruct (trace_gone _ _ _ _ id Ht) as [-> _]; [set_solver|done|done].
Qed.


Lemma trace_claimed gone ls w w' id r :
  trace_from gone ls w w' -> agentRuns w !! id = Some r -> (2 <= rank (run_status r))%nat -> id ∉ ls.
Proof.
  intros Ht; revert r; induction Ht as [gone w|gone l ls w w1 w2 Hs Hf Ht IH|gone del ls w w2 Ht IH]; intros r Hr Hrank;
    [set_solver| |].
  - assert (id ∉ ls) as Hrest.
    { destruct (step_runs _ _ _ Hs) as [Hev _]. destruct (Hev id r Hr) as (r1 & Hr1 & _ & _ & _ & Hst).
      apply (IH r1 Hr1). destruct Hst as [->|He]; [done|]. apply edge_rank in He. lia. }
    destruct l as [j|]; [|done]. apply not_elem_of_cons. split; [|done]. intros ->.
    apply step_claim_status in Hs as [(r0 & Hr0 & Hp) _]. rewrite Hr in Hr0. injection Hr0 as <-.
    rewrite Hp in Hrank. simpl in Hrank. lia.
  - destruct (delete_runs_gone del w id r Hr) as [Hr1|[Hn Hin]]; [by eapply IH|].
    by destruct (trace_gone _ _ _ _ id Ht) as [_ ?]; [set_solver|done|].
Qed.

(** C18: a run is handed to a runner at most once: in every sequence of transactions
    no two claims of the same run succeed. *)
Theorem claims_exclusive ls w w' : trace ls w w' -> NoDup ls.
Proof.
  unfold trace. induction 1 as [gone w|gone l ls w w1 w2 Hs Hf Ht IH|]; [constructor| |done]. destruct l as [id|]; [|done].
  constructor; [|done]. apply step_claim_status in Hs as [_ (r & Hr & Hrun)].
  eapply trace_claimed; [done|done|]. rewrite Hrun. simpl. lia.
Qed.

(** ** Theorems: the invariant *)

(** A queue entry belongs to a run of its organization that is queued, or that failed or was
    cancelled since; a runner job belongs to a run that is pending, or that ended since. *)
Definition may_wait (s : RunStatus) : bool :=
  match s with Queued | Failed | Cancelled => true | _ => false end.
Definition may_have_job (s : RunStatus) : bool :=
  match s with Pending | Completed | Failed | Cancelled => true | _ => false end.

Record inv (w : World) : Prop := {
  inv_unique : NoDup (q_runId <$> agentRunQueue w);
  inv_queue : forall e, e ∈ agentRunQueue w -> exists r, agentRuns w !! q_runId e = Some r /\
    run_orgId r = q_orgId e /\ may_wait (run_status r) = true;
  inv_jobs : forall id, is_Some (runnerJobQueue w !! id) -> exists r, agentRuns w !! id = Some r /\
    may_have_job (run_status r) = true;
}.

Lemma inv_frame w w' : inv w -> same_runs_queue_jobs w w' -> inv w'.
Proof. intros [I1 I2 I3] (F1 & F2 & F3 & _). split; rewrite ?F1, ?F2, ?F3; done. Qed.

(** Entries and jobs may go, one run may change, and an entry or a job of that run may
    come. *)
Lemma inv_change w w' id r r' :
  inv w -> agentRuns w !! id = Some r -> run_orgId r' = run_orgId r ->
  agentRuns w' = <[id := r']> (agentRuns w) -> NoDup (q_runId <$> agentRunQueue w') ->
  (forall e, e ∈ agentRunQueue w' -> e ∈ agentRunQueue w \/ (q_runId e = id /\ q_orgId e = run_orgId r)) ->
  (forall j, j <> id -> is_Some (runnerJobQueue w' !! j) -> is_Some (runnerJobQueue w !! j)) ->
  (forall e, e ∈ agentRunQueue w' -> q_runId e = id -> may_wait (run_status r') = true) ->
  (is_Some (runnerJobQueue w' !! id) -> may_have_job (run_status r') = true) ->
  inv w'.
Proof.
  intros [I1 I2 I3] Hr Horg Hruns Hnd Hq Hj Hqs Hjs. split; [done| |].
  - intros e He. rewrite Hruns. destruct (decide (q_runId e = id)) as [Hid|Hid].
    + exists r'. rewrite Hid, lookup_insert_eq. split_and!; [done| |by eapply Hqs].
      destruct (Hq e He) as [Hold|[_ Ho]]; [|congruence].
      destruct (I2 e Hold) as (r0 & Hr0 & Ho & _). congruence.
    + rewrite lookup_insert_ne by done. destruct (Hq e He) as [Hold|[? _]]; [by apply I2|done].
  - intros j Hsome. rewrite Hruns. destruct (decide (j = id)) as [->|Hne].
    + exists r'. rewrite lookup_insert_eq. split; [done|by apply Hjs].
    + rewrite lookup_insert_ne by done. apply I3. by apply Hj.
Qed.

Lemma queue_filter_NoDup (P : QueueEntry -> Prop) `{forall e, Decision (P e)} q :
  NoDup (q_runId <$> q) -> NoDup (q_runId <$> filter P q).
Proof. intros Hnd. eapply sublist_NoDup; [exact Hnd|]. apply fmap_sublist, sublist_filter. Qed.

(** Only deletions from the queue and the jobs. *)
Lemma inv_shrink w w' :
  inv w -> agentRuns w' = agentRuns w ->
  (exists P `{forall e, Decision (P e)}, agentRunQueue w' = filter P (agentRunQueue w)) ->
  (forall j, is_Some (runnerJobQueue w' !! j) -> is_Some (runnerJobQueue w !! j)) -> inv w'.
Proof.
  intros [I1 I2 I3] Hruns (P & HP & Hq) Hj. split; rewrite ?Hruns, ?Hq.
  - by apply queue_filter_NoDup.
  - intros e [_ He]%list_elem_of_filter. by apply I2.
  - intros id Hid. by apply I3, Hj.
Qed.

Lemma inv_delete_queue id w : inv w -> inv (delete_queue id w).
Proof. intros Hinv. apply (inv_shrink w); [done|done| |done]. eexists _, _. done. Qed.

Lemma inv_delete_job id w : inv w -> inv (delete_job id w).
Proof.
  intros Hinv. apply (inv_shrink w); [done|done| |].
  - exists (fun _ => True), _. cbn. symmetry. by apply filter_all.
  - intros j. cbn. rewrite lookup_delete_is_Some. tauto.
Qed.

(** A run that changes under [inv] without touching queue and jobs, to a status that
    suits both. *)
Lemma inv_update w id r r' :
  inv w -> agentRuns w !! id = Some r -> run_orgId r' = run_orgId r ->
  run_status r' = run_status r \/ run_status r' = Failed \/ run_status r' = Cancelled \/
    (run_status r' = Completed /\ may_wait (run_status r) = false) ->
  inv (with_runs (<[id := r']>) w).
Proof.
  intros Hinv Hr Horg Hst. pose proof Hinv as [I1 I2 I3].
  eapply (inv_change w _ id r r'); cbn; try done; [by left| |].
  - intros e He Hid. destruct (I2 e He) as (r0 & Hr0 & _ & Hs). rewrite Hid, Hr in Hr0. injection Hr0 as <-.
    destruct Hst as [->|[->|[->|(_ & N)]]]; [done|done|done|congruence].
  - intros Hj. destruct (I3 id Hj) as (r0 & Hr0 & Hs). rewrite Hr in Hr0. injection Hr0 as <-.
    by destruct Hst as [->|[->|[->|(-> & _)]]].
Qed.

(** Runs that are cancelled, or stay, keep their entries and jobs. *)
Lemma inv_cancels w w' :
  inv w -> agentRunQueue w' = agentRunQueue w -> runnerJobQueue w' = runnerJobQueue w ->
  (forall id r, agentRuns w !! id = Some r -> exists r', agentRuns w' !! id = Some r' /\ run_orgId r' = run_orgId r /\
     (run_status r' = run_status r \/ run_status r' = Cancelled)) -> inv w'.
Proof.
  intros [I1 I2 I3] Hq Hj Hr. split; rewrite ?Hq, ?Hj; [done| |].
  - intros e He. destruct (I2 e He) as (r & Hre & Ho & Hs). destruct (Hr _ _ Hre) as (r' & Hr' & Ho' & Hs').
    exists r'. split_and!; [done|congruence|]. by destruct Hs' as [-> | ->].
  - intros id Hid. destruct (I3 id Hid) as (r & Hre & Hs). destruct (Hr _ _ Hre) as (r' & Hr' & _ & Hs').
    exists r'. split; [done|]. by destruct Hs' as [-> | ->].
Qed.

Lemma inv_delete_runs del w : inv w -> inv (delete_runs del w).
Proof.
  intros [I1 I2 I3]. assert (forall id r, agentRuns w !! id = Some r ->
    (match agentRuns w !! id with Some r => negb (del id r) | None => true end) = true ->
    agentRuns (delete_runs del w) !! id = Some r) as Hstay.
  { intros id r Hr. rewrite delete_runs_lookup, Hr. by destruct (del id r). }
  split.
  - cbn. by apply queue_filter_NoDup.
  - intros e. cbn. rewrite list_elem_of_filter. intros [Hs He].
    destruct (I2 e He) as (r & Hr & ? & ?). exists r. split; [|done]. by apply Hstay.
  - intros id [job Hj]. cbn in Hj. apply map_lookup_filter_Some in Hj as [Hj Hs].
    destruct (I3 id) as (r & Hr & ?); [eauto|]. exists r. split; [|done]. by apply Hstay.
Qed.

Lemma inv_no_job w id r :
  inv w -> agentRuns w !! id = Some r -> run_status r = Queued \/ run_status r = Running ->
  runnerJobQueue w !! id = None.
Proof.
  intros [_ _ I3] Hr Hs. destruct (runnerJobQueue w !! id) as [job|] eqn:E; [|done].
  destruct (I3 id) as (r0 & Hr0 & Hs0); [eauto|]. rewrite Hr in Hr0. injection Hr0 as <-.
  by destruct Hs as [Hs|Hs]; rewrite Hs in Hs0.
Qed.

Lemma inv_no_entry w id r :
  inv w -> agentRuns w !! id = Some r -> may_wait (run_status r) = false ->
  forall e, e ∈ agentRunQueue w -> q_runId e <> id.
Proof.
  intros [_ I2 _] Hr Hs1 e He Hid. destruct (I2 e He) as (r0 & Hr0 & _ & Hs).
  rewrite Hid, Hr in Hr0. injection Hr0 as <-. congruence.
Qed.

(** A pending or running run that leaves with its job. *)
Lemma inv_end_with_job w id r r' :
  inv w -> agentRuns w !! id = Some r -> run_orgId r' = run_orgId r ->
  run_status r = Pending \/ run_status r = Running ->
  inv (delete_job id (with_runs (<[id := r']>) w)).
Proof.
  intros Hinv Hr Horg Hs. eapply (inv_change w _ id r r'); cbn; try done; [apply Hinv|by left| | |].
  - intros j Hne. by rewrite lookup_delete_ne.
  - intros e He Hid. destruct (inv_no_entry w id r Hinv Hr) with (e := e); [|done|done].
    by destruct Hs as [-> | ->].
  - rewrite lookup_delete_eq. by intros [? ?].
Qed.

Lemma inv_promote cap now orgId row payload w res w' :
  promoteQueuedCandidate cap now orgId row payload w = (res, w') -> inv w -> inv w'.
Proof.
  intros Hs Hinv. apply promote_cases in Hs. destruct res as [[n m| | |]|e].
  - destruct Hs as (_ & r & [P1 P2 _ P4 P5 _ P7]).
    eapply (inv_change w w' (c_runId row) r (promoted_run now payload r)); try done.
    + by destruct payload.
    + rewrite P5. apply queue_filter_NoDup, Hinv.
    + intros e. rewrite P5, list_elem_of_filter. tauto.
    + intros j Hne. destruct payload; [destruct P7 as (_ & job & -> & _)|by rewrite P7].
      by rewrite lookup_insert_ne.
    + intros e. rewrite P5, list_elem_of_filter. tauto.
    + intros _. by destruct payload.
  - by destruct Hs as [-> _].
  - destruct Hs as [-> _]. by apply inv_delete_queue.
  - by destruct Hs as [-> _].
  - by destruct Hs as [-> _].
Qed.

Lemma inv_expire now w n w' : cleanupExpiredQueueEntries now w = (n, w') -> inv w -> inv w'.
Proof.
  intros Hs Hinv. assert (runnerJobQueue w' = runnerJobQueue w) as Hj.
  { unfold cleanupExpiredQueueEntries in Hs. destruct (_ =? 0)%nat; by injection Hs as _ <-. }
  assert (NoDup (q_runId <$> agentRunQueue w')) as Hnd.
  { unfold cleanupExpiredQueueEntries in Hs. destruct (_ =? 0)%nat; injection Hs as _ <-; cbn;
      [|apply queue_filter_NoDup]; apply Hinv. }
  apply cleanupExpired_cases in Hs as [Hq Hr]. split; [done| |].
  - intros e He. apply Hq in He as [He Hne]. destruct (inv_queue w Hinv e He) as (r & Hr0 & Horg & Hs).
    exists r. destruct (Hr _ _ Hr0) as [_ Hsame]. split; [by apply Hsame; right|done].
  - intros id. rewrite Hj. intros Hid. destruct (inv_jobs w Hinv id Hid) as (r & Hr0 & Hs).
    exists r. destruct (Hr _ _ Hr0) as [_ Hsame]. split; [|done]. apply Hsame. left. by destruct (run_status r).
Qed.

Lemma inv_create cap now id args ctx w res w' :
  insertRunWithConcurrency cap now id args ctx w = (res, w') -> inv w -> inv w'.
Proof.
  intros [[-> _]|(s & _ & _ & Hn & _ & ->)]%create_cases Hinv; [done|].
  destruct Hinv as [I1 I2 I3]. split; cbn; [done| |].
  - intros e He. destruct (I2 e He) as (r & Hr & Hrest). exists r. by rewrite lookup_insert_ne by congruence.
  - intros j Hj. destruct (I3 j Hj) as (r & Hr & Hrest). exists r. by rewrite lookup_insert_ne by congruence.
Qed.

Lemma inv_persist_job now id p w res w' : persistRunnerJob now id p w = (res, w') -> inv w -> inv w'.
Proof.
  intros [->|(r & job & Hr & Hp & _ & ->)]%persistRunnerJob_cases Hinv; [done|].
  eapply (inv_change w _ id r (set_runnerGroup (p_runnerGroup p) r)); cbn; try done; [apply Hinv|by left| | |].
  - intros j Hne. by rewrite lookup_insert_ne.
  - intros e He Hid. destruct (inv_no_entry w id r Hinv Hr) with (e := e); [by rewrite Hp|done|done].
  - intros _. cbn. by rewrite Hp.
Qed.

Lemma inv_enqueue now id createdAt userId orgId p enc w res w' :
  (forall r, agentRuns w !! id = Some r -> run_orgId r = orgId) ->
  persistQueueEntry now id createdAt userId orgId p enc w = (res, w') -> inv w -> inv w'.
Proof.
  intros Horg [->|(r & e0 & Hr & Hq & Hid & Ho & _ & _ & Hfresh & ->)]%persistQueueEntry_cases Hinv; [done|].
  eapply (inv_change w _ id r (set_runnerGroup (p_runnerGroup p) r)); cbn; try done.
  - rewrite fmap_app, NoDup_app. split_and!; [apply Hinv| |apply NoDup_singleton].
    intros x Hx Hy. cbn in Hy. apply list_elem_of_singleton in Hy as ->.
    apply list_elem_of_fmap in Hx as (e & Heq & He). apply (Hfresh e He). congruence.
  - intros e. rewrite elem_of_app, list_elem_of_singleton. intros [?| ->]; [by left|right].
    split; [done|]. by rewrite Ho, (Horg r Hr).
  - intros _ _ _. by rewrite Hq.
  - rewrite (inv_no_job w id r Hinv Hr) by (by left). by intros [? ?].
Qed.

(** An update that keeps the status keeps the invariant. *)
Lemma inv_touch id g f w ok w' :
  (forall r, run_orgId (f r) = run_orgId r /\ run_status (f r) = run_status r) ->
  update_run id g f w = (ok, w') -> inv w -> inv w'.
Proof.
  intros Hf Hs Hinv. destruct ok; [|by apply update_run_false in Hs as ->].
  apply update_run_true in Hs as (r & Hr & _ & ->). destruct (Hf r).
  eapply inv_update; [done|done|done|by left].
Qed.

Lemma inv_complete id u w ok w' :
  u_status u = Completed \/ u_status u = Failed ->
  transitionRunStatus id u COMPLETABLE w = (ok, w') -> inv w -> inv w'.
Proof.
  unfold transitionRunStatus. intros Hu Hs Hinv. destruct ok; [|by apply update_run_false in Hs as ->].
  apply update_run_true in Hs as (r & Hr & Hg & ->). apply bool_decide_eq_true in Hg.
  pose proof (apply_update_status u r) as [Ho Hst].
  eapply inv_update; [done|done|done|]. rewrite Hst. right. destruct Hu as [Hu|Hu]; [do 2 right|by left].
  unfold COMPLETABLE in Hg. set_unfold in Hg. by destruct Hg as [->|[->|[->|[]]]].
Qed.

Lemma inv_cancel now id userId orgId w res w' :
  cancelRun now id userId orgId w = (res, w') -> inv w -> inv w'.
Proof.
  intros [->|(r & Hr & _ & ->)]%cancel_cases Hinv; [done|].
  eapply (inv_change w _ id r (set_completed now (set_status Cancelled r))); cbn; try done.
  - apply queue_filter_NoDup, Hinv.
  - intros e. rewrite list_elem_of_filter. tauto.
  - intros j Hne. by rewrite lookup_delete_ne.
Qed.

Lemma inv_marker chatThreadId runId w : inv w -> inv (appendQueuedRunAssistantMarker chatThreadId runId w).
Proof.
  intros Hinv. eapply inv_frame; [done|]. unfold appendQueuedRunAssistantMarker.
  destruct (agentRuns w !! runId); [|done]. by repeat case_match.
Qed.

Lemma inv_claim_message messageId content runId threadId w ok w' :
  claimQueuedUserMessage messageId content runId threadId w = (ok, w') -> inv w -> inv w'.
Proof.
  unfold claimQueuedUserMessage. intros Hs Hinv. destruct (is_revoked _ _); injection Hs as _ <-; [|by eapply inv_frame].
  destruct (update_run _ _ _ w) as [[|] w'] eqn:Hup; [|by apply update_run_false in Hup as ->].
  apply update_run_true in Hup as (r & Hr & _ & ->). eapply inv_update; [done|done|done|]. right; right; by left.
Qed.

Lemma inv_cancel_runs now mine w : inv w -> inv (cancel_runs now mine w).
Proof.
  intros Hinv. eapply inv_cancels; [done|done|done|]. intros id r Hr. cbn. rewrite lookup_fmap, Hr. eexists. split; [done|].
  destruct (cancel_run_cases now mine r) as [->|[_ ->]]; split; auto.
Qed.

Lemma step_inv l w w' : step l w w' -> inv w -> inv w'.
Proof.
  intros Hstep Hinv. destruct Hstep as [? ? id ? ? ? ? ? Hs|? ? ? ? ? Hs|? id p ? ? ? Hs
    |? id ? ? ? p ? ? ? ? Horg Hs|? id ? ? ? ? Hs
    |? ? ? ? ? ? ? ? Hs|? ? ? ? Hs|? ? ? ? ? Hs|? ? ? ? ? Hs _|? ? ? ? ? ? Hs|? ? ? ?|? u ? ? ? Hu Hs
    |? id ? ? ? ? ? Hs|? ? ? ? ? ? ? Hrs Hs|? ? ? ? Hs|? ? ? ? ? ? Hs|? ? ?|? ? ? ? ? ? ? Hs|? mine ?|? ?|? ?|? ?].
  - by eapply inv_create.
  - by eapply inv_touch; [|exact Hs|].
  - by eapply inv_persist_job.
  - by eapply inv_enqueue.
  - apply markRunFailed_cases in Hs as [Hf|(r & Hr & _ & Hf)]; [by eapply inv_frame|].
    eapply inv_frame; [|done]. eapply inv_update; [done|done|done|right; by left].
  - by eapply inv_promote.
  - by eapply inv_expire.
  - apply claim_cases in Hs as [[_ Hno]|(r & job & _ & Hr & Hp & _ & _ & ->)]; [by destruct (Hno t)|].
    eapply inv_end_with_job; [done|done|done|by left].
  - apply claim_cases in Hs as [[[-> | ->] _]|(r & job & _ & Hr & Hp & _ & _ & ->)];
      [done|by apply inv_delete_job|eapply inv_end_with_job; [done|done|done|by left]].
  - apply poison_cases in Hs as [->|[->|(r & Hr & Hp & ->)]]; [done|by apply inv_delete_job|].
    eapply inv_end_with_job; [done|done|done|by left].
  - unfold persistLastEventSequence. destruct (update_run _ _ _ w) as [ok w'] eqn:Hup.
    by eapply inv_touch; [|exact Hup|].
  - by eapply inv_complete.
  - by eapply inv_cancel.
  - apply timeout_cases in Hs as [->|(r & Hr & Hst & ->)]; [done|].
    eapply inv_end_with_job; [done|done|done|by rewrite Hst].
  - injection Hs as _ <-. apply (inv_shrink w); [done|done| |].
    + exists (fun _ => True), _. cbn. symmetry. by apply filter_all.
    + intros j. cbn. intros [x Hx]. apply map_lookup_filter_Some in Hx as [Hx _]. eauto.
  - by eapply inv_touch; [|exact Hs|].
  - by apply inv_marker.
  - by eapply inv_claim_message.
  - by apply inv_cancel_runs.
  - apply (inv_shrink w); [done|done| |done]. eexists _, _. done.
  - by eapply inv_frame.
  - by destruct Hinv; split.
Qed.

Lemma trace_inv gone ls w w' : trace_from gone ls w w' -> inv w -> inv w'.
Proof. induction 1; intros Hinv; [done| |]; eauto using step_inv, inv_delete_runs. Qed.

(** A database without runs. *)
Definition no_runs (w : World) : Prop :=
  agentRuns w = ∅ /\ agentRunQueue w = [] /\ runnerJobQueue w = ∅.

Lemma no_runs_inv w : no_runs w -> inv w.
Proof.
  intros (H1 & H2 & H3). split; rewrite ?H1, ?H2, ?H3; [constructor|set_solver|].
  intros id [x Hx]. by rewrite lookup_empty in Hx.
Qed.

(** C1: from an empty database, whatever transactions of the API server are committed and in
    whatever order (creation, dispatch, draining, claims, completion, cancellation, cleanup,
    the deletion of accounts and agents, the withdrawal of a run for an answered chat
    message), the queue holds each run at most once, each entry belongs to an existing run
    of its organization that is queued (or failed or was cancelled since), and each runner
    job to an existing run that is pending (or ended since). So a run that is pending,
    running, timed out or completed has no queue entry, and one that is queued, running or
    timed out has no job. *)
Theorem reachable_inv ls w0 w : no_runs w0 -> trace ls w0 w ->
  NoDup (q_runId <$> agentRunQueue w) /\
  (forall e, e ∈ agentRunQueue w -> exists r, agentRuns w !! q_runId e = Some r /\
     run_orgId r = q_orgId e /\ (run_status r = Queued \/ run_status r = Failed \/ run_status r = Cancelled)) /\
  (forall id job, runnerJobQueue w !! id = Some job -> exists r, agentRuns w !! id = Some r /\
     (run_status r = Pending \/ run_status r = Completed \/ run_status r = Failed \/ run_status r = Cancelled)).
Proof.
  intros H0 Ht. destruct (trace_inv _ _ _ _ Ht (no_runs_inv _ H0)) as [I1 I2 I3]. split_and!; [done| |].
  - intros e He. destruct (I2 e He) as (r & Hr & Ho & Hs). exists r. split_and!; [done|done|].
    destruct (run_status r); naive_solver.
  - intros id job Hj. destruct (I3 id) as (r & Hr & Hs); [eauto|]. exists r. split; [done|].
    destruct (run_status r); naive_solver.
Qed.

(** On a reachable state the promotion transaction never fails on the job table's
    key, so every error of a drain comes from the payload. *)
Theorem promoteQueuedCandidate_never_throws cap now orgId row payload w res w' :
  inv w -> promoteQueuedCandidate cap now orgId row payload w = (res, w') -> is_ok res = true.
Proof.
  intros Hinv Hrun. destruct res as [x|e]; [done|]. exfalso.
  apply promote_cases in Hrun as (_ & Hjob & Hst).
  destruct (agentRuns w !! c_runId row) as [r|] eqn:Hr; [|done]. injection Hst as Hst.
  rewrite (inv_no_job w (c_runId row) r Hinv Hr) in Hjob by (by left). by destruct Hjob.
Qed.

(** Cancelling an active run of the caller takes it out of both queues for good: the
    run is cancelled, no queue entry and no job of it is left, a second cancel
    answers success without changing anything, and a runner that still tries to
    claim it is refused. *)
Theorem cancelRun_effective now id userId orgId w r out w' :
  agentRuns w !! id = Some r -> run_userId r = userId -> run_orgId r = orgId ->
  isActiveStatus (run_status r) = true ->
  cancelRun now id userId orgId w = (out, w') ->
  (exists res, out = CancelOk res /\ cr_alreadyCancelled res = false /\ cr_previousStatus res = run_status r) /\
  (exists r', agentRuns w' !! id = Some r' /\ run_status r' = Cancelled) /\
  (forall e, e ∈ agentRunQueue w' -> q_runId e <> id) /\ runnerJobQueue w' !! id = None /\
  (forall later, exists res, cancelRun later id userId orgId w' = (CancelOk res, w') /\
     cr_alreadyCancelled res = true) /\
  (forall later, (transitionClaimedJobToRunning later id w').1 = RunNotFound).
Proof.
  intros Hr Hu Ho Ha. unfold cancelRun at 1. rewrite Hr, !bool_decide_eq_true_2 by done. cbn [andb negb].
  assert (is_status Cancelled r = false) as Hnc.
  { unfold is_status. apply bool_decide_eq_false. intros Heq. by rewrite Heq in Ha. }
  rewrite Hnc, Ha. cbn [negb]. unfold update_run. rewrite Hr. unfold is_status at 1.
  rewrite bool_decide_eq_true_2 by done. intros [= <- <-].
  assert (agentRuns (delete_job id (delete_queue id (with_runs
    (<[id := set_completed now (set_status Cancelled r)]>) w))) !! id =
    Some (set_completed now (set_status Cancelled r))) as Hl by apply lookup_insert_eq.
  split_and!.
  - eexists. split; [done|]. done.
  - eexists. split; [exact Hl|done].
  - intros e. cbn. rewrite list_elem_of_filter. tauto.
  - cbn. apply lookup_delete_eq.
  - intros later. eexists. unfold cancelRun. rewrite Hl. cbn. rewrite !bool_decide_eq_true_2 by done. cbn.
    split; reflexivity.
  - intros later. unfold transitionClaimedJobToRunning. rewrite Hl. reflexivity.
Qed.

(** C38: admission respects the limit and never drops a request silently: a run is
    inserted as pending only while the active runs are below the organization's
    limit (zero is no limit) and afterwards they are at most the limit; at the limit
    the run is queued if the caller allows it, and otherwise the request is refused
    and nothing changes. *)
Theorem insertRunWithConcurrency_limit cap now id args ctx w res w' :
  agentRuns w !! id = None ->
  insertRunWithConcurrency cap now id args ctx w = (res, w') ->
  let limit := getEffectiveConcurrencyLimit cap (orgTier w (a_orgId args)) in
  match res with
  | Ok (inr Pending) => limit = 0 \/
      (activeCount w (a_orgId args) now < limit /\ activeCount w' (a_orgId args) now <= limit)
  | Ok (inr s) => s = Queued /\ a_queueOnConcurrencyLimit args = true /\ limit <> 0 /\
      limit <= activeCount w (a_orgId args) now /\
      agentRuns w' = <[id := new_run now args ctx Queued]> (agentRuns w)
  | Ok (inl e) => e = ConcurrentRunLimit /\ w' = w /\ limit <> 0 /\ limit <= activeCount w (a_orgId args) now
  | Throw _ => False
  end.
Proof.
  intros Hid. unfold insertRunWithConcurrency, insert_run, checkRunConcurrencyLimit. rewrite Hid.
  set (limit := getEffectiveConcurrencyLimit cap (orgTier w (a_orgId args))).
  destruct (Z.eqb_spec limit 0) as [E0|E0]; [intros [= <- <-]; by left|].
  destruct (Z.leb_spec limit (activeCount w (a_orgId args) now)) as [Hle|Hlt].
  - destruct (a_queueOnConcurrencyLimit args); by intros [= <- <-].
  - intros [= <- <-]. right. split; [done|]. unfold activeCount in *. cbn [with_runs agentRuns].
    rewrite count_map_new by done. destruct (is_active _ _ _); lia.
Qed.

(** The outcome a completion handler has on the run [r]. *)
Definition completed_once (id : jsstr) (r : Run) (resp : CompletionResponse) (w' : World) : Prop :=
  exists r', agentRuns w' !! id = Some r' /\
    match resp_sideEffects resp with
    | Some effects => run_status r ∈ COMPLETABLE /\ run_status r' = terminal_run_status (t_status effects) /\
        t_runId effects = id /\ t_orgId effects = run_orgId r
    | None => run_status r' = run_status r
    end.

Lemma transition_cases id u w ok w' r :
  agentRuns w !! id = Some r -> transitionRunStatus id u COMPLETABLE w = (ok, w') ->
  if ok then run_status r ∈ COMPLETABLE /\ w' = with_runs (<[id := apply_update u r]>) w else w' = w.
Proof.
  intros Hr Hup. destruct ok; [|by apply update_run_false in Hup].
  apply update_run_true in Hup as (r0 & Hr0 & Hg & ->). rewrite Hr in Hr0. injection Hr0 as <-.
  by apply bool_decide_eq_true in Hg.
Qed.

(** A transition followed by the response of its branch. *)
Lemma transition_once id u status orgErr sig userId w ok w' r effects :
  agentRuns w !! id = Some r -> transitionRunStatus id u COMPLETABLE w = (ok, w') ->
  u_status u = terminal_run_status status -> t_status effects = status -> t_runId effects = id ->
  t_orgId effects = run_orgId r ->
  completed_once id r
    (if ok then {| resp_body := orgErr; resp_sideEffects := Some effects |}
     else currentStatusResponse id userId w')
    (if ok then publish sig w' else w').
Proof.
  intros Hr Htr Hu He1 He2 He3. apply (transition_cases _ _ _ _ _ r Hr) in Htr. destruct ok.
  - destruct Htr as [Hin ->]. eexists. cbn. rewrite lookup_insert_eq. split; [done|].
    split_and!; [done| |done|done]. by rewrite (proj2 (apply_update_status u r)), Hu, He1.
  - subst w'. by exists r.
Qed.

Lemma handleMissingCheckpoint_once now body userId run w r :
  agentRuns w !! b_runId body = Some r -> run_orgId run = run_orgId r ->
  let '(resp, w') := handleMissingCheckpoint now body userId run w in completed_once (b_runId body) r resp w'.
Proof.
  intros Hr Ho. unfold handleMissingCheckpoint. destruct (transitionRunStatus _ _ _ w) as [ok w1] eqn:Htr.
  pose proof (transition_once _ _ TFailed (inl NotFound)
    (SigRunChanged (run_userId run) (b_runId body) Failed) userId _ _ _ r
    {| t_runId := b_runId body; t_orgId := run_orgId run; t_status := TFailed;
       t_error := Some MISSING_CHECKPOINT_ERROR |} Hr Htr eq_refl eq_refl eq_refl Ho) as Hgoal.
  by destruct ok.
Qed.

Lemma handleSuccessful_once now checkpoints sessions body userId run w r resp w' :
  agentRuns w !! b_runId body = Some r -> run_orgId run = run_orgId r ->
  handleSuccessfulCompletion now checkpoints sessions body userId run w = (Ok resp, w') ->
  completed_once (b_runId body) r resp w'.
Proof.
  intros Hr Ho. unfold handleSuccessfulCompletion. destruct (checkpoints (b_runId body)) as [cp|].
  - destruct (buildRunResult _ _) as [res|e]; [|done].
    destruct (transitionRunStatus _ _ _ w) as [ok w1] eqn:Htr.
    pose proof (transition_once _ _ TCompleted (inr TCompleted)
      (SigRunChanged (run_userId run) (b_runId body) Completed) userId _ _ _ r
      {| t_runId := b_runId body; t_orgId := run_orgId run; t_status := TCompleted; t_error := None |}
      Hr Htr eq_refl eq_refl eq_refl Ho) as Hgoal.
    destruct ok; by intros [= <- <-].
  - pose proof (handleMissingCheckpoint_once now body userId run w r Hr Ho) as Hgoal.
    destruct (handleMissingCheckpoint now body userId run w) as [rs w1]. by intros [= <- <-].
Qed.

Lemma handleFailed_once now body userId run w r :
  agentRuns w !! b_runId body = Some r -> run_orgId run = run_orgId r ->
  let '(resp, w') := handleFailedCompletion now body userId run w in completed_once (b_runId body) r resp w'.
Proof.
  intros Hr Ho. unfold handleFailedCompletion. set (err := match trim <$> b_error body with
    | None | Some [] => _ | Some e => _ end).
  destruct (transitionRunStatus _ _ _ w) as [ok w1] eqn:Htr.
  pose proof (transition_once _ _ TFailed (inr TFailed)
    (SigRunChanged (run_userId run) (b_runId body) Failed) userId _ _ _ r
    {| t_runId := b_runId body; t_orgId := run_orgId run; t_status := TFailed;
       t_error := match Some err with Some [] => None | e => e end |} Hr Htr eq_refl eq_refl eq_refl Ho) as Hgoal.
  by destruct ok.
Qed.

Lemma persistLastEventSequence_run id userId n w r :
  agentRuns w !! id = Some r -> exists r1, agentRuns (persistLastEventSequence id userId n w) !! id = Some r1 /\
    run_status r1 = run_status r /\ run_orgId r1 = run_orgId r.
Proof.
  intros Hr. unfold persistLastEventSequence, update_run. rewrite Hr. case_bool_decide; cbn.
  - eexists. rewrite lookup_insert_eq. done.
  - by exists r.
Qed.

(** Side effects of a completion happen exactly once: the webhook returns side
    effects only when this very call moved the run from pending, running or timed
    out to completed or failed, with the same outcome; otherwise the status of the
    run is left as it was. *)
Theorem completeAgentRun_once now checkpoints sessions userId body w resp w' r :
  agentRuns w !! b_runId body = Some r -> run_userId r = userId ->
  completeAgentRun now checkpoints sessions userId body w = (Ok resp, w') ->
  completed_once (b_runId body) r resp w'.
Proof.
  intros Hr Hu. unfold completeAgentRun. rewrite Hr, bool_decide_eq_true_2 by done. cbn [negb].
  set (w1 := match b_lastEventSequence body with Some n => _ | None => w end).
  assert (exists r1, agentRuns w1 !! b_runId body = Some r1 /\ run_status r1 = run_status r /\
            run_orgId r1 = run_orgId r) as (r1 & Hr1 & Hst & Ho).
  { subst w1. destruct (b_lastEventSequence body); [by apply persistLastEventSequence_run|by exists r]. }
  assert (forall rs w2, completed_once (b_runId body) r1 rs w2 -> completed_once (b_runId body) r rs w2) as Hcast.
  { intros rs w2 (r' & Hr' & Hc). exists r'. split; [done|]. rewrite Hst, Ho in Hc. done. }
  destruct (is_status Completed r); [intros [= <- <-]; apply Hcast; by exists r1|].
  destruct (is_status Failed r); [intros [= <- <-]; apply Hcast; by exists r1|].
  destruct (b_exitCode body =? 0).
  - intros Hrun. apply Hcast. by eapply handleSuccessful_once; [done|symmetry; exact Ho|].
  - pose proof (handleFailed_once now body userId r w1 r1 Hr1 (eq_sym Ho)) as Hgoal.
    destruct (handleFailedCompletion now body userId r w1) as [rs w2]. intros [= <- <-]. by apply Hcast.
Qed.

(** ** Refinement: the handlers are sequences of steps *)

Lemma trace_app ls1 ls2 w w1 w2 : steps ls1 w w1 -> steps ls2 w1 w2 -> steps (ls1 ++ ls2) w w2.
Proof.
  induction 1 as [w|l ls w w1 w3 Hs Ht IH]; intros H2; [done|].
  specialize (IH H2). destruct l; simpl; by eapply (steps_step (Some _)) || by eapply (steps_step None).
Qed.

Lemma trace_none w w' : step None w w' -> steps [] w w'.
Proof. intros Hs. eapply (steps_step None); [done|constructor]. Qed.

Lemma trace_silent w w1 w2 : steps [] w w1 -> steps [] w1 w2 -> steps [] w w2.
Proof. intros H1 H2. exact (trace_app [] [] _ _ _ H1 H2). Qed.

Lemma trace_publish sig w w' : steps [] w w' -> steps [] w (publish sig w').
Proof. intros Ht. eapply trace_silent; [done|]. apply trace_none, step_publish. Qed.

Lemma trace_update id f w guard :
  (forall w' ok, update_run id guard f w = (ok, w') -> step None w w') ->
  steps [] w (update_run id guard f w).2.
Proof. intros Hs. destruct (update_run id guard f w) as [ok w'] eqn:E. by apply trace_none, (Hs w' ok). Qed.

#[local] Hint Resolve steps_nil trace_publish trace_none : store.

Section Handlers.
Context `{PayloadCodec}.

Lemma announce_trace orgId n m w : steps [] w (announce orgId n m w).
Proof. unfold announce. destruct n, m; auto 6 with store. Qed.

Lemma drainLoop_trace cap now orgId rows w : steps [] w (drainLoop cap now orgId rows w).2.
Proof.
  revert w; induction rows as [|row rows IH]; intros w; cbn [drainLoop]; [constructor|].
  destruct (if bool_decide _ then _ else _) as [payload|e]; [|constructor].
  destruct (promoteQueuedCandidate cap now orgId row payload w) as [res w1] eqn:Hp.
  assert (steps [] w w1) as H1 by (eapply trace_none, step_promote; done).
  destruct res as [[n m| | |]|e]; cbn; try done.
  - eapply trace_silent; [done|apply announce_trace].
  - eapply trace_silent; [|apply IH]. by apply trace_publish.
  - by eapply trace_silent.
Qed.

Lemma drain_trace cap now orgId w : steps [] w (drainOrgQueue cap now orgId w).2.
Proof. apply drainLoop_trace. Qed.

Lemma drainStale_trace cap now orgs n w : steps [] w (drainStaleLoop cap now orgs n w).2.
Proof.
  revert n w; induction orgs as [|o orgs IH]; intros n w; cbn [drainStaleLoop]; [constructor|].
  destruct (_ =? 0); [|apply IH]. pose proof (drain_trace cap now o w) as Hd.
  destruct (drainOrgQueue cap now o w) as [[k|e] w1]; [|done]. by eapply trace_silent.
Qed.

Lemma sideEffects_trace cap now input w : steps [] w (dispatchCompleteSideEffects cap now input w).
Proof.
  unfold dispatchCompleteSideEffects. apply trace_publish, trace_publish.
  eapply trace_silent; [|apply drain_trace]. apply trace_publish. constructor.
Qed.

Lemma cancelSideEffects_trace cap now r w : steps [] w (dispatchCancelSideEffects cap now r w).2.
Proof.
  unfold dispatchCancelSideEffects. destruct (cr_alreadyCancelled r); [constructor|].
  match goal with |- context [drainOrgQueue cap now ?o ?x] =>
    pose proof (drain_trace cap now o x) as Hd;
    assert (steps [] w x) as H0 by (repeat apply trace_publish; destruct (cr_previousStatus r);
      try apply steps_nil; destruct (cr_runnerGroup r) as [[|]|]; auto with store);
    destruct (drainOrgQueue cap now o x) as [[n|e] w1]
  end; cbn in *; [|by eapply trace_silent].
  destruct (_ || _); [apply trace_publish|]; by eapply trace_silent.
Qed.

Lemma markRunFailed_trace now id e w : steps [] w (markRunFailed now id e w).2.
Proof. destruct (markRunFailed now id e w) as [ok w'] eqn:E. by eapply trace_none, step_fail. Qed.

Lemma enqueue_trace now id createdAt args ctx w :
  (forall r, agentRuns w !! id = Some r -> run_orgId r = a_orgId args) ->
  steps [] w (enqueueRunForConcurrency now id createdAt args ctx w).2.
Proof.
  intros Horg. unfold enqueueRunForConcurrency. destruct (_ ≫= _) as [[payload enc]|e]; [|constructor].
  destruct (persistQueueEntry _ _ _ _ _ _ _ w) as [res w1] eqn:E.
  assert (steps [] w w1) as H1 by (eapply trace_none, step_enqueue; done).
  destruct res; cbn; [|done]. case_bool_decide; [by apply trace_publish|done].
Qed.

Lemma dispatch_trace now id ctx w : steps [] w (dispatchRun now id ctx w).2.
Proof.
  unfold dispatchRun.
  assert (steps [] w (update_run id (is_status Pending) (set_heartbeat now) w).2) as H0.
  { apply trace_update. intros w' ok E. by eapply step_dispatch_heartbeat. }
  destruct (x_payload ctx) as [payload|e]; [|done].
  destruct (persistRunnerJob now id payload _) as [res w2] eqn:E.
  assert (steps [] w w2) as H1.
  { eapply trace_silent; [done|]. eapply trace_none, step_persist_job. exact E. }
  destruct res; cbn; [|done]. case_bool_decide; [by apply trace_publish|done].
Qed.

Lemma createAgentRun_trace cap now id args context hasCredits w :
  steps [] w (createAgentRun cap now id args context hasCredits w).2.
Proof.
  unfold createAgentRun. destruct (checkOrgRunTier _ _); [constructor|]. destruct context as [ctx|]; [|constructor].
  destruct (_ && _); [constructor|].
  destruct (insertRunWithConcurrency cap now id args ctx w) as [res w1] eqn:Hins.
  assert (steps [] w w1) as H1 by (eapply trace_none, step_create; done).
  destruct res as [[e|s]|e]; [done| |done]. destruct (decide (s = Queued)) as [->|Hs].
  - apply create_cases in Hins. unfold completeQueuedRun.
    assert (forall r, agentRuns w1 !! id = Some r -> run_orgId r = a_orgId args) as Horg.
    { destruct Hins as [[_ Hno]|(s & _ & _ & Hn & _ & ->)]; [by destruct (Hno Queued)|].
      cbn. rewrite lookup_insert_eq. by intros r [= <-]. }
    pose proof (enqueue_trace now id now args ctx w1 Horg) as H2.
    destruct (enqueueRunForConcurrency now id now args ctx w1) as [[d|e] w2]; cbn in *;
      [by eapply trace_silent|]. eapply trace_silent; [done|]. eapply trace_silent; [done|].
    apply markRunFailed_trace.
  - assert (steps [] w1 (completePendingRun cap now id args ctx w1).2) as H2.
    { unfold completePendingRun. pose proof (dispatch_trace now id ctx w1) as Hd.
      destruct (dispatchRun now id ctx w1) as [[d|e] w2]; [done|]. cbn in Hd.
      pose proof (markRunFailed_trace now id e w2) as Hf. destruct (markRunFailed now id e w2) as [[|] w3]; cbn in *.
      - eapply trace_silent; [done|]. eapply trace_silent; [done|]. apply drain_trace.
      - by eapply trace_silent. }
    destruct s; try done; destruct (completePendingRun cap now id args ctx w1) as [r w2];
      cbn in *; by eapply trace_silent.
Qed.

Lemma transition_trace id u w :
  u_status u = Completed \/ u_status u = Failed -> steps [] w (transitionRunStatus id u COMPLETABLE w).2.
Proof.
  intros Hu. destruct (transitionRunStatus id u COMPLETABLE w) as [ok w'] eqn:E.
  by eapply trace_none, step_complete.
Qed.

Lemma handleFailed_trace now body userId run w :
  steps [] w (handleFailedCompletion now body userId run w).2.
Proof.
  unfold handleFailedCompletion.
  match goal with |- context [transitionRunStatus ?i ?u COMPLETABLE w] =>
    pose proof (transition_trace i u w (or_intror eq_refl)) as Ht;
    destruct (transitionRunStatus i u COMPLETABLE w) as [[|] w1] end; cbn in *; [by apply trace_publish|done].
Qed.

Lemma handleMissing_trace now body userId run w :
  steps [] w (handleMissingCheckpoint now body userId run w).2.
Proof.
  unfold handleMissingCheckpoint.
  match goal with |- context [transitionRunStatus ?i ?u COMPLETABLE w] =>
    pose proof (transition_trace i u w (or_intror eq_refl)) as Ht;
    destruct (transitionRunStatus i u COMPLETABLE w) as [[|] w1] end; cbn in *; [by apply trace_publish|done].
Qed.

Lemma handleSuccessful_trace now checkpoints sessions body userId run w :
  steps [] w (handleSuccessfulCompletion now checkpoints sessions body userId run w).2.
Proof.
  unfold handleSuccessfulCompletion. destruct (checkpoints _) as [cp|].
  - destruct (buildRunResult _ _) as [res|e]; [|constructor].
    match goal with |- context [transitionRunStatus ?i ?u COMPLETABLE w] =>
      pose proof (transition_trace i u w (or_introl eq_refl)) as Ht;
      destruct (transitionRunStatus i u COMPLETABLE w) as [[|] w1] end; cbn in *; [by apply trace_publish|done].
  - pose proof (handleMissing_trace now body userId run w) as Hm.
    by destruct (handleMissingCheckpoint now body userId run w) as [r w1].
Qed.

Lemma completeAgentRun_trace now checkpoints sessions userId body w :
  steps [] w (completeAgentRun now checkpoints sessions userId body w).2.
Proof.
  unfold completeAgentRun. destruct (agentRuns w !! b_runId body) as [run|]; [|constructor].
  destruct (negb _); [constructor|].
  set (w1 := match b_lastEventSequence body with Some n => _ | None => w end).
  assert (steps [] w w1) as H1.
  { subst w1. destruct (b_lastEventSequence body); [apply trace_none, step_event_sequence|constructor]. }
  destruct (is_status Completed run); [done|]. destruct (is_status Failed run); [done|].
  destruct (_ =? 0).
  - eapply trace_silent; [done|]. apply handleSuccessful_trace.
  - pose proof (handleFailed_trace now body userId run w1) as Hf.
    destruct (handleFailedCompletion now body userId run w1) as [r w2]. by eapply trace_silent.
Qed.

(** The claim route commits one claim when it hands out the job, and none otherwise. *)
Lemma claim_trace cap now validContext secretValues auth id w :
  let '(res, w') := claim cap now validContext secretValues auth id w in
  steps (match res with Ok (inr _) => [id] | _ => [] end) w w'.
Proof.
  unfold claim. destruct auth as [auth|]; [|constructor].
  destruct (getClaimableJob now id w) as [e|j]; [constructor|].
  destruct (claimAuthorizationError auth j); [constructor|]. destruct (negb _).
  - destruct (failPoisonQueuedJob now id INVALID_EXECUTION_CONTEXT_ERROR w) as [res w1] eqn:E.
    assert (steps [] w w1) as H1 by (eapply trace_none, step_poison; done).
    destruct res; try done. eapply trace_silent; [by apply trace_publish|apply sideEffects_trace].
  - destruct (secretValues _ _ _) as [values|e]; [|constructor].
    destruct (transitionClaimedJobToRunning now id w) as [res w1] eqn:E.
    destruct res as [t| | |]; [|by eapply trace_none, step_claim_refused..].
    apply (trace_app [id] [] _ w1).
    + eapply (steps_step (Some id)); [by eapply step_claim|constructor].
    + apply trace_publish. constructor.
Qed.

Lemma cleanupLoop_trace cap now cutoffs runs cleaned w :
  (forall id run, (id, run) ∈ runs -> run_status run = Pending \/ run_status run = Running) ->
  steps [] w (cleanupLoop cap now cutoffs runs cleaned w).2.
Proof.
  revert cleaned w; induction runs as [|[id run] runs IH]; intros cleaned w Hruns; cbn [cleanupLoop]; [constructor|].
  unfold cleanupSingleRun. destruct (timeoutRun now id run cutoffs w) as [ok w1] eqn:E.
  assert (steps [] w w1) as H1.
  { eapply trace_none, step_timeout; [|done]. apply (Hruns id). set_solver. }
  destruct ok; cbn.
  - eapply trace_silent; [exact H1|]. eapply trace_silent; [apply sideEffects_trace|]. apply IH. set_solver.
  - eapply trace_silent; [exact H1|]. apply IH. set_solver.
Qed.

Lemma cleanupSandboxes_trace cap now w : steps [] w (cleanupSandboxes cap now w).2.
Proof.
  unfold cleanupSandboxes. set (w1 := (cleanupExpiredQueueEntries now w).2).
  set (w2 := (cleanupExpiredRunnerJobs now w1).2).
  assert (steps [] w w2) as H2.
  { apply (trace_silent _ w1); apply trace_none.
    - subst w1. destruct (cleanupExpiredQueueEntries now w) as [n x] eqn:E. by eapply step_expire_queue.
    - subst w2. destruct (cleanupExpiredRunnerJobs now w1) as [n x] eqn:E. by eapply step_expire_jobs. }
  unfold drainStaleQueues. pose proof (drainStale_trace cap now (queue_orgs w2) 0 w2) as H3.
  destruct (drainStaleLoop cap now (queue_orgs w2) 0 w2) as [[n|e] w3]; cbn in *; [|by eapply trace_silent].
  match goal with |- context [cleanupLoop ?a ?b ?c ?rs ?d w3] =>
    pose proof (cleanupLoop_trace a b c rs d w3) as H4; destruct (cleanupLoop a b c rs d w3) as [cleaned w4] end.
  cbn in *. eapply trace_silent; [exact H2|]. eapply trace_silent; [exact H3|]. apply H4.
  intros id run [_ Hin]%list_elem_of_filter. by apply list_elem_of_filter in Hin as [? _].
Qed.

Lemma cancel_publish_trace now mine theirs w : steps [] w (cancel_and_publish now mine theirs w).
Proof.
  unfold cancel_and_publish. set (rows := filter _ (map_to_list (agentRuns w))). clearbody rows.
  set (w1 := with_queue _ _).
  assert (steps [] w w1) as H1.
  { eapply trace_silent; [eapply trace_none, (step_cancel_runs now mine)|]. eapply trace_none.
    apply (step_drop_entries (fun e => negb (theirs e))). }
  clearbody w1. revert w1 H1. induction rows as [|[id r] rows IH]; intros w1 H1; cbn [foldl]; [done|].
  apply IH. unfold publishCancelBestEffort. destruct (run_runnerGroup _) as [[|]|]; auto with store.
Qed.

(** Steps without deletions are a trace, and so are steps that end with deletions. *)
Lemma steps_trace ls w w' : steps ls w w' -> trace ls w w'.
Proof. unfold trace. induction 1; [constructor|]. eapply trace_step; [done|set_solver|done]. Qed.

Lemma steps_delete gone ls w w1 del del' : steps ls w w1 -> (forall id, id ∈ gone -> False) ->
  trace_from gone ls w (delete_runs del' (delete_runs del w1)).
Proof.
  intros Ht Hg. induction Ht as [w|l ls w w1 w2 Hs Ht IH].
  - eapply trace_delete, trace_delete, trace_nil.
  - eapply trace_step; [done| |by apply IH]. intros id Hid. by destruct (Hg id).
Qed.

Lemma deletes_trace w w1 del del' : steps [] w w1 -> trace [] w (delete_runs del' (delete_runs del w1)).
Proof. intros Ht. apply steps_delete; [done|]. set_solver. Qed.

(** C22: every handler of the run lifecycle (creation, draining, claiming, completion
    with its side effects, cancellation with its side effects, periodic cleanup, the
    withdrawal of a run for an answered chat message, the deletion of organizations, users
    and agents) is a sequence of steps of the transaction system, and the claim route
    commits a claim exactly when it hands out the job. *)
Theorem handlers_refine_steps cap now w :
  (forall id args context hasCredits, trace [] w (createAgentRun cap now id args context hasCredits w).2) /\
  (forall orgId, trace [] w (drainOrgQueue cap now orgId w).2) /\
  (forall validContext secretValues auth id, let '(res, w') := claim cap now validContext secretValues auth id w in
     trace (match res with Ok (inr _) => [id] | _ => [] end) w w') /\
  (forall checkpoints sessions userId body,
     trace [] w (completeAgentRun now checkpoints sessions userId body w).2) /\
  (forall input, trace [] w (dispatchCompleteSideEffects cap now input w)) /\
  (forall id userId orgId, trace [] w (cancelRun now id userId orgId w).2) /\
  (forall r, trace [] w (dispatchCancelSideEffects cap now r w).2) /\
  trace [] w (cleanupSandboxes cap now w).2 /\
  (forall messageId content runId threadId, trace [] w (claimQueuedUserMessage messageId content runId threadId w).2) /\
  (forall orgId, trace [] w (cancelOrgRuns now orgId w)) /\ (forall userId, trace [] w (cancelUserRuns now userId w)) /\
  (forall orgId cascaded, trace [] w (deleteOrgData now orgId cascaded w)) /\
  (forall userId cascaded, trace [] w (deleteUserData now userId cascaded w)) /\
  (forall ofCompose ofSessions, trace [] w (deleteComposeById ofCompose ofSessions w).2).
Proof.
  split_and!; intros; try (apply deletes_trace, cancel_publish_trace).
  12: { unfold deleteComposeById. destruct (existsb _ _); cbn; [apply trace_nil|apply deletes_trace, steps_nil]. }
  all: try (apply steps_trace; first [ apply createAgentRun_trace | apply drain_trace | apply completeAgentRun_trace
    | apply sideEffects_trace | apply cancelSideEffects_trace | apply cleanupSandboxes_trace | apply cancel_publish_trace ]).
  - pose proof (claim_trace cap now validContext secretValues auth id w) as Ht.
    destruct (claim _ _ _ _ _ _ _) as [res w']. by apply steps_trace.
  - apply steps_trace. destruct (cancelRun now id userId orgId w) as [res w'] eqn:E. by eapply trace_none, step_cancel.
  - apply steps_trace. destruct (claimQueuedUserMessage messageId content runId threadId w) as [ok w'] eqn:E.
    by eapply trace_none, step_claim_message.
Qed.

End Handlers.

(** ** Witnesses *)

Section Witnesses.

Definition empty_world : World :=
  {| agentRuns := ∅; agentRunQueue := []; runnerJobQueue := ∅; orgTiers := {[js "o" := js "free"]};
     chatMessages := []; nextId := 0; outbox := [] |}.

Definition sample_args : CreateAgentRunArgs :=
  {| a_userId := js "u"; a_orgId := js "o"; a_queueOnConcurrencyLimit := true; a_enforceVm0Credits := false |}.

Definition sample_context : PreparedRunContext :=
  {| x_composeName := None; x_isVm0 := false; x_payload := Ok sample_payload |}.

Definition created : World := (insertRunWithConcurrency None 10 (js "r") sample_args sample_context empty_world).2.
Definition dispatched : World := (persistRunnerJob 11 (js "r") sample_payload created).2.
Definition running : World := (transitionClaimedJobToRunning 12 (js "r") dispatched).2.

(** A run that is created, dispatched and claimed, then withdrawn for an answered message; at
    last its owner is deleted. *)
Definition answered : World := insert_message (claimed_message 7 None (js "other") (js "t")) running.
Definition withdrawn : World := (claimQueuedUserMessage 7 None (js "r") (js "t") answered).2.

Lemma sample_trace : trace [js "r"] empty_world running.
Proof.
  apply steps_trace. apply (steps_step None [js "r"] _ created).
  { eapply step_create. unfold created. apply surjective_pairing. }
  apply (steps_step None [js "r"] _ dispatched).
  { eapply step_persist_job. unfold dispatched. apply surjective_pairing. }
  apply (steps_step (Some (js "r")) [] _ running); [|constructor].
  apply (step_claim 12 _ _ 12). vm_compute. reflexivity.
Defined.

Lemma sample_withdrawn_trace : trace [] running withdrawn.
Proof.
  apply steps_trace. apply (trace_silent _ answered); eapply trace_none.
  - apply (step_claim_message 7 None (js "other") (js "t") _ true). vm_compute. reflexivity.
  - apply (step_claim_message 7 None (js "r") (js "t") _ false). vm_compute. reflexivity.
Defined.


Lemma claims_exclusive_witness : NoDup [js "r"].
Proof. exact (claims_exclusive [js "r"] empty_world running sample_trace). Defined.

(** Queue and jobs after the run is dispatched and its owner deleted. *)
Lemma sample_deleted_trace : trace [] empty_world (deleteUserData 20 (js "u") (fun _ => false) dispatched).
Proof.
  apply deletes_trace. apply (trace_silent _ dispatched); [|apply cancel_publish_trace].
  apply (trace_silent _ created); eapply trace_none.
  - eapply step_create. unfold created. apply surjective_pairing.
  - eapply step_persist_job. unfold dispatched. apply surjective_pairing.
Defined.

Lemma reachable_inv_witness :
  NoDup (q_runId <$> agentRunQueue running) /\
  agentRuns (deleteUserData 20 (js "u") (fun _ => false) dispatched) !! js "r" = None /\
  runnerJobQueue (deleteUserData 20 (js "u") (fun _ => false) dispatched) !! js "r" = None.
Proof.
  assert (no_runs empty_world) as H0 by (split; [reflexivity|split; reflexivity]). split.
  - exact (proj1 (reachable_inv [js "r"] empty_world running H0 sample_trace)).
  - split; [vm_compute; reflexivity|].
    destruct (reachable_inv [] empty_world _ H0 sample_deleted_trace) as (_ & _ & Hj).
    destruct (runnerJobQueue _ !! js "r") as [job|] eqn:E; [|reflexivity].
    destruct (Hj _ _ E) as (r & Hr & _). vm_compute in Hr. discriminate Hr.
Defined.

(** The withdrawal of a run does not look at its status: it ends a run that has ended, and
    leaves the job of a pending one. *)
Lemma withdrawn_unguarded :
  (exists w r, run_status r = Completed /\ agentRuns w !! js "r" = Some r /\
     (run_status <$> agentRuns (claimQueuedUserMessage 7 None (js "r") (js "t") w).2 !! js "r") = Some Cancelled) /\
  (let w := (claimQueuedUserMessage 7 None (js "r") (js "t")
     (insert_message (claimed_message 7 None (js "other") (js "t")) dispatched)).2 in
   (run_status <$> agentRuns w !! js "r") = Some Cancelled /\ is_Some (runnerJobQueue w !! js "r")).
Proof.
  split.
  - exists (with_runs (<[js "r" := set_status Completed (new_run 10 sample_args sample_context Pending)]>) answered), (set_status Completed (new_run 10 sample_args sample_context Pending)).
    split; [reflexivity|]. split; vm_compute; reflexivity.
  - split; vm_compute; [reflexivity|]. eexists. reflexivity.
Qed.

Lemma promoteQueuedCandidate_never_throws_witness :
  exists res w', promoteQueuedCandidate None 10 (js "o") (candidate_of sample_world (sample_entry (js "b") 1))
    (Some sample_payload) sample_world = (res, w') /\ is_ok res = true.
Proof.
  destruct (promoteQueuedCandidate None 10 (js "o") (candidate_of sample_world (sample_entry (js "b") 1))
    (Some sample_payload) sample_world) as [res w'] eqn:E.
  exists res, w'. split; [reflexivity|].
  eapply (promoteQueuedCandidate_never_throws None 10 (js "o")); [|exact E]. split.
  - apply (bool_decide_eq_true_1 _). vm_compute. reflexivity.
  - intros e He. cbn in He.
    repeat (apply elem_of_cons in He as [->|He];
      [eexists; split; [vm_compute; reflexivity|split; reflexivity]|]).
    apply not_elem_of_nil in He. contradiction.
  - intros id [x Hx]. cbn in Hx. rewrite lookup_empty in Hx. discriminate Hx.
Defined.

Lemma cancelRun_effective_witness :
  exists out w', cancelRun 20 (js "r") (js "u") (js "o") running = (out, w') /\
    runnerJobQueue w' !! js "r" = None.
Proof.
  destruct (cancelRun 20 (js "r") (js "u") (js "o") running) as [out w'] eqn:E.
  exists out, w'. split; [reflexivity|].
  eapply (cancelRun_effective 20 (js "r") (js "u") (js "o") running _ out w');
    [vm_compute; reflexivity|reflexivity|reflexivity|reflexivity|exact E].
Defined.

Lemma insertRunWithConcurrency_limit_witness :
  activeCount created (js "o") 10 <= 1.
Proof.
  destruct (insertRunWithConcurrency_limit None 10 (js "r") sample_args sample_context empty_world
    (Ok (inr Pending)) created) as [H0|[_ H1]].
  - vm_compute. reflexivity.
  - vm_compute. reflexivity.
  - vm_compute in H0. discriminate H0.
  - exact H1.
Defined.

Definition failed_body : WebhookCompleteBody :=
  {| b_runId := js "r"; b_exitCode := 1; b_error := Some (js " boom "); b_lastEventSequence := Some 3;
     b_sandboxId := None; b_sandboxReuseResult := None |}.

Lemma completeAgentRun_once_witness :
  exists resp w' r, completeAgentRun 30 (fun _ => None) (fun _ => None) (js "u") failed_body running = (Ok resp, w') /\
    completed_once (js "r") r resp w'.
Proof.
  do 3 eexists. split; [vm_compute; reflexivity|].
  eapply (completeAgentRun_once 30 (fun _ => None) (fun _ => None) (js "u") failed_body running).
  - vm_compute. reflexivity.
  - reflexivity.
  - vm_compute. reflexivity.
Defined.

End Witnesses.

End RunLifecycle.
