(* ===== verification/Runners.v ===== *)
(** Runner heartbeats and job polling (turbo/apps/api/src/signals/routes/runners.ts),
    and the protocol of a runner that polls and claims: what [RunLifecycle.claim] is
    given to claim. *)

From stdpp Require Import relations.
From S2P Require Import Prelude JsString JsValue Templates RunStore RunQueue RunLifecycle.
Import RunStore RunQueue RunLifecycle.

Module Runners.

(** ** Data *)

Record HeldSessionState := { hs_sessionId : jsstr; hs_lastCompletedAt : jsstr }.

Record RunnerState := {
  rs_runnerName : jsstr; rs_runnerGroup : jsstr; rs_profiles : list jsstr;
  rs_totalVcpu : Z; rs_totalMemoryMb : Z; rs_maxConcurrent : Z;
  rs_allocatedVcpu : Z; rs_allocatedMemoryMb : Z; rs_runningCount : Z;
  rs_heldSessionStates : list HeldSessionState; rs_mode : jsstr; rs_lastSeenAt : Z;
}.

(** The table [runner_state], by runner id. *)
Abbreviation RunnerTable := (gmap jsstr RunnerState).

Record HeartbeatBody := {
  hb_runnerId : jsstr; hb_runnerName : jsstr; hb_group : jsstr; hb_profiles : list jsstr;
  hb_totalVcpu : Z; hb_totalMemoryMb : Z; hb_maxConcurrent : Z;
  hb_allocatedVcpu : Z; hb_allocatedMemoryMb : Z; hb_runningCount : Z;
  hb_heldSessionStates : option (list HeldSessionState); hb_mode : jsstr;
}.

Record PollBody := {
  pb_group : jsstr; pb_profiles : option (list jsstr); pb_heldSessionStates : option (list HeldSessionState) }.

Definition STALE_RUNNER_THRESHOLD_MS : Z := 5 * 60 * 1000.

Section Routes.
(** [new Date(s).toISOString()]. *)
Context `{PayloadCodec} (canonical_date : jsstr -> jsstr).

Definition canonicalizeHeldSessionStates (states : option (list HeldSessionState)) :
    option (list HeldSessionState) :=
  match states with
  | None => None
  | Some l => Some ((fun state => {| hs_sessionId := hs_sessionId state;
                                     hs_lastCompletedAt := canonical_date (hs_lastCompletedAt state) |}) <$> l)
  end.

(** ** Heartbeats *)

Definition heartbeat_row (now : Z) (body : HeartbeatBody) : RunnerState :=
  {| rs_runnerName := hb_runnerName body; rs_runnerGroup := hb_group body; rs_profiles := hb_profiles body;
     rs_totalVcpu := hb_totalVcpu body; rs_totalMemoryMb := hb_totalMemoryMb body;
     rs_maxConcurrent := hb_maxConcurrent body; rs_allocatedVcpu := hb_allocatedVcpu body;
     rs_allocatedMemoryMb := hb_allocatedMemoryMb body; rs_runningCount := hb_runningCount body;
     rs_heldSessionStates := default [] (canonicalizeHeldSessionStates (hb_heldSessionStates body));
     rs_mode := hb_mode body; rs_lastSeenAt := now |}.

(** Insert or update the runner's row, then delete the rows that are stale. *)
Definition heartbeat (now : Z) (auth : option RunnerAuthContext) (body : HeartbeatBody) (t : RunnerTable) :
    option HttpError * RunnerTable :=
  match auth with
  | None => (Some Unauthorized, t)
  | Some _ =>
      if negb (isOfficialRunnerGroup (hb_group body)) then (Some BadRequest, t)
      else
        let t1 := <[hb_runnerId body := heartbeat_row now body]> t in
        (None, filter (fun kv => ~ (rs_lastSeenAt kv.2 < now - STALE_RUNNER_THRESHOLD_MS)) t1)
  end.

(** ** Polling *)

Definition heldSessionIds (states : option (list HeldSessionState)) : list jsstr :=
  Templates.set_add_all (hs_sessionId <$> default [] states) [].

(** The WHERE clause, on a job and the run it joins. *)
Definition pollable (now : Z) (auth : RunnerAuthContext) (body : PollBody) (job : RunnerJob) (run : Run) : bool :=
  bool_decide (job_runnerGroup job = pb_group body) && bool_decide (job_claimedAt job = None) &&
  (now <? job_expiresAt job) && is_status Pending run &&
  match auth with OfficialRunner => true | UserRunner userId => bool_decide (run_userId run = userId) end &&
  match pb_profiles body with
  | None | Some [] => true
  | Some profiles => bool_decide (job_profile job ∈ profiles)
  end.

(** The ORDER BY clause: held sessions first, then the oldest. *)
Definition held_rank (held : list jsstr) (job : RunnerJob) : Z :=
  match job_sessionId job with Some s => if bool_decide (s ∈ held) then 0 else 1 | None => 1 end.

Definition job_before (held : list jsstr) (a b : RunnerJob) : bool :=
  match held with
  | [] => job_createdAt a <=? job_createdAt b
  | _ => (held_rank held a <? held_rank held b) ||
         ((held_rank held a =? held_rank held b) && (job_createdAt a <=? job_createdAt b))
  end.

(** LIMIT 1 over the ordered rows; rows that compare equal come in table order. *)
Definition first_job (held : list jsstr) (rows : list (jsstr * RunnerJob)) : option (jsstr * RunnerJob) :=
  foldr (fun row best => match best with
         | Some b => if job_before held row.2 b.2 then Some row else Some b
         | None => Some row end) None rows.

(** The inner join with [agent_runs]. *)
Definition row_pollable (now : Z) (auth : RunnerAuthContext) (body : PollBody) (w : World)
    (row : jsstr * RunnerJob) : bool :=
  match agentRuns w !! row.1 with Some run => pollable now auth body row.2 run | None => false end.

Definition poll_rows (now : Z) (auth : RunnerAuthContext) (body : PollBody) (w : World) : list (jsstr * RunnerJob) :=
  filter (fun row => row_pollable now auth body w row = true) (map_to_list (runnerJobQueue w)).

Definition poll (now : Z) (auth : option RunnerAuthContext) (body : PollBody) (w : World) :
    HttpError + option (jsstr * RunnerJob) :=
  match auth with
  | None => inl Unauthorized
  | Some auth =>
      let heldSessions := heldSessionIds (canonicalizeHeldSessionStates (pb_heldSessionStates body)) in
      if negb (isOfficialRunnerGroup (pb_group body)) then inl Forbidden
      else inr (first_job heldSessions (poll_rows now auth body w))
  end.

(** ** Lemmas: the order *)

Lemma job_before_total held a b : job_before held a b = false -> job_before held b a = true.
Proof.
  unfold job_before. destruct held; intros E; bool_facts; [apply Z.leb_le; lia|].
  rewrite orb_true_iff, andb_true_iff, Z.ltb_lt, Z.eqb_eq, Z.leb_le.
  match goal with H : (_ && _)%bool = false |- _ => apply andb_false_iff in H as [?|?] end; bool_facts; lia.
Qed.

Lemma job_before_trans held a b c :
  job_before held a b = true -> job_before held b c = true -> job_before held a c = true.
Proof.
  unfold job_before. destruct held; rewrite ?orb_true_iff, ?andb_true_iff, ?Z.ltb_lt, ?Z.eqb_eq, ?Z.leb_le; lia.
Qed.

Lemma job_before_refl held a : job_before held a a = true.
Proof. unfold job_before. destruct held; rewrite ?orb_true_iff, ?andb_true_iff, ?Z.ltb_lt, ?Z.eqb_eq, ?Z.leb_le; lia. Qed.

Lemma first_job_None held rows : first_job held rows = None <-> rows = [].
Proof.
  destruct rows as [|x rows]; [done|]. split; [|done]. simpl.
  by destruct (first_job held rows) as [b|]; [destruct (job_before _ _ _)|].
Qed.

Lemma first_job_Some held rows r :
  first_job held rows = Some r -> r ∈ rows /\ forall r', r' ∈ rows -> job_before held r.2 r'.2 = true.
Proof.
  revert r; induction rows as [|x rows IH]; intros r; simpl; [done|].
  destruct (first_job held rows) as [b|] eqn:E.
  - destruct (IH b eq_refl) as [Hb Hmin]. destruct (job_before held x.2 b.2) eqn:Exb; intros [= <-].
    + split; [by left|]. intros r' [->|Hr']%elem_of_cons; [apply job_before_refl|].
      eapply job_before_trans; [exact Exb|by apply Hmin].
    + split; [by right|]. intros r' [->|Hr']%elem_of_cons; [by apply job_before_total|by apply Hmin].
  - intros [= <-]. split; [by left|]. intros r' [->|Hr']%elem_of_cons; [apply job_before_refl|].
    apply first_job_None in E. subst. by apply elem_of_nil in Hr'.
Qed.

Lemma elem_of_poll_rows now auth body w id job :
  (id, job) ∈ poll_rows now auth body w <->
  exists run, agentRuns w !! id = Some run /\ runnerJobQueue w !! id = Some job /\
    pollable now auth body job run = true.
Proof.
  unfold poll_rows, row_pollable. rewrite list_elem_of_filter, elem_of_map_to_list. simpl.
  destruct (agentRuns w !! id) as [run|]; naive_solver.
Qed.

(** ** Theorems *)

(** A heartbeat leaves the runner's own row as reported, the other fresh rows as they
    were, and no stale row. *)
Theorem heartbeat_spec now auth body t id :
  isOfficialRunnerGroup (hb_group body) = true ->
  exists t', heartbeat now (Some auth) body t = (None, t') /\
  t' !! id = if bool_decide (id = hb_runnerId body) then Some (heartbeat_row now body)
             else r ← t !! id; if rs_lastSeenAt r <? now - STALE_RUNNER_THRESHOLD_MS then None else Some r.
Proof.
  intros Hg. unfold heartbeat. rewrite Hg. eexists. split; [reflexivity|]. rewrite map_lookup_filter.
  case_bool_decide as E.
  - subst. rewrite lookup_insert_eq. simpl. rewrite option_guard_True; [done|].
    simpl. unfold STALE_RUNNER_THRESHOLD_MS. lia.
  - rewrite lookup_insert_ne by done. destruct (t !! id) as [r|]; simpl; [|done].
    destruct (rs_lastSeenAt r <? now - STALE_RUNNER_THRESHOLD_MS) eqn:El; bool_facts.
    + by rewrite option_guard_False by (simpl; lia).
    + by rewrite option_guard_True by (simpl; lia).
Qed.

(** What a successful claim leaves. *)
Definition claimed_world (now : Z) (id : jsstr) (run : Run) (w : World) : World :=
  publish (SigRunChanged (run_userId run) id Running)
    (delete_job id (with_runs (<[id := set_heartbeat now (set_started now (set_status Running run))]>) w)).

(** A polled job reaches the checks of its context. *)
Lemma claim_reaches cap now validContext secretValues auth body w id job :
  (id, job) ∈ poll_rows now auth body w -> isOfficialRunnerGroup (pb_group body) = true ->
  exists run, agentRuns w !! id = Some run /\ runnerJobQueue w !! id = Some job /\ run_status run = Pending /\
    job_expired now job = false /\ job_claimedAt job = None /\
    claim cap now validContext secretValues (Some auth) id w =
      if negb (validContext (job_context job)) then
        (Ok (inl BadRequest),
         dispatchCompleteSideEffects cap now
           {| t_runId := id; t_orgId := run_orgId run; t_status := TFailed; t_error := Some INVALID_EXECUTION_CONTEXT_ERROR |}
           (publish (SigRunChanged (run_userId run) id Failed) (delete_job id (with_runs
             (<[id := set_error (Some INVALID_EXECUTION_CONTEXT_ERROR) (set_completed now (set_status Failed run))]>) w))))
      else match secretValues (run_orgId run) (run_userId run) (job_context job) with
           | Throw e => (Throw e, w)
           | Ok values => (Ok (inr {| cl_job := job; cl_secretValues := values |}), claimed_world now id run w)
           end.
Proof.
  intros Hin Hg. apply elem_of_poll_rows in Hin as (run & Hr & Hj & Hp). exists run.
  unfold pollable in Hp. bool_facts.
  assert (job_expired now job = false) as Hexp by (apply Z.leb_gt; lia).
  match goal with H : is_status Pending run = true |- _ => rename H into Hpend end.
  match goal with H : job_claimedAt job = None |- _ => rename H into Hunc end.
  split_and!; try done; [by apply bool_decide_eq_true in Hpend|].
  unfold claim, getClaimableJob. rewrite Hj, Hr, Hexp, (bool_decide_eq_true_2 _ Hunc). cbn [negb andb].
  assert (claimAuthorizationError auth {| cj_job := job; cj_run := run |} = None) as ->.
  { unfold claimAuthorizationError. cbn [cj_job cj_run].
    match goal with H : job_runnerGroup job = _ |- _ => rewrite H end. rewrite Hg.
    destruct auth; [done|]. by bool_facts; case_bool_decide. }
  cbn [cj_job cj_run]. destruct (validContext _); cbn [negb].
  - destruct (secretValues _ _ _); [|done]. unfold transitionClaimedJobToRunning. rewrite Hr, Hj, Hexp, Hpend. cbn [negb].
    rewrite (bool_decide_eq_true_2 _ Hunc). cbn [negb]. unfold update_run. rewrite Hr, Hpend. done.
  - unfold failPoisonQueuedJob. rewrite Hr, Hj, Hexp, Hpend. cbn [negb].
    rewrite (bool_decide_eq_true_2 _ Hunc). cbn [negb]. unfold update_run. rewrite Hr, Hpend. done.
Qed.

(** Draining promotes queued runs and leaves the others, and their jobs. *)
Definition untouched (id : jsstr) (r : Run) (w w' : World) : Prop :=
  agentRuns w !! id = Some r -> agentRuns w' !! id = Some r /\ runnerJobQueue w' !! id = runnerJobQueue w !! id.

Lemma promote_untouched cap now orgId row payload w res w' id r : run_status r <> Queued ->
  promoteQueuedCandidate cap now orgId row payload w = (res, w') -> untouched id r w w'.
Proof.
  intros Hq Hs Hr. apply promote_cases in Hs. destruct res as [[n m| | |]|e].
  - destruct Hs as (_ & r0 & [P1 P2 _ P4 _ _ P7]). assert (c_runId row <> id) as Hne by congruence.
    split; [rewrite P4; by rewrite lookup_insert_ne|]. destruct payload; [|by rewrite P7].
    destruct P7 as (_ & job & -> & _). by rewrite lookup_insert_ne.
  - by destruct Hs as [-> _].
  - by destruct Hs as [-> _].
  - by destruct Hs as [-> _].
  - by destruct Hs as [-> _].
Qed.

Lemma drain_untouched cap now orgId w id r : run_status r <> Queued -> untouched id r w (drainOrgQueue cap now orgId w).2.
Proof.
  intros Hq. unfold drainOrgQueue. match goal with |- context [drainLoop _ _ _ ?l w] => generalize l end. intros rows. revert w.
  induction rows as [|row rows IH]; intros w Hr; cbn [drainLoop]; [done|].
  destruct (if bool_decide _ then _ else _) as [payload|e]; [|done].
  destruct (promoteQueuedCandidate cap now orgId row payload w) as [res w1] eqn:Hp.
  destruct (promote_untouched _ _ _ _ _ _ _ _ id r Hq Hp Hr) as [Hr1 Hj1].
  destruct res as [[n m| | |]|e]; cbn; try done.
  - unfold announce. by destruct n, m.
  - destruct (IH (publish (SigQueueChanged orgId) w1)) as [Hr2 Hj2]; [done|]. by rewrite Hr2, Hj2.
  - destruct (IH w1 Hr1) as [Hr2 Hj2]. by rewrite Hr2, Hj2.
Qed.

(** One claim takes its row out of the rows of the next poll and no other. *)
Lemma poll_rows_claimed now auth body w id job run :
  (id, job) ∈ poll_rows now auth body w -> agentRuns w !! id = Some run ->
  poll_rows now auth body w ≡ₚ (id, job) :: poll_rows now auth body (claimed_world now id run w).
Proof.
  intros Hin Hr. apply elem_of_poll_rows in Hin as Hx. destruct Hx as (run' & Hr' & Hj & Hp).
  rewrite Hr in Hr'. injection Hr' as <-. unfold poll_rows at 1.
  rewrite <- (map_to_list_delete (runnerJobQueue w) id job Hj). rewrite filter_cons_True; [|unfold row_pollable; simpl; by rewrite Hr].
  apply perm_skip. unfold poll_rows. simpl.
  erewrite filter_ext_in; [reflexivity|]. intros [id' job'] Hin'. apply elem_of_map_to_list in Hin'. unfold row_pollable. simpl.
  destruct (decide (id = id')) as [<-|Hne]; [by rewrite lookup_delete_eq in Hin'|]. by rewrite lookup_insert_ne.
Qed.

(** A poll and the claim of the job it returned, which is handed out. *)
Definition round (cap : option Z) (now : Z) (validContext : jsstr -> bool) (secretValues : SecretValues)
    (auth : RunnerAuthContext) (body : PollBody) (w w' : World) : Prop :=
  exists id job values, poll now (Some auth) body w = inr (Some (id, job)) /\
    claim cap now validContext secretValues (Some auth) id w = (Ok (inr {| cl_job := job; cl_secretValues := values |}), w').

(** A job that is handed out when it is claimed. *)
Definition intact (validContext : jsstr -> bool) (secretValues : SecretValues) (run : Run) (job : RunnerJob) : Prop :=
  validContext (job_context job) = true /\ is_ok (secretValues (run_orgId run) (run_userId run) (job_context job)) = true.

Definition all_intact (now : Z) (validContext : jsstr -> bool) (secretValues : SecretValues) (auth : RunnerAuthContext)
    (body : PollBody) (w : World) : Prop :=
  forall id job run, agentRuns w !! id = Some run -> (id, job) ∈ poll_rows now auth body w ->
  intact validContext secretValues run job.

Lemma all_intact_claimed now validContext secretValues auth body w id job run :
  (id, job) ∈ poll_rows now auth body w -> agentRuns w !! id = Some run ->
  all_intact now validContext secretValues auth body w ->
  all_intact now validContext secretValues auth body (claimed_world now id run w).
Proof.
  intros Hin Hr Ha id' job' run' Hr' Hin'. pose proof Hin' as Hx. apply elem_of_poll_rows in Hx as (r0 & _ & Hj0 & _).
  destruct (decide (id = id')) as [<-|Hne]; [cbn in Hj0; by rewrite lookup_delete_eq in Hj0|].
  apply (Ha id'); [cbn in Hr'; by rewrite lookup_insert_ne in Hr'|].
  rewrite (poll_rows_claimed now auth body w id job run Hin Hr). by right.
Qed.

Lemma rounds_drain n cap now validContext secretValues auth body w :
  isOfficialRunnerGroup (pb_group body) = true -> all_intact now validContext secretValues auth body w ->
  length (poll_rows now auth body w) = n ->
  exists w', nsteps (round cap now validContext secretValues auth body) n w w' /\ poll_rows now auth body w' = [] /\
    (forall id run, id ∉ (poll_rows now auth body w).*1 -> agentRuns w !! id = Some run -> agentRuns w' !! id = Some run) /\
    (forall id, id ∈ (poll_rows now auth body w).*1 -> exists run, agentRuns w' !! id = Some run /\ run_status run = Running).
Proof.
  intros Hg. revert w. induction n as [|n IH]; intros w Ha Hn.
  - apply nil_length_inv in Hn. exists w. rewrite Hn. split_and!; [constructor|done|done|set_solver].
  - destruct (first_job (heldSessionIds (canonicalizeHeldSessionStates (pb_heldSessionStates body)))
      (poll_rows now auth body w)) as [[id job]|] eqn:E.
    2: { apply first_job_None in E. rewrite E in Hn. done. }
    apply first_job_Some in E as Hf. destruct Hf as [Hin _].
    destruct (claim_reaches cap now validContext secretValues auth body w id job Hin Hg) as (run & Hr & _ & _ & _ & _ & Hcl).
    destruct (Ha id job run Hr Hin) as [Hv Hs]. rewrite Hv in Hcl. cbn [negb] in Hcl.
    destruct (secretValues _ _ _) as [values|e]; [|done].
    pose proof (poll_rows_claimed now auth body w id job run Hin Hr) as Hperm.
    destruct (IH (claimed_world now id run w)) as (w' & Hst & Hemp & Hkeep & Hrun).
    { by eapply all_intact_claimed. }
    { apply Permutation_length in Hperm. cbn in Hperm. lia. }
    assert (id ∉ (poll_rows now auth body (claimed_world now id run w)).*1) as Hnot.
    { rewrite list_elem_of_fmap. intros ([id' job'] & -> & Hrow).
      apply elem_of_poll_rows in Hrow as (run' & _ & Hj' & _). cbn in Hj'. by rewrite lookup_delete_eq in Hj'. }
    exists w'. split_and!.
    + eapply nsteps_l; [|exact Hst]. exists id, job, values. split; [|done]. unfold poll. rewrite Hg. cbn. by rewrite E.
    + done.
    + intros id' run' Hni Hr'. rewrite Hperm in Hni. cbn in Hni. apply not_elem_of_cons in Hni as [Hne Hni].
      apply Hkeep; [done|]. cbn. by rewrite lookup_insert_ne.
    + intros id'. rewrite Hperm. cbn. intros [->|Hin']%elem_of_cons; [|by apply Hrun].
      exists (set_heartbeat now (set_started now (set_status Running run))). split; [|done].
      apply Hkeep; [done|]. cbn. apply lookup_insert_eq.
Qed.

(** C28: What becomes of the jobs of a runner group. A poll of an official group finds nothing
    exactly when no job may be polled. The claim of the job it found ends one of three ways:
    the stored context is invalid, the job goes and its run fails; the stored secrets cannot
    be decrypted, the request fails and nothing changes, so that the next poll finds the
    same job; or the job is handed out, its run is running and the other jobs stay. So while
    no other request interferes, and if every job that may be polled has a valid context and
    secrets that can be decrypted, as many rounds of polling and claiming as there are such
    jobs hand out all of them. *)
Theorem runner_drains cap now validContext secretValues auth body w :
  isOfficialRunnerGroup (pb_group body) = true ->
  (poll now (Some auth) body w = inr None <->
     forall id job run, runnerJobQueue w !! id = Some job -> agentRuns w !! id = Some run ->
     pollable now auth body job run = false) /\
  (forall id job, poll now (Some auth) body w = inr (Some (id, job)) -> exists run,
     agentRuns w !! id = Some run /\ run_status run = Pending /\
     let '(answer, w') := claim cap now validContext secretValues (Some auth) id w in
     if negb (validContext (job_context job)) then
       answer = Ok (inl BadRequest) /\ runnerJobQueue w' !! id = None /\
       exists run', agentRuns w' !! id = Some run' /\ run_status run' = Failed
     else match secretValues (run_orgId run) (run_userId run) (job_context job) with
     | Throw e => answer = Throw e /\ w' = w
     | Ok values => answer = Ok (inr {| cl_job := job; cl_secretValues := values |}) /\ runnerJobQueue w' !! id = None /\
         (exists run', agentRuns w' !! id = Some run' /\ run_status run' = Running) /\
         poll_rows now auth body w ≡ₚ (id, job) :: poll_rows now auth body w'
     end) /\
  (all_intact now validContext secretValues auth body w -> exists w',
     nsteps (round cap now validContext secretValues auth body) (length (poll_rows now auth body w)) w w' /\
     poll now (Some auth) body w' = inr None /\
     forall id job run, runnerJobQueue w !! id = Some job -> agentRuns w !! id = Some run ->
       pollable now auth body job run = true -> exists run', agentRuns w' !! id = Some run' /\ run_status run' = Running).
Proof.
  intros Hg. unfold poll. rewrite Hg. cbn [negb]. split_and!.
  - split.
    + intros [= E%first_job_None] id job run Hj Hr. destruct (pollable _ _ _ _ _) eqn:Hp; [|done]. exfalso.
      assert ((id, job) ∈ poll_rows now auth body w) as Hin by (apply elem_of_poll_rows; eauto).
      rewrite E in Hin. by apply elem_of_nil in Hin.
    + intros Hn. f_equal. apply first_job_None. destruct (poll_rows now auth body w) as [|[id job] l] eqn:E; [done|]. exfalso.
      assert ((id, job) ∈ poll_rows now auth body w) as Hin by (rewrite E; by left).
      apply elem_of_poll_rows in Hin as (run & Hr & Hj & Hp). rewrite (Hn _ _ _ Hj Hr) in Hp. done.
  - intros id job [= E]. apply first_job_Some in E as [Hin _].
    destruct (claim_reaches cap now validContext secretValues auth body w id job Hin Hg) as (run & Hr & Hj & Hp & _ & _ & ->).
    exists run. split_and!; [done|done|]. destruct (validContext _); cbn [negb].
    + destruct (secretValues _ _ _) as [values|e]; [|done]. split_and!; [done|cbn; apply lookup_delete_eq| |by apply poll_rows_claimed].
      eexists. split; [cbn; apply lookup_insert_eq|done].
    + split; [done|]. unfold dispatchCompleteSideEffects. cbn [agentRuns runnerJobQueue publish].
      match goal with |- context [drainOrgQueue cap now ?o ?w0] =>
        destruct (drain_untouched cap now o w0 id
          (set_error (Some INVALID_EXECUTION_CONTEXT_ERROR) (set_completed now (set_status Failed run)))) as [Hr1 Hj1];
          [done|cbn; apply lookup_insert_eq|] end.
      split; [|eexists; by split]. cbn in Hj1. cbn. rewrite Hj1. apply lookup_delete_eq.
  - intros Ha. destruct (rounds_drain _ cap now validContext secretValues auth body w Hg Ha eq_refl) as (w' & Hst & Hemp & _ & Hrun).
    exists w'. split_and!; [done|by rewrite Hemp|]. intros id job run Hj Hr Hp. apply Hrun.
    apply list_elem_of_fmap. exists (id, job). split; [done|]. apply elem_of_poll_rows. eauto.
Qed.

(** The job a poll returns is one the runner may claim, and no such job is due before
    it: held sessions first, then the oldest. *)
Theorem poll_spec now auth body w id job :
  poll now (Some auth) body w = inr (Some (id, job)) ->
  (id, job) ∈ poll_rows now auth body w /\
  let held := heldSessionIds (canonicalizeHeldSessionStates (pb_heldSessionStates body)) in
  forall id' job', (id', job') ∈ poll_rows now auth body w -> job_before held job job' = true.
Proof.
  unfold poll. destruct (isOfficialRunnerGroup (pb_group body)); cbn [negb]; [|done].
  intros Hp. injection Hp as E. apply first_job_Some in E as [Hin Hmin].
  split; [done|]. intros id' job' Hin'. by apply (Hmin (id', job')).
Qed.

End Routes.

(** ** Witnesses *)

Section Witnesses.

#[local] Existing Instance sample_codec.

Definition sample_poll : PollBody :=
  {| pb_group := job_runnerGroup (default (Build_RunnerJob [] [] None [] 0 None 0 0)
       (runnerJobQueue RunLifecycle.dispatched !! js "r"));
     pb_profiles := None; pb_heldSessionStates := None |}.

Definition sample_secrets : SecretValues := fun _ _ _ => Ok None.

Lemma runner_drains_witness :
  exists w', nsteps (round id None 12 (fun _ => true) sample_secrets OfficialRunner sample_poll) 1 RunLifecycle.dispatched w' /\
    poll id 12 (Some OfficialRunner) sample_poll w' = inr None.
Proof.
  destruct (runner_drains id None 12 (fun _ => true) sample_secrets OfficialRunner sample_poll RunLifecycle.dispatched)
    as (_ & _ & Hd); [vm_compute; reflexivity|].
  destruct Hd as (w' & Hst & Hp & _); [intros ? ? ? _ _; split; reflexivity|].
  exists w'. split; [|exact Hp].
  assert (length (poll_rows 12 OfficialRunner sample_poll RunLifecycle.dispatched) = 1%nat) as Hl by (vm_compute; reflexivity).
  rewrite Hl in Hst. exact Hst.
Defined.

End Witnesses.

End Runners.
