(* ===== verification/Callbacks.v ===== *)
(** Delivery of run callbacks
    (turbo/apps/api/src/signals/services/agent-run-callback.service.ts). *)

From S2P Require Import Prelude JsString JsValue GithubUrl RunStore.
Import RunStore.

Module Callbacks.

(** ** Data *)

Inductive CallbackStatus := CbPending | CbDelivered | CbFailed.

#[export] Instance callback_status_eq_dec : EqDecision CallbackStatus.
Proof. solve_decision. Defined.

(** A row of [agent_run_callbacks]. *)
Record Callback := {
  cb_id : jsstr; cb_runId : jsstr; cb_url : jsstr; cb_encryptedSecret : jsstr; cb_payload : JsVal;
  cb_status : CallbackStatus; cb_attempts : Z; cb_lastAttemptAt : option Z;
  cb_deliveredAt : option Z; cb_lastError : option jsstr;
}.

#[export] Instance callback_eq_dec : EqDecision Callback.
Proof. solve_decision. Defined.

Inductive TerminalCallbackStatus := StCompleted | StFailed.

Record DispatchResult := { dr_callbackId : jsstr; dr_success : bool; dr_error : option jsstr }.

(** The body of a request, before it is printed as JSON. *)
Record CallbackBody := {
  bd_callbackId : jsstr; bd_runId : jsstr; bd_status : TerminalCallbackStatus; bd_result : option JsVal;
  bd_error : option jsstr; bd_payload : JsVal;
}.

(** A request that was sent, with its signature, timestamp and bypass headers. *)
Record Request := {
  rq_url : jsstr; rq_body : CallbackBody; rq_signature : jsstr; rq_timestamp : Z; rq_bypass : option jsstr }.

(** What [fetch] settles to: a rejection with its message, or a response. *)
Inductive FetchOutcome := FetchRejected (message : jsstr) | FetchResponse (status : nat) (statusText : jsstr).

(** [response.ok]. *)
Definition response_ok (status : nat) : bool := (200 <=? status)%nat && (status <=? 299)%nat.

(** The store: the rows in table order and the requests sent so far. *)
Record CallbackWorld := { callbacks : list Callback; requests : list Request }.

Definition update_callback (id : jsstr) (f : Callback -> Callback) (w : CallbackWorld) : CallbackWorld :=
  {| callbacks := (fun c => if bool_decide (cb_id c = id) then f c else c) <$> callbacks w;
     requests := requests w |}.

Definition set_attempt (now : Z) (c : Callback) : Callback :=
  {| cb_id := cb_id c; cb_runId := cb_runId c; cb_url := cb_url c; cb_encryptedSecret := cb_encryptedSecret c;
     cb_payload := cb_payload c; cb_status := cb_status c; cb_attempts := 1; cb_lastAttemptAt := Some now;
     cb_deliveredAt := cb_deliveredAt c; cb_lastError := cb_lastError c |}.

Definition set_delivered (now : Z) (c : Callback) : Callback :=
  {| cb_id := cb_id c; cb_runId := cb_runId c; cb_url := cb_url c; cb_encryptedSecret := cb_encryptedSecret c;
     cb_payload := cb_payload c; cb_status := CbDelivered; cb_attempts := cb_attempts c;
     cb_lastAttemptAt := cb_lastAttemptAt c; cb_deliveredAt := Some now; cb_lastError := cb_lastError c |}.

Definition set_failed (error : jsstr) (c : Callback) : Callback :=
  {| cb_id := cb_id c; cb_runId := cb_runId c; cb_url := cb_url c; cb_encryptedSecret := cb_encryptedSecret c;
     cb_payload := cb_payload c; cb_status := CbFailed; cb_attempts := cb_attempts c;
     cb_lastAttemptAt := cb_lastAttemptAt c; cb_deliveredAt := cb_deliveredAt c; cb_lastError := Some error |}.

(** ** Operations *)

(** [/^https:\/\/tunnel-[^/]+/] replaced in development. *)
Definition resolveCallbackUrl (development : bool) (url : jsstr) : jsstr :=
  let prefix := js "https://tunnel-" in
  if development && starts_with url prefix then
    let '(host, rest) := GithubUrl.until_slash (drop (length prefix) url) in
    if bool_decide (host = []) then url else js "http://localhost:3000" ++ rest
  else url.

Section Dispatch.
(** Decryption of a callback secret ([None] when it throws), the HMAC of a printed body,
    the settled [fetch] of a request, the clock, and two environment variables. *)
Context (development : bool) (bypass : option jsstr) (decrypt : jsstr -> option jsstr)
  (computeHmacSignature : CallbackBody -> jsstr -> Z -> jsstr) (fetch : Request -> FetchOutcome) (now : Z).

Definition markCallbackFailed (id error : jsstr) : CallbackWorld -> CallbackWorld :=
  update_callback id (set_failed error).

Definition send (r : Request) (w : CallbackWorld) : CallbackWorld :=
  {| callbacks := callbacks w; requests := requests w ++ [r] |}.

Definition dispatchSingleCallback (c : Callback) (runId : jsstr) (status : TerminalCallbackStatus)
    (res : option JsVal) (error : option jsstr) (w : CallbackWorld) : result DispatchResult * CallbackWorld :=
  match decrypt (cb_encryptedSecret c) with
  | None => (Throw (js "decryption failed"), w)
  | Some secret =>
      let w1 := update_callback (cb_id c) (set_attempt now) w in
      let body := {| bd_callbackId := cb_id c; bd_runId := runId; bd_status := status; bd_result := res;
                     bd_error := error; bd_payload := cb_payload c |} in
      let timestamp := now / 1000 in
      let r := {| rq_url := resolveCallbackUrl development (cb_url c); rq_body := body;
                  rq_signature := computeHmacSignature body secret timestamp; rq_timestamp := timestamp;
                  rq_bypass := match bypass with Some [] => None | b => b end |} in
      let w2 := send r w1 in
      match fetch r with
      | FetchRejected message =>
          (Ok {| dr_callbackId := cb_id c; dr_success := false; dr_error := Some message |},
           markCallbackFailed (cb_id c) message w2)
      | FetchResponse code text =>
          if response_ok code then
            (Ok {| dr_callbackId := cb_id c; dr_success := true; dr_error := None |},
             update_callback (cb_id c) (set_delivered now) w2)
          else
            let message := js "HTTP " ++ js_of_nat code ++ js ": " ++ text in
            (Ok {| dr_callbackId := cb_id c; dr_success := false; dr_error := Some message |},
             markCallbackFailed (cb_id c) message w2)
      end
  end.

Fixpoint dispatch_all (cs : list Callback) (runId : jsstr) (status : TerminalCallbackStatus)
    (res : option JsVal) (error : option jsstr)
    (results : list DispatchResult) (w : CallbackWorld) : result (list DispatchResult) * CallbackWorld :=
  match cs with
  | [] => (Ok results, w)
  | c :: cs' =>
      match dispatchSingleCallback c runId status res error w with
      | (Throw e, w1) => (Throw e, w1)
      | (Ok r, w1) => dispatch_all cs' runId status res error (results ++ [r]) w1
      end
  end.

(** The callbacks of the run that were not delivered. *)
Definition undelivered (runId : jsstr) (w : CallbackWorld) : list Callback :=
  filter (fun c => cb_runId c = runId /\ (cb_status c = CbPending \/ cb_status c = CbFailed)) (callbacks w).

(** [runs]: the table the run is looked up in. *)
Definition dispatchRunCallbacks (runs : gmap jsstr Run) (runId : jsstr) (status : TerminalCallbackStatus)
    (res : option JsVal) (error : option jsstr) (w : CallbackWorld) : result (list DispatchResult) * CallbackWorld :=
  match runs !! runId with
  | None => (Ok [], w)
  | Some _ => dispatch_all (undelivered runId w) runId status res error [] w
  end.

(** ** Theorems *)

(** The request, the result and the row of one delivery. *)
Definition request_of (runId : jsstr) (status : TerminalCallbackStatus) (res : option JsVal)
    (error : option jsstr) (c : Callback) : Request :=
  let body := {| bd_callbackId := cb_id c; bd_runId := runId; bd_status := status; bd_result := res;
                 bd_error := error; bd_payload := cb_payload c |} in
  {| rq_url := resolveCallbackUrl development (cb_url c); rq_body := body;
     rq_signature := computeHmacSignature body (default [] (decrypt (cb_encryptedSecret c))) (now / 1000);
     rq_timestamp := now / 1000; rq_bypass := match bypass with Some [] => None | b => b end |}.

(** The error of a delivery, if it failed. *)
Definition delivery_error (r : Request) : option jsstr :=
  match fetch r with
  | FetchRejected message => Some message
  | FetchResponse code text =>
      if response_ok code then None else Some (js "HTTP " ++ js_of_nat code ++ js ": " ++ text)
  end.

Definition result_of runId status res error (c : Callback) : DispatchResult :=
  let e := delivery_error (request_of runId status res error c) in
  {| dr_callbackId := cb_id c; dr_success := bool_decide (e = None); dr_error := e |}.

Definition after runId status res error (c : Callback) : Callback :=
  match delivery_error (request_of runId status res error c) with
  | None => set_delivered now (set_attempt now c)
  | Some e => set_failed e (set_attempt now c)
  end.

Lemma fmap_update_row (f : Callback -> Callback) (l : list Callback) c :
  NoDup (cb_id <$> l) -> c ∈ l ->
  (fun x => if bool_decide (cb_id x = cb_id c) then f x else x) <$> l =
  (fun x => if bool_decide (cb_id x = cb_id c) then f c else x) <$> l.
Proof.
  intros Hnd Hc. apply list_fmap_ext. intros i x Hi. case_bool_decide as E; [|done]. f_equal.
  apply list_elem_of_lookup in Hc as [j Hj].
  assert (i = j) as ->; [|congruence]. eapply NoDup_lookup; [exact Hnd| |]; rewrite list_lookup_fmap.
  - by rewrite Hi.
  - rewrite Hj. simpl. by rewrite E.
Qed.

Lemma update_update id f g w : (forall c, cb_id (f c) = cb_id c) ->
  update_callback id g (update_callback id f w) = update_callback id (g ∘ f) w.
Proof.
  intros Hf. unfold update_callback. simpl. f_equal. rewrite <- list_fmap_compose. apply list_fmap_ext.
  intros i x _. simpl. destruct (bool_decide_reflect (cb_id x = id)) as [E|E].
  - by rewrite bool_decide_eq_true_2 by (by rewrite Hf).
  - by rewrite bool_decide_eq_false_2.
Qed.

Lemma dispatchSingle_spec c runId status res error w :
  is_Some (decrypt (cb_encryptedSecret c)) -> NoDup (cb_id <$> callbacks w) -> c ∈ callbacks w ->
  dispatchSingleCallback c runId status res error w =
  (Ok (result_of runId status res error c),
   {| callbacks := (fun x => if bool_decide (cb_id x = cb_id c) then after runId status res error c else x)
                     <$> callbacks w;
      requests := requests w ++ [request_of runId status res error c] |}).
Proof.
  intros [secret Hs] Hnd Hc. unfold dispatchSingleCallback. rewrite Hs.
  set (r := {| rq_url := _; rq_body := _; rq_signature := _; rq_timestamp := _; rq_bypass := _ |}).
  assert (request_of runId status res error c = r) as Hreq by (unfold request_of; by rewrite Hs).
  assert (forall g, update_callback (cb_id c) g (send r (update_callback (cb_id c) (set_attempt now) w)) =
    {| callbacks := (fun x => if bool_decide (cb_id x = cb_id c) then g (set_attempt now c) else x) <$> callbacks w;
       requests := requests w ++ [r] |}) as Hup.
  { intros g. rewrite <- (fmap_update_row (g ∘ set_attempt now)) by done.
    transitivity (send r (update_callback (cb_id c) g (update_callback (cb_id c) (set_attempt now) w)));
      [done|]. by rewrite update_update. }
  unfold result_of, after, delivery_error. rewrite Hreq. unfold markCallbackFailed.
  destruct (fetch r) as [message|code text]; [by rewrite Hup|]. destruct (response_ok code); by rewrite Hup.
Qed.

Lemma after_id runId status res error c : cb_id (after runId status res error c) = cb_id c.
Proof. unfold after. by destruct (delivery_error _). Qed.

Lemma dispatch_all_spec cs runId status res error rs w :
  NoDup (cb_id <$> callbacks w) -> NoDup (cb_id <$> cs) ->
  (forall c, c ∈ cs -> c ∈ callbacks w /\ is_Some (decrypt (cb_encryptedSecret c))) ->
  dispatch_all cs runId status res error rs w =
  (Ok (rs ++ (result_of runId status res error <$> cs)),
   {| callbacks := (fun x => if bool_decide (cb_id x ∈ cb_id <$> cs) then after runId status res error x else x)
                     <$> callbacks w;
      requests := requests w ++ (request_of runId status res error <$> cs) |}).
Proof.
  revert rs w; induction cs as [|c cs IH]; intros rs w Hnd Hcs Hin; cbn [dispatch_all].
  - csimpl. rewrite !app_nil_r. f_equal. destruct w as [l q]. simpl. f_equal.
    rewrite <- (list_fmap_id l) at 1. by apply list_fmap_ext.
  - apply NoDup_cons in Hcs as [Hc Hcs]. destruct (Hin c) as [Hcw Hdec]; [by left|].
    rewrite dispatchSingle_spec by done. rewrite IH; cbn [callbacks requests]; [|  |done|].
    + csimpl. rewrite <- !app_assoc. f_equal. f_equal. rewrite <- list_fmap_compose. apply list_fmap_ext.
      intros i x Hx. simpl. destruct (bool_decide_reflect (cb_id x = cb_id c)) as [E|E].
      * rewrite (bool_decide_eq_false_2 (cb_id (after runId status res error c) ∈ _)) by (by rewrite after_id).
        rewrite bool_decide_eq_true_2 by (rewrite E; by left). f_equal.
        apply list_elem_of_lookup in Hcw as [j Hj]. assert (i = j) as ->; [|congruence].
        eapply NoDup_lookup; [exact Hnd| |]; rewrite list_lookup_fmap; [by rewrite Hx|].
        rewrite Hj. simpl. by rewrite E.
      * apply (f_equal (fun b : bool => if b then after runId status res error x else x)).
        apply bool_decide_ext. set_solver.
    + rewrite <- list_fmap_compose. erewrite list_fmap_ext; [exact Hnd|]. intros i x _. simpl.
      case_bool_decide as E; [|done]. by rewrite after_id.
    + intros c' Hc'. destruct (Hin c') as [Hw' Hd']; [by right|]. split; [|done].
      apply list_elem_of_fmap. exists c'. split; [|done]. rewrite bool_decide_eq_false_2; [done|].
      intros E. apply Hc. rewrite <- E. by apply list_elem_of_fmap_2.
Qed.

(** A dispatch sends one request for every undelivered callback of the run and none for
    any other, returns their results, marks each row delivered or failed by its
    response, and touches no other row; so a delivered callback is never sent
    again, and after a dispatch in which every response is a success nothing is
    left to send. *)
Theorem dispatchRunCallbacks_spec runs runId status res error w :
  is_Some (runs !! runId) -> NoDup (cb_id <$> callbacks w) ->
  (forall c, c ∈ undelivered runId w -> is_Some (decrypt (cb_encryptedSecret c))) ->
  exists rs w', dispatchRunCallbacks runs runId status res error w = (Ok rs, w') /\
    requests w' = requests w ++ (request_of runId status res error <$> undelivered runId w) /\
    rs = (result_of runId status res error <$> undelivered runId w) /\
    (forall i c, callbacks w !! i = Some c ->
       callbacks w' !! i = Some (if bool_decide (c ∈ undelivered runId w)
                                 then after runId status res error c else c)) /\
    (forall c, c ∈ undelivered runId w' <->
       exists c0 e, c0 ∈ undelivered runId w /\ delivery_error (request_of runId status res error c0) = Some e /\
         c = set_failed e (set_attempt now c0)).
Proof.
  intros [run Hrun] Hnd Hdec. unfold dispatchRunCallbacks. rewrite Hrun.
  assert (NoDup (cb_id <$> undelivered runId w)) as Hnu
    by (eapply sublist_NoDup; [exact Hnd|]; apply fmap_sublist, sublist_filter).
  rewrite dispatch_all_spec; [|done|done|].
  2: { intros c Hc. split; [|by apply Hdec]. by apply list_elem_of_filter in Hc as [_ Hc]. }
  assert (forall i c, callbacks w !! i = Some c ->
    (cb_id c ∈ cb_id <$> undelivered runId w <-> c ∈ undelivered runId w)) as Hids.
  { intros i c Hi. split; [|apply list_elem_of_fmap_2]. intros (c' & E & Hc')%list_elem_of_fmap.
    apply list_elem_of_filter in Hc' as Hx. destruct Hx as [_ Hin]. apply list_elem_of_lookup in Hin as [j Hj].
    assert (i = j) as <-; [|by simplify_eq]. eapply NoDup_lookup; [exact Hnd| |]; rewrite list_lookup_fmap.
    - by rewrite Hi.
    - rewrite Hj. simpl. by rewrite E. }
  eexists _, _. split_and!; [reflexivity|done|done| |].
  - intros i c Hi. cbn [callbacks]. rewrite list_lookup_fmap, Hi. simpl. f_equal.
    apply (f_equal (fun b : bool => if b then after runId status res error c else c)). apply bool_decide_ext. eauto.
  - intros c. unfold undelivered at 1. rewrite list_elem_of_filter. cbn [callbacks]. rewrite list_elem_of_fmap.
    split.
    + intros [[Hr Hst] (c0 & -> & Hc0)]. apply list_elem_of_lookup in Hc0 as [i Hi].
      case_bool_decide as E.
      * apply (Hids i c0 Hi) in E. unfold after in *. destruct (delivery_error _) as [e|] eqn:Ee; [by exists c0, e|].
        by destruct Hst.
      * destruct E. apply (Hids i c0 Hi). apply list_elem_of_filter. split; [done|]. by eapply list_elem_of_lookup_2.
    + intros (c0 & e & Hc0 & Ee & ->). apply list_elem_of_filter in Hc0 as Hx. destruct Hx as [[Hr _] Hin].
      split; [split; [done|by right]|]. exists c0. split; [|done].
      rewrite bool_decide_eq_true_2 by (by apply list_elem_of_fmap_2). unfold after. by rewrite Ee.
Qed.

End Dispatch.

(** ** Witnesses *)

Definition sample_callback (id : jsstr) (st : CallbackStatus) : Callback :=
  {| cb_id := id; cb_runId := js "r"; cb_url := js "https://x"; cb_encryptedSecret := js "s"; cb_payload := JNull;
     cb_status := st; cb_attempts := 0; cb_lastAttemptAt := None; cb_deliveredAt := None; cb_lastError := None |}.

Definition sample_callbacks : CallbackWorld :=
  {| callbacks := [sample_callback (js "a") CbPending; sample_callback (js "b") CbDelivered]; requests := [] |}.

Definition sample_runs : gmap jsstr Run :=
  {[ js "r" := {| run_userId := js "u"; run_orgId := js "o"; run_status := Completed; run_createdAt := 0;
      run_startedAt := None; run_completedAt := None; run_lastHeartbeatAt := None; run_runnerGroup := None;
      run_sandboxId := None; run_error := None; run_lastEventSequence := None; run_composeName := None;
      run_result := None; run_sandboxReuseResult := None |} ]}.

Lemma dispatchRunCallbacks_spec_witness :
  exists rs w', dispatchRunCallbacks false None Some (fun _ _ _ => []) (fun _ => FetchResponse 200 []) 5
    sample_runs (js "r") StCompleted None None sample_callbacks = (Ok rs, w') /\
    length (requests w') = 1%nat /\ undelivered (js "r") w' = [].
Proof.
  destruct (dispatchRunCallbacks_spec false None Some (fun _ _ _ => []) (fun _ => FetchResponse 200 []) 5
    sample_runs (js "r") StCompleted None None sample_callbacks) as (rs & w' & H & Hreq & _ & _ & Hund).
  - vm_compute. by eexists.
  - apply (bool_decide_eq_true_1 (NoDup [js "a"; js "b"])). vm_compute. reflexivity.
  - intros c _. by eexists.
  - exists rs, w'. split; [exact H|]. split; [by rewrite Hreq|]. apply elem_of_nil_inv. intros c Hc.
    apply Hund in Hc as (c0 & e & _ & He & _). done.
Defined.

End Callbacks.
