(* ===== verification/DeviceAuth.v ===== *)
(** Device code flows: pairing of a bb0 device
    (turbo/apps/api/src/signals/services/device-token.service.ts) and the command
    line login (turbo/apps/api/src/signals/routes/cli-auth.ts), on the tables
    [device_codes], [cli_tokens] and [chat_threads]. The timezone preference that an
    approval may store is not part of these tables. *)

From S2P Require Import Prelude JsString JsValue Templates.

Import Templates.

Module DeviceAuth.

(** ** Data *)

Inductive DeviceCodeStatus := DcPending | DcAuthenticated | DcApproved | DcConsumed | DcExpired | DcDenied.

#[export] Instance device_code_status_eq_dec : EqDecision DeviceCodeStatus.
Proof. solve_decision. Defined.

Inductive Purpose := PurposeCli | PurposeBb0.

#[export] Instance purpose_eq_dec : EqDecision Purpose.
Proof. solve_decision. Defined.

Record DeviceCode := {
  dc_purpose : Purpose; dc_status : DeviceCodeStatus; dc_userId : option jsstr; dc_orgId : option jsstr;
  dc_bleSessionNonce : option jsstr; dc_pollTokenHash : option jsstr; dc_pollIntervalSeconds : option Z;
  dc_cliTokenId : option jsstr; dc_chatThreadId : option jsstr; dc_approvedAt : option Z;
  dc_consumedAt : option Z; dc_createdAt : Z; dc_expiresAt : Z; dc_updatedAt : Z;
}.

Record CliToken := { ct_token : jsstr; ct_userId : jsstr; ct_name : jsstr; ct_expiresAt : Z; ct_createdAt : Z }.
Record ChatThread := { th_userId : jsstr; th_agentComposeId : jsstr; th_title : jsstr; th_createdAt : Z }.

(** [composes] maps a compose to its organisation. *)
Record DeviceDb := {
  deviceCodes : gmap jsstr DeviceCode;
  cliTokens : gmap jsstr CliToken;
  chatThreads : gmap jsstr ChatThread;
  defaultAgents : gmap jsstr (option jsstr);
  composes : gmap jsstr jsstr;
}.

Definition with_codes (f : gmap jsstr DeviceCode -> gmap jsstr DeviceCode) (s : DeviceDb) : DeviceDb :=
  {| deviceCodes := f (deviceCodes s); cliTokens := cliTokens s; chatThreads := chatThreads s;
     defaultAgents := defaultAgents s; composes := composes s |}.
Definition insert_token (id : jsstr) (t : CliToken) (s : DeviceDb) : DeviceDb :=
  {| deviceCodes := deviceCodes s; cliTokens := <[id := t]> (cliTokens s); chatThreads := chatThreads s;
     defaultAgents := defaultAgents s; composes := composes s |}.
Definition insert_thread (id : jsstr) (t : ChatThread) (s : DeviceDb) : DeviceDb :=
  {| deviceCodes := deviceCodes s; cliTokens := cliTokens s; chatThreads := <[id := t]> (chatThreads s);
     defaultAgents := defaultAgents s; composes := composes s |}.

(** ** Codes *)

Definition DEVICE_CODE_CHARS : jsstr := js "ABCDEFGHJKMNPQRSTUVWXYZ23456789".
Definition DEVICE_CODE_TTL_SECONDS : Z := 10 * 60.
Definition BB0_POLL_INTERVAL_SECONDS : Z := 3.
Definition PAT_TTL_MS : Z := 90 * 24 * 60 * 60 * 1000.
Definition DEVICE_CODE_EXPIRES_IN_SECONDS : Z := 900.
Definition CLI_TOKEN_EXPIRES_IN_SECONDS : Z := 90 * 24 * 60 * 60.

Definition code_char (r : nat) : jsstr := option_list (DEVICE_CODE_CHARS !! r).

(** The loop of the bb0 service; [rs] are the results of [randomInt], in call order. *)
Fixpoint generate_loop (i : nat) (rs : list nat) (code : jsstr) : jsstr :=
  match rs with
  | [] => code
  | r :: rs' =>
      let code := if (0 <? i)%nat && (Nat.modulo i 4 =? 0)%nat then code ++ js "-" else code in
      generate_loop (S i) rs' (code ++ code_char r)
  end.
Definition generateDeviceCode (rs : list nat) : jsstr := generate_loop 0 (take 8 rs) [].

(** The array version of the command line route. *)
Definition generateCliDeviceCode (rs : list nat) : jsstr :=
  let chars := code_char <$> take 8 rs in
  join [] (take 4 chars) ++ js "-" ++ join [] (drop 4 chars).

Section Services.
(** The SHA-256 of a poll token, and the signed text of a token. *)
Context (hashPollToken : jsstr -> jsstr) (generateCliToken : jsstr -> jsstr -> jsstr -> jsstr).

(** ** bb0 devices *)

Definition resolveDefaultAgentId (orgId : jsstr) (s : DeviceDb) : option jsstr :=
  match defaultAgents s !! orgId with
  | Some (Some agent) =>
      if bool_decide (agent = []) then None
      else if bool_decide (composes s !! agent = Some orgId) then Some agent else None
  | _ => None
  end.

Definition createBb0DeviceCode (now : Z) (code pollToken : jsstr) (bleSessionNonce : option jsstr) (s : DeviceDb) :
    result unit * DeviceDb :=
  match deviceCodes s !! code with
  | Some _ => (Throw (js "duplicate key"), s)
  | None =>
      (Ok tt, with_codes (<[code :=
        {| dc_purpose := PurposeBb0; dc_status := DcPending; dc_userId := None; dc_orgId := None;
           dc_bleSessionNonce := bleSessionNonce; dc_pollTokenHash := Some (hashPollToken pollToken);
           dc_pollIntervalSeconds := Some BB0_POLL_INTERVAL_SECONDS; dc_cliTokenId := None;
           dc_chatThreadId := None; dc_approvedAt := None; dc_consumedAt := None; dc_createdAt := now;
           dc_expiresAt := now + DEVICE_CODE_TTL_SECONDS * 1000; dc_updatedAt := now |}]>) s)
  end.

Inductive ConfirmResult := ConfirmOk | MissingDefaultAgent | InvalidDeviceCode.

Definition approve_row (now : Z) (userId orgId tokenId threadId : jsstr) (c : DeviceCode) : DeviceCode :=
  {| dc_purpose := dc_purpose c; dc_status := DcApproved; dc_userId := Some userId; dc_orgId := Some orgId;
     dc_bleSessionNonce := dc_bleSessionNonce c; dc_pollTokenHash := dc_pollTokenHash c;
     dc_pollIntervalSeconds := dc_pollIntervalSeconds c; dc_cliTokenId := Some tokenId;
     dc_chatThreadId := Some threadId; dc_approvedAt := Some now; dc_consumedAt := dc_consumedAt c;
     dc_createdAt := dc_createdAt c; dc_expiresAt := dc_expiresAt c; dc_updatedAt := now |}.

(** [tokenId] and [threadId] are the results of [randomUUID]; the transaction inserts
    the token and the thread only when the update matched. *)
Definition confirmBb0Device (now : Z) (userId orgId code tokenId threadId : jsstr) (s : DeviceDb) :
    ConfirmResult * DeviceDb :=
  match resolveDefaultAgentId orgId s with
  | None => (MissingDefaultAgent, s)
  | Some agentComposeId =>
      match deviceCodes s !! code with
      | Some c =>
          if bool_decide (dc_purpose c = PurposeBb0) && bool_decide (dc_status c = DcPending) &&
             (now <? dc_expiresAt c) then
            (ConfirmOk,
             insert_thread threadId {| th_userId := userId; th_agentComposeId := agentComposeId;
                                       th_title := js "bb0"; th_createdAt := now |}
               (insert_token tokenId {| ct_token := generateCliToken userId orgId tokenId; ct_userId := userId;
                                        ct_name := js "bb0 device"; ct_expiresAt := now + PAT_TTL_MS;
                                        ct_createdAt := now |}
                  (with_codes (<[code := approve_row now userId orgId tokenId threadId c]>) s)))
          else (InvalidDeviceCode, s)
      | None => (InvalidDeviceCode, s)
      end
  end.

Inductive PollResult :=
| PollInvalid | PollExpired | PollPending (interval : Z) | PollApproved (api_token thread_id : jsstr).

Definition set_dc_status (st : DeviceCodeStatus) (consumedAt : option Z) (now : Z) (c : DeviceCode) : DeviceCode :=
  {| dc_purpose := dc_purpose c; dc_status := st; dc_userId := dc_userId c; dc_orgId := dc_orgId c;
     dc_bleSessionNonce := dc_bleSessionNonce c; dc_pollTokenHash := dc_pollTokenHash c;
     dc_pollIntervalSeconds := dc_pollIntervalSeconds c; dc_cliTokenId := dc_cliTokenId c;
     dc_chatThreadId := dc_chatThreadId c; dc_approvedAt := dc_approvedAt c; dc_consumedAt := consumedAt;
     dc_createdAt := dc_createdAt c; dc_expiresAt := dc_expiresAt c; dc_updatedAt := now |}.

Definition pollBb0Device (now : Z) (code pollToken : jsstr) (s : DeviceDb) : PollResult * DeviceDb :=
  match deviceCodes s !! code with
  | None => (PollInvalid, s)
  | Some row =>
      if negb (bool_decide (dc_purpose row = PurposeBb0) &&
               bool_decide (dc_pollTokenHash row = Some (hashPollToken pollToken))) then (PollInvalid, s)
      else if dc_expiresAt row <=? now then
        (PollExpired, with_codes (<[code := set_dc_status DcExpired (dc_consumedAt row) now row]>) s)
      else
        match dc_status row with
        | DcPending => (PollPending (default BB0_POLL_INTERVAL_SECONDS (dc_pollIntervalSeconds row)), s)
        | DcApproved | DcConsumed =>
            match dc_cliTokenId row, dc_chatThreadId row with
            | Some tokenId, Some threadId =>
                match cliTokens s !! tokenId with
                | None => (PollInvalid, s)
                | Some token =>
                    (PollApproved (ct_token token) threadId,
                     match dc_consumedAt row with
                     | None => with_codes (<[code := set_dc_status DcConsumed (Some now) now row]>) s
                     | Some _ => s
                     end)
                end
            | _, _ => (PollInvalid, s)
            end
        | DcExpired => (PollExpired, s)
        | DcAuthenticated | DcDenied => (PollInvalid, s)
        end
  end.

(** ** The command line *)

Definition createDevice (now : Z) (code : jsstr) (s : DeviceDb) : result unit * DeviceDb :=
  match deviceCodes s !! code with
  | Some _ => (Throw (js "duplicate key"), s)
  | None =>
      (Ok tt, with_codes (<[code :=
        {| dc_purpose := PurposeCli; dc_status := DcPending; dc_userId := None; dc_orgId := None;
           dc_bleSessionNonce := None; dc_pollTokenHash := None; dc_pollIntervalSeconds := None;
           dc_cliTokenId := None; dc_chatThreadId := None; dc_approvedAt := None; dc_consumedAt := None;
           dc_createdAt := now; dc_expiresAt := now + DEVICE_CODE_EXPIRES_IN_SECONDS * 1000;
           dc_updatedAt := now |}]>) s)
  end.

Definition issueCliToken (now : Z) (userId orgId nm tokenId : jsstr) (s : DeviceDb) : jsstr * DeviceDb :=
  let token := generateCliToken userId orgId tokenId in
  (token, insert_token tokenId {| ct_token := token; ct_userId := userId; ct_name := nm;
            ct_expiresAt := now + CLI_TOKEN_EXPIRES_IN_SECONDS * 1000; ct_createdAt := now |} s).

Inductive ExchangeResult :=
| ExInvalidRequest | ExExpiredToken | ExPending | ExAccessDenied | ExServerError | ExToken (access_token : jsstr).

(** The first query of [exchangeTokenInner$]. *)
Definition exchange_select (code : jsstr) (s : DeviceDb) : option DeviceCode :=
  match deviceCodes s !! code with
  | Some c => if bool_decide (dc_purpose c = PurposeCli) then Some c else None
  | None => None
  end.

(** What the handler does with the session it read: the later statements run on the
    database as it is then. *)
Definition exchange_commit (now : Z) (code tokenId : jsstr) (session : option DeviceCode) (s : DeviceDb) :
    ExchangeResult * DeviceDb :=
  match session with
  | None => (ExInvalidRequest, s)
  | Some session =>
      if dc_expiresAt session <? now then (ExExpiredToken, s)
      else
        match dc_status session with
        | DcPending => (ExPending, s)
        | DcDenied => (ExAccessDenied, with_codes (delete code) s)
        | DcAuthenticated =>
            let '(token, s1) := issueCliToken now (default [] (dc_userId session)) (default [] (dc_orgId session))
                                  (js "CLI Device Flow Authentication") tokenId s in
            (ExToken token, with_codes (delete code) s1)
        | DcApproved | DcConsumed | DcExpired => (ExServerError, s)
        end
  end.

Definition exchangeToken (now : Z) (code tokenId : jsstr) (s : DeviceDb) : ExchangeResult * DeviceDb :=
  exchange_commit now code tokenId (exchange_select code s) s.

Section WithPlatform.
Context `{Platform}.

(** [code.replace(/\s/g, "").toUpperCase()]. *)
Definition normalize_code (code : jsstr) : jsstr := toUpperCase (filter (fun c => isRegexWhitespace c = false) code).

Definition authenticate_row (now : Z) (userId : jsstr) (orgId : option jsstr) (c : DeviceCode) : DeviceCode :=
  {| dc_purpose := dc_purpose c; dc_status := DcAuthenticated; dc_userId := Some userId; dc_orgId := orgId;
     dc_bleSessionNonce := dc_bleSessionNonce c; dc_pollTokenHash := dc_pollTokenHash c;
     dc_pollIntervalSeconds := dc_pollIntervalSeconds c; dc_cliTokenId := dc_cliTokenId c;
     dc_chatThreadId := dc_chatThreadId c; dc_approvedAt := dc_approvedAt c; dc_consumedAt := dc_consumedAt c;
     dc_createdAt := dc_createdAt c; dc_expiresAt := dc_expiresAt c; dc_updatedAt := now |}.

Definition approve_select (code : jsstr) (s : DeviceDb) : option DeviceCode :=
  match deviceCodes s !! code with
  | Some c => if bool_decide (dc_purpose c = PurposeCli) && bool_decide (dc_status c = DcPending)
              then Some c else None
  | None => None
  end.

(** The guarded update; the number of updated rows is not read. *)
Definition approve_update (now : Z) (userId : jsstr) (orgId : option jsstr) (code : jsstr) (s : DeviceDb) : DeviceDb :=
  match approve_select code s with
  | Some c => with_codes (<[code := authenticate_row now userId orgId c]>) s
  | None => s
  end.

(** The result is [None] on success, else the error message. *)
Definition approveDevice (now : Z) (userId : jsstr) (orgId : option jsstr) (input : jsstr) (s : DeviceDb) :
    option jsstr * DeviceDb :=
  let code := normalize_code input in
  match approve_select code s with
  | None => (Some (js "Invalid or expired device code"), s)
  | Some session =>
      if dc_expiresAt session <? now then (Some (js "Device code has expired"), s)
      else (None, approve_update now userId orgId code s)
  end.

End WithPlatform.

(** ** The transaction system

    Every handler as one step, with identifiers from [randomUUID] that are new; the
    label records a grant: the user who confirmed or approved a code. *)

Context `{Platform}.

Inductive step : option (Purpose * jsstr * jsstr) -> DeviceDb -> DeviceDb -> Prop :=
| step_create_bb0 now code pollToken nonce s :
    step None s (createBb0DeviceCode now code pollToken nonce s).2
| step_confirm now userId orgId code tokenId threadId s s' :
    cliTokens s !! tokenId = None -> chatThreads s !! threadId = None ->
    confirmBb0Device now userId orgId code tokenId threadId s = (ConfirmOk, s') ->
    step (Some (PurposeBb0, code, userId)) s s'
| step_confirm_refused now userId orgId code tokenId threadId s res s' :
    confirmBb0Device now userId orgId code tokenId threadId s = (res, s') -> res <> ConfirmOk ->
    step None s s'
| step_poll now code pollToken s : step None s (pollBb0Device now code pollToken s).2
| step_create_cli now code s : step None s (createDevice now code s).2
| step_approve now userId orgId input s s' :
    approveDevice now userId orgId input s = (None, s') -> step (Some (PurposeCli, normalize_code input, userId)) s s'
| step_approve_refused now userId orgId input s e s' :
    approveDevice now userId orgId input s = (Some e, s') -> step None s s'
| step_exchange now code tokenId s :
    cliTokens s !! tokenId = None -> step None s (exchangeToken now code tokenId s).2.

(** A history is the list of its grants, the latest first. *)
Inductive history : list (Purpose * jsstr * jsstr) -> DeviceDb -> DeviceDb -> Prop :=
| history_nil s : history [] s s
| history_quiet h s1 s2 s3 : history h s1 s2 -> step None s2 s3 -> history h s1 s3
| history_grant g h s1 s2 s3 : history h s1 s2 -> step (Some g) s2 s3 -> history (g :: h) s1 s3.

(** What the grants say about a row. *)
Definition row_ok (h : list (Purpose * jsstr * jsstr)) (s : DeviceDb) (code : jsstr) (c : DeviceCode) : Prop :=
  match dc_purpose c, dc_status c with
  | _, DcPending => dc_userId c = None /\ dc_consumedAt c = None
  | PurposeBb0, (DcApproved | DcConsumed) =>
      exists userId orgId tokenId threadId token thread,
        dc_userId c = Some userId /\ dc_orgId c = Some orgId /\ (PurposeBb0, code, userId) ∈ h /\
        dc_cliTokenId c = Some tokenId /\ dc_chatThreadId c = Some threadId /\
        cliTokens s !! tokenId = Some token /\ ct_token token = generateCliToken userId orgId tokenId /\
        ct_userId token = userId /\
        chatThreads s !! threadId = Some thread /\ th_userId thread = userId
  | PurposeBb0, DcExpired => True
  | PurposeCli, DcAuthenticated => exists userId, dc_userId c = Some userId /\ (PurposeCli, code, userId) ∈ h
  | _, _ => False
  end.

Definition db_ok (h : list (Purpose * jsstr * jsstr)) (s : DeviceDb) : Prop :=
  forall code c, deviceCodes s !! code = Some c -> row_ok h s code c.

(** Tokens, threads and grants only grow. *)
Definition grows (s s' : DeviceDb) : Prop :=
  (forall id t, cliTokens s !! id = Some t -> cliTokens s' !! id = Some t) /\
  (forall id t, chatThreads s !! id = Some t -> chatThreads s' !! id = Some t).

Lemma row_ok_mono h h' s s' code c :
  (forall g, g ∈ h -> g ∈ h') -> grows s s' -> row_ok h s code c -> row_ok h' s' code c.
Proof.
  intros Hh [Ht Hc]. unfold row_ok. destruct (dc_purpose c), (dc_status c); try done; naive_solver.
Qed.

Lemma db_ok_insert h h' s s' code c :
  db_ok h s -> (forall g, g ∈ h -> g ∈ h') -> grows s s' ->
  deviceCodes s' = <[code := c]> (deviceCodes s) -> row_ok h' s' code c -> db_ok h' s'.
Proof.
  intros Hok Hh Hg Hc Hrow code' c'. rewrite Hc. intros [[<- <-]|[Hne Hl]]%lookup_insert_Some; [done|].
  eapply row_ok_mono; [exact Hh|exact Hg|by apply Hok].
Qed.

Lemma db_ok_delete h s s' code :
  db_ok h s -> grows s s' -> deviceCodes s' = delete code (deviceCodes s) -> db_ok h s'.
Proof.
  intros Hok Hg Hc code' c'. rewrite Hc. intros [Hne Hl]%lookup_delete_Some.
  eapply row_ok_mono; [done|exact Hg|by apply Hok].
Qed.

Lemma grows_same s s' : cliTokens s' = cliTokens s -> chatThreads s' = chatThreads s -> grows s s'.
Proof. intros H1 H2. split; by rewrite ?H1, ?H2. Qed.

Lemma step_ok l h s s' :
  step l s s' -> db_ok h s -> db_ok (option_list l ++ h) s'.
Proof.
  destruct 1 as [now code pollToken nonce s|now u o code tid thr s s' Ht Hth E|now u o code tid thr s res s' E Hres
    |now code pollToken s|now code s|now u o input s s' E|now u o input s e s' E|now code tid s Ht]; intros Hok; simpl.
  - unfold createBb0DeviceCode. destruct (deviceCodes s !! code) eqn:Ec; [done|].
    by eapply db_ok_insert; [exact Hok|done|by apply grows_same|reflexivity|].
  - unfold confirmBb0Device in E. destruct (resolveDefaultAgentId o s) as [a|]; [|done].
    destruct (deviceCodes s !! code) as [c|] eqn:Ec; [|done].
    destruct (_ && _ && _) eqn:Eg; [|done]. injection E as <-. bool_facts.
    eapply (db_ok_insert h _ s); [exact Hok|set_solver| |reflexivity|].
    + split; simpl; intros id t Hid; (rewrite lookup_insert_ne; [done|]); intros ->; congruence.
    + unfold row_ok. simpl. match goal with Hp : dc_purpose c = _ |- _ => rewrite Hp end.
      eexists u, o, tid, thr, _, _. rewrite !lookup_insert_eq. split_and!; try done. by left.
  - unfold confirmBb0Device in E. destruct (resolveDefaultAgentId o s) as [a|]; [|by injection E as <- <-].
    destruct (deviceCodes s !! code) as [c|]; [|by injection E as <- <-].
    destruct (_ && _ && _); [|by injection E as <- <-]. injection E as <- <-. done.
  - unfold pollBb0Device. destruct (deviceCodes s !! code) as [row|] eqn:Er; [|done].
    destruct (bool_decide_reflect (dc_purpose row = PurposeBb0)) as [Hp|]; [|done].
    destruct (bool_decide _); [|done]. cbn [negb andb]. destruct (dc_expiresAt row <=? now).
    { eapply db_ok_insert; [exact Hok|done|by apply grows_same|reflexivity|]. unfold row_ok. simpl. by rewrite Hp. }
    pose proof (Hok _ _ Er) as Hrow. unfold row_ok in Hrow. rewrite Hp in Hrow.
    destruct (dc_status row) eqn:Est; try done;
      (destruct Hrow as (u & o & tid & thr & tok & thd & Hu & Ho & Hin & Hti & Hthr & Htok & Hrest);
       rewrite Hti, Hthr, Htok; destruct (dc_consumedAt row); [done|];
       eapply db_ok_insert; [exact Hok|done|by apply grows_same|reflexivity|];
       unfold row_ok; simpl; rewrite Hp; eexists u, o, tid, thr, tok, thd; done).
  - unfold createDevice. destruct (deviceCodes s !! code) eqn:Ec; [done|].
    by eapply db_ok_insert; [exact Hok|done|by apply grows_same|reflexivity|].
  - unfold approveDevice in E. destruct (approve_select _ s) as [c|] eqn:Ea; [|done].
    destruct (dc_expiresAt c <? now); [done|]. injection E as <-. unfold approve_update. rewrite Ea.
    unfold approve_select in Ea. destruct (deviceCodes s !! _) as [c'|] eqn:Ec; [|done].
    destruct (_ && _) eqn:Eg; [|done]. injection Ea as ->. bool_facts.
    eapply db_ok_insert; [exact Hok|set_solver|by apply grows_same|reflexivity|]. unfold row_ok. simpl.
    match goal with Hp : dc_purpose c = _ |- _ => rewrite Hp end. exists u. split; [done|by left].
  - unfold approveDevice in E. destruct (approve_select _ s) as [c|]; [|by injection E as _ <-].
    destruct (dc_expiresAt c <? now); [by injection E as _ <-|done].
  - unfold exchangeToken, exchange_commit. destruct (exchange_select code s) as [c|] eqn:Ec; [|done].
    destruct (dc_expiresAt c <? now); [done|]. destruct (dc_status c); try done.
    + eapply db_ok_delete; [exact Hok| |reflexivity]. split; simpl; [|done]. intros i t Hi.
      rewrite lookup_insert_ne; [done|]. intros ->. congruence.
    + by eapply db_ok_delete; [exact Hok|by apply grows_same|reflexivity].
Qed.

Lemma history_ok h s0 s : db_ok [] s0 -> history h s0 s -> db_ok h s.
Proof.
  intros H0. induction 1 as [s|h s1 s2 s3 _ IH Hs|g h s1 s2 s3 _ IH Hs]; [done| |].
  - by apply (step_ok _ h _ _ Hs), IH.
  - by apply (step_ok _ h _ _ Hs), IH.
Qed.

(** A device gets a token only with the poll token of its code, before the code
    expires, and only the token that was made for the user who confirmed that code;
    the thread it is given belongs to the same user. *)
Theorem pollBb0Device_authorized h s0 s now code pollToken token thread s' :
  db_ok [] s0 -> history h s0 s ->
  pollBb0Device now code pollToken s = (PollApproved token thread, s') ->
  exists c userId orgId tokenId th,
    deviceCodes s !! code = Some c /\ dc_pollTokenHash c = Some (hashPollToken pollToken) /\
    now < dc_expiresAt c /\ (PurposeBb0, code, userId) ∈ h /\
    token = generateCliToken userId orgId tokenId /\
    chatThreads s !! thread = Some th /\ th_userId th = userId /\
    exists c', deviceCodes s' !! code = Some c' /\ is_Some (dc_consumedAt c').
Proof.
  intros H0 Hh Hp. pose proof (history_ok _ _ _ H0 Hh) as Hok. unfold pollBb0Device in Hp.
  destruct (deviceCodes s !! code) as [c|] eqn:Ec; [|done]. pose proof (Hok _ _ Ec) as Hrow. unfold row_ok in Hrow.
  destruct (bool_decide_reflect (dc_purpose c = PurposeBb0)) as [Epu|]; [|done].
  destruct (bool_decide_reflect (dc_pollTokenHash c = Some (hashPollToken pollToken))) as [Eh|]; [|done].
  cbn [negb andb] in Hp. destruct (dc_expiresAt c <=? now) eqn:Ee; [done|]. rewrite Epu in Hrow. bool_facts.
  exists c. destruct (dc_status c) eqn:Est; try done;
    (destruct Hrow as (u & o & tid & thr & tok & thd & Hu & Ho & Hin & Hti & Hthr & Htok & Hgen & _ & Hthd & Hthu);
     rewrite Hti, Hthr, Htok in Hp; injection Hp as <- <- <-; exists u, o, tid, thd;
     split_and!; try done; destruct (dc_consumedAt c) eqn:Ec2; eexists;
     [by rewrite Ec, Ec2|simpl; rewrite lookup_insert_eq; by eauto]).
Qed.

(** The bb0 grants of a history, by code. *)
Definition bb0_codes (h : list (Purpose * jsstr * jsstr)) : list jsstr :=
  (fun g => g.1.2) <$> filter (fun g => g.1.1 = PurposeBb0) h.

Definition paired (s : DeviceDb) (code : jsstr) : Prop :=
  exists c, deviceCodes s !! code = Some c /\ dc_purpose c = PurposeBb0 /\ dc_status c <> DcPending.

Lemma step_paired l s s' code : step l s s' -> paired s code -> paired s' code.
Proof.
  intros Hs (c & Hc & Hp & Hst).
  assert (forall c0 code0 x, deviceCodes s !! code0 = Some c0 -> dc_purpose x = dc_purpose c0 ->
    dc_status x <> DcPending -> exists c', <[code0 := x]> (deviceCodes s) !! code = Some c' /\
      dc_purpose c' = PurposeBb0 /\ dc_status c' <> DcPending) as Hins.
  { intros c0 code0 x H0 Hx Hxs. destruct (decide (code0 = code)) as [->|Hne].
    - exists x. rewrite lookup_insert_eq. split_and!; [done|congruence|done].
    - exists c. by rewrite lookup_insert_ne. }
  assert (forall code0 x, deviceCodes s !! code0 = None -> exists c', <[code0 := x]> (deviceCodes s) !! code = Some c' /\
      dc_purpose c' = PurposeBb0 /\ dc_status c' <> DcPending) as Hnew.
  { intros code0 x H0. exists c. rewrite lookup_insert_ne; [done|]. intros ->. congruence. }
  assert (forall code0, is_Some (exchange_select code0 s) -> delete code0 (deviceCodes s) !! code = Some c) as Hdel.
  { intros code0 [x Hx]. rewrite lookup_delete_ne; [done|]. intros ->. unfold exchange_select in Hx. rewrite Hc in Hx.
    rewrite Hp in Hx. done. }
  unfold paired.
  destruct Hs as [now code0 pollToken nonce s|now u o code0 tid thr s s' Ht Hth E|now u o code0 tid thr s res s' E Hres
    |now code0 pollToken s|now code0 s|now u o input s s' E|now u o input s e s' E|now code0 tid s Ht].
  - unfold createBb0DeviceCode. destruct (deviceCodes s !! code0) eqn:Ec; [eauto|by apply Hnew].
  - unfold confirmBb0Device in E. destruct (resolveDefaultAgentId o s) as [a|]; [|done].
    destruct (deviceCodes s !! code0) as [c0|] eqn:Ec; [|done].
    destruct (_ && _ && _) eqn:Eg; [|done]. injection E as <-. by eapply Hins.
  - unfold confirmBb0Device in E. destruct (resolveDefaultAgentId o s) as [a|]; [|injection E as _ <-; eauto].
    destruct (deviceCodes s !! code0) as [c0|] eqn:Ec; [|injection E as _ <-; eauto].
    destruct (_ && _ && _); [|injection E as _ <-; eauto]. by injection E as <- _.
  - unfold pollBb0Device. destruct (deviceCodes s !! code0) as [row|] eqn:Er; [|eauto].
    destruct (_ && _); cbn [negb]; [|eauto]. destruct (dc_expiresAt row <=? now); [by eapply Hins|].
    destruct (dc_status row) eqn:Est; try (by eauto);
      (destruct (dc_cliTokenId row), (dc_chatThreadId row); try (by eauto); destruct (cliTokens s !! _); try (by eauto);
       destruct (dc_consumedAt row); [by eauto|by eapply Hins]).
  - unfold createDevice. destruct (deviceCodes s !! code0) eqn:Ec; [eauto|by apply Hnew].
  - unfold approveDevice in E. destruct (approve_select _ s) as [c0|] eqn:Ea; [|done].
    destruct (dc_expiresAt c0 <? now); [done|]. injection E as <-. unfold approve_update. rewrite Ea.
    unfold approve_select in Ea. destruct (deviceCodes s !! _) as [c'|] eqn:Ec; [|done].
    destruct (_ && _); [|done]. injection Ea as ->. by eapply Hins.
  - unfold approveDevice in E. destruct (approve_select _ s) as [c0|]; [|injection E as _ <-; eauto].
    destruct (dc_expiresAt c0 <? now); [injection E as _ <-; eauto|done].
  - unfold exchangeToken, exchange_commit. destruct (exchange_select code0 s) as [c0|] eqn:Ec; [|eauto].
    destruct (dc_expiresAt c0 <? now); [eauto|]. destruct (dc_status c0); try (by eauto);
      (exists c; split; [apply Hdel; eauto|done]).
Qed.

Lemma grant_paired g s s' : step (Some g) s s' -> g.1.1 = PurposeBb0 -> ~ paired s g.1.2 /\ paired s' g.1.2.
Proof.
  intros Hs Hg. inversion Hs as [|now u o code tid thr ? ? Ht Hth E| | | |now u o input ? ? E| |]; subst; [|done].
  simpl. unfold confirmBb0Device in E. destruct (resolveDefaultAgentId o s) as [a|]; [|done].
  destruct (deviceCodes s !! code) as [c0|] eqn:Ec; [|done].
  destruct (_ && _ && _) eqn:Eg; [|done]. injection E as <-. bool_facts. split.
  - intros (c & Hc & _ & Hst). congruence.
  - eexists. simpl. rewrite lookup_insert_eq. split_and!; done.
Qed.

(** A bb0 code is confirmed at most once, over any interleaving of the handlers. *)
Theorem confirmBb0Device_once h s0 s : history h s0 s -> NoDup (bb0_codes h).
Proof.
  intros Hh. assert (NoDup (bb0_codes h) /\ forall code, code ∈ bb0_codes h -> paired s code) as [Hnd _]; [|done].
  induction Hh as [s|h s1 s2 s3 _ [Hnd IH] Hs|g h s1 s2 s3 _ [Hnd IH] Hs].
  - split; [constructor|set_solver].
  - split; [done|]. intros code Hc. by eapply step_paired, IH.
  - unfold bb0_codes. rewrite filter_cons. case_decide as Hg.
    + destruct (grant_paired g s2 s3 Hs Hg) as [Hn Hp]. csimpl. split.
      * constructor; [|done]. intros Hin. by apply Hn, IH.
      * intros code [->|Hc]%elem_of_cons; [done|]. by eapply step_paired, IH.
    + split; [done|]. intros code Hc. by eapply step_paired, IH.
Qed.

(** The command line gets a token only for a code that its user approved; the code is
    gone afterwards, so repeating the exchange is refused. *)
Theorem exchangeToken_authorized h s0 s now code tokenId token s' :
  db_ok [] s0 -> history h s0 s ->
  exchangeToken now code tokenId s = (ExToken token, s') ->
  (exists c userId, deviceCodes s !! code = Some c /\ now <= dc_expiresAt c /\ (PurposeCli, code, userId) ∈ h /\
     token = generateCliToken userId (default [] (dc_orgId c)) tokenId) /\
  forall later tokenId', exchangeToken later code tokenId' s' = (ExInvalidRequest, s').
Proof.
  intros H0 Hh He. pose proof (history_ok _ _ _ H0 Hh) as Hok. unfold exchangeToken, exchange_commit in He.
  destruct (exchange_select code s) as [c|] eqn:Ec; [|done].
  destruct (dc_expiresAt c <? now) eqn:Ee; [done|]. bool_facts.
  unfold exchange_select in Ec. destruct (deviceCodes s !! code) as [c'|] eqn:Ec'; [|done].
  destruct (bool_decide_reflect (dc_purpose c' = PurposeCli)) as [Ep|]; [|done]. injection Ec as ->.
  pose proof (Hok _ _ Ec') as Hrow. unfold row_ok in Hrow. rewrite Ep in Hrow.
  destruct (dc_status c); try done. destruct Hrow as (u & Hu & Hin). injection He as <- <-. split.
  - exists c, u. rewrite Hu. split_and!; done.
  - intros later tid'. unfold exchangeToken, exchange_select. simpl. by rewrite lookup_delete_eq.
Qed.

(** The exchange reads the session, issues the token and deletes the code in separate
    statements: two exchanges that both read the code before either deletes it are
    both given a token. *)
Theorem exchange_race now code tokenId1 tokenId2 c s :
  deviceCodes s !! code = Some c -> dc_purpose c = PurposeCli -> dc_status c = DcAuthenticated ->
  now <= dc_expiresAt c -> tokenId1 <> tokenId2 ->
  let session1 := exchange_select code s in
  let session2 := exchange_select code s in
  exists token1 token2 s1 s2,
    exchange_commit now code tokenId1 session1 s = (ExToken token1, s1) /\
    exchange_commit now code tokenId2 session2 s1 = (ExToken token2, s2) /\
    is_Some (cliTokens s2 !! tokenId1) /\ is_Some (cliTokens s2 !! tokenId2).
Proof.
  intros Hc Hp Hst Hexp Hne session1 session2. subst session1 session2. unfold exchange_select. rewrite Hc.
  rewrite bool_decide_eq_true_2 by done. unfold exchange_commit. rewrite Hst.
  assert (dc_expiresAt c <? now = false) as -> by (apply Z.ltb_ge; lia). simpl. eexists _, _, _, _.
  split_and!; [reflexivity|reflexivity| |]; simpl.
  - rewrite lookup_insert_ne by done. rewrite lookup_insert_eq. eauto.
  - rewrite lookup_insert_eq. eauto.
Qed.

End Services.

(** ** Codes *)

Lemma generate_eight (r0 r1 r2 r3 r4 r5 r6 r7 : nat) rest :
  generateDeviceCode (r0 :: r1 :: r2 :: r3 :: r4 :: r5 :: r6 :: r7 :: rest) =
  generateCliDeviceCode (r0 :: r1 :: r2 :: r3 :: r4 :: r5 :: r6 :: r7 :: rest).
Proof.
  unfold generateDeviceCode, generateCliDeviceCode. cbn [take drop fmap list_fmap generate_loop].
  cbn [Nat.ltb Nat.leb Nat.modulo Nat.divmod Nat.eqb andb fst snd Nat.sub join]. by rewrite <- !app_assoc, ?app_nil_l.
Qed.

Lemma code_char_ok r : (r < 31)%nat -> exists c, code_char r = [c] /\ c ∈ DEVICE_CODE_CHARS.
Proof.
  intros Hr. unfold code_char. destruct (lookup_lt_is_Some_2 DEVICE_CODE_CHARS r Hr) as [c Hc].
  exists c. rewrite Hc. split; [done|]. by eapply list_elem_of_lookup_2.
Qed.

Lemma code_char_inj r r' : (r < 31)%nat -> (r' < 31)%nat -> code_char r = code_char r' -> r = r'.
Proof.
  intros Hr Hr' E. unfold code_char in E.
  destruct (lookup_lt_is_Some_2 DEVICE_CODE_CHARS r Hr) as [c Hc].
  destruct (lookup_lt_is_Some_2 DEVICE_CODE_CHARS r' Hr') as [c' Hc']. rewrite Hc, Hc' in E. simplify_eq.
  eapply (NoDup_lookup DEVICE_CODE_CHARS); [|exact Hc|exact Hc'].
  by apply (bool_decide_eq_true_1 (NoDup DEVICE_CODE_CHARS)).
Qed.

(** The characters of a code. *)
Lemma code_shape rs :
  length rs = 8%nat -> Forall (fun r => (r < 31)%nat) rs ->
  exists cs, code_char <$> rs = (fun c => [c]) <$> cs /\ length cs = 8%nat /\
    Forall (fun c => c ∈ DEVICE_CODE_CHARS) cs /\
    generateDeviceCode rs = take 4 cs ++ js "-" ++ drop 4 cs.
Proof.
  intros Hl Hr. do 9 (destruct rs as [|? rs]; try done). repeat (apply Forall_cons in Hr as [? Hr]).
  rewrite generate_eight.
  repeat match goal with Hx : (?r < 31)%nat |- _ =>
    destruct (code_char_ok r Hx) as (? & ? & ?); clear Hx end.
  unfold generateCliDeviceCode. csimpl.
  repeat match goal with Hx : code_char ?r = _ |- _ => rewrite !Hx; clear Hx end.
  eexists [_; _; _; _; _; _; _; _]. split_and!; [reflexivity|done| |reflexivity]. repeat (constructor; [done|]). done.
Qed.

(** The two generators agree, produce four characters of the alphabet, a dash and four
    more, and give different codes for different random numbers. *)
Theorem generateDeviceCode_format rs rs' :
  length rs = 8%nat -> length rs' = 8%nat ->
  Forall (fun r => (r < 31)%nat) rs -> Forall (fun r => (r < 31)%nat) rs' ->
  generateDeviceCode rs = generateCliDeviceCode rs /\
  (exists a b, generateDeviceCode rs = a ++ js "-" ++ b /\ length a = 4%nat /\ length b = 4%nat /\
     Forall (fun c => c ∈ DEVICE_CODE_CHARS) (a ++ b)) /\
  (generateDeviceCode rs = generateDeviceCode rs' -> rs = rs').
Proof.
  intros Hl Hl' Hr Hr'.
  destruct (code_shape rs Hl Hr) as (cs & Hcs & Hlen & Hin & Hgen).
  destruct (code_shape rs' Hl' Hr') as (cs' & Hcs' & Hlen' & _ & Hgen'). split_and!.
  - by rewrite <- (app_nil_r rs); do 8 (destruct rs as [|? rs]; [done|]); apply generate_eight.
  - rewrite Hgen. exists (take 4 cs), (drop 4 cs). rewrite length_take, length_drop, Hlen, take_drop. by split_and!.
  - rewrite Hgen, Hgen'. intros E. apply app_inj_1 in E as [E1 E2]; [|rewrite !length_take; lia].
    apply app_inv_head in E2. assert (cs = cs') as <- by (by rewrite <- (take_drop 4 cs), E1, E2, take_drop).
    clear - Hcs Hcs' Hr Hr'. rewrite <- Hcs' in Hcs. clear Hcs'. revert rs' Hr' Hcs.
    induction Hr as [|r rs Hr _ IH]; intros [|r' rs'] Hr' E; [done|done|done|].
    apply Forall_cons in Hr' as [Hr1 Hr2]. injection E as E1 E2. f_equal; [by apply code_char_inj|by apply IH].
Qed.

Lemma generateDeviceCode_format_witness :
  generateDeviceCode [0; 1; 2; 3; 4; 5; 6; 7]%nat = js "ABCD-EFGH" /\
  generateDeviceCode [0; 1; 2; 3; 4; 5; 6; 7]%nat = generateCliDeviceCode [0; 1; 2; 3; 4; 5; 6; 7]%nat.
Proof.
  split; [reflexivity|].
  apply (generateDeviceCode_format [0; 1; 2; 3; 4; 5; 6; 7]%nat [0; 1; 2; 3; 4; 5; 6; 7]%nat);
    [done|done|repeat constructor; lia|repeat constructor; lia].
Defined.

(** ** Witnesses *)

Section Witnesses.

#[local] Existing Instance ascii_platform.

Definition sample_token (u o t : jsstr) : jsstr := u ++ o ++ t.
Definition sample_db : DeviceDb :=
  {| deviceCodes := ∅; cliTokens := ∅; chatThreads := ∅; defaultAgents := {[js "o" := Some (js "a")]};
     composes := {[js "a" := js "o"]} |}.
Definition created_db : DeviceDb := (createBb0DeviceCode id 10 (js "C") (js "p") None sample_db).2.
Definition confirmed_db : DeviceDb :=
  (confirmBb0Device sample_token 20 (js "u") (js "o") (js "C") (js "t") (js "h") created_db).2.

Lemma sample_history :
  history id sample_token [(PurposeBb0, js "C", js "u")] sample_db confirmed_db.
Proof.
  eapply history_grant; [eapply history_quiet; [apply history_nil|]|].
  - apply (step_create_bb0 id sample_token 10 (js "C") (js "p") None).
  - apply (step_confirm id sample_token 20 (js "u") (js "o") (js "C") (js "t") (js "h")); vm_compute; reflexivity.
Defined.

Lemma pollBb0Device_authorized_witness :
  exists s', pollBb0Device id 30 (js "C") (js "p") confirmed_db = (PollApproved (js "uot") (js "h"), s') /\
    exists c, deviceCodes confirmed_db !! js "C" = Some c /\ 30 < dc_expiresAt c.
Proof.
  eexists. split; [vm_compute; reflexivity|].
  edestruct (pollBb0Device_authorized id sample_token [(PurposeBb0, js "C", js "u")] sample_db confirmed_db 30
    (js "C") (js "p")) as (c & u & o & t & th & Hc & _ & He & _).
  - intros code c Hc. by destruct (lookup_empty_Some code c Hc).
  - exact sample_history.
  - vm_compute. reflexivity.
  - exists c. exact (conj Hc He).
Defined.

Lemma confirmBb0Device_once_witness : NoDup (bb0_codes [(PurposeBb0, js "C", js "u")]).
Proof. exact (confirmBb0Device_once id sample_token _ _ _ sample_history). Defined.

Definition cli_db : DeviceDb := (createDevice 10 (js "D") sample_db).2.
Definition approved_db : DeviceDb := (approveDevice 20 (js "u") (Some (js "o")) (js " d ") cli_db).2.

Lemma exchangeToken_authorized_witness :
  exists s', exchangeToken sample_token 30 (js "D") (js "t") approved_db = (ExToken (js "uot"), s') /\
    exchangeToken sample_token 31 (js "D") (js "t2") s' = (ExInvalidRequest, s').
Proof.
  eexists. split; [vm_compute; reflexivity|].
  eapply (exchangeToken_authorized id sample_token [(PurposeCli, normalize_code (js " d "), js "u")] sample_db approved_db 30 (js "D")
    (js "t")).
  - intros code c Hc. by destruct (lookup_empty_Some code c Hc).
  - eapply history_grant; [eapply history_quiet; [apply history_nil|]|].
    + apply (step_create_cli id sample_token 10 (js "D")).
    + apply (step_approve id sample_token 20 (js "u") (Some (js "o")) (js " d ")). vm_compute. reflexivity.
  - vm_compute. reflexivity.
Defined.

Lemma exchange_race_witness :
  exists token1 token2 s1 s2,
    exchange_commit sample_token 30 (js "D") (js "t1") (exchange_select (js "D") approved_db) approved_db =
      (ExToken token1, s1) /\
    exchange_commit sample_token 30 (js "D") (js "t2") (exchange_select (js "D") approved_db) s1 =
      (ExToken token2, s2) /\ is_Some (cliTokens s2 !! js "t1") /\ is_Some (cliTokens s2 !! js "t2").
Proof.
  eapply (exchange_race sample_token 30 (js "D") (js "t1") (js "t2"));
    [vm_compute; reflexivity|reflexivity|reflexivity|vm_compute; discriminate|discriminate].
Defined.

End Witnesses.

End DeviceAuth.
