(* ===== verification/Credits.v ===== *)
(** Credits of an organization
    (turbo/apps/api/src/signals/services/zero-credit-usage.service.ts,
    zero-credit-recharge.service.ts, zero-run-admission.service.ts): charging usage
    events, expiring grants, the automatic recharge slot and the credit check of a
    run. Amounts are integers; a charge is the exact ceiling, which the source
    computes in double precision (exact while quantity times price is below
    2^53). *)

From stdpp Require Import sorting.
From S2P Require Import Prelude JsString.

Module Credits.

(** ** Tables *)

Record OrgMetadata := {
  o_credits : Z;
  o_tier : jsstr;
  o_stripeCustomerId : option jsstr;
  o_stripeSubscriptionId : option jsstr;
  o_autoRechargeEnabled : bool;
  o_autoRechargeThreshold : option Z;
  o_autoRechargeAmount : option Z;
  o_autoRechargePendingAt : option Z;
}.

Record CreditExpiresRecord := {
  x_id : Z;
  x_orgId : jsstr;
  x_remaining : Z;
  x_expiresAt : Z;
}.

Inductive EventStatus := EvPending | EvProcessed.
#[export] Instance event_status_eq_dec : EqDecision EventStatus.
Proof. solve_decision. Defined.

Record UsageEvent := {
  e_id : Z;
  e_runId : option jsstr;
  e_orgId : jsstr;
  e_kind : jsstr;
  e_provider : jsstr;
  e_category : jsstr;
  e_quantity : Z;
  e_creditsCharged : option Z;
  e_status : EventStatus;
  e_billingError : option jsstr;
  e_processedAt : option Z;
}.

Record UsagePricing := {
  p_kind : jsstr;
  p_provider : jsstr;
  p_category : jsstr;
  p_unitPrice : Z;
  p_unitSize : Z;
}.

(** Paid invoices sent to the payment provider. *)
Record Invoice := { i_orgId : jsstr; i_customer : jsstr; i_paymentMethod : jsstr; i_credits : Z; i_cents : Z }.

Record Store := {
  orgs : gmap jsstr OrgMetadata;
  expires : list CreditExpiresRecord;
  events : list UsageEvent;
  pricing : list UsagePricing;
  invoices : list Invoice;
}.

Definition with_orgs (f : gmap jsstr OrgMetadata -> gmap jsstr OrgMetadata) (s : Store) : Store :=
  {| orgs := f (orgs s); expires := expires s; events := events s; pricing := pricing s; invoices := invoices s |}.
Definition with_expires (f : list CreditExpiresRecord -> list CreditExpiresRecord) (s : Store) : Store :=
  {| orgs := orgs s; expires := f (expires s); events := events s; pricing := pricing s; invoices := invoices s |}.
Definition with_events (f : list UsageEvent -> list UsageEvent) (s : Store) : Store :=
  {| orgs := orgs s; expires := expires s; events := f (events s); pricing := pricing s; invoices := invoices s |}.
Definition add_invoice (i : Invoice) (s : Store) : Store :=
  {| orgs := orgs s; expires := expires s; events := events s; pricing := pricing s;
     invoices := invoices s ++ [i] |}.

Definition set_credits (c : Z) (o : OrgMetadata) : OrgMetadata :=
  {| o_credits := c; o_tier := o_tier o; o_stripeCustomerId := o_stripeCustomerId o;
     o_stripeSubscriptionId := o_stripeSubscriptionId o; o_autoRechargeEnabled := o_autoRechargeEnabled o;
     o_autoRechargeThreshold := o_autoRechargeThreshold o; o_autoRechargeAmount := o_autoRechargeAmount o;
     o_autoRechargePendingAt := o_autoRechargePendingAt o |}.
Definition set_pendingAt (t : option Z) (o : OrgMetadata) : OrgMetadata :=
  {| o_credits := o_credits o; o_tier := o_tier o; o_stripeCustomerId := o_stripeCustomerId o;
     o_stripeSubscriptionId := o_stripeSubscriptionId o; o_autoRechargeEnabled := o_autoRechargeEnabled o;
     o_autoRechargeThreshold := o_autoRechargeThreshold o; o_autoRechargeAmount := o_autoRechargeAmount o;
     o_autoRechargePendingAt := t |}.
Definition set_remaining (n : Z) (r : CreditExpiresRecord) : CreditExpiresRecord :=
  {| x_id := x_id r; x_orgId := x_orgId r; x_remaining := n; x_expiresAt := x_expiresAt r |}.

(** The defaults of a new organization row. *)
Definition default_org (credits : Z) : OrgMetadata :=
  {| o_credits := credits; o_tier := js "pro-suspend"; o_stripeCustomerId := None;
     o_stripeSubscriptionId := None; o_autoRechargeEnabled := false; o_autoRechargeThreshold := None;
     o_autoRechargeAmount := None; o_autoRechargePendingAt := None |}.

(** ** Deduction *)

Definition deductOrgCredits (orgId : jsstr) (amount : Z) (s : Store) : Store :=
  with_orgs (fun m => match m !! orgId with
                      | Some o => <[orgId := set_credits (o_credits o - amount) o]> m
                      | None => <[orgId := default_org (- amount)]> m
                      end) s.

(** [UPDATE credit_expires_record SET remaining = n WHERE id = ..] *)
Definition update_remaining (id n : Z) : Store -> Store :=
  with_expires (fmap (fun r => if x_id r =? id then set_remaining n r else r)).

Definition is_expired (now : Z) (orgId : jsstr) (r : CreditExpiresRecord) : bool :=
  bool_decide (x_orgId r = orgId) && (x_expiresAt r <=? now) && (0 <? x_remaining r).

Definition is_spendable (now : Z) (orgId : jsstr) (r : CreditExpiresRecord) : bool :=
  bool_decide (x_orgId r = orgId) && (0 <? x_remaining r) && (now <? x_expiresAt r).

Fixpoint expireLoop (expired : list CreditExpiresRecord) (totalExpired : Z) (s : Store) : Z * Store :=
  match expired with
  | [] => (totalExpired, s)
  | record :: expired' =>
      expireLoop expired' (totalExpired + x_remaining record) (update_remaining (x_id record) 0 s)
  end.

Definition expireCredits (now : Z) (orgId : jsstr) (s : Store) : Z * Store :=
  let expired := filter (fun r => is_expired now orgId r = true) (expires s) in
  if (length expired =? 0)%nat then (0, s)
  else
    let '(totalExpired, s1) := expireLoop expired 0 s in
    (totalExpired,
     if 0 <? totalExpired
     then with_orgs (fun m => match m !! orgId with
                              | Some o => <[orgId := set_credits (Z.max (o_credits o - totalExpired) 0) o]> m
                              | None => m
                              end) s1
     else s1).

(** [ORDER BY expires_at ASC] *)
Fixpoint insert_by_expiry (r : CreditExpiresRecord) (l : list CreditExpiresRecord) : list CreditExpiresRecord :=
  match l with
  | [] => [r]
  | x :: l' => if x_expiresAt r <=? x_expiresAt x then r :: l else x :: insert_by_expiry r l'
  end.
Definition order_by_expiry (l : list CreditExpiresRecord) : list CreditExpiresRecord :=
  foldr insert_by_expiry [] l.

Fixpoint deductLoop (records : list CreditExpiresRecord) (left : Z) (s : Store) : Store :=
  match records with
  | [] => s
  | record :: records' =>
      if left <=? 0 then s
      else
        let deduct := Z.min left (x_remaining record) in
        deductLoop records' (left - deduct) (update_remaining (x_id record) (x_remaining record - deduct) s)
  end.

Definition deductFromExpiresRecords (now : Z) (orgId : jsstr) (amount : Z) (s : Store) : Store :=
  if amount <=? 0 then s
  else deductLoop (order_by_expiry (filter (fun r => is_spendable now orgId r = true) (expires s))) amount s.

(** ** Charging *)

Definition pricing_key (kind provider category : jsstr) : jsstr :=
  kind ++ js "|" ++ provider ++ js "|" ++ category.

(** [new Map(..)] keeps the last row of a key. *)
Definition pricingByKey (l : list UsagePricing) (key : jsstr) : option UsagePricing :=
  last (filter (fun p => pricing_key (p_kind p) (p_provider p) (p_category p) = key) l).

Definition FALLBACK : jsstr := js "__fallback__".

(** [Math.ceil((quantity * unitPrice) / unitSize)] *)
Definition ceil_div (a b : Z) : Z := - ((- a) / b).

(** The charge and billing error of one event; [None] is a missing price. *)
Definition charge (prices : list UsagePricing) (e : UsageEvent) : option (Z * option jsstr) :=
  match pricingByKey prices (pricing_key (e_kind e) (e_provider e) (e_category e)) with
  | Some p => Some (ceil_div (e_quantity e * p_unitPrice p) (p_unitSize p), None)
  | None =>
      match pricingByKey prices (pricing_key (e_kind e) (e_provider e) FALLBACK) with
      | Some p => Some (ceil_div (e_quantity e * p_unitPrice p) (p_unitSize p), Some (js "fallback_pricing"))
      | None => None
      end
  end.

Definition mark_processed (now charged : Z) (error : option jsstr) (e : UsageEvent) : UsageEvent :=
  {| e_id := e_id e; e_runId := e_runId e; e_orgId := e_orgId e; e_kind := e_kind e;
     e_provider := e_provider e; e_category := e_category e; e_quantity := e_quantity e;
     e_creditsCharged := Some charged; e_status := EvProcessed; e_billingError := error;
     e_processedAt := Some now |}.

Definition update_event (id : Z) (f : UsageEvent -> UsageEvent) : Store -> Store :=
  with_events (fmap (fun e => if e_id e =? id then f e else e)).

Definition is_pending (orgId : jsstr) (e : UsageEvent) : bool :=
  bool_decide (e_orgId e = orgId) && bool_decide (e_status e = EvPending).

Fixpoint chargeLoop (now : Z) (prices : list UsagePricing) (pending : list UsageEvent) (totalCredits : Z)
    (s : Store) : Z * Store :=
  match pending with
  | [] => (totalCredits, s)
  | record :: pending' =>
      match charge prices record with
      | None =>
          chargeLoop now prices pending' totalCredits
            (update_event (e_id record) (mark_processed now 0 (Some (js "missing_pricing"))) s)
      | Some (creditsCharged, billingError) =>
          chargeLoop now prices pending' (totalCredits + creditsCharged)
            (update_event (e_id record) (mark_processed now creditsCharged billingError) s)
      end
  end.

(** The transaction of [processOrgUsageEvents$]. *)
Definition settleUsage (now : Z) (orgId : jsstr) (s : Store) : Z * Store :=
  let pendingRecords := filter (fun e => is_pending orgId e = true) (events s) in
  if (length pendingRecords =? 0)%nat then (0, s)
  else
    let '(totalCredits, s1) := chargeLoop now (pricing s) pendingRecords 0 s in
    (totalCredits,
     if 0 <? totalCredits
     then deductFromExpiresRecords now orgId totalCredits
            (deductOrgCredits orgId totalCredits (expireCredits now orgId s1).2)
     else s1).

(** ** Automatic recharge *)

Definition CREDITS_PER_DOLLAR : Z := 1000.
Definition STALE_THRESHOLD_MS : Z := 10 * 60 * 1000.

(** The answers of the payment provider. *)
Record StripeCustomer := { sc_deleted : bool; sc_defaultPaymentMethod : option jsstr }.
Record Stripe := {
  retrieve_customer : jsstr -> result StripeCustomer;
  retrieve_subscription : jsstr -> result (option jsstr);
  pay_invoice : jsstr -> Z -> result unit;
}.

Record ClaimedRechargeState := {
  cl_stripeCustomerId : jsstr;
  cl_stripeSubscriptionId : option jsstr;
  cl_autoRechargeAmount : Z;
}.

Definition nonempty (s : option jsstr) : option jsstr := match s with Some [] => None | x => x end.

Definition resolvePaymentMethod (stripe : Stripe) (org : ClaimedRechargeState) : result (option jsstr) :=
  customer ← retrieve_customer stripe (cl_stripeCustomerId org);
  if sc_deleted customer then Ok None
  else match nonempty (sc_defaultPaymentMethod customer) with
  | Some pm => Ok (Some pm)
  | None =>
      match nonempty (cl_stripeSubscriptionId org) with
      | Some sub => subPm ← retrieve_subscription stripe sub; Ok (nonempty subPm)
      | None => Ok None
      end
  end.

(** The guarded update that claims the recharge slot. *)
Definition rechargeable (now : Z) (o : OrgMetadata) : option ClaimedRechargeState :=
  match o_stripeCustomerId o, o_autoRechargeThreshold o, o_autoRechargeAmount o with
  | Some customer, Some threshold, Some amount =>
      if o_autoRechargeEnabled o && (bool_decide (o_tier o = js "pro") || bool_decide (o_tier o = js "team")) &&
         (o_credits o <=? threshold) &&
         match o_autoRechargePendingAt o with None => true | Some t => t <? now - STALE_THRESHOLD_MS end
      then Some {| cl_stripeCustomerId := customer; cl_stripeSubscriptionId := o_stripeSubscriptionId o;
                   cl_autoRechargeAmount := amount |}
      else None
  | _, _, _ => None
  end.

Definition claimRecharge (now : Z) (orgId : jsstr) (s : Store) : option ClaimedRechargeState * Store :=
  match orgs s !! orgId with
  | Some o =>
      match rechargeable now o with
      | Some c => (Some c, with_orgs (<[orgId := set_pendingAt (Some now) o]>) s)
      | None => (None, s)
      end
  | None => (None, s)
  end.

Definition clearPendingFlag (orgId : jsstr) : Store -> Store :=
  with_orgs (alter (set_pendingAt None) orgId).

Definition triggerAutoRecharge (stripe : Stripe) (now : Z) (orgId : jsstr) (s : Store) : Store :=
  match claimRecharge now orgId s with
  | (None, s1) => s1
  | (Some org, s1) =>
      let creditsAmount := cl_autoRechargeAmount org in
      let amountCents := ceil_div creditsAmount CREDITS_PER_DOLLAR * 100 in
      match resolvePaymentMethod stripe org with
      | Throw _ => clearPendingFlag orgId s1
      | Ok None => clearPendingFlag orgId s1
      | Ok (Some pm) =>
          match pay_invoice stripe (cl_stripeCustomerId org) amountCents with
          | Throw _ => clearPendingFlag orgId s1
          | Ok _ => add_invoice {| i_orgId := orgId; i_customer := cl_stripeCustomerId org; i_paymentMethod := pm;
                                   i_credits := creditsAmount; i_cents := amountCents |} s1
          end
      end
  end.

Definition processOrgUsageEvents (stripe : Stripe) (now : Z) (orgId : jsstr) (s : Store) : Store :=
  let '(totalCredits, s1) := settleUsage now orgId s in
  if 0 <? totalCredits then triggerAutoRecharge stripe now orgId s1 else s1.

(** ** Admission *)

Record OrgCreditAvailability := { av_tier : jsstr; av_spendableCredits : Z }.

Definition unsettled_expired (now : Z) (orgId : jsstr) (s : Store) : Z :=
  foldr (fun r acc => x_remaining r + acc) 0 (filter (fun r => is_expired now orgId r = true) (expires s)).

Definition resolveOrgCreditAvailability (now : Z) (orgId : jsstr) (s : Store) : option OrgCreditAvailability :=
  (fun o => {| av_tier := o_tier o; av_spendableCredits := o_credits o - unsettled_expired now orgId s |})
    <$> orgs s !! orgId.

(** [false] is the insufficient credits response. *)
Definition checkOrgCreditsForRunAdmission (now : Z) (orgId : jsstr) (modelProviderType : option jsstr)
    (s : Store) : bool :=
  match resolveOrgCreditAvailability now orgId s with
  | None => false
  | Some availability =>
      if bool_decide (av_tier availability = js "pro-suspend") then false
      else if negb (bool_decide (modelProviderType = Some (js "vm0"))) then true
      else 0 <? av_spendableCredits availability
  end.

(** ** Theorems: grants *)

(** The remaining credits of the grant [id]. *)
Definition remaining_of (s : Store) (id : Z) : option Z :=
  match list_find (fun r => x_id r = id) (expires s) with Some (_, r) => Some (x_remaining r) | None => None end.

Lemma remaining_of_update id n s j :
  remaining_of (update_remaining id n s) j = (fun m => if j =? id then n else m) <$> remaining_of s j.
Proof.
  unfold remaining_of. cbn. induction (expires s) as [|r l IH]; [done|]. cbn [fmap list_fmap list_find].
  destruct (Z.eqb_spec (x_id r) id) as [Hid|Hid].
  - cbn [x_id set_remaining]. destruct (decide (x_id r = j)) as [<-|Hj].
    + cbn. by rewrite Hid, Z.eqb_refl.
    + destruct (list_find _ _) as [[? ?]|], (list_find (fun r => x_id r = j) l) as [[? ?]|]; done.
  - destruct (decide (x_id r = j)) as [<-|Hj].
    + cbn. by destruct (Z.eqb_spec (x_id r) id).
    + destruct (list_find _ _) as [[? ?]|], (list_find (fun r => x_id r = j) l) as [[? ?]|]; done.
Qed.

Definition total (l : list CreditExpiresRecord) : Z := foldr (fun r acc => x_remaining r + acc) 0 l.

(** What a deduction of [left] takes from the [i]-th grant of a list. *)
Definition taken (l : list CreditExpiresRecord) (i : nat) (left remaining : Z) : Z :=
  Z.max 0 (Z.min remaining (left - total (take i l))).

Lemma deductLoop_other records left s id :
  id ∉ x_id <$> records -> remaining_of (deductLoop records left s) id = remaining_of s id.
Proof.
  revert left s; induction records as [|r records IH]; intros left s Hid; cbn [deductLoop]; [done|].
  destruct (left <=? 0); [done|]. csimpl in *. apply not_elem_of_cons in Hid as [Hne Hid].
  rewrite IH, remaining_of_update by done. apply Z.eqb_neq in Hne. rewrite Hne.
  by destruct (remaining_of s id).
Qed.

Lemma total_nonneg l : (forall r, r ∈ l -> 0 <= x_remaining r) -> 0 <= total l.
Proof.
  induction l as [|r l IH]; intros Hl; cbn; [lia|]. assert (0 <= x_remaining r) by (apply Hl; set_solver).
  assert (0 <= total l) by (apply IH; set_solver). unfold total in *. lia.
Qed.

Lemma deductLoop_fefo records left s i r :
  NoDup (x_id <$> records) -> (forall q, q ∈ records -> 0 < x_remaining q) ->
  (forall q, q ∈ records -> remaining_of s (x_id q) = Some (x_remaining q)) ->
  records !! i = Some r ->
  remaining_of (deductLoop records left s) (x_id r) = Some (x_remaining r - taken records i left (x_remaining r)).
Proof.
  revert left s i; induction records as [|q records IH]; intros left s i Hnd Hpos Hcur Hi; [done|].
  csimpl in *. apply NoDup_cons in Hnd as [Hq Hnd].
  assert (0 < x_remaining q) as Hqpos by (apply Hpos; set_solver).
  destruct (Z.leb_spec left 0) as [Hle|Hgt].
  - rewrite Hcur by (apply list_elem_of_lookup_2 in Hi; done). f_equal. unfold taken.
    assert (0 <= total (take i (q :: records))).
    { apply total_nonneg. intros x Hx. apply elem_of_take in Hx as (k & Hk & _).
      apply list_elem_of_lookup_2, Hpos in Hk. lia. }
    lia.
  - destruct i as [|i]; cbn in Hi.
    + injection Hi as <-. rewrite deductLoop_other by done. rewrite remaining_of_update, Hcur by set_solver.
      cbn. rewrite Z.eqb_refl. f_equal. unfold taken. cbn. lia.
    + rewrite (IH _ _ i); [|done|set_solver| |done].
      * assert (0 <= total (take i records)) as Ht.
        { apply total_nonneg. intros x Hx. apply elem_of_take in Hx as (k & Hk & _).
          apply list_elem_of_lookup_2 in Hk. assert (0 < x_remaining x) by (apply Hpos; set_solver). lia. }
        f_equal. unfold taken. change (take (S i) (q :: records)) with (q :: take i records).
        change (total (q :: take i records)) with (x_remaining q + total (take i records)). lia.
      * intros x Hx. rewrite remaining_of_update, Hcur by set_solver. cbn.
        destruct (Z.eqb_spec (x_id x) (x_id q)) as [Heq|]; [|done].
        exfalso. apply Hq. rewrite <- Heq. by apply list_elem_of_fmap_2.
Qed.

Lemma insert_by_expiry_perm r l : insert_by_expiry r l ≡ₚ r :: l.
Proof.
  induction l as [|x l IH]; cbn [insert_by_expiry]; [done|]. destruct (_ <=? _); [done|].
  rewrite IH. by constructor.
Qed.
Lemma order_by_expiry_perm l : order_by_expiry l ≡ₚ l.
Proof.
  induction l as [|r l IH]; [done|]. unfold order_by_expiry in *. cbn [foldr].
  by rewrite insert_by_expiry_perm, IH.
Qed.
Lemma order_by_expiry_sorted l :
  StronglySorted (fun a b => x_expiresAt a <= x_expiresAt b) (order_by_expiry l).
Proof.
  induction l as [|r l IH]; [constructor|]. unfold order_by_expiry in *. cbn [foldr].
  induction IH as [|x k Hs IHk Hx]; cbn [insert_by_expiry]; [repeat constructor|].
  destruct (Z.leb_spec (x_expiresAt r) (x_expiresAt x)) as [Hle|Hgt].
  - constructor; [by constructor|]. constructor; [done|]. eapply Forall_impl; [exact Hx|]. simpl. lia.
  - constructor; [done|]. rewrite insert_by_expiry_perm. constructor; [lia|done].
Qed.

Lemma remaining_of_unique s r :
  NoDup (x_id <$> expires s) -> r ∈ expires s -> remaining_of s (x_id r) = Some (x_remaining r).
Proof.
  intros Hnd Hr. unfold remaining_of.
  destruct (list_find (fun q => x_id q = x_id r) (expires s)) as [[k q]|] eqn:Hf.
  - apply list_find_Some in Hf as (Hk & Hid & _). apply list_elem_of_lookup_1 in Hr as [k' Hk'].
    assert (k = k') as -> by (apply (NoDup_lookup _ k k' (x_id r) Hnd); rewrite list_lookup_fmap, ?Hk, ?Hk'; simpl; congruence).
    congruence.
  - apply list_find_None in Hf. rewrite Forall_forall in Hf. by destruct (Hf r Hr).
Qed.

(** The grants a deduction may use, earliest expiry first. *)
Definition spendable (now : Z) (orgId : jsstr) (s : Store) : list CreditExpiresRecord :=
  order_by_expiry (filter (fun r => is_spendable now orgId r = true) (expires s)).

Lemma elem_of_spendable now orgId s r :
  r ∈ spendable now orgId s <-> r ∈ expires s /\ is_spendable now orgId r = true.
Proof. unfold spendable. rewrite order_by_expiry_perm, list_elem_of_filter. tauto. Qed.

(** Charging an organization consumes its expiring grants first-expiring first:
    the grant at position [i] in expiry order gives what the earlier ones could not
    cover, at most what it has, and never becomes negative; no other grant (of
    another organization, expired or empty) is touched. *)
Theorem deductFromExpiresRecords_fefo now orgId amount s :
  NoDup (x_id <$> expires s) ->
  (forall i r, spendable now orgId s !! i = Some r ->
     remaining_of (deductFromExpiresRecords now orgId amount s) (x_id r) =
       Some (x_remaining r - taken (spendable now orgId s) i amount (x_remaining r)) /\
     0 <= x_remaining r - taken (spendable now orgId s) i amount (x_remaining r)) /\
  (forall r, r ∈ expires s -> is_spendable now orgId r = false ->
     remaining_of (deductFromExpiresRecords now orgId amount s) (x_id r) = Some (x_remaining r)) /\
  StronglySorted (fun a b => x_expiresAt a <= x_expiresAt b) (spendable now orgId s).
Proof.
  intros Hnd.
  assert (NoDup (x_id <$> spendable now orgId s)) as Hnd'.
  { unfold spendable. rewrite order_by_expiry_perm. eapply sublist_NoDup; [exact Hnd|].
    apply fmap_sublist, sublist_filter. }
  assert (forall q, q ∈ spendable now orgId s -> 0 < x_remaining q) as Hpos.
  { intros q [_ Hq]%elem_of_spendable. unfold is_spendable in Hq. bool_facts. lia. }
  assert (forall q, q ∈ spendable now orgId s -> remaining_of s (x_id q) = Some (x_remaining q)) as Hcur.
  { intros q [Hq _]%elem_of_spendable. by apply remaining_of_unique. }
  assert (forall i, 0 <= total (take i (spendable now orgId s))) as Htot.
  { intros i. apply total_nonneg. intros x Hx. apply elem_of_take in Hx as (k & Hk & _).
    apply list_elem_of_lookup_2, Hpos in Hk. lia. }
  unfold deductFromExpiresRecords. fold (spendable now orgId s).
  split_and!; [|intros r Hr Hns|apply order_by_expiry_sorted].
  - intros i r Hi. pose proof (Hpos r ltac:(by apply list_elem_of_lookup_2 in Hi)) as Hrpos.
    split; [|unfold taken; lia]. destruct (Z.leb_spec amount 0) as [Hle|Hgt].
    + rewrite Hcur by (by apply list_elem_of_lookup_2 in Hi). f_equal. unfold taken. specialize (Htot i). lia.
    + by apply deductLoop_fefo.
  - destruct (amount <=? 0); [by apply remaining_of_unique|].
    rewrite deductLoop_other; [by apply remaining_of_unique|].
    intros (q & Hid & Hq)%list_elem_of_fmap. apply elem_of_spendable in Hq as [Hq Hsp].
    assert (q = r) as ->; [|congruence].
    apply list_elem_of_lookup_1 in Hq as [k Hk], Hr as [k' Hk'].
    assert (k = k') as -> by (apply (NoDup_lookup _ k k' (x_id r) Hnd); rewrite list_lookup_fmap, ?Hk, ?Hk'; simpl; congruence).
    congruence.
Qed.

(** ** Theorems: usage events *)

Definition charged (prices : list UsagePricing) (e : UsageEvent) : Z :=
  match charge prices e with Some (c, _) => c | None => 0 end.

Definition settled (now : Z) (prices : list UsagePricing) (e : UsageEvent) : UsageEvent :=
  match charge prices e with
  | Some (c, err) => mark_processed now c err e
  | None => mark_processed now 0 (Some (js "missing_pricing")) e
  end.

Definition sum_charges (prices : list UsagePricing) (l : list UsageEvent) : Z :=
  foldr (fun e acc => charged prices e + acc) 0 l.

#[export] Instance usage_event_eq_dec : EqDecision UsageEvent.
Proof. solve_decision. Defined.

Lemma settled_id now prices e : e_id (settled now prices e) = e_id e.
Proof. unfold settled. by destruct (charge prices e) as [[? ?]|]. Qed.

Lemma event_id_inj s e e' :
  NoDup (e_id <$> events s) -> e ∈ events s -> e' ∈ events s -> e_id e = e_id e' -> e = e'.
Proof.
  intros Hnd He He' Hid. apply list_elem_of_lookup_1 in He as [k Hk], He' as [k' Hk'].
  assert (k = k') as -> by (apply (NoDup_lookup _ k k' (e_id e) Hnd); rewrite list_lookup_fmap, ?Hk, ?Hk'; simpl; congruence).
  congruence.
Qed.

Lemma fmap_ext_in {A B} (f g : A -> B) (l : list A) : (forall x, x ∈ l -> f x = g x) -> f <$> l = g <$> l.
Proof. intros Hfg. apply list_fmap_ext. intros i x Hx. apply Hfg. by apply list_elem_of_lookup_2 in Hx. Qed.

Lemma chargeLoop_spec now prices pending tot s :
  NoDup (e_id <$> events s) -> NoDup (e_id <$> pending) -> (forall e, e ∈ pending -> e ∈ events s) ->
  chargeLoop now prices pending tot s =
    (tot + sum_charges prices pending,
     with_events (fmap (fun e => if bool_decide (e ∈ pending) then settled now prices e else e)) s).
Proof.
  revert tot s; induction pending as [|p pending IH]; intros tot s Hnd Hndp Hsub; cbn [chargeLoop].
  - f_equal; [cbn; lia|]. destruct s as [o x e pr iv]. unfold with_events. cbn. f_equal. symmetry.
    rewrite <- (list_fmap_id e) at 2. by apply fmap_ext_in.
  - csimpl in Hndp. apply NoDup_cons in Hndp as [Hp Hndp].
    assert (forall f, (forall e, e_id (f e) = e_id e) ->
      let s1 := update_event (e_id p) f s in
      NoDup (e_id <$> events s1) /\ (forall e, e ∈ pending -> e ∈ events s1)) as Hkeep.
    { intros f Hf s1. split; cbn.
      - rewrite <- list_fmap_compose. erewrite fmap_ext_in; [exact Hnd|]. intros e He. cbn.
        destruct (_ =? _); [by rewrite Hf|done].
      - intros e He. apply list_elem_of_fmap. exists e. split; [|apply Hsub; set_solver].
        destruct (Z.eqb_spec (e_id e) (e_id p)) as [Heq|]; [|done].
        exfalso. apply Hp. rewrite <- Heq. by apply list_elem_of_fmap_2. }
    assert (forall f, f p = settled now prices p -> (forall e, e_id (f e) = e_id e) ->
      with_events (fmap (fun e => if bool_decide (e ∈ pending) then settled now prices e else e))
        (update_event (e_id p) f s) =
      with_events (fmap (fun e => if bool_decide (e ∈ p :: pending) then settled now prices e else e)) s) as Hcomp.
    { intros f Hfp Hf. unfold with_events. cbn. f_equal. rewrite <- list_fmap_compose. apply fmap_ext_in.
      intros e He. cbn. destruct (Z.eqb_spec (e_id e) (e_id p)) as [Heq|Hne].
      - assert (e = p) as -> by (eapply event_id_inj; eauto; apply Hsub; set_solver).
        rewrite (bool_decide_eq_true_2 (p ∈ p :: pending)) by set_solver. rewrite <- Hfp.
        rewrite bool_decide_eq_false_2; [done|]. intros Hin. apply Hp. rewrite <- (Hf p).
        by apply list_elem_of_fmap_2.
      - assert (e <> p) by congruence. repeat case_bool_decide; set_solver. }
    unfold sum_charges. cbn [foldr]. unfold charged at 1. unfold settled in Hcomp at 1.
    destruct (charge prices p) as [[c err]|];
      (rewrite IH; [|apply Hkeep; done|done|apply Hkeep; done]);
      (apply (f_equal2 pair); [unfold sum_charges; lia|]); apply Hcomp; done.
Qed.

Lemma expireLoop_frame expired t s :
  orgs (expireLoop expired t s).2 = orgs s /\ events (expireLoop expired t s).2 = events s /\
  (expireLoop expired t s).1 = t + total expired.
Proof.
  revert t s; induction expired as [|r l IH]; intros t s; cbn [expireLoop]; [cbn; split_and!; [done|done|lia]|].
  destruct (IH (t + x_remaining r) (update_remaining (x_id r) 0 s)) as (H1 & H2 & H3).
  rewrite H1, H2, H3. split_and!; [done|done|]. unfold total. cbn. lia.
Qed.

Lemma deductLoop_frame records left s :
  orgs (deductLoop records left s) = orgs s /\ events (deductLoop records left s) = events s.
Proof.
  revert left s; induction records as [|r records IH]; intros left s; cbn [deductLoop]; [done|].
  destruct (_ <=? _); [done|].
  destruct (IH (left - Z.min left (x_remaining r))
              (update_remaining (x_id r) (x_remaining r - Z.min left (x_remaining r)) s)) as [-> ->]. done.
Qed.

Lemma deduct_frame now orgId amount s :
  orgs (deductFromExpiresRecords now orgId amount s) = orgs s /\
  events (deductFromExpiresRecords now orgId amount s) = events s.
Proof. unfold deductFromExpiresRecords. destruct (_ <=? _); [done|]. apply deductLoop_frame. Qed.

Lemma expireCredits_frame now orgId s : events (expireCredits now orgId s).2 = events s.
Proof.
  unfold expireCredits. destruct (_ =? _)%nat; [done|].
  match goal with |- context [expireLoop ?l 0 s] => pose proof (expireLoop_frame l 0 s) as (_ & H2 & _);
    destruct (expireLoop l 0 s) as [t s1] end.
  cbn in *. by destruct (0 <? t).
Qed.

(** The balance after expired grants are settled. *)
Lemma expireCredits_org now orgId s o :
  orgs s !! orgId = Some o ->
  let expired := total (filter (fun r => is_expired now orgId r = true) (expires s)) in
  orgs (expireCredits now orgId s).2 !! orgId =
    Some (if 0 <? expired then set_credits (Z.max (o_credits o - expired) 0) o else o).
Proof.
  intros Ho expired. unfold expireCredits. destruct (length _ =? 0)%nat eqn:E.
  - apply Nat.eqb_eq, nil_length_inv in E. subst expired. by rewrite E.
  - pose proof (expireLoop_frame (filter (fun r => is_expired now orgId r = true) (expires s)) 0 s) as (H1 & _ & H3).
    fold expired in H3. destruct (expireLoop _ 0 s) as [t s1]. cbn [fst snd] in *. subst t.
    change (0 + expired) with expired. destruct (0 <? expired); cbn; rewrite H1, Ho; [|done].
    by rewrite lookup_insert_eq.
Qed.

Lemma settleUsage_events now orgId s :
  NoDup (e_id <$> events s) ->
  events (settleUsage now orgId s).2 =
    (fun e => if is_pending orgId e then settled now (pricing s) e else e) <$> events s.
Proof.
  intros Hnd. unfold settleUsage.
  assert (forall e, e ∈ events s ->
    (if bool_decide (e ∈ filter (fun e => is_pending orgId e = true) (events s))
     then settled now (pricing s) e else e) = if is_pending orgId e then settled now (pricing s) e else e) as Hext.
  { intros e He. destruct (is_pending orgId e) eqn:Hp.
    - rewrite bool_decide_eq_true_2; [done|]. by apply list_elem_of_filter.
    - rewrite bool_decide_eq_false_2; [done|]. rewrite list_elem_of_filter. intros [? _]. congruence. }
  destruct (length _ =? 0)%nat eqn:E.
  - apply Nat.eqb_eq, nil_length_inv in E. cbn. rewrite <- (list_fmap_id (events s)) at 1. apply fmap_ext_in.
    intros e He. rewrite <- Hext by done. by rewrite E.
  - rewrite chargeLoop_spec; [|done| |].
    + cbn [snd]. rewrite <- (fmap_ext_in _ _ _ Hext). destruct (0 <? _); [|done].
      rewrite (proj2 (deduct_frame _ _ _ _)). unfold deductOrgCredits. cbn [events with_orgs].
      by rewrite expireCredits_frame.
    + eapply sublist_NoDup; [exact Hnd|]. apply fmap_sublist, sublist_filter.
    + intros e. rewrite list_elem_of_filter. tauto.
Qed.

(** C10: settling the usage of an organization processes each of its pending events
    exactly once: every pending event gets its charge and is marked processed, no
    other event changes, and a second settlement finds nothing to charge and
    changes nothing. *)
Theorem settleUsage_once now later orgId s :
  NoDup (e_id <$> events s) ->
  let s' := (settleUsage now orgId s).2 in
  events s' = (fun e => if is_pending orgId e then settled now (pricing s) e else e) <$> events s /\
  settleUsage later orgId s' = (0, s').
Proof.
  intros Hnd s'. assert (events s' = _) as Hev by exact (settleUsage_events now orgId s Hnd).
  split; [done|]. unfold settleUsage. rewrite Hev.
  assert (filter (fun e => is_pending orgId e = true)
    ((fun e => if is_pending orgId e then settled now (pricing s) e else e) <$> events s) = []) as ->; [|done].
  apply elem_of_nil_inv. intros e. rewrite list_elem_of_filter, list_elem_of_fmap.
  intros (Hp & x & -> & Hx). destruct (is_pending orgId x) eqn:E; [|congruence].
  unfold is_pending, settled in Hp. destruct (charge (pricing s) x) as [[? ?]|]; cbn in Hp;
    by rewrite andb_false_r in Hp.
Qed.

(** The balance pays exactly the sum of the charges, after expired grants were
    taken off: with a positive sum the organization's credits become the settled
    balance minus that sum. *)
Theorem settleUsage_balance now orgId s o :
  NoDup (e_id <$> events s) -> orgs s !! orgId = Some o ->
  let due := sum_charges (pricing s) (filter (fun e => is_pending orgId e = true) (events s)) in
  let expired := total (filter (fun r => is_expired now orgId r = true) (expires s)) in
  0 < due ->
  o_credits <$> orgs (settleUsage now orgId s).2 !! orgId =
    Some ((if 0 <? expired then Z.max (o_credits o - expired) 0 else o_credits o) - due).
Proof.
  intros Hnd Ho due expired Hdue. unfold settleUsage.
  destruct (length _ =? 0)%nat eqn:E.
  { apply Nat.eqb_eq, nil_length_inv in E. subst due. rewrite E in Hdue. cbn in Hdue. lia. }
  rewrite chargeLoop_spec; [|done| |].
  2: { eapply sublist_NoDup; [exact Hnd|]. apply fmap_sublist, sublist_filter. }
  2: { intros e. rewrite list_elem_of_filter. tauto. }
  fold due. cbn [snd]. rewrite (proj2 (Z.ltb_lt 0 (0 + due))) by lia.
  rewrite (proj1 (deduct_frame _ _ _ _)). unfold deductOrgCredits. cbn [orgs with_orgs].
  rewrite (expireCredits_org now orgId _ o) by done. cbn [expires with_events]. fold expired.
  rewrite lookup_insert_eq. cbn [fmap option_fmap option_map]. f_equal.
  destruct (0 <? expired); cbn [o_credits set_credits]; lia.
Qed.

(** Expiring grants of an organization in debt forgives the debt: the balance is
    clamped at zero after the expired amount is taken off, so a negative balance is
    raised to zero. *)
Theorem expireCredits_forgives_debt now orgId s o :
  orgs s !! orgId = Some o -> o_credits o < 0 ->
  0 < total (filter (fun r => is_expired now orgId r = true) (expires s)) ->
  o_credits <$> orgs (expireCredits now orgId s).2 !! orgId = Some 0.
Proof.
  intros Ho Hneg Hexp. rewrite (expireCredits_org now orgId s o Ho).
  rewrite (proj2 (Z.ltb_lt _ _) Hexp). cbn [fmap option_fmap option_map o_credits set_credits]. f_equal. lia.
Qed.

(** ** Theorems: recharge *)

(** The recharge slot is exclusive: while a claim is recorded and younger than ten
    minutes no other trigger claims it; one trigger sends at most one invoice, the
    invoice covers the credits it grants, and a trigger that sends none releases
    the slot it claimed. *)
Theorem triggerAutoRecharge_exclusive stripe now orgId s s' :
  triggerAutoRecharge stripe now orgId s = s' ->
  (invoices s' = invoices s \/
   exists i, invoices s' = invoices s ++ [i] /\ i_orgId i = orgId /\ i_credits i <= 10 * i_cents i /\
     (o_autoRechargePendingAt <$> orgs s' !! orgId) = Some (Some now) /\
     forall later, now <= later <= now + STALE_THRESHOLD_MS ->
       (claimRecharge later orgId s').1 = None) /\
  (invoices s' = invoices s -> s' = s \/ (o_autoRechargePendingAt <$> orgs s' !! orgId) = Some None).
Proof.
  intros <-. unfold triggerAutoRecharge.
  destruct (claimRecharge now orgId s) as [c' s1] eqn:Hcl. unfold claimRecharge in Hcl.
  destruct (orgs s !! orgId) as [o|] eqn:Ho; [|injection Hcl as <- <-; split; [by left|by left]].
  destruct (rechargeable now o) as [c|] eqn:Hc; injection Hcl as <- <-; [|split; [by left|by left]].
  assert (invoices (clearPendingFlag orgId (with_orgs (<[orgId := set_pendingAt (Some now) o]>) s)) = invoices s /\
    (o_autoRechargePendingAt <$> orgs (clearPendingFlag orgId
       (with_orgs (<[orgId := set_pendingAt (Some now) o]>) s)) !! orgId) = Some None) as [C1 C2].
  { split; [done|]. cbn. by rewrite lookup_alter_eq, lookup_insert_eq. }
  destruct (resolvePaymentMethod stripe c) as [[pm|]|e];
    [|split; [by left|intros _; right; exact C2]|split; [by left|intros _; right; exact C2]].
  destruct (pay_invoice _ _ _); [|split; [by left|intros _; right; exact C2]]. split.
  - right. eexists. split; [done|]. cbn. rewrite lookup_insert_eq. cbn. split_and!; [done| |done|].
    + unfold ceil_div, CREDITS_PER_DOLLAR. pose proof (Z.mul_div_le (- cl_autoRechargeAmount c) 1000). lia.
    + intros later Hl. unfold claimRecharge. cbn. rewrite lookup_insert_eq.
      assert (rechargeable later (set_pendingAt (Some now) o) = None) as ->; [|done].
      unfold rechargeable. cbn. destruct (o_stripeCustomerId o), (o_autoRechargeThreshold o), (o_autoRechargeAmount o); try done.
      rewrite (proj2 (Z.ltb_ge now (later - STALE_THRESHOLD_MS))) by lia. by rewrite andb_false_r.
  - cbn. intros Heq. apply (f_equal length) in Heq. rewrite length_app in Heq. simpl in Heq. lia.
Qed.

(** ** Witnesses *)

Section Witnesses.

Definition sample_org (credits : Z) : OrgMetadata :=
  {| o_credits := credits; o_tier := js "pro"; o_stripeCustomerId := Some (js "cus");
     o_stripeSubscriptionId := None; o_autoRechargeEnabled := true; o_autoRechargeThreshold := Some 100;
     o_autoRechargeAmount := Some 2500; o_autoRechargePendingAt := None |}.

Definition sample_event : UsageEvent :=
  {| e_id := 1; e_runId := Some (js "r"); e_orgId := js "o"; e_kind := js "model"; e_provider := js "m";
     e_category := js "tokens"; e_quantity := 1500; e_creditsCharged := None; e_status := EvPending;
     e_billingError := None; e_processedAt := None |}.

Definition sample_store (credits : Z) : Store :=
  {| orgs := {[js "o" := sample_org credits]};
     expires := [{| x_id := 1; x_orgId := js "o"; x_remaining := 50; x_expiresAt := 90 |};
                 {| x_id := 2; x_orgId := js "o"; x_remaining := 30; x_expiresAt := 300 |};
                 {| x_id := 3; x_orgId := js "o"; x_remaining := 40; x_expiresAt := 200 |}];
     events := [sample_event];
     pricing := [{| p_kind := js "model"; p_provider := js "m"; p_category := js "tokens";
                    p_unitPrice := 30; p_unitSize := 1000 |}];
     invoices := [] |}.

Definition sample_stripe : Stripe :=
  {| retrieve_customer _ := Ok {| sc_deleted := false; sc_defaultPaymentMethod := Some (js "pm") |};
     retrieve_subscription _ := Ok None; pay_invoice _ _ := Ok tt |}.

(** The grant that expires first pays first. *)
Lemma deductFromExpiresRecords_fefo_witness :
  remaining_of (deductFromExpiresRecords 100 (js "o") 45 (sample_store 500)) 3 = Some 0.
Proof.
  destruct (deductFromExpiresRecords_fefo 100 (js "o") 45 (sample_store 500)) as (Hfefo & _ & _).
  - apply (bool_decide_eq_true_1 _). vm_compute. reflexivity.
  - edestruct (Hfefo 0%nat) as [Hr _]; [vm_compute; reflexivity|]. exact Hr.
Defined.

Lemma settleUsage_once_witness :
  settleUsage 200 (js "o") (settleUsage 100 (js "o") (sample_store 500)).2 =
    (0, (settleUsage 100 (js "o") (sample_store 500)).2).
Proof.
  apply (settleUsage_once 100 200 (js "o") (sample_store 500)).
  apply (bool_decide_eq_true_1 _). vm_compute. reflexivity.
Defined.

Lemma settleUsage_balance_witness :
  o_credits <$> orgs (settleUsage 100 (js "o") (sample_store 500)).2 !! js "o" = Some 405.
Proof.
  etransitivity; [eapply (settleUsage_balance 100 (js "o") (sample_store 500) (sample_org 500))|].
  - apply (bool_decide_eq_true_1 _). vm_compute. reflexivity.
  - vm_compute. reflexivity.
  - vm_compute. reflexivity.
  - vm_compute. reflexivity.
Defined.

(** A debt of 400 credits disappears when a grant of 50 expires. *)
Lemma expireCredits_forgives_debt_witness :
  o_credits <$> orgs (sample_store (-400)) !! js "o" = Some (-400) /\
  o_credits <$> orgs (expireCredits 100 (js "o") (sample_store (-400))).2 !! js "o" = Some 0.
Proof.
  split; [vm_compute; reflexivity|].
  apply (expireCredits_forgives_debt 100 (js "o") (sample_store (-400)) (sample_org (-400))).
  - vm_compute. reflexivity.
  - cbn. lia.
  - vm_compute. reflexivity.
Defined.

Lemma triggerAutoRecharge_exclusive_witness :
  exists s', triggerAutoRecharge sample_stripe 1000 (js "o") (sample_store 50) = s' /\ length (invoices s') = 1%nat /\
    (invoices s' = invoices (sample_store 50) ->
     s' = sample_store 50 \/ (o_autoRechargePendingAt <$> orgs s' !! js "o") = Some None).
Proof.
  eexists. split; [reflexivity|]. split; [vm_compute; reflexivity|].
  eapply (triggerAutoRecharge_exclusive sample_stripe 1000 (js "o") (sample_store 50)). reflexivity.
Defined.

End Witnesses.

End Credits.
