(* ===== verification/Billing.v ===== *)
(** Subscriptions of an organization
    (turbo/apps/api/src/signals/services/zero-billing-checkout.service.ts,
    zero-billing-restore.service.ts, zero-billing-downgrade.service.ts,
    stripe-subscription-schedules.service.ts, stripe-preview-metadata.service.ts,
    one-time-products.ts, cron-billing-entitlements.service.ts): the columns of an
    organization that follow its subscription, the ledger of credit grants, and the
    operations on them. The payment provider and the organization directory are the
    class [BillingServices]. *)

From S2P Require Import Prelude JsString JsRecord JsDate Credits.

Import JsDate.

Module Billing.

(** ** Tables *)

(** A row of [org_metadata]: the columns of [Credits] and those of a subscription. Times
    are milliseconds. *)
Record BillingOrg := {
  bo_core : Credits.OrgMetadata; bo_subscriptionStatus : option jsstr; bo_currentPeriodEnd : option Z;
  bo_cancelAtPeriodEnd : bool; bo_pendingScheduleId : option jsstr; bo_pendingTargetTier : option jsstr;
  bo_pendingChangeAt : option Z; bo_lastProcessedInvoiceId : option jsstr; bo_onboardingPaymentPending : bool;
  bo_updatedAt : Z }.

(** A row of [credit_expires_record]. *)
Record GrantRecord := {
  gr_core : Credits.CreditExpiresRecord; gr_source : jsstr; gr_invoiceId : option jsstr; gr_amount : Z }.

Definition bo_tier (o : BillingOrg) : jsstr := Credits.o_tier (bo_core o).
Definition bo_credits (o : BillingOrg) : Z := Credits.o_credits (bo_core o).
Definition bo_customerId (o : BillingOrg) : option jsstr := Credits.o_stripeCustomerId (bo_core o).
Definition bo_subscriptionId (o : BillingOrg) : option jsstr := Credits.o_stripeSubscriptionId (bo_core o).

(** Calls that change the state of the payment provider, and notifications. *)
Inductive StripeCall :=
| CancelSubscription (id : jsstr)
| SetDefaultPaymentMethod (customer paymentMethod : jsstr)
| ReleaseSchedule (id : jsstr)
| KeepSubscription (id : jsstr)
| CancelAtPeriodEnd (id : jsstr)
| CancelAt (id : jsstr) (seconds : Z)
| CreateSchedule (subscription : jsstr)
| EndSchedule (id : jsstr) (phase : option (Z * Z * jsstr * Z * list jsstr))
| PhaseSchedule (id : jsstr) (phases : list (Z * option Z * jsstr * Z * list jsstr))
| SetupCheckout (purpose orgId customer subscription returnUrl : jsstr)
| BillingChanged (orgId : jsstr).

(** The tables and the calls made. *)
Record BillingDb := {
  b_orgs : gmap jsstr BillingOrg; b_records : list GrantRecord; b_nextId : Z; b_calls : list StripeCall }.

(** ** Effects

    A computation keeps what it has written when it throws; a transaction restores the
    tables then, but not the calls. *)

Definition M (A : Type) : Type := BillingDb -> result A * BillingDb.

#[export] Instance M_ret : MRet M := fun A a s => (Ok a, s).
#[export] Instance M_bind : MBind M := fun A B f m s =>
  match m s with (Ok a, s') => f a s' | (Throw e, s') => (Throw e, s') end.

Definition get {A} (f : BillingDb -> A) : M A := fun s => (Ok (f s), s).
Definition modify (f : BillingDb -> BillingDb) : M unit := fun s => (Ok tt, f s).
Definition lift {A} (r : result A) : M A := fun s => (r, s).
Definition throw {A} (msg : jsstr) : M A := lift (Throw msg).

Definition with_calls (calls : list StripeCall) (s : BillingDb) : BillingDb :=
  {| b_orgs := b_orgs s; b_records := b_records s; b_nextId := b_nextId s; b_calls := calls |}.
Definition with_orgs (f : gmap jsstr BillingOrg -> gmap jsstr BillingOrg) (s : BillingDb) : BillingDb :=
  {| b_orgs := f (b_orgs s); b_records := b_records s; b_nextId := b_nextId s; b_calls := b_calls s |}.
Definition with_records (f : list GrantRecord -> list GrantRecord) (s : BillingDb) : BillingDb :=
  {| b_orgs := b_orgs s; b_records := f (b_records s); b_nextId := b_nextId s; b_calls := b_calls s |}.

Definition transaction {A} (m : M A) : M A := fun s =>
  match m s with (Ok a, s') => (Ok a, s') | (Throw e, s') => (Throw e, with_calls (b_calls s') s) end.

Definition find_org (p : BillingOrg -> bool) (s : BillingDb) : option (jsstr * BillingOrg) :=
  head (filter (fun kv => p kv.2 = true) (map_to_list (b_orgs s))).

Definition org_ids (p : BillingOrg -> bool) (s : BillingDb) : list jsstr :=
  (filter (fun kv => p kv.2 = true) (map_to_list (b_orgs s))).*1.

(** [UPDATE org_metadata SET .. WHERE p RETURNING org_id]. *)
Definition update_orgs (p : BillingOrg -> bool) (f : BillingOrg -> BillingOrg) : M (list jsstr) :=
  ids ← get (org_ids p); _ ← modify (with_orgs (fmap (fun o => if p o then f o else o))); mret ids.

(** [UPDATE org_metadata SET .. WHERE org_id = ..]. *)
Definition update_org (orgId : jsstr) (f : BillingOrg -> BillingOrg) : M unit := modify (with_orgs (alter f orgId)).

(** ** The payment provider *)

Record SubscriptionItem := {
  it_priceId : jsstr; it_recurring : bool; it_quantity : option Z; it_periodStart : Z; it_periodEnd : option Z }.

(** Expandable references ([string | { id }]) are their id. *)
Record SubscriptionInput := {
  si_id : jsstr; si_customer : option jsstr; si_status : jsstr; si_metadata : option (Rec jsstr);
  si_trialEnd : option Z; si_cancelAt : option Z; si_cancelAtPeriodEnd : bool; si_schedule : option jsstr;
  si_items : list SubscriptionItem; si_discounts : list jsstr; si_defaultPaymentMethod : option jsstr;
  si_defaultSource : option jsstr }.

Record StripeCustomer := {
  cu_deleted : bool; cu_metadata : Rec jsstr; cu_defaultPaymentMethod : option jsstr; cu_defaultSource : option jsstr }.

Record CheckoutSession := {
  se_customer : option jsstr; se_status : jsstr; se_mode : jsstr; se_subscription : option jsstr;
  se_setupPaymentMethod : option jsstr }.

Record SubscriptionSchedule := {
  sd_id : jsstr; sd_endsWithCancel : bool; sd_currentPhase : option (Z * Z); sd_phaseEnds : list Z }.

Inductive ClerkAnswer := ClerkFound | ClerkNotFound | ClerkError (msg : jsstr).

Record Campaign := { cp_credits : Z; cp_expiresDays : Z; cp_source : jsstr }.

(** What the payment provider, the organization directory and the environment answer. *)
Class BillingServices := {
  retrieveSubscription : jsstr -> result SubscriptionInput;
  retrieveSchedule : jsstr -> result SubscriptionSchedule;
  listSubscriptions : jsstr -> result (list SubscriptionInput);
  createSchedule : jsstr -> result SubscriptionSchedule;
  retrieveCustomer : jsstr -> result StripeCustomer;
  retrieveSession : jsstr -> result CheckoutSession;
  createSetupSession : StripeCall -> result (option jsstr);
  callStripe : StripeCall -> result unit;
  getOrganization : jsstr -> ClerkAnswer;
  zeroPrice : jsstr -> list jsstr;
  campaignConfigured : jsstr -> bool;
  stripePreviewJobRef : option jsstr;
}.

Section Services.
Context `{BillingServices}.

(** A call that succeeds is recorded. *)
Definition call (c : StripeCall) : M unit :=
  _ ← lift (callStripe c); modify (fun s => with_calls (b_calls s ++ [c]) s).

Definition truthy_text (o : option jsstr) : option jsstr := match o with Some [] => None | _ => o end.

(** [new Date(seconds * 1000)]. *)
Definition date_of_seconds (seconds : Z) : Z := seconds * 1000.

(** ** Preview metadata (stripe-preview-metadata.service.ts) *)

Definition isCurrentStripePreviewMetadata (metadata : option (Rec jsstr)) : bool :=
  match truthy_text stripePreviewJobRef with
  | None => true
  | Some jobRef =>
      bool_decide (metadata ≫= (fun m => rec_own m (js "vm0_environment")) = Some (js "preview")) &&
      bool_decide (metadata ≫= (fun m => rec_own m (js "job_ref")) = Some jobRef)
  end.

(** ** Campaigns (one-time-products.ts) *)

Definition CAMPAIGN_POLICY : Rec Campaign :=
  [(js "ZERO100", {| cp_credits := 100000; cp_expiresDays := 30; cp_source := js "one_time_purchase" |})].

(** A campaign needs a policy and a configuration. An inherited policy has no configuration. *)
Definition getCampaign (key : jsstr) : option Campaign :=
  policy ← rec_own CAMPAIGN_POLICY key; if campaignConfigured key then Some policy else None.

(** ** Tiers (zero-billing-checkout.service.ts) *)

Definition STRIPE_SUBSCRIPTION_PRICE_TIERS : list jsstr := [js "pro"; js "team"].

Definition activePriceId (tier : jsstr) : option jsstr := head (zeroPrice tier).

Definition tierForKnownPriceId (priceId : jsstr) : option jsstr :=
  head (filter (fun tier => priceId ∈ zeroPrice tier) STRIPE_SUBSCRIPTION_PRICE_TIERS).

Definition tierFromPriceId (priceId : jsstr) : result jsstr :=
  match tierForKnownPriceId priceId with
  | Some tier => Ok tier
  | None => Throw (js "Unknown Stripe price ID: " ++ priceId)
  end.

Definition billingTierRank (tier : option jsstr) : Z :=
  if bool_decide (tier = Some (js "team")) then 2 else if bool_decide (tier = Some (js "pro")) then 1 else 0.

Definition checkoutWouldReplaceWithSameOrLowerTier (currentTier : option jsstr) (targetTier : jsstr) : bool :=
  billingTierRank (Some targetTier) <=? billingTierRank currentTier.

(** ** Subscriptions *)

Definition first_price (subscription : SubscriptionInput) : option jsstr :=
  truthy_text (it_priceId <$> head (si_items subscription)).

Definition subscriptionScheduleId (subscription : SubscriptionInput) : option jsstr := si_schedule subscription.

Definition subscriptionCancelAt (subscription : SubscriptionInput) : option Z := date_of_seconds <$> si_cancelAt subscription.

Definition subscriptionWillCancel (subscription : SubscriptionInput) : bool :=
  si_cancelAtPeriodEnd subscription || bool_decide (is_Some (subscriptionCancelAt subscription)).

Definition subscriptionPeriodEnd (subscription : SubscriptionInput) : option Z :=
  item ← head (si_items subscription); date_of_seconds <$> it_periodEnd item.

(** The latest end of the phases and of the current one. *)
Definition subscriptionScheduleFinalEnd (schedule : SubscriptionSchedule) : option Z :=
  date_of_seconds <$> foldl (fun latest e => match latest with
    | None => Some e
    | Some l => if l <? e then Some e else latest end) (snd <$> sd_currentPhase schedule) (sd_phaseEnds schedule).

Definition subscriptionScheduleCancellationEnd (subscription : SubscriptionInput) : result (option Z) :=
  match truthy_text (subscriptionScheduleId subscription) with
  | None => Ok None
  | Some scheduleId =>
      schedule ← retrieveSchedule scheduleId;
      Ok (if negb (sd_endsWithCancel schedule) then None else subscriptionScheduleFinalEnd schedule)
  end.

(** ** Restoring a scheduled change (zero-billing-restore.service.ts) *)

Inductive RestoreResult := Restored | RestorePaymentMethodRequired (checkoutUrl : jsstr) | RestoreNoSubscription | NotScheduled.

Definition BILLING_RESTORE_PURPOSE : jsstr := js "billing_restore".
Definition BILLING_DOWNGRADE_PURPOSE : jsstr := js "billing_downgrade".

Definition clear_pending (now : Z) (cancelAtPeriodEnd : bool) (o : BillingOrg) : BillingOrg :=
  {| bo_core := bo_core o; bo_subscriptionStatus := bo_subscriptionStatus o;
     bo_currentPeriodEnd := bo_currentPeriodEnd o; bo_cancelAtPeriodEnd := cancelAtPeriodEnd;
     bo_pendingScheduleId := None; bo_pendingTargetTier := None; bo_pendingChangeAt := None;
     bo_lastProcessedInvoiceId := bo_lastProcessedInvoiceId o;
     bo_onboardingPaymentPending := bo_onboardingPaymentPending o; bo_updatedAt := now |}.

(** *** Payment methods (zero-billing-payment-method.service.ts) *)

Definition or_else (a b : option jsstr) : option jsstr := match a with Some _ => a | None => b end.

Definition subscriptionDefaultPaymentMethodId (subscription : SubscriptionInput) : option jsstr :=
  or_else (si_defaultPaymentMethod subscription) (si_defaultSource subscription).

Definition customerDefaultPaymentMethodId (customer : StripeCustomer) : option jsstr :=
  if cu_deleted customer then None else or_else (cu_defaultPaymentMethod customer) (cu_defaultSource customer).

Definition subscriptionCustomerId (customerId : option jsstr) (subscription : SubscriptionInput) : option jsstr :=
  match truthy_text customerId with Some c => Some c | None => si_customer subscription end.

(** Of an organization with a subscription; whether a payment method is ready, and the
    customer. *)
Definition billingDefaultPaymentMethodStatus (customerId : option jsstr) (subscription : SubscriptionInput) :
    result (bool * option jsstr) :=
  match truthy_text (subscriptionDefaultPaymentMethodId subscription) with
  | Some _ => Ok (true, subscriptionCustomerId customerId subscription)
  | None =>
      match truthy_text (subscriptionCustomerId customerId subscription) with
      | None => Ok (false, None)
      | Some customerId =>
          customer ← retrieveCustomer customerId;
          Ok (bool_decide (is_Some (customerDefaultPaymentMethodId customer)), Some customerId)
      end
  end.

Definition createBillingSetupCheckout (purpose orgId customerId subscriptionId returnUrl : jsstr) : result jsstr :=
  url ← createSetupSession (SetupCheckout purpose orgId customerId subscriptionId returnUrl);
  match truthy_text url with
  | Some url => Ok url
  | None => Throw (js "Stripe checkout session did not return a URL")
  end.

(** The checkout that collects a payment method, when none is ready. *)
Definition setup_checkout (purpose orgId subscriptionId : jsstr) (customerId returnUrl : option jsstr) (operation : jsstr) :
    M jsstr :=
  match truthy_text customerId with
  | None => throw (js "Stripe subscription has no customer for " ++ operation)
  | Some customer =>
      match truthy_text returnUrl with
      | None => throw (js "returnUrl is required to collect a payment method")
      | Some url => lift (createBillingSetupCheckout purpose orgId customer subscriptionId url)
      end
  end.

Definition restoreSubscriptionForOrg (now : Z) (orgId : jsstr) (returnUrl : option jsstr) (requirePaymentMethod : bool) :
    M RestoreResult :=
  org ← get (fun s => b_orgs s !! orgId);
  match truthy_text (org ≫= bo_subscriptionId) with
  | None => mret RestoreNoSubscription
  | Some subscriptionId =>
      let pendingScheduleId := truthy_text (org ≫= bo_pendingScheduleId) in
      if negb (default false (bo_cancelAtPeriodEnd <$> org)) && negb (bool_decide (is_Some pendingScheduleId))
      then mret NotScheduled
      else
        ready ← (if requirePaymentMethod then
                   lift (subscription ← retrieveSubscription subscriptionId;
                         billingDefaultPaymentMethodStatus (org ≫= bo_customerId) subscription)
                 else mret (true, None));
        if negb (fst ready) then
          url ← setup_checkout BILLING_RESTORE_PURPOSE orgId subscriptionId (snd ready) returnUrl (js "restore");
          mret (RestorePaymentMethodRequired url)
        else
          _ ← match pendingScheduleId with
              | Some scheduleId => call (ReleaseSchedule scheduleId)
              | None => call (KeepSubscription subscriptionId)
              end;
          _ ← update_org orgId (clear_pending now false);
          mret Restored
  end.

(** ** Downgrades (zero-billing-downgrade.service.ts) *)

Inductive DowngradeResult :=
| DowngradeScheduled (effectiveDate : Z)
| DowngradePaymentMethodRequired (checkoutUrl : jsstr)
| DowngradeNoSubscription
| InvalidTargetTier (currentTier targetTier : jsstr).

Definition set_pending (now : Z) (cancelAtPeriodEnd : bool) (scheduleId : option jsstr) (targetTier : jsstr)
    (effectiveDate : Z) (o : BillingOrg) : BillingOrg :=
  {| bo_core := bo_core o; bo_subscriptionStatus := bo_subscriptionStatus o;
     bo_currentPeriodEnd := Some effectiveDate; bo_cancelAtPeriodEnd := cancelAtPeriodEnd;
     bo_pendingScheduleId := scheduleId; bo_pendingTargetTier := Some targetTier;
     bo_pendingChangeAt := Some effectiveDate; bo_lastProcessedInvoiceId := bo_lastProcessedInvoiceId o;
     bo_onboardingPaymentPending := bo_onboardingPaymentPending o; bo_updatedAt := now |}.

Definition subscriptionCurrentItem (subscription : SubscriptionInput) : result SubscriptionItem :=
  match head (si_items subscription) with
  | Some item => Ok item
  | None => Throw (js "Subscription has no items")
  end.

Definition period_error : jsstr := js "Subscription period end must be after period start".

(** An item always has a period end in the answers of the provider. *)
Definition subscriptionItemPhaseRange (item : SubscriptionItem) : result (Z * Z) :=
  let endDate := default 0 (it_periodEnd item) in
  if endDate <=? it_periodStart item then Throw period_error else Ok (it_periodStart item, endDate).

Definition subscriptionPhaseRange (schedule : SubscriptionSchedule) (item : SubscriptionItem) : result (Z * Z) :=
  let startDate := default (it_periodStart item) (fst <$> sd_currentPhase schedule) in
  let endDate := default (default 0 (it_periodEnd item)) (snd <$> sd_currentPhase schedule) in
  if endDate <=? startDate then Throw period_error else Ok (startDate, endDate).

Definition subscriptionSchedulePhaseDiscounts (subscription : SubscriptionInput) : list jsstr :=
  filter (fun d => d <> []) (si_discounts subscription).

Definition phase_item (item : SubscriptionItem) : Z := default 1 (it_quantity item).

Definition shouldReplacePendingDowngradeSchedule (org : BillingOrg) (scheduleId : jsstr) : bool :=
  bool_decide (bo_tier org = js "team") && bool_decide (bo_pendingScheduleId org = Some scheduleId) &&
  bool_decide (bo_pendingTargetTier org = Some (js "pro")).

(** [context.org.pendingSubscriptionScheduleId ?? subscriptionScheduleId(subscription)]. *)
Definition schedule_of (org : BillingOrg) (subscription : SubscriptionInput) : option jsstr :=
  match bo_pendingScheduleId org with Some id => Some id | None => subscriptionScheduleId subscription end.

(** The end of a subscription whose cancellation is asked for, and the calls for it. *)
Definition cancellation_end (subscriptionId : jsstr) (org : BillingOrg) (subscription : SubscriptionInput)
    (item : SubscriptionItem) (range : Z * Z) : M Z :=
  let default_end := default (date_of_seconds range.2) (bo_currentPeriodEnd org) in
  match truthy_text (schedule_of org subscription) with
  | Some scheduleId =>
      if shouldReplacePendingDowngradeSchedule org scheduleId then
        _ ← call (EndSchedule scheduleId (Some (range.1, range.2, it_priceId item, phase_item item,
              subscriptionSchedulePhaseDiscounts subscription)));
        mret default_end
      else
        schedule ← lift (retrieveSchedule scheduleId);
        _ ← call (EndSchedule scheduleId None);
        mret (default default_end (subscriptionScheduleFinalEnd schedule))
  | None =>
      match subscriptionCancelAt subscription with
      | Some cancelAt => mret cancelAt
      | None =>
          match bo_currentPeriodEnd org with
          | Some e =>
              if range.2 <? e / 1000 then _ ← call (CancelAt subscriptionId (e / 1000)); mret e
              else _ ← call (CancelAtPeriodEnd subscriptionId); mret default_end
          | None => _ ← call (CancelAtPeriodEnd subscriptionId); mret default_end
          end
      end
  end.

Definition scheduleCancellationAtPeriodEnd (now : Z) (orgId subscriptionId : jsstr) (org : BillingOrg) : M Z :=
  subscription ← lift (retrieveSubscription subscriptionId);
  item ← lift (subscriptionCurrentItem subscription);
  range ← lift (subscriptionItemPhaseRange item);
  effectiveDate ← cancellation_end subscriptionId org subscription item range;
  _ ← update_org orgId (set_pending now true (schedule_of org subscription) (js "pro-suspend") effectiveDate);
  mret effectiveDate.

Definition scheduleDowngradeToPro (now : Z) (orgId subscriptionId : jsstr) (org : BillingOrg)
    (subscription : SubscriptionInput) : M Z :=
  item ← lift (subscriptionCurrentItem subscription);
  match truthy_text (activePriceId (js "pro")) with
  | None => throw (js "Pro plan price ID not configured")
  | Some proPriceId =>
      created ← (match truthy_text (schedule_of org subscription) with
        | Some _ => mret None
        | None => _ ← call (CreateSchedule subscriptionId); s ← lift (createSchedule subscriptionId); mret (Some s) end);
      match truthy_text (match schedule_of org subscription with Some id => Some id | None => sd_id <$> created end) with
      | None => throw (js "Subscription schedule ID is missing")
      | Some scheduleId =>
          range ← lift (match created with
            | Some s => subscriptionPhaseRange s item
            | None => subscriptionItemPhaseRange item end);
          let discounts := subscriptionSchedulePhaseDiscounts subscription in
          _ ← (if it_recurring item then
                 call (PhaseSchedule scheduleId
                   [(fst range, Some (snd range), it_priceId item, phase_item item, discounts);
                    (snd range, None, proPriceId, phase_item item, discounts)])
               else throw (js "Subscription price is not recurring"));
          _ ← update_org orgId (set_pending now false (Some scheduleId) (js "pro") (date_of_seconds (snd range)));
          mret (date_of_seconds (snd range))
      end
  end.

(** [TIER_RANK]; a tier outside the table compares as undefined, which is never above. *)
Definition tier_rank (tier : jsstr) : option Z :=
  if bool_decide (tier = js "team") then Some 2 else if bool_decide (tier = js "pro") then Some 1
  else if bool_decide (tier = js "free") || bool_decide (tier = js "pro-suspend") then Some 0 else None.

Definition rank_at_least (a b : option Z) : bool :=
  match a, b with Some x, Some y => y <=? x | _, _ => false end.

Definition downgradeSubscriptionForOrg (now : Z) (orgId targetTier : jsstr) (returnUrl : option jsstr)
    (requirePaymentMethod : bool) : M DowngradeResult :=
  row ← get (fun s => b_orgs s !! orgId);
  match row with
  | None => mret DowngradeNoSubscription
  | Some org =>
      match truthy_text (bo_subscriptionId org) with
      | None => mret DowngradeNoSubscription
      | Some subscriptionId =>
          if rank_at_least (tier_rank targetTier) (tier_rank (bo_tier org))
          then mret (InvalidTargetTier (bo_tier org) targetTier)
          else if bool_decide (targetTier = js "pro-suspend") then
            effectiveDate ← scheduleCancellationAtPeriodEnd now orgId subscriptionId org;
            mret (DowngradeScheduled effectiveDate)
          else
            subscription ← lift (retrieveSubscription subscriptionId);
            ready ← (if requirePaymentMethod then
                       lift (billingDefaultPaymentMethodStatus (bo_customerId org) subscription)
                     else mret (true, None));
            if negb (fst ready) then
              url ← setup_checkout BILLING_DOWNGRADE_PURPOSE orgId subscriptionId (snd ready) returnUrl (js "downgrade");
              mret (DowngradePaymentMethodRequired url)
            else
              effectiveDate ← scheduleDowngradeToPro now orgId subscriptionId org subscription;
              mret (DowngradeScheduled effectiveDate)
      end
  end.

(** ** Completing a checkout (zero-billing-checkout.service.ts) *)

Inductive CheckoutCompletionResult :=
| CheckoutCompleted
| CheckoutPending
| CustomerMismatch
| TierConflict (currentTier targetTier : jsstr).

Definition set_subscription (now : Z) (subscription : SubscriptionInput) (o : BillingOrg) : BillingOrg :=
  {| bo_core := {| Credits.o_credits := bo_credits o; Credits.o_tier := bo_tier o;
       Credits.o_stripeCustomerId := bo_customerId o; Credits.o_stripeSubscriptionId := Some (si_id subscription);
       Credits.o_autoRechargeEnabled := Credits.o_autoRechargeEnabled (bo_core o);
       Credits.o_autoRechargeThreshold := Credits.o_autoRechargeThreshold (bo_core o);
       Credits.o_autoRechargeAmount := Credits.o_autoRechargeAmount (bo_core o);
       Credits.o_autoRechargePendingAt := Credits.o_autoRechargePendingAt (bo_core o) |};
     bo_subscriptionStatus := Some (si_status subscription); bo_currentPeriodEnd := bo_currentPeriodEnd o;
     bo_cancelAtPeriodEnd := subscriptionWillCancel subscription; bo_pendingScheduleId := bo_pendingScheduleId o;
     bo_pendingTargetTier := bo_pendingTargetTier o; bo_pendingChangeAt := bo_pendingChangeAt o;
     bo_lastProcessedInvoiceId := bo_lastProcessedInvoiceId o;
     bo_onboardingPaymentPending := bo_onboardingPaymentPending o; bo_updatedAt := now |}.

Definition completeCheckoutSession (now : Z) (orgId sessionId : jsstr) : M CheckoutCompletionResult :=
  row ← get (fun s => b_orgs s !! orgId);
  session ← lift (retrieveSession sessionId);
  match row, truthy_text (se_customer session) with
  | Some org, Some customerId =>
      if negb (bool_decide (Some customerId = bo_customerId org)) then mret CustomerMismatch
      else if negb (bool_decide (se_status session = js "complete")) ||
              negb (bool_decide (se_mode session = js "subscription")) then mret CheckoutPending
      else match truthy_text (se_subscription session) with
      | None => mret CheckoutPending
      | Some subscriptionId =>
          subscription ← lift (retrieveSubscription subscriptionId);
          match first_price subscription with
          | None => mret CheckoutPending
          | Some priceId =>
              tier ← lift (tierFromPriceId priceId);
              if negb (bool_decide (bo_subscriptionId org = Some (si_id subscription))) &&
                 checkoutWouldReplaceWithSameOrLowerTier (Some (bo_tier org)) tier
              then mret (TierConflict (bo_tier org) tier)
              else
                _ ← modify (with_orgs (alter (fun o =>
                      if bool_decide (bo_customerId o = Some customerId) then set_subscription now subscription o else o) orgId));
                mret (if bool_decide (bo_subscriptionId org = Some (si_id subscription)) && bool_decide (bo_tier org = tier)
                      then CheckoutCompleted else CheckoutPending)
          end
      end
  | _, _ => mret CustomerMismatch
  end.

(** ** Payment failures (cron-billing-entitlements.service.ts) *)

Definition PAYMENT_FAILURE_DOWNGRADE_GRACE_MS : Z := 24 * 60 * 60 * 1000.

Definition subscriptionCanRefreshPaidThrough (subscription : SubscriptionInput) : bool :=
  bool_decide (si_status subscription ∈ [js "active"; js "trialing"]).

Definition is_payment_failed (status : jsstr) : bool := bool_decide (status ∈ [js "past_due"; js "unpaid"]).

Definition subscriptionIsPaymentFailed (subscription : SubscriptionInput) : bool :=
  is_payment_failed (si_status subscription).

Definition paid_tier (tier : jsstr) : bool := bool_decide (tier ∈ [js "pro"; js "team"]).

(** The guard of the updates of a candidate. *)
Definition current_candidate (subscriptionId : jsstr) (o : BillingOrg) : bool :=
  bool_decide (bo_subscriptionId o = Some subscriptionId) && paid_tier (bo_tier o) &&
  match bo_subscriptionStatus o with Some st => is_payment_failed st | None => false end.

(** The columns of a row after an update of subscription, tier and period. *)
Definition set_plan (now : Z) (tier : jsstr) (subscriptionId : option jsstr) (status : jsstr) (cancelAtPeriodEnd : bool)
    (currentPeriodEnd : option Z) (o : BillingOrg) : BillingOrg :=
  {| bo_core := {| Credits.o_credits := bo_credits o; Credits.o_tier := tier;
       Credits.o_stripeCustomerId := bo_customerId o; Credits.o_stripeSubscriptionId := subscriptionId;
       Credits.o_autoRechargeEnabled := Credits.o_autoRechargeEnabled (bo_core o);
       Credits.o_autoRechargeThreshold := Credits.o_autoRechargeThreshold (bo_core o);
       Credits.o_autoRechargeAmount := Credits.o_autoRechargeAmount (bo_core o);
       Credits.o_autoRechargePendingAt := Credits.o_autoRechargePendingAt (bo_core o) |};
     bo_subscriptionStatus := Some status; bo_currentPeriodEnd := currentPeriodEnd;
     bo_cancelAtPeriodEnd := cancelAtPeriodEnd; bo_pendingScheduleId := bo_pendingScheduleId o;
     bo_pendingTargetTier := bo_pendingTargetTier o; bo_pendingChangeAt := bo_pendingChangeAt o;
     bo_lastProcessedInvoiceId := bo_lastProcessedInvoiceId o;
     bo_onboardingPaymentPending := bo_onboardingPaymentPending o; bo_updatedAt := now |}.

(** The cron's scheduled end has no schedule lookup. *)
Definition cron_scheduled_end (subscription : SubscriptionInput) : option Z :=
  match subscriptionCancelAt subscription with Some e => Some e | None => subscriptionPeriodEnd subscription end.

Definition sync_fields (now : Z) (subscription : SubscriptionInput) (tier : option jsstr) (o : BillingOrg) : BillingOrg :=
  set_plan now (default (bo_tier o) tier) (bo_subscriptionId o) (si_status subscription)
    (subscriptionWillCancel subscription)
    (match cron_scheduled_end subscription with Some e => Some e | None => bo_currentPeriodEnd o end) o.

(** [UPDATE .. WHERE currentCandidate RETURNING ..]: the number of rows. *)
Definition update_candidate (orgId subscriptionId : jsstr) (f : BillingOrg -> BillingOrg) : M nat :=
  row ← get (fun s => b_orgs s !! orgId);
  match row with
  | Some o => if current_candidate subscriptionId o then _ ← update_org orgId f; mret 1%nat else mret 0%nat
  | None => mret 0%nat
  end.

(** The number of rows downgraded. *)
Definition reconcileBillingCandidate (now staleBefore : Z) (orgId : jsstr) (stripeSubscriptionId : option jsstr) : M nat :=
  match truthy_text stripeSubscriptionId with
  | None => mret 0%nat
  | Some subscriptionId =>
      subscription ← lift (retrieveSubscription subscriptionId);
      if bool_decide (si_status subscription = js "canceled") then
        update_candidate orgId subscriptionId (set_plan now (js "pro-suspend") None (js "canceled") false None)
      else if negb (subscriptionIsPaymentFailed subscription) then
        if negb (subscriptionCanRefreshPaidThrough subscription) then mret 0%nat
        else
          tier ← match first_price subscription with
                 | Some priceId => t ← lift (tierFromPriceId priceId); mret (Some t)
                 | None => mret None end;
          _ ← update_candidate orgId subscriptionId (sync_fields now subscription tier);
          mret 0%nat
      else
        match subscriptionPeriodEnd subscription with
        | Some stripePeriodEnd =>
            if staleBefore <? stripePeriodEnd then
              _ ← update_candidate orgId subscriptionId (sync_fields now subscription None); mret 0%nat
            else update_candidate orgId subscriptionId (sync_fields now subscription (Some (js "pro-suspend")))
        | None => update_candidate orgId subscriptionId (sync_fields now subscription (Some (js "pro-suspend")))
        end
  end.

(** The rows the cron selects. *)
Definition is_candidate (staleBefore : Z) (o : BillingOrg) : bool :=
  paid_tier (bo_tier o) && bool_decide (is_Some (bo_subscriptionId o)) &&
  match bo_subscriptionStatus o with Some st => is_payment_failed st | None => false end &&
  match bo_currentPeriodEnd o with None => bo_updatedAt o <=? staleBefore | Some e => e <=? staleBefore end.

Fixpoint reconcile_all (now staleBefore : Z) (candidates : list (jsstr * option jsstr)) (downgraded : nat) : M nat :=
  match candidates with
  | [] => mret downgraded
  | (orgId, subscriptionId) :: rest =>
      n ← reconcileBillingCandidate now staleBefore orgId subscriptionId;
      reconcile_all now staleBefore rest (downgraded + n)
  end.

Definition reconcileBillingEntitlements (now : Z) : M nat :=
  let staleBefore := now - PAYMENT_FAILURE_DOWNGRADE_GRACE_MS in
  candidates ← get (fun s => (fun kv => (kv.1, bo_subscriptionId kv.2)) <$>
    filter (fun kv => is_candidate staleBefore kv.2 = true) (map_to_list (b_orgs s)));
  reconcile_all now staleBefore candidates 0.

End Services.

End Billing.
