(* ===== verification/BillingLogic.v ===== *)
(** Reasoning about the billing operations: what a computation on the billing tables does to
    the part of the state a relation sees, and the theorems on the operations of [Billing]
    themselves. *)

From S2P Require Import Prelude JsString JsRecord JsDate Credits Billing.

Import JsDate Billing.

Module BillingLogic.

(** ** What the ledger sees *)

Definition credits_of (s : BillingDb) (orgId : jsstr) : Z := default 0 (bo_credits <$> b_orgs s !! orgId).

(** What is fixed when a grant is recorded. *)
Definition grant_entry (r : GrantRecord) : Z * jsstr * jsstr * option jsstr * Z :=
  (Credits.x_id (gr_core r), Credits.x_orgId (gr_core r), gr_source r, gr_invoiceId r, gr_amount r).

Definition same_ledger (s s' : BillingDb) : Prop :=
  (forall orgId, credits_of s' orgId = credits_of s orgId) /\
  b_records s' = b_records s /\ b_nextId s' = b_nextId s.

(** ** Relations between the states before and after

    [m] follows [R] when every run relates the state before to the state after, whether or
    not it throws; a transaction needs this only when it succeeds. *)

Definition follows {A} (R : relation BillingDb) (m : M A) : Prop := forall s, R s (m s).2.
Definition follows_ok {A} (R : relation BillingDb) (m : M A) : Prop := forall s a s', m s = (Ok a, s') -> R s s'.

(** Relations that do not see calls, updates of organizations that keep [K], and new
    organizations without credits. *)
Class Frame {X} (K : BillingOrg -> X) (R : relation BillingDb) := {
  frame_preorder :: PreOrder R;
  frame_calls s calls : R s (with_calls calls s);
  frame_alter s orgId f : (forall o, K (f o) = K o) -> R s (with_orgs (alter f orgId) s);
  frame_fmap s p f : (forall o, K (f o) = K o) -> R s (with_orgs (fmap (fun o => if p o : bool then f o else o)) s);
  frame_insert s orgId o : b_orgs s !! orgId = None -> bo_credits o = 0 -> R s (with_orgs (<[orgId := o]>) s);
}.

Create HintDb follows discriminated.

Section FollowsBasic.
Context {R : relation BillingDb} `{!PreOrder R}.

Lemma follows_follows_ok {A} (m : M A) : follows R m -> follows_ok R m.
Proof. intros Hm s a s' Hs. specialize (Hm s). by rewrite Hs in Hm. Qed.

Lemma follows_ret {A} (a : A) : follows R (mret a).
Proof. by intros s. Qed.
Lemma follows_get {A} (f : BillingDb -> A) : follows R (get f).
Proof. by intros s. Qed.
Lemma follows_lift {A} (r : result A) : follows R (lift r).
Proof. by intros s. Qed.
Lemma follows_throw {A} msg : follows (A := A) R (throw msg).
Proof. by intros s. Qed.

Lemma follows_bind {A B} (m : M A) (f : A -> M B) : follows R m -> (forall a, follows R (f a)) -> follows R (m ≫= f).
Proof.
  intros Hm Hf s. unfold mbind, M_bind. specialize (Hm s). destruct (m s) as [[a|e] s1]; [|done].
  etrans; [exact Hm|apply Hf].
Qed.

Lemma follows_lift_ok {A B} (a : A) (f : A -> M B) : follows R (f a) -> follows R (lift (Ok a) ≫= f).
Proof. intros Hf s. exact (Hf s). Qed.
Lemma follows_ret_bind {A B} (a : A) (f : A -> M B) : follows R (f a) -> follows R (mret a ≫= f).
Proof. intros Hf s. exact (Hf s). Qed.

Lemma follows_ok_bind {A B} (m : M A) (f : A -> M B) :
  follows_ok R m -> (forall a, follows_ok R (f a)) -> follows_ok R (m ≫= f).
Proof.
  intros Hm Hf s b s'. unfold mbind, M_bind. destruct (m s) as [[a|e] s1] eqn:E; [|done].
  intros Hb. etrans; [by eapply Hm|by eapply Hf].
Qed.

End FollowsBasic.

Section FollowsFrame.
Context {X} {K : BillingOrg -> X} {R : relation BillingDb} `{!Frame K R}.

Lemma follows_transaction {A} (m : M A) : follows_ok R m -> follows R (transaction m).
Proof.
  intros Hm s. unfold transaction. destruct (m s) as [[a|e] s1] eqn:E; [by eapply Hm|]. apply frame_calls.
Qed.

Lemma follows_call `{BillingServices} c : follows R (call c).
Proof. apply follows_bind; [apply follows_lift|]. intros _ s. apply frame_calls. Qed.

Lemma follows_update_org orgId f : (forall o, K (f o) = K o) -> follows R (update_org orgId f).
Proof. intros Hf s. by apply frame_alter. Qed.

Lemma follows_update_orgs p f : (forall o, K (f o) = K o) -> follows R (update_orgs p f).
Proof.
  intros Hf. apply follows_bind; [apply follows_get|]. intros ids. apply follows_bind; [|intros; apply follows_ret].
  intros s. by apply frame_fmap.
Qed.

End FollowsFrame.

(** Decomposes a computation along its structure; the operations with a lemma of their own
    are not unfolded. *)
Ltac follows_tac :=
  repeat first
    [ progress intros
    | solve [eauto 2 with follows nocore]
    | apply follows_ret | apply follows_get | apply follows_lift | apply follows_throw | apply follows_call
    | (apply follows_update_org; solve [eauto]) | (apply follows_update_orgs; solve [eauto])
    | apply follows_bind
    | match goal with
      | |- follows _ (match ?x with _ => _ end) => destruct x
      | |- follows _ (if ?x then _ else _) => destruct x
      end ].

(** *** Operations that only touch subscription columns *)

Section Operations.
Context `{BillingServices} {X} {K : BillingOrg -> X} {R : relation BillingDb} `{!Frame K R}.

Lemma follows_setup_checkout purpose orgId subscriptionId customerId returnUrl operation :
  follows R (setup_checkout purpose orgId subscriptionId customerId returnUrl operation).
Proof. unfold setup_checkout. follows_tac. Qed.
#[local] Hint Resolve follows_setup_checkout : follows.

Lemma follows_restore now orgId returnUrl require :
  (forall now b o, K (clear_pending now b o) = K o) -> follows R (restoreSubscriptionForOrg now orgId returnUrl require).
Proof. intros HK. unfold restoreSubscriptionForOrg. follows_tac. Qed.

Lemma follows_cancellation_end subscriptionId org subscription item range :
  follows R (cancellation_end subscriptionId org subscription item range).
Proof. unfold cancellation_end. follows_tac. Qed.
#[local] Hint Resolve follows_cancellation_end : follows.

Lemma follows_downgrade now orgId target returnUrl require :
  (forall now b id tier e o, K (set_pending now b id tier e o) = K o) ->
  follows R (downgradeSubscriptionForOrg now orgId target returnUrl require).
Proof.
  intros HK. unfold downgradeSubscriptionForOrg, scheduleCancellationAtPeriodEnd, scheduleDowngradeToPro. follows_tac.
Qed.

End Operations.

(** The frame of the relation, and the columns a lemma changes, which are not in the frame. *)
Ltac follows_solve := try done; try apply _.

#[export] Hint Extern 0 (follows _ (setup_checkout _ _ _ _ _ _)) => eapply follows_setup_checkout; follows_solve : follows.
#[export] Hint Extern 0 (follows _ (restoreSubscriptionForOrg _ _ _ _)) => eapply follows_restore; follows_solve : follows.
#[export] Hint Extern 0 (follows _ (cancellation_end _ _ _ _ _)) => eapply follows_cancellation_end; follows_solve : follows.
#[export] Hint Extern 0 (follows _ (downgradeSubscriptionForOrg _ _ _ _ _)) => eapply follows_downgrade; follows_solve : follows.

(** ** What changes of an organization *)

(** Every organization stays, and what [K] reads of it is kept or changed as [C] says. *)
Definition evolves {X} (K : BillingOrg -> X) (C : BillingOrg -> BillingOrg -> Prop) (s s' : BillingDb) : Prop :=
  forall orgId o, b_orgs s !! orgId = Some o -> exists o', b_orgs s' !! orgId = Some o' /\ (K o' = K o \/ C o o').

(** Changes that compose and see nothing but [K]. *)
Class Change {X} (K : BillingOrg -> X) (C : BillingOrg -> BillingOrg -> Prop) : Prop := {
  change_trans o1 o2 o3 : C o1 o2 -> C o2 o3 -> C o1 o3;
  change_keep o1 o2 o1' o2' : K o1' = K o1 -> K o2' = K o2 -> C o1 o2 -> C o1' o2';
}.

#[export] Instance evolves_frame {X} (K : BillingOrg -> X) C `{!Change K C} : Frame K (evolves K C).
Proof.
  split.
  - split.
    + intros s orgId o Ho. eauto.
    + intros s1 s2 s3 H12 H23 orgId o1 Ho1. destruct (H12 _ _ Ho1) as (o2 & Ho2 & H2).
      destruct (H23 _ _ Ho2) as (o3 & Ho3 & H3). exists o3. split; [done|].
      destruct H2 as [H2|H2], H3 as [H3|H3].
      * left. congruence.
      * right. by apply (change_keep o2 o3).
      * right. by apply (change_keep o1 o2).
      * right. by apply (change_trans o1 o2 o3).
  - intros s calls orgId o Ho. eauto.
  - intros s org f Hf orgId o Ho. cbn. destruct (decide (org = orgId)) as [->|].
    + rewrite lookup_alter_eq, Ho. cbn. eauto.
    + rewrite lookup_alter_ne by done. eauto.
  - intros s p f Hf orgId o Ho. cbn. rewrite lookup_fmap, Ho. cbn. eexists. split; [done|]. left. by destruct (p o).
  - intros s org o Hn _ orgId o' Ho. cbn. rewrite lookup_insert_ne by congruence. eauto.
Qed.

Definition unchanged (o o' : BillingOrg) : Prop := False.

#[export] Instance unchanged_change {X} (K : BillingOrg -> X) : Change K unchanged.
Proof. by split. Qed.

Lemma evolves_impl {X} (K : BillingOrg -> X) (C C' : BillingOrg -> BillingOrg -> Prop) s s' :
  (forall o o', C o o' -> C' o o') -> evolves K C s s' -> evolves K C' s s'.
Proof. intros HC Hs orgId o Ho. destruct (Hs _ _ Ho) as (o' & Ho' & [|]); eauto. Qed.

Lemma bind_ok {A B} (m : M A) (f : A -> M B) s b s' :
  (m ≫= f) s = (Ok b, s') -> exists a s1, m s = (Ok a, s1) /\ f a s1 = (Ok b, s').
Proof. unfold mbind, M_bind. destruct (m s) as [[a|e] s1]; [eauto|done]. Qed.

Lemma follows_run {A} (R : relation BillingDb) (m : M A) s r s' : m s = (r, s') -> follows R m -> R s s'.
Proof. intros Hm HR. specialize (HR s). by rewrite Hm in HR. Qed.

(** ** The entitlement cron *)

#[export] Instance same_ledger_frame : Frame bo_credits same_ledger.
Proof.
  split.
  - split; [by intros s|]. intros s1 s2 s3 (A1 & B1 & C1) (A2 & B2 & C2). split_and!; [|congruence|congruence].
    intros o. by rewrite A2, A1.
  - done.
  - intros s orgId f Hf. split_and!; [|done|done]. intros o. unfold credits_of. cbn.
    destruct (decide (orgId = o)) as [->|Hne]; [rewrite lookup_alter_eq|by rewrite lookup_alter_ne].
    destruct (b_orgs s !! o); cbn; [by rewrite Hf|done].
  - intros s p f Hf. split_and!; [|done|done]. intros o. unfold credits_of. cbn.
    rewrite lookup_fmap. destruct (b_orgs s !! o) as [org|]; cbn; [|done]. by destruct (p org).
  - intros s orgId org Hn Hc. split_and!; [|done|done]. intros o. unfold credits_of. cbn.
    destruct (decide (orgId = o)) as [->|]; [by rewrite lookup_insert_eq, Hn|by rewrite lookup_insert_ne].
Qed.

Section Cron.
Context `{BillingServices}.

(** Tier, subscription and status. *)
Definition entitlement (o : BillingOrg) : jsstr * option jsstr * option jsstr :=
  (bo_tier o, bo_subscriptionId o, bo_subscriptionStatus o).

(** What the provider's subscription entitles a candidate to. *)
Definition reconciled_entitlement (staleBefore : Z) (subscription : SubscriptionInput) (o : BillingOrg) :
    jsstr * option jsstr * option jsstr :=
  if bool_decide (si_status subscription = js "canceled") then (js "pro-suspend", None, Some (js "canceled"))
  else if subscriptionIsPaymentFailed subscription then
    (if match subscriptionPeriodEnd subscription with Some e => staleBefore <? e | None => false end
     then bo_tier o else js "pro-suspend", bo_subscriptionId o, Some (si_status subscription))
  else (default (bo_tier o) (first_price subscription ≫= tierForKnownPriceId), bo_subscriptionId o, Some (si_status subscription)).

Definition reconciled (staleBefore : Z) (o o' : BillingOrg) : Prop :=
  exists id subscription, current_candidate id o = true /\ retrieveSubscription id = Ok subscription /\
    entitlement o' = reconciled_entitlement staleBefore subscription o.

Lemma candidate_subscription id o : current_candidate id o = true -> bo_subscriptionId o = Some id.
Proof. unfold current_candidate. rewrite !andb_true_iff. intros [[Hid _] _]. by apply bool_decide_eq_true in Hid. Qed.

Lemma candidate_entitlement id o o' : entitlement o' = entitlement o -> current_candidate id o' = current_candidate id o.
Proof. unfold entitlement, current_candidate. by intros [= -> -> ->]. Qed.

#[export] Instance reconciled_change staleBefore : Change entitlement (reconciled staleBefore).
Proof.
  split.
  - intros o1 o2 o3 (id & sub & Hc1 & Hr1 & He1) (id2 & sub2 & Hc2 & Hr2 & He2). exists id, sub. split_and!; [done|done|].
    pose proof (candidate_subscription _ _ Hc1) as Hi1. pose proof (candidate_subscription _ _ Hc2) as Hi2.
    unfold reconciled_entitlement, entitlement in *. revert He1.
    destruct (bool_decide (si_status sub = js "canceled")) eqn:Hcan; [intros [= _ Hn _]; congruence|].
    destruct (subscriptionIsPaymentFailed sub) eqn:Ef; intros [= Ht Hi Hs].
    + assert (id2 = id) as -> by congruence. assert (sub2 = sub) as -> by congruence.
      rewrite Hcan, Ef, Ht, Hi in He2. rewrite He2.
      destruct (subscriptionPeriodEnd sub) as [e|]; [by destruct (staleBefore <? e)|done].
    + exfalso. unfold current_candidate in Hc2. rewrite Hs in Hc2. unfold subscriptionIsPaymentFailed in Ef. rewrite Ef in Hc2.
      by rewrite andb_false_r in Hc2.
  - intros o1 o2 o1' o2' He1 He2 (id & sub & Hc & Hr & He). exists id, sub.
    rewrite (candidate_entitlement id o1 o1') by done. split_and!; [done|done|]. rewrite He2, He.
    unfold entitlement in He1. injection He1 as Ht Hi _. unfold reconciled_entitlement. by rewrite Ht, Hi.
Qed.

Lemma evolves_candidate staleBefore orgId id subscription f :
  retrieveSubscription id = Ok subscription ->
  (forall o, current_candidate id o = true -> entitlement (f o) = reconciled_entitlement staleBefore subscription o) ->
  follows (evolves entitlement (reconciled staleBefore)) (update_candidate orgId id f).
Proof.
  intros Hr Hf s org o Ho. unfold update_candidate, mbind, M_bind, get, mret, M_ret, update_org, modify.
  destruct (b_orgs s !! orgId) as [row|] eqn:E; [|by eauto]. destruct (current_candidate id row) eqn:Hc; [|by eauto].
  cbn. destruct (decide (orgId = org)) as [->|]; [|rewrite lookup_alter_ne by done; by eauto].
  rewrite lookup_alter_eq, Ho. cbn. eexists. split; [done|]. right. simplify_eq. exists id, subscription. eauto.
Qed.

Lemma evolves_reconcile_one now staleBefore orgId stripeSubscriptionId :
  follows (evolves entitlement (reconciled staleBefore)) (reconcileBillingCandidate now staleBefore orgId stripeSubscriptionId).
Proof.
  unfold reconcileBillingCandidate. destruct (truthy_text stripeSubscriptionId) as [id|]; [|apply follows_ret].
  destruct (retrieveSubscription id) as [sub|] eqn:Hr; [|by intros s]. apply follows_lift_ok.
  destruct (bool_decide (si_status sub = js "canceled")) eqn:Hcan.
  { apply (evolves_candidate staleBefore _ _ sub); [done|]. intros o _. unfold reconciled_entitlement. by rewrite Hcan. }
  destruct (subscriptionIsPaymentFailed sub) eqn:Hfail; cbn [negb].
  - assert (forall tier, tier = (if match subscriptionPeriodEnd sub with Some e => staleBefore <? e | None => false end
      then None else Some (js "pro-suspend")) ->
      follows (evolves entitlement (reconciled staleBefore)) (update_candidate orgId id (sync_fields now sub tier))) as Hu.
    { intros tier ->. apply (evolves_candidate staleBefore _ _ sub); [done|]. intros o _. unfold reconciled_entitlement.
      rewrite Hcan, Hfail. destruct (subscriptionPeriodEnd sub) as [e|]; [by destruct (staleBefore <? e)|done]. }
    destruct (subscriptionPeriodEnd sub) as [e|]; [|by apply Hu]. destruct (staleBefore <? e); [|by apply Hu].
    apply follows_bind; [by apply Hu|intros; apply follows_ret].
  - destruct (negb _); [apply follows_ret|]. destruct (first_price sub) as [price|] eqn:Hp.
    + unfold tierFromPriceId. destruct (tierForKnownPriceId price) as [tier|] eqn:Ht; [|by intros s].
      apply (follows_ret_bind (Some tier)).
      apply follows_bind; [|intros; apply follows_ret]. apply (evolves_candidate staleBefore _ _ sub); [done|].
      intros o _. unfold reconciled_entitlement. rewrite Hcan, Hfail, Hp. cbn. by rewrite Ht.
    + apply (follows_ret_bind None).
      apply follows_bind; [|intros; apply follows_ret]. apply (evolves_candidate staleBefore _ _ sub); [done|].
      intros o _. unfold reconciled_entitlement. by rewrite Hcan, Hfail, Hp.
Qed.

Lemma follows_reconcile_all (R : relation BillingDb) `{!PreOrder R} now staleBefore candidates n :
  (forall orgId id, follows R (reconcileBillingCandidate now staleBefore orgId id)) ->
  follows R (reconcile_all now staleBefore candidates n).
Proof.
  intros Hone. revert n. induction candidates as [|[orgId id] rest IH]; intros n; cbn [reconcile_all]; [apply follows_ret|].
  apply follows_bind; auto.
Qed.

(** The entitlement cron downgrades only who lost the entitlement. In every state, whether
    or not a call to the provider fails on the way, an organization keeps its tier,
    subscription and status unless it is a candidate (a paid tier with a failed payment)
    and the provider knows its subscription, and then it gets exactly what the subscription
    says: suspended when canceled or when the payment failed and the paid period ended more
    than a day ago, its own tier while the period lasts, the tier of its price when the
    payment succeeded since. Balances and grants do not change. *)
Theorem reconcileBillingEntitlements_spec now s orgId o :
  b_orgs s !! orgId = Some o ->
  same_ledger s (reconcileBillingEntitlements now s).2 /\
  exists o', b_orgs (reconcileBillingEntitlements now s).2 !! orgId = Some o' /\
    (entitlement o' = entitlement o \/ reconciled (now - PAYMENT_FAILURE_DOWNGRADE_GRACE_MS) o o').
Proof.
  intros Ho. unfold reconcileBillingEntitlements. split.
  - apply follows_bind; [apply follows_get|]. intros c. apply (follows_reconcile_all same_ledger). intros.
    unfold reconcileBillingCandidate, update_candidate. follows_tac.
  - assert (follows (evolves entitlement (reconciled (now - PAYMENT_FAILURE_DOWNGRADE_GRACE_MS))) (reconcileBillingEntitlements now)) as Hf.
    { apply follows_bind; [apply follows_get|]. intros c. apply follows_reconcile_all; [apply _|].
      intros. apply evolves_reconcile_one. }
    exact (Hf s orgId o Ho).
Qed.

End Cron.

(** A provider with one subscription. *)
Definition sample_subscription_in (status : jsstr) : SubscriptionInput :=
  {| si_id := js "sub_1"; si_customer := Some (js "cus_1"); si_status := status; si_metadata := None; si_trialEnd := None;
     si_cancelAt := None; si_cancelAtPeriodEnd := false; si_schedule := None;
     si_items := [{| it_priceId := js "price_pro"; it_recurring := true; it_quantity := Some 1; it_periodStart := 1735689600;
       it_periodEnd := Some 1738368000 |}];
     si_discounts := []; si_defaultPaymentMethod := None; si_defaultSource := None |}.

Definition sample_services_with (status : jsstr) : BillingServices :=
  {| retrieveSubscription _ := Ok (sample_subscription_in status); retrieveSchedule _ := Throw (js "No such schedule");
     listSubscriptions _ := Ok [sample_subscription_in status]; createSchedule _ := Throw (js "No such subscription");
     retrieveCustomer _ := Throw (js "No such customer"); retrieveSession _ := Throw (js "No such session");
     createSetupSession _ := Ok None; callStripe _ := Ok tt; getOrganization _ := ClerkNotFound;
     zeroPrice tier := if bool_decide (tier = js "pro") then [js "price_pro"] else [js "price_team"];
     campaignConfigured _ := false; stripePreviewJobRef := None |}.

Definition sample_failing_org : BillingOrg :=
  {| bo_core := {| Credits.o_credits := 7; Credits.o_tier := js "pro"; Credits.o_stripeCustomerId := Some (js "cus_1");
       Credits.o_stripeSubscriptionId := Some (js "sub_1"); Credits.o_autoRechargeEnabled := false;
       Credits.o_autoRechargeThreshold := None; Credits.o_autoRechargeAmount := None;
       Credits.o_autoRechargePendingAt := None |};
     bo_subscriptionStatus := Some (js "past_due"); bo_currentPeriodEnd := Some 1738368000000; bo_cancelAtPeriodEnd := false;
     bo_pendingScheduleId := None; bo_pendingTargetTier := None; bo_pendingChangeAt := None;
     bo_lastProcessedInvoiceId := None; bo_onboardingPaymentPending := false; bo_updatedAt := 0 |}.

Definition sample_failing_db : BillingDb :=
  {| b_orgs := {[js "org_1" := sample_failing_org]}; b_records := []; b_nextId := 1; b_calls := [] |}.

(** A day after the paid period the organization is suspended, and not before. *)
Example grace_period :
  (fun now => bo_tier <$> (b_orgs (@reconcileBillingEntitlements (sample_services_with (js "unpaid")) now sample_failing_db).2 !! js "org_1"))
    <$> [1738368000000 + DAY_MS - 1; 1738368000000 + DAY_MS] = [Some (js "pro"); Some (js "pro-suspend")].
Proof. vm_compute. reflexivity. Qed.

Lemma reconcileBillingEntitlements_spec_witness :
  same_ledger sample_failing_db (@reconcileBillingEntitlements (sample_services_with (js "unpaid")) 1740000000000 sample_failing_db).2.
Proof.
  apply (@reconcileBillingEntitlements_spec (sample_services_with (js "unpaid")) 1740000000000 sample_failing_db (js "org_1") sample_failing_org).
  vm_compute. reflexivity.
Defined.

End BillingLogic.
