(* ===== verification/StripeWebhooks.v ===== *)
(** Webhooks of the payment provider
    (turbo/apps/api/src/signals/services/webhooks-stripe.service.ts): grants of credits for
    paid invoices and purchases, and the state of subscriptions. *)

From stdpp Require Import relations.
From S2P Require Import Prelude JsString JsRecord JsDate Templates Credits RunStore RunQueue RunLifecycle Billing BillingLogic.

Import JsDate Billing BillingLogic.

Module StripeWebhooks.

(** ** Data *)

(** [ci_setupPaymentMethod] is the payment method of an expanded setup intent. *)
Record CheckoutSessionInput := {
  ci_id : jsstr; ci_invoice : option jsstr; ci_subscription : option jsstr; ci_customer : option jsstr;
  ci_metadata : option (Rec jsstr); ci_mode : option jsstr; ci_setupPaymentMethod : option jsstr;
  ci_amountSubtotal : option Z; ci_amountTotal : option Z; ci_paymentStatus : option jsstr }.

Record InvoiceLine := { ln_periodEnd : Z; ln_subscriptionItem : bool }.

Record InvoiceInput := {
  in_id : jsstr; in_customer : option jsstr; in_metadata : option (Rec jsstr); in_subtotal : option Z;
  in_lines : list InvoiceLine; in_subscription : option jsstr; in_subscriptionMetadata : option (Rec jsstr) }.

(** The attributes an update changed: [Some] when present. *)
Record SubscriptionPreviousAttributes := {
  pa_trialEnd : option Z; pa_cancelAtChanged : bool; pa_cancelAtPeriodEnd : option bool; pa_scheduleChanged : bool }.

Record PaidWebhookOutcome := { po_handled : bool; po_drainOrgId : option jsstr }.

Record SubscriptionInvoiceDetails := {
  sv_subscription : SubscriptionInput; sv_tier : jsstr; sv_credits : Z; sv_periodEndDate : Z;
  sv_scheduledEndDate : option Z; sv_expiresAt : Z }.

Inductive StripeEvent :=
| CheckoutSessionCompleted (session : CheckoutSessionInput)
| CheckoutAsyncPaymentSucceeded (session : CheckoutSessionInput)
| InvoicePaid (invoice : InvoiceInput)
| SubscriptionCreated (subscription : SubscriptionInput)
| SubscriptionUpdated (subscription : SubscriptionInput) (previous : option SubscriptionPreviousAttributes)
| SubscriptionDeleted (id : jsstr) (metadata : option (Rec jsstr))
| ScheduleReleased (id : jsstr)
| ScheduleCanceled (id : jsstr)
| ScheduleAborted (id : jsstr)
| OtherEvent.

Definition not_handled : PaidWebhookOutcome := {| po_handled := false; po_drainOrgId := None |}.

Definition field (metadata : option (Rec jsstr)) (name : string) : option jsstr := metadata ≫= fun m => rec_own m (js name).

(** ** The ledger *)

Definition default_org (core : Credits.OrgMetadata) (now : Z) : BillingOrg :=
  {| bo_core := core; bo_subscriptionStatus := None; bo_currentPeriodEnd := None; bo_cancelAtPeriodEnd := false;
     bo_pendingScheduleId := None; bo_pendingTargetTier := None; bo_pendingChangeAt := None;
     bo_lastProcessedInvoiceId := None; bo_onboardingPaymentPending := false; bo_updatedAt := now |}.

Definition set_core (now : Z) (f : Credits.OrgMetadata -> Credits.OrgMetadata) (o : BillingOrg) : BillingOrg :=
  {| bo_core := f (bo_core o); bo_subscriptionStatus := bo_subscriptionStatus o;
     bo_currentPeriodEnd := bo_currentPeriodEnd o; bo_cancelAtPeriodEnd := bo_cancelAtPeriodEnd o;
     bo_pendingScheduleId := bo_pendingScheduleId o; bo_pendingTargetTier := bo_pendingTargetTier o;
     bo_pendingChangeAt := bo_pendingChangeAt o; bo_lastProcessedInvoiceId := bo_lastProcessedInvoiceId o;
     bo_onboardingPaymentPending := bo_onboardingPaymentPending o; bo_updatedAt := now |}.

Definition add_credits (amount : Z) (o : Credits.OrgMetadata) : Credits.OrgMetadata :=
  Credits.set_credits (Credits.o_credits o + amount) o.

Definition grantOrgCredits (now : Z) (orgId : jsstr) (amount : Z) : M unit :=
  modify (with_orgs (fun m => match m !! orgId with
    | Some o => <[orgId := set_core now (add_credits amount) o]> m
    | None => <[orgId := default_org (Credits.default_org amount) now]> m end)).

(** The unique index on organization and invoice. *)
Definition has_invoice (orgId invoiceId : jsstr) (r : GrantRecord) : bool :=
  bool_decide (Credits.x_orgId (gr_core r) = orgId) && bool_decide (gr_invoiceId r = Some invoiceId).

Definition new_record (id : Z) (orgId source invoiceId : jsstr) (amount expiresAt : Z) : GrantRecord :=
  {| gr_core := {| Credits.x_id := id; Credits.x_orgId := orgId; Credits.x_remaining := amount;
                   Credits.x_expiresAt := expiresAt |};
     gr_source := source; gr_invoiceId := Some invoiceId; gr_amount := amount |}.

Definition insert_record (orgId source invoiceId : jsstr) (amount expiresAt : Z) (s : BillingDb) : BillingDb :=
  {| b_orgs := b_orgs s; b_records := b_records s ++ [new_record (b_nextId s) orgId source invoiceId amount expiresAt];
     b_nextId := b_nextId s + 1; b_calls := b_calls s |}.

(** Whether the row was inserted. *)
Definition createExpiresRecord (orgId source invoiceId : jsstr) (amount expiresAt : Z) : M bool :=
  duplicate ← get (fun s => existsb (has_invoice orgId invoiceId) (b_records s));
  if (duplicate : bool) then mret false
  else _ ← modify (insert_record orgId source invoiceId amount expiresAt); mret true.

Definition is_plan_grant (orgId : jsstr) (credits : Z) (r : GrantRecord) : bool :=
  bool_decide (Credits.x_orgId (gr_core r) = orgId) && bool_decide (gr_source r = js "subscription_renewal") &&
  (gr_amount r =? credits).

Definition existingTrialPlanCredits (orgId : jsstr) (credits : Z) : M bool :=
  get (fun s => existsb (is_plan_grant orgId credits) (b_records s)).

Definition set_expiry (expiresAt : Z) (r : GrantRecord) : GrantRecord :=
  {| gr_core := {| Credits.x_id := Credits.x_id (gr_core r); Credits.x_orgId := Credits.x_orgId (gr_core r);
       Credits.x_remaining := Credits.x_remaining (gr_core r); Credits.x_expiresAt := expiresAt |};
     gr_source := gr_source r; gr_invoiceId := gr_invoiceId r; gr_amount := gr_amount r |}.

Definition refreshTrialPlanCredits (orgId : jsstr) (credits expiresAt : Z) : M unit :=
  modify (with_records (fmap (fun r =>
    if is_plan_grant orgId credits r && (0 <? Credits.x_remaining (gr_core r)) then set_expiry expiresAt r else r))).

Definition set_remaining (n : Z) (r : GrantRecord) : GrantRecord :=
  {| gr_core := Credits.set_remaining n (gr_core r); gr_source := gr_source r; gr_invoiceId := gr_invoiceId r;
     gr_amount := gr_amount r |}.

Definition update_remaining (id n : Z) : BillingDb -> BillingDb :=
  with_records (fmap (fun r => if Credits.x_id (gr_core r) =? id then set_remaining n r else r)).

Fixpoint expireLoop (expired : list GrantRecord) (totalExpired : Z) (s : BillingDb) : Z * BillingDb :=
  match expired with
  | [] => (totalExpired, s)
  | record :: expired' =>
      expireLoop expired' (totalExpired + Credits.x_remaining (gr_core record))
        (update_remaining (Credits.x_id (gr_core record)) 0 s)
  end.

Definition expire (now : Z) (orgId : jsstr) (s : BillingDb) : Z * BillingDb :=
  let expired := filter (fun r => Credits.is_expired now orgId (gr_core r) = true) (b_records s) in
  if (length expired =? 0)%nat then (0, s)
  else
    let '(totalExpired, s1) := expireLoop expired 0 s in
    (totalExpired,
     if 0 <? totalExpired
     then with_orgs (fun m => match m !! orgId with
            | Some o => <[orgId := set_core now (fun c => Credits.set_credits (Z.max (Credits.o_credits c - totalExpired) 0) c) o]> m
            | None => m end) s1
     else s1).

Definition expireCredits (now : Z) (orgId : jsstr) : M Z := fun s => let '(n, s') := expire now orgId s in (Ok n, s').

(** ** Amounts and dates *)

(** 2999-12-31. *)
Definition autoRechargeNeverExpiresAt : Z := (month_start 2999 12 + 30) * DAY_MS.

Definition CREDITS_PER_DOLLAR : Z := 1000.

Definition creditsFromAmountCents (amountCents : option Z) : JsNumber :=
  match amountCents with None => NaN | Some cents => Dec (cents * CREDITS_PER_DOLLAR / 100) 0 end.

Definition number_field (metadata : option (Rec jsstr)) (name : string) : JsNumber :=
  match field metadata name with Some text => number_of text | None => NaN end.

Definition creditPurchaseAmount (session : CheckoutSessionInput) : JsNumber :=
  let mode := field (ci_metadata session) "creditsAmountMode" in
  if bool_decide (mode = Some (js "amount_subtotal")) then
    creditsFromAmountCents (match ci_amountSubtotal session with Some a => Some a | None => ci_amountTotal session end)
  else if bool_decide (mode = Some (js "amount_total")) then creditsFromAmountCents (ci_amountTotal session)
  else number_field (ci_metadata session) "creditsAmount".

Definition monthlyCreditsForTier (tier : jsstr) : Z :=
  if bool_decide (tier = js "pro") then 20000 else if bool_decide (tier = js "team") then 120000 else 0.

Definition subscriptionTrialEnd (subscription : SubscriptionInput) : option Z := date_of_seconds <$> si_trialEnd subscription.

Definition requiredSubscriptionTrialEnd (subscription : SubscriptionInput) : result Z :=
  match subscriptionTrialEnd subscription with
  | Some e => Ok e
  | None => Throw (js "trialing subscription has no trial_end (subscriptionId=" ++ si_id subscription ++ js ")")
  end.

Definition subscriptionCreditExpiresAt (subscription : SubscriptionInput) (periodEndDate : Z) : result Z :=
  if bool_decide (si_status subscription = js "trialing") then requiredSubscriptionTrialEnd subscription
  else Ok (add_month periodEndDate).

(** ** Purchases *)

(** The transaction every purchase shares: one record per invoice, and the credits with it. *)
Definition grant (now : Z) (orgId source invoiceId : jsstr) (amount : JsNumber) (expiresAt : Z) (after : M unit) : M unit :=
  transaction (
    credits ← lift (bigint_of amount);
    inserted ← createExpiresRecord orgId source invoiceId credits expiresAt;
    if negb inserted then mret tt
    else _ ← grantOrgCredits now orgId credits; after).

Definition handleAutoRechargeInvoicePaid (now : Z) (invoice : InvoiceInput) : M PaidWebhookOutcome :=
  if negb (bool_decide (field (in_metadata invoice) "type" = Some (js "auto_recharge"))) then mret not_handled
  else
    let creditsAmount := number_field (in_metadata invoice) "creditsAmount" in
    match truthy_text (field (in_metadata invoice) "orgId") with
    | None => mret not_handled
    | Some orgId =>
        if falsy creditsAmount then mret not_handled
        else
          _ ← grant now orgId (js "auto_recharge") (in_id invoice) creditsAmount autoRechargeNeverExpiresAt
                (update_org orgId (set_core now (Credits.set_pendingAt None)));
          mret {| po_handled := true; po_drainOrgId := Some orgId |}
    end.

Definition handleCreditPurchaseInvoicePaid (now : Z) (invoice : InvoiceInput) : M PaidWebhookOutcome :=
  if negb (bool_decide (field (in_metadata invoice) "type" = Some (js "credit_purchase"))) &&
     negb (bool_decide (field (in_metadata invoice) "purpose" = Some (js "credit_purchase"))) then mret not_handled
  else
    let creditsAmount := creditsFromAmountCents (in_subtotal invoice) in
    match truthy_text (field (in_metadata invoice) "orgId") with
    | None => mret {| po_handled := true; po_drainOrgId := None |}
    | Some orgId =>
        if falsy creditsAmount then mret {| po_handled := true; po_drainOrgId := None |}
        else
          _ ← grant now orgId (js "auto_recharge") (in_id invoice) creditsAmount autoRechargeNeverExpiresAt (mret tt);
          mret {| po_handled := true; po_drainOrgId := Some orgId |}
    end.

Definition handleCreditPurchaseCompleted (now : Z) (session : CheckoutSessionInput) : M (option jsstr) :=
  if negb (bool_decide (ci_paymentStatus session = Some (js "paid"))) then mret None
  else
    let creditsAmount := creditPurchaseAmount session in
    match truthy_text (field (ci_metadata session) "orgId") with
    | None => mret None
    | Some orgId =>
        if falsy creditsAmount then mret None
        else
          _ ← grant now orgId (js "auto_recharge") (ci_id session) creditsAmount autoRechargeNeverExpiresAt (mret tt);
          mret (Some orgId)
    end.

Section Webhooks.
Context `{BillingServices}.

(** ** Preview events *)

Definition stripePreviewMetadataForEvent (event : StripeEvent) : option (list (option (Rec jsstr))) :=
  match event with
  | CheckoutSessionCompleted session | CheckoutAsyncPaymentSucceeded session => Some [ci_metadata session]
  | InvoicePaid invoice => Some [in_metadata invoice; in_subscriptionMetadata invoice]
  | SubscriptionCreated subscription | SubscriptionUpdated subscription _ => Some [si_metadata subscription]
  | SubscriptionDeleted _ metadata => Some [metadata]
  | _ => None
  end.

Definition shouldHandleStripePreviewEvent (event : StripeEvent) : bool :=
  match stripePreviewMetadataForEvent event with
  | None => true
  | Some candidates => existsb isCurrentStripePreviewMetadata candidates
  end.

(** ** One-time purchases *)

Definition handleOneTimePurchaseCompleted (now : Z) (session : CheckoutSessionInput) : M (option jsstr) :=
  match truthy_text (field (ci_metadata session) "orgId"), truthy_text (field (ci_metadata session) "campaignKey") with
  | Some orgId, Some campaignKey =>
      match getCampaign campaignKey with
      | None => mret None
      | Some campaign =>
          _ ← grant now orgId (cp_source campaign) (ci_id session) (Dec (cp_credits campaign) 0)
                (now + cp_expiresDays campaign * 24 * 60 * 60 * 1000) (mret tt);
          mret (Some orgId)
      end
  | _, _ => mret None
  end.

Definition handlePaidCheckoutPurpose (now : Z) (session : CheckoutSessionInput) (purpose : jsstr) : M PaidWebhookOutcome :=
  if negb (bool_decide (field (ci_metadata session) "purpose" = Some purpose)) then mret not_handled
  else if negb (bool_decide (ci_paymentStatus session = Some (js "paid"))) then
    mret {| po_handled := true; po_drainOrgId := None |}
  else
    drainOrgId ← handleOneTimePurchaseCompleted now session;
    mret {| po_handled := true; po_drainOrgId := drainOrgId |}.

(** ** Billing management checkouts *)

Definition checkoutSubscriptionContext (session : CheckoutSessionInput) : option (jsstr * jsstr) :=
  subscriptionId ← truthy_text (ci_subscription session);
  customerId ← truthy_text (ci_customer session);
  Some (customerId, subscriptionId).

Definition checkoutSetupPaymentMethodId (session : CheckoutSessionInput) : result (option jsstr) :=
  match truthy_text (ci_setupPaymentMethod session) with
  | Some pm => Ok (Some pm)
  | None => refreshed ← retrieveSession (ci_id session); Ok (se_setupPaymentMethod refreshed)
  end.

Definition billingRestoreCheckoutMetadata (session : CheckoutSessionInput) : option (jsstr * jsstr) :=
  if negb (bool_decide (field (ci_metadata session) "purpose" = Some BILLING_RESTORE_PURPOSE)) then None
  else
    orgId ← truthy_text (field (ci_metadata session) "orgId");
    subscriptionId ← truthy_text (field (ci_metadata session) "subscriptionId");
    Some (orgId, subscriptionId).

Definition billingDowngradeTargetTier (value : option jsstr) : option jsstr :=
  if bool_decide (value = Some (js "pro")) || bool_decide (value = Some (js "pro-suspend")) then value else None.

Definition billingDowngradeCheckoutMetadata (session : CheckoutSessionInput) : option (jsstr * jsstr * jsstr) :=
  if negb (bool_decide (field (ci_metadata session) "purpose" = Some BILLING_DOWNGRADE_PURPOSE)) then None
  else
    orgId ← truthy_text (field (ci_metadata session) "orgId");
    subscriptionId ← truthy_text (field (ci_metadata session) "subscriptionId");
    targetTier ← billingDowngradeTargetTier (field (ci_metadata session) "targetTier");
    Some (orgId, subscriptionId, targetTier).

Definition applyBillingSetupPaymentMethod (session : CheckoutSessionInput) (orgId subscriptionId : jsstr) : M bool :=
  if negb (bool_decide (ci_mode session = Some (js "setup"))) then mret false
  else match truthy_text (ci_customer session) with
  | None => mret false
  | Some customerId =>
      row ← get (fun s => b_orgs s !! orgId);
      match row with
      | None => mret false
      | Some org =>
          if negb (bool_decide (bo_subscriptionId org = Some subscriptionId)) ||
             negb (bool_decide (bo_customerId org = None) || bool_decide (bo_customerId org = Some customerId))
          then mret false
          else
            paymentMethodId ← lift (checkoutSetupPaymentMethodId session);
            match truthy_text paymentMethodId with
            | None => mret false
            | Some pm => _ ← call (SetDefaultPaymentMethod customerId pm); mret true
            end
      end
  end.

(** Whether the event was handled, and the organization changed. *)
Definition handleBillingRestoreCheckoutCompleted (now : Z) (session : CheckoutSessionInput) : M (bool * option jsstr) :=
  match billingRestoreCheckoutMetadata session with
  | None => mret (false, None)
  | Some (orgId, subscriptionId) =>
      paymentMethodSet ← applyBillingSetupPaymentMethod session orgId subscriptionId;
      if negb paymentMethodSet then mret (true, None)
      else
        restoreResult ← restoreSubscriptionForOrg now orgId None false;
        mret (true, match restoreResult with RestoreNoSubscription | NotScheduled => None | _ => Some orgId end)
  end.

Definition handleBillingDowngradeCheckoutCompleted (now : Z) (session : CheckoutSessionInput) : M (bool * option jsstr) :=
  match billingDowngradeCheckoutMetadata session with
  | None => mret (false, None)
  | Some (orgId, subscriptionId, targetTier) =>
      paymentMethodSet ← applyBillingSetupPaymentMethod session orgId subscriptionId;
      if negb paymentMethodSet then mret (true, None)
      else
        downgradeResult ← downgradeSubscriptionForOrg now orgId targetTier None false;
        mret (true, match downgradeResult with DowngradeNoSubscription | InvalidTargetTier _ _ => None | _ => Some orgId end)
  end.

(** ** Binding of customers and subscriptions *)

Definition has_customer (customerId : jsstr) (o : BillingOrg) : bool := bool_decide (bo_customerId o = Some customerId).
Definition has_subscription (subscriptionId : jsstr) (o : BillingOrg) : bool :=
  bool_decide (bo_subscriptionId o = Some subscriptionId).

Definition shouldSkipSubscriptionBinding (customerId subscriptionId tier : jsstr) : M bool :=
  existing ← get (find_org (has_customer customerId));
  let org := snd <$> existing in
  mret (bool_decide (org ≫= bo_subscriptionId = Some subscriptionId) ||
        checkoutWouldReplaceWithSameOrLowerTier (bo_tier <$> org) tier).

Definition orgHasStripeCustomer (customerId : jsstr) : M bool :=
  existing ← get (find_org (has_customer customerId)); mret (bool_decide (is_Some existing)).

Definition clerkOrganizationExists (orgId : jsstr) : M bool :=
  match getOrganization orgId with
  | ClerkFound => mret true
  | ClerkNotFound => mret false
  | ClerkError msg => throw msg
  end.

Definition unique_violation : jsstr := js "duplicate key value violates unique constraint uq_org_stripe_customer".

Definition set_customer (customerId : jsstr) (c : Credits.OrgMetadata) : Credits.OrgMetadata :=
  {| Credits.o_credits := Credits.o_credits c; Credits.o_tier := Credits.o_tier c;
     Credits.o_stripeCustomerId := Some customerId; Credits.o_stripeSubscriptionId := Credits.o_stripeSubscriptionId c;
     Credits.o_autoRechargeEnabled := Credits.o_autoRechargeEnabled c;
     Credits.o_autoRechargeThreshold := Credits.o_autoRechargeThreshold c;
     Credits.o_autoRechargeAmount := Credits.o_autoRechargeAmount c;
     Credits.o_autoRechargePendingAt := Credits.o_autoRechargePendingAt c |}.

Definition bindStripeCustomerToOrgMetadata (now : Z) (orgId customerId : jsstr) : M bool :=
  row ← get (fun s => b_orgs s !! orgId);
  match row with
  | Some o =>
      if bool_decide (is_Some (bo_customerId o)) then mret false
      else
        taken ← orgHasStripeCustomer customerId;
        if (taken : bool) then throw unique_violation
        else _ ← update_org orgId (set_core now (set_customer customerId)); mret true
  | None => mret false
  end.

Definition insertStripeCustomerForClerkOrg (now : Z) (orgId customerId : jsstr) : M bool :=
  existsInClerk ← clerkOrganizationExists orgId;
  if negb existsInClerk then mret false
  else
    row ← get (fun s => b_orgs s !! orgId);
    match row with
    | Some _ => bindStripeCustomerToOrgMetadata now orgId customerId
    | None =>
        taken ← orgHasStripeCustomer customerId;
        if (taken : bool) then throw unique_violation
        else
          _ ← modify (with_orgs (<[orgId := default_org (set_customer customerId (Credits.default_org 0)) now]>));
          mret true
    end.

Definition bindStripeCustomerFromMetadata (now : Z) (customerId : jsstr) : M bool :=
  known ← orgHasStripeCustomer customerId;
  if (known : bool) then mret true
  else
    customer ← lift (retrieveCustomer customerId);
    if cu_deleted customer then mret false
    else match truthy_text (rec_own (cu_metadata customer) (js "orgId")) with
    | None => mret false
    | Some orgId =>
        bound ← bindStripeCustomerToOrgMetadata now orgId customerId;
        if (bound : bool) then mret true
        else
          row ← get (fun s => b_orgs s !! orgId);
          match row with
          | None => insertStripeCustomerForClerkOrg now orgId customerId
          | Some _ => mret false
          end
    end.

Definition invoicePaidOrgForCustomer (customerId : jsstr) : M (option (jsstr * BillingOrg)) :=
  get (find_org (has_customer customerId)).

Definition invoicePaidOrgForCustomerOrMetadata (now : Z) (customerId : jsstr) : M (option (jsstr * BillingOrg)) :=
  org ← invoicePaidOrgForCustomer customerId;
  match org with
  | Some o => mret (Some o)
  | None =>
      bound ← bindStripeCustomerFromMetadata now customerId;
      if (bound : bool) then invoicePaidOrgForCustomer customerId else mret None
  end.

(** [created]: the event is [customer.subscription.created], which may bind the customer. *)
Definition bindSubscriptionToCustomerOrg (now : Z) (created : bool) (customerId : jsstr) (subscription : SubscriptionInput) :
    M (list jsstr) :=
  bound ← (if created then bindStripeCustomerFromMetadata now customerId else mret true);
  if negb bound then mret []
  else
    skip ← match first_price subscription with
           | None => mret false
           | Some priceId =>
               tier ← lift (tierFromPriceId priceId);
               shouldSkipSubscriptionBinding customerId (si_id subscription) tier
           end;
    if (skip : bool) then mret []
    else update_orgs (has_customer customerId) (set_subscription now subscription).

(** ** Paid subscription invoices *)

Definition invoiceWouldReplaceWithSameOrLowerTier (currentSubscriptionId : option jsstr) (subscriptionId currentTier
    targetTier : jsstr) : bool :=
  match currentSubscriptionId with
  | None => false
  | Some current =>
      negb (bool_decide (current = subscriptionId)) &&
      checkoutWouldReplaceWithSameOrLowerTier (Some currentTier) targetTier
  end.

Definition replacedProSubscriptionId (org : BillingOrg) (newSubscriptionId targetTier : jsstr) : option jsstr :=
  if negb (bool_decide (targetTier = js "team")) then None
  else
    current ← truthy_text (bo_subscriptionId org);
    if bool_decide (current = newSubscriptionId) then None
    else if bool_decide (bo_tier org = js "pro") || bool_decide (bo_subscriptionStatus org = Some (js "trialing"))
    then Some current else None.

Definition tierFromSubscription (subscription : SubscriptionInput) : option jsstr :=
  first_price subscription ≫= tierForKnownPriceId.

Definition isReplaceableProSubscription (orgId newSubscriptionId : jsstr) (subscription : SubscriptionInput) : bool :=
  negb (bool_decide (si_id subscription = newSubscriptionId)) &&
  bool_decide (field (si_metadata subscription) "orgId" = Some orgId) &&
  (bool_decide (si_status subscription = js "active") || bool_decide (si_status subscription = js "trialing")) &&
  bool_decide (tierFromSubscription subscription = Some (js "pro")).

Definition replacedProSubscriptionIdsForCustomer (orgId customerId newSubscriptionId targetTier : jsstr) :
    result (list jsstr) :=
  if negb (bool_decide (targetTier = js "team")) then Ok []
  else
    subscriptions ← listSubscriptions customerId;
    Ok (si_id <$> filter (fun s => isReplaceableProSubscription orgId newSubscriptionId s = true)
          (subscriptions : list SubscriptionInput)).

Fixpoint cancelReplacedProSubscriptions (oldSubscriptionIds : list jsstr) : M unit :=
  match oldSubscriptionIds with
  | [] => mret tt
  | id :: rest => _ ← call (CancelSubscription id); cancelReplacedProSubscriptions rest
  end.

Definition cancelReplacedProSubscriptionsAfterTeamInvoice (orgId customerId newSubscriptionId targetTier : jsstr)
    (knownOldSubscriptionId : option jsstr) : M unit :=
  listed ← lift (replacedProSubscriptionIdsForCustomer orgId customerId newSubscriptionId targetTier);
  cancelReplacedProSubscriptions
    (Templates.set_add_all (option_list (truthy_text knownOldSubscriptionId) ++ listed) []).

Definition subscriptionPeriodEndFromInvoice (invoice : InvoiceInput) (orgId : jsstr) : result Z :=
  match ln_periodEnd <$> head (filter (fun l => ln_subscriptionItem l = true) (in_lines invoice)) with
  | Some seconds =>
      if seconds =? 0 then Throw (js "invoice.paid has no subscription line item with period.end (invoiceId=" ++
                                  in_id invoice ++ js ", orgId=" ++ orgId ++ js ")")
      else Ok (date_of_seconds seconds)
  | None => Throw (js "invoice.paid has no subscription line item with period.end (invoiceId=" ++
                   in_id invoice ++ js ", orgId=" ++ orgId ++ js ")")
  end.

Definition subscriptionScheduledEnd (subscription : SubscriptionInput) : result (option Z) :=
  match subscriptionCancelAt subscription with
  | Some e => Ok (Some e)
  | None =>
      scheduled ← subscriptionScheduleCancellationEnd subscription;
      Ok (match scheduled with
          | Some e => Some e
          | None => if si_cancelAtPeriodEnd subscription then subscriptionPeriodEnd subscription else None end)
  end.

Definition subscriptionInvoiceDetails (invoice : InvoiceInput) (subscriptionId orgId : jsstr) :
    result (option SubscriptionInvoiceDetails) :=
  subscription ← retrieveSubscription subscriptionId;
  match first_price subscription with
  | None => Ok None
  | Some priceId =>
      tier ← tierFromPriceId priceId;
      let credits := monthlyCreditsForTier tier in
      if credits <=? 0 then Ok None
      else
        periodEndDate ← subscriptionPeriodEndFromInvoice invoice orgId;
        scheduled ← subscriptionScheduledEnd subscription;
        expiresAt ← subscriptionCreditExpiresAt subscription periodEndDate;
        Ok (Some {| sv_subscription := subscription; sv_tier := tier; sv_credits := credits;
          sv_periodEndDate := periodEndDate;
          sv_scheduledEndDate := match scheduled with
            | Some e => Some e
            | None => if subscriptionWillCancel subscription then Some periodEndDate else None end;
          sv_expiresAt := expiresAt |})
  end.

Definition set_invoice (now : Z) (invoiceId subscriptionId : jsstr) (details : SubscriptionInvoiceDetails)
    (o : BillingOrg) : BillingOrg :=
  let pendingChangeAt := sv_scheduledEndDate details in
  let plan := set_plan now (sv_tier details) (Some subscriptionId) (si_status (sv_subscription details))
    (subscriptionWillCancel (sv_subscription details) || bool_decide (is_Some pendingChangeAt))
    (Some (default (sv_periodEndDate details) pendingChangeAt)) o in
  {| bo_core := bo_core plan; bo_subscriptionStatus := bo_subscriptionStatus plan;
     bo_currentPeriodEnd := bo_currentPeriodEnd plan; bo_cancelAtPeriodEnd := bo_cancelAtPeriodEnd plan;
     bo_pendingScheduleId := if pendingChangeAt then subscriptionScheduleId (sv_subscription details) else None;
     bo_pendingTargetTier := if pendingChangeAt then Some (js "pro-suspend") else None;
     bo_pendingChangeAt := pendingChangeAt; bo_lastProcessedInvoiceId := Some invoiceId;
     bo_onboardingPaymentPending := false; bo_updatedAt := now |}.

Definition updateSubscriptionInvoiceMetadata (now : Z) (orgId invoiceId subscriptionId : jsstr)
    (details : SubscriptionInvoiceDetails) : M unit :=
  update_org orgId (set_invoice now invoiceId subscriptionId details).

Definition processSubscriptionInvoicePaid (now : Z) (invoice : InvoiceInput) (customerId subscriptionId orgId : jsstr)
    (details : SubscriptionInvoiceDetails) : M bool :=
  lockedOrg ← get (fun s => b_orgs s !! orgId);
  match lockedOrg with
  | None => mret false
  | Some org =>
      let cancelReplaced := cancelReplacedProSubscriptionsAfterTeamInvoice orgId customerId subscriptionId
        (sv_tier details) (replacedProSubscriptionId org subscriptionId (sv_tier details)) in
      if bool_decide (bo_lastProcessedInvoiceId org = Some (in_id invoice)) then _ ← cancelReplaced; mret true
      else if invoiceWouldReplaceWithSameOrLowerTier (bo_subscriptionId org) subscriptionId (bo_tier org) (sv_tier details)
      then mret false
      else
        trialing ← (if bool_decide (si_status (sv_subscription details) = js "trialing") &&
                       bool_decide (bo_subscriptionId org = Some subscriptionId) &&
                       bool_decide (bo_tier org = sv_tier details)
                    then existingTrialPlanCredits orgId (sv_credits details) else mret false);
        if (trialing : bool) then
          _ ← refreshTrialPlanCredits orgId (sv_credits details) (sv_expiresAt details);
          _ ← updateSubscriptionInvoiceMetadata now orgId (in_id invoice) subscriptionId details;
          mret true
        else
          _ ← expireCredits now orgId;
          inserted ← createExpiresRecord orgId (js "subscription_renewal") (in_id invoice) (sv_credits details)
                       (sv_expiresAt details);
          if negb inserted then mret true
          else
            _ ← grantOrgCredits now orgId (sv_credits details);
            _ ← updateSubscriptionInvoiceMetadata now orgId (in_id invoice) subscriptionId details;
            _ ← cancelReplaced;
            mret true
  end.

Definition handleInvoicePaid (now : Z) (invoice : InvoiceInput) : M (option jsstr) :=
  autoRechargeResult ← handleAutoRechargeInvoicePaid now invoice;
  if po_handled autoRechargeResult then mret (po_drainOrgId autoRechargeResult)
  else
    creditPurchaseResult ← handleCreditPurchaseInvoicePaid now invoice;
    if po_handled creditPurchaseResult then mret (po_drainOrgId creditPurchaseResult)
    else match truthy_text (in_subscription invoice), truthy_text (in_customer invoice) with
    | Some subscriptionId, Some customerId =>
        found ← invoicePaidOrgForCustomerOrMetadata now customerId;
        match found with
        | None => mret None
        | Some (orgId, org) =>
            if bool_decide (bo_lastProcessedInvoiceId org = Some (in_id invoice)) then
              _ ← cancelReplacedProSubscriptionsAfterTeamInvoice orgId customerId subscriptionId
                    (if bool_decide (bo_tier org = js "team") then js "team" else js "pro") None;
              mret (Some orgId)
            else
              details ← lift (subscriptionInvoiceDetails invoice subscriptionId orgId);
              match details with
              | None => mret None
              | Some details =>
                  processed ← transaction (processSubscriptionInvoicePaid now invoice customerId subscriptionId orgId details);
                  mret (if (processed : bool) then Some orgId else None)
              end
        end
    | _, _ => mret None
    end.

(** ** Subscription events *)

Definition handleCheckoutCompleted (now : Z) (session : CheckoutSessionInput) : M (option jsstr * list jsstr) :=
  restore ← handleBillingRestoreCheckoutCompleted now session;
  if (fst restore : bool) then mret (None, option_list (snd restore))
  else
    downgrade ← handleBillingDowngradeCheckoutCompleted now session;
    if (fst downgrade : bool) then mret (None, option_list (snd downgrade))
    else if bool_decide (field (ci_metadata session) "purpose" = Some (js "credit_purchase")) then
      match truthy_text (ci_invoice session) with
      | None => drainOrgId ← handleCreditPurchaseCompleted now session; mret (drainOrgId, option_list drainOrgId)
      | Some _ => mret (None, [])
      end
    else
      oneTime ← handlePaidCheckoutPurpose now session (js "one_time_purchase");
      if po_handled oneTime then mret (po_drainOrgId oneTime, option_list (po_drainOrgId oneTime))
      else match checkoutSubscriptionContext session with
      | None => mret (None, [])
      | Some (customerId, subscriptionId) =>
          subscription ← lift (retrieveSubscription subscriptionId);
          orgIds ← bindSubscriptionToCustomerOrg now false customerId subscription;
          mret (None, orgIds)
      end.

Definition handleSubscriptionCreated (now : Z) (subscription : SubscriptionInput) : M (list jsstr) :=
  match truthy_text (si_customer subscription) with
  | None => mret []
  | Some customerId => bindSubscriptionToCustomerOrg now true customerId subscription
  end.

Definition subscriptionPendingChangeCleared (subscription : SubscriptionInput)
    (previous : option SubscriptionPreviousAttributes) (willCancel : bool) : bool :=
  if willCancel || bool_decide (is_Some (truthy_text (subscriptionScheduleId subscription))) then false
  else match previous with
  | None => false
  | Some p => pa_scheduleChanged p || pa_cancelAtChanged p || bool_decide (pa_cancelAtPeriodEnd p = Some true)
  end.

Definition set_updated (now : Z) (status : jsstr) (willCancel : bool) (periodEnd : option Z) (scheduleId : option jsstr)
    (clearPendingChange : bool) (shortened : option Z) (o : BillingOrg) : BillingOrg :=
  let scheduled := match periodEnd, scheduleId with Some e, Some id => Some (e, id) | _, _ => None end in
  {| bo_core := bo_core o; bo_subscriptionStatus := Some status;
     bo_currentPeriodEnd := match shortened, periodEnd with
       | Some e, _ => Some e | None, Some e => Some e | None, None => bo_currentPeriodEnd o end;
     bo_cancelAtPeriodEnd := willCancel;
     bo_pendingScheduleId := if clearPendingChange then None
       else match scheduled with Some (_, id) => Some id | None => bo_pendingScheduleId o end;
     bo_pendingTargetTier := if clearPendingChange then None
       else match scheduled with Some _ => Some (js "pro-suspend") | None => bo_pendingTargetTier o end;
     bo_pendingChangeAt := if clearPendingChange then None
       else match scheduled with Some (e, _) => Some e | None => bo_pendingChangeAt o end;
     bo_lastProcessedInvoiceId := bo_lastProcessedInvoiceId o;
     bo_onboardingPaymentPending := bo_onboardingPaymentPending o; bo_updatedAt := now |}.

(** The grants of a plan that outlive a shortened trial. *)
Definition shorten_grants (orgIds : list jsstr) (trialEnd : Z) (r : GrantRecord) : GrantRecord :=
  if bool_decide (Credits.x_orgId (gr_core r) ∈ orgIds) && bool_decide (gr_source r = js "subscription_renewal") &&
     (trialEnd <? Credits.x_expiresAt (gr_core r)) && (0 <? Credits.x_remaining (gr_core r))
  then set_expiry trialEnd r else r.

Definition handleSubscriptionUpdated (now : Z) (subscription : SubscriptionInput)
    (previous : option SubscriptionPreviousAttributes) : M (list jsstr) :=
  periodEnd ← lift (subscriptionScheduledEnd subscription);
  let willCancel := subscriptionWillCancel subscription || bool_decide (is_Some periodEnd) in
  let clearPendingChange := subscriptionPendingChangeCleared subscription previous willCancel in
  let trialShortened := match subscriptionTrialEnd subscription, date_of_seconds <$> (previous ≫= pa_trialEnd) with
    | Some trialEnd, Some previousTrialEnd =>
        if bool_decide (si_status subscription = js "trialing") && (trialEnd <? previousTrialEnd) then Some trialEnd else None
    | _, _ => None end in
  transaction (
    orgIds ← update_orgs (has_subscription (si_id subscription))
      (set_updated now (si_status subscription) willCancel periodEnd (truthy_text (subscriptionScheduleId subscription))
         clearPendingChange trialShortened);
    match trialShortened with
    | None => mret orgIds
    | Some trialEnd => _ ← modify (with_records (fmap (shorten_grants orgIds trialEnd))); mret orgIds
    end).

Definition has_schedule (scheduleId : jsstr) (o : BillingOrg) : bool := bool_decide (bo_pendingScheduleId o = Some scheduleId).

Definition handleSubscriptionScheduleReleased (now : Z) (scheduleId : jsstr) : M (list jsstr) :=
  update_orgs (has_schedule scheduleId) (clear_pending now false).

Definition handleSubscriptionScheduleEnded (now : Z) (scheduleId : jsstr) : M (list jsstr) :=
  update_orgs (has_schedule scheduleId) (fun o => clear_pending now (bo_cancelAtPeriodEnd o) o).

Definition handleSubscriptionDeleted (now : Z) (subscriptionId : jsstr) : M (list jsstr) :=
  update_orgs (has_subscription subscriptionId) (fun o =>
    clear_pending now false (set_plan now (js "pro-suspend") None (js "canceled") false None o)).

(** ** The handler *)

(** The organization whose queue is drained, and the ones that are notified. *)
Definition dispatch_event (now : Z) (event : StripeEvent) : M (option jsstr * list jsstr) :=
  match event with
  | CheckoutSessionCompleted session | CheckoutAsyncPaymentSucceeded session => handleCheckoutCompleted now session
  | InvoicePaid invoice => orgId ← handleInvoicePaid now invoice; mret (orgId, option_list (truthy_text orgId))
  | SubscriptionCreated subscription => orgIds ← handleSubscriptionCreated now subscription; mret (None, orgIds)
  | SubscriptionUpdated subscription previous =>
      orgIds ← handleSubscriptionUpdated now subscription previous; mret (None, orgIds)
  | SubscriptionDeleted id _ => orgIds ← handleSubscriptionDeleted now id; mret (None, orgIds)
  | ScheduleReleased id => orgIds ← handleSubscriptionScheduleReleased now id; mret (None, orgIds)
  | ScheduleCanceled id | ScheduleAborted id => orgIds ← handleSubscriptionScheduleEnded now id; mret (None, orgIds)
  | OtherEvent => mret (None, [])
  end.

Definition publish_all (orgIds : list jsstr) : M unit :=
  modify (fun s => with_calls (b_calls s ++ (BillingChanged <$> Templates.set_add_all orgIds [])) s).

Definition handleStripeWebhookEvent (now : Z) (event : StripeEvent) : M (option jsstr) :=
  if negb (shouldHandleStripePreviewEvent event) then mret None
  else
    outcome ← dispatch_event now event;
    _ ← publish_all (snd outcome);
    mret (truthy_text (fst outcome)).

(** The event with the drain of the run queue that follows it. The tiers the queue reads
    are the ones of the organizations. *)
Definition tiers_of (s : BillingDb) : gmap jsstr jsstr := bo_tier <$> b_orgs s.

Definition webhook `{RunQueue.PayloadCodec} (cap : option Z) (fuel : nat) (now : Z) (event : StripeEvent)
    (s : BillingDb) (w : RunStore.World) : option (result unit * BillingDb * RunStore.World) :=
  let '(r, s') := handleStripeWebhookEvent now event s in
  let w := RunLifecycle.with_tiers (fun _ => tiers_of s') w in
  match r with
  | Throw e => Some (Throw e, s', w)
  | Ok None => Some (Ok tt, s', w)
  | Ok (Some orgId) =>
      match RunQueue.drainOrgQueueToCapacity cap fuel now orgId 0 w with
      | Some (Ok _, w') => Some (Ok tt, s', w')
      | Some (Throw e, w') => Some (Throw e, s', w')
      | None => None
      end
  end.

End Webhooks.

(** ** The abstract ledger

    Credits and grants, without the columns that do not matter to them. *)

(** The invoice or session an event announces as paid. *)
Definition event_invoice (event : StripeEvent) : option jsstr :=
  match event with
  | CheckoutSessionCompleted session | CheckoutAsyncPaymentSucceeded session => Some (ci_id session)
  | InvoicePaid invoice => Some (in_id invoice)
  | _ => None
  end.

Section Ledger.
Context `{BillingServices} (now : Z) (event : StripeEvent).

(** The end of a trial the event announces for a subscription: that of the subscription a paid
    invoice is of, or that of an updated subscription. *)
Definition announces_trial_end (subscriptionId : jsstr) (trialEnd : Z) : Prop :=
  match event with
  | InvoicePaid invoice => in_subscription invoice = Some subscriptionId /\
      exists subscription, retrieveSubscription subscriptionId = Ok subscription /\ si_status subscription = js "trialing" /\
        subscriptionTrialEnd subscription = Some trialEnd
  | SubscriptionUpdated subscription _ => si_id subscription = subscriptionId /\ si_status subscription = js "trialing" /\
      subscriptionTrialEnd subscription = Some trialEnd
  | _ => False
  end.

(** A grant that is moved to the end of the trial: one of the plan, with credits left, of an
    organization on the subscription; an update moves it to an earlier date only. *)
Definition moved_to (subscriptionId : jsstr) (trialEnd : Z) (s : BillingDb) (r r' : GrantRecord) : Prop :=
  r' = set_expiry trialEnd r /\ gr_source r = js "subscription_renewal" /\ 0 < Credits.x_remaining (gr_core r) /\
  (exists o, b_orgs s !! Credits.x_orgId (gr_core r) = Some o /\ bo_subscriptionId o = Some subscriptionId) /\
  match event with SubscriptionUpdated _ _ => trialEnd < Credits.x_expiresAt (gr_core r) | _ => True end.

(** The steps the event may take. *)
Inductive ledger_step : BillingDb -> BillingDb -> Prop :=
| ledger_neutral s s' : same_ledger s s' -> ledger_step s s'
| ledger_expire orgId s : event_invoice event <> None -> ledger_step s (expire now orgId s).2
| ledger_grant orgId source invoiceId amount expiresAt s s' :
    event_invoice event = Some invoiceId ->
    existsb (has_invoice orgId invoiceId) (b_records s) = false ->
    b_records s' = b_records s ++ [new_record (b_nextId s) orgId source invoiceId amount expiresAt] ->
    b_nextId s' = b_nextId s + 1 ->
    (forall o, credits_of s' o = if bool_decide (o = orgId) then credits_of s o + amount else credits_of s o) ->
    ledger_step s s'
| ledger_redate subscriptionId trialEnd s s' :
    announces_trial_end subscriptionId trialEnd ->
    (forall orgId, credits_of s' orgId = credits_of s orgId) -> b_nextId s' = b_nextId s ->
    Forall2 (fun r r' => r' = r \/ moved_to subscriptionId trialEnd s r r') (b_records s) (b_records s') ->
    ledger_step s s'.

End Ledger.

Abbreviation ledger_steps now event := (rtc (ledger_step now event)).

(** ** Operations that only touch subscription columns *)

Section Operations.
Context `{BillingServices} {X} {K : BillingOrg -> X} {R : relation BillingDb} `{!Frame K R}.

Lemma follows_apply session orgId subscriptionId : follows R (applyBillingSetupPaymentMethod session orgId subscriptionId).
Proof. unfold applyBillingSetupPaymentMethod. follows_tac. Qed.

Lemma follows_cancel_all ids : follows R (cancelReplacedProSubscriptions ids).
Proof. induction ids; cbn [cancelReplacedProSubscriptions]; follows_tac. Qed.
#[local] Hint Resolve follows_cancel_all : follows.

Lemma follows_cancel orgId customerId newId tier known :
  follows R (cancelReplacedProSubscriptionsAfterTeamInvoice orgId customerId newId tier known).
Proof. unfold cancelReplacedProSubscriptionsAfterTeamInvoice. follows_tac. Qed.

Lemma follows_bind_customer now orgId customerId :
  (forall now c o, K (set_core now (set_customer c) o) = K o) ->
  follows R (bindStripeCustomerToOrgMetadata now orgId customerId).
Proof. intros HK. unfold bindStripeCustomerToOrgMetadata, orgHasStripeCustomer. follows_tac. Qed.
#[local] Hint Resolve follows_bind_customer : follows.

Lemma follows_insert_customer now orgId customerId :
  (forall now c o, K (set_core now (set_customer c) o) = K o) ->
  follows R (insertStripeCustomerForClerkOrg now orgId customerId).
Proof.
  intros HK. unfold insertStripeCustomerForClerkOrg, clerkOrganizationExists, orgHasStripeCustomer.
  apply follows_bind; [follows_tac|]. intros [|]; [cbn [negb]|follows_tac].
  intros s. unfold mbind at 1, M_bind at 1, get at 1. destruct (b_orgs s !! orgId) eqn:E; [by apply follows_bind_customer|].
  unfold mbind, M_bind, get, mret, M_ret, modify, throw, lift. destruct (bool_decide _); [done|]. by apply frame_insert.
Qed.
#[local] Hint Resolve follows_insert_customer : follows.

Lemma follows_bind_metadata now customerId :
  (forall now c o, K (set_core now (set_customer c) o) = K o) -> follows R (bindStripeCustomerFromMetadata now customerId).
Proof. intros HK. unfold bindStripeCustomerFromMetadata, orgHasStripeCustomer. follows_tac. Qed.
#[local] Hint Resolve follows_bind_metadata : follows.

Lemma follows_bind_subscription now created customerId subscription :
  (forall now c o, K (set_core now (set_customer c) o) = K o) ->
  (forall now sub o, K (set_subscription now sub o) = K o) ->
  follows R (bindSubscriptionToCustomerOrg now created customerId subscription).
Proof.
  intros HK1 HK2. unfold bindSubscriptionToCustomerOrg, shouldSkipSubscriptionBinding. follows_tac.
Qed.

End Operations.

#[export] Hint Extern 0 (follows _ (applyBillingSetupPaymentMethod _ _ _)) => eapply follows_apply; follows_solve : follows.
#[export] Hint Extern 0 (follows _ (cancelReplacedProSubscriptions _)) => eapply follows_cancel_all; follows_solve : follows.
#[export] Hint Extern 0 (follows _ (cancelReplacedProSubscriptionsAfterTeamInvoice _ _ _ _ _)) => eapply follows_cancel; follows_solve : follows.
#[export] Hint Extern 0 (follows _ (bindStripeCustomerToOrgMetadata _ _ _)) => eapply follows_bind_customer; follows_solve : follows.
#[export] Hint Extern 0 (follows _ (insertStripeCustomerForClerkOrg _ _ _)) => eapply follows_insert_customer; follows_solve : follows.
#[export] Hint Extern 0 (follows _ (bindStripeCustomerFromMetadata _ _)) => eapply follows_bind_metadata; follows_solve : follows.
#[export] Hint Extern 0 (follows _ (bindSubscriptionToCustomerOrg _ _ _ _)) => eapply follows_bind_subscription; follows_solve : follows.

(** ** The handlers implement the ledger *)

Section Steps.
Context `{BillingServices} (now : Z) (event : StripeEvent).

Lemma neutral_steps s s' : same_ledger s s' -> ledger_steps now event s s'.
Proof. intros. by apply rtc_once, ledger_neutral. Qed.

#[export] Instance ledger_frame : Frame bo_credits (ledger_steps now event).
Proof.
  split; [apply _|..].
  - intros. apply neutral_steps, frame_calls.
  - intros. by apply neutral_steps, frame_alter.
  - intros. by apply neutral_steps, frame_fmap.
  - intros. by apply neutral_steps, frame_insert.
Qed.

Lemma redate_steps subscriptionId trialEnd f s :
  announces_trial_end event subscriptionId trialEnd ->
  (forall r, r ∈ b_records s -> f r = r \/ moved_to event subscriptionId trialEnd s r (f r)) ->
  ledger_steps now event s (with_records (fmap f) s).
Proof.
  intros Ht Hf. apply rtc_once. apply (ledger_redate _ _ subscriptionId trialEnd); [done|done|done|]. cbn.
  apply Forall2_fmap_r, Forall_Forall2_diag, Forall_forall. exact Hf.
Qed.

Lemma ledger_expireCredits orgId : event_invoice event <> None -> follows (ledger_steps now event) (expireCredits now orgId).
Proof.
  intros He s. unfold expireCredits. destruct (expire now orgId s) as [n s'] eqn:E. cbn.
  apply rtc_once. rewrite <- (f_equal snd E : (expire now orgId s).2 = s'). by apply ledger_expire.
Qed.

Lemma credits_of_grant orgId amount s o :
  credits_of (grantOrgCredits now orgId amount s).2 o =
  if bool_decide (o = orgId) then credits_of s o + amount else credits_of s o.
Proof.
  unfold credits_of. cbn. destruct (b_orgs s !! orgId) as [org|] eqn:E; case_bool_decide as Ho; subst;
    rewrite ?lookup_insert_eq, ?lookup_insert_ne by done; rewrite ?E; done.
Qed.

(** A record and the credits with it are one step. *)
Lemma ledger_record_grant {B} orgId source invoiceId amount expiresAt (k1 k2 : M B) :
  event_invoice event = Some invoiceId -> follows_ok (ledger_steps now event) k1 -> follows_ok (ledger_steps now event) k2 ->
  follows_ok (ledger_steps now event) (inserted ← createExpiresRecord orgId source invoiceId amount expiresAt;
              if negb inserted then k1 else _ ← grantOrgCredits now orgId amount; k2).
Proof.
  intros Hp H1 H2 s b s'. unfold createExpiresRecord, mbind, M_bind, get, modify, mret, M_ret.
  destruct (existsb (has_invoice orgId invoiceId) (b_records s)) eqn:Ed; cbn [negb]; [apply H1|].
  intros Hk. eapply rtc_l; [|by eapply H2; exact Hk].
  eapply (ledger_grant _ _ orgId source invoiceId amount expiresAt); [exact Hp|exact Ed|done|done|].
  intros o. exact (credits_of_grant orgId amount (insert_record orgId source invoiceId amount expiresAt s) o).
Qed.

Lemma ledger_grant_purchase orgId source invoiceId amount expiresAt after :
  event_invoice event = Some invoiceId -> follows (ledger_steps now event) after ->
  follows (ledger_steps now event) (grant now orgId source invoiceId amount expiresAt after).
Proof.
  intros Hp Ha. apply follows_transaction, follows_ok_bind; [apply follows_follows_ok, follows_lift|]. intros credits.
  apply ledger_record_grant; [done|..]; apply follows_follows_ok; [apply follows_ret|done].
Qed.

End Steps.

(** ** What any sequence of deliveries does *)

Definition entry_org (e : Z * jsstr * jsstr * option jsstr * Z) : jsstr := e.1.1.1.2.
Definition entry_invoice (e : Z * jsstr * jsstr * option jsstr * Z) : option jsstr := e.1.2.
Definition entry_amount (e : Z * jsstr * jsstr * option jsstr * Z) : Z := e.2.

Definition entries (s : BillingDb) : list (Z * jsstr * jsstr * option jsstr * Z) := grant_entry <$> b_records s.

(** The organization and invoice of every grant that has an invoice. *)
Definition invoice_keys (s : BillingDb) : list (jsstr * jsstr) :=
  omap (fun e => pair (entry_org e) <$> entry_invoice e) (entries s).

Fixpoint granted_to (orgId : jsstr) (granted : list (Z * jsstr * jsstr * option jsstr * Z)) : Z :=
  match granted with
  | [] => 0
  | e :: granted' => (if bool_decide (entry_org e = orgId) then Z.max 0 (entry_amount e) else 0) + granted_to orgId granted'
  end.

(** From [s] to [s'], grants are only added, for invoices in [P] and once per organization and
    invoice, and no balance grows by more than the grants added for it. *)
Definition grows (P : jsstr -> Prop) (s s' : BillingDb) : Prop :=
  (NoDup (invoice_keys s) -> NoDup (invoice_keys s')) /\
  exists granted, entries s' = entries s ++ granted /\ Forall (fun e => exists id, entry_invoice e = Some id /\ P id) granted /\
    forall orgId, Z.max 0 (credits_of s' orgId) <= Z.max 0 (credits_of s orgId) + granted_to orgId granted.

Lemma granted_to_app orgId xs ys : granted_to orgId (xs ++ ys) = granted_to orgId xs + granted_to orgId ys.
Proof. induction xs as [|x xs IH]; cbn [granted_to app]; lia. Qed.

#[export] Instance grows_preorder P : PreOrder (grows P).
Proof.
  split.
  - intros s. split; [done|]. exists []. rewrite app_nil_r. split_and!; [done|constructor|]. intros; cbn; lia.
  - intros s1 s2 s3 [Hn1 (g1 & He1 & Hf1 & Hc1)] [Hn2 (g2 & He2 & Hf2 & Hc2)]. split; [auto|].
    exists (g1 ++ g2). split_and!; [by rewrite He2, He1, app_assoc|by apply Forall_app|].
    intros orgId. rewrite granted_to_app. specialize (Hc1 orgId). specialize (Hc2 orgId). lia.
Qed.

Lemma grows_impl (P Q : jsstr -> Prop) s s' : (forall id, P id -> Q id) -> grows P s s' -> grows Q s s'.
Proof.
  intros HPQ [Hn (g & He & Hf & Hc)]. split; [done|]. exists g. split_and!; [done| |done].
  eapply Forall_impl; [exact Hf|]. cbn. naive_solver.
Qed.

Lemma grows_unchanged P s s' :
  entries s' = entries s -> (forall orgId, Z.max 0 (credits_of s' orgId) <= Z.max 0 (credits_of s orgId)) -> grows P s s'.
Proof.
  intros He Hc. split; [unfold invoice_keys; by rewrite He|]. exists []. rewrite app_nil_r.
  split_and!; [done|constructor|]. intros orgId. cbn. specialize (Hc orgId). lia.
Qed.

Lemma expire_loop_keeps expired total s :
  b_orgs (expireLoop expired total s).2 = b_orgs s /\ entries (expireLoop expired total s).2 = entries s /\
  b_nextId (expireLoop expired total s).2 = b_nextId s.
Proof.
  revert total s. induction expired as [|r expired IH]; intros total s; cbn [expireLoop]; [done|].
  destruct (IH (total + Credits.x_remaining (gr_core r)) (update_remaining (Credits.x_id (gr_core r)) 0 s)) as (Ho & He & Hi).
  split_and!; [done| |done]. rewrite He. unfold entries. cbn. rewrite <- list_fmap_compose. apply list_fmap_ext.
  intros i x _. cbn. by destruct (_ =? _).
Qed.

Lemma grows_expire P now orgId s : grows P s (expire now orgId s).2.
Proof.
  unfold expire. cbn zeta. destruct (_ =? _)%nat; [reflexivity|].
  set (expired := filter _ _). destruct (expire_loop_keeps expired 0 s) as (Ho & He & _).
  destruct (expireLoop expired 0 s) as [total s1] eqn:E. cbn [snd] in *.
  destruct (0 <? total) eqn:Ht; [apply Z.ltb_lt in Ht|apply Z.ltb_ge in Ht];
    (apply grows_unchanged; [done|]); intros o; unfold credits_of; cbn [with_orgs b_orgs snd]; rewrite Ho; [|lia].
  destruct (b_orgs s !! orgId) as [org|] eqn:Eo; [|lia].
  destruct (decide (o = orgId)) as [->|]; [|rewrite lookup_insert_ne by done; lia].
  rewrite lookup_insert_eq, Eo. cbn. unfold bo_credits. cbn. lia.
Qed.

Lemma has_invoice_key orgId invoiceId s :
  existsb (has_invoice orgId invoiceId) (b_records s) = false -> (orgId, invoiceId) ∉ invoice_keys s.
Proof.
  intros Hx Hin. apply list_elem_of_omap in Hin as (e & He & Hk). apply list_elem_of_fmap in He as (r & -> & Hr).
  apply not_true_iff_false in Hx. apply Hx, existsb_exists. exists r. split; [by apply list_elem_of_In|].
  unfold has_invoice. cbn in Hk. destruct (gr_invoiceId r) as [i|]; [|done]. cbn in Hk. simplify_eq.
  by rewrite !bool_decide_true.
Qed.

Lemma entries_redated event subscriptionId trialEnd s s' :
  Forall2 (fun r r' => r' = r \/ moved_to event subscriptionId trialEnd s r r') (b_records s) (b_records s') -> entries s' = entries s.
Proof.
  unfold entries. generalize (b_records s), (b_records s'). intros l l'. induction 1 as [|r r' l l' Hr _ IH]; [done|].
  cbn. rewrite IH. by destruct Hr as [->|[-> _]].
Qed.

Lemma grows_step `{BillingServices} now event s s' : ledger_step now event s s' -> grows (fun id => event_invoice event = Some id) s s'.
Proof.
  destruct 1 as [s s' (Hc & He & _)|orgId s _|orgId source invoiceId amount expiresAt s s' Hp Hx Hr Hi Hc|subscriptionId trialEnd s s' _ Hc _ Hr].
  - apply grows_unchanged; [unfold entries; by rewrite He|]. intros. by rewrite Hc.
  - apply grows_expire.
  - set (e := grant_entry (new_record (b_nextId s) orgId source invoiceId amount expiresAt)).
    assert (He : entries s' = entries s ++ [e]) by (unfold entries; by rewrite Hr, fmap_app). split.
    + intros Hn. unfold invoice_keys. rewrite He, omap_app. apply NoDup_app. split_and!; [done| |apply NoDup_singleton].
      intros k Hk ->%list_elem_of_singleton. by apply (has_invoice_key orgId invoiceId s).
    + exists [e]. split_and!; [done|by repeat constructor; exists invoiceId|]. intros o. rewrite Hc. cbn.
      rewrite (bool_decide_ext (o = orgId) (orgId = o)) by done. case_bool_decide; lia.
  - apply grows_unchanged; [by eapply entries_redated|]. intros. by rewrite Hc.
Qed.

Lemma grows_steps `{BillingServices} now event s s' : ledger_steps now event s s' -> grows (fun id => event_invoice event = Some id) s s'.
Proof. induction 1 as [|s1 s2 s3 H12 _ IH]; [reflexivity|]. etrans; [by eapply grows_step|exact IH]. Qed.

Section Refinement.
Context `{BillingServices}.

Lemma follows_lift_bind {A B} (R : relation BillingDb) `{!PreOrder R} (r : result A) (f : A -> M B) :
  (forall a, r = Ok a -> follows R (f a)) -> follows R (lift r ≫= f).
Proof. intros Hf s. unfold lift, mbind, M_bind. destruct r as [a|e]; [by apply Hf|done]. Qed.

Lemma details_trial invoice subscriptionId orgId details :
  subscriptionInvoiceDetails invoice subscriptionId orgId = Ok (Some details) ->
  retrieveSubscription subscriptionId = Ok (sv_subscription details) /\
  (si_status (sv_subscription details) = js "trialing" -> subscriptionTrialEnd (sv_subscription details) = Some (sv_expiresAt details)).
Proof.
  unfold subscriptionInvoiceDetails. intros (subscription & -> & Hd)%result_bind_ok.
  destruct (first_price subscription); [|done]. apply result_bind_ok in Hd as (tier & _ & Hd). destruct (_ <=? 0); [done|].
  apply result_bind_ok in Hd as (e & _ & Hd). apply result_bind_ok in Hd as (sched & _ & Hd).
  apply result_bind_ok in Hd as (x & Hx & Hd). injection Hd as <-. split; [done|]. cbn. intros Ht.
  unfold subscriptionCreditExpiresAt in Hx. rewrite bool_decide_true in Hx by done. unfold requiredSubscriptionTrialEnd in Hx.
  by destruct (subscriptionTrialEnd subscription); simplify_eq.
Qed.

Lemma ledger_process now invoice customerId subscriptionId orgId details :
  in_subscription invoice = Some subscriptionId -> subscriptionInvoiceDetails invoice subscriptionId orgId = Ok (Some details) ->
  follows_ok (ledger_steps now (InvoicePaid invoice)) (processSubscriptionInvoicePaid now invoice customerId subscriptionId orgId details).
Proof.
  intros Hsub Hdet s b s' Hrun. unfold processSubscriptionInvoicePaid in Hrun. apply bind_ok in Hrun as (row & s0 & [= <- <-] & Hrun).
  destruct (b_orgs s !! orgId) as [org|] eqn:Horg; [|by injection Hrun as <- <-]. cbn zeta in Hrun.
  destruct (bool_decide (bo_lastProcessedInvoiceId org = Some (in_id invoice))).
  { apply (follows_run _ _ _ _ _ Hrun). follows_tac. }
  destruct (invoiceWouldReplaceWithSameOrLowerTier _ _ _ _); [by injection Hrun as <- <-|].
  apply bind_ok in Hrun as (trialing & s1 & Ht & Hrun). destruct trialing.
  - destruct (_ && _ && _) eqn:Ec; [|by injection Ht]. unfold existingTrialPlanCredits in Ht. injection Ht as _ <-. bool_facts.
    destruct (details_trial _ _ _ _ Hdet) as [Hret Hend]. apply bind_ok in Hrun as (u & s2 & Hmod & Hrun).
    etrans; [|apply (follows_run _ _ _ _ _ Hrun); unfold updateSubscriptionInvoiceMetadata; follows_tac].
    injection Hmod as _ <-. apply (redate_steps _ _ subscriptionId (sv_expiresAt details)); [split; [done|]; eauto|].
    intros r _. destruct (is_plan_grant orgId (sv_credits details) r && _) eqn:Er; [right|by left].
    unfold is_plan_grant in Er. bool_facts. split_and!; [done|done|done| |done]. subst. eauto.
  - assert (s1 = s) as ->. { unfold existingTrialPlanCredits in Ht. by destruct (_ && _); injection Ht. }
    apply bind_ok in Hrun as (n & s2 & H2 & Hrun). etrans; [apply (follows_run _ _ _ _ _ H2); by apply ledger_expireCredits|].
    revert Hrun. eapply ledger_record_grant; [done|..]; apply follows_follows_ok; [apply follows_ret|].
    unfold updateSubscriptionInvoiceMetadata. follows_tac.
Qed.

Lemma ledger_invoice now invoice : follows (ledger_steps now (InvoicePaid invoice)) (handleInvoicePaid now invoice).
Proof.
  unfold handleInvoicePaid. apply follows_bind.
  { unfold handleAutoRechargeInvoicePaid. follows_tac. apply ledger_grant_purchase; [done|]. follows_tac. }
  intros a. destruct (po_handled a); [apply follows_ret|]. apply follows_bind.
  { unfold handleCreditPurchaseInvoicePaid. follows_tac. apply ledger_grant_purchase; [done|apply follows_ret]. }
  intros c. destruct (po_handled c); [apply follows_ret|].
  destruct (truthy_text (in_subscription invoice)) as [subscriptionId|] eqn:Hs; [|follows_tac].
  assert (in_subscription invoice = Some subscriptionId).
  { unfold truthy_text in Hs. by destruct (in_subscription invoice) as [[|? ?]|]; simplify_eq. }
  destruct (truthy_text (in_customer invoice)) as [customerId|]; [|follows_tac].
  apply follows_bind; [unfold invoicePaidOrgForCustomerOrMetadata, invoicePaidOrgForCustomer; follows_tac|].
  intros [[orgId org]|]; [|follows_tac]. destruct (bool_decide _); [follows_tac|]. apply follows_lift_bind; [apply _|].
  intros [details|] Hd; [|follows_tac]. apply follows_bind; [|follows_tac]. by apply follows_transaction, ledger_process.
Qed.

Lemma ledger_checkout now event session : event_invoice event = Some (ci_id session) ->
  follows (ledger_steps now event) (handleCheckoutCompleted now session).
Proof.
  intros He. unfold handleCheckoutCompleted, handleBillingRestoreCheckoutCompleted, handleBillingDowngradeCheckoutCompleted,
    handleCreditPurchaseCompleted, handlePaidCheckoutPurpose, handleOneTimePurchaseCompleted.
  follows_tac; (apply ledger_grant_purchase; [done|apply follows_ret]).
Qed.

Lemma ledger_updated now subscription previous :
  follows (ledger_steps now (SubscriptionUpdated subscription previous)) (handleSubscriptionUpdated now subscription previous).
Proof.
  unfold handleSubscriptionUpdated. apply follows_bind; [apply follows_lift|]. intros periodEnd.
  apply follows_transaction. intros s b s' Hrun. apply bind_ok in Hrun as (orgIds & s1 & H1 & Hrun).
  assert (ledger_steps now (SubscriptionUpdated subscription previous) s s1) as E1.
  { apply (follows_run _ _ _ _ _ H1). by apply (follows_update_orgs (K := bo_credits)). }
  destruct (subscriptionTrialEnd subscription) as [e|] eqn:Ee; [|by injection Hrun as _ <-].
  destruct (date_of_seconds <$> _) as [e'|]; [|by injection Hrun as _ <-]. destruct (_ && _) eqn:Ec; [|by injection Hrun as _ <-].
  bool_facts. injection Hrun as _ <-. etrans; [exact E1|].
  apply (redate_steps _ _ (si_id subscription) e); [done|]. intros r _. unfold shorten_grants.
  destruct (_ && _ && _ && _) eqn:Er; [right|by left]. bool_facts. split_and!; [done|done|done| |done].
  injection H1 as <- <-. match goal with Hi : Credits.x_orgId _ ∈ _ |- _ => rename Hi into Hin end. unfold org_ids in Hin.
  apply list_elem_of_fmap in Hin as ([o row] & Ho & Hin).
  apply list_elem_of_filter in Hin as [Hp Hin]. apply elem_of_map_to_list in Hin. cbn in Ho, Hp |- *. rewrite Ho, lookup_fmap, Hin. cbn. rewrite Hp.
  eexists. split; [done|]. unfold has_subscription in Hp. by apply bool_decide_eq_true in Hp.
Qed.
#[local] Hint Resolve ledger_invoice ledger_updated : follows.
#[local] Hint Extern 0 (follows _ (handleCheckoutCompleted _ _)) => apply ledger_checkout; reflexivity : follows.

Lemma ledger_dispatch now event : follows (ledger_steps now event) (dispatch_event now event).
Proof.
  unfold dispatch_event, handleSubscriptionCreated, handleSubscriptionScheduleReleased, handleSubscriptionScheduleEnded,
    handleSubscriptionDeleted.
  destruct event; follows_tac.
Qed.

Lemma ledger_event now event : follows (ledger_steps now event) (handleStripeWebhookEvent now event).
Proof.
  unfold handleStripeWebhookEvent, publish_all. destruct (negb _); [apply follows_ret|].
  apply follows_bind; [apply ledger_dispatch|]. intros outcome. apply follows_bind; [|follows_tac].
  intros s. apply frame_calls.
Qed.

(** C36: the webhook handler implements the ledger. Whatever event arrives, in whatever state
    and whether or not the handler throws on the way, what it does to the balances and to every
    column of the grants is a sequence of ledger steps: recording a grant for the invoice or
    session the event announces, when that organization has none for it, together with exactly
    its credits; expiring grants, on a paid invoice or session; moving grants of the plan that
    have credits left, of organizations on the subscription of the event, to the end of that
    subscription's trial (on an update of the subscription only to an earlier date); or leaving
    balances and grants exactly as they are. *)
Theorem webhook_refines_ledger now event s :
  ledger_steps now event s (handleStripeWebhookEvent now event s).2.
Proof. apply ledger_event. Qed.

(** Deliveries in the order they arrive, each at its time. *)
Definition deliver (deliveries : list (Z * StripeEvent)) (s : BillingDb) : BillingDb :=
  foldl (fun s d => (handleStripeWebhookEvent d.1 d.2 s).2) s deliveries.

Lemma grows_deliver deliveries s :
  grows (fun id => exists d, d ∈ deliveries /\ event_invoice d.2 = Some id) s (deliver deliveries s).
Proof.
  revert s. induction deliveries as [|[now event] ds IH]; intros s; [reflexivity|]. cbn [deliver foldl].
  etrans; [|eapply grows_impl; [|apply IH]; cbn; intros id (d & Hd & He); exists d; by rewrite elem_of_cons; auto].
  eapply grows_impl; [|eapply grows_steps, ledger_event]. cbn. intros id He. exists (now, event).
  rewrite elem_of_cons. auto.
Qed.

(** C9: a payment is credited at most once. However often and in whatever order events are
    delivered, no organization ever has two grants for one invoice; grants are never
    removed or changed in what they were for; every new one is for an invoice or session a
    delivered event announced; and no balance above zero grows by more than the new grants. *)
Theorem deliveries_grant_once deliveries s :
  NoDup (invoice_keys s) ->
  NoDup (invoice_keys (deliver deliveries s)) /\
  exists granted, entries (deliver deliveries s) = entries s ++ granted /\
    (forall e, e ∈ granted -> exists d id, d ∈ deliveries /\ event_invoice d.2 = Some id /\ entry_invoice e = Some id) /\
    forall orgId, Z.max 0 (credits_of (deliver deliveries s) orgId) <= Z.max 0 (credits_of s orgId) + granted_to orgId granted.
Proof.
  intros Hn. destruct (grows_deliver deliveries s) as [Hn' (g & He & Hf & Hc)]. split; [auto|].
  exists g. split_and!; [done| |done]. intros e Hin. rewrite Forall_forall in Hf.
  destruct (Hf e Hin) as (id & Hid & d & Hd & Hev). eauto.
Qed.

End Refinement.

(** ** Redelivery of a purchase *)

Lemma with_calls_id s : with_calls (b_calls s) s = s.
Proof. by destruct s. Qed.

Lemma existsb_inserted orgId source invoiceId amount expiresAt s :
  existsb (has_invoice orgId invoiceId) (b_records (insert_record orgId source invoiceId amount expiresAt s)) = true.
Proof.
  cbn. rewrite existsb_app. cbn. unfold has_invoice at 2. cbn. by rewrite !bool_decide_true, orb_true_r.
Qed.

(** A second grant for the same invoice finds the first, or fails as the first did. *)
Lemma grant_redelivered now1 now2 orgId source invoiceId amount e1 e2 after1 after2 s :
  (forall t, exists t', after1 t = (Ok tt, t') /\ b_records t' = b_records t) ->
  grant now2 orgId source invoiceId amount e2 after2 (grant now1 orgId source invoiceId amount e1 after1 s).2 =
  ((grant now1 orgId source invoiceId amount e1 after1 s).1, (grant now1 orgId source invoiceId amount e1 after1 s).2).
Proof.
  intros Ha. unfold grant, transaction, createExpiresRecord, mbind, M_bind, get, lift, modify, mret, M_ret.
  destruct (bigint_of amount) as [credits|e]; [|by cbn; rewrite !with_calls_id].
  destruct (existsb (has_invoice orgId invoiceId) (b_records s)) eqn:Ed; cbn [negb snd fst]; [by rewrite Ed|].
  unfold grantOrgCredits, modify.
  match goal with |- context [after1 ?t] => destruct (Ha t) as (t' & -> & Hr) end. cbn [snd fst]. rewrite Hr. cbn [with_orgs b_records].
  by rewrite existsb_inserted.
Qed.

Lemma purchase_redelivered {A} (a : A) now1 now2 orgId source invoiceId amount e1 e2 after1 after2 s :
  (forall t, exists t', after1 t = (Ok tt, t') /\ b_records t' = b_records t) ->
  let purchase now expiresAt after := (_ ← grant now orgId source invoiceId amount expiresAt after; mret a) in
  purchase now2 e2 after2 (purchase now1 e1 after1 s).2 = purchase now1 e1 after1 s.
Proof.
  intros Ha. cbn zeta. unfold mbind, M_bind. pose proof (grant_redelivered now1 now2 orgId source invoiceId amount e1 e2 after1 after2 s Ha) as Hg.
  destruct (grant now1 orgId source invoiceId amount e1 after1 s) as [[u|e] t]; cbn [fst snd mret M_ret] in *; by rewrite Hg.
Qed.

Section Redelivery.
Context `{BillingServices}.

(** A purchase that is delivered twice counts once. For every kind of purchase (automatic
    recharge, credit purchase by invoice or by checkout, one-time product), every state and
    every two times, the second delivery gives the same answer as the first and changes
    nothing, whether the first granted credits, was rejected or failed. *)
Theorem purchases_idempotent now1 now2 invoice session s :
  (let first := handleAutoRechargeInvoicePaid now1 invoice s in
   handleAutoRechargeInvoicePaid now2 invoice first.2 = first) /\
  (let first := handleCreditPurchaseInvoicePaid now1 invoice s in
   handleCreditPurchaseInvoicePaid now2 invoice first.2 = first) /\
  (let first := handleCreditPurchaseCompleted now1 session s in
   handleCreditPurchaseCompleted now2 session first.2 = first) /\
  (let first := handleOneTimePurchaseCompleted now1 session s in
   handleOneTimePurchaseCompleted now2 session first.2 = first).
Proof.
  split_and!.
  - unfold handleAutoRechargeInvoicePaid. destruct (negb _); [done|]. cbn zeta.
    destruct (truthy_text (field (in_metadata invoice) "orgId")); [|done]. destruct (falsy _); [done|].
    apply purchase_redelivered. intros t. by eexists.
  - unfold handleCreditPurchaseInvoicePaid. destruct (_ && _); [done|]. cbn zeta.
    destruct (truthy_text (field (in_metadata invoice) "orgId")); [|done]. destruct (falsy _); [done|].
    apply purchase_redelivered. intros t. by eexists.
  - unfold handleCreditPurchaseCompleted. destruct (negb _); [done|]. cbn zeta.
    destruct (truthy_text (field (ci_metadata session) "orgId")); [|done]. destruct (falsy _); [done|].
    apply purchase_redelivered. intros t. by eexists.
  - unfold handleOneTimePurchaseCompleted.
    destruct (truthy_text (field (ci_metadata session) "orgId")), (truthy_text (field (ci_metadata session) "campaignKey"));
      try done. destruct (getCampaign _); [|done]. apply purchase_redelivered. intros t. by eexists.
Qed.

End Redelivery.

(** ** Expiry

    webhooks-stripe.service.ts and the settlement of usage each have a copy of the expiry. *)

(** The tables the settlement sees. *)
Definition settlement_view (s : BillingDb) : Credits.Store :=
  {| Credits.orgs := bo_core <$> b_orgs s; Credits.expires := gr_core <$> b_records s; Credits.events := [];
     Credits.pricing := []; Credits.invoices := [] |}.

Lemma filter_expired now orgId (rs : list GrantRecord) :
  filter (fun r => Credits.is_expired now orgId r = true) (gr_core <$> rs) =
  gr_core <$> filter (fun r => Credits.is_expired now orgId (gr_core r) = true) rs.
Proof.
  induction rs as [|r rs IH]; [done|]. cbn [fmap list_fmap]. rewrite !filter_cons, IH. by destruct (decide _).
Qed.

Lemma view_update_remaining id n s :
  settlement_view (update_remaining id n s) = Credits.update_remaining id n (settlement_view s).
Proof.
  unfold settlement_view, Credits.update_remaining, Credits.with_expires. cbn. f_equal.
  rewrite <- !list_fmap_compose. apply list_fmap_ext. intros i r _. cbn. by destruct (_ =? _).
Qed.

Lemma view_expireLoop expired total s :
  Credits.expireLoop (gr_core <$> expired) total (settlement_view s) =
  ((expireLoop expired total s).1, settlement_view (expireLoop expired total s).2).
Proof.
  revert total s. induction expired as [|r expired IH]; intros total s; cbn [expireLoop Credits.expireLoop fmap list_fmap];
    [done|]. by rewrite <- view_update_remaining, IH.
Qed.

(** The two copies of the expiry agree. On every state, expiring the credits of an
    organization in a webhook and expiring them at settlement give the same total, the same
    balances and the same remaining amounts. *)
Theorem expire_agrees now orgId s :
  Credits.expireCredits now orgId (settlement_view s) = ((expire now orgId s).1, settlement_view (expire now orgId s).2).
Proof.
  unfold Credits.expireCredits, expire. cbn zeta. cbn [Credits.expires settlement_view]. rewrite filter_expired, length_fmap.
  destruct (_ =? _)%nat; [done|]. rewrite (view_expireLoop _ 0 s).
  destruct (expireLoop _ 0 s) as [total s1]. cbn [fst snd]. f_equal. destruct (0 <? total); [|done].
  unfold settlement_view, Credits.with_orgs. cbn. rewrite lookup_fmap. destruct (b_orgs s1 !! orgId) as [o|] eqn:E; cbn.
  - by rewrite fmap_insert.
  - done.
Qed.

(** ** Tiers *)

Section Evolution.
Context {X} {K : BillingOrg -> X} {C : BillingOrg -> BillingOrg -> Prop} `{!Change K C}.

Lemma evolves_records f : follows (evolves K C) (modify (with_records f)).
Proof. intros s orgId o Ho. eauto. Qed.

Lemma evolves_expire now orgId : (forall now f o, K (set_core now (fun c => Credits.set_credits (f c) c) o) = K o) ->
  follows (evolves K C) (expireCredits now orgId).
Proof.
  intros HK s org o Ho. unfold expireCredits, expire. cbn zeta. destruct (_ =? _)%nat; [by eauto|].
  set (expired := filter _ _). destruct (expire_loop_keeps expired 0 s) as (Hs & _ & _).
  destruct (expireLoop expired 0 s) as [total s1] eqn:E. cbn [snd] in *. destruct (0 <? total); [|rewrite Hs; by eauto].
  cbn. rewrite Hs. destruct (b_orgs s !! orgId) as [oo|] eqn:Eo; [|by eauto].
  destruct (decide (org = orgId)) as [->|]; [|rewrite lookup_insert_ne by done; by eauto].
  rewrite lookup_insert_eq. simplify_eq. eexists. split; [done|]. left. apply HK.
Qed.

Lemma evolves_grant_credits now orgId amount : (forall now o, K (set_core now (add_credits amount) o) = K o) ->
  follows (evolves K C) (grantOrgCredits now orgId amount).
Proof.
  intros HK s org o Ho. cbn. destruct (b_orgs s !! orgId) as [oo|] eqn:Eo; (destruct (decide (org = orgId)) as [->|];
    [|rewrite lookup_insert_ne by done; by eauto]); [|congruence].
  rewrite lookup_insert_eq. simplify_eq. eauto.
Qed.

Lemma evolves_create orgId source invoiceId amount expiresAt :
  follows (evolves K C) (createExpiresRecord orgId source invoiceId amount expiresAt).
Proof. unfold createExpiresRecord. follows_tac. intros s org o Ho. eauto. Qed.

Lemma evolves_grant now orgId source invoiceId amount expiresAt after :
  (forall now amount o, K (set_core now (add_credits amount) o) = K o) -> follows (evolves K C) after ->
  follows (evolves K C) (grant now orgId source invoiceId amount expiresAt after).
Proof.
  intros HK Ha. apply follows_transaction, follows_follows_ok. apply follows_bind; [apply follows_lift|]. intros credits.
  apply follows_bind; [apply evolves_create|]. intros [|]; cbn [negb]; [|apply follows_ret].
  apply follows_bind; [by apply evolves_grant_credits|done].
Qed.

End Evolution.

(** What decides whether an invoice may change the plan. *)
Definition plan (o : BillingOrg) : jsstr * option jsstr * option jsstr :=
  (bo_tier o, bo_subscriptionId o, bo_lastProcessedInvoiceId o).

(** The invoice was not processed before and is now, the organization is on its subscription,
    and no other subscription of the same or a higher tier was replaced. *)
Definition paid_change (invoice : InvoiceInput) (o o' : BillingOrg) : Prop :=
  bo_lastProcessedInvoiceId o' = Some (in_id invoice) /\ bo_lastProcessedInvoiceId o <> Some (in_id invoice) /\
  bo_subscriptionId o' = in_subscription invoice /\
  (bo_subscriptionId o = None \/ bo_subscriptionId o = in_subscription invoice \/
   billingTierRank (Some (bo_tier o)) < billingTierRank (Some (bo_tier o'))).

#[export] Instance paid_change_change invoice : Change plan (paid_change invoice).
Proof.
  split.
  - intros o1 o2 o3 (H & _) (_ & H' & _). by destruct H'.
  - unfold paid_change, plan. intros o1 o2 o1' o2' [= -> -> ->] [= -> -> ->]. done.
Qed.

Section TierChanges.
Context `{BillingServices}.

Lemma invoice_may_replace current subscriptionId tier target :
  invoiceWouldReplaceWithSameOrLowerTier current subscriptionId tier target = false ->
  current = None \/ current = Some subscriptionId \/ billingTierRank (Some tier) < billingTierRank (Some target).
Proof.
  unfold invoiceWouldReplaceWithSameOrLowerTier, checkoutWouldReplaceWithSameOrLowerTier.
  destruct current as [c|]; [|auto]. case_bool_decide; [subst; auto|]. cbn. intros ?%Z.leb_gt. auto.
Qed.

(** The update of the plan, after steps that keep it. *)
Lemma paid_update now invoice subscriptionId orgId details org s t t' :
  b_orgs s !! orgId = Some org -> in_subscription invoice = Some subscriptionId ->
  bo_lastProcessedInvoiceId org <> Some (in_id invoice) ->
  invoiceWouldReplaceWithSameOrLowerTier (bo_subscriptionId org) subscriptionId (bo_tier org) (sv_tier details) = false ->
  evolves plan unchanged s t ->
  updateSubscriptionInvoiceMetadata now orgId (in_id invoice) subscriptionId details t = (Ok tt, t') ->
  evolves plan (paid_change invoice) s t'.
Proof.
  intros Horg Hsub Hlast Hmay Hst [= <-] o row Ho. destruct (Hst _ _ Ho) as (row' & Hrow' & [Hp|[]]). cbn.
  destruct (decide (orgId = o)) as [->|]; [|rewrite lookup_alter_ne by done; by eauto].
  rewrite lookup_alter_eq, Hrow'. cbn. eexists. split; [done|]. right. rewrite Horg in Ho. injection Ho as <-.
  unfold paid_change. split_and!; [done|done|by rewrite Hsub|]. rewrite Hsub. by apply invoice_may_replace.
Qed.

Lemma tier_process now invoice customerId subscriptionId orgId details :
  in_subscription invoice = Some subscriptionId ->
  follows_ok (evolves plan (paid_change invoice))
    (processSubscriptionInvoicePaid now invoice customerId subscriptionId orgId details).
Proof.
  intros Hsub s b s' Hrun. unfold processSubscriptionInvoicePaid in Hrun. apply bind_ok in Hrun as (row & s0 & [= <- <-] & Hrun).
  destruct (b_orgs s !! orgId) as [org|] eqn:Horg; [|by injection Hrun as <- <-]. cbn zeta in Hrun.
  destruct (bool_decide (bo_lastProcessedInvoiceId org = Some (in_id invoice))) eqn:Hlast.
  { apply (follows_run _ _ _ _ _ Hrun). follows_tac. }
  apply bool_decide_eq_false in Hlast.
  destruct (invoiceWouldReplaceWithSameOrLowerTier _ _ _ _) eqn:Hmay; [by injection Hrun as <- <-|].
  apply bind_ok in Hrun as (trialing & s1 & Ht & Hrun).
  assert (s1 = s) as ->. { unfold existingTrialPlanCredits in Ht. by destruct (_ && _); injection Ht. }
  destruct trialing.
  - apply bind_ok in Hrun as (u & s2 & H2 & Hrun). apply bind_ok in Hrun as ([] & s3 & H3 & [= _ <-]).
    eapply paid_update; eauto. apply (follows_run _ _ _ _ _ H2). apply evolves_records.
  - apply bind_ok in Hrun as (n & s2 & H2 & Hrun). assert (evolves plan unchanged s s2) as E2.
    { apply (follows_run _ _ _ _ _ H2). by apply evolves_expire. }
    apply bind_ok in Hrun as (inserted & s3 & H3 & Hrun). assert (evolves plan unchanged s s3) as E3.
    { etrans; [exact E2|]. apply (follows_run _ _ _ _ _ H3). apply evolves_create. }
    destruct inserted; cbn [negb] in Hrun; [|injection Hrun as _ <-; by apply (evolves_impl _ unchanged)].
    apply bind_ok in Hrun as (u & s4 & H4 & Hrun). assert (evolves plan unchanged s s4) as E4.
    { etrans; [exact E3|]. apply (follows_run _ _ _ _ _ H4). by apply evolves_grant_credits. }
    apply bind_ok in Hrun as ([] & s5 & H5 & Hrun). apply bind_ok in Hrun as (v & s6 & H6 & [= _ <-]).
    etrans; [|apply (follows_run _ _ _ _ _ H6), (follows_cancel (K := plan))].
    eapply paid_update; eauto.
Qed.

Lemma tier_invoice now invoice : follows (evolves plan (paid_change invoice)) (handleInvoicePaid now invoice).
Proof.
  unfold handleInvoicePaid. apply follows_bind.
  { unfold handleAutoRechargeInvoicePaid. follows_tac. apply evolves_grant; [done|]. follows_tac. }
  intros a. destruct (po_handled a); [apply follows_ret|]. apply follows_bind.
  { unfold handleCreditPurchaseInvoicePaid. follows_tac. apply evolves_grant; [done|apply follows_ret]. }
  intros c. destruct (po_handled c); [apply follows_ret|].
  destruct (truthy_text (in_subscription invoice)) as [subscriptionId|] eqn:Hs; [|follows_tac].
  assert (in_subscription invoice = Some subscriptionId).
  { unfold truthy_text in Hs. by destruct (in_subscription invoice) as [[|? ?]|]; simplify_eq. }
  unfold invoicePaidOrgForCustomerOrMetadata, invoicePaidOrgForCustomer.
  follows_tac. by apply follows_transaction, tier_process.
Qed.

Lemma tier_checkout now session : follows (evolves bo_tier unchanged) (handleCheckoutCompleted now session).
Proof.
  unfold handleCheckoutCompleted, handleBillingRestoreCheckoutCompleted, handleBillingDowngradeCheckoutCompleted,
    handleCreditPurchaseCompleted, handlePaidCheckoutPurpose, handleOneTimePurchaseCompleted.
  follows_tac; (apply evolves_grant; [done|apply follows_ret]).
Qed.

Lemma tier_updated now subscription previous :
  follows (evolves bo_tier unchanged) (handleSubscriptionUpdated now subscription previous).
Proof.
  unfold handleSubscriptionUpdated. apply follows_bind; [apply follows_lift|]. intros periodEnd.
  apply follows_transaction, follows_follows_ok. follows_tac. apply evolves_records.
Qed.
#[local] Hint Resolve tier_checkout tier_updated : follows.

(** *** No grant for the invoice existed *)

(** Grants stay recorded, and a tier changes only for an organization without a grant for [id]. *)
Definition ungranted (id : jsstr) (s s' : BillingDb) : Prop :=
  (forall key, key ∈ invoice_keys s -> key ∈ invoice_keys s') /\
  forall orgId o, b_orgs s !! orgId = Some o -> exists o', b_orgs s' !! orgId = Some o' /\
    (bo_tier o' = bo_tier o \/ (orgId, id) ∉ invoice_keys s).

#[local] Instance ungranted_frame id : Frame bo_tier (ungranted id).
Proof.
  assert (forall s s', b_records s' = b_records s -> evolves bo_tier unchanged s s' -> ungranted id s s') as Hkeep.
  { intros s s' Hr He. split; [unfold invoice_keys, entries; by rewrite Hr|]. intros orgId o Ho.
    destruct (He orgId o Ho) as (o' & Ho' & [Ht|[]]). eauto. }
  split.
  - split; [intros s; apply Hkeep; [done|reflexivity]|]. intros s1 s2 s3 [Hk1 Ht1] [Hk2 Ht2]. split; [auto|]. intros orgId o1 Ho1.
    destruct (Ht1 _ _ Ho1) as (o2 & Ho2 & H12). destruct (Ht2 _ _ Ho2) as (o3 & Ho3 & H23). exists o3. split; [done|].
    destruct H12 as [H12|H12]; [|by right]. destruct H23 as [H23|H23]; [left; congruence|right; auto].
  - intros. apply Hkeep; [done|apply frame_calls].
  - intros. apply Hkeep; [done|by apply frame_alter].
  - intros. apply Hkeep; [done|by apply frame_fmap].
  - intros. apply Hkeep; [done|by apply frame_insert].
Qed.

Lemma invoice_keys_steps now event s s' key : ledger_steps now event s s' -> key ∈ invoice_keys s -> key ∈ invoice_keys s'.
Proof.
  intros (_ & granted & He & _)%grows_steps Hk. unfold invoice_keys in *. rewrite He, omap_app. apply elem_of_app. by left.
Qed.

Lemma ungranted_kept {A} id now event (m : M A) :
  follows (ledger_steps now event) m -> follows (evolves bo_tier unchanged) m -> follows (ungranted id) m.
Proof.
  intros Hl He s. split; [intros key; apply (invoice_keys_steps now event), Hl|]. intros orgId o Ho.
  destruct (He s orgId o Ho) as (o' & Ho' & [Ht|[]]). eauto.
Qed.

Lemma ungranted_grant id now invoice orgId source amount expiresAt after :
  follows (ledger_steps now (InvoicePaid invoice)) after -> follows (evolves bo_tier unchanged) after ->
  follows (ungranted id) (grant now orgId source (in_id invoice) amount expiresAt after).
Proof.
  intros Hl He. apply (ungranted_kept _ now (InvoicePaid invoice)); [by apply ledger_grant_purchase|by apply evolves_grant].
Qed.

Lemma expire_keys now orgId s :
  entries (expire now orgId s).2 = entries s /\ b_nextId (expire now orgId s).2 = b_nextId s.
Proof.
  unfold expire. cbn zeta. destruct (_ =? _)%nat; [done|]. set (expired := filter _ _).
  destruct (expire_loop_keeps expired 0 s) as (_ & He & Hi). destruct (expireLoop expired 0 s) as [total s1].
  cbn [snd] in *. by destruct (0 <? total).
Qed.

Lemma ungranted_process now invoice customerId subscriptionId orgId details :
  in_subscription invoice = Some subscriptionId -> subscriptionInvoiceDetails invoice subscriptionId orgId = Ok (Some details) ->
  follows_ok (ungranted (in_id invoice)) (processSubscriptionInvoicePaid now invoice customerId subscriptionId orgId details).
Proof.
  intros Hsub Hdet s b s' Hrun.
  split; [intros key; apply (invoice_keys_steps now (InvoicePaid invoice)); by eapply ledger_process|].
  assert (forall t t', evolves bo_tier unchanged s t ->
    (forall org, b_orgs s !! orgId = Some org -> sv_tier details = bo_tier org \/ (orgId, in_id invoice) ∉ invoice_keys s) ->
    updateSubscriptionInvoiceMetadata now orgId (in_id invoice) subscriptionId details t = (Ok tt, t') ->
    forall o row, b_orgs s !! o = Some row -> exists row', b_orgs t' !! o = Some row' /\
      (bo_tier row' = bo_tier row \/ (o, in_id invoice) ∉ invoice_keys s)) as Hupdate.
  { intros t t' Hst Hnew [= <-] o row Ho. destruct (Hst _ _ Ho) as (row' & Hrow' & [Hp|[]]). cbn.
    destruct (decide (orgId = o)) as [->|]; [|rewrite lookup_alter_ne by done; by eauto].
    rewrite lookup_alter_eq, Hrow'. cbn. eexists. split; [done|]. by apply Hnew. }
  unfold processSubscriptionInvoicePaid in Hrun. apply bind_ok in Hrun as (row & s0 & [= <- <-] & Hrun).
  destruct (b_orgs s !! orgId) as [org|] eqn:Horg; [|injection Hrun as <- <-; by eauto]. cbn zeta in Hrun.
  assert (forall m : M bool, m s = (Ok b, s') -> follows (ungranted (in_id invoice)) m -> forall o row, b_orgs s !! o = Some row ->
    exists row', b_orgs s' !! o = Some row' /\ (bo_tier row' = bo_tier row \/ (o, in_id invoice) ∉ invoice_keys s)) as Hrest.
  { intros m Hm Hf. exact (proj2 (follows_run _ _ _ _ _ Hm Hf)). }
  destruct (bool_decide (bo_lastProcessedInvoiceId org = Some (in_id invoice))); [apply (Hrest _ Hrun); follows_tac|].
  destruct (invoiceWouldReplaceWithSameOrLowerTier _ _ _ _); [injection Hrun as <- <-; by eauto|].
  apply bind_ok in Hrun as (trialing & s1 & Ht & Hrun). destruct trialing.
  - destruct (_ && _ && _) eqn:Ec; [|by injection Ht]. unfold existingTrialPlanCredits in Ht. injection Ht as _ <-. bool_facts.
    apply bind_ok in Hrun as (u & s2 & Hmod & Hrun). apply bind_ok in Hrun as ([] & s3 & Hup & [= _ <-]).
    eapply Hupdate; [|intros ? [= <-]; by left|exact Hup]. apply (follows_run _ _ _ _ _ Hmod), evolves_records.
  - assert (s1 = s) as ->. { unfold existingTrialPlanCredits in Ht. by destruct (_ && _); injection Ht. }
    apply bind_ok in Hrun as (n & s2 & Hexp & Hrun). assert (evolves bo_tier unchanged s s2) as E2.
    { apply (follows_run _ _ _ _ _ Hexp). by apply evolves_expire. }
    apply bind_ok in Hrun as (inserted & s3 & Hins & Hrun). assert (evolves bo_tier unchanged s s3) as E3.
    { etrans; [exact E2|]. apply (follows_run _ _ _ _ _ Hins). apply evolves_create. }
    destruct inserted; cbn [negb] in Hrun.
    2: { injection Hrun as _ <-. intros o row Ho. destruct (E3 _ _ Ho) as (row' & Hrow' & [Hk|[]]). eauto. }
    assert ((orgId, in_id invoice) ∉ invoice_keys s) as Hnew.
    { assert (s2 = (expire now orgId s).2) as E by (unfold expireCredits in Hexp; destruct (expire now orgId s); by injection Hexp).
      unfold invoice_keys. rewrite <- (proj1 (expire_keys now orgId s)), <- E. apply has_invoice_key. unfold createExpiresRecord, mbind, M_bind, get in Hins.
      by destruct (existsb _ _). }
    apply bind_ok in Hrun as (u & s4 & Hcr & Hrun). assert (evolves bo_tier unchanged s s4) as E4.
    { etrans; [exact E3|]. apply (follows_run _ _ _ _ _ Hcr). by apply evolves_grant_credits. }
    apply bind_ok in Hrun as ([] & s5 & Hup & Hrun). apply bind_ok in Hrun as (v & s6 & Hcancel & [= _ <-]).
    intros o row Ho. destruct (Hupdate _ _ E4 (fun _ _ => or_intror Hnew) Hup _ _ Ho) as (row5 & H5 & Hc5).
    pose proof (follows_run _ _ _ _ _ Hcancel (follows_cancel (K := bo_tier) (R := evolves bo_tier unchanged) _ _ _ _ _)) as E6.
    destruct (E6 _ _ H5) as (row6 & H6 & [H56|[]]). exists row6. split; [done|]. rewrite H56. exact Hc5.
Qed.

Lemma ungranted_invoice now invoice : follows (ungranted (in_id invoice)) (handleInvoicePaid now invoice).
Proof.
  unfold handleInvoicePaid. apply follows_bind.
  { unfold handleAutoRechargeInvoicePaid. follows_tac. apply ungranted_grant; follows_tac. }
  intros a. destruct (po_handled a); [apply follows_ret|]. apply follows_bind.
  { unfold handleCreditPurchaseInvoicePaid. follows_tac. apply ungranted_grant; apply follows_ret. }
  intros c. destruct (po_handled c); [apply follows_ret|].
  destruct (truthy_text (in_subscription invoice)) as [subscriptionId|] eqn:Hs; [|follows_tac].
  assert (in_subscription invoice = Some subscriptionId).
  { unfold truthy_text in Hs. by destruct (in_subscription invoice) as [[|? ?]|]; simplify_eq. }
  destruct (truthy_text (in_customer invoice)) as [customerId|]; [|follows_tac].
  apply follows_bind; [unfold invoicePaidOrgForCustomerOrMetadata, invoicePaidOrgForCustomer; follows_tac|].
  intros [[orgId org]|]; [|follows_tac]. destruct (bool_decide _); [follows_tac|]. apply follows_lift_bind; [apply _|].
  intros [details|] Hd; [|follows_tac]. apply follows_bind; [|follows_tac]. by apply follows_transaction, ungranted_process.
Qed.

(** What a change of tier says of the event. *)
Definition tier_cause (event : StripeEvent) (s : BillingDb) (orgId : jsstr) (o o' : BillingOrg) : Prop :=
  match event with
  | InvoicePaid invoice => paid_change invoice o o' /\ (orgId, in_id invoice) ∉ invoice_keys s
  | SubscriptionDeleted id _ => bo_subscriptionId o = Some id /\ bo_tier o' = js "pro-suspend" /\ bo_subscriptionId o' = None
  | _ => False
  end.

Lemma tier_dispatch now event s orgId o :
  b_orgs s !! orgId = Some o ->
  exists o', b_orgs (dispatch_event now event s).2 !! orgId = Some o' /\ (bo_tier o' = bo_tier o \/ tier_cause event s orgId o o').
Proof.
  intros Ho. assert (forall m : M (option jsstr * list jsstr), follows (evolves bo_tier unchanged) m ->
    exists o', b_orgs (m s).2 !! orgId = Some o' /\ (bo_tier o' = bo_tier o \/ False)) as Hkeep.
  { intros m Hm. exact (Hm s orgId o Ho). }
  destruct event; cbn [tier_cause dispatch_event];
    try (apply Hkeep; unfold handleSubscriptionCreated, handleSubscriptionScheduleReleased, handleSubscriptionScheduleEnded; by follows_tac).
  - assert (forall X (K : BillingOrg -> X) (R : relation BillingDb) `{!Frame K R}, follows R (handleInvoicePaid now invoice) ->
      follows R (orgId0 ← handleInvoicePaid now invoice; mret (orgId0, option_list (truthy_text orgId0)))) as Hbind
      by (intros; apply follows_bind; [done|intros; apply follows_ret]).
    destruct (Hbind _ _ _ _ (tier_invoice now invoice) s orgId o Ho) as (o' & Ho' & Hp).
    destruct (proj2 (Hbind _ _ _ _ (ungranted_invoice now invoice) s) orgId o Ho) as (o'' & Ho'' & Hk). simplify_eq.
    exists o'. split; [done|]. destruct Hp as [[= Hp _ _]|Hp]; [by left|]. destruct Hk as [Hk|Hk]; [by left|by right].
  - unfold handleSubscriptionDeleted, update_orgs, mbind, M_bind, get, modify, mret, M_ret. cbn [snd with_orgs b_orgs].
    rewrite lookup_fmap, Ho. cbn. eexists. split; [done|]. unfold has_subscription. case_bool_decide; auto.
Qed.

(** C37: a tier changes only for a reason. When an event changes the tier of an organization,
    either the event is a paid invoice that is not the last one processed and for which the
    organization has no recorded grant, whose subscription the organization is now on, and no
    other subscription of the same or a higher tier was replaced; or it is the deletion of the organization's own subscription, which suspends
    it. No other event changes a tier, and no event removes an organization. *)
Theorem tier_changes_justified now event s orgId o :
  b_orgs s !! orgId = Some o ->
  exists o', b_orgs (handleStripeWebhookEvent now event s).2 !! orgId = Some o' /\
    (bo_tier o' = bo_tier o \/ tier_cause event s orgId o o').
Proof.
  intros Ho. unfold handleStripeWebhookEvent. destruct (negb _); [by eauto|].
  destruct (tier_dispatch now event s orgId o Ho) as (o' & Ho' & Hc). exists o'. split; [|done].
  unfold mbind, M_bind. by destruct (dispatch_event now event s) as [[outcome|e] s1].
Qed.

End TierChanges.

(** ** A paid subscription invoice *)

Section Granted.
Context `{BillingServices}.

(** What an invoice of a subscription grants: the credits of the tier of its price, until a
    month after the paid period or, in a trial, until the end of it. *)
Definition grant_terms (details : SubscriptionInvoiceDetails) : Prop :=
  let subscription := sv_subscription details in
  (sv_tier details = js "pro" /\ sv_credits details = 20000 \/ sv_tier details = js "team" /\ sv_credits details = 120000) /\
  (if bool_decide (si_status subscription = js "trialing")
   then Some (sv_expiresAt details) = subscriptionTrialEnd subscription
   else 28 * DAY_MS <= sv_expiresAt details - sv_periodEndDate details <= 31 * DAY_MS) /\
  sv_periodEndDate details <> 0.

(** The amount and the validity of a monthly grant are bounded. Whatever the provider
    answers, when an invoice of a subscription grants credits they are the 20,000 of pro or
    the 120,000 of team, the tier is the one of the subscription's first price, and they
    are valid until the end of the trial or until 28 to 31 days after the paid period. *)
Theorem subscriptionInvoiceDetails_terms invoice subscriptionId orgId details :
  subscriptionInvoiceDetails invoice subscriptionId orgId = Ok (Some details) ->
  retrieveSubscription subscriptionId = Ok (sv_subscription details) /\
  tierFromSubscription (sv_subscription details) = Some (sv_tier details) /\ grant_terms details.
Proof.
  unfold subscriptionInvoiceDetails. cbn. destruct (retrieveSubscription subscriptionId) as [sub|]; [|done]. cbn.
  unfold tierFromSubscription, tierFromPriceId. destruct (first_price sub) as [price|] eqn:Ep; [|done].
  destruct (tierForKnownPriceId price) as [tier|] eqn:Et; [|done]. cbn.
  destruct (monthlyCreditsForTier tier <=? 0) eqn:Ec; [done|].
  destruct (subscriptionPeriodEndFromInvoice invoice orgId) as [pe|] eqn:Ee; [|done]. cbn.
  destruct (subscriptionScheduledEnd sub) as [sched|]; [|done]. cbn.
  destruct (subscriptionCreditExpiresAt sub pe) as [ex|] eqn:Ex; [|done]. intros [= <-].
  cbn [sv_subscription sv_tier sv_credits sv_expiresAt sv_periodEndDate].
  split; [done|]. split; [rewrite Ep; exact Et|]. unfold grant_terms.
  cbn [sv_subscription sv_tier sv_credits sv_expiresAt sv_periodEndDate]. split_and!.
  - unfold monthlyCreditsForTier in *. repeat case_bool_decide; [by left|by right|]. by cbv in Ec.
  - unfold subscriptionCreditExpiresAt, requiredSubscriptionTrialEnd in Ex. case_bool_decide.
    + destruct (subscriptionTrialEnd sub); by simplify_eq.
    + injection Ex as <-. apply add_month_bounds.
  - unfold subscriptionPeriodEndFromInvoice in Ee. destruct (ln_periodEnd <$> _) as [sec|]; [|done].
    destruct (Z.eqb_spec sec 0); [done|]. injection Ee as <-. unfold date_of_seconds. lia.
Qed.

Lemma cancel_all_ok ids s :
  (forall c, callStripe c = Ok tt) -> exists calls, cancelReplacedProSubscriptions ids s = (Ok tt, with_calls calls s).
Proof.
  intros Hc. revert s. induction ids as [|id ids IH]; intros s; cbn [cancelReplacedProSubscriptions].
  - exists (b_calls s). by rewrite with_calls_id.
  - unfold mbind, M_bind, call, mbind, M_bind, lift, modify. rewrite Hc.
    destruct (IH (with_calls (b_calls s ++ [CancelSubscription id]) s)) as (calls & ->). by exists calls.
Qed.

Lemma cancel_ok orgId customerId newId tier known s :
  (forall c, callStripe c = Ok tt) -> (exists l, listSubscriptions customerId = Ok l) ->
  exists calls, cancelReplacedProSubscriptionsAfterTeamInvoice orgId customerId newId tier known s = (Ok tt, with_calls calls s).
Proof.
  intros Hc [l Hl]. unfold cancelReplacedProSubscriptionsAfterTeamInvoice, replacedProSubscriptionIdsForCustomer.
  unfold mbind, M_bind, lift. destruct (negb _); [by apply cancel_all_ok|]. rewrite Hl. by apply cancel_all_ok.
Qed.

Lemma find_org_lookup (f : BillingOrg -> bool) s orgId o : find_org f s = Some (orgId, o) -> b_orgs s !! orgId = Some o.
Proof.
  unfold find_org. intros Hh. apply elem_of_map_to_list.
  assert ((orgId, o) ∈ filter (fun kv => f kv.2 = true) (map_to_list (b_orgs s))) as Hin.
  { destruct (filter _ _); [done|]. injection Hh as ->. apply elem_of_cons. auto. }
  by apply list_elem_of_filter in Hin as [_ ?].
Qed.

(** The organization after the expiry that precedes a grant: only its credits and the time of
    the update differ. *)
Lemma expire_org now orgId s o :
  b_orgs s !! orgId = Some o ->
  exists o', b_orgs (expire now orgId s).2 !! orgId = Some o' /\ plan o' = plan o.
Proof.
  intros Ho. assert (follows (evolves plan unchanged) (expireCredits now orgId)) as Hf by by apply evolves_expire.
  destruct (Hf s orgId o Ho) as (o' & Ho' & [Hp|[]]). exists o'. split; [|done].
  revert Ho'. unfold expireCredits. by destruct (expire now orgId s).
Qed.

Lemma has_invoice_entries orgId invoiceId (rs : list GrantRecord) :
  existsb (has_invoice orgId invoiceId) rs =
  existsb (fun e => bool_decide (entry_org e = orgId) && bool_decide (entry_invoice e = Some invoiceId)) (grant_entry <$> rs).
Proof. induction rs as [|r rs IH]; [done|]. cbn [existsb fmap list_fmap]. by rewrite <- IH. Qed.

(** What the transaction leaves behind when it grants. *)
Definition granted_state (now : Z) (invoice : InvoiceInput) (subscriptionId orgId : jsstr)
    (details : SubscriptionInvoiceDetails) (s s' : BillingDb) : Prop :=
  let expired := (expire now orgId s).2 in
  b_records s' = b_records expired ++
    [new_record (b_nextId s) orgId (js "subscription_renewal") (in_id invoice) (sv_credits details) (sv_expiresAt details)] /\
  exists o', b_orgs s' !! orgId = Some o' /\ plan o' = (sv_tier details, Some subscriptionId, Some (in_id invoice)) /\
    bo_subscriptionStatus o' = Some (si_status (sv_subscription details)) /\
    bo_credits o' = credits_of expired orgId + sv_credits details.

Section Process.
Context (now : Z) (invoice : InvoiceInput) (customerId subscriptionId orgId : jsstr) (details : SubscriptionInvoiceDetails)
  (org : BillingOrg) (s : BillingDb).
Hypothesis Hcalls : forall c, callStripe c = Ok tt.
Hypothesis Hlist : exists l, listSubscriptions customerId = Ok l.
Hypothesis Hlast : bo_lastProcessedInvoiceId org <> Some (in_id invoice).
Hypothesis Hmay :
  invoiceWouldReplaceWithSameOrLowerTier (bo_subscriptionId org) subscriptionId (bo_tier org) (sv_tier details) = false.
Hypothesis Hactive : si_status (sv_subscription details) <> js "trialing".
Hypothesis Hnew : existsb (has_invoice orgId (in_id invoice)) (b_records s) = false.

Lemma process_granted :
  b_orgs s !! orgId = Some org ->
  exists s', processSubscriptionInvoicePaid now invoice customerId subscriptionId orgId details s = (Ok true, s') /\
    granted_state now invoice subscriptionId orgId details s s'.
Proof.
  intros Horg. unfold processSubscriptionInvoicePaid. unfold mbind at 1, M_bind at 1, get. rewrite Horg. cbn zeta.
  rewrite (bool_decide_false _ Hlast), Hmay, (bool_decide_false _ Hactive). cbn [andb].
  unfold mbind at 1, M_bind at 1, mret at 1, M_ret at 1. unfold mbind at 1, M_bind at 1, expireCredits.
  destruct (expire_org now orgId s org Horg) as (org1 & Horg1 & Hplan1).
  destruct (expire_keys now orgId s) as [He1 Hi1].
  assert (existsb (has_invoice orgId (in_id invoice)) (b_records (expire now orgId s).2) = false) as Hnew1.
  { rewrite has_invoice_entries. fold (entries (expire now orgId s).2). rewrite He1. unfold entries. by rewrite <- has_invoice_entries. }
  unfold granted_state. destruct (expire now orgId s) as [n s1]. cbn [snd] in *.
  unfold createExpiresRecord, updateSubscriptionInvoiceMetadata, update_org, grantOrgCredits, mbind, M_bind, get, modify, mret, M_ret.
  rewrite Hnew1. cbn [negb].
  match goal with |- context [cancelReplacedProSubscriptionsAfterTeamInvoice ?a ?b ?c ?d ?e ?t] =>
    destruct (cancel_ok a b c d e t Hcalls Hlist) as (calls & ->) end.
  eexists. split; [done|]. cbn [with_calls with_orgs insert_record b_records b_orgs].
  rewrite Horg1, Hi1. split; [done|]. rewrite lookup_alter_eq, lookup_insert_eq. cbn.
  eexists. split; [done|]. unfold credits_of. rewrite Horg1. done.
Qed.

End Process.

(** A paid subscription invoice is credited. When the customer's organization has not seen
    the invoice, its subscription is active and does not replace another one of the same or
    a higher tier, and the provider accepts the calls, then the webhook succeeds: the
    organization is on the tier, the subscription and the invoice, it has the credits left
    after expiry plus the monthly ones, and the grant is recorded; its queue is drained. *)
Theorem subscription_invoice_granted now invoice customerId subscriptionId orgId details org s :
  shouldHandleStripePreviewEvent (InvoicePaid invoice) = true ->
  field (in_metadata invoice) "type" ∉ [Some (js "auto_recharge"); Some (js "credit_purchase")] ->
  field (in_metadata invoice) "purpose" <> Some (js "credit_purchase") ->
  truthy_text (in_subscription invoice) = Some subscriptionId -> truthy_text (in_customer invoice) = Some customerId ->
  find_org (has_customer customerId) s = Some (orgId, org) ->
  bo_lastProcessedInvoiceId org <> Some (in_id invoice) ->
  subscriptionInvoiceDetails invoice subscriptionId orgId = Ok (Some details) ->
  si_status (sv_subscription details) <> js "trialing" ->
  invoiceWouldReplaceWithSameOrLowerTier (bo_subscriptionId org) subscriptionId (bo_tier org) (sv_tier details) = false ->
  existsb (has_invoice orgId (in_id invoice)) (b_records s) = false ->
  (forall c, callStripe c = Ok tt) -> (exists l, listSubscriptions customerId = Ok l) ->
  exists s', handleStripeWebhookEvent now (InvoicePaid invoice) s = (Ok (truthy_text (Some orgId)), s') /\
    granted_state now invoice subscriptionId orgId details s s'.
Proof.
  intros Hp Hty Hpu Hs Hc Hf Hl Hd Ha Hm Hn Hcalls Hlist. unfold handleStripeWebhookEvent. rewrite Hp. cbn [negb dispatch_event].
  rewrite !not_elem_of_cons in Hty. destruct Hty as (Hty1 & Hty2 & _).
  unfold handleInvoicePaid, handleAutoRechargeInvoicePaid, handleCreditPurchaseInvoicePaid.
  rewrite (bool_decide_false _ Hty1), (bool_decide_false _ Hty2), (bool_decide_false _ Hpu), Hs, Hc. cbn [negb andb].
  destruct (process_granted now invoice customerId subscriptionId orgId details org s Hcalls Hlist Hl Hm Ha Hn (find_org_lookup _ _ _ _ Hf))
    as (s' & Hrun & Hg).
  unfold invoicePaidOrgForCustomerOrMetadata, invoicePaidOrgForCustomer, transaction, lift, mbind, M_bind, get, mret, M_ret.
  cbn [not_handled po_handled]. rewrite Hf, (bool_decide_false _ Hl), Hd, Hrun.
  eexists. split; [done|]. exact Hg.
Qed.

End Granted.

(** ** Concrete deliveries *)

Definition sample_subscription : SubscriptionInput := sample_subscription_in (js "active").
Definition sample_services : BillingServices := sample_services_with (js "active").

Definition sample_billing_org : BillingOrg := default_org (set_customer (js "cus_1") (Credits.default_org 5)) 0.

Definition sample_billing : BillingDb :=
  {| b_orgs := {[js "org_1" := sample_billing_org]}; b_records := []; b_nextId := 1; b_calls := [] |}.

Definition sample_paid_invoice : InvoiceInput :=
  {| in_id := js "in_1"; in_customer := Some (js "cus_1"); in_metadata := None; in_subtotal := Some 2000;
     in_lines := [{| ln_periodEnd := 1738368000; ln_subscriptionItem := true |}]; in_subscription := Some (js "sub_1");
     in_subscriptionMetadata := None |}.

Definition sample_details : SubscriptionInvoiceDetails :=
  {| sv_subscription := sample_subscription; sv_tier := js "pro"; sv_credits := 20000; sv_periodEndDate := 1738368000000;
     sv_scheduledEndDate := None; sv_expiresAt := add_month 1738368000000 |}.

Lemma deliveries_grant_once_witness :
  NoDup (invoice_keys (@deliver sample_services [(1, InvoicePaid sample_paid_invoice); (2, InvoicePaid sample_paid_invoice)] sample_billing)).
Proof. apply (@deliveries_grant_once sample_services). vm_compute. constructor. Defined.

Lemma tier_changes_justified_witness :
  exists o', b_orgs (@handleStripeWebhookEvent sample_services 1 (InvoicePaid sample_paid_invoice) sample_billing).2 !! js "org_1" = Some o' /\
    (bo_tier o' = bo_tier sample_billing_org \/ tier_cause (InvoicePaid sample_paid_invoice) sample_billing (js "org_1") sample_billing_org o').
Proof. apply (@tier_changes_justified sample_services). vm_compute. reflexivity. Defined.

Lemma subscriptionInvoiceDetails_terms_witness : grant_terms sample_details.
Proof.
  apply (@subscriptionInvoiceDetails_terms sample_services sample_paid_invoice (js "sub_1") (js "org_1") sample_details).
  vm_compute. reflexivity.
Defined.

Lemma subscription_invoice_granted_witness :
  exists s', @handleStripeWebhookEvent sample_services 7 (InvoicePaid sample_paid_invoice) sample_billing = (Ok (Some (js "org_1")), s') /\
    granted_state 7 sample_paid_invoice (js "sub_1") (js "org_1") sample_details sample_billing s'.
Proof.
  apply (@subscription_invoice_granted sample_services 7 sample_paid_invoice (js "cus_1") (js "sub_1") (js "org_1")
    sample_details sample_billing_org sample_billing); try (vm_compute; reflexivity); try done; [vm_compute; set_solver|by eexists].
Defined.

End StripeWebhooks.
