(* ===== verification/FirewallAuth.v ===== *)
(** Resolution of the credentials of a firewall request
    (turbo/apps/api/src/signals/services/agent-webhook-firewall-auth.service.ts, last part):
    which secrets and variables the templates refer to, who may use them, where their
    current values come from, which tokens are refreshed first, and the response. *)

From S2P Require Import Prelude JsString JsRecord Templates References Bytes AuthTemplates RunEnvironment.
From S2P Require Import AccessSources TokenRefresh RunStore Credits.

Import Templates References Bytes RunEnvironment AccessSources TokenRefresh AuthTemplates.

Module FirewallAuth.

(** ** Data *)

Record SandboxAuth := { sb_userId : jsstr; sb_orgId : jsstr; sb_runId : jsstr }.

Record FirewallAuthBody := {
  fb_encryptedSecrets : jsstr; fb_authHeaders : Rec jsstr; fb_authBase : option jsstr;
  fb_authQuery : option (Rec jsstr); fb_authAwsSigv4 : option FirewallAwsSigv4Auth;
  fb_secretConnectorMap : option (Rec jsstr); fb_secretConnectorMetadataMap : option (Rec SecretConnectorMetadata);
  fb_vars : option (Rec jsstr); fb_firewallBillable : bool; fb_forceRefresh : bool }.

Inductive RefreshStatus := StatusCurrent | StatusRefreshed | StatusFailed | StatusSourceMissing.

#[export] Instance refresh_status_eq_dec : EqDecision RefreshStatus.
Proof. solve_decision. Defined.

Record RefreshExecutionResult := {
  rx_connectorType : jsstr; rx_status : RefreshStatus; rx_failureReason : option FirewallAuthFailureReason }.

Record RefreshResult := {
  rr_expiresAt : option Z; rr_refreshedConnectors : list jsstr; rr_refreshedSecrets : list jsstr;
  rr_failedConnectors : list jsstr; rr_unavailableConnectors : list jsstr;
  rr_failureReason : option FirewallAuthFailureReason }.

Record ResolveBody := {
  vb_headers : Rec jsstr; vb_base : option jsstr; vb_query : option (Rec jsstr);
  vb_awsSigv4 : option FirewallAwsSigv4Auth; vb_expiresAt : option Z; vb_resolvedSecrets : list jsstr;
  vb_refreshedConnectors : list jsstr; vb_refreshedSecrets : list jsstr }.

Inductive ResolveFirewallAuthResult :=
| Resolved (body : ResolveBody)
| AuthFailed (status : Z) (code message : jsstr) (connectors : option (list jsstr))
    (failureReason : option FirewallAuthFailureReason).

(** ** Responses *)

Definition badRequestMessage (message : jsstr) : ResolveFirewallAuthResult :=
  AuthFailed 400 (js "BAD_REQUEST") message None None.

Definition insufficientCredits : ResolveFirewallAuthResult :=
  AuthFailed 402 (js "INSUFFICIENT_CREDITS")
    (js "Insufficient credits. Add credits or configure your own API key to continue.") None None.

Definition connectorNotConfigured : ResolveFirewallAuthResult :=
  AuthFailed 424 (js "CONNECTOR_NOT_CONFIGURED") (js "Connector not configured") None None.

Definition forbiddenModelProviderOwner : ResolveFirewallAuthResult :=
  AuthFailed 403 (js "FORBIDDEN") (js "Invalid model-provider secret owner") None None.

Definition tokenRefreshFailed (failedConnectors : list jsstr) (failureReason : option FirewallAuthFailureReason) :
    ResolveFirewallAuthResult :=
  let connectorList := join (js ", ") failedConnectors in
  AuthFailed 502 (js "TOKEN_REFRESH_FAILED")
    (if bool_decide (failureReason = Some UpstreamProvider) then
       js "Access token refresh failed for: " ++ connectorList ++
       js ". The upstream provider may be temporarily unavailable."
     else
       js "Access token expired and refresh failed for: " ++ connectorList ++
       js ". The connector may need to be reconnected.")
    (Some failedConnectors) failureReason.

Definition connectorReconnectRequired (failedConnectors : list jsstr) : ResolveFirewallAuthResult :=
  AuthFailed 502 (js "TOKEN_REFRESH_FAILED")
    (js "Connector credential requires reconnect for: " ++ join (js ", ") failedConnectors ++ js ".")
    (Some failedConnectors) (Some ReconnectRequired).

Definition tokenAccessResolutionFailed (failedConnectors : list jsstr) : ResolveFirewallAuthResult :=
  AuthFailed 502 (js "TOKEN_ACCESS_RESOLUTION_FAILED")
    (js "Token access resolution failed for: " ++ join (js ", ") failedConnectors ++
     js ". The connector may need to be reconnected.") (Some failedConnectors) None.

Definition mergeExpiresAt (expiresAt additionalExpiresAt : option Z) : option Z :=
  match additionalExpiresAt, expiresAt with
  | None, _ => expiresAt
  | Some a, None => Some a
  | Some a, Some e => Some (Z.min e a)
  end.

(** ** The lease of a billable firewall *)

Definition NORMAL_BILLABLE_FIREWALL_LEASE_SECONDS : Z := 30.
Definition LOW_BILLABLE_FIREWALL_LEASE_SECONDS : Z := 5.
Definition LOW_BILLABLE_FIREWALL_CREDIT_THRESHOLD : Z := 1000.

Definition resolveBillableFirewallCacheExpiry (now : Z) (auth : SandboxAuth) (firewallBillable : bool)
    (s : Credits.Store) : ResolveFirewallAuthResult + option Z :=
  if negb firewallBillable then inr None
  else match Credits.resolveOrgCreditAvailability now (sb_orgId auth) s with
  | None => inl insufficientCredits
  | Some availability =>
      if bool_decide (Credits.av_tier availability = js "pro-suspend") then inl insufficientCredits
      else if Credits.av_spendableCredits availability <=? 0 then inl insufficientCredits
      else inr (Some (now / 1000 +
        (if Credits.av_spendableCredits availability <=? LOW_BILLABLE_FIREWALL_CREDIT_THRESHOLD
         then LOW_BILLABLE_FIREWALL_LEASE_SECONDS else NORMAL_BILLABLE_FIREWALL_LEASE_SECONDS)))
  end.

(** ** Credential status (connector-credential-status.service.ts) *)

Inductive ConnectorCredentialStatus := Available | ReconnectRequiredStatus.

#[export] Instance credential_status_eq_dec : EqDecision ConnectorCredentialStatus.
Proof. solve_decision. Defined.

Definition connectorCredentialStatusForAccess (storedNeedsReconnect : bool) (tokenExpiresAt : option Z) (now : Z)
    (isRefreshable : bool) : ConnectorCredentialStatus :=
  if storedNeedsReconnect then ReconnectRequiredStatus
  else match tokenExpiresAt with
  | None => Available
  | Some e => if isRefreshable then Available else if e <=? now then ReconnectRequiredStatus else Available
  end.

Definition connectorRuntimeCredentialStatusForAccess (storedNeedsReconnect : bool) (tokenExpiresAt : option Z)
    (now : Z) (isRefreshable : bool) : ConnectorCredentialStatus :=
  if isRefreshable then Available
  else connectorCredentialStatusForAccess storedNeedsReconnect tokenExpiresAt now isRefreshable.

Definition is_refresh_token (m : ConnectorAuthMethodAccessMetadata) : bool :=
  match m with AccessRefreshToken _ _ _ => true | _ => false end.

Definition connectorAccessCredentialStatus (connectorAccess : ConnectorAccessState) (nowSeconds : Z) :
    ConnectorCredentialStatus :=
  connectorRuntimeCredentialStatusForAccess (ss_needsReconnect (ca_state connectorAccess))
    ((fun s => s * 1000) <$> ss_tokenExpiresAt (ca_state connectorAccess)) (nowSeconds * 1000)
    (is_refresh_token (ca_accessMetadata connectorAccess)).

Section Resolution.
Context `{AuthTables} `{StoredCipher}.

(** ** Owners of secrets *)

(** [map[key]] when truthy. An inherited member stands for its text, which is the type of
    no connector and of no provider. *)
Definition connector_of (secretConnectorMap : option (Rec jsstr)) (key : jsstr) : option jsstr :=
  truthy_text (opt_get secretConnectorMap key).

(** [metadataMap?.[key]]: an inherited member has none of the fields, which is the same as
    an absent entry to every reader. *)
Definition metadata_of (secretConnectorMetadataMap : option (Rec SecretConnectorMetadata)) (key : jsstr) :
    option SecretConnectorMetadata := secretConnectorMetadataMap ≫= fun m => rec_own m key.

Definition getOwnConnectorOwner (secretConnectorMap : option (Rec jsstr)) (key : jsstr) : option jsstr :=
  secretConnectorMap ≫= fun m => rec_own m key.

Definition add_metadata (secretConnectorMetadataMap : option (Rec SecretConnectorMetadata))
    (metadataByConnector : gmap jsstr SecretConnectorMetadata) (entry : jsstr * jsstr) :
    gmap jsstr SecretConnectorMetadata :=
  match metadata_of secretConnectorMetadataMap entry.1 with
  | Some metadata =>
      if bool_decide (is_Some (metadataByConnector !! entry.2)) then metadataByConnector
      else <[entry.2 := metadata]> metadataByConnector
  | None => metadataByConnector
  end.

Definition buildMetadataByConnector (refreshable : Rec jsstr)
    (secretConnectorMetadataMap : option (Rec SecretConnectorMetadata)) : gmap jsstr SecretConnectorMetadata :=
  foldl (add_metadata secretConnectorMetadataMap) ∅ refreshable.

Definition hasForbiddenModelProviderOwner (auth : SandboxAuth) (secretConnectorMap : option (Rec jsstr))
    (secretConnectorMetadataMap : option (Rec SecretConnectorMetadata)) (referencedKeys : list jsstr) : bool :=
  existsb (fun key => match connector_of secretConnectorMap key with
    | None => false
    | Some connectorType =>
        let metadata := resolveRefreshMetadata connectorType (metadata_of secretConnectorMetadataMap key) in
        let ownerUserId := default ORG_SENTINEL_USER_ID (sm_sourceUserId metadata) in
        bool_decide (sm_sourceType metadata = FromModelProvider) &&
        negb (bool_decide (ownerUserId = sb_userId auth)) && negb (bool_decide (ownerUserId = ORG_SENTINEL_USER_ID))
    end) referencedKeys.

Definition emptyRefreshResult : RefreshResult :=
  {| rr_expiresAt := None; rr_refreshedConnectors := []; rr_refreshedSecrets := []; rr_failedConnectors := [];
     rr_unavailableConnectors := []; rr_failureReason := None |}.

(** The referenced keys with a refreshable secret, and their connectors. *)
Definition buildRefreshableMap (secretConnectorMap : option (Rec jsstr))
    (secretConnectorMetadataMap : option (Rec SecretConnectorMetadata))
    (connectorAccessByType : gmap jsstr ConnectorAccessState) (referencedKeys : list jsstr) : Rec jsstr :=
  omap (fun key =>
    connectorType ← connector_of secretConnectorMap key;
    match truthy_text (refreshableRuntimeSecretNameForSource key connectorType
            (resolveRefreshMetadata connectorType (metadata_of secretConnectorMetadataMap key)) connectorAccessByType) with
    | Some _ => Some (key, connectorType)
    | None => None end) referencedKeys.

Definition connectorRuntimeSecretName (key : jsstr) (connectorAccess : ConnectorAccessState) : option jsstr :=
  match ca_accessMetadata connectorAccess with
  | AccessRefreshToken _ _ _ | AccessStatic => getConnectorRuntimeBindingSecretName (ca_runtimeMetadata connectorAccess) key
  | AccessNone => None
  end.

Definition isConnectorRuntimeSecretKey (key : jsstr) (connectorAccess : ConnectorAccessState) : bool :=
  bool_decide (is_Some (connectorRuntimeSecretName key connectorAccess)).

Definition isRefreshableConnectorRuntimeSecretKey (key : jsstr) (connectorAccess : ConnectorAccessState) : bool :=
  match truthy_text (connectorRuntimeSecretName key connectorAccess) with
  | None => false
  | Some secretName =>
      if is_refresh_token (ca_accessMetadata connectorAccess)
      then connectorRefreshMetadataHasRefreshableSecret (ca_accessMetadata connectorAccess) secretName else true
  end.

Definition modelProviderAccessSecretName (key connectorType : jsstr) (metadata : SecretConnectorMetadata) :
    option jsstr :=
  match getModelProviderRefreshMetadata connectorType with
  | Some secretMetadata =>
      if negb (mr_isRefreshable secretMetadata) then None
      else keep_name (modelProviderRuntimeSecretName key connectorType metadata)
             (fun n => bool_decide (n ∈ mr_refreshableSecrets secretMetadata))
  | None => None
  end.

Definition referencedModelProviderAccessMap (secretConnectorMap : option (Rec jsstr))
    (secretConnectorMetadataMap : option (Rec SecretConnectorMetadata)) (referencedKeys : list jsstr) : Rec jsstr :=
  omap (fun key =>
    connectorType ← connector_of secretConnectorMap key;
    let metadata := resolveRefreshMetadata connectorType (metadata_of secretConnectorMetadataMap key) in
    match sm_sourceType metadata, modelProviderAccessSecretName key connectorType metadata with
    | FromModelProvider, Some _ => Some (key, connectorType)
    | _, _ => None end) referencedKeys.

(** ** Stored secrets of connectors *)

(** The name of the stored secret of a key that is not refreshed. *)
Definition stored_lookup (secretConnectorMap : option (Rec jsstr))
    (secretConnectorMetadataMap : option (Rec SecretConnectorMetadata))
    (connectorAccessByType : gmap jsstr ConnectorAccessState) (key : jsstr) : option (jsstr * jsstr) :=
  connectorType ← truthy_text (getOwnConnectorOwner secretConnectorMap key);
  match sm_sourceType (resolveRefreshMetadata connectorType (metadata_of secretConnectorMetadataMap key)) with
  | FromModelProvider => None
  | FromConnector =>
      connectorAccess ← connectorAccessByType !! connectorType;
      secretName ← truthy_text (connectorRuntimeSecretName key connectorAccess);
      if is_refresh_token (ca_accessMetadata connectorAccess) &&
         connectorRefreshMetadataHasRefreshableSecret (ca_accessMetadata connectorAccess) secretName
      then None else Some (key, secretName)
  end.

(** A key without a stored value loses the value of the request. *)
Definition sync_stored (orgId userId : jsstr) (d : AuthDb) (secrets : Rec jsstr) (lookup : jsstr * jsstr) : Rec jsstr :=
  match getSecretValue orgId userId lookup.2 FromConnector d with
  | None => rec_delete secrets lookup.1
  | Some value => rec_set secrets lookup.1 value
  end.

Definition syncStoredConnectorRuntimeSecrets (orgId userId : jsstr) (secretConnectorMap : option (Rec jsstr))
    (secretConnectorMetadataMap : option (Rec SecretConnectorMetadata)) (referencedKeys : list jsstr)
    (connectorAccessByType : gmap jsstr ConnectorAccessState) (d : AuthDb) (secrets : Rec jsstr) : Rec jsstr :=
  foldl (sync_stored orgId userId d) secrets
    (omap (stored_lookup secretConnectorMap secretConnectorMetadataMap connectorAccessByType) referencedKeys).

(** ** Availability *)

Definition canResolveMissingAccessSecret (secretConnectorMap : option (Rec jsstr))
    (secretConnectorMetadataMap : option (Rec SecretConnectorMetadata))
    (connectorAccessByType : gmap jsstr ConnectorAccessState) (key : jsstr) : bool :=
  match truthy_text (getOwnConnectorOwner secretConnectorMap key) with
  | None => false
  | Some connectorType =>
      let refreshMetadata := resolveRefreshMetadata connectorType (metadata_of secretConnectorMetadataMap key) in
      match sm_sourceType refreshMetadata with
      | FromModelProvider => bool_decide (is_Some (modelProviderAccessSecretName key connectorType refreshMetadata))
      | FromConnector =>
          match connectorAccessByType !! connectorType with
          | Some connectorAccess =>
              is_refresh_token (ca_accessMetadata connectorAccess) &&
              isRefreshableConnectorRuntimeSecretKey key connectorAccess
          | None => false
          end
      end
  end.

Definition referencedConnectorTypes (secretConnectorMap : option (Rec jsstr))
    (secretConnectorMetadataMap : option (Rec SecretConnectorMetadata)) (referencedKeys : list jsstr) : list jsstr :=
  Templates.set_add_all (omap (fun key =>
    connectorType ← connector_of secretConnectorMap key;
    match sm_sourceType (resolveRefreshMetadata connectorType (metadata_of secretConnectorMetadataMap key)) with
    | FromConnector => Some connectorType
    | FromModelProvider => None end) referencedKeys) [].

Definition hasUnavailableAccessSource (secretConnectorMap : option (Rec jsstr))
    (secretConnectorMetadataMap : option (Rec SecretConnectorMetadata)) (referencedKeys : list jsstr)
    (connectorAccessByType : gmap jsstr ConnectorAccessState)
    (modelProviderSourceStateByConnector : gmap jsstr RefreshSourceState) : bool :=
  existsb (fun key => match connector_of secretConnectorMap key with
    | None => false
    | Some connectorType =>
        let metadata := resolveRefreshMetadata connectorType (metadata_of secretConnectorMetadataMap key) in
        match sm_sourceType metadata with
        | FromModelProvider =>
            if negb (bool_decide (is_Some (modelProviderAccessSecretName key connectorType metadata))) then true
            else negb (bool_decide (is_Some (modelProviderSourceStateByConnector !! connectorType)))
        | FromConnector =>
            match connectorAccessByType !! connectorType with
            | None => true
            | Some connectorAccess => negb (isConnectorRuntimeSecretKey key connectorAccess)
            end
        end
    end) referencedKeys.

Definition connectorAccessSourcesWithReconnectRequiredStatus (now : Z) (secretConnectorMap : option (Rec jsstr))
    (secretConnectorMetadataMap : option (Rec SecretConnectorMetadata)) (referencedKeys : list jsstr)
    (connectorAccessByType : gmap jsstr ConnectorAccessState) : list jsstr :=
  Templates.set_add_all (omap (fun key =>
    connectorType ← connector_of secretConnectorMap key;
    match sm_sourceType (resolveRefreshMetadata connectorType (metadata_of secretConnectorMetadataMap key)) with
    | FromModelProvider => None
    | FromConnector =>
        connectorAccess ← connectorAccessByType !! connectorType;
        if isConnectorRuntimeSecretKey key connectorAccess &&
           bool_decide (connectorAccessCredentialStatus connectorAccess (now / 1000) = ReconnectRequiredStatus)
        then Some connectorType else None
    end) referencedKeys) [].

Definition hasMissingUnresolvableSecrets (secrets : Rec jsstr) (referencedKeys : list jsstr)
    (secretConnectorMap : option (Rec jsstr)) (secretConnectorMetadataMap : option (Rec SecretConnectorMetadata))
    (connectorAccessByType : gmap jsstr ConnectorAccessState) : bool :=
  existsb (fun key => negb (bool_decide (is_Some (rec_own secrets key))) &&
    negb (canResolveMissingAccessSecret secretConnectorMap secretConnectorMetadataMap connectorAccessByType key))
    referencedKeys.

(** ** The context of a request *)

Record FirewallAuthResolutionContext := {
  fc_referenced : ReferencedAuthKeys; fc_vars : Rec jsstr; fc_connectorAccessByType : gmap jsstr ConnectorAccessState }.

(** The context with the secrets of the request as they were synchronized, or a response. *)
Definition prepareFirewallAuthResolutionContext (now : Z) (auth : SandboxAuth) (body : FirewallAuthBody)
    (orgId : jsstr) (secrets : Rec jsstr) (d : AuthDb) :
    ResolveFirewallAuthResult + FirewallAuthResolutionContext * Rec jsstr :=
  let referenced := collectReferencedKeys (fb_authHeaders body) (fb_authBase body) (fb_authQuery body)
    (fb_authAwsSigv4 body) in
  let vars := default [] (fb_vars body) in
  let map := fb_secretConnectorMap body in
  let metadataMap := fb_secretConnectorMetadataMap body in
  if hasForbiddenModelProviderOwner auth map metadataMap (rk_secrets referenced) then inl forbiddenModelProviderOwner
  else
  let connectorAccessByType := loadConnectorAccessStates orgId (sb_userId auth)
    (referencedConnectorTypes map metadataMap (rk_secrets referenced)) d in
  let modelProviderRefreshable := referencedModelProviderAccessMap map metadataMap (rk_secrets referenced) in
  let modelProviderSourceStateByConnector :=
    if bool_decide (modelProviderRefreshable = []) then ∅
    else getSourceStateByProviderKey orgId (sb_userId auth) (Templates.set_add_all modelProviderRefreshable.*2 [])
           (buildMetadataByConnector modelProviderRefreshable metadataMap) connectorAccessByType d in
  if hasUnavailableAccessSource map metadataMap (rk_secrets referenced) connectorAccessByType
       modelProviderSourceStateByConnector
  then inl connectorNotConfigured
  else
  let reconnect := connectorAccessSourcesWithReconnectRequiredStatus now map metadataMap (rk_secrets referenced)
    connectorAccessByType in
  if negb (bool_decide (reconnect = [])) then inl (connectorReconnectRequired reconnect)
  else
  let secrets := syncStoredConnectorRuntimeSecrets orgId (sb_userId auth) map metadataMap (rk_secrets referenced)
    connectorAccessByType d secrets in
  if hasMissingUnresolvableSecrets secrets (rk_secrets referenced) map metadataMap connectorAccessByType ||
     existsb (fun key => negb (bool_decide (is_Some (rec_own vars key)))) (rk_vars referenced)
  then inl connectorNotConfigured
  else inr ({| fc_referenced := referenced; fc_vars := vars; fc_connectorAccessByType := connectorAccessByType |}, secrets).

Definition hasMissingResolvedSecrets (secrets : Rec jsstr) (referencedKeys : list jsstr) : bool :=
  existsb (fun key => negb (bool_decide (is_Some (rec_own secrets key)))) referencedKeys.

(** [secretConnectorMap?.[key] ?? key]. *)
Definition missingResolvedConnectorOwners (secrets : Rec jsstr) (referencedKeys : list jsstr)
    (secretConnectorMap : option (Rec jsstr)) : list jsstr :=
  sort_strings (Templates.set_add_all (omap (fun key =>
    if bool_decide (is_Some (rec_own secrets key)) then None
    else Some (default key (opt_get secretConnectorMap key))) referencedKeys) []).

Definition findRefreshRunOrgId (auth : SandboxAuth) (w : RunStore.World) : option jsstr :=
  run ← RunStore.agentRuns w !! sb_runId auth;
  if bool_decide (RunStore.run_userId run = sb_userId auth) then Some (RunStore.run_orgId run) else None.

(** [decryptPersistentSecretsMap] fails with [None]. *)
Definition decryptFirewallAuthSecrets (decryptPersistentSecretsMap : jsstr -> option (Rec jsstr)) (auth : SandboxAuth)
    (encryptedSecrets : jsstr) (w : RunStore.World) : ResolveFirewallAuthResult + jsstr * option (Rec jsstr) :=
  match truthy_text (findRefreshRunOrgId auth w) with
  | None => inl (badRequestMessage (js "Run not found"))
  | Some orgId => inr (orgId, decryptPersistentSecretsMap encryptedSecrets)
  end.

(** ** Refreshing *)

Definition connectorTypesNeedingRefresh (now : Z) (connectorTypes : list jsstr)
    (sourceStateMap : gmap jsstr RefreshSourceState) (forceRefresh : bool) : list jsstr :=
  filter (fun connectorType =>
    (forceRefresh || match sourceStateMap !! connectorType with
     | None => true
     | Some sourceState =>
         ss_needsReconnect sourceState || match ss_tokenExpiresAt sourceState with
         | None => true
         | Some e => e <=? now / 1000 + REFRESH_BUFFER_SECS end
     end) = true) connectorTypes.

(** The variables of a connector, in the order of the map; empty for an unknown one. *)
Definition buildEnvVarsByConnector (refreshable : Rec jsstr) (connectorType : jsstr) : list jsstr :=
  omap (fun '(envVar, t) => if bool_decide (t = connectorType) then Some envVar else None) refreshable.

(** What the requests of the batch share. *)
Record RefreshBatchContext := {
  bc_orgId : jsstr; bc_userId : jsstr; bc_forceRefresh : bool; bc_forceRefreshStartedAtMicros : option Z;
  bc_metadataByConnector : gmap jsstr SecretConnectorMetadata;
  bc_connectorAccessByType : gmap jsstr ConnectorAccessState; bc_refreshable : Rec jsstr }.

Definition lookup_args (context : RefreshBatchContext) (connectorType : jsstr) : SecretTokenLookupArgs :=
  let metadata := resolveRefreshMetadata connectorType (bc_metadataByConnector context !! connectorType) in
  {| tl_connectorType := connectorType; tl_orgId := bc_orgId context; tl_userId := bc_userId context;
     tl_sourceType := sm_sourceType metadata; tl_sourceUserId := sm_sourceUserId metadata;
     tl_metadataKey := sm_metadataKey metadata; tl_connectorAccessByType := bc_connectorAccessByType context;
     tl_accessEnvVars := buildEnvVarsByConnector (bc_refreshable context) connectorType |}.

(** What happens around the requests: the clocks, what other requests commit before one
    gets its lock, and the providers. *)
Record Environment := {
  ev_clock : jsstr -> RefreshClock; ev_dbNow : jsstr -> Z; ev_others : jsstr -> AuthDb -> AuthDb;
  ev_provider : jsstr -> Rec jsstr -> ProviderResult }.

(** One connector: the result with the secrets and the store. *)
Definition refresh_selected (env : Environment) (context : RefreshBatchContext) (connectorType : jsstr)
    (secrets : Rec jsstr) (d : AuthDb) : result (RefreshExecutionResult * Rec jsstr * AuthDb) :=
  let args := {| ta_lookup := lookup_args context connectorType; ta_forceRefresh := bc_forceRefresh context;
                 ta_forceRefreshStartedAtMicros := bc_forceRefreshStartedAtMicros context |} in
  '(refreshResult, d, secrets) ← refreshAccessTokenForSource (ev_clock env connectorType) (ev_dbNow env connectorType)
    (ev_others env connectorType) (ev_provider env connectorType) args secrets d;
  Ok (match refreshResult with
  | RefreshError SourceMissing _ =>
      ({| rx_connectorType := connectorType; rx_status := StatusSourceMissing; rx_failureReason := None |}, secrets, d)
  | RefreshError _ failureReason =>
      ({| rx_connectorType := connectorType; rx_status := StatusFailed; rx_failureReason := failureReason |}, secrets, d)
  | RefreshOk refreshed values =>
      ({| rx_connectorType := connectorType; rx_status := if refreshed then StatusRefreshed else StatusCurrent;
          rx_failureReason := None |}, rec_assign secrets values, d)
  end).

(** The connectors are refreshed concurrently, each under its own lock; here in the order
    of the list, with [ev_others] for what happens in between. *)
Fixpoint refreshSelectedTokens (env : Environment) (context : RefreshBatchContext) (connectorTypes : list jsstr)
    (secrets : Rec jsstr) (d : AuthDb) : result (list RefreshExecutionResult * Rec jsstr * AuthDb) :=
  match connectorTypes with
  | [] => Ok ([], secrets, d)
  | connectorType :: rest =>
      '(r, secrets, d) ← refresh_selected env context connectorType secrets d;
      '(rs, secrets, d) ← refreshSelectedTokens env context rest secrets d;
      Ok (r :: rs, secrets, d)
  end.

Definition delete_keys (secrets : Rec jsstr) (keys : list jsstr) : Rec jsstr := foldl rec_delete secrets keys.

(** [Object.assign(secrets, tokens)] of tokens that are all present. *)
Definition present_values (tokens : Rec (option jsstr)) : Rec jsstr :=
  omap (fun kv => (fun v => (kv.1, v)) <$> kv.2) tokens.

Definition sync_skipped (context : RefreshBatchContext) (sourceStateMap : gmap jsstr RefreshSourceState) (d : AuthDb)
    (acc : list RefreshExecutionResult * Rec jsstr) (connectorType : jsstr) : list RefreshExecutionResult * Rec jsstr :=
  let '(results, secrets) := acc in
  let envVars := buildEnvVarsByConnector (bc_refreshable context) connectorType in
  match sourceStateMap !! connectorType with
  | None =>
      (results ++ [{| rx_connectorType := connectorType; rx_status := StatusSourceMissing; rx_failureReason := None |}],
       delete_keys secrets envVars)
  | Some sourceState =>
      if ss_needsReconnect sourceState then
        (results ++ [{| rx_connectorType := connectorType; rx_status := StatusFailed;
                        rx_failureReason := Some ReconnectRequired |}], delete_keys secrets envVars)
      else
        let tokens := getCurrentAccessSecrets (lookup_args context connectorType)
          (resolveRefreshMetadata connectorType (bc_metadataByConnector context !! connectorType)) d in
        if existsb (fun kv => negb (bool_decide (is_Some (truthy_text kv.2)))) tokens
        then (results, delete_keys secrets envVars)
        else (results, rec_assign secrets (present_values tokens))
  end.

Definition syncSkippedTokens (context : RefreshBatchContext) (skippedTypes : list jsstr)
    (sourceStateMap : gmap jsstr RefreshSourceState) (d : AuthDb) (secrets : Rec jsstr) :
    list RefreshExecutionResult * Rec jsstr :=
  foldl (sync_skipped context sourceStateMap d) ([], secrets) skippedTypes.

Definition types_with (status : RefreshStatus) (results : list RefreshExecutionResult) : list jsstr :=
  rx_connectorType <$> filter (fun r => rx_status r = status) results.

Definition summarizeRefreshResults (refreshResults : list RefreshExecutionResult) (refreshable : Rec jsstr)
    (expiresAt : option Z) : RefreshResult :=
  let failed := filter (fun r => rx_status r = StatusFailed) refreshResults in
  {| rr_expiresAt := expiresAt; rr_refreshedConnectors := types_with StatusRefreshed refreshResults;
     rr_refreshedSecrets :=
       sort_strings (concat (buildEnvVarsByConnector refreshable <$> types_with StatusRefreshed refreshResults));
     rr_failedConnectors := types_with StatusFailed refreshResults;
     rr_unavailableConnectors := types_with StatusSourceMissing refreshResults;
     rr_failureReason := match remove_dups (rx_failureReason <$> failed) with [reason] => reason | _ => None end |}.

Definition earliestConnectorExpiry (connectorTypes : list jsstr) (finalSourceStateMap : gmap jsstr RefreshSourceState) :
    option Z :=
  foldl (fun earliestExpiry connectorType =>
    match finalSourceStateMap !! connectorType ≫= ss_tokenExpiresAt with
    | None => earliestExpiry
    | Some expiry => Some (match earliestExpiry with None => expiry | Some e => Z.min e expiry end)
    end) None connectorTypes.

Record RefreshExpiredTokensArgs := {
  xa_auth : SandboxAuth; xa_orgId : jsstr; xa_secretConnectorMap : option (Rec jsstr);
  xa_secretConnectorMetadataMap : option (Rec SecretConnectorMetadata); xa_referencedKeys : list jsstr;
  xa_connectorAccessByType : gmap jsstr ConnectorAccessState; xa_forceRefresh : bool;
  xa_forceRefreshStartedAtMicros : option Z }.

Definition refreshExpiredTokens (now : Z) (env : Environment) (args : RefreshExpiredTokensArgs) (secrets : Rec jsstr)
    (d : AuthDb) : result (RefreshResult * Rec jsstr * AuthDb) :=
  let orgId := xa_orgId args in
  let userId := sb_userId (xa_auth args) in
  let refreshable := buildRefreshableMap (xa_secretConnectorMap args) (xa_secretConnectorMetadataMap args)
    (xa_connectorAccessByType args) (xa_referencedKeys args) in
  if bool_decide (refreshable = []) then Ok (emptyRefreshResult, secrets, d)
  else
  let connectorTypes := Templates.set_add_all refreshable.*2 [] in
  let metadataByConnector := buildMetadataByConnector refreshable (xa_secretConnectorMetadataMap args) in
  let sourceStateMap := getSourceStateByProviderKey orgId userId connectorTypes metadataByConnector
    (xa_connectorAccessByType args) d in
  let toRefresh := connectorTypesNeedingRefresh now connectorTypes sourceStateMap (xa_forceRefresh args) in
  let context := {| bc_orgId := orgId; bc_userId := userId; bc_forceRefresh := xa_forceRefresh args;
    bc_forceRefreshStartedAtMicros := xa_forceRefreshStartedAtMicros args;
    bc_metadataByConnector := metadataByConnector; bc_connectorAccessByType := xa_connectorAccessByType args;
    bc_refreshable := refreshable |} in
  '(selectedRefreshResults, secrets, d) ← refreshSelectedTokens env context toRefresh secrets d;
  let skippedTypes := filter (fun t => t ∉ toRefresh) connectorTypes in
  let '(skippedStateMap, skippedAccess) :=
    if bool_decide (skippedTypes = []) then (sourceStateMap, bc_connectorAccessByType context)
    else loadCurrentSourceStateSnapshot orgId userId skippedTypes metadataByConnector d in
  let '(skippedResults, secrets) := syncSkippedTokens
    {| bc_orgId := orgId; bc_userId := userId; bc_forceRefresh := xa_forceRefresh args;
       bc_forceRefreshStartedAtMicros := xa_forceRefreshStartedAtMicros args;
       bc_metadataByConnector := metadataByConnector; bc_connectorAccessByType := skippedAccess;
       bc_refreshable := refreshable |} skippedTypes skippedStateMap d secrets in
  let refreshResults := selectedRefreshResults ++ skippedResults in
  let finalSourceStateMap :=
    if existsb (fun r => bool_decide (rx_status r = StatusCurrent) || bool_decide (rx_status r = StatusRefreshed))
         refreshResults
    then getSourceStateByProviderKey orgId userId connectorTypes metadataByConnector
           (loadConnectorAccessStates orgId userId connectorTypes d ∪ xa_connectorAccessByType args) d
    else skippedStateMap ∪ sourceStateMap in
  Ok (summarizeRefreshResults refreshResults refreshable (earliestConnectorExpiry connectorTypes finalSourceStateMap),
      secrets, d).

(** ** The handler *)

Definition resolveFirewallAuth (now dbNow : Z) (env : Environment)
    (decryptPersistentSecretsMap : jsstr -> option (Rec jsstr)) (auth : SandboxAuth) (body : FirewallAuthBody)
    (w : RunStore.World) (s : Credits.Store) (d : AuthDb) : result (ResolveFirewallAuthResult * AuthDb) :=
  let forceRefreshStartedAtMicros := if fb_forceRefresh body then Some dbNow else None in
  match decryptFirewallAuthSecrets decryptPersistentSecretsMap auth (fb_encryptedSecrets body) w with
  | inl response => Ok (response, d)
  | inr (_, None) => Ok (badRequestMessage (js "Failed to decrypt secrets"), d)
  | inr (orgId, Some decryptedSecrets) =>
      match prepareFirewallAuthResolutionContext now auth body orgId decryptedSecrets d with
      | inl response => Ok (response, d)
      | inr (context, secrets) =>
          match resolveBillableFirewallCacheExpiry now auth (fb_firewallBillable body) s with
          | inl response => Ok (response, d)
          | inr billableExpiresAt =>
              '(refresh, secrets, d) ← match fb_secretConnectorMap body with
                | None => Ok (emptyRefreshResult, secrets, d)
                | Some _ => refreshExpiredTokens now env {|
                    xa_auth := auth; xa_orgId := orgId; xa_secretConnectorMap := fb_secretConnectorMap body;
                    xa_secretConnectorMetadataMap := fb_secretConnectorMetadataMap body;
                    xa_referencedKeys := rk_secrets (fc_referenced context);
                    xa_connectorAccessByType := fc_connectorAccessByType context;
                    xa_forceRefresh := fb_forceRefresh body;
                    xa_forceRefreshStartedAtMicros := forceRefreshStartedAtMicros |} secrets d
                end;
              Ok (if negb (bool_decide (rr_unavailableConnectors refresh = [])) then connectorNotConfigured
                  else if negb (bool_decide (rr_failedConnectors refresh = [])) then
                    tokenRefreshFailed (rr_failedConnectors refresh) (rr_failureReason refresh)
                  else if hasMissingResolvedSecrets secrets (rk_secrets (fc_referenced context)) then
                    tokenAccessResolutionFailed (missingResolvedConnectorOwners secrets
                      (rk_secrets (fc_referenced context)) (fb_secretConnectorMap body))
                  else
                    let resolved := resolveTemplates {| ra_authHeaders := fb_authHeaders body; ra_secrets := secrets;
                      ra_vars := fc_vars context; ra_authBase := fb_authBase body; ra_authQuery := fb_authQuery body;
                      ra_authAwsSigv4 := fb_authAwsSigv4 body |} in
                    if hasEmptyAwsSigv4Credential (rt_awsSigv4 resolved) then connectorNotConfigured
                    else Resolved {| vb_headers := rt_headers resolved; vb_base := rt_base resolved;
                      vb_query := rt_query resolved; vb_awsSigv4 := rt_awsSigv4 resolved;
                      vb_expiresAt := mergeExpiresAt (rr_expiresAt refresh) billableExpiresAt;
                      vb_resolvedSecrets := rt_resolvedSecrets resolved;
                      vb_refreshedConnectors := rr_refreshedConnectors refresh;
                      vb_refreshedSecrets := rr_refreshedSecrets refresh |}, d)
          end
      end
  end.

End Resolution.

(** ** Theorems *)

Section Correctness.
Context `{AuthTables} `{StoredCipher}.

(** The references of a request. *)
Definition body_refers (body : FirewallAuthBody) : Ns * jsstr -> Prop :=
  refers (fb_authHeaders body) (fb_authBase body) (fb_authQuery body) (fb_authAwsSigv4 body).

(** The templates of a request. *)
Definition body_templates (body : FirewallAuthBody) (secrets : Rec jsstr) : ResolveTemplatesArgs :=
  {| ra_authHeaders := fb_authHeaders body; ra_secrets := secrets; ra_vars := default [] (fb_vars body);
     ra_authBase := fb_authBase body; ra_authQuery := fb_authQuery body; ra_authAwsSigv4 := fb_authAwsSigv4 body |}.

Lemma existsb_own_false {A} (r : Rec A) keys k :
  existsb (fun key => negb (bool_decide (is_Some (rec_own r key)))) keys = false -> k ∈ keys -> is_Some (rec_own r k).
Proof.
  intros Hf Hk. destruct (bool_decide_reflect (is_Some (rec_own r k))) as [|Hn]; [done|].
  exfalso. apply not_true_iff_false in Hf. apply Hf, existsb_exists. exists k.
  split; [by apply list_elem_of_In|]. by rewrite bool_decide_eq_false_2.
Qed.

Lemma lookup_body_refers body ns k :
  body_refers body (ns, k) -> k ∈ keys_of ns (collectReferencedKeys (fb_authHeaders body) (fb_authBase body)
    (fb_authQuery body) (fb_authAwsSigv4 body)).
Proof. apply collect_refers. Qed.

(** What a prepared context has established. *)
Lemma prepare_ok now auth body orgId secrets d context secrets' :
  prepareFirewallAuthResolutionContext now auth body orgId secrets d = inr (context, secrets') ->
  hasForbiddenModelProviderOwner auth (fb_secretConnectorMap body) (fb_secretConnectorMetadataMap body)
    (rk_secrets (fc_referenced context)) = false /\
  fc_referenced context = collectReferencedKeys (fb_authHeaders body) (fb_authBase body) (fb_authQuery body)
    (fb_authAwsSigv4 body) /\
  fc_vars context = default [] (fb_vars body) /\
  existsb (fun key => negb (bool_decide (is_Some (rec_own (fc_vars context) key)))) (rk_vars (fc_referenced context)) = false.
Proof.
  unfold prepareFirewallAuthResolutionContext. destruct (hasForbiddenModelProviderOwner _ _ _ _) eqn:Ef; [done|].
  destruct (hasUnavailableAccessSource _ _ _ _ _); [done|]. destruct (negb _); [done|].
  destruct (hasMissingUnresolvableSecrets _ _ _ _ _); [done|]. cbn [orb].
  destruct (existsb _ (rk_vars _)) eqn:Ev; [done|]. intros [= <- _]. done.
Qed.

(** The owner of a model provider secret a request may use. *)
Definition permitted_owner (auth : SandboxAuth) (body : FirewallAuthBody) (key : jsstr) : Prop :=
  forall connectorType, connector_of (fb_secretConnectorMap body) key = Some connectorType ->
  let metadata := resolveRefreshMetadata connectorType (metadata_of (fb_secretConnectorMetadataMap body) key) in
  sm_sourceType metadata = FromModelProvider ->
  sm_sourceUserId metadata = None \/ sm_sourceUserId metadata = Some (sb_userId auth) \/
  sm_sourceUserId metadata = Some ORG_SENTINEL_USER_ID.

Lemma forbidden_false auth body keys key :
  hasForbiddenModelProviderOwner auth (fb_secretConnectorMap body) (fb_secretConnectorMetadataMap body) keys = false ->
  key ∈ keys -> permitted_owner auth body key.
Proof.
  intros Hf Hk connectorType Hc metadata Hs. apply not_true_iff_false in Hf.
  destruct (decide (default ORG_SENTINEL_USER_ID (sm_sourceUserId metadata) = sb_userId auth)) as [Hu|Hu];
    [destruct (sm_sourceUserId metadata); cbn in Hu; subst; tauto|].
  destruct (decide (default ORG_SENTINEL_USER_ID (sm_sourceUserId metadata) = ORG_SENTINEL_USER_ID)) as [Ho|Ho];
    [destruct (sm_sourceUserId metadata); cbn in Ho; subst; tauto|].
  exfalso. apply Hf, existsb_exists. exists key. split; [by apply list_elem_of_In|]. rewrite Hc.
  cbn zeta. subst metadata. rewrite Hs, bool_decide_eq_true_2, !bool_decide_eq_false_2 by done. done.
Qed.

(** The lease of a billable request. *)
Definition lease_ok (now : Z) (orgId : jsstr) (s : Credits.Store) (expiresAt : option Z) : Prop :=
  exists availability expiry,
    Credits.resolveOrgCreditAvailability now orgId s = Some availability /\ expiresAt = Some expiry /\
    Credits.av_tier availability <> js "pro-suspend" /\ 0 < Credits.av_spendableCredits availability /\
    expiry <= now / 1000 + 30 /\ (Credits.av_spendableCredits availability <= 1000 -> expiry <= now / 1000 + 5).

Lemma billable_lease now auth s e additional :
  resolveBillableFirewallCacheExpiry now auth true s = inr additional ->
  lease_ok now (sb_orgId auth) s (mergeExpiresAt e additional).
Proof.
  unfold resolveBillableFirewallCacheExpiry. cbn [negb].
  destruct (Credits.resolveOrgCreditAvailability now (sb_orgId auth) s) as [a|] eqn:Ea; [|done].
  case_bool_decide; [done|]. destruct (Z.leb_spec (Credits.av_spendableCredits a) 0); [done|]. intros [= <-].
  exists a. unfold NORMAL_BILLABLE_FIREWALL_LEASE_SECONDS, LOW_BILLABLE_FIREWALL_LEASE_SECONDS,
    LOW_BILLABLE_FIREWALL_CREDIT_THRESHOLD.
  destruct (Z.leb_spec (Credits.av_spendableCredits a) 1000), e as [e|]; cbn [mergeExpiresAt]; eexists;
    (split_and!; [done|done|done|lia|lia|lia]).
Qed.

(** The early responses are errors. *)
Definition is_error (r : ResolveFirewallAuthResult) : bool :=
  match r with Resolved _ => false | AuthFailed _ _ _ _ _ => true end.

Lemma decrypt_error decrypt auth enc w r : decryptFirewallAuthSecrets decrypt auth enc w = inl r -> is_error r = true.
Proof. unfold decryptFirewallAuthSecrets. case_match; [done|by intros [= <-]]. Qed.

Lemma prepare_error now auth body orgId secrets d r :
  prepareFirewallAuthResolutionContext now auth body orgId secrets d = inl r -> is_error r = true.
Proof.
  unfold prepareFirewallAuthResolutionContext. destruct (hasForbiddenModelProviderOwner _ _ _ _); [by intros [= <-]|].
  destruct (hasUnavailableAccessSource _ _ _ _ _); [by intros [= <-]|]. destruct (negb _); [by intros [= <-]|].
  destruct (_ || _); [by intros [= <-]|done].
Qed.

Lemma billable_error now auth billable s r : resolveBillableFirewallCacheExpiry now auth billable s = inl r -> is_error r = true.
Proof. unfold resolveBillableFirewallCacheExpiry. repeat case_match; by intros [= <-]. Qed.

(** C7: what a request gets is complete and authorized. When the handler answers with
    credentials, the run exists and belongs to the caller; every secret and every variable
    the templates refer to had an own value, and headers, base, query, signature and
    resolved names are those of the templates over these values; every referenced model
    provider secret is owned by the caller or by the organization; and for a billable
    firewall the organization is not suspended and has credits, and the answer may be
    cached for at most thirty seconds, five when credits are low. *)
Theorem resolveFirewallAuth_sound now dbNow env decrypt auth body w s d b d' :
  resolveFirewallAuth now dbNow env decrypt auth body w s d = Ok (Resolved b, d') ->
  (exists run, RunStore.agentRuns w !! sb_runId auth = Some run /\ RunStore.run_userId run = sb_userId auth) /\
  (exists secrets, let resolved := resolveTemplates (body_templates body secrets) in
     (forall k, body_refers body (NsSecrets, k) -> is_Some (rec_own secrets k)) /\
     (forall k, body_refers body (NsVars, k) -> is_Some (rec_own (default [] (fb_vars body)) k)) /\
     vb_headers b = rt_headers resolved /\ vb_base b = rt_base resolved /\ vb_query b = rt_query resolved /\
     vb_awsSigv4 b = rt_awsSigv4 resolved /\ hasEmptyAwsSigv4Credential (vb_awsSigv4 b) = false /\
     vb_resolvedSecrets b = rt_resolvedSecrets resolved) /\
  (forall k, body_refers body (NsSecrets, k) -> permitted_owner auth body k) /\
  (fb_firewallBillable body = true -> lease_ok now (sb_orgId auth) s (vb_expiresAt b)).
Proof.
  unfold resolveFirewallAuth. intros Hr. split; [revert Hr|].
  { unfold decryptFirewallAuthSecrets, findRefreshRunOrgId.
    destruct (RunStore.agentRuns w !! sb_runId auth) as [run|]; [|done]. cbn [mbind option_bind].
    case_bool_decide; [by eauto|done]. }
  destruct (decryptFirewallAuthSecrets _ _ _ _) as [r|[orgId [decrypted|]]] eqn:Ed;
    [apply decrypt_error in Ed; by simplify_eq| |by simplify_eq].
  destruct (prepareFirewallAuthResolutionContext _ _ _ _ _ _) as [r|[context secrets]] eqn:Ep;
    [apply prepare_error in Ep; by simplify_eq|].
  destruct (prepare_ok _ _ _ _ _ _ _ _ Ep) as (Hf & Href & Hvars & Hv). rewrite Href, Hvars in *.
  destruct (resolveBillableFirewallCacheExpiry _ _ _ _) as [r|lease] eqn:Eb; [apply billable_error in Eb; by simplify_eq|].
  apply result_bind_ok in Hr as ([[refresh secrets'] d1] & _ & Hr).
  destruct (negb _); [by simplify_eq|]. destruct (negb _); [by simplify_eq|].
  destruct (hasMissingResolvedSecrets _ _) eqn:Em; [by simplify_eq|].
  fold (body_templates body secrets') in Hr. destruct (hasEmptyAwsSigv4Credential _) eqn:Ee; [by simplify_eq|].
  apply (inj Ok) in Hr. injection Hr as Hb Hd. subst b d1. cbn.
  split_and!.
  - exists secrets'. split_and!; try done.
    + intros k Hk%lookup_body_refers. by eapply existsb_own_false.
    + intros k Hk%lookup_body_refers. by eapply existsb_own_false.
  - intros k Hk%lookup_body_refers. by eapply forbidden_false.
  - intros Hbill. rewrite Hbill in Eb. by eapply billable_lease.
Qed.

(** The secrets of a connector are the stored ones. After the synchronization a
    referenced key owned by a connector of the caller has the value stored for it, and no
    value at all when none is stored, whatever the request carried; every other key keeps
    the value of the request. *)
Theorem syncStoredConnectorRuntimeSecrets_spec orgId userId map metadataMap keys access d secrets key :
  key <> PROTO ->
  rec_own (syncStoredConnectorRuntimeSecrets orgId userId map metadataMap keys access d secrets) key =
  match stored_lookup map metadataMap access key with
  | Some (_, name) => if bool_decide (key ∈ keys) then getSecretValue orgId userId name FromConnector d
                      else rec_own secrets key
  | None => rec_own secrets key
  end.
Proof.
  intros Hp. unfold syncStoredConnectorRuntimeSecrets. revert secrets.
  assert (Hkey : forall k l, stored_lookup map metadataMap access k = Some l -> l.1 = k).
  { intros k l. unfold stored_lookup. intros (t & _ & Ht)%bind_Some. destruct (sm_sourceType _); [|done].
    apply bind_Some in Ht as (a & _ & Ht). apply bind_Some in Ht as (n & _ & Ht). destruct (_ && _); by simplify_eq. }
  induction keys as [|k keys IH]; intros secrets; cbn [omap list_omap foldl].
  - rewrite (bool_decide_eq_false_2 (key ∈ [])) by set_solver. by destruct (stored_lookup _ _ _ key) as [[? ?]|].
  - destruct (stored_lookup map metadataMap access k) as [[k' n]|] eqn:Ek; cbn [foldl]; rewrite IH.
    + pose proof (Hkey _ _ Ek) as Hk'. cbn in Hk'. subst k'. unfold sync_stored. cbn [fst snd].
      destruct (decide (k = key)) as [->|Hne].
      * rewrite Ek, (bool_decide_eq_true_2 (key ∈ key :: keys)) by set_solver. case_bool_decide; [done|].
        destruct (getSecretValue _ _ _ _ _) as [v|].
        -- by rewrite rec_own_set, bool_decide_eq_true_2.
        -- by rewrite rec_own_delete, bool_decide_eq_true_2.
      * rewrite (bool_decide_ext (key ∈ k :: keys) (key ∈ keys)) by set_solver.
        assert (rec_own (match getSecretValue orgId userId n FromConnector d with
                         | Some value => rec_set secrets k value | None => rec_delete secrets k end) key =
                rec_own secrets key) as ->; [|done].
        destruct (getSecretValue _ _ _ _ _); [by rewrite rec_own_set_other|].
        by rewrite rec_own_delete, bool_decide_eq_false_2.
    + destruct (stored_lookup map metadataMap access key) as [[k' n]|] eqn:E; [|done].
      rewrite (bool_decide_ext (key ∈ k :: keys) (key ∈ keys)); [done|]. rewrite elem_of_cons.
      split; [|tauto]. intros [->|]; [congruence|done].
Qed.

(** *** Totality *)

Lemma refreshable_elem map metadataMap access keys k t :
  (k, t) ∈ buildRefreshableMap map metadataMap access keys ->
  t <> [] /\ is_Some (refreshableRuntimeSecretNameForSource k t (resolveRefreshMetadata t (metadata_of metadataMap k)) access).
Proof.
  unfold buildRefreshableMap. intros (key & _ & Hk)%list_elem_of_omap. apply bind_Some in Hk as (t' & Ht' & Hk).
  destruct (refreshableRuntimeSecretNameForSource _ _ _ _) as [[|c n]|] eqn:En; cbn in Hk; [done| |done].
  simplify_eq. split; [|by eauto]. unfold connector_of in Ht'. intros ->. by destruct (opt_get map k) as [[|]|].
Qed.

Lemma metadata_elem refreshable metadataMap t m :
  buildMetadataByConnector refreshable metadataMap !! t = Some m ->
  exists k, (k, t) ∈ refreshable /\ metadata_of metadataMap k = Some m.
Proof.
  unfold buildMetadataByConnector. intros Hm.
  enough (Hgen : forall acc, foldl (add_metadata metadataMap) acc refreshable !! t = Some m ->
    acc !! t = Some m \/ exists k, (k, t) ∈ refreshable /\ metadata_of metadataMap k = Some m).
  { by destruct (Hgen ∅ Hm) as [?%lookup_empty_Some|]. }
  clear Hm. induction refreshable as [|[k0 t0] l IH]; intros acc; cbn [foldl]; [by left|].
  intros [Ha|(k & Hk & Hm)]%IH; [|right; exists k; split; [by right|done]].
  unfold add_metadata in Ha. cbn [fst snd] in Ha. destruct (metadata_of metadataMap k0) as [m0|] eqn:E0; [|by left].
  case_bool_decide; [by left|]. apply lookup_insert_Some in Ha as [[-> ->]|[_ Ha]]; [|by left].
  right. exists k0. split; [by left|done].
Qed.

Lemma model_provider_refresh_key k t metadata access :
  sm_sourceType metadata = FromModelProvider ->
  is_Some (refreshableRuntimeSecretNameForSource k t metadata access) -> isModelProviderRefreshProviderKey t = true.
Proof.
  unfold refreshableRuntimeSecretNameForSource, modelProviderRuntimeSecretName, isModelProviderRefreshProviderKey.
  intros -> [n Hn]. apply bool_decide_eq_true_2. destruct (getModelProviderRefreshMetadata t); [by eauto|done].
Qed.

(** The metadata key of a refreshable model provider is never missing. *)
Lemma lookup_args_key map metadataMap access keys context t :
  (forall k m, metadata_of metadataMap k = Some m -> sm_metadataKey m <> Some []) ->
  bc_metadataByConnector context = buildMetadataByConnector (buildRefreshableMap map metadataMap access keys) metadataMap ->
  t ∈ (buildRefreshableMap map metadataMap access keys).*2 ->
  tl_sourceType (lookup_args context t) = FromModelProvider ->
  truthy_text (tl_metadataKey (lookup_args context t)) <> None.
Proof.
  intros Hne Hbc ([k t'] & -> & Hk)%list_elem_of_fmap Hs. cbn [snd] in *.
  destruct (refreshable_elem _ _ _ _ _ _ Hk) as [Ht _]. unfold lookup_args in *.
  cbn [tl_sourceType tl_metadataKey] in *. rewrite Hbc in *.
  destruct (buildMetadataByConnector _ _ !! t') as [m|] eqn:Em; revert Hs; unfold resolveRefreshMetadata.
  - destruct (metadata_elem _ _ _ _ Em) as (k0 & Hk0 & Hm). destruct (refreshable_elem _ _ _ _ _ _ Hk0) as [_ Hr].
    rewrite Hm in Hr. destruct (sm_sourceType m) eqn:Es; cbn [sm_sourceType]; [done|]. intros _.
    apply model_provider_refresh_key in Hr; [|unfold resolveRefreshMetadata; by rewrite Es].
    cbn [sm_metadataKey mbind option_bind]. pose proof (Hne _ _ Hm) as Hkey.
    destruct (sm_metadataKey m) as [[|]|]; [done|done|]. unfold modelProviderTypeForRefreshProviderKey.
    rewrite Hr. by destruct t'.
  - unfold getRefreshProviderKeySourceType. destruct (isModelProviderRefreshProviderKey t') eqn:Er; [|done].
    intros _. cbn. unfold modelProviderTypeForRefreshProviderKey. rewrite Er. by destruct t'.
Qed.

Lemma refreshSelectedTokens_total `{!StoredCipherLaws} env context types secrets d :
  (forall t, t ∈ types -> tl_sourceType (lookup_args context t) = FromModelProvider ->
     truthy_text (tl_metadataKey (lookup_args context t)) <> None) ->
  exists r, refreshSelectedTokens env context types secrets d = Ok r.
Proof.
  revert secrets d. induction types as [|t types IH]; intros secrets d Ht; cbn [refreshSelectedTokens]; [by eexists|].
  destruct (refresh_selected env context t secrets d) as [[[r secrets1] d1]|msg] eqn:E; cbn [mbind result_bind].
  - destruct (IH secrets1 d1) as [[[rs secrets2] d2] ->]; [set_solver|]. by eexists.
  - exfalso. unfold refresh_selected in E.
    edestruct refreshAccessTokenForSource_total as [[[r d1] secrets1] Hq];
      [|by rewrite Hq in E]. cbn [ta_lookup]. apply Ht. set_solver.
Qed.

(** The handler always answers. Whatever the store, the providers and concurrent
    requests do, no internal error of the token refresh escapes, as long as no metadata
    key of the request is the empty text. *)
Theorem resolveFirewallAuth_total `{!StoredCipherLaws} now dbNow env decrypt auth body w s d :
  (forall k m, metadata_of (fb_secretConnectorMetadataMap body) k = Some m -> sm_metadataKey m <> Some []) ->
  exists r, resolveFirewallAuth now dbNow env decrypt auth body w s d = Ok r.
Proof.
  intros Hne. unfold resolveFirewallAuth.
  destruct (decryptFirewallAuthSecrets _ _ _ _) as [|[orgId [decrypted|]]]; [by eexists| |by eexists].
  destruct (prepareFirewallAuthResolutionContext _ _ _ _ _ _) as [|[context secrets]]; [by eexists|].
  destruct (resolveBillableFirewallCacheExpiry _ _ _ _) as [|lease]; [by eexists|].
  destruct (fb_secretConnectorMap body) as [map|]; [|by eexists]. unfold refreshExpiredTokens. cbn [xa_auth xa_orgId
    xa_secretConnectorMap xa_secretConnectorMetadataMap xa_referencedKeys xa_connectorAccessByType xa_forceRefresh
    xa_forceRefreshStartedAtMicros].
  case_bool_decide; [by eexists|].
  match goal with |- context [refreshSelectedTokens env ?c ?ts secrets d] =>
    destruct (refreshSelectedTokens_total env c ts secrets d) as [[[rs secrets'] d'] ->] end.
  - intros t [_ Ht]%list_elem_of_filter. apply Templates.elem_of_set_add_all in Ht as [Ht|Ht%elem_of_nil]; [|done].
    by eapply lookup_args_key.
  - cbn [mbind result_bind]. destruct (if bool_decide _ then _ else _) as [m1 m2].
    destruct (syncSkippedTokens _ _ _ _ _) as [rs' secrets'']. by eexists.
Qed.

End Correctness.

(** ** Concrete requests *)

#[local] Existing Instance sample_tables.
#[local] Existing Instance sample_cipher.
#[local] Existing Instance sample_cipher_laws.

Definition sample_auth : SandboxAuth := {| sb_userId := js "user"; sb_orgId := js "org"; sb_runId := js "run" |}.

Definition sample_body : FirewallAuthBody := {|
  fb_encryptedSecrets := []; fb_authHeaders := [(js "Authorization", js "Bearer ${{ secrets.NOTION_TOKEN }}")];
  fb_authBase := None; fb_authQuery := None; fb_authAwsSigv4 := None;
  fb_secretConnectorMap := Some [(js "NOTION_TOKEN", js "notion")]; fb_secretConnectorMetadataMap := None;
  fb_vars := None; fb_firewallBillable := true; fb_forceRefresh := false |}.

Definition sample_env : Environment := {|
  ev_clock := fun _ => sample_clock 1001; ev_dbNow := fun _ => 1000000000; ev_others := fun _ => id;
  ev_provider := fun _ => sample_provider |}.

Definition sample_world : RunStore.World := {|
  RunStore.agentRuns := {[ js "run" := {|
    RunStore.run_userId := js "user"; RunStore.run_orgId := js "org"; RunStore.run_status := RunStore.Running;
    RunStore.run_createdAt := 0; RunStore.run_startedAt := None; RunStore.run_completedAt := None;
    RunStore.run_lastHeartbeatAt := None; RunStore.run_runnerGroup := None; RunStore.run_sandboxId := None;
    RunStore.run_error := None; RunStore.run_lastEventSequence := None; RunStore.run_composeName := None;
    RunStore.run_result := None; RunStore.run_sandboxReuseResult := None |} ]};
  RunStore.agentRunQueue := []; RunStore.runnerJobQueue := ∅; RunStore.orgTiers := ∅; RunStore.chatMessages := [];
  RunStore.nextId := 0; RunStore.outbox := [] |}.

Definition sample_credits : Credits.Store := {|
  Credits.orgs := {[ js "org" := {| Credits.o_credits := 500; Credits.o_tier := js "pro";
    Credits.o_stripeCustomerId := None; Credits.o_stripeSubscriptionId := None; Credits.o_autoRechargeEnabled := false;
    Credits.o_autoRechargeThreshold := None; Credits.o_autoRechargeAmount := None;
    Credits.o_autoRechargePendingAt := None |} ]};
  Credits.expires := []; Credits.events := []; Credits.pricing := []; Credits.invoices := [] |}.

Definition sample_run (body : FirewallAuthBody) : result (ResolveFirewallAuthResult * AuthDb) :=
  resolveFirewallAuth 1000500 1000000000 sample_env (fun _ => Some [(js "NOTION_TOKEN", js "stale")]) sample_auth body
    sample_world sample_credits sample_store.

Definition sample_answer (body : FirewallAuthBody) : option ResolveFirewallAuthResult :=
  match sample_run body with Ok (r, _) => Some r | Throw _ => None end.

(** The token is about to expire: it is refreshed, and the low credits give a short lease. *)
Definition sample_resolved : ResolveBody := {|
  vb_headers := [(js "Authorization", js "Bearer new")]; vb_base := None; vb_query := None; vb_awsSigv4 := None;
  vb_expiresAt := Some 1005; vb_resolvedSecrets := [js "NOTION_TOKEN"]; vb_refreshedConnectors := [js "notion"];
  vb_refreshedSecrets := [js "NOTION_TOKEN"] |}.

Example sample_answer_ok : sample_answer sample_body = Some (Resolved sample_resolved).
Proof. vm_compute. reflexivity. Qed.

Lemma resolveFirewallAuth_sound_witness : lease_ok 1000500 (js "org") sample_credits (Some 1005).
Proof.
  pose proof sample_answer_ok as Ha. unfold sample_answer in Ha.
  destruct (sample_run sample_body) as [[r d']|msg] eqn:Er; [|discriminate]. apply (inj Some) in Ha. subst r.
  destruct (resolveFirewallAuth_sound _ _ _ _ _ _ _ _ _ _ _ Er) as (_ & _ & _ & Hlease). exact (Hlease eq_refl).
Defined.

(** A connector with a static token: the value of the request is replaced. *)
Definition sample_static : gmap jsstr ConnectorAccessState := {[ js "notion" := {|
  ca_authMethod := js "api-key"; ca_accessMetadata := AccessStatic; ca_runtimeMetadata := sample_bindings;
  ca_state := {| ss_tokenExpiresAt := None; ss_needsReconnect := false |} |} ]}.

Lemma syncStoredConnectorRuntimeSecrets_spec_witness :
  rec_own (syncStoredConnectorRuntimeSecrets (js "org") (js "user") (fb_secretConnectorMap sample_body) None
    [js "NOTION_TOKEN"] sample_static sample_store [(js "NOTION_TOKEN", js "stale")]) (js "NOTION_TOKEN") =
  Some (js "old").
Proof.
  rewrite (syncStoredConnectorRuntimeSecrets_spec (js "org") (js "user") (fb_secretConnectorMap sample_body) None
    [js "NOTION_TOKEN"] sample_static sample_store [(js "NOTION_TOKEN", js "stale")] (js "NOTION_TOKEN"))
    by discriminate.
  vm_compute. reflexivity.
Defined.

Lemma resolveFirewallAuth_total_witness : exists r, sample_run sample_body = Ok r.
Proof. apply resolveFirewallAuth_total. intros k m Hm. discriminate Hm. Defined.

End FirewallAuth.
