(* ===== verification/Automations.v ===== *)
(** Time triggers of automations
    (turbo/apps/api/src/signals/services/automations/time-trigger.ts,
    trigger-poller.ts, default-interpreter.ts, and the completion callback in
    routes/internal-callbacks-trigger.ts): scheduling, the optimistic claim, the
    poller's tick and failure accounting. The cron library is a parameter. *)

From S2P Require Import Prelude JsString RunStore.
Import RunStore.

Module Automations.

(** ** Data *)

Inductive TriggerKind := KWebhook | KCron | KOnce | KLoop.
#[export] Instance trigger_kind_eq_dec : EqDecision TriggerKind.
Proof. solve_decision. Defined.

Record TriggerRow := {
  tr_id : jsstr;
  tr_automationId : jsstr;
  tr_kind : TriggerKind;
  tr_cronExpression : option jsstr;
  tr_intervalSeconds : option Z;
  tr_timezone : jsstr;
  tr_enabled : bool;
  tr_nextRunAt : option Z;
  tr_lastRunAt : option Z;
  tr_lastRunId : option jsstr;
  tr_consecutiveFailures : Z;
  tr_updatedAt : Z;
}.

Record AutomationRow := {
  au_id : jsstr;
  au_agentId : jsstr;
  au_orgId : jsstr;
  au_userId : jsstr;
  au_chatThreadId : jsstr;
  au_name : jsstr;
  au_description : option jsstr;
  au_instruction : jsstr;
  au_appendSystemPrompt : option jsstr;
  au_enabled : bool;
}.

(** The trigger rows in storage order, and the automations by key. *)
(** The model a run was created with: the columns of [zero_runs] that the poller sets. *)
Record ModelContext := {
  mc_modelProvider : option jsstr; mc_modelProviderId : option jsstr; mc_credentialScope : option jsstr;
  mc_selectedModel : option jsstr }.

Record AutoState := {
  triggers : list TriggerRow;
  automations : gmap jsstr AutomationRow;
  zeroRuns : gmap jsstr ModelContext;
}.

Definition with_triggers (f : list TriggerRow -> list TriggerRow) (s : AutoState) : AutoState :=
  {| triggers := f (triggers s); automations := automations s; zeroRuns := zeroRuns s |}.

Definition with_zero_runs (z : gmap jsstr ModelContext) (s : AutoState) : AutoState :=
  {| triggers := triggers s; automations := automations s; zeroRuns := z |}.

(** [UPDATE automation_triggers SET f WHERE id = .. AND guard] *)
Definition update_trigger (id : jsstr) (guard : TriggerRow -> bool) (f : TriggerRow -> TriggerRow) :
    AutoState -> AutoState :=
  with_triggers (fmap (fun t => if bool_decide (tr_id t = id) && guard t then f t else t)).

Definition find_trigger (s : AutoState) (id : jsstr) : option TriggerRow :=
  match list_find (fun t => tr_id t = id) (triggers s) with Some (_, t) => Some t | None => None end.

(** The cron library: the next occurrence of an expression after an instant. *)
Class CronLib := { cron_nextRun : jsstr -> jsstr -> Z -> option Z }.

(** Documented behaviour: the next run is later than the start of the search. *)
Class CronLaws `{CronLib} : Prop := {
  cron_later e tz t u : cron_nextRun e tz t = Some u -> t < u;
}.

(** A string column is used when it is present and not empty. *)
Definition nonempty (s : option jsstr) : option jsstr := match s with Some [] => None | x => x end.

(** ** The interpreter *)

Definition LF : jsstr := [10].

Definition kind_text (manual : bool) (k : TriggerKind) : jsstr :=
  if manual then js "manual"
  else match k with KWebhook => js "webhook" | KCron => js "cron" | KOnce => js "once" | KLoop => js "loop" end.

Definition buildAutomationPrompt (triggerType : jsstr) : jsstr :=
  join LF [js "# Current Integration"; js "You are currently running inside: Automation";
           js "Trigger type: " ++ triggerType].

Definition buildAutomationAppendSystemPrompt (triggerType : jsstr) (appendSystemPrompt : option jsstr) : jsstr :=
  let integrationContext :=
    join LF [buildAutomationPrompt triggerType; [];
             js "This automated run is linked to a web chat thread. Everything you output is automatically shown to the user as a chat message in that thread."] in
  match nonempty appendSystemPrompt with
  | Some p => integrationContext ++ LF ++ LF ++ p
  | None => integrationContext
  end.

Inductive RunCallback :=
| CallbackLoop (triggerId : jsstr)
| CallbackCron (triggerId : jsstr) (cronExpression : option jsstr) (timezone : jsstr)
| CallbackChat (threadId agentId : jsstr).

Definition buildTriggerCallbacks (a : AutomationRow) (t : TriggerRow) : list RunCallback :=
  match tr_kind t with
  | KLoop => [CallbackLoop (tr_id t)]
  | KCron | KOnce => [CallbackCron (tr_id t) (nonempty (tr_cronExpression t)) (tr_timezone t)]
  | KWebhook => []
  end ++ [CallbackChat (au_chatThreadId a) (au_agentId a)].

Inductive TriggerEvent :=
| EventWebhook (triggerId renderedPayload : jsstr)
| EventTime (t : TriggerRow)
| EventManual.

Record ZeroRunInput := {
  ri_prompt : jsstr;
  ri_agentId : jsstr;
  ri_chatThreadId : jsstr;
  ri_appendSystemPrompt : jsstr;
  ri_callbacks : list RunCallback;
  ri_automationId : jsstr;
  ri_triggerId : option jsstr;
}.

(** The request of a webhook is printed as JSON by the runtime before it is placed in
    the prompt. *)
Definition buildWebhookAppendSystemPrompt (payload : jsstr) : jsstr :=
  join LF [js "# Current Integration"; js "You are currently running inside: Webhook automation"; [];
           js "This automation was fired by an inbound webhook. The request that triggered it is below as JSON (request headers and body)."; [];
           js "```json"; payload; js "```"; [];
           js "This run is linked to a web chat thread. Everything you output is automatically shown to the user as a chat message in that thread."].

Definition interpret (a : AutomationRow) (event : TriggerEvent) : ZeroRunInput :=
  let input append callbacks triggerId :=
    {| ri_prompt := au_instruction a; ri_agentId := au_agentId a; ri_chatThreadId := au_chatThreadId a;
       ri_appendSystemPrompt := append; ri_callbacks := callbacks; ri_automationId := au_id a;
       ri_triggerId := triggerId |} in
  match event with
  | EventWebhook triggerId payload =>
      input (buildWebhookAppendSystemPrompt payload) [CallbackChat (au_chatThreadId a) (au_agentId a)] (Some triggerId)
  | EventManual =>
      input (buildAutomationAppendSystemPrompt (kind_text true KWebhook) (au_appendSystemPrompt a))
        [CallbackChat (au_chatThreadId a) (au_agentId a)] None
  | EventTime t =>
      input (buildAutomationAppendSystemPrompt (kind_text false (tr_kind t)) (au_appendSystemPrompt a))
        (buildTriggerCallbacks a t) (Some (tr_id t))
  end.

(** ** Scheduling *)

Section WithCron.
Context `{CronLib}.

Definition calculateNextRun (cronExpression timezone : jsstr) (fromDate : Z) : option Z :=
  cron_nextRun cronExpression timezone fromDate.

Record TriggerSpec := {
  sp_cronExpression : option jsstr;
  sp_atTime : option Z;
  sp_timezone : jsstr;
  sp_enabled : bool;
}.

Record ResolvedTrigger := { rt_triggerType : TriggerKind; rt_nextRunAt : option Z }.

Definition resolve (spec : TriggerSpec) (currentTime : Z) : ResolvedTrigger :=
  match nonempty (sp_cronExpression spec) with
  | Some e => {| rt_triggerType := KCron; rt_nextRunAt := calculateNextRun e (sp_timezone spec) currentTime |}
  | None =>
      match sp_atTime spec with
      | Some t => {| rt_triggerType := KOnce; rt_nextRunAt := Some t |}
      | None => {| rt_triggerType := KLoop;
                   rt_nextRunAt := if sp_enabled spec then Some currentTime else None |}
      end
  end.

(** [isCron] is the payload's trigger type. *)
Definition advanceAfterCompletion (isCron : bool) (cronExpression : option jsstr) (intervalSeconds : option Z)
    (timezone : jsstr) (completedAt : Z) (shouldDisable : bool) : result (option Z) :=
  if shouldDisable then Ok None
  else if isCron then
    Ok (match nonempty cronExpression with
        | Some e => calculateNextRun e timezone completedAt
        | None => None
        end)
  else match intervalSeconds with
       | None => Throw (js "Loop trigger is missing intervalSeconds")
       | Some n => Ok (Some (completedAt + n * 1000))
       end.

Definition nextTriggerRun (trigger : TriggerRow) (fromDate : Z) : option Z :=
  match tr_kind trigger, nonempty (tr_cronExpression trigger), tr_intervalSeconds trigger with
  | KCron, Some e, _ => calculateNextRun e (tr_timezone trigger) fromDate
  | KLoop, _, Some n => if n =? 0 then None else Some (fromDate + n * 1000)
  | _, _, _ => None
  end.

Definition advanceTriggerAfterPreRunFailure (trigger : TriggerRow) (failureTime : Z) (shouldDisable : bool) :
    option Z :=
  if shouldDisable then None else nextTriggerRun trigger failureTime.

(** The columns the claim writes. *)
Definition claimed_row (currentTime : Z) (once : bool) (t : TriggerRow) : TriggerRow :=
  {| tr_id := tr_id t; tr_automationId := tr_automationId t; tr_kind := tr_kind t;
     tr_cronExpression := tr_cronExpression t; tr_intervalSeconds := tr_intervalSeconds t;
     tr_timezone := tr_timezone t; tr_enabled := if once then false else tr_enabled t;
     tr_nextRunAt := None; tr_lastRunAt := Some currentTime; tr_lastRunId := tr_lastRunId t;
     tr_consecutiveFailures := tr_consecutiveFailures t; tr_updatedAt := currentTime |}.

Definition claim_guard (trigger t : TriggerRow) : bool :=
  match tr_nextRunAt trigger with
  | Some n => bool_decide (tr_nextRunAt t = Some n)
  | None => false
  end.

(** The claimed row, or [None] when the row's next run moved. *)
Definition evaluateTrigger (trigger : TriggerRow) (currentTime : Z) (s : AutoState) :
    option TriggerRow * AutoState :=
  let once := bool_decide (tr_kind trigger = KOnce) in
  match find_trigger s (tr_id trigger) with
  | Some t =>
      if claim_guard trigger t
      then (Some (claimed_row currentTime once t),
            update_trigger (tr_id trigger) (claim_guard trigger) (claimed_row currentTime once) s)
      else (None, s)
  | None => (None, s)
  end.

(** ** The poller *)

Definition MAX_CONSECUTIVE_FAILURES : Z := 3.
Definition DUE_BATCH_LIMIT : nat := 200.

Record DueTrigger := { due_trigger : TriggerRow; due_automation : AutomationRow }.

Inductive RunTriggerFailure :=
| TriggerNotFound (message : jsstr)
| TriggerConflict (message : jsstr)
| TriggerRunError (code message : jsstr).

Inductive RunTriggerNowResult := TriggerOk (runId : jsstr) | TriggerFailed (f : RunTriggerFailure).

Definition isActivePreviousRunStatus (s : RunStatus) : bool :=
  bool_decide (s = Pending) || bool_decide (s = Running).

Definition previous_run_active (w : World) (t : TriggerRow) : bool :=
  match nonempty (tr_lastRunId t) with
  | Some id => match agentRuns w !! id with
               | Some r => isActivePreviousRunStatus (run_status r)
               | None => false
               end
  | None => false
  end.

(** The columns a failure writes. *)
Definition failed_row (count : Z) (disable : bool) (next : option Z) (time : Z) (t : TriggerRow) : TriggerRow :=
  {| tr_id := tr_id t; tr_automationId := tr_automationId t; tr_kind := tr_kind t;
     tr_cronExpression := tr_cronExpression t; tr_intervalSeconds := tr_intervalSeconds t;
     tr_timezone := tr_timezone t; tr_enabled := if disable then false else tr_enabled t;
     tr_nextRunAt := next; tr_lastRunAt := tr_lastRunAt t; tr_lastRunId := tr_lastRunId t;
     tr_consecutiveFailures := count; tr_updatedAt := time |}.

Definition recordTriggerPreRunFailure (failureTime : Z) (due : DueTrigger) (s : AutoState) : AutoState :=
  let trigger := due_trigger due in
  let newFailureCount := tr_consecutiveFailures trigger + 1 in
  let shouldDisable := MAX_CONSECUTIVE_FAILURES <=? newFailureCount in
  update_trigger (tr_id trigger) (fun _ => true)
    (failed_row newFailureCount shouldDisable
       (advanceTriggerAfterPreRunFailure trigger failureTime shouldDisable) failureTime) s.

Definition set_lastRunId (id : jsstr) (t : TriggerRow) : TriggerRow :=
  {| tr_id := tr_id t; tr_automationId := tr_automationId t; tr_kind := tr_kind t;
     tr_cronExpression := tr_cronExpression t; tr_intervalSeconds := tr_intervalSeconds t;
     tr_timezone := tr_timezone t; tr_enabled := tr_enabled t; tr_nextRunAt := tr_nextRunAt t;
     tr_lastRunAt := tr_lastRunAt t; tr_lastRunId := Some id;
     tr_consecutiveFailures := tr_consecutiveFailures t; tr_updatedAt := tr_updatedAt t |}.

(** ** The services the poller calls *)

(** Model resolution, run creation and the chat message are other services; each may
    throw. The poller's theorems hold for every choice of them. *)
Record RunServices := {
  resolveTriggerRunModelContext : AutomationRow -> World -> result (RunTriggerFailure + ModelContext);
  createZeroRun : AutomationRow -> ZeroRunInput -> ModelContext -> World -> gmap jsstr ModelContext ->
    result ((jsstr * jsstr) + (jsstr * RunStatus)) * World * gmap jsstr ModelContext;
  postAutomationUserMessage : AutomationRow -> jsstr -> jsstr -> bool -> World -> result World;
}.

(** [UPDATE zero_runs SET .. WHERE id = ..]. *)
Definition record_model (runId : jsstr) (modelContext : ModelContext) : gmap jsstr ModelContext -> gmap jsstr ModelContext :=
  alter (fun _ => modelContext) runId.

(** A failed creation carries its error code and message, a created run its key and
    status. *)
Definition runTriggerNow (services : RunServices) (due : DueTrigger) (w : World) (s : AutoState) :
    result RunTriggerNowResult * World * AutoState :=
  let trigger := due_trigger due in
  let automation := due_automation due in
  if previous_run_active w trigger
  then (Ok (TriggerFailed (TriggerConflict (js "Previous run is still active"))), w, s)
  else
    match resolveTriggerRunModelContext services automation w with
    | Throw e => (Throw e, w, s)
    | Ok (inl failure) => (Ok (TriggerFailed failure), w, s)
    | Ok (inr modelContext) =>
        let runInput := interpret automation (EventTime trigger) in
        match createZeroRun services automation runInput modelContext w (zeroRuns s) with
        | (Throw e, w1, z1) => (Throw e, w1, with_zero_runs z1 s)
        | (Ok (inl (code, message)), w1, z1) => (Ok (TriggerFailed (TriggerRunError code message)), w1, with_zero_runs z1 s)
        | (Ok (inr (runId, status)), w1, z1) =>
            match postAutomationUserMessage services automation runId (ri_prompt runInput)
                    (bool_decide (status = Queued)) w1 with
            | Throw e => (Throw e, w1, with_zero_runs z1 s)
            | Ok w2 =>
                (Ok (TriggerOk runId), w2,
                 update_trigger (tr_id trigger) (fun _ => true) (set_lastRunId runId)
                   (with_zero_runs (record_model runId modelContext z1) s))
            end
        end
    end.

Definition TIME_TRIGGER_KINDS : list TriggerKind := [KCron; KOnce; KLoop].

(** The join and filter of the due scan; the database picks the batch in storage
    order. *)
Definition is_due (currentTime : Z) (s : AutoState) (t : TriggerRow) : option DueTrigger :=
  match automations s !! tr_automationId t with
  | Some a =>
      if au_enabled a && tr_enabled t && bool_decide (tr_kind t ∈ TIME_TRIGGER_KINDS) &&
         match tr_nextRunAt t with Some n => n <=? currentTime | None => false end
      then Some {| due_trigger := t; due_automation := a |} else None
  | None => None
  end.

Definition dueTriggers (currentTime : Z) (s : AutoState) : list DueTrigger :=
  take DUE_BATCH_LIMIT (omap (is_due currentTime s) (triggers s)).

Record TickCounts := {
  executed : nat;
  skippedActiveRun : nat;
  skippedClaimRace : nat;
  preRunFailures : nat;
}.

Definition no_counts : TickCounts :=
  {| executed := 0; skippedActiveRun := 0; skippedClaimRace := 0; preRunFailures := 0 |}.

Definition count_executed (c : TickCounts) : TickCounts :=
  {| executed := S (executed c); skippedActiveRun := skippedActiveRun c;
     skippedClaimRace := skippedClaimRace c; preRunFailures := preRunFailures c |}.
Definition count_active (c : TickCounts) : TickCounts :=
  {| executed := executed c; skippedActiveRun := S (skippedActiveRun c);
     skippedClaimRace := skippedClaimRace c; preRunFailures := preRunFailures c |}.
Definition count_race (c : TickCounts) : TickCounts :=
  {| executed := executed c; skippedActiveRun := skippedActiveRun c;
     skippedClaimRace := S (skippedClaimRace c); preRunFailures := preRunFailures c |}.
Definition count_failure (c : TickCounts) : TickCounts :=
  {| executed := executed c; skippedActiveRun := skippedActiveRun c;
     skippedClaimRace := skippedClaimRace c; preRunFailures := S (preRunFailures c) |}.

(** One iteration of the loop over the due rows. [failureTime] is the clock read
    when the failure of a row is recorded. *)
Definition tickRow (services : RunServices) (failureTime : DueTrigger -> Z) (currentTime : Z) (due : DueTrigger)
    (acc : TickCounts * World * AutoState) : TickCounts * World * AutoState :=
  let '(c, w, s) := acc in
  if previous_run_active w (due_trigger due) then (count_active c, w, s)
  else
    match evaluateTrigger (due_trigger due) currentTime s with
    | (None, s1) => (count_race c, w, s1)
    | (Some _, s1) =>
        match runTriggerNow services due w s1 with
        | (Ok (TriggerOk _), w2, s2) => (count_executed c, w2, s2)
        | (_, w2, s2) => (count_failure c, w2, recordTriggerPreRunFailure (failureTime due) due s2)
        end
    end.

Fixpoint tickLoop (services : RunServices) (failureTime : DueTrigger -> Z) (currentTime : Z)
    (rows : list DueTrigger) (acc : TickCounts * World * AutoState) : TickCounts * World * AutoState :=
  match rows with
  | [] => acc
  | due :: rows' => tickLoop services failureTime currentTime rows' (tickRow services failureTime currentTime due acc)
  end.

Record ExecuteDueTriggersResult := { res_executed : nat; res_skipped : nat }.

Definition executeDueTriggers (services : RunServices) (failureTime : DueTrigger -> Z) (currentTime : Z)
    (w : World) (s : AutoState) : ExecuteDueTriggersResult * World * AutoState :=
  let '(c, w', s') := tickLoop services failureTime currentTime (dueTriggers currentTime s) (no_counts, w, s) in
  ({| res_executed := executed c;
      res_skipped := skippedActiveRun c + skippedClaimRace c + preRunFailures c |}, w', s').

(** ** The completion callback *)

Inductive CallbackStatus := CbProgress | CbCompleted | CbFailed.

Record TriggerPayload := {
  pl_isCron : bool;
  pl_triggerId : jsstr;
  pl_cronExpression : option jsstr;
}.

(** [None] is an invalid payload; [true] is a skipped callback. *)
Definition triggerCallback (payload : option TriggerPayload) (status : CallbackStatus) (completedAt : Z)
    (s : AutoState) : result (option bool) * AutoState :=
  match payload with
  | None => (Ok None, s)
  | Some payload =>
      match status with
      | CbProgress => (Ok (Some true), s)
      | _ =>
          match find_trigger s (pl_triggerId payload) with
          | None => (Ok (Some true), s)
          | Some trigger =>
              if negb (tr_enabled trigger) then (Ok (Some true), s)
              else
                let consecutiveFailures :=
                  match status with CbCompleted => 0 | _ => tr_consecutiveFailures trigger + 1 end in
                let shouldDisable := MAX_CONSECUTIVE_FAILURES <=? consecutiveFailures in
                match advanceAfterCompletion (pl_isCron payload)
                        (if pl_isCron payload then pl_cronExpression payload else None)
                        (tr_intervalSeconds trigger) (tr_timezone trigger) completedAt shouldDisable with
                | Throw e => (Throw e, s)
                | Ok nextRunAt =>
                    (Ok (Some false),
                     update_trigger (pl_triggerId payload) (fun _ => true)
                       (failed_row consecutiveFailures shouldDisable nextRunAt completedAt) s)
                end
          end
      end
  end.

End WithCron.

(** ** Rows and updates *)

Lemma find_trigger_Some s id t : find_trigger s id = Some t -> t ∈ triggers s /\ tr_id t = id.
Proof.
  unfold find_trigger. destruct (list_find _ _) as [[i u]|] eqn:E; [|done].
  intros [= ->]. apply list_find_Some in E as (Hi & Hid & _). split; [|done].
  by apply list_elem_of_lookup_2 in Hi.
Qed.

Lemma find_trigger_update s id g f t :
  (forall u, tr_id (f u) = tr_id u) -> find_trigger s id = Some t ->
  find_trigger (update_trigger id g f s) id = Some (if g t then f t else t).
Proof.
  intros Hf. unfold find_trigger, update_trigger, with_triggers. simpl. generalize (triggers s).
  intros l. induction l as [|u l IH]; [done|]. csimpl.
  destruct (decide (tr_id u = id)) as [Hu|Hu].
  - intros [= ->]. rewrite bool_decide_true by done. simpl.
    destruct (g t); rewrite decide_True by (rewrite ?Hf; done); done.
  - rewrite bool_decide_false by done. csimpl. rewrite decide_False by done.
    destruct (list_find _ l) as [[i v]|]; [|done]. csimpl. intros [= ->].
    specialize (IH eq_refl). destruct (list_find _ (_ <$> l)) as [[j v']|]; [|done]. simpl in *.
    by injection IH as ->.
Qed.

Lemma find_trigger_unique s t :
  NoDup (tr_id <$> triggers s) -> t ∈ triggers s -> find_trigger s (tr_id t) = Some t.
Proof.
  unfold find_trigger. generalize (triggers s). intros l. induction l as [|u l IH]; [set_solver|].
  intros Hnd Ht. apply NoDup_cons in Hnd as [Hu Hnd]. simpl.
  destruct (decide (tr_id u = tr_id t)) as [E|E].
  - apply elem_of_cons in Ht as [->|Ht]; [done|]. exfalso. apply Hu. rewrite E.
    by apply list_elem_of_fmap_2.
  - apply elem_of_cons in Ht as [->|Ht]; [done|]. specialize (IH Hnd Ht).
    by destruct (list_find _ l) as [[i v]|].
Qed.

(** Replacing the row of one key by one value. *)
Definition replace_row (id : jsstr) (r : TriggerRow) (l : list TriggerRow) : list TriggerRow :=
  (fun t => if bool_decide (tr_id t = id) then r else t) <$> l.

Lemma update_trigger_replace s g f t :
  NoDup (tr_id <$> triggers s) -> t ∈ triggers s ->
  triggers (update_trigger (tr_id t) g f s) =
    replace_row (tr_id t) (if g t then f t else t) (triggers s).
Proof.
  intros Hnd Ht. simpl. unfold replace_row. apply list_fmap_ext. intros i u Hu.
  apply list_elem_of_lookup_2 in Hu. case_bool_decide as E; [|done]. simpl.
  enough (u = t) as -> by done.
  pose proof (find_trigger_unique s u Hnd Hu) as H1. rewrite E in H1.
  pose proof (find_trigger_unique s t Hnd Ht) as H2. congruence.
Qed.

Lemma replace_row_ids id r l : tr_id r = id -> tr_id <$> replace_row id r l = tr_id <$> l.
Proof.
  intros Hr. unfold replace_row. rewrite <- list_fmap_compose. apply list_fmap_ext.
  intros i t _. simpl. case_bool_decide; congruence.
Qed.

Lemma elem_of_replace_row id r l t : t ∈ l -> tr_id t = id -> r ∈ replace_row id r l.
Proof.
  intros Ht Hid. apply list_elem_of_fmap. exists t. split; [|done]. by rewrite bool_decide_true.
Qed.

Lemma elem_of_replace_other id r l t : t ∈ l -> tr_id t <> id -> t ∈ replace_row id r l.
Proof.
  intros Ht Hid. apply list_elem_of_fmap. exists t. split; [|done]. by rewrite bool_decide_false.
Qed.

Lemma replace_row_twice id r r' l :
  tr_id r = id -> replace_row id r' (replace_row id r l) = replace_row id r' l.
Proof.
  intros Hr. unfold replace_row. rewrite <- list_fmap_compose. apply list_fmap_ext.
  intros i t _. simpl. destruct (bool_decide (tr_id t = id)) eqn:E; [by rewrite bool_decide_true|by rewrite E].
Qed.

(** ** The claim *)

(** The optimistic lock admits one claimant. Of two invocations that read the
    same due row, the second finds the next run moved and gets nothing, whatever the
    clock; the winner's row has no next run, and a one-time trigger is disabled. *)
Theorem evaluateTrigger_exclusive (trigger claimed : TriggerRow) (t1 t2 : Z) (s s1 : AutoState) :
  evaluateTrigger trigger t1 s = (Some claimed, s1) ->
  evaluateTrigger trigger t2 s1 = (None, s1) /\
  find_trigger s1 (tr_id trigger) = Some claimed /\
  tr_nextRunAt claimed = None /\ tr_lastRunAt claimed = Some t1 /\
  (tr_kind trigger = KOnce -> tr_enabled claimed = false).
Proof.
  unfold evaluateTrigger. destruct (find_trigger s (tr_id trigger)) as [t|] eqn:Hf; [|done].
  destruct (claim_guard trigger t) eqn:Hg; [|done]. intros [= <- <-].
  pose proof (find_trigger_update s (tr_id trigger) (claim_guard trigger)
    (claimed_row t1 (bool_decide (tr_kind trigger = KOnce))) t (fun _ => eq_refl) Hf) as Hf1.
  rewrite Hg in Hf1. rewrite Hf1. unfold claim_guard at 1. simpl. split_and!; try done.
  - by destruct (tr_nextRunAt trigger).
  - intros ->. done.
Qed.

(** The run of a due row was created, with its message and its model; or something on the way
    failed, and [w'] and [z'] are the tables it left. *)
Inductive started (services : RunServices) (due : DueTrigger) (w : World) (z : gmap jsstr ModelContext) :
    jsstr -> World -> gmap jsstr ModelContext -> Prop :=
| run_started modelContext runId status w1 z1 w2 :
    resolveTriggerRunModelContext services (due_automation due) w = Ok (inr modelContext) ->
    createZeroRun services (due_automation due) (interpret (due_automation due) (EventTime (due_trigger due))) modelContext w z =
      (Ok (inr (runId, status)), w1, z1) ->
    postAutomationUserMessage services (due_automation due) runId
      (ri_prompt (interpret (due_automation due) (EventTime (due_trigger due)))) (bool_decide (status = Queued)) w1 = Ok w2 ->
    started services due w z runId w2 (record_model runId modelContext z1).

Inductive not_started (services : RunServices) (due : DueTrigger) (w : World) (z : gmap jsstr ModelContext) :
    World -> gmap jsstr ModelContext -> Prop :=
| no_model : (forall modelContext, resolveTriggerRunModelContext services (due_automation due) w <> Ok (inr modelContext)) ->
    not_started services due w z w z
| no_run modelContext r w1 z1 :
    resolveTriggerRunModelContext services (due_automation due) w = Ok (inr modelContext) ->
    createZeroRun services (due_automation due) (interpret (due_automation due) (EventTime (due_trigger due))) modelContext w z =
      (r, w1, z1) -> (forall run, r <> Ok (inr run)) ->
    not_started services due w z w1 z1
| no_message modelContext runId status w1 z1 e :
    resolveTriggerRunModelContext services (due_automation due) w = Ok (inr modelContext) ->
    createZeroRun services (due_automation due) (interpret (due_automation due) (EventTime (due_trigger due))) modelContext w z =
      (Ok (inr (runId, status)), w1, z1) ->
    postAutomationUserMessage services (due_automation due) runId
      (ri_prompt (interpret (due_automation due) (EventTime (due_trigger due)))) (bool_decide (status = Queued)) w1 = Throw e ->
    not_started services due w z w1 z1.

(** A run that starts links the trigger to it; otherwise the triggers are as before. *)
Lemma runTriggerNow_cases services due w s :
  previous_run_active w (due_trigger due) = false ->
  (exists runId w' z', started services due w (zeroRuns s) runId w' z' /\
     runTriggerNow services due w s =
       (Ok (TriggerOk runId), w', update_trigger (tr_id (due_trigger due)) (fun _ => true) (set_lastRunId runId) (with_zero_runs z' s))) \/
  (exists r w' z', not_started services due w (zeroRuns s) w' z' /\ (forall runId, r <> Ok (TriggerOk runId)) /\
     runTriggerNow services due w s = (r, w', with_zero_runs z' s)).
Proof.
  intros Ha. unfold runTriggerNow. rewrite Ha. assert (with_zero_runs (zeroRuns s) s = s) as Hz by by destruct s.
  destruct (resolveTriggerRunModelContext services (due_automation due) w) as [[failure|mc]|e] eqn:Em.
  - right. eexists _, w, (zeroRuns s). rewrite Hz. split; [apply no_model; intros ?; by rewrite Em|split; [|reflexivity]; done].
  - destruct (createZeroRun services _ _ mc w (zeroRuns s)) as [[[[[code message]|[runId status]]|e] w1] z1] eqn:Ec.
    + right. eexists _, w1, z1. split; [eapply no_run; [done|done|by intros]|split; [|reflexivity]; done].
    + destruct (postAutomationUserMessage services _ runId _ _ w1) as [w2|e] eqn:Ep.
      * left. eexists _, _, _. split; [by econstructor|done].
      * right. eexists _, w1, z1. split; [by eapply no_message|split; [|reflexivity]; done].
    + right. eexists _, w1, z1. split; [eapply no_run; [done|done|by intros]|split; [|reflexivity]; done].
  - right. eexists _, w, (zeroRuns s). rewrite Hz. split; [apply no_model; intros ?; by rewrite Em|split; [|reflexivity]; done].
Qed.

(** ** A tick of the poller *)

Section Tick.
Context `{CronLib} (services : RunServices) (failureTime : DueTrigger -> Z) (currentTime : Z).

(** What a tick makes of a row of its batch, in the tables [w] and [z] it finds: the previous run
    is active and the row is left alone; or it is not, and the run was created and linked; or
    it could not be, and the failure is recorded. The count is of the runs created. *)
Inductive tick_outcome (due : DueTrigger) (w : World) (z : gmap jsstr ModelContext) :
    nat -> World -> gmap jsstr ModelContext -> TriggerRow -> Prop :=
| outcome_active : previous_run_active w (due_trigger due) = true -> tick_outcome due w z 0 w z (due_trigger due)
| outcome_started runId w' z' : previous_run_active w (due_trigger due) = false -> started services due w z runId w' z' ->
    let t := due_trigger due in
    tick_outcome due w z 1 w' z' (set_lastRunId runId (claimed_row currentTime (bool_decide (tr_kind t = KOnce)) t))
| outcome_failed w' z' : previous_run_active w (due_trigger due) = false -> not_started services due w z w' z' ->
    let t := due_trigger due in
    let disable := MAX_CONSECUTIVE_FAILURES <=? tr_consecutiveFailures t + 1 in
    tick_outcome due w z 0 w' z'
      (failed_row (tr_consecutiveFailures t + 1) disable
         (advanceTriggerAfterPreRunFailure t (failureTime due) disable) (failureTime due)
         (claimed_row currentTime (bool_decide (tr_kind t = KOnce)) t)).

(** The rows of a batch one after the other, each in the tables the one before it left; with
    the rows they become and the number of runs created. *)
Inductive ticks : list DueTrigger -> World -> gmap jsstr ModelContext -> nat -> World -> gmap jsstr ModelContext -> list TriggerRow -> Prop :=
| ticks_done w z : ticks [] w z 0 w z []
| ticks_row due rows w z n w1 z1 t' m w2 z2 rows' :
    tick_outcome due w z n w1 z1 t' -> ticks rows w1 z1 m w2 z2 rows' -> ticks (due :: rows) w z (n + m) w2 z2 (t' :: rows').

Lemma tick_outcome_id due w z n w' z' t' : tick_outcome due w z n w' z' t' -> tr_id t' = tr_id (due_trigger due).
Proof. by destruct 1. Qed.

Definition total (c : TickCounts) : nat :=
  (executed c + (skippedActiveRun c + skippedClaimRace c + preRunFailures c))%nat.

Lemma evaluateTrigger_current t s :
  NoDup (tr_id <$> triggers s) -> t ∈ triggers s -> tr_nextRunAt t <> None ->
  let r := claimed_row currentTime (bool_decide (tr_kind t = KOnce)) t in
  exists s1, evaluateTrigger t currentTime s = (Some r, s1) /\
    triggers s1 = replace_row (tr_id t) r (triggers s) /\ automations s1 = automations s /\ zeroRuns s1 = zeroRuns s.
Proof.
  intros Hnd Ht Hn r. unfold evaluateTrigger. rewrite (find_trigger_unique s t Hnd Ht).
  assert (claim_guard t t = true) as Hg.
  { unfold claim_guard. destruct (tr_nextRunAt t); [by apply bool_decide_eq_true|done]. }
  rewrite Hg. eexists. split; [done|]. split; [|done].
  rewrite update_trigger_replace by done. by rewrite Hg.
Qed.

(** The updates that follow a claim act on the claimed row. *)
Lemma update_claimed t r f s s1 :
  NoDup (tr_id <$> triggers s) -> t ∈ triggers s -> tr_id r = tr_id t -> tr_id (f r) = tr_id t ->
  triggers s1 = replace_row (tr_id t) r (triggers s) ->
  triggers (update_trigger (tr_id t) (fun _ => true) f s1) = replace_row (tr_id t) (f r) (triggers s).
Proof.
  intros Hnd Ht Hr Hfr E. rewrite <- Hr at 1. rewrite update_trigger_replace.
  - rewrite E, Hr. by apply replace_row_twice.
  - by rewrite E, replace_row_ids.
  - rewrite E. by eapply elem_of_replace_row.
Qed.

Lemma replace_row_same s t :
  NoDup (tr_id <$> triggers s) -> t ∈ triggers s -> replace_row (tr_id t) t (triggers s) = triggers s.
Proof.
  intros Hnd Ht. rewrite <- (list_fmap_id (triggers s)) at 2. apply list_fmap_ext.
  intros i u Hu%list_elem_of_lookup_2. simpl. case_bool_decide as E; [|done].
  pose proof (find_trigger_unique s u Hnd Hu) as H1. rewrite E in H1.
  pose proof (find_trigger_unique s t Hnd Ht). congruence.
Qed.

Lemma tickRow_spec due c w s :
  let t := due_trigger due in
  NoDup (tr_id <$> triggers s) -> t ∈ triggers s -> tr_nextRunAt t <> None ->
  exists c' w' s' r n,
    tickRow services failureTime currentTime due (c, w, s) = (c', w', s') /\
    total c' = S (total c) /\ executed c' = (executed c + n)%nat /\
    automations s' = automations s /\
    tick_outcome due w (zeroRuns s) n w' (zeroRuns s') r /\ triggers s' = replace_row (tr_id t) r (triggers s).
Proof.
  intros t Hnd Ht Hn. unfold tickRow. fold t.
  destruct (previous_run_active w t) eqn:Ha.
  { exists (count_active c), w, s, t, 0%nat. split_and!; try done; try (unfold total; simpl; lia).
    - by apply outcome_active.
    - by rewrite replace_row_same. }
  destruct (evaluateTrigger_current t s Hnd Ht Hn) as (s1 & -> & E & Ea & Ez).
  set (r := claimed_row _ _ _) in *.
  destruct (runTriggerNow_cases services due w s1 Ha) as [(runId & w1 & z1 & Hst & ->)|(res & w1 & z1 & Hst & Hno & ->)]; rewrite Ez in Hst.
  - eexists (count_executed c), w1, _, _, 1%nat. split; [done|]. split_and!; try done; try (simpl; lia).
    + by apply outcome_started.
    + by apply (update_claimed t r).
  - eexists (count_failure c), w1, _, _, 0%nat. split; [destruct res as [[runId|]|]; [by destruct (Hno runId)|done..]|]. split_and!; try done; try (unfold total; simpl; lia).
    + by apply outcome_failed.
    + by apply (update_claimed t r).
Qed.

Definition in_batch (rows : list DueTrigger) (t : TriggerRow) : Prop := tr_id t ∈ (tr_id ∘ due_trigger) <$> rows.

(** The row of a batch that has the identifier of [t] became [t']. *)
Definition became (rows : list DueTrigger) (rows' : list TriggerRow) (t t' : TriggerRow) : Prop :=
  exists i d, rows !! i = Some d /\ due_trigger d = t /\ rows' !! i = Some t'.

Lemma tickLoop_spec rows c w s :
  NoDup (tr_id <$> triggers s) -> NoDup ((tr_id ∘ due_trigger) <$> rows) ->
  (forall d, d ∈ rows -> due_trigger d ∈ triggers s /\ tr_nextRunAt (due_trigger d) <> None) ->
  exists c' w' s' n rows',
    tickLoop services failureTime currentTime rows (c, w, s) = (c', w', s') /\
    total c' = (total c + length rows)%nat /\ executed c' = (executed c + n)%nat /\
    automations s' = automations s /\ ticks rows w (zeroRuns s) n w' (zeroRuns s') rows' /\
    Forall2 (fun t t' => (in_batch rows t -> became rows rows' t t') /\ (~ in_batch rows t -> t' = t))
      (triggers s) (triggers s').
Proof.
  revert c w s. induction rows as [|d rows IH]; intros c w s Hnd Hrows Hin.
  { exists c, w, s, 0%nat, []. split_and!; [done|simpl; lia|lia|done|constructor|]. apply Forall_Forall2_diag, Forall_true.
    intros t. unfold in_batch. rewrite fmap_nil. split; [set_solver|done]. }
  apply NoDup_cons in Hrows as [Hd Hrows].
  destruct (Hin d ltac:(set_solver)) as [Ht Hn].
  destruct (tickRow_spec d c w s Hnd Ht Hn) as (c1 & w1 & s1 & r & n & E & Hc & Hr & Ha & Ho & Es).
  pose proof (tick_outcome_id _ _ _ _ _ _ _ Ho) as Hid.
  destruct (IH c1 w1 s1) as (c2 & w2 & s2 & m & rows' & E2 & Hc2 & Hr2 & Ha2 & Htk & HF).
  - by rewrite Es, replace_row_ids.
  - done.
  - intros d' Hd'. destruct (Hin d' ltac:(set_solver)) as [Ht' Hn']. split; [|done]. rewrite Es.
    apply elem_of_replace_other; [done|]. intros E'. apply Hd. simpl. rewrite <- E'.
    apply list_elem_of_fmap. by exists d'.
  - exists c2, w2, s2, (n + m)%nat, (r :: rows'). cbn [tickLoop length]. rewrite E.
    split_and!; [done|lia|lia|congruence|by econstructor|].
    rewrite Es in HF. unfold replace_row in HF. apply Forall2_fmap_l in HF.
    eapply Forall2_impl_elem; [exact HF|]. clear HF. intros t t' Hts [H1 H2]. simpl in *.
    unfold in_batch in *. rewrite fmap_cons, elem_of_cons. simpl.
    case_bool_decide as Eid.
    + rewrite Hid in H1, H2. specialize (H2 Hd). subst t'. split; [|tauto]. intros _. exists 0%nat, d. split_and!; try done.
      pose proof (find_trigger_unique s t Hnd Hts) as F1. rewrite Eid in F1.
      pose proof (find_trigger_unique s _ Hnd Ht) as F2. congruence.
    + split; [|tauto]. intros [?|Hb]; [done|]. destruct (H1 Hb) as (i & d' & Hi & Hdt & Hi'). by exists (S i), d'.
Qed.

Lemma is_due_Some s t d :
  is_due currentTime s t = Some d ->
  due_trigger d = t /\ automations s !! tr_automationId t = Some (due_automation d) /\
  au_enabled (due_automation d) = true /\ tr_enabled t = true /\ tr_kind t <> KWebhook /\
  exists n, tr_nextRunAt t = Some n /\ n <= currentTime.
Proof.
  unfold is_due. destruct (automations s !! _) as [a|]; [|done].
  destruct (_ && _)%bool eqn:E; [|done]. intros [= <-]. bool_facts.
  destruct (tr_nextRunAt t) as [n|]; [|done]. bool_facts. split_and!; simpl; eauto.
  intros Hk. rewrite Hk in *. set_solver.
Qed.

Lemma omap_due_ids s l : (tr_id ∘ due_trigger) <$> omap (is_due currentTime s) l `sublist_of` (tr_id <$> l).
Proof.
  induction l as [|t l IH]; [done|]. csimpl. destruct (is_due currentTime s t) as [d|] eqn:E; csimpl.
  - apply is_due_Some in E as [<- _]. by apply sublist_skip.
  - by apply sublist_cons.
Qed.

Lemma dueTriggers_NoDup s :
  NoDup (tr_id <$> triggers s) -> NoDup ((tr_id ∘ due_trigger) <$> dueTriggers currentTime s).
Proof.
  intros Hnd. eapply sublist_NoDup; [exact Hnd|]. unfold dueTriggers. rewrite fmap_take.
  etrans; [apply sublist_take|apply omap_due_ids].
Qed.

Lemma dueTriggers_elem s d :
  d ∈ dueTriggers currentTime s -> due_trigger d ∈ triggers s /\ is_due currentTime s (due_trigger d) = Some d.
Proof.
  unfold dueTriggers. intros (i & Hi & _)%elem_of_take. apply list_elem_of_lookup_2 in Hi.
  apply list_elem_of_omap in Hi as (t & Ht & E). by destruct (is_due_Some _ _ _ E) as [-> _].
Qed.

Lemma in_batch_due s t :
  NoDup (tr_id <$> triggers s) -> t ∈ triggers s -> in_batch (dueTriggers currentTime s) t ->
  exists d, is_due currentTime s t = Some d.
Proof.
  intros Hnd Ht (d & E & Hd)%list_elem_of_fmap. simpl in E.
  apply dueTriggers_elem in Hd as [Hd1 Hd2].
  pose proof (find_trigger_unique s t Hnd Ht) as F1. rewrite E in F1.
  pose proof (find_trigger_unique s _ Hnd Hd1) as F2.
  replace t with (due_trigger d) by congruence. eauto.
Qed.


End Tick.

(** ** The circuit breaker *)

Definition breaker_ok (t : TriggerRow) : Prop :=
  tr_enabled t = true -> tr_consecutiveFailures t < MAX_CONSECUTIVE_FAILURES.

Definition breakers_ok (s : AutoState) : Prop := Forall breaker_ok (triggers s).

Lemma update_trigger_breakers id g f s :
  (forall t, breaker_ok t -> breaker_ok (f t)) -> breakers_ok s -> breakers_ok (update_trigger id g f s).
Proof.
  intros Hf. unfold breakers_ok. simpl. rewrite Forall_fmap. intros Hs.
  eapply Forall_impl; [exact Hs|]. intros t Ht. simpl. destruct (_ && _)%bool; auto.
Qed.

Lemma failed_row_breaker n next time t :
  breaker_ok (failed_row n (MAX_CONSECUTIVE_FAILURES <=? n) next time t).
Proof.
  unfold breaker_ok. cbn [tr_enabled tr_consecutiveFailures failed_row].
  destruct (_ <=? n) eqn:E; [done|]. bool_facts. lia.
Qed.

Section Steps.
Context `{CronLib}.

Lemma evaluateTrigger_breakers trigger now s :
  breakers_ok s -> breakers_ok (evaluateTrigger trigger now s).2.
Proof.
  intros Hs. unfold evaluateTrigger. destruct (find_trigger _ _) as [t|]; [|done].
  destruct (claim_guard _ _); [|done]. apply update_trigger_breakers; [|done].
  intros u Hu. unfold breaker_ok in *. simpl. by destruct (bool_decide _).
Qed.

Lemma recordTriggerPreRunFailure_breakers time due s :
  breakers_ok s -> breakers_ok (recordTriggerPreRunFailure time due s).
Proof. apply update_trigger_breakers. intros t _. apply failed_row_breaker. Qed.

Lemma tickRow_breakers services ft now due c w s :
  breakers_ok s -> breakers_ok (tickRow services ft now due (c, w, s)).2.
Proof.
  intros Hs. unfold tickRow. destruct (previous_run_active _ _) eqn:Ha; [done|].
  pose proof (evaluateTrigger_breakers (due_trigger due) now s Hs) as H1.
  destruct (evaluateTrigger _ _ _) as [[t|] s1]; [|done]. simpl in H1.
  destruct (runTriggerNow_cases services due w s1 Ha) as [(runId & w1 & z1 & _ & ->)|(r & w1 & z1 & _ & Hno & ->)].
  - by apply update_trigger_breakers.
  - destruct r as [[runId|]|]; [by destruct (Hno runId)|by apply recordTriggerPreRunFailure_breakers..].
Qed.

Lemma tickLoop_breakers services ft now rows acc :
  breakers_ok acc.2 -> breakers_ok (tickLoop services ft now rows acc).2.
Proof.
  revert acc. induction rows as [|d rows IH]; intros [[c w] s] Hs; [done|]. apply IH.
  by apply tickRow_breakers.
Qed.

Lemma triggerCallback_breakers p st now s :
  breakers_ok s -> breakers_ok (triggerCallback p st now s).2.
Proof.
  intros Hs. unfold triggerCallback.
  repeat (case_match; simpl; try done);
    (apply update_trigger_breakers; [intros u _; apply failed_row_breaker|done]).
Qed.

(** What changes trigger rows at run time: ticks of the poller, completion callbacks
    and claims of a poller that stops before it creates the run. *)
Inductive auto_step (s : AutoState) : AutoState -> Prop :=
| step_tick services ft now w : auto_step s (executeDueTriggers services ft now w s).2
| step_callback p st now : auto_step s (triggerCallback p st now s).2
| step_claim t now : auto_step s (evaluateTrigger t now s).2.

(** The circuit breaker holds in every reachable state. Whatever ticks, completion
    callbacks and claims run, a trigger that is still enabled has fewer
    than three consecutive failures. *)
Theorem breaker_invariant (s s' : AutoState) :
  Forall breaker_ok (triggers s) -> rtc auto_step s s' -> Forall breaker_ok (triggers s').
Proof.
  intros Hs Hr. revert Hs. induction Hr as [s|s s1 s2 Hst _ IH]; [done|]. intros Hs. apply IH.
  destruct Hst as [services ft now w|p st now|t now].
  - unfold executeDueTriggers.
    pose proof (tickLoop_breakers services ft now (dueTriggers now s) (no_counts, w, s) Hs) as Ht.
    by destruct (tickLoop _ _ _ _ _) as [[c w'] s'].
  - by apply triggerCallback_breakers.
  - by apply evaluateTrigger_breakers.
Qed.

(** ** Rescheduling *)

Definition failure_count (status : CallbackStatus) (t : TriggerRow) : Z :=
  match status with CbCompleted => 0 | _ => tr_consecutiveFailures t + 1 end.

Lemma advanceAfterCompletion_next {Hlaws : CronLaws} payload interval tz completedAt n :
  0 < interval ->
  exists next,
    advanceAfterCompletion (pl_isCron payload) (if pl_isCron payload then pl_cronExpression payload else None)
      (Some interval) tz completedAt (MAX_CONSECUTIVE_FAILURES <=? n) = Ok next /\
    (3 <= n -> next = None) /\
    (n < 3 -> (forall m, next = Some m -> completedAt < m) /\
       (pl_isCron payload = false -> next = Some (completedAt + interval * 1000))).
Proof.
  intros Hpos. unfold advanceAfterCompletion, MAX_CONSECUTIVE_FAILURES. destruct (3 <=? n) eqn:Hn; bool_facts.
  - exists None. split_and!; [done|done|lia].
  - destruct (pl_isCron payload).
    + destruct (nonempty _) as [e|]; eexists; (split; [done|]); split; try lia; [|done].
      intros _. split; [|done]. intros m Hm. by apply cron_later in Hm.
    + eexists. split; [done|]. split; [lia|]. intros _. split; [|done]. intros m [= <-]. lia.
Qed.

(** The completion callback reschedules. For an enabled trigger with a positive
    interval, a terminal status rewrites the counter and the next run: success resets
    the counter; a failure increments it; the third one disables the trigger and clears
    the next run; otherwise the trigger stays enabled, a next run is later
    than the completion, and a loop has one. *)
Theorem triggerCallback_reschedules {Hlaws : CronLaws} (payload : TriggerPayload) (status : CallbackStatus)
    (completedAt interval : Z) (s : AutoState) (t : TriggerRow) :
  status <> CbProgress -> find_trigger s (pl_triggerId payload) = Some t -> tr_enabled t = true ->
  tr_intervalSeconds t = Some interval -> 0 < interval ->
  exists s' t',
    triggerCallback (Some payload) status completedAt s = (Ok (Some false), s') /\
    find_trigger s' (pl_triggerId payload) = Some t' /\
    tr_consecutiveFailures t' = failure_count status t /\
    (3 <= failure_count status t -> tr_enabled t' = false /\ tr_nextRunAt t' = None) /\
    (failure_count status t < 3 ->
      tr_enabled t' = true /\ (forall n, tr_nextRunAt t' = Some n -> completedAt < n) /\
      (pl_isCron payload = false -> tr_nextRunAt t' = Some (completedAt + interval * 1000))).
Proof.
  intros Hst Hf Hen Hint Hpos. unfold triggerCallback. rewrite Hf, Hen, Hint. cbn [negb].
  fold (failure_count status t). set (n := failure_count status t).
  destruct (advanceAfterCompletion_next payload interval (tr_timezone t) completedAt n Hpos)
    as (next & E & Hdis & Hnext).
  rewrite E. destruct status; try done;
    (eexists _, _; split; [done|]; split; [apply (find_trigger_update _ _ _ _ t); done|];
     cbn [tr_consecutiveFailures tr_enabled tr_nextRunAt failed_row]; unfold MAX_CONSECUTIVE_FAILURES;
     split; [done|]; split; [intros Hn; rewrite (proj2 (Z.leb_le _ _) Hn); auto|];
     intros Hn; rewrite (proj2 (Z.leb_gt _ _) Hn); destruct (Hnext Hn); auto).
Qed.

End Steps.

(** ** Witnesses *)

(** A cron library that fires every minute. *)
#[local] Instance minutely : CronLib :=
  { cron_nextRun := fun _ _ t => Some ((t / 60000 + 1) * 60000) }.
#[local] Instance minutely_laws : CronLaws.
Proof. constructor. intros e tz t u [= <-]. pose proof (Z.mul_succ_div_gt t 60000). lia. Qed.

Definition sample_trigger (id : jsstr) (kind : TriggerKind) (next : option Z) (failures : Z) : TriggerRow :=
  {| tr_id := id; tr_automationId := js "a1"; tr_kind := kind; tr_cronExpression := None;
     tr_intervalSeconds := Some 60; tr_timezone := js "UTC"; tr_enabled := true; tr_nextRunAt := next;
     tr_lastRunAt := None; tr_lastRunId := None; tr_consecutiveFailures := failures; tr_updatedAt := 0 |}.

Definition sample_automation : AutomationRow :=
  {| au_id := js "a1"; au_agentId := js "g"; au_orgId := js "o"; au_userId := js "u";
     au_chatThreadId := js "c"; au_name := js "n"; au_description := None; au_instruction := js "do it";
     au_appendSystemPrompt := None; au_enabled := true |}.

Definition sample_state : AutoState :=
  {| triggers := [sample_trigger (js "t1") KLoop (Some 10) 2; sample_trigger (js "t2") KOnce (Some 20) 0;
                  sample_trigger (js "t3") KLoop (Some 5000) 1];
     automations := {[ js "a1" := sample_automation ]}; zeroRuns := ∅ |}.

Definition empty_world : World :=
  {| agentRuns := ∅; agentRunQueue := []; runnerJobQueue := ∅; orgTiers := ∅; chatMessages := [];
     nextId := 0; outbox := [] |}.

Definition no_model_context : ModelContext :=
  {| mc_modelProvider := None; mc_modelProviderId := None; mc_credentialScope := None; mc_selectedModel := None |}.
Definition sample_model : ModelContext :=
  {| mc_modelProvider := Some (js "vm0"); mc_modelProviderId := None; mc_credentialScope := Some (js "org"); mc_selectedModel := Some (js "m") |}.

(** Run creation throws for the first trigger and succeeds for the others. *)
Definition sample_services : RunServices :=
  {| resolveTriggerRunModelContext _ _ := Ok (inr sample_model);
     createZeroRun _ input _ w z :=
       if bool_decide (ri_triggerId input = Some (js "t1")) then (Throw (js "boom"), w, z)
       else (Ok (inr (js "r2", Pending)), w, <[js "r2" := no_model_context]> z);
     postAutomationUserMessage _ _ _ _ w := Ok w |}.

Lemma evaluateTrigger_exclusive_witness :
  let t := sample_trigger (js "t2") KOnce (Some 20) 0 in
  let s1 := (evaluateTrigger t 1000 sample_state).2 in
  evaluateTrigger t 1001 s1 = (None, s1) /\
  exists c, find_trigger s1 (js "t2") = Some c /\ tr_enabled c = false.
Proof.
  intros t s1.
  destruct (evaluateTrigger_exclusive t (claimed_row 1000 true t) 1000 1001 sample_state s1)
    as (H1 & H2 & _ & _ & H5); [vm_compute; reflexivity|].
  split; [exact H1|]. exists (claimed_row 1000 true t). split; [exact H2|]. apply H5. reflexivity.
Defined.


(** The throwing row reaches its third failure and is switched off; the other runs. *)
Example sample_tick :
  let '(res, _, s') := executeDueTriggers sample_services (fun _ => 1002) 1000 empty_world sample_state in
  (res_executed res, res_skipped res, tr_enabled <$> triggers s', tr_nextRunAt <$> triggers s') =
  (1%nat, 1%nat, [false; false; true], [None; None; Some 5000]).
Proof. vm_compute. reflexivity. Qed.

Lemma breaker_invariant_witness :
  Forall breaker_ok
    (triggers (executeDueTriggers sample_services (fun _ => 1002) 1000 empty_world sample_state).2).
Proof.
  apply (breaker_invariant sample_state).
  - repeat constructor; intros _; reflexivity.
  - apply rtc_once. apply step_tick.
Defined.

Lemma triggerCallback_reschedules_witness :
  exists s' t',
    triggerCallback (Some {| pl_isCron := false; pl_triggerId := js "t3"; pl_cronExpression := None |})
      CbFailed 7000 sample_state = (Ok (Some false), s') /\
    find_trigger s' (js "t3") = Some t' /\ tr_nextRunAt t' = Some 67000.
Proof.
  destruct (triggerCallback_reschedules
    {| pl_isCron := false; pl_triggerId := js "t3"; pl_cronExpression := None |} CbFailed 7000 60 sample_state
    (sample_trigger (js "t3") KLoop (Some 5000) 1)) as (s' & t' & E & F & _ & _ & Hlt);
    try (vm_compute; reflexivity); [discriminate|].
  exists s', t'. split; [exact E|]. split; [exact F|].
  apply Hlt; [vm_compute; reflexivity|reflexivity].
Defined.

End Automations.
