(* ===== verification/PermissionGrants.v ===== *)
(** Permission grants of users (turbo/apps/api/src/signals/services/
    zero-user-permission-grants.service.ts and routes/zero-user-permission-grants.ts): what a
    user allows or denies an agent, per permission of a connector and with an expiry. *)

From S2P Require Import Prelude JsString JsValue JsRecord Templates Registry.
Import Templates Registry.

Module PermissionGrants.

(** ** Data *)

Inductive Visibility := Public | Private.

#[export] Instance visibility_eq_dec : EqDecision Visibility.
Proof. solve_decision. Defined.

(** A row of [zero_agents]. *)
Record ZeroAgent := {
  za_orgId : jsstr; za_owner : jsstr; za_visibility : Visibility; za_displayName : option jsstr;
  za_description : option jsstr; za_sound : option jsstr; za_customSkills : list jsstr;
  za_modelProviderId : option jsstr; za_selectedModel : option jsstr }.

(** The unique key of [user_permission_grants]: organization, user, agent, connector, permission. *)
Definition GrantKey : Type := (jsstr * jsstr * jsstr) * (jsstr * jsstr).

(** The other columns. *)
Record GrantRow := {
  gr_action : FirewallPolicyValue; gr_expiresAt : option Z; gr_createdAt : Z; gr_updatedAt : Z }.

Record GrantDb := { agents : gmap jsstr ZeroAgent; grants : gmap GrantKey GrantRow }.

Definition with_grants (f : gmap GrantKey GrantRow -> gmap GrantKey GrantRow) (d : GrantDb) : GrantDb :=
  {| agents := agents d; grants := f (grants d) |}.

Record UserPermissionGrantScope := { sc_orgId : jsstr; sc_userId : jsstr; sc_agentId : jsstr }.

Inductive UserPermissionGrantExpiresIn := In1h | In24h | In7d | Always.

Record UpsertUserPermissionGrantRequest := {
  ur_agentId : jsstr; ur_connectorRef : jsstr; ur_permission : jsstr; ur_action : FirewallPolicyValue;
  ur_expiresIn : option UserPermissionGrantExpiresIn }.

Record UserPermissionGrantResponse := {
  gp_agentId : jsstr; gp_connectorRef : jsstr; gp_permission : jsstr; gp_action : FirewallPolicyValue;
  gp_expiresAt : option Z; gp_createdAt : Z; gp_updatedAt : Z }.

Inductive GrantError := NotFound (message : jsstr) | ValidationError (message : jsstr).

Definition HOUR_MS : Z := 60 * 60 * 1000.
Definition DAY_MS : Z := 24 * HOUR_MS.

(** ** Agents *)

Definition visibleZeroAgentCondition (userId : jsstr) (a : ZeroAgent) : bool :=
  bool_decide (za_visibility a = Public) || bool_decide (za_owner a = userId).

Definition findVisibleAgent (scope : UserPermissionGrantScope) (d : GrantDb) : option jsstr :=
  a ← agents d !! sc_agentId scope;
  if bool_decide (za_orgId a = sc_orgId scope) && visibleZeroAgentCondition (sc_userId scope) a
  then Some (sc_agentId scope) else None.

Definition agent_not_found (agentId : jsstr) : GrantError := NotFound (js "Agent not found: " ++ agentId).

Definition visibleAgentOrNotFound (scope : UserPermissionGrantScope) (d : GrantDb) : option GrantError :=
  match findVisibleAgent scope d with Some _ => None | None => Some (agent_not_found (sc_agentId scope)) end.

(** The same row, locked for the transaction. *)
Definition lockVisibleAgentForUpdate : UserPermissionGrantScope -> GrantDb -> option jsstr := findVisibleAgent.

(** ** Validation *)

Section Registry.
Context `{GeneratedRegistry}.

(** [None] is [null]; the configuration of an inherited name is no object with APIs. *)
Definition validPermissionNames (connectorRef : jsstr) : result (option (list jsstr)) :=
  if negb (isFirewallConnectorType connectorRef) then Ok None
  else match getConnectorFirewall connectorRef with
       | None => Throw (js "TypeError")
       | Some config => Ok (Some (set_add_all (perm_name <$> config_permissions config) []))
       end.

Definition unknown_connector (connectorRef : jsstr) : GrantError :=
  ValidationError (js "Unknown connector ref: " ++ connectorRef).

Definition validateGrantTarget (connectorRef permission : jsstr) : result (option GrantError) :=
  names ← validPermissionNames connectorRef;
  Ok (match names with
      | None => Some (unknown_connector connectorRef)
      | Some names =>
          if bool_decide (permission = UNKNOWN_PERMISSION_GRANT) then None
          else if negb (bool_decide (permission ∈ names)) then
            Some (ValidationError (js "Unknown permission " ++ [34] ++ permission ++ [34] ++ js " for connector " ++
                    [34] ++ connectorRef ++ [34]))
          else None
      end).

Definition validateConnectorRef (connectorRef : jsstr) : option GrantError :=
  if isFirewallConnectorType connectorRef then None else Some (unknown_connector connectorRef).

Definition validateGrantExpiration (grant : UpsertUserPermissionGrantRequest) : option GrantError :=
  if bool_decide (ur_action grant = PAllow) || negb (bool_decide (is_Some (ur_expiresIn grant))) then None
  else Some (ValidationError (js "Permission grant expiration is only supported for allow grants")).

(** ** Expiry *)

Definition activeGrantCondition (checkedAt : Z) (row : GrantRow) : bool :=
  match gr_expiresAt row with None => true | Some t => checkedAt <? t end.

Definition resolveGrantExpiresAt (expiresIn : option UserPermissionGrantExpiresIn) (timestamp : Z) : option Z :=
  match expiresIn with
  | Some In1h => Some (timestamp + HOUR_MS)
  | Some In24h => Some (timestamp + DAY_MS)
  | Some In7d => Some (timestamp + 7 * DAY_MS)
  | Some Always | None => None
  end.

Definition preservedActiveGrantExpiresAt (expiresAt : option Z) (timestamp : Z) : option Z :=
  match expiresAt with
  | None => None
  | Some t => if timestamp <? t then Some t else None
  end.

Definition formatUserPermissionGrant (key : GrantKey) (row : GrantRow) : UserPermissionGrantResponse :=
  {| gp_agentId := key.1.2; gp_connectorRef := key.2.1; gp_permission := key.2.2; gp_action := gr_action row;
     gp_expiresAt := gr_expiresAt row; gp_createdAt := gr_createdAt row; gp_updatedAt := gr_updatedAt row |}.

(** ** Reads

    [collate] is the order of texts in the database. *)

Section Collation.
Context (collate : jsstr -> jsstr -> bool).

(** By connector and then by permission. *)
Definition grant_before (a b : GrantKey) : bool :=
  if bool_decide (a.2.1 = b.2.1) then collate a.2.2 b.2.2 else collate a.2.1 b.2.1.

Fixpoint insert_grant (g : GrantKey * GrantRow) (l : list (GrantKey * GrantRow)) : list (GrantKey * GrantRow) :=
  match l with
  | [] => [g]
  | x :: l' => if grant_before g.1 x.1 then g :: l else x :: insert_grant g l'
  end.

Definition in_scope (scope : UserPermissionGrantScope) (key : GrantKey) : bool :=
  bool_decide (key.1 = (sc_orgId scope, sc_userId scope, sc_agentId scope)).

Definition loadActiveUserPermissionGrants (scope : UserPermissionGrantScope) (checkedAt : Z) (d : GrantDb) :
    list (GrantKey * GrantRow) :=
  foldr insert_grant [] (filter (fun kv => in_scope scope kv.1 && activeGrantCondition checkedAt kv.2 = true)
    (map_to_list (grants d))).

Definition listUserPermissionGrants (now : Z) (scope : UserPermissionGrantScope) (d : GrantDb) :
    GrantError + list UserPermissionGrantResponse :=
  match visibleAgentOrNotFound scope d with
  | Some error => inl error
  | None => inr ((fun kv => formatUserPermissionGrant kv.1 kv.2) <$> loadActiveUserPermissionGrants scope now d)
  end.

End Collation.

(** ** Writes *)

Definition key_of (orgId userId : jsstr) (grant : UpsertUserPermissionGrantRequest) : GrantKey :=
  ((orgId, userId, ur_agentId grant), (ur_connectorRef grant, ur_permission grant)).

Definition new_expiry (grant : UpsertUserPermissionGrantRequest) (existing : option GrantRow) (timestamp : Z) : option Z :=
  if bool_decide (ur_action grant = PAllow) then
    match ur_expiresIn grant with
    | None => preservedActiveGrantExpiresAt
        (match existing with Some e => if bool_decide (gr_action e = PAllow) then gr_expiresAt e else None | None => None end)
        timestamp
    | Some _ => resolveGrantExpiresAt (ur_expiresIn grant) timestamp
    end
  else None.

(** One transaction. *)
Definition upsertVisibleGrantRow (timestamp : Z) (orgId userId : jsstr) (grant : UpsertUserPermissionGrantRequest) (d : GrantDb) :
    (GrantError + GrantRow) * GrantDb :=
  match lockVisibleAgentForUpdate {| sc_orgId := orgId; sc_userId := userId; sc_agentId := ur_agentId grant |} d with
  | None => (inl (agent_not_found (ur_agentId grant)), d)
  | Some _ =>
      let key := key_of orgId userId grant in
      let existing := grants d !! key in
      let expiresAt := new_expiry grant existing timestamp in
      let row := match existing with
        | Some e => {| gr_action := ur_action grant; gr_expiresAt := expiresAt; gr_createdAt := gr_createdAt e; gr_updatedAt := timestamp |}
        | None => {| gr_action := ur_action grant; gr_expiresAt := expiresAt; gr_createdAt := timestamp; gr_updatedAt := timestamp |}
        end in
      (inr row, with_grants (<[key := row]>) d)
  end.

Definition upsertUserPermissionGrant (timestamp : Z) (orgId userId : jsstr) (grant : UpsertUserPermissionGrantRequest) (d : GrantDb) :
    result (GrantError + UserPermissionGrantResponse) * GrantDb :=
  match validateGrantTarget (ur_connectorRef grant) (ur_permission grant) with
  | Throw e => (Throw e, d)
  | Ok (Some validation) => (Ok (inl validation), d)
  | Ok None =>
      match validateGrantExpiration grant with
      | Some validation => (Ok (inl validation), d)
      | None =>
          match upsertVisibleGrantRow timestamp orgId userId grant d with
          | (inl error, d1) => (Ok (inl error), d1)
          | (inr row, d1) => (Ok (inr (formatUserPermissionGrant (key_of orgId userId grant) row)), d1)
          end
      end
  end.

Definition resetVisibleConnectorGrantRows (orgId userId agentId connectorRef : jsstr) (d : GrantDb) : option GrantError * GrantDb :=
  match lockVisibleAgentForUpdate {| sc_orgId := orgId; sc_userId := userId; sc_agentId := agentId |} d with
  | None => (Some (agent_not_found agentId), d)
  | Some _ => (None, with_grants (filter (fun kv => ~ (kv.1.1 = (orgId, userId, agentId) /\ kv.1.2.1 = connectorRef))) d)
  end.

Definition resetUserPermissionGrants (orgId userId agentId connectorRef : jsstr) (d : GrantDb) : option GrantError * GrantDb :=
  match validateConnectorRef connectorRef with
  | Some validation => (Some validation, d)
  | None => resetVisibleConnectorGrantRows orgId userId agentId connectorRef d
  end.

(** ** Routes (routes/zero-user-permission-grants.ts) *)

Record GrantAuth := { ga_orgId : jsstr; ga_userId : jsstr }.

Inductive GrantReply :=
| ReplyInvalidBody
| ReplyGrantError (error : GrantError)
| ReplyGrants (grants : list UserPermissionGrantResponse)
| ReplyGrant (grant : UserPermissionGrantResponse)
| ReplyNoContent.

(** The contract knows the expiry of an allow only. *)
Definition upsertUserPermissionGrantRequestSchema (grant : UpsertUserPermissionGrantRequest) : option UpsertUserPermissionGrantRequest :=
  match ur_action grant, ur_expiresIn grant with
  | PAllow, _ | PDeny, None => Some grant
  | _, _ => None
  end.

Definition listGrantsRoute (collate : jsstr -> jsstr -> bool) (now : Z) (auth : GrantAuth) (agentId : jsstr) (d : GrantDb) : GrantReply :=
  match listUserPermissionGrants collate now {| sc_orgId := ga_orgId auth; sc_userId := ga_userId auth; sc_agentId := agentId |} d with
  | inl error => ReplyGrantError error
  | inr grants => ReplyGrants grants
  end.

Definition upsertGrantRoute (now : Z) (auth : GrantAuth) (body : UpsertUserPermissionGrantRequest) (d : GrantDb) :
    result GrantReply * GrantDb :=
  match upsertUserPermissionGrantRequestSchema body with
  | None => (Ok ReplyInvalidBody, d)
  | Some grant =>
      match upsertUserPermissionGrant now (ga_orgId auth) (ga_userId auth) grant d with
      | (Throw e, d1) => (Throw e, d1)
      | (Ok (inl error), d1) => (Ok (ReplyGrantError error), d1)
      | (Ok (inr response), d1) => (Ok (ReplyGrant response), d1)
      end
  end.

Definition resetGrantsRoute (auth : GrantAuth) (agentId connectorRef : jsstr) (d : GrantDb) : GrantReply * GrantDb :=
  match resetUserPermissionGrants (ga_orgId auth) (ga_userId auth) agentId connectorRef d with
  | (Some error, d1) => (ReplyGrantError error, d1)
  | (None, d1) => (ReplyNoContent, d1)
  end.

(** ** The upsert, on every branch *)

(** Through the route, an upsert either stores the grant of exactly this key, with the expiry
    its duration asks for, or answers an error and changes nothing. *)
Theorem upsertGrantRoute_spec now auth body d :
  let key := key_of (ga_orgId auth) (ga_userId auth) body in
  match upsertGrantRoute now auth body d with
  | (Ok (ReplyGrant resp), d') =>
      exists row, d' = with_grants (<[key := row]>) d /\ resp = formatUserPermissionGrant key row /\
        gr_action row = ur_action body /\ gr_updatedAt row = now /\
        gr_createdAt row = default now (gr_createdAt <$> grants d !! key) /\ gr_expiresAt row = new_expiry body (grants d !! key) now /\
        findVisibleAgent {| sc_orgId := ga_orgId auth; sc_userId := ga_userId auth; sc_agentId := ur_agentId body |} d = Some (ur_agentId body)
  | (_, d') => d' = d
  end.
Proof.
  cbn zeta. unfold upsertGrantRoute, upsertUserPermissionGrant, upsertVisibleGrantRow, lockVisibleAgentForUpdate.
  destruct (upsertUserPermissionGrantRequestSchema body) as [g|] eqn:Es; [|done].
  assert (g = body) as -> by (unfold upsertUserPermissionGrantRequestSchema in Es; destruct (ur_action body), (ur_expiresIn body); congruence).
  destruct (validateGrantTarget _ _) as [[v|]|]; [done| |done]. destruct (validateGrantExpiration body); [done|].
  destruct (findVisibleAgent _ d) as [a|] eqn:Ea; [|done].
  assert (a = ur_agentId body) as ->.
  { unfold findVisibleAgent in Ea. destruct (agents d !! _); cbn in Ea; [|done]. by destruct (_ && _); simplify_eq. }
  destruct (grants d !! key_of _ _ _) as [e|]; (eexists; split_and!; reflexivity).
Qed.

End Registry.

End PermissionGrants.
