(* ===== verification/ZeroRuns.v ===== *)
(** Runs of agents (turbo/apps/api/src/signals/services/zero-runs-create.service.ts): the agent
    a request names or its session implies, who may run it, the connectors and permissions of
    the user who runs it, and the arguments of [createAgentRun]. *)

From S2P Require Import Prelude JsString JsValue JsRecord Templates Registry Permissions PermissionGrants ZeroPrompts.
Import Templates Registry Permissions PermissionGrants ZeroPrompts.

Module ZeroRuns.

(** ** Tables *)

Record Session := {
  se_userId : jsstr; se_orgId : jsstr; se_agentComposeId : jsstr; se_conversationId : option jsstr; se_artifacts : option JsVal }.

Record ZeroDb := {
  zd_grants : GrantDb;
  (** agents whose compose has a head version *)
  zd_composed : gset jsstr;
  zd_sessions : gmap jsstr Session;
  (** rows of [user_connectors] and [user_custom_connectors]: organization, user, agent, connector *)
  zd_connectors : list (jsstr * jsstr * jsstr * jsstr);
  zd_customConnectors : list (jsstr * jsstr * jsstr * jsstr);
  (** the cached name and email of a user, and the time zone of a member *)
  zd_users : gmap jsstr (option jsstr * option jsstr);
  zd_timezones : gmap (jsstr * jsstr) (option jsstr);
  (** the compose of a run *)
  zd_runComposes : gmap jsstr jsstr }.

(** ** Requests *)

(** A user, or a run with a token of its own. *)
Record Auth := { au_userId : jsstr; au_orgId : jsstr; au_runId : option jsstr }.

(** The fields of a body that are passed on as they are. *)
Record Passthrough := {
  pt_agentComposeVersionId : option jsstr; pt_conversationId : option jsstr; pt_checkpointId : option jsstr;
  pt_additionalVolumes : JsVal; pt_debugNoMockClaude : JsVal; pt_debugNoMockCodex : JsVal;
  pt_captureNetworkBodies : JsVal; pt_tools : JsVal; pt_settings : JsVal }.

Definition no_passthrough : Passthrough :=
  {| pt_agentComposeVersionId := None; pt_conversationId := None; pt_checkpointId := None; pt_additionalVolumes := JUndefined;
     pt_debugNoMockClaude := JUndefined; pt_debugNoMockCodex := JUndefined; pt_captureNetworkBodies := JUndefined;
     pt_tools := JUndefined; pt_settings := JUndefined |}.

Record ZeroRunCreateBody := {
  zb_prompt : jsstr; zb_agentId : option jsstr; zb_sessionId : option jsstr; zb_modelProvider : option jsstr;
  zb_passthrough : Passthrough }.

Record RunCallback := { rc_url : jsstr; rc_secret : jsstr; rc_payload : JsVal }.

Record ZeroRunMetadata := {
  zm_triggerAgentId : option jsstr; zm_automationId : option jsstr; zm_triggerId : option jsstr }.

(** The extra lines about a user that an integration knows. *)
Record UserInfoExtras := {
  ux_slackDisplayName : option jsstr; ux_slackUserId : option jsstr; ux_telegramDisplayName : option jsstr;
  ux_telegramUsername : option jsstr; ux_telegramUserId : option jsstr; ux_telegramLanguage : option jsstr;
  ux_agentphoneHandle : option jsstr }.

Record CreateZeroRunCommandArgs := {
  cz_auth : Auth; cz_body : ZeroRunCreateBody; cz_apiStartTime : Z; cz_triggerSource : option jsstr;
  cz_appendSystemPrompt : option jsstr; cz_userInfoExtras : UserInfoExtras; cz_callbacks : list RunCallback;
  cz_chatThreadId : option jsstr; cz_computerUseHostId : option jsstr; cz_modelProviderId : option jsstr;
  cz_modelProviderCredentialScope : option jsstr; cz_selectedModelOverride : option jsstr;
  cz_zeroRunMetadata : ZeroRunMetadata }.

(** ** What [createAgentRun] is called with *)

Record RunBody := {
  rb_prompt : jsstr; rb_agentComposeId : jsstr; rb_sessionId : option jsstr; rb_passthrough : Passthrough;
  rb_permissionPolicies : option FirewallPolicies; rb_triggerSource : jsstr; rb_appendSystemPrompt : jsstr;
  rb_disallowedTools : list jsstr; rb_vars : Rec jsstr }.

Record AgentRunRequest := {
  rr_userId : jsstr; rr_orgId : jsstr; rr_body : RunBody; rr_apiStartTime : Z; rr_modelProviderId : option jsstr;
  rr_modelProviderCredentialScope : option jsstr; rr_modelProviderType : option jsstr; rr_selectedModelOverride : option jsstr;
  rr_chatThreadId : option jsstr; rr_extraEnvironment : Rec jsstr; rr_callbacks : list RunCallback;
  rr_includeZeroTokenSecret : bool; rr_zeroTokenComputerUseHostId : option jsstr; rr_enforceVm0Credits : bool;
  rr_queueOnConcurrencyLimit : bool; rr_customSkills : list jsstr; rr_allowedConnectorTypes : list jsstr;
  rr_allowedCustomConnectorIds : list jsstr; rr_validateEnvironmentReferences : bool; rr_zeroRunMetadata : ZeroRunMetadata }.

Inductive ZeroRunError := RunNotFound (message : jsstr) | RunForbidden (message : jsstr) | RunBadRequest (message : jsstr).

Definition forbidden (message : jsstr) : ZeroRunError := RunForbidden message.

Definition DISALLOWED_TOOLS : list jsstr :=
  [js "CronCreate"; js "CronList"; js "CronDelete"; js "ScheduleWakeup"; js "AskUserQuestion"; js "Skill(loop)"; js "Skill(loop *)"].

(** ** Reads *)

Definition inferAgentIdFromSession (sessionId userId orgId : jsstr) (d : ZeroDb) : option jsstr :=
  s ← zd_sessions d !! sessionId;
  if bool_decide (se_userId s = userId) && bool_decide (se_orgId s = orgId) then Some (se_agentComposeId s) else None.

Definition loadZeroAgent (agentId : jsstr) (d : ZeroDb) : option ZeroAgent :=
  a ← agents (zd_grants d) !! agentId;
  if bool_decide (agentId ∈ zd_composed d) then Some a else None.

Definition rows_for (orgId userId agentId : jsstr) (l : list (jsstr * jsstr * jsstr * jsstr)) : list jsstr :=
  snd <$> filter (fun row => row.1 = (orgId, userId, agentId)) l.

(** [isConnectorType]: the values of [connectorTypeSchema]. *)
Definition loadAllowedConnectorTypes (isConnectorType : jsstr -> bool) (orgId userId agentId : jsstr) (d : ZeroDb) : list jsstr :=
  filter (fun t => isConnectorType t = true) (rows_for orgId userId agentId (zd_connectors d)).

Definition loadAllowedCustomConnectorIds (orgId userId agentId : jsstr) (d : ZeroDb) : list jsstr :=
  rows_for orgId userId agentId (zd_customConnectors d).

(** The columns are read from the row of the user, if there is one. *)
Definition loadUserInfo (orgId userId : jsstr) (d : ZeroDb) : UserInfo :=
  let row := zd_users d !! userId in
  {| ui_name := u ← row; fst u; ui_email := u ← row; snd u; ui_timezone := _ ← row; tz ← zd_timezones d !! (orgId, userId); tz;
     ui_slackDisplayName := None; ui_slackUserId := None; ui_telegramDisplayName := None; ui_telegramUsername := None;
     ui_telegramUserId := None; ui_telegramLanguage := None; ui_agentphoneHandle := None |}.

(** [{ ...userInfo, ...extras }]. *)
Definition with_extras (u : UserInfo) (x : UserInfoExtras) : UserInfo :=
  {| ui_name := ui_name u; ui_email := ui_email u; ui_timezone := ui_timezone u;
     ui_slackDisplayName := ux_slackDisplayName x; ui_slackUserId := ux_slackUserId x;
     ui_telegramDisplayName := ux_telegramDisplayName x; ui_telegramUsername := ux_telegramUsername x;
     ui_telegramUserId := ux_telegramUserId x; ui_telegramLanguage := ux_telegramLanguage x;
     ui_agentphoneHandle := ux_agentphoneHandle x |}.

Definition triggerAgentIdForAuth (auth : Auth) (d : ZeroDb) : option jsstr := r ← au_runId auth; zd_runComposes d !! r.

Definition grant_of (kv : GrantKey * GrantRow) : FirewallPermissionGrant :=
  {| connectorRef := kv.1.2.1; permission := kv.1.2.2; action := gr_action kv.2 |}.

Section Platform.
Context `{GeneratedRegistry} (collate : jsstr -> jsstr -> bool) (isConnectorType : jsstr -> bool).

Definition resolveZeroRunPermissionPolicies (orgId userId agentId : jsstr) (allowedConnectorTypes : list jsstr) (checkedAt : Z)
    (d : ZeroDb) : result (option FirewallPolicies) :=
  let grants := loadActiveUserPermissionGrants collate {| sc_orgId := orgId; sc_userId := userId; sc_agentId := agentId |}
    checkedAt (zd_grants d) in
  resolveFirewallPolicies (permissionGrantsToFirewallPolicies (grant_of <$> grants)) allowedConnectorTypes.

(** ** Bodies *)

Definition truthy_id (o : option jsstr) : option jsstr := match o with Some [] => None | _ => o end.

Definition createRunBody (body : ZeroRunCreateBody) (agentId : jsstr) (agent : ZeroAgent) (userInfo : UserInfo)
    (permissionPolicies : option FirewallPolicies) (triggerAgentId triggerSource appendSystemPrompt : option jsstr) : RunBody :=
  let triggerSource := match triggerSource with
    | Some s => s
    | None => match truthy_id triggerAgentId with Some _ => js "agent" | None => js "web" end end in
  {| rb_prompt := zb_prompt body; rb_agentComposeId := agentId; rb_sessionId := zb_sessionId body;
     rb_passthrough := zb_passthrough body; rb_permissionPolicies := permissionPolicies; rb_triggerSource := triggerSource;
     rb_appendSystemPrompt := sections [Some (buildAppendSystemPrompt agent userInfo triggerSource); appendSystemPrompt];
     rb_disallowedTools := DISALLOWED_TOOLS; rb_vars := [(js "ZERO_AGENT_ID", agentId)] |}.

Definition createIntegrationRunBody (prompt : jsstr) (sessionId : option jsstr) (agentId : jsstr) (agent : ZeroAgent)
    (userInfo : UserInfo) (permissionPolicies : option FirewallPolicies) (triggerSource : jsstr)
    (appendSystemPrompt : option jsstr) : RunBody :=
  {| rb_prompt := prompt; rb_agentComposeId := agentId; rb_sessionId := sessionId; rb_passthrough := no_passthrough;
     rb_permissionPolicies := permissionPolicies; rb_triggerSource := triggerSource;
     rb_appendSystemPrompt := mergeAppendSystemPrompt (buildAppendSystemPrompt agent userInfo triggerSource) appendSystemPrompt;
     rb_disallowedTools := DISALLOWED_TOOLS; rb_vars := [(js "ZERO_AGENT_ID", agentId)] |}.

(** [baseUrl] and [secret] are the environment's URL and a random secret. *)
Definition callbacksForTriggerAgent (baseUrl secret : jsstr) (triggerAgentId : option jsstr) : list RunCallback :=
  match truthy_id triggerAgentId with
  | Some id => [{| rc_url := baseUrl ++ js "/api/internal/callbacks/agent"; rc_secret := secret;
                   rc_payload := JObject [(js "triggerAgentId", JString id)] |}]
  | None => []
  end.

(** The agent if the user may run it. *)
Definition runnable_agent (orgId userId agentId : jsstr) (d : ZeroDb) : ZeroRunError + ZeroAgent :=
  match loadZeroAgent agentId d with
  | None => inl (RunNotFound (js "Agent not found"))
  | Some agent =>
      if negb (bool_decide (za_orgId agent = orgId)) then inl (RunNotFound (js "Agent not found"))
      else if bool_decide (za_visibility agent = Private) && negb (bool_decide (za_owner agent = userId))
      then inl (forbidden (js "Only the private agent owner can run this agent"))
      else inr agent
  end.

(** ** Commands

    [createAgentRun] is the command that makes the run of the request. *)

Section Run.
Context {A : Type} (createAgentRun : AgentRunRequest -> A).

Record IntegrationArgs := {
  ia_userId : jsstr; ia_orgId : jsstr; ia_agentId : jsstr; ia_sessionId : option jsstr; ia_prompt : jsstr;
  ia_appendSystemPrompt : option jsstr; ia_triggerSource : jsstr; ia_callbacks : list RunCallback; ia_apiStartTime : Z;
  ia_userInfoExtras : UserInfoExtras }.

Definition createZeroIntegrationRun (args : IntegrationArgs) (d : ZeroDb) : result (ZeroRunError + A) :=
  let orgId := ia_orgId args in let userId := ia_userId args in let agentId := ia_agentId args in
  match runnable_agent orgId userId agentId d with
  | inl error => Ok (inl error)
  | inr agent =>
      let userInfo := loadUserInfo orgId userId d in
      let allowedConnectorTypes := loadAllowedConnectorTypes isConnectorType orgId userId agentId d in
      let allowedCustomConnectorIds := loadAllowedCustomConnectorIds orgId userId agentId d in
      runPermissionPolicies ← resolveZeroRunPermissionPolicies orgId userId agentId allowedConnectorTypes (ia_apiStartTime args) d;
      Ok (inr (createAgentRun {|
        rr_userId := userId; rr_orgId := orgId;
        rr_body := createIntegrationRunBody (ia_prompt args) (ia_sessionId args) agentId agent
          (with_extras userInfo (ia_userInfoExtras args)) runPermissionPolicies (ia_triggerSource args) (ia_appendSystemPrompt args);
        rr_apiStartTime := ia_apiStartTime args; rr_modelProviderId := za_modelProviderId agent;
        rr_modelProviderCredentialScope := None; rr_modelProviderType := None; rr_selectedModelOverride := za_selectedModel agent;
        rr_chatThreadId := None; rr_extraEnvironment := [(js "ZERO_AGENT_ID", agentId)]; rr_callbacks := ia_callbacks args;
        rr_includeZeroTokenSecret := true; rr_zeroTokenComputerUseHostId := None; rr_enforceVm0Credits := true;
        rr_queueOnConcurrencyLimit := true; rr_customSkills := za_customSkills agent;
        rr_allowedConnectorTypes := allowedConnectorTypes; rr_allowedCustomConnectorIds := allowedCustomConnectorIds;
        rr_validateEnvironmentReferences := false;
        rr_zeroRunMetadata := {| zm_triggerAgentId := None; zm_automationId := None; zm_triggerId := None |} |}))
  end.

Definition or_else {T} (a b : option T) : option T := match a with Some _ => a | None => b end.

(** The agent of a body: named, or that of its session. *)
Definition body_agent (auth : Auth) (body : ZeroRunCreateBody) (d : ZeroDb) : option jsstr :=
  match zb_agentId body with
  | Some a => Some a
  | None => s ← truthy_id (zb_sessionId body); inferAgentIdFromSession s (au_userId auth) (au_orgId auth) d
  end.

Definition createZeroRun (baseUrl secret : jsstr) (args : CreateZeroRunCommandArgs) (d : ZeroDb) : result (ZeroRunError + A) :=
  let auth := cz_auth args in let body := cz_body args in
  let orgId := au_orgId auth in let userId := au_userId auth in
  match truthy_id (body_agent auth body d) with
  | None =>
      Ok (inl (match truthy_id (zb_sessionId body) with
               | Some _ => RunNotFound (js "Session not found") | None => RunBadRequest (js "agentId is required") end))
  | Some agentId =>
      match runnable_agent orgId userId agentId d with
      | inl error => Ok (inl error)
      | inr agent =>
          let userInfo := loadUserInfo orgId userId d in
          let triggerAgentId := triggerAgentIdForAuth auth d in
          let allowedConnectorTypes := loadAllowedConnectorTypes isConnectorType orgId userId agentId d in
          let allowedCustomConnectorIds := loadAllowedCustomConnectorIds orgId userId agentId d in
          runPermissionPolicies ← resolveZeroRunPermissionPolicies orgId userId agentId allowedConnectorTypes (cz_apiStartTime args) d;
          Ok (inr (createAgentRun {|
            rr_userId := userId; rr_orgId := orgId;
            rr_body := createRunBody body agentId agent (with_extras userInfo (cz_userInfoExtras args)) runPermissionPolicies
              triggerAgentId (cz_triggerSource args) (cz_appendSystemPrompt args);
            rr_apiStartTime := cz_apiStartTime args;
            rr_modelProviderId := or_else (cz_modelProviderId args) (za_modelProviderId agent);
            rr_modelProviderCredentialScope := cz_modelProviderCredentialScope args; rr_modelProviderType := zb_modelProvider body;
            rr_selectedModelOverride := or_else (cz_selectedModelOverride args) (za_selectedModel agent);
            rr_chatThreadId := cz_chatThreadId args;
            rr_extraEnvironment := [(js "ZERO_AGENT_ID", agentId)] ++
              match truthy_id (cz_chatThreadId args) with Some t => [(js "ZERO_CHAT_THREAD_ID", t)] | None => [] end;
            rr_callbacks := callbacksForTriggerAgent baseUrl secret triggerAgentId ++ cz_callbacks args;
            rr_includeZeroTokenSecret := true; rr_zeroTokenComputerUseHostId := cz_computerUseHostId args;
            rr_enforceVm0Credits := true; rr_queueOnConcurrencyLimit := true; rr_customSkills := za_customSkills agent;
            rr_allowedConnectorTypes := allowedConnectorTypes; rr_allowedCustomConnectorIds := allowedCustomConnectorIds;
            rr_validateEnvironmentReferences := false;
            rr_zeroRunMetadata := {| zm_triggerAgentId := triggerAgentId; zm_automationId := zm_automationId (cz_zeroRunMetadata args);
              zm_triggerId := zm_triggerId (cz_zeroRunMetadata args) |} |}))
      end
  end.

End Run.

End Platform.

(** ** The grants a run sees *)

Lemma insert_grant_perm collate g l : insert_grant collate g l ≡ₚ g :: l.
Proof.
  induction l as [|x l IH]; cbn; [done|]. destruct (grant_before collate g.1 x.1); [done|]. rewrite IH. apply Permutation_swap.
Qed.

Lemma sort_grants_perm collate l : foldr (insert_grant collate) [] l ≡ₚ l.
Proof. induction l as [|x l IH]; cbn; [done|]. by rewrite insert_grant_perm, IH. Qed.

Lemma elem_of_active collate scope t d key row : (key, row) ∈ loadActiveUserPermissionGrants collate scope t d <->
  grants d !! key = Some row /\ key.1 = (sc_orgId scope, sc_userId scope, sc_agentId scope) /\ activeGrantCondition t row = true.
Proof.
  unfold loadActiveUserPermissionGrants. rewrite sort_grants_perm, list_elem_of_filter, elem_of_map_to_list. cbn [fst snd].
  unfold in_scope. rewrite andb_true_iff, bool_decide_eq_true. tauto.
Qed.

(** What the active grants of a scope decide. *)
Definition decided (scope : UserPermissionGrantScope) (t : Z) (d : GrantDb) (c p : jsstr) : option FirewallPolicyValue :=
  row ← grants d !! ((sc_orgId scope, sc_userId scope, sc_agentId scope), (c, p));
  if activeGrantCondition t row then Some (gr_action row) else None.

Lemma last_active collate scope t d c p :
  action <$> last_grant (grant_of <$> loadActiveUserPermissionGrants collate scope t d) c p = decided scope t d c p.
Proof.
  set (l := filter (fun g => connectorRef g = c /\ permission g = p) (grant_of <$> loadActiveUserPermissionGrants collate scope t d)).
  assert (Hl : forall g, g ∈ l <-> exists row, grants d !! ((sc_orgId scope, sc_userId scope, sc_agentId scope), (c, p)) = Some row /\
    activeGrantCondition t row = true /\ g = {| connectorRef := c; permission := p; action := gr_action row |}).
  { intros g. unfold l. rewrite list_elem_of_filter, list_elem_of_fmap. split.
    - intros [[Hc Hp] ([[s [c' p']] row] & -> & Hin)]. apply elem_of_active in Hin as (Hg & Hs & Ha). cbn in Hc, Hp, Hs. subst. by exists row.
    - intros (row & Hg & Ha & ->). split; [done|]. exists (((sc_orgId scope, sc_userId scope, sc_agentId scope), (c, p)), row).
      split; [done|]. by apply elem_of_active. }
  unfold last_grant. fold l. unfold decided. destruct (last l) as [g|] eqn:El.
  - apply last_Some_elem_of, Hl in El as (row & -> & Ha & ->). cbn. by rewrite Ha.
  - apply last_None in El. destruct (grants d !! _) as [row|] eqn:Eg; [|done]. cbn.
    destruct (activeGrantCondition t row) eqn:Ea; [|done]. exfalso.
    apply (not_elem_of_nil {| connectorRef := c; permission := p; action := gr_action row |}). rewrite <- El. apply Hl. by exists row.
Qed.

(** ** Policies *)

Section Policies.
Context `{GeneratedRegistry}.

(** A stored policy over the defaults of its connector. *)
Definition layer (c : jsstr) (config : FirewallConfig) (stored : option FirewallPolicy) : FirewallPolicy :=
  let defaults := getDefaultFirewallPolicies c (expandPlaceholders config c) in
  {| policies := match stored with Some e => policies e ∪ policies defaults | None => policies defaults end;
     unknownPolicy := Some (default PAllow (e ← stored; unknownPolicy e)) |}.

Lemma layer_twice c config stored : layer c config (Some (layer c config stored)) = layer c config stored.
Proof.
  unfold layer. f_equal. cbn [policies]. destruct stored as [e|]; rewrite <- ?map_union_assoc, map_union_idemp; done.
Qed.

Lemma resolve_connector_layer stored c config : registry_lookup c = Some config ->
  resolve_connector stored c = Ok (Some (<[c := layer c config (default ∅ stored !! c)]> (default ∅ stored))).
Proof.
  intros Hc. unfold resolve_connector, isFirewallConnectorType, getConnectorFirewall. rewrite Hc.
  rewrite bool_decide_eq_true_2 by eauto. cbn. do 4 f_equal. unfold layer. destruct (default ∅ stored !! c) as [e|]; [|done].
  cbn. by destruct (unknownPolicy e).
Qed.

Lemma resolve_connector_others stored c r c' : resolve_connector stored c = Ok r -> c' <> c ->
  default ∅ r !! c' = default ∅ stored !! c'.
Proof.
  unfold resolve_connector. destruct (negb _); [by intros [= <-]|]. destruct (getConnectorFirewall c); [|done].
  intros [= <-] Hne. cbn. by rewrite lookup_insert_ne.
Qed.

Lemma resolve_policies_entry cs stored r c config : registry_lookup c = Some config ->
  resolveFirewallPolicies stored cs = Ok r ->
  default ∅ r !! c = if bool_decide (c ∈ cs) then Some (layer c config (default ∅ stored !! c)) else default ∅ stored !! c.
Proof.
  intros Hc. revert stored. induction cs as [|x cs IH]; intros stored; cbn [resolveFirewallPolicies]; [by intros [= <-]|].
  intros (r1 & H1 & H2)%result_bind_ok. rewrite (IH _ H2). clear IH H2. destruct (decide (x = c)) as [->|Hne].
  - rewrite (resolve_connector_layer _ _ _ Hc) in H1. injection H1 as <-. cbn [from_option id]. rewrite lookup_insert_eq, layer_twice.
    rewrite (bool_decide_eq_true_2 (c ∈ c :: cs)) by (apply elem_of_cons; by left). by case_bool_decide.
  - rewrite (resolve_connector_others _ _ _ c H1) by done.
    by rewrite (bool_decide_ext (c ∈ x :: cs) (c ∈ cs)) by (rewrite elem_of_cons; naive_solver).
Qed.

(** No connector of the list is only an inherited name. *)
Lemma resolve_policies_ok cs stored : (forall c, c ∈ cs -> c ∉ object_prototype_names) -> exists r, resolveFirewallPolicies stored cs = Ok r.
Proof.
  revert stored. induction cs as [|x cs IH]; intros stored Hall; cbn; [by eexists|].
  assert (exists r, resolve_connector stored x = Ok r) as [r ->].
  { unfold resolve_connector, isFirewallConnectorType, getConnectorFirewall.
    rewrite (bool_decide_eq_false_2 (x ∈ object_prototype_names)) by (apply Hall, elem_of_cons; by left).
    destruct (registry_lookup x); cbn; by eexists. }
  apply IH. intros c Hin. apply Hall, elem_of_cons. by right.
Qed.

End Policies.

(** ** Runs and grants *)

Section Theorems.
Context `{GeneratedRegistry} (collate : jsstr -> jsstr -> bool) (isConnectorType : jsstr -> bool).

(** The decision of resolved policies; the reserved name asks for the unknown policy. *)
Definition policy_for (r : option FirewallPolicies) (c p : jsstr) : option FirewallPolicyValue := m ← r; granted m c p.

Definition default_for (c : jsstr) (config : FirewallConfig) (p : jsstr) : option FirewallPolicyValue :=
  if decide (p = UNKNOWN_PERMISSION_GRANT) then Some PAllow
  else policies (getDefaultFirewallPolicies c (expandPlaceholders config c)) !! p.

Lemma policy_for_entry r c p :
  policy_for r c p = default ∅ r !! c ≫= fun pol => if decide (p = UNKNOWN_PERMISSION_GRANT) then unknownPolicy pol else policies pol !! p.
Proof. unfold policy_for, granted. destruct r as [m|]; cbn; [done|]. by rewrite lookup_empty. Qed.

Lemma layer_decides c config stored p :
  (if decide (p = UNKNOWN_PERMISSION_GRANT) then unknownPolicy (layer c config stored) else policies (layer c config stored) !! p) =
  match stored ≫= (fun pol => if decide (p = UNKNOWN_PERMISSION_GRANT) then unknownPolicy pol else policies pol !! p) with
  | Some v => Some v
  | None => default_for c config p
  end.
Proof.
  unfold default_for, layer. cbn [unknownPolicy policies]. destruct (decide (p = UNKNOWN_PERMISSION_GRANT)) as [Hu|Hu].
  - destruct stored as [e|]; cbn; [|done]. by destruct (unknownPolicy e).
  - destruct stored as [e|]; cbn [mbind option_bind]; [|done]. rewrite lookup_union. by destruct (policies e !! p), (policies _ !! p).
Qed.

Lemma zero_policies orgId userId agentId types t d r c config p :
  resolveZeroRunPermissionPolicies collate orgId userId agentId types t d = Ok r ->
  c ∈ types -> registry_lookup c = Some config ->
  policy_for r c p =
  match decided {| sc_orgId := orgId; sc_userId := userId; sc_agentId := agentId |} t (zd_grants d) c p with
  | Some v => Some v | None => default_for c config p end.
Proof.
  unfold resolveZeroRunPermissionPolicies. intros Hr Hin Hc. set (scope := {| sc_orgId := orgId |}) in *.
  set (gs := grant_of <$> _) in Hr. rewrite policy_for_entry, (resolve_policies_entry _ _ _ _ _ Hc Hr).
  rewrite bool_decide_eq_true_2 by done. cbn [mbind option_bind]. rewrite layer_decides, <- policy_for_entry.
  unfold policy_for. rewrite permissionGrantsToFirewallPolicies_spec. unfold gs. by rewrite last_active.
Qed.

Lemma runnable_agent_ok orgId userId agentId d agent : runnable_agent orgId userId agentId d = inr agent ->
  agents (zd_grants d) !! agentId = Some agent /\ za_orgId agent = orgId /\
  (za_visibility agent = Public \/ za_owner agent = userId).
Proof.
  unfold runnable_agent, loadZeroAgent. destruct (agents (zd_grants d) !! agentId) as [a|]; cbn; [|done].
  case_bool_decide; [|done]. case_bool_decide as Ho; cbn; [|done]. destruct (_ && _) eqn:E; [done|]. intros [= <-].
  split_and!; try done. apply andb_false_iff in E as [E|E].
  - left. apply bool_decide_eq_false in E. by destruct (za_visibility a).
  - right. apply negb_false_iff in E. by apply bool_decide_eq_true in E.
Qed.

Lemma zero_run_request baseUrl secret args d req :
  createZeroRun collate isConnectorType (fun r => r) baseUrl secret args d = Ok (inr req) ->
  let orgId := au_orgId (cz_auth args) in let userId := au_userId (cz_auth args) in
  let agentId := rb_agentComposeId (rr_body req) in
  rr_orgId req = orgId /\ rr_userId req = userId /\
  (exists agent, agents (zd_grants d) !! agentId = Some agent /\ za_orgId agent = orgId /\
     (za_visibility agent = Public \/ za_owner agent = userId)) /\
  (forall c, c ∈ rr_allowedConnectorTypes req -> (orgId, userId, agentId, c) ∈ zd_connectors d /\ isConnectorType c = true) /\
  (forall c config p, c ∈ rr_allowedConnectorTypes req -> registry_lookup c = Some config ->
     policy_for (rb_permissionPolicies (rr_body req)) c p =
     match grants (zd_grants d) !! ((orgId, userId, agentId), (c, p)) with
     | Some row => if activeGrantCondition (cz_apiStartTime args) row then Some (gr_action row) else default_for c config p
     | None => default_for c config p
     end).
Proof.
  unfold createZeroRun. cbn zeta. destruct (truthy_id (body_agent _ _ _)) as [agentId|]; [|done].
  destruct (runnable_agent _ _ agentId d) as [e|agent] eqn:Ea; [done|]. intros (r & Hr & Hreq)%result_bind_ok. injection Hreq as <-.
  cbn [rr_orgId rr_userId rr_body createRunBody rb_agentComposeId rr_allowedConnectorTypes rb_permissionPolicies].
  split_and!; [done..| | |].
  - exists agent. by apply runnable_agent_ok.
  - intros c Hc. unfold loadAllowedConnectorTypes, rows_for in Hc. apply list_elem_of_filter in Hc as [Ht Hc].
    apply list_elem_of_fmap in Hc as ([k c'] & -> & Hc). apply list_elem_of_filter in Hc as [Hk Hc]. cbn in Hk. subst. done.
  - intros c config p Hc Hcf. rewrite (zero_policies _ _ _ _ _ _ _ _ _ _ Hr Hc Hcf). unfold decided. cbn [sc_orgId sc_userId sc_agentId].
    destruct (grants _ !! _) as [row|]; [|done]. cbn. by destruct (activeGrantCondition _ _).
Qed.

(** *** The grants a run cannot see *)

Definition with_grant_db (d : ZeroDb) (g : GrantDb) : ZeroDb :=
  {| zd_grants := g; zd_composed := zd_composed d; zd_sessions := zd_sessions d; zd_connectors := zd_connectors d;
     zd_customConnectors := zd_customConnectors d; zd_users := zd_users d; zd_timezones := zd_timezones d;
     zd_runComposes := zd_runComposes d |}.

(** Two tables with the same agents and the same grants of a user. *)
Definition same_for (orgId userId : jsstr) (g g' : GrantDb) : Prop :=
  agents g' = agents g /\ forall agentId c p, grants g' !! ((orgId, userId, agentId), (c, p)) = grants g !! ((orgId, userId, agentId), (c, p)).

Lemma upsert_others timestamp orgId userId grant g r g' o u :
  upsertUserPermissionGrant timestamp orgId userId grant g = (r, g') -> (o, u) <> (orgId, userId) -> same_for o u g g'.
Proof.
  intros Hu Hne. unfold upsertUserPermissionGrant, upsertVisibleGrantRow in Hu.
  repeat (case_match; simplify_eq); try by split. all: split; [done|]; intros a c p; cbn; unfold key_of.
  all: rewrite lookup_insert_ne; [done|congruence].
Qed.

Lemma reset_others orgId userId agentId connectorRef g r g' o u :
  resetUserPermissionGrants orgId userId agentId connectorRef g = (r, g') -> (o, u) <> (orgId, userId) -> same_for o u g g'.
Proof.
  intros Hu Hne. unfold resetUserPermissionGrants, resetVisibleConnectorGrantRows in Hu.
  repeat (case_match; simplify_eq); try by split. split; [done|]. intros a c p. cbn. rewrite map_lookup_filter.
  destruct (grants g !! _); cbn; [|done]. rewrite option_guard_True; [done|]. cbn. intros [Hk _]. congruence.
Qed.

(** Whether a policy lookup throws does not depend on what is stored. *)
Lemma resolve_policies_throws cs stored stored' r : resolveFirewallPolicies stored cs = Ok r -> exists r', resolveFirewallPolicies stored' cs = Ok r'.
Proof.
  revert stored stored'. induction cs as [|x cs IH]; intros stored stored'; cbn; [by eexists|].
  intros (r1 & H1 & H2)%result_bind_ok. assert (exists r1', resolve_connector stored' x = Ok r1') as [r1' ->].
  { unfold resolve_connector in *. destruct (negb _); [by eexists|]. destruct (getConnectorFirewall x); [by eexists|done]. }
  by eapply IH.
Qed.

Lemma runnable_agent_agents orgId userId agentId d g : agents g = agents (zd_grants d) ->
  runnable_agent orgId userId agentId (with_grant_db d g) = runnable_agent orgId userId agentId d.
Proof. intros Hg. unfold runnable_agent, loadZeroAgent. cbn [zd_grants with_grant_db zd_composed]. by rewrite Hg. Qed.

(** What other users grant or reset never reaches a run: if another organization or user upserts a
    grant or resets the grants of a connector, of whatever agent, the user's request is answered
    as before, with the same agent, connectors and policy for every permission. *)
Theorem grants_isolated timestamp orgId userId grant agentId connector baseUrl secret args d g' req :
  (upsertUserPermissionGrant timestamp orgId userId grant (zd_grants d)).2 = g' \/
  (resetUserPermissionGrants orgId userId agentId connector (zd_grants d)).2 = g' ->
  (au_orgId (cz_auth args), au_userId (cz_auth args)) <> (orgId, userId) ->
  createZeroRun collate isConnectorType (fun r => r) baseUrl secret args d = Ok (inr req) ->
  exists req', createZeroRun collate isConnectorType (fun r => r) baseUrl secret args (with_grant_db d g') = Ok (inr req') /\
    rb_agentComposeId (rr_body req') = rb_agentComposeId (rr_body req) /\
    rr_allowedConnectorTypes req' = rr_allowedConnectorTypes req /\
    (forall c config p, c ∈ rr_allowedConnectorTypes req -> registry_lookup c = Some config ->
       policy_for (rb_permissionPolicies (rr_body req')) c p = policy_for (rb_permissionPolicies (rr_body req)) c p).
Proof.
  intros Hg Hne. assert (same_for (au_orgId (cz_auth args)) (au_userId (cz_auth args)) (zd_grants d) g') as [Ha Hs].
  { destruct Hg as [<-|<-]; [eapply upsert_others|eapply reset_others]; try done; apply surjective_pairing. }
  unfold createZeroRun. cbn zeta.
  change (body_agent (cz_auth args) (cz_body args) (with_grant_db d g')) with (body_agent (cz_auth args) (cz_body args) d).
  destruct (truthy_id (body_agent _ _ _)) as [a|]; [|done]. rewrite runnable_agent_agents by done.
  destruct (runnable_agent _ _ a d) as [e|agent]; [done|]. intros (r & Hr & Hreq)%result_bind_ok. injection Hreq as <-.
  change (loadAllowedConnectorTypes isConnectorType ?o ?u a (with_grant_db d g')) with (loadAllowedConnectorTypes isConnectorType o u a d).
  assert (Hr0 := Hr). unfold resolveZeroRunPermissionPolicies in Hr0.
  destruct (resolve_policies_throws _ _ (permissionGrantsToFirewallPolicies (grant_of <$> loadActiveUserPermissionGrants collate
    {| sc_orgId := au_orgId (cz_auth args); sc_userId := au_userId (cz_auth args); sc_agentId := a |} (cz_apiStartTime args) g')) _ Hr0)
    as [r' Hr'].
  change (resolveZeroRunPermissionPolicies collate (au_orgId (cz_auth args)) (au_userId (cz_auth args)) a
    (loadAllowedConnectorTypes isConnectorType (au_orgId (cz_auth args)) (au_userId (cz_auth args)) a d) (cz_apiStartTime args)
    (with_grant_db d g') = Ok r') in Hr'.
  rewrite Hr'. cbn [mbind result_bind]. eexists. split; [reflexivity|].
  cbn [rr_body createRunBody rb_agentComposeId rr_allowedConnectorTypes rb_permissionPolicies]. split_and!; [done..|].
  intros c config p Hc Hcf. rewrite (zero_policies _ _ _ _ _ _ _ _ _ _ Hr Hc Hcf), (zero_policies _ _ _ _ _ _ _ _ _ _ Hr' Hc Hcf).
  unfold decided. cbn [sc_orgId sc_userId sc_agentId zd_grants with_grant_db]. by rewrite Hs.
Qed.

(** *** From a grant to the sandbox *)

Lemma upsert_granted timestamp orgId userId grant g resp g' :
  upsertUserPermissionGrant timestamp orgId userId grant g = (Ok (inr resp), g') ->
  exists row, grants g' !! key_of orgId userId grant = Some row /\ gr_action row = ur_action grant /\
    gr_expiresAt row = gp_expiresAt resp /\ gr_expiresAt row = new_expiry grant (grants g !! key_of orgId userId grant) timestamp /\
    validateGrantExpiration grant = None.
Proof.
  unfold upsertUserPermissionGrant, upsertVisibleGrantRow. intros Hu. repeat (case_match; simplify_eq).
  all: eexists; cbn; rewrite lookup_insert_eq; split_and!; done.
Qed.

(** After a reset of a connector, the runs of the user and agent have its defaults again. *)
Theorem reset_restores_defaults agentId c config g g' baseUrl secret args d req p :
  resetUserPermissionGrants (au_orgId (cz_auth args)) (au_userId (cz_auth args)) agentId c g = (None, g') ->
  createZeroRun collate isConnectorType (fun r => r) baseUrl secret args (with_grant_db d g') = Ok (inr req) ->
  rb_agentComposeId (rr_body req) = agentId -> c ∈ rr_allowedConnectorTypes req -> registry_lookup c = Some config ->
  policy_for (rb_permissionPolicies (rr_body req)) c p = default_for c config p.
Proof.
  intros Hreset Hrun Hagent Hin Hcf. destruct (zero_run_request _ _ _ _ _ Hrun) as (_ & _ & _ & _ & Hpol).
  rewrite (Hpol c config p Hin Hcf), Hagent. clear Hpol. unfold resetUserPermissionGrants, resetVisibleConnectorGrantRows in Hreset.
  destruct (validateConnectorRef c); [done|]. destruct (lockVisibleAgentForUpdate _ _); [|done]. injection Hreset as <-.
  cbn [zd_grants with_grant_db grants with_grants]. destruct (filter _ _ !! _) as [row|] eqn:El; [|done].
  apply map_lookup_filter_Some in El as [_ Hk]. by destruct Hk.
Qed.

Lemma rec_own_map_to_list {A} (m : gmap jsstr A) k : rec_own (map_to_list m) k = m !! k.
Proof.
  apply option_eq. intros v. rewrite <- elem_of_map_to_list.
  assert (Hnd := NoDup_fst_map_to_list m). revert Hnd. generalize (map_to_list m). intros l.
  induction l as [|[k' v'] l IH]; cbn; intros Hnd; [split; [done|by intros ?%elem_of_nil]|].
  apply NoDup_cons in Hnd as [Hni Hnd]. rewrite elem_of_cons. case_bool_decide as Hk.
  - subst k'. split; [intros [= ->]; by left|]. intros [[= ->]|Hin]; [done|].
    destruct Hni. apply list_elem_of_fmap. by exists (k, v).
  - rewrite (IH Hnd). split; [by right|]. intros [[= <- <-]|Hin]; done.
Qed.

Context `{Platform} `{ModelProviders}.

(** A grant takes effect in the runs of its user and agent. Once a grant is stored, every later run of
    that agent by that user with the connector enabled gets the granted action for the
    permission until the grant expires, and the default of the connector from then on; an allow
    with a duration expires exactly then, a deny never; and a denied permission is in no allow
    list of the network policies the sandbox of the run is given. *)
Theorem grant_reaches_run timestamp grant g resp g' baseUrl secret args d req config :
  let orgId := au_orgId (cz_auth args) in let userId := au_userId (cz_auth args) in
  upsertUserPermissionGrant timestamp orgId userId grant g = (Ok (inr resp), g') ->
  createZeroRun collate isConnectorType (fun r => r) baseUrl secret args (with_grant_db d g') = Ok (inr req) ->
  rb_agentComposeId (rr_body req) = ur_agentId grant ->
  ur_connectorRef grant ∈ rr_allowedConnectorTypes req -> registry_lookup (ur_connectorRef grant) = Some config ->
  policy_for (rb_permissionPolicies (rr_body req)) (ur_connectorRef grant) (ur_permission grant) =
    (if match gp_expiresAt resp with None => true | Some e => cz_apiStartTime args <? e end
     then Some (ur_action grant) else default_for (ur_connectorRef grant) config (ur_permission grant)) /\
  (forall x, ur_expiresIn grant = Some x -> gp_expiresAt resp = resolveGrantExpiresAt (Some x) timestamp) /\
  (ur_action grant = PDeny -> gp_expiresAt resp = None /\
   (ur_permission grant <> UNKNOWN_PERMISSION_GRANT ->
    forall margs m np, buildPermissionManifest margs = Ok (Some m) ->
      ma_permissionPolicies margs = map_to_list <$> rb_permissionPolicies (rr_body req) ->
      provider_firewall_name (ma_modelProvider margs) <> Some (ur_connectorRef grant) ->
      rec_own (pm_networkPolicies m) (ur_connectorRef grant) = Some np -> ur_permission grant ∉ np_allow np)).
Proof.
  cbn zeta. intros Hu Hrun Hagent Hin Hcf. assert (Hup := upsert_granted _ _ _ _ _ _ _ Hu).
  destruct Hup as (row & Hrow & Hact & Hexp & Hnew & Hval).
  destruct (zero_run_request _ _ _ _ _ Hrun) as (_ & _ & _ & _ & Hpol). rewrite Hagent in Hpol.
  specialize (Hpol _ config (ur_permission grant) Hin Hcf). cbn [zd_grants with_grant_db] in Hpol.
  change (grants g' !! _) with (grants g' !! key_of (au_orgId (cz_auth args)) (au_userId (cz_auth args)) grant) in Hpol.
  rewrite Hrow in Hpol. unfold activeGrantCondition in Hpol. rewrite Hact, Hexp in Hpol. split; [done|]. rewrite <- Hexp, Hnew.
  unfold validateGrantExpiration in Hval. unfold new_expiry in *. split.
  - intros x Hx. rewrite Hx in *. rewrite bool_decide_eq_true_2 in Hval |- *; [done| |]; by destruct (ur_action grant).
  - intros Hd. rewrite Hd in *. rewrite bool_decide_eq_false_2 in * by done. split; [done|].
    intros Hp margs m np Hm Hma Hprov Hnp. rewrite <- Hexp, Hnew in Hpol. rewrite policy_for_entry in Hpol.
    destruct (default ∅ (rb_permissionPolicies (rr_body req)) !! ur_connectorRef grant) as [pol|] eqn:Epol; cbn in Hpol; [|done].
    rewrite decide_False in Hpol by done.
    eapply (proj2 (proj2 (permission_manifest_ok margs m Hm))); [|by rewrite Hpol|done|done].
    rewrite Hma. destruct (rb_permissionPolicies (rr_body req)) as [pm|]; cbn in *; [by rewrite rec_own_map_to_list|].
    by rewrite lookup_empty in Epol.
Qed.

End Theorems.

(** ** Concrete runs *)

Section Witnesses.

Definition sample_files : FirewallConfig :=
  {| fc_name := js "files"; fc_description := None; fc_placeholders := None;
     fc_apis := [{| api_base := js "https://files.example.com";
                    api_auth := {| auth_headers := None; auth_base := None; auth_query := None; auth_awsSigv4 := None |};
                    api_permissions := Some [{| perm_name := js "read"; perm_description := None; perm_rules := [js "GET /files/{id}"] |}] |}] |}.

Definition sample_connectors : GeneratedRegistry :=
  {| CONNECTOR_FIREWALLS := [(js "files", sample_files)]; DEFAULT_ALLOWED _ := None; getConnectorEnvBindingEntries _ := [] |}.
#[local] Existing Instance sample_connectors.
#[local] Existing Instance ascii_platform.
#[local] Existing Instance sample_providers.

Definition sample_agent : ZeroAgent :=
  {| za_orgId := js "org"; za_owner := js "owner"; za_visibility := Public; za_displayName := None; za_description := None;
     za_sound := None; za_customSkills := []; za_modelProviderId := None; za_selectedModel := None |}.

Definition sample_grants : GrantDb := {| agents := {[js "agent" := sample_agent]}; grants := ∅ |}.

Definition sample_zero : ZeroDb :=
  {| zd_grants := sample_grants; zd_composed := {[js "agent"]}; zd_sessions := ∅;
     zd_connectors := [(js "org", js "user", js "agent", js "files")]; zd_customConnectors := []; zd_users := ∅;
     zd_timezones := ∅; zd_runComposes := ∅ |}.

Definition sample_extras : UserInfoExtras :=
  {| ux_slackDisplayName := None; ux_slackUserId := None; ux_telegramDisplayName := None; ux_telegramUsername := None;
     ux_telegramUserId := None; ux_telegramLanguage := None; ux_agentphoneHandle := None |}.

Definition sample_run_args (t : Z) : CreateZeroRunCommandArgs :=
  {| cz_auth := {| au_userId := js "user"; au_orgId := js "org"; au_runId := None |};
     cz_body := {| zb_prompt := js "hi"; zb_agentId := Some (js "agent"); zb_sessionId := None; zb_modelProvider := None;
                   zb_passthrough := no_passthrough |};
     cz_apiStartTime := t; cz_triggerSource := None; cz_appendSystemPrompt := None; cz_userInfoExtras := sample_extras;
     cz_callbacks := []; cz_chatThreadId := None; cz_computerUseHostId := None; cz_modelProviderId := None;
     cz_modelProviderCredentialScope := None; cz_selectedModelOverride := None;
     cz_zeroRunMetadata := {| zm_triggerAgentId := None; zm_automationId := None; zm_triggerId := None |} |}.

Definition sample_grant (a : FirewallPolicyValue) (x : option UserPermissionGrantExpiresIn) : UpsertUserPermissionGrantRequest :=
  {| ur_agentId := js "agent"; ur_connectorRef := js "files"; ur_permission := js "read"; ur_action := a; ur_expiresIn := x |}.

Definition sample_collate : jsstr -> jsstr -> bool := fun _ _ => true.
Definition sample_types : jsstr -> bool := fun _ => true.

(** The request of a run, and what the command hands to [createAgentRun]. *)
Definition sample_request (t : Z) (d : ZeroDb) : result (ZeroRunError + AgentRunRequest) :=
  createZeroRun sample_collate sample_types (fun r => r) (js "http://api") (js "secret") (sample_run_args t) d.

(** The tables after the user denied, and after another user did. *)
Definition sample_denied : result (GrantError + UserPermissionGrantResponse) * GrantDb :=
  upsertUserPermissionGrant 1000 (js "org") (js "user") (sample_grant PDeny None) sample_grants.
Definition sample_foreign : GrantDb :=
  (upsertUserPermissionGrant 1000 (js "org") (js "other") (sample_grant PDeny None) sample_grants).2.

Lemma sample_plain : exists req, sample_request 2000 sample_zero = Ok (inr req).
Proof. eexists. vm_compute. reflexivity. Qed.

Lemma sample_after : exists req, sample_request 2000 (with_grant_db sample_zero sample_denied.2) = Ok (inr req) /\
  rb_agentComposeId (rr_body req) = js "agent" /\ js "files" ∈ rr_allowedConnectorTypes req.
Proof.
  eexists. split; [vm_compute; reflexivity|]. split; [reflexivity|]. apply elem_of_cons. left. reflexivity.
Qed.

Lemma sample_denied_ok : exists resp, sample_denied.1 = Ok (inr resp) /\ gp_expiresAt resp = None.
Proof. eexists. split; [vm_compute; reflexivity|]. reflexivity. Qed.

Lemma grants_isolated_witness : exists req req', sample_request 2000 sample_zero = Ok (inr req) /\
  sample_request 2000 (with_grant_db sample_zero sample_foreign) = Ok (inr req') /\
  rr_allowedConnectorTypes req' = rr_allowedConnectorTypes req.
Proof.
  destruct sample_plain as [req Hr].
  destruct (grants_isolated sample_collate sample_types 1000 (js "org") (js "other") (sample_grant PDeny None) (js "agent") (js "files")
    (js "http://api") (js "secret") (sample_run_args 2000) sample_zero sample_foreign req) as (req' & Hr' & _ & Ht & _).
  - left. reflexivity.
  - cbn. intros [=].
  - exact Hr.
  - exists req, req'. exact (conj Hr (conj Hr' Ht)).
Defined.

Lemma grant_reaches_run_witness : exists req, sample_request 2000 (with_grant_db sample_zero sample_denied.2) = Ok (inr req) /\
  policy_for (rb_permissionPolicies (rr_body req)) (js "files") (js "read") = Some PDeny.
Proof.
  destruct sample_after as (req & Hr & Ha & Ht). destruct sample_denied_ok as (resp & Hd & Hx).
  destruct (grant_reaches_run sample_collate sample_types 1000 (sample_grant PDeny None) sample_grants resp sample_denied.2
    (js "http://api") (js "secret") (sample_run_args 2000) sample_zero req sample_files) as [Hp _].
  - rewrite <- Hd. exact (surjective_pairing sample_denied).
  - exact Hr.
  - exact Ha.
  - exact Ht.
  - reflexivity.
  - exists req. split; [exact Hr|]. rewrite Hx in Hp. exact Hp.
Defined.

End Witnesses.

End ZeroRuns.
