(* ===== verification/RunCompose.v ===== *)
(** The compose a run is created from (turbo/apps/api/src/signals/services/
    agent-run-create.service.ts): a checkpoint, a session, a compose version or an agent, in
    that order, each looked up for the user and organization of the request, with what is
    resumed; and how it relates to the agent that zero-runs-create.service.ts has checked. *)

From S2P Require Import Prelude JsString JsValue JsRecord Templates Registry Permissions PermissionGrants ZeroPrompts ZeroRuns.
Import Templates Registry Permissions PermissionGrants ZeroPrompts ZeroRuns.

Module RunCompose.

(** ** Tables *)

Record ComposeRow := { co_userId : jsstr; co_name : jsstr; co_headVersionId : option jsstr; co_orgId : jsstr }.
Record VersionRow := { cv_composeId : jsstr; cv_content : JsVal }.

(** The columns of [agent_runs] that are read. *)
Record RunColumns := { rn_userId : jsstr; rn_orgId : jsstr; rn_vars : option JsVal }.

Record ConversationRow := {
  cn_runId : jsstr; cn_cliAgentSessionId : jsstr; cn_cliAgentSessionHistory : option jsstr;
  cn_cliAgentSessionHistoryHash : option jsstr }.

Record ComposeSnapshot := { sn_agentComposeVersionId : option jsstr; sn_vars : option JsVal }.

Record CheckpointRow := {
  ck_runId : jsstr; ck_conversationId : jsstr; ck_snapshot : ComposeSnapshot; ck_artifacts : option JsVal;
  ck_volumeVersionsSnapshot : JsVal }.

Record ComposeDb := {
  composes : gmap jsstr ComposeRow;
  versions : gmap jsstr VersionRow;
  runs : gmap jsstr RunColumns;
  conversations : gmap jsstr ConversationRow;
  checkpoints : gmap jsstr CheckpointRow }.

(** ** What is resolved *)

Record ResumeSession := { re_sessionId : jsstr; re_sessionHistory : jsstr }.
Record AdditionalVolume := { av_name : jsstr; av_version : jsstr; av_mountPath : jsstr }.

Record ResolvedCompose := {
  rc_agentComposeVersionId : jsstr; rc_composeId : jsstr; rc_composeUserId : jsstr; rc_orgId : jsstr;
  rc_agentName : option jsstr; rc_content : JsVal; rc_artifacts : JsVal; rc_vars : option JsVal;
  rc_volumeVersions : option JsVal; rc_additionalVolumes : option (list AdditionalVolume); rc_sessionId : option jsstr;
  rc_resumedFromCheckpointId : option jsstr; rc_continuedFromSessionId : option jsstr; rc_resumeSession : option ResumeSession }.

Definition notFound (message : jsstr) : ZeroRunError := RunNotFound message.
Definition badRequestMessage (message : jsstr) : ZeroRunError := RunBadRequest message.

(** A compose as such, with nothing to resume. *)
Definition plain_compose (versionId composeId : jsstr) (compose : ComposeRow) (agentName : option jsstr) (content : JsVal) : ResolvedCompose :=
  {| rc_agentComposeVersionId := versionId; rc_composeId := composeId; rc_composeUserId := co_userId compose;
     rc_orgId := co_orgId compose; rc_agentName := agentName; rc_content := content; rc_artifacts := JArray []; rc_vars := None;
     rc_volumeVersions := None; rc_additionalVolumes := None; rc_sessionId := None; rc_resumedFromCheckpointId := None;
     rc_continuedFromSessionId := None; rc_resumeSession := None |}.

Definition lookupComposeByVersion (versionId : jsstr) (c : ComposeDb) : ZeroRunError + ResolvedCompose :=
  let missing := inl (notFound (js "Agent compose version not found")) in
  match versions c !! versionId with
  | None => missing
  | Some version =>
      match composes c !! cv_composeId version with
      | None => missing
      | Some compose =>
          match truthy_id (Some (cv_composeId version)), truthy_id (Some (co_orgId compose)), truthy_id (Some (co_userId compose)) with
          | Some composeId, Some _, Some _ => inr (plain_compose versionId composeId compose (Some (co_name compose)) (cv_content version))
          | _, _, _ => missing
          end
      end
  end.

Definition resolveByComposeId (composeId : jsstr) (c : ComposeDb) : ZeroRunError + ResolvedCompose :=
  match composes c !! composeId with
  | None => inl (notFound (js "Agent compose not found"))
  | Some compose =>
      let version := headVersionId ← truthy_id (co_headVersionId compose);
                     version ← versions c !! headVersionId;
                     Some (headVersionId, version) in
      match version with
      | None => inl (badRequestMessage (js "Agent compose has no versions. Run 'vm0 build' first."))
      | Some (versionId, version) => inr (plain_compose versionId composeId compose (truthy_id (Some (co_name compose))) (cv_content version))
      end
  end.

(** ** Checkpoints *)

Definition member (v : JsVal) (key : string) : JsVal := match v with JObject props => prop_of props (js key) | _ => JUndefined end.

Definition parseVolumeVersionsSnapshot (value : JsVal) : option JsVal :=
  match value with
  | JObject _ | JArray _ => Some (match member value "versions" with JObject p => JObject p | JArray l => JArray l | _ => value end)
  | _ => None
  end.

Definition parseAdditionalVolumeSnapshot (value : JsVal) : option AdditionalVolume :=
  match as_string (member value "name"), as_string (member value "versionId"), as_string (member value "mountPath") with
  | Some name, Some versionId, Some mountPath => Some {| av_name := name; av_version := versionId; av_mountPath := mountPath |}
  | _, _, _ => None
  end.

Definition parseAdditionalVolumesSnapshot (value : JsVal) : option (list AdditionalVolume) :=
  match member value "additionalVolumes" with
  | JArray l => match omap parseAdditionalVolumeSnapshot l with [] => None | parsed => Some parsed end
  | _ => None
  end.

Section Resolve.

(** [downloadS3Buffer] of the bucket of user storages, as text. *)
Context (download : jsstr -> result jsstr).

Definition resolveConversationSessionHistory (hash legacyText : option jsstr) : result (option jsstr) :=
  match truthy_id hash with
  | Some hash =>
      match download (js "blobs/" ++ hash ++ js ".blob") with
      | Ok text => Ok (Some text)
      | Throw e => match truthy_id legacyText with Some text => Ok (Some text) | None => Throw e end
      end
  | None => Ok (truthy_id legacyText)
  end.

Definition loadResumeSession (conversationId : jsstr) (c : ComposeDb) : result (option ResumeSession) :=
  match conversations c !! conversationId with
  | None => Ok None
  | Some conversation =>
      sessionHistory ← resolveConversationSessionHistory (cn_cliAgentSessionHistoryHash conversation)
        (cn_cliAgentSessionHistory conversation);
      Ok (h ← sessionHistory; Some {| re_sessionId := cn_cliAgentSessionId conversation; re_sessionHistory := h |})
  end.

Definition resolveBySessionId (sessionId userId orgId : jsstr) (d : ZeroDb) (c : ComposeDb) : result (ZeroRunError + ResolvedCompose) :=
  match zd_sessions d !! sessionId with
  | None => Ok (inl (notFound (js "Agent session not found")))
  | Some session =>
      if bool_decide (se_userId session = userId) && bool_decide (se_orgId session = orgId) then
        match resolveByComposeId (se_agentComposeId session) c with
        | inl error => Ok (inl error)
        | inr resolved =>
            resumeSession ← (match se_conversationId session with
              | None => Ok None | Some conversationId => loadResumeSession conversationId c end);
            let lastRun := conversationId ← se_conversationId session; conversation ← conversations c !! conversationId;
                           runs c !! cn_runId conversation in
            Ok (inr {| rc_agentComposeVersionId := rc_agentComposeVersionId resolved; rc_composeId := rc_composeId resolved;
              rc_composeUserId := rc_composeUserId resolved; rc_orgId := rc_orgId resolved; rc_agentName := rc_agentName resolved;
              rc_content := rc_content resolved; rc_artifacts := default (JArray []) (se_artifacts session);
              rc_vars := run ← lastRun; rn_vars run; rc_volumeVersions := None; rc_additionalVolumes := None;
              rc_sessionId := Some sessionId; rc_resumedFromCheckpointId := None; rc_continuedFromSessionId := Some sessionId;
              rc_resumeSession := resumeSession |})
        end
      else Ok (inl (notFound (js "Agent session not found")))
  end.

Definition resolveByCheckpointId (checkpointId userId orgId : jsstr) (c : ComposeDb) : result (ZeroRunError + ResolvedCompose) :=
  let row := checkpoint ← checkpoints c !! checkpointId; run ← runs c !! ck_runId checkpoint;
             if bool_decide (rn_userId run = userId) && bool_decide (rn_orgId run = orgId) then Some checkpoint else None in
  match row with
  | None => Ok (inl (notFound (js "Checkpoint not found")))
  | Some row =>
      match truthy_id (sn_agentComposeVersionId (ck_snapshot row)) with
      | None => Ok (inl (badRequestMessage (js "Invalid checkpoint: missing agentComposeVersionId")))
      | Some versionId =>
          match lookupComposeByVersion versionId c with
          | inl error => Ok (inl error)
          | inr resolved =>
              resumeSession ← loadResumeSession (ck_conversationId row) c;
              Ok (inr {| rc_agentComposeVersionId := rc_agentComposeVersionId resolved; rc_composeId := rc_composeId resolved;
                rc_composeUserId := rc_composeUserId resolved; rc_orgId := rc_orgId resolved; rc_agentName := rc_agentName resolved;
                rc_content := rc_content resolved; rc_artifacts := default (JArray []) (ck_artifacts row);
                rc_vars := Some (default (JObject []) (sn_vars (ck_snapshot row)));
                rc_volumeVersions := parseVolumeVersionsSnapshot (ck_volumeVersionsSnapshot row);
                rc_additionalVolumes := parseAdditionalVolumesSnapshot (ck_volumeVersionsSnapshot row);
                rc_sessionId := None; rc_resumedFromCheckpointId := Some checkpointId; rc_continuedFromSessionId := None;
                rc_resumeSession := resumeSession |})
          end
      end
  end.

(** ** The order of preference *)

Definition resolveCompose (body : RunBody) (userId orgId : jsstr) (d : ZeroDb) (c : ComposeDb) : result (ZeroRunError + ResolvedCompose) :=
  match truthy_id (pt_checkpointId (rb_passthrough body)), truthy_id (rb_sessionId body) with
  | Some _, Some _ =>
      Ok (inl (badRequestMessage (js "Cannot specify both checkpointId and sessionId. Use checkpointId to resume from a checkpoint, or sessionId to continue a session.")))
  | Some checkpointId, None => resolveByCheckpointId checkpointId userId orgId c
  | None, Some sessionId => resolveBySessionId sessionId userId orgId d c
  | None, None =>
      match truthy_id (pt_agentComposeVersionId (rb_passthrough body)) with
      | Some versionId => Ok (lookupComposeByVersion versionId c)
      | None =>
          match truthy_id (Some (rb_agentComposeId body)) with
          | None => Ok (inl (badRequestMessage (js "Missing agentComposeId or agentComposeVersionId. Provide composeId, agentComposeVersionId, checkpointId, or sessionId.")))
          | Some composeId => Ok (resolveByComposeId composeId c)
          end
      end
  end.

(** The resolution of a run's compose with the check of its organization ([prepareRunContext]). *)
Definition resolve_for_run (req : AgentRunRequest) (d : ZeroDb) (c : ComposeDb) : result (ZeroRunError + ResolvedCompose) :=
  resolved ← resolveCompose (rr_body req) (rr_userId req) (rr_orgId req) d c;
  match resolved with
  | inl error => Ok (inl error)
  | inr resolved =>
      if bool_decide (rc_orgId resolved = rr_orgId req) then Ok (inr resolved) else Ok (inl (notFound (js "Resource not found")))
  end.

End Resolve.

(** ** The checked agent and the compose of the run *)

Lemma truthy_id_some o a : truthy_id o = Some a -> o = Some a.
Proof. by destruct o as [[|? ?]|]. Qed.

Section Theorems.
Context `{GeneratedRegistry} (collate : jsstr -> jsstr -> bool) (isConnectorType : jsstr -> bool) (download : jsstr -> result jsstr).

Lemma by_compose_id composeId c r : resolveByComposeId composeId c = inr r ->
  rc_composeId r = composeId /\ exists compose, composes c !! composeId = Some compose /\ rc_orgId r = co_orgId compose /\
    co_headVersionId compose = Some (rc_agentComposeVersionId r).
Proof.
  unfold resolveByComposeId. destruct (composes c !! composeId) as [compose|]; [|done].
  destruct (truthy_id (co_headVersionId compose)) as [v|] eqn:Ev; [|done]. cbn. destruct (versions c !! v) as [version|]; [|done].
  cbn. intros [= <-]. split; [done|]. exists compose. by rewrite (truthy_id_some _ _ Ev).
Qed.

Lemma by_version versionId c r : lookupComposeByVersion versionId c = inr r ->
  rc_agentComposeVersionId r = versionId /\ exists version, versions c !! versionId = Some version /\ rc_composeId r = cv_composeId version.
Proof.
  unfold lookupComposeByVersion. destruct (versions c !! versionId) as [version|]; [|done].
  destruct (composes c !! cv_composeId version) as [compose|]; [|done].
  destruct (truthy_id (Some (cv_composeId version))) as [i|] eqn:Ei; [|done]. apply truthy_id_some in Ei as [= <-].
  repeat case_match; try done. intros [= <-]. split; [done|]. by exists version.
Qed.

Lemma by_session sessionId userId orgId d c r : resolveBySessionId download sessionId userId orgId d c = Ok (inr r) ->
  exists session, zd_sessions d !! sessionId = Some session /\ se_userId session = userId /\ se_orgId session = orgId /\
    rc_composeId r = se_agentComposeId session.
Proof.
  unfold resolveBySessionId. destruct (zd_sessions d !! sessionId) as [session|]; [|done].
  destruct (bool_decide _ && bool_decide _) eqn:Eo; [|done]. apply andb_true_iff in Eo as [Hu Ho]. bool_facts.
  destruct (resolveByComposeId _ c) as [|resolved] eqn:Er; [done|]. intros (resume & _ & [= <-])%result_bind_ok.
  exists session. apply by_compose_id in Er as [Hc _]. by rewrite <- Hc.
Qed.

Lemma by_checkpoint checkpointId userId orgId c r : resolveByCheckpointId download checkpointId userId orgId c = Ok (inr r) ->
  exists checkpoint run version, checkpoints c !! checkpointId = Some checkpoint /\ runs c !! ck_runId checkpoint = Some run /\
    rn_userId run = userId /\ rn_orgId run = orgId /\
    sn_agentComposeVersionId (ck_snapshot checkpoint) = Some (rc_agentComposeVersionId r) /\
    versions c !! rc_agentComposeVersionId r = Some version /\ rc_composeId r = cv_composeId version.
Proof.
  unfold resolveByCheckpointId. destruct (checkpoints c !! checkpointId) as [row|]; [|done]. cbn [mbind option_bind].
  destruct (runs c !! ck_runId row) as [run|] eqn:En; [|done]. cbn [mbind option_bind].
  destruct (bool_decide _ && bool_decide _) eqn:Eo; [|done]. apply andb_true_iff in Eo as [Hu Ho]. bool_facts.
  destruct (truthy_id _) as [v|] eqn:Ev; [|done]. destruct (lookupComposeByVersion v c) as [|resolved] eqn:Er; [done|].
  intros (resume & _ & [= <-])%result_bind_ok. cbn. destruct (by_version _ _ _ Er) as (-> & version & Hv & ->).
  exists row, run, version. by rewrite (truthy_id_some _ _ Ev).
Qed.

Lemma zero_run_body baseUrl secret args d req :
  createZeroRun collate isConnectorType (fun r => r) baseUrl secret args d = Ok (inr req) ->
  rb_sessionId (rr_body req) = zb_sessionId (cz_body args) /\ rb_passthrough (rr_body req) = zb_passthrough (cz_body args) /\
  truthy_id (body_agent (cz_auth args) (cz_body args) d) = Some (rb_agentComposeId (rr_body req)).
Proof.
  unfold createZeroRun. cbn zeta. destruct (truthy_id (body_agent _ _ _)) as [agentId|]; [|done].
  destruct (runnable_agent _ _ agentId d) as [e|agent] eqn:Ea; [done|]. by intros (r & Hr & [= <-])%result_bind_ok.
Qed.

(** What the body of a request says the run is created from: the agent that was checked, or
    else something of the user or a version of the organization. *)
Definition resumes (args : CreateZeroRunCommandArgs) (agentId : jsstr) (d : ZeroDb) (c : ComposeDb) (resolved : ResolvedCompose) : Prop :=
  let body := cz_body args in let auth := cz_auth args in
  match truthy_id (pt_checkpointId (zb_passthrough body)), truthy_id (zb_sessionId body) with
  | Some checkpointId, Some _ => False
  | Some checkpointId, None =>
      exists checkpoint run version, checkpoints c !! checkpointId = Some checkpoint /\ runs c !! ck_runId checkpoint = Some run /\
        rn_userId run = au_userId auth /\ rn_orgId run = au_orgId auth /\
        sn_agentComposeVersionId (ck_snapshot checkpoint) = Some (rc_agentComposeVersionId resolved) /\
        versions c !! rc_agentComposeVersionId resolved = Some version /\ rc_composeId resolved = cv_composeId version
  | None, Some sessionId =>
      (exists session, zd_sessions d !! sessionId = Some session /\ se_userId session = au_userId auth /\
         se_orgId session = au_orgId auth /\ rc_composeId resolved = se_agentComposeId session) /\
      (zb_agentId body = None -> rc_composeId resolved = agentId)
  | None, None =>
      match truthy_id (pt_agentComposeVersionId (zb_passthrough body)) with
      | Some versionId => exists version, versions c !! versionId = Some version /\ rc_composeId resolved = cv_composeId version
      | None => rc_composeId resolved = agentId
      end
  end.

(** C27: A request for a run is only accepted for an agent of the organization that is public or
    owned by the user, with connectors the user enabled for that agent, and the policy it gets
    for every permission of these connectors, and for unknown requests, is the user's own grant
    for that agent if one is active when the request starts, and the default of the connector
    otherwise. The compose the run is then created from belongs to the same organization, and
    is that agent's unless the request also names a checkpoint, a compose version, or a session
    together with an agent: these win over the agent, and of them only checkpoints and sessions
    are checked to be the user's own. (The tables are the same at both points.) *)
Theorem zero_run_policies baseUrl secret args d c req :
  createZeroRun collate isConnectorType (fun r => r) baseUrl secret args d = Ok (inr req) ->
  let orgId := au_orgId (cz_auth args) in let userId := au_userId (cz_auth args) in
  let agentId := rb_agentComposeId (rr_body req) in
  rr_orgId req = orgId /\ rr_userId req = userId /\
  (exists agent, agents (zd_grants d) !! agentId = Some agent /\ za_orgId agent = orgId /\
     (za_visibility agent = Public \/ za_owner agent = userId)) /\
  (forall c, c ∈ rr_allowedConnectorTypes req -> (orgId, userId, agentId, c) ∈ zd_connectors d /\ isConnectorType c = true) /\
  (forall c config p, c ∈ rr_allowedConnectorTypes req -> registry_lookup c = Some config ->
     policy_for (rb_permissionPolicies (rr_body req)) c p =
     match grants (zd_grants d) !! ((orgId, userId, agentId), (c, p)) with
     | Some row => if activeGrantCondition (cz_apiStartTime args) row then Some (gr_action row) else default_for c config p
     | None => default_for c config p
     end) /\
  (forall resolved, resolve_for_run download req d c = Ok (inr resolved) -> rc_orgId resolved = orgId /\ resumes args agentId d c resolved).
Proof.
  intros Hreq orgId userId agentId. destruct (zero_run_request _ _ _ _ _ _ _ Hreq) as (Ho & Hu & Ha & Hc & Hp).
  destruct (zero_run_body _ _ _ _ _ Hreq) as (Hs & Hpt & Hag). split_and!; try done.
  intros resolved (r & Hr & Hres)%result_bind_ok. destruct r as [|r]; [done|]. case_bool_decide as Horg; [|done]. injection Hres as <-.
  split; [by rewrite Horg, Ho|]. unfold resolveCompose in Hr. rewrite Hs, Hpt, Ho, Hu in Hr. unfold resumes.
  destruct (truthy_id (pt_checkpointId _)) as [checkpointId|] eqn:Ecp.
  { destruct (truthy_id (zb_sessionId _)); [done|]. by apply by_checkpoint. }
  destruct (truthy_id (zb_sessionId _)) as [sessionId|] eqn:Es.
  { apply by_session in Hr as (session & Hl & Hsu & Hso & Hsc). split; [by exists session|].
    intros Hno. unfold body_agent in Hag. rewrite Hno, Es in Hag. cbn [mbind option_bind] in Hag. unfold inferAgentIdFromSession in Hag.
    rewrite Hl in Hag. cbn [mbind option_bind] in Hag. rewrite !bool_decide_true in Hag by done. apply truthy_id_some in Hag. injection Hag as Hag.
    by rewrite Hsc. }
  destruct (truthy_id (pt_agentComposeVersionId _)) as [v|] eqn:Ev.
  { injection Hr as Hr. by apply by_version in Hr as [_ Hr]. }
  destruct (truthy_id (Some (rb_agentComposeId _))) as [a|] eqn:Ea; [|done]. injection Hr as Hr.
  apply truthy_id_some in Ea as [= <-]. by apply by_compose_id in Hr as [Hr _].
Qed.

End Theorems.

(** ** Concrete runs *)

#[local] Existing Instance sample_connectors.

Definition sample_compose (userId : jsstr) (head : jsstr) : ComposeRow :=
  {| co_userId := userId; co_name := js "name"; co_headVersionId := Some head; co_orgId := js "org" |}.

(** The agent of [sample_zero], and a second, private agent of another user. *)
Definition sample_composes : ComposeDb :=
  {| composes := {[js "agent" := sample_compose (js "owner") (js "v1"); js "private" := sample_compose (js "other") (js "v2")]};
     versions := {[js "v1" := {| cv_composeId := js "agent"; cv_content := JNull |};
                   js "v2" := {| cv_composeId := js "private"; cv_content := JNull |}]};
     runs := ∅; conversations := ∅; checkpoints := ∅ |}.

Definition no_download (key : jsstr) : result jsstr := Throw (js "NoSuchKey").

Lemma zero_run_policies_witness :
  exists req resolved, sample_request 2000 sample_zero = Ok (inr req) /\ rr_userId req = js "user" /\
    resolve_for_run no_download req sample_zero sample_composes = Ok (inr resolved) /\ rc_composeId resolved = js "agent".
Proof.
  destruct sample_plain as [req Hr].
  assert (exists resolved, resolve_for_run no_download req sample_zero sample_composes = Ok (inr resolved)) as [resolved Hres].
  { vm_compute in Hr. injection Hr as <-. eexists. vm_compute. reflexivity. }
  exists req, resolved. split; [exact Hr|].
  destruct (zero_run_policies sample_collate sample_types no_download (js "http://api") (js "secret") (sample_run_args 2000)
    sample_zero sample_composes req Hr) as (_ & Hu & _ & _ & _ & Hres'). split; [exact Hu|]. split; [exact Hres|].
  destruct (Hres' resolved Hres) as [_ Hc]. cbn in Hc. rewrite Hc. vm_compute in Hr. injection Hr as <-. reflexivity.
Defined.

(** A request that names the public agent and a version of the private one is accepted, and its
    run is one of the private agent. *)
Definition sample_versioned_args : CreateZeroRunCommandArgs :=
  let args := sample_run_args 2000 in
  {| cz_auth := cz_auth args;
     cz_body := {| zb_prompt := js "hi"; zb_agentId := Some (js "agent"); zb_sessionId := None; zb_modelProvider := None;
       zb_passthrough := {| pt_agentComposeVersionId := Some (js "v2"); pt_conversationId := None; pt_checkpointId := None;
         pt_additionalVolumes := JUndefined; pt_debugNoMockClaude := JUndefined; pt_debugNoMockCodex := JUndefined;
         pt_captureNetworkBodies := JUndefined; pt_tools := JUndefined; pt_settings := JUndefined |} |};
     cz_apiStartTime := cz_apiStartTime args; cz_triggerSource := None; cz_appendSystemPrompt := None;
     cz_userInfoExtras := sample_extras; cz_callbacks := []; cz_chatThreadId := None; cz_computerUseHostId := None;
     cz_modelProviderId := None; cz_modelProviderCredentialScope := None; cz_selectedModelOverride := None;
     cz_zeroRunMetadata := cz_zeroRunMetadata args |}.

Definition sample_private : ZeroDb :=
  {| zd_grants := {| agents := {[js "agent" := sample_agent; js "private" := {| za_orgId := js "org"; za_owner := js "other";
       za_visibility := Private; za_displayName := None; za_description := None; za_sound := None; za_customSkills := [];
       za_modelProviderId := None; za_selectedModel := None |}]}; grants := ∅ |};
     zd_composed := {[js "agent"; js "private"]}; zd_sessions := ∅; zd_connectors := []; zd_customConnectors := []; zd_users := ∅;
     zd_timezones := ∅; zd_runComposes := ∅ |}.

Lemma version_not_checked :
  runnable_agent (js "org") (js "user") (js "private") sample_private =
    inl (forbidden (js "Only the private agent owner can run this agent")) /\
  match createZeroRun sample_collate sample_types (fun r => r) (js "http://api") (js "secret") sample_versioned_args sample_private with
  | Ok (inr req) => match resolve_for_run no_download req sample_private sample_composes with
                    | Ok (inr resolved) => rc_composeId resolved = js "private" /\ rb_agentComposeId (rr_body req) = js "agent"
                    | _ => False
                    end
  | _ => False
  end.
Proof. vm_compute. repeat split; reflexivity. Qed.

End RunCompose.
