(* ===== verification/FeatureSwitches.v ===== *)
(** Feature switches (turbo/packages/core/src/feature-switch.ts, identity-hash.ts, staff-org.ts,
    packages/connectors/src/feature-switch-key.ts and
    apps/api/src/signals/services/feature-switches.service.ts): the identity hash, the
    registry, its two evaluators and the stored overrides of a user. *)

From S2P Require Import Prelude JsString JsValue JsRecord.

Module FeatureSwitches.

(** ** The identity hash (identity-hash.ts)

    32-bit FNV-1a over UTF-16 code units. *)

(** The signed 32-bit value the bitwise operators work on. *)
Definition to_int32 (z : Z) : Z := let u := z mod 2 ^ 32 in if u <? 2 ^ 31 then u else u - 2 ^ 32.
Definition to_uint32 (z : Z) : Z := z mod 2 ^ 32.

Definition imul (a b : Z) : Z := to_int32 (to_int32 a * to_int32 b).

Definition fnv_step (h unit : Z) : Z :=
  let h := Z.lxor (to_int32 h) (to_int32 unit) in to_uint32 (imul h 16777619).

Definition fnv_state (input : jsstr) : Z := foldl fnv_step (to_uint32 2166136261) input.

Definition hex_digit (d : Z) : Z := if d <? 10 then 48 + d else 87 + d.

(** [n.toString(16)] of at most [fuel] digits, most significant first. *)
Fixpoint hex_digits (fuel : nat) (n : Z) (acc : jsstr) : jsstr :=
  match fuel with
  | O => acc
  | S fuel => let acc := hex_digit (n mod 16) :: acc in if n <? 16 then acc else hex_digits fuel (n / 16) acc
  end.

Definition padStart (n : nat) (c : Z) (s : jsstr) : jsstr := replicate (n - length s) c ++ s.

Definition fnv1a (input : jsstr) : jsstr := padStart 8 48 (hex_digits 8 (fnv_state input) []).

Definition STAFF_ORG_ID_HASHES : list jsstr := [js "afce210e"].

Definition isStaffOrg (orgId : option jsstr) : bool :=
  match orgId with
  | None | Some [] => false
  | Some orgId => bool_decide (fnv1a orgId ∈ STAFF_ORG_ID_HASHES)
  end.

(** ** The registry *)

Record FeatureSwitch := {
  fs_enabled : bool; fs_userHashes : option (list jsstr); fs_emailHashes : option (list jsstr);
  fs_orgIdHashes : option (list jsstr) }.

Record FeatureSwitchContext := {
  ctx_userId : option jsstr; ctx_email : option jsstr; ctx_orgId : option jsstr; ctx_overrides : option (Rec bool) }.

(** The names, in the order of the enumeration. *)
Definition FeatureSwitchKey : list jsstr :=
  [js "dummy"; js "ahrefsConnector"; js "bentomlConnector"; js "canvaConnector";
   js "deelConnector"; js "docusignConnector"; js "dropboxConnector"; js "figmaConnector";
   js "googleCloudConnector"; js "mercuryConnector"; js "neonConnector"; js "garminConnectConnector";
   js "redditConnector"; js "supabaseConnector"; js "webflowConnector"; js "closeConnector";
   js "outlookMailConnector"; js "outlookCalendarConnector"; js "metaAdsConnector"; js "tiktokAdsConnector";
   js "stripeConnector"; js "awsConnector"; js "posthogConnector"; js "mailchimpConnector";
   js "resendConnector"; js "googleMapsConnector"; js "googleAnalyticsConnector"; js "googleSearchConsoleConnector";
   js "dataExport"; js "spotifyConnector"; js "githubIntegration"; js "zeroDebug";
   js "computerUse"; js "banking"; js "lab"; js "auditLink";
   js "skillsViewer"; js "testOauthConnector"; js "freshdeskConnector"; js "stabilityAiConnector";
   js "zoomConnector"; js "apiKeys"; js "zapierConnector"; js "sandboxIoLimiters";
   js "chatGithubPrTracking"; js "chatTemplatePicker"; js "videoTemplatePicker"; js "memoryViewer";
   js "memoryDevRefresh"; js "chatRecommendedFollowups"; js "chatRunUsage"; js "presentationHtmlPptxDownload";
   js "chatInlineFeedback"; js "chatSlashSkillCommands"; js "assistantTextStreaming"; js "automationWebhookTriggers"].

Definition switched (enabled : bool) : FeatureSwitch :=
  {| fs_enabled := enabled; fs_userHashes := None; fs_emailHashes := None; fs_orgIdHashes := None |}.
Definition staff_only : FeatureSwitch :=
  {| fs_enabled := false; fs_userHashes := None; fs_emailHashes := None; fs_orgIdHashes := Some STAFF_ORG_ID_HASHES |}.

Definition FEATURE_SWITCHES : Rec FeatureSwitch :=
  [(js "dummy", switched true); (js "ahrefsConnector", switched false);
   (js "bentomlConnector", switched false); (js "canvaConnector", switched false);
   (js "deelConnector", switched false); (js "docusignConnector", switched false);
   (js "dropboxConnector", switched false); (js "figmaConnector", switched false);
   (js "googleCloudConnector", switched false); (js "mercuryConnector", switched false);
   (js "neonConnector", switched false); (js "garminConnectConnector", switched false);
   (js "redditConnector", switched false); (js "supabaseConnector", switched false);
   (js "closeConnector", switched false); (js "webflowConnector", switched false);
   (js "outlookMailConnector", switched false); (js "outlookCalendarConnector", switched false);
   (js "metaAdsConnector", switched true); (js "tiktokAdsConnector", switched false);
   (js "stripeConnector", switched false); (js "awsConnector", staff_only);
   (js "posthogConnector", switched false); (js "mailchimpConnector", switched false);
   (js "resendConnector", switched false); (js "googleMapsConnector", switched false);
   (js "googleAnalyticsConnector", switched false); (js "googleSearchConsoleConnector", switched true);
   (js "spotifyConnector", switched false); (js "githubIntegration", switched false);
   (js "dataExport", switched false); (js "zeroDebug", switched false);
   (js "computerUse", switched false); (js "banking", staff_only);
   (js "lab", staff_only); (js "auditLink", switched false);
   (js "skillsViewer", staff_only); (js "testOauthConnector", switched false);
   (js "freshdeskConnector", switched false); (js "stabilityAiConnector", switched false);
   (js "zoomConnector", switched false); (js "apiKeys", switched false);
   (js "zapierConnector", switched false); (js "sandboxIoLimiters", staff_only);
   (js "chatGithubPrTracking", switched false); (js "chatTemplatePicker", staff_only);
   (js "videoTemplatePicker", staff_only); (js "memoryViewer", staff_only);
   (js "memoryDevRefresh", staff_only); (js "chatRecommendedFollowups", switched true);
   (js "chatRunUsage", staff_only); (js "presentationHtmlPptxDownload", staff_only);
   (js "chatInlineFeedback", switched false); (js "chatSlashSkillCommands", staff_only);
   (js "assistantTextStreaming", staff_only); (js "automationWebhookTriggers", staff_only)].

(** ** Evaluation *)

Definition text (o : option jsstr) : option jsstr := match o with Some [] => None | _ => o end.

Section Platform.
Context `{Platform}.

(** A hash list that is present and not empty. *)
Definition nonempty (hashes : option (list jsstr)) : bool := match hashes with Some (_ :: _) => true | _ => false end.

Definition includes_hash (hashes : option (list jsstr)) (hash : jsstr) : bool :=
  match hashes with Some l => bool_decide (hash ∈ l) | None => false end.

(** The registry entry of a key that has one. *)
Definition switch_of (key : jsstr) : FeatureSwitch := default (switched false) (rec_own FEATURE_SWITCHES key).

Definition isFeatureEnabled (key : jsstr) (ctx : FeatureSwitchContext) : bool :=
  match ctx_overrides ctx ≫= fun o => rec_own o key with
  | Some override => override
  | None =>
      let featureSwitch := switch_of key in
      let hit identity hashes := match identity with
        | Some i => nonempty hashes && includes_hash hashes (fnv1a i) | None => false end in
      fs_enabled featureSwitch || hit (text (ctx_userId ctx)) (fs_userHashes featureSwitch) ||
      hit (toLowerCase <$> text (ctx_email ctx)) (fs_emailHashes featureSwitch) ||
      hit (text (ctx_orgId ctx)) (fs_orgIdHashes featureSwitch)
  end.

Record ResolvedHashes := { rh_user : option jsstr; rh_email : option jsstr; rh_orgId : option jsstr }.

Definition evaluateSwitch (fs : FeatureSwitch) (hashes : ResolvedHashes) : bool :=
  let hit hash l := match text hash with Some h => includes_hash l h | None => false end in
  fs_enabled fs || hit (rh_user hashes) (fs_userHashes fs) || hit (rh_email hashes) (fs_emailHashes fs) ||
  hit (rh_orgId hashes) (fs_orgIdHashes fs).

Definition resolve_hashes (ctx : FeatureSwitchContext) : ResolvedHashes :=
  let switches := FEATURE_SWITCHES.*2 in
  let resolve (get : FeatureSwitch -> option (list jsstr)) identity :=
    if existsb (fun s => nonempty (get s)) switches then fnv1a <$> identity else None in
  {| rh_user := resolve fs_userHashes (text (ctx_userId ctx));
     rh_email := resolve fs_emailHashes (toLowerCase <$> text (ctx_email ctx));
     rh_orgId := resolve fs_orgIdHashes (text (ctx_orgId ctx)) |}.

Definition apply_override (result : Rec bool) (kv : jsstr * bool) : Rec bool :=
  if rec_in FEATURE_SWITCHES kv.1 then rec_set result kv.1 kv.2 else result.

Definition getAllFeatureStates (ctx : FeatureSwitchContext) : Rec bool :=
  let hashes := resolve_hashes ctx in
  let result := foldl (fun r key => rec_set r key (evaluateSwitch (switch_of key) hashes)) [] FeatureSwitchKey in
  foldl apply_override result (default [] (ctx_overrides ctx)).

End Platform.

(** ** Stored overrides (feature-switches.service.ts)

    One row of switches per organization and user. *)

Definition Table : Type := gmap (jsstr * jsstr) (Rec bool).

Definition loadUserFeatureSwitchOverrides (orgId userId : jsstr) (t : Table) : Rec bool := default [] (t !! (orgId, userId)).

Definition loadUserFeatureSwitchContext (orgId userId : jsstr) (t : Table) : FeatureSwitchContext :=
  {| ctx_userId := Some userId; ctx_email := None; ctx_orgId := Some orgId;
     ctx_overrides := Some (loadUserFeatureSwitchOverrides orgId userId t) |}.

Definition updateUserFeatureSwitches (orgId userId : jsstr) (switches : Rec bool) (t : Table) : Rec bool * Table :=
  let merged := rec_spread (loadUserFeatureSwitchOverrides orgId userId t) switches in
  (merged, <[(orgId, userId) := merged]> t).

Definition deleteUserFeatureSwitches (orgId userId : jsstr) (t : Table) : Table := delete (orgId, userId) t.

(** ** The two evaluators agree *)

Lemma rec_own_foldl_set {A} (f : jsstr -> A) keys r key :
  PROTO ∉ keys ->
  rec_own (foldl (fun r k => rec_set r k (f k)) r keys) key =
  if bool_decide (key ∈ keys) then Some (f key) else rec_own r key.
Proof.
  revert r. induction keys as [|k keys IH]; intros r Hp; [done|]. cbn [foldl]. apply not_elem_of_cons in Hp as [Hk Hp].
  rewrite IH by done. destruct (decide (key ∈ keys)) as [Hin|Hin].
  - by rewrite !bool_decide_true by (rewrite ?elem_of_cons; auto).
  - rewrite (bool_decide_false (key ∈ keys)) by done. rewrite rec_own_set by congruence.
    destruct (decide (key = k)) as [->|Hne].
    + by rewrite !bool_decide_true by (rewrite ?elem_of_cons; auto).
    + rewrite !bool_decide_false; [done| |congruence]. rewrite elem_of_cons. naive_solver.
Qed.

Lemma rec_own_overrides overrides r key :
  NoDup (rec_keys overrides) -> key <> PROTO -> rec_in FEATURE_SWITCHES key = true ->
  rec_own (foldl apply_override r overrides) key =
  match rec_own overrides key with Some v => Some v | None => rec_own r key end.
Proof.
  intros Hn Hp Hin. revert r Hn. induction overrides as [|[k v] o IH]; intros r Hn; [done|]. cbn [foldl].
  apply NoDup_cons in Hn as [Hk Hn]. rewrite IH by done. unfold apply_override. cbn [fst snd rec_own].
  case_bool_decide as Hkk; subst.
  - rewrite (proj2 (rec_own_None o key)) by done. rewrite Hin, rec_own_set by done. by rewrite bool_decide_true.
  - destruct (rec_own o key); [done|]. destruct (rec_in _ k); [|done]. by rewrite rec_own_set_other.
Qed.

(** *** The hash has eight digits *)

Lemma fnv_step_bound h unit : 0 <= fnv_step h unit < 2 ^ 32.
Proof. apply Z.mod_pos_bound. lia. Qed.

Lemma fnv_state_bound input : 0 <= fnv_state input < 2 ^ 32.
Proof.
  unfold fnv_state. assert (forall l h, 0 <= h < 2 ^ 32 -> 0 <= foldl fnv_step h l < 2 ^ 32) as Hf.
  { intros l. induction l as [|c l IH]; intros h Hh; [done|]. apply IH, fnv_step_bound. }
  apply Hf. by vm_compute.
Qed.

Fixpoint hex_number (s : jsstr) (acc : Z) : Z :=
  match s with [] => acc | c :: s' => hex_number s' (acc * 16 + (if c <? 58 then c - 48 else c - 87)) end.

Definition is_hex (c : Z) : bool := (48 <=? c) && (c <=? 57) || (97 <=? c) && (c <=? 102).

Lemma hex_digit_ok d : 0 <= d < 16 -> is_hex (hex_digit d) = true /\ (if hex_digit d <? 58 then hex_digit d - 48 else hex_digit d - 87) = d.
Proof.
  intros Hd. unfold is_hex, hex_digit. destruct (Z.ltb_spec d 10).
  - destruct (Z.ltb_spec (48 + d) 58); [|lia]. split; [|lia]. apply orb_true_iff. left. lia.
  - destruct (Z.ltb_spec (87 + d) 58); [lia|]. split; [|lia]. apply orb_true_iff. right. lia.
Qed.

Lemma hex_number_app s t acc : hex_number (s ++ t) acc = hex_number t (hex_number s acc).
Proof. revert acc. induction s as [|c s IH]; intros acc; [done|]. apply IH. Qed.

Lemma hex_digits_spec fuel n acc :
  (0 < fuel)%nat -> 0 <= n < 16 ^ Z.of_nat fuel ->
  exists ds, hex_digits fuel n acc = ds ++ acc /\ (length ds <= fuel)%nat /\ forallb is_hex ds = true /\
    forall a, hex_number ds a = a * 16 ^ Z.of_nat (length ds) + n.
Proof.
  revert n acc. induction fuel as [|fuel IH]; intros n acc Hf Hn; [lia|]. cbn [hex_digits].
  assert (0 <= n mod 16 < 16) as Hm by (apply Z.mod_pos_bound; lia). destruct (hex_digit_ok _ Hm) as [Hh Hv].
  destruct (Z.ltb_spec n 16) as [Hlt|Hge].
  - exists [hex_digit (n mod 16)]. split_and!; [done|cbn; lia|cbn; by rewrite Hh|]. intros a. cbn [hex_number length].
    rewrite Hv. rewrite Z.mod_small by lia. change (16 ^ Z.of_nat 1) with 16. lia.
  - destruct fuel as [|fuel]; [change (16 ^ Z.of_nat 1) with 16 in Hn; lia|].
    destruct (IH (n / 16) (hex_digit (n mod 16) :: acc)) as (ds & He & Hl & Hx & Hval); [lia| |].
    { split; [apply Z.div_pos; lia|]. apply Z.div_lt_upper_bound; [lia|].
      replace (Z.of_nat (S (S fuel))) with (Z.of_nat (S fuel) + 1) in Hn by lia. rewrite Z.pow_add_r in Hn by lia. lia. }
    exists (ds ++ [hex_digit (n mod 16)]). split_and!.
    + rewrite He. by rewrite <- app_assoc.
    + rewrite length_app. cbn. lia.
    + rewrite forallb_app, Hx. cbn. by rewrite Hh.
    + intros a. rewrite hex_number_app, Hval. cbn [hex_number]. rewrite Hv, length_app. cbn [length].
      replace (Z.of_nat (length ds + 1)) with (Z.of_nat (length ds) + 1) by lia. rewrite Z.pow_add_r by lia.
      pose proof (Z.div_mod n 16 ltac:(lia)). lia.
Qed.

Lemma hex_number_zeros n s : hex_number (replicate n 48 ++ s) 0 = hex_number s 0.
Proof. induction n as [|n IH]; [done|]. exact IH. Qed.

(** The hash is the eight digit hexadecimal form of its state. *)
Lemma fnv1a_digits input :
  length (fnv1a input) = 8%nat /\ forallb is_hex (fnv1a input) = true /\ hex_number (fnv1a input) 0 = fnv_state input.
Proof.
  unfold fnv1a, padStart. destruct (hex_digits_spec 8 (fnv_state input) []) as (ds & He & Hl & Hx & Hv); [lia|apply fnv_state_bound|].
  rewrite He, app_nil_r. split_and!.
  - rewrite length_app, length_replicate. lia.
  - rewrite forallb_app, Hx, andb_true_r. generalize (8 - length ds)%nat. intros m. induction m; [done|]. exact IHm.
  - rewrite hex_number_zeros, Hv. lia.
Qed.

Section Agreement.
Context `{Platform}.

Lemma nonempty_includes hashes h : includes_hash hashes h = true -> nonempty hashes = true.
Proof. destruct hashes as [[|x l]|]; cbn; [|done|done]. rewrite bool_decide_eq_true. by intros ?%elem_of_nil. Qed.

Lemma switch_of_elem key : switch_of key = switched false \/ switch_of key ∈ FEATURE_SWITCHES.*2.
Proof.
  unfold switch_of. generalize FEATURE_SWITCHES. intros r. induction r as [|[k v] r IH]; [by left|]. cbn [rec_own].
  case_bool_decide; [right; apply elem_of_cons; by left|]. destruct IH as [IH|IH]; [by left|right]. by apply elem_of_cons; right.
Qed.

(** A hash is computed unless no switch asks for it. *)
Lemma hit_resolved (get : FeatureSwitch -> option (list jsstr)) identity key :
  get (switched false) = None ->
  match text (if existsb (fun s => nonempty (get s)) FEATURE_SWITCHES.*2 then fnv1a <$> identity else None) with
  | Some h => includes_hash (get (switch_of key)) h | None => false end =
  match identity with Some i => nonempty (get (switch_of key)) && includes_hash (get (switch_of key)) (fnv1a i) | None => false end.
Proof.
  intros Hget. destruct (existsb _ _) eqn:Hx.
  - destruct identity as [i|]; [|done]. cbn [fmap option_fmap option_map text].
    destruct (fnv1a_digits i) as [Hl _]. destruct (fnv1a i) as [|c t] eqn:Hh; [done|].
    destruct (includes_hash _ _) eqn:Hi; [by rewrite (nonempty_includes _ _ Hi)|]. by rewrite andb_false_r.
  - destruct identity as [i|]; [|done]. cbn [text]. symmetry. apply andb_false_iff. left.
    destruct (switch_of_elem key) as [->|Hin]; [by rewrite Hget|].
    apply not_true_iff_false. intros Hn. apply not_true_iff_false in Hx. apply Hx, existsb_exists.
    exists (switch_of key). split; [by apply list_elem_of_In|done].
Qed.

Lemma evaluate_resolved key ctx :
  evaluateSwitch (switch_of key) (resolve_hashes ctx) =
  isFeatureEnabled key {| ctx_userId := ctx_userId ctx; ctx_email := ctx_email ctx; ctx_orgId := ctx_orgId ctx; ctx_overrides := None |}.
Proof.
  unfold evaluateSwitch, isFeatureEnabled, resolve_hashes. cbn [rh_user rh_email rh_orgId ctx_overrides mbind option_bind ctx_userId ctx_email ctx_orgId].
  by rewrite !hit_resolved.
Qed.

(** The two evaluators of feature switches agree. For every key of the registry and every
    context, the state [getAllFeatureStates] computes with the identity hashes resolved once
    is the answer of [isFeatureEnabled], overrides included. *)
Theorem getAllFeatureStates_agrees key ctx :
  key ∈ FeatureSwitchKey -> NoDup (rec_keys (default [] (ctx_overrides ctx))) ->
  rec_own (getAllFeatureStates ctx) key = Some (isFeatureEnabled key ctx).
Proof.
  intros Hkey Hn. unfold getAllFeatureStates. cbn zeta.
  assert (forallb (fun k => negb (bool_decide (k = PROTO)) && rec_in FEATURE_SWITCHES k) FeatureSwitchKey = true) as Hall
    by (vm_compute; reflexivity).
  pose proof (forallb_elem _ _ _ Hall Hkey) as Hk. apply andb_true_iff in Hk as [Hp Hin].
  apply negb_true_iff, bool_decide_eq_false in Hp.
  assert (PROTO ∉ FeatureSwitchKey) as Hproto.
  { intros Hproto. pose proof (forallb_elem _ _ _ Hall Hproto) as Hk. apply andb_true_iff in Hk as [Hk _]. by rewrite bool_decide_true in Hk. }
  rewrite rec_own_overrides by done. rewrite rec_own_foldl_set by done. rewrite (bool_decide_true _ Hkey).
  rewrite evaluate_resolved. unfold isFeatureEnabled. destruct (ctx_overrides ctx) as [o|]; cbn [default mbind option_bind from_option]; [|done].
  unfold id. by destruct (rec_own o key).
Qed.

End Agreement.

(** The staff check is not an identity check. It compares 32-bit hashes, so another
    organization identifier of the same form passes it. *)
Theorem isStaffOrg_collision :
  js "org_2ANttyrbWYJk6JKRSTRLElB80x4" <> js "org_3ANttyrbWYJk6JKRSTRLEsbsDLe" /\
  isStaffOrg (Some (js "org_3ANttyrbWYJk6JKRSTRLEsbsDLe")) = true /\
  isStaffOrg (Some (js "org_2ANttyrbWYJk6JKRSTRLElB80x4")) = true.
Proof. split_and!; [done|vm_compute; reflexivity|vm_compute; reflexivity]. Qed.

Lemma getAllFeatureStates_agrees_witness :
  rec_own (@getAllFeatureStates ascii_platform
    {| ctx_userId := None; ctx_email := None; ctx_orgId := Some (js "org_3ANttyrbWYJk6JKRSTRLEsbsDLe");
       ctx_overrides := Some [(js "lab", false)] |}) (js "banking") =
  Some (@isFeatureEnabled ascii_platform (js "banking")
    {| ctx_userId := None; ctx_email := None; ctx_orgId := Some (js "org_3ANttyrbWYJk6JKRSTRLEsbsDLe");
       ctx_overrides := Some [(js "lab", false)] |}).
Proof.
  apply (@getAllFeatureStates_agrees ascii_platform); [apply (bool_decide_unpack _); vm_compute; reflexivity|].
  apply (bool_decide_unpack _). vm_compute. reflexivity.
Defined.

End FeatureSwitches.
