(* ===== verification/ComputerUse.v ===== *)
(** Desktop control (turbo/apps/api/src/signals/services/zero-computer-use.service.ts,
    cron-computer-use-screenshot-cleanup.service.ts, routes/zero-computer-use.ts and
    packages/api-contracts/src/contracts/zero-computer-use.ts): desktops that register as
    hosts, the commands runs send them, their approval, execution and timeout, the audit
    trail and the screenshots in object storage (with deleteS3Objects of external/s3.ts). *)

From stdpp Require Import pretty.
From S2P Require Import Prelude JsString JsValue JsRecord Templates FeatureSwitches.

Module ComputerUse.

(** ** Data *)

Inductive HostStatus := Online | Offline.
Inductive CommandStatus := PendingApproval | Queued | Running | Succeeded | Failed.
Inductive AuditKind := Created | Approved | Denied | Completed.

#[export] Instance host_status_eq_dec : EqDecision HostStatus.
Proof. solve_decision. Defined.
#[export] Instance command_status_eq_dec : EqDecision CommandStatus.
Proof. solve_decision. Defined.
#[export] Instance audit_kind_eq_dec : EqDecision AuditKind.
Proof. solve_decision. Defined.

Record ComputerUsePermissions := { pm_accessibility : bool; pm_screenRecording : bool }.

(** A row of [computer_use_hosts]; the table maps ids to rows. *)
Record Host := {
  h_orgId : jsstr; h_userId : jsstr; h_displayName : jsstr; h_tokenHash : jsstr; h_appVersion : jsstr;
  h_osVersion : jsstr; h_capabilities : list jsstr; h_permissions : ComputerUsePermissions; h_status : HostStatus;
  h_lastSeenAt : Z; h_revokedAt : option Z; h_createdAt : Z; h_updatedAt : Z }.

(** A row of [computer_use_commands]. *)
Record Command := {
  c_orgId : jsstr; c_userId : jsstr; c_runId : option jsstr; c_hostId : option jsstr; c_kind : jsstr;
  c_status : CommandStatus; c_payload : Rec JsVal; c_result : option (Rec JsVal); c_error : option jsstr;
  c_timeoutMs : option Z; c_claimedAt : option Z; c_completedAt : option Z; c_createdAt : Z; c_updatedAt : Z }.

Record CommandError := { ce_code : jsstr; ce_message : jsstr }.

(** A row of [computer_use_command_audit_events]. *)
Record AuditEvent := {
  a_commandId : jsstr; a_orgId : jsstr; a_userId : jsstr; a_runId : option jsstr; a_hostId : option jsstr;
  a_kind : jsstr; a_app : option jsstr; a_event : AuditKind; a_approvalOutcome : option AuditKind;
  a_redactedResult : option (Rec JsVal); a_error : option CommandError; a_createdAt : Z }.

(** The tables and the object storage, by bucket and key. *)
Record World := {
  hosts : gmap jsstr Host; commands : gmap jsstr Command; audits : list AuditEvent;
  storage : gmap (jsstr * jsstr) (list Z) }.

Definition with_hosts (f : gmap jsstr Host -> gmap jsstr Host) (w : World) : World :=
  {| hosts := f (hosts w); commands := commands w; audits := audits w; storage := storage w |}.
Definition with_commands (f : gmap jsstr Command -> gmap jsstr Command) (w : World) : World :=
  {| hosts := hosts w; commands := f (commands w); audits := audits w; storage := storage w |}.
Definition with_audits (f : list AuditEvent -> list AuditEvent) (w : World) : World :=
  {| hosts := hosts w; commands := commands w; audits := f (audits w); storage := storage w |}.
Definition with_storage (f : gmap (jsstr * jsstr) (list Z) -> gmap (jsstr * jsstr) (list Z)) (w : World) : World :=
  {| hosts := hosts w; commands := commands w; audits := audits w; storage := f (storage w) |}.

(** The hash and the base64 decoder of the runtime, and whether the object storage carries out
    the deletion of some keys of a bucket: it refuses a bucket that it does not have, and the
    client refuses one that is not a string. *)
Class Runtime := {
  sha256_hex : jsstr -> jsstr; buffer_from_base64 : jsstr -> list Z; s3_deletes : JsVal -> list jsstr -> bool }.

(** [SELECT .. FROM table WHERE p]. *)
Definition rows {A} (p : jsstr -> A -> bool) (m : gmap jsstr A) : list (jsstr * A) :=
  filter (fun kv => p kv.1 kv.2 = true) (map_to_list m).

Definition present (o : option jsstr) : option jsstr := match o with Some [] => None | _ => o end.

(** ** Limits and kinds *)

Definition COMPUTER_USE_HOST_CLOSED_AFTER_MS : Z := 90 * 1000.
Definition COMPUTER_USE_RUNNING_COMMAND_DEFAULT_TIMEOUT_MS : Z := 120 * 1000.

Definition COMPUTER_USE_READ_COMMANDS : list jsstr := [js "apps.list"; js "app.state"].
Definition COMPUTER_USE_WRITE_COMMANDS : list jsstr :=
  [js "app.open"; js "element.click"; js "element.scroll"; js "element.set_value"; js "element.perform_action";
   js "keyboard.type_text"; js "keyboard.press_key"].
Definition COMPUTER_USE_COMMANDS : list jsstr := COMPUTER_USE_READ_COMMANDS ++ COMPUTER_USE_WRITE_COMMANDS.

Definition isComputerUseWriteCommandKind (kind : jsstr) : bool := bool_decide (kind ∈ COMPUTER_USE_WRITE_COMMANDS).

Definition computerUseCommandErrorCodeSchema : list jsstr :=
  [js "no_host"; js "permission_denied"; js "accessibility_unavailable"; js "window_unavailable";
   js "screen_recording_unavailable"; js "app_not_found"; js "app_open_failed"; js "element_action_unsupported";
   js "unsupported_command"; js "timeout"].

(** ** Normalization *)

Definition normalizeHostName (hostName : jsstr) : jsstr := take 253 (trim hostName).
Definition normalizeVersion (version : jsstr) : jsstr := take 64 (trim version).
Definition normalizeOsVersion (version : jsstr) : jsstr := take 128 (trim version).

Definition normalizeCapabilities (capabilities : list jsstr) : list jsstr :=
  take 50 (filter (fun c => c <> []) (Templates.set_add_all (trim <$> capabilities) [])).

(** ** Hosts *)

Definition hostIsOnline (host : Host) (now : Z) : bool :=
  bool_decide (h_status host = Online) && bool_decide (h_revokedAt host = None) &&
  (now - h_lastSeenAt host <=? COMPUTER_USE_HOST_CLOSED_AFTER_MS).

Definition hostSupportsCommand (host : Host) (kind : jsstr) : bool :=
  (length (h_capabilities host) =? 0)%nat || bool_decide (kind ∈ h_capabilities host).

(** ** Payloads *)

(** Numbers are integers or multiples of a scroll page; the model keeps integers. *)
Record ComputerUseCommandPayload := {
  p_app : option jsstr; p_snapshotId : option jsstr; p_elementId : option jsstr; p_elementIndex : option Z;
  p_x : option Z; p_y : option Z; p_button : option jsstr; p_clickCount : option Z; p_direction : option jsstr;
  p_pages : option Z; p_value : option jsstr; p_text : option jsstr; p_key : option jsstr; p_action : option jsstr }.

Definition put {A} (name : string) (f : A -> JsVal) (o : option A) (payload : Rec JsVal) : Rec JsVal :=
  match o with Some v => rec_set payload (js name) (f v) | None => payload end.

Definition trimmed_text (s : jsstr) : JsVal := JString (trim s).

Definition commandPayload (params : ComputerUseCommandPayload) : Rec JsVal :=
  let payload := put "app" trimmed_text (present (p_app params)) [] in
  let payload := put "snapshotId" trimmed_text (present (p_snapshotId params)) payload in
  let payload := put "elementId" trimmed_text (present (p_elementId params)) payload in
  let payload := put "elementIndex" JNumber (p_elementIndex params) payload in
  let payload := put "x" JNumber (p_x params) payload in
  let payload := put "y" JNumber (p_y params) payload in
  let payload := put "button" JString (present (p_button params)) payload in
  let payload := put "clickCount" JNumber (p_clickCount params) payload in
  let payload := put "direction" JString (present (p_direction params)) payload in
  let payload := put "pages" JNumber (p_pages params) payload in
  let payload := put "value" JString (p_value params) payload in
  let payload := put "text" JString (p_text params) payload in
  let payload := put "key" trimmed_text (present (p_key params)) payload in
  put "action" trimmed_text (present (p_action params)) payload.

(** ** Screenshots *)

Definition field_of (v : JsVal) (name : string) : JsVal :=
  match v with JObject props => prop_of props (js name) | _ => JUndefined end.

(** The screenshot of an array is the property of that name, which parsed JSON never has. *)
Definition is_object (v : JsVal) : bool := match v with JObject _ | JArray _ => true | _ => false end.

Definition isStoredScreenshotPointer (value : JsVal) : bool :=
  is_object value && bool_decide (field_of value "type" = JString (js "s3")) &&
  bool_decide (is_Some (as_string (field_of value "key"))).

Definition isExpiredScreenshotPointer (value : JsVal) : bool :=
  is_object value && bool_decide (field_of value "type" = JString (js "expired")).

(** The pattern: the data scheme, a media type without separators, the base64 mark, the rest. *)
Definition SCREENSHOT_DATA_URL_PATTERN (value : jsstr) : option (jsstr * jsstr) :=
  if starts_with value (js "data:") then
    let rest := drop 5 value in
    let n := Templates.span_length (fun c => negb ((c =? 59) || (c =? 44))) rest in
    if (n =? 0)%nat then None
    else if starts_with (drop n rest) (js ";base64,") then Some (take n rest, drop (n + 8) rest) else None
  else None.

Section Runtime.
Context `{Runtime}.

Definition hashSecret (value : jsstr) : jsstr := sha256_hex value.

(** The random part is an argument. *)
Definition generateOpaqueToken (prefix random : jsstr) : jsstr := prefix ++ js "_" ++ random.

Definition parseScreenshotDataUrl (value : jsstr) : option (jsstr * list Z) :=
  match SCREENSHOT_DATA_URL_PATTERN value with
  | None => None
  | Some (mimeType, data) =>
      if negb (starts_with mimeType (js "image/")) then None else Some (mimeType, buffer_from_base64 data)
  end.

Definition extensionForScreenshotMime (mimeType : jsstr) : jsstr :=
  if bool_decide (mimeType = js "image/png") then js "png"
  else if bool_decide (mimeType = js "image/jpeg") then js "jpg"
  else if bool_decide (mimeType = js "image/webp") then js "webp" else js "bin".

Definition numberField (result : Rec JsVal) (key : string) : JsVal :=
  match prop_of result (js key) with JNumber n => JNumber n | _ => JNumber 0 end.

Definition by_token (hostToken : jsstr) (w : World) : list (jsstr * Host) :=
  rows (fun _ h => bool_decide (h_tokenHash h = hashSecret hostToken) && bool_decide (h_revokedAt h = None)) (hosts w).

Definition hostFromToken (hostToken : jsstr) (w : World) : option (jsstr * Host) := head (by_token hostToken w).

Definition screenshot_key (orgId userId commandId mimeType : jsstr) : jsstr :=
  js "computer-use/" ++ orgId ++ js "/" ++ userId ++ js "/" ++ commandId ++ js "/screenshot." ++
  extensionForScreenshotMime mimeType.

(** Outside of any transaction: the object is stored before the command is looked at. *)
Definition offloadScreenshotForResult (bucket hostToken commandId : jsstr) (result : Rec JsVal) (w : World) :
    Rec JsVal * World :=
  match as_string (prop_of result (js "screenshot")) with
  | None => (result, w)
  | Some screenshot =>
      match parseScreenshotDataUrl screenshot with
      | None => (result, w)
      | Some (mimeType, buffer) =>
          match hostFromToken hostToken w with
          | None => (result, w)
          | Some (_, identity) =>
              let key := screenshot_key (h_orgId identity) (h_userId identity) commandId mimeType in
              let pointer := JObject [(js "type", JString (js "s3")); (js "bucket", JString bucket); (js "key", JString key);
                (js "mimeType", JString mimeType); (js "sizeBytes", JNumber (Z.of_nat (length buffer)));
                (js "width", numberField result "screenshotWidth"); (js "height", numberField result "screenshotHeight")] in
              (rec_define result (js "screenshot") pointer, with_storage (<[(bucket, key) := buffer]>) w)
          end
      end
  end.

(** The form of a result the clients see. *)
Definition toClientResult (result : Rec JsVal) : Rec JsVal :=
  let screenshot := prop_of result (js "screenshot") in
  if isStoredScreenshotPointer screenshot then
    rec_define result (js "screenshot") (JObject [(js "type", JString (js "s3")); (js "mimeType", field_of screenshot "mimeType");
      (js "sizeBytes", field_of screenshot "sizeBytes"); (js "width", field_of screenshot "width");
      (js "height", field_of screenshot "height")])
  else if isExpiredScreenshotPointer screenshot then
    rec_define result (js "screenshot") (JObject [(js "type", JString (js "expired"))])
  else result.

(** ** Audit *)

Definition AUDIT_KEYS : list jsstr :=
  [js "action"; js "app"; js "button"; js "clickCount"; js "direction"; js "dispatchMode"; js "dispatchTarget";
   js "elementId"; js "elementIndex"; js "inputRisk"; js "key"; js "pages"; js "role"; js "summary"; js "x"; js "y"].

Definition is_scalar (v : JsVal) : bool := match v with JString _ | JNumber _ | JBool _ => true | _ => false end.

Definition copy_scalar (result : Rec JsVal) (redacted : Rec JsVal) (key : jsstr) : Rec JsVal :=
  let value := prop_of result key in if is_scalar value then rec_set redacted key value else redacted.

Definition redactedResultForAudit (result : option (Rec JsVal)) : option (Rec JsVal) :=
  match result with
  | None => None
  | Some result =>
      let redacted := foldl (copy_scalar result) [] AUDIT_KEYS in
      let redacted := match prop_of result (js "appState") with
        | JString s => rec_set redacted (js "appStateLength") (JNumber (Z.of_nat (length s))) | _ => redacted end in
      let redacted := match prop_of result (js "screenshot") with
        | JString _ | JObject _ | JArray _ => rec_set redacted (js "screenshot") (JString (js "[redacted]")) | _ => redacted end in
      let redacted := match prop_of result (js "action") with
        | JObject action =>
            let redactedAction := foldl (fun acc kv => if is_scalar kv.2 then rec_set acc kv.1 kv.2 else acc) [] action in
            if (0 <? length redactedAction)%nat then rec_set redacted (js "action") (JObject redactedAction) else redacted
        | _ => redacted end in
      if (0 <? length redacted)%nat then Some redacted else Some result
  end.

Definition errorForAudit (error : option CommandError) : option CommandError := error.

Definition insertComputerUseCommandAuditEvent (id : jsstr) (command : Command) (event : AuditKind)
    (approvalOutcome : option AuditKind) (result : option (Rec JsVal)) (error : option CommandError) (createdAt : Z)
    (w : World) : World :=
  if negb (isComputerUseWriteCommandKind (c_kind command)) then w
  else with_audits (fun l => l ++ [{| a_commandId := id; a_orgId := c_orgId command; a_userId := c_userId command;
    a_runId := c_runId command; a_hostId := c_hostId command; a_kind := c_kind command;
    a_app := as_string (prop_of (c_payload command) (js "app")); a_event := event; a_approvalOutcome := approvalOutcome;
    a_redactedResult := redactedResultForAudit result; a_error := errorForAudit error; a_createdAt := createdAt |}]) w.

(** ** Errors and timeouts *)

Definition error_object (error : CommandError) : JsVal :=
  JObject [(js "code", JString (ce_code error)); (js "message", JString (ce_message error))].

Definition commandErrorFromRow (row : Command) : CommandError :=
  let error := match c_result row with Some result => prop_of result (js "error") | None => JUndefined end in
  match as_string (field_of error "code"), as_string (field_of error "message") with
  | Some code, Some message => {| ce_code := code; ce_message := message |}
  | _, _ => {| ce_code := js "unsupported_command"; ce_message := default (js "Computer-use command failed") (c_error row) |}
  end.

Definition timeout_of (row : Command) : Z := default COMPUTER_USE_RUNNING_COMMAND_DEFAULT_TIMEOUT_MS (c_timeoutMs row).

Definition runningCommandHasTimedOut (row : Command) (now : Z) : bool :=
  match c_claimedAt row with None => false | Some claimedAt => timeout_of row <? now - claimedAt end.

Definition js_of_Z (z : Z) : jsstr := js (pretty z).

Definition timeoutErrorForCommand (row : Command) : CommandError :=
  {| ce_code := js "timeout"; ce_message := js "Computer-use command timed out after " ++ js_of_Z (timeout_of row) ++ js "ms" |}.

(** ** What clients see

    Times are numbers; the sources format them. *)

Record HostView := {
  hv_id : jsstr; hv_displayName : jsstr; hv_appVersion : jsstr; hv_osVersion : jsstr; hv_capabilities : list jsstr;
  hv_permissions : ComputerUsePermissions; hv_status : HostStatus; hv_lastSeenAt : Z; hv_createdAt : Z }.

Record CommandView := {
  cv_id : jsstr; cv_kind : jsstr; cv_status : CommandStatus; cv_hostId : option jsstr; cv_hostName : option jsstr;
  cv_payload : Rec JsVal; cv_result : option (Rec JsVal); cv_error : option CommandError; cv_timeoutMs : option Z;
  cv_createdAt : Z; cv_claimedAt : option Z; cv_completedAt : option Z }.

Definition serializeHost (id : jsstr) (row : Host) (now : Z) : HostView :=
  {| hv_id := id; hv_displayName := h_displayName row; hv_appVersion := h_appVersion row; hv_osVersion := h_osVersion row;
     hv_capabilities := h_capabilities row; hv_permissions := h_permissions row;
     hv_status := if hostIsOnline row now then Online else Offline; hv_lastSeenAt := h_lastSeenAt row;
     hv_createdAt := h_createdAt row |}.

Definition serializeCommand (id : jsstr) (row : Command) (hostName : option jsstr) : CommandView :=
  {| cv_id := id; cv_kind := c_kind row; cv_status := c_status row; cv_hostId := c_hostId row; cv_hostName := hostName;
     cv_payload := c_payload row;
     cv_result := if bool_decide (c_status row = Succeeded) then toClientResult <$> c_result row else None;
     cv_error := if bool_decide (c_status row = Failed) then Some (commandErrorFromRow row) else None;
     cv_timeoutMs := c_timeoutMs row; cv_createdAt := c_createdAt row; cv_claimedAt := c_claimedAt row;
     cv_completedAt := c_completedAt row |}.

(** ** Transitions of a command *)

Definition set_failed (now : Z) (error : CommandError) (c : Command) : Command :=
  {| c_orgId := c_orgId c; c_userId := c_userId c; c_runId := c_runId c; c_hostId := c_hostId c; c_kind := c_kind c;
     c_status := Failed; c_payload := c_payload c; c_result := Some [(js "error", error_object error)];
     c_error := Some (ce_code error); c_timeoutMs := c_timeoutMs c; c_claimedAt := c_claimedAt c;
     c_completedAt := Some now; c_createdAt := c_createdAt c; c_updatedAt := now |}.

Definition set_queued (now : Z) (c : Command) : Command :=
  {| c_orgId := c_orgId c; c_userId := c_userId c; c_runId := c_runId c; c_hostId := c_hostId c; c_kind := c_kind c;
     c_status := Queued; c_payload := c_payload c; c_result := c_result c; c_error := c_error c;
     c_timeoutMs := c_timeoutMs c; c_claimedAt := c_claimedAt c; c_completedAt := c_completedAt c;
     c_createdAt := c_createdAt c; c_updatedAt := now |}.

Definition set_running (now : Z) (hostId : jsstr) (c : Command) : Command :=
  {| c_orgId := c_orgId c; c_userId := c_userId c; c_runId := c_runId c; c_hostId := Some hostId; c_kind := c_kind c;
     c_status := Running; c_payload := c_payload c; c_result := c_result c; c_error := c_error c;
     c_timeoutMs := c_timeoutMs c; c_claimedAt := Some now; c_completedAt := c_completedAt c;
     c_createdAt := c_createdAt c; c_updatedAt := now |}.

Definition set_succeeded (now : Z) (result : Rec JsVal) (c : Command) : Command :=
  {| c_orgId := c_orgId c; c_userId := c_userId c; c_runId := c_runId c; c_hostId := c_hostId c; c_kind := c_kind c;
     c_status := Succeeded; c_payload := c_payload c; c_result := Some result; c_error := None;
     c_timeoutMs := c_timeoutMs c; c_claimedAt := c_claimedAt c; c_completedAt := Some now;
     c_createdAt := c_createdAt c; c_updatedAt := now |}.

Definition fail_timed_out (now : Z) (w : World) (row : jsstr * Command) : World :=
  let '(id, command) := row in
  if negb (runningCommandHasTimedOut command now) then w
  else
    let error := timeoutErrorForCommand command in
    let updated := set_failed now error command in
    insertComputerUseCommandAuditEvent id updated Completed None None (Some error) now
      (with_commands (<[id := updated]>) w).

(** [locked]: the rows other transactions hold, which are skipped. *)
Definition failStaleRunningComputerUseCommands (locked : jsstr -> bool) (orgId userId : jsstr) (hostId : option jsstr)
    (now : Z) (w : World) : World :=
  foldl (fail_timed_out now) w (rows (fun id c =>
    bool_decide (c_orgId c = orgId) && bool_decide (c_userId c = userId) && bool_decide (c_status c = Running) &&
    match present hostId with Some h => bool_decide (c_hostId c = Some h) | None => true end && negb (locked id))
    (commands w)).

(** ** Targets *)

Inductive Target := Resolved (hostId : jsstr) | HostAmbiguous | HostOffline | HostUnsupported.

Definition resolveComputerUseCommandTargets (onlineHosts : list (jsstr * Host)) (kind : jsstr) (targetHostId : option jsstr) :
    Target :=
  if (length onlineHosts =? 0)%nat then HostOffline
  else
    let candidates := match present targetHostId with
      | Some t => filter (fun h => h.1 = t) onlineHosts | None => onlineHosts end in
    if (length candidates =? 0)%nat then HostOffline
    else match filter (fun h => hostSupportsCommand h.2 kind = true) candidates with
    | [] => HostUnsupported
    | [host] => Resolved host.1
    | _ => HostAmbiguous
    end.

(** ** Host operations *)

Record HostBody := {
  hb_hostName : jsstr; hb_appVersion : jsstr; hb_osVersion : jsstr; hb_capabilities : list jsstr;
  hb_permissions : ComputerUsePermissions }.

(** The new id is an argument. *)
Definition startComputerUseHost (now : Z) (id orgId userId random : jsstr) (body : HostBody) (w : World) : jsstr * World :=
  let hostToken := generateOpaqueToken (js "vm0_computer_use_host") random in
  (hostToken, with_hosts (<[id := {| h_orgId := orgId; h_userId := userId;
     h_displayName := normalizeHostName (hb_hostName body); h_tokenHash := hashSecret hostToken;
     h_appVersion := normalizeVersion (hb_appVersion body); h_osVersion := normalizeOsVersion (hb_osVersion body);
     h_capabilities := normalizeCapabilities (hb_capabilities body); h_permissions := hb_permissions body;
     h_status := Online; h_lastSeenAt := now; h_revokedAt := None; h_createdAt := now; h_updatedAt := now |}]>) w).

Definition set_heartbeat (now : Z) (body : HostBody) (h : Host) : Host :=
  {| h_orgId := h_orgId h; h_userId := h_userId h; h_displayName := normalizeHostName (hb_hostName body);
     h_tokenHash := h_tokenHash h; h_appVersion := normalizeVersion (hb_appVersion body);
     h_osVersion := normalizeOsVersion (hb_osVersion body); h_capabilities := normalizeCapabilities (hb_capabilities body);
     h_permissions := hb_permissions body; h_status := Online; h_lastSeenAt := now; h_revokedAt := h_revokedAt h;
     h_createdAt := h_createdAt h; h_updatedAt := now |}.

(** The id of the host; [None] when the token is invalid. *)
Definition heartbeatComputerUseHost (now : Z) (hostToken : jsstr) (body : HostBody) (w : World) : option jsstr * World :=
  match hostFromToken hostToken w with
  | None => (None, w)
  | Some (id, _) => (Some id, with_hosts (alter (set_heartbeat now body) id) w)
  end.

Definition set_stopped (now : Z) (h : Host) : Host :=
  {| h_orgId := h_orgId h; h_userId := h_userId h; h_displayName := h_displayName h; h_tokenHash := h_tokenHash h;
     h_appVersion := h_appVersion h; h_osVersion := h_osVersion h; h_capabilities := h_capabilities h;
     h_permissions := h_permissions h; h_status := Offline; h_lastSeenAt := h_lastSeenAt h; h_revokedAt := Some now;
     h_createdAt := h_createdAt h; h_updatedAt := now |}.

Definition stopComputerUseHost (now : Z) (hostToken : jsstr) (w : World) : option jsstr * World :=
  match hostFromToken hostToken w with
  | None => (None, w)
  | Some (id, _) => (Some id, with_hosts (alter (set_stopped now) id) w)
  end.

Definition hosts_of (orgId userId : jsstr) (w : World) : list (jsstr * Host) :=
  rows (fun _ h => bool_decide (h_orgId h = orgId) && bool_decide (h_userId h = userId) &&
                   bool_decide (h_revokedAt h = None)) (hosts w).

Fixpoint insert_by_seen (h : jsstr * Host) (l : list (jsstr * Host)) : list (jsstr * Host) :=
  match l with
  | [] => [h]
  | x :: l' => if h_lastSeenAt x.2 <=? h_lastSeenAt h.2 then h :: l else x :: insert_by_seen h l'
  end.

Definition listComputerUseHosts (now : Z) (orgId userId : jsstr) (w : World) : list HostView :=
  (fun h => serializeHost h.1 h.2 now) <$> foldr insert_by_seen [] (hosts_of orgId userId w).

Definition deleteComputerUseHost (now : Z) (orgId userId hostId : jsstr) (w : World) : bool * World :=
  match hosts w !! hostId with
  | Some h =>
      if bool_decide (h_orgId h = orgId) && bool_decide (h_userId h = userId) && bool_decide (h_revokedAt h = None)
      then (true, with_hosts (alter (set_stopped now) hostId) w) else (false, w)
  | None => (false, w)
  end.

(** ** Commands of users and runs *)

Record CommandParams := {
  cp_orgId : jsstr; cp_userId : jsstr; cp_runId : option jsstr; cp_targetHostId : option jsstr; cp_kind : jsstr;
  cp_payload : ComputerUseCommandPayload; cp_timeoutMs : option Z; cp_requiresApproval : bool }.

Inductive CreateResult := CreatedCommand (commandId : jsstr) (commandStatus : CommandStatus) | NoHost | NotCreated (target : Target).

Definition new_command (now : Z) (params : CommandParams) (hostId : jsstr) : Command :=
  {| c_orgId := cp_orgId params; c_userId := cp_userId params; c_runId := cp_runId params; c_hostId := Some hostId;
     c_kind := cp_kind params; c_status := if cp_requiresApproval params then PendingApproval else Queued;
     c_payload := commandPayload (cp_payload params); c_result := None; c_error := None;
     c_timeoutMs := cp_timeoutMs params; c_claimedAt := None; c_completedAt := None; c_createdAt := now; c_updatedAt := now |}.

Definition createComputerUseCommand (now : Z) (id : jsstr) (params : CommandParams) (w : World) : CreateResult * World :=
  if negb (bool_decide (cp_kind params ∈ COMPUTER_USE_COMMANDS)) then (NotCreated HostUnsupported, w)
  else
    let hosts := hosts_of (cp_orgId params) (cp_userId params) w in
    if (length hosts =? 0)%nat then (NoHost, w)
    else
      let onlineHosts := filter (fun h => hostIsOnline h.2 now = true) hosts in
      match resolveComputerUseCommandTargets onlineHosts (cp_kind params) (cp_targetHostId params) with
      | Resolved hostId =>
          let command := new_command now params hostId in
          let w1 := with_commands (<[id := command]>) w in
          (CreatedCommand id (c_status command),
           if cp_requiresApproval params
           then insertComputerUseCommandAuditEvent id command Created None None None now w1 else w1)
      | target => (NotCreated target, w)
      end.

(** The row a reader may see. *)
Definition command_of (orgId userId commandId : jsstr) (hostId : option jsstr) (w : World) : option Command :=
  c ← commands w !! commandId;
  if bool_decide (c_orgId c = orgId) && bool_decide (c_userId c = userId) &&
     match present hostId with Some h => bool_decide (c_hostId c = Some h) | None => true end
  then Some c else None.

Definition host_name (hostId : option jsstr) (w : World) : option jsstr := id ← hostId; h_displayName <$> hosts w !! id.

Definition getComputerUseCommand (locked : jsstr -> bool) (now : Z) (orgId userId commandId : jsstr)
    (hostId : option jsstr) (w : World) : option CommandView * World :=
  let w1 := failStaleRunningComputerUseCommands locked orgId userId None now w in
  ((fun c => serializeCommand commandId c (host_name (c_hostId c) w1)) <$> command_of orgId userId commandId hostId w1, w1).

(** The bytes and the content type; [Throw] when the object store has no such object. *)
Definition getComputerUseCommandScreenshot (orgId userId commandId : jsstr) (hostId : option jsstr) (w : World) :
    result (option (list Z * JsVal)) :=
  match command_of orgId userId commandId hostId w with
  | Some c =>
      match c_status c, c_result c with
      | Succeeded, Some result =>
          let screenshot := prop_of result (js "screenshot") in
          if isStoredScreenshotPointer screenshot then
            match as_string (field_of screenshot "bucket"), as_string (field_of screenshot "key") with
            | Some bucket, Some key =>
                match storage w !! (bucket, key) with
                | Some buffer => Ok (Some (buffer, field_of screenshot "mimeType"))
                | None => Throw (js "NoSuchKey")
                end
            | _, _ => Throw (js "NoSuchBucket")
            end
          else match as_string screenshot ≫= parseScreenshotDataUrl with
               | Some (mimeType, buffer) => Ok (Some (buffer, JString mimeType))
               | None => Ok None
               end
      | _, _ => Ok None
      end
  | None => Ok None
  end.

(** ** Approval *)

Inductive ApprovalResult := ApprovedCommand (commandId : jsstr) | DeniedCommand (commandId : jsstr) | WriteNotFound | NotPending.

Definition denyPendingComputerUseWriteCommand (now : Z) (id : jsstr) (command : Command) (message : option jsstr) (w : World) :
    ApprovalResult * World :=
  let error := {| ce_code := js "permission_denied"; ce_message := default (js "Computer-use command was denied") message |} in
  let updated := set_failed now error command in
  (DeniedCommand id, insertComputerUseCommandAuditEvent id updated Denied (Some Denied) None (Some error) now
     (with_commands (<[id := updated]>) w)).

Definition approvePendingComputerUseWriteCommand (now : Z) (id : jsstr) (command : Command) (w : World) :
    ApprovalResult * World :=
  let updated := set_queued now command in
  (ApprovedCommand id, insertComputerUseCommandAuditEvent id updated Approved (Some Approved) None None now
     (with_commands (<[id := updated]>) w)).

Definition approveComputerUseWriteCommand (now : Z) (orgId userId commandId : jsstr) (deny : bool) (message : option jsstr)
    (w : World) : ApprovalResult * World :=
  match command_of orgId userId commandId None w with
  | None => (WriteNotFound, w)
  | Some command =>
      if negb (isComputerUseWriteCommandKind (c_kind command)) then (WriteNotFound, w)
      else if negb (bool_decide (c_status command = PendingApproval)) then (NotPending, w)
      else if deny then denyPendingComputerUseWriteCommand now commandId command message w
      else approvePendingComputerUseWriteCommand now commandId command w
  end.

(** ** Execution *)

Inductive ClaimResult := ClaimInvalidToken | ClaimIdle | ClaimedCommand (command : CommandView).

Definition set_polled (now : Z) (capabilities : list jsstr) (h : Host) : Host :=
  {| h_orgId := h_orgId h; h_userId := h_userId h; h_displayName := h_displayName h; h_tokenHash := h_tokenHash h;
     h_appVersion := h_appVersion h; h_osVersion := h_osVersion h; h_capabilities := capabilities;
     h_permissions := h_permissions h; h_status := Online; h_lastSeenAt := now; h_revokedAt := h_revokedAt h;
     h_createdAt := h_createdAt h; h_updatedAt := now |}.

Definition runs_on (hostId : jsstr) (host : Host) (c : Command) : bool :=
  bool_decide (c_orgId c = h_orgId host) && bool_decide (c_userId c = h_userId host) &&
  bool_decide (c_hostId c = Some hostId) && bool_decide (c_status c = Running).

Definition command_filter (capabilities : list jsstr) (host : Host) : list jsstr :=
  let effectiveCapabilities := if (0 <? length capabilities)%nat then capabilities else h_capabilities host in
  if (0 <? length effectiveCapabilities)%nat then effectiveCapabilities else COMPUTER_USE_COMMANDS.

Definition claimable (locked : jsstr -> bool) (hostId : jsstr) (host : Host) (kinds : list jsstr) (id : jsstr) (c : Command) : bool :=
  bool_decide (c_orgId c = h_orgId host) && bool_decide (c_userId c = h_userId host) && bool_decide (c_status c = Queued) &&
  (bool_decide (c_hostId c = Some hostId) || bool_decide (c_hostId c = None)) && bool_decide (c_kind c ∈ kinds) &&
  negb (locked id).

(** [ORDER BY created_at LIMIT 1]. *)
Fixpoint oldest (l : list (jsstr * Command)) : option (jsstr * Command) :=
  match l with
  | [] => None
  | x :: l' => match oldest l' with
               | Some y => if c_createdAt y.2 <? c_createdAt x.2 then Some y else Some x
               | None => Some x
               end
  end.

Definition claimNextComputerUseHostCommand (locked : jsstr -> bool) (now : Z) (hostToken : jsstr) (supportedCapabilities : list jsstr)
    (w : World) : ClaimResult * World :=
  let capabilities := normalizeCapabilities supportedCapabilities in
  match hostFromToken hostToken w with
  | None => (ClaimInvalidToken, w)
  | Some (hostId, host) =>
      let w1 := with_hosts (alter (set_polled now capabilities) hostId) w in
      let w2 := failStaleRunningComputerUseCommands locked (h_orgId host) (h_userId host) (Some hostId) now w1 in
      if (0 <? length (rows (fun _ => runs_on hostId host) (commands w2)))%nat then (ClaimIdle, w2)
      else match oldest (rows (claimable locked hostId host (command_filter capabilities host)) (commands w2)) with
      | None => (ClaimIdle, w2)
      | Some (id, command) =>
          let updated := set_running now hostId command in
          (ClaimedCommand (serializeCommand id updated (Some (h_displayName host))), with_commands (<[id := updated]>) w2)
      end
  end.

Inductive Completion := SucceededWith (result : Rec JsVal) | FailedWith (error : CommandError).

(** The contract of the request; a body with another code is rejected. *)
Definition computerUseHostCommandCompleteBodySchema (body : Completion) : option Completion :=
  match body with
  | SucceededWith _ => Some body
  | FailedWith error => if bool_decide (ce_code error ∈ computerUseCommandErrorCodeSchema) then Some body else None
  end.

(** The codes the native helper of the desktop passes on (apps/desktop/src/computer-use-native.ts). *)
Definition responseErrorCode (value : jsstr) : jsstr :=
  if bool_decide (value ∈ [js "permission_denied"; js "accessibility_unavailable"; js "element_action_unsupported";
       js "element_not_editable"; js "window_unavailable"; js "screen_recording_unavailable"; js "app_not_found";
       js "app_open_failed"; js "unsupported_command"])
  then value else js "accessibility_unavailable".

Inductive CompleteResult := CompleteDone | CompleteInvalidToken | CompleteNotFound | CompleteNotRunning.

Definition set_seen (now : Z) (h : Host) : Host :=
  {| h_orgId := h_orgId h; h_userId := h_userId h; h_displayName := h_displayName h; h_tokenHash := h_tokenHash h;
     h_appVersion := h_appVersion h; h_osVersion := h_osVersion h; h_capabilities := h_capabilities h;
     h_permissions := h_permissions h; h_status := Online; h_lastSeenAt := now; h_revokedAt := h_revokedAt h;
     h_createdAt := h_createdAt h; h_updatedAt := now |}.

(** The transaction. [stored] is the result to store, [reported] the one the host reported. *)
Definition complete_tx (now : Z) (hostToken commandId : jsstr) (stored reported : Completion) (w : World) : CompleteResult * World :=
  match hostFromToken hostToken w with
  | None => (CompleteInvalidToken, w)
  | Some (hostId, _) =>
      match commands w !! commandId with
      | Some command =>
          if negb (bool_decide (c_hostId command = Some hostId)) then (CompleteNotFound, w)
          else if negb (bool_decide (c_status command = Running)) then (CompleteNotRunning, w)
          else
            let updated := match stored with
              | SucceededWith result => set_succeeded now result command
              | FailedWith error => set_failed now error command end in
            let w1 := with_commands (<[commandId := updated]>) w in
            let w2 := insertComputerUseCommandAuditEvent commandId updated Completed None
              (match reported with SucceededWith result => Some result | FailedWith _ => None end)
              (match reported with SucceededWith _ => None | FailedWith error => Some error end) now w1 in
            (CompleteDone, with_hosts (alter (set_seen now) hostId) w2)
      | None => (CompleteNotFound, w)
      end
  end.

(** [between]: what other requests do between the upload and the transaction. *)
Definition completeComputerUseHostCommand (bucket : jsstr) (now : Z) (hostToken commandId : jsstr) (completion : Completion)
    (between : World -> World) (w : World) : CompleteResult * World :=
  match completion with
  | SucceededWith result =>
      let '(stored, w1) := offloadScreenshotForResult bucket hostToken commandId result w in
      complete_tx now hostToken commandId (SucceededWith stored) completion (between w1)
  | FailedWith error => complete_tx now hostToken commandId completion completion (between w)
  end.

(** ** Audit trail *)

Fixpoint insert_by_created (e : AuditEvent) (l : list AuditEvent) : list AuditEvent :=
  match l with
  | [] => [e]
  | x :: l' => if a_createdAt x <=? a_createdAt e then e :: l else x :: insert_by_created e l'
  end.

Definition opt_filter (o value : option jsstr) : bool :=
  match present o with Some x => bool_decide (value = Some x) | None => true end.

Definition listComputerUseAuditEvents (orgId userId : jsstr) (limit : nat) (commandId hostId runId : option jsstr) (w : World) :
    list AuditEvent :=
  take limit (foldr insert_by_created [] (filter (fun e =>
    bool_decide (a_orgId e = orgId) && bool_decide (a_userId e = userId) && opt_filter commandId (Some (a_commandId e)) &&
    opt_filter hostId (a_hostId e) && opt_filter runId (a_runId e) = true) (audits w))).

(** ** Retention (cron-computer-use-screenshot-cleanup.service.ts) *)

Definition SCREENSHOT_RETENTION_DAYS : Z := 30.
Definition SCREENSHOT_CLEANUP_BATCH_SIZE : nat := 500.

(** The condition of the query: the screenshot is a string or has the type of a pointer. *)
Definition keeps_screenshot (cutoff : Z) (c : Command) : bool :=
  (c_createdAt c <? cutoff) &&
  match prop_of (default [] (c_result c)) (js "screenshot") with
  | JString _ => true
  | v => bool_decide (field_of v "type" = JString (js "s3"))
  end.

(** The bucket and the key of a stored pointer; only the key is checked to be a string. *)
Definition pointer_of (c : Command) : option (JsVal * jsstr) :=
  let screenshot := prop_of (default [] (c_result c)) (js "screenshot") in
  if isStoredScreenshotPointer screenshot then key ← as_string (field_of screenshot "key"); Some (field_of screenshot "bucket", key)
  else None.

(** The keys of a [Map]: objects are compared by identity. *)
Definition same_key (a b : JsVal) : bool := match a with JArray _ | JObject _ => false | _ => bool_decide (a = b) end.

Fixpoint add_key (bucket : JsVal) (key : jsstr) (groups : list (JsVal * list jsstr)) : list (JsVal * list jsstr) :=
  match groups with
  | [] => [(bucket, [key])]
  | (b, keys) :: groups' => if same_key b bucket then (b, keys ++ [key]) :: groups' else (b, keys) :: add_key bucket key groups'
  end.

Definition keysByBucket (batch : list (jsstr * Command)) : list (JsVal * list jsstr) :=
  foldl (fun groups kv => match pointer_of kv.2 with Some (bucket, key) => add_key bucket key groups | None => groups end) [] batch.

Definition delete_keys (bucket : JsVal) (keys : list jsstr) (w : World) : World :=
  match bucket with
  | JString bucket => with_storage (fun m => foldr (fun key m => delete (bucket, key) m) m keys) w
  | _ => w
  end.

Definition deleteS3Objects (bucket : JsVal) (keys : list jsstr) (w : World) : result unit * World :=
  if (length keys =? 0)%nat then (Ok tt, w)
  else if s3_deletes bucket keys then (Ok tt, delete_keys bucket keys w) else (Throw (js "DeleteObjects"), w).

Fixpoint delete_buckets (groups : list (JsVal * list jsstr)) (w : World) : result unit * World :=
  match groups with
  | [] => (Ok tt, w)
  | (bucket, keys) :: groups' =>
      match deleteS3Objects bucket keys w with
      | (Throw e, w1) => (Throw e, w1)
      | (Ok _, w1) => delete_buckets groups' w1
      end
  end.

Definition set_expired (now : Z) (c : Command) : Command :=
  {| c_orgId := c_orgId c; c_userId := c_userId c; c_runId := c_runId c; c_hostId := c_hostId c; c_kind := c_kind c;
     c_status := c_status c; c_payload := c_payload c;
     c_result := (fun r => rec_define r (js "screenshot") (JObject [(js "type", JString (js "expired"))])) <$> c_result c;
     c_error := c_error c; c_timeoutMs := c_timeoutMs c; c_claimedAt := c_claimedAt c; c_completedAt := c_completedAt c;
     c_createdAt := c_createdAt c; c_updatedAt := now |}.

Definition expire_rows (now : Z) (batch : list (jsstr * Command)) : World -> World :=
  with_commands (fun m => foldr (fun kv m => alter (set_expired now) kv.1 m) m batch).

(** The objects are deleted before the rows are updated; a deletion that fails ends the job. *)
Definition expire_batch (now : Z) (batch : list (jsstr * Command)) (w : World) : result unit * World :=
  match delete_buckets (keysByBucket batch) w with
  | (Throw e, w1) => (Throw e, w1)
  | (Ok _, w1) => (Ok tt, expire_rows now batch w1)
  end.

(** One turn of the loop per unit of fuel. *)
Fixpoint cleanup_loop (fuel : nat) (now cutoff : Z) (totalCleaned : nat) (w : World) : option (result nat * World) :=
  match fuel with
  | O => None
  | S fuel =>
      let batch := take SCREENSHOT_CLEANUP_BATCH_SIZE (rows (fun _ => keeps_screenshot cutoff) (commands w)) in
      if (length batch =? 0)%nat then Some (Ok totalCleaned, w)
      else
        match expire_batch now batch w with
        | (Throw e, w1) => Some (Throw e, w1)
        | (Ok _, w1) =>
            let total := (totalCleaned + length batch)%nat in
            if (length batch =? SCREENSHOT_CLEANUP_BATCH_SIZE)%nat then cleanup_loop fuel now cutoff total w1
            else Some (Ok total, w1)
        end
  end.

Definition cleanupComputerUseScreenshots (fuel : nat) (now : Z) (w : World) : option (result nat * World) :=
  cleanup_loop fuel now (now - SCREENSHOT_RETENTION_DAYS * 24 * 60 * 60 * 1000) 0 w.

(** ** Validation of write commands (zero-computer-use.ts of the contracts) *)

Record CommandBody := { cb_kind : jsstr; cb_payload : ComputerUseCommandPayload; cb_timeoutMs : Z }.

(** A path and a message. *)
Definition Issue : Type := jsstr * jsstr.

Definition requireComputerUseField (field : string) (message : jsstr) : Issue := (js field, message).

Definition falsy_text (o : option jsstr) : bool := bool_decide (present o = None).

Definition no_element (p : ComputerUseCommandPayload) : bool := falsy_text (p_elementId p) && bool_decide (p_elementIndex p = None).

Definition when (b : bool) (i : Issue) : list Issue := if b then [i] else [].

Definition validateElementClickCommand (p : ComputerUseCommandPayload) : list Issue :=
  let hasPoint := negb (bool_decide (p_x p = None)) && negb (bool_decide (p_y p = None)) in
  when (no_element p && negb hasPoint)
    (requireComputerUseField "elementIndex" (js "element.click requires elementId, elementIndex, or x/y")) ++
  when (negb (eqb (bool_decide (p_x p = None)) (bool_decide (p_y p = None))))
    (requireComputerUseField "x" (js "element.click coordinates require both x and y")).

Definition validateElementScrollCommand (p : ComputerUseCommandPayload) : list Issue :=
  when (no_element p) (requireComputerUseField "elementIndex" (js "element.scroll requires elementId or elementIndex")) ++
  when (falsy_text (p_direction p)) (requireComputerUseField "direction" (js "element.scroll requires direction")).

Definition validateElementSetValueCommand (p : ComputerUseCommandPayload) : list Issue :=
  when (no_element p) (requireComputerUseField "elementIndex" (js "element.set_value requires elementId or elementIndex")) ++
  when (falsy_text (p_value p)) (requireComputerUseField "value" (js "element.set_value requires value")).

Definition validateElementActionCommand (p : ComputerUseCommandPayload) : list Issue :=
  when (no_element p) (requireComputerUseField "elementIndex" (js "element.perform_action requires elementId or elementIndex")) ++
  when (falsy_text (p_action p)) (requireComputerUseField "action" (js "element.perform_action requires action")).

Definition validateComputerUseWriteCommand (body : CommandBody) : list Issue :=
  let p := cb_payload body in let kind := cb_kind body in
  if falsy_text (p_app p) then [requireComputerUseField "app" (kind ++ js " requires app")]
  else if bool_decide (kind = js "app.open") then []
  else if bool_decide (kind = js "element.click") then validateElementClickCommand p
  else if bool_decide (kind = js "element.scroll") then validateElementScrollCommand p
  else if bool_decide (kind = js "element.set_value") then validateElementSetValueCommand p
  else if bool_decide (kind = js "element.perform_action") then validateElementActionCommand p
  else if bool_decide (kind = js "keyboard.type_text") then
    when (falsy_text (p_text p)) (requireComputerUseField "text" (js "keyboard.type_text requires text"))
  else when (falsy_text (p_key p)) (requireComputerUseField "key" (js "keyboard.press_key requires key")).

Definition validate_read_command (body : CommandBody) : list Issue :=
  when (bool_decide (cb_kind body = js "app.state") && falsy_text (p_app (cb_payload body)))
    (requireComputerUseField "app" (js "app.state requires app")).

(** ** Routes (routes/zero-computer-use.ts)

    The token of a run carries the host its user chose for it. *)

Record Auth := {
  au_orgId : jsstr; au_userId : jsstr;
  (** the run and the host of a run token; [None] for a user *)
  au_zero : option (jsstr * option jsstr) }.

Inductive Reply :=
| ReplyError (status : Z) (message code : jsstr)
| ReplyInvalidBody
| ReplyHostStarted (hostId hostToken : jsstr)
| ReplyHost (hostId : jsstr)
| ReplyHosts (hosts : list HostView)
| ReplyOk
| ReplyCommandCreated (commandId : jsstr) (status : CommandStatus)
| ReplyCommand (command : CommandView)
| ReplyScreenshot (buffer : list Z) (contentType : JsVal)
| ReplyIdle
| ReplyAuditEvents (events : list AuditEvent).

Definition computerUseDisabled : Reply := ReplyError 403 (js "Computer use is not enabled") (js "FORBIDDEN").
Definition computerUseHostNotAuthorized : Reply :=
  ReplyError 403 (js "Computer-use host is not authorized for this run") (js "FORBIDDEN").
Definition invalidComputerUseToken : Reply := ReplyError 401 (js "Invalid computer-use host token") (js "UNAUTHORIZED").
Definition unauthorizedComputerUse : Reply := ReplyError 401 (js "Missing computer-use host token") (js "UNAUTHORIZED").
Definition notFound (message : jsstr) : Reply := ReplyError 404 message (js "NOT_FOUND").
Definition conflict (message : jsstr) : Reply := ReplyError 409 message (js "CONFLICT").

Definition parseBearerToken (authorization : option jsstr) : option jsstr :=
  a ← authorization;
  if starts_with a (js "Bearer ") then present (Some (trim (drop 7 a))) else None.

Context `{Platform}.

Definition computerUseEnabled (auth : Auth) (switches : FeatureSwitches.Table) : bool :=
  FeatureSwitches.isFeatureEnabled (js "computerUse")
    (FeatureSwitches.loadUserFeatureSwitchContext (au_orgId auth) (au_userId auth) switches).

(** Bodies that the contract rejects are [None]. *)
Definition hostStart (switches : FeatureSwitches.Table) (now : Z) (id random : jsstr) (auth : Auth) (body : option HostBody)
    (w : World) : Reply * World :=
  if negb (computerUseEnabled auth switches) then (computerUseDisabled, w)
  else match body with
  | None => (ReplyInvalidBody, w)
  | Some body =>
      let '(hostToken, w1) := startComputerUseHost now id (au_orgId auth) (au_userId auth) random body w in
      (ReplyHostStarted id hostToken, w1)
  end.

Definition heartbeat (now : Z) (authorization : option jsstr) (body : option HostBody) (w : World) : Reply * World :=
  match body, parseBearerToken authorization with
  | None, _ => (ReplyInvalidBody, w)
  | _, None => (unauthorizedComputerUse, w)
  | Some body, Some hostToken =>
      match heartbeatComputerUseHost now hostToken body w with
      | (None, w1) => (invalidComputerUseToken, w1)
      | (Some hostId, w1) => (ReplyHost hostId, w1)
      end
  end.

Definition hostStop (now : Z) (authorization : option jsstr) (body : option unit) (w : World) : Reply * World :=
  match body, parseBearerToken authorization with
  | None, _ => (ReplyInvalidBody, w)
  | _, None => (unauthorizedComputerUse, w)
  | Some _, Some hostToken =>
      match stopComputerUseHost now hostToken w with
      | (None, w1) => (invalidComputerUseToken, w1)
      | (Some hostId, w1) => (ReplyHost hostId, w1)
      end
  end.

Definition hostsList (switches : FeatureSwitches.Table) (now : Z) (auth : Auth) (w : World) : Reply :=
  if negb (computerUseEnabled auth switches) then computerUseDisabled
  else ReplyHosts (listComputerUseHosts now (au_orgId auth) (au_userId auth) w).

Definition hostDelete (switches : FeatureSwitches.Table) (now : Z) (auth : Auth) (hostId : jsstr) (w : World) : Reply * World :=
  if negb (computerUseEnabled auth switches) then (computerUseDisabled, w)
  else match deleteComputerUseHost now (au_orgId auth) (au_userId auth) hostId w with
  | (true, w1) => (ReplyOk, w1)
  | (false, w1) => (notFound (js "Computer-use host not found"), w1)
  end.

(** The host a request is confined to: [None] when the token of a run has no host. *)
Definition confined (auth : Auth) : option (option jsstr) :=
  match au_zero auth with
  | None => Some None
  | Some (_, hostId) => match present hostId with Some h => Some (Some h) | None => None end
  end.

(** [validate]: the refinement of the body's contract. Both routes create without approval. *)
Definition commandCreate (validate : CommandBody -> list Issue) (switches : FeatureSwitches.Table) (now : Z) (id : jsstr)
    (auth : Auth) (body : option CommandBody) (w : World) : Reply * World :=
  if negb (computerUseEnabled auth switches) then (computerUseDisabled, w)
  else match body with
  | None => (ReplyInvalidBody, w)
  | Some body =>
      if negb (bool_decide (validate body = [])) then (ReplyInvalidBody, w)
      else match confined auth with
      | None => (computerUseHostNotAuthorized, w)
      | Some targetHostId =>
          match createComputerUseCommand now id {| cp_orgId := au_orgId auth; cp_userId := au_userId auth;
              cp_runId := fst <$> au_zero auth; cp_targetHostId := targetHostId; cp_kind := cb_kind body;
              cp_payload := cb_payload body; cp_timeoutMs := Some (cb_timeoutMs body); cp_requiresApproval := false |} w with
          | (CreatedCommand commandId commandStatus, w1) => (ReplyCommandCreated commandId commandStatus, w1)
          | (NoHost, w1) => (notFound (js "No linked computer-use host found"), w1)
          | (NotCreated HostAmbiguous, w1) => (conflict (js "Multiple active computer-use hosts are online"), w1)
          | (NotCreated HostOffline, w1) => (conflict (js "No online computer-use host found"), w1)
          | (NotCreated _, w1) => (conflict (js "No online computer-use host supports this command"), w1)
          end
      end
  end.

Definition commandGet (switches : FeatureSwitches.Table) (locked : jsstr -> bool) (now : Z) (auth : Auth) (commandId : jsstr)
    (w : World) : Reply * World :=
  if negb (computerUseEnabled auth switches) then (computerUseDisabled, w)
  else match confined auth with
  | None => (computerUseHostNotAuthorized, w)
  | Some hostId =>
      match getComputerUseCommand locked now (au_orgId auth) (au_userId auth) commandId hostId w with
      | (Some command, w1) => (ReplyCommand command, w1)
      | (None, w1) => (notFound (js "Computer-use command not found"), w1)
      end
  end.

Definition screenshotGet (switches : FeatureSwitches.Table) (auth : Auth) (commandId : jsstr) (w : World) : result Reply :=
  if negb (computerUseEnabled auth switches) then Ok computerUseDisabled
  else match confined auth with
  | None => Ok computerUseHostNotAuthorized
  | Some hostId =>
      screenshot ← getComputerUseCommandScreenshot (au_orgId auth) (au_userId auth) commandId hostId w;
      Ok (match screenshot with
          | Some (buffer, contentType) => ReplyScreenshot buffer contentType
          | None => notFound (js "Computer-use command screenshot not found") end)
  end.

Definition commandApproval (switches : FeatureSwitches.Table) (now : Z) (auth : Auth) (commandId : jsstr)
    (body : option (bool * option jsstr)) (w : World) : Reply * World :=
  if negb (computerUseEnabled auth switches) then (computerUseDisabled, w)
  else match body with
  | None => (ReplyInvalidBody, w)
  | Some (deny, message) =>
      match approveComputerUseWriteCommand now (au_orgId auth) (au_userId auth) commandId deny (present message) w with
      | (ApprovedCommand id, w1) => (ReplyCommandCreated id Queued, w1)
      | (DeniedCommand id, w1) => (ReplyCommandCreated id Failed, w1)
      | (WriteNotFound, w1) => (notFound (js "Computer-use write command not found"), w1)
      | (NotPending, w1) => (conflict (js "Computer-use write command is not pending approval"), w1)
      end
  end.

Definition hostCommandNext (locked : jsstr -> bool) (now : Z) (authorization : option jsstr) (body : option (list jsstr)) (w : World) :
    Reply * World :=
  match body, parseBearerToken authorization with
  | None, _ => (ReplyInvalidBody, w)
  | _, None => (unauthorizedComputerUse, w)
  | Some supportedCapabilities, Some hostToken =>
      match claimNextComputerUseHostCommand locked now hostToken supportedCapabilities w with
      | (ClaimInvalidToken, w1) => (invalidComputerUseToken, w1)
      | (ClaimIdle, w1) => (ReplyIdle, w1)
      | (ClaimedCommand command, w1) => (ReplyCommand command, w1)
      end
  end.

Definition hostCommandComplete (bucket : jsstr) (now : Z) (authorization : option jsstr) (commandId : jsstr)
    (body : option Completion) (between : World -> World) (w : World) : Reply * World :=
  match body, parseBearerToken authorization with
  | None, _ => (ReplyInvalidBody, w)
  | _, None => (unauthorizedComputerUse, w)
  | Some completion, Some hostToken =>
      match completeComputerUseHostCommand bucket now hostToken commandId completion between w with
      | (CompleteInvalidToken, w1) => (invalidComputerUseToken, w1)
      | (CompleteNotFound, w1) => (notFound (js "Computer-use command not found"), w1)
      | (CompleteNotRunning, w1) => (conflict (js "Computer-use command is not running"), w1)
      | (CompleteDone, w1) => (ReplyOk, w1)
      end
  end.

Definition auditEventsList (switches : FeatureSwitches.Table) (auth : Auth) (limit : nat) (commandId hostId runId : option jsstr)
    (w : World) : Reply :=
  if negb (computerUseEnabled auth switches) then computerUseDisabled
  else ReplyAuditEvents (listComputerUseAuditEvents (au_orgId auth) (au_userId auth) limit commandId hostId runId w).

End Runtime.

End ComputerUse.
