(* ===== verification/ComputerUseInvariants.v ===== *)
(** What holds of hosts, commands, audit events and screenshots in every reachable state: a
    step relation with one step per transaction of [ComputerUse], its invariant, the life of a
    command, and the specifications of the claim and of the retention job. *)

From stdpp Require Import relations.
From S2P Require Import Prelude JsString JsValue JsRecord Templates FeatureSwitches ComputerUse.

Import ComputerUse.

Module ComputerUseInvariants.

(** ** Lookups *)

Lemma elem_of_rows {A} (p : jsstr -> A -> bool) m id a : (id, a) ∈ rows p m <-> m !! id = Some a /\ p id a = true.
Proof. unfold rows. rewrite list_elem_of_filter, elem_of_map_to_list. cbn. tauto. Qed.

Lemma NoDup_rows {A} (p : jsstr -> A -> bool) m : NoDup (rows p m).*1.
Proof.
  unfold rows. apply (NoDup_fmap_2_strong fst).
  - intros [i a] [j b] Hi Hj Hij. cbn in Hij. subst j. apply list_elem_of_filter in Hi as [_ Hi], Hj as [_ Hj].
    apply elem_of_map_to_list in Hi, Hj. congruence.
  - apply NoDup_filter, NoDup_map_to_list.
Qed.

Lemma rows_nil {A} (p : jsstr -> A -> bool) m : rows p m = [] <-> forall id a, m !! id = Some a -> p id a = false.
Proof.
  split.
  - intros Hn id a Ha. apply not_true_iff_false. intros Hp.
    assert ((id, a) ∈ rows p m) as Hin by by apply elem_of_rows. rewrite Hn in Hin. by apply elem_of_nil in Hin.
  - intros Hall. destruct (rows p m) as [|[id a] l] eqn:E; [done|]. exfalso.
    assert ((id, a) ∈ rows p m) as Hin by (rewrite E; apply elem_of_cons; by left).
    apply elem_of_rows in Hin as [Ha Hp]. by rewrite (Hall _ _ Ha) in Hp.
Qed.

Section Proofs.
Context `{Runtime}.

Lemma hostFromToken_Some hostToken w id h :
  hostFromToken hostToken w = Some (id, h) ->
  hosts w !! id = Some h /\ h_tokenHash h = hashSecret hostToken /\ h_revokedAt h = None.
Proof.
  unfold hostFromToken, by_token. intros Hh. assert ((id, h) ∈ by_token hostToken w) as Hin.
  { unfold by_token. destruct (rows _ _); [done|]. injection Hh as ->. apply elem_of_cons. by left. }
  apply elem_of_rows in Hin as [Hl Hp]. apply andb_true_iff in Hp as [H1 H2]. by apply bool_decide_eq_true in H1, H2.
Qed.

Lemma command_of_Some orgId userId commandId hostId w c :
  command_of orgId userId commandId hostId w = Some c ->
  commands w !! commandId = Some c /\ c_orgId c = orgId /\ c_userId c = userId /\
  (forall h, present hostId = Some h -> c_hostId c = Some h).
Proof.
  unfold command_of. destruct (commands w !! commandId) as [c'|]; cbn; [|done]. destruct (_ && _) eqn:E; [|done].
  intros [= ->]. apply andb_true_iff in E as [E Hh]. apply andb_true_iff in E as [Ho Hu].
  apply bool_decide_eq_true in Ho, Hu. split_and!; [done..|]. intros h Hp. rewrite Hp in Hh. by apply bool_decide_eq_true in Hh.
Qed.

(** ** The abstract machine

    A tick changes one row: a live host, or one command together with the audit events the
    change is recorded with; or one object of the storage: a live host stores the screenshot of
    a command under its own organization and user, or the retention removes one that an old
    command points to. Every operation is a sequence of ticks. *)

(** The events an audit insert adds. *)
Definition event_of (id : jsstr) (c : Command) (event : AuditKind) (approvalOutcome : option AuditKind)
    (result : option (Rec JsVal)) (error : option CommandError) (now : Z) : list AuditEvent :=
  audits (insertComputerUseCommandAuditEvent id c event approvalOutcome result error now
    {| hosts := ∅; commands := ∅; audits := []; storage := ∅ |}).

Definition update (id : jsstr) (c : Command) (events : list AuditEvent) (w : World) : World :=
  {| hosts := hosts w; commands := <[id := c]> (commands w); audits := audits w ++ events; storage := storage w |}.

Definition completion_ok (r : Completion) : Prop :=
  match r with SucceededWith _ => True | FailedWith e => ce_code e ∈ computerUseCommandErrorCodeSchema end.

Definition completed (now : Z) (r : Completion) (c : Command) : Command :=
  match r with SucceededWith result => set_succeeded now result c | FailedWith e => set_failed now e c end.

(** A host reports itself, or is stopped for good; its owner and token stay. *)
Definition host_update (h h' : Host) : Prop :=
  h_orgId h' = h_orgId h /\ h_userId h' = h_userId h /\ h_tokenHash h' = h_tokenHash h /\ h_createdAt h' = h_createdAt h /\
  (h_revokedAt h' = None /\ h_status h' = Online \/ exists now, h' = set_stopped now h).

(** The changes of one command [id] of [w]. *)
Inductive transition (w : World) (id : jsstr) : Command -> Command -> list AuditEvent -> Prop :=
| tr_approved now c : c_status c = PendingApproval -> isComputerUseWriteCommandKind (c_kind c) = true ->
    transition w id c (set_queued now c) (event_of id (set_queued now c) Approved (Some Approved) None None now)
| tr_denied now message c : c_status c = PendingApproval ->
    let error := {| ce_code := js "permission_denied"; ce_message := message |} in
    transition w id c (set_failed now error c) (event_of id (set_failed now error c) Denied (Some Denied) None (Some error) now)
| tr_claimed now hostId h c : c_status c = Queued -> c_hostId c = Some hostId \/ c_hostId c = None ->
    hosts w !! hostId = Some h -> h_orgId h = c_orgId c -> h_userId h = c_userId c -> h_revokedAt h = None ->
    (forall j cj, commands w !! j = Some cj -> c_status cj = Running -> c_hostId cj <> Some hostId) ->
    transition w id c (set_running now hostId c) []
| tr_timed_out now c : c_status c = Running -> runningCommandHasTimedOut c now = true ->
    let error := timeoutErrorForCommand c in
    transition w id c (set_failed now error c) (event_of id (set_failed now error c) Completed None None (Some error) now)
| tr_completed now stored reported error c hostId h : c_status c = Running -> completion_ok stored ->
    c_hostId c = Some hostId -> hosts w !! hostId = Some h -> h_revokedAt h = None ->
    transition w id c (completed now stored c) (event_of id (completed now stored c) Completed None reported error now)
| tr_expired now cutoff c : keeps_screenshot cutoff c = true -> transition w id c (set_expired now c) [].

Inductive tick (w : World) : World -> Prop :=
| tick_host_started id h : hosts w !! id = None ->
    (forall j hj, hosts w !! j = Some hj -> h_tokenHash hj <> h_tokenHash h) -> h_revokedAt h = None -> h_status h = Online ->
    tick w (with_hosts (<[id := h]>) w)
| tick_host_changed f id h : hosts w !! id = Some h -> h_revokedAt h = None -> host_update h (f h) -> tick w (with_hosts (alter f id) w)
| tick_uploaded id h bucket commandId mimeType buffer : hosts w !! id = Some h -> h_revokedAt h = None ->
    tick w (with_storage (<[(bucket, screenshot_key (h_orgId h) (h_userId h) commandId mimeType) := buffer]>) w)
| tick_removed id c cutoff bucket key : commands w !! id = Some c -> keeps_screenshot cutoff c = true ->
    pointer_of c = Some (JString bucket, key) -> tick w (with_storage (delete (bucket, key)) w)
| tick_created now id params hostId h : commands w !! id = None -> hosts w !! hostId = Some h ->
    h_orgId h = cp_orgId params -> h_userId h = cp_userId params -> cp_kind params ∈ COMPUTER_USE_COMMANDS ->
    let c := new_command now params hostId in
    tick w (update id c (if cp_requiresApproval params then event_of id c Created None None None now else []) w)
| tick_command id c c' events : commands w !! id = Some c -> transition w id c c' events -> tick w (update id c' events w).

Lemma audit_update id c0 c ev out res err now w :
  insertComputerUseCommandAuditEvent id c ev out res err now (with_commands (<[id := c0]>) w) =
  update id c0 (event_of id c ev out res err now) w.
Proof.
  unfold event_of, insertComputerUseCommandAuditEvent, update, with_commands, with_audits.
  destruct (negb _); cbn; by rewrite ?app_nil_r.
Qed.

Lemma with_commands_update id c w : with_commands (<[id := c]>) w = update id c [] w.
Proof. unfold update, with_commands. by rewrite app_nil_r. Qed.

Lemma event_of_spec id c ev out res err now e :
  e ∈ event_of id c ev out res err now ->
  a_commandId e = id /\ a_event e = ev /\ a_orgId e = c_orgId c /\ a_userId e = c_userId c /\ a_kind e = c_kind c /\
  isComputerUseWriteCommandKind (c_kind c) = true.
Proof.
  unfold event_of, insertComputerUseCommandAuditEvent. destruct (isComputerUseWriteCommandKind _); cbn; intros He.
  - apply elem_of_cons in He as [->|He]; [done|by apply elem_of_nil in He].
  - by apply elem_of_nil in He.
Qed.

Lemma event_of_write id c ev out res err now :
  isComputerUseWriteCommandKind (c_kind c) = true ->
  exists e, e ∈ event_of id c ev out res err now /\ a_commandId e = id /\ a_event e = ev.
Proof.
  intros Hk. unfold event_of, insertComputerUseCommandAuditEvent. rewrite Hk. cbn.
  eexists. split; [apply elem_of_cons; by left|done].
Qed.

(** ** The invariant *)

(** The columns of a row agree with its status. *)
Definition shape_ok (c : Command) : Prop :=
  match c_status c with
  | PendingApproval | Queued => c_claimedAt c = None /\ c_completedAt c = None /\ c_result c = None /\ c_error c = None
  | Running => is_Some (c_claimedAt c) /\ c_completedAt c = None /\ c_result c = None /\ c_error c = None
  | Succeeded => is_Some (c_claimedAt c) /\ is_Some (c_completedAt c) /\ is_Some (c_result c) /\ c_error c = None
  | Failed => is_Some (c_completedAt c) /\ exists e, c_result c = Some [(js "error", error_object e)] /\
                c_error c = Some (ce_code e) /\ ce_code e ∈ computerUseCommandErrorCodeSchema
  end.

Record command_ok (w : World) (c : Command) : Prop := {
  ok_host : exists hostId h, c_hostId c = Some hostId /\ hosts w !! hostId = Some h /\ h_orgId h = c_orgId c /\ h_userId h = c_userId c;
  ok_kind : c_kind c ∈ COMPUTER_USE_COMMANDS;
  ok_shape : shape_ok c }.

Definition recorded (w : World) (id : jsstr) (ev : AuditKind) : Prop := exists e, e ∈ audits w /\ a_commandId e = id /\ a_event e = ev.

(** Once a command is queued or has been handed to a host. *)
Definition released (c : Command) : Prop := c_status c = Queued \/ is_Some (c_claimedAt c).

Record Inv (w : World) : Prop := {
  inv_tokens : forall i j hi hj, hosts w !! i = Some hi -> hosts w !! j = Some hj -> h_tokenHash hi = h_tokenHash hj -> i = j;
  inv_commands : forall id c, commands w !! id = Some c -> command_ok w c;
  inv_running : forall i j ci cj, commands w !! i = Some ci -> commands w !! j = Some cj ->
    c_status ci = Running -> c_status cj = Running -> c_hostId ci = c_hostId cj -> i = j;
  inv_audits : forall e, e ∈ audits w -> isComputerUseWriteCommandKind (a_kind e) = true /\
    exists c, commands w !! a_commandId e = Some c /\ a_orgId e = c_orgId c /\ a_userId e = c_userId c /\ a_kind e = c_kind c;
  inv_approval : forall id c, commands w !! id = Some c -> recorded w id Created -> released c -> recorded w id Approved }.

Lemma transition_identity w id c c' events : transition w id c c' events ->
  c_orgId c' = c_orgId c /\ c_userId c' = c_userId c /\ c_runId c' = c_runId c /\ c_kind c' = c_kind c /\
  c_payload c' = c_payload c /\ c_timeoutMs c' = c_timeoutMs c /\ c_createdAt c' = c_createdAt c.
Proof. intros [| | | |? []|]; done. Qed.

Lemma failed_no_screenshot cutoff c : shape_ok c -> c_status c = Failed -> keeps_screenshot cutoff c = false.
Proof.
  unfold shape_ok, keeps_screenshot. intros Hs Hf. rewrite Hf in Hs. destruct Hs as (_ & e & -> & _).
  cbn. by rewrite andb_false_r.
Qed.

Lemma kept_result cutoff c : keeps_screenshot cutoff c = true -> is_Some (c_result c).
Proof. unfold keeps_screenshot. destruct (c_result c); cbn; [done|]. by rewrite andb_false_r. Qed.

Lemma transition_shape w id c c' events : transition w id c c' events -> shape_ok c -> shape_ok c'.
Proof.
  intros [now ? Hst Hk|now m ? Hst|now hid h ? Hst Hc Hh Ho Hu Hrv Hn|now ? Hst Ht|now [r|e] rep err ? hid h Hst Hok Hc Hh Hrv|now cutoff c1 Hk] Hs;
    assert (Hs0 := Hs); unfold shape_ok in Hs; try rewrite Hst in Hs; unfold shape_ok; cbn.
  - done.
  - split; [done|]. eexists. split_and!; [done..|]. apply (bool_decide_unpack _). by vm_compute.
  - destruct Hs as (_ & ? & ? & ?). done.
  - split; [done|]. eexists. split_and!; [done..|]. apply (bool_decide_unpack _). by vm_compute.
  - destruct Hs as (? & ?). done.
  - split; [done|]. by exists e.
  - destruct (kept_result _ _ Hk) as [r Hr]. rewrite Hr in Hs |- *. destruct (c_status c1) eqn:Est; cbn in *.
    1-3: by destruct Hs as (_ & _ & Hs & _).
    + by destruct Hs as (? & ? & _ & ?).
    + by rewrite (failed_no_screenshot cutoff c1 Hs0 Est) in Hk.
Qed.

(** A transition keeps the link to a host of the same user. *)
Lemma transition_host w id c c' events : transition w id c c' events -> command_ok w c -> command_ok w c'.
Proof.
  intros Ht [Hh Hk Hs]. assert (Hs' := transition_shape _ _ _ _ _ Ht Hs).
  destruct (transition_identity _ _ _ _ _ Ht) as (Ho & Hu & _ & Hkd & _). split; [|by rewrite Hkd|done].
  rewrite Ho, Hu. destruct Ht as [| |now hid h ? Hst Hc Hl Hho Hhu Hrv Hn| |? []|]; try exact Hh. cbn. by exists hid, h.
Qed.

(** The host of a running row: it was running there, or nothing was. *)
Lemma transition_running w id c c' events : transition w id c c' events -> c_status c' = Running ->
  (forall j cj, commands w !! j = Some cj -> c_status cj = Running -> c_hostId cj <> c_hostId c') \/
  (c_status c = Running /\ c_hostId c = c_hostId c').
Proof. intros [| |now hid h ? Hst Hc Hl Hho Hhu Hrv Hn| |? []|]; cbn; try done; [by left|by right]. Qed.

(** Only an approval releases a row that was not released. *)
Lemma transition_released w id c c' events : transition w id c c' events -> released c' ->
  released c \/ (exists e, e ∈ events /\ a_commandId e = id /\ a_event e = Approved).
Proof.
  unfold released. intros [now ? Hst Hk|now m ? Hst|now hid h ? Hst Hc Hl Hho Hhu Hrv Hn|now ? Hst Ht|now [] rep err ? hid h Hst Hok Hc Hh Hrv|];
    cbn; try by (intros [|]; [done|left; by right]).
  - intros _. right. by apply event_of_write.
  - intros _. left. by left.
  - intros Hr. by left.
Qed.

Lemma transition_event w id c c' events e : transition w id c c' events -> e ∈ events ->
  a_commandId e = id /\ a_event e <> Created /\ a_orgId e = c_orgId c' /\ a_userId e = c_userId c' /\ a_kind e = c_kind c' /\
  isComputerUseWriteCommandKind (a_kind e) = true.
Proof.
  intros Ht He. destruct Ht; try (by apply elem_of_nil in He); apply event_of_spec in He as (-> & -> & -> & -> & -> & Hw); done.
Qed.

Lemma command_ok_hosts w w' c :
  (forall id h, hosts w !! id = Some h -> exists h', hosts w' !! id = Some h' /\ h_orgId h' = h_orgId h /\ h_userId h' = h_userId h) ->
  command_ok w c -> command_ok w' c.
Proof.
  intros Hw [(hid & h & Hc & Hh & Ho & Hu) Hk Hs]. destruct (Hw _ _ Hh) as (h' & Hh' & Ho' & Hu').
  split; [|done..]. exists hid, h'. by rewrite Ho', Hu'.
Qed.

Definition unique_tokens (m : gmap jsstr Host) : Prop :=
  forall i j hi hj, m !! i = Some hi -> m !! j = Some hj -> h_tokenHash hi = h_tokenHash hj -> i = j.

Lemma inv_hosts w w' : Inv w -> unique_tokens (hosts w') -> commands w' = commands w -> audits w' = audits w ->
  (forall id h, hosts w !! id = Some h -> exists h', hosts w' !! id = Some h' /\ h_orgId h' = h_orgId h /\ h_userId h' = h_userId h) ->
  Inv w'.
Proof.
  intros [_ Hc Hr Ha Hp] Ht Ec Ea Hm. unfold recorded in *. split; unfold recorded; rewrite ?Ec, ?Ea; try done.
  intros id c Hid. eapply command_ok_hosts; [|by eapply Hc]. done.
Qed.

Lemma inv_row_update w id c' events : Inv w -> command_ok w c' ->
  (c_status c' = Running -> (forall j cj, commands w !! j = Some cj -> j <> id -> c_status cj = Running -> c_hostId cj <> c_hostId c')) ->
  (forall c, commands w !! id = Some c -> c_orgId c' = c_orgId c /\ c_userId c' = c_userId c /\ c_kind c' = c_kind c) ->
  (forall e, e ∈ events -> a_commandId e = id /\ a_orgId e = c_orgId c' /\ a_userId e = c_userId c' /\ a_kind e = c_kind c' /\
     isComputerUseWriteCommandKind (a_kind e) = true) ->
  (recorded (update id c' events w) id Created -> released c' -> recorded (update id c' events w) id Approved) ->
  Inv (update id c' events w).
Proof.
  intros [Ht Hc Hr Ha Hp] Hok Hrun Hsame Hev Happ. split; cbn.
  - exact Ht.
  - intros i c. rewrite lookup_insert_Some. intros [[<- <-]|[Hne Hi]].
    + eapply command_ok_hosts; [|done]. by eauto.
    + eapply command_ok_hosts; [|by eapply Hc]. by eauto.
  - intros i j ci cj. rewrite !lookup_insert_Some.
    intros [[<- <-]|[Hne Hi]] [[<- <-]|[Hne' Hj]] Hsi Hsj Hh; [done|..].
    + exfalso. by eapply (Hrun Hsi j cj).
    + exfalso. by eapply (Hrun Hsj i ci).
    + by eapply Hr.
  - intros e He. apply elem_of_app in He as [He|He].
    + destruct (Ha e He) as (Hw & c & Hl & Ho & Hu & Hk). split; [done|]. rewrite lookup_insert.
      case_decide as Hd; [|by exists c]. subst id. exists c'. destruct (Hsame _ Hl) as (-> & -> & ->). done.
    + destruct (Hev e He) as (-> & ? & ? & ? & ?). split; [done|]. exists c'. by rewrite lookup_insert_eq.
  - intros i c. rewrite lookup_insert_Some. intros [[<- <-]|[Hne Hi]]; [done|].
    intros (e & He & Hid & Hcr) Hrel. cbn in He. apply elem_of_app in He as [He|He].
    + destruct (Hp i c Hi) as (e' & ? & ?); [by exists e|done|]. exists e'. cbn. rewrite elem_of_app. tauto.
    + destruct (Hev e He) as (Hi' & _). congruence.
Qed.

Lemma update_recorded w id c' events i ev :
  recorded (update id c' events w) i ev <-> recorded w i ev \/ exists e, e ∈ events /\ a_commandId e = i /\ a_event e = ev.
Proof. unfold recorded. cbn. setoid_rewrite elem_of_app. naive_solver. Qed.

Lemma unique_tokens_insert m id h : (forall j hj, m !! j = Some hj -> h_tokenHash hj <> h_tokenHash h) -> unique_tokens m ->
  unique_tokens (<[id := h]> m).
Proof.
  intros Hf Hu i j hi hj. rewrite !lookup_insert_Some. intros [[<- <-]|[_ Hi]] [[<- <-]|[_ Hj]] Ht; [done|..|by eapply Hu].
  - by destruct (Hf j hj).
  - by destruct (Hf i hi).
Qed.

Lemma unique_tokens_alter m f id h : m !! id = Some h -> h_tokenHash (f h) = h_tokenHash h -> unique_tokens m ->
  unique_tokens (alter f id m).
Proof.
  intros Hm Hf Hu i j hi hj. rewrite !lookup_alter_Some.
  intros [(<- & yi & Hi & ->)|[_ Hi]] [(<- & yj & Hj & ->)|[_ Hj]]; simplify_eq; rewrite ?Hf; by eapply Hu.
Qed.

Lemma tick_inv w w' : tick w w' -> Inv w -> Inv w'.
Proof.
  intros [id h Hn Hfr Hrv Hon|f id h Hh Hrv Hf|id h bucket cid mt buf Hh Hrv|id c cut bucket key Hl Hk Hp|now id params hid h Hn Hh Ho Hu Hk c|id c c' events Hl Ht] Hi.
  - eapply inv_hosts; [done|apply unique_tokens_insert; [done|exact (inv_tokens _ Hi)]|done..|]. cbn. intros i hi Hhi. exists hi. rewrite lookup_insert_ne; [done|congruence].
  - destruct Hf as (Ho & Hu & Ht & _).
    eapply inv_hosts; [done|exact (unique_tokens_alter _ _ _ h Hh Ht (inv_tokens _ Hi))|done..|]. cbn. intros i hi Hhi. rewrite lookup_alter. case_decide.
    + subst. rewrite Hhi. cbn. simplify_eq. eexists. split; [done|]. done.
    + by exists hi.
  - eapply inv_hosts; [done|exact (inv_tokens _ Hi)|done..|]. by eauto.
  - eapply inv_hosts; [done|exact (inv_tokens _ Hi)|done..|]. by eauto.
  - apply inv_row_update; [done|..].
    + split; [by exists hid, h|done|]. unfold shape_ok. cbn. by destruct (cp_requiresApproval params).
    + cbn. by destruct (cp_requiresApproval params).
    + congruence.
    + destruct (cp_requiresApproval params); [|by intros e He%elem_of_nil].
      intros e He. apply event_of_spec in He as (-> & _ & -> & -> & -> & ?). done.
    + rewrite update_recorded. intros [(e & He & Hid & _)|(e & He & Hid & Hcr)] Hrel.
      * destruct (inv_audits _ Hi e He) as (_ & c0 & Hc0 & _). congruence.
      * exfalso. unfold released in Hrel. cbn in Hrel. destruct (cp_requiresApproval params); [|by apply elem_of_nil in He].
        destruct Hrel as [?|[? ?]]; done.
  - assert (Hok := inv_commands _ Hi _ _ Hl). apply inv_row_update; [done|..].
    + by eapply transition_host.
    + intros Hrun j cj Hj Hne Hrj. destruct (transition_running _ _ _ _ _ Ht Hrun) as [Hno|[Hrc Hhc]]; [by eapply Hno|].
      intros Heq. apply Hne. eapply (inv_running _ Hi j id); try done. congruence.
    + intros c0 Hc0. rewrite Hl in Hc0. injection Hc0 as <-. apply transition_identity in Ht. tauto.
    + intros e He. eapply transition_event in Ht as (? & ? & ? & ? & ? & ?); done.
    + rewrite !update_recorded. intros [Hcr|(e & He & _ & Hcr)] Hrel.
      * destruct (transition_released _ _ _ _ _ Ht Hrel) as [Hr|Hr]; [left|by right].
        by eapply (inv_approval _ Hi).
      * by destruct (transition_event _ _ _ _ _ _ Ht He) as (_ & ? & _).
Qed.

Lemma rtc_inv w w' : rtc tick w w' -> Inv w -> Inv w'.
Proof. induction 1; [done|]. intros Hi. eauto using tick_inv. Qed.

(** ** Operations as sequences of ticks *)

(** Rows selected from the table, none twice. *)
Definition selected (w : World) (l : list (jsstr * Command)) : Prop :=
  NoDup l.*1 /\ forall id c, (id, c) ∈ l -> commands w !! id = Some c.

Lemma selected_rows p w : selected w (rows p (commands w)).
Proof. split; [apply NoDup_rows|]. intros id c Hin. by apply elem_of_rows in Hin as [? _]. Qed.

(** The change of one row leaves the others selected. *)
Lemma selected_tail w w' id c l : selected w ((id, c) :: l) ->
  (forall i, i <> id -> commands w' !! i = commands w !! i) -> selected w' l.
Proof.
  intros [Hnd Hl] Hsame. cbn in Hnd. apply NoDup_cons in Hnd as [Hni Hnd]. split; [done|]. intros i ci Hin.
  rewrite Hsame; [by apply Hl, elem_of_cons; right|]. intros ->. apply Hni, list_elem_of_fmap. by exists (id, ci).
Qed.

Lemma selected_head w id c l : selected w ((id, c) :: l) -> commands w !! id = Some c /\ id ∉ l.*1.
Proof.
  intros [Hnd Hl]. cbn in Hnd. apply NoDup_cons in Hnd as [Hni _]. split; [|done]. by apply Hl, elem_of_cons; left.
Qed.

Lemma fail_timed_out_eq now w id c : fail_timed_out now w (id, c) =
  if runningCommandHasTimedOut c now
  then update id (set_failed now (timeoutErrorForCommand c) c)
         (event_of id (set_failed now (timeoutErrorForCommand c) c) Completed None None (Some (timeoutErrorForCommand c)) now) w
  else w.
Proof. cbn. destruct (runningCommandHasTimedOut c now); cbn; [by rewrite audit_update|done]. Qed.

Lemma fail_timed_out_others now w id c i : i <> id -> commands (fail_timed_out now w (id, c)) !! i = commands w !! i.
Proof. intros Hne. rewrite fail_timed_out_eq. destruct (runningCommandHasTimedOut _ _); [cbn; by rewrite lookup_insert_ne|done]. Qed.

Lemma sweep_hosts now l w : hosts (foldl (fail_timed_out now) w l) = hosts w.
Proof.
  revert w. induction l as [|[id c] l IH]; intros w; cbn [foldl]; [done|]. rewrite IH, fail_timed_out_eq.
  by destruct (runningCommandHasTimedOut _ _).
Qed.

Lemma sweep_ticks now l w : selected w l -> (forall id c, (id, c) ∈ l -> c_status c = Running) ->
  rtc tick w (foldl (fail_timed_out now) w l).
Proof.
  revert w. induction l as [|[id c] l IH]; intros w Hsel Hrun; cbn [foldl]; [done|].
  destruct (selected_head _ _ _ _ Hsel) as [Hl _].
  transitivity (fail_timed_out now w (id, c)).
  - rewrite fail_timed_out_eq. destruct (runningCommandHasTimedOut c now) eqn:Et; [|done].
    apply rtc_once. eapply tick_command; [done|]. apply tr_timed_out; [|done]. by eapply Hrun, elem_of_cons; left.
  - apply IH.
    + eapply selected_tail; [done|]. intros i Hi. by apply fail_timed_out_others.
    + intros i ci Hin. by eapply Hrun, elem_of_cons; right.
Qed.

Definition timed_out (now : Z) (c : Command) : Command :=
  if runningCommandHasTimedOut c now then set_failed now (timeoutErrorForCommand c) c else c.

Lemma sweep_commands now l w id : selected w l ->
  commands (foldl (fail_timed_out now) w l) !! id =
  if bool_decide (id ∈ l.*1) then timed_out now <$> commands w !! id else commands w !! id.
Proof.
  revert w. induction l as [|[i c] l IH]; intros w Hsel; [done|].
  cbn [foldl fmap list_fmap fst]. destruct (selected_head _ _ _ _ Hsel) as [Hl Hni].
  rewrite IH by (eapply selected_tail; [done|]; intros j Hj; by apply fail_timed_out_others).
  destruct (decide (id = i)) as [->|Hne].
  - rewrite bool_decide_eq_false_2, bool_decide_eq_true_2; [|set_solver|done]. rewrite Hl. cbn [fmap option_fmap option_map].
    unfold timed_out. rewrite fail_timed_out_eq. destruct (runningCommandHasTimedOut c now); [cbn; by rewrite lookup_insert_eq|done].
  - rewrite fail_timed_out_others by done. by rewrite (bool_decide_ext (id ∈ i :: l.*1) (id ∈ l.*1)) by set_solver.
Qed.

(** The rows a sweep looks at. *)
Definition in_sweep (locked : jsstr -> bool) (orgId userId : jsstr) (hostId : option jsstr) (id : jsstr) (c : Command) : bool :=
  bool_decide (c_orgId c = orgId) && bool_decide (c_userId c = userId) && bool_decide (c_status c = Running) &&
  match present hostId with Some h => bool_decide (c_hostId c = Some h) | None => true end && negb (locked id).

Lemma stale_commands locked orgId userId hostId now w id :
  commands (failStaleRunningComputerUseCommands locked orgId userId hostId now w) !! id =
  (fun c => if in_sweep locked orgId userId hostId id c then timed_out now c else c) <$> commands w !! id.
Proof.
  unfold failStaleRunningComputerUseCommands. rewrite sweep_commands by apply selected_rows.
  destruct (commands w !! id) as [c|] eqn:El; cbn [fmap option_fmap option_map].
  2: { by case_bool_decide. }
  destruct (in_sweep locked orgId userId hostId id c) eqn:Ep.
  - rewrite bool_decide_eq_true_2; [done|]. apply list_elem_of_fmap. exists (id, c). split; [done|]. by apply elem_of_rows.
  - rewrite bool_decide_eq_false_2; [done|]. intros Hin. apply list_elem_of_fmap in Hin as ([i c'] & Hi & Hin). cbn in Hi. subst i.
    apply elem_of_rows in Hin as [Hl Hp]. rewrite El in Hl. injection Hl as <-. change (in_sweep locked orgId userId hostId id c = true) in Hp. congruence.
Qed.

Lemma stale_hosts locked orgId userId hostId now w :
  hosts (failStaleRunningComputerUseCommands locked orgId userId hostId now w) = hosts w.
Proof. apply sweep_hosts. Qed.

Lemma stale_ticks locked orgId userId hostId now w : rtc tick w (failStaleRunningComputerUseCommands locked orgId userId hostId now w).
Proof.
  apply sweep_ticks; [apply selected_rows|]. intros id c Hin. apply elem_of_rows in Hin as [_ Hp].
  apply andb_true_iff in Hp as [Hp _]. apply andb_true_iff in Hp as [Hp _]. apply andb_true_iff in Hp as [_ Hp].
  by apply bool_decide_eq_true in Hp.
Qed.

Lemma host_updates h : h_revokedAt h = None ->
  (forall now body, host_update h (set_heartbeat now body h)) /\ (forall now, host_update h (set_stopped now h)) /\
  (forall now caps, host_update h (set_polled now caps h)) /\ (forall now, host_update h (set_seen now h)).
Proof. intros Hr. split_and!; intros; split_and!; try done; [by left|right; by eexists|by left|by left]. Qed.

Lemma elem_of_hosts_of orgId userId w id h : (id, h) ∈ hosts_of orgId userId w ->
  hosts w !! id = Some h /\ h_orgId h = orgId /\ h_userId h = userId /\ h_revokedAt h = None.
Proof.
  intros Hin. apply elem_of_rows in Hin as [Hl Hp]. apply andb_true_iff in Hp as [Hp H3]. apply andb_true_iff in Hp as [H1 H2].
  by apply bool_decide_eq_true in H1, H2, H3.
Qed.

(** A target is one of the hosts, the one asked for when one was, and supports the command. *)
Lemma resolve_target l kind target hostId : resolveComputerUseCommandTargets l kind target = Resolved hostId ->
  exists h, (hostId, h) ∈ l /\ hostSupportsCommand h kind = true /\ (forall t, present target = Some t -> hostId = t).
Proof.
  unfold resolveComputerUseCommandTargets. destruct (length l =? 0)%nat; [done|].
  set (cands := match present target with Some t => _ | None => l end). destruct (length cands =? 0)%nat; [done|].
  destruct (filter _ cands) as [|[i h] [|]] eqn:Ef; [done| |done]. intros [= <-].
  assert ((i, h) ∈ filter (fun h => hostSupportsCommand h.2 kind = true) cands) as Hin by (rewrite Ef; apply elem_of_cons; by left).
  apply list_elem_of_filter in Hin as [Hs Hin]. exists h. unfold cands in Hin. destruct (present target) as [t|].
  - apply list_elem_of_filter in Hin as [Ht Hin]. split_and!; [done..|]. intros t' [= <-]. done.
  - done.
Qed.

Lemma create_ticks now id params w : commands w !! id = None -> rtc tick w (createComputerUseCommand now id params w).2.
Proof.
  intros Hn. unfold createComputerUseCommand. case_bool_decide as Hk; cbn [negb]; [|done].
  destruct (length _ =? 0)%nat; [done|].
  destruct (resolveComputerUseCommandTargets _ _ _) as [hid| | |] eqn:Et; try done. cbn [snd].
  apply resolve_target in Et as (h & Hin & _). apply list_elem_of_filter in Hin as [_ Hin].
  apply elem_of_hosts_of in Hin as (Hh & Ho & Hu & _). apply rtc_once.
  assert (T := tick_created w now id params hid h Hn Hh Ho Hu Hk). cbn zeta in T.
  destruct (cp_requiresApproval params); [by rewrite audit_update|by rewrite with_commands_update].
Qed.

Lemma approve_ticks now orgId userId commandId deny message w :
  rtc tick w (approveComputerUseWriteCommand now orgId userId commandId deny message w).2.
Proof.
  unfold approveComputerUseWriteCommand. destruct (command_of _ _ _ _ _) as [c|] eqn:Ec; [|done].
  destruct (isComputerUseWriteCommandKind (c_kind c)) eqn:Ew; cbn [negb]; [|done].
  case_bool_decide as Hst; cbn [negb]; [|done]. apply command_of_Some in Ec as (Hl & _).
  apply rtc_once. destruct deny; cbn [snd denyPendingComputerUseWriteCommand approvePendingComputerUseWriteCommand];
    rewrite audit_update; (eapply tick_command; [done|]); by constructor.
Qed.

Lemma oldest_spec l x : oldest l = Some x -> x ∈ l /\ forall y, y ∈ l -> c_createdAt x.2 <= c_createdAt y.2.
Proof.
  revert x. induction l as [|a l IH]; cbn; [done|]. intros x. destruct (oldest l) as [y|] eqn:Eo.
  - destruct (IH y eq_refl) as [Hy Hmin]. destruct (c_createdAt y.2 <? c_createdAt a.2) eqn:El; intros [= <-].
    + split; [apply elem_of_cons; by right|]. intros z Hz. apply elem_of_cons in Hz as [->|Hz]; [lia|by apply Hmin].
    + split; [apply elem_of_cons; by left|]. intros z Hz. apply elem_of_cons in Hz as [->|Hz]; [lia|]. specialize (Hmin _ Hz). lia.
  - intros [= <-]. assert (l = []) as ->.
    { destruct l as [|b l]; [done|]. cbn in Eo. destruct (oldest l); [by destruct (_ <? _)|done]. }
    split; [apply elem_of_cons; by left|]. intros z Hz. apply elem_of_cons in Hz as [->|Hz]; [lia|by apply elem_of_nil in Hz].
Qed.

Lemma hostFromToken_None hostToken w : hostFromToken hostToken w = None <->
  forall id h, hosts w !! id = Some h -> h_tokenHash h = hashSecret hostToken -> is_Some (h_revokedAt h).
Proof.
  unfold hostFromToken, by_token. rewrite head_None, rows_nil. split.
  - intros Hn id h Hh Ht. specialize (Hn id h Hh). rewrite bool_decide_eq_true_2 in Hn by done. cbn in Hn.
    apply bool_decide_eq_false in Hn. by apply not_eq_None_Some.
  - intros Hn id h Hh. specialize (Hn id h Hh). case_bool_decide as Ht; [|done]. cbn.
    apply bool_decide_eq_false. by apply not_eq_None_Some, Hn.
Qed.

Lemma claimable_spec locked hostId host kinds id c : claimable locked hostId host kinds id c = true <->
  c_orgId c = h_orgId host /\ c_userId c = h_userId host /\ c_status c = Queued /\
  (c_hostId c = Some hostId \/ c_hostId c = None) /\ c_kind c ∈ kinds /\ locked id = false.
Proof.
  unfold claimable. rewrite !andb_true_iff, orb_true_iff, !bool_decide_eq_true, negb_true_iff. tauto.
Qed.

Lemma runs_on_spec hostId host c : runs_on hostId host c = true <->
  c_orgId c = h_orgId host /\ c_userId c = h_userId host /\ c_hostId c = Some hostId /\ c_status c = Running.
Proof. unfold runs_on. rewrite !andb_true_iff, !bool_decide_eq_true. tauto. Qed.

(** In a state of the invariant, nothing runs on a host without a row of its user. *)
Lemma nothing_runs hostId host w : Inv w -> hosts w !! hostId = Some host ->
  rows (fun _ => runs_on hostId host) (commands w) = [] ->
  forall j cj, commands w !! j = Some cj -> c_status cj = Running -> c_hostId cj <> Some hostId.
Proof.
  intros Hi Hh Hr j cj Hj Hs Hc. destruct (ok_host _ _ (inv_commands _ Hi _ _ Hj)) as (hid & h & Hc' & Hh' & Ho & Hu).
  assert (hid = hostId) as -> by congruence. rewrite Hh in Hh'. injection Hh' as <-.
  apply (proj1 (rows_nil _ _)) with (id := j) (a := cj) in Hr; [|done]. apply not_true_iff_false in Hr.
  apply Hr, runs_on_spec. done.
Qed.

(** The state in which a poll looks for a command. *)
Definition polled (locked : jsstr -> bool) (now : Z) (capabilities : list jsstr) (hostId : jsstr) (host : Host) (w : World) : World :=
  failStaleRunningComputerUseCommands locked (h_orgId host) (h_userId host) (Some hostId) now
    (with_hosts (alter (set_polled now capabilities) hostId) w).

Lemma polled_ticks locked now caps hostId host w : hosts w !! hostId = Some host -> h_revokedAt host = None ->
  rtc tick w (polled locked now caps hostId host w).
Proof. intros Hh Hr. eapply rtc_l; [|apply stale_ticks]. eapply tick_host_changed; [done|done|]. by apply host_updates. Qed.

Lemma polled_host locked now caps hostId host w : hosts w !! hostId = Some host ->
  hosts (polled locked now caps hostId host w) !! hostId = Some (set_polled now caps host).
Proof. intros Hh. unfold polled. rewrite stale_hosts. cbn. by rewrite lookup_alter_eq, Hh. Qed.

Lemma claim_ticks locked now hostToken supported w : Inv w -> rtc tick w (claimNextComputerUseHostCommand locked now hostToken supported w).2.
Proof.
  intros Hi. unfold claimNextComputerUseHostCommand. destruct (hostFromToken hostToken w) as [[hid host]|] eqn:Eh; [|done].
  apply hostFromToken_Some in Eh as (Hh & _ & Hrv). set (caps := normalizeCapabilities supported).
  change (failStaleRunningComputerUseCommands _ _ _ _ _ _) with (polled locked now caps hid host w).
  assert (Hp := polled_ticks locked now caps hid host w Hh Hrv). assert (Hi2 := rtc_inv _ _ Hp Hi).
  assert (Hh2 := polled_host locked now caps hid host w Hh). set (w2 := polled locked now caps hid host w) in *.
  destruct (rows (fun _ => runs_on hid host) (commands w2)) as [|r rs] eqn:Er; cbn [length Nat.ltb Nat.leb]; [|done].
  destruct (oldest _) as [[id c]|] eqn:Eo; cbn [snd]; [|done]. apply oldest_spec in Eo as [Hin _].
  apply elem_of_rows in Hin as [Hl Hcl]. apply claimable_spec in Hcl as (Ho & Hu & Hst & Hhost & _ & _).
  eapply rtc_r; [exact Hp|]. rewrite with_commands_update. eapply tick_command; [done|].
  eapply tr_claimed; try done. eapply nothing_runs; try done.
Qed.

Lemma complete_ticks now hostToken commandId stored reported w : completion_ok stored ->
  rtc tick w (complete_tx now hostToken commandId stored reported w).2.
Proof.
  intros Hok. unfold complete_tx. destruct (hostFromToken hostToken w) as [[hid host]|] eqn:Eh; [|done].
  apply hostFromToken_Some in Eh as (Hhost & _ & Hrv).
  destruct (commands w !! commandId) as [c|] eqn:El; [|done]. case_bool_decide as Hh; cbn [negb]; [|done].
  case_bool_decide as Hst; cbn [negb]; [|done]. cbn [snd]. rewrite audit_update.
  eapply rtc_l; [|apply rtc_once; eapply tick_host_changed; [exact Hhost|done|by apply host_updates]].
  eapply tick_command; [done|]. by eapply tr_completed.
Qed.

Lemma expire_rows_ticks now cutoff batch w : NoDup batch.*1 ->
  (forall id c, (id, c) ∈ batch -> commands w !! id = Some c /\ keeps_screenshot cutoff c = true) ->
  rtc tick w (with_commands (fun m => foldr (fun kv m => alter (set_expired now) kv.1 m) m batch) w) /\
  forall id, id ∉ batch.*1 -> foldr (fun kv m => alter (set_expired now) kv.1 m) (commands w) batch !! id = commands w !! id.
Proof.
  induction batch as [|[id c] batch IH]; intros Hnd Hall; [by destruct w|].
  cbn in Hnd. apply NoDup_cons in Hnd as [Hni Hnd].
  destruct IH as [Ht Hsame]; [done|by intros i ci Hin; apply Hall, elem_of_cons; right|].
  destruct (Hall id c) as [Hl Hk]; [apply elem_of_cons; by left|]. cbn [foldr fst]. split.
  - eapply rtc_r; [exact Ht|]. set (w1 := with_commands _ w) in *.
    assert (commands w1 !! id = Some c) as Hl1 by (cbn; by rewrite Hsame).
    assert (with_commands (alter (set_expired now) id) w1 = update id (set_expired now c) [] w1) as E.
    { rewrite <- with_commands_update. unfold with_commands. f_equal. apply map_eq. intros j.
      rewrite lookup_alter, lookup_insert. case_decide; [|done]. subst j. by rewrite Hl1. }
    change (with_commands _ w) with (with_commands (alter (set_expired now) id) w1). rewrite E.
    eapply tick_command; [done|]. by eapply tr_expired.
  - intros i Hi. cbn in Hi. rewrite lookup_alter_ne by set_solver. apply Hsame. set_solver.
Qed.

(** *** Deletion of objects *)

(** The bucket and key are in one of the groups. *)
Definition in_groups (bucket : JsVal) (key : jsstr) (groups : list (JsVal * list jsstr)) : Prop :=
  exists keys, (bucket, keys) ∈ groups /\ key ∈ keys.

Lemma in_groups_cons bucket key b keys groups :
  in_groups bucket key ((b, keys) :: groups) <-> bucket = b /\ key ∈ keys \/ in_groups bucket key groups.
Proof. unfold in_groups. setoid_rewrite elem_of_cons. naive_solver. Qed.

Lemma same_key_eq a b : same_key a b = true -> a = b.
Proof. unfold same_key. destruct a; try done; apply bool_decide_eq_true. Qed.

Lemma in_groups_add bucket key b k groups :
  in_groups bucket key (add_key b k groups) <-> bucket = b /\ key = k \/ in_groups bucket key groups.
Proof.
  induction groups as [|[b0 keys] groups IH]; cbn [add_key]; [rewrite in_groups_cons, elem_of_cons, elem_of_nil; tauto|].
  destruct (same_key b0 b) eqn:E; [apply same_key_eq in E as ->|].
  - rewrite !in_groups_cons, elem_of_app, elem_of_cons, elem_of_nil. tauto.
  - rewrite !in_groups_cons, IH. tauto.
Qed.

Lemma in_keysByBucket bucket key batch :
  in_groups bucket key (keysByBucket batch) <-> exists id c, (id, c) ∈ batch /\ pointer_of c = Some (bucket, key).
Proof.
  unfold keysByBucket. enough (forall groups, in_groups bucket key (foldl (fun groups kv =>
    match pointer_of kv.2 with Some (bucket, key) => add_key bucket key groups | None => groups end) groups batch) <->
    in_groups bucket key groups \/ exists id c, (id, c) ∈ batch /\ pointer_of c = Some (bucket, key)) as Hgen.
  { rewrite Hgen. split; [|by right]. intros [(keys & Hk & _)|Hx]; [by apply elem_of_nil in Hk|done]. }
  induction batch as [|[i c] batch IH]; intros groups; cbn [foldl snd].
  - split; [by left|]. intros [Hg|(id & c & Hin & _)]; [done|by apply elem_of_nil in Hin].
  - rewrite IH. setoid_rewrite elem_of_cons. destruct (pointer_of c) as [[b k]|] eqn:Ep; [rewrite in_groups_add|]; naive_solver.
Qed.

Lemma delete_keys_spec bucket keys w o :
  storage (delete_keys bucket keys w) !! o =
    if bool_decide (bucket = JString o.1 /\ o.2 ∈ keys) then None else storage w !! o.
Proof.
  destruct bucket as [| | | |b| |]; cbn [delete_keys]; try (rewrite bool_decide_false by (intros [? _]; done); done). cbn [storage with_storage].
  induction keys as [|k keys IH]; cbn [foldr]; [by rewrite bool_decide_false by (intros [_ Hx]; by apply elem_of_nil in Hx)|].
  destruct (decide ((b, k) = o)) as [<-|Hne].
  - rewrite lookup_delete_eq, bool_decide_true; [done|]. split; [done|]. apply elem_of_cons. by left.
  - rewrite lookup_delete_ne, IH by done. erewrite bool_decide_ext; [done|]. rewrite elem_of_cons. destruct o as [b' k']. cbn. naive_solver.
Qed.

(** What the deletion of some groups does, with the group that is refused when it fails. *)
Lemma delete_buckets_spec groups w r w' : delete_buckets groups w = (r, w') ->
  hosts w' = hosts w /\ commands w' = commands w /\ audits w' = audits w /\
  (forall o, storage w' !! o = storage w !! o \/ storage w' !! o = None /\ in_groups (JString o.1) o.2 groups) /\
  match r with
  | Ok _ => forall o, in_groups (JString o.1) o.2 groups -> storage w' !! o = None
  | Throw _ => exists bucket keys, (bucket, keys) ∈ groups /\ keys <> [] /\ s3_deletes bucket keys = false
  end.
Proof.
  revert w. induction groups as [|[bucket keys] groups IH]; intros w; cbn [delete_buckets].
  { intros [= <- <-]. split_and!; try done; [by left|]. intros o (ks & Hx & _). by apply elem_of_nil in Hx. }
  unfold deleteS3Objects. destruct (length keys =? 0)%nat eqn:El.
  - apply Nat.eqb_eq, length_zero_iff_nil in El as ->. intros Hd. destruct (IH _ Hd) as (? & ? & ? & Hs & Hr). split_and!; try done.
    + intros o. rewrite in_groups_cons. destruct (Hs o) as [?|[? ?]]; tauto.
    + destruct r; [intros o [[_ Hx]|Hx]%in_groups_cons; [by apply elem_of_nil in Hx|by apply Hr]|].
      destruct Hr as (b & ks & Hin & ?). exists b, ks. split; [apply elem_of_cons; by right|done].
  - destruct (s3_deletes bucket keys) eqn:Ed.
    + intros Hd. destruct (IH _ Hd) as (Hh & Hc & Ha & Hs & Hr). assert (hosts (delete_keys bucket keys w) = hosts w /\
        commands (delete_keys bucket keys w) = commands w /\ audits (delete_keys bucket keys w) = audits w) as (Eh & Ec & Ea) by by destruct bucket.
      split_and!; [congruence..| |].
      * intros o. rewrite in_groups_cons. destruct (Hs o) as [Hk|Hk]; [|tauto]. rewrite Hk, delete_keys_spec. case_bool_decide; naive_solver.
      * destruct r.
        -- intros o [Hb|Hg]%in_groups_cons; [|by apply Hr]. destruct (Hs o) as [Hk|[Hk _]]; [|done]. destruct Hb as [<- Hb]. by rewrite Hk, delete_keys_spec, bool_decide_true.
        -- destruct Hr as (b & ks & Hin & ?). exists b, ks. split; [apply elem_of_cons; by right|done].
    + intros [= <- <-]. split_and!; try done; [by left|]. exists bucket, keys. split_and!; [apply elem_of_cons; by left|by intros ->|done].
Qed.

Lemma delete_keys_ticks bucket keys w :
  (forall key, key ∈ keys -> exists id c cutoff, commands w !! id = Some c /\ keeps_screenshot cutoff c = true /\ pointer_of c = Some (bucket, key)) ->
  rtc tick w (delete_keys bucket keys w).
Proof.
  destruct bucket as [| | | |b| |]; cbn [delete_keys]; try done. induction keys as [|k keys IH]; cbn [foldr]; intros Hp; [by destruct w|].
  destruct (Hp k ltac:(apply elem_of_cons; by left)) as (id & c & cut & Hl & Hk & Hpt).
  eapply rtc_r; [apply IH; intros k' Hk'; apply Hp, elem_of_cons; by right|].
  by apply (tick_removed (with_storage (fun m => foldr (fun key m => delete (b, key) m) m keys) w) id c cut b k).
Qed.

Lemma delete_buckets_ticks groups w :
  (forall bucket key, in_groups bucket key groups -> exists id c cutoff, commands w !! id = Some c /\ keeps_screenshot cutoff c = true /\
     pointer_of c = Some (bucket, key)) ->
  rtc tick w (delete_buckets groups w).2.
Proof.
  revert w. induction groups as [|[bucket keys] groups IH]; intros w Hp; cbn [delete_buckets]; [done|].
  assert (forall w1, commands w1 = commands w -> rtc tick w1 (delete_buckets groups w1).2) as Hrest.
  { intros w1 Hc. apply IH. intros b k Hg. rewrite Hc. apply Hp, in_groups_cons. by right. }
  unfold deleteS3Objects. destruct (_ =? 0)%nat; [by apply Hrest|]. destruct (s3_deletes bucket keys); [|done].
  etrans; [apply (delete_keys_ticks bucket keys)|apply Hrest; by destruct bucket].
  intros key Hk. apply Hp, in_groups_cons. by left.
Qed.

Lemma expire_ticks now cutoff batch w : NoDup batch.*1 ->
  (forall id c, (id, c) ∈ batch -> commands w !! id = Some c /\ keeps_screenshot cutoff c = true) ->
  rtc tick w (expire_batch now batch w).2.
Proof.
  intros Hnd Hall. assert (rtc tick w (delete_buckets (keysByBucket batch) w).2) as Hd.
  { apply delete_buckets_ticks. intros bucket key (id & c & Hin & Hp)%in_keysByBucket. destruct (Hall id c Hin). by exists id, c, cutoff. }
  unfold expire_batch. destruct (delete_buckets _ w) as [[u|e] w1] eqn:E; [|done]. cbn [snd] in *. etrans; [exact Hd|].
  apply delete_buckets_spec in E as (_ & Hc & _). eapply (expire_rows_ticks now cutoff batch w1); [done|]. by rewrite Hc.
Qed.

(** ** Steps

    One step per transaction of the services. New ids and tokens are fresh; the contract of
    the completion bounds the codes of errors. *)

Inductive step (w : World) : World -> Prop :=
| step_start now id orgId userId random body : hosts w !! id = None ->
    (forall j h, hosts w !! j = Some h -> h_tokenHash h <> hashSecret (generateOpaqueToken (js "vm0_computer_use_host") random)) ->
    step w (startComputerUseHost now id orgId userId random body w).2
| step_heartbeat now hostToken body : step w (heartbeatComputerUseHost now hostToken body w).2
| step_stop now hostToken : step w (stopComputerUseHost now hostToken w).2
| step_delete now orgId userId hostId : step w (deleteComputerUseHost now orgId userId hostId w).2
| step_create now id params : commands w !! id = None -> step w (createComputerUseCommand now id params w).2
| step_get locked now orgId userId commandId hostId : step w (getComputerUseCommand locked now orgId userId commandId hostId w).2
| step_approve now orgId userId commandId deny message :
    step w (approveComputerUseWriteCommand now orgId userId commandId deny message w).2
| step_claim locked now hostToken supported : step w (claimNextComputerUseHostCommand locked now hostToken supported w).2
| step_upload bucket hostToken commandId result : step w (offloadScreenshotForResult bucket hostToken commandId result w).2
| step_complete now hostToken commandId stored reported : completion_ok stored ->
    step w (complete_tx now hostToken commandId stored reported w).2
| step_expire now cutoff n : step w (expire_batch now (take n (rows (fun _ => keeps_screenshot cutoff) (commands w))) w).2.

Lemma take_rows_spec {A} n (p : jsstr -> A -> bool) m :
  NoDup (take n (rows p m)).*1 /\ forall id a, (id, a) ∈ take n (rows p m) -> m !! id = Some a /\ p id a = true.
Proof.
  split.
  - rewrite fmap_take. exact (sublist_NoDup _ _ (NoDup_rows p m) (sublist_take _ _)).
  - intros id a Hin. apply elem_of_rows. eapply elem_of_sublist; [done|apply sublist_take].
Qed.

Lemma step_ticks w w' : Inv w -> step w w' -> rtc tick w w'.
Proof.
  intros Hi [now id o u r b Hn Hf|now tok b|now tok|now o u hid|now id ps Hn|lk now o u cid hid|now o u cid d m|lk now tok sup|
             bk tok cid res|now tok cid st rep Hok|now cut n].
  - by apply rtc_once, tick_host_started.
  - unfold heartbeatComputerUseHost. destruct (hostFromToken _ _) as [[i h]|] eqn:Eh; [|done].
    apply hostFromToken_Some in Eh as (Hh & _ & Hr). apply rtc_once. eapply tick_host_changed; [done|done|by apply host_updates].
  - unfold stopComputerUseHost. destruct (hostFromToken _ _) as [[i h]|] eqn:Eh; [|done].
    apply hostFromToken_Some in Eh as (Hh & _ & Hr). apply rtc_once. eapply tick_host_changed; [done|done|by apply host_updates].
  - unfold deleteComputerUseHost. destruct (hosts w !! hid) as [h|] eqn:Eh; [|done]. destruct (_ && _) eqn:Eg; [|done]. bool_facts.
    apply rtc_once. eapply tick_host_changed; [done|done|by apply host_updates].
  - by apply create_ticks.
  - apply stale_ticks.
  - apply approve_ticks.
  - by apply claim_ticks.
  - unfold offloadScreenshotForResult. destruct (as_string _); [|done]. destruct (parseScreenshotDataUrl _) as [[? ?]|]; [|done].
    destruct (hostFromToken _ _) as [[i h]|] eqn:Eh; [|done]. apply hostFromToken_Some in Eh as (Hh & _ & Hr).
    apply rtc_once. by eapply tick_uploaded.
  - by apply complete_ticks.
  - destruct (take_rows_spec n (fun _ => keeps_screenshot cut) (commands w)) as [Hnd Hall]. by eapply expire_ticks.
Qed.

Definition empty_world : World := {| hosts := ∅; commands := ∅; audits := []; storage := ∅ |}.

Definition reachable (w : World) : Prop := rtc step empty_world w.

Lemma inv_empty : Inv empty_world.
Proof. split; cbn; intros; rewrite ?lookup_empty in *; try done. by destruct (not_elem_of_nil e). Qed.

Lemma reachable_Inv w : reachable w -> Inv w.
Proof.
  unfold reachable. generalize inv_empty. intros H0 Hr. induction Hr as [|x y z Hxy _ IH]; [done|].
  apply IH. eapply rtc_inv; [|done]. by apply step_ticks.
Qed.

End Proofs.

End ComputerUseInvariants.
