(* ===== verification/ComputerUseSafety.v ===== *)
(** The theorems on desktop control: what holds in every reachable state of
    [ComputerUseInvariants], the life of a command, what clients are shown, which command a
    host is given, what the token of a run reaches, and the retention of screenshots. *)

From stdpp Require Import relations.
From S2P Require Import Prelude JsString JsValue JsRecord Templates FeatureSwitches ComputerUse ComputerUseInvariants.

Import ComputerUse ComputerUseInvariants.

Module ComputerUseSafety.

(** ** Screenshots in results *)

Lemma prop_of_own (r : Rec JsVal) k : prop_of r k = default JUndefined (rec_own r k).
Proof.
  unfold prop_of. induction r as [|[k' v] r IH]; cbn; [done|]. case_bool_decide as Hk.
  - subst. by rewrite decide_True.
  - rewrite decide_False by done. destruct (list_find _ r) as [[n [k0 v0]]|] eqn:E; cbn in *; exact IH.
Qed.

Lemma prop_of_define (r : Rec JsVal) k v : prop_of (rec_define r k v) k = v.
Proof. rewrite prop_of_own, rec_own_define. by rewrite bool_decide_eq_true_2. Qed.

(** A result whose screenshot has expired holds none. *)
Lemma expired_not_kept now cutoff c : keeps_screenshot cutoff (set_expired now c) = false.
Proof.
  unfold keeps_screenshot. cbn [c_createdAt c_result set_expired]. destruct (c_result c) as [r|]; cbn [fmap option_fmap option_map from_option id].
  - rewrite prop_of_define. apply andb_false_r.
  - apply andb_false_r.
Qed.

(** ** The life of a command *)

Inductive life : CommandStatus -> CommandStatus -> Prop :=
| life_approve : life PendingApproval Queued
| life_deny : life PendingApproval Failed
| life_claim : life Queued Running
| life_succeed : life Running Succeeded
| life_fail : life Running Failed.

Definition finished (s : CommandStatus) : Prop := s = Succeeded \/ s = Failed.

Section Proofs.
Context `{Runtime}.

Lemma transition_life w id c c' events : transition w id c c' events ->
  life (c_status c) (c_status c') \/ exists now cutoff, keeps_screenshot cutoff c = true /\ c' = set_expired now c.
Proof.
  intros [? ? Hs|? ? ? Hs|? ? ? ? Hs|? ? Hs|? [] ? ? ? ? ? Hs|now cutoff ? Hk]; try (left; rewrite Hs; by constructor).
  right. by exists now, cutoff.
Qed.

Lemma tick_life w w' id c : tick w w' -> commands w !! id = Some c ->
  exists c', commands w' !! id = Some c' /\ (c' = c \/ exists events, transition w id c c' events).
Proof.
  intros Ht Hl. destruct Ht as [| | | |now i params hid h Hn|i ci ci' ev Hi Ht]; try (exists c; split; [done|by left]).
  - exists c. cbn. rewrite lookup_insert_ne by congruence. split; [done|by left].
  - cbn. destruct (decide (i = id)) as [->|Hne].
    + rewrite Hl in Hi. injection Hi as <-. exists ci'. rewrite lookup_insert_eq. split; [done|]. right. by exists ev.
    + exists c. rewrite lookup_insert_ne by done. split; [done|by left].
Qed.

(** Same row: the columns a command is created with. *)
Definition same_command (c c' : Command) : Prop :=
  c_orgId c' = c_orgId c /\ c_userId c' = c_userId c /\ c_runId c' = c_runId c /\ c_kind c' = c_kind c /\
  c_payload c' = c_payload c /\ c_timeoutMs c' = c_timeoutMs c /\ c_createdAt c' = c_createdAt c.

#[local] Instance same_command_preorder : PreOrder same_command.
Proof. split; [by intros c|]. unfold same_command. intros a b c. intuition congruence. Qed.

Definition later (c c' : Command) : Prop :=
  same_command c c' /\ rtc life (c_status c) (c_status c') /\
  (finished (c_status c) -> c' = c \/ exists now, c' = set_expired now c).

Lemma life_finished s s' : life s s' -> ~ finished s.
Proof. intros [] [|]; done. Qed.

Lemma later_transition w id c c1 c' events : later c c1 -> transition w id c1 c' events -> later c c'.
Proof.
  intros (Hs & Hl & Hf) Ht. assert (Hs' := transition_identity _ _ _ _ _ Ht).
  split; [by transitivity c1|]. destruct (transition_life _ _ _ _ _ Ht) as [Hlife|(now & cut & Hk & ->)].
  - split; [by eapply rtc_r|]. intros Hfin. exfalso. eapply life_finished; [done|].
    destruct (Hf Hfin) as [->|[? ->]]; done.
  - split; [done|]. intros Hfin. right. destruct (Hf Hfin) as [->|[now0 ->]]; [by exists now|].
    by rewrite expired_not_kept in Hk.
Qed.

Lemma ticks_later w w' id c : rtc tick w w' -> commands w !! id = Some c -> exists c', commands w' !! id = Some c' /\ later c c'.
Proof.
  intros Hr Hl. revert w' Hr. apply rtc_ind_r; [|intros w1 w' _ Ht (c1 & Hc1 & Hlate)].
  - exists c. split; [done|]. split; [done|]. split; [done|]. by left.
  - destruct (tick_life _ _ _ _ Ht Hc1) as (c' & Hc' & [Heq|[ev Htr]]); exists c'; [by subst c'|].
    split; [done|]. by eapply later_transition.
Qed.

Lemma steps_ticks w w' : Inv w -> rtc step w w' -> rtc tick w w'.
Proof.
  intros Hi Hr. induction Hr as [|w w1 w' Hs Hr IH]; [done|]. assert (rtc tick w w1) as Ht by by apply step_ticks.
  transitivity w1; [done|]. apply IH. by eapply rtc_inv.
Qed.

(** From any reachable state on, a command is never lost and its organization, user, run, kind,
    payload, timeout and creation time never change; its status only moves along approve, deny,
    claim, succeed and fail; and a finished command never changes again, but for its screenshot
    expiring once. *)
Theorem command_life w w' id c : reachable w -> rtc step w w' -> commands w !! id = Some c ->
  exists c', commands w' !! id = Some c' /\
    (c_orgId c' = c_orgId c /\ c_userId c' = c_userId c /\ c_runId c' = c_runId c /\ c_kind c' = c_kind c /\
     c_payload c' = c_payload c /\ c_timeoutMs c' = c_timeoutMs c /\ c_createdAt c' = c_createdAt c) /\
    rtc life (c_status c) (c_status c') /\
    (c_status c = Succeeded \/ c_status c = Failed -> c' = c \/ exists now, c' = set_expired now c).
Proof. intros Hw Hr Hl. eapply ticks_later; [|done]. apply steps_ticks; [|done]. by apply reachable_Inv. Qed.

(** C20: In every reachable state a command belongs to a host of the same organization and user, its kind is a
    known one and its columns fit its status (a running command was claimed, a succeeded one has a
    result, a failed one an error with a known code), a host runs at most one command at a time, no
    two hosts share a token, the audit events are of write commands that exist, and a command whose
    creation asked for approval is queued or handed to a host only once an approval is recorded. *)
Theorem reachable_consistent w : reachable w ->
  (forall id c, commands w !! id = Some c ->
     (exists hostId h, c_hostId c = Some hostId /\ hosts w !! hostId = Some h /\ h_orgId h = c_orgId c /\ h_userId h = c_userId c) /\
     c_kind c ∈ COMPUTER_USE_COMMANDS /\ shape_ok c) /\
  (forall i j ci cj, commands w !! i = Some ci -> commands w !! j = Some cj ->
     c_status ci = Running -> c_status cj = Running -> c_hostId ci = c_hostId cj -> i = j) /\
  (forall i j hi hj, hosts w !! i = Some hi -> hosts w !! j = Some hj -> h_tokenHash hi = h_tokenHash hj -> i = j) /\
  (forall e, e ∈ audits w -> isComputerUseWriteCommandKind (a_kind e) = true /\
     exists c, commands w !! a_commandId e = Some c /\ a_orgId e = c_orgId c /\ a_userId e = c_userId c /\ a_kind e = c_kind c) /\
  (forall e c, e ∈ audits w -> a_event e = Created -> commands w !! a_commandId e = Some c ->
     c_status c = Queued \/ is_Some (c_claimedAt c) ->
     exists e', e' ∈ audits w /\ a_commandId e' = a_commandId e /\ a_event e' = Approved).
Proof.
  intros Hw. destruct (reachable_Inv _ Hw) as [Ht Hc Hr Ha Hp]. split_and!; [|done..|].
  - intros id c Hl. by destruct (Hc _ _ Hl).
  - intros e c He Hev Hl Hrel. eapply Hp; [done|by exists e|done].
Qed.

(** ** What clients are shown *)

(** The response schema of the contract, and which optional parts are there. *)
Record view_conforms (v : CommandView) : Prop := {
  vc_kind : cv_kind v ∈ COMPUTER_USE_COMMANDS;
  vc_host : is_Some (cv_hostId v) /\ is_Some (cv_hostName v);
  vc_result : is_Some (cv_result v) <-> cv_status v = Succeeded;
  vc_error : is_Some (cv_error v) <-> cv_status v = Failed;
  vc_code : forall e, cv_error v = Some e -> ce_code e ∈ computerUseCommandErrorCodeSchema;
  vc_times : (is_Some (cv_completedAt v) <-> cv_status v = Succeeded \/ cv_status v = Failed) /\
    (cv_status v = Running \/ cv_status v = Succeeded -> is_Some (cv_claimedAt v)) /\
    (cv_status v = PendingApproval \/ cv_status v = Queued -> cv_claimedAt v = None);
  (** no key of a stored object leaves the API *)
  vc_hidden : forall r, cv_result v = Some r -> isStoredScreenshotPointer (prop_of r (js "screenshot")) = false }.

Lemma toClientResult_hides r : isStoredScreenshotPointer (prop_of (toClientResult r) (js "screenshot")) = false.
Proof.
  unfold toClientResult. destruct (isStoredScreenshotPointer (prop_of r (js "screenshot"))) eqn:E; [by rewrite prop_of_define|].
  destruct (isExpiredScreenshotPointer _); [by rewrite prop_of_define|done].
Qed.

Lemma failed_error e c : c_result c = Some [(js "error", error_object e)] -> commandErrorFromRow c = e.
Proof. unfold commandErrorFromRow. intros ->. destruct e. done. Qed.

Lemma view_ok w id c name : command_ok w c -> is_Some name -> view_conforms (serializeCommand id c name).
Proof.
  intros [(hid & h & Hh & _) Hk Hs] Hn. unfold shape_ok in Hs.
  split; cbn [serializeCommand cv_kind cv_hostId cv_hostName cv_result cv_error cv_status cv_completedAt cv_claimedAt];
    [done|by rewrite Hh|..]; destruct (c_status c) eqn:Es;
    rewrite ?bool_decide_eq_true_2, ?bool_decide_eq_false_2 by done; cbn [fmap option_fmap option_map];
    rewrite ?fmap_is_Some; clear Hk Hh.
  all: try (intros r Hr; apply fmap_Some in Hr as (r0 & _ & ->); apply toClientResult_hides).
  all: try (intros e Hs'; destruct Hs as (_ & e' & Hr & _ & Hcode); rewrite (failed_error _ _ Hr) in Hs'; by injection Hs' as <-).
  all: unfold is_Some in *; naive_solver.
Qed.

Lemma host_name_ok w c : command_ok w c -> is_Some (host_name (c_hostId c) w).
Proof. intros [(hid & h & -> & Hh & _) _ _]. cbn. rewrite Hh. by eexists. Qed.

(** C35: What a reader of a command and a polling host are sent, in every reachable state, fits the
    schema of the contract: the kind is a known one, a result is there exactly when the command
    succeeded and an error exactly when it failed, with one of the codes of the contract, the
    times fit the status, and no result names an object of the storage. *)
Theorem views_conform w : reachable w ->
  (forall locked now orgId userId commandId hostId v w',
     getComputerUseCommand locked now orgId userId commandId hostId w = (Some v, w') -> view_conforms v) /\
  (forall locked now hostToken supported v w',
     claimNextComputerUseHostCommand locked now hostToken supported w = (ClaimedCommand v, w') ->
     view_conforms v /\ cv_status v = Running).
Proof.
  intros Hw. assert (Hi := reachable_Inv _ Hw). split.
  - intros locked now o u cid hid v w' Hg. unfold getComputerUseCommand in Hg. injection Hg as Hv <-.
    apply fmap_Some in Hv as (c & Hc & ->). apply command_of_Some in Hc as (Hl & _).
    assert (command_ok _ c) as Hok by (eapply inv_commands; [|exact Hl]; eapply rtc_inv; [apply stale_ticks|done]).
    eapply view_ok; [done|]. by eapply host_name_ok.
  - intros locked now tok sup v w' Hc.
    assert (Hi' := rtc_inv _ _ (claim_ticks locked now tok sup w Hi) Hi). rewrite Hc in Hi'. cbn [snd] in Hi'.
    revert Hc. unfold claimNextComputerUseHostCommand. destruct (hostFromToken tok w) as [[hid host]|]; [|done].
    destruct (0 <? _)%nat; [done|]. destruct (oldest _) as [[id c]|]; [|done]. intros [= <- <-]. split; [|done].
    eapply view_ok; [|done]. apply (inv_commands _ Hi' id). cbn. by rewrite lookup_insert_eq.
Qed.

(** ** Which command a host is given *)

(** The live host of a token. *)
Definition live_host (hostToken : jsstr) (w : World) (hostId : jsstr) (host : Host) : Prop :=
  hosts w !! hostId = Some host /\ h_tokenHash host = hashSecret hostToken /\ h_revokedAt host = None.

(** A command still running on the host: not timed out, or held by another transaction. *)
Definition busy (locked : jsstr -> bool) (now : Z) (hostId id : jsstr) (c : Command) : Prop :=
  c_hostId c = Some hostId /\ c_status c = Running /\ (locked id = true \/ runningCommandHasTimedOut c now = false).

(** A sweep by the host touches its running rows only. *)
Lemma polled_commands locked now caps hostId host w id :
  commands (polled locked now caps hostId host w) !! id =
  (fun c => if in_sweep locked (h_orgId host) (h_userId host) (Some hostId) id c then timed_out now c else c) <$> commands w !! id.
Proof. unfold polled. by rewrite stale_commands. Qed.

Lemma timed_out_status now c : c_status (timed_out now c) = if runningCommandHasTimedOut c now then Failed else c_status c.
Proof. unfold timed_out. by destruct (runningCommandHasTimedOut c now). Qed.

Lemma in_sweep_running locked o u hid id c : in_sweep locked o u hid id c = true -> c_status c = Running.
Proof. unfold in_sweep. rewrite !andb_true_iff, !bool_decide_eq_true. tauto. Qed.

Lemma in_sweep_of_host locked hostId host id c w : Inv w -> hosts w !! hostId = Some host -> commands w !! id = Some c ->
  c_hostId c = Some hostId -> c_status c = Running ->
  in_sweep locked (h_orgId host) (h_userId host) (Some hostId) id c = negb (locked id).
Proof.
  intros Hi Hh Hl Hc Hs. destruct (ok_host _ _ (inv_commands _ Hi _ _ Hl)) as (hid & h & Hc' & Hh' & Ho & Hu).
  assert (hid = hostId) as -> by congruence. rewrite Hh in Hh'. injection Hh' as <-.
  unfold in_sweep. rewrite !bool_decide_eq_true_2 by done. destruct hostId; cbn; [done|]. by rewrite bool_decide_eq_true_2.
Qed.

(** The rows that still run on a host after the sweep. *)
Lemma still_running locked now caps hostId host w j cj : Inv w -> hosts w !! hostId = Some host ->
  commands (polled locked now caps hostId host w) !! j = Some cj /\ runs_on hostId host cj = true <->
  commands w !! j = Some cj /\ busy locked now hostId j cj.
Proof.
  intros Hi Hh. rewrite polled_commands. unfold busy. split.
  - intros [Hl Hr]. apply fmap_Some in Hl as (c0 & Hl & ->). apply runs_on_spec in Hr as (_ & _ & Hc & Hs).
    destruct (in_sweep _ _ _ _ _ _) eqn:Esw.
    + rewrite timed_out_status in Hs. destruct (runningCommandHasTimedOut c0 now) eqn:Et; [done|].
      unfold timed_out in *. rewrite Et in *. auto.
    + rewrite (in_sweep_of_host locked hostId host j c0 w) in Esw by done. apply negb_false_iff in Esw. auto.
  - intros (Hl & Hc & Hs & Hb). rewrite Hl. cbn [fmap option_fmap option_map].
    destruct (ok_host _ _ (inv_commands _ Hi _ _ Hl)) as (hid & h & Hc' & Hh' & Ho & Hu).
    assert (hid = hostId) as -> by congruence. rewrite Hh in Hh'. injection Hh' as <-.
    rewrite (in_sweep_of_host locked hostId host j cj w) by done. split; [|by apply runs_on_spec].
    destruct (locked j) eqn:El; cbn [negb]; [done|]. destruct Hb as [?|Ht]; [done|]. unfold timed_out. by rewrite Ht.
Qed.

(** The sweep neither takes nor adds a claimable row. *)
Lemma still_claimable locked now caps hostId host w kinds j cj : Inv w -> hosts w !! hostId = Some host ->
  commands (polled locked now caps hostId host w) !! j = Some cj /\ claimable locked hostId host kinds j cj = true <->
  commands w !! j = Some cj /\ claimable locked hostId host kinds j cj = true.
Proof.
  intros Hi Hh. rewrite polled_commands. split; intros [Hl Hcl]; assert (Hst := Hcl);
    apply claimable_spec in Hst as (_ & _ & Hst & _).
  - apply fmap_Some in Hl as (c0 & Hl & ->). destruct (in_sweep _ _ _ _ _ _) eqn:Esw; [|done].
    rewrite timed_out_status in Hst. apply in_sweep_running in Esw. rewrite Esw in Hst. by destruct (runningCommandHasTimedOut _ _).
  - rewrite Hl. cbn [fmap option_fmap option_map]. destruct (in_sweep _ _ _ _ _ _) eqn:Esw; [|done].
    apply in_sweep_running in Esw. congruence.
Qed.

Lemma still_running_none locked now caps hostId host w : Inv w -> hosts w !! hostId = Some host ->
  rows (fun _ => runs_on hostId host) (commands (polled locked now caps hostId host w)) = [] ->
  forall j cj, commands w !! j = Some cj -> ~ busy locked now hostId j cj.
Proof.
  intros Hi Hh Hr j cj Hj Hb. destruct (proj2 (still_running locked now caps hostId host w j cj Hi Hh)) as [Hl Hruns]; [done|].
  assert (Hf := proj1 (rows_nil _ _) Hr j cj Hl). congruence.
Qed.

Lemma oldest_nil l : oldest l = None -> l = [].
Proof. destruct l as [|x l]; cbn; [done|]. destruct (oldest l); [by destruct (_ <? _)|done]. Qed.

(** A poll of a host with a live token is given the oldest queued command of its own organization and
    user that is addressed to it, of a kind it supports and not held by another transaction, and
    only when no command is still running on it; it is idle exactly when a command still runs on
    it or there is no such command; a token of no live host gets nothing and changes nothing. *)
Theorem claim_spec locked now hostToken supported w : reachable w ->
  let caps := normalizeCapabilities supported in
  let ok hostId host id c := commands w !! id = Some c /\
    claimable locked hostId host (command_filter caps host) id c = true in
  match claimNextComputerUseHostCommand locked now hostToken supported w with
  | (ClaimInvalidToken, w') => w' = w /\ forall hostId host, ~ live_host hostToken w hostId host
  | (ClaimIdle, w') => exists hostId host, live_host hostToken w hostId host /\
      ((exists id c, commands w !! id = Some c /\ busy locked now hostId id c) \/ forall id c, ~ ok hostId host id c)
  | (ClaimedCommand v, w') => exists hostId host id c, live_host hostToken w hostId host /\ ok hostId host id c /\
      (forall j cj, ok hostId host j cj -> c_createdAt c <= c_createdAt cj) /\
      (forall j cj, commands w !! j = Some cj -> ~ busy locked now hostId j cj) /\
      v = serializeCommand id (set_running now hostId c) (Some (h_displayName host)) /\
      commands w' !! id = Some (set_running now hostId c)
  end.
Proof.
  intros Hw caps ok. assert (Hi := reachable_Inv _ Hw). unfold claimNextComputerUseHostCommand.
  destruct (hostFromToken hostToken w) as [[hid host]|] eqn:Eh.
  2: { split; [done|]. intros hid host (Hh & Ht & Hr). rewrite hostFromToken_None in Eh.
       destruct (Eh _ _ Hh Ht) as [? Hs]. congruence. }
  apply hostFromToken_Some in Eh as Hlive. assert (Hh := proj1 Hlive). fold caps.
  change (failStaleRunningComputerUseCommands _ _ _ _ _ _) with (polled locked now caps hid host w).
  destruct (rows (fun _ => runs_on hid host) _) as [|[j cj] rs] eqn:Er; cbn [length Nat.ltb Nat.leb].
  - destruct (oldest _) as [[id c]|] eqn:Eo.
    + apply oldest_spec in Eo as [Hin Hmin]. apply elem_of_rows in Hin. rewrite still_claimable in Hin by done.
      exists hid, host, id, c. split_and!; [exact Hlive|exact Hin| |by eapply still_running_none|done|cbn; by rewrite lookup_insert_eq].
      intros j cj Hj. apply (Hmin (j, cj)). by rewrite elem_of_rows, still_claimable.
    + exists hid, host. split; [done|]. right. intros id c Hok. apply oldest_nil in Eo.
      apply (still_claimable locked now caps hid host w _ id c) in Hok as [Hl Hcl]; [|done..]. assert (Hf := proj1 (rows_nil _ _) Eo id c Hl).
      congruence.
  - exists hid, host. split; [done|]. left. exists j, cj. eapply still_running; [done..|].
    apply (elem_of_rows (fun _ => runs_on hid host)). rewrite Er. apply elem_of_cons. by left.
Qed.

(** ** Retention *)

Lemma expire_lookup (now : Z) (batch : list (jsstr * Command)) (m : gmap jsstr Command) (id : jsstr) : NoDup batch.*1 ->
  foldr (fun kv m => alter (set_expired now) kv.1 m) m batch !! id =
  if bool_decide (id ∈ batch.*1) then set_expired now <$> m !! id else m !! id.
Proof.
  induction batch as [|[i c] batch IH]; cbn [foldr fst fmap list_fmap]; intros Hnd; [done|].
  apply NoDup_cons in Hnd as [Hni Hnd]. specialize (IH Hnd). destruct (decide (i = id)) as [->|Hd].
  - rewrite lookup_alter_eq, IH. rewrite bool_decide_eq_false_2, bool_decide_eq_true_2 by set_solver. done.
  - rewrite lookup_alter_ne, IH by done. by rewrite (bool_decide_ext (id ∈ i :: batch.*1) (id ∈ batch.*1)) by set_solver.
Qed.

Definition kept (cutoff : Z) (w : World) : list (jsstr * Command) := rows (fun _ => keeps_screenshot cutoff) (commands w).

(** What expiring the rows with a screenshot does to the table. *)
Definition expire_old (now cutoff : Z) (c : Command) : Command := if keeps_screenshot cutoff c then set_expired now c else c.

Lemma expire_batch_lookup now cutoff n w id :
  commands (expire_rows now (take n (kept cutoff w)) w) !! id =
  if bool_decide (id ∈ (take n (kept cutoff w)).*1) then set_expired now <$> commands w !! id else commands w !! id.
Proof. cbn. apply expire_lookup, (take_rows_spec n (fun _ => keeps_screenshot cutoff)). Qed.

Lemma elem_of_kept_ids cutoff w id : id ∈ (kept cutoff w).*1 <-> exists c, commands w !! id = Some c /\ keeps_screenshot cutoff c = true.
Proof.
  unfold kept. rewrite list_elem_of_fmap. split.
  - intros ([i c] & -> & Hin). apply elem_of_rows in Hin. by exists c.
  - intros (c & Hc). exists (id, c). split; [done|]. by apply elem_of_rows.
Qed.

(** A batch leaves the rows after it. *)
Lemma kept_after_batch now cutoff n w : kept cutoff (expire_rows now (take n (kept cutoff w)) w) ≡ₚ drop n (kept cutoff w).
Proof.
  assert (Hnd : NoDup (kept cutoff w)) by (eapply NoDup_fmap_1; apply NoDup_rows).
  assert (Hids : NoDup (kept cutoff w).*1) by apply NoDup_rows.
  apply NoDup_Permutation; [eapply NoDup_fmap_1; apply NoDup_rows| |].
  { rewrite <- (take_drop n (kept cutoff w)) in Hnd. by apply NoDup_app in Hnd as (_ & _ & ?). }
  intros [id c]. unfold kept at 1. rewrite elem_of_rows, expire_batch_lookup.
  rewrite <- (take_drop n (kept cutoff w)) in Hids. rewrite fmap_app in Hids. apply NoDup_app in Hids as (_ & Hdis & _).
  case_bool_decide as Hb; split.
  - intros [Hl Hk]. apply fmap_Some in Hl as (c0 & _ & ->). by rewrite expired_not_kept in Hk.
  - intros Hin. exfalso. apply (Hdis id Hb). apply list_elem_of_fmap. by exists (id, c).
  - intros Hin. assert ((id, c) ∈ kept cutoff w) as Hk by by apply elem_of_rows. rewrite <- (take_drop n (kept cutoff w)) in Hk.
    apply elem_of_app in Hk as [Hk|Hk]; [|done]. destruct Hb. apply list_elem_of_fmap. by exists (id, c).
  - intros Hin. assert ((id, c) ∈ kept cutoff w) as Hk.
    { rewrite <- (take_drop n (kept cutoff w)). apply elem_of_app. by right. }
    by apply elem_of_rows in Hk.
Qed.

(** Expiring a batch and then the rest expires everything. *)
Lemma expire_old_batch now cutoff n w id :
  expire_old now cutoff <$> commands (expire_rows now (take n (kept cutoff w)) w) !! id = expire_old now cutoff <$> commands w !! id.
Proof.
  rewrite expire_batch_lookup. case_bool_decide as Hb; [|done].
  assert (id ∈ (kept cutoff w).*1) as Hk.
  { rewrite <- (take_drop n (kept cutoff w)), fmap_app. apply elem_of_app. by left. }
  apply elem_of_kept_ids in Hk as (c & -> & Hk). cbn. f_equal. unfold expire_old. by rewrite expired_not_kept, Hk.
Qed.

Lemma expire_old_done now cutoff w : kept cutoff w = [] -> forall id, expire_old now cutoff <$> commands w !! id = commands w !! id.
Proof.
  intros Hn id. destruct (commands w !! id) as [c|] eqn:El; [|done]. cbn. f_equal. unfold expire_old.
  by rewrite (proj1 (rows_nil _ _) Hn id c El).
Qed.

(** The objects the rows with a screenshot point to. *)
Definition points_to (rows : list (jsstr * Command)) (o : jsstr * jsstr) : Prop :=
  exists id c, (id, c) ∈ rows /\ pointer_of c = Some (JString o.1, o.2).

(** A group of keys of one bucket, all of them of rows that hold their screenshot, that the
    storage refuses to delete. *)
Definition refused_group (cutoff : Z) (w : World) : Prop :=
  exists bucket keys, keys <> [] /\ s3_deletes bucket keys = false /\
    forall key, key ∈ keys -> exists id c, (id, c) ∈ kept cutoff w /\ pointer_of c = Some (bucket, key).

Lemma expire_batch_spec now cutoff n w : let batch := take n (kept cutoff w) in
  exists r w1, expire_batch now batch w = (r, w1) /\
    (forall o, storage w1 !! o = storage w !! o \/ storage w1 !! o = None /\ points_to batch o) /\
    match r with
    | Ok _ => commands w1 = commands (expire_rows now batch w) /\ forall o, points_to batch o -> storage w1 !! o = None
    | Throw _ => commands w1 = commands w /\ refused_group cutoff w
    end.
Proof.
  intros batch. unfold expire_batch. destruct (delete_buckets (keysByBucket batch) w) as [r w1] eqn:E.
  destruct (delete_buckets_spec _ _ _ _ E) as (_ & Hc & _ & Hs & Hr).
  assert (forall o, in_groups (JString o.1) o.2 (keysByBucket batch) <-> points_to batch o) as Hg by (intros o; apply in_keysByBucket).
  assert (forall o, storage w1 !! o = storage w !! o \/ storage w1 !! o = None /\ points_to batch o) as Hs'
    by (intros o; rewrite <- Hg; apply Hs).
  destruct r as [u|e]; eexists _, _; (split; [reflexivity|]); (split; [exact Hs'|]).
  - split; [cbn; by rewrite Hc|]. intros o Ho. by apply Hr, Hg.
  - split; [done|]. destruct Hr as (bucket & keys & Hin & Hne & Hd). exists bucket, keys. split_and!; [done..|].
    intros key Hk. destruct (proj1 (in_keysByBucket bucket key batch)) as (id & c & Hb & Hp); [by exists keys|]. exists id, c. split; [|done].
    eapply elem_of_sublist; [exact Hb|apply sublist_take].
Qed.

Lemma kept_commands cutoff w w' : commands w' = commands w -> kept cutoff w' = kept cutoff w.
Proof. unfold kept. by intros ->. Qed.

(** What a run of the job has done when it ends. *)
Record cleaned (now cutoff : Z) (w w' : World) (r : result nat) (total : nat) : Prop := {
  cl_commands : forall id, commands w' !! id = commands w !! id \/ commands w' !! id = expire_old now cutoff <$> commands w !! id;
  cl_storage : forall o, storage w' !! o = storage w !! o \/ storage w' !! o = None /\ points_to (kept cutoff w) o;
  cl_result : match r with
    | Ok n => n = (total + length (kept cutoff w))%nat /\ (forall id, commands w' !! id = expire_old now cutoff <$> commands w !! id) /\
        (forall o, points_to (kept cutoff w) o -> storage w' !! o = None)
    | Throw _ => refused_group cutoff w' /\ forall id c, (id, c) ∈ kept cutoff w' -> (id, c) ∈ kept cutoff w
    end }.

Lemma points_to_app l k o : points_to (l ++ k) o <-> points_to l o \/ points_to k o.
Proof. unfold points_to. setoid_rewrite elem_of_app. naive_solver. Qed.

Lemma points_to_perm l k o : l ≡ₚ k -> points_to l o <-> points_to k o.
Proof. intros Hp. unfold points_to. by setoid_rewrite Hp. Qed.

(** A batch and then a run on what it left. *)
Lemma cleaned_batch now cutoff n w w1 w' r total :
  let batch := take n (kept cutoff w) in
  commands w1 = commands (expire_rows now batch w) ->
  (forall o, storage w1 !! o = storage w !! o \/ storage w1 !! o = None /\ points_to batch o) ->
  (forall o, points_to batch o -> storage w1 !! o = None) ->
  cleaned now cutoff w1 w' r (total + length batch) -> cleaned now cutoff w w' r total.
Proof.
  intros batch Hc Hs Hd [Hcm Hst Hr]. assert (Hp : kept cutoff w1 ≡ₚ drop n (kept cutoff w)).
  { rewrite (kept_commands cutoff _ _ Hc). apply kept_after_batch. }
  assert (Hsplit : kept cutoff w ≡ₚ batch ++ kept cutoff w1) by (rewrite Hp; unfold batch; by rewrite take_drop).
  assert (Hlen : length (kept cutoff w) = (length batch + length (kept cutoff w1))%nat) by (rewrite Hsplit at 1; apply length_app).
  assert (Hpt : forall o, points_to (kept cutoff w) o <-> points_to batch o \/ points_to (kept cutoff w1) o)
    by (intros o; by rewrite (points_to_perm _ _ o Hsplit), points_to_app).
  assert (Hold : forall id, expire_old now cutoff <$> commands w1 !! id = expire_old now cutoff <$> commands w !! id)
    by (intros id; rewrite Hc; apply expire_old_batch).
  split.
  - intros id. destruct (Hcm id) as [->| ->]; [|right; apply Hold]. rewrite Hc. unfold batch. rewrite expire_batch_lookup. case_bool_decide as Hb; [|by left].
    right. assert (id ∈ (kept cutoff w).*1) as Hk by (rewrite fmap_take in Hb; eapply elem_of_sublist; [exact Hb|apply sublist_take]).
    apply elem_of_kept_ids in Hk as (c & -> & Hk). cbn. unfold expire_old. by rewrite Hk.
  - intros o. rewrite Hpt. destruct (Hst o) as [Ho|Ho]; [|tauto]. rewrite Ho. destruct (Hs o) as [->|[Hn ?]]; [by left|]. right. rewrite Hn. tauto.
  - destruct r as [m|e].
    + destruct Hr as (-> & Hall & Hdel). split_and!; [lia| |].
      * intros id. by rewrite Hall, Hold.
      * intros o Hpo. apply Hpt in Hpo as [Ho|Ho]; [|by apply Hdel]. destruct (Hst o) as [Hk|[Hk _]]; [|done]. rewrite Hk. by apply Hd.
    + destruct Hr as [Href Hin]. split; [done|]. intros id c Hk. rewrite Hsplit. apply elem_of_app. right. by apply Hin.
Qed.

Lemma cleanup_loop_spec fuel now cutoff total w : (length (kept cutoff w) < fuel)%nat ->
  exists r w', cleanup_loop fuel now cutoff total w = Some (r, w') /\ cleaned now cutoff w w' r total.
Proof.
  revert total w. induction fuel as [|fuel IH]; [lia|]. intros total w Hf. cbn [cleanup_loop]. fold (kept cutoff w).
  set (batch := take SCREENSHOT_CLEANUP_BATCH_SIZE (kept cutoff w)).
  assert (forall w0 t, kept cutoff w0 = [] -> cleaned now cutoff w0 w0 (Ok t) t) as Hempty.
  { intros w0 t Hn. split; [by left|by left|]. rewrite Hn. split_and!; [cbn; lia| |].
    - intros id. by rewrite expire_old_done.
    - intros o (id & c & Hin & _). by apply elem_of_nil in Hin. }
  destruct (length batch =? 0)%nat eqn:E0.
  { apply Nat.eqb_eq in E0. eexists _, w. split; [done|]. apply Hempty. destruct (kept cutoff w); [done|]. by unfold batch in E0. }
  apply Nat.eqb_neq in E0. destruct (expire_batch_spec now cutoff SCREENSHOT_CLEANUP_BATCH_SIZE w) as (r & w1 & Hb & Hs & Hr).
  fold batch in Hb, Hs, Hr |- *. rewrite Hb. clear Hb. destruct r as [u|e].
  - destruct Hr as [Hc Hd]. assert (Hp : kept cutoff w1 ≡ₚ drop SCREENSHOT_CLEANUP_BATCH_SIZE (kept cutoff w)).
    { rewrite (kept_commands cutoff _ _ Hc). apply kept_after_batch. }
    assert (Hlen : (length (kept cutoff w) = length batch + length (kept cutoff w1))%nat).
    { rewrite Hp. unfold batch. rewrite <- length_app. by rewrite take_drop. }
    destruct (length batch =? SCREENSHOT_CLEANUP_BATCH_SIZE)%nat eqn:Eb.
    + destruct (IH (total + length batch)%nat w1) as (r & w' & Hrun & Hcl); [lia|]. exists r, w'. split; [done|].
      by apply (cleaned_batch now cutoff SCREENSHOT_CLEANUP_BATCH_SIZE w w1).
    + apply Nat.eqb_neq in Eb. eexists _, w1. split; [done|].
      apply (cleaned_batch now cutoff SCREENSHOT_CLEANUP_BATCH_SIZE w w1); [done..|]. apply Hempty, length_zero_iff_nil.
      unfold batch in *. rewrite length_take in *. rewrite Hp, length_drop. lia.
  - destruct Hr as [Hc Href]. assert (Hk := kept_commands cutoff _ _ Hc). eexists _, w1. split; [done|]. split.
    + intros id. left. by rewrite Hc.
    + intros o. destruct (Hs o) as [?|[? (id & c & Hin & Hp)]]; [by left|right]. split; [done|]. exists id, c. split; [|done].
      eapply elem_of_sublist; [exact Hin|apply sublist_take].
    + split; [|by rewrite Hk]. unfold refused_group. by rewrite Hk.
Qed.

Lemma kept_length cutoff w : (length (kept cutoff w) <= size (commands w))%nat.
Proof. unfold kept, rows. rewrite <- length_map_to_list. apply length_filter. Qed.

(** C40: The retention job ends within one round per command and one more. Whatever happens, the
    only commands it changes are those older than the retention that hold a screenshot, which
    become expired, and the only objects it deletes are those such commands point to. If the
    storage carries out every deletion of keys that such commands name in one bucket, the job
    succeeds: it counts these commands, turns exactly these into expired ones, leaves none
    behind, and deletes every object they point to. Otherwise it may end with an error, and then
    a deletion was refused that only commands still holding their screenshot asked for. *)
Theorem cleanup_complete fuel now w : (size (commands w) < fuel)%nat ->
  let cutoff := now - SCREENSHOT_RETENTION_DAYS * 24 * 60 * 60 * 1000 in
  let old := rows (fun _ => keeps_screenshot cutoff) (commands w) in
  exists r w', cleanupComputerUseScreenshots fuel now w = Some (r, w') /\
    (forall id, commands w' !! id = commands w !! id \/
       commands w' !! id = (fun c => if keeps_screenshot cutoff c then set_expired now c else c) <$> commands w !! id) /\
    (forall o, storage w' !! o = storage w !! o \/ storage w' !! o = None /\ points_to old o) /\
    match r with
    | Ok n => n = length old /\
        (forall id, commands w' !! id = (fun c => if keeps_screenshot cutoff c then set_expired now c else c) <$> commands w !! id) /\
        (forall id c, commands w' !! id = Some c -> keeps_screenshot cutoff c = false) /\
        (forall o, points_to old o -> storage w' !! o = None)
    | Throw _ => refused_group cutoff w'
    end /\
    ((forall bucket keys, (forall key, key ∈ keys -> exists id c, (id, c) ∈ old /\ pointer_of c = Some (bucket, key)) ->
        s3_deletes bucket keys = true) -> r = Ok (length old)).
Proof.
  intros Hf cutoff old. destruct (cleanup_loop_spec fuel now cutoff 0 w) as (r & w' & Hrun & [Hc Hs Hr]).
  { assert (Hk := kept_length cutoff w). lia. }
  exists r, w'. split_and!; [done..| |].
  - destruct r as [n|e]; [|by destruct Hr]. destruct Hr as (-> & Hall & Hd). split_and!; [done..| |done]. intros id c Hl.
    rewrite Hall in Hl. apply fmap_Some in Hl as (c0 & _ & ->). unfold expire_old.
    destruct (keeps_screenshot cutoff c0) eqn:Ek; [apply expired_not_kept|done].
  - intros Hok. destruct r as [n|e]; [by destruct Hr as (-> & _)|]. destruct Hr as [(bucket & keys & _ & Hd & Hp) Hin].
    rewrite Hok in Hd; [done|]. intros key Hk. destruct (Hp key Hk) as (id & c & Hi & Hpt). exists id, c. split; [|done]. by apply Hin.
Qed.

Lemma cleanup_steps fuel now cutoff total w r w' : cleanup_loop fuel now cutoff total w = Some (r, w') -> rtc step w w'.
Proof.
  revert total w. induction fuel as [|fuel IH]; cbn [cleanup_loop]; [done|]. intros total w.
  assert (Hs := step_expire w now cutoff SCREENSHOT_CLEANUP_BATCH_SIZE).
  destruct (_ =? 0)%nat; [by intros [= _ <-]|]. destruct (expire_batch _ _ _) as [[u|e] w1]; cbn [snd] in Hs.
  - destruct (_ =? _)%nat; [|intros [= _ <-]; by apply rtc_once]. intros Hr. eapply rtc_l; [exact Hs|]. by eapply IH.
  - intros [= _ <-]. by apply rtc_once.
Qed.

(** ** Requests *)

Context `{Platform}.

(** The requests that change the state, by route, and the retention job. Ids and tokens are fresh;
    [between] is what other requests do while a screenshot is uploaded. *)
Inductive request (w : World) : World -> Prop :=
| rq_start switches now id random auth body : hosts w !! id = None ->
    (forall j h, hosts w !! j = Some h -> h_tokenHash h <> hashSecret (generateOpaqueToken (js "vm0_computer_use_host") random)) ->
    request w (hostStart switches now id random auth body w).2
| rq_heartbeat now authorization body : request w (heartbeat now authorization body w).2
| rq_stop now authorization body : request w (hostStop now authorization body w).2
| rq_delete switches now auth hostId : request w (hostDelete switches now auth hostId w).2
| rq_create validate switches now id auth body : commands w !! id = None ->
    request w (commandCreate validate switches now id auth body w).2
| rq_get switches locked now auth commandId : request w (commandGet switches locked now auth commandId w).2
| rq_approval switches now auth commandId body : request w (commandApproval switches now auth commandId body w).2
| rq_next locked now authorization body : request w (hostCommandNext locked now authorization body w).2
| rq_complete bucket now authorization commandId body between : (forall w1, rtc step w1 (between w1)) ->
    request w (hostCommandComplete bucket now authorization commandId
      (computerUseHostCommandCompleteBodySchema body) between w).2
| rq_cleanup fuel now r w' : cleanupComputerUseScreenshots fuel now w = Some (r, w') -> request w w'.

Lemma hostStart_steps switches now id random auth body w : hosts w !! id = None ->
  (forall j h, hosts w !! j = Some h -> h_tokenHash h <> hashSecret (generateOpaqueToken (js "vm0_computer_use_host") random)) ->
  rtc step w (hostStart switches now id random auth body w).2.
Proof.
  intros Hn Hf. unfold hostStart. destruct (negb _); [done|]. destruct body as [body|]; [|done].
  exact (rtc_once _ _ (step_start w now id (au_orgId auth) (au_userId auth) random body Hn Hf)).
Qed.

Lemma host_requests_steps w :
  (forall now authorization body, rtc step w (heartbeat now authorization body w).2) /\
  (forall now authorization body, rtc step w (hostStop now authorization body w).2) /\
  (forall switches now auth hostId, rtc step w (hostDelete switches now auth hostId w).2) /\
  (forall locked now authorization body, rtc step w (hostCommandNext locked now authorization body w).2).
Proof.
  split_and!.
  - intros now a [body|]; cbn; [|done]. destruct (parseBearerToken a) as [t|]; [|done].
    assert (S := step_heartbeat w now t body). destruct (heartbeatComputerUseHost _ _ _ _) as [[h|] w1]; by apply rtc_once.
  - intros now a [body|]; cbn; [|done]. destruct (parseBearerToken a) as [t|]; [|done].
    assert (S := step_stop w now t). destruct (stopComputerUseHost _ _ _) as [[h|] w1]; by apply rtc_once.
  - intros sw now auth hid. unfold hostDelete. destruct (negb _); [done|].
    assert (S := step_delete w now (au_orgId auth) (au_userId auth) hid).
    destruct (deleteComputerUseHost _ _ _ _ _) as [[|] w1]; by apply rtc_once.
  - intros lk now a [caps|]; cbn; [|done]. destruct (parseBearerToken a) as [t|]; [|done].
    assert (S := step_claim w lk now t caps). destruct (claimNextComputerUseHostCommand _ _ _ _ _) as [[| |v] w1]; by apply rtc_once.
Qed.

Lemma user_requests_steps w :
  (forall validate switches now id auth body, commands w !! id = None -> rtc step w (commandCreate validate switches now id auth body w).2) /\
  (forall switches locked now auth commandId, rtc step w (commandGet switches locked now auth commandId w).2) /\
  (forall switches now auth commandId body, rtc step w (commandApproval switches now auth commandId body w).2).
Proof.
  split_and!.
  - intros va sw now id auth [body|] Hn; unfold commandCreate; (destruct (negb _); [done|]); [|done].
    destruct (negb _); [done|]. destruct (confined auth) as [t|]; [|done].
    match goal with |- context [createComputerUseCommand now id ?ps w] => assert (S := step_create w now id ps Hn) end.
    destruct (createComputerUseCommand _ _ _ _) as [[i st| |[]] w1]; by apply rtc_once.
  - intros sw lk now auth cid. unfold commandGet. destruct (negb _); [done|]. destruct (confined auth) as [h|]; [|done].
    assert (S := step_get w lk now (au_orgId auth) (au_userId auth) cid h).
    destruct (getComputerUseCommand _ _ _ _ _ _ _) as [[v|] w1]; by apply rtc_once.
  - intros sw now auth cid [[deny m]|]; unfold commandApproval; (destruct (negb _); [done|]); [|done].
    assert (S := step_approve w now (au_orgId auth) (au_userId auth) cid deny (present m)).
    destruct (approveComputerUseWriteCommand _ _ _ _ _ _ _) as [[i|i| |] w1]; by apply rtc_once.
Qed.

Lemma complete_steps bucket now tok cid r between w : completion_ok r -> (forall w1, rtc step w1 (between w1)) ->
  rtc step w (completeComputerUseHostCommand bucket now tok cid r between w).2.
Proof.
  intros Hok Hb. destruct r as [result|e]; cbn [completeComputerUseHostCommand].
  - assert (S := step_upload w bucket tok cid result). destruct (offloadScreenshotForResult _ _ _ _ _) as [stored w1]. cbn in S.
    eapply rtc_l; [exact S|]. etransitivity; [apply Hb|]. by apply rtc_once, step_complete.
  - etransitivity; [apply Hb|]. by apply rtc_once, step_complete.
Qed.

Lemma accepted_completion body r : computerUseHostCommandCompleteBodySchema body = Some r -> completion_ok r.
Proof. destruct body; cbn; [by intros [= <-]|]. case_bool_decide; [by intros [= <-]|done]. Qed.

Lemma hostCommandComplete_steps bucket now authorization cid body between w : (forall w1, rtc step w1 (between w1)) ->
  rtc step w (hostCommandComplete bucket now authorization cid (computerUseHostCommandCompleteBodySchema body) between w).2.
Proof.
  intros Hb. assert (Hok := accepted_completion body).
  destruct (computerUseHostCommandCompleteBodySchema body) as [r|]; cbn [hostCommandComplete]; [|done]. destruct (parseBearerToken authorization) as [t|]; [|done].
  assert (S := complete_steps bucket now t cid r between w (Hok r eq_refl) Hb).
  destruct (completeComputerUseHostCommand _ _ _ _ _ _ _) as [[] w1]; exact S.
Qed.

Lemma request_steps w w' : request w w' -> rtc step w w'.
Proof.
  destruct (host_requests_steps w) as (H1 & H2 & H3 & H4). destruct (user_requests_steps w) as (U1 & U2 & U3).
  intros []; auto using hostStart_steps, hostCommandComplete_steps. by eapply cleanup_steps.
Qed.

(** C21: Every request to the routes, and the retention job, in any reachable state and whatever other
    requests do while a screenshot is uploaded, amounts to a sequence of ticks of the abstract
    machine: each changes one host that is not revoked, reporting it online or revoking it; one
    command, along a legal transition that is recorded with its audit events (a claim by and a
    completion for the command's own host, which is not revoked); or one object of the storage,
    a screenshot that a live host stores under its own organization and user, or one that a
    command with an old screenshot points to and the retention removes. *)
Theorem requests_refine w w' : reachable w -> request w w' -> rtc tick w w' /\ reachable w'.
Proof.
  intros Hw Hr. assert (Hs := request_steps _ _ Hr). split.
  - apply steps_ticks; [by apply reachable_Inv|done].
  - unfold reachable in *. by transitivity w.
Qed.

(** ** Runs *)

Lemma confined_run auth runId hostId target : au_zero auth = Some (runId, hostId) -> confined auth = Some target ->
  exists h, present hostId = Some h /\ target = Some h /\ present (Some h) = Some h.
Proof.
  intros Hz. unfold confined. rewrite Hz. destruct (present hostId) as [h|] eqn:Ep; [|done]. intros [= <-].
  exists h. split_and!; [done..|]. destruct hostId as [[|x l]|]; cbn in Ep; [done| |done]. by injection Ep as <-.
Qed.

Lemma create_spec now id params w cid st w' : createComputerUseCommand now id params w = (CreatedCommand cid st, w') ->
  exists hostId host, cid = id /\ commands w' !! id = Some (new_command now params hostId) /\ st = c_status (new_command now params hostId) /\
    hosts w !! hostId = Some host /\ h_orgId host = cp_orgId params /\ h_userId host = cp_userId params /\
    hostIsOnline host now = true /\ hostSupportsCommand host (cp_kind params) = true /\
    (forall t, present (cp_targetHostId params) = Some t -> hostId = t).
Proof.
  unfold createComputerUseCommand. destruct (negb _); [done|]. destruct (length _ =? 0)%nat; [done|].
  destruct (resolveComputerUseCommandTargets _ _ _) as [hid| | |] eqn:Et; [|done..]. intros [= <- <- <-].
  apply resolve_target in Et as (h & Hin & Hsup & Ht). apply list_elem_of_filter in Hin as [Hon Hin].
  apply elem_of_hosts_of in Hin as (Hh & Ho & Hu & _). exists hid, h. split_and!; try done.
  destruct (cp_requiresApproval params); rewrite ?audit_update; cbn; by rewrite lookup_insert_eq.
Qed.

(** The token of a run reaches the desktop its user chose for the run and no other: a command it
    creates is queued for that host, a live, online host of the same organization and user that
    supports the command; a command or a screenshot it reads belongs to that host; and a token
    without a host creates and reads nothing. *)
Theorem run_confined switches auth runId hostId w : au_zero auth = Some (runId, hostId) ->
  (forall validate now id body cid st w', commandCreate validate switches now id auth body w = (ReplyCommandCreated cid st, w') ->
     exists h host c, present hostId = Some h /\ cid = id /\ commands w' !! id = Some c /\ c_hostId c = Some h /\
       c_runId c = Some runId /\ c_orgId c = au_orgId auth /\ c_userId c = au_userId auth /\ c_status c = Queued /\
       hosts w !! h = Some host /\ h_orgId host = au_orgId auth /\ h_userId host = au_userId auth /\
       hostIsOnline host now = true /\ hostSupportsCommand host (c_kind c) = true) /\
  (forall locked now cid v w', commandGet switches locked now auth cid w = (ReplyCommand v, w') ->
     exists h, present hostId = Some h /\ cv_hostId v = Some h) /\
  (forall cid buffer contentType, screenshotGet switches auth cid w = Ok (ReplyScreenshot buffer contentType) ->
     exists h c, present hostId = Some h /\ commands w !! cid = Some c /\ c_hostId c = Some h /\
       c_orgId c = au_orgId auth /\ c_userId c = au_userId auth).
Proof.
  intros Hz. split_and!.
  - intros validate now id body cid st w'. unfold commandCreate. destruct (negb _); [done|]. destruct body as [body|]; [|done].
    destruct (negb _); [done|]. destruct (confined auth) as [t|] eqn:Ec; [|done].
    destruct (confined_run _ _ _ _ Hz Ec) as (h & Hp & -> & Hh). rewrite Hz.
    destruct (createComputerUseCommand _ _ _ _) as [[i s| |[]] w1] eqn:Er; try done. intros [= <- <- <-].
    apply create_spec in Er as (hid & host & -> & Hl & -> & Hho & Ho & Hu & Hon & Hsup & Ht).
    cbn in Ht. rewrite (Ht h Hh) in *. exists h, host. eexists. split_and!; try done.
  - intros locked now cid v w'. unfold commandGet. destruct (negb _); [done|]. destruct (confined auth) as [t|] eqn:Ec; [|done].
    destruct (confined_run _ _ _ _ Hz Ec) as (h & Hp & -> & Hh). unfold getComputerUseCommand.
    destruct (command_of _ _ _ _ _) as [c|] eqn:Eco; cbn [fmap option_fmap option_map]; [|done]. intros [= <- _].
    apply command_of_Some in Eco as (_ & _ & _ & Hc). exists h. split; [done|]. by apply Hc.
  - intros cid buffer ct. unfold screenshotGet. destruct (negb _); [done|]. destruct (confined auth) as [t|] eqn:Ec; [|done].
    destruct (confined_run _ _ _ _ Hz Ec) as (h & Hp & -> & Hh). unfold getComputerUseCommandScreenshot.
    destruct (command_of _ _ _ _ _) as [c|] eqn:Eco; [|done]. intros _. apply command_of_Some in Eco as (Hl & Ho & Hu & Hc).
    exists h, c. split_and!; try done. by apply Hc.
Qed.

(** ** Errors of the desktop *)

(** Of the codes the native helper of a desktop reports, the completion contract accepts all but
    one: a failure with [element_not_editable] is answered with an invalid body and changes
    nothing, so that its command stays running until it times out. *)
Theorem native_code_refused bucket now authorization commandId value message between w :
  let body := FailedWith {| ce_code := responseErrorCode value; ce_message := message |} in
  (computerUseHostCommandCompleteBodySchema body = None <-> value = js "element_not_editable") /\
  (value = js "element_not_editable" ->
   hostCommandComplete bucket now authorization commandId (computerUseHostCommandCompleteBodySchema body) between w =
   (ReplyInvalidBody, w)).
Proof.
  cbn zeta. assert (Hiff : computerUseHostCommandCompleteBodySchema (FailedWith {| ce_code := responseErrorCode value; ce_message := message |})
    = None <-> value = js "element_not_editable").
  - cbn [computerUseHostCommandCompleteBodySchema ce_code]. unfold responseErrorCode.
    destruct (bool_decide (value ∈ _)) eqn:Hin; [apply bool_decide_eq_true in Hin|apply bool_decide_eq_false in Hin].
    + split.
      * case_bool_decide as Hc; [done|]. intros _.
        repeat (apply elem_of_cons in Hin as [->|Hin];
          [first [reflexivity | exfalso; apply Hc; apply (bool_decide_unpack _); by vm_compute]|]). by apply elem_of_nil in Hin.
      * intros ->. by vm_compute.
    + split; [by vm_compute|]. intros ->. exfalso. apply Hin. apply (bool_decide_unpack _). by vm_compute.
  - split; [done|]. intros Hv. apply Hiff in Hv. by rewrite Hv.
Qed.

(** ** Screenshots a host makes up *)

Definition forged (bucket key : jsstr) : Rec JsVal :=
  [(js "screenshot", JObject [(js "type", JString (js "s3")); (js "bucket", JString bucket); (js "key", JString key)])].

(** A host completes its command with a result of its own making: whatever object of the storage
    a screenshot pointer in that result names, in any bucket and under any key, the owner of the
    command then downloads it as the screenshot of the command. *)
Theorem forged_screenshot now hostToken commandId upload bucket key bytes hostId host c w :
  hostFromToken hostToken w = Some (hostId, host) -> commands w !! commandId = Some c ->
  c_hostId c = Some hostId -> c_status c = Running -> storage w !! (bucket, key) = Some bytes ->
  let '(r, w') := completeComputerUseHostCommand upload now hostToken commandId (SucceededWith (forged bucket key)) (fun w => w) w in
  r = CompleteDone /\
  getComputerUseCommandScreenshot (c_orgId c) (c_userId c) commandId None w' = Ok (Some (bytes, JUndefined)).
Proof.
  intros Hh Hl Hc Hs Hst. cbn [completeComputerUseHostCommand].
  change (offloadScreenshotForResult upload hostToken commandId (forged bucket key) w) with (forged bucket key, w).
  cbn beta iota zeta. unfold complete_tx. rewrite Hh, Hl. rewrite !bool_decide_eq_true_2 by done. cbn [negb]. split; [done|].
  rewrite audit_update. unfold getComputerUseCommandScreenshot, command_of.
  cbn [commands with_hosts update storage]. rewrite lookup_insert_eq. cbn [option_bind mbind].
  rewrite !bool_decide_eq_true_2 by done. cbn [andb present set_succeeded c_status c_result].
  change (isStoredScreenshotPointer (prop_of (forged bucket key) (js "screenshot"))) with true.
  change (as_string (field_of (prop_of (forged bucket key) (js "screenshot")) "bucket")) with (Some bucket).
  change (as_string (field_of (prop_of (forged bucket key) (js "screenshot")) "key")) with (Some key).
  cbv beta iota. by rewrite Hst.
Qed.

(** A completion that is refused because the command is no longer running still replaces the
    stored screenshot of the command: the upload precedes the check. *)
Theorem refused_completion_overwrites now hostToken commandId bucket mimeType data buffer hostId host c w :
  hostFromToken hostToken w = Some (hostId, host) -> commands w !! commandId = Some c ->
  c_hostId c = Some hostId -> c_status c <> Running ->
  parseScreenshotDataUrl data = Some (mimeType, buffer) ->
  let '(r, w') := completeComputerUseHostCommand bucket now hostToken commandId
    (SucceededWith [(js "screenshot", JString data)]) (fun w => w) w in
  r = CompleteNotRunning /\ commands w' = commands w /\
  storage w' = <[(bucket, screenshot_key (h_orgId host) (h_userId host) commandId mimeType) := buffer]> (storage w).
Proof.
  intros Hh Hl Hc Hs Hp. cbn [completeComputerUseHostCommand]. unfold offloadScreenshotForResult.
  change (as_string (prop_of [(js "screenshot", JString data)] (js "screenshot"))) with (Some data). cbv beta iota.
  rewrite Hp, Hh. cbv beta iota zeta.
  unfold complete_tx. change (hostFromToken hostToken (with_storage _ w)) with (hostFromToken hostToken w). rewrite Hh.
  cbn [commands with_storage]. rewrite Hl, bool_decide_eq_true_2, bool_decide_eq_false_2 by done. done.
Qed.

(** The audit copy of a result with none of the listed fields is the result itself. *)
Lemma audit_keeps_unlisted text : redactedResultForAudit (Some [(js "typed", JString text)]) = Some [(js "typed", JString text)].
Proof. reflexivity. Qed.

End Proofs.

(** ** Concrete runs *)

Section Witnesses.

Definition sample_runtime : Runtime := {| sha256_hex := fun s => js "h" ++ s; buffer_from_base64 := fun s => s;
  s3_deletes := fun bucket _ => bool_decide (bucket = JString (js "screens")) |}.
#[local] Existing Instance sample_runtime.

Definition sample_host_body : HostBody :=
  {| hb_hostName := js "Desk"; hb_appVersion := js "1.0"; hb_osVersion := js "mac"; hb_capabilities := [];
     hb_permissions := {| pm_accessibility := true; pm_screenRecording := true |} |}.

Definition sample_payload : ComputerUseCommandPayload :=
  {| p_app := Some (js "Notes"); p_snapshotId := None; p_elementId := Some (js "e1"); p_elementIndex := None; p_x := None; p_y := None;
     p_button := None; p_clickCount := None; p_direction := None; p_pages := None; p_value := None; p_text := None; p_key := None;
     p_action := None |}.

Definition sample_params : CommandParams :=
  {| cp_orgId := js "org"; cp_userId := js "user"; cp_runId := Some (js "run"); cp_targetHostId := Some (js "host1");
     cp_kind := js "element.click"; cp_payload := sample_payload; cp_timeoutMs := Some 15000; cp_requiresApproval := true |}.

Definition sample_token : jsstr := js "vm0_computer_use_host_r".
Definition sample_free : jsstr -> bool := fun _ => false.

(** Registered, created, approved, claimed, completed. *)
Definition sample_started : World := (startComputerUseHost 1000 (js "host1") (js "org") (js "user") (js "r") sample_host_body empty_world).2.
Definition sample_created : World := (createComputerUseCommand 2000 (js "cmd1") sample_params sample_started).2.
Definition sample_approved : World :=
  (approveComputerUseWriteCommand 3000 (js "org") (js "user") (js "cmd1") false None sample_created).2.
Definition sample_claimed : World := (claimNextComputerUseHostCommand sample_free 4000 sample_token [] sample_approved).2.
Definition sample_completed : World :=
  (complete_tx 5000 sample_token (js "cmd1") (SucceededWith [(js "screenshot", JString (js "data:image/png;base64,abc"))])
     (SucceededWith []) sample_claimed).2.

Lemma sample_started_reachable : reachable sample_started.
Proof.
  apply rtc_once, step_start; [done|]. intros j h Hj. cbn in Hj. by rewrite lookup_empty in Hj.
Qed.

Lemma sample_created_step : rtc step sample_started sample_created.
Proof. apply rtc_once, step_create. by vm_compute. Qed.
Lemma sample_approved_step : rtc step sample_created sample_approved.
Proof. apply rtc_once, step_approve. Qed.
Lemma sample_claimed_step : rtc step sample_approved sample_claimed.
Proof. apply rtc_once, step_claim. Qed.
Lemma sample_completed_step : rtc step sample_claimed sample_completed.
Proof. by apply rtc_once, step_complete. Qed.

Lemma sample_approved_reachable : reachable sample_approved.
Proof.
  unfold reachable. etransitivity; [apply sample_started_reachable|].
  etransitivity; [apply sample_created_step|apply sample_approved_step].
Qed.

Lemma sample_claimed_reachable : reachable sample_claimed.
Proof. unfold reachable. etransitivity; [apply sample_approved_reachable|apply sample_claimed_step]. Qed.

Lemma sample_running : exists c, commands sample_claimed !! js "cmd1" = Some c /\ c_status c = Running /\
  c_claimedAt c = Some 4000 /\ c_hostId c = Some (js "host1").
Proof. eexists. split; [vm_compute; reflexivity|done]. Qed.

Lemma sample_audits : exists e, e ∈ audits sample_claimed /\ a_commandId e = js "cmd1" /\ a_event e = Created.
Proof. eexists. split; [vm_compute; apply elem_of_cons; left; reflexivity|done]. Qed.

Lemma command_life_witness : exists c c', commands sample_claimed !! js "cmd1" = Some c /\
  commands sample_completed !! js "cmd1" = Some c' /\ rtc life (c_status c) (c_status c').
Proof.
  destruct sample_running as (c & Hc & _).
  destruct (command_life sample_claimed sample_completed (js "cmd1") c sample_claimed_reachable sample_completed_step Hc)
    as (c' & Hc' & _ & Hl & _). exists c, c'. exact (conj Hc (conj Hc' Hl)).
Defined.

Lemma reachable_consistent_witness : (exists c, commands sample_claimed !! js "cmd1" = Some c /\ shape_ok c) /\
  exists e', e' ∈ audits sample_claimed /\ a_commandId e' = js "cmd1" /\ a_event e' = Approved.
Proof.
  destruct sample_running as (c & Hc & _ & Hcl & _). destruct sample_audits as (e & He & Hid & Hev).
  destruct (reachable_consistent sample_claimed sample_claimed_reachable) as (Hall & _ & _ & _ & Happ).
  destruct (Hall _ _ Hc) as (_ & _ & Hs). split; [exists c; exact (conj Hc Hs)|].
  rewrite <- Hid. apply (Happ e c He Hev); [rewrite Hid; exact Hc|]. right. rewrite Hcl. by eexists.
Defined.

Lemma views_conform_witness : exists v, fst (claimNextComputerUseHostCommand sample_free 4000 sample_token [] sample_approved) = ClaimedCommand v /\
  view_conforms v.
Proof.
  destruct (views_conform sample_approved sample_approved_reachable) as [_ Hclaim].
  specialize (Hclaim sample_free 4000 sample_token []).
  destruct (claimNextComputerUseHostCommand sample_free 4000 sample_token [] sample_approved) as [r w'] eqn:E.
  assert (exists v, r = ClaimedCommand v) as [v ->].
  { apply (f_equal fst) in E. cbn [fst] in E. rewrite <- E. eexists. vm_compute. reflexivity. }
  exists v. split; [reflexivity|]. exact (proj1 (Hclaim v w' eq_refl)).
Defined.

Lemma claim_spec_witness : exists hostId host id c, live_host sample_token sample_approved hostId host /\
  commands sample_claimed !! id = Some (set_running 4000 hostId c).
Proof.
  assert (Hs := claim_spec sample_free 4000 sample_token [] sample_approved sample_approved_reachable). cbn zeta in Hs.
  destruct (claimNextComputerUseHostCommand sample_free 4000 sample_token [] sample_approved) as [r w'] eqn:E.
  assert (exists v, r = ClaimedCommand v) as [v ->].
  { apply (f_equal fst) in E. cbn [fst] in E. rewrite <- E. eexists. vm_compute. reflexivity. }
  destruct Hs as (hid & host & id & c & Hlive & _ & _ & _ & _ & Hl). exists hid, host, id, c. split; [exact Hlive|].
  unfold sample_claimed. rewrite E. exact Hl.
Defined.

(** A command whose screenshot was stored, and one with a pointer of the host's own making that
    names no bucket. *)
Definition sample_stored : World :=
  (completeComputerUseHostCommand (js "screens") 5000 sample_token (js "cmd1")
     (SucceededWith [(js "screenshot", JString (js "data:image/png;base64,abc"))]) (fun w => w) sample_claimed).2.
Definition sample_unplaced : World :=
  (completeComputerUseHostCommand (js "screens") 5000 sample_token (js "cmd1")
     (SucceededWith [(js "screenshot", JObject [(js "type", JString (js "s3")); (js "key", JString (js "k"))])]) (fun w => w) sample_claimed).2.

Lemma cleanup_complete_witness : exists w' o, cleanupComputerUseScreenshots 2 10000000000 sample_stored = Some (Ok 1%nat, w') /\
  is_Some (storage sample_stored !! o) /\ storage w' !! o = None /\
  forall id c, commands w' !! id = Some c -> keeps_screenshot (10000000000 - SCREENSHOT_RETENTION_DAYS * 24 * 60 * 60 * 1000) c = false.
Proof.
  destruct (cleanup_complete 2 10000000000 sample_stored) as (r & w' & Hr & _ & _ & Hres & _); [vm_compute; lia|].
  exists w', (js "screens", js "computer-use/org/user/cmd1/screenshot.png").
  assert (exists n, r = Ok n) as [n ->] by (vm_compute in Hr; injection Hr as <- _; by eexists).
  destruct Hres as (-> & _ & Hk & _). split; [exact Hr|]. split; [vm_compute; by eexists|]. split; [|exact Hk].
  vm_compute in Hr. injection Hr as <-. vm_compute. reflexivity.
Defined.

(** The job fails on the pointer without a bucket and leaves the command as it was, so that the
    next run meets it again. *)
Lemma unplaced_pointer_stops_cleanup : exists e w', cleanupComputerUseScreenshots 2 10000000000 sample_unplaced = Some (Throw e, w') /\
  commands w' = commands sample_unplaced.
Proof. eexists _, _. split; vm_compute; reflexivity. Qed.

Definition sample_switches : FeatureSwitches.Table := {[ (js "org", js "user") := [(js "computerUse", true)] ]}.
Definition sample_auth : Auth := {| au_orgId := js "org"; au_userId := js "user"; au_zero := Some (js "run", Some (js "host1")) |}.
Definition sample_command : CommandBody := {| cb_kind := js "element.click"; cb_payload := sample_payload; cb_timeoutMs := 15000 |}.
#[local] Existing Instance ascii_platform.

(** The run sends a command through the route. *)
Definition sample_sent : Reply * World :=
  commandCreate validateComputerUseWriteCommand sample_switches 2000 (js "cmd2") sample_auth (Some sample_command) sample_started.

Lemma sample_sent_reply : fst sample_sent = ReplyCommandCreated (js "cmd2") Queued.
Proof. vm_compute. reflexivity. Qed.

Lemma requests_refine_witness : rtc tick sample_started sample_sent.2 /\ reachable sample_sent.2.
Proof.
  apply (requests_refine sample_started sample_sent.2 sample_started_reachable). apply rq_create. vm_compute. reflexivity.
Defined.

Lemma run_confined_witness : exists c, commands sample_sent.2 !! js "cmd2" = Some c /\ c_hostId c = Some (js "host1") /\
  c_runId c = Some (js "run").
Proof.
  destruct (run_confined sample_switches sample_auth (js "run") (Some (js "host1")) sample_started eq_refl) as (Hc & _ & _).
  destruct (Hc validateComputerUseWriteCommand 2000 (js "cmd2") (Some sample_command) (js "cmd2") Queued sample_sent.2)
    as (h & host & c & Hp & _ & Hl & Hh & Hr & _).
  { rewrite <- sample_sent_reply. unfold sample_sent. destruct (commandCreate _ _ _ _ _ _ _). reflexivity. }
  exists c. split; [exact Hl|]. injection Hp as <-. split; [exact Hh|exact Hr].
Defined.

(** Another user's object. *)
Definition sample_foreign : World := with_storage (<[(js "bucket", js "other/secret") := [1; 2; 3]]>) sample_claimed.

Lemma sample_foreign_host : exists host, hostFromToken sample_token sample_foreign = Some (js "host1", host).
Proof. eexists. vm_compute. reflexivity. Qed.

Lemma sample_foreign_command : exists c, commands sample_foreign !! js "cmd1" = Some c /\ c_hostId c = Some (js "host1") /\
  c_status c = Running /\ c_orgId c = js "org" /\ c_userId c = js "user".
Proof. eexists. split; [vm_compute; reflexivity|]. split_and!; reflexivity. Qed.

Lemma forged_screenshot_witness : exists w',
  completeComputerUseHostCommand (js "bucket") 5000 sample_token (js "cmd1")
    (SucceededWith (forged (js "bucket") (js "other/secret"))) (fun w => w) sample_foreign = (CompleteDone, w') /\
  getComputerUseCommandScreenshot (js "org") (js "user") (js "cmd1") None w' = Ok (Some ([1; 2; 3], JUndefined)).
Proof.
  destruct sample_foreign_host as [host Hh]. destruct sample_foreign_command as (c & Hc & Hid & Hs & Ho & Hu).
  assert (Hf := forged_screenshot 5000 sample_token (js "cmd1") (js "bucket") (js "bucket") (js "other/secret") [1; 2; 3]
    (js "host1") host c sample_foreign Hh Hc Hid Hs (lookup_insert_eq _ _ _)).
  destruct (completeComputerUseHostCommand _ _ _ _ _ _ _) as [r w']. destruct Hf as [-> Hg]. rewrite Ho, Hu in Hg.
  exists w'. split; [reflexivity|exact Hg].
Defined.

Lemma native_code_refused_witness :
  hostCommandComplete (js "bucket") 5000 (Some (js "Bearer t")) (js "cmd1")
    (computerUseHostCommandCompleteBodySchema (FailedWith {| ce_code := responseErrorCode (js "element_not_editable"); ce_message := [] |}))
    (fun w => w) sample_claimed = (ReplyInvalidBody, sample_claimed).
Proof.
  exact (proj2 (native_code_refused (js "bucket") 5000 (Some (js "Bearer t")) (js "cmd1") (js "element_not_editable") []
    (fun w => w) sample_claimed) eq_refl).
Defined.

Lemma sample_done : exists host c, hostFromToken sample_token sample_completed = Some (js "host1", host) /\
  commands sample_completed !! js "cmd1" = Some c /\ c_hostId c = Some (js "host1") /\ c_status c = Succeeded.
Proof. do 2 eexists. split; [vm_compute; reflexivity|]. split; [vm_compute; reflexivity|]. split; reflexivity. Qed.

Lemma refused_completion_overwrites_witness : exists key,
  storage (completeComputerUseHostCommand (js "bucket") 6000 sample_token (js "cmd1")
    (SucceededWith [(js "screenshot", JString (js "data:image/png;base64,zz"))]) (fun w => w) sample_completed).2 =
  <[(js "bucket", key) := js "zz"]> (storage sample_completed).
Proof.
  destruct sample_done as (host & c & Hh & Hc & Hid & Hs).
  assert (Hr := refused_completion_overwrites 6000 sample_token (js "cmd1") (js "bucket") (js "image/png")
    (js "data:image/png;base64,zz") (js "zz") (js "host1") host c sample_completed Hh Hc Hid).
  destruct (completeComputerUseHostCommand _ _ _ _ _ _ _) as [r w'].
  destruct Hr as (_ & _ & Hst); [by rewrite Hs|vm_compute; reflexivity|]. eexists. exact Hst.
Defined.

End Witnesses.

End ComputerUseSafety.
