(* ===== verification/Json.v ===== *)
(** The text formats of tokens and stored documents: JSON as [JSON.stringify] prints and
    [JSON.parse] reads it, and the decoding of UTF-8. Both directions are inverse on the data
    the sources produce. *)

From stdpp Require Import pretty.
From S2P Require Import Prelude JsString JsValue JsRecord Bytes.
Import Bytes.

Module Json.

(** ** Printing *)

Definition hex_digit (n : Z) : Z := if n <? 10 then 48 + n else 87 + n.

(** [\uXXXX], in lower case. *)
Definition unicode_escape (c : Z) : jsstr :=
  [92; 117; hex_digit (c / 4096 mod 16); hex_digit (c / 256 mod 16); hex_digit (c / 16 mod 16); hex_digit (c mod 16)].

(** One unit of a string; a surrogate comes here only when it is not part of a pair. *)
Definition quote_unit (c : Z) : jsstr :=
  if c =? 34 then [92; 34]
  else if c =? 92 then [92; 92]
  else if c =? 8 then [92; 98]
  else if c =? 12 then [92; 102]
  else if c =? 10 then [92; 110]
  else if c =? 13 then [92; 114]
  else if c =? 9 then [92; 116]
  else if (c <? 32) || is_high_surrogate c || is_low_surrogate c then unicode_escape c
  else [c].

Definition quote_chars (ch : jsstr) : jsstr :=
  match ch with [c] => quote_unit c | _ => ch end.

Definition quote_json (s : jsstr) : jsstr := [34] ++ concat (quote_chars <$> code_points s) ++ [34].

Definition print_number (n : Z) : jsstr := js (pretty n).

Definition print_member (kv : jsstr * jsstr) : jsstr := quote_json kv.1 ++ [58] ++ kv.2.

(** [None] is [undefined]: members with that value are left out, items are printed as null. *)
Fixpoint stringify (v : JsVal) : option jsstr :=
  match v with
  | JUndefined => None
  | JNull => Some (js "null")
  | JBool b => Some (if b then js "true" else js "false")
  | JNumber n => Some (print_number n)
  | JString s => Some (quote_json s)
  | JArray l => Some ([91] ++ join [44] ((fun x => default (js "null") (stringify x)) <$> l) ++ [93])
  | JObject props =>
      let members := (fix go (props : list (jsstr * JsVal)) : list jsstr :=
        match props with
        | [] => []
        | (k, x) :: props' =>
            match stringify x with
            | Some t => print_member (k, t) :: go props'
            | None => go props'
            end
        end) props in
      Some ([123] ++ join [44] members ++ [125])
  end.

(** [JSON.stringify] of an object, which is always a text. *)
Definition json_text (props : list (jsstr * JsVal)) : jsstr := default [] (stringify (JObject props)).

(** ** Parsing *)

Definition is_json_space (c : Z) : bool := bool_decide (c ∈ [32; 9; 10; 13]).

Fixpoint skip_space (s : jsstr) : jsstr :=
  match s with
  | c :: s' => if is_json_space c then skip_space s' else s
  | [] => []
  end.

Definition hex4 (a b c d : Z) : option Z :=
  x ← hex_value a; y ← hex_value b; z ← hex_value c; w ← hex_value d;
  Some (((x * 16 + y) * 16 + z) * 16 + w).

Definition escaped (c : Z) : option Z :=
  if bool_decide (c ∈ [34; 92; 47]) then Some c
  else if c =? 98 then Some 8
  else if c =? 102 then Some 12
  else if c =? 110 then Some 10
  else if c =? 114 then Some 13
  else if c =? 116 then Some 9
  else None.

(** The rest of a string, after its opening quote. *)
Fixpoint parse_chars (s : jsstr) : option (jsstr * jsstr) :=
  match s with
  | [] => None
  | c :: s1 =>
      if c =? 34 then Some ([], s1)
      else if c <? 32 then None
      else if c =? 92 then
        match s1 with
        | e :: s2 =>
            if e =? 117 then
              match s2 with
              | a :: b :: c' :: d :: s3 =>
                  u ← hex4 a b c' d; '(t, r) ← parse_chars s3; Some (u :: t, r)
              | _ => None
              end
            else u ← escaped e; '(t, r) ← parse_chars s2; Some (u :: t, r)
        | [] => None
        end
      else '(t, r) ← parse_chars s1; Some (c :: t, r)
  end.

Definition is_digit (c : Z) : bool := (48 <=? c) && (c <=? 57).

Fixpoint parse_digits (s : jsstr) (acc : Z) : Z * jsstr :=
  match s with
  | c :: s' => if is_digit c then parse_digits s' (10 * acc + (c - 48)) else (acc, s)
  | [] => (acc, [])
  end.

(** Integers; a number with a fraction or an exponent is not a value of this development. *)
Definition ends_number (s : jsstr) : bool :=
  match s with c :: _ => negb (bool_decide (c ∈ [46; 101; 69])) | [] => true end.

Definition parse_natural (s : jsstr) : option (Z * jsstr) :=
  match s with
  | c :: s' =>
      if c =? 48 then if ends_number s' then Some (0, s') else None
      else if is_digit c then
        let '(n, r) := parse_digits s' (c - 48) in if ends_number r then Some (n, r) else None
      else None
  | [] => None
  end.

Definition parse_number (s : jsstr) : option (Z * jsstr) :=
  match s with
  | c :: s' => if c =? 45 then '(n, r) ← parse_natural s'; Some (- n, r) else parse_natural s
  | [] => None
  end.

(** The rest of the text after [c] and the white space before it. *)
Definition expect (c : Z) (s : jsstr) : option jsstr :=
  match skip_space s with c' :: r => if c' =? c then Some r else None | [] => None end.

Definition parse_word (word s : jsstr) (v : JsVal) : option (JsVal * jsstr) :=
  if starts_with s word then Some (v, drop (length word) s) else None.

Fixpoint parse_value (fuel : nat) (s : jsstr) : option (JsVal * jsstr) :=
  match fuel with
  | O => None
  | S n =>
      match skip_space s with
      | [] => None
      | c :: s1 =>
          if c =? 34 then '(t, r) ← parse_chars s1; Some (JString t, r)
          else if c =? 91 then
            match expect 93 s1 with
            | Some r => Some (JArray [], r)
            | None => '(l, r) ← parse_items n s1; Some (JArray l, r)
            end
          else if c =? 123 then
            match expect 125 s1 with
            | Some r => Some (JObject [], r)
            | None => '(props, r) ← parse_members n s1 []; Some (JObject props, r)
            end
          else if c =? 110 then parse_word (js "null") (c :: s1) JNull
          else if c =? 116 then parse_word (js "true") (c :: s1) (JBool true)
          else if c =? 102 then parse_word (js "false") (c :: s1) (JBool false)
          else '(m, r) ← parse_number (c :: s1); Some (JNumber m, r)
      end
  end
with parse_items (fuel : nat) (s : jsstr) : option (list JsVal * jsstr) :=
  match fuel with
  | O => None
  | S n =>
      '(v, r) ← parse_value n s;
      match expect 44 r with
      | Some r' => '(l, r'') ← parse_items n r'; Some (v :: l, r'')
      | None => r' ← expect 93 r; Some ([v], r')
      end
  end
(** A repeated name keeps its first place and takes the last value. *)
with parse_members (fuel : nat) (s : jsstr) (acc : list (jsstr * JsVal)) : option (list (jsstr * JsVal) * jsstr) :=
  match fuel with
  | O => None
  | S n =>
      s1 ← expect 34 s;
      '(k, r) ← parse_chars s1;
      r1 ← expect 58 r;
      '(v, r2) ← parse_value n r1;
      match expect 44 r2 with
      | Some r3 => parse_members n r3 (rec_define acc k v)
      | None => r3 ← expect 125 r2; Some (rec_define acc k v, r3)
      end
  end.

(** [JSON.parse]; [None] is the [SyntaxError]. Every call consumes a unit. *)
Definition parse (s : jsstr) : option JsVal :=
  '(v, r) ← parse_value (S (length s)) s;
  match skip_space r with [] => Some v | _ => None end.

(** ** Decoding of UTF-8

    [buffer.toString("utf8")]: a maximal ill-formed part becomes one U+FFFD. *)

Definition REPLACEMENT : Z := 0xfffd.

Definition in_range (lo hi b : Z) : bool := (lo <=? b) && (b <=? hi).
Definition continuation (b : Z) : bool := in_range 0x80 0xbf b.

(** What may follow the first byte of a sequence of three and of four. *)
Definition second_of_three (b0 b1 : Z) : bool :=
  in_range (if b0 =? 0xe0 then 0xa0 else 0x80) (if b0 =? 0xed then 0x9f else 0xbf) b1.
Definition second_of_four (b0 b1 : Z) : bool :=
  in_range (if b0 =? 0xf0 then 0x90 else 0x80) (if b0 =? 0xf4 then 0x8f else 0xbf) b1.

Fixpoint utf8_decode (l : list Z) : jsstr :=
  match l with
  | [] => []
  | b0 :: l1 =>
      if b0 <? 0x80 then b0 :: utf8_decode l1
      else if in_range 0xc2 0xdf b0 then
        match l1 with
        | b1 :: l2 =>
            if continuation b1 then utf16 ((b0 - 0xc0) * 64 + (b1 - 0x80)) ++ utf8_decode l2
            else REPLACEMENT :: utf8_decode l1
        | [] => [REPLACEMENT]
        end
      else if in_range 0xe0 0xef b0 then
        match l1 with
        | b1 :: l2 =>
            if second_of_three b0 b1 then
              match l2 with
              | b2 :: l3 =>
                  if continuation b2 then
                    utf16 (((b0 - 0xe0) * 64 + (b1 - 0x80)) * 64 + (b2 - 0x80)) ++ utf8_decode l3
                  else REPLACEMENT :: utf8_decode l2
              | [] => [REPLACEMENT]
              end
            else REPLACEMENT :: utf8_decode l1
        | [] => [REPLACEMENT]
        end
      else if in_range 0xf0 0xf4 b0 then
        match l1 with
        | b1 :: l2 =>
            if second_of_four b0 b1 then
              match l2 with
              | b2 :: l3 =>
                  if continuation b2 then
                    match l3 with
                    | b3 :: l4 =>
                        if continuation b3 then
                          utf16 ((((b0 - 0xf0) * 64 + (b1 - 0x80)) * 64 + (b2 - 0x80)) * 64 + (b3 - 0x80)) ++
                          utf8_decode l4
                        else REPLACEMENT :: utf8_decode l3
                    | [] => [REPLACEMENT]
                    end
                  else REPLACEMENT :: utf8_decode l2
              | [] => [REPLACEMENT]
              end
            else REPLACEMENT :: utf8_decode l1
        | [] => [REPLACEMENT]
        end
      else REPLACEMENT :: utf8_decode l1
  end.

(** ** UTF-8 is decoded to what was encoded *)

Definition unit_ok (c : Z) : bool := (0 <=? c) && (c <=? 0xffff).

Definition scalar (cp : Z) : Prop := 0 <= cp <= 0x10ffff /\ ~ 0xd800 <= cp <= 0xdfff.

(** Texts without a lone surrogate. *)
Definition well_formed_char (ch : jsstr) : bool :=
  match ch with
  | [c] => unit_ok c && negb (is_high_surrogate c) && negb (is_low_surrogate c)
  | [c; d] => is_high_surrogate c && is_low_surrogate d
  | _ => false
  end.

Definition well_formed (s : jsstr) : bool := forallb well_formed_char (code_points s).

Lemma lor_head k x : k ∈ [0x80; 0xc0; 0xe0; 0xf0] -> 0 <= x < 256 - k -> x < 64 -> Z.lor k x = k + x.
Proof.
  intros Hk Hx Hx'. assert (forallb (fun k => forallb (fun x => (256 - k <=? x) || (Z.lor k x =? k + x)) (seqZ 0 64))
    [0x80; 0xc0; 0xe0; 0xf0] = true) as H by (vm_compute; reflexivity).
  rewrite forallb_true in H. specialize (H k Hk). rewrite forallb_true in H.
  specialize (H x ltac:(apply elem_of_seqZ; lia)). apply orb_true_iff in H as [H|H]; lia.
Qed.

Lemma lor_tail x : Z.lor 0x80 (Z.land x 0x3f) = 0x80 + x mod 64.
Proof.
  change 0x3f with (Z.ones 6). rewrite Z.land_ones by lia. change (2 ^ 6) with 64.
  pose proof (Z.mod_pos_bound x 64). apply lor_head; [set_solver|lia..].
Qed.

Lemma utf8_code_point_bytes cp : scalar cp ->
  utf8_code_point cp =
    if cp <? 0x80 then [cp]
    else if cp <? 0x800 then [0xc0 + cp / 64; 0x80 + cp mod 64]
    else if cp <? 0x10000 then [0xe0 + cp / 4096; 0x80 + cp / 64 mod 64; 0x80 + cp mod 64]
    else [0xf0 + cp / 262144; 0x80 + cp / 4096 mod 64; 0x80 + cp / 64 mod 64; 0x80 + cp mod 64].
Proof.
  intros [Hr Hs]. unfold utf8_code_point. rewrite !lor_tail.
  rewrite !Z.shiftr_div_pow2 by lia. change (2 ^ 6) with 64. change (2 ^ 12) with 4096. change (2 ^ 18) with 262144.
  destruct (cp <? 0x80) eqn:E1; [done|]. destruct (cp <? 0x800) eqn:E2.
  { rewrite (lor_head 0xc0); [done|set_solver|..]; (split || idtac); Z.to_euclidean_division_equations; lia. }
  destruct (_ && _) eqn:E3; [lia|]. destruct (cp <? 0x10000) eqn:E4.
  - rewrite (lor_head 0xe0); [done|set_solver|..]; (split || idtac); Z.to_euclidean_division_equations; lia.
  - rewrite (lor_head 0xf0); [done|set_solver|..]; (split || idtac); Z.to_euclidean_division_equations; lia.
Qed.

Ltac decide_tests := repeat match goal with |- context [if ?b then _ else _] =>
  match b with
  | true => fail 1 | false => fail 1
  | context [if ?c then _ else _] => let E := fresh in destruct c eqn:E; try (exfalso; lia)
  | _ => let E := fresh in destruct b eqn:E; try (exfalso; lia)
  end end.

Lemma utf8_decode_code_point cp r : scalar cp -> utf8_decode (utf8_code_point cp ++ r) = utf16 cp ++ utf8_decode r.
Proof.
  intros Hs. rewrite utf8_code_point_bytes by done. destruct Hs as [Hr Hs].
  destruct (cp <? 0x80) eqn:E1.
  { simpl. rewrite E1. unfold utf16. destruct (cp <? 0x10000) eqn:E; [done|lia]. }
  destruct (cp <? 0x800) eqn:E2; [|destruct (cp <? 0x10000) eqn:E3];
    cbn [app utf8_decode]; unfold in_range, continuation, second_of_three, second_of_four, in_range.
  - assert (2 <= cp / 64 <= 31 /\ 0 <= cp mod 64 < 64) by (Z.to_euclidean_division_equations; lia).
    decide_tests. do 2 f_equal. Z.to_euclidean_division_equations; lia.
  - assert (0 <= cp / 4096 <= 15 /\ 0 <= cp / 64 mod 64 < 64 /\ 0 <= cp mod 64 < 64 /\
      (cp / 4096 = 0 -> 32 <= cp / 64 mod 64) /\ (cp / 4096 = 13 -> cp / 64 mod 64 <= 31))
      by (Z.to_euclidean_division_equations; lia).
    decide_tests; (do 2 f_equal; Z.to_euclidean_division_equations; lia).
  - assert (0 <= cp / 262144 <= 4 /\ 0 <= cp / 4096 mod 64 < 64 /\ 0 <= cp / 64 mod 64 < 64 /\ 0 <= cp mod 64 < 64 /\
      (cp / 262144 = 0 -> 16 <= cp / 4096 mod 64) /\ (cp / 262144 = 4 -> cp / 4096 mod 64 <= 15))
      by (Z.to_euclidean_division_equations; lia).
    decide_tests; (do 2 f_equal; Z.to_euclidean_division_equations; lia).
Qed.

Lemma code_points_nil_ind (P : jsstr -> Prop) :
  P [] -> (forall c s, code_points (c :: s) = [c] :: code_points s -> P s -> P (c :: s)) ->
  (forall c d s, is_high_surrogate c = true -> is_low_surrogate d = true -> P s -> P (c :: d :: s)) -> forall s, P s.
Proof.
  intros Hn H1 H2 s. induction s as [s IH] using (induction_ltof1 _ (@length Z)). unfold ltof in IH.
  destruct s as [|c [|d s]]; [done|apply H1; [done|apply IH; simpl; lia]|].
  destruct (is_high_surrogate c && is_low_surrogate d) eqn:E.
  - apply andb_true_iff in E as [Ec Ed]. apply H2; [done..|]. apply IH. simpl. lia.
  - apply H1; [|apply IH; simpl; lia]. cbn. by rewrite E.
Qed.

Lemma code_points_pair c d s : is_high_surrogate c = true -> is_low_surrogate d = true ->
  code_points (c :: d :: s) = [c; d] :: code_points s.
Proof. intros Hc Hd. cbn. by rewrite Hc, Hd. Qed.

Lemma surrogate_pair_scalar c d : is_high_surrogate c = true -> is_low_surrogate d = true ->
  let cp := (c - 0xd800) * 0x400 + (d - 0xdc00) + 0x10000 in scalar cp /\ utf16 cp = [c; d].
Proof.
  intros Hc Hd cp. unfold is_high_surrogate, is_low_surrogate in Hc, Hd. bool_facts. split; [unfold scalar; lia|].
  unfold utf16. destruct (cp <? 0x10000) eqn:E; [lia|]. f_equal; [|f_equal]; subst cp; Z.to_euclidean_division_equations; lia.
Qed.

Lemma utf8_decode_app s r : well_formed s = true -> utf8_decode (utf8 s ++ r) = s ++ utf8_decode r.
Proof.
  unfold well_formed, utf8. induction s as [|c s Hcp IH|c d s Hc Hd IH] using code_points_nil_ind; [done| |].
  - rewrite Hcp. cbn. intros [Hw Hs]%andb_true_iff. apply andb_true_iff in Hw as [[Hu Hh]%andb_true_iff Hl].
    unfold unit_ok, is_high_surrogate, is_low_surrogate in *.
    rewrite <- app_assoc, utf8_decode_code_point by (unfold scalar; lia). rewrite IH by done. unfold utf16.
    destruct (c <? 0x10000) eqn:E; [done|lia].
  - rewrite code_points_pair by done. cbn. rewrite Hc, Hd. cbn. intros Hs.
    destruct (surrogate_pair_scalar c d) as [Hsc Hu]; [done..|].
    rewrite <- app_assoc, utf8_decode_code_point, Hu by done. cbn. by rewrite IH.
Qed.

Lemma utf8_roundtrip s : well_formed s = true -> utf8_decode (utf8 s) = s.
Proof. intros Hs. pose proof (utf8_decode_app s [] Hs) as Hd. cbn in Hd. by rewrite !app_nil_r in Hd. Qed.

Lemma utf8_inj s t : well_formed s = true -> well_formed t = true -> utf8 s = utf8 t -> s = t.
Proof. intros Hs Ht Heq. by rewrite <- (utf8_roundtrip s), <- (utf8_roundtrip t), Heq. Qed.

(** ** What is printed is read back *)

Lemma hex_value_digit n : 0 <= n < 16 -> hex_value (hex_digit n) = Some n.
Proof.
  intros Hn. unfold hex_value, hex_digit. destruct (n <? 10) eqn:E.
  - destruct ((48 <=? _) && _) eqn:E1; [f_equal; lia|lia].
  - destruct ((48 <=? _) && _) eqn:E1; [lia|]. destruct ((97 <=? _) && _) eqn:E2; [f_equal; lia|lia].
Qed.

Lemma hex4_escape c : unit_ok c = true ->
  hex4 (hex_digit (c / 4096 mod 16)) (hex_digit (c / 256 mod 16)) (hex_digit (c / 16 mod 16)) (hex_digit (c mod 16)) = Some c.
Proof.
  unfold unit_ok, hex4. intros Hc. bool_facts. rewrite !hex_value_digit by (apply Z.mod_pos_bound; lia). cbn.
  f_equal. Z.to_euclidean_division_equations; lia.
Qed.

Definition prepend (u : jsstr) (x : option (jsstr * jsstr)) : option (jsstr * jsstr) :=
  (fun '(t, r) => (u ++ t, r)) <$> x.

Lemma parse_chars_plain c s : 32 <= c -> c <> 34 -> c <> 92 -> parse_chars (c :: s) = prepend [c] (parse_chars s).
Proof.
  intros H1 H2 H3. cbn. destruct (c =? 34) eqn:E1; [lia|]. destruct (c <? 32) eqn:E2; [lia|].
  destruct (c =? 92) eqn:E3; [lia|]. by destruct (parse_chars s) as [[t r]|].
Qed.

Lemma parse_chars_unit c s : unit_ok c = true -> parse_chars (quote_unit c ++ s) = prepend [c] (parse_chars s).
Proof.
  intros Hc. unfold quote_unit.
  repeat match goal with |- context [c =? ?k] => destruct (Z.eqb_spec c k) as [->|?];
    [cbn; by destruct (parse_chars s) as [[t r]|]|] end.
  destruct (_ || _) eqn:E.
  - cbn [unicode_escape app parse_chars]. rewrite hex4_escape by done.
    change (92 =? 34) with false. change (92 <? 32) with false. change (92 =? 92) with true. change (117 =? 117) with true.
    cbv iota. cbn. by destruct (parse_chars s) as [[t r]|].
  - cbn [app]. apply orb_false_iff in E as [[E _]%orb_false_iff _]. unfold unit_ok in Hc. apply parse_chars_plain; lia.
Qed.

Definition units_ok (s : jsstr) : bool := forallb unit_ok s.

Lemma parse_chars_quoted s r : units_ok s = true ->
  parse_chars (concat (quote_chars <$> code_points s) ++ 34 :: r) = Some (s, r).
Proof.
  unfold units_ok. induction s as [|c s Hcp IH|c d s Hc Hd IH] using code_points_nil_ind; [done| |].
  - rewrite Hcp. cbn [forallb fmap list_fmap concat quote_chars]. intros [Hu Hs]%andb_true_iff.
    rewrite <- app_assoc, parse_chars_unit, IH by done. done.
  - rewrite code_points_pair by done. cbn [forallb fmap list_fmap concat quote_chars app].
    intros [_ [_ Hs]%andb_true_iff]%andb_true_iff. unfold is_high_surrogate, is_low_surrogate in *. bool_facts.
    by rewrite !parse_chars_plain, IH by (lia || done).
Qed.

(** *** Numbers *)

Definition number_end (s : jsstr) : Prop := match s with c :: _ => c ∈ [44; 93; 125] | [] => True end.

Lemma parse_digits_app ds r acc : Forall (fun c => is_digit c = true) ds -> number_end r ->
  parse_digits (ds ++ r) acc = (foldl (fun acc c => 10 * acc + (c - 48)) acc ds, r).
Proof.
  intros Hds Hr. revert acc. induction Hds as [|c ds Hc _ IH]; intros acc; cbn.
  - destruct r as [|c r]; [done|]. cbn in Hr. cbn. replace (is_digit c) with false; [done|].
    apply list_elem_of_In in Hr. destruct Hr as [<-|[<-|[<-|[]]]]; done.
  - rewrite Hc. apply IH.
Qed.

Definition digits (n : N) : jsstr := js (pretty_N_go n EmptyString).

Lemma js_append a b : js (a +:+ b) = js a ++ js b.
Proof. induction a as [|c a IH]; [done|]. change (js (String c a +:+ b)) with (Z.of_N (Ascii.N_of_ascii c) :: js (a +:+ b)). by rewrite IH. Qed.

Lemma pretty_N_char_digit n : (n < 10)%N -> js (String (pretty_N_char n) EmptyString) = [48 + Z.of_N n].
Proof.
  intros Hn. assert (forallb (fun k => bool_decide (js (String (pretty_N_char (N.of_nat k)) EmptyString) = [48 + Z.of_nat k]))
    (seq 0 10) = true) as H by (vm_compute; reflexivity).
  rewrite forallb_true in H. specialize (H (N.to_nat n) ltac:(apply elem_of_seq; lia)). apply bool_decide_eq_true in H.
  rewrite N2Nat.id in H. rewrite H. do 2 f_equal. lia.
Qed.

Lemma string_snoc_app (a : string) c s : (a +:+ String c s)%string = ((a +:+ String c EmptyString) +:+ s)%string.
Proof.
  induction a as [|c' a IH]; [done|]. change (String c' a +:+ String c s)%string with (String c' (a +:+ String c s)).
  by rewrite IH.
Qed.

Lemma pretty_N_go_app n s : (pretty_N_go n s = pretty_N_go n EmptyString +:+ s)%string.
Proof.
  revert s. induction n as [n IH] using (well_founded_induction N.lt_wf_0); intros s. destruct (decide (n = 0)%N) as [->|Hn]; [done|].
  assert (n `div` 10 < n)%N as Hlt by (apply N.div_lt; lia).
  rewrite !(pretty_N_go_step n) by lia. rewrite (IH _ Hlt (String _ s)), (IH _ Hlt (String _ EmptyString)).
  by rewrite string_snoc_app.
Qed.

Lemma digits_step n : (0 < n)%N -> digits n = digits (n `div` 10) ++ [48 + Z.of_N (n `mod` 10)].
Proof.
  intros Hn. unfold digits. rewrite (pretty_N_go_step n) by done. rewrite pretty_N_go_app, js_append. f_equal.
  apply pretty_N_char_digit. by apply N.mod_lt.
Qed.

Lemma digits_value n : Forall (fun c => is_digit c = true) (digits n) /\
  foldl (fun acc c => 10 * acc + (c - 48)) 0 (digits n) = Z.of_N n /\
  ((0 < n)%N -> exists c ds, digits n = c :: ds /\ c <> 48).
Proof.
  induction n as [n IH] using (well_founded_induction N.lt_wf_0). destruct (decide (n = 0)%N) as [->|Hn].
  { repeat split; [constructor|lia]. }
  rewrite digits_step by lia. pose proof (N.mod_lt n 10 ltac:(done)). destruct (IH (n `div` 10)%N) as (H1 & H2 & H3); [apply N.div_lt; lia|].
  split_and!.
  - apply Forall_app. split; [done|]. apply Forall_singleton. unfold is_digit. generalize dependent (n `mod` 10)%N. intros m Hm. apply andb_true_intro. lia.
  - rewrite foldl_app, H2. cbn. pose proof (N.div_mod n 10 ltac:(done)). lia.
  - intros _. destruct (decide (n `div` 10 = 0)%N) as [E|E].
    + rewrite E. exists (48 + Z.of_N (n `mod` 10)), []. split; [done|]. pose proof (N.div_mod n 10 ltac:(done)). lia.
    + destruct H3 as (c & ds & -> & Hc); [by apply N.neq_0_lt_0|]. by eexists c, _.
Qed.

Lemma number_end_ends r : number_end r -> ends_number r = true.
Proof.
  destruct r as [|c r]; [done|]. cbn. intros Hc. apply negb_true_iff, bool_decide_eq_false.
  apply list_elem_of_In in Hc. destruct Hc as [<-|[<-|[<-|[]]]]; set_solver.
Qed.

Lemma parse_natural_print n r : number_end r -> parse_natural (js (pretty n) ++ r) = Some (Z.of_N n, r).
Proof.
  intros Hr. unfold pretty, pretty_N. destruct (decide (n = 0)%N) as [->|Hn].
  { cbn. by rewrite number_end_ends. }
  change (js (pretty_N_go n EmptyString)) with (digits n). destruct (digits_value n) as (Hd & Hv & Hc).
  destruct Hc as (c & ds & Hc & Hne); [lia|]. rewrite Hc in *. apply Forall_cons in Hd as [Hdc Hds].
  cbn. destruct (c =? 48) eqn:E; [lia|]. rewrite Hdc, parse_digits_app, number_end_ends by done.
  cbn in Hv. by rewrite <- Hv.
Qed.

Lemma parse_number_print n r : number_end r -> parse_number (print_number n ++ r) = Some (n, r).
Proof.
  intros Hr. unfold print_number. destruct n as [|p|p]; cbn [pretty pretty_Z].
  - cbn. by rewrite number_end_ends.
  - change (js _) with (js (pretty (N.pos p))). pose proof (parse_natural_print (N.pos p) r Hr) as H. unfold parse_number.
    destruct (js (pretty (N.pos p)) ++ r) as [|c s]; [done|]. destruct (c =? 45) eqn:E; [|done].
    apply Z.eqb_eq in E. by subst c.
  - change (js _) with ([45] ++ js (pretty (N.pos p))). cbn. by rewrite parse_natural_print.
Qed.

Lemma print_number_head n : exists c t, print_number n = c :: t /\ (c = 45 \/ is_digit c = true).
Proof.
  unfold print_number. destruct n as [|p|p]; [by eexists _, _; split; [|right]| |by eexists _, _; split; [|left]].
  change (js _) with (js (pretty (N.pos p))). unfold pretty, pretty_N. destruct (decide _); [done|].
  change (js _) with (digits (N.pos p)). destruct (digits_value (N.pos p)) as (Hd & _ & c & ds & Hc & _); [lia|].
  rewrite Hc in *. apply Forall_cons in Hd as [Hd _]. eauto.
Qed.

(** *** Values *)

(** What [JSON.parse] can return: no [undefined], and no name twice. *)
Fixpoint json_data (v : JsVal) : bool :=
  match v with
  | JUndefined => false
  | JNull | JBool _ | JNumber _ => true
  | JString s => units_ok s
  | JArray l => forallb json_data l
  | JObject props => forallb (fun kv => units_ok kv.1 && json_data kv.2) props && bool_decide (NoDup props.*1)
  end.

Definition text (v : JsVal) : jsstr := default [] (stringify v).

Fixpoint weight (v : JsVal) : nat :=
  match v with
  | JArray l => S (sum_list_with (fun x => S (weight x)) l)
  | JObject props => S (sum_list_with (fun kv => S (weight kv.2)) props)
  | _ => 1%nat
  end.

Lemma stringify_data v : json_data v = true -> stringify v = Some (text v).
Proof. by destruct v. Qed.

Lemma text_array l : forallb json_data l = true -> text (JArray l) = [91] ++ join [44] (text <$> l) ++ [93].
Proof.
  intros Hl. unfold text. cbn [stringify default from_option id]. do 3 f_equal. apply list_fmap_ext. intros i x Hx.
  rewrite forallb_true in Hl. unfold text. rewrite (stringify_data x); [done|]. apply Hl. by eapply list_elem_of_lookup_2.
Qed.

Definition member_text (kv : jsstr * JsVal) : jsstr := print_member (kv.1, text kv.2).

Lemma text_object props : forallb (fun kv => units_ok kv.1 && json_data kv.2) props = true ->
  text (JObject props) = [123] ++ join [44] (member_text <$> props) ++ [125].
Proof.
  intros Hp. unfold text. cbn [stringify default from_option id]. do 3 f_equal.
  induction props as [|[k x] props IH]; [done|]. cbn in Hp. apply andb_true_iff in Hp as [[_ Hx]%andb_true_iff Hp].
  rewrite (stringify_data x Hx). cbn. unfold member_text at 1. cbn. f_equal. by apply IH.
Qed.

Lemma text_head v : json_data v = true ->
  exists c t, text v = c :: t /\ is_json_space c = false /\ c <> 93 /\ c <> 125.
Proof.
  intros Hv. destruct v as [| |[]|n|s|l|props]; [done|by eexists _, _..| | | |].
  - destruct (print_number_head n) as (c & t & E & Hc). exists c, t. unfold text. cbn. split; [done|].
    assert (c = 45 \/ 48 <= c <= 57) as Hr by (unfold is_digit in Hc; lia). split; [|lia].
    apply bool_decide_eq_false. rewrite !elem_of_cons, elem_of_nil. lia.
  - by eexists _, _.
  - rewrite text_array by done. by eexists _, _.
  - cbn in Hv. apply andb_true_iff in Hv as [Hv _]. rewrite text_object by done. by eexists _, _.
Qed.

Lemma expect_cons c r : is_json_space c = false -> expect c (c :: r) = Some r.
Proof. intros Hc. unfold expect. cbn. rewrite Hc. by rewrite Z.eqb_refl. Qed.

Lemma expect_other c c' r : is_json_space c' = false -> c' <> c -> expect c (c' :: r) = None.
Proof. intros Hc Hne. unfold expect. cbn. rewrite Hc. destruct (c' =? c) eqn:E; [lia|done]. Qed.

Definition reads_back (v : JsVal) : Prop :=
  json_data v = true -> forall n r, (weight v <= n)%nat -> number_end r -> parse_value n (text v ++ r) = Some (v, r).

Lemma parse_items_text l r n : l <> [] -> Forall reads_back l -> forallb json_data l = true ->
  (sum_list_with (fun x => S (weight x)) l <= n)%nat ->
  parse_items n (join [44] (text <$> l) ++ 93 :: r) = Some (l, r).
Proof.
  intros Hne Hl. revert n Hne. induction Hl as [|v l Hv _ IH]; intros n Hne Hd Hn; [done|].
  cbn in Hd. apply andb_true_iff in Hd as [Hdv Hd]. cbn in Hn. destruct n as [|n]; [lia|]. cbn [parse_items].
  destruct l as [|v' l].
  - cbn [fmap list_fmap join]. rewrite Hv; [|done|lia|cbn; set_solver]. cbn. done.
  - rewrite fmap_cons, join_cons, <- !app_assoc by done.
    rewrite Hv; [|done|lia|cbn; set_solver]. cbn [mbind option_bind]. cbn [app]. rewrite expect_cons by done.
    by rewrite IH by (done || cbn in *; lia).
Qed.

Lemma parse_members_text props acc r n : props <> [] -> Forall (fun kv => reads_back kv.2) props ->
  forallb (fun kv => units_ok kv.1 && json_data kv.2) props = true -> NoDup (acc ++ props).*1 ->
  (sum_list_with (fun kv => S (weight kv.2)) props <= n)%nat ->
  parse_members n (join [44] (member_text <$> props) ++ 125 :: r) acc = Some (acc ++ props, r).
Proof.
  intros Hne Hl. revert acc n Hne. induction Hl as [|[k v] props Hv _ IH]; intros acc n Hne Hd Hnd Hn; [done|].
  cbn in Hd. apply andb_true_iff in Hd as [[Hk Hdv]%andb_true_iff Hd]. cbn in Hn. destruct n as [|n]; [lia|].
  cbn [snd] in Hv. assert (rec_define acc k v = acc ++ [(k, v)]) as Hdef.
  { apply rec_define_fresh. rewrite fmap_app in Hnd. apply NoDup_app in Hnd as (_ & Hk' & _). intros Hin.
    apply (Hk' k Hin). cbn. set_solver. }
  assert (forall r', number_end r' -> parse_members (S n) (member_text (k, v) ++ r') acc =
    match expect 44 r' with
    | Some r3 => parse_members n r3 (acc ++ [(k, v)])
    | None => r3 ← expect 125 r'; Some (acc ++ [(k, v)], r3)
    end) as Hstep.
  { intros r' Hr'. unfold member_text, print_member, quote_json. cbn [fst snd]. rewrite <- !app_assoc. cbn [app parse_members].
    rewrite expect_cons by done. cbn [mbind option_bind]. rewrite parse_chars_quoted by done. cbn [mbind option_bind].
    rewrite expect_cons by done. cbn [mbind option_bind]. rewrite Hv by (done || cbn in *; lia). cbn [mbind option_bind].
    by rewrite Hdef. }
  destruct props as [|kv props].
  - cbn [fmap list_fmap join]. rewrite Hstep by (cbn; set_solver). cbn. done.
  - rewrite fmap_cons, join_cons, <- !app_assoc by done. rewrite Hstep by (cbn; set_solver). cbn [app].
    rewrite expect_cons by done. rewrite IH; [by rewrite <- app_assoc|done|done| |cbn in *; lia].
    by rewrite <- app_assoc.
Qed.

Lemma join_head sep x l t : exists t', join sep (x :: l) ++ t = x ++ t'.
Proof. destruct l as [|y l]; [by exists t|]. rewrite join_cons by done. exists (sep ++ join sep (y :: l) ++ t). by rewrite <- !app_assoc. Qed.

Lemma parse_value_text v : reads_back v.
Proof.
  induction v as [| |b|z|s|l IH|props IH] using JsVal_nested_ind; intros Hd n r Hn Hr;
    (destruct n as [|n]; [cbn in Hn; lia|]); [done|done|by destruct b| | | |].
  - unfold text. cbn [stringify default from_option id]. destruct (print_number_head z) as (c & t & E & Hc).
    pose proof (parse_number_print z r Hr) as Hp. rewrite E in *. cbn [app] in *. cbn [parse_value].
    assert (c = 45 \/ 48 <= c <= 57) as Hcr by (unfold is_digit in Hc; lia).
    assert (is_json_space c = false) as Hs by (apply bool_decide_eq_false; rewrite !elem_of_cons, elem_of_nil; lia).
    cbn [skip_space]. rewrite Hs. repeat match goal with |- context [c =? ?k] => destruct (Z.eqb_spec c k); [lia|] end.
    by rewrite Hp.
  - cbn in Hd. unfold text. cbn [stringify default from_option id]. unfold quote_json. rewrite <- !app_assoc.
    cbn [app parse_value skip_space]. change (is_json_space 34) with false. cbv iota. change (34 =? 34) with true. cbv iota.
    by rewrite parse_chars_quoted.
  - cbn in Hd. rewrite text_array, <- !app_assoc by done. cbn [app parse_value skip_space]. change (is_json_space 91) with false.
    cbv iota. change (91 =? 34) with false. change (91 =? 91) with true. cbv iota. destruct l as [|v l]; [done|].
    rewrite parse_items_text by (done || cbn in *; lia). cbn [forallb] in Hd. apply andb_true_iff in Hd as [Hv Hd].
    destruct (text_head v Hv) as (c & t & Ht & Hs & H93 & _). rewrite fmap_cons.
    destruct (join_head [44] (text v) (text <$> l) (93 :: r)) as [t' ->]. rewrite Ht. cbn [app].
    by rewrite expect_other.
  - cbn in Hd. apply andb_true_iff in Hd as [Hd Hnd]. apply bool_decide_eq_true in Hnd.
    rewrite text_object, <- !app_assoc by done. cbn [app parse_value skip_space]. change (is_json_space 123) with false.
    cbv iota. change (123 =? 34) with false. change (123 =? 91) with false. change (123 =? 123) with true. cbv iota.
    destruct props as [|[k v] props]; [done|]. rewrite parse_members_text by (done || cbn in *; lia).
    rewrite fmap_cons. destruct (join_head [44] (member_text (k, v)) (member_text <$> props) (125 :: r)) as [t' ->].
    unfold member_text at 1, print_member, quote_json. cbn [app]. by rewrite expect_other.
Qed.

Lemma length_join_texts {A} (f : A -> jsstr) (w : A -> nat) l : l <> [] ->
  Forall (fun x => (w x <= length (f x))%nat) l -> (sum_list_with (fun x => S (w x)) l <= S (length (join [44%Z] (f <$> l))))%nat.
Proof.
  intros Hne Hl. induction Hl as [|x l Hx _ IH]; [done|]. destruct l as [|y l]; [cbn; lia|].
  rewrite fmap_cons, join_cons, !length_app by done. specialize (IH ltac:(done)). cbn in *. lia.
Qed.

Lemma weight_length v : json_data v = true -> (weight v <= length (text v))%nat.
Proof.
  induction v as [| |b|z|s|l IH|props IH] using JsVal_nested_ind; intros Hd; [done|cbn; lia|destruct b; cbn; lia| | | |].
  - destruct (text_head (JNumber z) Hd) as (c & t & -> & _). cbn. lia.
  - destruct (text_head (JString s) Hd) as (c & t & -> & _). cbn. lia.
  - cbn in Hd. rewrite text_array, !length_app by done. destruct l as [|v l]; [cbn; lia|].
    cbn [weight]. pose proof (length_join_texts text weight (v :: l) ltac:(done)) as Hlen. cbn [length].
    assert (Forall (fun x => (weight x <= length (text x))%nat) (v :: l)) as Hall.
    { rewrite Forall_forall in IH |- *. rewrite forallb_true in Hd. eauto. }
    specialize (Hlen Hall). lia.
  - cbn in Hd. apply andb_true_iff in Hd as [Hd _]. rewrite text_object, !length_app by done.
    destruct props as [|kv props]; [cbn; lia|]. cbn [weight].
    pose proof (length_join_texts member_text (fun kv => weight kv.2) (kv :: props) ltac:(done)) as Hlen. cbn [length].
    assert (Forall (fun kv => (weight kv.2 <= length (member_text kv))%nat) (kv :: props)) as Hall.
    { rewrite Forall_forall in IH |- *. rewrite forallb_true in Hd. intros x Hx. specialize (Hd x Hx).
      apply andb_true_iff in Hd as [_ Hd]. specialize (IH x Hx Hd). unfold member_text, print_member. cbn [fst snd].
      rewrite !length_app. cbn [length]. lia. }
    specialize (Hlen Hall). lia.
Qed.

Lemma parse_text v : json_data v = true -> parse (text v) = Some v.
Proof.
  intros Hv. unfold parse. pose proof (parse_value_text v Hv (S (length (text v))) [] ) as H. rewrite app_nil_r in H.
  rewrite H; [done| |done]. pose proof (weight_length v Hv). lia.
Qed.

(** *** Printed texts have no lone surrogate *)

Lemma code_points_cons c s : is_high_surrogate c = false -> code_points (c :: s) = [c] :: code_points s.
Proof. intros Hc. cbn. rewrite Hc. by destruct s. Qed.

Lemma code_points_app a b : well_formed a = true -> code_points (a ++ b) = code_points a ++ code_points b.
Proof.
  unfold well_formed. induction a as [|c s Hcp IH|c d s Hc Hd IH] using code_points_nil_ind; [done| |].
  - rewrite Hcp. cbn [forallb]. intros [Hw Hs]%andb_true_iff. cbn in Hw. apply andb_true_iff in Hw as [[_ Hh]%andb_true_iff _].
    apply negb_true_iff in Hh. cbn [app]. rewrite code_points_cons, IH by done. done.
  - rewrite code_points_pair by done. cbn [forallb]. intros [_ Hs]%andb_true_iff. cbn [app].
    rewrite code_points_pair, IH by done. done.
Qed.

Lemma well_formed_app a b : well_formed a = true -> well_formed b = true -> well_formed (a ++ b) = true.
Proof. intros Ha Hb. unfold well_formed. rewrite code_points_app, forallb_app by done. by apply andb_true_intro. Qed.

Lemma utf8_app a b : well_formed a = true -> utf8 (a ++ b) = utf8 a ++ utf8 b.
Proof. intros Ha. unfold utf8. by rewrite code_points_app, fmap_app, concat_app. Qed.

Lemma well_formed_unit c s : unit_ok c = true -> is_high_surrogate c = false -> is_low_surrogate c = false ->
  well_formed s = true -> well_formed (c :: s) = true.
Proof. intros Hu Hh Hl Hs. unfold well_formed. rewrite code_points_cons by done. cbn. by rewrite Hu, Hh, Hl. Qed.

Lemma well_formed_ascii s : forallb (fun c => (0 <=? c) && (c <? 128)) s = true -> well_formed s = true.
Proof.
  induction s as [|c s IH]; [done|]. cbn. intros [Hc Hs]%andb_true_iff.
  apply well_formed_unit; [unfold unit_ok, is_high_surrogate, is_low_surrogate; lia..|by apply IH].
Qed.

Lemma well_formed_join sep l : well_formed sep = true -> (forall t, t ∈ l -> well_formed t = true) -> well_formed (join sep l) = true.
Proof.
  intros Hsep. induction l as [|t l IH]; intros Hl; [done|]. destruct l as [|t' l]; [apply Hl; set_solver|].
  rewrite join_cons by done. apply well_formed_app; [apply Hl; set_solver|]. apply well_formed_app; [done|]. apply IH. set_solver.
Qed.

Lemma hex_digit_ascii n : (0 <=? hex_digit (n mod 16)) && (hex_digit (n mod 16) <? 128) = true.
Proof. unfold hex_digit. pose proof (Z.mod_pos_bound n 16). case_match; lia. Qed.

Lemma well_formed_quote s : units_ok s = true -> well_formed (quote_json s) = true.
Proof.
  intros Hs. unfold quote_json. apply well_formed_app; [done|]. apply well_formed_app; [|done].
  unfold units_ok in Hs. induction s as [|c s Hcp IH|c d s Hc Hd IH] using code_points_nil_ind; [done| |].
  - rewrite Hcp. cbn in Hs. apply andb_true_iff in Hs as [Hu Hs]. cbn [fmap list_fmap concat quote_chars].
    apply well_formed_app; [|by apply IH]. unfold quote_unit.
    repeat match goal with |- context [c =? ?k] => destruct (Z.eqb_spec c k); [done|] end.
    destruct (_ || _) eqn:E.
    + apply well_formed_ascii. cbn [unicode_escape forallb]. rewrite !hex_digit_ascii. done.
    + apply orb_false_iff in E as [[E1 E2]%orb_false_iff E3]. by apply well_formed_unit.
  - rewrite code_points_pair by done. cbn in Hs. rewrite !andb_true_iff in Hs. cbn [fmap list_fmap concat quote_chars].
    apply well_formed_app; [|apply IH; tauto]. unfold well_formed. rewrite code_points_pair by done. cbn. by rewrite Hc, Hd.
Qed.

Lemma print_number_ascii z : forallb (fun c => (0 <=? c) && (c <? 128)) (print_number z) = true.
Proof.
  assert (forall n, forallb (fun c => (0 <=? c) && (c <? 128)) (js (pretty (N.pos n))) = true) as Hpos.
  { intros n. unfold pretty, pretty_N. destruct (decide _); [done|]. change (js _) with (digits (N.pos n)).
    destruct (digits_value (N.pos n)) as (Hd & _ & _). apply forallb_true. intros c Hc.
    rewrite Forall_forall in Hd. specialize (Hd c Hc). unfold is_digit in Hd. lia. }
  unfold print_number. destruct z as [|p|p]; [done|apply Hpos|]. change (js _) with ([45] ++ js (pretty (N.pos p))).
  by rewrite forallb_app, Hpos.
Qed.

Lemma well_formed_text v : json_data v = true -> well_formed (text v) = true.
Proof.
  induction v as [| |b|z|s|l IH|props IH] using JsVal_nested_ind; intros Hd; [done|done|by destruct b| | | |].
  - apply well_formed_ascii, print_number_ascii.
  - by apply well_formed_quote.
  - cbn in Hd. rewrite text_array by done. apply well_formed_app; [done|]. apply well_formed_app; [|done].
    apply well_formed_join; [done|]. intros t (x & -> & Hx)%list_elem_of_fmap. rewrite Forall_forall in IH. rewrite forallb_true in Hd. eauto.
  - cbn in Hd. apply andb_true_iff in Hd as [Hd _]. rewrite text_object by done. apply well_formed_app; [done|].
    apply well_formed_app; [|done]. apply well_formed_join; [done|]. intros t ([k x] & -> & Hx)%list_elem_of_fmap.
    rewrite Forall_forall in IH. rewrite forallb_true in Hd. specialize (Hd _ Hx). apply andb_true_iff in Hd as [Hk Hx'].
    unfold member_text, print_member. cbn [fst snd]. apply well_formed_app; [by apply well_formed_quote|].
    apply well_formed_app; [done|]. by apply (IH (k, x)).
Qed.

(** A document of the given data survives printing, encoding as UTF-8, decoding and parsing;
    lone surrogates in its strings included. *)
Theorem json_roundtrip v : json_data v = true -> parse (utf8_decode (utf8 (text v))) = Some v.
Proof. intros Hv. rewrite utf8_roundtrip by by apply well_formed_text. by apply parse_text. Qed.

End Json.
