(* ===== verification/Tokens.v ===== *)
(** Signed tokens (turbo/apps/api/src/signals/auth/tokens.ts and
    routes/agent-webhook-auth.ts): the tokens of sandboxes, agents and the command line, which
    are JSON documents with a keyed hash, their schemas and the capabilities an agent gets. *)

From S2P Require Import Prelude JsString JsValue JsRecord Bytes Json FeatureSwitches.
Import Bytes FeatureSwitches Json.

Module Tokens.

(** The keyed hash, with the key derived from the master key; the decoder of base64url; the
    check of identifiers by the schema library. *)
Class TokenRuntime := {
  hmac_sha256 : list Z -> list Z;
  base64url_decode : jsstr -> list Z;
  is_uuid : jsstr -> bool }.

Definition is_byte (b : Z) : bool := (0 <=? b) && (b <=? 255).

(** ** Encoding *)

Definition url_safe (c : Z) : Z := if c =? 43 then 45 else if c =? 47 then 95 else c.

(** [buffer.toString("base64url")]: the other two symbols, no padding. *)
Definition base64url (bytes : list Z) : jsstr := url_safe <$> filter (fun c => c <> 61) (base64 bytes).

Class TokenLaws `{TokenRuntime} := {
  hmac_bytes : forall data, forallb is_byte (hmac_sha256 data) = true;
  hmac_length : forall data, length (hmac_sha256 data) = 32%nat;
  base64url_decode_encode : forall bytes, forallb is_byte bytes = true -> base64url_decode (base64url bytes) = bytes }.

(** A text is encoded as UTF-8 first. *)
Definition base64UrlEncode (text : jsstr) : jsstr := base64url (utf8 text).

(** ** Payloads and their schemas *)

Definition SANDBOX_TOKEN_PREFIX : jsstr := js "vm0_sandbox_".
Definition PAT_TOKEN_PREFIX : jsstr := js "vm0_pat_".

(** packages/api-contracts/src/contracts/composes.ts *)
Definition ZERO_CAPABILITIES : list jsstr :=
  [js "agent:read"; js "agent:write"; js "agent:delete"; js "agent-run:read"; js "agent-run:write";
   js "automation:read"; js "automation:write"; js "automation:delete"; js "github:read"; js "github:write";
   js "slack:write"; js "phone:read"; js "phone:write"; js "telegram:read"; js "telegram:write";
   js "chat-message:read"; js "connector:read"; js "billing:read"; js "billing:write"; js "banking:read";
   js "maps:read"; js "computer-use:write"; js "file:read"; js "file:write"; js "host:read"; js "host:write"].

Definition CONDITIONAL_CAPABILITIES : list (jsstr * jsstr) :=
  [(js "computer-use:write", js "computerUse"); (js "banking:read", js "banking")].

Definition AGENT_EXCLUDED_CAPABILITIES : list jsstr :=
  [js "automation:delete"; js "agent-run:write"; js "agent:delete"].

Inductive JwtPayload :=
| SandboxPayload (userId runId orgId : jsstr) (iat exp : Z)
| ZeroPayload (userId runId orgId : jsstr) (capabilities : list jsstr) (computerUseHostId : option jsstr) (iat exp : Z)
| CliPayload (userId orgId tokenId : jsstr) (iat exp : Z)
| ComposeJobPayload (userId jobId : jsstr) (iat exp : Z).

(** The object, its members in the order of the source. *)
Definition payload_members (p : JwtPayload) : list (jsstr * JsVal) :=
  match p with
  | SandboxPayload userId runId orgId iat exp =>
      [(js "scope", JString (js "sandbox")); (js "userId", JString userId); (js "runId", JString runId);
       (js "orgId", JString orgId); (js "iat", JNumber iat); (js "exp", JNumber exp)]
  | ZeroPayload userId runId orgId capabilities computerUseHostId iat exp =>
      [(js "scope", JString (js "zero")); (js "userId", JString userId); (js "runId", JString runId);
       (js "orgId", JString orgId); (js "capabilities", JArray (JString <$> capabilities))] ++
      match computerUseHostId with Some h => [(js "computerUseHostId", JString h)] | None => [] end ++
      [(js "iat", JNumber iat); (js "exp", JNumber exp)]
  | CliPayload userId orgId tokenId iat exp =>
      [(js "scope", JString (js "cli")); (js "userId", JString userId); (js "orgId", JString orgId);
       (js "tokenId", JString tokenId); (js "iat", JNumber iat); (js "exp", JNumber exp)]
  | ComposeJobPayload userId jobId iat exp =>
      [(js "scope", JString (js "compose-job")); (js "userId", JString userId); (js "jobId", JString jobId);
       (js "iat", JNumber iat); (js "exp", JNumber exp)]
  end.

(** [z.object(..)]: the members of an object. *)
Definition as_object (v : JsVal) : option (list (jsstr * JsVal)) := match v with JObject props => Some props | _ => None end.

(** [z.string().min(1)], [z.string()], [z.number()], [z.literal(word)]. *)
Definition nonempty_string (v : JsVal) : option jsstr := match v with JString (c :: s) => Some (c :: s) | _ => None end.
Definition a_string (v : JsVal) : option jsstr := as_string v.
Definition a_number (v : JsVal) : option Z := match v with JNumber n => Some n | _ => None end.
Definition literal (word : jsstr) (v : JsVal) : option unit := if bool_decide (v = JString word) then Some tt else None.

Record JwtBase := { jb_userId : jsstr; jb_scope : jsstr; jb_iat : Z; jb_exp : Z }.

Definition jwtBaseSchema (v : JsVal) : option JwtBase :=
  o ← as_object v; userId ← nonempty_string (prop_of o (js "userId")); scope ← a_string (prop_of o (js "scope"));
  iat ← a_number (prop_of o (js "iat")); exp ← a_number (prop_of o (js "exp"));
  Some {| jb_userId := userId; jb_scope := scope; jb_iat := iat; jb_exp := exp |}.

Record SandboxAuth := { sa_userId : jsstr; sa_runId : jsstr; sa_orgId : jsstr }.
Record ZeroAuth := {
  ze_userId : jsstr; ze_runId : jsstr; ze_orgId : jsstr; ze_capabilities : list jsstr; ze_computerUseHostId : option jsstr }.
Record CliAuth := { cl_userId : jsstr; cl_orgId : jsstr; cl_tokenId : jsstr }.
Record ComposeJobAuth := { cj_userId : jsstr; cj_jobId : jsstr }.

Definition sandboxTokenPayloadSchema (v : JsVal) : option SandboxAuth :=
  base ← jwtBaseSchema v; o ← as_object v; _ ← literal (js "sandbox") (prop_of o (js "scope"));
  runId ← nonempty_string (prop_of o (js "runId")); orgId ← nonempty_string (prop_of o (js "orgId"));
  Some {| sa_userId := jb_userId base; sa_runId := runId; sa_orgId := orgId |}.

Definition zeroCapabilitySchema (v : JsVal) : option jsstr :=
  s ← as_string v; if bool_decide (s ∈ ZERO_CAPABILITIES) then Some s else None.

Definition zeroCapabilities (v : JsVal) : option (list jsstr) :=
  match v with JArray l => mapM zeroCapabilitySchema l | _ => None end.

Section Runtime.
Context `{TokenRuntime}.

(** [None] fails, [Some None] is an absent identifier. *)
Definition optional_uuid (v : JsVal) : option (option jsstr) :=
  match v with
  | JUndefined => Some None
  | JString s => if is_uuid s then Some (Some s) else None
  | _ => None
  end.

Definition zeroTokenPayloadSchema (v : JsVal) : option ZeroAuth :=
  base ← jwtBaseSchema v; o ← as_object v; _ ← literal (js "zero") (prop_of o (js "scope"));
  runId ← nonempty_string (prop_of o (js "runId")); orgId ← nonempty_string (prop_of o (js "orgId"));
  capabilities ← zeroCapabilities (prop_of o (js "capabilities"));
  computerUseHostId ← optional_uuid (prop_of o (js "computerUseHostId"));
  Some {| ze_userId := jb_userId base; ze_runId := runId; ze_orgId := orgId; ze_capabilities := capabilities;
          ze_computerUseHostId := computerUseHostId |}.

Definition cliTokenPayloadSchema (v : JsVal) : option CliAuth :=
  base ← jwtBaseSchema v; o ← as_object v; _ ← literal (js "cli") (prop_of o (js "scope"));
  orgId ← nonempty_string (prop_of o (js "orgId")); tokenId ← nonempty_string (prop_of o (js "tokenId"));
  Some {| cl_userId := jb_userId base; cl_orgId := orgId; cl_tokenId := tokenId |}.

Definition composeJobTokenPayloadSchema (v : JsVal) : option ComposeJobAuth :=
  base ← jwtBaseSchema v; o ← as_object v; _ ← literal (js "compose-job") (prop_of o (js "scope"));
  jobId ← nonempty_string (prop_of o (js "jobId"));
  Some {| cj_userId := jb_userId base; cj_jobId := jobId |}.

(** ** Signing and verification *)

Definition jwt_header : list (jsstr * JsVal) := [(js "alg", JString (js "HS256")); (js "typ", JString (js "JWT"))].

Definition signing_input (p : JwtPayload) : jsstr :=
  base64UrlEncode (json_text jwt_header) ++ js "." ++ base64UrlEncode (json_text (payload_members p)).

Definition signJwt (p : JwtPayload) : jsstr :=
  let data := signing_input p in
  data ++ js "." ++ base64url (hmac_sha256 (utf8 data)).

Definition seconds (now : Z) : Z := now / 1000.

(** [JNull] is [null]. *)
Definition verifyJwtPayload (now : Z) (rawJwt : jsstr) : JsVal :=
  match split_on 46 rawJwt with
  | [headerEncoded; payloadEncoded; signatureEncoded] =>
      if bool_decide (headerEncoded = []) || bool_decide (payloadEncoded = []) || bool_decide (signatureEncoded = []) then JNull
      else
        let data := headerEncoded ++ js "." ++ payloadEncoded in
        let expectedSignature := hmac_sha256 (utf8 data) in
        let actualSignature := base64url_decode signatureEncoded in
        if negb (bool_decide (expectedSignature = actualSignature)) then JNull
        else
          match parse (utf8_decode (base64url_decode payloadEncoded)) with
          | None => JNull
          | Some parsed =>
              match jwtBaseSchema parsed with
              | None => JNull
              | Some base => if jb_exp base <? seconds now then JNull else parsed
              end
          end
  | _ => JNull
  end.

Definition verifyPrefixedToken (now : Z) (token prefix : jsstr) : JsVal :=
  if negb (starts_with token prefix) then JNull else verifyJwtPayload now (drop (length prefix) token).

Definition isSandboxToken (token : jsstr) : bool := starts_with token SANDBOX_TOKEN_PREFIX.
Definition isPatToken (token : jsstr) : bool := starts_with token PAT_TOKEN_PREFIX.

Definition verifySandboxToken (now : Z) (token : jsstr) : option SandboxAuth :=
  sandboxTokenPayloadSchema (verifyPrefixedToken now token SANDBOX_TOKEN_PREFIX).
Definition verifyZeroToken (now : Z) (token : jsstr) : option ZeroAuth :=
  zeroTokenPayloadSchema (verifyPrefixedToken now token SANDBOX_TOKEN_PREFIX).
Definition verifyComposeJobToken (now : Z) (token : jsstr) : option ComposeJobAuth :=
  composeJobTokenPayloadSchema (verifyPrefixedToken now token SANDBOX_TOKEN_PREFIX).
Definition verifyCliToken (now : Z) (token : jsstr) : option CliAuth :=
  cliTokenPayloadSchema (verifyPrefixedToken now token PAT_TOKEN_PREFIX).

(** ** Tokens the server issues *)

Definition generateSandboxToken (now : Z) (userId runId orgId : jsstr) : jsstr :=
  let nowSeconds := seconds now in
  SANDBOX_TOKEN_PREFIX ++ signJwt (SandboxPayload userId runId orgId nowSeconds (nowSeconds + 2 * 60 * 60)).

Definition generateCliToken (now : Z) (userId orgId tokenId : jsstr) : jsstr :=
  let nowSeconds := seconds now in
  PAT_TOKEN_PREFIX ++ signJwt (CliPayload userId orgId tokenId nowSeconds (nowSeconds + 90 * 24 * 60 * 60)).

Definition truthy_text (o : option jsstr) : option jsstr := match o with Some [] => None | _ => o end.

Section Switches.
Context `{Platform}.

(** One turn of the loop over [ZERO_CAPABILITIES]. *)
Definition grants_capability (userId orgId : jsstr) (overrides : option (Rec bool)) (computerUseHostId : option jsstr)
    (capability : jsstr) : bool :=
  if bool_decide (capability = js "computer-use:write") && negb (bool_decide (is_Some (truthy_text computerUseHostId))) then false
  else if bool_decide (capability ∈ AGENT_EXCLUDED_CAPABILITIES) then false
  else match rec_own CONDITIONAL_CAPABILITIES capability with
       | None => true
       | Some flag => isFeatureEnabled flag
           {| ctx_userId := Some userId; ctx_email := None; ctx_orgId := Some orgId; ctx_overrides := overrides |}
       end.

Definition zero_capabilities (userId orgId : jsstr) (overrides : option (Rec bool)) (computerUseHostId : option jsstr) : list jsstr :=
  filter (fun c => grants_capability userId orgId overrides computerUseHostId c = true) ZERO_CAPABILITIES.

Definition zero_payload (now : Z) (userId runId orgId : jsstr) (overrides : option (Rec bool))
    (computerUseHostId : option jsstr) : JwtPayload :=
  let nowSeconds := seconds now in
  let capabilities := zero_capabilities userId orgId overrides computerUseHostId in
  ZeroPayload userId runId orgId capabilities
    (if bool_decide (js "computer-use:write" ∈ capabilities) then truthy_text computerUseHostId else None)
    nowSeconds (nowSeconds + 2 * 60 * 60).

Definition generateZeroToken (now : Z) (userId runId orgId : jsstr) (overrides : option (Rec bool))
    (computerUseHostId : option jsstr) : jsstr :=
  SANDBOX_TOKEN_PREFIX ++ signJwt (zero_payload now userId runId orgId overrides computerUseHostId).

End Switches.

(** ** The tokens of webhooks (agent-webhook-auth.ts) *)

Definition BEARER : jsstr := js "Bearer ".

Definition getSandboxAuthForRun (now : Z) (expectedRunId : jsstr) (authHeader : option jsstr) : option SandboxAuth :=
  match authHeader with
  | None => None
  | Some authHeader =>
      if negb (starts_with authHeader BEARER) then None
      else
        let token := drop (length BEARER) authHeader in
        if negb (isSandboxToken token) then None
        else
          match verifySandboxToken now token with
          | Some auth => if bool_decide (sa_runId auth = expectedRunId) then Some auth else None
          | None => None
          end
  end.

End Runtime.

(** ** What the encodings produce *)

Lemma sextet_alphabet n : sextet n ∈ BASE64_ALPHABET.
Proof.
  unfold sextet. destruct (BASE64_ALPHABET !! Z.to_nat n) as [c|] eqn:E; cbn; [by eapply list_elem_of_lookup_2|].
  apply (bool_decide_unpack _). by vm_compute.
Qed.

Lemma base64_alphabet c bytes : c ∈ base64 bytes -> c ∈ BASE64_ALPHABET \/ c = 61.
Proof.
  remember (length bytes) as n eqn:Hn. assert (length bytes <= n)%nat as Hle by lia. clear Hn. revert bytes Hle.
  induction n as [|n IH]; intros [|a [|b [|d rest]]] Hle; simpl in Hle; try lia; cbn [base64 app]; intros Hc;
    repeat (apply elem_of_cons in Hc as [->|Hc]; [by (left; apply sextet_alphabet) || by right|]);
    try by apply elem_of_nil in Hc.
  apply (IH rest); [lia|done].
Qed.

Lemma alphabet_url_safe c : c ∈ BASE64_ALPHABET -> url_safe c <> 46 /\ c <> 61.
Proof.
  intros Hc. assert (forallb (fun c => negb (url_safe c =? 46) && negb (c =? 61)) BASE64_ALPHABET = true) as H by (vm_compute; reflexivity).
  rewrite forallb_true in H. specialize (H c Hc). lia.
Qed.

Lemma base64url_dot bytes : 46 ∉ base64url bytes.
Proof.
  unfold base64url. intros (c & Hc & Hin)%list_elem_of_fmap. apply list_elem_of_filter in Hin as [Hne Hin].
  apply base64_alphabet in Hin as [Hin|Hin]; [|done]. by apply alphabet_url_safe in Hin as [? _].
Qed.

Lemma base64url_nonempty bytes : bytes <> [] -> base64url bytes <> [].
Proof.
  intros Hb Hn. unfold base64url in Hn. apply fmap_nil_iff in Hn. rewrite filter_nil_iff in Hn.
  destruct bytes as [|a l]; [done|].
  assert (sextet (Z.shiftr a 2) ∈ base64 (a :: l)) as Hin by (destruct l as [|b [|c l]]; cbn [base64 app]; set_solver).
  apply (Hn _ Hin). apply alphabet_url_safe, sextet_alphabet.
Qed.

Lemma utf8_code_point_is_byte cp : scalar cp -> forallb is_byte (utf8_code_point cp) = true.
Proof.
  intros Hs. rewrite utf8_code_point_bytes by done. destruct Hs as [Hr _]. unfold is_byte.
  repeat case_match; cbn; rewrite !andb_true_iff; repeat split; Z.to_euclidean_division_equations; lia.
Qed.

Lemma utf8_bytes s : well_formed s = true -> forallb is_byte (utf8 s) = true.
Proof.
  unfold well_formed, utf8. induction s as [|c s Hcp IH|c d s Hc Hd IH] using code_points_nil_ind; [done| |].
  - rewrite Hcp. cbn. intros [Hw Hs]%andb_true_iff. rewrite !andb_true_iff in Hw.
    unfold unit_ok, is_high_surrogate, is_low_surrogate in *.
    rewrite forallb_app, utf8_code_point_is_byte by (unfold scalar; lia). by apply IH.
  - rewrite code_points_pair by done. cbn. rewrite Hc, Hd. cbn. intros Hs. rewrite forallb_app.
    destruct (surrogate_pair_scalar c d) as [Hsc _]; [done..|]. rewrite utf8_code_point_is_byte by done. by apply IH.
Qed.

Lemma utf8_text_nonempty s : s <> [] -> utf8 s <> [].
Proof.
  destruct s as [|c s]; [done|]. intros _. unfold utf8.
  assert (exists ch rest, code_points (c :: s) = ch :: rest /\ exists cp, code_point_at0 ch = Some cp) as (ch & rest & -> & cp & Hcp).
  { cbn. destruct s as [|d s]; [by eexists _, _; split; [|eexists]|].
    destruct (is_high_surrogate c && is_low_surrogate d) eqn:E; eexists _, _; (split; [done|]); cbn; rewrite ?E; eauto. }
  cbn. rewrite Hcp. cbn. intros [H _]%app_nil_iff. by apply utf8_code_point_nonempty in H.
Qed.

(** ** Signed payloads verify *)

Definition payload_exp (p : JwtPayload) : Z :=
  match p with
  | SandboxPayload _ _ _ _ exp | ZeroPayload _ _ _ _ _ _ exp | CliPayload _ _ _ _ exp | ComposeJobPayload _ _ _ exp => exp
  end.

Definition id_ok (s : jsstr) : bool := units_ok s && negb (bool_decide (s = [])).

Section Laws.
Context `{TokenLaws}.

(** Identifiers are texts, and not empty; an identifier of a desktop is one. *)
Definition payload_ok (p : JwtPayload) : bool :=
  match p with
  | SandboxPayload userId runId orgId _ _ => id_ok userId && id_ok runId && id_ok orgId
  | ZeroPayload userId runId orgId capabilities host _ _ =>
      id_ok userId && id_ok runId && id_ok orgId && forallb (fun c => bool_decide (c ∈ ZERO_CAPABILITIES)) capabilities &&
      match host with Some h => units_ok h && is_uuid h | None => true end
  | CliPayload userId orgId tokenId _ _ => id_ok userId && id_ok orgId && id_ok tokenId
  | ComposeJobPayload userId jobId _ _ => id_ok userId && id_ok jobId
  end.

Lemma capability_units c : c ∈ ZERO_CAPABILITIES -> units_ok c = true.
Proof.
  intros Hc. assert (forallb units_ok ZERO_CAPABILITIES = true) as Hu by (vm_compute; reflexivity).
  rewrite forallb_true in Hu. auto.
Qed.

Lemma capabilities_data caps : forallb (fun c => bool_decide (c ∈ ZERO_CAPABILITIES)) caps = true ->
  forallb json_data (JString <$> caps) = true.
Proof.
  rewrite !forallb_true. intros Hc v (c & -> & Hin)%list_elem_of_fmap. apply capability_units.
  by specialize (Hc c Hin); apply bool_decide_eq_true in Hc.
Qed.

Lemma payload_data p : payload_ok p = true -> json_data (JObject (payload_members p)) = true.
Proof.
  destruct p as [u r o iat exp|u r o caps [h|] iat exp|u o t iat exp|u j iat exp]; cbn -[units_ok json_data];
    unfold id_ok; intros Hp; rewrite !andb_true_iff in Hp; destruct_and?; cbn -[units_ok];
    repeat match goal with Hu : units_ok _ = true |- _ => rewrite !Hu; clear Hu end;
    rewrite ?capabilities_data by done; done.
Qed.

Lemma base_schema p : payload_ok p = true ->
  exists base, jwtBaseSchema (JObject (payload_members p)) = Some base /\ jb_exp base = payload_exp p.
Proof.
  destruct p as [u r o iat exp|u r o caps [h|] iat exp|u o t iat exp|u j iat exp]; cbn; unfold id_ok;
    rewrite !andb_true_iff; intros Hp; destruct_and?; destruct u; done || (by eexists).
Qed.

Lemma decode_document v : json_data v = true -> text v <> [] ->
  base64UrlEncode (text v) <> [] /\ parse (utf8_decode (base64url_decode (base64UrlEncode (text v)))) = Some v.
Proof.
  intros Hv Hne. unfold base64UrlEncode. split; [by apply base64url_nonempty, utf8_text_nonempty|].
  rewrite base64url_decode_encode by by apply utf8_bytes, well_formed_text. by apply json_roundtrip.
Qed.

(** A payload the server signs is what verification returns, until it expires. *)
Lemma verifyJwtPayload_signed now p : payload_ok p = true ->
  verifyJwtPayload now (signJwt p) =
    if payload_exp p <? seconds now then JNull else JObject (payload_members p).
Proof.
  intros Hp. unfold signJwt, signing_input, verifyJwtPayload.
  change (json_text (payload_members p)) with (text (JObject (payload_members p))).
  pose proof (payload_data p Hp) as Hd. destruct (decode_document _ Hd) as [Hpe Hparse].
  { destruct (text_head _ Hd) as (c & t & -> & _). done. }
  rewrite <- !app_assoc. change (js ".") with [46]. cbn [app].
  rewrite !split_on_app by apply base64url_dot. rewrite split_on_word by apply base64url_dot.
  destruct (bool_decide (base64UrlEncode (json_text jwt_header) = [])) eqn:E1; [by vm_compute in E1|].
  rewrite (bool_decide_false _ Hpe). rewrite bool_decide_false.
  2: { apply base64url_nonempty. intros Hn. pose proof (hmac_length (utf8 (base64UrlEncode (json_text jwt_header) ++
         46 :: base64UrlEncode (text (JObject (payload_members p)))))) as Hl. rewrite Hn in Hl. done. }
  cbn [orb]. cbv iota. rewrite base64url_decode_encode by apply hmac_bytes. rewrite bool_decide_true by done. cbn [negb].
  rewrite Hparse. destruct (base_schema p Hp) as (base & -> & ->). done.
Qed.

Lemma verifyPrefixedToken_signed now prefix p : payload_ok p = true ->
  verifyPrefixedToken now (prefix ++ signJwt p) prefix =
    if payload_exp p <? seconds now then JNull else JObject (payload_members p).
Proof.
  intros Hp. unfold verifyPrefixedToken. rewrite starts_with_app. cbn [negb]. cbv iota.
  rewrite drop_app_length. by apply verifyJwtPayload_signed.
Qed.

Lemma zero_capabilities_schema caps : forallb (fun c => bool_decide (c ∈ ZERO_CAPABILITIES)) caps = true ->
  mapM zeroCapabilitySchema (JString <$> caps) = Some caps.
Proof.
  induction caps as [|c caps IH]; [done|]. cbn [forallb]. intros [Hc Hcs]%andb_true_iff. rewrite fmap_cons. cbn [mapM].
  assert (zeroCapabilitySchema (JString c) = Some c) as -> by (unfold zeroCapabilitySchema; cbn; by rewrite Hc).
  cbn [mbind option_bind]. by rewrite IH.
Qed.

Lemma nonempty_id s : id_ok s = true -> nonempty_string (JString s) = Some s.
Proof. unfold id_ok. destruct s; [by rewrite andb_false_r|done]. Qed.

Lemma prop_capabilities u r o caps h iat exp :
  prop_of (payload_members (ZeroPayload u r o caps h iat exp)) (js "capabilities") = JArray (JString <$> caps).
Proof. reflexivity. Qed.

(** Read a member of a payload; compare a scope. *)
Ltac member_value := match goal with |- context [prop_of ?l ?k] =>
  let v := eval vm_compute in (prop_of l k) in
  match v with JArray _ => fail 1 | _ => change (prop_of l k) with v end end.
Ltac literal_value := match goal with |- context [literal ?w ?v] =>
  let x := eval vm_compute in (literal w v) in change (literal w v) with x end.

Lemma prefixes_differ t : isSandboxToken (PAT_TOKEN_PREFIX ++ t) = false /\ isPatToken (SANDBOX_TOKEN_PREFIX ++ t) = false.
Proof. split; reflexivity. Qed.

Definition live {A} (now : Z) (p : JwtPayload) (a : A) : option A := if payload_exp p <? seconds now then None else Some a.

(** What the four schemas make of a signed payload. *)
Lemma payload_schemas p : payload_ok p = true ->
  let v := JObject (payload_members p) in
  sandboxTokenPayloadSchema v =
    match p with SandboxPayload u r o _ _ => Some {| sa_userId := u; sa_runId := r; sa_orgId := o |} | _ => None end /\
  zeroTokenPayloadSchema v =
    match p with
    | ZeroPayload u r o caps h _ _ => Some
        {| ze_userId := u; ze_runId := r; ze_orgId := o; ze_capabilities := caps; ze_computerUseHostId := h |}
    | _ => None
    end /\
  cliTokenPayloadSchema v =
    match p with CliPayload u o t _ _ => Some {| cl_userId := u; cl_orgId := o; cl_tokenId := t |} | _ => None end /\
  composeJobTokenPayloadSchema v =
    match p with ComposeJobPayload u j _ _ => Some {| cj_userId := u; cj_jobId := j |} | _ => None end.
Proof.
  intros Hp v. unfold v. clear v. split_and!.
  all: destruct p as [u r o iat exp|u r o caps [h|] iat exp|u o t iat exp|u j iat exp]; cbn -[id_ok units_ok] in Hp;
    rewrite !andb_true_iff in Hp; destruct_and?.
  all: unfold sandboxTokenPayloadSchema, zeroTokenPayloadSchema, cliTokenPayloadSchema, composeJobTokenPayloadSchema, jwtBaseSchema.
  all: repeat (cbn [as_object mbind option_bind as_string a_number a_string optional_uuid zeroCapabilities];
    first [rewrite prop_capabilities | member_value | rewrite nonempty_id by done | literal_value |
           rewrite zero_capabilities_schema by done | match goal with Hu : is_uuid _ = true |- _ => rewrite Hu end]); reflexivity.
Qed.
(** C19: Tokens round trip and scopes are separate. For every payload the server signs, each of
    the four verifiers accepts the token with its prefix exactly when the payload has the scope
    of the verifier and has not expired, and returns the identities that were signed; a token
    with the prefix of command line tokens is no sandbox token and the other way round. *)
Theorem token_scopes now p : payload_ok p = true ->
  verifySandboxToken now (SANDBOX_TOKEN_PREFIX ++ signJwt p) =
    match p with SandboxPayload u r o _ _ => live now p {| sa_userId := u; sa_runId := r; sa_orgId := o |} | _ => None end /\
  verifyZeroToken now (SANDBOX_TOKEN_PREFIX ++ signJwt p) =
    match p with
    | ZeroPayload u r o caps h _ _ => live now p
        {| ze_userId := u; ze_runId := r; ze_orgId := o; ze_capabilities := caps; ze_computerUseHostId := h |}
    | _ => None
    end /\
  verifyCliToken now (PAT_TOKEN_PREFIX ++ signJwt p) =
    match p with CliPayload u o t _ _ => live now p {| cl_userId := u; cl_orgId := o; cl_tokenId := t |} | _ => None end /\
  verifyComposeJobToken now (SANDBOX_TOKEN_PREFIX ++ signJwt p) =
    match p with ComposeJobPayload u j _ _ => live now p {| cj_userId := u; cj_jobId := j |} | _ => None end /\
  verifyCliToken now (SANDBOX_TOKEN_PREFIX ++ signJwt p) = None /\
  verifySandboxToken now (PAT_TOKEN_PREFIX ++ signJwt p) = None /\ verifyZeroToken now (PAT_TOKEN_PREFIX ++ signJwt p) = None.
Proof.
  intros Hp. unfold verifySandboxToken, verifyZeroToken, verifyCliToken, verifyComposeJobToken, live.
  destruct (payload_schemas p Hp) as (H1 & H2 & H3 & H4).
  rewrite !verifyPrefixedToken_signed by done. split_and!; [..|done|done|done].
  all: destruct (payload_exp p <? seconds now); [by destruct p|done].
Qed.

(** An accepted token carries the keyed hash of its first two parts, and the second one is the
    JSON text of a payload of that scope that has not expired. *)
Theorem verifySandboxToken_sound now token auth : verifySandboxToken now token = Some auth ->
  exists headerEncoded payloadEncoded signatureEncoded parsed base,
    token = SANDBOX_TOKEN_PREFIX ++ headerEncoded ++ [46] ++ payloadEncoded ++ [46] ++ signatureEncoded /\
    base64url_decode signatureEncoded = hmac_sha256 (utf8 (headerEncoded ++ [46] ++ payloadEncoded)) /\
    parse (utf8_decode (base64url_decode payloadEncoded)) = Some parsed /\
    jwtBaseSchema parsed = Some base /\ seconds now <= jb_exp base /\ sandboxTokenPayloadSchema parsed = Some auth.
Proof.
  unfold verifySandboxToken, verifyPrefixedToken. destruct (starts_with token SANDBOX_TOKEN_PREFIX) eqn:Et; [|done].
  cbn [negb]. cbv iota. apply starts_with_drop in Et. set (raw := drop _ token) in *. unfold verifyJwtPayload.
  pose proof (join_split 46 raw) as Hj. destruct (split_on 46 raw) as [|h [|pl [|sg [|? ?]]]]; try done.
  destruct (_ || _); [done|]. destruct (bool_decide (hmac_sha256 _ = _)) eqn:Em; [|done]. cbn [negb]. cbv iota.
  apply bool_decide_eq_true in Em. destruct (parse _) as [parsed|] eqn:Ep; [|done].
  destruct (jwtBaseSchema parsed) as [base|] eqn:Eb; [|done]. destruct (jb_exp base <? seconds now) eqn:Ex; [done|].
  intros Hs. exists h, pl, sg, parsed, base. split_and!; [|done..|lia|done].
  rewrite Et, <- Hj. cbn [join]. by rewrite <- ?app_assoc.
Qed.

End Laws.

(** ** What an agent may do *)

Lemma zero_capabilities_spec `{Platform} userId orgId overrides host c :
  c ∈ zero_capabilities userId orgId overrides host <->
    c ∈ ZERO_CAPABILITIES /\ c ∉ AGENT_EXCLUDED_CAPABILITIES /\
    (c = js "computer-use:write" -> is_Some (truthy_text host)) /\
    (forall flag, rec_own CONDITIONAL_CAPABILITIES c = Some flag ->
      isFeatureEnabled flag {| ctx_userId := Some userId; ctx_email := None; ctx_orgId := Some orgId; ctx_overrides := overrides |} = true).
Proof.
  unfold zero_capabilities. rewrite list_elem_of_filter. unfold grants_capability. split.
  - intros [Hg Hc]. destruct (bool_decide (c = _)) eqn:E1; cbn [andb] in Hg.
    + apply bool_decide_eq_true in E1. subst c. destruct (truthy_text host) as [h|]; [|done]. cbn in Hg.
      split_and!; [done| |done|]; [set_solver|]. intros flag [= <-]. exact Hg.
    + apply bool_decide_eq_false in E1. destruct (bool_decide (c ∈ AGENT_EXCLUDED_CAPABILITIES)) eqn:E2; [done|].
      apply bool_decide_eq_false in E2. split_and!; [done..|]. intros flag Hf. by rewrite Hf in Hg.
  - intros (Hc & Hx & Hh & Hf). split; [|done]. destruct (bool_decide (c = _)) eqn:E1; cbn [andb].
    + apply bool_decide_eq_true in E1. rewrite (bool_decide_true (is_Some _)) by auto. cbn [negb]. cbv iota.
      rewrite bool_decide_false by done.
      destruct (rec_own _ c); [by apply Hf|done].
    + rewrite bool_decide_false by done. destruct (rec_own _ c); [by apply Hf|done].
Qed.

(** ** A concrete runtime *)

Definition sextet_value (c : Z) : Z :=
  if c =? 45 then 62 else if c =? 95 then 63
  else match list_find (fun d => d = c) BASE64_ALPHABET with Some (i, _) => Z.of_nat i | None => 0 end.

Fixpoint sample_decode (l : list Z) : list Z :=
  match l with
  | a :: b :: c :: d :: rest =>
      [a * 4 + b / 16; b mod 16 * 16 + c / 4; c mod 4 * 64 + d] ++ sample_decode rest
  | [a; b; c] => [a * 4 + b / 16; b mod 16 * 16 + c / 4]
  | [a; b] => [a * 4 + b / 16]
  | _ => []
  end.

(** A sum as the keyed hash. *)
Definition sample_runtime : TokenRuntime := {|
  hmac_sha256 := fun data => replicate 32 (foldr Z.add 0 data mod 256);
  base64url_decode := fun s => sample_decode (sextet_value <$> s);
  is_uuid := fun s => bool_decide (length s = 36%nat) |}.

Lemma sextet_value_sextet n : 0 <= n < 64 -> sextet_value (url_safe (sextet n)) = n /\ sextet n <> 61.
Proof.
  intros Hn. assert (forallb (fun n => (sextet_value (url_safe (sextet n)) =? n) && negb (sextet n =? 61)) (seqZ 0 64) = true) as H
    by (vm_compute; reflexivity).
  rewrite forallb_true in H. specialize (H n ltac:(apply elem_of_seqZ; lia)). lia.
Qed.

Lemma lor_shiftl_4 a b : 0 <= a -> 0 <= b <= 255 -> Z.lor (Z.shiftl (Z.land a 3) 4) (Z.shiftr b 4) = a mod 4 * 16 + b / 16.
Proof.
  intros Ha Hb. change 3 with (Z.ones 2). rewrite Z.land_ones, Z.shiftr_div_pow2 by lia. change (2 ^ 2) with 4. change (2 ^ 4) with 16.
  assert (forallb (fun x => forallb (fun y => Z.lor (Z.shiftl x 4) y =? x * 16 + y) (seqZ 0 16)) (seqZ 0 4) = true) as H
    by (vm_compute; reflexivity).
  rewrite forallb_true in H. specialize (H (a mod 4) ltac:(apply elem_of_seqZ; Z.to_euclidean_division_equations; lia)).
  rewrite forallb_true in H. specialize (H (b / 16) ltac:(apply elem_of_seqZ; Z.to_euclidean_division_equations; lia)). lia.
Qed.

Lemma lor_shiftl_2 b c : 0 <= b -> 0 <= c <= 255 -> Z.lor (Z.shiftl (Z.land b 15) 2) (Z.shiftr c 6) = b mod 16 * 4 + c / 64.
Proof.
  intros Hb Hc. change 15 with (Z.ones 4). rewrite Z.land_ones, Z.shiftr_div_pow2 by lia. change (2 ^ 4) with 16. change (2 ^ 6) with 64.
  assert (forallb (fun x => forallb (fun y => Z.lor (Z.shiftl x 2) y =? x * 4 + y) (seqZ 0 4)) (seqZ 0 16) = true) as H
    by (vm_compute; reflexivity).
  rewrite forallb_true in H. specialize (H (b mod 16) ltac:(apply elem_of_seqZ; Z.to_euclidean_division_equations; lia)).
  rewrite forallb_true in H. specialize (H (c / 64) ltac:(apply elem_of_seqZ; Z.to_euclidean_division_equations; lia)). lia.
Qed.

Definition symbol_values (l : jsstr) : list Z := sextet_value <$> (url_safe <$> filter (fun c => c <> 61) l).

Lemma symbol_values_sextet n l : 0 <= n < 64 -> symbol_values (sextet n :: l) = n :: symbol_values l.
Proof.
  intros Hn. destruct (sextet_value_sextet n Hn) as [Hv Hne]. unfold symbol_values. rewrite filter_cons_True by done. cbn. by rewrite Hv.
Qed.

Lemma sample_decode_encode bytes : forallb is_byte bytes = true -> sample_decode (symbol_values (base64 bytes)) = bytes.
Proof.
  remember (length bytes) as n eqn:Hn. assert (length bytes <= n)%nat as Hle by lia. clear Hn. revert bytes Hle.
  induction n as [|n IH]; intros [|a [|b [|c rest]]] Hle; simpl in Hle; try lia; try done; cbn [forallb]; unfold is_byte at 1;
    rewrite !andb_true_iff; intros Hb; destruct_and?; cbn [base64 app].
  - change 3 with (Z.ones 2). rewrite Z.land_ones, Z.shiftr_div_pow2, Z.shiftl_mul_pow2 by lia.
    change (2 ^ 2) with 4. change (2 ^ 4) with 16. rewrite !symbol_values_sextet by (Z.to_euclidean_division_equations; lia).
    cbn. f_equal. Z.to_euclidean_division_equations; lia.
  - unfold is_byte in *. bool_facts. rewrite lor_shiftl_4 by lia. change 15 with (Z.ones 4).
    rewrite Z.land_ones, Z.shiftr_div_pow2, Z.shiftl_mul_pow2 by lia. change (2 ^ 2) with 4. change (2 ^ 4) with 16.
    rewrite !symbol_values_sextet by (Z.to_euclidean_division_equations; lia).
    cbn. f_equal; [|f_equal]; Z.to_euclidean_division_equations; lia.
  - unfold is_byte in *. bool_facts. rewrite lor_shiftl_4, lor_shiftl_2 by lia. change 63 with (Z.ones 6).
    rewrite Z.land_ones, Z.shiftr_div_pow2 by lia. change (2 ^ 2) with 4. change (2 ^ 6) with 64.
    rewrite !symbol_values_sextet by (Z.to_euclidean_division_equations; lia).
    cbn [sample_decode app]. rewrite IH by (done || lia). f_equal; [|f_equal; [|f_equal]]; Z.to_euclidean_division_equations; lia.
Qed.

#[export] Instance sample_laws : @TokenLaws sample_runtime.
Proof.
  split.
  - intros data. cbn [hmac_sha256 sample_runtime]. apply forallb_true. intros b Hb. apply elem_of_replicate_inv in Hb. subst b.
    unfold is_byte. pose proof (Z.mod_pos_bound (foldr Z.add 0 data) 256). lia.
  - intros data. apply length_replicate.
  - intros bytes Hb. exact (sample_decode_encode bytes Hb).
Qed.

Definition sample_payload : JwtPayload := SandboxPayload (js "user_1") (js "run_1") (js "org_1") 1000 8200.

Lemma token_scopes_witness :
  @verifySandboxToken sample_runtime 2000000 (SANDBOX_TOKEN_PREFIX ++ @signJwt sample_runtime sample_payload) =
    Some {| sa_userId := js "user_1"; sa_runId := js "run_1"; sa_orgId := js "org_1" |}.
Proof. apply (@token_scopes sample_runtime sample_laws 2000000 sample_payload). vm_compute. reflexivity. Defined.

End Tokens.
