(* ===== verification/Auth.v ===== *)
(** Authentication of requests (turbo/apps/api/src/signals/auth/auth-context.ts, auth-route.ts,
    clerk-session.ts, runner-auth.ts and services/auth.service.ts): which identity, organization
    and role a request runs under, and what its route requires; with every writer of the cache of
    memberships (also of onboarding, cli-auth, zero-email-common, zero-org-data and
    webhooks-clerk-cleanup). *)

From S2P Require Import Prelude JsString JsValue JsRecord Bytes Json FeatureSwitches Tokens RunStore RunQueue RunLifecycle.
Import Bytes FeatureSwitches Json Tokens.

Module Auth.

(** ** Data *)

Inductive ApiOrgRole := Admin | Member.

#[export] Instance api_org_role_eq_dec : EqDecision ApiOrgRole.
Proof. solve_decision. Defined.

Inductive AuthTokenType := TSession | TPat | TSandbox | TZero.

#[export] Instance auth_token_type_eq_dec : EqDecision AuthTokenType.
Proof. solve_decision. Defined.

(** The union of the four contexts; fields a kind does not have are absent. *)
Record AuthContext := {
  ctx_tokenType : AuthTokenType; au_userId : jsstr; au_orgId : option jsstr; au_orgRole : option ApiOrgRole;
  au_runId : option jsstr; au_capabilities : option (list jsstr); au_computerUseHostId : option jsstr }.

(** Rows of [cli_tokens] and [org_members_cache]. *)
Record CliTokenRow := { ct_userId : jsstr; ct_expiresAt : Z; ct_lastUsedAt : option Z }.
Record MemberRow := { mr_role : jsstr; mr_cachedAt : Z }.

Record AuthDb := { cliTokens : gmap jsstr CliTokenRow; orgMembersCache : gmap (jsstr * jsstr) MemberRow }.

Definition with_cli_tokens (f : gmap jsstr CliTokenRow -> gmap jsstr CliTokenRow) (d : AuthDb) : AuthDb :=
  {| cliTokens := f (cliTokens d); orgMembersCache := orgMembersCache d |}.
Definition with_members (f : gmap (jsstr * jsstr) MemberRow -> gmap (jsstr * jsstr) MemberRow) (d : AuthDb) : AuthDb :=
  {| cliTokens := cliTokens d; orgMembersCache := f (orgMembersCache d) |}.

(** What the session service answers for the cookies and headers of a request. *)
Record SessionAuth := { se_userId : jsstr; se_orgId : option jsstr; se_orgRole : option jsstr }.

Record Request := { req_authorization : option jsstr; req_cookie : option jsstr; req_session : option SessionAuth }.

Record AuthOptions := {
  requiredCapability : option jsstr; acceptAnySandboxCapability : bool; requireOrganization : bool;
  missingOrganizationStatus : option Z; accept : option (list AuthTokenType) }.

Record AuthErrorResponse := { ae_status : Z; ae_message : jsstr; ae_code : jsstr }.

(** ** Membership (auth.service.ts) *)

Definition MEMBER_ROLE_CACHE_TTL_MS : Z := 60000.

Definition mapClerkRole (role : jsstr) : ApiOrgRole := if bool_decide (role = js "org:admin") then Admin else Member.

Definition role_text (role : ApiOrgRole) : jsstr := match role with Admin => js "admin" | Member => js "member" end.

Definition updateCliTokenLastUsedAt (now : Z) (tokenId : jsstr) (d : AuthDb) : AuthDb :=
  with_cli_tokens (alter (fun r => {| ct_userId := ct_userId r; ct_expiresAt := ct_expiresAt r; ct_lastUsedAt := Some now |}) tokenId) d.

Definition upsertMemberRoleCache (now : Z) (orgId userId : jsstr) (role : ApiOrgRole) (d : AuthDb) : AuthDb :=
  with_members (<[(orgId, userId) := {| mr_role := role_text role; mr_cachedAt := now |}]>) d.

(** The statements that write [org_members_cache]: one row is set, or rows are dropped. *)
Inductive CacheWrite :=
| WriteRole (orgId userId : jsstr) (role : ApiOrgRole) (cachedAt : Z)
| DropRoles (which : jsstr * jsstr -> bool).

Definition commit_write (write : CacheWrite) (d : AuthDb) : AuthDb :=
  match write with
  | WriteRole orgId userId role cachedAt => upsertMemberRoleCache cachedAt orgId userId role d
  | DropRoles which => with_members (fun m => filter (fun kv => which kv.1 = false) m) d
  end.

(** Onboarding, the login of test users, and the removal of members, organizations and users. *)
Definition FAR_FUTURE_CACHE_MS : Z := 365 * 24 * 60 * 60 * 1000.

Definition upsertSetupMemberRole (now : Z) (orgId userId : jsstr) : CacheWrite := WriteRole orgId userId Admin now.
Definition clerkRoleToCacheRole (role : jsstr) : ApiOrgRole := if bool_decide (role = js "org:admin") then Admin else Member.
Definition test_org_write (now : Z) (orgId userId role : jsstr) : CacheWrite :=
  WriteRole orgId userId (clerkRoleToCacheRole role) (now + FAR_FUTURE_CACHE_MS).
Definition removed_member (orgId userId : jsstr) : CacheWrite := DropRoles (fun key => bool_decide (key = (orgId, userId))).
Definition deleted_org (orgId : jsstr) : CacheWrite := DropRoles (fun key => bool_decide (key.1 = orgId)).
Definition deleted_user (userId : jsstr) : CacheWrite := DropRoles (fun key => bool_decide (key.2 = userId)).

(** The unexpired row with the identifier of the token; the identities are those of the token. *)
Definition cliTokenRecord (now : Z) (cliAuth : CliAuth) (d : AuthDb) : option (jsstr * jsstr) :=
  match cliTokens d !! cl_tokenId cliAuth with
  | Some record => if now <? ct_expiresAt record then Some (cl_userId cliAuth, cl_orgId cliAuth) else None
  | None => None
  end.

Section Services.

(** The organizations and roles of a user, from the directory. *)
Context (membershipsByUserId : jsstr -> result (list (jsstr * jsstr))).

(** What a request finds out about a member, and the statement it then executes. Other
    statements may come between the two. *)
Definition memberRole (now : Z) (orgId userId : jsstr) (d : AuthDb) : result (option ApiOrgRole) * option CacheWrite :=
  let cached := orgMembersCache d !! (orgId, userId) in
  let ask :=
    match membershipsByUserId userId with
    | Throw e => (Throw e, None)
    | Ok memberships =>
        match list_find (fun m => m.1 = orgId) memberships with
        | None =>
            (Ok None, match cached with Some _ => Some (removed_member orgId userId) | None => None end)
        | Some (_, membership) =>
            let role := mapClerkRole membership.2 in
            (Ok (Some role), Some (WriteRole orgId userId role now))
        end
    end in
  match cached with
  | Some row =>
      if now - mr_cachedAt row <? MEMBER_ROLE_CACHE_TTL_MS
      then (Ok (Some (if bool_decide (mr_role row = js "admin") then Admin else Member)), None)
      else ask
  | None => ask
  end.

Definition commit_optional (write : option CacheWrite) (d : AuthDb) : AuthDb :=
  match write with Some write => commit_write write d | None => d end.

Definition getMemberRoleAndUpdateCache (now : Z) (orgId userId : jsstr) (d : AuthDb) : result (option ApiOrgRole) * AuthDb :=
  let '(role, write) := memberRole now orgId userId d in (role, commit_optional write d).

(** The check of e-mail senders (zero-email-common.service.ts). *)
Definition ORG_CACHE_TTL_MS : Z := 60000.

Definition userHasOrgMembership (now : Z) (orgId userId : jsstr) (d : AuthDb) : result bool * option CacheWrite :=
  let ask :=
    match membershipsByUserId userId with
    | Throw e => (Throw e, None)
    | Ok memberships =>
        match list_find (fun m => m.1 = orgId) memberships with
        | None => (Ok false, None)
        | Some (_, membership) => (Ok true, Some (WriteRole orgId userId (mapClerkRole membership.2) now))
        end
    end in
  match orgMembersCache d !! (orgId, userId) with
  | Some row => if now - mr_cachedAt row <? ORG_CACHE_TTL_MS then (Ok true, None) else ask
  | None => ask
  end.

(** ** Sessions (clerk-session.ts) *)

Definition mapClerkOrgRole (orgRole : option jsstr) : option ApiOrgRole :=
  match truthy_text orgRole with
  | None => None
  | Some role => Some (if bool_decide (role = js "org:admin") then Admin else Member)
  end.

Definition session_context (s : SessionAuth) : AuthContext :=
  let member := match truthy_text (se_orgId s), mapClerkOrgRole (se_orgRole s) with
    | Some orgId, Some role => Some (orgId, role) | _, _ => None end in
  {| ctx_tokenType := TSession; au_userId := se_userId s; au_orgId := fst <$> member; au_orgRole := snd <$> member;
     au_runId := None; au_capabilities := None; au_computerUseHostId := None |}.

Definition clerkSessionAuth (req : Request) : option AuthContext := session_context <$> req_session req.

(** ** Contexts (auth-context.ts) *)

Section Runtime.
Context `{TokenRuntime}.

Definition pat_context (userId : jsstr) (member : option (jsstr * ApiOrgRole)) : AuthContext :=
  {| ctx_tokenType := TPat; au_userId := userId; au_orgId := fst <$> member; au_orgRole := snd <$> member;
     au_runId := None; au_capabilities := None; au_computerUseHostId := None |}.

Definition cliAuth (now : Z) (auth : CliAuth) (d : AuthDb) : result (option AuthContext) * AuthDb :=
  match cliTokenRecord now auth d with
  | None => (Ok None, d)
  | Some (userId, orgId) =>
      let d1 := updateCliTokenLastUsedAt now (cl_tokenId auth) d in
      match getMemberRoleAndUpdateCache now orgId userId d1 with
      | (Throw e, d2) => (Throw e, d2)
      | (Ok None, d2) => (Ok (Some (pat_context userId None)), d2)
      | (Ok (Some role), d2) => (Ok (Some (pat_context userId (Some (orgId, role)))), d2)
      end
  end.

Definition sandbox_context (auth : SandboxAuth) : AuthContext :=
  {| ctx_tokenType := TSandbox; au_userId := sa_userId auth; au_orgId := Some (sa_orgId auth); au_orgRole := None;
     au_runId := Some (sa_runId auth); au_capabilities := None; au_computerUseHostId := None |}.

Definition resolveSandboxAuth (now : Z) (token : jsstr) (options : AuthOptions) : option AuthContext :=
  match verifySandboxToken now token with
  | None => None
  | Some auth => if acceptAnySandboxCapability options then Some (sandbox_context auth) else None
  end.

Definition capability_allowed (auth : ZeroAuth) (options : AuthOptions) : bool :=
  acceptAnySandboxCapability options ||
  match truthy_text (requiredCapability options) with
  | None => false
  | Some capability => bool_decide (capability ∈ ze_capabilities auth)
  end.

Definition zero_context (auth : ZeroAuth) (role : option ApiOrgRole) : AuthContext :=
  match role with
  | None => {| ctx_tokenType := TZero; au_userId := ze_userId auth; au_orgId := None; au_orgRole := None;
               au_runId := Some (ze_runId auth); au_capabilities := None; au_computerUseHostId := None |}
  | Some role => {| ctx_tokenType := TZero; au_userId := ze_userId auth; au_orgId := Some (ze_orgId auth); au_orgRole := Some role;
                    au_runId := Some (ze_runId auth); au_capabilities := Some (ze_capabilities auth);
                    au_computerUseHostId := truthy_text (ze_computerUseHostId auth) |}
  end.

Definition zeroAuth (now : Z) (token : jsstr) (options : AuthOptions) (d : AuthDb) : result (option AuthContext) * AuthDb :=
  match verifyZeroToken now token with
  | None => (Ok None, d)
  | Some auth =>
      if negb (capability_allowed auth options) then (Ok None, d)
      else
        match getMemberRoleAndUpdateCache now (ze_orgId auth) (ze_userId auth) d with
        | (Throw e, d1) => (Throw e, d1)
        | (Ok role, d1) => (Ok (Some (zero_context auth role)), d1)
        end
  end.

Definition sandboxTokenAuth (now : Z) (token : jsstr) (options : AuthOptions) (d : AuthDb) : result (option AuthContext) * AuthDb :=
  match zeroAuth now token options d with
  | (Throw e, d1) => (Throw e, d1)
  | (Ok (Some ctx), d1) => (Ok (Some ctx), d1)
  | (Ok None, d1) =>
      if negb (bool_decide (is_Some (truthy_text (requiredCapability options)))) && negb (acceptAnySandboxCapability options)
      then (Ok None, d1)
      else (Ok (resolveSandboxAuth now token options), d1)
  end.

Definition resolvedAuthContext (now : Z) (options : AuthOptions) (req : Request) (d : AuthDb) :
    result (option AuthContext) * AuthDb :=
  match req_authorization req with
  | Some authHeader =>
      if starts_with authHeader BEARER then
        let token := drop 7 authHeader in
        if isPatToken token then
          match verifyCliToken now token with
          | Some auth => cliAuth now auth d
          | None => (Ok None, d)
          end
        else if isSandboxToken token then sandboxTokenAuth now token options d
        else (Ok (clerkSessionAuth req), d)
      else if bool_decide (is_Some (truthy_text (req_cookie req))) then (Ok (clerkSessionAuth req), d) else (Ok None, d)
  | None =>
      if bool_decide (is_Some (truthy_text (req_cookie req))) then (Ok (clerkSessionAuth req), d) else (Ok None, d)
  end.

Definition missingCapabilityError (capability : jsstr) : AuthErrorResponse :=
  {| ae_status := 403; ae_message := js "Missing required capability: " ++ capability; ae_code := js "FORBIDDEN" |}.

Definition notAuthenticated : AuthErrorResponse :=
  {| ae_status := 401; ae_message := js "Not authenticated"; ae_code := js "UNAUTHORIZED" |}.

Definition missingOrganizationError (status : Z) : AuthErrorResponse :=
  if status =? 401 then notAuthenticated
  else {| ae_status := 400; ae_code := js "BAD_REQUEST";
          ae_message := js "Explicit org context required " ++ [0x2014] ++ js " ensure active org in session" |}.

Definition sandboxTokenAuthError (now : Z) (token : jsstr) (options : AuthOptions) : option AuthErrorResponse :=
  if negb (isSandboxToken token) then None
  else
    let sandboxAuth := verifySandboxToken now token in
    let zeroAuth := match sandboxAuth with Some _ => None | None => verifyZeroToken now token end in
    match sandboxAuth, zeroAuth with
    | None, None => None
    | _, _ =>
        match truthy_text (requiredCapability options) with
        | Some capability => Some (missingCapabilityError capability)
        | None => Some {| ae_status := 403; ae_message := js "This endpoint is not available for sandbox tokens"; ae_code := js "FORBIDDEN" |}
        end
    end.

Definition requiredAuthContext (now : Z) (options : AuthOptions) (req : Request) (d : AuthDb) :
    result (AuthErrorResponse + AuthContext) * AuthDb :=
  match resolvedAuthContext now options req d with
  | (Throw e, d1) => (Throw e, d1)
  | (Ok (Some ctx), d1) =>
      if requireOrganization options && negb (bool_decide (is_Some (truthy_text (au_orgId ctx))))
      then (Ok (inl (missingOrganizationError (default 400 (missingOrganizationStatus options)))), d1)
      else (Ok (inr ctx), d1)
  | (Ok None, d1) =>
      let tokenError := match req_authorization req with
        | Some authHeader => if starts_with authHeader BEARER then sandboxTokenAuthError now (drop 7 authHeader) options else None
        | None => None
        end in
      (Ok (inl (default notAuthenticated tokenError)), d1)
  end.

(** ** Routes (auth-route.ts) *)

Definition FORBIDDEN_TOKEN_TYPE : AuthErrorResponse :=
  {| ae_status := 403; ae_message := js "This endpoint does not accept the provided credential type"; ae_code := js "FORBIDDEN" |}.

Definition isPatOnly (accept : option (list AuthTokenType)) : bool := bool_decide (accept = Some [TPat]).

Definition rewriteUnauthorizedForPat (result : AuthErrorResponse) : AuthErrorResponse :=
  if negb (ae_status result =? 401) then result
  else {| ae_status := 401; ae_message := js "API key required"; ae_code := js "UNAUTHORIZED" |}.

(** The context the handler runs under, or the answer of the route. *)
Definition authorize (now : Z) (options : AuthOptions) (req : Request) (d : AuthDb) :
    result (AuthErrorResponse + AuthContext) * AuthDb :=
  match requiredAuthContext now options req d with
  | (Throw e, d1) => (Throw e, d1)
  | (Ok (inl error), d1) => (Ok (inl (if isPatOnly (accept options) then rewriteUnauthorizedForPat error else error)), d1)
  | (Ok (inr ctx), d1) =>
      match accept options with
      | Some kinds => if bool_decide (ctx_tokenType ctx ∈ kinds) then (Ok (inr ctx), d1) else (Ok (inl FORBIDDEN_TOKEN_TYPE), d1)
      | None => (Ok (inr ctx), d1)
      end
  end.

(** [W] is the rest of the state the handler works on. *)
Definition authRoute {T W} (now : Z) (options : AuthOptions) (handler : AuthContext -> W -> result T * W) (req : Request)
    (d : AuthDb) (w : W) : result (AuthErrorResponse + T) * AuthDb * W :=
  match authorize now options req d with
  | (Throw e, d1) => (Throw e, d1, w)
  | (Ok (inl error), d1) => (Ok (inl error), d1, w)
  | (Ok (inr ctx), d1) =>
      match handler ctx w with
      | (Throw e, w1) => (Throw e, d1, w1)
      | (Ok t, w1) => (Ok (inr t), d1, w1)
      end
  end.

(** ** Runners (runner-auth.ts) *)

Definition OFFICIAL_RUNNER_TOKEN_PREFIX : jsstr := js "vm0_official_".

Definition validateOfficialRunnerSecret (expectedSecret providedSecret : jsstr) : bool :=
  let provided := utf8 providedSecret in
  let expected := utf8 expectedSecret in
  if negb (bool_decide (length provided = length expected)) then false else bool_decide (provided = expected).

Definition runnerAuth (expectedSecret : jsstr) (now : Z) (authHeader : option jsstr) (d : AuthDb) :
    option RunLifecycle.RunnerAuthContext * AuthDb :=
  match authHeader with
  | None => (None, d)
  | Some authHeader =>
      if negb (starts_with authHeader BEARER) then (None, d)
      else
        let token := drop 7 authHeader in
        if isPatToken token then
          match verifyCliToken now token with
          | None => (None, d)
          | Some auth =>
              match cliTokenRecord now auth d with
              | None => (None, d)
              | Some (userId, _) => (Some (RunLifecycle.UserRunner userId), updateCliTokenLastUsedAt now (cl_tokenId auth) d)
              end
          end
        else if negb (starts_with token OFFICIAL_RUNNER_TOKEN_PREFIX) then (None, d)
        else if validateOfficialRunnerSecret expectedSecret (drop (length OFFICIAL_RUNNER_TOKEN_PREFIX) token)
        then (Some RunLifecycle.OfficialRunner, d) else (None, d)
  end.

End Runtime.

(** ** Membership *)

(** A role that was confirmed less than a minute ago, or else what the directory says now. *)
Inductive role_known (now : Z) (orgId userId : jsstr) (d : AuthDb) : option ApiOrgRole -> Prop :=
| role_cached row : orgMembersCache d !! (orgId, userId) = Some row -> now - mr_cachedAt row < MEMBER_ROLE_CACHE_TTL_MS ->
    role_known now orgId userId d (Some (if bool_decide (mr_role row = js "admin") then Admin else Member))
| role_asked memberships :
    (forall row, orgMembersCache d !! (orgId, userId) = Some row -> MEMBER_ROLE_CACHE_TTL_MS <= now - mr_cachedAt row) ->
    membershipsByUserId userId = Ok memberships ->
    role_known now orgId userId d ((fun m => mapClerkRole m.2.2) <$> list_find (fun m => m.1 = orgId) memberships).

Lemma member_role_known now orgId userId d role :
  (exists d', getMemberRoleAndUpdateCache now orgId userId d = (Ok role, d')) <-> role_known now orgId userId d role.
Proof.
  unfold getMemberRoleAndUpdateCache, memberRole. split.
  - intros [d' Hg]. destruct (orgMembersCache d !! (orgId, userId)) as [row|] eqn:Er; [destruct (_ <? _) eqn:Et|].
    + injection Hg as <- <-. eapply role_cached; [done|lia].
    + destruct (membershipsByUserId userId) as [ms|] eqn:Em; [|done].
      assert (role = (fun m => mapClerkRole m.2.2) <$> list_find (fun m => m.1 = orgId) ms) as ->.
      { destruct (list_find _ ms) as [[i m]|]; by injection Hg as <- _. }
      eapply role_asked; [|done]. intros row' [= <-]%(eq_trans (eq_sym Er)). lia.
    + destruct (membershipsByUserId userId) as [ms|] eqn:Em; [|done].
      assert (role = (fun m => mapClerkRole m.2.2) <$> list_find (fun m => m.1 = orgId) ms) as ->.
      { destruct (list_find _ ms) as [[i m]|]; by injection Hg as <- _. }
      eapply role_asked; [|done]. intros row' H'. by rewrite Er in H'.
  - intros [row Er Ht|ms Hst Em].
    + rewrite Er. destruct (_ <? _) eqn:Et; [|lia]. by eexists.
    + rewrite Em. destruct (orgMembersCache d !! (orgId, userId)) as [row|] eqn:Er; [specialize (Hst row eq_refl); destruct (_ <? _) eqn:Et; [lia|]|];
        destruct (list_find _ ms) as [[i m]|]; by eexists.
Qed.

(** ** Who reaches a handler *)

Section Decisions.
Context `{TokenRuntime}.

(** The bearer token of a request. *)
Definition bearer (req : Request) : option jsstr :=
  h ← req_authorization req; if starts_with h BEARER then Some (drop 7 h) else None.

(** The credentials a request can present, and the context each stands for. *)
Inductive credential (now : Z) (options : AuthOptions) (req : Request) (d : AuthDb) : AuthContext -> Prop :=
| by_session s : req_session req = Some s ->
    match bearer req with
    | None => is_Some (truthy_text (req_cookie req))
    | Some token => isPatToken token = false /\ isSandboxToken token = false
    end ->
    credential now options req d (session_context s)
| by_pat token auth row role : bearer req = Some token -> verifyCliToken now token = Some auth ->
    cliTokens d !! cl_tokenId auth = Some row -> now < ct_expiresAt row ->
    role_known now (cl_orgId auth) (cl_userId auth) d role ->
    credential now options req d (pat_context (cl_userId auth) (pair (cl_orgId auth) <$> role))
| by_zero token auth role : bearer req = Some token -> verifyZeroToken now token = Some auth ->
    capability_allowed auth options = true -> role_known now (ze_orgId auth) (ze_userId auth) d role ->
    credential now options req d (zero_context auth role)
| by_sandbox token auth : bearer req = Some token -> verifySandboxToken now token = Some auth ->
    acceptAnySandboxCapability options = true -> credential now options req d (sandbox_context auth).

Lemma verified_prefix now token prefix : verifyPrefixedToken now token prefix <> JNull -> starts_with token prefix = true.
Proof. unfold verifyPrefixedToken. by destruct (starts_with token prefix). Qed.

Lemma cli_prefix now token auth : verifyCliToken now token = Some auth -> isPatToken token = true.
Proof. intros Hv. apply (verified_prefix now). intros Hn. unfold verifyCliToken in Hv. by rewrite Hn in Hv. Qed.

Lemma zero_prefix now token auth : verifyZeroToken now token = Some auth -> isSandboxToken token = true.
Proof. intros Hv. apply (verified_prefix now). intros Hn. unfold verifyZeroToken in Hv. by rewrite Hn in Hv. Qed.

Lemma sandbox_prefix now token auth : verifySandboxToken now token = Some auth -> isSandboxToken token = true.
Proof. intros Hv. apply (verified_prefix now). intros Hn. unfold verifySandboxToken in Hv. by rewrite Hn in Hv. Qed.

Lemma sandbox_not_pat token : isSandboxToken token = true -> isPatToken token = false.
Proof. intros Hs. apply starts_with_spec in Hs as [r ->]. reflexivity. Qed.

(** A token has one scope. *)
Lemma one_scope now token a b : verifyZeroToken now token = Some a -> verifySandboxToken now token = Some b -> False.
Proof.
  unfold verifyZeroToken, verifySandboxToken, zeroTokenPayloadSchema, sandboxTokenPayloadSchema.
  destruct (verifyPrefixedToken _ _ _) as [| | | | | |o]; try done.
  destruct (jwtBaseSchema _); [|done]. cbn [mbind option_bind as_object]. unfold literal.
  destruct (bool_decide (prop_of o (js "scope") = JString (js "zero"))) eqn:E1; [|done].
  destruct (bool_decide (prop_of o (js "scope") = JString (js "sandbox"))) eqn:E2; [|done].
  apply bool_decide_eq_true in E1, E2. rewrite E1 in E2. discriminate.
Qed.

Lemma role_known_tokens now orgId userId f d role :
  role_known now orgId userId (with_cli_tokens f d) role <-> role_known now orgId userId d role.
Proof. split; (intros [row Hr Ht|ms Hst Hm]; [by eapply role_cached|by eapply role_asked]). Qed.

Lemma cliAuth_context now auth d ctx :
  (exists d', cliAuth now auth d = (Ok (Some ctx), d')) <->
  exists row role, cliTokens d !! cl_tokenId auth = Some row /\ now < ct_expiresAt row /\
    role_known now (cl_orgId auth) (cl_userId auth) d role /\ ctx = pat_context (cl_userId auth) (pair (cl_orgId auth) <$> role).
Proof.
  unfold cliAuth, cliTokenRecord. split.
  - intros [d' Hc]. destruct (cliTokens d !! cl_tokenId auth) as [row|]; [|done]. destruct (now <? ct_expiresAt row) eqn:Et; [|done].
    destruct (getMemberRoleAndUpdateCache _ _ _ _) as [[role|] d2] eqn:Eg; [|done]. exists row, role.
    assert (exists d2, getMemberRoleAndUpdateCache now (cl_orgId auth) (cl_userId auth)
      (updateCliTokenLastUsedAt now (cl_tokenId auth) d) = (Ok role, d2)) as Hk%member_role_known by eauto.
    apply role_known_tokens in Hk. split_and!; [done|lia|done|]. by destruct role; simplify_eq.
  - intros (row & role & Hr & Ht & Hk & ->). rewrite Hr. destruct (now <? ct_expiresAt row) eqn:Et; [|lia].
    assert (role_known now (cl_orgId auth) (cl_userId auth) (updateCliTokenLastUsedAt now (cl_tokenId auth) d) role) as
      [d2 ->]%member_role_known by by apply role_known_tokens.
    destruct role; by eexists.
Qed.

Lemma zeroAuth_context now token options d ctx :
  (exists d', zeroAuth now token options d = (Ok (Some ctx), d')) <->
  exists auth role, verifyZeroToken now token = Some auth /\ capability_allowed auth options = true /\
    role_known now (ze_orgId auth) (ze_userId auth) d role /\ ctx = zero_context auth role.
Proof.
  unfold zeroAuth. split.
  - intros [d' Hz]. destruct (verifyZeroToken now token) as [auth|]; [|done]. destruct (capability_allowed auth options) eqn:Ec; [|done].
    cbn [negb] in Hz. destruct (getMemberRoleAndUpdateCache _ _ _ _) as [[role|] d2] eqn:Eg; [|done]. simplify_eq.
    exists auth, role. split_and!; [done..| |done]. apply member_role_known. eauto.
  - intros (auth & role & -> & -> & Hk & ->). cbn [negb]. apply member_role_known in Hk as [d2 ->]. by eexists.
Qed.

Lemma resolved_credential now options req d ctx :
  (exists d', resolvedAuthContext now options req d = (Ok (Some ctx), d')) <-> credential now options req d ctx.
Proof.
  unfold resolvedAuthContext. assert (Hb : bearer req = match req_authorization req with
    | Some h => if starts_with h BEARER then Some (drop 7 h) else None | None => None end) by (unfold bearer; by destruct (req_authorization req)).
  split.
  - intros [d' Hr].
    assert (forall x, (if bool_decide (is_Some (truthy_text (req_cookie req))) then (Ok (clerkSessionAuth req), d) else (Ok None, d)) =
      (Ok (Some ctx), x) -> bearer req = None -> credential now options req d ctx) as Hcookie.
    { intros x Hx Hn. destruct (bool_decide _) eqn:Ec; [|done]. apply bool_decide_eq_true in Ec. unfold clerkSessionAuth in Hx.
      destruct (req_session req) as [s|] eqn:Es; [|done]. injection Hx as <- _. apply by_session; [done|]. by rewrite Hn. }
    destruct (req_authorization req) as [h|] eqn:Eh; [|by eapply Hcookie]. destruct (starts_with h BEARER) eqn:Esw; [|by eapply Hcookie].
    set (token := drop 7 h) in *. destruct (isPatToken token) eqn:Ep.
    { destruct (verifyCliToken now token) as [auth|] eqn:Ev; [|done].
      assert (exists d', cliAuth now auth d = (Ok (Some ctx), d')) as (row & role & Hrow & Ht & Hk & ->)%cliAuth_context by eauto.
      by eapply by_pat. }
    destruct (isSandboxToken token) eqn:Es.
    + unfold sandboxTokenAuth in Hr. destruct (zeroAuth now token options d) as [[[c|]|] d1] eqn:Ez; [| |done].
      * injection Hr as -> ->. assert (exists d', zeroAuth now token options d = (Ok (Some ctx), d')) as
          (auth & role & Hv & Hc & Hk & ->)%zeroAuth_context by eauto. by eapply by_zero.
      * destruct (_ && _); [done|]. injection Hr as Hr _. unfold resolveSandboxAuth in Hr.
        destruct (verifySandboxToken now token) as [auth|] eqn:Ev; [|done].
        destruct (acceptAnySandboxCapability options) eqn:Ea; [|done]. injection Hr as <-. by eapply by_sandbox.
    + unfold clerkSessionAuth in Hr. destruct (req_session req) as [s|] eqn:Ess; [|done]. injection Hr as <- _.
      apply by_session; [done|]. by rewrite Hb.
  - intros [s Hs Hc|token auth row role Ht Hv Hrow He Hk|token auth role Ht Hv Ha Hk|token auth Ht Hv Ha].
    + rewrite Hb in Hc. unfold clerkSessionAuth. rewrite Hs. destruct (req_authorization req) as [h|];
        [destruct (starts_with h BEARER)|]; [destruct Hc as [-> ->]; by eexists|rewrite bool_decide_true by done; by eexists..].
    + rewrite Hb in Ht. destruct (req_authorization req) as [h|]; [|done]. destruct (starts_with h BEARER); [|done].
      injection Ht as ->. rewrite (cli_prefix _ _ _ Hv), Hv. apply cliAuth_context. eauto 10.
    + rewrite Hb in Ht. destruct (req_authorization req) as [h|]; [|done]. destruct (starts_with h BEARER); [|done].
      injection Ht as ->. pose proof (zero_prefix _ _ _ Hv) as Hp. rewrite (sandbox_not_pat _ Hp), Hp. unfold sandboxTokenAuth.
      assert (exists d', zeroAuth now token options d = (Ok (Some (zero_context auth role)), d')) as [d' ->]
        by (apply zeroAuth_context; eauto 10). by eexists.
    + rewrite Hb in Ht. destruct (req_authorization req) as [h|]; [|done]. destruct (starts_with h BEARER); [|done].
      injection Ht as ->. pose proof (sandbox_prefix _ _ _ Hv) as Hp. rewrite (sandbox_not_pat _ Hp), Hp. unfold sandboxTokenAuth.
      unfold zeroAuth. destruct (verifyZeroToken now token) eqn:Ez; [by destruct (one_scope _ _ _ _ Ez Hv)|].
      rewrite Ha, andb_false_r. unfold resolveSandboxAuth. rewrite Hv, Ha. by eexists.
Qed.

Lemma authorize_credential now options req d ctx d' :
  authorize now options req d = (Ok (inr ctx), d') -> credential now options req d ctx.
Proof.
  intros Ha. apply resolved_credential. unfold authorize, requiredAuthContext in Ha.
  destruct (resolvedAuthContext now options req d) as [[[c|]|] d1]; repeat case_match; simplify_eq; eauto.
Qed.

(** C4: A handler runs under a context exactly when the request presents a credential for it
    and the route's conditions hold: a session, an unexpired command line token whose row still
    exists, an agent token with the required capability, or a sandbox token on a route open to
    them; with an organization where the route requires one, and of a kind the route accepts.
    The organization and role of a command line or agent token are those of a current
    membership. *)
Theorem authorize_spec now options req d ctx :
  (exists d', authorize now options req d = (Ok (inr ctx), d')) <->
  credential now options req d ctx /\
  (requireOrganization options = true -> is_Some (truthy_text (au_orgId ctx))) /\
  (forall kinds, accept options = Some kinds -> ctx_tokenType ctx ∈ kinds).
Proof.
  rewrite <- resolved_credential. unfold authorize, requiredAuthContext. split.
  - intros [d' Ha]. destruct (resolvedAuthContext now options req d) as [[[c|]|] d1] eqn:Er; [|done..].
    destruct (requireOrganization options && _) eqn:Eo; [done|]. destruct (accept options) as [kinds|].
    + destruct (bool_decide (ctx_tokenType c ∈ kinds)) eqn:Ek; [|done]. apply bool_decide_eq_true in Ek. simplify_eq.
      split_and!; [eauto| |by intros ? [= <-]]. intros Ho. rewrite Ho in Eo. cbn [andb] in Eo. by bool_facts.
    + simplify_eq. split_and!; [eauto| |done]. intros Ho. rewrite Ho in Eo. cbn [andb] in Eo. by bool_facts.
  - intros ([d' ->] & Ho & Hk). destruct (requireOrganization options && _) eqn:Eo.
    { apply andb_true_iff in Eo as [Eo En]. bool_facts. destruct En. by apply Ho. }
    destruct (accept options) as [kinds|]; [|by eexists]. rewrite bool_decide_true by by apply Hk. by eexists.
Qed.

(** ** The cache of memberships *)

(** The statement that a request executes on the cache, if any: that of one membership check. *)
Definition checked_write (now : Z) (d : AuthDb) (write : option CacheWrite) : Prop :=
  write = None \/ exists orgId userId, write = (memberRole now orgId userId d).2.

Lemma authorize_write now options req d r d' : authorize now options req d = (r, d') ->
  exists write, checked_write now d write /\ orgMembersCache d' = orgMembersCache (commit_optional write d).
Proof.
  intros Ha. unfold authorize, requiredAuthContext in Ha. destruct (resolvedAuthContext now options req d) as [r0 d1] eqn:Er.
  assert (d1 = d') as -> by (repeat case_match; by simplify_eq). clear Ha.
  assert (forall orgId userId f r1 d1, getMemberRoleAndUpdateCache now orgId userId (with_cli_tokens f d) = (r1, d1) ->
    exists write, checked_write now d write /\ orgMembersCache d1 = orgMembersCache (commit_optional write d)) as Hget.
  { intros orgId userId f r1 d1 [= _ <-]%(eq_trans (eq_sym (surjective_pairing _))). exists (memberRole now orgId userId d).2.
    split; [right; eauto|]. unfold getMemberRoleAndUpdateCache. change (memberRole now orgId userId (with_cli_tokens f d)) with (memberRole now orgId userId d).
    destruct (memberRole now orgId userId d) as [? [[]|]]; reflexivity. }
  assert (exists write, checked_write now d write /\ orgMembersCache d = orgMembersCache (commit_optional write d)) as Hsame by (exists None; split; [by left|done]).
  assert (with_cli_tokens id d = d) as Hid by by destruct d.
  unfold resolvedAuthContext, cliAuth, sandboxTokenAuth, zeroAuth in Er.
  repeat case_match; simplify_eq; try done;
    first [eapply Hget; eassumption | eapply (Hget _ _ id); rewrite Hid; eassumption].
Qed.

End Decisions.

End Services.

(** ** The token of a run *)

Section Runs.
Context `{TokenLaws} `{Platform} (membershipsByUserId : jsstr -> result (list (jsstr * jsstr))).

Definition run_request (issued : Z) (userId runId orgId : jsstr) (overrides : option (Rec bool)) (host : option jsstr)
    (cookie : option jsstr) (session : option SessionAuth) : Request :=
  {| req_authorization := Some (BEARER ++ generateZeroToken issued userId runId orgId overrides host);
     req_cookie := cookie; req_session := session |}.

Lemma bearer_run_request issued userId runId orgId overrides host cookie session :
  bearer (run_request issued userId runId orgId overrides host cookie session) =
    Some (generateZeroToken issued userId runId orgId overrides host).
Proof. reflexivity. Qed.

Lemma zero_token_verified issued now userId runId orgId overrides host :
  payload_ok (zero_payload issued userId runId orgId overrides host) = true ->
  let token := generateZeroToken issued userId runId orgId overrides host in
  verifyZeroToken now token =
    (if seconds issued + 2 * 60 * 60 <? seconds now then None
     else Some {| ze_userId := userId; ze_runId := runId; ze_orgId := orgId;
       ze_capabilities := zero_capabilities userId orgId overrides host;
       ze_computerUseHostId := if bool_decide (js "computer-use:write" ∈ zero_capabilities userId orgId overrides host)
                               then truthy_text host else None |}) /\
  verifySandboxToken now token = None /\ isPatToken token = false /\ isSandboxToken token = true.
Proof.
  intros Hp token. unfold token, generateZeroToken. split_and!; [| |reflexivity|reflexivity].
  all: destruct (payload_schemas _ Hp) as (Hs & Hz & _).
  - unfold verifyZeroToken. rewrite verifyPrefixedToken_signed by done. cbn [payload_exp zero_payload]. destruct (_ <? _); [done|exact Hz].
  - unfold verifySandboxToken. rewrite verifyPrefixedToken_signed by done. destruct (_ <? _); [done|exact Hs].
Qed.

(** C14: The token of a run acts as that run's user and run only, for two hours, and only where
    its capabilities allow: on a route that requires a capability, the handler runs only if it
    is one of those that were given to the token; any other capability, as long as the token is
    valid, is answered as missing and nothing changes. What a token is given is known and never
    includes deleting agents and automations or starting runs. *)
Theorem run_token_confined issued now userId runId orgId overrides host cookie session options d :
  payload_ok (zero_payload issued userId runId orgId overrides host) = true ->
  let req := run_request issued userId runId orgId overrides host cookie session in
  (forall ctx d', authorize membershipsByUserId now options req d = (Ok (inr ctx), d') ->
    au_userId ctx = userId /\ au_runId ctx = Some runId /\ ctx_tokenType ctx = TZero /\
    (au_orgId ctx = Some orgId \/ au_orgId ctx = None) /\ seconds now <= seconds issued + 2 * 60 * 60 /\
    (acceptAnySandboxCapability options = true \/
     exists c, requiredCapability options = Some c /\ c ∈ zero_capabilities userId orgId overrides host)) /\
  (forall c, c ∉ zero_capabilities userId orgId overrides host -> c <> [] ->
    requiredCapability options = Some c -> acceptAnySandboxCapability options = false ->
    seconds now <= seconds issued + 2 * 60 * 60 ->
    authorize membershipsByUserId now options req d = (Ok (inl (missingCapabilityError c)), d)) /\
  (forall c, c ∈ zero_capabilities userId orgId overrides host -> c ∈ ZERO_CAPABILITIES /\ c ∉ AGENT_EXCLUDED_CAPABILITIES).
Proof.
  intros Hp req. destruct (zero_token_verified issued now userId runId orgId overrides host Hp) as (Hz & Hs & Hpat & Hsb). split_and!.
  - intros ctx d' Ha. pose proof (authorize_credential _ _ _ _ _ _ _ Ha) as Hc.
    clear Ha. destruct Hc as [s Hss Hb|token auth row role Hb Hv _ _ _|token auth role Hb Hv Hc Hk|token auth Hb Hv _].
    + unfold req in Hb. rewrite bearer_run_request, Hpat, Hsb in Hb. by destruct Hb.
    + unfold req in Hb. rewrite bearer_run_request in Hb. injection Hb as <-. apply cli_prefix in Hv. by rewrite Hpat in Hv.
    + unfold req in Hb. rewrite bearer_run_request in Hb. injection Hb as <-. rewrite Hz in Hv.
      destruct (_ <? _) eqn:Et; [done|]. injection Hv as <-. unfold capability_allowed in Hc. cbn [ze_capabilities] in Hc.
      split_and!; [by destruct role..|destruct role; cbn; auto|lia|]. apply orb_true_iff in Hc as [Hc|Hc]; [by left|]. right.
      destruct (requiredCapability options) as [[|x c]|]; [done| |done]. cbn [truthy_text] in Hc. apply bool_decide_eq_true in Hc.
      eauto.
    + unfold req in Hb. rewrite bearer_run_request in Hb. injection Hb as <-. by rewrite Hs in Hv.
  - intros c Hex Hne Hreq Hany Ht.
    assert (truthy_text (Some c) = Some c) as Htr by by destruct c.
    assert (zeroAuth membershipsByUserId now (generateZeroToken issued userId runId orgId overrides host) options d = (Ok None, d)) as Hza.
    { unfold zeroAuth. rewrite Hz. destruct (_ <? _); [done|]. unfold capability_allowed. rewrite Hany, Hreq, Htr. cbn [ze_capabilities orb].
      by rewrite bool_decide_false. }
    assert (resolvedAuthContext membershipsByUserId now options req d = (Ok None, d)) as Hr.
    { unfold resolvedAuthContext, req, run_request. cbn [req_authorization]. rewrite starts_with_app.
      change (drop 7 (BEARER ++ ?t)) with t. rewrite Hpat, Hsb. unfold sandboxTokenAuth. rewrite Hza, Hreq, Htr, Hany.
      rewrite (bool_decide_true (is_Some (Some c))) by eauto. cbn [negb andb]. unfold resolveSandboxAuth. by rewrite Hs. }
    unfold authorize, requiredAuthContext. rewrite Hr. unfold req, run_request. cbn [req_authorization]. rewrite starts_with_app.
    change (drop 7 (BEARER ++ ?t)) with t. unfold sandboxTokenAuthError. rewrite Hsb, Hs, Hz. cbn [negb].
    destruct (_ <? _) eqn:Et; [lia|]. rewrite Hreq, Htr. destruct (isPatOnly _); reflexivity.
  - intros c (? & ? & _)%zero_capabilities_spec. done.
Qed.

End Runs.

(** ** Removal from an organization *)

Section Revocation.
Context `{TokenRuntime}.

(** The cache, and the statements that requests have decided on and not yet executed. *)
Definition CacheState : Type := AuthDb * list CacheWrite.

(** What happens to it: a request checks a membership with the directory as it then is, or the
    sender of an e-mail; a decided statement is executed, at any later time; any other statement
    is executed (onboarding, test users, removals). *)
Inductive CacheEvent :=
| CheckRole (directory : jsstr -> result (list (jsstr * jsstr))) (now : Z) (orgId userId : jsstr)
| CheckSender (directory : jsstr -> result (list (jsstr * jsstr))) (now : Z) (orgId userId : jsstr)
| ExecuteDecided (i : nat)
| ExecuteOther (write : CacheWrite).

Definition cache_event (s : CacheState) (e : CacheEvent) : CacheState :=
  let '(d, decided) := s in
  match e with
  | CheckRole directory now orgId userId => (d, decided ++ option_list (memberRole directory now orgId userId d).2)
  | CheckSender directory now orgId userId => (d, decided ++ option_list (userHasOrgMembership directory now orgId userId d).2)
  | ExecuteDecided i => match decided !! i with Some write => (commit_write write d, delete i decided) | None => s end
  | ExecuteOther write => (commit_write write d, decided)
  end.

Definition not_member (directory : jsstr -> result (list (jsstr * jsstr))) (orgId userId : jsstr) : Prop :=
  forall memberships role, directory userId = Ok memberships -> (orgId, role) ∉ memberships.

(** The statement does not set the row of the member. *)
Definition leaves_member (orgId userId : jsstr) (write : CacheWrite) : Prop :=
  match write with WriteRole o u _ _ => (o, u) <> (orgId, userId) | DropRoles _ => True end.

(** The event does not come from a directory that lists the member, nor from onboarding or a
    test login of the member. *)
Definition after_removal (orgId userId : jsstr) (e : CacheEvent) : Prop :=
  match e with
  | CheckRole directory _ _ _ | CheckSender directory _ _ _ => not_member directory orgId userId
  | ExecuteDecided _ => True
  | ExecuteOther write => leaves_member orgId userId write
  end.

Definition confirmed_by (t : Z) (orgId userId : jsstr) (d : AuthDb) : Prop :=
  forall row, orgMembersCache d !! (orgId, userId) = Some row -> mr_cachedAt row <= t.

Lemma commit_confirmed t orgId userId write d :
  leaves_member orgId userId write -> confirmed_by t orgId userId d -> confirmed_by t orgId userId (commit_write write d).
Proof.
  intros Hw Hd row. destruct write as [o u role at_|which]; cbn.
  - rewrite lookup_insert_ne by exact Hw. apply Hd.
  - intros [Hl _]%map_lookup_filter_Some. by apply Hd.
Qed.

Lemma listed_elem directory orgId userId ms i m :
  directory userId = Ok ms -> list_find (fun m : jsstr * jsstr => m.1 = orgId) ms = Some (i, m) -> ~ not_member directory orgId userId.
Proof.
  destruct m as [o x]. intros Hm (Hl & Ho & _)%list_find_Some Hn. cbn in Ho. subst o.
  apply (Hn ms x Hm). by eapply list_elem_of_lookup_2.
Qed.

Lemma asked_leaves directory o u now orgId userId d :
  not_member directory orgId userId ->
  Forall (leaves_member orgId userId) (option_list (memberRole directory now o u d).2) /\
  Forall (leaves_member orgId userId) (option_list (userHasOrgMembership directory now o u d).2).
Proof.
  intros Hn. unfold memberRole, userHasOrgMembership.
  destruct (directory u) as [ms|e] eqn:Em.
  - destruct (list_find _ ms) as [[i m]|] eqn:El.
    + assert ((o, u) <> (orgId, userId)) as Hne by (intros [= -> ->]; by eapply listed_elem).
      destruct (_ !! _) as [row|]; [|split; by repeat constructor]. split; destruct (_ <? _); by repeat constructor.
    + destruct (_ !! _) as [row|]; [|split; by repeat constructor]. split; destruct (_ <? _); by repeat constructor.
  - destruct (_ !! _) as [row|]; [|split; by repeat constructor]. split; destruct (_ <? _); by repeat constructor.
Qed.

Lemma events_confirmed t orgId userId events d decided :
  confirmed_by t orgId userId d -> Forall (leaves_member orgId userId) decided -> Forall (after_removal orgId userId) events ->
  confirmed_by t orgId userId (foldl cache_event (d, decided) events).1.
Proof.
  intros Hd Hw He. revert d decided Hd Hw.
  induction He as [|e events He _ IH]; intros d decided Hd Hw; [done|]. cbn [foldl].
  destruct e as [dir now o u|dir now o u|i|write]; cbn [cache_event].
  - apply IH; [done|]. apply Forall_app. split; [done|]. by apply asked_leaves.
  - apply IH; [done|]. apply Forall_app. split; [done|]. by apply asked_leaves.
  - destruct (decided !! i) as [write|] eqn:Ei; [|by apply IH].
    apply IH; [|by apply Forall_delete]. apply commit_confirmed; [|done]. by eapply Forall_lookup_1.
  - apply IH; [|done]. by apply commit_confirmed.
Qed.

(** C26: Removal from an organization takes effect within a minute of the last confirmation.
    Suppose the cached membership of a user was last confirmed by time [t] and every statement
    that a request decided on before and has not yet executed leaves that row alone. Then,
    whatever checks requests make while the directory no longer lists the user, in whatever
    order their statements are executed (also between the question and the statement of
    another request), and whatever other statements that do not write the row of that member
    (as onboarding and the login of test users would) come in between: from a minute after [t]
    on, no command line or agent token of that user reaches a handler with that organization.
    The statement a request executes on the cache is always that of such a check. *)
Theorem membership_revoked t orgId userId events d decided now options req directory :
  confirmed_by t orgId userId d -> Forall (leaves_member orgId userId) decided -> Forall (after_removal orgId userId) events ->
  not_member directory orgId userId -> t + MEMBER_ROLE_CACHE_TTL_MS <= now ->
  let d0 := (foldl cache_event (d, decided) events).1 in
  (forall ctx d', authorize directory now options req d0 = (Ok (inr ctx), d') ->
    au_userId ctx = userId -> au_orgId ctx = Some orgId -> ctx_tokenType ctx = TSession \/ ctx_tokenType ctx = TSandbox) /\
  (forall r d', authorize directory now options req d0 = (r, d') ->
    exists write, checked_write directory now d0 write /\ orgMembersCache d' = orgMembersCache (commit_optional write d0)).
Proof.
  intros Hd Hdec Hev Hdir Ht d0. split; [|by intros r d'; apply authorize_write]. intros ctx d' Ha Hu Ho.
  pose proof (events_confirmed _ _ _ _ _ _ Hd Hdec Hev) as Hconf. fold d0 in Hconf.
  pose proof (authorize_credential _ _ _ _ _ _ _ Ha) as Hc.
  assert (forall role, role_known directory now orgId userId d0 (Some role) -> False) as Hno.
  { intros role Hk. inversion Hk as [row Hr Hlt|ms Hst Hm Hf].
    - specialize (Hconf _ Hr). lia.
    - destruct (list_find _ ms) as [[i m]|] eqn:El; [|done]. by eapply listed_elem. }
  destruct Hc as [s Hss _|token auth row role _ _ _ _ Hk|token auth role _ _ _ Hk|token auth _ _ _]; [by left| | |by right].
  - cbn in Hu. destruct role as [role|]; [|done]. cbn in Ho. simplify_eq. by destruct (Hno role).
  - destruct role as [role|]; [|done]. cbn in Hu, Ho. simplify_eq. by destruct (Hno role).
Qed.

End Revocation.

(** ** Witnesses *)

#[local] Existing Instance sample_runtime.
#[local] Existing Instance ascii_platform.

Definition sample_directory (userId : jsstr) : result (list (jsstr * jsstr)) := Ok [(js "org_1", js "org:admin")].
Definition empty_directory (userId : jsstr) : result (list (jsstr * jsstr)) := Ok [].

Definition empty_auth_db : AuthDb := {| cliTokens := ∅; orgMembersCache := ∅ |}.

Definition sample_options (capability : jsstr) : AuthOptions :=
  {| requiredCapability := Some capability; acceptAnySandboxCapability := false; requireOrganization := true;
     missingOrganizationStatus := None; accept := None |}.

Definition sample_request : Request :=
  run_request 1000000 (js "user_1") (js "run_1") (js "org_1") None None None None.

Lemma run_token_confined_witness :
  authorize sample_directory 2000000 (sample_options (js "agent:delete")) sample_request empty_auth_db =
    (Ok (inl (missingCapabilityError (js "agent:delete"))), empty_auth_db) /\
  match authorize sample_directory 2000000 (sample_options (js "agent:read")) sample_request empty_auth_db with
  | (Ok (inr ctx), _) => au_userId ctx = js "user_1"
  | _ => False
  end.
Proof.
  split.
  - apply (run_token_confined sample_directory 1000000 2000000 (js "user_1") (js "run_1") (js "org_1") None None None None).
    + vm_compute. reflexivity.
    + apply (bool_decide_unpack _). vm_compute. exact I.
    + discriminate.
    + reflexivity.
    + reflexivity.
    + vm_compute. discriminate.
  - destruct (authorize _ _ (sample_options (js "agent:read")) _ _) as [[[e|ctx]|] d'] eqn:E;
      [vm_compute in E; discriminate| |vm_compute in E; discriminate].
    apply (run_token_confined sample_directory 1000000 2000000 (js "user_1") (js "run_1") (js "org_1") None None None None
      (sample_options (js "agent:read")) empty_auth_db) with (d' := d'); [vm_compute; reflexivity|exact E].
Defined.

Definition sample_cached : AuthDb :=
  {| cliTokens := ∅; orgMembersCache := {[ (js "org_1", js "user_1") := {| mr_role := js "admin"; mr_cachedAt := 1000000 |} ]} |}.

Definition open_options : AuthOptions :=
  {| requiredCapability := None; acceptAnySandboxCapability := true; requireOrganization := false;
     missingOrganizationStatus := None; accept := None |}.

(** The user is removed; a request with an old answer drops the row of another organization,
    another user is onboarded. *)
Definition sample_events : list CacheEvent :=
  [CheckRole empty_directory 1030000 (js "org_2") (js "user_1"); ExecuteOther (upsertSetupMemberRole 1040000 (js "org_1") (js "user_2"));
   CheckSender empty_directory 1050000 (js "org_1") (js "user_1"); ExecuteDecided 0].

Lemma membership_revoked_witness :
  let d0 := (foldl cache_event (sample_cached, [removed_member (js "org_2") (js "user_1")]) sample_events).1 in
  match authorize empty_directory 1060000 open_options sample_request d0 with
  | (Ok (inr ctx), _) => au_orgId ctx <> Some (js "org_1")
  | _ => False
  end /\
  match authorize empty_directory 1059999 open_options sample_request d0 with
  | (Ok (inr ctx), _) => au_orgId ctx = Some (js "org_1")
  | _ => False
  end.
Proof.
  cbv zeta. split; [|vm_compute; reflexivity].
  destruct (authorize _ 1060000 _ _ _) as [[[e|ctx]|] d'] eqn:E; [vm_compute in E; discriminate| |vm_compute in E; discriminate].
  intros Ho. assert (ctx_tokenType ctx = TZero) as Hz by (vm_compute in E; injection E as <- _; reflexivity).
  destruct (membership_revoked 1000000 (js "org_1") (js "user_1") sample_events sample_cached [removed_member (js "org_2") (js "user_1")]
    1060000 open_options sample_request empty_directory) as [Hs _].
  - intros row Hrow. vm_compute in Hrow. injection Hrow as <-. cbn. lia.
  - by repeat constructor.
  - unfold sample_events. constructor; [intros ms role [= <-]; apply not_elem_of_nil|]. constructor; [intros [= Hne]; discriminate Hne|].
    constructor; [intros ms role [= <-]; apply not_elem_of_nil|]. by repeat constructor.
  - intros ms role [= <-]. apply not_elem_of_nil.
  - vm_compute. discriminate.
  - destruct (Hs ctx d' E) as [Hs'|Hs']; [vm_compute in E; injection E as <- _; reflexivity|exact Ho|rewrite Hz in Hs'; discriminate Hs'..].
Defined.

End Auth.
