(* ===== verification/Storage.v ===== *)
(** Volumes and artifacts (turbo/apps/api/src/signals/services/storage-content-hash.service.ts,
    storage-write.service.ts, storage-read.service.ts, storage-volume-upload.service.ts, their
    routes and contracts): versions named by a hash of their content, uploaded by the client to
    the object store and committed, or written by the server. *)

From S2P Require Import Prelude JsString JsValue JsRecord Bytes Json GithubUrl Tokens Auth.
Import Bytes Json GithubUrl Tokens Auth.

Module Storage.

(** ** Data *)

Inductive StorageType := Volume | Artifact.

#[export] Instance storage_type_eq_dec : EqDecision StorageType.
Proof. solve_decision. Defined.

#[export] Instance storage_type_countable : Countable StorageType.
Proof.
  refine (inj_countable' (fun t => match t with Volume => true | Artifact => false end)
    (fun b => if b then Volume else Artifact) _); by intros [].
Defined.

Definition type_text (t : StorageType) : jsstr := match t with Volume => js "volume" | Artifact => js "artifact" end.

Record FileEntryWithHash := { fe_path : jsstr; fe_hash : jsstr; fe_size : Z }.

#[export] Instance file_entry_eq_dec : EqDecision FileEntryWithHash.
Proof. solve_decision. Defined.

(** The unique index of [storages]: organization, owner, name and type. *)
Definition StorageKey : Type := jsstr * jsstr * jsstr * StorageType.

Definition key_org (k : StorageKey) : jsstr := k.1.1.1.
Definition key_user (k : StorageKey) : jsstr := k.1.1.2.
Definition key_name (k : StorageKey) : jsstr := k.1.2.
Definition key_type (k : StorageKey) : StorageType := k.2.

(** The other columns of [storages], and the rows of [storage_versions] and
    [storage_version_lineage]. *)
Record StorageRow := {
  st_id : jsstr; st_s3Prefix : jsstr; st_size : Z; st_fileCount : Z; st_headVersionId : option jsstr; st_updatedAt : Z }.

Record StorageVersionRow := {
  sv_storageId : jsstr; sv_s3Key : jsstr; sv_size : Z; sv_fileCount : Z; sv_message : option jsstr; sv_createdBy : jsstr }.

Record LineageRow := {
  ln_storageId : jsstr; ln_versionId : jsstr; ln_parentVersionId : jsstr; ln_runId : jsstr; ln_storageType : StorageType }.

(** The columns of [agent_runs] read here. *)
Record RunRef := { rf_userId : jsstr; rf_orgId : jsstr }.

Record S3StorageManifest := {
  sm_version : jsstr; sm_createdAt : Z; sm_totalSize : Z; sm_fileCount : Z; sm_files : list FileEntryWithHash }.

(** An object of the bucket: the JSON of a manifest, or bytes that are none. *)
Inductive S3Object := ManifestObject (m : S3StorageManifest) | BytesObject (bytes : list Z).

Record StorageDb := {
  storages : gmap StorageKey StorageRow; storageVersions : gmap jsstr StorageVersionRow;
  lineage : list LineageRow; agentRuns : gmap jsstr RunRef; objects : gmap jsstr S3Object }.

Definition with_storages (f : gmap StorageKey StorageRow -> gmap StorageKey StorageRow) (w : StorageDb) : StorageDb :=
  {| storages := f (storages w); storageVersions := storageVersions w; lineage := lineage w; agentRuns := agentRuns w; objects := objects w |}.
Definition with_versions (f : gmap jsstr StorageVersionRow -> gmap jsstr StorageVersionRow) (w : StorageDb) : StorageDb :=
  {| storages := storages w; storageVersions := f (storageVersions w); lineage := lineage w; agentRuns := agentRuns w; objects := objects w |}.
Definition with_lineage (f : list LineageRow -> list LineageRow) (w : StorageDb) : StorageDb :=
  {| storages := storages w; storageVersions := storageVersions w; lineage := f (lineage w); agentRuns := agentRuns w; objects := objects w |}.
Definition with_objects (f : gmap jsstr S3Object -> gmap jsstr S3Object) (w : StorageDb) : StorageDb :=
  {| storages := storages w; storageVersions := storageVersions w; lineage := lineage w; agentRuns := agentRuns w; objects := f (objects w) |}.

Definition set_head (head : option jsstr) (now : Z) (r : StorageRow) : StorageRow :=
  {| st_id := st_id r; st_s3Prefix := st_s3Prefix r; st_size := st_size r; st_fileCount := st_fileCount r;
     st_headVersionId := head; st_updatedAt := now |}.
Definition set_content (head : jsstr) (size fileCount now : Z) (r : StorageRow) : StorageRow :=
  {| st_id := st_id r; st_s3Prefix := st_s3Prefix r; st_size := size; st_fileCount := fileCount;
     st_headVersionId := Some head; st_updatedAt := now |}.
Definition touch (now : Z) (r : StorageRow) : StorageRow := set_head (st_headVersionId r) now r.

(** [UPDATE storages SET .. WHERE id = ..]. *)
Definition update_storage (id : jsstr) (f : StorageRow -> StorageRow) (w : StorageDb) : StorageDb :=
  with_storages (fmap (fun r => if bool_decide (st_id r = id) then f r else r)) w.

(** ** The object store

    [s3_rejects] is the error a request for a key is refused with, when it is not that the
    object does not exist; [s3_lists] and [s3_deletes] are those of listing a prefix and of
    deleting keys. *)

Record StorageEnv := {
  bucketName : jsstr; s3_rejects : jsstr -> option jsstr; s3_lists : jsstr -> option jsstr; s3_deletes : list jsstr -> option jsstr }.

(** The hash of [node:crypto], the signed URLs of the store, and the archives of the tar library
    and of [node:zlib]. *)
Class StorageServices := {
  sha256_hex : list Z -> jsstr;
  presigned_put_url : jsstr -> jsstr -> jsstr -> Z -> jsstr;
  presigned_get_url : jsstr -> jsstr -> Z -> jsstr;
  tar_gzip : list (list jsstr * list Z) -> list jsstr -> result (list Z);
  gzip_sync : list Z -> list Z }.

Definition archive_key (s3Key : jsstr) : jsstr := s3Key ++ js "/archive.tar.gz".
Definition manifest_key (s3Key : jsstr) : jsstr := s3Key ++ js "/manifest.json".

Definition s3ObjectExists (env : StorageEnv) (key : jsstr) (w : StorageDb) : result bool :=
  match s3_rejects env key with
  | Some e => Throw e
  | None => Ok (bool_decide (is_Some (objects w !! key)))
  end.

Definition verifyS3FilesExist (env : StorageEnv) (s3Key : jsstr) (fileCount : Z) (w : StorageDb) : result bool :=
  manifestExists ← s3ObjectExists env (manifest_key s3Key) w;
  archiveExists ← (if 0 <? fileCount then s3ObjectExists env (archive_key s3Key) w else Ok true);
  Ok (manifestExists && archiveExists).

(** A body that is not a manifest does not parse as one. *)
Definition downloadManifest (env : StorageEnv) (s3Key : jsstr) (w : StorageDb) : result S3StorageManifest :=
  match s3_rejects env (manifest_key s3Key) with
  | Some e => Throw e
  | None =>
      match objects w !! manifest_key s3Key with
      | Some (ManifestObject m) => Ok m
      | Some (BytesObject _) => Throw (js "SyntaxError")
      | None => Throw (js "NoSuchKey")
      end
  end.

Definition downloadS3Buffer (env : StorageEnv) (key : jsstr) (w : StorageDb) : result S3Object :=
  match s3_rejects env key with
  | Some e => Throw e
  | None => match objects w !! key with Some o => Ok o | None => Throw (js "NoSuchKey") end
  end.

Definition putS3Object (env : StorageEnv) (key : jsstr) (body : S3Object) (w : StorageDb) : result StorageDb :=
  match s3_rejects env key with
  | Some e => Throw e
  | None => Ok (with_objects (<[key := body]>) w)
  end.

Section Services.
Context `{StorageServices}.

(** ** Version identifiers (storage-content-hash.service.ts) *)

Definition hashFileContent (content : list Z) : jsstr := sha256_hex content.

Definition file_line (file : FileEntryWithHash) : jsstr := fe_path file ++ js ":" ++ fe_hash file.

(** The text that is hashed. *)
Definition content_text (storageId : jsstr) (files : list FileEntryWithHash) : jsstr :=
  js "storage:" ++ storageId ++ [10] ++
  match files with [] => [] | _ => join [10] (sort_strings (file_line <$> files)) end.

Definition computeContentHashFromHashes (storageId : jsstr) (files : list FileEntryWithHash) : jsstr :=
  sha256_hex (utf8 (content_text storageId files)).

(** ** Shared checks *)

Inductive StorageError :=
| BadRequest (message : jsstr)
| NotFound (message : jsstr)
| PayloadTooLarge (message : jsstr)
| InternalError (message : jsstr)
| S3FilesMissing.

Definition storageServiceNotConfigured : StorageError := InternalError (js "Storage service is not properly configured").

Definition storageUserId (type : StorageType) (userId : jsstr) : jsstr :=
  match type with Volume => VOLUME_ORG_USER_ID | Artifact => userId end.

Definition invalidOrgContext : StorageError :=
  BadRequest (js "Explicit org context required " ++ [0x2014] ++ js " ensure active org in session").

(** The run with this identifier, if it belongs to the user. *)
Definition run_of_user (runId userId : jsstr) (w : StorageDb) : option RunRef :=
  r ← agentRuns w !! runId; if bool_decide (rf_userId r = userId) then Some r else None.

Definition resolveStorageRuntimeOrg (auth : AuthContext) (runId : option jsstr) (w : StorageDb) : StorageError + jsstr :=
  match au_runId auth with
  | Some authRunId =>
      match run_of_user authRunId (au_userId auth) w with
      | Some run => inr (rf_orgId run)
      | None => inl (NotFound (js "Agent run not found"))
      end
  | None =>
      match truthy_text (au_orgId auth) with
      | None => inl invalidOrgContext
      | Some orgId =>
          match truthy_text runId with
          | Some runId =>
              match run_of_user runId (au_userId auth) w with
              | Some _ => inr orgId
              | None => inl (NotFound (js "Agent run not found"))
              end
          | None => inr orgId
          end
      end
  end.

Definition totalSize (files : list FileEntryWithHash) : Z := foldl (fun sum file => sum + fe_size file) 0 files.

Definition findStorageVersion (storageId versionId : jsstr) (w : StorageDb) : option StorageVersionRow :=
  v ← storageVersions w !! versionId; if bool_decide (sv_storageId v = storageId) then Some v else None.

Definition s3_prefix (k : StorageKey) : jsstr := key_org k ++ js "/" ++ type_text (key_type k) ++ js "/" ++ key_name k.

(** ** Preparing an upload (storage-write.service.ts) *)

Record StorageChanges := { sc_deleted : option (list jsstr) }.

Record PrepareStorageInput := {
  pi_auth : AuthContext; pi_storageName : jsstr; pi_storageType : StorageType; pi_files : list FileEntryWithHash;
  pi_force : option bool; pi_runId : option jsstr; pi_baseVersion : option jsstr; pi_changes : option StorageChanges }.

Record StorageUpload := { up_key : jsstr; up_presignedUrl : jsstr }.

Inductive PrepareStorageResponse :=
| PrepareExisting (versionId : jsstr)
| PrepareUploads (versionId : jsstr) (archive manifest : StorageUpload)
| PrepareError (error : StorageError).

Definition mergeWithBaseVersion (env : StorageEnv) (storageId : jsstr) (files : list FileEntryWithHash) (baseVersion : jsstr)
    (changes : StorageChanges) (w : StorageDb) : result (list FileEntryWithHash) :=
  match findStorageVersion storageId baseVersion w with
  | None => Ok files
  | Some baseVersionRecord =>
      baseManifest ← downloadManifest env (sv_s3Key baseVersionRecord) w;
      let deleted := default [] (sc_deleted changes) in
      Ok (filter (fun file => fe_path file ∉ deleted /\ fe_path file ∉ fe_path <$> files) (sm_files baseManifest) ++ files)
  end.

Definition upsertStorageForPrepare (now : Z) (newId : jsstr) (key : StorageKey) (w : StorageDb) : StorageRow * StorageDb :=
  let row := match storages w !! key with
    | Some r => touch now r
    | None => {| st_id := newId; st_s3Prefix := s3_prefix key; st_size := 0; st_fileCount := 0;
                 st_headVersionId := None; st_updatedAt := now |}
    end in
  (row, with_storages (<[key := row]>) w).

Definition resolvePreparedFiles (env : StorageEnv) (storageId : jsstr) (input : PrepareStorageInput) (w : StorageDb) :
    list FileEntryWithHash :=
  match truthy_text (pi_baseVersion input), pi_changes input with
  | Some baseVersion, Some changes =>
      match mergeWithBaseVersion env storageId (pi_files input) baseVersion changes w with
      | Ok merged => merged
      | Throw _ => pi_files input
      end
  | _, _ => pi_files input
  end.

Definition existingStorageVersionIsReusable (env : StorageEnv) (storageId versionId : jsstr) (force : option bool) (w : StorageDb) :
    result bool :=
  if bool_decide (force = Some true) then Ok false
  else
    match findStorageVersion storageId versionId w with
    | None => Ok false
    | Some existingVersion => verifyS3FilesExist env (sv_s3Key existingVersion) (sv_fileCount existingVersion) w
    end.

Definition version_key (storage : StorageRow) (versionId : jsstr) : jsstr := st_s3Prefix storage ++ js "/" ++ versionId.

Definition createStorageUploadResponse (env : StorageEnv) (storage : StorageRow) (versionId : jsstr) : PrepareStorageResponse :=
  let s3Key := version_key storage versionId in
  let archiveKey := archive_key s3Key in
  let manifestKey := manifest_key s3Key in
  PrepareUploads versionId
    {| up_key := archiveKey; up_presignedUrl := presigned_put_url (bucketName env) archiveKey (js "application/gzip") 3600 |}
    {| up_key := manifestKey; up_presignedUrl := presigned_put_url (bucketName env) manifestKey (js "application/json") 3600 |}.

(** packages/api-contracts/src/contracts/storages.ts *)
Definition MAX_FILE_SIZE_BYTES : Z := 104857600.

(** The insert always returns its row. [before] and [after] are what other requests do before
    and after it. *)
Definition prepareStorageUploadForAuth (env : StorageEnv) (now : Z) (newId : jsstr) (before after : StorageDb -> StorageDb) (args : PrepareStorageInput) (w : StorageDb) :
    result PrepareStorageResponse * StorageDb :=
  if MAX_FILE_SIZE_BYTES <? totalSize (pi_files args)
  then (Ok (PrepareError (PayloadTooLarge (js "Upload rejected: total file size exceeds 100MB limit"))), w)
  else
    match resolveStorageRuntimeOrg (pi_auth args) (pi_runId args) w with
    | inl error => (Ok (PrepareError error), w)
    | inr orgId =>
        let storageOwner := storageUserId (pi_storageType args) (au_userId (pi_auth args)) in
        let '(storage, w0) := upsertStorageForPrepare now newId (orgId, storageOwner, pi_storageName args, pi_storageType args) (before w) in
        let w1 := after w0 in
        if bool_decide (bucketName env = []) then (Ok (PrepareError storageServiceNotConfigured), w1)
        else
          let mergedFiles := resolvePreparedFiles env (st_id storage) args w1 in
          let versionId := computeContentHashFromHashes (st_id storage) mergedFiles in
          match existingStorageVersionIsReusable env (st_id storage) versionId (pi_force args) w1 with
          | Throw e => (Throw e, w1)
          | Ok true => (Ok (PrepareExisting versionId), w1)
          | Ok false => (Ok (createStorageUploadResponse env storage versionId), w1)
          end
    end.

(** ** Committing an upload *)

Record CommitStorageInput := {
  ci_auth : AuthContext; ci_storageName : jsstr; ci_storageType : StorageType; ci_versionId : jsstr;
  ci_files : list FileEntryWithHash; ci_runId : option jsstr; ci_parentVersionId : option jsstr; ci_message : option jsstr }.

Record CommitBody := {
  cb_versionId : jsstr; cb_storageName : jsstr; cb_size : Z; cb_fileCount : Z; cb_deduplicated : option bool }.

Inductive CommitStorageResponse := CommitOk (body : CommitBody) | CommitError (error : StorageError).

Definition commitExistingStorageVersion (env : StorageEnv) (now : Z) (storage : StorageRow) (version : StorageVersionRow)
    (input : CommitStorageInput) (w : StorageDb) : result CommitStorageResponse * StorageDb :=
  match verifyS3FilesExist env (sv_s3Key version) (sv_fileCount version) w with
  | Throw e => (Throw e, w)
  | Ok false => (Ok (CommitError S3FilesMissing), w)
  | Ok true =>
      let w1 := if bool_decide (st_headVersionId storage = Some (ci_versionId input)) then w
                else update_storage (st_id storage) (set_head (Some (ci_versionId input)) now) w in
      (Ok (CommitOk {| cb_versionId := ci_versionId input; cb_storageName := ci_storageName input; cb_size := sv_size version;
                       cb_fileCount := sv_fileCount version; cb_deduplicated := Some true |}), w1)
  end.

Definition verifyUploadedStorageFiles (env : StorageEnv) (s3Key : jsstr) (fileCount : Z) (w : StorageDb) : result (option StorageError) :=
  manifestExists ← s3ObjectExists env (manifest_key s3Key) w;
  archiveExists ← (if 0 <? fileCount then s3ObjectExists env (archive_key s3Key) w else Ok true);
  Ok (if negb manifestExists then Some (BadRequest (js "Manifest not uploaded - upload failed or incomplete"))
      else if (0 <? fileCount) && negb archiveExists then Some (BadRequest (js "Archive not uploaded - upload failed or incomplete"))
      else None).

(** Whether a row of [storages] has this identifier. *)
Definition storage_exists (id : jsstr) (w : StorageDb) : bool :=
  existsb (fun kv => bool_decide (st_id kv.2 = id)) (map_to_list (storages w)).

(** [INSERT INTO storage_versions .. ON CONFLICT DO NOTHING], with its key on the identifier: a
    row that is inserted refers to a storage that exists. *)
Definition insert_version (id : jsstr) (v : StorageVersionRow) (w : StorageDb) : result StorageDb :=
  match storageVersions w !! id with
  | Some _ => Ok w
  | None =>
      if storage_exists (sv_storageId v) w then Ok (with_versions (<[id := v]>) w)
      else Throw (js "storage_versions_storage_id_storages_id_fk")
  end.

(** One transaction. *)
Definition insertStorageVersionAndUpdateHead (now : Z) (storageId s3Key : jsstr) (input : CommitStorageInput) (size fileCount : Z)
    (w : StorageDb) : result StorageDb :=
  w1 ← insert_version (ci_versionId input)
    {| sv_storageId := storageId; sv_s3Key := s3Key; sv_size := size; sv_fileCount := fileCount; sv_message := ci_message input;
       sv_createdBy := match truthy_text (ci_runId input) with Some _ => js "agent" | None => js "user" end |} w;
  match findStorageVersion storageId (ci_versionId input) w1 with
  | None => Throw (js "Version " ++ ci_versionId input ++ js " not found after insert")
  | Some _ => Ok (update_storage storageId (set_content (ci_versionId input) size fileCount now) w1)
  end.

(** [others] is what other requests do between the checks and the transaction. *)
Definition commitNewStorageVersion (env : StorageEnv) (now : Z) (others : StorageDb -> StorageDb) (storage : StorageRow)
    (input : CommitStorageInput) (w : StorageDb) : result CommitStorageResponse * StorageDb :=
  let s3Key := version_key storage (ci_versionId input) in
  let fileCount := Z.of_nat (length (ci_files input)) in
  match verifyUploadedStorageFiles env s3Key fileCount w with
  | Throw e => (Throw e, w)
  | Ok (Some uploadError) => (Ok (CommitError uploadError), w)
  | Ok None =>
      let size := totalSize (ci_files input) in
      let w1 := others w in
      match insertStorageVersionAndUpdateHead now (st_id storage) s3Key input size fileCount w1 with
      | Throw e => (Throw e, w1)
      | Ok w2 => (Ok (CommitOk {| cb_versionId := ci_versionId input; cb_storageName := ci_storageName input; cb_size := size;
                                  cb_fileCount := fileCount; cb_deduplicated := None |}), w2)
      end
  end.

Definition findStorageForCommit (orgId storageOwner : jsstr) (input : CommitStorageInput) (w : StorageDb) : option StorageRow :=
  storages w !! (orgId, storageOwner, ci_storageName input, ci_storageType input).

(** A failed insert is logged: the run and the storage have to exist. *)
Definition recordStorageLineage (storageId versionId : jsstr) (parentVersionId runId : option jsstr) (storageType : StorageType)
    (w : StorageDb) : StorageDb :=
  match truthy_text parentVersionId, truthy_text runId, storageType with
  | Some parentVersionId, Some runId, Artifact =>
      if bool_decide (is_Some (agentRuns w !! runId)) && storage_exists storageId w
      then with_lineage (fun l => l ++ [{| ln_storageId := storageId; ln_versionId := versionId; ln_parentVersionId := parentVersionId;
                                           ln_runId := runId; ln_storageType := storageType |}]) w
      else w
  | _, _, _ => w
  end.

Definition commitStorageUploadForAuth (env : StorageEnv) (now : Z) (others : StorageDb -> StorageDb) (args : CommitStorageInput)
    (w : StorageDb) : result CommitStorageResponse * StorageDb :=
  match resolveStorageRuntimeOrg (ci_auth args) (ci_runId args) w with
  | inl error => (Ok (CommitError error), w)
  | inr orgId =>
      let storageOwner := storageUserId (ci_storageType args) (au_userId (ci_auth args)) in
      match findStorageForCommit orgId storageOwner args w with
      | None => (Ok (CommitError (NotFound (js "Storage " ++ quoted (ci_storageName args) ++ js " not found"))), w)
      | Some storage =>
          if negb (bool_decide (computeContentHashFromHashes (st_id storage) (ci_files args) = ci_versionId args))
          then (Ok (CommitError (BadRequest (js "Version ID mismatch - files may have changed"))), w)
          else if bool_decide (bucketName env = []) then (Ok (CommitError storageServiceNotConfigured), w)
          else
            match findStorageVersion (st_id storage) (ci_versionId args) w with
            | Some existingVersion => commitExistingStorageVersion env now storage existingVersion args (others w)
            | None =>
                match commitNewStorageVersion env now others storage args w with
                | (Ok (CommitOk body), w1) =>
                    (Ok (CommitOk body),
                     recordStorageLineage (st_id storage) (ci_versionId args) (ci_parentVersionId args) (ci_runId args)
                       (ci_storageType args) w1)
                | r => r
                end
            end
      end
  end.

(** ** Routes (storages-prepare.ts, storages-commit.ts, webhooks-agent-storage.ts) and contracts *)

(** fileEntryWithHashSchema *)
Definition file_entry_ok (file : FileEntryWithHash) : bool :=
  negb (bool_decide (fe_path file = [])) && bool_decide (length (fe_hash file) = 64%nat) &&
  (0 <=? fe_size file) && (fe_size file <=? MAX_FILE_SIZE_BYTES).

Record PrepareBody := {
  pb_storageName : jsstr; pb_storageType : StorageType; pb_files : list FileEntryWithHash; pb_force : option bool;
  pb_runId : option jsstr; pb_baseVersion : option jsstr; pb_changes : option StorageChanges }.

Record CommitRequestBody := {
  cq_storageName : jsstr; cq_storageType : StorageType; cq_versionId : jsstr; cq_files : list FileEntryWithHash;
  cq_runId : option jsstr; cq_parentVersionId : option jsstr; cq_message : option jsstr }.

Definition prepare_body_ok (b : PrepareBody) : bool :=
  negb (bool_decide (pb_storageName b = [])) && forallb file_entry_ok (pb_files b).

Definition commit_body_ok (b : CommitRequestBody) : bool :=
  negb (bool_decide (cq_storageName b = [])) && negb (bool_decide (cq_versionId b = [])) && forallb file_entry_ok (cq_files b).

Inductive RouteReply (A : Type) := InvalidBody | RunMismatch | Reply (a : A).
Arguments InvalidBody {A}.
Arguments RunMismatch {A}.
Arguments Reply {A} a.

Definition prepare_input (auth : AuthContext) (b : PrepareBody) : PrepareStorageInput :=
  {| pi_auth := auth; pi_storageName := pb_storageName b; pi_storageType := pb_storageType b; pi_files := pb_files b;
     pi_force := pb_force b; pi_runId := pb_runId b; pi_baseVersion := pb_baseVersion b; pi_changes := pb_changes b |}.

Definition commit_input (auth : AuthContext) (b : CommitRequestBody) : CommitStorageInput :=
  {| ci_auth := auth; ci_storageName := cq_storageName b; ci_storageType := cq_storageType b; ci_versionId := cq_versionId b;
     ci_files := cq_files b; ci_runId := cq_runId b; ci_parentVersionId := cq_parentVersionId b; ci_message := cq_message b |}.

Definition reply {A} (r : result A * StorageDb) : result (RouteReply A) * StorageDb :=
  match r with (Ok a, w) => (Ok (Reply a), w) | (Throw e, w) => (Throw e, w) end.

Definition prepareStorageInner (env : StorageEnv) (now : Z) (newId : jsstr) (before after : StorageDb -> StorageDb) (auth : AuthContext)
    (body : PrepareBody) (w : StorageDb) :
    result (RouteReply PrepareStorageResponse) * StorageDb :=
  if negb (prepare_body_ok body) then (Ok InvalidBody, w)
  else reply (prepareStorageUploadForAuth env now newId before after (prepare_input auth body) w).

(** The contract of this route has no parent version: the schema drops it. *)
Definition commitStorageInner (env : StorageEnv) (now : Z) (others : StorageDb -> StorageDb) (auth : AuthContext)
    (body : CommitRequestBody) (w : StorageDb) : result (RouteReply CommitStorageResponse) * StorageDb :=
  if negb (commit_body_ok body) then (Ok InvalidBody, w)
  else reply (commitStorageUploadForAuth env now others
    (commit_input auth {| cq_storageName := cq_storageName body; cq_storageType := cq_storageType body; cq_versionId := cq_versionId body;
       cq_files := cq_files body; cq_runId := cq_runId body; cq_parentVersionId := None; cq_message := cq_message body |}) w).

Section Webhooks.
Context `{TokenRuntime}.

(** The contracts of the webhooks require the run. *)
Definition webhook_run (runId : option jsstr) : option jsstr := truthy_text runId.

Definition prepareStorage (env : StorageEnv) (now : Z) (newId : jsstr) (before after : StorageDb -> StorageDb)
    (authorization : option jsstr) (body : PrepareBody) (w : StorageDb) :
    result (RouteReply PrepareStorageResponse) * StorageDb :=
  match webhook_run (pb_runId body) with
  | None => (Ok InvalidBody, w)
  | Some runId =>
      if negb (prepare_body_ok body) then (Ok InvalidBody, w)
      else
        match getSandboxAuthForRun now runId authorization with
        | None => (Ok RunMismatch, w)
        | Some auth => reply (prepareStorageUploadForAuth env now newId before after (prepare_input (sandbox_context auth) body) w)
        end
  end.

Definition commitStorage (env : StorageEnv) (now : Z) (others : StorageDb -> StorageDb) (authorization : option jsstr)
    (body : CommitRequestBody) (w : StorageDb) : result (RouteReply CommitStorageResponse) * StorageDb :=
  match webhook_run (cq_runId body) with
  | None => (Ok InvalidBody, w)
  | Some runId =>
      if negb (commit_body_ok body) then (Ok InvalidBody, w)
      else
        match getSandboxAuthForRun now runId authorization with
        | None => (Ok RunMismatch, w)
        | Some auth => reply (commitStorageUploadForAuth env now others (commit_input (sandbox_context auth) body) w)
        end
  end.

End Webhooks.

(** ** Reads (storage-read.service.ts) *)

Definition DOWNLOAD_URL_TTL_SECONDS : Z := 3600.
Definition MIN_VERSION_PREFIX_LENGTH : nat := 8.

Definition is_hex (c : Z) : bool := bool_decide (is_Some (hex_value c)).

(** [/^[a-f0-9]{8,64}$/i] *)
Definition isValidVersionPrefix (version : jsstr) : bool :=
  (8 <=? length version)%nat && (length version <=? 64)%nat && forallb is_hex version.

(** [SELECT .. WHERE storage_id = .. AND id LIKE 'prefix%' LIMIT 2] for a prefix without
    wildcards; which rows a limit keeps is up to the database. *)
Definition versions_like (storageId prefix : jsstr) (w : StorageDb) : list (jsstr * StorageVersionRow) :=
  take 2 (filter (fun kv => sv_storageId kv.2 = storageId /\ starts_with kv.1 prefix = true) (map_to_list (storageVersions w))).

Definition version_not_found (version : jsstr) : jsstr := js "Version " ++ quoted version ++ js " not found".

Definition resolveVersionByPrefix (storageId versionIdOrPrefix : jsstr) (w : StorageDb) : StorageError + (jsstr * StorageVersionRow) :=
  match findStorageVersion storageId versionIdOrPrefix w with
  | Some exactMatch => inr (versionIdOrPrefix, exactMatch)
  | None =>
      if negb (isValidVersionPrefix versionIdOrPrefix) then
        if (length versionIdOrPrefix <? MIN_VERSION_PREFIX_LENGTH)%nat
        then inl (BadRequest (js "Version prefix too short. Minimum 8 characters required."))
        else inl (NotFound (version_not_found versionIdOrPrefix))
      else
        match versions_like storageId (ascii_lower <$> versionIdOrPrefix) w with
        | [] => inl (NotFound (version_not_found versionIdOrPrefix))
        | [matchedVersion] => inr matchedVersion
        | _ => inl (BadRequest (js "Ambiguous version prefix " ++ quoted versionIdOrPrefix ++ js ". Please use more characters."))
        end
  end.

Record StorageListItem := { li_name : jsstr; li_size : Z; li_fileCount : Z; li_updatedAt : Z }.

(** Latest first. *)
Fixpoint insert_item (x : StorageListItem) (l : list StorageListItem) : list StorageListItem :=
  match l with
  | [] => [x]
  | y :: l' => if li_updatedAt y <? li_updatedAt x then x :: l else y :: insert_item x l'
  end.

Definition listStoragesForAuth (auth : AuthContext) (type : StorageType) (w : StorageDb) : StorageError + list StorageListItem :=
  match resolveStorageRuntimeOrg auth None w with
  | inl error => inl error
  | inr orgId =>
      let rows := filter (fun kv => key_org kv.1 = orgId /\ key_user kv.1 = storageUserId type (au_userId auth) /\ key_type kv.1 = type)
        (map_to_list (storages w)) in
      inr (foldr insert_item [] ((fun kv => {| li_name := key_name kv.1; li_size := st_size kv.2; li_fileCount := st_fileCount kv.2;
                                               li_updatedAt := st_updatedAt kv.2 |}) <$> rows))
  end.

Inductive StorageDownload :=
| DownloadUrl (url versionId : jsstr) (fileCount size : Z)
| DownloadEmpty (versionId : jsstr).

(** The version asked for, or the head of the storage. *)
Definition resolve_download (storage : StorageRow) (name : jsstr) (version : option jsstr) (w : StorageDb) :
    StorageError + (jsstr * StorageVersionRow) :=
  match truthy_text version with
  | Some version => resolveVersionByPrefix (st_id storage) version w
  | None =>
      match truthy_text (st_headVersionId storage) with
      | None => inl (NotFound (js "Storage " ++ quoted name ++ js " has no versions"))
      | Some head =>
          match storageVersions w !! head with
          | None => inl (NotFound (js "Storage " ++ quoted name ++ js " HEAD version not found"))
          | Some v => inr (head, v)
          end
      end
  end.

Definition downloadStorageForAuth (env : StorageEnv) (auth : AuthContext) (name : jsstr) (type : StorageType) (version : option jsstr)
    (w : StorageDb) : StorageError + StorageDownload :=
  match resolveStorageRuntimeOrg auth None w with
  | inl error => inl error
  | inr orgId =>
      match storages w !! (orgId, storageUserId type (au_userId auth), name, type) with
      | None => inl (NotFound (js "Storage " ++ quoted name ++ js " not found"))
      | Some storage =>
          match resolve_download storage name version w with
          | inl error => inl error
          | inr (versionId, v) =>
              if sv_fileCount v =? 0 then inr (DownloadEmpty versionId)
              else if bool_decide (bucketName env = []) then inl storageServiceNotConfigured
              else inr (DownloadUrl (presigned_get_url (bucketName env) (archive_key (sv_s3Key v)) DOWNLOAD_URL_TTL_SECONDS)
                          versionId (sv_fileCount v) (sv_size v))
          end
      end
  end.

(** ** The memory of a user (zero-memory-detail.service.ts), up to the extraction of the
    text files from the archive *)

Record MemoryDetail := {
  md_exists : bool; md_size : Z; md_fileCount : Z; md_updatedAt : option Z; md_files : list (jsstr * Z) }.

Definition emptyMemory (exists_ : bool) : MemoryDetail :=
  {| md_exists := exists_; md_size := 0; md_fileCount := 0; md_updatedAt := None; md_files := [] |}.

(** [p.replace(/^\.\//, "")] *)
Definition normalize (p : jsstr) : jsstr := if starts_with p (js "./") then drop 2 p else p.

Definition zeroMemoryDetail (env : StorageEnv) (orgId userId : jsstr) (w : StorageDb) : result MemoryDetail :=
  match storages w !! (orgId, userId, MEMORY_ARTIFACT_NAME, Artifact) with
  | None => Ok (emptyMemory false)
  | Some storage =>
      let base := {| md_exists := true; md_size := st_size storage; md_fileCount := st_fileCount storage;
                     md_updatedAt := Some (st_updatedAt storage); md_files := [] |} in
      match truthy_text (st_headVersionId storage) with
      | None => Ok base
      | Some head =>
          if st_fileCount storage =? 0 then Ok base
          else
            match storageVersions w !! head with
            | None => Ok base
            | Some version =>
                if bool_decide (bucketName env = []) then Ok base
                else
                  manifest ← downloadManifest env (sv_s3Key version) w;
                  _ ← downloadS3Buffer env (archive_key (sv_s3Key version)) w;
                  Ok {| md_exists := true; md_size := st_size storage; md_fileCount := st_fileCount storage;
                        md_updatedAt := Some (st_updatedAt storage);
                        md_files := (fun f => (normalize (fe_path f), fe_size f)) <$> sm_files manifest |}
            end
      end
  end.

End Services.

End Storage.
