(* ===== verification/StorageRuns.v ===== *)
(** Storages of runs (turbo/apps/api/src/signals/services/agent-run-storage.service.ts and
    storage-volume-upload.service.ts): volumes the server writes, the artifacts of a run, and
    the manifest of what its sandbox mounts. *)

From S2P Require Import Prelude JsString JsValue JsRecord Bytes Json References VariableExpander GithubUrl Templates Tokens Auth RunEnvironment Storage.
Import Bytes Json VariableExpander GithubUrl Tokens Storage.

Module StorageRuns.

(** ** Volumes written by the server (storage-volume-upload.service.ts) *)

Record VolumeFileInput := { vf_path : jsstr; vf_content : jsstr }.

Record UploadVolumeInput := { uv_orgId : jsstr; uv_storageName : jsstr; uv_files : list VolumeFileInput }.

Record MaterializedVolumeFile := { mf_path : jsstr; mf_content : list Z; mf_hash : jsstr; mf_size : Z }.

(** *** Paths of [node:path] on POSIX, as lists of segments below the root *)

Definition segments (path : jsstr) : list jsstr := split_on 47 path.

Definition path_step (stack : list jsstr) (segment : jsstr) : list jsstr :=
  if bool_decide (segment = []) || bool_decide (segment = js ".") then stack
  else if bool_decide (segment = js "..") then take (length stack - 1) stack
  else stack ++ [segment].

(** [resolve(join(dir, path))] of an absolute directory. *)
Definition resolve_join (dir : list jsstr) (path : jsstr) : list jsstr := foldl path_step dir (segments path).

Fixpoint common_length (a b : list jsstr) : nat :=
  match a, b with
  | x :: a', y :: b' => if bool_decide (x = y) then S (common_length a' b') else O
  | _, _ => O
  end.

(** [relative(from, to)]. *)
Definition relative (from to : list jsstr) : jsstr :=
  let common := common_length from to in
  join (js "/") (replicate (length from - common) (js "..") ++ drop common to).

Definition escapes (relativePath : jsstr) : bool :=
  bool_decide (relativePath = js "..") || starts_with relativePath (js "../") || starts_with relativePath (js "/").

(** The files written to the new directory, which was empty, by path. *)
Definition Files : Type := list (list jsstr * list Z).

Fixpoint strict_prefix (a b : list jsstr) : bool :=
  match a, b with
  | [], _ :: _ => true
  | x :: a', y :: b' => bool_decide (x = y) && strict_prefix a' b'
  | _, _ => false
  end.

(** [mkdirSync(dirname(path), { recursive: true })] and [writeFileSync(path, content)]: a part of
    the path may not be a file, and the path may not be a directory. A zero in the path is
    refused; the lengths the file system accepts are not modelled. *)
Definition write_file (path : list jsstr) (content : list Z) (fs : Files) : result Files :=
  if existsb (existsb (Z.eqb 0)) path then Throw (js "ERR_INVALID_ARG_VALUE")
  else if existsb (fun f => strict_prefix f.1 path) fs then Throw (js "ENOTDIR")
  else if bool_decide (path = []) || existsb (fun f => strict_prefix path f.1) fs then Throw (js "EISDIR")
  else Ok (filter (fun f => f.1 <> path) fs ++ [(path, content)]).

Fixpoint writeFilesToDirectory (tmpDir : list jsstr) (files : list MaterializedVolumeFile) (fs : Files) : result Files :=
  match files with
  | [] => Ok fs
  | file :: files' =>
      let filePath := resolve_join tmpDir (mf_path file) in
      if escapes (relative tmpDir filePath) then Throw (js "Invalid file path: " ++ mf_path file)
      else fs' ← write_file (drop (length tmpDir) filePath) (mf_content file) fs; writeFilesToDirectory tmpDir files' fs'
  end.

(** Several writes to the store at once: those that are not refused take place, and the first
    error is reported. *)
Fixpoint put_all (env : StorageEnv) (puts : list (jsstr * S3Object)) (w : StorageDb) : option jsstr * StorageDb :=
  match puts with
  | [] => (None, w)
  | (key, body) :: puts' =>
      match putS3Object env key body w with
      | Ok w1 => put_all env puts' w1
      | Throw e => (Some e, (put_all env puts' w).2)
      end
  end.

Section Services.
Context `{StorageServices}.

Definition materializeFiles (files : list VolumeFileInput) : list MaterializedVolumeFile :=
  (fun file => let content := utf8 (vf_content file) in
     {| mf_path := vf_path file; mf_content := content; mf_hash := hashFileContent content; mf_size := Z.of_nat (length content) |}) <$> files.

Definition createArchiveBuffer (fs : Files) (files : list MaterializedVolumeFile) : result (list Z) := tar_gzip fs (mf_path <$> files).

Definition file_entry (f : MaterializedVolumeFile) : FileEntryWithHash :=
  {| fe_path := mf_path f; fe_hash := mf_hash f; fe_size := mf_size f |}.

(** The transaction at the end. *)
Definition commitVolumeVersion (timestamp : Z) (storageId versionId s3Key : jsstr) (size fileCount : Z) (w : StorageDb) : result StorageDb :=
  w1 ← insert_version versionId
    {| sv_storageId := storageId; sv_s3Key := s3Key; sv_size := size; sv_fileCount := fileCount; sv_message := None;
       sv_createdBy := js "user" |} w;
  match findStorageVersion storageId versionId w1 with
  | None => Throw (js "Version " ++ versionId ++ js " not found after insert")
  | Some _ => Ok (update_storage storageId (set_content versionId size fileCount timestamp) w1)
  end.

(** [others] is what other requests do before the transaction. *)
Definition uploadVolumeServerSide (env : StorageEnv) (timestamp : Z) (newId : jsstr) (tmpDir : list jsstr)
    (others : StorageDb -> StorageDb) (args : UploadVolumeInput) (w : StorageDb) : result (jsstr * jsstr) * StorageDb :=
  let files := materializeFiles (uv_files args) in
  let total := foldl (fun sum file => sum + mf_size file) 0 files in
  match (fs ← writeFilesToDirectory tmpDir files []; createArchiveBuffer fs files) with
  | Throw e => (Throw e, w)
  | Ok archiveBuffer =>
      let key := (uv_orgId args, VOLUME_ORG_USER_ID, uv_storageName args, Volume) in
      let s3Prefix := s3_prefix key in
      let '(storage, w1) := upsertStorageForPrepare timestamp newId key w in
      let fileEntries := file_entry <$> files in
      let versionId := computeContentHashFromHashes (st_id storage) fileEntries in
      let s3Key := s3Prefix ++ js "/" ++ versionId in
      let fileCount := Z.of_nat (length files) in
      let manifest := {| sm_version := versionId; sm_createdAt := timestamp; sm_totalSize := total; sm_fileCount := fileCount;
                         sm_files := fileEntries |} in
      match put_all env [(archive_key s3Key, BytesObject archiveBuffer); (manifest_key s3Key, ManifestObject manifest)] w1 with
      | (Some e, w2) => (Throw e, w2)
      | (None, w2) =>
          let w3 := others w2 in
          match commitVolumeVersion timestamp (st_id storage) versionId s3Key total fileCount w3 with
          | Throw e => (Throw e, w3)
          | Ok w4 => (Ok (uv_storageName args, versionId), w4)
          end
      end
  end.

(** ** The artifacts of a run *)

Definition createEmptyStorageManifest (now : Z) : S3StorageManifest :=
  {| sm_version := js "1"; sm_createdAt := now; sm_totalSize := 0; sm_fileCount := 0; sm_files := [] |}.

(** [gzipSync(Buffer.alloc(1024, 0))]: an archive without entries. *)
Definition EMPTY_TAR_GZ : list Z := gzip_sync (replicate 1024 0).

Definition new_artifact (newId : jsstr) (key : StorageKey) (now : Z) : StorageRow :=
  {| st_id := newId; st_s3Prefix := s3_prefix key; st_size := 0; st_fileCount := 0; st_headVersionId := None; st_updatedAt := now |}.

(** [INSERT INTO storages .. ON CONFLICT DO NOTHING RETURNING ..]. *)
Definition insert_artifact (now : Z) (newId : jsstr) (key : StorageKey) (w : StorageDb) : option StorageRow * StorageDb :=
  match storages w !! key with
  | Some _ => (None, w)
  | None => let storage := new_artifact newId key now in (Some storage, with_storages (<[key := storage]>) w)
  end.

(** The row is looked up, inserted, and looked up again when another request inserted it in
    between; [others] is what other requests do between the statements. *)
Definition find_or_create_artifact (now : Z) (newId : jsstr) (others : nat -> StorageDb -> StorageDb) (key : StorageKey) (w : StorageDb) :
    option StorageRow * StorageDb :=
  match storages w !! key with
  | Some storage => (Some storage, w)
  | None =>
      match insert_artifact now newId key (others 0%nat w) with
      | (Some created, w1) => (Some created, w1)
      | (None, w1) => let w2 := others 1%nat w1 in (storages w2 !! key, w2)
      end
  end.

(** The transaction creates the empty version and moves the head, without looking at it again. *)
Definition commitEmptyVersion (now : Z) (userId storageId versionId s3Key : jsstr) (w : StorageDb) : result StorageDb :=
  w1 ← insert_version versionId
    {| sv_storageId := storageId; sv_s3Key := s3Key; sv_size := 0; sv_fileCount := 0;
       sv_message := Some (js "Initial empty artifact"); sv_createdBy := userId |} w;
  Ok (update_storage storageId (set_content versionId 0 0 now) w1).

Definition ensureArtifactStorage (env : StorageEnv) (now : Z) (newId : jsstr) (others : nat -> StorageDb -> StorageDb)
    (orgId userId name : jsstr) (w : StorageDb) : option jsstr * StorageDb :=
  match find_or_create_artifact now newId others (orgId, userId, name, Artifact) w with
  | (None, w1) => (Some (js "Failed to create artifact storage " ++ quoted name), w1)
  | (Some storage, w1) =>
    match truthy_text (st_headVersionId storage) with
    | Some _ => (None, w1)
    | None =>
      let versionId := computeContentHashFromHashes (st_id storage) [] in
      let s3Key := version_key storage versionId in
      match put_all env [(manifest_key s3Key, ManifestObject (createEmptyStorageManifest now)); (archive_key s3Key, BytesObject EMPTY_TAR_GZ)] w1 with
      | (Some e, w2) => (Some e, w2)
      | (None, w2) =>
          let w3 := others 2%nat w2 in
          match commitEmptyVersion now userId (st_id storage) versionId s3Key w3 with
          | Throw e => (Some e, w3)
          | Ok w4 => (None, w4)
          end
      end
    end
  end.

(** ** The volumes of a compose file *)

Record VolumeConfig := { vc_name : jsstr; vc_version : jsstr; vc_optional : option bool; vc_system : option bool }.

(** [instructions] is read for its truth only. *)
Record AgentConfig := { ag_volumes : option (list jsstr); ag_instructions : bool }.

Record AgentComposeContent := {
  cc_agent : option AgentConfig; cc_agents : option (Rec (option AgentConfig)); cc_volumes : option (Rec (option VolumeConfig)) }.

Record ResolvedVolume := {
  rv_name : jsstr; rv_mountPath : jsstr; rv_vasStorageName : jsstr; rv_vasVersion : jsstr;
  rv_instructionsTargetFilename : option jsstr; rv_optional : option bool; rv_system : option bool }.

Definition instructionsMountPath (framework : RunEnvironment.SupportedFramework) : jsstr :=
  match framework with RunEnvironment.Codex => js "/home/user/.codex" | RunEnvironment.ClaudeCode => js "/home/user/.claude" end.

Definition getInstructionsFilename (framework : RunEnvironment.SupportedFramework) : jsstr :=
  match framework with RunEnvironment.ClaudeCode => js "CLAUDE.md" | RunEnvironment.Codex => js "AGENTS.md" end.

Definition firstAgentEntry (content : AgentComposeContent) : option (option jsstr * AgentConfig) :=
  match cc_agent content with
  | Some agent => Some (None, agent)
  | None =>
      match default [] (cc_agents content) with
      | (name, Some agent) :: _ => Some (Some name, agent)
      | _ => None
      end
  end.

Definition parseVolumeDeclaration (declaration : jsstr) : result (jsstr * jsstr) :=
  match split_on 58 declaration with
  | [name; mountPath] =>
      if bool_decide (trim name = []) || bool_decide (trim mountPath = [])
      then Throw (js "Invalid volume declaration: " ++ declaration ++ js ". Expected format: volume-name:/mount/path")
      else Ok (trim name, trim mountPath)
  | _ => Throw (js "Invalid volume declaration: " ++ declaration ++ js ". Expected format: volume-name:/mount/path")
  end.

Definition expandTemplate (value : jsstr) (vars : option (Rec jsstr)) (context : jsstr) : result jsstr :=
  let r := expandVariablesInString value {| src_env := None; src_vars := Some (default [] vars); src_secrets := None |} in
  match missingVars r with
  | [] => Ok (exp_result r)
  | missing => Throw (context ++ js " is missing required variables: " ++ join (js ", ") (name <$> missing))
  end.

(** [r?.[k]]; a property every object inherits is no record and no text. *)
Definition read_record {A} (r : option (Rec A)) (k : jsstr) : result (option A) :=
  match r with
  | None => Ok None
  | Some r =>
      match rec_own r k with
      | Some v => Ok (Some v)
      | None => if bool_decide (k ∈ object_prototype_names) then Throw (js "TypeError") else Ok None
      end
  end.

Definition volume_context (name what : jsstr) : jsstr := js "Volume " ++ quoted name ++ js " " ++ what.

Definition resolve_declaration (content : AgentComposeContent) (vars volumeVersionOverrides : option (Rec jsstr)) (declaration : jsstr) :
    result ResolvedVolume :=
  parsed ← parseVolumeDeclaration declaration;
  found ← read_record (cc_volumes content) parsed.1;
  match mjoin found with
  | None => Throw (js "Volume " ++ quoted parsed.1 ++ js " is not defined in the volumes section")
  | Some config =>
      versionOverride ← read_record volumeVersionOverrides parsed.1;
      vasStorageName ← expandTemplate (vc_name config) vars (volume_context parsed.1 (js "name"));
      vasVersion ← expandTemplate (default (vc_version config) versionOverride) vars (volume_context parsed.1 (js "version"));
      Ok {| rv_name := parsed.1; rv_mountPath := parsed.2; rv_vasStorageName := vasStorageName; rv_vasVersion := vasVersion;
            rv_instructionsTargetFilename := None; rv_optional := vc_optional config; rv_system := vc_system config |}
  end.

Fixpoint map_result {A B} (f : A -> result B) (l : list A) : result (list B) :=
  match l with
  | [] => Ok []
  | x :: l' => y ← f x; ys ← map_result f l'; Ok (y :: ys)
  end.

Definition instructions_volume (agentName : jsstr) (framework : RunEnvironment.SupportedFramework) : ResolvedVolume :=
  let storageName := getInstructionsStorageName agentName in
  {| rv_name := storageName; rv_mountPath := instructionsMountPath framework; rv_vasStorageName := storageName;
     rv_vasVersion := js "latest"; rv_instructionsTargetFilename := Some (getInstructionsFilename framework);
     rv_optional := None; rv_system := None |}.

Definition resolveComposeVolumes (content : AgentComposeContent) (vars volumeVersionOverrides : option (Rec jsstr))
    (framework : RunEnvironment.SupportedFramework) : result (list ResolvedVolume) :=
  match firstAgentEntry content with
  | None => Ok []
  | Some (agentName, agent) =>
      resolved ← map_result (resolve_declaration content vars volumeVersionOverrides) (default [] (ag_volumes agent));
      Ok (resolved ++ match truthy_text agentName with
                      | Some agentName => if ag_instructions agent then [instructions_volume agentName framework] else []
                      | None => []
                      end)
  end.

(** A map by name: the first place, the last value. *)
Definition dedupArtifacts (artifacts : list RunEnvironment.ContextArtifact) : list RunEnvironment.ContextArtifact :=
  (foldl (fun byName a => rec_define byName (RunEnvironment.ca_name a) a) [] artifacts).*2.

(** ** Resolution of versions *)

Record StorageLookup := { lk_orgId : jsstr; lk_userId : jsstr; lk_name : jsstr; lk_type : StorageType }.

Record StorageResolution := { re_storageId : jsstr; re_versionId : jsstr; re_s3Key : jsstr }.

Record StorageIndexEntry := { ie_storageId : jsstr; ie_headVersionId : option jsstr; ie_headVersion : option (jsstr * jsstr) }.

Definition storageIndexKey (orgId userId name : jsstr) (type : StorageType) : jsstr :=
  Json.text (JArray [JString orgId; JString userId; JString name; JString (type_text type)]).

(** The head of a row, from the left join; empty columns count as absent. *)
Definition index_entry (r : StorageRow) (w : StorageDb) : StorageIndexEntry :=
  {| ie_storageId := st_id r; ie_headVersionId := st_headVersionId r;
     ie_headVersion := id ← st_headVersionId r; v ← storageVersions w !! id;
       match truthy_text (Some id), truthy_text (Some (sv_s3Key v)) with Some id, Some key => Some (id, key) | _, _ => None end |}.

Definition loadStorageIndex (orgIds : list jsstr) (w : StorageDb) : gmap jsstr StorageIndexEntry :=
  foldl (fun index kv => <[storageIndexKey (key_org kv.1) (key_user kv.1) (key_name kv.1) (key_type kv.1) := index_entry kv.2 w]> index) ∅
    (filter (fun kv => key_org kv.1 ∈ orgIds) (map_to_list (storages w))).

Definition index_lookup (index : gmap jsstr StorageIndexEntry) (lookup : StorageLookup) : option StorageIndexEntry :=
  index !! storageIndexKey (lk_orgId lookup) (lk_userId lookup) (lk_name lookup) (lk_type lookup).

Definition not_in_database (name : jsstr) : jsstr := js "Storage " ++ quoted name ++ js " not found in database".
Definition no_head (name : jsstr) : jsstr := js "Storage " ++ quoted name ++ js " has no HEAD version".

Definition resolveLatestVersion (index : gmap jsstr StorageIndexEntry) (lookup : StorageLookup) : result StorageResolution :=
  match index_lookup index lookup with
  | None => Throw (not_in_database (lk_name lookup))
  | Some entry =>
      match truthy_text (ie_headVersionId entry) with
      | None => Throw (no_head (lk_name lookup))
      | Some _ =>
          match ie_headVersion entry with
          | None => Throw (js "Storage " ++ quoted (lk_name lookup) ++ js " HEAD version not found")
          | Some (id, s3Key) => Ok {| re_storageId := ie_storageId entry; re_versionId := id; re_s3Key := s3Key |}
          end
      end
  end.

Definition resolvePinnedVersion (index : gmap jsstr StorageIndexEntry) (lookup : StorageLookup) (version : jsstr) (w : StorageDb) :
    result StorageResolution :=
  match index_lookup index lookup with
  | None => Throw (not_in_database (lk_name lookup))
  | Some storage =>
      match findStorageVersion (ie_storageId storage) version w with
      | Some exactMatch => Ok {| re_storageId := ie_storageId storage; re_versionId := version; re_s3Key := sv_s3Key exactMatch |}
      | None =>
          if (length version <? MIN_VERSION_PREFIX_LENGTH)%nat || bool_decide (version = []) || negb (forallb is_hex version)
          then Throw (js "Version prefix too short. Minimum 8 characters required.")
          else
            match versions_like (ie_storageId storage) version w with
            | [] => Throw (js "Storage " ++ quoted (lk_name lookup) ++ js " version " ++ quoted version ++ js " not found")
            | [(id, v)] => Ok {| re_storageId := ie_storageId storage; re_versionId := id; re_s3Key := sv_s3Key v |}
            | _ => Throw (js "Ambiguous version prefix " ++ quoted version ++ js " for storage " ++ quoted (lk_name lookup) ++
                          js ". Please use more characters.")
            end
      end
  end.

Definition resolveStorageVersion (index : gmap jsstr StorageIndexEntry) (lookup : StorageLookup) (version : option jsstr) (w : StorageDb) :
    result StorageResolution :=
  match version with
  | None => resolveLatestVersion index lookup
  | Some version =>
      if bool_decide (version = js "latest") then resolveLatestVersion index lookup else resolvePinnedVersion index lookup version w
  end.

Definition isMissingStorageError (message : jsstr) : bool :=
  includes message (js "not found in database") || includes message (js "has no HEAD version").

(** A volume of a compose file or an additional one, as the resolution reads it. *)
Record VolumeRef := { vr_name : jsstr; vr_version : option jsstr; vr_system : option bool }.

Definition compose_ref (v : ResolvedVolume) : VolumeRef :=
  {| vr_name := rv_vasStorageName v; vr_version := Some (rv_vasVersion v); vr_system := rv_system v |}.
Definition additional_ref (v : RunEnvironment.AdditionalVolume) : VolumeRef :=
  {| vr_name := RunEnvironment.av_name v; vr_version := RunEnvironment.av_version v; vr_system := RunEnvironment.av_system v |}.

Definition volume_lookup (orgId : jsstr) (volume : VolumeRef) : StorageLookup :=
  {| lk_orgId := orgId; lk_userId := VOLUME_ORG_USER_ID; lk_name := vr_name volume; lk_type := Volume |}.

(** Both callers allow the fallback to the system organization. *)
Definition resolveVolumeStorage (index : gmap jsstr StorageIndexEntry) (volume : VolumeRef) (primaryOrgId : jsstr) (w : StorageDb) :
    result StorageResolution :=
  let primary := resolveStorageVersion index (volume_lookup primaryOrgId volume) (vr_version volume) w in
  if bool_decide (vr_system volume = Some true) then
    match resolveStorageVersion index (volume_lookup SYSTEM_ORG_ID volume) (vr_version volume) w with
    | Ok r => Ok r
    | Throw e => if isMissingStorageError e then primary else Throw e
    end
  else primary.

(** ** The manifest *)

Record ManifestStorage := {
  ms_name : jsstr; ms_mountPath : jsstr; ms_vasStorageName : jsstr; ms_vasVersionId : jsstr;
  ms_instructionsTargetFilename : option jsstr; ms_archiveUrl : jsstr }.

Record ManifestArtifact := {
  ma_mountPath : jsstr; ma_vasStorageName : jsstr; ma_vasStorageId : jsstr; ma_vasVersionId : jsstr;
  ma_archiveUrl : jsstr; ma_manifestUrl : jsstr; ma_missingRootPolicy : option jsstr }.

Record StorageManifest := { sf_storages : list ManifestStorage; sf_artifacts : list ManifestArtifact }.

Definition buildStorageEntry (env : StorageEnv) (name mountPath vasStorageName : jsstr) (instructionsTargetFilename : option jsstr)
    (resolved : StorageResolution) : ManifestStorage :=
  {| ms_name := name; ms_mountPath := mountPath; ms_vasStorageName := vasStorageName; ms_vasVersionId := re_versionId resolved;
     ms_instructionsTargetFilename := truthy_text instructionsTargetFilename;
     ms_archiveUrl := presigned_get_url (bucketName env) (archive_key (re_s3Key resolved)) (60 * 60) |}.

Definition buildComposeStorageEntry (env : StorageEnv) (index : gmap jsstr StorageIndexEntry) (agentOrgId : jsstr) (w : StorageDb)
    (volume : ResolvedVolume) : result (option ManifestStorage) :=
  match resolveVolumeStorage index (compose_ref volume) agentOrgId w with
  | Throw e => if bool_decide (rv_optional volume = Some true) && isMissingStorageError e then Ok None else Throw e
  | Ok resolved =>
      Ok (Some (buildStorageEntry env (rv_name volume) (rv_mountPath volume) (rv_vasStorageName volume)
        (rv_instructionsTargetFilename volume) resolved))
  end.

Definition buildAdditionalStorageEntry (env : StorageEnv) (index : gmap jsstr StorageIndexEntry) (runtimeOrgId : jsstr) (w : StorageDb)
    (volume : RunEnvironment.AdditionalVolume) : result (option ManifestStorage) :=
  match resolveVolumeStorage index (additional_ref volume) runtimeOrgId w with
  | Throw e => if isMissingStorageError e then Ok None else Throw e
  | Ok resolved =>
      Ok (Some (buildStorageEntry env (RunEnvironment.av_name volume) (RunEnvironment.av_mountPath volume)
        (RunEnvironment.av_name volume) None resolved))
  end.

Definition buildArtifactEntry (env : StorageEnv) (index : gmap jsstr StorageIndexEntry) (runtimeOrgId userId : jsstr) (w : StorageDb)
    (artifact : RunEnvironment.ContextArtifact) : result ManifestArtifact :=
  resolved ← resolveStorageVersion index
    {| lk_orgId := runtimeOrgId; lk_userId := userId; lk_name := RunEnvironment.ca_name artifact; lk_type := Artifact |}
    (RunEnvironment.ca_version artifact) w;
  Ok {| ma_mountPath := RunEnvironment.ca_mountPath artifact; ma_vasStorageName := RunEnvironment.ca_name artifact;
        ma_vasStorageId := re_storageId resolved; ma_vasVersionId := re_versionId resolved;
        ma_archiveUrl := presigned_get_url (bucketName env) (archive_key (re_s3Key resolved)) (60 * 60);
        ma_manifestUrl := presigned_get_url (bucketName env) (manifest_key (re_s3Key resolved)) (60 * 60);
        ma_missingRootPolicy := truthy_text (RunEnvironment.ca_missingRootPolicy artifact) |}.

Definition mergeStorageEntries (composeEntries additionalEntries : list ManifestStorage) : list ManifestStorage :=
  filter (fun e => ms_mountPath e ∉ ms_mountPath <$> additionalEntries) composeEntries ++ additionalEntries.

(** The artifacts are ensured one after the other; all of them are, also when one fails.
    [before] and [others] are what other requests do before and during the work on one. *)
Fixpoint ensureArtifacts (env : StorageEnv) (now : Z) (newId : jsstr -> jsstr) (before : jsstr -> StorageDb -> StorageDb)
    (others : jsstr -> nat -> StorageDb -> StorageDb) (orgId userId : jsstr)
    (artifacts : list RunEnvironment.ContextArtifact) (w : StorageDb) : option jsstr * StorageDb :=
  match artifacts with
  | [] => (None, w)
  | a :: artifacts' =>
      let name := RunEnvironment.ca_name a in
      let '(e, w1) := ensureArtifactStorage env now (newId name) (others name) orgId userId name (before name w) in
      let '(e', w2) := ensureArtifacts env now newId before others orgId userId artifacts' w1 in
      (match e with Some _ => e | None => e' end, w2)
  end.

Record ManifestArgs := {
  pm_content : AgentComposeContent; pm_vars : option (Rec jsstr); pm_agentOrgId : jsstr; pm_runtimeOrgId : jsstr; pm_userId : jsstr;
  pm_artifacts : list RunEnvironment.ContextArtifact; pm_volumeVersionOverrides : option (Rec jsstr);
  pm_additionalVolumes : option (list RunEnvironment.AdditionalVolume); pm_framework : RunEnvironment.SupportedFramework }.

Definition build_manifest (env : StorageEnv) (args : ManifestArgs) (composeVolumes : list ResolvedVolume)
    (artifacts : list RunEnvironment.ContextArtifact) (w : StorageDb) : result StorageManifest :=
  let index := loadStorageIndex [pm_agentOrgId args; pm_runtimeOrgId args; SYSTEM_ORG_ID] w in
  composeEntries ← map_result (buildComposeStorageEntry env index (pm_agentOrgId args) w) composeVolumes;
  additionalEntries ← map_result (buildAdditionalStorageEntry env index (pm_runtimeOrgId args) w) (default [] (pm_additionalVolumes args));
  artifactEntries ← map_result (buildArtifactEntry env index (pm_runtimeOrgId args) (pm_userId args) w) artifacts;
  Ok {| sf_storages := mergeStorageEntries (omap id composeEntries) (omap id additionalEntries); sf_artifacts := artifactEntries |}.

(** [after] is what other requests do between the last artifact and the reads. *)
Definition prepareAgentRunStorageManifest (env : StorageEnv) (now : Z) (newId : jsstr -> jsstr)
    (before : jsstr -> StorageDb -> StorageDb) (others : jsstr -> nat -> StorageDb -> StorageDb) (after : StorageDb -> StorageDb)
    (args : ManifestArgs) (w : StorageDb) :
    result StorageManifest * StorageDb :=
  let artifacts := dedupArtifacts (pm_artifacts args) in
  match resolveComposeVolumes (pm_content args) (pm_vars args) (pm_volumeVersionOverrides args) (pm_framework args) with
  | Throw e => (Throw e, w)
  | Ok composeVolumes =>
      match ensureArtifacts env now newId before others (pm_runtimeOrgId args) (pm_userId args) artifacts w with
      | (Some e, w1) => (Throw e, w1)
      | (None, w1) => let w2 := after w1 in (build_manifest env args composeVolumes artifacts w2, w2)
      end
  end.

End Services.

End StorageRuns.
