(* ===== verification/StorageUpkeep.v ===== *)
(** The other writers of volumes and artifacts: the volumes of the system skills
    (turbo/apps/api/src/signals/services/cron-sync-skills.service.ts) and the deletion of
    storages and of their objects (webhooks-clerk-cleanup.service.ts,
    zero-skill-delete.service.ts, zero-compose-data.service.ts, external/s3.ts). *)

From S2P Require Import Prelude JsString JsValue JsRecord Bytes Json GithubUrl Tokens Auth RunEnvironment Storage StorageRuns.
Import Bytes Json GithubUrl Tokens Storage StorageRuns.

Module StorageUpkeep.

(** ** Rows and what refers to them *)

Definition with_runs (f : gmap jsstr RunRef -> gmap jsstr RunRef) (w : StorageDb) : StorageDb :=
  {| storages := storages w; storageVersions := storageVersions w; lineage := lineage w; agentRuns := f (agentRuns w); objects := objects w |}.

(** [DELETE FROM storages WHERE ..]: the versions of a storage and the lineage of its versions go
    with it. *)
Definition delete_storages (doomed : StorageKey -> StorageRow -> bool) (w : StorageDb) : StorageDb :=
  let kept := filter (fun kv => doomed kv.1 kv.2 = false) (storages w) in
  let ids := st_id <$> (filter (fun kv => doomed kv.1 kv.2 = true) (map_to_list (storages w))).*2 in
  {| storages := kept; storageVersions := filter (fun kv => sv_storageId kv.2 ∉ ids) (storageVersions w);
     lineage := filter (fun l => ln_storageId l ∉ ids) (lineage w); agentRuns := agentRuns w; objects := objects w |}.

(** [DELETE FROM agent_runs WHERE ..], with the lineage the runs recorded. *)
Definition delete_runs (doomed : jsstr -> RunRef -> bool) (w : StorageDb) : StorageDb :=
  let w1 := with_runs (filter (fun kv => doomed kv.1 kv.2 = false)) w in
  with_lineage (filter (fun l => is_Some (agentRuns w1 !! ln_runId l))) w1.

(** ** Deleting objects (external/s3.ts) *)

(** The keys below a prefix, of all pages; a prefix is no directory. *)
Definition listS3Objects (env : StorageEnv) (prefix : jsstr) (w : StorageDb) : result (list jsstr) :=
  match s3_lists env prefix with
  | Some e => Throw e
  | None => Ok (filter (fun key => starts_with key prefix = true) (map_to_list (objects w)).*1)
  end.

Definition deleteS3Objects (env : StorageEnv) (keys : list jsstr) (w : StorageDb) : result StorageDb :=
  match keys with
  | [] => Ok w
  | _ =>
      match s3_deletes env keys with
      | Some e => Throw e
      | None => Ok (with_objects (filter (fun kv => kv.1 ∉ keys)) w)
      end
  end.

(** [others] is what other requests do between the listing and the deletion. *)
Definition delete_prefix (env : StorageEnv) (others : StorageDb -> StorageDb) (prefix : jsstr) (w : StorageDb) : option jsstr * StorageDb :=
  match listS3Objects env prefix w with
  | Throw e => (Some e, w)
  | Ok keys =>
      let w1 := others w in
      match deleteS3Objects env keys w1 with
      | Throw e => (Some e, w1)
      | Ok w2 => (None, w2)
      end
  end.

(** ** Deleting an organization or a user (webhooks-clerk-cleanup.service.ts) *)

(** The first error stops the loop. *)
Fixpoint deleteObjectsForPrefixes (env : StorageEnv) (others : jsstr -> StorageDb -> StorageDb) (prefixes : list jsstr) (w : StorageDb) :
    option jsstr * StorageDb :=
  match prefixes with
  | [] => (None, w)
  | prefix :: prefixes' =>
      match delete_prefix env (others prefix) prefix w with
      | (Some e, w1) => (Some e, w1)
      | (None, w1) => deleteObjectsForPrefixes env others prefixes' w1
      end
  end.

(** Errors are logged. *)
Fixpoint deleteUserObjectsForPrefixesBestEffort (env : StorageEnv) (others : jsstr -> StorageDb -> StorageDb) (prefixes : list jsstr)
    (w : StorageDb) : StorageDb :=
  match prefixes with
  | [] => w
  | prefix :: prefixes' => deleteUserObjectsForPrefixesBestEffort env others prefixes' (delete_prefix env (others prefix) prefix w).2
  end.

(** [SELECT s3_prefix FROM storages WHERE ..]. *)
Definition prefixes_of (wanted : StorageKey -> bool) (w : StorageDb) : list jsstr :=
  st_s3Prefix <$> (filter (fun kv => wanted kv.1 = true) (map_to_list (storages w))).*2.

Definition of_org (orgId : jsstr) (k : StorageKey) : bool := bool_decide (key_org k = orgId).
Definition of_user (userId : jsstr) (k : StorageKey) : bool := bool_decide (key_user k = userId).

(** [exportKeys] are the keys of the exports in [export_jobs]. *)
Definition deleteOrgS3Data (env : StorageEnv) (others : jsstr -> StorageDb -> StorageDb) (orgId : jsstr) (exportKeys : list jsstr)
    (w : StorageDb) : option jsstr * StorageDb :=
  match deleteObjectsForPrefixes env others (prefixes_of (of_org orgId) w) w with
  | (Some e, w1) => (Some e, w1)
  | (None, w1) =>
      match deleteS3Objects env exportKeys w1 with
      | Throw e => (Some e, w1)
      | Ok w2 => (None, w2)
      end
  end.

Definition deleteUserS3Data (env : StorageEnv) (others : jsstr -> StorageDb -> StorageDb) (userId : jsstr) (exportKeys : list jsstr)
    (w : StorageDb) : StorageDb :=
  let w1 := deleteUserObjectsForPrefixesBestEffort env others (prefixes_of (of_user userId) w) w in
  match deleteS3Objects env exportKeys w1 with
  | Throw _ => w1
  | Ok w2 => w2
  end.

(** What of [deleteOrgData] and [deleteUserData] touches these tables, in their order. *)
Definition deleteOrgData (orgId : jsstr) (w : StorageDb) : StorageDb :=
  delete_storages (fun k _ => of_org orgId k) (delete_runs (fun _ r => bool_decide (rf_orgId r = orgId)) w).

Definition deleteUserData (userId : jsstr) (w : StorageDb) : StorageDb :=
  delete_storages (fun k _ => of_user userId k) (delete_runs (fun _ r => bool_decide (rf_userId r = userId)) w).

Definition cleanupClerkDeletedOrg (env : StorageEnv) (others : jsstr -> StorageDb -> StorageDb) (orgId : jsstr) (exportKeys : list jsstr)
    (w : StorageDb) : option jsstr * StorageDb :=
  match deleteOrgS3Data env others orgId exportKeys w with
  | (Some e, w1) => (Some e, w1)
  | (None, w1) => (None, deleteOrgData orgId w1)
  end.

Definition cleanupClerkDeletedUser (env : StorageEnv) (others : jsstr -> StorageDb -> StorageDb) (userId : jsstr) (exportKeys : list jsstr)
    (w : StorageDb) : StorageDb :=
  deleteUserData userId (deleteUserS3Data env others userId exportKeys w).

(** ** Deleting a custom skill or an agent *)

(** The volume the transaction finds, if any, is deleted in it; its objects afterwards. *)
Definition delete_volume (env : StorageEnv) (others : StorageDb -> StorageDb) (wanted : StorageKey -> bool) (w : StorageDb) :
    option jsstr * StorageDb :=
  match list_find (fun kv => wanted kv.1 = true) (map_to_list (storages w)) with
  | None => (None, w)
  | Some (_, (_, storage)) =>
      let w1 := delete_storages (fun _ r => bool_decide (st_id r = st_id storage)) w in
      match truthy_text (Some (st_s3Prefix storage)) with
      | Some prefix => delete_prefix env others prefix w1
      | None => (None, w1)
      end
  end.

Definition delete_skill_storage (env : StorageEnv) (others : StorageDb -> StorageDb) (orgId skillName : jsstr) (w : StorageDb) :
    option jsstr * StorageDb :=
  delete_volume env others (fun k => bool_decide (k = (orgId, VOLUME_ORG_USER_ID, getCustomSkillStorageName skillName, Volume))) w.

(** The owner is not part of this condition. *)
Definition delete_instructions_storage (env : StorageEnv) (others : StorageDb -> StorageDb) (orgId composeName : jsstr) (w : StorageDb) :
    option jsstr * StorageDb :=
  delete_volume env others (fun k => bool_decide (key_org k = orgId) && bool_decide (key_name k = getInstructionsStorageName composeName) &&
    bool_decide (key_type k = Volume)) w.

Section Services.
Context `{StorageServices}.

(** ** System skills (cron-sync-skills.service.ts) *)

Record ExtractedSkill := { ex_skillName : jsstr; ex_files : list FileEntryWithHash }.

(** The archive and the manifest of the files of a skill. *)
Record SkillArchive := { ar_archiveBuffer : list Z; ar_manifestBuffer : list Z }.

Definition skill_text (skillUrl : jsstr) (files : list FileEntryWithHash) : jsstr :=
  js "system-skill:" ++ skillUrl ++ [10] ++
  match files with [] => [] | _ => join [10] (sort_strings (file_line <$> files)) end.

Definition computeSystemSkillHash (skillUrl : jsstr) (files : list FileEntryWithHash) : jsstr := sha256_hex (utf8 (skill_text skillUrl files)).

Definition skill_tree : jsstr :=
  DEFAULT_SKILLS_OWNER ++ js "/" ++ DEFAULT_SKILLS_REPO ++ js "/tree/" ++ DEFAULT_SKILLS_BRANCH ++ js "/".

Definition skillUrl (skillName : jsstr) : jsstr := js "https://github.com/" ++ skill_tree ++ skillName.

Record SkillSyncContext := { sx_url : jsstr; sx_storageName : jsstr; sx_versionHash : jsstr; sx_fileCount : Z }.

Definition buildSkillSyncContext (extracted : ExtractedSkill) : SkillSyncContext :=
  let url := skillUrl (ex_skillName extracted) in
  {| sx_url := url; sx_storageName := getSkillStorageName (skill_tree ++ ex_skillName extracted);
     sx_versionHash := computeSystemSkillHash url (ex_files extracted); sx_fileCount := Z.of_nat (length (ex_files extracted)) |}.

Definition skill_key (storageName : jsstr) : StorageKey := (SYSTEM_ORG_ID, VOLUME_ORG_USER_ID, storageName, Volume).

Definition skill_s3_key (context : SkillSyncContext) : jsstr := s3_prefix (skill_key (sx_storageName context)) ++ js "/" ++ sx_versionHash context.

Definition uploadSkillArchive (env : StorageEnv) (context : SkillSyncContext) (archive : SkillArchive) (w : StorageDb) :
    option jsstr * StorageDb :=
  put_all env [(archive_key (skill_s3_key context), BytesObject (ar_archiveBuffer archive));
               (manifest_key (skill_s3_key context), BytesObject (ar_manifestBuffer archive))] w.

Definition set_sizes (size fileCount now : Z) (r : StorageRow) : StorageRow :=
  {| st_id := st_id r; st_s3Prefix := st_s3Prefix r; st_size := size; st_fileCount := fileCount;
     st_headVersionId := st_headVersionId r; st_updatedAt := now |}.

(** The row always exists afterwards. *)
Definition upsertSkillStorage (now : Z) (newId storageName : jsstr) (size fileCount : Z) (w : StorageDb) : jsstr * StorageDb :=
  let key := skill_key storageName in
  let row := match storages w !! key with
    | Some r => set_sizes size fileCount now r
    | None => {| st_id := newId; st_s3Prefix := s3_prefix key; st_size := size; st_fileCount := fileCount;
                 st_headVersionId := None; st_updatedAt := now |}
    end in
  (st_id row, with_storages (<[key := row]>) w).

Definition skill_version (storageId s3Key commitSha : jsstr) (size fileCount : Z) : StorageVersionRow :=
  {| sv_storageId := storageId; sv_s3Key := s3Key; sv_size := size; sv_fileCount := fileCount;
     sv_message := Some (js "Synced from " ++ DEFAULT_SKILLS_OWNER ++ js "/" ++ DEFAULT_SKILLS_REPO ++ js "@" ++ take 7 commitSha);
     sv_createdBy := js "system" |}.

Definition insertSkillStorageVersion (storageId versionHash s3Key commitSha : jsstr) (size fileCount : Z) (w : StorageDb) : result StorageDb :=
  insert_version versionHash (skill_version storageId s3Key commitSha size fileCount) w.

Definition updateSkillStorageHead (now : Z) (storageId versionHash : jsstr) (size fileCount : Z) (w : StorageDb) : StorageDb :=
  update_storage storageId (set_content versionHash size fileCount now) w.

(** The columns of [skills] that decide something, by URL. *)
Record SkillRow := { sk_storageId : option jsstr; sk_versionHash : option jsstr; sk_commitSha : option jsstr }.

Definition Skills : Type := gmap jsstr SkillRow.

(** The recorded version is this one; then the commit is noted. *)
Definition hasCurrentSkillVersion (context : SkillSyncContext) (commitSha : jsstr) (skills : Skills) : bool * Skills :=
  match skills !! sx_url context with
  | Some row =>
      if bool_decide (sk_versionHash row = Some (sx_versionHash context))
      then (true, <[sx_url context := {| sk_storageId := sk_storageId row; sk_versionHash := sk_versionHash row; sk_commitSha := Some commitSha |}]> skills)
      else (false, skills)
  | None => (false, skills)
  end.

(** The row refers to a storage that exists. *)
Definition upsertSkillRecord (context : SkillSyncContext) (storageId commitSha : jsstr) (skills : Skills) (w : StorageDb) : result Skills :=
  if storage_exists storageId w
  then Ok (<[sx_url context := {| sk_storageId := Some storageId; sk_versionHash := Some (sx_versionHash context); sk_commitSha := Some commitSha |}]> skills)
  else Throw (js "skills_storage_id_storages_id_fk").

(** [createSkillArchive] is what the archive of the files is, or the error of making it;
    [others] is what other requests do between the statements. *)
Definition syncSingleSkill (env : StorageEnv) (now : Z) (newId : jsstr) (others : nat -> StorageDb -> StorageDb)
    (createSkillArchive : list FileEntryWithHash -> result SkillArchive) (commitSha : jsstr) (extracted : ExtractedSkill)
    (skills : Skills) (w : StorageDb) : result bool * Skills * StorageDb :=
  let context := buildSkillSyncContext extracted in
  let '(current, skills1) := hasCurrentSkillVersion context commitSha skills in
  if current then (Ok false, skills1, w)
  else
    match createSkillArchive (ex_files extracted) with
    | Throw e => (Throw e, skills1, w)
    | Ok archive =>
        match uploadSkillArchive env context archive w with
        | (Some e, w1) => (Throw e, skills1, w1)
        | (None, w1) =>
            let size := Z.of_nat (length (ar_archiveBuffer archive)) in
            let '(storageId, w2) := upsertSkillStorage now newId (sx_storageName context) size (sx_fileCount context) (others 0%nat w1) in
            let w3 := others 1%nat w2 in
            match insertSkillStorageVersion storageId (sx_versionHash context) (skill_s3_key context) commitSha size (sx_fileCount context) w3 with
            | Throw e => (Throw e, skills1, w3)
            | Ok w4 =>
                let w5 := updateSkillStorageHead now storageId (sx_versionHash context) size (sx_fileCount context) (others 2%nat w4) in
                match upsertSkillRecord context storageId commitSha skills1 w5 with
                | Throw e => (Throw e, skills1, w5)
                | Ok skills2 => (Ok true, skills2, w5)
                end
            end
        end
    end.

(** The skills that are no longer in the repository, with their volumes; an error of deleting
    objects is logged. *)
Definition removeOrphanedSkills (env : StorageEnv) (others : jsstr -> StorageDb -> StorageDb) (extractedSkills : list ExtractedSkill)
    (skills : Skills) (w : StorageDb) : nat * Skills * StorageDb :=
  let tarballUrls := (fun skill => skillUrl (ex_skillName skill)) <$> extractedSkills in
  let orphaned (url : jsstr) := starts_with url (skillUrl []) = true /\ url ∉ tarballUrls in
  let orphans := filter (fun kv => orphaned kv.1) (map_to_list skills) in
  let orphanStorageIds := omap (fun kv => sk_storageId kv.2) orphans in
  let orphanPrefixes := st_s3Prefix <$> (filter (fun kv => st_id kv.2 ∈ orphanStorageIds) (map_to_list (storages w))).*2 in
  let w1 := delete_storages (fun _ r => bool_decide (st_id r ∈ orphanStorageIds)) w in
  (length orphans, filter (fun kv => ~ orphaned kv.1) skills, deleteUserObjectsForPrefixesBestEffort env others orphanPrefixes w1).

End Services.

End StorageUpkeep.
