(* ===== verification/StorageSafety.v ===== *)
(** What holds of volumes and artifacts: version identifiers name contents; the tables and the
    object store stay consistent under every sequence of the statements that write and delete
    storages, versions and objects; and every request is such a sequence, whatever others do
    between its statements. *)

From stdpp Require Import sorting relations.
From S2P Require Import Prelude JsString JsValue JsRecord Bytes Json GithubUrl Tokens Auth RunEnvironment Storage StorageRuns StorageUpkeep.
Import Bytes Json GithubUrl Tokens Auth RunEnvironment Storage StorageRuns StorageUpkeep.

Module StorageSafety.

(** ** Version identifiers *)

#[export] Instance str_order_anti_symm : AntiSymm (=) str_order.
Proof.
  unfold str_order. intros a. induction a as [|x a IH]; intros [|y b]; simpl; try done.
  destruct (x <? y) eqn:E1, (y <? x) eqn:E2; try done; try lia. intros H1 H2. f_equal; [lia|by apply IH].
Qed.

Lemma sort_strings_perm l l' : l ≡ₚ l' -> sort_strings l = sort_strings l'.
Proof.
  intros Hp. apply (StronglySorted_unique str_order); [apply sort_strings_sorted..|].
  unfold sort_strings. by rewrite !merge_sort_Permutation.
Qed.

Lemma sort_strings_perm_inv l l' : sort_strings l = sort_strings l' -> l ≡ₚ l'.
Proof.
  intros Hs. unfold sort_strings in Hs. rewrite <- (merge_sort_Permutation str_order l), <- (merge_sort_Permutation str_order l').
  by rewrite Hs.
Qed.

(** Entries as the clients send them: a hash of 64 units, and one line. *)
Definition plain_text (s : jsstr) : Prop := well_formed s = true /\ 10 ∉ s.
Definition plain_entry (f : FileEntryWithHash) : Prop :=
  plain_text (fe_path f) /\ plain_text (fe_hash f) /\ length (fe_hash f) = 64%nat.

(** What of an entry is part of the identity of a version. *)
Definition content_of (f : FileEntryWithHash) : jsstr * jsstr := (fe_path f, fe_hash f).

Lemma file_line_content f g : content_of f = content_of g -> file_line f = file_line g.
Proof. unfold content_of, file_line. by intros [= -> ->]. Qed.

(** The entry of a line: its last 64 units are the hash. *)
Definition line_content (l : jsstr) : jsstr * jsstr := (take (length l - 65) l, drop (length l - 64) l).

Lemma line_content_line f : length (fe_hash f) = 64%nat -> line_content (file_line f) = content_of f.
Proof.
  intros Hh. unfold line_content, file_line, content_of. rewrite !length_app. change (js ":") with [58]. cbn [length].
  replace (length (fe_path f) + (1 + length (fe_hash f)) - 65)%nat with (length (fe_path f)) by lia.
  replace (length (fe_path f) + (1 + length (fe_hash f)) - 64)%nat with (length (fe_path f) + 1)%nat by lia.
  rewrite take_app_length, drop_app_add. done.
Qed.

Lemma lines_content fs : Forall plain_entry fs -> line_content <$> (file_line <$> fs) = content_of <$> fs.
Proof.
  induction 1 as [|f fs (_ & _ & Hh) _ IH]; [done|]. rewrite !fmap_cons, line_content_line, IH by done. done.
Qed.

Lemma plain_line f : plain_entry f -> plain_text (file_line f).
Proof.
  intros ((Hp & Hpn) & (Hh & Hhn) & _). unfold file_line. split.
  - apply well_formed_app; [done|]. by apply well_formed_app.
  - rewrite !elem_of_app. intros [?|[?|?]]; [done| |done]. by apply (bool_decide_pack _) in H.
Qed.

Lemma sorted_lines_plain fs t : Forall plain_entry fs -> t ∈ sort_strings (file_line <$> fs) -> plain_text t.
Proof.
  intros Hf Ht. apply elem_of_sort_strings, list_elem_of_fmap in Ht as (f & -> & Hin). apply plain_line.
  rewrite Forall_forall in Hf. auto.
Qed.

Lemma content_text_well_formed sid fs : plain_text sid -> Forall plain_entry fs -> well_formed (content_text sid fs) = true.
Proof.
  intros [Hs _] Hf. unfold content_text. apply well_formed_app; [done|]. apply well_formed_app; [done|]. apply well_formed_app; [done|].
  destruct fs as [|f fs]; [done|]. apply well_formed_join; [done|]. intros t Ht. by apply (sorted_lines_plain (f :: fs) t Hf Ht).
Qed.

(** The first line names the storage, the others the files. *)
Lemma content_text_lines sid fs : plain_text sid -> Forall plain_entry fs ->
  split_on 10 (content_text sid fs) = (js "storage:" ++ sid) :: match fs with [] => [[]] | _ => sort_strings (file_line <$> fs) end.
Proof.
  intros [_ Hn] Hf. unfold content_text. rewrite app_assoc. cbn [app]. rewrite split_on_app.
  2: { rewrite elem_of_app. intros [Hin|Hin]; [|done]. by apply (bool_decide_pack _) in Hin. }
  f_equal. destruct fs as [|f fs]; [done|]. apply split_join.
  - intros Hnil. apply (f_equal length) in Hnil. unfold sort_strings in Hnil. rewrite merge_sort_Permutation in Hnil. by cbn in Hnil.
  - intros t Ht. by apply (sorted_lines_plain (f :: fs) t Hf).
Qed.

Section Services.
Context `{StorageServices}.

(** C24: A version identifier names its content. For entries of one line with full hashes, two
    identifiers are equal when they are of the same storage and of the same files up to their
    order (and the sizes, which are not hashed); if they are equal without that, the two texts
    that were hashed are a collision of SHA-256. *)
Theorem version_id_canonical sid sid' fs fs' :
  plain_text sid -> plain_text sid' -> Forall plain_entry fs -> Forall plain_entry fs' ->
  (sid = sid' /\ content_of <$> fs ≡ₚ content_of <$> fs' ->
     computeContentHashFromHashes sid fs = computeContentHashFromHashes sid' fs') /\
  (computeContentHashFromHashes sid fs = computeContentHashFromHashes sid' fs' ->
     (sid = sid' /\ content_of <$> fs ≡ₚ content_of <$> fs') \/
     utf8 (content_text sid fs) <> utf8 (content_text sid' fs')).
Proof.
  intros Hs Hs' Hf Hf'. split.
  - intros [-> Hp]. unfold computeContentHashFromHashes. do 2 f_equal. unfold content_text.
    assert (file_line <$> fs ≡ₚ file_line <$> fs') as Hl.
    { pose (g := fun c : jsstr * jsstr => c.1 ++ js ":" ++ c.2).
      assert (forall l, file_line <$> l = g <$> (content_of <$> l)) as Hg by (intros l; by rewrite <- list_fmap_compose).
      by rewrite !Hg, Hp. }
    rewrite (sort_strings_perm _ _ Hl). apply Permutation_length in Hl. by destruct fs, fs'.
  - unfold computeContentHashFromHashes. intros Heq.
    destruct (decide (utf8 (content_text sid fs) = utf8 (content_text sid' fs'))) as [He|Hne]; [|by right].
    left. apply utf8_inj in He; [|by apply content_text_well_formed..].
    apply (f_equal (split_on 10)) in He. rewrite !content_text_lines in He by done. injection He as Hsid Hlines.
    split; [done|].
    assert (forall f fs, sort_strings (file_line <$> f :: fs) <> [[]]) as Hnot.
    { intros f l Hn. assert (file_line f ∈ sort_strings (file_line <$> f :: l)) as Hin by (apply elem_of_sort_strings; cbn; set_solver).
      rewrite Hn in Hin. apply list_elem_of_singleton in Hin. unfold file_line in Hin. by apply app_nil_iff in Hin as [_ Hin]. }
    destruct fs as [|f fs], fs' as [|f' fs']; [done|by destruct (Hnot f' fs')|by destruct (Hnot f fs)|].
    apply sort_strings_perm_inv in Hlines. rewrite <- (lines_content (f :: fs)), <- (lines_content (f' :: fs')) by done.
    by rewrite Hlines.
Qed.

(** A text names what its first line is about. *)
Lemma first_line_inj p a a' rest rest' : well_formed p = true -> plain_text a -> plain_text a' ->
  utf8 (p ++ a ++ [10] ++ rest) = utf8 (p ++ a' ++ [10] ++ rest') -> a = a'.
Proof.
  intros Hp [Hw Hn] [Hw' Hn'] He. rewrite !utf8_app in He by done. apply app_inv_head in He. apply (f_equal utf8_decode) in He.
  rewrite !utf8_decode_app in He by done. apply (f_equal (split_on 10)) in He. cbn [app] in He.
  rewrite !split_on_app in He by done. by injection He.
Qed.

(** The texts that are hashed: of storages and of system skills. *)
Inductive hashed : jsstr -> Prop :=
| hashed_content sid fs : hashed (content_text sid fs)
| hashed_skill url fs : hashed (skill_text url fs).

(** SHA-256 without collisions among these texts; a digest is not empty. *)
Class ContentHashLaws : Prop := {
  hash_inj : forall t t', hashed t -> hashed t' -> sha256_hex (utf8 t) = sha256_hex (utf8 t') -> utf8 t = utf8 t';
  hash_nonempty : forall t, hashed t -> sha256_hex (utf8 t) <> [] }.

Lemma content_hash_storage `{!ContentHashLaws} sid sid' fs fs' : plain_text sid -> plain_text sid' ->
  computeContentHashFromHashes sid fs = computeContentHashFromHashes sid' fs' -> sid = sid'.
Proof.
  intros Hs Hs' Heq. apply hash_inj in Heq; [|constructor..]. unfold content_text in Heq. by apply first_line_inj in Heq.
Qed.

Lemma plain_app a b : plain_text a -> plain_text b -> plain_text (a ++ b).
Proof. intros [Ha Hna] [Hb Hnb]. split; [by apply well_formed_app|]. rewrite elem_of_app. tauto. Qed.

Lemma skill_url_plain name : plain_text name -> plain_text (skillUrl name).
Proof. intros Hn. unfold skillUrl. repeat apply plain_app; [..|done]; by apply (bool_decide_unpack _). Qed.

Lemma skill_hash_name `{!ContentHashLaws} n n' fs fs' : plain_text n -> plain_text n' ->
  computeSystemSkillHash (skillUrl n) fs = computeSystemSkillHash (skillUrl n') fs' -> n = n'.
Proof.
  intros Hn Hn' Heq. apply hash_inj in Heq; [|constructor..]. unfold skill_text in Heq.
  apply first_line_inj in Heq; [|done|by apply skill_url_plain..]. unfold skillUrl in Heq. by simplify_list_eq.
Qed.

Lemma content_not_skill `{!ContentHashLaws} sid fs url fs' : computeContentHashFromHashes sid fs <> computeSystemSkillHash url fs'.
Proof.
  intros Heq. apply hash_inj in Heq; [|constructor..]. unfold content_text, skill_text in Heq.
  rewrite !(utf8_app (js "storage:")), !(utf8_app (js "system-skill:")) in Heq by done. discriminate Heq.
Qed.

(** A path may contain a line break, and then it can stand for two lines: one file with such a
    path has the version identifier of two other files. The contract admits both requests. *)
Theorem newline_path_ambiguous sid h1 h2 : length h1 = 64%nat -> length h2 = 64%nat ->
  let one := [{| fe_path := js "a:" ++ h1 ++ [10] ++ js "b"; fe_hash := h2; fe_size := 1 |}] in
  let two := [{| fe_path := js "a"; fe_hash := h1; fe_size := 1 |}; {| fe_path := js "b"; fe_hash := h2; fe_size := 1 |}] in
  forallb file_entry_ok one = true /\ forallb file_entry_ok two = true /\
  computeContentHashFromHashes sid one = computeContentHashFromHashes sid two.
Proof.
  intros H1 H2 one two. split_and!.
  - cbn. unfold file_entry_ok. cbn. by rewrite H2.
  - cbn. unfold file_entry_ok. cbn. by rewrite H1, H2.
  - unfold computeContentHashFromHashes, content_text. do 5 f_equal. unfold one at 1, two at 1.
    assert (sort_strings (file_line <$> one) = file_line <$> one) as -> by reflexivity.
    assert (sort_strings (file_line <$> two) = file_line <$> two) as -> by reflexivity.
    change (js "a:" ++ h1 ++ [10] ++ js "b") with (js "a" ++ js ":" ++ h1 ++ [10] ++ js "b").
    unfold one, two, file_line. cbn [fmap list_fmap fe_path fe_hash join]. rewrite <- !app_assoc. reflexivity.
Qed.

(** ** The transactions

    One step per statement group that changes a table or the object store, of every writer in the
    sources: uploads and volumes, the artifacts of runs (zero-telegram-link.service.ts and
    zero-agentphone.service.ts create theirs with the same statements), the volumes of system
    skills, and the deletions of [StorageUpkeep]; any object may be put. Identifiers of storages
    are not used again: [reserved] are those that the steps do not give to new rows. [D] are the
    keys whose objects may be deleted. *)

Definition fresh (id : jsstr) (w : StorageDb) : Prop := forall k r, storages w !! k = Some r -> st_id r <> id.
Definition used (w : StorageDb) (id : jsstr) : Prop := exists k r, storages w !! k = Some r /\ st_id r = id.

Definition uploaded (s3Key : jsstr) (fileCount : Z) (w : StorageDb) : Prop :=
  is_Some (objects w !! manifest_key s3Key) /\ (0 < fileCount -> is_Some (objects w !! archive_key s3Key)).

(** The same, but for the objects that may be deleted. *)
Definition stored (D : jsstr -> Prop) (s3Key : jsstr) (fileCount : Z) (w : StorageDb) : Prop :=
  (~ D (manifest_key s3Key) -> is_Some (objects w !! manifest_key s3Key)) /\
  (0 < fileCount -> ~ D (archive_key s3Key) -> is_Some (objects w !! archive_key s3Key)).

Definition keyed (k : StorageKey) (versionId : jsstr) : jsstr := s3_prefix k ++ js "/" ++ versionId.

(** A version a client or the server commits, and a version of a system skill. *)
Definition content_version (r : StorageRow) (vid : jsstr) (v : StorageVersionRow) : Prop :=
  exists files, vid = computeContentHashFromHashes (st_id r) files /\ sv_fileCount v = Z.of_nat (length files) /\ sv_size v = totalSize files.

Definition system_version (k : StorageKey) (vid : jsstr) (v : StorageVersionRow) : Prop :=
  exists skill, plain_text (ex_skillName skill) /\ let context := buildSkillSyncContext skill in
    k = skill_key (sx_storageName context) /\ vid = sx_versionHash context /\ sv_fileCount v = sx_fileCount context.

(** A row of [storage_versions] as its storage has it. *)
Definition version_row (D : jsstr -> Prop) (k : StorageKey) (r : StorageRow) (vid : jsstr) (v : StorageVersionRow) (w : StorageDb) : Prop :=
  sv_storageId v = st_id r /\ sv_s3Key v = keyed k vid /\ (content_version r vid v \/ system_version k vid v) /\
  stored D (sv_s3Key v) (sv_fileCount v) w.

Inductive sstep (D reserved : jsstr -> Prop) : StorageDb -> StorageDb -> Prop :=
| step_upsert now id k w : plain_text id -> fresh id w -> ~ reserved id -> sstep D reserved w (upsertStorageForPrepare now id k w).2
| step_create now id k w : plain_text id -> fresh id w -> ~ reserved id -> sstep D reserved w (insert_artifact now id k w).2
| step_skill now id name size fileCount w : plain_text id -> fresh id w -> ~ reserved id ->
    sstep D reserved w (upsertSkillStorage now id name size fileCount w).2
| step_put key body w : sstep D reserved w (with_objects (<[key := body]>) w)
| step_version k r vid v w w' : storages w !! k = Some r -> version_row D k r vid v w -> insert_version vid v w = Ok w' -> sstep D reserved w w'
| step_commit now k r vid v w w' : storages w !! k = Some r -> version_row D k r vid v w -> insert_version vid v w = Ok w' ->
    is_Some (findStorageVersion (st_id r) vid w') ->
    sstep D reserved w (update_storage (st_id r) (set_content vid (sv_size v) (sv_fileCount v) now) w')
| step_head now k r vid w : storages w !! k = Some r -> is_Some (findStorageVersion (st_id r) vid w) ->
    sstep D reserved w (update_storage (st_id r) (set_head (Some vid) now) w)
| step_content now k r vid size fileCount w : storages w !! k = Some r -> is_Some (findStorageVersion (st_id r) vid w) ->
    sstep D reserved w (update_storage (st_id r) (set_content vid size fileCount now) w)
| step_lineage row w : sstep D reserved w (with_lineage (fun l => l ++ [row]) w)
| step_new_run id run w : sstep D reserved w (with_runs (<[id := run]>) w)
| step_delete_runs doomed w : sstep D reserved w (delete_runs doomed w)
| step_delete_storages doomed w : sstep D reserved w (delete_storages doomed w)
| step_delete_objects keys w : Forall D keys -> sstep D reserved w (with_objects (filter (fun kv => kv.1 ∉ keys)) w).

(** Any sequence of them. *)
Definition ssteps (D : jsstr -> Prop) : StorageDb -> StorageDb -> Prop := rtc (sstep D (fun _ => False)).

Lemma sstep_weaken D (reserved reserved' : jsstr -> Prop) w w' : (forall id, reserved' id -> reserved id) -> sstep D reserved w w' -> sstep D reserved' w w'.
Proof.
  intros Hr []; [eapply step_upsert|eapply step_create|eapply step_skill|eapply step_put|eapply step_version|eapply step_commit|eapply step_head|
    eapply step_content|eapply step_lineage|eapply step_new_run|eapply step_delete_runs|eapply step_delete_storages|eapply step_delete_objects]; eauto.
Qed.

Lemma steps_weaken D (reserved reserved' : jsstr -> Prop) w w' : (forall id, reserved' id -> reserved id) ->
  rtc (sstep D reserved) w w' -> rtc (sstep D reserved') w w'.
Proof. intros Hr. induction 1 as [|w1 w2 w3 H12 _ IH]; [done|]. eapply rtc_l; [by eapply sstep_weaken|done]. Qed.

(** ** The invariant *)

Record Inv (D : jsstr -> Prop) (w : StorageDb) : Prop := {
  inv_prefix : forall k r, storages w !! k = Some r -> st_s3Prefix r = s3_prefix k;
  inv_plain : forall k r, storages w !! k = Some r -> plain_text (st_id r);
  inv_ids : forall k r k' r', storages w !! k = Some r -> storages w !! k' = Some r' -> st_id r = st_id r' -> k = k';
  inv_versions : forall vid v, storageVersions w !! vid = Some v -> exists k r, storages w !! k = Some r /\ version_row D k r vid v w;
  inv_head : forall k r vid, storages w !! k = Some r -> st_headVersionId r = Some vid -> is_Some (findStorageVersion (st_id r) vid w) }.

(** What a step that deletes nothing keeps: rows with their identifiers, versions, objects. *)
Record extends (w w' : StorageDb) : Prop := {
  ext_storages : forall k r, storages w !! k = Some r ->
    exists r', storages w' !! k = Some r' /\ st_id r' = st_id r /\ st_s3Prefix r' = st_s3Prefix r;
  ext_versions : forall vid v, storageVersions w !! vid = Some v -> storageVersions w' !! vid = Some v;
  ext_objects : forall key, is_Some (objects w !! key) -> is_Some (objects w' !! key) }.

#[export] Instance extends_preorder : PreOrder extends.
Proof.
  split.
  - intros w. split; eauto.
  - intros w1 w2 w3 [s1 v1 o1] [s2 v2 o2]. split; [|by auto|by auto].
    intros k r Hr. destruct (s1 k r Hr) as (r' & Hr' & Hi & Hp). destruct (s2 k r' Hr') as (r'' & Hr'' & Hi' & Hp').
    exists r''. split_and!; [done|congruence..].
Qed.

(** What every step keeps of the storages whose identifiers are reserved: a row that is there
    was there, a version is there as long as its row, and so are the objects that may not be
    deleted. *)
Record later (D reserved : jsstr -> Prop) (w w' : StorageDb) : Prop := {
  lt_rows : forall k r', storages w' !! k = Some r' -> reserved (st_id r') ->
    exists r, storages w !! k = Some r /\ st_id r = st_id r' /\ st_s3Prefix r = st_s3Prefix r';
  lt_versions : forall vid v, storageVersions w !! vid = Some v -> reserved (sv_storageId v) -> used w' (sv_storageId v) ->
    storageVersions w' !! vid = Some v;
  lt_objects : forall key, ~ D key -> is_Some (objects w !! key) -> is_Some (objects w' !! key) }.

#[export] Instance later_preorder D reserved : PreOrder (later D reserved).
Proof.
  split.
  - intros w. split; eauto.
  - intros w1 w2 w3 [r1 v1 o1] [r2 v2 o2]. split; [| |by auto].
    + intros k r'' Hr'' Hres. destruct (r2 k r'' Hr'' Hres) as (r' & Hr' & Hi' & Hp'). rewrite <- Hi' in Hres.
      destruct (r1 k r' Hr' Hres) as (r & Hr & Hi & Hp). exists r. split_and!; [done|congruence..].
    + intros vid v Hv Hres Hu. apply v2; [|done|done]. apply v1; [done..|]. destruct Hu as (k & r'' & Hr'' & Heq). rewrite <- Heq in Hres.
      destruct (r2 k r'' Hr'' Hres) as (r' & Hr' & Hi' & _). exists k, r'. split; [done|congruence].
Qed.

Lemma lookup_update_storage sid f k w :
  storages (update_storage sid f w) !! k = (fun r => if bool_decide (st_id r = sid) then f r else r) <$> storages w !! k.
Proof. cbn. by rewrite lookup_fmap. Qed.

Lemma storage_exists_spec id w : storage_exists id w = true <-> used w id.
Proof.
  unfold storage_exists, used. rewrite existsb_exists. split.
  - intros ([k r] & Hin & Hid). apply bool_decide_eq_true in Hid. apply list_elem_of_In, elem_of_map_to_list in Hin. by exists k, r.
  - intros (k & r & Hk & Hid). exists (k, r). split; [by apply list_elem_of_In, elem_of_map_to_list|by apply bool_decide_eq_true].
Qed.

(** An insert that succeeds changes at most the one row of the table of versions. *)
Lemma insert_version_lookup vid v w w' : insert_version vid v w = Ok w' ->
  w' = w /\ is_Some (storageVersions w !! vid) \/
  w' = with_versions (<[vid := v]>) w /\ storageVersions w !! vid = None /\ used w (sv_storageId v).
Proof.
  unfold insert_version. destruct (storageVersions w !! vid) as [v'|]; [intros [= <-]; eauto|].
  destruct (storage_exists _ w) eqn:E; [|done]. intros [= <-]. right. by rewrite storage_exists_spec in E.
Qed.

Lemma insert_version_same vid v w w' : insert_version vid v w = Ok w' ->
  storages w' = storages w /\ objects w' = objects w /\ agentRuns w' = agentRuns w /\ lineage w' = lineage w.
Proof. intros [[-> _]|[-> _]]%insert_version_lookup; done. Qed.

Lemma update_storage_extends sid f w :
  (forall r, st_id (f r) = st_id r /\ st_s3Prefix (f r) = st_s3Prefix r) -> extends w (update_storage sid f w).
Proof.
  intros Hf. split; [|by auto..]. intros k r Hr. rewrite lookup_update_storage, Hr. cbn.
  eexists. split; [done|]. case_bool_decide; [apply Hf|done].
Qed.

Lemma insert_version_extends vid v w w' : insert_version vid v w = Ok w' -> extends w w'.
Proof.
  intros [[-> _]|(-> & E & _)]%insert_version_lookup; [done|]. split; [by eauto| |by auto].
  intros vid' v' Hv'. cbn. rewrite lookup_insert_ne; [done|]. congruence.
Qed.

Lemma insert_storage_extends k r w :
  (forall r', storages w !! k = Some r' -> st_id r = st_id r' /\ st_s3Prefix r = st_s3Prefix r') ->
  extends w (with_storages (<[k := r]>) w).
Proof.
  intros Hr. split; [|by auto..]. intros k' r' Hk'. cbn. destruct (decide (k = k')) as [<-|Hne].
  - rewrite lookup_insert_eq. exists r. by destruct (Hr r' Hk').
  - rewrite lookup_insert_ne by done. eauto.
Qed.

Lemma put_extends key body w : extends w (with_objects (<[key := body]>) w).
Proof.
  split; [by eauto|by auto|]. intros key' [o Ho]. cbn. destruct (decide (key = key')) as [<-|Hne];
    [rewrite lookup_insert_eq|rewrite lookup_insert_ne by done]; eauto.
Qed.

Lemma extends_stored D w w' s3Key count : extends w w' -> stored D s3Key count w -> stored D s3Key count w'.
Proof. intros He [Hm Ha]. split; intros; apply (ext_objects _ _ He); auto. Qed.

Lemma later_stored D reserved w w' s3Key count : later D reserved w w' -> stored D s3Key count w -> stored D s3Key count w'.
Proof. intros He [Hm Ha]. split; intros; apply (lt_objects _ _ _ _ He); auto. Qed.

Lemma uploaded_stored D s3Key count w : uploaded s3Key count w -> stored D s3Key count w.
Proof. intros [Hm Ha]. split; auto. Qed.

Lemma extends_version w w' sid vid : extends w w' -> is_Some (findStorageVersion sid vid w) -> is_Some (findStorageVersion sid vid w').
Proof.
  unfold findStorageVersion. intros He [v Hv]. destruct (storageVersions w !! vid) as [v'|] eqn:E; [|done].
  rewrite (ext_versions _ _ He vid v' E). eauto.
Qed.

(** The version of a row later, as long as the row is there. *)
Lemma later_version D reserved w w' sid vid : later D reserved w w' -> reserved sid -> used w' sid ->
  is_Some (findStorageVersion sid vid w) -> is_Some (findStorageVersion sid vid w').
Proof.
  unfold findStorageVersion. intros He Hr Hu [v Hv]. destruct (storageVersions w !! vid) as [v'|] eqn:E; [|done].
  cbn in Hv. case_bool_decide as Hs; [|done]. rewrite <- Hs in Hr, Hu. rewrite (lt_versions _ _ _ _ He vid v' E Hr Hu).
  cbn. rewrite bool_decide_true by done. eauto.
Qed.

(** *** Every transaction keeps what is later *)

Lemma insert_storage_later D (reserved : jsstr -> Prop) k r w :
  (forall r', storages w !! k = Some r' -> st_id r = st_id r' /\ st_s3Prefix r = st_s3Prefix r') ->
  (storages w !! k = None -> ~ reserved (st_id r)) -> later D reserved w (with_storages (<[k := r]>) w).
Proof.
  intros Hr Hn. split; [|done|done]. intros k' r' Hk' Hres. cbn in Hk'. apply lookup_insert_Some in Hk' as [[<- <-]|[_ Hk']]; [|eauto].
  destruct (storages w !! k) as [r0|] eqn:E; [|by destruct (Hn eq_refl)]. exists r0. destruct (Hr r0 eq_refl) as [-> ->]. done.
Qed.

Lemma update_storage_later D reserved sid f w :
  (forall r, st_id (f r) = st_id r /\ st_s3Prefix (f r) = st_s3Prefix r) -> later D reserved w (update_storage sid f w).
Proof.
  intros Hf. split; [|done|done]. intros k r' Hk' _. rewrite lookup_update_storage in Hk'. destruct (storages w !! k) as [r|]; [|done].
  injection Hk' as <-. exists r. split; [done|]. case_bool_decide; [|done]. by destruct (Hf r) as [-> ->].
Qed.

Lemma insert_version_later D reserved vid v w w' : insert_version vid v w = Ok w' -> later D reserved w w'.
Proof.
  intros Hi. pose proof (insert_version_extends _ _ _ _ Hi) as He. apply insert_version_same in Hi as (Hs & Ho & _). split.
  - intros k r'. rewrite Hs. eauto.
  - intros vid' v' Hv' _ _. by apply (ext_versions _ _ He).
  - intros key. by rewrite Ho.
Qed.

Lemma deleted_ids doomed w id : id ∈ st_id <$> (filter (fun kv => doomed kv.1 kv.2 = true) (map_to_list (storages w))).*2 <->
  exists k r, storages w !! k = Some r /\ doomed k r = true /\ st_id r = id.
Proof.
  rewrite list_elem_of_fmap. split.
  - intros (r & -> & Hin). apply list_elem_of_fmap in Hin as ([k r'] & -> & Hin). apply list_elem_of_filter in Hin as [Hd Hin].
    apply elem_of_map_to_list in Hin. by exists k, r'.
  - intros (k & r & Hk & Hd & <-). exists r. split; [done|]. apply list_elem_of_fmap. exists (k, r). split; [done|].
    apply list_elem_of_filter. split; [done|]. by apply elem_of_map_to_list.
Qed.

Lemma delete_storages_later D reserved doomed w : Inv D w -> later D reserved w (delete_storages doomed w).
Proof.
  intros Hi. split; [| |by auto].
  - intros k r Hk _. cbn in Hk. apply map_lookup_filter_Some in Hk as [Hk _]. eauto.
  - intros vid v Hv _ (k & r & Hk & Hid). cbn in Hk |- *. apply map_lookup_filter_Some in Hk as [Hk Hd]. cbn in Hd.
    apply map_lookup_filter_Some. split; [done|]. cbn. intros (k' & r' & Hk' & Hd' & Hid')%deleted_ids.
    assert (k = k') as <- by (apply (inv_ids D w Hi k r k' r'); [done..|congruence]). congruence.
Qed.

Lemma delete_objects_later (D : jsstr -> Prop) reserved keys w : Forall D keys -> later D reserved w (with_objects (filter (fun kv => kv.1 ∉ keys)) w).
Proof.
  intros HD. split; [by eauto|by auto|]. intros key Hn [o Ho]. exists o. cbn. apply map_lookup_filter_Some. split; [done|]. cbn.
  intros Hin. rewrite Forall_forall in HD. auto.
Qed.

Lemma upsert_row now id k w r w' : upsertStorageForPrepare now id k w = (r, w') ->
  w' = with_storages (<[k := r]>) w /\ storages w' !! k = Some r /\
  match storages w !! k with
  | Some r0 => st_id r = st_id r0 /\ st_s3Prefix r = st_s3Prefix r0 /\ st_headVersionId r = st_headVersionId r0
  | None => st_id r = id /\ st_s3Prefix r = s3_prefix k /\ st_headVersionId r = None
  end.
Proof. unfold upsertStorageForPrepare. intros [= <- <-]. split; [done|]. split; [cbn; by rewrite lookup_insert_eq|]. by destruct (storages w !! k). Qed.

Lemma skill_row now id name size count w sid w' : upsertSkillStorage now id name size count w = (sid, w') -> let k := skill_key name in
  exists r, w' = with_storages (<[k := r]>) w /\ storages w' !! k = Some r /\ st_id r = sid /\
  match storages w !! k with
  | Some r0 => st_id r = st_id r0 /\ st_s3Prefix r = st_s3Prefix r0 /\ st_headVersionId r = st_headVersionId r0
  | None => st_id r = id /\ st_s3Prefix r = s3_prefix k /\ st_headVersionId r = None
  end.
Proof.
  unfold upsertSkillStorage. intros [= <- <-]. eexists. split; [done|]. split; [cbn; by rewrite lookup_insert_eq|].
  split; [done|]. by destruct (storages w !! skill_key name).
Qed.

Lemma upserted_later D (reserved : jsstr -> Prop) id k r w : ~ reserved id ->
  match storages w !! k with
  | Some r0 => st_id r = st_id r0 /\ st_s3Prefix r = st_s3Prefix r0 /\ st_headVersionId r = st_headVersionId r0
  | None => st_id r = id /\ st_s3Prefix r = s3_prefix k /\ st_headVersionId r = None
  end -> later D reserved w (with_storages (<[k := r]>) w).
Proof.
  intros Hn Hr. apply insert_storage_later; destruct (storages w !! k) as [r0|]; try done.
  - intros r' [= <-]. tauto.
  - intros _. by destruct Hr as [-> _].
Qed.

Lemma sstep_later D reserved w w' : Inv D w -> sstep D reserved w w' -> later D reserved w w'.
Proof.
  intros Hi Hs. revert Hi. destruct Hs as [now id k w0 Hp Hf Hr|now id k w0 Hp Hf Hr|now id name size count w0 Hp Hf Hr|key body w0|k r vid v w0 w1 Hk Hv Hins|
    now k r vid v w0 w1 Hk Hv Hins Hfi|now k r vid w0 Hk Hfi|now k r vid size count w0 Hk Hfi|row w0|id run w0|doomed w0|doomed w0|keys w0 HD]; intros Hi.
  - destruct (upsertStorageForPrepare now id k w0) as [r w1] eqn:E. apply upsert_row in E as (-> & _ & Hm). by eapply upserted_later.
  - unfold insert_artifact. destruct (storages w0 !! k) as [r|] eqn:E; [done|]. apply insert_storage_later; [by rewrite E|done].
  - destruct (upsertSkillStorage now id name size count w0) as [sid w1] eqn:E. apply skill_row in E as (r & -> & _ & _ & Hm). by eapply upserted_later.
  - split; [by eauto|by auto|]. intros key' _. apply (ext_objects _ _ (put_extends key body w0)).
  - by eapply insert_version_later.
  - etrans; [by eapply insert_version_later|by apply update_storage_later].
  - by apply update_storage_later.
  - by apply update_storage_later.
  - by split; eauto.
  - by split; eauto.
  - by split; eauto.
  - by apply delete_storages_later.
  - by apply delete_objects_later.
Qed.

(** *** Every transaction keeps the invariant *)

Lemma version_row_kept D k r r' vid v w w' : st_id r' = st_id r ->
  (stored D (sv_s3Key v) (sv_fileCount v) w -> stored D (sv_s3Key v) (sv_fileCount v) w') ->
  version_row D k r vid v w -> version_row D k r' vid v w'.
Proof.
  intros Hid Hst (Hs & Hkey & Hd & Hu). unfold version_row, content_version in *. rewrite Hid. split_and!; auto.
Qed.

Lemma inv_weaken (D D' : jsstr -> Prop) w : (forall key, D key -> D' key) -> Inv D w -> Inv D' w.
Proof.
  intros HD [Hp Hpl Hids Hv Hh]. split; [done..| |done]. intros vid v Hvid. destruct (Hv vid v Hvid) as (k & r & Hk & Hs & Hkey & Hd & Hm & Ha).
  exists k, r. do 4 (split; [done|]). split; auto.
Qed.

Lemma inv_versions_kept D w w' : Inv D w -> extends w w' -> storageVersions w' = storageVersions w ->
  forall vid v, storageVersions w' !! vid = Some v -> exists k r, storages w' !! k = Some r /\ version_row D k r vid v w'.
Proof.
  intros Hi He Hv vid v Hvid. rewrite Hv in Hvid. destruct (inv_versions D w Hi vid v Hvid) as (k & r & Hk & Hrow).
  destruct (ext_storages _ _ He k r Hk) as (r' & Hk' & Hid' & _). exists k, r'. split; [done|].
  eapply version_row_kept; [done| |done]. by apply extends_stored.
Qed.

Lemma insert_storage_inv D k r w : Inv D w ->
  (forall r', storages w !! k = Some r' -> st_id r = st_id r' /\ st_s3Prefix r = st_s3Prefix r') ->
  (storages w !! k = None -> fresh (st_id r) w) -> st_s3Prefix r = s3_prefix k -> plain_text (st_id r) ->
  (forall vid, st_headVersionId r = Some vid -> is_Some (findStorageVersion (st_id r) vid w)) ->
  Inv D (with_storages (<[k := r]>) w).
Proof.
  intros Hi Hsame Hfresh Hp Hpl Hh. pose proof (insert_storage_extends k r w Hsame) as He. split.
  - intros k' r' Hk'. cbn in Hk'. apply lookup_insert_Some in Hk' as [[<- <-]|[_ Hk']]; [done|by apply (inv_prefix D w)].
  - intros k' r' Hk'. cbn in Hk'. apply lookup_insert_Some in Hk' as [[<- <-]|[_ Hk']]; [done|by apply (inv_plain D w Hi k')].
  - assert (forall k' r', k' <> k -> storages w !! k' = Some r' -> st_id r' <> st_id r) as Hother.
    { intros k' r' Hne Hk' Heq. destruct (storages w !! k) as [r0|] eqn:E.
      - apply Hne. apply (inv_ids D w Hi k' r' k r0); [done..|]. destruct (Hsame r0 eq_refl). congruence.
      - by apply (Hfresh eq_refl k' r'). }
    intros k1 r1 k2 r2 H1 H2 Heq. cbn in H1, H2. apply lookup_insert_Some in H1 as [[<- <-]|[Hne1 H1]], H2 as [[<- <-]|[Hne2 H2]].
    + done.
    + by destruct (Hother k2 r2).
    + by destruct (Hother k1 r1).
    + by apply (inv_ids D w Hi k1 r1 k2 r2).
  - by apply (inv_versions_kept D w).
  - intros k' r' vid Hk' Hv. cbn in Hk'. apply lookup_insert_Some in Hk' as [[<- <-]|[_ Hk']].
    + by apply (extends_version w), Hh.
    + apply (extends_version w); [done|]. by apply (inv_head D w Hi k').
Qed.

Lemma upserted_inv D id k r w : Inv D w -> plain_text id -> fresh id w ->
  match storages w !! k with
  | Some r0 => st_id r = st_id r0 /\ st_s3Prefix r = st_s3Prefix r0 /\ st_headVersionId r = st_headVersionId r0
  | None => st_id r = id /\ st_s3Prefix r = s3_prefix k /\ st_headVersionId r = None
  end -> Inv D (with_storages (<[k := r]>) w).
Proof.
  intros Hi Hp Hf Hr. destruct (storages w !! k) as [r0|] eqn:E; destruct Hr as (Hid & Hpre & Hh); apply insert_storage_inv; rewrite ?E, ?Hid, ?Hpre; try done.
  - by intros r' [= <-].
  - exact (inv_prefix D w Hi k r0 E).
  - exact (inv_plain D w Hi k r0 E).
  - intros vid Hv. apply (inv_head D w Hi k r0); congruence.
  - congruence.
Qed.

Lemma update_storage_inv D sid f w : Inv D w ->
  (forall r, st_id (f r) = st_id r /\ st_s3Prefix (f r) = st_s3Prefix r) ->
  (forall r vid, st_id r = sid -> st_headVersionId (f r) = Some vid -> is_Some (findStorageVersion sid vid w)) ->
  Inv D (update_storage sid f w).
Proof.
  intros Hi Hf Hh. assert (extends w (update_storage sid f w)) as He by by apply update_storage_extends.
  assert (forall k r', storages (update_storage sid f w) !! k = Some r' ->
    exists r, storages w !! k = Some r /\ st_id r' = st_id r /\ st_s3Prefix r' = st_s3Prefix r /\ (st_id r = sid /\ r' = f r \/ r' = r)) as Hrow.
  { intros k r' Hk. rewrite lookup_update_storage in Hk. destruct (storages w !! k) as [r|]; [|done]. injection Hk as <-.
    exists r. split; [done|]. case_bool_decide; [destruct (Hf r); auto 10|auto]. }
  split.
  - intros k r' (r & Hk & _ & -> & _)%Hrow. by apply (inv_prefix D w).
  - intros k r' (r & Hk & -> & _)%Hrow. by apply (inv_plain D w Hi k).
  - intros k1 r1 k2 r2 (r1' & H1 & -> & _)%Hrow (r2' & H2 & -> & _)%Hrow. by apply (inv_ids D w Hi).
  - by apply (inv_versions_kept D w).
  - intros k r' vid (r & Hk & Hid & _ & [[Hs ->]| ->])%Hrow Hv; apply (extends_version w); [done| |done|by apply (inv_head D w Hi k)].
    rewrite Hid, Hs. by eapply Hh.
Qed.

Lemma insert_version_inv D k r vid v w w' : Inv D w -> storages w !! k = Some r -> version_row D k r vid v w ->
  insert_version vid v w = Ok w' -> Inv D w'.
Proof.
  intros Hi Hk Hv Hins. pose proof (insert_version_extends _ _ _ _ Hins) as He.
  apply insert_version_lookup in Hins as [[-> _]|(-> & E & _)]; [done|]. split.
  - apply (inv_prefix D w Hi).
  - apply (inv_plain D w Hi).
  - apply (inv_ids D w Hi).
  - intros vid' v' Hv'. cbn in Hv'. apply lookup_insert_Some in Hv' as [[<- <-]|[_ Hv']]; [by exists k, r|exact (inv_versions D w Hi vid' v' Hv')].
  - intros k' r' h Hk' Hh. apply (extends_version w); [done|]. by apply (inv_head D w Hi k').
Qed.

Lemma put_object_inv D key body w : Inv D w -> Inv D (with_objects (<[key := body]>) w).
Proof.
  intros Hi. pose proof (put_extends key body w) as He.
  split; [apply (inv_prefix D w Hi)|apply (inv_plain D w Hi)|apply (inv_ids D w Hi)| |].
  - by apply (inv_versions_kept D w).
  - intros k r vid Hk Hv. apply (extends_version w); [done|]. by apply (inv_head D w Hi k).
Qed.

Lemma delete_objects_inv (D : jsstr -> Prop) keys w : Forall D keys -> Inv D w -> Inv D (with_objects (filter (fun kv => kv.1 ∉ keys)) w).
Proof.
  intros HD Hi. pose proof (delete_objects_later D (fun _ => False) keys w HD) as Hl.
  split; [apply (inv_prefix D w Hi)|apply (inv_plain D w Hi)|apply (inv_ids D w Hi)| |apply (inv_head D w Hi)].
  intros vid v Hv. destruct (inv_versions D w Hi vid v Hv) as (k & r & Hk & Hrow). exists k, r. split; [done|].
  eapply version_row_kept; [done| |done]. by eapply later_stored.
Qed.

(** Deleting storages takes their versions along, and no other row has one of them as its head. *)
Lemma delete_storages_inv D doomed w : Inv D w -> Inv D (delete_storages doomed w).
Proof.
  intros Hi. assert (forall k r, storages (delete_storages doomed w) !! k = Some r <-> storages w !! k = Some r /\ doomed k r = false) as Hrow
    by (intros k r; cbn; by rewrite map_lookup_filter_Some).
  assert (forall k r vid v, storages w !! k = Some r -> storageVersions w !! vid = Some v -> sv_storageId v = st_id r ->
    storageVersions (delete_storages doomed w) !! vid = Some v <-> doomed k r = false) as Hver.
  { intros k r vid v Hk Hv Hid. cbn. rewrite map_lookup_filter_Some. cbn. rewrite deleted_ids. split.
    - intros [_ Hn]. destruct (doomed k r) eqn:Ed; [|done]. destruct Hn. by exists k, r.
    - intros Hd. split; [done|]. intros (k' & r' & Hk' & Hd' & Hid').
      assert (k = k') as <- by (apply (inv_ids D w Hi k r k' r'); [done..|congruence]). congruence. }
  split.
  - intros k r [Hk _]%Hrow. by apply (inv_prefix D w Hi).
  - intros k r [Hk _]%Hrow. by apply (inv_plain D w Hi k).
  - intros k r k' r' [Hk _]%Hrow [Hk' _]%Hrow. by apply (inv_ids D w Hi).
  - intros vid v Hv. assert (storageVersions w !! vid = Some v) as Hv0 by (cbn in Hv; by apply map_lookup_filter_Some in Hv as [Hv _]).
    destruct (inv_versions D w Hi vid v Hv0) as (k & r & Hk & Hvr). exists k, r. split; [|exact Hvr].
    apply Hrow. split; [done|]. apply (Hver k r vid v); [done..|apply Hvr|done].
  - intros k r vid [Hk Hd]%Hrow Hh. destruct (inv_head D w Hi k r vid Hk Hh) as [v Hf]. unfold findStorageVersion in *.
    destruct (storageVersions w !! vid) as [v'|] eqn:Ev; [|done]. cbn in Hf. case_bool_decide as Hs; [|done].
    rewrite (proj2 (Hver k r vid v' Hk Ev Hs) Hd). cbn. rewrite bool_decide_true by done. eauto.
Qed.

Lemma sstep_inv D reserved w w' : Inv D w -> sstep D reserved w w' -> Inv D w'.
Proof.
  intros Hi Hs. revert Hi. destruct Hs as [now id k w0 Hp Hf Hr|now id k w0 Hp Hf Hr|now id name size count w0 Hp Hf Hr|key body w0|k r vid v w0 w1 Hk Hv Hins|
    now k r vid v w0 w1 Hk Hv Hins Hfi|now k r vid w0 Hk Hfi|now k r vid size count w0 Hk Hfi|row w0|id run w0|doomed w0|doomed w0|keys w0 HD]; intros Hi.
  - destruct (upsertStorageForPrepare now id k w0) as [r w1] eqn:E. apply upsert_row in E as (-> & _ & Hm). by eapply upserted_inv.
  - unfold insert_artifact. destruct (storages w0 !! k) as [r|] eqn:E; [done|]. by eapply (upserted_inv D id); [..|rewrite E].
  - destruct (upsertSkillStorage now id name size count w0) as [sid w1] eqn:E. apply skill_row in E as (r & -> & _ & _ & Hm). by eapply upserted_inv.
  - by apply put_object_inv.
  - by eapply insert_version_inv.
  - apply update_storage_inv; [by eapply insert_version_inv|done|]. by intros r' vid' _ [= <-].
  - apply update_storage_inv; [done|done|]. by intros r' vid' _ [= <-].
  - apply update_storage_inv; [done|done|]. by intros r' vid' _ [= <-].
  - destruct Hi. by split.
  - destruct Hi. by split.
  - destruct Hi. by split.
  - by apply delete_storages_inv.
  - by apply delete_objects_inv.
Qed.

Lemma storage_steps_inv D reserved w w' : Inv D w -> rtc (sstep D reserved) w w' -> Inv D w'.
Proof. intros Hi Hr. induction Hr as [w|w1 w2 w3 H12 _ IH]; [done|]. by apply IH, (sstep_inv D reserved w1). Qed.

Lemma steps_later D reserved w w' : Inv D w -> rtc (sstep D reserved) w w' -> later D reserved w w'.
Proof.
  intros Hi Hr. induction Hr as [w|w1 w2 w3 H12 _ IH]; [done|]. etrans; [by apply sstep_later|]. by apply IH, (sstep_inv D reserved w1).
Qed.


(** *** Requests are sequences of these transactions *)

(** What other requests do: they delete objects of [D] only, and give neither the identifiers of
    storages there are nor those of [N] to new ones. *)
Definition quiet (D N : jsstr -> Prop) (others : StorageDb -> StorageDb) : Prop :=
  forall w, Inv D w -> rtc (sstep D (fun id => used w id \/ N id)) w (others w).

(** What a request that may create the storage [newId] leaves to others. *)
Definition except (N : jsstr -> Prop) (newId id : jsstr) : Prop := N id /\ id <> newId.

Lemma quiet_steps D N others w newId : Inv D w -> quiet D N others -> rtc (sstep D (except N newId)) w (others w).
Proof. intros Hi Hq. eapply steps_weaken; [|by apply Hq]. intros id [Hn _]. by right. Qed.

Lemma quiet_inv D N others w : Inv D w -> quiet D N others -> Inv D (others w).
Proof. intros Hi Hq. eapply storage_steps_inv; [done|by apply Hq]. Qed.

(** The row at an identifier of an earlier state, later. *)
Lemma row_later D reserved w w' k r sid : Inv D w -> later D reserved w w' -> storages w !! k = Some r -> st_id r = sid -> reserved sid ->
  used w' sid -> exists r', storages w' !! k = Some r' /\ st_id r' = sid.
Proof.
  intros Hi Hl Hk <- Hr (k' & r' & Hk' & Hid). rewrite <- Hid in Hr. destruct (lt_rows _ _ _ _ Hl k' r' Hk' Hr) as (r0 & Hr0 & Hid0 & _).
  assert (k' = k) as -> by (apply (inv_ids D w Hi k' r0 k r); [done..|congruence]). eauto.
Qed.

Lemma fresh_later D N others w newId : Inv D w -> quiet D N others -> N newId -> fresh newId w -> fresh newId (others w).
Proof.
  intros Hi Hq Hn Hf k r Hk Heq. pose proof (steps_later _ _ _ _ Hi (Hq w Hi)) as Hl. rewrite <- Heq in Hn.
  destruct (lt_rows _ _ _ _ Hl k r Hk (or_intror Hn)) as (r0 & Hr0 & Hid & _). apply (Hf k r0 Hr0). congruence.
Qed.

Lemma put_all_refines D R env puts w : rtc (sstep D R) w (put_all env puts w).2.
Proof.
  revert w. induction puts as [|[key body] puts IH]; intros w; [done|]. cbn. unfold putS3Object. destruct (s3_rejects env key).
  - cbn. apply IH.
  - eapply rtc_l; [apply step_put|apply IH].
Qed.

Lemma puts_refine D R env puts w e w' : put_all env puts w = (e, w') -> rtc (sstep D R) w w'.
Proof. intros E. pose proof (put_all_refines D R env puts w) as Hs. by rewrite E in Hs. Qed.

Lemma put_all_extends env puts w : extends w (put_all env puts w).2.
Proof.
  revert w. induction puts as [|[key body] puts IH]; intros w; [done|]. cbn. unfold putS3Object. destruct (s3_rejects env key); [apply IH|].
  etrans; [apply (put_extends key body)|apply IH].
Qed.

Lemma put_all_done env puts w w' key body : put_all env puts w = (None, w') -> (key, body) ∈ puts -> is_Some (objects w' !! key).
Proof.
  revert w. induction puts as [|[key' body'] puts IH]; intros w; [by intros _ ?%elem_of_nil|]. cbn.
  unfold putS3Object. destruct (s3_rejects env key'); [done|]. intros Hp [[= <- <-]|Hin]%elem_of_cons; [|by eapply IH].
  pose proof (put_all_extends env puts (with_objects (<[key := body]>) w)) as Hr. rewrite Hp in Hr. cbn [snd] in Hr.
  apply (ext_objects _ _ Hr). cbn. rewrite lookup_insert_eq. eauto.
Qed.

Lemma put_all_tables env puts w e w' : put_all env puts w = (e, w') -> storages w' = storages w /\ storageVersions w' = storageVersions w.
Proof.
  revert w e w'. induction puts as [|[key body] puts IH]; intros w e w'; cbn; [by intros [= <- <-]|]. unfold putS3Object.
  destruct (s3_rejects env key) as [e'|].
  - destruct (put_all env puts w) as [e2 w2] eqn:Ep. intros [= <- <-]. by eapply IH.
  - intros Hp%IH. by destruct Hp as [-> ->].
Qed.

Lemma verify_uploaded env s3Key count w : verifyUploadedStorageFiles env s3Key count w = Ok None -> uploaded s3Key count w.
Proof.
  unfold verifyUploadedStorageFiles, s3ObjectExists, uploaded.
  destruct (s3_rejects env (manifest_key s3Key)); [done|]. cbn. destruct (0 <? count) eqn:Ec.
  - destruct (s3_rejects env (archive_key s3Key)); [done|]. cbn.
    destruct (bool_decide (is_Some (objects w !! manifest_key s3Key))) eqn:E1; [|done].
    destruct (bool_decide (is_Some (objects w !! archive_key s3Key))) eqn:E2; [|done]. by bool_facts.
  - cbn. destruct (bool_decide (is_Some (objects w !! manifest_key s3Key))) eqn:E1; [|done]. intros _. bool_facts. split; [done|lia].
Qed.

(** A transaction that inserts a version of a storage that others may have deleted, and makes it
    the head. *)
Lemma commit_later D N R now k r sid vid v w w' w'' : Inv D w -> rtc (sstep D (fun id => used w id \/ N id)) w w' ->
  storages w !! k = Some r -> st_id r = sid -> sv_storageId v = sid -> sv_s3Key v = keyed k vid ->
  (exists files, vid = computeContentHashFromHashes sid files /\ sv_fileCount v = Z.of_nat (length files) /\ sv_size v = totalSize files) ->
  stored D (sv_s3Key v) (sv_fileCount v) w -> insert_version vid v w' = Ok w'' -> is_Some (findStorageVersion sid vid w'') ->
  sstep D R w' (update_storage sid (set_content vid (sv_size v) (sv_fileCount v) now) w'').
Proof.
  intros Hi Hs Hk Hid Hv Hkey Hfiles Hst Hins Hf. pose proof (steps_later _ _ _ _ Hi Hs) as Hl. pose proof (storage_steps_inv _ _ _ _ Hi Hs) as Hi'.
  assert (used w' sid) as Hu.
  { destruct (insert_version_lookup _ _ _ _ Hins) as [[-> _]|(_ & _ & Hu)]; [|by rewrite Hv in Hu].
    destruct Hf as [x Hf]. unfold findStorageVersion in Hf. destruct (storageVersions w' !! vid) as [v0|] eqn:E; [|done]. cbn in Hf.
    case_bool_decide as Hs0; [|done]. destruct (inv_versions D w' Hi' vid v0 E) as (k0 & r0 & Hk0 & Hr0 & _). exists k0, r0. split; [done|congruence]. }
  destruct (row_later _ _ _ _ _ _ _ Hi Hl Hk Hid) as (r' & Hr' & Hid'); [left; by exists k, r|done|].
  rewrite <- Hid' in Hf |- *. eapply step_commit; [done| |done|done]. unfold version_row, content_version. rewrite Hid'.
  split_and!; [done..|by left|by eapply later_stored].
Qed.

Lemma update_storage_absent sid f w : ~ used w sid -> update_storage sid f w = w.
Proof.
  intros Hn. unfold update_storage, with_storages. destruct w as [st sv li ru ob]. cbn. f_equal.
  rewrite <- (map_fmap_id st) at 2. apply map_fmap_ext. intros k r Hk. rewrite bool_decide_false; [done|]. intros Heq. apply Hn. by exists k, r.
Qed.

(** The head of a row moves, if the row is still there. *)
Lemma head_later D N R f k r sid vid w w' : Inv D w -> rtc (sstep D (fun id => used w id \/ N id)) w w' ->
  storages w !! k = Some r -> st_id r = sid -> is_Some (findStorageVersion sid vid w) ->
  (forall r', storages w' !! k = Some r' -> st_id r' = sid -> is_Some (findStorageVersion sid vid w') -> sstep D R w' (update_storage sid f w')) ->
  rtc (sstep D R) w' (update_storage sid f w').
Proof.
  intros Hi Hs Hk Hid Hv Hstep. pose proof (steps_later _ _ _ _ Hi Hs) as Hl. assert (used w sid) as Hus by by exists k, r.
  destruct (storage_exists sid w') eqn:Eu.
  - apply storage_exists_spec in Eu. destruct (row_later _ _ _ _ _ _ _ Hi Hl Hk Hid) as (r' & Hr' & Hid'); [by left|done|].
    apply rtc_once, (Hstep r'); [done..|]. eapply later_version; [done|by left|done|done].
  - rewrite update_storage_absent; [done|]. intros Hu%storage_exists_spec. congruence.
Qed.

Lemma prepare_refines D N env now newId before after args w : Inv D w -> plain_text newId -> fresh newId w -> N newId ->
  quiet D N before -> quiet D N after ->
  rtc (sstep D (except N newId)) w (prepareStorageUploadForAuth env now newId before after args w).2.
Proof.
  intros Hi Hp Hf Hn Hq Hq'. unfold prepareStorageUploadForAuth. destruct (_ <? _); [done|]. destruct (resolveStorageRuntimeOrg _ _ _) as [|orgId]; [done|].
  set (k := (_, _, _, _) : StorageKey). destruct (upsertStorageForPrepare _ _ _ _) as [storage w1] eqn:E.
  assert (sstep D (except N newId) (before w) w1) as Hs.
  { pose proof (step_upsert D (except N newId) now newId k (before w) Hp) as Hs. rewrite E in Hs. apply Hs; [by eapply fresh_later|by intros []]. }
  assert (rtc (sstep D (except N newId)) w (after w1)) as Hr.
  { etrans; [by apply (quiet_steps D N before)|]. eapply rtc_l; [exact Hs|]. apply quiet_steps; [|done]. eapply sstep_inv; [|exact Hs]. by apply (quiet_inv D N). }
  destruct (bool_decide _); [done|]. by destruct (existingStorageVersionIsReusable _ _ _ _ _) as [[]|].
Qed.

Lemma lineage_refines D R sid vid parent runId type w : rtc (sstep D R) w (recordStorageLineage sid vid parent runId type w).
Proof.
  unfold recordStorageLineage. destruct (truthy_text parent), (truthy_text runId), type; try done. destruct (_ && _); [|done].
  apply rtc_once, step_lineage.
Qed.

Lemma commit_refines D N env now others args w : Inv D w -> quiet D N others ->
  rtc (sstep D N) w (commitStorageUploadForAuth env now others args w).2.
Proof.
  intros Hi Hq. assert (rtc (sstep D N) w (others w)) as Ho by (eapply steps_weaken; [|by apply Hq]; by right).
  unfold commitStorageUploadForAuth. destruct (resolveStorageRuntimeOrg _ _ _) as [|orgId]; [done|].
  unfold findStorageForCommit. set (k := (_, _, _, _)). destruct (storages w !! k) as [storage|] eqn:Ek; [|done].
  destruct (bool_decide (computeContentHashFromHashes _ _ = _)) eqn:Eh; [|done]. apply bool_decide_eq_true in Eh. cbn [negb].
  destruct (bool_decide (bucketName env = [])); [done|].
  destruct (findStorageVersion (st_id storage) (ci_versionId args) w) as [ev|] eqn:Ef.
  - unfold commitExistingStorageVersion. destruct (verifyS3FilesExist _ _ _ _) as [[]|]; [|done..]. cbn [snd].
    case_bool_decide; [done|]. etrans; [exact Ho|]. eapply (head_later D N N _ k storage (st_id storage)); [done|by apply Hq|done|done|by rewrite Ef|].
    intros r' Hr' <- Hv. by eapply step_head.
  - unfold commitNewStorageVersion. destruct (verifyUploadedStorageFiles _ _ _ _) as [[e|]|] eqn:Ev; [done| |done].
    apply verify_uploaded, (uploaded_stored D) in Ev. unfold insertStorageVersionAndUpdateHead.
    destruct (insert_version _ _ (others w)) as [w1|e] eqn:Ei; [|done]. cbn [mbind result_bind].
    destruct (findStorageVersion _ _ w1) eqn:Efi; [|done]. cbn [snd]. etrans; [|apply lineage_refines]. eapply rtc_r; [exact Ho|].
    match type of Ei with insert_version ?vid ?v _ = _ => set (row := v) in Ei;
      apply (commit_later D N N now k storage (st_id storage) vid row w (others w) w1 Hi); [by apply Hq|done|done| | | | |exact Ei|by rewrite Efi] end.
    + done.
    + unfold row, version_key, keyed. cbn [sv_s3Key]. by rewrite (inv_prefix D w Hi k _ Ek).
    + by exists (ci_files args).
    + exact Ev.
Qed.

(** A version with the identifier of a content of a storage belongs to it. *)
Lemma version_owned `{!ContentHashLaws} D k r files v w : Inv D w -> storages w !! k = Some r ->
  storageVersions w !! computeContentHashFromHashes (st_id r) files = Some v -> sv_storageId v = st_id r.
Proof.
  intros Hi Hk Hv. destruct (inv_versions D w Hi _ v Hv) as (k' & r' & Hk' & Hs & _ & Hd & _). rewrite Hs. symmetry.
  destruct Hd as [(files' & Hh & _)|(skill & _ & _ & Hh & _)]; [|by apply content_not_skill in Hh].
  eapply content_hash_storage; [by apply (inv_plain D w Hi k)|by apply (inv_plain D w Hi k')|exact Hh].
Qed.

(** And one with the identifier of a skill belongs to the volume of that skill. *)
Lemma skill_owned `{!ContentHashLaws} D skill r v w : Inv D w -> plain_text (ex_skillName skill) ->
  let context := buildSkillSyncContext skill in
  storages w !! skill_key (sx_storageName context) = Some r -> storageVersions w !! sx_versionHash context = Some v -> sv_storageId v = st_id r.
Proof.
  intros Hi Hp context Hk Hv. destruct (inv_versions D w Hi _ v Hv) as (k' & r' & Hk' & Hs & _ & Hd & _). rewrite Hs.
  destruct Hd as [(files' & Hh & _)|(skill' & Hp' & Hkey & Hh & _)]; [by symmetry in Hh; apply content_not_skill in Hh|].
  apply skill_hash_name in Hh; [|done..]. assert (k' = skill_key (sx_storageName context)) as ->; [|congruence].
  rewrite Hkey. unfold context. cbn. by rewrite Hh.
Qed.

Lemma find_owned sid vid v w : storageVersions w !! vid = Some v -> sv_storageId v = sid -> is_Some (findStorageVersion sid vid w).
Proof. intros Hv Hs. unfold findStorageVersion. rewrite Hv. cbn. rewrite bool_decide_true by done. eauto. Qed.

(** After the insert of the version of a content, it is found. *)
Lemma found_after_insert `{!ContentHashLaws} D sid files v w w' : Inv D w -> plain_text sid -> sv_storageId v = sid ->
  insert_version (computeContentHashFromHashes sid files) v w = Ok w' -> is_Some (findStorageVersion sid (computeContentHashFromHashes sid files) w').
Proof.
  intros Hi Hp Hs [[-> [v' Hv]]|(-> & _)]%insert_version_lookup.
  - eapply find_owned; [done|]. destruct (inv_versions D w Hi _ v' Hv) as (k' & r' & Hk' & -> & _ & Hd & _).
    destruct Hd as [(files' & Hh & _)|(skill & _ & _ & Hh & _)]; [|by apply content_not_skill in Hh].
    symmetry. eapply content_hash_storage; [done|by apply (inv_plain D w Hi k')|exact Hh].
  - eapply find_owned; [cbn; by rewrite lookup_insert_eq|done].
Qed.

Lemma create_refines D N now newId others k w r w' : Inv D w -> plain_text newId -> fresh newId w -> N newId -> (forall i, quiet D N (others i)) ->
  find_or_create_artifact now newId others k w = (r, w') ->
  rtc (sstep D (except N newId)) w w' /\ forall r', r = Some r' -> storages w' !! k = Some r'.
Proof.
  intros Hi Hp Hf Hn Hq. unfold find_or_create_artifact. destruct (storages w !! k) as [s|] eqn:E; [intros [= <- <-]; by split; [|intros ? [= <-]]|].
  destruct (insert_artifact now newId k (others 0%nat w)) as [[created|] w1] eqn:Ei; intros [= <- <-].
  - pose proof (step_create D (except N newId) now newId k (others 0%nat w) Hp) as Hs. rewrite Ei in Hs. split.
    + eapply rtc_r; [by apply (quiet_steps D N (others 0%nat))|]. apply Hs; [by eapply fresh_later|by intros []].
    + intros r' [= <-]. unfold insert_artifact in Ei. destruct (@lookup StorageKey _ _ _ k (storages (others 0%nat w))) eqn:El; [done|]. cbn zeta in Ei.
      injection Ei as <- <-. cbn. by rewrite lookup_insert_eq.
  - assert (w1 = others 0%nat w) as -> by (unfold insert_artifact in Ei; case_match; by injection Ei).
    split; [|by auto]. etrans; [by apply (quiet_steps D N (others 0%nat))|]. apply (quiet_steps D N (others 1%nat)); [|done]. by apply (quiet_inv D N).
Qed.

Lemma ensure_refines `{!ContentHashLaws} D N env now newId others orgId userId name w : Inv D w -> plain_text newId -> fresh newId w -> N newId ->
  (forall i, quiet D N (others i)) -> rtc (sstep D (except N newId)) w (ensureArtifactStorage env now newId others orgId userId name w).2.
Proof.
  intros Hi Hp Hf Hn Hq. unfold ensureArtifactStorage. set (k := (orgId, userId, name, Artifact) : StorageKey).
  destruct (find_or_create_artifact now newId others k w) as [[storage|] w1] eqn:E;
    destruct (create_refines D N _ _ _ _ _ _ _ Hi Hp Hf Hn Hq E) as [H1 Hk]; [|done]. specialize (Hk storage eq_refl).
  destruct (truthy_text (st_headVersionId storage)); [done|]. pose proof (storage_steps_inv _ _ _ _ Hi H1) as Hi1.
  set (vid := computeContentHashFromHashes (st_id storage) []). set (s3Key := version_key storage vid).
  destruct (put_all _ _ w1) as [[e|] w2] eqn:Epu; cbn [snd]; pose proof (puts_refine D (except N newId) _ _ _ _ _ Epu) as H12; [by etrans|].
  pose proof (storage_steps_inv _ _ _ _ Hi1 H12) as Hi2. destruct (put_all_tables _ _ _ _ _ Epu) as [Hst _]. rewrite <- Hst in Hk.
  assert (rtc (sstep D (except N newId)) w (others 2%nat w2)) as H3 by (do 2 (etrans; [done|]); by apply (quiet_steps D N)).
  pose proof (storage_steps_inv _ _ _ _ Hi H3) as Hi3. unfold commitEmptyVersion.
  destruct (insert_version _ _ (others 2%nat w2)) as [w4|e] eqn:Ei; [|done]. cbn [mbind result_bind snd]. eapply rtc_r; [exact H3|].
  match type of Ei with insert_version _ ?v _ = _ => set (row := v) in Ei end.
  apply (commit_later D N _ now k storage (st_id storage) vid row w2 (others 2%nat w2) w4 Hi2); [by apply Hq|done|done|done| | | |exact Ei|].
  - unfold row, s3Key, version_key, keyed. cbn [sv_s3Key]. by rewrite (inv_prefix D w2 Hi2 k _ Hk).
  - by exists [].
  - split; [|cbn; lia]. intros _. eapply put_all_done; [exact Epu|]. apply elem_of_cons. by left.
  - eapply (found_after_insert D (st_id storage) [] row); [done|by apply (inv_plain D w2 Hi2 k)|done|exact Ei].
Qed.

Lemma total_size_entries files acc :
  foldl (fun sum file => sum + mf_size file) acc files = foldl (fun sum file => sum + fe_size file) acc (file_entry <$> files).
Proof. revert acc. induction files as [|f files IH]; intros acc; [done|]. cbn. apply IH. Qed.

Lemma volume_refines D N env now newId tmpDir others args w : Inv D w -> plain_text newId -> fresh newId w -> N newId -> quiet D N others ->
  rtc (sstep D (except N newId)) w (uploadVolumeServerSide env now newId tmpDir others args w).2.
Proof.
  intros Hi Hp Hf Hn Hq. unfold uploadVolumeServerSide. destruct (_ ≫= _) as [archive|]; [|done].
  set (k := (uv_orgId args, VOLUME_ORG_USER_ID, uv_storageName args, Volume) : StorageKey).
  destruct (upsertStorageForPrepare now newId k w) as [storage w1] eqn:E.
  assert (sstep D (except N newId) w w1) as Hs.
  { pose proof (step_upsert D (except N newId) now newId k w Hp Hf) as Hs. rewrite E in Hs. apply Hs. by intros []. }
  pose proof (sstep_inv _ _ _ _ Hi Hs) as Hi1. apply upsert_row in E as (_ & Hk & _).
  set (files := materializeFiles (uv_files args)). set (entries := file_entry <$> files).
  set (vid := computeContentHashFromHashes (st_id storage) entries). set (s3Key := s3_prefix k ++ js "/" ++ vid).
  destruct (put_all _ _ w1) as [[e|] w2] eqn:Epu; cbn [snd]; pose proof (puts_refine D (except N newId) _ _ _ _ _ Epu) as H12; [by eapply rtc_l|].
  pose proof (storage_steps_inv _ _ _ _ Hi1 H12) as Hi2. destruct (put_all_tables _ _ _ _ _ Epu) as [Hst _]. rewrite <- Hst in Hk.
  assert (rtc (sstep D (except N newId)) w (others w2)) as H3 by (eapply rtc_l; [done|]; etrans; [done|]; by apply (quiet_steps D N)).
  unfold commitVolumeVersion. destruct (insert_version _ _ (others w2)) as [w4|e] eqn:Ei; [|done]. cbn [mbind result_bind].
  destruct (findStorageVersion _ _ w4) eqn:Efi; cbn [snd]; [|done]. eapply rtc_r; [exact H3|].
  match type of Ei with insert_version _ ?v _ = _ => set (row := v) in Ei end.
  apply (commit_later D N _ now k storage (st_id storage) vid row w2 (others w2) w4 Hi2); [by apply Hq|done|done|done|done| | |exact Ei|by rewrite Efi].
  - exists entries. unfold row, entries, totalSize. cbn [sv_fileCount sv_size]. rewrite length_fmap. split_and!; [done..|]. apply total_size_entries.
  - apply uploaded_stored. split; [|intros _]; (eapply put_all_done; [exact Epu|]);
      [apply elem_of_cons; right; apply elem_of_cons; by left|apply elem_of_cons; by left].
Qed.

Lemma ensure_artifacts_refines `{!ContentHashLaws} D N env now newId before others orgId userId artifacts w :
  Inv D w -> (forall n, plain_text (newId n)) -> (forall n m, newId n = newId m -> n = m) -> (forall n, N (newId n)) ->
  NoDup (ca_name <$> artifacts) -> (forall a, a ∈ artifacts -> fresh (newId (ca_name a)) w) ->
  (forall n, quiet D N (before n)) -> (forall n i, quiet D N (others n i)) ->
  ssteps D w (ensureArtifacts env now newId before others orgId userId artifacts w).2.
Proof.
  intros Hi Hp Hinj HN Hnd Hf Hq Hq'. revert w Hi Hnd Hf. induction artifacts as [|a artifacts IH]; intros w Hi Hnd Hf; [done|]. cbn [ensureArtifacts].
  rewrite fmap_cons in Hnd. apply NoDup_cons in Hnd as [Hna Hnd]. set (name := ca_name a).
  assert (rtc (sstep D (except N (newId name))) w (ensureArtifactStorage env now (newId name) (others name) orgId userId name (before name w)).2) as H1.
  { etrans; [by apply (quiet_steps D N (before name))|]. apply ensure_refines; [by apply (quiet_inv D N)|done| |done|done].
    eapply fresh_later; [done..|]. apply Hf. set_solver. }
  destruct (ensureArtifactStorage env now (newId name) (others name) orgId userId name (before name w)) as [e w1] eqn:E. cbn [snd] in H1.
  pose proof (storage_steps_inv _ _ _ _ Hi H1) as Hi1. pose proof (steps_later _ _ _ _ Hi H1) as Hl1.
  assert (forall b, b ∈ artifacts -> fresh (newId (ca_name b)) w1) as Hf1.
  { intros b Hb k r Hk Heq. destruct (lt_rows _ _ _ _ Hl1 k r Hk) as (r0 & Hr0 & Hid & _).
    - rewrite Heq. split; [done|]. intros Hn%Hinj. apply Hna. change (ca_name a) with name. rewrite <- Hn. apply list_elem_of_fmap. eauto.
    - apply (Hf b ltac:(set_solver) k r0 Hr0). congruence. }
  pose proof (IH w1 Hi1 Hnd Hf1) as H2.
  destruct (ensureArtifacts env now newId before others orgId userId artifacts w1) as [e' w2]. cbn [snd] in *.
  etrans; [|exact H2]. eapply steps_weaken; [|exact H1]. done.
Qed.

Lemma dedup_names artifacts : NoDup (ca_name <$> dedupArtifacts artifacts).
Proof.
  unfold dedupArtifacts.
  assert (forall acc : Rec ContextArtifact, NoDup (rec_keys acc) -> (forall kv, kv ∈ acc -> kv.1 = ca_name kv.2) ->
    let m := foldl (fun byName a => rec_define byName (ca_name a) a) acc artifacts in
    NoDup (rec_keys m) /\ forall kv, kv ∈ m -> kv.1 = ca_name kv.2) as Hfold.
  { induction artifacts as [|a artifacts IH]; intros acc Hnd Hk; [done|]. cbn. apply IH; [by apply NoDup_rec_define|].
    intros kv [Hin|[-> ->]]%elem_of_rec_define; auto. }
  destruct (Hfold [] (NoDup_nil_2)) as [Hnd Hk]; [by intros kv ?%elem_of_nil|]. cbn zeta in *.
  set (m := foldl _ _ _) in *. replace (ca_name <$> m.*2) with (rec_keys m); [done|]. unfold rec_keys.
  rewrite <- list_fmap_compose. apply list_fmap_ext. intros i kv Hkv. cbn. apply Hk. by eapply list_elem_of_lookup_2.
Qed.

Lemma manifest_refines `{!ContentHashLaws} D N env now newIds before others after args w :
  Inv D w -> (forall n, plain_text (newIds n)) -> (forall n m, newIds n = newIds m -> n = m) -> (forall n, N (newIds n)) ->
  (forall n, fresh (newIds n) w) -> (forall n, quiet D N (before n)) -> (forall n i, quiet D N (others n i)) -> quiet D N after ->
  ssteps D w (prepareAgentRunStorageManifest env now newIds before others after args w).2.
Proof.
  intros Hi Hp Hinj HN Hf Hq Hq' Hq''. unfold prepareAgentRunStorageManifest. destruct (resolveComposeVolumes _ _ _ _); [|done].
  assert (ssteps D w (ensureArtifacts env now newIds before others (pm_runtimeOrgId args) (pm_userId args) (dedupArtifacts (pm_artifacts args)) w).2) as Hr
    by (eapply (ensure_artifacts_refines D N); auto using dedup_names).
  destruct (ensureArtifacts _ _ _ _ _ _ _ _ _) as [[e|] w1]; [done|]. cbn [snd] in Hr |- *. etrans; [exact Hr|].
  eapply steps_weaken; [|apply (Hq'' w1)]; [done|]. by eapply storage_steps_inv.
Qed.

(** *** System skills and deletions *)

Lemma quiet_ssteps D N others w : Inv D w -> quiet D N others -> ssteps D w (others w).
Proof. intros Hi Hq. eapply steps_weaken; [|by apply Hq]. done. Qed.

(** The insert of the version of a skill and the move of the head of its volume: when the volume
    was deleted before the insert, and the version of the volume that replaced it is there, the
    head that is moved is of no row. *)
Lemma skill_version_refines `{!ContentHashLaws} D N now others skill sid size sha w w3 w4 :
  Inv D w -> (exists r, storages w !! skill_key (sx_storageName (buildSkillSyncContext skill)) = Some r /\ st_id r = sid) ->
  plain_text (ex_skillName skill) -> N sid -> rtc (sstep D (fun id => used w id \/ N id)) w w3 -> quiet D N others ->
  let context := buildSkillSyncContext skill in
  stored D (skill_s3_key context) (sx_fileCount context) w3 ->
  insertSkillStorageVersion sid (sx_versionHash context) (skill_s3_key context) sha size (sx_fileCount context) w3 = Ok w4 ->
  ssteps D w3 (updateSkillStorageHead now sid (sx_versionHash context) size (sx_fileCount context) (others w4)).
Proof.
  intros Hi (r & Hk & Hid) Hname HN Hs Hq context Hst Hins. pose proof (steps_later _ _ _ _ Hi Hs) as Hl. pose proof (storage_steps_inv _ _ _ _ Hi Hs) as Hi3.
  set (k := skill_key (sx_storageName context)). destruct (storage_exists sid w3) eqn:Eu.
  - apply storage_exists_spec in Eu. destruct (row_later D _ w w3 k r sid Hi Hl Hk Hid) as (r' & Hr' & Hid'); [by right|done|].
    assert (sstep D (fun _ => False) w3 w4) as H34.
    { eapply (step_version D _ k r'); [done| |exact Hins]. unfold skill_version. split_and!; [done..| |exact Hst]. right. by exists skill. }
    pose proof (sstep_inv _ _ _ _ Hi3 H34) as Hi4. destruct (insert_version_same _ _ _ _ Hins) as (Hrows & _). rewrite <- Hrows in Hr'.
    assert (is_Some (findStorageVersion sid (sx_versionHash context) w4)) as Hfound.
    { destruct (insert_version_lookup _ _ _ _ Hins) as [[-> [v Hv]]|(-> & _)]; eapply find_owned.
      - exact Hv.
      - rewrite <- Hid'. by eapply (skill_owned D skill).
      - cbn. by rewrite lookup_insert_eq.
      - done. }
    eapply rtc_l; [exact H34|]. etrans; [by apply (quiet_ssteps D N)|].
    eapply (head_later D N _ _ k r' sid (sx_versionHash context) w4); [done|by apply Hq|done|done|done|].
    intros r'' Hr'' <- Hf. by eapply step_content.
  - destruct (insert_version_lookup _ _ _ _ Hins) as [[-> _]|(_ & _ & Hu)]; [|by apply storage_exists_spec in Hu; cbn in Hu; congruence].
    etrans; [by apply (quiet_ssteps D N)|]. unfold updateSkillStorageHead. rewrite update_storage_absent; [done|]. intros (k' & r' & Hk' & Hid').
    pose proof (steps_later _ _ _ _ Hi3 (Hq w3 Hi3)) as Hl3. destruct (lt_rows _ _ _ _ Hl3 k' r' Hk') as (r0 & Hr0 & Hid0 & _); [right; congruence|].
    assert (storage_exists sid w3 = true) as He by (apply storage_exists_spec; exists k', r0; split; [done|congruence]). congruence.
Qed.

(** [N] are the identifiers that were given out before the volume of the skill is written. *)
Lemma skill_refines `{!ContentHashLaws} D N0 N env now newId others archive sha skill skills w :
  Inv D w -> plain_text newId -> fresh newId w -> N0 newId -> N newId -> plain_text (ex_skillName skill) ->
  quiet D N0 (others 0%nat) -> quiet D N (others 1%nat) -> quiet D N (others 2%nat) ->
  (forall w' id, storages w' = storages w -> used (others 0%nat w') id -> N id) ->
  ssteps D w (syncSingleSkill env now newId others archive sha skill skills w).2.
Proof.
  intros Hi Hp Hf HN0 HN Hname Hq0 Hq1 Hq2 Hissued. unfold syncSingleSkill. set (context := buildSkillSyncContext skill).
  destruct (hasCurrentSkillVersion context sha skills) as [[] skills1]; [done|].
  destruct (archive (ex_files skill)) as [ar|]; [|done]. destruct (uploadSkillArchive env context ar w) as [[e|] w1] eqn:Epu;
    pose proof (puts_refine D (fun _ => False) _ _ _ _ _ Epu) as H1; [done|]. pose proof (storage_steps_inv _ _ _ _ Hi H1) as Hi1.
  destruct (put_all_tables _ _ _ _ _ Epu) as [Hst _]. set (size := Z.of_nat (length (ar_archiveBuffer ar))).
  assert (ssteps D w (others 0%nat w1)) as H1' by (etrans; [exact H1|]; by apply (quiet_ssteps D N0)).
  pose proof (storage_steps_inv _ _ _ _ Hi H1') as Hi1'. set (name := sx_storageName context).
  destruct (upsertSkillStorage now newId name size (sx_fileCount context) (others 0%nat w1)) as [sid w2] eqn:E.
  assert (sstep D (fun _ => False) (others 0%nat w1) w2) as Hs.
  { pose proof (step_skill D (fun _ => False) now newId name size (sx_fileCount context) (others 0%nat w1) Hp) as Hs. rewrite E in Hs.
    apply Hs; [|by intros []]. apply (fresh_later D N0); [done|done|done|]. intros k r. rewrite Hst. apply Hf. }
  pose proof (sstep_inv _ _ _ _ Hi1' Hs) as Hi2. apply skill_row in E as (r & Hw2 & Hk & Hid & Hold).
  assert (N sid) as HNs.
  { destruct (storages (others 0%nat w1) !! skill_key name) as [r0|] eqn:E0; [|by destruct Hold as [<- _]; rewrite <- Hid].
    apply (Hissued w1); [done|]. exists (skill_key name), r0. split; [done|]. destruct Hold as [<- _]. done. }
  assert (ssteps D w (others 1%nat w2)) as H3 by (etrans; [exact H1'|]; eapply rtc_l; [exact Hs|]; by apply (quiet_ssteps D N)).
  assert (stored D (skill_s3_key context) (sx_fileCount context) (others 1%nat w2)) as Hstored.
  { eapply later_stored; [exact (steps_later _ _ _ _ Hi2 (Hq1 w2 Hi2))|]. eapply later_stored; [exact (sstep_later _ _ _ _ Hi1' Hs)|].
    eapply later_stored; [exact (steps_later _ _ _ _ Hi1 (Hq0 w1 Hi1))|]. apply uploaded_stored.
    split; [|intros _]; (eapply put_all_done; [exact Epu|]); [apply elem_of_cons; right; apply elem_of_cons; by left|apply elem_of_cons; by left]. }
  destruct (insertSkillStorageVersion _ _ _ _ _ _ _) as [w4|e] eqn:Ei; [|exact H3].
  assert (ssteps D (others 1%nat w2) (updateSkillStorageHead now sid (sx_versionHash context) size (sx_fileCount context) (others 2%nat w4))) as H5.
  { eapply (skill_version_refines D N now (others 2%nat) skill sid size sha w2); [done|by exists r|done|done|by apply Hq1|done|done|exact Ei]. }
  destruct (upsertSkillRecord _ _ _ _ _); (etrans; [exact H3|exact H5]).
Qed.

(** [D] has the keys below a prefix. *)
Definition below (D : jsstr -> Prop) (prefix : jsstr) : Prop := forall key, starts_with key prefix = true -> D key.

Lemma delete_keys_refines (D : jsstr -> Prop) env keys w w' : Forall D keys -> deleteS3Objects env keys w = Ok w' -> ssteps D w w'.
Proof.
  unfold deleteS3Objects. destruct keys as [|key keys]; [by intros _ [= <-]|]. destruct (s3_deletes _ _); [done|]. intros HD [= <-].
  by apply rtc_once, step_delete_objects.
Qed.

Lemma delete_prefix_refines D N env others prefix w : Inv D w -> quiet D N others -> below D prefix -> ssteps D w (delete_prefix env others prefix w).2.
Proof.
  intros Hi Hq Hb. unfold delete_prefix, listS3Objects. destruct (s3_lists env prefix); [done|]. set (keys := filter _ _).
  assert (Forall D keys) as HD by (apply Forall_forall; intros key [Hs _]%list_elem_of_filter; by apply Hb).
  pose proof (quiet_ssteps D N others w Hi Hq) as Ho. destruct (deleteS3Objects env keys (others w)) as [w2|e] eqn:E; [|done].
  etrans; [exact Ho|]. by eapply delete_keys_refines.
Qed.

Lemma delete_prefixes_refines D N env others prefixes w : Inv D w -> (forall p, quiet D N (others p)) -> Forall (below D) prefixes ->
  ssteps D w (deleteObjectsForPrefixes env others prefixes w).2 /\
  ssteps D w (deleteUserObjectsForPrefixesBestEffort env others prefixes w).
Proof.
  intros Hi Hq Hb. revert w Hi. induction Hb as [|prefix prefixes Hp _ IH]; intros w Hi; [done|]. cbn.
  pose proof (delete_prefix_refines D N env (others prefix) prefix w Hi (Hq prefix) Hp) as H1.
  destruct (delete_prefix env (others prefix) prefix w) as [e w1]. cbn [snd] in *.
  destruct (IH w1 (storage_steps_inv _ _ _ _ Hi H1)) as [H2 H3]. split; [|by etrans]. destruct e; [done|by etrans].
Qed.

Lemma prefixes_below D (wanted : StorageKey -> bool) w : Inv D w ->
  (forall k, wanted k = true -> below D (s3_prefix k)) -> Forall (below D) (prefixes_of wanted w).
Proof.
  intros Hi Hw. apply Forall_forall. intros p (r & -> & Hin)%list_elem_of_fmap. apply list_elem_of_fmap in Hin as ([k r'] & -> & Hin).
  apply list_elem_of_filter in Hin as [Hk Hin]. apply elem_of_map_to_list in Hin. cbn in *. rewrite (inv_prefix D w Hi k r' Hin). by apply Hw.
Qed.

Lemma delete_volume_refines D N env others wanted w : Inv D w -> quiet D N others ->
  (forall k, wanted k = true -> below D (s3_prefix k)) -> ssteps D w (delete_volume env others wanted w).2.
Proof.
  intros Hi Hq Hw. unfold delete_volume. destruct (list_find _ _) as [[i [k r]]|] eqn:El; [|done].
  apply list_find_Some in El as (Hin & Hk & _). apply list_elem_of_lookup_2, elem_of_map_to_list in Hin. cbn in Hk.
  set (doomed := fun _ r' => _). assert (sstep D (fun _ => False) w (delete_storages doomed w)) as Hs by apply step_delete_storages.
  destruct (truthy_text (Some (st_s3Prefix r))) as [p|] eqn:Et; [|by apply rtc_once]. eapply rtc_l; [exact Hs|].
  eapply (delete_prefix_refines D N); [by eapply sstep_inv|done|].
  assert (p = st_s3Prefix r) as -> by (cbn in Et; destruct (st_s3Prefix r); by simplify_eq). rewrite (inv_prefix D w Hi k r Hin). by apply Hw.
Qed.

Lemma delete_owner_refines D (doomed : StorageKey -> StorageRow -> bool) gone w : ssteps D w (delete_storages doomed (delete_runs gone w)).
Proof. eapply rtc_l; [apply step_delete_runs|]. apply rtc_once, step_delete_storages. Qed.

Lemma orphans_refine D N env others extracted skills w : Inv D w -> (forall p, quiet D N (others p)) ->
  (forall k r url row, storages w !! k = Some r -> skills !! url = Some row -> sk_storageId row = Some (st_id r) -> below D (s3_prefix k)) ->
  ssteps D w (removeOrphanedSkills env others extracted skills w).2.
Proof.
  intros Hi Hq Hb. unfold removeOrphanedSkills. set (orphans := filter _ (map_to_list skills)). set (ids := omap _ orphans). cbn [snd].
  set (w1 := delete_storages _ w). assert (sstep D (fun _ => False) w w1) as Hs by apply step_delete_storages.
  eapply rtc_l; [exact Hs|]. apply (delete_prefixes_refines D N); [by eapply sstep_inv|done|].
  apply Forall_forall. intros p (r & -> & Hin)%list_elem_of_fmap. apply list_elem_of_fmap in Hin as ([k r'] & -> & Hin).
  apply list_elem_of_filter in Hin as [Hid Hin]. apply elem_of_map_to_list in Hin. cbn in *.
  apply list_elem_of_omap in Hid as ([url row] & Hrow & Hid). apply list_elem_of_filter in Hrow as [_ Hrow%elem_of_map_to_list].
  rewrite (inv_prefix D w Hi k r' Hin). by eapply Hb.
Qed.


End Services.

(** ** Instances *)

(** A hash without collisions that keeps the text, links that show their key, and archives that
    list their paths. *)
Definition sample_services : StorageServices := {|
  sha256_hex := fun data => 48 :: data;
  presigned_put_url := fun _ key _ _ => js "put:" ++ key;
  presigned_get_url := fun _ key _ => js "get:" ++ key;
  tar_gzip := fun _ paths => Ok (mjoin paths);
  gzip_sync := fun data => data |}.

#[export] Instance sample_hash_laws : @ContentHashLaws sample_services.
Proof. split; [|done]. intros t t' _ _. cbn [sha256_hex sample_services]. intros Heq. exact (f_equal (@tl Z) Heq). Qed.

Definition sample_entry (path : jsstr) (digit : Z) : FileEntryWithHash := {| fe_path := path; fe_hash := replicate 64 digit; fe_size := 5 |}.
Definition sample_files : list FileEntryWithHash := [sample_entry (js "b.md") 97; sample_entry (js "a.md") 98].
Definition sample_db : StorageDb :=
  {| storages := ∅; storageVersions := ∅; lineage := []; agentRuns := {[js "run_1" := {| rf_userId := js "user_1"; rf_orgId := js "org_1" |}]};
     objects := ∅ |}.
Definition sample_env : StorageEnv :=
  {| bucketName := js "bucket"; s3_rejects := fun _ => None; s3_lists := fun _ => None; s3_deletes := fun _ => None |}.

(** Nobody else, and no deletions. *)
Definition alone (w : StorageDb) : StorageDb := w.
Definition no_keys (key : jsstr) : Prop := False.

Lemma alone_quiet `{StorageServices} D N : quiet D N alone.
Proof. intros w _. constructor. Qed.

Lemma sample_inv `{StorageServices} D : Inv D sample_db.
Proof. by split. Qed.

Lemma plain_text_check (s : jsstr) : well_formed s = true -> forallb (fun x => negb (x =? 10)) s = true -> plain_text s.
Proof. intros Hw Hf. split; [done|]. intros Hin. rewrite forallb_true in Hf. by specialize (Hf 10 Hin). Qed.

Lemma version_id_canonical_witness :
  @computeContentHashFromHashes sample_services (js "s1") sample_files = @computeContentHashFromHashes sample_services (js "s1") (rev sample_files).
Proof.
  apply (@version_id_canonical sample_services (js "s1") (js "s1") sample_files (rev sample_files)).
  1, 2: apply plain_text_check; vm_compute; reflexivity.
  1, 2: repeat constructor; try (vm_compute; reflexivity); apply plain_text_check; vm_compute; reflexivity.
  split; [reflexivity|]. apply perm_swap.
Defined.

Definition sample_auth : AuthContext := sandbox_context {| sa_userId := js "user_1"; sa_runId := js "run_1"; sa_orgId := js "org_1" |}.
Definition sample_key : StorageKey := (js "org_1", js "user_1", js "notes", Artifact).
Definition sample_prepare : PrepareStorageInput :=
  {| pi_auth := sample_auth; pi_storageName := js "notes"; pi_storageType := Artifact; pi_files := sample_files; pi_force := None;
     pi_runId := Some (js "run_1"); pi_baseVersion := None; pi_changes := None |}.
Definition sample_version : jsstr := @computeContentHashFromHashes sample_services (js "s1") sample_files.
Definition sample_commit : CommitStorageInput :=
  {| ci_auth := sample_auth; ci_storageName := js "notes"; ci_storageType := Artifact; ci_versionId := sample_version;
     ci_files := sample_files; ci_runId := Some (js "run_1"); ci_parentVersionId := None; ci_message := None |}.

(** The state after the upload is prepared, its objects are put, and it is committed. *)
Definition sample_prepared : StorageDb := (@prepareStorageUploadForAuth sample_services sample_env 1 (js "s1") alone alone sample_prepare sample_db).2.
Definition sample_stored : StorageDb :=
  with_objects (<[manifest_key (keyed sample_key sample_version) := BytesObject []]>)
    (with_objects (<[archive_key (keyed sample_key sample_version) := BytesObject []]>) sample_prepared).
Definition sample_committed : StorageDb :=
  (@commitStorageUploadForAuth sample_services sample_env 2 alone sample_commit sample_stored).2.

Lemma sample_fresh id : fresh id sample_db.
Proof. by intros k r Hk. Qed.

Lemma sample_steps : @ssteps sample_services no_keys sample_db sample_stored.
Proof.
  eapply rtc_r; [eapply rtc_r; [|apply step_put]|apply step_put].
  eapply steps_weaken; [|apply (prepare_refines no_keys (fun _ => True))].
  - done.
  - apply sample_inv.
  - apply plain_text_check; vm_compute; reflexivity.
  - apply sample_fresh.
  - done.
  - apply alone_quiet.
  - apply alone_quiet.
Qed.

Lemma sample_stored_inv : @Inv sample_services no_keys sample_stored.
Proof. eapply (storage_steps_inv _ _ sample_db); [apply sample_inv|apply sample_steps]. Qed.

Lemma sample_commit_steps : @ssteps sample_services no_keys sample_db sample_committed.
Proof. etransitivity; [exact sample_steps|]. apply (commit_refines no_keys (fun _ => False)); [exact sample_stored_inv|apply alone_quiet]. Qed.


(** Other identifiers for other names. *)
Definition sample_ids (name : jsstr) : jsstr := replicate (Pos.to_nat (encode name)) 48.

Lemma sample_ids_plain name : plain_text (sample_ids name).
Proof.
  split; [|by intros Hin%elem_of_replicate_inv]. apply well_formed_ascii, forallb_true. intros c Hc%elem_of_replicate_inv. by subst c.
Qed.

Lemma sample_ids_inj n m : sample_ids n = sample_ids m -> n = m.
Proof. intros Heq%(f_equal length). unfold sample_ids in Heq. rewrite !length_replicate in Heq. by apply Pos2Nat.inj, encode_inj in Heq. Qed.

Lemma sample_committed_fresh id : id <> js "s1" -> fresh id sample_committed.
Proof.
  intros Hne. assert (forallb (fun kv => bool_decide (st_id kv.2 = js "s1")) (map_to_list (storages sample_committed)) = true) as Hall
    by (vm_compute; reflexivity).
  rewrite forallb_true in Hall. intros k r Hk Heq. apply Hne.
  specialize (Hall (k, r) (proj2 (elem_of_map_to_list _ _ _) Hk)). apply bool_decide_eq_true in Hall. rewrite <- Heq. exact Hall.
Qed.

Lemma sample_ids_other n : sample_ids n <> js "s1".
Proof. intros Heq. assert (115 ∈ sample_ids n) as Hin by (rewrite Heq; apply elem_of_cons; by left). by apply elem_of_replicate_inv in Hin. Qed.

Lemma sample_committed_all : @Inv sample_services (fun _ => True) sample_committed.
Proof.
  apply (inv_weaken no_keys); [done|]. eapply (storage_steps_inv _ _ sample_db); [apply sample_inv|exact sample_commit_steps].
Qed.


End StorageSafety.
