(* ===== verification/StorageUploads.v ===== *)
(** Uploads round trip, requests reach the storages of their owner only, files are written below
    the directory meant for them, and the manifest of a run mounts what it should; with the
    cases in which the code does something else than it says. *)

From stdpp Require Import sorting relations.
From S2P Require Import Prelude JsString JsValue JsRecord Bytes Json GithubUrl Tokens Auth RunEnvironment Storage StorageRuns StorageUpkeep StorageSafety.
Import Bytes Json GithubUrl Tokens Auth RunEnvironment Storage StorageRuns StorageUpkeep StorageSafety.

Module StorageUploads.

Section Services.
Context `{StorageServices}.

(** ** What resolution depends on *)

Lemma resolve_runs auth runId w w' : agentRuns w' = agentRuns w ->
  resolveStorageRuntimeOrg auth runId w' = resolveStorageRuntimeOrg auth runId w.
Proof. intros Hr. unfold resolveStorageRuntimeOrg, run_of_user. by rewrite Hr. Qed.

Lemma resolve_without_run auth runId w orgId : resolveStorageRuntimeOrg auth runId w = inr orgId ->
  resolveStorageRuntimeOrg auth None w = inr orgId.
Proof.
  unfold resolveStorageRuntimeOrg. destruct (au_runId auth) as [r|]; [done|]. destruct (truthy_text (au_orgId auth)) as [o|]; [|done].
  destruct (truthy_text runId) as [r|]; [|done]. by destruct (run_of_user r (au_userId auth) w).
Qed.

Lemma verify_exists env s3Key count w : (forall k, s3_rejects env k = None) -> uploaded s3Key count w ->
  verifyS3FilesExist env s3Key count w = Ok true /\ verifyUploadedStorageFiles env s3Key count w = Ok None.
Proof.
  intros Hn [Hm Ha]. unfold verifyS3FilesExist, verifyUploadedStorageFiles, s3ObjectExists. rewrite !Hn. cbn.
  rewrite !bool_decide_true by done. destruct (0 <? count) eqn:E; cbn; [|done]. by rewrite bool_decide_true by (apply Ha; lia).
Qed.

Lemma find_version sid vid v w : findStorageVersion sid vid w = Some v -> storageVersions w !! vid = Some v /\ sv_storageId v = sid.
Proof.
  unfold findStorageVersion. destruct (storageVersions w !! vid) as [v'|]; [|done]. cbn. case_bool_decide; [|done]. by intros [= ->].
Qed.

Lemma find_version_intro sid vid v w : storageVersions w !! vid = Some v -> sv_storageId v = sid -> findStorageVersion sid vid w = Some v.
Proof. intros Hv <-. unfold findStorageVersion. rewrite Hv. cbn. by rewrite bool_decide_true. Qed.

Lemma lineage_tables sid vid parent runId type w : let w' := recordStorageLineage sid vid parent runId type w in
  storages w' = storages w /\ storageVersions w' = storageVersions w /\ objects w' = objects w /\ agentRuns w' = agentRuns w.
Proof. unfold recordStorageLineage. destruct (truthy_text parent), (truthy_text runId), type; try done. by destruct (_ && _). Qed.

(** The version of a storage is stored under its own key. *)
Lemma version_location D k r vid v w : Inv D w -> storages w !! k = Some r -> findStorageVersion (st_id r) vid w = Some v ->
  sv_s3Key v = version_key r vid.
Proof.
  intros Hi Hk Hf. apply find_version in Hf as [Hv Hs].
  destruct (inv_versions D w Hi vid v Hv) as (k' & r' & Hk' & Hid & Hkey & _).
  assert (k = k') as <- by (apply (inv_ids D w Hi k r k' r'); [done..|congruence]).
  unfold version_key. rewrite (inv_prefix D w Hi k r Hk). exact Hkey.
Qed.

(** ** Round trip *)

(** A commit whose objects are in the store succeeds and makes its version the head. *)
Lemma commit_done `{!ContentHashLaws} D env now args w orgId r :
  Inv D w -> bucketName env <> [] -> (forall k, s3_rejects env k = None) ->
  resolveStorageRuntimeOrg (ci_auth args) (ci_runId args) w = inr orgId ->
  let k := (orgId, storageUserId (ci_storageType args) (au_userId (ci_auth args)), ci_storageName args, ci_storageType args) : StorageKey in
  storages w !! k = Some r -> computeContentHashFromHashes (st_id r) (ci_files args) = ci_versionId args ->
  (forall count, uploaded (version_key r (ci_versionId args)) count w) ->
  exists body w' r' v, commitStorageUploadForAuth env now alone args w = (Ok (CommitOk body), w') /\
    cb_versionId body = ci_versionId args /\ cb_storageName body = ci_storageName args /\
    cb_size body = sv_size v /\ cb_fileCount body = sv_fileCount v /\
    (findStorageVersion (st_id r) (ci_versionId args) w = None ->
       cb_size body = totalSize (ci_files args) /\ cb_fileCount body = Z.of_nat (length (ci_files args)) /\ cb_deduplicated body = None) /\
    storages w' !! k = Some r' /\ st_id r' = st_id r /\ st_s3Prefix r' = st_s3Prefix r /\ st_headVersionId r' = Some (ci_versionId args) /\
    findStorageVersion (st_id r) (ci_versionId args) w' = Some v /\ sv_s3Key v = version_key r (ci_versionId args) /\
    objects w' = objects w /\ agentRuns w' = agentRuns w.
Proof.
  intros Hi Hb Hn Ho k Hk Hh Hu. unfold commitStorageUploadForAuth. rewrite Ho. unfold findStorageForCommit.
  change (storages w !! _) with (storages w !! k). rewrite Hk, Hh, bool_decide_true by done. cbn [negb]. rewrite bool_decide_false by done.
  destruct (findStorageVersion (st_id r) (ci_versionId args) w) as [ev|] eqn:Ef.
  - pose proof (version_location D k r _ ev w Hi Hk Ef) as Hkey. unfold commitExistingStorageVersion, alone. rewrite Hkey.
    destruct (verify_exists env _ (sv_fileCount ev) w Hn (Hu (sv_fileCount ev))) as [-> _].
    destruct (bool_decide (st_headVersionId r = _)) eqn:Ehd.
    + apply bool_decide_eq_true in Ehd. eexists _, _, r, ev. by split_and!.
    + eexists _, _, (set_head (Some (ci_versionId args)) now r), ev. split_and!; try done.
      rewrite lookup_update_storage, Hk. cbn. by rewrite bool_decide_true.
  - unfold commitNewStorageVersion. destruct (verify_exists env _ (Z.of_nat (length (ci_files args))) w Hn (Hu _)) as [_ ->]. unfold insertStorageVersionAndUpdateHead. cbv zeta.
    set (v := {| sv_storageId := st_id r |}).
    assert (storageVersions w !! ci_versionId args = None) as Hnone.
    { destruct (storageVersions w !! ci_versionId args) as [v'|] eqn:Ev; [|done]. exfalso. rewrite <- Hh in Ev.
      pose proof (version_owned D k r _ v' w Hi Hk Ev) as Hown. rewrite Hh in Ev. by rewrite (find_version_intro _ _ _ _ Ev Hown) in Ef. }
    set (wv := with_versions (<[ci_versionId args := v]>) w).
    assert (insert_version (ci_versionId args) v w = Ok wv) as Hins.
    { unfold insert_version. rewrite Hnone. assert (storage_exists (sv_storageId v) w = true) as ->; [|done]. apply storage_exists_spec. by exists k, r. }
    assert (findStorageVersion (st_id r) (ci_versionId args) wv = Some v) as Hfind.
    { apply find_version_intro; [|done]. cbn. apply lookup_insert_eq. }
    unfold alone. rewrite Hins. cbn [mbind result_bind]. rewrite Hfind. pose proof (lineage_tables (st_id r) (ci_versionId args) (ci_parentVersionId args) (ci_runId args) (ci_storageType args)
      (update_storage (st_id r) (set_content (ci_versionId args) (totalSize (ci_files args)) (Z.of_nat (length (ci_files args))) now)
        wv)) as (Hs' & Hv' & Ho' & Hr').
    eexists _, _, (set_content (ci_versionId args) (totalSize (ci_files args)) (Z.of_nat (length (ci_files args))) now r), v.
    split; [reflexivity|]. rewrite Hs', Ho', Hr'. split_and!; try done.
    + rewrite lookup_update_storage. cbn. rewrite Hk. cbn. by rewrite bool_decide_true.
    + unfold findStorageVersion. rewrite Hv'. exact Hfind.
Qed.

Definition put_object (key : jsstr) (body : S3Object) (w : StorageDb) : StorageDb := with_objects (<[key := body]>) w.

Definition commit_of (args : PrepareStorageInput) (vid : jsstr) : CommitStorageInput :=
  {| ci_auth := pi_auth args; ci_storageName := pi_storageName args; ci_storageType := pi_storageType args; ci_versionId := vid;
     ci_files := pi_files args; ci_runId := pi_runId args; ci_parentVersionId := None; ci_message := None |}.

Definition unforced (args : PrepareStorageInput) : PrepareStorageInput :=
  {| pi_auth := pi_auth args; pi_storageName := pi_storageName args; pi_storageType := pi_storageType args; pi_files := pi_files args;
     pi_force := None; pi_runId := pi_runId args; pi_baseVersion := None; pi_changes := pi_changes args |}.

Lemma prepare_uploads env now newId args w vid a m w1 : truthy_text (pi_baseVersion args) = None ->
  prepareStorageUploadForAuth env now newId alone alone args w = (Ok (PrepareUploads vid a m), w1) ->
  exists orgId r, totalSize (pi_files args) <= MAX_FILE_SIZE_BYTES /\
    resolveStorageRuntimeOrg (pi_auth args) (pi_runId args) w = inr orgId /\
    let k := (orgId, storageUserId (pi_storageType args) (au_userId (pi_auth args)), pi_storageName args, pi_storageType args) : StorageKey in
    upsertStorageForPrepare now newId k w = (r, w1) /\ storages w1 !! k = Some r /\ agentRuns w1 = agentRuns w /\
    vid = computeContentHashFromHashes (st_id r) (pi_files args) /\
    up_key a = archive_key (version_key r vid) /\ up_key m = manifest_key (version_key r vid).
Proof.
  intros Hb. unfold prepareStorageUploadForAuth, alone. destruct (MAX_FILE_SIZE_BYTES <? _) eqn:Es; [done|].
  destruct (resolveStorageRuntimeOrg _ _ _) as [|orgId]; [done|]. set (k := (_, _, _, _) : StorageKey).
  destruct (upsertStorageForPrepare now newId k w) as [r w'] eqn:Eu. destruct (bool_decide (bucketName env = [])); [done|].
  unfold resolvePreparedFiles. rewrite Hb. destruct (existingStorageVersionIsReusable _ _ _ _ _) as [[]|]; [done| |done].
  unfold createStorageUploadResponse. intros [= <- <- <- <-]. exists orgId, r. unfold upsertStorageForPrepare in Eu. injection Eu as <- <-.
  split_and!; [lia|done..| |done|done|done|done]. cbn. apply lookup_insert_eq.
Qed.

(** C3: Uploads round trip. On consistent tables, with a bucket that is configured and answers every
    request, and with no other request in between: when preparing an upload of all files (one without a base version) hands
    out upload URLs, and the client puts objects there and commits the same files, the commit
    succeeds with the announced version; downloading the storage then returns that version and a
    link to the archive that was uploaded, and preparing the same files again, without force, finds
    it. New identifiers are fresh and of one line, and SHA-256 has no collisions among the texts
    that are hashed. *)
Theorem upload_roundtrip `{!ContentHashLaws} D env now newId args w vid a m w1 archive manifest now2 now3 newId3 :
  Inv D w -> plain_text newId -> fresh newId w -> bucketName env <> [] -> (forall k, s3_rejects env k = None) ->
  truthy_text (pi_baseVersion args) = None ->
  prepareStorageUploadForAuth env now newId alone alone args w = (Ok (PrepareUploads vid a m), w1) ->
  let w2 := put_object (up_key m) manifest (put_object (up_key a) archive w1) in
  exists body w3, commitStorageUploadForAuth env now2 alone (commit_of args vid) w2 = (Ok (CommitOk body), w3) /\
    cb_versionId body = vid /\
    downloadStorageForAuth env (pi_auth args) (pi_storageName args) (pi_storageType args) None w3 =
      inr (if cb_fileCount body =? 0 then DownloadEmpty vid
           else DownloadUrl (presigned_get_url (bucketName env) (up_key a) DOWNLOAD_URL_TTL_SECONDS) vid (cb_fileCount body) (cb_size body)) /\
    (prepareStorageUploadForAuth env now3 newId3 alone alone (unforced args) w3).1 = Ok (PrepareExisting vid).
Proof.
  intros Hi Hp Hf Hb Hn Hbase Hprep w2. destruct (prepare_uploads _ _ _ _ _ _ _ _ _ Hbase Hprep)
    as (orgId & r & Hsize & Ho & Hu & Hk & Hruns & Hvid & Ha & Hm). cbn zeta in Hu, Hk. set (k := (_, _, _, _) : StorageKey) in Hu, Hk.
  assert (Inv D w2) as Hi2.
  { apply put_object_inv, put_object_inv. apply upsert_row in Hu as (-> & _ & Hrow). by apply (upserted_inv D newId). }
  assert (forall count, uploaded (version_key r vid) count w2) as Hup.
  { intros count. unfold w2, uploaded. cbn. rewrite <- Ha, <- Hm. split; [rewrite lookup_insert_eq; eauto|]. intros _.
    destruct (decide (up_key m = up_key a)) as [->|Hne]; [rewrite lookup_insert_eq; eauto|].
    rewrite lookup_insert_ne, lookup_insert_eq by done. eauto. }
  destruct (commit_done D env now2 (commit_of args vid) w2 orgId r Hi2 Hb Hn) as
    (body & w3 & r3 & v & Hc & Hbv & _ & Hbs & Hbc & _ & Hk3 & Hid & _ & Hhead & Hfv & Hkey & Hobj & Hr3); [|done|done|done|].
  { rewrite <- Ho. by apply resolve_runs. }
  change (storages w3 !! k = Some r3) in Hk3. cbn [ci_versionId commit_of] in Hfv, Hhead, Hkey, Hbv. exists body, w3. split_and!; [exact Hc|exact Hbv| |].
  - unfold downloadStorageForAuth. rewrite (resolve_runs _ _ w) by (rewrite Hr3; exact Hruns).
    rewrite (resolve_without_run _ _ _ _ Ho). change (storages w3 !! _) with (storages w3 !! k). rewrite Hk3.
    unfold resolve_download. cbn [truthy_text]. rewrite Hhead.
    destruct vid as [|x vid'] eqn:Evid; [by destruct (hash_nonempty _ (hashed_content (st_id r) (pi_files args)))|]. cbn [truthy_text]. rewrite <- Evid in *.
    apply find_version in Hfv as [-> _]. rewrite <- Hbc, <- Hbs. destruct (cb_fileCount body =? 0); [done|].
    rewrite bool_decide_false by done. by rewrite Hkey, Ha.
  - unfold prepareStorageUploadForAuth, alone. cbn [unforced pi_files]. destruct (MAX_FILE_SIZE_BYTES <? _) eqn:Es; [lia|].
    cbn [unforced pi_auth pi_runId pi_storageName pi_storageType]. rewrite (resolve_runs _ _ w) by (rewrite Hr3; exact Hruns). rewrite Ho.
    change (orgId, _, _, _) with k. unfold upsertStorageForPrepare. cbv zeta.
    rewrite Hk3. rewrite bool_decide_false by done.
    unfold resolvePreparedFiles. cbn [unforced pi_baseVersion truthy_text]. cbn [touch set_head st_id]. rewrite Hid.
    cbn [unforced pi_files]. rewrite <- Hvid. unfold existingStorageVersionIsReusable. cbn [unforced pi_force].
    rewrite bool_decide_false by done. change (findStorageVersion ?a ?b (with_storages ?f w3)) with (findStorageVersion a b w3).
    rewrite Hfv.
    destruct (verify_exists env (sv_s3Key v) (sv_fileCount v) (with_storages (<[k := touch now3 r3]>) w3) Hn) as [Hve _].
    { unfold uploaded. cbn [objects with_storages]. rewrite Hobj, Hkey. apply (Hup (sv_fileCount v)). }
    by rewrite Hve.
Qed.

(** ** Isolation *)

(** The storage a request is about. *)
Definition request_key (auth : AuthContext) (runId : option jsstr) (name : jsstr) (type : StorageType) (w : StorageDb) : option StorageKey :=
  match resolveStorageRuntimeOrg auth runId w with
  | inr orgId => Some (orgId, storageUserId type (au_userId auth), name, type)
  | inl _ => None
  end.

Definition download_version (d : StorageDownload) : jsstr := match d with DownloadUrl _ vid _ _ | DownloadEmpty vid => vid end.

(** It is in the organization of the run or of the session, and an artifact is the user's own. *)
Lemma request_key_owner auth runId name type w k : request_key auth runId name type w = Some k ->
  key_name k = name /\ key_type k = type /\ key_user k = match type with Volume => VOLUME_ORG_USER_ID | Artifact => au_userId auth end /\
  match au_runId auth with
  | Some authRunId => exists run, agentRuns w !! authRunId = Some run /\ rf_userId run = au_userId auth /\ key_org k = rf_orgId run
  | None => au_orgId auth = Some (key_org k)
  end.
Proof.
  unfold request_key, resolveStorageRuntimeOrg, run_of_user. destruct (au_runId auth) as [rid|].
  - destruct (agentRuns w !! rid) as [run|]; [|done]. cbn. case_bool_decide; [|done]. intros [= <-]. cbn. eauto 10.
  - destruct (au_orgId auth) as [[|x o]|]; [done| |done]. cbn [truthy_text]. destruct (truthy_text runId) as [rid|].
    + destruct (agentRuns w !! rid) as [run|]; [|done]. cbn. case_bool_decide; [|done]. by intros [= <-].
    + by intros [= <-].
Qed.

Lemma update_storage_other sid f w k k0 r0 D : Inv D w -> storages w !! k0 = Some r0 -> st_id r0 = sid -> k <> k0 ->
  storages (update_storage sid f w) !! k = storages w !! k.
Proof.
  intros Hi Hk0 Hid Hne. rewrite lookup_update_storage. destruct (storages w !! k) as [r|] eqn:E; [|done]. cbn.
  rewrite bool_decide_false; [done|]. intros Hs. apply Hne. apply (inv_ids D w Hi k r k0 r0); [done..|congruence].
Qed.

Lemma prepare_isolated env now newId args w : let w' := (prepareStorageUploadForAuth env now newId alone alone args w).2 in
  let key := request_key (pi_auth args) (pi_runId args) (pi_storageName args) (pi_storageType args) w in
  (forall k, key <> Some k -> storages w' !! k = storages w !! k) /\
  storageVersions w' = storageVersions w /\ objects w' = objects w /\ lineage w' = lineage w /\
  (forall k r r', storages w !! k = Some r -> storages w' !! k = Some r' -> r' = touch now r \/ r' = r).
Proof.
  cbv zeta. assert (forall k r r', storages w !! k = Some r -> storages w !! k = Some r' -> r' = touch now r \/ r' = r) as Hsame
    by (intros; right; congruence).
  unfold request_key, prepareStorageUploadForAuth, alone. destruct (_ <? _); [done|]. destruct (resolveStorageRuntimeOrg _ _ _) as [|orgId]; [done|].
  set (k0 := (_, _, _, _) : StorageKey) in *. destruct (upsertStorageForPrepare now newId k0 w) as [r w1] eqn:Eu.
  unfold upsertStorageForPrepare in Eu. injection Eu as Hr <-. set (w1 := with_storages _ w).
  assert ((forall k, Some k0 <> Some k -> storages w1 !! k = storages w !! k) /\
    forall k r' r'', storages w !! k = Some r' -> storages w1 !! k = Some r'' -> r'' = touch now r' \/ r'' = r') as [H1 H2].
  { split.
    - intros k Hne. unfold w1. cbn. apply lookup_insert_ne. by intros ->.
    - intros k r' r'' Hk Hk'. unfold w1 in Hk'. cbn in Hk'. apply lookup_insert_Some in Hk' as [[<- <-]|[_ Hk']]; [|right; congruence].
      change (storages w !! k0 = Some r') in Hk. rewrite Hk. by left. }
  destruct (bool_decide _); [done|]. by destruct (existingStorageVersionIsReusable _ _ _ _ _) as [[]|].
Qed.

Lemma commit_isolated D env now args w : Inv D w ->
  let w' := (commitStorageUploadForAuth env now alone args w).2 in
  let key := request_key (ci_auth args) (ci_runId args) (ci_storageName args) (ci_storageType args) w in
  (forall k, key <> Some k -> storages w' !! k = storages w !! k) /\
  (forall vid v, storageVersions w !! vid = Some v -> storageVersions w' !! vid = Some v) /\
  (forall vid v, storageVersions w' !! vid = Some v ->
    storageVersions w !! vid = Some v \/ exists k r, key = Some k /\ storages w !! k = Some r /\ sv_storageId v = st_id r) /\
  objects w' = objects w.
Proof.
  intros Hi w' key. unfold w', key, request_key, commitStorageUploadForAuth, alone. clear w' key.
  destruct (resolveStorageRuntimeOrg _ _ _) as [|orgId]; [by auto|]. unfold findStorageForCommit. set (k0 := (_, _, _, _)).
  destruct (storages w !! k0) as [r|] eqn:Ek; [|by auto]. destruct (bool_decide (computeContentHashFromHashes _ _ = _)); [|by auto]. cbn [negb].
  destruct (bool_decide (bucketName env = [])); [by auto|]. destruct (findStorageVersion _ _ w) as [ev|].
  - unfold commitExistingStorageVersion. destruct (verifyS3FilesExist _ _ _ _) as [[]|]; [|by auto..]. cbn [snd].
    case_bool_decide; [by auto|]. split; [|by auto]. intros k Hne. apply (update_storage_other _ _ _ _ k0 r D); [done..|]. by intros ->.
  - unfold commitNewStorageVersion. destruct (verifyUploadedStorageFiles _ _ _ _) as [[e|]|]; [by auto| |by auto].
    unfold insertStorageVersionAndUpdateHead. set (v := {| sv_storageId := st_id r |}).
    destruct (insert_version (ci_versionId args) v w) as [w1|e] eqn:Ei; [|by auto]. cbn [mbind result_bind].
    destruct (findStorageVersion _ _ w1); [|by auto]. cbn [snd]. set (w2 := update_storage _ _ _).
    destruct (lineage_tables (st_id r) (ci_versionId args) (ci_parentVersionId args) (ci_runId args) (ci_storageType args) w2) as (-> & -> & -> & _).
    pose proof (ext_versions _ _ (insert_version_extends _ _ _ _ Ei)) as Hext.
    destruct (insert_version_same _ _ _ _ Ei) as (Hs & Ho & _). split_and!; [|done| |exact Ho].
    + intros k Hne. unfold w2. rewrite lookup_update_storage, Hs. rewrite <- lookup_update_storage.
      apply (update_storage_other _ _ _ _ k0 r D); [done..|]. by intros ->.
    + intros vid v' Hv'. change (storageVersions w1 !! vid = Some v') in Hv'.
      apply insert_version_lookup in Ei as [[-> _]|(-> & _ & _)]; [by left|]. cbn in Hv'.
      apply lookup_insert_Some in Hv' as [[<- <-]|[_ Hv']]; [right; by exists k0, r|by left].
Qed.

Lemma resolve_download_own D r name version w k vid v : Inv D w -> storages w !! k = Some r ->
  resolve_download r name version w = inr (vid, v) -> storageVersions w !! vid = Some v /\ sv_storageId v = st_id r.
Proof.
  intros Hi Hk. unfold resolve_download. destruct (truthy_text version) as [ver|].
  - unfold resolveVersionByPrefix. destruct (findStorageVersion (st_id r) ver w) as [e|] eqn:Ef.
    { intros [= <- <-]. by apply find_version in Ef. }
    destruct (isValidVersionPrefix ver); cbn [negb]; [|by destruct (_ <? _)%nat].
    destruct (versions_like (st_id r) (ascii_lower <$> ver) w) as [|x [|]] eqn:El; [done| |done]. intros [= ->].
    assert ((vid, v) ∈ versions_like (st_id r) (ascii_lower <$> ver) w) as Hin by (rewrite El; apply elem_of_cons; by left).
    unfold versions_like in Hin. apply elem_of_take in Hin as (i & Hin & _). apply list_elem_of_lookup_2, list_elem_of_filter in Hin as [[Hs _] Hin].
    by apply elem_of_map_to_list in Hin.
  - destruct (st_headVersionId r) as [[|x h]|] eqn:Eh; [done| |done]. cbn [truthy_text].
    destruct (inv_head D w Hi k r (x :: h) Hk Eh) as [v' Hv']. apply find_version in Hv' as [Hv' Hs]. rewrite Hv'. by intros [= <- <-].
Qed.

(** C15: Owners are isolated. On consistent tables, and with no other request in between: preparing
    an upload creates or touches the row of the storage the request is about, and changes no
    other row, no version and no object; committing one changes that row and no other, keeps all
    versions and objects, and adds versions of that storage only; a download returns a version of
    that storage and the link to its archive. That storage is in the organization of the
    authenticated run or session, under the requested name, and for an artifact it is the user's
    own. *)
Theorem storages_isolated D env now newId w : Inv D w ->
  (forall args, let w' := (prepareStorageUploadForAuth env now newId alone alone args w).2 in
    let key := request_key (pi_auth args) (pi_runId args) (pi_storageName args) (pi_storageType args) w in
    (forall k, key <> Some k -> storages w' !! k = storages w !! k) /\
    storageVersions w' = storageVersions w /\ objects w' = objects w /\ lineage w' = lineage w /\
    (forall k r r', storages w !! k = Some r -> storages w' !! k = Some r' -> r' = touch now r \/ r' = r)) /\
  (forall args, let w' := (commitStorageUploadForAuth env now alone args w).2 in
    let key := request_key (ci_auth args) (ci_runId args) (ci_storageName args) (ci_storageType args) w in
    (forall k, key <> Some k -> storages w' !! k = storages w !! k) /\
    (forall vid v, storageVersions w !! vid = Some v -> storageVersions w' !! vid = Some v) /\
    (forall vid v, storageVersions w' !! vid = Some v ->
      storageVersions w !! vid = Some v \/ exists k r, key = Some k /\ storages w !! k = Some r /\ sv_storageId v = st_id r) /\
    objects w' = objects w) /\
  (forall auth name type version d, downloadStorageForAuth env auth name type version w = inr d ->
    exists k r v, request_key auth None name type w = Some k /\ storages w !! k = Some r /\
      storageVersions w !! download_version d = Some v /\ sv_storageId v = st_id r /\
      match d with DownloadUrl url _ _ _ => url = presigned_get_url (bucketName env) (archive_key (version_key r (download_version d))) 3600
      | DownloadEmpty _ => True end) /\
  (forall auth runId name type k, request_key auth runId name type w = Some k ->
    key_name k = name /\ key_type k = type /\ key_user k = match type with Volume => VOLUME_ORG_USER_ID | Artifact => au_userId auth end /\
    match au_runId auth with
    | Some authRunId => exists run, agentRuns w !! authRunId = Some run /\ rf_userId run = au_userId auth /\ key_org k = rf_orgId run
    | None => au_orgId auth = Some (key_org k)
    end).
Proof.
  intros Hi. split_and!.
  - intros args. apply prepare_isolated.
  - intros args. by apply (commit_isolated D).
  - intros auth name type version d. unfold downloadStorageForAuth, request_key. destruct (resolveStorageRuntimeOrg _ _ _) as [|orgId]; [done|].
    set (k := (_, _, _, _)). destruct (storages w !! k) as [r|] eqn:Ek; [|done].
    destruct (resolve_download r name version w) as [|[vid v]] eqn:Er; [done|].
    destruct (resolve_download_own D r name version w k vid v Hi Ek Er) as [Hv Hs].
    pose proof (find_version_intro _ _ _ _ Hv Hs) as Hf. pose proof (version_location D k r vid v w Hi Ek Hf) as Hkey.
    destruct (sv_fileCount v =? 0); [intros [= <-]; by exists k, r, v|]. destruct (bool_decide _); [done|]. intros [= <-].
    exists k, r, v. cbn. by rewrite Hkey.
  - intros *. apply request_key_owner.
Qed.

(** ** The index of storages *)

Definition key_ok (k : StorageKey) : bool := units_ok (key_org k) && units_ok (key_user k) && units_ok (key_name k).
Definition keys_ok (w : StorageDb) : Prop := forall k r, storages w !! k = Some r -> key_ok k = true.

Definition index_key (k : StorageKey) : jsstr := storageIndexKey (key_org k) (key_user k) (key_name k) (key_type k).

(** The JSON text of a key stands for that key. *)
Lemma index_key_inj k k' : key_ok k = true -> key_ok k' = true -> index_key k = index_key k' -> k = k'.
Proof.
  destruct k as [[[o u] n] t], k' as [[[o' u'] n'] t']. unfold key_ok, index_key, storageIndexKey. cbn [key_org key_user key_name key_type fst snd].
  intros Hk Hk' Heq. rewrite !andb_true_iff in Hk, Hk'. destruct_and!. apply (f_equal parse) in Heq.
  rewrite !parse_text in Heq by (cbn -[units_ok]; repeat match goal with Hu : units_ok _ = true |- _ => rewrite Hu end; by destruct t, t').
  injection Heq as -> -> -> Ht. f_equal. by destruct t, t'.
Qed.

Lemma foldl_insert_find {A B} (f : StorageKey -> jsstr) (g : A -> B) (l : list (StorageKey * A)) (m : gmap jsstr B) k :
  NoDup l.*1 -> (forall k1 a1, (k1, a1) ∈ l -> f k1 = f k -> k1 = k) ->
  foldl (fun m kv => <[f kv.1 := g kv.2]> m) m l !! f k =
    match list_find (fun kv => kv.1 = k) l with Some (_, kv) => Some (g kv.2) | None => m !! f k end.
Proof.
  revert m. induction l as [|[k0 a0] l IH]; intros m Hnd Hinj; [done|]. cbn [foldl list_find fst snd].
  apply NoDup_cons in Hnd as [Hni Hnd]. rewrite IH; [|done|intros k1 a1 Hin; apply (Hinj k1 a1); by apply elem_of_cons; right].
  destruct (decide (k0 = k)) as [->|Hne].
  - assert (list_find (fun kv : StorageKey * A => kv.1 = k) l = None) as ->.
    { apply list_find_None, Forall_forall. intros [k1 a1] Hin Heq. cbn in Heq. subst k1. apply Hni. apply list_elem_of_fmap. by exists (k, a1). }
    by rewrite lookup_insert_eq.
  - destruct (list_find _ l) as [[i kv]|] eqn:El; [done|]. cbn.
    rewrite lookup_insert_ne; [done|]. intros Heq. apply Hne. apply (Hinj k0 a0); [by apply elem_of_cons; left|done].
Qed.

Lemma load_index_lookup orgIds w lookup : keys_ok w ->
  let k := (lk_orgId lookup, lk_userId lookup, lk_name lookup, lk_type lookup) : StorageKey in
  key_ok k = true ->
  index_lookup (loadStorageIndex orgIds w) lookup =
    if bool_decide (lk_orgId lookup ∈ orgIds) then (fun r => index_entry r w) <$> storages w !! k else None.
Proof.
  intros Hw k Hk. unfold index_lookup, loadStorageIndex. change (storageIndexKey _ _ _ _) with (index_key k) at 1.
  set (l := filter _ (map_to_list (storages w))).
  assert (forall kv, kv ∈ l <-> storages w !! kv.1 = Some kv.2 /\ key_org kv.1 ∈ orgIds) as Hl.
  { intros [k1 r1]. unfold l. rewrite list_elem_of_filter, elem_of_map_to_list. cbn. tauto. }
  assert (NoDup l.*1) as Hnd.
  { apply (NoDup_fmap_2_strong fst); [|apply NoDup_filter, NoDup_map_to_list]. intros [k1 r1] [k2 r2] [H1 _]%Hl [H2 _]%Hl Heq. cbn in *. congruence. }
  etransitivity; [apply (foldl_insert_find index_key (fun r => index_entry r w) l ∅ k Hnd)|].
  { intros k1 r1 [H1 _]%Hl. apply index_key_inj; [by apply (Hw k1 r1)|done]. }
  destruct (list_find _ l) as [[i [k1 r1]]|] eqn:El.
  - apply list_find_Some in El as (Hi & Heq & _). cbn in Heq. subst k1. apply list_elem_of_lookup_2, Hl in Hi as [Hi Ho]. cbn in *.
    rewrite bool_decide_true by done. by rewrite Hi.
  - rewrite lookup_empty. case_bool_decide as Ho; [|done]. destruct (storages w !! k) as [r|] eqn:Er; [|done]. exfalso.
    apply list_find_None in El. rewrite Forall_forall in El. by apply (El (k, r)); [apply Hl|].
Qed.

(** ** The manifest of a run *)

(** The stored version an entry was resolved to. *)
Definition resolves (w : StorageDb) (lookup : StorageLookup) (res : StorageResolution) : Prop :=
  exists r v, storages w !! ((lk_orgId lookup, lk_userId lookup, lk_name lookup, lk_type lookup) : StorageKey) = Some r /\
    re_storageId res = st_id r /\ findStorageVersion (st_id r) (re_versionId res) w = Some v /\ re_s3Key res = sv_s3Key v.

Lemma resolve_version_sound D orgIds w lookup version res : Inv D w -> keys_ok w ->
  key_ok (lk_orgId lookup, lk_userId lookup, lk_name lookup, lk_type lookup) = true ->
  resolveStorageVersion (loadStorageIndex orgIds w) lookup version w = Ok res -> resolves w lookup res.
Proof.
  intros Hi Hw Hk. set (k := (_, _, _, _) : StorageKey) in Hk. pose proof (load_index_lookup orgIds w lookup Hw Hk) as Hidx.
  cbn zeta in Hidx. change (_, _, _, _) with k in Hidx.
  assert (forall e, index_lookup (loadStorageIndex orgIds w) lookup = Some e -> exists r, storages w !! k = Some r /\ e = index_entry r w) as Hent.
  { intros e He. rewrite Hidx in He. case_bool_decide; [|done]. destruct (storages w !! k) as [r|]; [|done]. injection He as <-. eauto. }
  assert (resolveLatestVersion (loadStorageIndex orgIds w) lookup = Ok res -> resolves w lookup res) as Hlatest.
  { unfold resolveLatestVersion. destruct (index_lookup _ lookup) as [e|] eqn:Ee; [|done]. destruct (Hent e eq_refl) as (r & Hr & ->).
    cbn [index_entry ie_headVersionId ie_headVersion ie_storageId]. destruct (st_headVersionId r) as [h|] eqn:Eh; [|done].
    destruct (truthy_text (Some h)) as [h'|] eqn:Et; [|done]. destruct (inv_head D w Hi k r h Hr Eh) as [v Hv].
    pose proof (find_version _ _ _ _ Hv) as [Hv' _]. cbn [mbind option_bind]. rewrite Hv'. cbn [mbind option_bind].
    destruct h as [|y h]; [done|]. cbn [truthy_text]. destruct (sv_s3Key v) as [|x key] eqn:Ek; cbn [truthy_text]; [done|].
    intros [= <-]. exists r, v. cbn. by rewrite Ek. }
  unfold resolveStorageVersion. destruct version as [ver|]; [|done]. destruct (bool_decide (ver = js "latest")); [exact Hlatest|].
  unfold resolvePinnedVersion. destruct (index_lookup _ lookup) as [e|] eqn:Ee; [|done]. destruct (Hent e eq_refl) as (r & Hr & ->).
  cbn [index_entry ie_storageId]. destruct (findStorageVersion (st_id r) ver w) as [v|] eqn:Ef.
  { intros [= <-]. by exists r, v. }
  destruct (_ || _); [done|]. destruct (versions_like (st_id r) ver w) as [|[id v] [|]] eqn:El; [done| |done]. intros [= <-].
  assert ((id, v) ∈ versions_like (st_id r) ver w) as Hin by (rewrite El; apply elem_of_cons; by left).
  unfold versions_like in Hin. apply elem_of_take in Hin as (i & Hin & _). apply list_elem_of_lookup_2, list_elem_of_filter in Hin as [[Hs _] Hin].
  apply elem_of_map_to_list in Hin. exists r, v. split_and!; [done..| |done]. by apply find_version_intro.
Qed.

Lemma map_result_ok {A B} (f : A -> result B) l ys : map_result f l = Ok ys -> Forall2 (fun x y => f x = Ok y) l ys.
Proof.
  revert ys. induction l as [|x l IH]; intros ys; cbn; [by intros [= <-]|]. destruct (f x) as [y|] eqn:E; [|done]. cbn.
  destruct (map_result f l) as [ys'|]; [|done]. cbn. intros [= <-]. constructor; [done|]. by apply IH.
Qed.

Lemma Forall2_omap_elem {A B} (P : A -> option B -> Prop) l ys e : Forall2 P l ys -> e ∈ omap id ys -> exists x, x ∈ l /\ P x (Some e).
Proof.
  intros HP He. apply list_elem_of_omap in He as (y & Hy & Heq). cbn in Heq. subst y.
  apply list_elem_of_lookup in Hy as [i Hi]. destruct (Forall2_lookup_r _ _ _ _ _ HP Hi) as (x & Hx & Hp). exists x.
  split; [by eapply list_elem_of_lookup_2|done].
Qed.

(** An entry mounts a version of the volume of that name in one of the organizations. *)
Definition mounts_volume (env : StorageEnv) (w : StorageDb) (orgs : list jsstr) (e : ManifestStorage) : Prop :=
  exists orgId r v, orgId ∈ orgs /\ storages w !! ((orgId, VOLUME_ORG_USER_ID, ms_vasStorageName e, Volume) : StorageKey) = Some r /\
    findStorageVersion (st_id r) (ms_vasVersionId e) w = Some v /\
    ms_archiveUrl e = presigned_get_url (bucketName env) (archive_key (sv_s3Key v)) (60 * 60).

Lemma volume_entry_mounts D env w orgIds volume primary res nm mp ifn : Inv D w -> keys_ok w ->
  units_ok primary = true -> units_ok (vr_name volume) = true ->
  resolveVolumeStorage (loadStorageIndex orgIds w) volume primary w = Ok res ->
  mounts_volume env w [primary; SYSTEM_ORG_ID] (buildStorageEntry env nm mp (vr_name volume) ifn res).
Proof.
  intros Hi Hw Hp Hn. unfold resolveVolumeStorage.
  assert (forall o, o ∈ [primary; SYSTEM_ORG_ID] ->
    resolveStorageVersion (loadStorageIndex orgIds w) (volume_lookup o volume) (vr_version volume) w = Ok res ->
    mounts_volume env w [primary; SYSTEM_ORG_ID] (buildStorageEntry env nm mp (vr_name volume) ifn res)) as Hone.
  { intros o Ho Hr. apply (resolve_version_sound D) in Hr as (r & v & Hk & _ & Hv & Hs); [|done|done|].
    - exists o, r, v. split_and!; [done..|]. cbn. by rewrite Hs.
    - unfold key_ok. cbn [key_org key_user key_name fst snd volume_lookup lk_orgId lk_userId lk_name lk_type].
      apply elem_of_cons in Ho as [->|Ho]; [by rewrite Hp, Hn|]. apply list_elem_of_singleton in Ho as ->. by rewrite Hn. }
  case_bool_decide; [|apply Hone; set_solver].
  destruct (resolveStorageVersion _ (volume_lookup SYSTEM_ORG_ID volume) _ w) as [r'|e] eqn:Es.
  - intros [= ->]. apply (Hone SYSTEM_ORG_ID); [set_solver|done].
  - destruct (isMissingStorageError e); [|done]. apply Hone. set_solver.
Qed.

Lemma dedup_elem a artifacts : a ∈ dedupArtifacts artifacts -> a ∈ artifacts.
Proof.
  unfold dedupArtifacts. assert (forall acc : Rec ContextArtifact, (forall kv, kv ∈ acc -> kv.2 ∈ artifacts) ->
    forall l, (forall x, x ∈ l -> x ∈ artifacts) ->
    forall kv, kv ∈ foldl (fun byName a => rec_define byName (ca_name a) a) acc l -> kv.2 ∈ artifacts) as Hf.
  { intros acc Hacc l. revert acc Hacc. induction l as [|x l IH]; intros acc Hacc Hl; [done|]. cbn. apply IH; [|set_solver].
    intros kv [Hin|[-> _]]%elem_of_rec_define; [auto|set_solver]. }
  intros (kv & -> & Hin)%list_elem_of_fmap. eapply (Hf []); [set_solver|done|exact Hin].
Qed.

(** C23: A run mounts what it may. When the manifest of a run is built, reading the tables in one
    consistent state [w1] (after whatever other requests did while its artifacts were ensured), and
    the organizations, users and names are strings of 16-bit units, every volume of the manifest is
    a version of the volume of that name in the agent's organization, the organization the run is
    in, or the system organization, and every artifact, in the order and with the names of the
    run's artifacts, a version of the user's own artifact in the organization of the run; the links
    are to the archives of those versions. *)
Theorem manifest_mounts D env now newIds before others after args w man w1 composeVolumes :
  prepareAgentRunStorageManifest env now newIds before others after args w = (Ok man, w1) -> Inv D w1 -> keys_ok w1 ->
  units_ok (pm_agentOrgId args) = true -> units_ok (pm_runtimeOrgId args) = true -> units_ok (pm_userId args) = true ->
  resolveComposeVolumes (pm_content args) (pm_vars args) (pm_volumeVersionOverrides args) (pm_framework args) = Ok composeVolumes ->
  (forall v, v ∈ composeVolumes -> units_ok (rv_vasStorageName v) = true) ->
  (forall v, v ∈ default [] (pm_additionalVolumes args) -> units_ok (av_name v) = true) ->
  (forall a, a ∈ pm_artifacts args -> units_ok (ca_name a) = true) ->
  (forall e, e ∈ sf_storages man ->
    mounts_volume env w1 [pm_agentOrgId args; SYSTEM_ORG_ID] e \/ mounts_volume env w1 [pm_runtimeOrgId args; SYSTEM_ORG_ID] e) /\
  Forall2 (fun a e => ma_vasStorageName e = ca_name a /\ ma_mountPath e = ca_mountPath a /\
    exists r v, storages w1 !! ((pm_runtimeOrgId args, pm_userId args, ca_name a, Artifact) : StorageKey) = Some r /\
      ma_vasStorageId e = st_id r /\ findStorageVersion (st_id r) (ma_vasVersionId e) w1 = Some v /\
      ma_archiveUrl e = presigned_get_url (bucketName env) (archive_key (sv_s3Key v)) (60 * 60) /\
      ma_manifestUrl e = presigned_get_url (bucketName env) (manifest_key (sv_s3Key v)) (60 * 60))
    (dedupArtifacts (pm_artifacts args)) (sf_artifacts man).
Proof.
  intros Hm Hi Hw Hao Hro Hus Hcv Hcn Han Harn. unfold prepareAgentRunStorageManifest in Hm. rewrite Hcv in Hm.
  destruct (ensureArtifacts _ _ _ _ _ _ _ _ w) as [[e|] w2]; [done|]. cbv zeta in Hm. injection Hm as Hm Hw3. set (w3 := after w2) in *. subst w1. unfold build_manifest in Hm.
  set (orgs := [pm_agentOrgId args; pm_runtimeOrgId args; SYSTEM_ORG_ID]) in Hm. result_steps.
  repeat match goal with Hx : map_result _ _ = Ok _ |- _ => apply map_result_ok in Hx end. cbn [sf_storages sf_artifacts]. split.
  - intros e He. unfold mergeStorageEntries in He. apply elem_of_app in He as [He|He].
    + apply list_elem_of_filter in He as [_ He]. left. eapply Forall2_omap_elem in He as (v & Hv & Hb); [|eassumption].
      cbn in Hb. unfold buildComposeStorageEntry in Hb. destruct (resolveVolumeStorage _ _ _ _) as [res|] eqn:Er; [|by destruct (_ && _)].
      injection Hb as <-. eapply (volume_entry_mounts D env w3 orgs (compose_ref v)); [done..|by apply Hcn|exact Er].
    + right. eapply Forall2_omap_elem in He as (v & Hv & Hb); [|eassumption]. cbn in Hb.
      unfold buildAdditionalStorageEntry in Hb. destruct (resolveVolumeStorage _ _ _ _) as [res|] eqn:Er; [|by destruct (isMissingStorageError _)].
      injection Hb as <-. eapply (volume_entry_mounts D env w3 orgs (additional_ref v)); [done..|by apply Han|exact Er].
  - eapply Forall2_impl_elem; [eassumption|]. intros a e Ha Hb. unfold buildArtifactEntry in Hb. result_steps.
    match goal with Hx : resolveStorageVersion _ _ _ _ = Ok _ |- _ => rename Hx into Hres end.
    apply (resolve_version_sound D) in Hres as (r & v & Hk & Hid & Hv & Hs); [|done|done|].
    + cbn. split_and!; [done..|]. exists r, v. rewrite Hs. by split_and!.
    + unfold key_ok. cbn [key_org key_user key_name fst snd lk_orgId lk_userId lk_name lk_type]. rewrite Hro, Hus. cbn [andb].
      apply Harn. by apply dedup_elem.
Qed.

(** ** Files of a volume stay below its directory *)

(** A segment of a resolved path. *)
Definition clean (segment : jsstr) : Prop := segment <> [] /\ segment <> js ".." /\ 47 ∉ segment.

Lemma path_step_clean stack segment : Forall clean stack -> 47 ∉ segment -> Forall clean (path_step stack segment).
Proof.
  intros Hs Hn. unfold path_step. case_bool_decide as H1; [done|]. case_bool_decide as H2; [done|]. cbn [orb].
  case_bool_decide as H3; [by apply Forall_take|]. apply Forall_app. by split; [|apply Forall_singleton].
Qed.

Lemma resolve_join_clean dir path : Forall clean dir -> Forall clean (resolve_join dir path).
Proof.
  unfold resolve_join, segments. intros Hd. assert (forall s, s ∈ split_on 47 path -> 47 ∉ s) as Hs by (intros s; apply split_on_no_sep).
  revert dir Hd. induction (split_on 47 path) as [|s l IH]; intros dir Hd; [done|]. cbn. apply IH; [set_solver|].
  apply path_step_clean; set_solver.
Qed.

Lemma common_length_prefix from to : common_length from to = length from <-> exists rest, to = from ++ rest.
Proof.
  revert to. induction from as [|x from IH]; intros to; cbn; [split; [by exists to|done]|].
  destruct to as [|y to]; [split; [done|by intros (rest & ?)]|]. case_bool_decide as E.
  - subst y. split.
    + intros [= Hl]. apply IH in Hl as (rest & ->). by exists rest.
    + intros (rest & [= ->]). f_equal. apply IH. by exists rest.
  - split; [done|]. intros (rest & [= <- _]). done.
Qed.

Lemma common_length_le from to : (common_length from to <= length from)%nat.
Proof. revert to. induction from as [|x from IH]; intros [|y to]; cbn; try lia. case_bool_decide; [specialize (IH to)|]; lia. Qed.

(** The test on the relative path is exact: it refuses the targets outside of the directory. *)
Lemma escapes_iff dir target : Forall clean target ->
  escapes (relative dir target) = false <-> exists rest, target = dir ++ rest.
Proof.
  intros Hc. unfold relative. cbv zeta. pose proof (common_length_le dir target) as Hle. rewrite <- common_length_prefix.
  destruct (decide (common_length dir target = length dir)) as [E|E].
  - split; [done|intros _]. apply common_length_prefix in E as Hp. destruct Hp as (rest & ->). rewrite E, Nat.sub_diag, drop_app_length. cbn [replicate app].
    apply Forall_app in Hc as [_ Hc]. destruct rest as [|s rest]; [done|].
    assert (split_on 47 (join (js "/") (s :: rest)) = s :: rest) as Hsplit.
    { apply split_join; [done|]. intros t Ht. rewrite Forall_forall in Hc. apply (Hc t Ht). }
    apply Forall_cons in Hc as [(Hs1 & Hs2 & Hs3) _]. unfold escapes. rewrite !orb_false_iff. split_and!.
    + apply bool_decide_eq_false. intros He. rewrite He in Hsplit. by injection Hsplit as <- _.
    + apply not_true_is_false. intros [t Ht]%starts_with_spec. rewrite Ht in Hsplit.
      change (js "../" ++ t) with (js ".." ++ 47 :: t) in Hsplit. rewrite split_on_app in Hsplit by (cbn; set_solver). by injection Hsplit as <- _.
    + apply not_true_is_false. intros [t Ht]%starts_with_spec. rewrite Ht in Hsplit.
      change (js "/" ++ t) with ([] ++ 47 :: t) in Hsplit. rewrite split_on_app in Hsplit by set_solver. by injection Hsplit as <- _.
  - split; [|by intros]. intros He. exfalso. destruct (length dir - common_length dir target)%nat as [|n] eqn:En; [lia|].
    cbn [replicate app] in He. unfold escapes in He. rewrite !orb_false_iff in He. destruct He as [[H1 H2] _].
    destruct (replicate n (js "..") ++ drop (common_length dir target) target) as [|s l].
    + by apply bool_decide_eq_false in H1.
    + rewrite join_cons in H2 by done. by rewrite app_assoc, (starts_with_app (js ".." ++ js "/")) in H2.
Qed.

(** Where a file goes, below the directory. *)
Definition target (dir : list jsstr) (file : MaterializedVolumeFile) : list jsstr := drop (length dir) (resolve_join dir (mf_path file)).

Definition confined (dir : list jsstr) (file : MaterializedVolumeFile) : Prop :=
  exists rest, resolve_join dir (mf_path file) = dir ++ rest /\ rest <> [] /\ forall s, s ∈ rest -> 0 ∉ s.

(** The content of the last file that goes to a path. *)
Definition last_content (dir : list jsstr) (files : list MaterializedVolumeFile) (path : list jsstr) (before : option (list Z)) : option (list Z) :=
  foldl (fun acc file => if bool_decide (target dir file = path) then Some (mf_content file) else acc) before files.

Lemma no_zero path : existsb (existsb (Z.eqb 0)) path = false <-> forall s : jsstr, s ∈ path -> 0 ∉ s.
Proof.
  rewrite existsb_false. split; intros Hp s Hs; specialize (Hp s Hs).
  - rewrite existsb_false in Hp. intros H0. by specialize (Hp 0 H0).
  - apply existsb_false. intros x Hx. apply Z.eqb_neq. by intros <-.
Qed.

Definition compatible (fs : Files) (path : list jsstr) : Prop :=
  forall f, f ∈ fs -> strict_prefix f.1 path = false /\ strict_prefix path f.1 = false.

Lemma write_file_ok path content fs fs' : write_file path content fs = Ok fs' <->
  (forall s : jsstr, s ∈ path -> 0 ∉ s) /\ path <> [] /\ compatible fs path /\ fs' = filter (fun f => f.1 <> path) fs ++ [(path, content)].
Proof.
  unfold write_file, compatible. rewrite <- no_zero. destruct (existsb (existsb _) path); [naive_solver|].
  destruct (existsb (fun f => strict_prefix f.1 path) fs) eqn:E1.
  { split; [done|]. intros (_ & _ & Hc & _). apply existsb_exists in E1 as (f & Hf & E1). apply list_elem_of_In in Hf. by rewrite (proj1 (Hc f Hf)) in E1. }
  rewrite existsb_false in E1. case_bool_decide; cbn [orb]; [naive_solver|]. destruct (existsb (fun f => strict_prefix path f.1) fs) eqn:E2.
  { split; [done|]. intros (_ & _ & Hc & _). apply existsb_exists in E2 as (f & Hf & E2). apply list_elem_of_In in Hf. by rewrite (proj2 (Hc f Hf)) in E2. }
  rewrite existsb_false in E2. split; [intros [= <-]; split_and!; auto|]. by intros (_ & _ & _ & ->).
Qed.

Lemma strict_prefix_irrefl p : strict_prefix p p = false.
Proof. induction p as [|x p IH]; [done|]. cbn. rewrite IH. apply andb_false_r. Qed.

Lemma written_paths path content (fs : Files) p c :
  (p, c) ∈ filter (fun f => f.1 <> path) fs ++ [(path, content)] <-> if bool_decide (path = p) then c = content else (p, c) ∈ fs.
Proof.
  rewrite elem_of_app, list_elem_of_filter, list_elem_of_singleton. cbn [fst]. case_bool_decide as E; [subst p|]; split; intros Hx.
  - destruct Hx as [[Hx _]|[= ->]]; [done|done].
  - right. by rewrite Hx.
  - destruct Hx as [[_ Hx]|[= ? _]]; [done|congruence].
  - left. by split; [intros ->|].
Qed.

Lemma target_confined dir file : Forall clean dir ->
  escapes (relative dir (resolve_join dir (mf_path file))) = false /\ (forall s : jsstr, s ∈ target dir file -> 0 ∉ s) /\ target dir file <> [] <->
  confined dir file.
Proof.
  intros Hd. rewrite escapes_iff by by apply resolve_join_clean. unfold confined, target. split.
  - intros ((rest & ->) & Hz & Hne). rewrite drop_app_length in Hz, Hne. eauto.
  - intros (rest & -> & Hne & Hz). rewrite drop_app_length. eauto.
Qed.

Lemma write_files_spec dir files : Forall clean dir -> forall fs,
  ((exists fs', writeFilesToDirectory dir files fs = Ok fs') <->
    (forall f, f ∈ files -> confined dir f /\ compatible fs (target dir f)) /\
    (forall f g, f ∈ files -> g ∈ files -> strict_prefix (target dir f) (target dir g) = false)) /\
  (forall fs', writeFilesToDirectory dir files fs = Ok fs' -> forall before,
    (forall p c, (p, c) ∈ fs <-> before p = Some c) -> forall p c, (p, c) ∈ fs' <-> last_content dir files p (before p) = Some c).
Proof.
  intros Hd. induction files as [|f files IH]; intros fs.
  { split; [|by intros fs' [= <-] before Hb p c]. split; [|eauto]. intros _. split; intros *; by rewrite elem_of_nil. }
  cbn [writeFilesToDirectory]. fold (target dir f).
  destruct (write_file (target dir f) (mf_content f) fs) as [fs1|e] eqn:Ew.
  - pose proof (proj1 (write_file_ok _ _ _ _) Ew) as (Hz & Hne & Hc & ->). set (fs1 := filter _ fs ++ _) in *. cbn [mbind result_bind].
    destruct (IH fs1) as [IH1 IH2]. split.
    + destruct (escapes _) eqn:Ee.
      { split; [by intros [? ?]|]. intros [Hf _]. destruct (Hf f ltac:(set_solver)) as [Hcf _]. apply target_confined in Hcf as [Hcf _]; [|done]. congruence. }
      assert (confined dir f) as Hcf by (apply target_confined; auto). rewrite IH1.
      assert (forall p, compatible fs1 p <-> compatible fs p /\ strict_prefix (target dir f) p = false /\ strict_prefix p (target dir f) = false) as Hcomp.
      { intros p. unfold compatible. split.
        - intros Hx. split_and!; [|apply (Hx (target dir f, mf_content f)), elem_of_app; right; by apply list_elem_of_singleton..].
          intros [q c] Hq. destruct (decide (target dir f = q)) as [<-|Hnq].
          + apply (Hx (target dir f, mf_content f)), elem_of_app. right. by apply list_elem_of_singleton.
          + apply (Hx (q, c)). apply written_paths. by rewrite bool_decide_false.
        - intros (Hx & H1 & H2) [q c] Hq%written_paths. case_bool_decide; [by subst q|]. by apply (Hx (q, c)). }
      setoid_rewrite Hcomp. setoid_rewrite elem_of_cons. pose proof (strict_prefix_irrefl (target dir f)). naive_solver.
    + destruct (escapes _); [done|]. intros fs' Hw before Hb. unfold last_content. cbn [foldl].
      pose proof (IH2 fs' Hw (fun p => if bool_decide (target dir f = p) then Some (mf_content f) else before p)) as Hp. cbn beta in Hp.
      apply Hp. intros p c. unfold fs1. rewrite written_paths. case_bool_decide; [naive_solver|apply Hb].
  - cbn [mbind result_bind]. split; [|by destruct (escapes _)]. destruct (escapes _) eqn:Ee.
    { split; [by intros [? ?]|]. intros [Hf _]. destruct (Hf f ltac:(set_solver)) as [Hcf _]. apply target_confined in Hcf as [Hcf _]; [|done]. congruence. }
    split; [by intros [? ?]|]. intros [Hf _]. destruct (Hf f ltac:(set_solver)) as [Hcf Hcm]. apply target_confined in Hcf as (_ & Hz & Hne); [|done].
    by rewrite (proj2 (write_file_ok (target dir f) (mf_content f) fs _) (conj Hz (conj Hne (conj Hcm eq_refl)))) in Ew.
Qed.

(** C25: Files of a volume stay below its directory. Writing the files succeeds exactly when every
    path resolves to a place strictly below the directory (without a zero unit) and no place is
    a directory of another; then each place holds the content of the last file that goes there,
    and nothing else is written. One path that leaves the directory makes the whole write fail. *)
Theorem volume_files_confined dir files : Forall clean dir ->
  ((exists fs, writeFilesToDirectory dir files [] = Ok fs) <->
    (forall f, f ∈ files -> confined dir f) /\
    (forall f g, f ∈ files -> g ∈ files -> strict_prefix (target dir f) (target dir g) = false)) /\
  (forall fs p c, writeFilesToDirectory dir files [] = Ok fs -> (p, c) ∈ fs <-> last_content dir files p None = Some c) /\
  (forall f, f ∈ files -> (~ exists rest, resolve_join dir (mf_path f) = dir ++ rest) -> exists e, writeFilesToDirectory dir files [] = Throw e).
Proof.
  intros Hd. destruct (write_files_spec dir files Hd []) as [H1 H2]. split_and!.
  - rewrite H1. unfold compatible. split; [naive_solver|]. intros [Hf Hp]. split; [|done]. intros f Hin. split; [by apply Hf|].
    intros g Hg. by apply elem_of_nil in Hg.
  - intros fs p c Hw. apply (H2 fs Hw (fun _ => None)). intros q d. by rewrite elem_of_nil.
  - intros f Hf Hout. destruct (writeFilesToDirectory dir files []) as [fs|e]; [|eauto]. exfalso.
    destruct (proj1 (proj1 H1 (ex_intro _ fs eq_refl)) f Hf) as [(rest & Hr & _) _]. eauto.
Qed.

End Services.

(** ** Instances *)

Definition sample_upload (key : jsstr) : StorageUpload := {| up_key := key; up_presignedUrl := js "put:" ++ key |}.
Definition sample_archive : StorageUpload := sample_upload (archive_key (keyed sample_key sample_version)).
Definition sample_manifest_upload : StorageUpload := sample_upload (manifest_key (keyed sample_key sample_version)).

Lemma sample_prepare_reply :
  @prepareStorageUploadForAuth sample_services sample_env 1 (js "s1") alone alone sample_prepare sample_db =
    (Ok (PrepareUploads sample_version sample_archive sample_manifest_upload), sample_prepared).
Proof. vm_compute. reflexivity. Qed.

Lemma upload_roundtrip_witness :
  exists body w3, @commitStorageUploadForAuth sample_services sample_env 2 alone (commit_of sample_prepare sample_version)
      (put_object (up_key sample_manifest_upload) (BytesObject []) (put_object (up_key sample_archive) (BytesObject []) sample_prepared)) =
      (Ok (CommitOk body), w3) /\ cb_versionId body = sample_version.
Proof.
  destruct (@upload_roundtrip sample_services sample_hash_laws no_keys sample_env 1 (js "s1") sample_prepare sample_db sample_version
    sample_archive sample_manifest_upload sample_prepared (BytesObject []) (BytesObject []) 2 3 (js "s2") (sample_inv no_keys)
    ltac:(apply plain_text_check; vm_compute; reflexivity) (sample_fresh _) ltac:(intros Heq; discriminate Heq)
    (fun k => eq_refl) eq_refl sample_prepare_reply) as (body & w3 & Hc & Hv & _).
  exists body, w3. split; [exact Hc|exact Hv].
Defined.

(** A request of another user leaves the artifact alone. *)
Definition sample_other_prepare : PrepareStorageInput :=
  {| pi_auth := sandbox_context {| sa_userId := js "user_2"; sa_runId := js "run_1"; sa_orgId := js "org_1" |}; pi_storageName := js "notes";
     pi_storageType := Artifact; pi_files := []; pi_force := None; pi_runId := None; pi_baseVersion := None; pi_changes := None |}.

Lemma storages_isolated_witness :
  storages (@prepareStorageUploadForAuth sample_services sample_env 5 (js "s2") alone alone sample_other_prepare sample_stored).2 !! sample_key =
    storages sample_stored !! sample_key.
Proof.
  apply (@storages_isolated sample_services no_keys sample_env 5 (js "s2") sample_stored sample_stored_inv). vm_compute. discriminate.
Defined.

Definition sample_manifest_args : ManifestArgs :=
  {| pm_content := {| cc_agent := None; cc_agents := None; cc_volumes := None |}; pm_vars := None; pm_agentOrgId := js "org_1";
     pm_runtimeOrgId := js "org_1"; pm_userId := js "user_1";
     pm_artifacts := [{| ca_name := js "notes"; ca_version := None; ca_mountPath := js "/notes"; ca_missingRootPolicy := None |}];
     pm_volumeVersionOverrides := None; pm_additionalVolumes := None; pm_framework := ClaudeCode |}.

Definition sample_manifest : StorageManifest :=
  {| sf_storages := [];
     sf_artifacts := [{| ma_mountPath := js "/notes"; ma_vasStorageName := js "notes"; ma_vasStorageId := js "s1";
       ma_vasVersionId := sample_version; ma_archiveUrl := js "get:" ++ archive_key (keyed sample_key sample_version);
       ma_manifestUrl := js "get:" ++ manifest_key (keyed sample_key sample_version); ma_missingRootPolicy := None |}] |}.

Lemma sample_keys_ok : keys_ok sample_committed.
Proof.
  assert (forallb (fun kv => key_ok kv.1) (map_to_list (storages sample_committed)) = true) as Hk by (vm_compute; reflexivity).
  rewrite forallb_true in Hk. intros k r Hr. exact (Hk (k, r) (proj2 (elem_of_map_to_list _ _ _) Hr)).
Qed.

Lemma sample_manifest_reply :
  @prepareAgentRunStorageManifest sample_services sample_env 9 (fun _ => js "s2") (fun _ => alone) (fun _ _ => alone) alone sample_manifest_args
      sample_committed =
    (Ok sample_manifest, sample_committed).
Proof. vm_cast_no_check (eq_refl (Ok sample_manifest, sample_committed)). Qed.

Lemma sample_units : units_ok (js "org_1") = true /\ units_ok (js "user_1") = true /\ units_ok (js "notes") = true.
Proof. vm_compute. auto. Qed.

Lemma sample_artifact_names a : a ∈ pm_artifacts sample_manifest_args -> units_ok (ca_name a) = true.
Proof. intros Ha%list_elem_of_singleton. subst a. apply sample_units. Qed.

Lemma no_elements {A} (P : A -> Prop) v : v ∈ ([] : list A) -> P v.
Proof. by intros Hv%elem_of_nil. Qed.

Lemma manifest_mounts_witness :
  exists e, sf_artifacts sample_manifest = [e] /\
    exists r v, storages sample_committed !! sample_key = Some r /\ ma_vasStorageId e = st_id r /\
      findStorageVersion (st_id r) (ma_vasVersionId e) sample_committed = Some v.
Proof.
  pose proof (proj2 (@manifest_mounts sample_services (fun _ => True) sample_env 9 (fun _ => js "s2") (fun _ => alone) (fun _ _ => alone) alone
    sample_manifest_args sample_committed sample_manifest sample_committed [] sample_manifest_reply sample_committed_all sample_keys_ok (proj1 sample_units) (proj1 sample_units)
    (proj1 (proj2 sample_units)) eq_refl (no_elements _) (no_elements _) sample_artifact_names)) as Hall.
  apply Forall2_cons_1, proj1 in Hall. destruct Hall as (_ & _ & r & v & Hr & Hi & Hv & _).
  eexists. split; [reflexivity|]. exists r, v. split; [exact Hr|]. split; [exact Hi|exact Hv].
Defined.

Definition sample_dir : list jsstr := [js "tmp"; js "vm0-api-volume-x"].
Definition sample_file (path : jsstr) : MaterializedVolumeFile := {| mf_path := path; mf_content := [1]; mf_hash := js "h"; mf_size := 1 |}.

Lemma volume_files_confined_witness :
  exists e, writeFilesToDirectory sample_dir [sample_file (js "docs/a.md"); sample_file (js "docs/../../other/a.md")] [] = Throw e.
Proof.
  apply (volume_files_confined sample_dir [sample_file (js "docs/a.md"); sample_file (js "docs/../../other/a.md")]) with
    (f := sample_file (js "docs/../../other/a.md")).
  - repeat constructor; try discriminate; cbn; set_solver.
  - apply elem_of_cons. right. apply elem_of_cons. left. reflexivity.
  - intros (rest & Hr). vm_compute in Hr. discriminate Hr.
Defined.

(** ** Where the code does something else than it says *)

(** An upload of these files: objects, then the commit. *)
Definition sample_upload_of (name : jsstr) (now : Z) (files : list FileEntryWithHash) (w : StorageDb) : StorageDb :=
  let k := (js "org_1", js "user_1", name, Artifact) : StorageKey in
  let vid := @computeContentHashFromHashes sample_services (js "s1") files in
  let w1 := (@prepareStorageUploadForAuth sample_services sample_env now (js "s1") alone alone
    {| pi_auth := sample_auth; pi_storageName := name; pi_storageType := Artifact; pi_files := files; pi_force := None; pi_runId := None;
       pi_baseVersion := None; pi_changes := None |} w).2 in
  let manifest := {| sm_version := vid; sm_createdAt := now; sm_totalSize := totalSize files; sm_fileCount := Z.of_nat (length files);
                     sm_files := files |} in
  let w2 := put_object (manifest_key (keyed k vid)) (ManifestObject manifest) (put_object (archive_key (keyed k vid)) (BytesObject []) w1) in
  (@commitStorageUploadForAuth sample_services sample_env now alone
    {| ci_auth := sample_auth; ci_storageName := name; ci_storageType := Artifact; ci_versionId := vid; ci_files := files; ci_runId := None;
       ci_parentVersionId := None; ci_message := None |} w2).2.

Definition head_of (name : jsstr) (w : StorageDb) : option jsstr :=
  r ← storages w !! ((js "org_1", js "user_1", name, Artifact) : StorageKey); st_headVersionId r.

(** Committing a version that exists moves the head and leaves the size and the number of files
    of the storage: when a memory that was emptied is filled again with what it held, its detail
    shows no files, although its head version has two. *)
Theorem refilled_memory_shows_empty :
  let w1 := sample_upload_of MEMORY_ARTIFACT_NAME 1 sample_files sample_db in
  let w2 := sample_upload_of MEMORY_ARTIFACT_NAME 2 [] w1 in
  let w3 := sample_upload_of MEMORY_ARTIFACT_NAME 3 sample_files w2 in
  head_of MEMORY_ARTIFACT_NAME w3 = Some sample_version /\
  (exists d, zeroMemoryDetail sample_env (js "org_1") (js "user_1") w1 = Ok d /\ md_fileCount d = 2 /\ length (md_files d) = 2%nat) /\
  (exists d, zeroMemoryDetail sample_env (js "org_1") (js "user_1") w3 = Ok d /\ md_fileCount d = 0 /\ md_files d = []) /\
  exists url, @downloadStorageForAuth sample_services sample_env sample_auth MEMORY_ARTIFACT_NAME Artifact None w3 =
    inr (DownloadUrl url sample_version 2 10).
Proof. vm_compute. split; [reflexivity|]. split; [|split]; eexists; repeat split; reflexivity. Qed.

(** Ensuring an artifact reads its head before it writes the empty version: an upload that is
    committed in between is replaced as the head by the empty version. *)
Theorem ensure_replaces_upload :
  let others (i : nat) := match i with 2%nat => sample_upload_of (js "notes") 2 sample_files | _ => alone end in
  let w := (@ensureArtifactStorage sample_services sample_env 1 (js "s1") others (js "org_1") (js "user_1") (js "notes") sample_db).2 in
  is_Some (storageVersions w !! sample_version) /\
  head_of (js "notes") w = Some (@computeContentHashFromHashes sample_services (js "s1") []) /\
  @downloadStorageForAuth sample_services sample_env sample_auth (js "notes") Artifact None w =
    inr (DownloadEmpty (@computeContentHashFromHashes sample_services (js "s1") [])).
Proof. vm_compute. split; [eexists; reflexivity|]. split; reflexivity. Qed.

(** The prefix of an artifact has no owner in it: when a user is deleted, the objects of the
    artifacts of that name of the others in the organization are deleted too. Their rows stay, and
    a download answers with a link to an object that is not there. *)
Theorem user_deletion_empties_others :
  let w1 := (@ensureArtifactStorage sample_services sample_env 3 (js "s2") (fun _ => alone) (js "org_1") (js "user_2") (js "notes") sample_committed).2 in
  let w2 := cleanupClerkDeletedUser sample_env (fun _ => alone) (js "user_2") [] w1 in
  let archive := archive_key (keyed sample_key sample_version) in
  is_Some (objects w1 !! archive) /\ objects w2 !! archive = None /\
  @downloadStorageForAuth sample_services sample_env sample_auth (js "notes") Artifact None w2 =
    inr (DownloadUrl (js "get:" ++ archive) sample_version 2 10).
Proof. vm_compute. split; [eexists; reflexivity|]. split; reflexivity. Qed.

(** A prefix in upper case is found by a download, and not for a run; a version that is no
    prefix is reported as too short. *)
Definition sample_hex_db : StorageDb :=
  {| storages := {[sample_key := {| st_id := js "s1"; st_s3Prefix := s3_prefix sample_key; st_size := 0; st_fileCount := 0;
                                    st_headVersionId := None; st_updatedAt := 0 |}]};
     storageVersions := {[js "abcdef0123456789" := {| sv_storageId := js "s1"; sv_s3Key := js "key"; sv_size := 0; sv_fileCount := 0;
                                                      sv_message := None; sv_createdBy := js "user" |}]};
     lineage := []; agentRuns := ∅; objects := ∅ |}.

Theorem version_prefix_case :
  let lookup := {| lk_orgId := js "org_1"; lk_userId := js "user_1"; lk_name := js "notes"; lk_type := Artifact |} in
  let index := loadStorageIndex [js "org_1"] sample_hex_db in
  (exists v, resolveVersionByPrefix (js "s1") (js "ABCDEF01") sample_hex_db = inr (js "abcdef0123456789", v)) /\
  (exists r, resolvePinnedVersion index lookup (js "abcdef01") sample_hex_db = Ok r /\ re_versionId r = js "abcdef0123456789") /\
  (exists e, resolvePinnedVersion index lookup (js "ABCDEF01") sample_hex_db = Throw e) /\
  resolvePinnedVersion index lookup (js "not-a-version") sample_hex_db = Throw (js "Version prefix too short. Minimum 8 characters required.").
Proof. vm_compute. split; [eexists; reflexivity|]. split; [eexists; split; reflexivity|]. split; [eexists; reflexivity|reflexivity]. Qed.

End StorageUploads.
