(* ===== verification/Aggregates.v ===== *)
(** Distinct elements, groups and sums, as the queries and sets of the sources compute them. *)

From Stdlib Require Import Sorted.
From S2P Require Import Prelude.

Module Aggregates.

(** [[...new Set(l)]]: the first occurrence of each element. *)
Definition distinct {A} `{EqDecision A} (l : list A) : list A :=
  foldl (fun acc x => if bool_decide (x ∈ acc) then acc else acc ++ [x]) [] l.

(** [GROUP BY key]. *)
Definition group_by {A K} `{EqDecision K} (key : A -> K) (l : list A) : list (K * list A) :=
  (fun k => (k, filter (fun x => key x = k) l)) <$> distinct (key <$> l).

(** [COALESCE(SUM(f), 0)]. *)
Definition sum_of {A} (f : A -> Z) (l : list A) : Z := foldr (fun x acc => f x + acc) 0 l.

(** [MAX(f)], without a value for no rows. *)
Definition max_of {A} (f : A -> Z) (l : list A) : option Z :=
  foldr (fun x acc => Some (match acc with Some m => Z.max (f x) m | None => f x end)) None l.

(** A stable sort by a comparison that says when the first goes before the second. *)
Section Sort.
Context {A} (before : A -> A -> bool).

Fixpoint insert_stable (x : A) (l : list A) : list A :=
  match l with
  | [] => [x]
  | y :: l' => if before y x then y :: insert_stable x l' else x :: l
  end.

(** An element goes after the equal ones that precede it in the list. *)
Definition sort_stable (l : list A) : list A := foldr insert_stable [] l.

Lemma insert_stable_perm x l : insert_stable x l ≡ₚ x :: l.
Proof. induction l as [|y l IH]; cbn; [done|]. destruct (before y x); [|done]. rewrite IH. apply perm_swap. Qed.

Lemma sort_stable_perm l : sort_stable l ≡ₚ l.
Proof. induction l as [|x l IH]; cbn; [done|]. by rewrite insert_stable_perm, IH. Qed.

Hypothesis before_asym : forall x y, before x y = true -> before y x = false.

(** No element goes before its predecessor. *)
Lemma insert_stable_sorted x l : Sorted (fun a b => before b a = false) l -> Sorted (fun a b => before b a = false) (insert_stable x l).
Proof.
  induction l as [|y l IH]; cbn; intros Hs; [by repeat constructor|]. destruct (before y x) eqn:E; [|constructor; [done|by constructor]].
  apply Sorted_inv in Hs as [Hs Hhd]. constructor; [by apply IH|]. destruct l as [|z l]; cbn; [constructor; auto|].
  destruct (before z x); constructor; [by apply HdRel_inv in Hhd|auto].
Qed.

Lemma sort_stable_sorted l : Sorted (fun a b => before b a = false) (sort_stable l).
Proof. induction l as [|x l IH]; cbn; [constructor|]. by apply insert_stable_sorted. Qed.
End Sort.

(** *** Distinct elements *)

Lemma distinct_app {A} `{EqDecision A} (l : list A) x :
  distinct (l ++ [x]) = if bool_decide (x ∈ distinct l) then distinct l else distinct l ++ [x].
Proof. unfold distinct. by rewrite foldl_app. Qed.

Lemma elem_of_distinct {A} `{EqDecision A} (l : list A) x : x ∈ distinct l <-> x ∈ l.
Proof.
  induction l as [|y l IH] using rev_ind; [done|]. rewrite distinct_app, elem_of_app, list_elem_of_singleton, <- IH.
  case_bool_decide; [naive_solver|]. by rewrite elem_of_app, list_elem_of_singleton.
Qed.

Lemma NoDup_distinct {A} `{EqDecision A} (l : list A) : NoDup (distinct l).
Proof.
  induction l as [|y l IH] using rev_ind; [constructor|]. rewrite distinct_app. case_bool_decide as Hin; [done|].
  apply NoDup_app. split_and!; [done| |apply NoDup_singleton]. intros x Hx Hy%list_elem_of_singleton. by subst.
Qed.

Lemma NoDup_omap_strong {A B} (f : A -> option B) (l : list A) :
  (forall x y z, x ∈ l -> y ∈ l -> f x = Some z -> f y = Some z -> x = y) -> NoDup l -> NoDup (omap f l).
Proof.
  intros Hinj. induction 1 as [|x l Hx Hl IH]; [constructor|]. cbn. specialize (IH ltac:(set_solver)). destruct (f x) as [z|] eqn:Ef; [|done].
  constructor; [|done]. intros (y & Hy & Hfy)%list_elem_of_omap. assert (x = y) as -> by (eapply Hinj; set_solver). done.
Qed.

(** *** Sums *)

Lemma sum_of_cons {A} (f : A -> Z) x l : sum_of f (x :: l) = f x + sum_of f l.
Proof. done. Qed.

Lemma sum_of_app {A} (f : A -> Z) l l' : sum_of f (l ++ l') = sum_of f l + sum_of f l'.
Proof. induction l as [|x l IH]; [done|]. rewrite <- app_comm_cons, !sum_of_cons, IH. lia. Qed.

Lemma sum_of_perm {A} (f : A -> Z) l l' : l ≡ₚ l' -> sum_of f l = sum_of f l'.
Proof. induction 1; rewrite ?sum_of_cons; lia. Qed.

Lemma sum_of_fmap {A B} (g : A -> B) (f : B -> Z) l : sum_of f (g <$> l) = sum_of (fun x => f (g x)) l.
Proof. induction l as [|x l IH]; [done|]. rewrite fmap_cons, !sum_of_cons. by rewrite IH. Qed.

Lemma sum_of_ext {A} (f g : A -> Z) l : (forall x, x ∈ l -> f x = g x) -> sum_of f l = sum_of g l.
Proof.
  induction l as [|x l IH]; intros Hfg; [done|]. rewrite !sum_of_cons, (Hfg x) by set_solver. rewrite IH by set_solver. done.
Qed.

Lemma sum_of_filter {A} (P : A -> Prop) `{forall x, Decision (P x)} (f : A -> Z) l :
  sum_of f (filter P l) = sum_of (fun x => if bool_decide (P x) then f x else 0) l.
Proof.
  induction l as [|x l IH]; [done|]. rewrite filter_cons, sum_of_cons. case_decide; case_bool_decide; try done; rewrite ?sum_of_cons; lia.
Qed.

Lemma sum_of_nonneg {A} (f : A -> Z) l : (forall x, x ∈ l -> 0 <= f x) -> 0 <= sum_of f l.
Proof.
  induction l as [|x l IH]; intros Hf; [done|]. rewrite sum_of_cons. specialize (Hf x ltac:(set_solver)) as Hx.
  assert (forall y, y ∈ l -> 0 <= f y) as Hl by set_solver. specialize (IH Hl). lia.
Qed.

Lemma sum_of_zero {A} (l : list A) : sum_of (fun _ => 0) l = 0.
Proof. induction l as [|x l IH]; [done|]. by rewrite sum_of_cons, IH. Qed.

(** *** Groups *)

Lemma elem_of_group_by {A K} `{EqDecision K} (key : A -> K) l k xs :
  (k, xs) ∈ group_by key l <-> k ∈ key <$> l /\ xs = filter (fun x => key x = k) l.
Proof. unfold group_by. rewrite list_elem_of_fmap. setoid_rewrite elem_of_distinct. naive_solver. Qed.

Lemma group_by_keys {A K} `{EqDecision K} (key : A -> K) l : (group_by key l).*1 = distinct (key <$> l).
Proof. unfold group_by. rewrite <- list_fmap_compose. apply list_fmap_id. Qed.

(** The sum over the classes of a partition is the sum over the list. *)
Lemma sum_classes {A K} `{EqDecision K} (key : A -> K) (f : A -> Z) l ks : NoDup ks -> (forall x, x ∈ l -> key x ∈ ks) ->
  sum_of (fun k => sum_of f (filter (fun x => key x = k) l)) ks = sum_of f l.
Proof.
  intros Hnd. induction l as [|x l IH]; intros Hin; [apply (sum_of_zero ks)|]. rewrite sum_of_cons, <- IH by set_solver. clear IH.
  assert (key x ∈ ks) as Hx by set_solver. clear Hin. induction ks as [|k ks IH]; [set_solver|].
  apply NoDup_cons in Hnd as [Hni Hnd]. rewrite !sum_of_cons, filter_cons. destruct (decide (key x = k)) as [Heq|Hne].
  - subst k. rewrite (sum_of_ext _ (fun k0 => sum_of f (filter (fun x0 => key x0 = k0) l)) ks); [rewrite sum_of_cons; lia|].
    intros k0 Hk0. rewrite filter_cons_False; [done|]. intros Heq. subst k0. done.
  - rewrite IH; [lia|done|set_solver].
Qed.

Lemma sum_group_by {A K} `{EqDecision K} (key : A -> K) (f : A -> Z) l :
  sum_of (fun g => sum_of f g.2) (group_by key l) = sum_of f l.
Proof.
  unfold group_by. rewrite sum_of_fmap. apply (sum_classes key f l); [apply NoDup_distinct|].
  intros x Hx. apply elem_of_distinct. by apply list_elem_of_fmap_2.
Qed.

End Aggregates.
