(* ===== verification/UsageIntake.v ===== *)
(** Usage of runs, from the report to the charge (turbo/apps/api/src/signals/routes/
    webhooks-agent-health-usage-telemetry.ts, services/cron-process-usage-events.service.ts,
    zero-chat-usage-message.service.ts): what sandboxes report, how it enters the ledger that
    [Credits] settles, and the usage message of a chat. *)

From S2P Require Import Prelude JsString JsValue JsRecord Aggregates RunStore Credits Tokens.
Import Aggregates RunStore Credits Tokens.

Module UsageIntake.

(** ** Tables

    A row of [usage_event] is an event of [Credits] and the columns only read here, under its
    identifier. *)

Record EventMeta := { em_userId : jsstr; em_idempotencyKey : jsstr; em_createdAt : Z }.

Record AgentRun := {
  ag_userId : jsstr; ag_orgId : jsstr; ag_prompt : jsstr; ag_status : RunStatus;
  ag_createdAt : Z; ag_startedAt : option Z; ag_completedAt : option Z }.

Record ZeroRun := {
  zr_triggerSource : jsstr; zr_automationId : option jsstr; zr_modelProvider : option jsstr; zr_selectedModel : option jsstr;
  zr_chatThreadId : option jsstr; zr_summary : option jsstr }.

Record ChatThread := { ct_userId : jsstr; ct_title : option jsstr }.

Record Observation := {
  ob_runId : jsstr; ob_orgId : jsstr; ob_userId : jsstr; ob_model : jsstr; ob_modelProviderType : jsstr; ob_category : jsstr;
  ob_quantity : Z; ob_observedAt : Z; ob_idempotencyKey : jsstr }.

Record ProviderBreakdown := { pb_provider : jsstr; pb_credits : Z }.
Record KindBreakdown := { kb_kind : jsstr; kb_credits : Z; kb_providers : list ProviderBreakdown }.
Record UsagePayload := { up_totalCredits : Z; up_settledAt : Z; up_breakdown : list KindBreakdown }.

#[export] Instance provider_breakdown_eq_dec : EqDecision ProviderBreakdown.
Proof. solve_decision. Defined.
#[export] Instance kind_breakdown_eq_dec : EqDecision KindBreakdown.
Proof. solve_decision. Defined.
#[export] Instance usage_payload_eq_dec : EqDecision UsagePayload.
Proof. solve_decision. Defined.

(** The messages of chats that carry usage. *)
Record UsageMessage := { um_chatThreadId : jsstr; um_runId : jsstr; um_createdAt : Z; um_payload : UsagePayload }.

Record UsageDb := {
  ledger : Store; meta : gmap Z EventMeta; observations : list Observation; agentRuns : gmap jsstr AgentRun;
  zeroRuns : gmap jsstr ZeroRun; chatThreads : gmap jsstr ChatThread; usageMessages : list UsageMessage;
  signals : list (jsstr * jsstr) }.

Definition with_ledger (f : Store -> Store) (d : UsageDb) : UsageDb :=
  {| ledger := f (ledger d); meta := meta d; observations := observations d; agentRuns := agentRuns d; zeroRuns := zeroRuns d;
     chatThreads := chatThreads d; usageMessages := usageMessages d; signals := signals d |}.

(** ** Reports of a sandbox *)

Record UsageItem := { it_idempotencyKey : jsstr; it_kind : jsstr; it_provider : jsstr; it_category : jsstr; it_quantity : Z }.
Record UsageBody := { bo_runId : jsstr; bo_events : list UsageItem }.

(** [z.number().int()] accepts the integers a number represents exactly. *)
Definition MAX_SAFE_INTEGER : Z := 2 ^ 53 - 1.

Definition MODEL_USAGE_KIND : jsstr := js "model".

(** Columns of type uuid do not distinguish case. *)
Definition uuid_value (s : jsstr) : jsstr := ascii_lower <$> s.

Definition has_key (key : jsstr) (d : UsageDb) : bool :=
  existsb (fun m => bool_decide (em_idempotencyKey m = key)) (map_to_list (meta d)).*2.

Definition next_id (d : UsageDb) : Z := 1 + foldr Z.max 0 ((e_id <$> events (ledger d)) ++ (map_to_list (meta d)).*1).

(** One row of the insert, unless its idempotency key is taken. *)
Definition insert_event (now : Z) (runId : jsstr) (auth : SandboxAuth) (d : UsageDb) (item : UsageItem) : UsageDb :=
  let key := uuid_value (it_idempotencyKey item) in
  if has_key key d then d
  else
    let id := next_id d in
    let event := {| e_id := id; e_runId := Some runId; e_orgId := sa_orgId auth; e_kind := it_kind item; e_provider := it_provider item;
                    e_category := it_category item; e_quantity := it_quantity item; e_creditsCharged := None; e_status := EvPending;
                    e_billingError := None; e_processedAt := None |} in
    {| ledger := with_events (fun l => l ++ [event]) (ledger d);
       meta := <[id := {| em_userId := sa_userId auth; em_idempotencyKey := key; em_createdAt := now |}]> (meta d);
       observations := observations d; agentRuns := agentRuns d; zeroRuns := zeroRuns d; chatThreads := chatThreads d;
       usageMessages := usageMessages d; signals := signals d |}.

(** [INSERT .. ON CONFLICT DO NOTHING]: when a row is inserted for a run that does not exist, the
    statement fails as a whole. *)
Definition insert_events (now : Z) (runId : jsstr) (auth : SandboxAuth) (items : list UsageItem) (d : UsageDb) : option UsageDb :=
  let d' := foldl (insert_event now runId auth) d items in
  if (length (events (ledger d')) =? length (events (ledger d)))%nat || bool_decide (is_Some (agentRuns d !! runId))
  then Some d' else None.

Inductive UsageReply := InvalidBody | RunMismatch | RunNotFound | Success.

(** Usage of a model is billed when the platform provides the model. *)
Definition billable (modelProviderType : option jsstr) (item : UsageItem) : bool :=
  negb (bool_decide (it_kind item = MODEL_USAGE_KIND)) ||
  match modelProviderType with None => true | Some t => bool_decide (t = js "vm0") end.

Definition run_provider (body : UsageBody) (d : UsageDb) : option jsstr :=
  if existsb (fun event => bool_decide (it_kind event = MODEL_USAGE_KIND)) (bo_events body)
  then run ← zeroRuns d !! bo_runId body; zr_modelProvider run else None.

Section Reports.
Context `{TokenRuntime}.

(** webhookUsageEventContract *)
Definition usage_item_ok (item : UsageItem) : bool :=
  is_uuid (it_idempotencyKey item) && bool_decide (it_kind item ∈ [js "connector"; js "model"; js "image"]) &&
  (1 <=? length (it_provider item))%nat && (length (it_provider item) <=? 100)%nat &&
  (1 <=? length (it_category item))%nat && (length (it_category item) <=? 100)%nat &&
  (0 <=? it_quantity item) && (it_quantity item <=? MAX_SAFE_INTEGER).

Definition usage_body_ok (body : UsageBody) : bool :=
  negb (bool_decide (bo_runId body = [])) && (1 <=? length (bo_events body))%nat && (length (bo_events body) <=? 100)%nat &&
  forallb usage_item_ok (bo_events body).

Definition usageEvent (now : Z) (authorization : option jsstr) (body : UsageBody) (d : UsageDb) : UsageReply * UsageDb :=
  if negb (usage_body_ok body) then (InvalidBody, d)
  else
    match getSandboxAuthForRun now (bo_runId body) authorization with
    | None => (RunMismatch, d)
    | Some auth =>
        let modelProviderType := run_provider body d in
        let values := filter (fun item => billable modelProviderType item = true) (bo_events body) in
        match insert_events now (bo_runId body) auth values d with
        | Some d' => (Success, d')
        | None => (RunNotFound, d)
        end
    end.

End Reports.

(** *** Observations of models *)

(** packages/api-contracts/src/contracts/model-providers.ts *)
Definition SUPPORTED_RUN_MODELS : list jsstr :=
  [js "claude-fable-5"; js "claude-opus-4-8"; js "claude-opus-4-7"; js "claude-opus-4-6"; js "claude-sonnet-4-6";
   js "deepseek-v4-pro"; js "kimi-k2.6"; js "kimi-k2.5"; js "MiniMax-M3"; js "glm-5.1"; js "gpt-5.5"; js "gpt-5.4"; js "gpt-5.4-mini"].

Definition CANONICAL_RUN_MODEL_ALIASES : Rec jsstr :=
  [(js "anthropic/claude-fable-5", js "claude-fable-5"); (js "anthropic/claude-opus-4.8", js "claude-opus-4-8");
   (js "anthropic/claude-opus-4.7", js "claude-opus-4-7"); (js "anthropic/claude-opus-4.6", js "claude-opus-4-6");
   (js "anthropic/claude-sonnet-4.6", js "claude-sonnet-4-6"); (js "deepseek/deepseek-v4-pro", js "deepseek-v4-pro");
   (js "moonshotai/kimi-k2.6", js "kimi-k2.6"); (js "moonshotai/kimi-k2.5", js "kimi-k2.5"); (js "z-ai/glm-5.1", js "glm-5.1")].

(** A name every object inherits is not a string, and no supported model either. *)
Definition normalizeRunModelId (model : jsstr) : option jsstr :=
  match rec_own CANONICAL_RUN_MODEL_ALIASES model with
  | Some canonical => Some canonical
  | None => if bool_decide (model ∈ object_prototype_names) then None else Some model
  end.

Definition isSupportedRunModel (model : option jsstr) : bool :=
  match model with Some m => bool_decide (m ∈ SUPPORTED_RUN_MODELS) | None => false end.

Record ObservationItem := { oi_idempotencyKey : jsstr; oi_model : jsstr; oi_category : jsstr; oi_quantity : Z }.
Record ObservationBody := { oo_runId : jsstr; oo_events : list ObservationItem }.

Definition observation_of (now : Z) (runId : jsstr) (auth : SandboxAuth) (run : option ZeroRun) (item : ObservationItem) : option Observation :=
  let canonicalModel := normalizeRunModelId (default (oi_model item) (r ← run; zr_selectedModel r)) in
  if isSupportedRunModel canonicalModel
  then Some {| ob_runId := runId; ob_orgId := sa_orgId auth; ob_userId := sa_userId auth; ob_model := default [] canonicalModel;
               ob_modelProviderType := default [] (r ← run; zr_modelProvider r); ob_category := oi_category item;
               ob_quantity := oi_quantity item; ob_observedAt := now; ob_idempotencyKey := uuid_value (oi_idempotencyKey item) |}
  else None.

Definition insert_observation (l : list Observation) (o : Observation) : list Observation :=
  if existsb (fun o' => bool_decide (ob_idempotencyKey o' = ob_idempotencyKey o)) l then l else l ++ [o].

Definition with_observations (l : list Observation) (d : UsageDb) : UsageDb :=
  {| ledger := ledger d; meta := meta d; observations := l; agentRuns := agentRuns d; zeroRuns := zeroRuns d;
     chatThreads := chatThreads d; usageMessages := usageMessages d; signals := signals d |}.

Section Observations.
Context `{TokenRuntime}.

Definition observation_item_ok (item : ObservationItem) : bool :=
  is_uuid (oi_idempotencyKey item) && (1 <=? length (oi_model item))%nat && (length (oi_model item) <=? 255)%nat &&
  bool_decide (oi_category item ∈ [js "tokens.input"; js "tokens.output"; js "tokens.cache_read"; js "tokens.cache_creation"]) &&
  (1 <=? oi_quantity item) && (oi_quantity item <=? MAX_SAFE_INTEGER).

Definition observation_body_ok (body : ObservationBody) : bool :=
  negb (bool_decide (oo_runId body = [])) && (1 <=? length (oo_events body))%nat && (length (oo_events body) <=? 100)%nat &&
  forallb observation_item_ok (oo_events body).

Definition modelUsageObservation (now : Z) (authorization : option jsstr) (body : ObservationBody) (d : UsageDb) : UsageReply * UsageDb :=
  if negb (observation_body_ok body) then (InvalidBody, d)
  else
    match getSandboxAuthForRun now (oo_runId body) authorization with
    | None => (RunMismatch, d)
    | Some auth =>
        let values := omap (observation_of now (oo_runId body) auth (zeroRuns d !! oo_runId body)) (oo_events body) in
        let l := foldl insert_observation (observations d) values in
        if (length l =? length (observations d))%nat || bool_decide (is_Some (agentRuns d !! oo_runId body))
        then (Success, with_observations l d) else (RunNotFound, d)
    end.

End Observations.

(** ** The usage message of a chat (zero-chat-usage-message.service.ts) *)

Definition TERMINAL_RUN_STATUSES : list RunStatus := [Completed; Failed; Cancelled].

Definition run_events (runId : jsstr) (d : UsageDb) : list UsageEvent := filter (fun e => e_runId e = Some runId) (events (ledger d)).

Definition processed_events (l : list UsageEvent) : list UsageEvent := filter (fun e => e_status e = EvProcessed) l.
Definition pending_events (l : list UsageEvent) : list UsageEvent := filter (fun e => e_status e = EvPending) l.

Definition event_credits (e : UsageEvent) : Z := default 0 (e_creditsCharged e).

(** [COALESCE(MAX(processed_at), MAX(created_at), completed_at, run created_at)] over the
    processed events. *)
Definition settled_at (run : AgentRun) (l : list UsageEvent) (d : UsageDb) : Z :=
  default (default (default (ag_createdAt run) (ag_completedAt run))
    (max_of em_createdAt (omap (fun e => meta d !! e_id e) l)))
    (max_of id (omap e_processedAt l)).

Record BreakdownRow := { br_kind : jsstr; br_provider : jsstr; br_credits : Z }.

Definition unknown_provider (provider : jsstr) : jsstr := if bool_decide (provider = []) then js "unknown" else provider.

Definition buildUsageBreakdown (rows : list BreakdownRow) : list KindBreakdown :=
  (fun g => let providers := (fun r => {| pb_provider := br_provider r; pb_credits := Z.max 0 (br_credits r) |}) <$> g.2 in
     {| kb_kind := g.1; kb_credits := sum_of pb_credits providers; kb_providers := providers |}) <$> group_by br_kind rows.

Section Messages.
(** Whether a text goes before another in the database, and in the order of [localeCompare]. *)
Context (collate locale : jsstr -> jsstr -> bool).

Definition breakdown_before (g h : (jsstr * jsstr) * list UsageEvent) : bool :=
  collate g.1.1 h.1.1 || (bool_decide (g.1.1 = h.1.1) && collate g.1.2 h.1.2).

Definition breakdown_rows (l : list UsageEvent) : list BreakdownRow :=
  (fun g => {| br_kind := g.1.1; br_provider := unknown_provider g.1.2; br_credits := sum_of event_credits g.2 |}) <$>
    sort_stable breakdown_before (group_by (fun e => (e_kind e, e_provider e)) l).

Definition usagePayloadKey (p : UsagePayload) : UsagePayload :=
  {| up_totalCredits := up_totalCredits p; up_settledAt := up_settledAt p;
     up_breakdown := sort_stable (fun a b => locale (kb_kind a) (kb_kind b))
       ((fun k => {| kb_kind := kb_kind k; kb_credits := kb_credits k;
                     kb_providers := sort_stable (fun a b => locale (pb_provider a) (pb_provider b)) (kb_providers k) |}) <$> up_breakdown p) |}.

Definition usagePayloadEquals (left right : UsagePayload) : bool := bool_decide (usagePayloadKey left = usagePayloadKey right).

Definition usageMessageMatchesPayload (message : UsageMessage) (payload : UsagePayload) : bool :=
  (um_createdAt message =? up_settledAt payload) || usagePayloadEquals (um_payload message) payload.

Definition usage_payload (run : AgentRun) (l : list UsageEvent) (d : UsageDb) : UsagePayload :=
  {| up_totalCredits := Z.max 0 (sum_of event_credits l); up_settledAt := settled_at run l d;
     up_breakdown := buildUsageBreakdown (breakdown_rows l) |}.

Definition emit_message (threadId userId runId : jsstr) (payload : UsagePayload) (d : UsageDb) : UsageDb :=
  {| ledger := ledger d; meta := meta d; observations := observations d; agentRuns := agentRuns d; zeroRuns := zeroRuns d;
     chatThreads := chatThreads d;
     usageMessages := usageMessages d ++ [{| um_chatThreadId := threadId; um_runId := runId; um_createdAt := up_settledAt payload;
                                             um_payload := payload |}];
     signals := signals d ++ [(userId, js "chatThreadMessageCreated:" ++ threadId)] |}.

(** The thread of a run and its user, when both are there. *)
Definition usage_thread (zr : ZeroRun) (d : UsageDb) : option (jsstr * jsstr) :=
  threadId ← truthy_text (zr_chatThreadId zr);
  thread ← chatThreads d !! threadId;
  userId ← truthy_text (Some (ct_userId thread));
  Some (threadId, userId).

Definition maybeEmitRunUsageMessage (runId : jsstr) (d : UsageDb) : bool * UsageDb :=
  match agentRuns d !! runId, zeroRuns d !! runId with
  | Some run, Some zr =>
      if negb (bool_decide (ag_status run ∈ TERMINAL_RUN_STATUSES)) then (false, d)
      else
        match usage_thread zr d with
        | None => (false, d)
        | Some (threadId, userId) =>
            let l := run_events runId d in
            let processed := processed_events l in
            if (0 <? length (pending_events l))%nat || (length processed =? 0)%nat then (false, d)
            else
              let payload := usage_payload run processed d in
              if existsb (fun message => usageMessageMatchesPayload message payload)
                   (filter (fun message => um_runId message = runId) (usageMessages d))
              then (false, d) else (true, emit_message threadId userId runId payload d)
        end
  | _, _ => (false, d)
  end.

(** ** Settlement (zero-credit-usage.service.ts, cron-process-usage-events.service.ts) *)

(** The transaction and the recharge of [Credits], then a message for each run that was
    settled; a message that fails is logged. *)
Definition processOrgUsage (stripe : Stripe) (now : Z) (orgId : jsstr) (d : UsageDb) : UsageDb :=
  let pendingRecords := filter (fun e => is_pending orgId e = true) (events (ledger d)) in
  let runIds := distinct (omap (fun e => truthy_text (e_runId e)) pendingRecords) in
  foldl (fun d runId => (maybeEmitRunUsageMessage runId d).2) (with_ledger (processOrgUsageEvents stripe now orgId) d) runIds.

Definition stale_orgs (d : UsageDb) : list jsstr := distinct (e_orgId <$> pending_events (events (ledger d))).

Definition processStaleUsageEvents (stripe : Stripe) (now : Z) (d : UsageDb) : nat * UsageDb :=
  let orgs := stale_orgs d in
  (length orgs, foldl (fun d orgId => processOrgUsage stripe now orgId d) d orgs).

End Messages.

End UsageIntake.
