(* ===== verification/UsageLedger.v ===== *)
(** The usage ledger: every reported use is charged once, whatever is delivered again and
    whenever it is settled; the usage message of a chat adds up and is sent once. *)

From stdpp Require Import relations.
From S2P Require Import Prelude JsString JsValue JsRecord Aggregates RunStore Credits Tokens UsageIntake.
Import Aggregates RunStore Credits Tokens UsageIntake.

Module UsageLedger.

(** ** The invariant of the ledger *)

Record LedgerInv (d : UsageDb) : Prop := {
  li_ids : NoDup (e_id <$> events (ledger d));
  li_meta : forall e, e ∈ events (ledger d) -> is_Some (meta d !! e_id e);
  li_rows : forall id m, meta d !! id = Some m -> id ∈ e_id <$> events (ledger d);
  li_keys : forall id m id' m', meta d !! id = Some m -> meta d !! id' = Some m' -> em_idempotencyKey m = em_idempotencyKey m' -> id = id';
  li_charged : forall e, e ∈ events (ledger d) ->
    match e_status e with EvProcessed => is_Some (e_creditsCharged e) /\ is_Some (e_processedAt e) | EvPending => e_creditsCharged e = None end }.

(** What a report says, which no operation changes. *)
Definition reported (e : UsageEvent) : Z * option jsstr * jsstr * jsstr * jsstr * jsstr * Z :=
  (e_id e, e_runId e, e_orgId e, e_kind e, e_provider e, e_category e, e_quantity e).

(** *** The insert *)

Lemma has_key_spec key d : has_key key d = true <-> exists id m, meta d !! id = Some m /\ em_idempotencyKey m = key.
Proof.
  unfold has_key. rewrite existsb_true. split.
  - intros (m & Hm & Hk%bool_decide_eq_true). apply list_elem_of_fmap in Hm as ([id m'] & -> & Hin). apply elem_of_map_to_list in Hin. eauto.
  - intros (id & m & Hm & Hk). exists m. split; [|by apply bool_decide_eq_true]. apply list_elem_of_fmap. exists (id, m).
    split; [done|]. by apply elem_of_map_to_list.
Qed.

Lemma foldr_max_le (l : list Z) x : x ∈ l -> x <= foldr Z.max 0 l.
Proof. induction 1; cbn; lia. Qed.

Lemma next_id_fresh d : next_id d ∉ e_id <$> events (ledger d) /\ meta d !! next_id d = None.
Proof.
  assert (forall x, x ∈ (e_id <$> events (ledger d)) ++ (map_to_list (meta d)).*1 -> x < next_id d) as Hlt.
  { intros x Hx%foldr_max_le. unfold next_id. lia. }
  split.
  - intros Hin. specialize (Hlt (next_id d)). rewrite elem_of_app in Hlt. specialize (Hlt (or_introl Hin)). lia.
  - apply eq_None_not_Some. intros [m Hm]. specialize (Hlt (next_id d)). rewrite elem_of_app in Hlt.
    assert (next_id d ∈ (map_to_list (meta d)).*1); [|specialize (Hlt (or_intror H)); lia].
    apply list_elem_of_fmap. exists (next_id d, m). split; [done|]. by apply elem_of_map_to_list.
Qed.

(** What an insert does: nothing, or one new pending row under a new key. *)
Lemma insert_event_cases now runId auth d item : let key := uuid_value (it_idempotencyKey item) in
  (has_key key d = true /\ insert_event now runId auth d item = d) \/
  (has_key key d = false /\ exists e m,
     events (ledger (insert_event now runId auth d item)) = events (ledger d) ++ [e] /\
     meta (insert_event now runId auth d item) = <[e_id e := m]> (meta d) /\
     e_id e ∉ e_id <$> events (ledger d) /\ meta d !! e_id e = None /\
     e_runId e = Some runId /\ e_orgId e = sa_orgId auth /\ e_kind e = it_kind item /\ e_provider e = it_provider item /\
     e_category e = it_category item /\ e_quantity e = it_quantity item /\ e_status e = EvPending /\ e_creditsCharged e = None /\
     m = {| em_userId := sa_userId auth; em_idempotencyKey := key; em_createdAt := now |}).
Proof.
  intros key. unfold insert_event. fold key. destruct (has_key key d) eqn:Ek; [by left|]. right. split; [done|].
  destruct (next_id_fresh d) as [Hi Hm]. eexists _, _. cbn. split_and!; [reflexivity|reflexivity|exact Hi|exact Hm|done..].
Qed.

Lemma insert_event_other now runId auth d item :
  agentRuns (insert_event now runId auth d item) = agentRuns d /\ zeroRuns (insert_event now runId auth d item) = zeroRuns d.
Proof. unfold insert_event. by destruct (has_key _ _). Qed.

Lemma insert_event_inv now runId auth d item : LedgerInv d -> LedgerInv (insert_event now runId auth d item).
Proof.
  intros Hi. destruct (insert_event_cases now runId auth d item) as [[_ ->]|(Hk & e & m & He & Hm & Hne & Hnm & H1 & _ & _ & _ & _ & _ & Hs & Hc & Hmm)]; [done|].
  set (d' := insert_event now runId auth d item) in *. split; rewrite ?He, ?Hm.
  - rewrite fmap_app. apply NoDup_app. split_and!; [apply Hi| |apply NoDup_singleton]. intros x Hx Hin%list_elem_of_singleton. by subst x.
  - intros e' [He'|Hin]%elem_of_app.
    + destruct (li_meta d Hi e' He') as [m' Hm']. rewrite lookup_insert_ne; [eauto|]. intros Heq. apply Hne. rewrite Heq. by apply list_elem_of_fmap_2.
    + apply list_elem_of_singleton in Hin as ->. rewrite lookup_insert_eq. eauto.
  - intros id m' Hm'. rewrite fmap_app. apply elem_of_app. apply lookup_insert_Some in Hm' as [[<- _]|[_ Hm']]; [right; by apply list_elem_of_singleton|].
    left. by eapply (li_rows d Hi).
  - assert (forall id m', meta d !! id = Some m' -> em_idempotencyKey m' <> em_idempotencyKey m) as Hnew.
    { intros id m' Hm' Heq. apply not_true_iff_false in Hk. apply Hk, has_key_spec. exists id, m'. split; [done|]. by rewrite Heq, Hmm. }
    intros id1 m1 id2 m2 Hm1 Hm2 Heq. apply lookup_insert_Some in Hm1 as [[<- <-]|[_ Hm1]], Hm2 as [[<- <-]|[_ Hm2]]; [done|..].
    + by destruct (Hnew id2 m2 Hm2).
    + by destruct (Hnew id1 m1 Hm1).
    + by apply (li_keys d Hi id1 m1 id2 m2).
  - intros e' [He'|Hin]%elem_of_app; [by apply (li_charged d Hi)|]. apply list_elem_of_singleton in Hin as ->. by rewrite Hs.
Qed.

(** ** What later operations keep *)

(** Rows stay, with what they report; a processed row does not change at all. *)
Record ledger_grows (d d' : UsageDb) : Prop := {
  lg_events : forall e, e ∈ events (ledger d) -> exists e', e' ∈ events (ledger d') /\ reported e' = reported e /\
    (e_status e = EvProcessed -> e' = e);
  lg_meta : forall id m, meta d !! id = Some m -> meta d' !! id = Some m }.

#[export] Instance ledger_grows_preorder : PreOrder ledger_grows.
Proof.
  split.
  - intros d. split; eauto.
  - intros d1 d2 d3 [H1 M1] [H2 M2]. split; [|eauto]. intros e He. destruct (H1 e He) as (e2 & He2 & Hr2 & Hp2).
    destruct (H2 e2 He2) as (e3 & He3 & Hr3 & Hp3). exists e3. split_and!; [done|congruence|].
    intros Hs. specialize (Hp2 Hs). subst e2. auto.
Qed.

Lemma insert_event_grows now runId auth d item : ledger_grows d (insert_event now runId auth d item).
Proof.
  destruct (insert_event_cases now runId auth d item) as [[_ ->]|(_ & e & m & He & Hm & _ & Hnm & _)]; [done|]. split; rewrite ?He, ?Hm.
  - intros e' He'. exists e'. split_and!; [apply elem_of_app; by left|done|done].
  - intros id m' Hm'. rewrite lookup_insert_ne; [done|]. intros Heq. congruence.
Qed.

Lemma insert_all_keeps now runId auth items d : LedgerInv d ->
  let d' := foldl (insert_event now runId auth) d items in LedgerInv d' /\ ledger_grows d d' /\ agentRuns d' = agentRuns d.
Proof.
  revert d. induction items as [|item items IH]; intros d Hi; [done|]. cbn [foldl]. destruct (IH _ (insert_event_inv now runId auth d item Hi)) as (Hi' & Hg & Hr).
  split_and!; [done| |by rewrite Hr, (proj1 (insert_event_other now runId auth d item))]. etransitivity; [apply insert_event_grows|exact Hg].
Qed.

(** *** Settlement *)

Lemma emit_frame collate locale runId d : let d' := (maybeEmitRunUsageMessage collate locale runId d).2 in
  ledger d' = ledger d /\ meta d' = meta d /\ agentRuns d' = agentRuns d /\ zeroRuns d' = zeroRuns d.
Proof.
  unfold maybeEmitRunUsageMessage. destruct (agentRuns d !! runId) as [run|]; [|done]. destruct (zeroRuns d !! runId) as [zr|]; [|done].
  destruct (negb _); [done|]. destruct (usage_thread zr d) as [[t u]|]; [|done]. cbv zeta. destruct (_ || _); [done|]. by destruct (existsb _ _).
Qed.

Lemma process_org_frame collate locale stripe now orgId d : let d' := processOrgUsage collate locale stripe now orgId d in
  ledger d' = processOrgUsageEvents stripe now orgId (ledger d) /\ meta d' = meta d.
Proof.
  unfold processOrgUsage. cbv zeta. set (d1 := with_ledger _ d). assert (ledger d1 = processOrgUsageEvents stripe now orgId (ledger d) /\ meta d1 = meta d) as H1 by done.
  clearbody d1. revert d1 H1. induction (distinct _) as [|r l IH]; intros d1 H1; [done|]. cbn [foldl]. apply IH.
  destruct (emit_frame collate locale r d1) as (-> & -> & _). exact H1.
Qed.

Lemma expireLoop_pricing l t s : pricing (expireLoop l t s).2 = pricing s.
Proof. revert t s. induction l as [|r l IH]; intros t s; [done|]. cbn [expireLoop]. by rewrite IH. Qed.

Lemma expireCredits_pricing now orgId s : pricing (expireCredits now orgId s).2 = pricing s.
Proof.
  unfold expireCredits. destruct (_ =? _)%nat; [done|]. pose proof (expireLoop_pricing (filter (fun r => is_expired now orgId r = true) (expires s)) 0 s) as Hp.
  destruct (expireLoop _ 0 s) as [t s1]. cbn in *. by destruct (0 <? t).
Qed.

Lemma deduct_pricing now orgId amount s : pricing (deductFromExpiresRecords now orgId amount s) = pricing s.
Proof.
  unfold deductFromExpiresRecords. destruct (_ <=? _); [done|]. generalize (order_by_expiry (filter (fun r => is_spendable now orgId r = true) (expires s))) as l.
  intros l. revert amount s. induction l as [|r l IH]; intros amount s; [done|]. cbn [deductLoop]. destruct (_ <=? _); [done|]. by rewrite IH.
Qed.

Lemma chargeLoop_pricing now prices l t s : pricing (chargeLoop now prices l t s).2 = pricing s.
Proof. revert t s. induction l as [|e l IH]; intros t s; [done|]. cbn [chargeLoop]. destruct (charge prices e) as [[c err]|]; by rewrite IH. Qed.

Lemma settleUsage_pricing now orgId s : pricing (settleUsage now orgId s).2 = pricing s.
Proof.
  unfold settleUsage. destruct (_ =? _)%nat; [done|].
  pose proof (chargeLoop_pricing now (pricing s) (filter (fun e => is_pending orgId e = true) (events s)) 0 s) as Hp.
  destruct (chargeLoop _ _ _ _ _) as [t s1]. cbn [snd] in *. destruct (0 <? t); [|done]. by rewrite deduct_pricing; cbn; rewrite expireCredits_pricing.
Qed.

Lemma recharge_frame stripe now orgId s :
  events (triggerAutoRecharge stripe now orgId s) = events s /\ pricing (triggerAutoRecharge stripe now orgId s) = pricing s.
Proof.
  unfold triggerAutoRecharge, claimRecharge. destruct (orgs s !! orgId) as [o|]; [|done]. destruct (rechargeable now o) as [c|]; [|done].
  destruct (resolvePaymentMethod stripe c) as [[pm|]|]; [|done|done]. by destruct (pay_invoice _ _ _).
Qed.

(** Settling an organization settles its pending rows and no other. *)
Lemma process_events stripe now orgId s : NoDup (e_id <$> events s) ->
  let s' := processOrgUsageEvents stripe now orgId s in
  events s' = (fun e => if is_pending orgId e then settled now (pricing s) e else e) <$> events s /\ pricing s' = pricing s.
Proof.
  intros Hnd. unfold processOrgUsageEvents. pose proof (settleUsage_events now orgId s Hnd) as He. pose proof (settleUsage_pricing now orgId s) as Hp.
  destruct (settleUsage now orgId s) as [t s1]. cbn [snd] in *. destruct (0 <? t); [|done].
  destruct (recharge_frame stripe now orgId s1) as [-> ->]. done.
Qed.

Lemma settled_reported now prices e : reported (settled now prices e) = reported e.
Proof. unfold settled. by destruct (charge prices e) as [[c err]|]. Qed.

Lemma settled_status now prices e :
  e_status (settled now prices e) = EvProcessed /\ e_creditsCharged (settled now prices e) = Some (charged prices e) /\ e_processedAt (settled now prices e) = Some now.
Proof. unfold settled, charged. by destruct (charge prices e) as [[c err]|]. Qed.

Lemma settle_map_ids now prices (P : UsageEvent -> bool) (l : list UsageEvent) : e_id <$> ((fun e => if P e then settled now prices e else e) <$> l) = e_id <$> l.
Proof. rewrite <- list_fmap_compose. apply list_fmap_ext. intros i e _. cbn. destruct (P e); [apply settled_id|done]. Qed.

Lemma process_inv collate locale stripe now orgId d : LedgerInv d ->
  LedgerInv (processOrgUsage collate locale stripe now orgId d) /\ ledger_grows d (processOrgUsage collate locale stripe now orgId d).
Proof.
  intros Hi. destruct (process_org_frame collate locale stripe now orgId d) as [Hl Hm].
  destruct (process_events stripe now orgId (ledger d) (li_ids d Hi)) as [He _].
  set (d' := processOrgUsage collate locale stripe now orgId d) in *. rewrite <- Hl in He. split; split; rewrite ?He, ?Hm.
  - rewrite settle_map_ids. apply Hi.
  - intros e (e0 & -> & He0)%list_elem_of_fmap. destruct (is_pending orgId e0); [rewrite settled_id|]; by apply Hi.
  - intros id m. rewrite settle_map_ids. apply Hi.
  - apply Hi.
  - intros e (e0 & -> & He0)%list_elem_of_fmap. destruct (is_pending orgId e0); [|by apply Hi].
    destruct (settled_status now (pricing (ledger d)) e0) as (-> & -> & ->). eauto.
  - intros e Hin. exists (if is_pending orgId e then settled now (pricing (ledger d)) e else e). split_and!.
    + apply list_elem_of_fmap. by exists e.
    + destruct (is_pending orgId e); [apply settled_reported|done].
    + intros Hs. unfold is_pending. rewrite Hs. by rewrite andb_false_r.
  - done.
Qed.

(** ** Every interleaving *)

Section Traces.
Context `{TokenRuntime} (collate locale : jsstr -> jsstr -> bool).

(** Reports, settlements, and whatever does not touch the ledger: prices, grants, runs. *)
Inductive ustep : UsageDb -> UsageDb -> Prop :=
| us_report now authorization body d : ustep d (usageEvent now authorization body d).2
| us_settle stripe now orgId d : ustep d (processOrgUsage collate locale stripe now orgId d)
| us_other d d' : events (ledger d') = events (ledger d) -> meta d' = meta d -> ustep d d'.

Lemma usage_event_keeps now authorization body d : LedgerInv d ->
  LedgerInv (usageEvent now authorization body d).2 /\ ledger_grows d (usageEvent now authorization body d).2.
Proof.
  intros Hi. unfold usageEvent. destruct (negb _); [done|]. destruct (getSandboxAuthForRun _ _ _) as [auth|]; [|done]. cbv zeta.
  unfold insert_events. cbv zeta. set (items := filter _ (bo_events body)).
  destruct (insert_all_keeps now (bo_runId body) auth items d Hi) as (Hi' & Hg & _). by destruct (_ || _).
Qed.

Lemma ustep_keeps d d' : LedgerInv d -> ustep d d' -> LedgerInv d' /\ ledger_grows d d'.
Proof.
  intros Hi Hs. destruct Hs as [now authorization body d|stripe now orgId d|d d' He Hm]; [by apply usage_event_keeps|by apply process_inv|].
  split; split; rewrite ?He, ?Hm; try apply Hi; [|done]. intros e Hin. by exists e.
Qed.

Lemma usteps_keep d d' : LedgerInv d -> rtc ustep d d' -> LedgerInv d' /\ ledger_grows d d'.
Proof.
  intros Hi Hr. induction Hr as [d|d d1 d' H1 _ IH]; [done|]. destruct (ustep_keeps d d1 Hi H1) as [Hi1 Hg1].
  destruct (IH Hi1) as [Hi' Hg']. split; [done|]. by etransitivity.
Qed.

(** The row with a key, which is the only one. *)
Definition row_with (key : jsstr) (e : UsageEvent) (m : EventMeta) (d : UsageDb) : Prop :=
  e ∈ events (ledger d) /\ meta d !! e_id e = Some m /\ em_idempotencyKey m = key.

Lemma row_unique key e m e' m' d : LedgerInv d -> row_with key e m d -> row_with key e' m' d -> e = e' /\ m = m'.
Proof.
  intros Hi (He & Hm & Hk) (He' & Hm' & Hk'). assert (e_id e = e_id e') as Hid by (eapply (li_keys d Hi); [done..|congruence]).
  split; [|congruence]. eapply event_id_inj; [apply Hi|done..].
Qed.

Lemma ledger_row_later key e m d d' : LedgerInv d -> row_with key e m d -> rtc ustep d d' ->
  exists e', row_with key e' m d' /\ reported e' = reported e /\ (e_status e = EvProcessed -> e' = e).
Proof.
  intros Hi (He & Hm & Hk) Hr. destruct (usteps_keep d d' Hi Hr) as [Hi' [Hge Hgm]]. destruct (Hge e He) as (e' & He' & Hrep & Hp).
  exists e'. split_and!; [|done|done]. split_and!; [done| |done]. assert (e_id e' = e_id e) as -> by (injection Hrep; done). by apply Hgm.
Qed.

(** The key of each item has a row after the insert; if it had none before, the row is of an
    item of the batch. *)
Lemma insert_all_rows now runId auth items d item : LedgerInv d -> item ∈ items ->
  let d' := foldl (insert_event now runId auth) d items in
  let key := uuid_value (it_idempotencyKey item) in
  exists e m, row_with key e m d' /\
    (has_key key d = false -> exists item', item' ∈ items /\ uuid_value (it_idempotencyKey item') = key /\
       e_runId e = Some runId /\ e_orgId e = sa_orgId auth /\ e_kind e = it_kind item' /\ e_provider e = it_provider item' /\
       e_category e = it_category item' /\ e_quantity e = it_quantity item' /\ em_userId m = sa_userId auth /\ em_createdAt m = now).
Proof.
  intros Hi Hin d' key. subst d'. revert d Hi. induction items as [|it items IH]; intros d Hi; [by apply elem_of_nil in Hin|]. cbn [foldl].
  set (d1 := insert_event now runId auth d it). assert (LedgerInv d1) as Hi1 by by apply insert_event_inv.
  assert (forall e m, row_with key e m d1 -> exists e', row_with key e' m (foldl (insert_event now runId auth) d1 items) /\ reported e' = reported e) as Hkeep.
  { intros e m (He & Hm & Hk). destruct (insert_all_keeps now runId auth items d1 Hi1) as (_ & [Hge Hgm] & _). destruct (Hge e He) as (e' & He' & Hr & _).
    exists e'. split; [|done]. split_and!; [done| |done]. assert (e_id e' = e_id e) as -> by (injection Hr; done). by apply Hgm. }
  destruct (decide (uuid_value (it_idempotencyKey it) = key)) as [Hkey|Hne].
  - destruct (insert_event_cases now runId auth d it) as [[Hk Heq]|(Hk & e & m & He & Hm & Hfe & Hfm & H1 & H2 & H3 & H4 & H5 & H6 & H7 & H8 & H9)].
    + rewrite Hkey in Hk. apply has_key_spec in Hk as (id & m & Hm & Hkm). pose proof (li_rows d Hi id m Hm) as (e & -> & He)%list_elem_of_fmap.
      destruct (Hkeep e m) as (e' & Hrow & _); [unfold d1; by rewrite Heq|]. exists e', m. split; [done|]. intros Hno.
      exfalso. apply not_true_iff_false in Hno. apply Hno, has_key_spec. eauto.
    + destruct (Hkeep e m) as (e' & Hrow & Hrep).
      { split_and!; [unfold d1; rewrite He; apply elem_of_app; right; by apply list_elem_of_singleton|unfold d1; by rewrite Hm, lookup_insert_eq|by rewrite H9]. }
      exists e', m. split; [done|]. intros _. exists it. injection Hrep as Hr1 Hr2 Hr3 Hr4 Hr5 Hr6 Hr7. rewrite H9.
      split_and!; try done; [apply elem_of_cons; by left|congruence..].
  - apply elem_of_cons in Hin as [->|Hin]; [done|]. destruct (IH Hin d1 Hi1) as (e & m & Hrow & Hnew). exists e, m. split; [done|]. intros Hno.
    destruct Hnew as (item' & Hin' & Hrest); [|exists item'; split; [apply elem_of_cons; by right|done]].
    destruct (insert_event_cases now runId auth d it) as [[_ Heq]|(_ & e1 & m1 & _ & Hm1 & _ & _ & _ & _ & _ & _ & _ & _ & _ & _ & H9)]; [unfold d1; by rewrite Heq|].
    apply not_true_iff_false. intros (id & m2 & Hm2 & Hk2)%has_key_spec. unfold d1 in Hm2. rewrite Hm1 in Hm2.
    apply lookup_insert_Some in Hm2 as [[_ <-]|[_ Hm2]]; [by rewrite H9 in Hk2|]. apply not_true_iff_false in Hno. apply Hno, has_key_spec. eauto.
Qed.

Lemma settle_step now prices o (os : list jsstr) e :
  (let e1 := if is_pending o e then settled now prices e else e in
   if bool_decide (e_status e1 = EvPending) && bool_decide (e_orgId e1 ∈ os) then settled now prices e1 else e1) =
  if bool_decide (e_status e = EvPending) && bool_decide (e_orgId e ∈ o :: os) then settled now prices e else e.
Proof.
  cbv zeta. unfold is_pending. destruct (settled_status now prices e) as (Hst & _).
  destruct (bool_decide_reflect (e_status e = EvPending)) as [Hs|Hs], (bool_decide_reflect (e_orgId e = o)) as [Ho|Ho]; cbn [andb].
  - rewrite Hst, (bool_decide_eq_false_2 (EvProcessed = EvPending)), (bool_decide_eq_true_2 (e_orgId e ∈ o :: os)) by (done || rewrite Ho; apply elem_of_cons; by left).
    done.
  - rewrite (bool_decide_eq_true_2 (e_status e = EvPending)) by done. cbn [andb].
    rewrite (bool_decide_ext (e_orgId e ∈ o :: os) (e_orgId e ∈ os)) by set_solver. done.
  - by rewrite (bool_decide_eq_false_2 (e_status e = EvPending)) by done.
  - by rewrite (bool_decide_eq_false_2 (e_status e = EvPending)) by done.
Qed.

(** Settling every organization with pending rows settles every row. *)
Lemma process_stale_events stripe now d : LedgerInv d ->
  events (ledger (processStaleUsageEvents collate locale stripe now d).2) =
    (fun e => if bool_decide (e_status e = EvPending) then settled now (pricing (ledger d)) e else e) <$> events (ledger d) /\
  meta (processStaleUsageEvents collate locale stripe now d).2 = meta d.
Proof.
  intros Hi. unfold processStaleUsageEvents. cbn [snd].
  assert (forall os d, LedgerInv d ->
    let d' := foldl (fun d orgId => processOrgUsage collate locale stripe now orgId d) d os in
    events (ledger d') = (fun e => if bool_decide (e_status e = EvPending) && bool_decide (e_orgId e ∈ os) then settled now (pricing (ledger d)) e else e) <$> events (ledger d) /\
    meta d' = meta d) as Hloop.
  { clear d Hi. induction os as [|o os IH]; intros d Hi; cbn [foldl].
    - split; [|done]. rewrite <- (list_fmap_id (events (ledger d))) at 1. apply fmap_ext_in. intros e _.
      rewrite (bool_decide_eq_false_2 (e_orgId e ∈ [])) by apply not_elem_of_nil. by rewrite andb_false_r.
    - destruct (process_org_frame collate locale stripe now o d) as [Hl Hm]. destruct (process_events stripe now o (ledger d) (li_ids d Hi)) as [He Hp].
      destruct (IH _ (proj1 (process_inv collate locale stripe now o d Hi))) as [-> ->]. rewrite Hl, Hm, Hp, He. split; [|done].
      rewrite <- list_fmap_compose. apply fmap_ext_in. intros e _. apply settle_step. }
  destruct (Hloop (stale_orgs d) d Hi) as [-> ->]. split; [|done]. apply fmap_ext_in. intros e He. case_bool_decide as Hs; [|done]. cbn [andb].
  rewrite bool_decide_eq_true_2; [done|]. unfold stale_orgs. apply elem_of_distinct, list_elem_of_fmap_2. by apply list_elem_of_filter.
Qed.

(** The periodic settlement keeps the row of a key and leaves it processed. *)
Lemma settled_row stripe now d key e m : LedgerInv d -> row_with key e m d ->
  let d' := (processStaleUsageEvents collate locale stripe now d).2 in
  LedgerInv d' /\ exists e', row_with key e' m d' /\
    e' = (if bool_decide (e_status e = EvPending) then settled now (pricing (ledger d)) e else e) /\
    e_status e' = EvProcessed /\ is_Some (e_creditsCharged e') /\ reported e' = reported e.
Proof.
  intros Hi (He & Hm & Hk) d'. destruct (process_stale_events stripe now d Hi) as [Hev Hmeta]. fold d' in Hev, Hmeta. split.
  { unfold d', processStaleUsageEvents. cbn [snd]. clear -Hi. generalize (stale_orgs d) as os. intros os. revert d Hi.
    induction os as [|o os IH]; intros d Hi; [done|].
    cbn [foldl]. apply IH. by apply process_inv. }
  set (e' := if bool_decide (e_status e = EvPending) then settled now (pricing (ledger d)) e else e). exists e'.
  assert (e_status e' = EvProcessed /\ is_Some (e_creditsCharged e') /\ reported e' = reported e) as (Hs & Hc & Hr).
  { unfold e'. destruct (bool_decide_reflect (e_status e = EvPending)) as [Hs|Hs].
    - destruct (settled_status now (pricing (ledger d)) e) as (-> & -> & _). rewrite settled_reported. eauto.
    - pose proof (li_charged d Hi e He) as Hc. destruct (e_status e); [done|]. by destruct Hc. }
  split_and!; [|done|done|done|done]. split_and!; [rewrite Hev; apply list_elem_of_fmap; by exists e| |done].
  rewrite Hmeta. assert (e_id e' = e_id e) as -> by (injection Hr; done). done.
Qed.

(** A billed item of an accepted report has a row. *)
Lemma accepted_row now authorization body auth item d d1 :
  LedgerInv d -> usageEvent now authorization body d = (Success, d1) ->
  getSandboxAuthForRun now (bo_runId body) authorization = Some auth ->
  item ∈ bo_events body -> billable (run_provider body d) item = true ->
  let key := uuid_value (it_idempotencyKey item) in
  LedgerInv d1 /\ exists e m, row_with key e m d1 /\
    (has_key key d = false -> exists item', item' ∈ bo_events body /\ uuid_value (it_idempotencyKey item') = key /\
       e_runId e = Some (bo_runId body) /\ e_orgId e = sa_orgId auth /\ e_kind e = it_kind item' /\ e_provider e = it_provider item' /\
       e_category e = it_category item' /\ e_quantity e = it_quantity item' /\ em_userId m = sa_userId auth /\ em_createdAt m = now).
Proof.
  intros Hi Hrep Hauth Hin Hbill key. pose proof (proj1 (usage_event_keeps now authorization body d Hi)) as Hi1. rewrite Hrep in Hi1. split; [exact Hi1|].
  unfold usageEvent in Hrep. destruct (negb _); [done|]. rewrite Hauth in Hrep. cbv zeta in Hrep. unfold insert_events in Hrep. cbv zeta in Hrep.
  set (items := filter _ (bo_events body)) in Hrep. assert (item ∈ items) as Hitem by by apply list_elem_of_filter.
  destruct (insert_all_rows now (bo_runId body) auth items d item Hi Hitem) as (e & m & Hrow & Hnew).
  destruct (_ || _); [|done]. injection Hrep as <-. exists e, m. split; [done|]. intros Hf. destruct (Hnew Hf) as (item' & Hin' & Hrest).
  apply list_elem_of_filter in Hin' as [_ Hin']. by exists item'.
Qed.

(** C11: A use that a sandbox reports and the platform bills is charged exactly once. Once a
    report is accepted, whatever reports, settlements and unrelated writes follow it, the next
    periodic settlement leaves exactly one row under the use's idempotency key (uuids compared
    without case). If no row had that key before the report, the row is of an item of the report
    and belongs to the run of the report and the user and organization of the token. The row is
    charged at the prices of the moment if it was pending, and is not touched otherwise; from
    then on no delivery and no settlement changes it. *)
Theorem usage_charged_once now authorization body auth item stripe now' d d1 d2 :
  LedgerInv d -> usageEvent now authorization body d = (Success, d1) ->
  getSandboxAuthForRun now (bo_runId body) authorization = Some auth ->
  item ∈ bo_events body -> billable (run_provider body d) item = true -> rtc ustep d1 d2 ->
  let key := uuid_value (it_idempotencyKey item) in
  let d3 := (processStaleUsageEvents collate locale stripe now' d2).2 in
  exists e2 e m, row_with key e2 m d2 /\ row_with key e m d3 /\ (forall e' m', row_with key e' m' d3 -> e' = e /\ m' = m) /\
    e = (if bool_decide (e_status e2 = EvPending) then settled now' (pricing (ledger d2)) e2 else e2) /\
    e_status e = EvProcessed /\ is_Some (e_creditsCharged e) /\
    (forall d4, rtc ustep d3 d4 -> row_with key e m d4) /\
    (has_key key d = false -> exists item', item' ∈ bo_events body /\ uuid_value (it_idempotencyKey item') = key /\
       e_runId e = Some (bo_runId body) /\ e_orgId e = sa_orgId auth /\ e_kind e = it_kind item' /\ e_provider e = it_provider item' /\
       e_category e = it_category item' /\ e_quantity e = it_quantity item' /\ em_userId m = sa_userId auth /\ em_createdAt m = now).
Proof.
  intros Hi Hrep Hauth Hin Hbill Hr key d3. destruct (accepted_row now authorization body auth item d d1 Hi Hrep Hauth Hin Hbill) as (Hi1 & e1 & m & Hrow1 & Hnew).
  destruct (ledger_row_later key e1 m d1 d2 Hi1 Hrow1 Hr) as (e2 & Hrow2 & Hrep2 & _). destruct (usteps_keep d1 d2 Hi1 Hr) as [Hi2 _].
  destruct (settled_row stripe now' d2 key e2 m Hi2 Hrow2) as (Hi3 & e & Hrow3 & He & Hs & Hc & Hrep3). fold d3 in Hi3, Hrow3.
  exists e2, e, m. split_and!; [done|done| |done|done|done| |].
  - intros e' m' Hrow'. by apply (row_unique key e' m' e m d3).
  - intros d4 Hr4. destruct (ledger_row_later key e m d3 d4 Hi3 Hrow3 Hr4) as (e4 & Hrow4 & _ & Heq). by rewrite (Heq Hs) in Hrow4.
  - intros Hfresh. destruct (Hnew Hfresh) as (item' & Hit & Hk & H1 & H2 & H3 & H4 & H5 & H6 & H7 & H8). exists item'.
    rewrite Hrep2 in Hrep3. injection Hrep3 as _ R1 R2 R3 R4 R5 R6. split_and!; first [exact Hit|exact Hk|congruence].
Qed.

End Traces.

(** ** The usage message *)

Section Messages.
Context (collate locale : jsstr -> jsstr -> bool).

Lemma breakdown_adds_up l : (forall e, e ∈ l -> 0 <= event_credits e) ->
  sum_of kb_credits (buildUsageBreakdown (breakdown_rows collate l)) = sum_of event_credits l.
Proof.
  intros Hpos. unfold buildUsageBreakdown. rewrite sum_of_fmap. cbn [kb_credits].
  rewrite (sum_of_ext _ (fun g => sum_of (fun r => Z.max 0 (br_credits r)) g.2)) by (intros g _; rewrite sum_of_fmap; done).
  rewrite sum_group_by. unfold breakdown_rows. rewrite sum_of_fmap. cbn [br_credits].
  rewrite (sum_of_perm _ _ _ (sort_stable_perm _ _)), <- (sum_group_by (fun e => (e_kind e, e_provider e))).
  apply sum_of_ext. intros [k xs] (_ & ->)%elem_of_group_by. cbn [snd]. apply Z.max_r, sum_of_nonneg. intros e He.
  apply Hpos. by apply list_elem_of_filter in He as [_ He].
Qed.

Lemma not_pending_all l : (0 <? length (pending_events l))%nat = false -> processed_events l = l.
Proof.
  intros Hl%Nat.ltb_ge. assert (pending_events l = []) as Hn by (destruct (pending_events l); cbn in Hl; [done|lia]).
  unfold processed_events, pending_events in *. clear Hl. induction l as [|e l IH]; [done|]. rewrite filter_cons in Hn.
  destruct (decide (e_status e = EvPending)) as [Hp|Hp]; [done|]. rewrite filter_cons_True; [by rewrite IH|]. by destruct (e_status e).
Qed.

(** What an emission means. *)
Lemma emitted runId d d1 : maybeEmitRunUsageMessage collate locale runId d = (true, d1) ->
  exists run zr threadId userId, agentRuns d !! runId = Some run /\ zeroRuns d !! runId = Some zr /\ ag_status run ∈ TERMINAL_RUN_STATUSES /\
    usage_thread zr d = Some (threadId, userId) /\ processed_events (run_events runId d) = run_events runId d /\ run_events runId d <> [] /\
    existsb (fun message => usageMessageMatchesPayload locale message (usage_payload collate run (run_events runId d) d))
      (filter (fun message => um_runId message = runId) (usageMessages d)) = false /\
    d1 = emit_message threadId userId runId (usage_payload collate run (run_events runId d) d) d.
Proof.
  unfold maybeEmitRunUsageMessage. destruct (agentRuns d !! runId) as [run|] eqn:Er; [|done]. destruct (zeroRuns d !! runId) as [zr|] eqn:Ez; [|done].
  destruct (bool_decide_reflect (ag_status run ∈ TERMINAL_RUN_STATUSES)) as [Ht|]; cbn [negb]; [|done].
  destruct (usage_thread zr d) as [[threadId userId]|] eqn:Eu; [|done]. cbv zeta. destruct (_ || _) eqn:Ep; [done|].
  apply orb_false_iff in Ep as [Hp%not_pending_all Hl]. rewrite Hp in *. destruct (existsb _ _) eqn:Em; [done|]. intros [= <-].
  exists run, zr, threadId, userId. split_and!; try done. intros Hnil. by rewrite Hnil in Hl.
Qed.

(** C33: The usage message of a chat is complete, adds up and is sent once. A message is added
    only for a run that has ended, with a thread, and only when every use of the run is settled;
    its total is what all the uses of the run were charged. When no charge is negative, as with
    prices that are not, the parts of the breakdown add up to the total; each part is the sum of its providers. The same state never emits
    it again, and no message is changed. *)
Theorem usage_message_once runId d d1 : maybeEmitRunUsageMessage collate locale runId d = (true, d1) ->
  (exists message run zr userId,
     usageMessages d1 = usageMessages d ++ [message] /\ um_runId message = runId /\
     agentRuns d !! runId = Some run /\ ag_status run ∈ TERMINAL_RUN_STATUSES /\ zeroRuns d !! runId = Some zr /\
     usage_thread zr d = Some (um_chatThreadId message, userId) /\
     signals d1 = signals d ++ [(userId, js "chatThreadMessageCreated:" ++ um_chatThreadId message)] /\
     run_events runId d <> [] /\ (forall e, e ∈ events (ledger d) -> e_runId e = Some runId -> e_status e = EvProcessed) /\
     up_totalCredits (um_payload message) = Z.max 0 (sum_of event_credits (run_events runId d)) /\
     ((forall e, e ∈ run_events runId d -> 0 <= event_credits e) ->
        sum_of kb_credits (up_breakdown (um_payload message)) = up_totalCredits (um_payload message)) /\
     (forall k, k ∈ up_breakdown (um_payload message) -> kb_credits k = sum_of pb_credits (kb_providers k))) /\
  maybeEmitRunUsageMessage collate locale runId d1 = (false, d1).
Proof.
  intros (run & zr & threadId & userId & Er & Ez & Ht & Eu & Hp & Hne & Hm & Hd1)%emitted. split.
  - eexists _, run, zr, userId. rewrite Hd1. split_and!; [reflexivity|reflexivity|done|done|done|done|reflexivity|done| |reflexivity| |].
    + intros e He Hr. assert (e ∈ processed_events (run_events runId d)) as Hin by (rewrite Hp; by apply list_elem_of_filter).
      by apply list_elem_of_filter in Hin as [Hs _].
    + intros Hpos. cbn [um_payload usage_payload up_breakdown up_totalCredits]. rewrite (breakdown_adds_up _ Hpos). symmetry. by apply Z.max_r, sum_of_nonneg.
    + intros k (g & -> & _)%list_elem_of_fmap. reflexivity.
  - assert (run_events runId d1 = run_events runId d) as Hre by by rewrite Hd1. unfold maybeEmitRunUsageMessage.
    rewrite Hre, Hp. assert (agentRuns d1 = agentRuns d /\ zeroRuns d1 = zeroRuns d /\ usage_thread zr d1 = usage_thread zr d) as (-> & -> & Hu) by by rewrite Hd1.
    rewrite Er, Ez, Hu, Eu, (bool_decide_eq_true_2 _ Ht). cbn [negb]. destruct (_ || _); [done|].
    assert (usage_payload collate run (run_events runId d) d1 = usage_payload collate run (run_events runId d) d) as -> by by rewrite Hd1.
    rewrite Hd1 at 1. cbn [usageMessages emit_message]. rewrite filter_app, existsb_app. cbn [um_runId].
    rewrite filter_cons_True by done. cbn [existsb]. unfold usageMessageMatchesPayload at 2. cbn [um_createdAt]. rewrite Z.eqb_refl.
    cbn [orb]. by rewrite orb_true_r.
Qed.

End Messages.

(** ** A run that reports and settles *)

#[local] Existing Instance sample_runtime.

Definition sample_text (a b : jsstr) : bool := (length a <? length b)%nat.

Definition sample_usage_db : UsageDb :=
  {| ledger := with_events (fun _ => []) (sample_store 500); meta := ∅; observations := [];
     agentRuns := {[js "run_1" := {| ag_userId := js "user_1"; ag_orgId := js "o"; ag_prompt := js "p"; ag_status := Completed; ag_createdAt := 10;
                                     ag_startedAt := None; ag_completedAt := Some 20 |}]};
     zeroRuns := {[js "run_1" := {| zr_triggerSource := js "web"; zr_automationId := None; zr_modelProvider := None; zr_selectedModel := None;
                                    zr_chatThreadId := Some (js "t"); zr_summary := None |}]};
     chatThreads := {[js "t" := {| ct_userId := js "user_1"; ct_title := None |}]}; usageMessages := []; signals := [] |}.

Definition sample_item : UsageItem :=
  {| it_idempotencyKey := js "0B0E7A46-9A5A-4C59-8C4D-0A55F3C1D6E2"; it_kind := js "model"; it_provider := js "m"; it_category := js "tokens";
     it_quantity := 2000 |}.

Definition sample_report : UsageBody := {| bo_runId := js "run_1"; bo_events := [sample_item] |}.

Definition sample_header : option jsstr :=
  Some (js "Bearer " ++ SANDBOX_TOKEN_PREFIX ++ signJwt (SandboxPayload (js "user_1") (js "run_1") (js "o") 1000 8200)).

Lemma sample_ledger_inv : LedgerInv sample_usage_db.
Proof. split; cbn; [constructor|by intros e He%elem_of_nil|by intros id m Hm|by intros id m id' m' Hm|by intros e He%elem_of_nil]. Qed.

Lemma sample_report_accepted :
  usageEvent 2000000 sample_header sample_report sample_usage_db = (Success, (usageEvent 2000000 sample_header sample_report sample_usage_db).2).
Proof. vm_compute. reflexivity. Qed.

Lemma sample_report_auth :
  getSandboxAuthForRun 2000000 (js "run_1") sample_header = Some {| sa_userId := js "user_1"; sa_runId := js "run_1"; sa_orgId := js "o" |}.
Proof. vm_compute. reflexivity. Qed.

Lemma usage_charged_once_witness :
  exists e m, row_with (js "0b0e7a46-9a5a-4c59-8c4d-0a55f3c1d6e2") e m
    (processStaleUsageEvents sample_text sample_text sample_stripe 2000100 (usageEvent 2000000 sample_header sample_report sample_usage_db).2).2 /\
    e_status e = EvProcessed /\ e_orgId e = js "o" /\ em_userId m = js "user_1".
Proof.
  destruct (usage_charged_once sample_text sample_text 2000000 sample_header sample_report _ sample_item sample_stripe 2000100 sample_usage_db _ _
    sample_ledger_inv sample_report_accepted sample_report_auth ltac:(by apply list_elem_of_singleton) eq_refl (rtc_refl _ _))
    as (e2 & e & m & _ & Hrow & _ & _ & Hs & _ & _ & Hnew).
  exists e, m. destruct Hnew as (item & _ & _ & _ & Ho & _ & _ & _ & _ & Hu & _); [vm_compute; reflexivity|].
  split; [exact Hrow|]. split; [exact Hs|]. split; [exact Ho|exact Hu].
Defined.

Definition sample_settled_db : UsageDb :=
  with_ledger (processOrgUsageEvents sample_stripe 2000100 (js "o")) (usageEvent 2000000 sample_header sample_report sample_usage_db).2.

Lemma sample_emits : maybeEmitRunUsageMessage sample_text sample_text (js "run_1") sample_settled_db =
  (true, (maybeEmitRunUsageMessage sample_text sample_text (js "run_1") sample_settled_db).2).
Proof. vm_compute. reflexivity. Qed.

Lemma usage_message_once_witness :
  exists message, usageMessages (maybeEmitRunUsageMessage sample_text sample_text (js "run_1") sample_settled_db).2 = [] ++ [message] /\
    up_totalCredits (um_payload message) = 60.
Proof.
  destruct (usage_message_once sample_text sample_text (js "run_1") sample_settled_db _ sample_emits)
    as [(message & run & zr & userId & Hm & _ & _ & _ & _ & _ & _ & _ & _ & Ht & _) _].
  exists message. split; [exact Hm|]. etransitivity; [exact Ht|]. vm_compute. reflexivity.
Defined.

End UsageLedger.
