(* ===== verification/UsageSummary.v ===== *)
(** The daily usage of a user (turbo/apps/api/src/signals/services/usage.service.ts,
    cron-aggregate-usage.service.ts, routes/usage.ts): the days already counted are kept in
    [usage_daily], the others are counted from the runs. The theorems compare the two. *)

From Stdlib Require Import Sorted.
From S2P Require Import Prelude JsString JsValue JsRecord Aggregates RunStore Tokens UsageIntake.
Import Aggregates RunStore Tokens UsageIntake.

Module UsageSummary.

Definition MS_PER_DAY : Z := 86400000.

(** Calendar dates, of the database and of [toISOString], as numbers of days. *)
Definition date_of (ms : Z) : Z := ms / MS_PER_DAY.

Definition utcMidnight (ms : Z) : Z := date_of ms * MS_PER_DAY.

Record DailyUsage := { du_date : Z; du_run_count : Z; du_run_time_ms : Z }.

#[export] Instance daily_usage_eq_dec : EqDecision DailyUsage.
Proof. solve_decision. Defined.

(** [usage_daily], under its unique index; the runs. *)
Record SummaryDb := { sd_runs : gmap jsstr AgentRun; sd_usageDaily : gmap (jsstr * jsstr * Z) (Z * Z) }.

Record UsageSummaryArgs := { ua_userId : jsstr; ua_orgId : jsstr; ua_now : Z; ua_startDate : Z; ua_endDate : Z }.

Definition all_runs (d : SummaryDb) : list AgentRun := (map_to_list (sd_runs d)).*2.

(** [SUM] skips a run that never started. *)
Definition run_time (run : AgentRun) : Z :=
  match ag_completedAt run, ag_startedAt run with Some completed, Some started => completed - started | _, _ => 0 end.

Definition daily_row (g : Z * list AgentRun) : DailyUsage :=
  {| du_date := g.1; du_run_count := Z.of_nat (length g.2); du_run_time_ms := sum_of run_time g.2 |}.

Definition counted (userId orgId : jsstr) (from to : Z) (run : AgentRun) : Prop :=
  ag_userId run = userId /\ ag_orgId run = orgId /\ from <= ag_createdAt run < to /\ is_Some (ag_completedAt run).

#[export] Instance counted_decision userId orgId from to run : Decision (counted userId orgId from to run).
Proof. unfold counted. apply _. Defined.

Definition queryAgentRunsDaily (d : SummaryDb) (userId orgId : jsstr) (from to : Z) : list DailyUsage :=
  if to <=? from then []
  else daily_row <$> group_by (fun run => date_of (ag_createdAt run)) (filter (counted userId orgId from to) (all_runs d)).

Definition cacheUsageRows (args : UsageSummaryArgs) (rows : list DailyUsage) (d : SummaryDb) : SummaryDb :=
  {| sd_runs := sd_runs d;
     sd_usageDaily := foldl (fun m row => <[(ua_userId args, ua_orgId args, du_date row) := (du_run_count row, du_run_time_ms row)]> m)
       (sd_usageDaily d) rows |}.

Definition cached_rows (args : UsageSummaryArgs) (from to : Z) (d : SummaryDb) : list DailyUsage :=
  omap (fun kv => let '((userId, orgId, date), (count, time)) := kv in
    if bool_decide (userId = ua_userId args) && bool_decide (orgId = ua_orgId args) && (from <=? date) && (date <? to)
    then Some {| du_date := date; du_run_count := count; du_run_time_ms := time |} else None) (map_to_list (sd_usageDaily d)).

(** The rows it appends, and the database after it. *)
Definition appendHistoricalUsage (args : UsageSummaryArgs) (historicalFrom historicalTo : Z) (d : SummaryDb) : list DailyUsage * SummaryDb :=
  let cachedRows := cached_rows args (date_of historicalFrom) (date_of historicalTo) d in
  let cachedDates := distinct (du_date <$> cachedRows) in
  let totalDays := (historicalTo - historicalFrom) / MS_PER_DAY in
  if totalDays <=? Z.of_nat (length cachedDates) then (cachedRows, d)
  else
    let computedRows := queryAgentRunsDaily d (ua_userId args) (ua_orgId args) historicalFrom historicalTo in
    let uncachedRows := filter (fun row => du_date row ∉ cachedDates) computedRows in
    (cachedRows ++ uncachedRows, if (0 <? length uncachedRows)%nat then cacheUsageRows args uncachedRows d else d).

Record UsageResponse := { ur_start : Z; ur_end : Z; ur_totalRuns : Z; ur_totalRunTimeMs : Z; ur_daily : list DailyUsage }.

Definition summarizeUsage (args : UsageSummaryArgs) (daily : list DailyUsage) : UsageResponse :=
  let daily := sort_stable (fun a b => du_date b <? du_date a) daily in
  {| ur_start := ua_startDate args; ur_end := ua_endDate args; ur_totalRuns := sum_of du_run_count daily;
     ur_totalRunTimeMs := sum_of du_run_time_ms daily; ur_daily := daily |}.

Definition historical_from (startDate : Z) : Z :=
  if startDate =? utcMidnight startDate then utcMidnight startDate else utcMidnight startDate + MS_PER_DAY.

Definition historical_to (now endDate : Z) : Z :=
  if utcMidnight endDate <? utcMidnight now then utcMidnight endDate else utcMidnight now.

Definition usageSummary (args : UsageSummaryArgs) (d : SummaryDb) : UsageResponse * SummaryDb :=
  let historicalFrom := historical_from (ua_startDate args) in
  let historicalTo := historical_to (ua_now args) (ua_endDate args) in
  let append from to := queryAgentRunsDaily d (ua_userId args) (ua_orgId args) from to in
  if historicalTo <=? historicalFrom
  then (summarizeUsage args (append (ua_startDate args) (ua_endDate args)), d)
  else
    let '(historical, d') := appendHistoricalUsage args historicalFrom historicalTo d in
    (summarizeUsage args (append (ua_startDate args) historicalFrom ++ historical ++ append historicalTo (ua_endDate args)), d').

(** The periodic count of the day before, for every user. *)
Definition aggregateUsageDaily (now : Z) (d : SummaryDb) : (Z * nat) * SummaryDb :=
  let today := utcMidnight now in
  let yesterday := today - MS_PER_DAY in
  let targetDate := date_of yesterday in
  let groups := group_by (fun run => (ag_userId run, ag_orgId run))
    (filter (fun run => yesterday <= ag_createdAt run < today /\ is_Some (ag_completedAt run)) (all_runs d)) in
  ((targetDate, length groups),
   {| sd_runs := sd_runs d;
      sd_usageDaily := foldl (fun m g => <[(g.1.1, g.1.2, targetDate) := (Z.of_nat (length g.2), sum_of run_time g.2)]> m)
        (sd_usageDaily d) groups |}).

(** ** The request (routes/usage.ts) *)

Definition MAX_RANGE_MS : Z := 30 * 24 * 60 * 60 * 1000.
Definition DEFAULT_RANGE_MS : Z := 7 * 24 * 60 * 60 * 1000.

Inductive SummaryReply := BadRequest (message : jsstr) | UsageOk (response : UsageResponse).

(** [parseDateParam]: the time a text denotes. *)
Definition getUsage (parseDateParam : jsstr -> option Z) (now : Z) (userId orgId : jsstr) (start_date end_date : option jsstr) (d : SummaryDb) :
    SummaryReply * SummaryDb :=
  match (match truthy_text end_date with Some v => parseDateParam v | None => Some now end) with
  | None => (BadRequest (js "Invalid end_date format. Use ISO 8601 format."), d)
  | Some endDate =>
      match (match truthy_text start_date with Some v => parseDateParam v | None => Some (endDate - DEFAULT_RANGE_MS) end) with
      | None => (BadRequest (js "Invalid start_date format. Use ISO 8601 format."), d)
      | Some startDate =>
          if endDate <=? startDate then (BadRequest (js "start_date must be before end_date"), d)
          else if MAX_RANGE_MS <? endDate - startDate
          then (BadRequest (js "Time range exceeds maximum of 30 days. Use --until to specify an end date."), d)
          else
            let '(body, d') := usageSummary {| ua_userId := userId; ua_orgId := orgId; ua_now := now; ua_startDate := startDate; ua_endDate := endDate |} d in
            (UsageOk body, d')
      end
  end.

(** ** What a day counts *)

#[local] Ltac dates := unfold counted, date_of, MS_PER_DAY in *; Z.to_euclidean_division_equations; lia.

Lemma date_of_lt ms day : date_of ms < day <-> ms < day * MS_PER_DAY.
Proof. dates. Qed.

(** The runs a row of a query counts. *)
Definition day_runs (d : SummaryDb) (userId orgId : jsstr) (from to day : Z) : list AgentRun :=
  filter (fun run => date_of (ag_createdAt run) = day /\ counted userId orgId from to run) (all_runs d).

Lemma elem_of_query d u o from to r : r ∈ queryAgentRunsDaily d u o from to <->
  day_runs d u o from to (du_date r) <> [] /\ r = daily_row (du_date r, day_runs d u o from to (du_date r)).
Proof.
  unfold queryAgentRunsDaily. destruct (to <=? from) eqn:E.
  - split; [by intros H%elem_of_nil|]. intros [Hne _]. destruct Hne. apply filter_nil_iff. intros run _ (_ & _ & _ & Hr & _). lia.
  - rewrite list_elem_of_fmap. split.
    + intros ([k xs] & -> & Hg). apply elem_of_group_by in Hg as [Hk ->]. cbn [du_date daily_row fst]. unfold day_runs. rewrite list_filter_filter.
      split; [|done]. apply list_elem_of_fmap in Hk as (run & -> & Hrun%list_elem_of_filter). intros Hnil. rewrite filter_nil_iff in Hnil.
      destruct Hrun as [Hc Hin]. by destruct (Hnil run Hin).
    + intros [Hne ->]. set (k := du_date r) in *. eexists (k, _). split; [reflexivity|]. apply elem_of_group_by. unfold day_runs in *.
      rewrite list_filter_filter. split; [|done]. destruct (filter _ (all_runs d)) as [|run l] eqn:Ef; [done|].
      assert (run ∈ run :: l) as Hin by (apply elem_of_cons; by left). rewrite <- Ef in Hin. apply list_elem_of_filter in Hin as [[<- Hc] Hin].
      apply list_elem_of_fmap. exists run. split; [done|]. by apply list_elem_of_filter.
Qed.

Lemma NoDup_query_dates d u o from to : NoDup (du_date <$> queryAgentRunsDaily d u o from to).
Proof.
  unfold queryAgentRunsDaily. destruct (to <=? from); [constructor|]. rewrite <- list_fmap_compose.
  rewrite (list_fmap_ext _ fst) by done. rewrite group_by_keys. apply NoDup_distinct.
Qed.

Lemma NoDup_query d u o from to : NoDup (queryAgentRunsDaily d u o from to).
Proof. apply (NoDup_fmap_1 du_date), NoDup_query_dates. Qed.

(** A row is of a day of the period. *)
Lemma query_date d u o from to r : r ∈ queryAgentRunsDaily d u o from to -> date_of from <= du_date r /\ du_date r * MS_PER_DAY < to.
Proof.
  intros [Hne _]%elem_of_query. destruct (day_runs d u o from to (du_date r)) as [|run l] eqn:Ef; [done|].
  assert (run ∈ run :: l) as Hin by (apply elem_of_cons; by left). rewrite <- Ef in Hin.
  apply list_elem_of_filter in Hin as [(Hd & _ & _ & Hr & _) _]. revert Hd Hr. dates.
Qed.

(** The runs of a day do not depend on the rest of the period. *)
Lemma day_runs_within d u o from to from' to' day :
  Z.max from (day * MS_PER_DAY) = Z.max from' (day * MS_PER_DAY) -> Z.min to ((day + 1) * MS_PER_DAY) = Z.min to' ((day + 1) * MS_PER_DAY) ->
  day_runs d u o from to day = day_runs d u o from' to' day.
Proof.
  intros Hf Ht. unfold day_runs. apply list_filter_iff. intros run. unfold counted, date_of, MS_PER_DAY in *. split; intros (Hd & Hu & Ho & Hr & Hc);
    (split_and!; [done|done|done|dates|dates|done]).
Qed.

(** A cut at midnight separates the rows. *)
Lemma query_split d u o from cut to : from <= cut * MS_PER_DAY <= to ->
  queryAgentRunsDaily d u o from to ≡ₚ queryAgentRunsDaily d u o from (cut * MS_PER_DAY) ++ queryAgentRunsDaily d u o (cut * MS_PER_DAY) to.
Proof.
  intros Hc. apply NoDup_Permutation; [apply NoDup_query| |].
  - apply NoDup_app. split_and!; [apply NoDup_query| |apply NoDup_query]. intros r [_ H1]%query_date [H2 _]%query_date.
    revert H1 H2. dates.
  - intros r. rewrite elem_of_app. destruct (decide (du_date r < cut)) as [Hlt|Hge].
    + assert (r ∉ queryAgentRunsDaily d u o (cut * MS_PER_DAY) to) as Hno by (intros [H _]%query_date; revert H; dates).
      rewrite !elem_of_query in *. rewrite (day_runs_within d u o from to from (cut * MS_PER_DAY)); [naive_solver|done|].
      dates.
    + assert (r ∉ queryAgentRunsDaily d u o from (cut * MS_PER_DAY)) as Hno by (intros [_ H]%query_date; revert H; dates).
      rewrite !elem_of_query in *. rewrite (day_runs_within d u o from to (cut * MS_PER_DAY) to); [naive_solver| |done].
      dates.
Qed.

(** *** The kept days *)

(** A kept day counts its runs as the database has them now. *)
Definition kept_rows (d : SummaryDb) (m : gmap (jsstr * jsstr * Z) (Z * Z)) : Prop :=
  forall userId orgId date count time, m !! (userId, orgId, date) = Some (count, time) ->
    {| du_date := date; du_run_count := count; du_run_time_ms := time |} ∈
      queryAgentRunsDaily d userId orgId (date * MS_PER_DAY) ((date + 1) * MS_PER_DAY).

Definition CacheOk (d : SummaryDb) : Prop := kept_rows d (sd_usageDaily d).

Lemma query_days d u o from to r : r ∈ queryAgentRunsDaily d u o (from * MS_PER_DAY) (to * MS_PER_DAY) <->
  from <= du_date r < to /\ r ∈ queryAgentRunsDaily d u o (du_date r * MS_PER_DAY) ((du_date r + 1) * MS_PER_DAY).
Proof.
  split.
  - intros Hr. assert (from <= du_date r < to) as Hd by (destruct (query_date _ _ _ _ _ _ Hr) as [H1 H2]; revert H1 H2; dates).
    split; [done|]. rewrite elem_of_query in *. rewrite <- (day_runs_within d u o (from * MS_PER_DAY) (to * MS_PER_DAY)); [done|..]; dates.
  - intros [Hd Hr]. rewrite elem_of_query in *. rewrite (day_runs_within d u o _ _ (du_date r * MS_PER_DAY) ((du_date r + 1) * MS_PER_DAY)); [done|..]; dates.
Qed.

Lemma elem_of_cached args from to d r : r ∈ cached_rows args from to d <->
  from <= du_date r < to /\ sd_usageDaily d !! (ua_userId args, ua_orgId args, du_date r) = Some (du_run_count r, du_run_time_ms r).
Proof.
  unfold cached_rows. rewrite list_elem_of_omap. split.
  - intros ([[[u o] date] [c t]] & Hin%elem_of_map_to_list & Hr). destruct (_ && _) eqn:E; [|done]. injection Hr as <-.
    apply andb_true_iff in E as [[[Hu Ho]%andb_true_iff Hf]%andb_true_iff Ht]. apply bool_decide_eq_true in Hu, Ho. subst u o. cbn. split; [lia|done].
  - intros [Hd Hl]. exists ((ua_userId args, ua_orgId args, du_date r), (du_run_count r, du_run_time_ms r)). split; [by apply elem_of_map_to_list|].
    rewrite !bool_decide_eq_true_2 by done. rewrite (proj2 (Z.leb_le _ _)), (proj2 (Z.ltb_lt _ _)) by lia. by destruct r.
Qed.

Lemma NoDup_cached args from to d : NoDup (du_date <$> cached_rows args from to d).
Proof.
  apply NoDup_fmap_2_strong.
  - intros [x1 x2 x3] [y1 y2 y3] [_ Hx]%elem_of_cached [_ Hy]%elem_of_cached Heq. cbn in *. congruence.
  - unfold cached_rows. apply NoDup_omap_strong; [|apply NoDup_map_to_list]. intros [[[u o] date] [c t]] [[[u' o'] date'] [c' t']] r _ _ Hx Hy.
    destruct (_ && _) eqn:E; [|done]. injection Hx as <-. destruct (bool_decide (u' = _) && _ && _ && _) eqn:E'; [|done]. injection Hy as -> -> ->.
    apply andb_true_iff in E as [[[Hu%bool_decide_eq_true Ho%bool_decide_eq_true]%andb_true_iff _]%andb_true_iff _].
    apply andb_true_iff in E' as [[[Hu'%bool_decide_eq_true Ho'%bool_decide_eq_true]%andb_true_iff _]%andb_true_iff _]. congruence.
Qed.

(** A list without duplicates of as many days as there are has every day. *)
Lemma all_days (l : list Z) from to day : NoDup l -> (forall x, x ∈ l -> from <= x < to) -> to - from <= Z.of_nat (length l) -> from <= day < to -> day ∈ l.
Proof.
  intros Hnd Hin Hlen Hday. assert (l ≡ₚ seqZ from (to - from)) as ->; [|apply elem_of_seqZ; lia].
  apply submseteq_length_Permutation; [|rewrite length_seqZ; lia]. apply NoDup_submseteq; [done|]. intros x Hx%Hin. apply elem_of_seqZ. lia.
Qed.

(** The kept and the counted rows are the rows of the query. *)
Lemma historical_rows args from to d : CacheOk d -> from < to ->
  (appendHistoricalUsage args (from * MS_PER_DAY) (to * MS_PER_DAY) d).1 ≡ₚ
    queryAgentRunsDaily d (ua_userId args) (ua_orgId args) (from * MS_PER_DAY) (to * MS_PER_DAY).
Proof.
  intros Hok Hft. unfold appendHistoricalUsage. assert (forall x, date_of (x * MS_PER_DAY) = x) as Hdate by (intros x; unfold date_of; by apply Z.div_mul).
  rewrite !Hdate. set (query := queryAgentRunsDaily d _ _ _ _). set (cached := cached_rows args from to d).
  replace ((to * MS_PER_DAY - from * MS_PER_DAY) / MS_PER_DAY) with (to - from) by (rewrite <- Z.mul_sub_distr_r; symmetry; by apply Z.div_mul).
  assert (forall r, r ∈ cached -> r ∈ query) as Hsub.
  { intros r [Hd Hl]%elem_of_cached. apply query_days. split; [done|]. specialize (Hok _ _ _ _ _ Hl). by destruct r. }
  assert (forall r, r ∈ query -> du_date r ∈ distinct (du_date <$> cached) -> r ∈ cached) as Hhit.
  { intros r Hr (r' & Heq & Hr')%elem_of_distinct%list_elem_of_fmap. assert (r = r') as ->; [|done].
    apply Hsub, elem_of_query in Hr' as [_ ->]. apply elem_of_query in Hr as [_ ->]. cbn [du_date daily_row fst] in Heq. by rewrite Heq. }
  assert (NoDup cached) as Hnd by apply (NoDup_fmap_1 du_date), NoDup_cached.
  destruct (_ <=? _) eqn:E; cbn [fst].
  - apply NoDup_Permutation; [done|apply NoDup_query|]. intros r. split; [apply Hsub|]. intros Hr. apply Hhit; [done|].
    apply (all_days _ from to); [apply NoDup_distinct| |lia|by apply query_days in Hr as [Hr _]].
    intros x (r' & -> & [Hd _]%elem_of_cached)%elem_of_distinct%list_elem_of_fmap. done.
  - apply NoDup_Permutation; [|apply NoDup_query|].
    + apply NoDup_app. split_and!; [done| |apply NoDup_filter, NoDup_query]. intros r Hr [Hno _]%list_elem_of_filter. apply Hno.
      apply elem_of_distinct, list_elem_of_fmap_2, Hr.
    + intros r. rewrite elem_of_app, list_elem_of_filter. split; [intros [Hr|[_ Hr]]; [by apply Hsub|done]|]. intros Hr.
      destruct (decide (du_date r ∈ distinct (du_date <$> cached))) as [Hd|Hd]; [left; by apply Hhit|by right].
Qed.

(** Rows of queries can be kept. *)
Lemma kept_inserts {A} d (key : A -> jsstr * jsstr) (row : A -> DailyUsage) (l : list A) m : kept_rows d m ->
  (forall x, x ∈ l -> row x ∈ queryAgentRunsDaily d (key x).1 (key x).2 (du_date (row x) * MS_PER_DAY) ((du_date (row x) + 1) * MS_PER_DAY)) ->
  kept_rows d (foldl (fun m x => <[((key x).1, (key x).2, du_date (row x)) := (du_run_count (row x), du_run_time_ms (row x))]> m) m l).
Proof.
  revert m. induction l as [|x l IH]; intros m Hm Hl; [done|]. cbn [foldl]. apply IH; [|set_solver].
  intros u o date c t [[Heq Hv]|[_ Hm']]%lookup_insert_Some; [|by apply Hm]. injection Heq as <- <- <-. injection Hv as <- <-.
  specialize (Hl x ltac:(set_solver)). by destruct (row x).
Qed.

Lemma cache_rows_ok args from to rows d : CacheOk d ->
  (forall r, r ∈ rows -> r ∈ queryAgentRunsDaily d (ua_userId args) (ua_orgId args) (from * MS_PER_DAY) (to * MS_PER_DAY)) ->
  CacheOk (cacheUsageRows args rows d).
Proof.
  intros Hok Hrows. apply (kept_inserts d (fun _ => (ua_userId args, ua_orgId args)) id); [done|]. intros r Hr%Hrows. by apply query_days in Hr as [_ Hr].
Qed.

Lemma historical_cache_ok args from to d : CacheOk d ->
  CacheOk (appendHistoricalUsage args (from * MS_PER_DAY) (to * MS_PER_DAY) d).2 /\
  sd_runs (appendHistoricalUsage args (from * MS_PER_DAY) (to * MS_PER_DAY) d).2 = sd_runs d.
Proof.
  intros Hok. unfold appendHistoricalUsage. cbv zeta. destruct (_ <=? _); [done|]. cbn [snd]. destruct (0 <? _)%nat; [|done]. split; [|done].
  apply (cache_rows_ok args from to); [done|]. by intros r [_ Hr]%list_elem_of_filter.
Qed.

(** The periodic count keeps what the queries count. *)
Lemma aggregate_cache_ok now d : CacheOk d -> CacheOk (aggregateUsageDaily now d).2 /\ sd_runs (aggregateUsageDaily now d).2 = sd_runs d.
Proof.
  intros Hok. split; [|done]. set (date := date_of (utcMidnight now - MS_PER_DAY)).
  apply (kept_inserts d fst (fun g => daily_row (date, g.2))); [done|]. intros [[u o] xs] Hg.
  apply elem_of_group_by in Hg as [Hin ->]. cbn [fst snd daily_row du_date].
  assert (date * MS_PER_DAY = utcMidnight now - MS_PER_DAY /\ (date + 1) * MS_PER_DAY = utcMidnight now) as [-> ->] by (unfold date, utcMidnight; dates).
  assert (forall l : list AgentRun, filter (fun x => (ag_userId x, ag_orgId x) = (u, o)) (filter (fun run => utcMidnight now - MS_PER_DAY <= ag_createdAt run < utcMidnight now /\ is_Some (ag_completedAt run)) l) =
    filter (fun run => date_of (ag_createdAt run) = date /\ counted u o (utcMidnight now - MS_PER_DAY) (utcMidnight now) run) l) as Heq.
  { intros l. rewrite list_filter_filter. apply list_filter_iff. intros run. unfold counted. split.
    - intros ([= <- <-] & Hr & Hc). split_and!; [unfold date, utcMidnight in *; dates|done|done|apply Hr|apply Hr|done].
    - intros (_ & <- & <- & Hr & Hc). done. }
  apply elem_of_query. cbn [daily_row du_date fst snd]. unfold day_runs. rewrite <- Heq. split; [|done].
  apply list_elem_of_fmap in Hin as (run & Hk & Hrun). intros Hnil. rewrite filter_nil_iff in Hnil. by destruct (Hnil run Hrun).
Qed.

(** *** Totals *)

Lemma sum_of_ones {A} (l : list A) : sum_of (fun _ => 1) l = Z.of_nat (length l).
Proof. induction l as [|x l IH]; [done|]. rewrite sum_of_cons, IH. cbn [length]. lia. Qed.

Lemma query_sums (f : DailyUsage -> Z) (g : AgentRun -> Z) d u o from to : (forall k l, f (daily_row (k, l)) = sum_of g l) ->
  sum_of f (queryAgentRunsDaily d u o from to) = sum_of g (filter (counted u o from to) (all_runs d)).
Proof.
  intros Hfg. unfold queryAgentRunsDaily. destruct (to <=? from) eqn:E.
  - rewrite (proj2 (filter_nil_iff _ _)); [done|]. intros run _ (_ & _ & Hr & _). lia.
  - rewrite sum_of_fmap, <- (sum_group_by (fun run => date_of (ag_createdAt run))). apply sum_of_ext. intros [k l] _. apply Hfg.
Qed.

(** Numbers that do not increase and are distinct decrease. *)
Lemma Sorted_strict {A} (f : A -> Z) (l : list A) : NoDup (f <$> l) -> Sorted (fun a b => (f a <? f b) = false) l -> StronglySorted (fun a b => f b < f a) l.
Proof.
  intros Hnd Hs. apply Sorted_StronglySorted in Hs; [|intros x y z; lia]. induction Hs as [|x l Hs IH Hall]; [constructor|].
  rewrite fmap_cons in Hnd. apply NoDup_cons in Hnd as [Hni Hnd]. constructor; [by apply IH|]. apply Forall_forall. rewrite Forall_forall in Hall.
  intros y Hy. specialize (Hall y Hy). assert (f x <> f y); [|lia]. intros Heq. apply Hni. rewrite Heq. by apply list_elem_of_fmap_2.
Qed.

(** ** The response *)

Lemma historical_from_spec startDate : exists day, historical_from startDate = day * MS_PER_DAY /\ startDate <= day * MS_PER_DAY.
Proof.
  unfold historical_from, utcMidnight. destruct (_ =? _) eqn:E; [exists (date_of startDate)|exists (date_of startDate + 1)]; split; dates.
Qed.

Lemma historical_to_spec now endDate : exists day, historical_to now endDate = day * MS_PER_DAY /\ day * MS_PER_DAY <= endDate.
Proof. unfold historical_to, utcMidnight. destruct (_ <? _) eqn:E; eexists; (split; [reflexivity|]); dates. Qed.

Lemma summarize_spec args rows u o d : rows ≡ₚ queryAgentRunsDaily d u o (ua_startDate args) (ua_endDate args) ->
  let runs := filter (counted u o (ua_startDate args) (ua_endDate args)) (all_runs d) in
  let response := summarizeUsage args rows in
  ur_daily response ≡ₚ queryAgentRunsDaily d u o (ua_startDate args) (ua_endDate args) /\
  StronglySorted (fun a b => du_date b < du_date a) (ur_daily response) /\
  ur_totalRuns response = Z.of_nat (length runs) /\ ur_totalRunTimeMs response = sum_of run_time runs.
Proof.
  intros Hp runs response. assert (ur_daily response ≡ₚ queryAgentRunsDaily d u o (ua_startDate args) (ua_endDate args)) as Hd.
  { cbn [response summarizeUsage ur_daily]. by rewrite sort_stable_perm. }
  split_and!; [done| | |].
  - assert (NoDup (du_date <$> ur_daily response)) as Hnd by (rewrite Hd; apply NoDup_query_dates).
    apply (Sorted_strict du_date); [exact Hnd|]. apply sort_stable_sorted. intros x y. lia.
  - change (ur_totalRuns response) with (sum_of du_run_count (ur_daily response)). rewrite (sum_of_perm _ _ _ Hd), <- sum_of_ones.
    apply query_sums. intros k l. symmetry. apply sum_of_ones.
  - change (ur_totalRunTimeMs response) with (sum_of du_run_time_ms (ur_daily response)). rewrite (sum_of_perm _ _ _ Hd).
    by apply query_sums.
Qed.

(** C31: The daily usage of a user is exact whatever part of it was kept. When the kept days count
    the runs the database has, the days of the response are those of one query over the whole
    period, each once and latest first; the totals are the number and the time of the user's
    completed runs of the organization in the period. Answering keeps further days, and they
    count the runs too, as do the days the periodic count keeps. *)
Theorem usage_summary_exact args now d : CacheOk d ->
  let '(response, d') := usageSummary args d in
  let runs := filter (counted (ua_userId args) (ua_orgId args) (ua_startDate args) (ua_endDate args)) (all_runs d) in
  ur_daily response ≡ₚ queryAgentRunsDaily d (ua_userId args) (ua_orgId args) (ua_startDate args) (ua_endDate args) /\
  StronglySorted (fun a b => du_date b < du_date a) (ur_daily response) /\
  ur_totalRuns response = Z.of_nat (length runs) /\ ur_totalRunTimeMs response = sum_of run_time runs /\
  sd_runs d' = sd_runs d /\ CacheOk d' /\ CacheOk (aggregateUsageDaily now d').2.
Proof.
  intros Hok. unfold usageSummary. cbv zeta. destruct (historical_from_spec (ua_startDate args)) as (f & -> & Hf).
  destruct (historical_to_spec (ua_now args) (ua_endDate args)) as (t & -> & Ht). destruct (_ <=? _) eqn:E.
  - destruct (summarize_spec args _ (ua_userId args) (ua_orgId args) d (reflexivity _)) as (H1 & H2 & H3 & H4).
    split_and!; try done. by apply aggregate_cache_ok.
  - assert (f < t) as Hft by dates. pose proof (historical_rows args f t d Hok Hft) as Hh. destruct (historical_cache_ok args f t d Hok) as [Hok' Hruns].
    destruct (appendHistoricalUsage _ _ _ d) as [historical d'] eqn:Ea. cbn [fst snd] in *.
    destruct (summarize_spec args (queryAgentRunsDaily d (ua_userId args) (ua_orgId args) (ua_startDate args) (f * MS_PER_DAY) ++ historical ++
      queryAgentRunsDaily d (ua_userId args) (ua_orgId args) (t * MS_PER_DAY) (ua_endDate args)) (ua_userId args) (ua_orgId args) d) as (H1 & H2 & H3 & H4).
    { rewrite Hh, <- (query_split d _ _ (f * MS_PER_DAY) t) by dates. rewrite <- (query_split d _ _ _ f) by dates. done. }
    split_and!; try done. by apply aggregate_cache_ok.
Qed.

(** *** Runs that complete late *)

Definition sample_run (completedAt : option Z) : AgentRun :=
  {| ag_userId := js "u"; ag_orgId := js "o"; ag_prompt := js "p"; ag_status := Completed; ag_createdAt := 2 * MS_PER_DAY - 600000;
     ag_startedAt := Some (2 * MS_PER_DAY - 600000); ag_completedAt := completedAt |}.

(** The second run is created on day 1 and completes on day 2, after the count of day 1. *)
Definition sample_summary_db (completedAt : option Z) : SummaryDb :=
  {| sd_runs := {[js "r1" := sample_run (Some (2 * MS_PER_DAY - 60000)); js "r2" := sample_run completedAt]}; sd_usageDaily := ∅ |}.

Definition sample_summary_args : UsageSummaryArgs :=
  {| ua_userId := js "u"; ua_orgId := js "o"; ua_now := 3 * MS_PER_DAY; ua_startDate := MS_PER_DAY; ua_endDate := 3 * MS_PER_DAY |}.

Lemma sample_cache_ok : CacheOk (sample_summary_db (Some (2 * MS_PER_DAY + 600000))).
Proof. intros u o date c t Hl. done. Qed.

Lemma usage_summary_exact_witness :
  ur_totalRuns (usageSummary sample_summary_args (sample_summary_db (Some (2 * MS_PER_DAY + 600000)))).1 = 2.
Proof.
  pose proof (usage_summary_exact sample_summary_args (3 * MS_PER_DAY) _ sample_cache_ok) as H.
  destruct (usageSummary _ _) as [response d'] eqn:E. destruct H as (_ & _ & Hn & _). etransitivity; [exact Hn|]. vm_compute. reflexivity.
Defined.

(** A run that completes after its day was kept stays out of every later summary: the count at
    five past midnight keeps day 1 with one run of the two. *)
Lemma late_run_uncounted :
  let kept := sd_usageDaily (aggregateUsageDaily (2 * MS_PER_DAY + 300000) (sample_summary_db None)).2 in
  let d := {| sd_runs := sd_runs (sample_summary_db (Some (2 * MS_PER_DAY + 600000))); sd_usageDaily := kept |} in
  ur_totalRuns (usageSummary sample_summary_args d).1 = 1 /\
  ur_totalRuns (usageSummary sample_summary_args (aggregateUsageDaily (3 * MS_PER_DAY + 300000) d).2).1 = 1.
Proof. vm_compute. done. Qed.

End UsageSummary.
