(* ===== verification/UsageRecords.v ===== *)
(** Usage records and member usage (turbo/apps/api/src/signals/services/usage-period.ts,
    zero-org-billing-period.service.ts, zero-usage-record.service.ts, zero-usage.service.ts,
    zero-usage-reporting-ledger.ts): periods in a time zone, the record of a user with its
    breakdown, and the totals of the members of an organization. *)

From S2P Require Import Prelude JsString JsValue JsRecord JsDate Aggregates RunStore Credits Tokens UsageIntake UsageSummary.
Import JsDate Aggregates RunStore Credits Tokens UsageIntake UsageSummary.

Module UsageRecords.

(** ** Periods *)

Record UsagePeriod := { pe_start : Z; pe_end : Z }.

Inductive UsageRangeArg := RToday | RYesterday | R24h | R7d | RBillingPeriod | RAll.

Section Zone.
(** The distance of a time zone from universal time at an instant. *)
Context (offset : Z -> Z).

(** [Date.UTC] of [partsInTz]: what the clocks of the zone show, in whole seconds. *)
Definition partsInTz (ms : Z) : Z := (ms + offset ms) / 1000 * 1000.

(** Calendar dates are numbers of days, as in [UsageSummary]. *)
Definition calendarDateInTz (ms : Z) : Z := date_of (partsInTz ms).

Fixpoint start_loop (n : nat) (target guess : Z) : Z :=
  match n with
  | O => guess
  | S n =>
      let delta := partsInTz guess - target in
      if delta =? 0 then guess else start_loop n target (guess - delta)
  end.

Definition startOfCalendarDateInTz (date : Z) : Z := let target := date * MS_PER_DAY in start_loop 4 target target.

Definition addCalendarDays (date days : Z) : Z := date + days.

Definition fixedRangeToPeriod (now : Z) (range : UsageRangeArg) : option UsagePeriod :=
  let todayDate := calendarDateInTz now in
  let todayStart := startOfCalendarDateInTz todayDate in
  match range with
  | RToday => Some {| pe_start := todayStart; pe_end := now |}
  | RYesterday => Some {| pe_start := startOfCalendarDateInTz (addCalendarDays todayDate (-1)); pe_end := todayStart |}
  | R24h => Some {| pe_start := now - MS_PER_DAY; pe_end := now |}
  | R7d => Some {| pe_start := now - 7 * MS_PER_DAY; pe_end := now |}
  | RBillingPeriod | RAll => None
  end.

End Zone.

(** *** The billing period of an organization *)

Record OrgPeriod := { op_currentPeriodEnd : option Z; op_stripeSubscriptionId : option jsstr }.

(** [setMonth(getMonth() - 1)] in universal time: a day the month before does not have becomes
    one of the month itself. *)
Definition previous_month (ms : Z) : Z :=
  let '(y, m, d) := civil_of_days (ms / DAY_MS) in
  (month_start y (m - 1) + (d - 1)) * DAY_MS + ms mod DAY_MS.

Definition period_ending (periodEnd : option Z) : option UsagePeriod :=
  (fun e => {| pe_start := previous_month e; pe_end := e |}) <$> periodEnd.

(** [retrieve]: the end of the current period of the first item of a subscription at Stripe, in
    seconds. *)
Definition getOrgBillingPeriod (retrieve : jsstr -> result (option Z)) (now : Z) (orgId : jsstr) (orgs : gmap jsstr OrgPeriod) :
    result (option UsagePeriod) * gmap jsstr OrgPeriod :=
  let orgRow := orgs !! orgId in
  let periodEnd := orgRow ≫= op_currentPeriodEnd in
  let stale := match periodEnd with None => true | Some e => e <? now end in
  match (if stale then truthy_text (orgRow ≫= op_stripeSubscriptionId) else None) with
  | None => (Ok (period_ending periodEnd), orgs)
  | Some subscriptionId =>
      match retrieve subscriptionId with
      | Throw e => (Throw e, orgs)
      | Ok itemPeriodEnd =>
          match (e ← itemPeriodEnd; if e =? 0 then None else Some e) with
          | None => (Ok (period_ending periodEnd), orgs)
          | Some e =>
              let refreshed := e * 1000 in
              if refreshed <? now then (Ok None, orgs)
              else (Ok (period_ending (Some refreshed)),
                    alter (fun o => {| op_currentPeriodEnd := Some refreshed; op_stripeSubscriptionId := op_stripeSubscriptionId o |}) orgId orgs)
          end
      end
  end.

(** ** Emails (resolveEmails) *)

Record ClerkUser := { cu_id : jsstr; cu_emailAddresses : list (jsstr * jsstr); cu_primaryEmailAddressId : option jsstr }.

Definition primaryEmail (user : ClerkUser) : jsstr :=
  default (js "unknown") (snd <$> head (filter (fun email => Some email.1 = cu_primaryEmailAddressId user) (cu_emailAddresses user))).

Definition resolveEmails (getUserList : list jsstr -> result (list ClerkUser)) (userIds : list jsstr) (userCache : gmap jsstr jsstr) :
    result (gmap jsstr jsstr) * gmap jsstr jsstr :=
  let emailMap := filter (fun kv => kv.1 ∈ userIds) userCache in
  let missingIds := filter (fun id => emailMap !! id = None) userIds in
  match missingIds with
  | [] => (Ok emailMap, userCache)
  | _ =>
      match getUserList missingIds with
      | Throw e => (Throw e, userCache)
      | Ok users =>
          let set_all (m : gmap jsstr jsstr) := foldl (fun m user => <[cu_id user := primaryEmail user]> m) m users in
          (Ok (set_all emailMap), set_all userCache)
      end
  end.

(** ** The record of a user (zero-usage-record.service.ts) *)

Definition MODEL_TOKEN_CATEGORIES : list jsstr := [js "tokens.input"; js "tokens.output"; js "tokens.cache_read"; js "tokens.cache_creation"].
Definition THREADED_SOURCES : list jsstr := [js "chat"; js "automation"].
Definition USAGE_RECORD_KINDS : list jsstr := [js "model"; js "image"; js "video"; js "connector"].
Definition PASSTHROUGH_TRIGGER_SOURCES : list jsstr :=
  [js "automation"; js "slack"; js "telegram"; js "email"; js "agentphone"; js "github"; js "cli"; js "agent"].

Definition tokenExpr (e : UsageEvent) : Z :=
  if bool_decide (e_kind e = MODEL_USAGE_KIND) && bool_decide (e_category e ∈ MODEL_TOKEN_CATEGORIES) then e_quantity e else 0.

Definition sourceExpr (triggerSource : jsstr) : jsstr :=
  if bool_decide (triggerSource = js "web") then js "chat"
  else if bool_decide (triggerSource ∈ PASSTHROUGH_TRIGGER_SOURCES) then triggerSource else js "other".

Definition usageKindExpr (kind : jsstr) : jsstr := if bool_decide (kind ∈ USAGE_RECORD_KINDS) then kind else js "other".

Inductive Scope := Mine | Team.

Record UsageRecordArgs := {
  ra_userId : jsstr; ra_orgId : jsstr; ra_scope : Scope; ra_range : UsageRangeArg; ra_page : Z; ra_pageSize : Z; ra_source : option jsstr }.

(** A processed event and what the joins add: [runs] of the common table. *)
Record JoinedRow := {
  j_runId : jsstr; j_userId : jsstr; j_kind : jsstr; j_provider : jsstr; j_credits : Z; j_tokens : Z; j_source : jsstr;
  j_chatThreadId : option jsstr; j_summary : option jsstr; j_prompt : jsstr; j_createdAt : Z }.

Definition in_period (period : option UsagePeriod) (ms : Z) : bool :=
  match period with None => true | Some p => (pe_start p <=? ms) && (ms <? pe_end p) end.

(** The predicates of [usage_rows]. *)
Definition usage_row (userId : option jsstr) (orgId : jsstr) (period : option UsagePeriod) (e : UsageEvent) (m : EventMeta) : bool :=
  bool_decide (e_orgId e = orgId) && match userId with Some u => bool_decide (em_userId m = u) | None => true end &&
  bool_decide (e_status e = EvProcessed) && in_period period (em_createdAt m).

Definition joined_row (userId : option jsstr) (orgId : jsstr) (period : option UsagePeriod) (d : UsageDb) (e : UsageEvent) : option JoinedRow :=
  m ← meta d !! e_id e;
  if negb (usage_row userId orgId period e m) then None
  else
    runId ← e_runId e;
    zr ← zeroRuns d !! runId;
    ar ← agentRuns d !! runId;
    Some {| j_runId := runId; j_userId := em_userId m; j_kind := usageKindExpr (e_kind e); j_provider := unknown_provider (e_provider e);
            j_credits := event_credits e; j_tokens := tokenExpr e; j_source := sourceExpr (zr_triggerSource zr);
            j_chatThreadId := zr_chatThreadId zr; j_summary := zr_summary zr; j_prompt := ag_prompt ar; j_createdAt := ag_createdAt ar |}.

Definition joined_rows (userId : option jsstr) (orgId : jsstr) (period : option UsagePeriod) (d : UsageDb) : list JoinedRow :=
  omap (joined_row userId orgId period d) (events (ledger d)).

Record RecordRow := {
  rk_rowKey : jsstr; rk_source : jsstr; rk_userId : jsstr; rk_threadId : option jsstr; rk_runId : option jsstr; rk_title : option jsstr;
  rk_credits : Z; rk_tokens : Z; rk_lastActivity : Z }.

Definition record_row (rowKey source userId : jsstr) (threadId runId title : option jsstr) (l : list JoinedRow) : RecordRow :=
  {| rk_rowKey := rowKey; rk_source := source; rk_userId := userId; rk_threadId := threadId; rk_runId := runId; rk_title := title;
     rk_credits := sum_of j_credits l; rk_tokens := sum_of j_tokens l; rk_lastActivity := default 0 (max_of j_createdAt l) |}.

Definition thread_key (source threadId userId : jsstr) : jsstr := source ++ js ":thread:" ++ threadId ++ js ":user:" ++ userId.
Definition deleted_key (source userId : jsstr) : jsstr := source ++ js ":deleted-thread:user:" ++ userId.
Definition run_key (source runId userId : jsstr) : jsstr := source ++ js ":run:" ++ runId ++ js ":user:" ++ userId.

(** [LEFT(COALESCE(NULLIF(summary, ''), prompt), 120)] counts characters. *)
Definition run_title (j : JoinedRow) : jsstr :=
  mjoin (take 120 (code_points (default (j_prompt j) (truthy_text (j_summary j))))).

Definition is_threaded (j : JoinedRow) : bool := bool_decide (j_source j ∈ THREADED_SOURCES).

Definition threaded_row (d : UsageDb) (g : (jsstr * jsstr * jsstr) * list JoinedRow) : RecordRow :=
  let '((source, userId, threadId), l) := g in
  record_row (thread_key source threadId userId) source userId (Some threadId) None (thread ← chatThreads d !! threadId; ct_title thread) l.

Definition deleted_row (g : (jsstr * jsstr) * list JoinedRow) : RecordRow :=
  let '((source, userId), l) := g in record_row (deleted_key source userId) source userId None None (Some (js "Deleted chats")) l.

Definition unthreaded_row (g : (jsstr * jsstr * jsstr) * list JoinedRow) : RecordRow :=
  let '((runId, source, userId), l) := g in record_row (run_key source runId userId) source userId None (Some runId) (run_title <$> head l) l.

(** The common table [record]. *)
Definition recordWith (d : UsageDb) (joined : list JoinedRow) : list RecordRow :=
  (threaded_row d <$> group_by (fun j => (j_source j, j_userId j, default [] (j_chatThreadId j)))
     (filter (fun j => is_Some (j_chatThreadId j) /\ is_threaded j = true) joined)) ++
  (deleted_row <$> group_by (fun j => (j_source j, j_userId j))
     (filter (fun j => j_chatThreadId j = None /\ is_threaded j = true) joined)) ++
  (unthreaded_row <$> group_by (fun j => (j_runId j, j_source j, j_userId j)) (filter (fun j => is_threaded j = false) joined)).

(** [WHERE source = ..], when the request names one. *)
Definition source_is (source : option jsstr) (s : jsstr) : Prop := match source with Some s' => s = s' | None => True end.

#[export] Instance source_is_decision source s : Decision (source_is source s).
Proof. unfold source_is. destruct source; apply _. Defined.

Definition queryUsageRecordRows (record : list RecordRow) (source : option jsstr) (pageSize offset : Z) : list RecordRow :=
  take (Z.to_nat pageSize) (drop (Z.to_nat offset)
    (sort_stable (fun a b => rk_lastActivity b <? rk_lastActivity a) (filter (fun row => source_is source (rk_source row)) record))).

Definition queryUsageRecordTotals (record : list RecordRow) (source : option jsstr) : Z * Z :=
  let rows := filter (fun row => source_is source (rk_source row)) record in (Z.of_nat (length rows), sum_of rk_credits rows).

Definition rowKeyExpr (j : JoinedRow) : jsstr :=
  match j_chatThreadId j with
  | Some threadId => if is_threaded j then thread_key (j_source j) threadId (j_userId j) else run_key (j_source j) (j_runId j) (j_userId j)
  | None => if is_threaded j then deleted_key (j_source j) (j_userId j) else run_key (j_source j) (j_runId j) (j_userId j)
  end.

Definition RECORD_KINDS : list jsstr := [js "model"; js "image"; js "video"; js "connector"; js "other"].

Section Records.
(** Whether a text goes before another in the database. *)
Context (collate : jsstr -> jsstr -> bool).

Definition key_before (g h : (jsstr * jsstr * jsstr) * list JoinedRow) : bool :=
  let '((k, kind, provider), _) := g in
  let '((k', kind', provider'), _) := h in
  collate k k' || (bool_decide (k = k') && (collate kind kind' || (bool_decide (kind = kind') && collate provider provider'))).

Definition queryUsageRecordBreakdown (joined : list JoinedRow) (rowKeys : list jsstr) (rowKey : jsstr) : list KindBreakdown :=
  let rows := sort_stable key_before
    (filter (fun g => 0 < sum_of j_credits g.2)
       (group_by (fun j => (rowKeyExpr j, j_kind j, j_provider j)) (filter (fun j => rowKeyExpr j ∈ rowKeys) joined))) in
  omap (fun kind =>
    match filter (fun g => g.1.1.1 = rowKey /\ g.1.1.2 = kind) rows with
    | [] => None
    | providerRows =>
        let providers := (fun g => {| pb_provider := g.1.2; pb_credits := sum_of j_credits g.2 |}) <$> providerRows in
        Some {| kb_kind := kind; kb_credits := sum_of pb_credits providers; kb_providers := providers |}
    end) RECORD_KINDS.

Record UsageRecordRow := { uu_row : RecordRow; uu_breakdown : list KindBreakdown; uu_member : option (jsstr * jsstr) }.
Record UsageRecordResponse := {
  rr_period : option UsagePeriod; rr_rows : list UsageRecordRow; rr_totalCredits : Z; rr_page : Z; rr_pageSize : Z; rr_total : Z }.

Record RecordDb := { rd_usage : UsageDb; rd_userCache : gmap jsstr jsstr; rd_periods : gmap jsstr OrgPeriod }.

Context (offset : Z -> Z) (retrieve : jsstr -> result (option Z)) (getUserList : list jsstr -> result (list ClerkUser)).

(** The period of a range, [None] for a range without one, and no answer for an organization
    without a billing period. *)
Definition resolve_period (now : Z) (orgId : jsstr) (range : UsageRangeArg) (orgs : gmap jsstr OrgPeriod) :
    result (option (option UsagePeriod)) * gmap jsstr OrgPeriod :=
  match range with
  | RBillingPeriod => let '(r, orgs') := getOrgBillingPeriod retrieve now orgId orgs in ((fun p : option UsagePeriod => Some <$> p) <$> r, orgs')
  | RAll => (Ok (Some None), orgs)
  | _ => (Ok (Some (fixedRangeToPeriod offset now range)), orgs)
  end.

Definition record_user (args : UsageRecordArgs) : option jsstr := match ra_scope args with Mine => Some (ra_userId args) | Team => None end.

Definition zeroUsageRecord (now : Z) (args : UsageRecordArgs) (d : RecordDb) : result UsageRecordResponse * RecordDb :=
  match resolve_period now (ra_orgId args) (ra_range args) (rd_periods d) with
  | (Throw e, periods) => (Throw e, {| rd_usage := rd_usage d; rd_userCache := rd_userCache d; rd_periods := periods |})
  | (Ok None, periods) =>
      (Ok {| rr_period := None; rr_rows := []; rr_totalCredits := 0; rr_page := ra_page args; rr_pageSize := ra_pageSize args; rr_total := 0 |},
       {| rd_usage := rd_usage d; rd_userCache := rd_userCache d; rd_periods := periods |})
  | (Ok (Some period), periods) =>
      let joined := joined_rows (record_user args) (ra_orgId args) period (rd_usage d) in
      let record := recordWith (rd_usage d) joined in
      let rows := queryUsageRecordRows record (ra_source args) (ra_pageSize args) ((ra_page args - 1) * ra_pageSize args) in
      let rowKeys := rk_rowKey <$> rows in
      let '(total, totalCredits) := queryUsageRecordTotals record (ra_source args) in
      let '(emails, cache) := match ra_scope args with
                              | Team => resolveEmails getUserList (distinct (rk_userId <$> rows)) (rd_userCache d)
                              | Mine => (Ok ∅, rd_userCache d)
                              end in
      ((fun emailMap =>
          {| rr_period := period;
             rr_rows := (fun row => {| uu_row := row; uu_breakdown := queryUsageRecordBreakdown joined rowKeys (rk_rowKey row);
                                       uu_member := match ra_scope args with
                                                    | Team => Some (rk_userId row, default (js "unknown") (emailMap !! rk_userId row))
                                                    | Mine => None
                                                    end |}) <$> rows;
             rr_totalCredits := totalCredits; rr_page := ra_page args; rr_pageSize := ra_pageSize args; rr_total := total |}) <$> emails,
       {| rd_usage := rd_usage d; rd_userCache := cache; rd_periods := periods |})
  end.

(** routes/zero-usage-record.ts *)
Inductive RecordReply := InvalidTimezone | TeamUnavailable | RecordOk (body : UsageRecordResponse).

Definition getUsageRecord (validTimeZone : bool) (now : Z) (args : UsageRecordArgs) (d : RecordDb) : result RecordReply * RecordDb :=
  if negb validTimeZone then (Ok InvalidTimezone, d)
  else
    match ra_scope args with
    | Team => (Ok TeamUnavailable, d)
    | Mine => let '(body, d') := zeroUsageRecord now args d in (RecordOk <$> body, d')
    end.

(** ** Members (zero-usage-reporting-ledger.ts, zero-usage.service.ts) *)

Definition INPUT_TOKEN_CATEGORIES : list jsstr := [js "tokens.input"; js "tokens.input.text"; js "tokens.input.audio"].
Definition OUTPUT_TOKEN_CATEGORIES : list jsstr := [js "tokens.output"; js "tokens.output.text"; js "tokens.output.audio"].
Definition CACHE_READ_TOKEN_CATEGORIES : list jsstr := [js "tokens.cache_read"; js "tokens.input.cached_text"; js "tokens.input.cached_audio"].
Definition CACHE_CREATION_TOKEN_CATEGORIES : list jsstr := [js "tokens.cache_creation"].

Definition usageEventTokenSum (categories : list jsstr) (l : list UsageEvent) : Z :=
  sum_of (fun e => if bool_decide (e_kind e = MODEL_USAGE_KIND) && bool_decide (e_category e ∈ categories) then e_quantity e else 0) l.

Record MemberUsage := {
  mu_userId : jsstr; mu_email : jsstr; mu_inputTokens : Z; mu_outputTokens : Z; mu_cacheReadInputTokens : Z; mu_cacheCreationInputTokens : Z;
  mu_creditsCharged : Z }.

(** The processed events of an organization by the time they were processed, with their user. *)
Definition member_events (orgId : jsstr) (window : UsagePeriod) (d : UsageDb) : list (jsstr * UsageEvent) :=
  omap (fun e =>
    m ← meta d !! e_id e;
    processedAt ← e_processedAt e;
    if bool_decide (e_orgId e = orgId) && bool_decide (e_status e = EvProcessed) && in_period (Some window) processedAt
    then Some (em_userId m, e) else None) (events (ledger d)).

Definition getMemberUsageTotals (orgId : jsstr) (window : UsagePeriod) (d : UsageDb) : list (jsstr * list UsageEvent) :=
  (fun g => (g.1, g.2.*2)) <$> group_by fst (member_events orgId window d).

Definition member_usage (emailMap : gmap jsstr jsstr) (g : jsstr * list UsageEvent) : MemberUsage :=
  {| mu_userId := g.1; mu_email := default (js "unknown") (emailMap !! g.1);
     mu_inputTokens := usageEventTokenSum INPUT_TOKEN_CATEGORIES g.2; mu_outputTokens := usageEventTokenSum OUTPUT_TOKEN_CATEGORIES g.2;
     mu_cacheReadInputTokens := usageEventTokenSum CACHE_READ_TOKEN_CATEGORIES g.2;
     mu_cacheCreationInputTokens := usageEventTokenSum CACHE_CREATION_TOKEN_CATEGORIES g.2;
     mu_creditsCharged := sum_of event_credits g.2 |}.

Definition zeroUsageMembers (now : Z) (orgId : jsstr) (range : UsageRangeArg) (d : RecordDb) :
    result (option UsagePeriod * list MemberUsage) * RecordDb :=
  match resolve_period now orgId range (rd_periods d) with
  | (Throw e, periods) => (Throw e, {| rd_usage := rd_usage d; rd_userCache := rd_userCache d; rd_periods := periods |})
  | (Ok None, periods) => (Ok (None, []), {| rd_usage := rd_usage d; rd_userCache := rd_userCache d; rd_periods := periods |})
  | (Ok (Some None), periods) =>
      (Throw (js "member usage period was not resolved"), {| rd_usage := rd_usage d; rd_userCache := rd_userCache d; rd_periods := periods |})
  | (Ok (Some (Some period)), periods) =>
      let rows := getMemberUsageTotals orgId period (rd_usage d) in
      let '(emails, cache) := resolveEmails getUserList rows.*1 (rd_userCache d) in
      ((fun emailMap => (Some period, sort_stable (fun a b => mu_creditsCharged b <? mu_creditsCharged a) (member_usage emailMap <$> rows))) <$> emails,
       {| rd_usage := rd_usage d; rd_userCache := cache; rd_periods := periods |})
  end.

End Records.

End UsageRecords.
