(* ===== verification/UsageAccounts.v ===== *)
(** Usage reports account for every charge: the days of a time zone are the days its clocks show,
    and the rows of a usage record, their breakdowns and the total add up to what the events of
    the period were charged. *)

From S2P Require Import Prelude JsString JsValue JsRecord JsDate Aggregates RunStore Credits Tokens UsageIntake UsageSummary UsageRecords.
Import JsDate Aggregates RunStore Credits Tokens UsageIntake UsageSummary UsageRecords.

Module UsageAccounts.

(** ** Days of a time zone *)

Section Days.
Context (offset : Z -> Z).

#[local] Ltac clocks := unfold calendarDateInTz, partsInTz, date_of, MS_PER_DAY in *; Z.to_euclidean_division_equations; lia.

(** Around an instant the clocks change at most once; offsets are whole seconds and at most a
    day. *)
Record one_change (target : Z) : Prop := {
  oc_change : exists change before after, (forall t, Z.abs (t - target) <= MS_PER_DAY -> offset t = if t <? change then before else after) /\
    Z.abs before <= MS_PER_DAY /\ Z.abs after <= MS_PER_DAY /\ before mod 1000 = 0 /\ after mod 1000 = 0 }.

(** The clocks show the midnight a date starts with once, at [start], and do not pass it
    again. *)
Record regular_midnight (date start : Z) : Prop := {
  rm_zone : one_change (date * MS_PER_DAY);
  rm_second : start mod 1000 = 0;
  rm_near : Z.abs (start - date * MS_PER_DAY) <= MS_PER_DAY;
  rm_shown : partsInTz offset start = date * MS_PER_DAY;
  rm_before : forall t, partsInTz offset t < date * MS_PER_DAY <-> t < start;
  rm_once : forall t, partsInTz offset t = date * MS_PER_DAY -> t < start + 1000 }.

Lemma start_loop_S n target guess : guess mod 1000 = 0 -> offset guess mod 1000 = 0 ->
  start_loop offset (S n) target guess = if guess + offset guess =? target then guess else start_loop offset n target (target - offset guess).
Proof.
  intros Hg Ho. cbn [start_loop]. assert (partsInTz offset guess = guess + offset guess) as -> by clocks.
  destruct (_ =? _) eqn:E1, (guess + offset guess =? target) eqn:E2; try lia. f_equal. lia.
Qed.

(** The loop finds an instant that shows midnight, if there is one. *)
Lemma start_found date s : one_change (date * MS_PER_DAY) -> Z.abs (s - date * MS_PER_DAY) <= MS_PER_DAY -> s mod 1000 = 0 ->
  partsInTz offset s = date * MS_PER_DAY ->
  let r := startOfCalendarDateInTz offset date in partsInTz offset r = date * MS_PER_DAY /\ r mod 1000 = 0.
Proof.
  intros [(T & a & b & Hoff & Ha & Hb & Ma & Mb)] Hs Ms Hshown r. set (target := date * MS_PER_DAY) in *.
  assert (target mod 1000 = 0) as Mt by (unfold target; clocks).
  assert (forall t, Z.abs (t - target) <= MS_PER_DAY -> t mod 1000 = 0 -> partsInTz offset t = t + offset t /\ offset t mod 1000 = 0) as Hparts.
  { intros t Ht Mt'. assert (offset t mod 1000 = 0) as Mo by (rewrite (Hoff t Ht); by destruct (t <? T)). split; [clocks|done]. }
  assert (forall o, (o = a \/ o = b) -> Z.abs (target - o - target) <= MS_PER_DAY /\ (target - o) mod 1000 = 0) as Hcand by (intros o [-> | ->]; clocks).
  assert (Z.abs (target - target) <= MS_PER_DAY) as H0 by (unfold MS_PER_DAY; lia).
  assert (exists r', r = r' /\ Z.abs (r' - target) <= MS_PER_DAY /\ r' mod 1000 = 0 /\ r' + offset r' = target) as (r' & -> & Hr & Mr & Hsum);
    [|split; [|done]; by rewrite (proj1 (Hparts r' Hr Mr))].
  destruct (Hparts s Hs Ms) as [Hps _]. rewrite Hps, (Hoff s Hs) in Hshown.
  destruct (Hcand a (or_introl eq_refl)) as [Wa Na], (Hcand b (or_intror eq_refl)) as [Wb Nb].
  pose proof (Hoff _ Wa) as Oa. pose proof (Hoff _ Wb) as Ob. pose proof (Hoff _ H0) as O0.
  destruct (Hparts _ Wa Na) as [_ Ea], (Hparts _ Wb Nb) as [_ Eb], (Hparts _ H0 Mt) as [_ E0].
  assert ((target - a <? T) = true \/ (target - b <? T) = false) as Hex by (destruct (s <? T) eqn:E; [left|right]; lia).
  unfold r, startOfCalendarDateInTz. fold target. cbv zeta. rewrite start_loop_S by done.
  destruct (target + offset target =? target) eqn:D0; [exists target; split_and!; [done|exact H0|exact Mt|lia]|]. clear D0.
  destruct (target <? T); rewrite O0.
  - rewrite start_loop_S by done. destruct (target - a <? T) eqn:Ta; rewrite Oa.
    + exists (target - a). rewrite Oa. destruct (_ =? _) eqn:D; [|lia]. split_and!; [done|exact Wa|exact Na|lia].
    + destruct Hex as [Hex|Hex]; [done|]. rewrite Hex in Ob. destruct (target - a + b =? target) eqn:D; [exists (target - a); rewrite Oa; split_and!; [done|exact Wa|exact Na|lia]|].
      clear D. rewrite start_loop_S by done. rewrite Ob. destruct (_ =? _) eqn:D2; [exists (target - b); rewrite Ob; split_and!; [done|exact Wb|exact Nb|lia]|lia].
  - rewrite start_loop_S by done. destruct (target - b <? T) eqn:Tb; rewrite Ob.
    + destruct Hex as [Hex|Hex]; [|done]. rewrite Hex in Oa. destruct (target - b + a =? target) eqn:D; [exists (target - b); rewrite Ob; split_and!; [done|exact Wb|exact Nb|lia]|].
      clear D. rewrite start_loop_S by done. rewrite Oa. destruct (_ =? _) eqn:D2; [exists (target - a); rewrite Oa; split_and!; [done|exact Wa|exact Na|lia]|lia].
    + exists (target - b). rewrite Ob. destruct (_ =? _) eqn:D; [|lia]. split_and!; [done|exact Wb|exact Nb|lia].
Qed.

Lemma start_exact date s : regular_midnight date s -> startOfCalendarDateInTz offset date = s.
Proof.
  intros [Hz Ms Hn Hs Hb Ho]. destruct (start_found date s Hz Hn Ms Hs) as [Hr Mr]. set (r := startOfCalendarDateInTz offset date) in *.
  specialize (Ho r Hr). assert (~ r < s) as Hge by (rewrite <- Hb; lia). clear Hb Hr. Z.to_euclidean_division_equations. lia.
Qed.

Lemma date_before date s t : regular_midnight date s -> calendarDateInTz offset t < date <-> t < s.
Proof. intros Hm. rewrite <- (rm_before date s Hm t). unfold calendarDateInTz. apply date_of_lt. Qed.

(** C34: The periods "today" and "yesterday" of a time zone are the days its clocks show. When the
    clocks change at most once around each midnight concerned and show it once, the search for
    the start of a day ends at midnight; yesterday is exactly the instants dated the day before,
    today the ones of today before now, and one starts where the other ends. *)
Theorem usage_days_exact now yesterday today tomorrow : let date := calendarDateInTz offset now in
  regular_midnight (date - 1) yesterday -> regular_midnight date today -> regular_midnight (date + 1) tomorrow ->
  exists py pt, fixedRangeToPeriod offset now RYesterday = Some py /\ fixedRangeToPeriod offset now RToday = Some pt /\
    pe_end py = pe_start pt /\
    (forall t, pe_start py <= t < pe_end py <-> calendarDateInTz offset t = date - 1) /\
    (forall t, pe_start pt <= t < pe_end pt <-> calendarDateInTz offset t = date /\ t < now).
Proof.
  intros date Hy Ht Hn. eexists _, _. split; [reflexivity|]. split; [reflexivity|]. cbn [pe_start pe_end]. split; [done|].
  fold date. unfold addCalendarDays. replace (date + -1) with (date - 1) by lia. rewrite (start_exact _ _ Hy), (start_exact _ _ Ht).
  pose proof (fun t => date_before _ _ t Hy) as By. pose proof (fun t => date_before _ _ t Ht) as Bt. pose proof (fun t => date_before _ _ t Hn) as Bn.
  assert (now < tomorrow) as Hnow by (apply Bn; lia).
  split; intros t; specialize (By t); specialize (Bt t); specialize (Bn t); lia.
Qed.

End Days.

(** ** Rows of a record *)

(** The row an event belongs to. *)
Inductive Group := GThread (source threadId userId : jsstr) | GDeleted (source userId : jsstr) | GRun (source runId userId : jsstr).

#[export] Instance group_eq_dec : EqDecision Group.
Proof. solve_decision. Defined.

Definition group_of (j : JoinedRow) : Group :=
  if is_threaded j then
    match j_chatThreadId j with Some t => GThread (j_source j) t (j_userId j) | None => GDeleted (j_source j) (j_userId j) end
  else GRun (j_source j) (j_runId j) (j_userId j).

Definition group_key (g : Group) : jsstr :=
  match g with GThread s t u => thread_key s t u | GDeleted s u => deleted_key s u | GRun s r u => run_key s r u end.

Definition group_source (g : Group) : jsstr := match g with GThread s _ _ | GDeleted s _ | GRun s _ _ => s end.

Lemma rowKeyExpr_group j : rowKeyExpr j = group_key (group_of j).
Proof. unfold rowKeyExpr, group_of. by destruct (j_chatThreadId j), (is_threaded j). Qed.

Lemma group_source_of j : group_source (group_of j) = j_source j.
Proof. unfold group_of. by destruct (is_threaded j), (j_chatThreadId j). Qed.

(** *** Keys *)

Definition COLON : Z := 58.

Definition plain_group (g : Group) : Prop :=
  COLON ∉ group_source g /\ match g with GThread _ t _ => COLON ∉ t | GRun _ r _ => COLON ∉ r | GDeleted _ _ => True end.

(** The text before the first separator is determined. *)
Lemma separated_inj (sep : Z) (a b x y : jsstr) : sep ∉ a -> sep ∉ b -> a ++ sep :: x = b ++ sep :: y -> a = b /\ x = y.
Proof.
  revert b. induction a as [|c a IH]; intros [|c' b] Ha Hb Heq; cbn in Heq.
  - by injection Heq.
  - injection Heq as <- _. destruct Hb. apply elem_of_cons. by left.
  - injection Heq as -> _. destruct Ha. apply elem_of_cons. by left.
  - injection Heq as -> Heq. rewrite not_elem_of_cons in Ha, Hb. destruct (IH b) as [-> ->]; [apply Ha|apply Hb|done|done].
Qed.

(** The rest of a key after its source and the separator. *)
Definition key_rest (g : Group) : jsstr :=
  match g with
  | GThread _ t u => js "thread:" ++ t ++ js ":user:" ++ u
  | GDeleted _ u => js "deleted-thread:user:" ++ u
  | GRun _ r u => js "run:" ++ r ++ js ":user:" ++ u
  end.

Lemma group_key_rest g : group_key g = group_source g ++ COLON :: key_rest g.
Proof. by destruct g. Qed.

Lemma user_inj (a b u v : jsstr) : COLON ∉ a -> COLON ∉ b -> a ++ js ":user:" ++ u = b ++ js ":user:" ++ v -> a = b /\ u = v.
Proof. intros Ha Hb Heq. apply (separated_inj COLON) in Heq as [-> Heq]; [|done..]. split; [done|]. by injection Heq. Qed.

Lemma key_rest_inj g h : group_source g = group_source h -> plain_group g -> plain_group h -> key_rest g = key_rest h -> g = h.
Proof.
  intros Hs [_ Hg] [_ Hh] Heq. destruct g as [s t u|s u|s r u], h as [s' t' u'|s' u'|s' r' u']; cbn in Hs, Hg, Hh; subst s';
    try (cbn in Heq; discriminate Heq).
  - apply app_inv_head, user_inj in Heq as [-> ->]; done.
  - apply app_inv_head in Heq as ->. done.
  - apply app_inv_head, user_inj in Heq as [-> ->]; done.
Qed.

Lemma group_key_inj g h : plain_group g -> plain_group h -> group_key g = group_key h -> g = h.
Proof.
  intros Hg Hh. rewrite !group_key_rest. intros Heq. apply separated_inj in Heq as [Hs Hr]; [|apply Hg|apply Hh]. by apply key_rest_inj.
Qed.

(** *** The record, group by group *)

Definition row_of (d : UsageDb) (joined : list JoinedRow) (g : Group) : RecordRow :=
  let l := filter (fun j => group_of j = g) joined in
  match g with
  | GThread s t u => threaded_row d ((s, u, t), l)
  | GDeleted s u => deleted_row ((s, u), l)
  | GRun s r u => unthreaded_row ((r, s, u), l)
  end.

Definition record_groups (joined : list JoinedRow) : list Group :=
  ((fun k => GThread k.1.1 k.2 k.1.2) <$> distinct ((fun j => (j_source j, j_userId j, default [] (j_chatThreadId j))) <$>
     filter (fun j => is_Some (j_chatThreadId j) /\ is_threaded j = true) joined)) ++
  ((fun k => GDeleted k.1 k.2) <$> distinct ((fun j => (j_source j, j_userId j)) <$>
     filter (fun j => j_chatThreadId j = None /\ is_threaded j = true) joined)) ++
  ((fun k => GRun k.1.2 k.1.1 k.2) <$> distinct ((fun j => (j_runId j, j_source j, j_userId j)) <$> filter (fun j => is_threaded j = false) joined)).

#[local] Ltac same_group :=
  cbn [fst snd]; f_equal; apply list_filter_iff; intros j; unfold group_of; destruct (is_threaded j), (j_chatThreadId j); cbn; naive_solver.

Lemma record_by_group d joined : recordWith d joined = row_of d joined <$> record_groups joined.
Proof.
  unfold recordWith, record_groups, group_by. rewrite !fmap_app, <- !list_fmap_compose. f_equal; [|f_equal];
    apply list_fmap_ext; intros i k _; unfold compose, row_of; f_equal; rewrite list_filter_filter.
  - destruct k as [[s u] t]. same_group.
  - destruct k as [s u]. same_group.
  - destruct k as [[r s] u]. same_group.
Qed.

Lemma elem_of_groups joined g : g ∈ record_groups joined <-> g ∈ group_of <$> joined.
Proof.
  unfold record_groups. rewrite !elem_of_app, !list_elem_of_fmap. setoid_rewrite elem_of_distinct. setoid_rewrite list_elem_of_fmap.
  setoid_rewrite list_elem_of_filter. split.
  - intros [(k & -> & j & -> & [[t Ht] Hth] & Hj)|[(k & -> & j & -> & [Hc Hth] & Hj)|(k & -> & j & -> & Hth & Hj)]];
      exists j; (split; [|done]); unfold group_of; rewrite Hth; cbn; [by rewrite Ht|by rewrite Hc|done].
  - intros (j & -> & Hj). unfold group_of. destruct (is_threaded j) eqn:Hth; [destruct (j_chatThreadId j) as [t|] eqn:Hc|].
    + left. exists (j_source j, j_userId j, t). split; [done|]. exists j. rewrite Hc. split_and!; eauto.
    + right. left. exists (j_source j, j_userId j). split; [done|]. exists j. done.
    + right. right. exists (j_runId j, j_source j, j_userId j). split; [done|]. exists j. done.
Qed.

Lemma NoDup_groups joined : NoDup (record_groups joined).
Proof.
  unfold record_groups. apply NoDup_app. split_and!; [| |apply NoDup_app; split_and!].
  - apply NoDup_fmap_2_strong; [|apply NoDup_distinct]. intros [[x1 x2] x3] [[y1 y2] y3] _ _ [= -> -> ->]. done.
  - intros g (k & -> & _)%list_elem_of_fmap [(k' & Hk & _)%list_elem_of_fmap|(k' & Hk & _)%list_elem_of_fmap]%elem_of_app; done.
  - apply NoDup_fmap_2_strong; [|apply NoDup_distinct]. intros [x1 x2] [y1 y2] _ _ [= -> ->]. done.
  - intros g (k & -> & _)%list_elem_of_fmap (k' & Hk & _)%list_elem_of_fmap. done.
  - apply NoDup_fmap_2_strong; [|apply NoDup_distinct]. intros [[x1 x2] x3] [[y1 y2] y3] _ _ [= -> -> ->]. done.
Qed.

Lemma row_of_spec d joined g : let l := filter (fun j => group_of j = g) joined in let r := row_of d joined g in
  rk_rowKey r = group_key g /\ rk_source r = group_source g /\ rk_credits r = sum_of j_credits l /\ rk_tokens r = sum_of j_tokens l.
Proof. by destruct g. Qed.

(** What the joined rows satisfy when identifiers are uuids. *)
Record joined_ok (joined : list JoinedRow) : Prop := {
  jo_plain : forall j, j ∈ joined -> plain_group (group_of j);
  jo_kind : forall j, j ∈ joined -> j_kind j ∈ RECORD_KINDS }.

Section Accounts.
Context (d : UsageDb) (joined : list JoinedRow) (Hok : joined_ok joined).

Lemma plain_groups g : g ∈ record_groups joined -> plain_group g.
Proof. intros (j & -> & Hj)%elem_of_groups%list_elem_of_fmap. by apply (jo_plain joined). Qed.

(** A row has the events with its key. *)
Lemma row_accounts r : r ∈ recordWith d joined ->
  rk_credits r = sum_of j_credits (filter (fun j => rowKeyExpr j = rk_rowKey r) joined) /\
  rk_tokens r = sum_of j_tokens (filter (fun j => rowKeyExpr j = rk_rowKey r) joined).
Proof.
  rewrite record_by_group. intros (g & -> & Hg)%list_elem_of_fmap. destruct (row_of_spec d joined g) as (-> & _ & -> & ->).
  assert (filter (fun j => rowKeyExpr j = group_key g) joined = filter (fun j => group_of j = g) joined) as ->; [|done].
  apply filter_ext_in. intros j Hj. rewrite rowKeyExpr_group. split; [|by intros ->].
  apply group_key_inj; [by apply (jo_plain joined)|by apply plain_groups].
Qed.

Lemma NoDup_keys : NoDup (rk_rowKey <$> recordWith d joined).
Proof.
  rewrite record_by_group, <- list_fmap_compose. apply NoDup_fmap_2_strong; [|apply NoDup_groups]. intros g h Hg Hh. cbn.
  destruct (row_of_spec d joined g) as (-> & _), (row_of_spec d joined h) as (-> & _). apply group_key_inj; by apply plain_groups.
Qed.

Lemma of_source_group source g : source_is source (rk_source (row_of d joined g)) <-> source_is source (group_source g).
Proof. destruct (row_of_spec d joined g) as (_ & -> & _). done. Qed.

(** The total is what the events of the source were charged. *)
Lemma totals_account source : let '(total, totalCredits) := queryUsageRecordTotals (recordWith d joined) source in
  totalCredits = sum_of j_credits (filter (fun j => source_is source (j_source j)) joined) /\
  total = Z.of_nat (length (distinct (rowKeyExpr <$> filter (fun j => source_is source (j_source j)) joined))).
Proof.
  unfold queryUsageRecordTotals. split.
  - rewrite !sum_of_filter, record_by_group, sum_of_fmap. rewrite <- (sum_classes group_of _ joined (record_groups joined));
      [|apply NoDup_groups|intros j Hj; apply elem_of_groups; by apply list_elem_of_fmap_2].
    apply sum_of_ext. intros g _. destruct (row_of_spec d joined g) as (_ & _ & Hc & _). rewrite Hc.
    rewrite (bool_decide_ext _ _ (of_source_group source g)).
    transitivity (sum_of (fun j => if bool_decide (source_is source (group_source g)) then j_credits j else 0)
      (filter (fun j => group_of j = g) joined)).
    { destruct (bool_decide _); [done|]. symmetry. apply sum_of_zero. }
    apply sum_of_ext. intros j [<- _]%list_elem_of_filter. by rewrite group_source_of.
  - f_equal. rewrite <- (length_fmap rk_rowKey). apply Permutation_length. apply NoDup_Permutation; [|apply NoDup_distinct|].
    + eapply sublist_NoDup; [apply NoDup_keys|]. apply fmap_sublist, sublist_filter.
    + intros k. rewrite elem_of_distinct, !list_elem_of_fmap. setoid_rewrite list_elem_of_filter. rewrite record_by_group. split.
      * intros (r & -> & Hs & (g & -> & Hg)%list_elem_of_fmap). apply of_source_group in Hs.
        apply elem_of_groups, list_elem_of_fmap in Hg as (j & -> & Hj). exists j. rewrite rowKeyExpr_group. rewrite group_source_of in Hs.
        split; [by destruct (row_of_spec d joined (group_of j)) as (-> & _)|done].
      * intros (j & -> & Hs & Hj). exists (row_of d joined (group_of j)). rewrite rowKeyExpr_group.
        split; [by destruct (row_of_spec d joined (group_of j)) as (-> & _)|]. rewrite of_source_group, group_source_of.
        split; [done|]. apply list_elem_of_fmap_2, elem_of_groups. by apply list_elem_of_fmap_2.
Qed.

(** *** Breakdowns *)

Lemma sum_of_omap {A B} (f : A -> option B) (g : B -> Z) (l : list A) :
  sum_of g (omap f l) = sum_of (fun x => match f x with Some y => g y | None => 0 end) l.
Proof. induction l as [|x l IH]; [done|]. rewrite sum_of_cons, <- IH. cbn [omap list_omap]. by destruct (f x). Qed.

(** The parts of a row's breakdown add up to what its events were charged. *)
Lemma breakdown_accounts collate rowKeys rowKey : (forall j, j ∈ joined -> 0 <= j_credits j) -> rowKey ∈ rowKeys ->
  sum_of kb_credits (queryUsageRecordBreakdown collate joined rowKeys rowKey) = sum_of j_credits (filter (fun j => rowKeyExpr j = rowKey) joined).
Proof.
  intros Hpos Hin. unfold queryUsageRecordBreakdown. cbv zeta. set (keyed := filter (fun j => rowKeyExpr j ∈ rowKeys) joined).
  set (key3 := fun j => (rowKeyExpr j, j_kind j, j_provider j)). set (G := fun g : (jsstr * jsstr * jsstr) * list JoinedRow => sum_of j_credits g.2).
  set (rows := sort_stable _ _). rewrite sum_of_omap.
  assert (forall g, g ∈ group_by key3 keyed -> 0 <= G g /\ (forall j, j ∈ g.2 -> j ∈ joined /\ key3 j = g.1)) as Hg.
  { intros [k xs] (_ & ->)%elem_of_group_by. cbn [fst snd].
    assert (forall j, j ∈ filter (fun x => key3 x = k) keyed -> j ∈ joined /\ key3 j = k) as Hj by (intros j [? [_ ?]%list_elem_of_filter]%list_elem_of_filter; done).
    split; [|done]. apply sum_of_nonneg. intros j [Hin' _]%Hj. by apply Hpos. }
  transitivity (sum_of G (filter (fun g => g.1.1.1 = rowKey) rows)).
  - rewrite <- (sum_classes (fun g => g.1.1.2) G _ RECORD_KINDS).
    + apply sum_of_ext. intros kind _. rewrite list_filter_filter.
      rewrite (list_filter_iff (fun g => g.1.1.2 = kind /\ g.1.1.1 = rowKey) (fun g => g.1.1.1 = rowKey /\ g.1.1.2 = kind)) by naive_solver.
      destruct (filter _ rows) as [|g l]; [done|]. cbn [kb_credits]. by rewrite sum_of_fmap.
    + apply (bool_decide_unpack _). by vm_compute.
    + intros g [_ Hr]%list_elem_of_filter. unfold rows in Hr. rewrite sort_stable_perm in Hr. apply list_elem_of_filter in Hr as [Hlt Hr].
      destruct (Hg g Hr) as [_ Hj]. destruct g as [k [|j xs]]; [cbn in Hlt; lia|]. destruct (Hj j) as [Hjj <-]; [apply elem_of_cons; by left|].
      cbn. by apply (jo_kind joined).
  - rewrite sum_of_filter. unfold rows. rewrite (sum_of_perm _ _ _ (sort_stable_perm _ _)), sum_of_filter, sum_of_filter.
    transitivity (sum_of (fun j => if bool_decide (rowKeyExpr j = rowKey) then j_credits j else 0) keyed).
    + rewrite <- (sum_group_by key3). apply sum_of_ext. intros g Hgin. destruct (Hg g Hgin) as [Hnn Hj]. fold (G g).
      transitivity (sum_of (fun j => if bool_decide (g.1.1.1 = rowKey) then j_credits j else 0) g.2).
      * destruct (bool_decide (g.1.1.1 = rowKey)); [fold (G g)|rewrite sum_of_zero; by destruct (bool_decide _)].
        destruct (bool_decide_reflect (0 < G g)) as [|Hle]; [done|]. change (sum_of (fun j => j_credits j) g.2) with (G g). lia.
      * apply sum_of_ext. intros j [_ <-]%Hj. done.
    + unfold keyed. rewrite sum_of_filter. apply sum_of_ext. intros j _. destruct (bool_decide_reflect (rowKeyExpr j = rowKey)) as [->|_];
        [by rewrite bool_decide_eq_true_2|by destruct (bool_decide _)].
Qed.

End Accounts.

(** Identifiers of runs and threads are uuids, whose text has no colon. *)
Definition uuid_ids (d : UsageDb) : Prop :=
  forall runId zr, zeroRuns d !! runId = Some zr -> COLON ∉ runId /\ forall threadId, zr_chatThreadId zr = Some threadId -> COLON ∉ threadId.

Lemma source_plain triggerSource : COLON ∉ sourceExpr triggerSource.
Proof.
  assert (forallb (fun s => bool_decide (COLON ∉ s)) (js "chat" :: js "other" :: PASSTHROUGH_TRIGGER_SOURCES) = true) as Hall by (vm_compute; reflexivity).
  rewrite forallb_true in Hall. apply (bool_decide_eq_true_1 _), Hall. unfold sourceExpr.
  destruct (bool_decide (triggerSource = _)); [apply elem_of_cons; by left|]. destruct (bool_decide_reflect (triggerSource ∈ PASSTHROUGH_TRIGGER_SOURCES)) as [Hin|_];
    [by do 2 (apply elem_of_cons; right)|apply elem_of_cons; right; apply elem_of_cons; by left].
Qed.

Lemma kind_listed kind : usageKindExpr kind ∈ RECORD_KINDS.
Proof.
  unfold usageKindExpr. destruct (bool_decide_reflect (kind ∈ USAGE_RECORD_KINDS)) as [Hin|_]; [|apply (bool_decide_unpack _); by vm_compute].
  change RECORD_KINDS with (USAGE_RECORD_KINDS ++ [js "other"]). apply elem_of_app. by left.
Qed.

Lemma joined_rows_ok userId orgId period d : uuid_ids d -> joined_ok (joined_rows userId orgId period d).
Proof.
  intros Hu. assert (forall j, j ∈ joined_rows userId orgId period d -> plain_group (group_of j) /\ j_kind j ∈ RECORD_KINDS) as Hj; [|split; by intros j [? ?]%Hj].
  intros j (e & _ & Hj)%list_elem_of_omap. unfold joined_row in Hj. destruct (meta d !! e_id e) as [m|]; [|done]. cbn in Hj. destruct (negb _); [done|].
  destruct (e_runId e) as [runId|]; [|done]. cbn in Hj. destruct (zeroRuns d !! runId) as [zr|] eqn:Ez; [|done]. cbn in Hj.
  destruct (agentRuns d !! runId) as [ar|]; [|done]. cbn in Hj. injection Hj as <-. destruct (Hu runId zr Ez) as [Hr Ht]. split; [|apply kind_listed].
  unfold group_of, is_threaded, plain_group. cbn [j_source j_chatThreadId j_userId j_runId].
  destruct (bool_decide (sourceExpr _ ∈ _)); [destruct (zr_chatThreadId zr) as [t|]|]; cbn [group_source]; split; auto using source_plain.
Qed.

(** *** Pages *)

Lemma page_rows record source pageSize off r : r ∈ queryUsageRecordRows record source pageSize off ->
  source_is source (rk_source r) /\ r ∈ record.
Proof.
  unfold queryUsageRecordRows. intros Hr. assert (r ∈ filter (fun row => source_is source (rk_source row)) record) as Hin; [|by apply list_elem_of_filter in Hin].
  rewrite <- (sort_stable_perm (fun a b => rk_lastActivity b <? rk_lastActivity a)). eapply sublist_subseteq; [|exact Hr].
  etransitivity; [apply sublist_take|apply sublist_drop].
Qed.

Lemma page_keys record source pageSize off : NoDup (rk_rowKey <$> record) -> NoDup (rk_rowKey <$> queryUsageRecordRows record source pageSize off).
Proof.
  intros Hnd. unfold queryUsageRecordRows.
  set (l := sort_stable _ _). assert (NoDup (rk_rowKey <$> l)) as Hl.
  { unfold l. rewrite sort_stable_perm. eapply sublist_NoDup; [exact Hnd|]. apply fmap_sublist, sublist_filter. }
  eapply sublist_NoDup; [exact Hl|]. apply fmap_sublist. etransitivity; [apply sublist_take|apply sublist_drop].
Qed.

Section Record.
Context (collate : jsstr -> jsstr -> bool) (offset : Z -> Z) (retrieve : jsstr -> result (option Z)) (getUserList : list jsstr -> result (list ClerkUser)).

(** C32: A usage record accounts for every charge of its period. The total is what the processed
    events of the user (of everyone, for a team) with a run were charged, for the source asked
    for, whatever page is read; the number of rows is the number of their keys. No key is on a
    page twice, a row has the credits and tokens of exactly the events with its key, and when no
    charge is negative its breakdown adds up to its credits. *)
Theorem usage_record_accounts now args d response d' period periods : uuid_ids (rd_usage d) ->
  resolve_period offset retrieve now (ra_orgId args) (ra_range args) (rd_periods d) = (Ok (Some period), periods) ->
  zeroUsageRecord collate offset retrieve getUserList now args d = (Ok response, d') ->
  let joined := joined_rows (record_user args) (ra_orgId args) period (rd_usage d) in
  let asked := filter (fun j => source_is (ra_source args) (j_source j)) joined in
  rr_period response = period /\ rr_totalCredits response = sum_of j_credits asked /\
  rr_total response = Z.of_nat (length (distinct (rowKeyExpr <$> asked))) /\
  NoDup ((fun row => rk_rowKey (uu_row row)) <$> rr_rows response) /\
  Forall (fun row => let mine := filter (fun j => rowKeyExpr j = rk_rowKey (uu_row row)) joined in
    source_is (ra_source args) (rk_source (uu_row row)) /\
    rk_credits (uu_row row) = sum_of j_credits mine /\ rk_tokens (uu_row row) = sum_of j_tokens mine /\
    ((forall j, j ∈ joined -> 0 <= j_credits j) -> sum_of kb_credits (uu_breakdown row) = rk_credits (uu_row row))) (rr_rows response).
Proof.
  intros Hu Hp Hr joined asked. unfold zeroUsageRecord in Hr. rewrite Hp in Hr. cbv zeta in Hr. fold joined in Hr.
  pose proof (joined_rows_ok (record_user args) (ra_orgId args) period (rd_usage d) Hu : joined_ok joined) as Hok.
  pose proof (totals_account (rd_usage d) joined Hok (ra_source args)) as Ht. destruct (queryUsageRecordTotals _ _) as [total totalCredits].
  destruct Ht as [Htc Ht]. set (rows := queryUsageRecordRows _ _ _ _) in Hr.
  assert (forall r, r ∈ rows -> source_is (ra_source args) (rk_source r) /\ r ∈ recordWith (rd_usage d) joined) as Hrows by (intros r; apply page_rows).
  assert (NoDup (rk_rowKey <$> rows)) as Hnd by (apply page_keys; by apply NoDup_keys).
  destruct (match ra_scope args with Mine => _ | Team => _ end) as [[emails|e] cache]; [|done]. cbn in Hr. injection Hr as <- _. cbn [rr_period rr_totalCredits rr_total rr_rows].
  split_and!; [done|done|done|by rewrite <- list_fmap_compose|]. apply Forall_forall. intros row (r & -> & Hin)%list_elem_of_fmap. cbn [uu_row uu_breakdown].
  destruct (Hrows r Hin) as [Hs Hrec]. destruct (row_accounts (rd_usage d) joined Hok r Hrec) as [Hc Htk]. split_and!; [done|done|done|].
  intros Hpos. rewrite Hc. apply breakdown_accounts; [done|done|by apply list_elem_of_fmap_2].
Qed.

End Record.

(** ** Witnesses *)

(** Clocks one hour ahead of universal time, two from 01:00 of day 100. *)
Definition sample_offset (t : Z) : Z := if t <? 100 * MS_PER_DAY + 3600000 then 3600000 else 7200000.

Lemma sample_midnight date start :
  (date, start) ∈ [(99, 99 * MS_PER_DAY - 3600000); (100, 100 * MS_PER_DAY - 3600000); (101, 101 * MS_PER_DAY - 7200000)] ->
  regular_midnight sample_offset date start.
Proof.
  intros Hin. assert (date = 99 /\ start = 99 * 86400000 - 3600000 \/ date = 100 /\ start = 100 * 86400000 - 3600000 \/
    date = 101 /\ start = 101 * 86400000 - 7200000) as Hds by (unfold MS_PER_DAY in Hin; rewrite !elem_of_cons, elem_of_nil in Hin; naive_solver).
  clear Hin. split.
  - split. exists (100 * MS_PER_DAY + 3600000), 3600000, 7200000. split_and!; [done|by vm_compute|by vm_compute|done|done].
  - Z.to_euclidean_division_equations. lia.
  - unfold MS_PER_DAY. lia.
  - unfold partsInTz, sample_offset, MS_PER_DAY. destruct (_ <? _) eqn:E; Z.to_euclidean_division_equations; lia.
  - intros t. unfold partsInTz, sample_offset, MS_PER_DAY. destruct (_ <? _) eqn:E; Z.to_euclidean_division_equations; lia.
  - intros t. unfold partsInTz, sample_offset, MS_PER_DAY. destruct (_ <? _) eqn:E; Z.to_euclidean_division_equations; lia.
Qed.

Lemma usage_days_exact_witness :
  exists py, fixedRangeToPeriod sample_offset (100 * MS_PER_DAY + 36000000) RYesterday = Some py /\
    (forall t, pe_start py <= t < pe_end py <-> calendarDateInTz sample_offset t = 99).
Proof.
  destruct (usage_days_exact sample_offset (100 * MS_PER_DAY + 36000000) (99 * MS_PER_DAY - 3600000) (100 * MS_PER_DAY - 3600000) (101 * MS_PER_DAY - 7200000))
    as (py & pt & Hy & _ & _ & Hd & _).
  - apply sample_midnight. apply (bool_decide_unpack _). vm_compute. exact I.
  - apply sample_midnight. apply (bool_decide_unpack _). vm_compute. exact I.
  - apply sample_midnight. apply (bool_decide_unpack _). vm_compute. exact I.
  - exists py. split; [exact Hy|exact Hd].
Defined.

(** Where midnight is skipped (clocks four hours behind go to three behind at midnight of day
    100), the search ends an hour before the day, on the day before. *)
Lemma skipped_midnight :
  let skipping t := if t <? 100 * MS_PER_DAY + 14400000 then -14400000 else -10800000 in
  startOfCalendarDateInTz skipping 100 = 100 * MS_PER_DAY + 10800000 /\
  calendarDateInTz skipping (startOfCalendarDateInTz skipping 100) = 99 /\
  calendarDateInTz skipping (100 * MS_PER_DAY + 14400000) = 100.
Proof. vm_compute. done. Qed.

(** A period that ends on 31 March 2026 starts on 3 March. *)
Lemma short_billing_period :
  pe_start <$> period_ending (Some ((month_start 2026 3 + 30) * DAY_MS)) = Some ((month_start 2026 3 + 2) * DAY_MS).
Proof. vm_compute. done. Qed.

Definition sample_charge (id quantity credits : Z) (category : jsstr) : UsageEvent :=
  {| e_id := id; e_runId := Some (js "r"); e_orgId := js "o"; e_kind := js "model"; e_provider := js "m"; e_category := category; e_quantity := quantity;
     e_creditsCharged := Some credits; e_status := EvProcessed; e_billingError := None; e_processedAt := Some 50 |}.

Definition sample_meta (key : jsstr) : EventMeta := {| em_userId := js "u"; em_idempotencyKey := key; em_createdAt := 40 |}.

Definition sample_record_db : RecordDb :=
  {| rd_usage :=
       {| ledger := {| orgs := ∅; expires := []; events := [sample_charge 1 100 30 (js "tokens.input"); sample_charge 2 10 12 (js "tokens.output")];
                       pricing := []; invoices := [] |};
          meta := {[1 := sample_meta (js "k1"); 2 := sample_meta (js "k2")]}; observations := [];
          agentRuns := {[js "r" := {| ag_userId := js "u"; ag_orgId := js "o"; ag_prompt := js "p"; ag_status := Completed; ag_createdAt := 10;
                                      ag_startedAt := Some 10; ag_completedAt := Some 20 |}]};
          zeroRuns := {[js "r" := {| zr_triggerSource := js "web"; zr_automationId := None; zr_modelProvider := None; zr_selectedModel := None;
                                     zr_chatThreadId := Some (js "t"); zr_summary := None |}]};
          chatThreads := {[js "t" := {| ct_userId := js "u"; ct_title := None |}]}; usageMessages := []; signals := [] |};
     rd_userCache := ∅; rd_periods := ∅ |}.

Definition sample_record_args : UsageRecordArgs :=
  {| ra_userId := js "u"; ra_orgId := js "o"; ra_scope := Mine; ra_range := RAll; ra_page := 1; ra_pageSize := 20; ra_source := None |}.

Definition sample_before (a b : jsstr) : bool := (length a <? length b)%nat.

Definition sample_record : result UsageRecordResponse * RecordDb :=
  zeroUsageRecord sample_before sample_offset (fun _ => Ok None) (fun _ => Ok []) 100 sample_record_args sample_record_db.

Lemma sample_uuid_ids : uuid_ids (rd_usage sample_record_db).
Proof.
  intros runId zr Hz. cbn [rd_usage sample_record_db zeroRuns] in Hz. apply lookup_singleton_Some in Hz as [<- <-]. split; [apply (bool_decide_unpack _); by vm_compute|].
  intros t [= <-]. apply (bool_decide_unpack _). by vm_compute.
Qed.

Lemma usage_record_accounts_witness :
  match sample_record.1 with Ok response => rr_totalCredits response = 42 /\ rr_total response = 1 | Throw _ => False end.
Proof.
  destruct sample_record as [[response|] d'] eqn:E; [|vm_compute in E; discriminate E].
  destruct (usage_record_accounts sample_before sample_offset (fun _ => Ok None) (fun _ => Ok []) 100 sample_record_args sample_record_db response d' None ∅
    sample_uuid_ids eq_refl E) as (_ & Hc & Ht & _).
  split; [etransitivity; [exact Hc|]|etransitivity; [exact Ht|]]; vm_compute; reflexivity.
Defined.

End UsageAccounts.
