(* ===== verification/ModelPolicies.v ===== *)
(** Models of an organization (turbo/apps/api/src/signals/services/zero-model-policy.service.ts,
    zero-model-selection.service.ts, routes of model policies, and the tables of
    packages/api-contracts/src/contracts/model-providers.ts they read): which models a workspace
    offers, over which provider, and which one a run of a member uses. *)

From S2P Require Import Prelude JsString JsValue JsRecord Aggregates RunStore Credits Tokens UsageIntake.
Import Aggregates RunStore Credits Tokens UsageIntake.

Module ModelPolicies.

(** ** Catalog *)

Definition MODEL_PROVIDER_TYPES : list jsstr :=
  [js "claude-code-oauth-token"; js "anthropic-api-key"; js "openrouter-api-key"; js "moonshot-api-key"; js "minimax-api-key"; js "deepseek-api-key";
   js "zai-api-key"; js "vercel-ai-gateway"; js "openrouter-codex"; js "vercel-ai-gateway-codex"; js "openai-api-key"; js "codex-oauth-token";
   js "azure-foundry"; js "aws-bedrock"; js "vm0"].

Definition claude_providers : list jsstr :=
  [js "vm0"; js "claude-code-oauth-token"; js "anthropic-api-key"; js "openrouter-api-key"; js "vercel-ai-gateway"].
Definition gpt_providers : list jsstr := [js "vm0"; js "openai-api-key"; js "codex-oauth-token"; js "openrouter-codex"; js "vercel-ai-gateway-codex"].
Definition kimi_providers : list jsstr := [js "vm0"; js "moonshot-api-key"; js "openrouter-api-key"; js "vercel-ai-gateway"].

Definition MODEL_FIRST_PROVIDER_COMPATIBILITY : Rec (list jsstr) :=
  [(js "claude-fable-5", claude_providers); (js "claude-opus-4-8", claude_providers); (js "claude-opus-4-7", claude_providers);
   (js "claude-opus-4-6", claude_providers); (js "claude-sonnet-4-6", claude_providers); (js "gpt-5.5", gpt_providers); (js "gpt-5.4", gpt_providers);
   (js "gpt-5.4-mini", gpt_providers); (js "deepseek-v4-pro", [js "vm0"; js "deepseek-api-key"; js "openrouter-api-key"]);
   (js "kimi-k2.6", kimi_providers); (js "kimi-k2.5", kimi_providers); (js "MiniMax-M3", [js "vm0"; js "minimax-api-key"]);
   (js "glm-5.1", [js "vm0"; js "zai-api-key"; js "openrouter-api-key"])].

Definition getProvidersForModel (model : jsstr) : list jsstr :=
  match normalizeRunModelId model with
  | Some canonical => if isSupportedRunModel (Some canonical) then default [] (rec_own MODEL_FIRST_PROVIDER_COMPATIBILITY canonical) else []
  | None => []
  end.

Definition isModelSupportedByProvider (model type : jsstr) : bool := bool_decide (type ∈ getProvidersForModel model).

Definition DEFAULT_ORG_MODEL_POLICY_MODELS : list jsstr :=
  [js "claude-fable-5"; js "claude-opus-4-8"; js "claude-sonnet-4-6"; js "deepseek-v4-pro"; js "gpt-5.5"].

Definition DEFAULT_ORG_MODEL_POLICY_DEFAULT_MODEL : jsstr := js "deepseek-v4-pro".

(** ** Tables *)

(** A row of [org_model_policies]; a route without the columns of its history. *)
Record Route := { ro_model : jsstr; ro_isDefault : bool; ro_defaultProviderType : jsstr; ro_credentialScope : jsstr; ro_modelProviderId : option jsstr }.
Record PolicyRow := { mp_id : Z; mp_orgId : jsstr; mp_route : Route; mp_createdByUserId : jsstr; mp_updatedByUserId : jsstr; mp_createdAt : Z; mp_updatedAt : Z }.

Record ProviderRow := { pv_id : jsstr; pv_orgId : jsstr; pv_userId : jsstr; pv_type : jsstr }.

(** [preferences]: the selected model of [org_members_metadata], by organization and user. *)
Record PolicyDb := { policies : list PolicyRow; providers : list ProviderRow; preferences : gmap (jsstr * jsstr) (option jsstr) }.

Definition mp_model (r : PolicyRow) : jsstr := ro_model (mp_route r).
Definition mp_isDefault (r : PolicyRow) : bool := ro_isDefault (mp_route r).

#[export] Instance route_eq_dec : EqDecision Route.
Proof. solve_decision. Defined.

Definition ORG_SENTINEL_USER_ID : jsstr := js "__org__".

Definition isOAuthMemberProviderType (type : jsstr) : bool :=
  bool_decide (type = js "claude-code-oauth-token") || bool_decide (type = js "codex-oauth-token").

(** The check constraints of the table. *)
Definition route_checks (r : Route) : bool :=
  let member := bool_decide (ro_credentialScope r = js "member") in
  (bool_decide (ro_credentialScope r = js "org") || member) &&
  (negb member || bool_decide (ro_modelProviderId r = None)) &&
  (negb (bool_decide (ro_defaultProviderType r = js "vm0")) || bool_decide (ro_modelProviderId r = None)) &&
  (negb member || isOAuthMemberProviderType (ro_defaultProviderType r)) &&
  (negb (isOAuthMemberProviderType (ro_defaultProviderType r)) || member).

(** The reference of the provider column. *)
Definition route_reference (providers : list ProviderRow) (r : Route) : bool :=
  match ro_modelProviderId r with None => true | Some id => bool_decide (id ∈ pv_id <$> providers) end.

(** The unique indexes, and the constraints of every row. *)
Definition constraints_ok (d : PolicyDb) : bool :=
  forallb (fun r => route_checks (mp_route r) && route_reference (providers d) (mp_route r)) (policies d) &&
  bool_decide (NoDup (mp_id <$> policies d)) &&
  bool_decide (NoDup ((fun r => (mp_orgId r, mp_model r)) <$> policies d)) &&
  bool_decide (NoDup (mp_orgId <$> filter (fun r => mp_isDefault r = true) (policies d))).

Definition with_policies (l : list PolicyRow) (d : PolicyDb) : PolicyDb :=
  {| policies := l; providers := providers d; preferences := preferences d |}.

Definition CONSTRAINT_VIOLATION : jsstr := js "violates constraint".

(** A statement that leaves the table in a state its constraints refuse fails. *)
Definition statement (l : list PolicyRow) (d : PolicyDb) : result PolicyDb :=
  let d' := with_policies l d in if constraints_ok d' then Ok d' else Throw CONSTRAINT_VIOLATION.

Definition next_policy_id (l : list PolicyRow) : Z := 1 + foldr Z.max 0 (mp_id <$> l).

(** [INSERT .. ON CONFLICT (org_id, model) DO NOTHING], row by row. *)
Definition insert_policy (now : Z) (orgId userId : jsstr) (l : list PolicyRow) (r : Route) : list PolicyRow :=
  if bool_decide ((orgId, ro_model r) ∈ (fun r => (mp_orgId r, mp_model r)) <$> l) then l
  else l ++ [{| mp_id := next_policy_id l; mp_orgId := orgId; mp_route := r; mp_createdByUserId := userId; mp_updatedByUserId := userId;
                mp_createdAt := now; mp_updatedAt := now |}].

Definition insert_policies (now : Z) (orgId userId : jsstr) (routes : list Route) (d : PolicyDb) : result PolicyDb :=
  statement (foldl (insert_policy now orgId userId) (policies d) routes) d.

Definition update_policies (which : PolicyRow -> bool) (change : PolicyRow -> PolicyRow) (d : PolicyDb) : result PolicyDb :=
  statement ((fun r => if which r then change r else r) <$> policies d) d.

Definition set_default (b : bool) (r : Route) : Route :=
  {| ro_model := ro_model r; ro_isDefault := b; ro_defaultProviderType := ro_defaultProviderType r; ro_credentialScope := ro_credentialScope r;
     ro_modelProviderId := ro_modelProviderId r |}.

Definition with_route (now : option Z) (userId : option jsstr) (route : Route) (r : PolicyRow) : PolicyRow :=
  {| mp_id := mp_id r; mp_orgId := mp_orgId r; mp_route := route; mp_createdByUserId := mp_createdByUserId r;
     mp_updatedByUserId := default (mp_updatedByUserId r) userId; mp_createdAt := mp_createdAt r; mp_updatedAt := default (mp_updatedAt r) now |}.

(** [rows.map(f)] where [f] may throw. *)
Fixpoint result_all {A} (l : list (result A)) : result (list A) :=
  match l with [] => Ok [] | r :: rest => a ← r; (cons a) <$> result_all rest end.

(** ** The policies of an organization *)

(** [value in MODEL_PROVIDER_TYPES], which also holds for inherited names. *)
Definition parseProviderType (value : jsstr) : bool := bool_decide (value ∈ MODEL_PROVIDER_TYPES) || bool_decide (value ∈ object_prototype_names).
Definition parseSupportedModel (value : jsstr) : bool := bool_decide (value ∈ SUPPORTED_RUN_MODELS).
Definition parseCredentialScope (value : jsstr) : bool := bool_decide (value = js "org") || bool_decide (value = js "member").

Definition loadRows (orgId : jsstr) (d : PolicyDb) : list PolicyRow :=
  filter (fun r => mp_orgId r = orgId /\ mp_model r ∈ SUPPORTED_RUN_MODELS) (policies d).

Definition getSupportedModelRank (model : jsstr) : nat :=
  match list_find (fun m => m = model) SUPPORTED_RUN_MODELS with Some (index, _) => index | None => length SUPPORTED_RUN_MODELS end.

Definition sortRowsByCatalog (rows : list PolicyRow) : list PolicyRow :=
  sort_stable (fun a b => (getSupportedModelRank (mp_model a) <? getSupportedModelRank (mp_model b))%nat) rows.

Definition getDefaultOrgModelPolicySeed : list Route :=
  (fun model => {| ro_model := model; ro_isDefault := bool_decide (model = DEFAULT_ORG_MODEL_POLICY_DEFAULT_MODEL); ro_defaultProviderType := js "vm0";
                   ro_credentialScope := js "org"; ro_modelProviderId := None |}) <$> DEFAULT_ORG_MODEL_POLICY_MODELS.

Definition fallback_default (existing : list PolicyRow) : option PolicyRow :=
  match head (filter (fun r => mp_model r = DEFAULT_ORG_MODEL_POLICY_DEFAULT_MODEL) existing) with
  | Some r => Some r
  | None => head (sortRowsByCatalog existing)
  end.

Definition ensureOrgModelPolicies (now : Z) (orgId userId : jsstr) (d : PolicyDb) : result (list PolicyRow) * PolicyDb :=
  let existing := loadRows orgId d in
  let reload r := match r with Ok d' => (Ok (sortRowsByCatalog (loadRows orgId d')), d') | Throw e => (Throw e, d) end in
  if (0 <? length existing)%nat then
    if existsb mp_isDefault existing then (Ok (sortRowsByCatalog existing), d)
    else
      match fallback_default existing with
      | Some fallback =>
          reload (update_policies (fun r => mp_id r =? mp_id fallback)
            (fun r => with_route (Some now) (Some userId) (set_default true (mp_route r)) r) d)
      | None => (Ok (sortRowsByCatalog existing), d)
      end
  else
    let missing := filter (fun seed => ro_model seed ∉ mp_model <$> existing) getDefaultOrgModelPolicySeed in
    if (length missing =? 0)%nat then (Ok existing, d) else reload (insert_policies now orgId userId missing d).

Definition org_providers (orgId : jsstr) (d : PolicyDb) : list ProviderRow :=
  filter (fun p => pv_orgId p = orgId /\ pv_userId p = ORG_SENTINEL_USER_ID) (providers d).

Definition listOrgProviderRoutes (orgId : jsstr) (d : PolicyDb) : list ProviderRow :=
  filter (fun p => parseProviderType (pv_type p) = true) (org_providers orgId d).

Definition quoted (s : jsstr) : jsstr := [34] ++ s ++ [34].

(** The message of an invalid route. *)
Definition validateOrgProviderRoute (orgId : jsstr) (policy : Route) (d : PolicyDb) : option jsstr :=
  if negb (isModelSupportedByProvider (ro_model policy) (ro_defaultProviderType policy))
  then Some (js "Model " ++ quoted (ro_model policy) ++ js " is not supported by provider " ++ quoted (ro_defaultProviderType policy))
  else if bool_decide (ro_credentialScope policy = js "member") then
    if negb (isOAuthMemberProviderType (ro_defaultProviderType policy)) then Some (js "Member routes require an OAuth provider")
    else if truthy_text (ro_modelProviderId policy) then Some (js "Member routes cannot store a provider ID") else None
  else if isOAuthMemberProviderType (ro_defaultProviderType policy) then Some (js "OAuth provider routes must use member credentials")
  else if bool_decide (ro_defaultProviderType policy = js "vm0") then
    if truthy_text (ro_modelProviderId policy) then Some (js "Built-in routes cannot store a provider ID") else None
  else
    match truthy_text (ro_modelProviderId policy) with
    | None => Some (js "Org provider routes require a provider ID")
    | Some id =>
        match head (filter (fun p => pv_id p = id) (org_providers orgId d)) with
        | None => Some (js "Selected provider is not configured for this workspace")
        | Some provider =>
            if bool_decide (pv_type provider = ro_defaultProviderType policy) then None
            else Some (js "Selected provider type does not match the route")
        end
    end.

(** The loop of [validateUpdatePolicies], over the models seen and the number of defaults. *)
Fixpoint validate_loop (orgId : jsstr) (d : PolicyDb) (seenModels : list jsstr) (defaultCount : nat) (l : list Route) : option jsstr :=
  match l with
  | [] => if (defaultCount =? 1)%nat then None else Some (js "Request must include exactly one default model")
  | policy :: rest =>
      if negb (parseSupportedModel (ro_model policy)) then Some (js "Unknown model " ++ quoted (ro_model policy))
      else if negb (parseProviderType (ro_defaultProviderType policy)) then Some (js "Unknown model provider type " ++ quoted (ro_defaultProviderType policy))
      else if negb (parseCredentialScope (ro_credentialScope policy)) then Some (js "Unknown credential scope " ++ quoted (ro_credentialScope policy))
      else if bool_decide (ro_model policy ∈ seenModels) then Some (js "Duplicate model " ++ quoted (ro_model policy))
      else
        match validateOrgProviderRoute orgId policy d with
        | Some routeError => Some routeError
        | None => validate_loop orgId d (ro_model policy :: seenModels) (defaultCount + if ro_isDefault policy then 1 else 0) rest
        end
  end.

(** The message of a refused update. *)
Definition validateUpdatePolicies (orgId : jsstr) (l : list Route) (d : PolicyDb) : option jsstr :=
  if (length l =? 0)%nat then Some (js "Request must include at least one model") else validate_loop orgId d [] 0 l.

Inductive RouteStatus := Valid | MissingProvider | Invalid.

#[export] Instance route_status_eq_dec : EqDecision RouteStatus.
Proof. solve_decision. Defined.

Definition provider_missing : RouteStatus * option jsstr := (MissingProvider, Some (js "The selected workspace provider is missing.")).

Definition getRouteStatus (r : Route) (providersById : list ProviderRow) : RouteStatus * option jsstr :=
  if negb (isModelSupportedByProvider (ro_model r) (ro_defaultProviderType r)) then (Invalid, Some (js "Provider does not support this model."))
  else if bool_decide (ro_credentialScope r = js "member") then
    if negb (isOAuthMemberProviderType (ro_defaultProviderType r)) then (Invalid, Some (js "Member route requires an OAuth provider."))
    else (Valid, None)
  else if bool_decide (ro_defaultProviderType r = js "vm0") then (Valid, None)
  else
    match truthy_text (ro_modelProviderId r) with
    | None => provider_missing
    | Some id =>
        match last (filter (fun p => pv_id p = id) providersById) with
        | None => provider_missing
        | Some provider => if bool_decide (pv_type provider = ro_defaultProviderType r) then (Valid, None) else provider_missing
        end
    end.

Record OrgModelPolicy := { om_id : Z; om_route : Route; om_status : RouteStatus * option jsstr; om_createdAt : Z; om_updatedAt : Z }.

Definition serializePolicy (providersById : list ProviderRow) (policy : PolicyRow) : result OrgModelPolicy :=
  let r := mp_route policy in
  if negb (parseSupportedModel (ro_model r) && parseProviderType (ro_defaultProviderType r) && parseCredentialScope (ro_credentialScope r))
  then Throw (js "Stored org model policy contains unsupported values")
  else Ok {| om_id := mp_id policy; om_route := r; om_status := getRouteStatus r providersById; om_createdAt := mp_createdAt policy;
             om_updatedAt := mp_updatedAt policy |}.

(** The policies, and the default one. *)
Definition OrgModelPoliciesResponse : Type := list OrgModelPolicy * option OrgModelPolicy.

Definition selectWorkspaceDefaultPolicy (l : list OrgModelPolicy) : option OrgModelPolicy :=
  head (filter (fun p => ro_isDefault (om_route p) = true) l).

Definition listOrgModelPolicies (now : Z) (orgId userId : jsstr) (d : PolicyDb) : result OrgModelPoliciesResponse * PolicyDb :=
  match ensureOrgModelPolicies now orgId userId d with
  | (Throw e, d') => (Throw e, d')
  | (Ok rows, d') =>
      ((fun l => (l, selectWorkspaceDefaultPolicy l)) <$> result_all (serializePolicy (listOrgProviderRoutes orgId d') <$> rows), d')
  end.

(** The routes without a default: the rows the insert proposes. *)
Definition proposed (l : list Route) : list Route := set_default false <$> l.

(** The transaction of [updateOrgModelPolicies$]. *)
Definition update_transaction (now : Z) (orgId userId : jsstr) (l : list Route) (d : PolicyDb) : result PolicyDb :=
  d1 ← insert_policies now orgId userId (proposed l) d;
  d2 ← statement (filter (fun r => ~ (mp_orgId r = orgId /\ mp_model r ∈ SUPPORTED_RUN_MODELS /\ mp_model r ∉ ro_model <$> l)) (policies d1)) d1;
  d3 ← update_policies (fun r => bool_decide (mp_orgId r = orgId)) (fun r => with_route None None (set_default false (mp_route r)) r) d2;
  foldl (fun acc policy =>
    d ← acc;
    update_policies (fun r => bool_decide (mp_orgId r = orgId) && bool_decide (mp_model r = ro_model policy))
      (with_route (Some now) (Some userId) policy) d) (Ok d3) l.

Inductive UpdateReply := Refused (message : jsstr) | Updated (response : OrgModelPoliciesResponse).

Definition updateOrgModelPolicies (now : Z) (orgId userId : jsstr) (l : list Route) (d : PolicyDb) : result UpdateReply * PolicyDb :=
  match ensureOrgModelPolicies now orgId userId d with
  | (Throw e, d1) => (Throw e, d1)
  | (Ok _, d1) =>
      match validateUpdatePolicies orgId l d1 with
      | Some message => (Ok (Refused message), d1)
      | None =>
          match update_transaction now orgId userId l d1 with
          | Throw e => (Throw e, d1)
          | Ok d2 => let '(response, d3) := listOrgModelPolicies now orgId userId d2 in (Updated <$> response, d3)
          end
      end
  end.

(** ** The model of a run *)

Record ModelFirstPin := { mf_modelProviderId : option jsstr; mf_modelProviderType : option jsstr; mf_credentialScope : option jsstr; mf_selectedModel : option jsstr }.

Definition modelOnlyModelFirstPin (selectedModel : option jsstr) : ModelFirstPin :=
  {| mf_modelProviderId := None; mf_modelProviderType := None; mf_credentialScope := None; mf_selectedModel := selectedModel |}.

Definition parseModelProviderCredentialScope (value : jsstr) : result (option jsstr) :=
  if parseCredentialScope value then Ok (Some value) else Throw (js "Unknown model provider credential scope " ++ quoted value).

Definition pin_of (policy : PolicyRow) : result ModelFirstPin :=
  let r := mp_route policy in
  scope ← parseModelProviderCredentialScope (ro_credentialScope r);
  Ok {| mf_modelProviderId := ro_modelProviderId r; mf_modelProviderType := Some (ro_defaultProviderType r); mf_credentialScope := scope;
        mf_selectedModel := Some (ro_model r) |}.

Definition NO_PREFERENCE : jsstr := js "__no_preference__".

(** The fuel counts the calls. *)
Fixpoint resolveDefaultModelFirstPin (fuel : nat) (orgId userId : jsstr) (d : PolicyDb) : option (result ModelFirstPin) :=
  match fuel with
  | O => None
  | S fuel =>
      let preferredModel := truthy_text (mjoin (preferences d !! (orgId, userId))) in
      let found := match preferredModel with
                   | Some model => head (filter (fun r => mp_orgId r = orgId /\ mp_model r = model) (policies d))
                   | None => head (filter (fun r => mp_orgId r = orgId /\ mp_isDefault r = true) (policies d))
                   end in
      match found, preferredModel with
      | Some policy, _ => Some (pin_of policy)
      | None, Some _ => resolveDefaultModelFirstPin fuel orgId NO_PREFERENCE d
      | None, None => Some (Ok (modelOnlyModelFirstPin None))
      end
  end.

Definition loadAvailableModelProviderPin (orgId userId modelProviderId : jsstr) (d : PolicyDb) : option jsstr :=
  pv_type <$> head (filter (fun p => pv_id p = modelProviderId /\ pv_orgId p = orgId /\ (pv_userId p = userId \/ pv_userId p = ORG_SENTINEL_USER_ID)) (providers d)).

Definition MODEL_FIRST_SELECTION_PROVIDER_ID : jsstr := js "00000000-0000-4000-8000-000000000000".

(** A refused selection is the message of a bad request. *)
Definition resolveModelSelectionPin (now : Z) (orgId userId modelProviderId selectedModel : jsstr) (d : PolicyDb) : result (jsstr + ModelFirstPin) * PolicyDb :=
  if negb (bool_decide (modelProviderId = MODEL_FIRST_SELECTION_PROVIDER_ID)) then
    (Ok match loadAvailableModelProviderPin orgId userId modelProviderId d with
        | None => inl (js "Unknown model provider for this workspace")
        | Some type =>
            if bool_decide (type = js "vm0") && negb (isSupportedRunModel (Some selectedModel)) then inl (js "Invalid model selection")
            else inr {| mf_modelProviderId := Some modelProviderId; mf_modelProviderType := None; mf_credentialScope := None;
                        mf_selectedModel := Some selectedModel |}
        end, d)
  else if negb (isSupportedRunModel (Some selectedModel)) then (Ok (inl (js "Invalid model selection")), d)
  else
    match ensureOrgModelPolicies now orgId userId d with
    | (Throw e, d') => (Throw e, d')
    | (Ok _, d') =>
        (match head (filter (fun r => mp_orgId r = orgId /\ mp_model r = selectedModel) (policies d')) with
         | None => Ok (inr (modelOnlyModelFirstPin (Some selectedModel)))
         | Some policy => inr <$> pin_of policy
         end, d')
    end.

Definition resolveEffectiveModelProviderType (orgId userId : jsstr) (modelPin : ModelFirstPin) (requestedModelProvider : option jsstr) (d : PolicyDb) : option jsstr :=
  match truthy_text (mf_modelProviderType modelPin) with
  | Some type => Some type
  | None =>
      match truthy_text (mf_modelProviderId modelPin) with
      | None => requestedModelProvider
      | Some id => match loadAvailableModelProviderPin orgId userId id d with Some type => Some type | None => requestedModelProvider end
      end
  end.

(** The provider, and whether the credits of the organization admit it. *)
Definition resolveModelFirstProviderAdmission (now : Z) (orgId userId : jsstr) (modelPin : ModelFirstPin) (requestedModelProvider : option jsstr)
    (s : Store) (d : PolicyDb) : option jsstr * bool :=
  let effectiveModelProvider := resolveEffectiveModelProviderType orgId userId modelPin requestedModelProvider d in
  (effectiveModelProvider, checkOrgCreditsForRunAdmission now orgId effectiveModelProvider s).

(** ** Requests (routes of model policies) *)

Inductive PolicyReply := AdminRequired | PolicyBadRequest (message : jsstr) | PolicyOk (response : OrgModelPoliciesResponse).

Definition updateModelPolicies (now : Z) (admin : bool) (orgId userId : jsstr) (l : list Route) (d : PolicyDb) : result PolicyReply * PolicyDb :=
  if negb admin then (Ok AdminRequired, d)
  else
    let '(r, d') := updateOrgModelPolicies now orgId userId l d in
    ((fun reply => match reply with Refused message => PolicyBadRequest message | Updated response => PolicyOk response end) <$> r, d').

End ModelPolicies.
