(* ===== verification/ModelSelection.v ===== *)
(** Model policies: an accepted update is what the workspace lists from then on, with one default
    and valid routes, and what the runs of its members use. *)

From Stdlib Require Import Sorted.
From S2P Require Import Prelude JsString JsValue JsRecord Aggregates RunStore Credits Tokens UsageIntake ModelPolicies.
Import Aggregates RunStore Credits Tokens UsageIntake ModelPolicies.

Module ModelSelection.

(** ** Constraints of the table *)

Definition row_ok (providers : list ProviderRow) (r : PolicyRow) : Prop :=
  route_checks (mp_route r) = true /\ route_reference providers (mp_route r) = true.

Record table_ok (providers : list ProviderRow) (l : list PolicyRow) : Prop := {
  to_rows : forall r, r ∈ l -> row_ok providers r;
  to_ids : NoDup (mp_id <$> l);
  to_keys : forall r r', r ∈ l -> r' ∈ l -> mp_orgId r = mp_orgId r' -> mp_model r = mp_model r' -> r = r';
  to_default : forall r r', r ∈ l -> r' ∈ l -> mp_isDefault r = true -> mp_isDefault r' = true -> mp_orgId r = mp_orgId r' -> r = r' }.

(** Distinct values of a function and its injectivity, on a list without duplicates. *)
Lemma NoDup_fmap_inj {A B} (f : A -> B) (l : list A) : NoDup l -> NoDup (f <$> l) <-> (forall x y, x ∈ l -> y ∈ l -> f x = f y -> x = y).
Proof.
  intros Hnd. split; [|by intros Hinj; apply NoDup_fmap_2_strong].
  intros Hf x y Hx Hy Heq. apply list_elem_of_lookup in Hx as [i Hi], Hy as [j Hj].
  assert (i = j) as ->; [|congruence]. eapply (NoDup_lookup (f <$> l) i j (f x)); [done|by rewrite list_lookup_fmap, Hi|by rewrite list_lookup_fmap, Hj, Heq].
Qed.

Lemma constraints_ok_spec d : constraints_ok d = true <-> table_ok (providers d) (policies d).
Proof.
  unfold constraints_ok. rewrite !andb_true_iff, forallb_true, !bool_decide_eq_true. split.
  - intros [[[Hr Hi] Hk] Hd]. assert (NoDup (policies d)) as Hnd by by apply (NoDup_fmap_1 mp_id). split; [|done|..].
    + intros r Hin%Hr. by apply andb_true_iff in Hin.
    + rewrite NoDup_fmap_inj in Hk by done. intros r r' Hin Hin' Ho Hm. apply Hk; [done|done|]. congruence.
    + rewrite NoDup_fmap_inj in Hd by by apply NoDup_filter. intros r r' Hin Hin' H1 H2 Ho. apply Hd; [by apply list_elem_of_filter..|done].
  - intros [Hr Hi Hk Hd]. assert (NoDup (policies d)) as Hnd by by apply (NoDup_fmap_1 mp_id). split_and!; [|done|..].
    + intros r [H1 H2]%Hr. by rewrite H1, H2.
    + rewrite NoDup_fmap_inj by done. intros r r' Hin Hin' [= Ho Hm]. by apply Hk.
    + rewrite NoDup_fmap_inj by by apply NoDup_filter. intros r r' [H1 Hin]%list_elem_of_filter [H2 Hin']%list_elem_of_filter Ho. by apply Hd.
Qed.

Lemma statement_ok l d : table_ok (providers d) l -> statement l d = Ok (with_policies l d).
Proof. intros Ht. unfold statement. by rewrite (proj2 (constraints_ok_spec (with_policies l d)) Ht). Qed.

(** A part of a table satisfies the constraints. *)
Lemma table_ok_filter (P : PolicyRow -> Prop) `{forall r, Decision (P r)} ps l : table_ok ps l -> table_ok ps (filter P l).
Proof.
  intros [Hr Hi Hk Hd]. assert (forall r, r ∈ filter P l -> r ∈ l) as Hsub by (intros r Hin; by apply list_elem_of_filter in Hin as [_ Hin]).
  split; [auto| |auto|auto]. eapply sublist_NoDup; [exact Hi|]. apply fmap_sublist, sublist_filter.
Qed.

(** A change of routes that keeps models satisfies them when the rows and defaults do. *)
Lemma table_ok_map ps (f : PolicyRow -> PolicyRow) l : table_ok ps l ->
  (forall r, r ∈ l -> mp_id (f r) = mp_id r /\ mp_orgId (f r) = mp_orgId r /\ mp_model (f r) = mp_model r /\ row_ok ps (f r)) ->
  (forall r r', r ∈ l -> r' ∈ l -> mp_isDefault (f r) = true -> mp_isDefault (f r') = true -> mp_orgId r = mp_orgId r' -> r = r') ->
  table_ok ps (f <$> l).
Proof.
  intros [Hr Hi Hk Hd] Hf Hdef. split.
  - intros r (r0 & -> & Hin)%list_elem_of_fmap. by apply Hf.
  - assert (mp_id <$> (f <$> l) = mp_id <$> l) as ->; [|done]. rewrite <- list_fmap_compose. apply fmap_ext_in. intros r Hin. by apply Hf.
  - intros r r' (r0 & -> & Hin)%list_elem_of_fmap (r0' & -> & Hin')%list_elem_of_fmap Ho Hm.
    destruct (Hf r0 Hin) as (_ & Ho0 & Hm0 & _), (Hf r0' Hin') as (_ & Ho0' & Hm0' & _). f_equal. apply Hk; congruence.
  - intros r r' (r0 & -> & Hin)%list_elem_of_fmap (r0' & -> & Hin')%list_elem_of_fmap H1 H2 Ho.
    destruct (Hf r0 Hin) as (_ & Ho0 & _), (Hf r0' Hin') as (_ & Ho0' & _). f_equal. apply Hdef; congruence.
Qed.

(** *** Inserts *)

Lemma next_policy_id_fresh l : next_policy_id l ∉ mp_id <$> l.
Proof.
  intros Hin. assert (forall (k : list Z) x, x ∈ k -> x <= foldr Z.max 0 k) as Hle by (intros k x; induction 1; cbn; lia).
  apply Hle in Hin. unfold next_policy_id in Hin. lia.
Qed.

(** A row in a new key, of no second default. *)
Lemma table_ok_insert ps now orgId userId l r : table_ok ps l -> row_ok ps {| mp_id := 0; mp_orgId := orgId; mp_route := r;
    mp_createdByUserId := userId; mp_updatedByUserId := userId; mp_createdAt := now; mp_updatedAt := now |} ->
  (ro_isDefault r = true -> forall r', r' ∈ l -> mp_orgId r' = orgId -> mp_isDefault r' = false) ->
  table_ok ps (insert_policy now orgId userId l r).
Proof.
  intros [Hr Hi Hk Hd] Hrow Hdef. unfold insert_policy. destruct (bool_decide_reflect ((orgId, ro_model r) ∈ (fun r => (mp_orgId r, mp_model r)) <$> l)) as [|Hnew];
    [by split|]. set (row := Build_PolicyRow _ _ _ _ _ _ _).
  assert (forall r', r' ∈ l -> ~ (mp_orgId r' = orgId /\ mp_model r' = ro_model r)) as Hno.
  { intros r' Hin [Ho Hm]. apply Hnew. apply list_elem_of_fmap. exists r'. by rewrite Ho, Hm. }
  split.
  - intros r' [Hin|Hin%list_elem_of_singleton]%elem_of_app; [auto|]. subst r'. exact Hrow.
  - rewrite fmap_app. apply NoDup_app. split_and!; [done| |apply NoDup_singleton]. intros x Hx Hin%list_elem_of_singleton. subst x.
    by apply (next_policy_id_fresh l).
  - intros r1 r2 [H1|H1%list_elem_of_singleton]%elem_of_app [H2|H2%list_elem_of_singleton]%elem_of_app Ho Hm; subst; [auto| | |done].
    + by destruct (Hno r1 H1).
    + by destruct (Hno r2 H2).
  - intros r1 r2 [H1|H1%list_elem_of_singleton]%elem_of_app [H2|H2%list_elem_of_singleton]%elem_of_app D1 D2 Ho; subst; [auto| | |done].
    + rewrite (Hdef D2 r1 H1 Ho) in D1. done.
    + rewrite (Hdef D1 r2 H2 (eq_sym Ho)) in D2. done.
Qed.

Definition org_defaults (orgId : jsstr) (l : list PolicyRow) : list PolicyRow := filter (fun r => mp_orgId r = orgId /\ mp_isDefault r = true) l.
Definition other_orgs (orgId : jsstr) (l : list PolicyRow) : list PolicyRow := filter (fun r => mp_orgId r <> orgId) l.

Definition route_ok (ps : list ProviderRow) (r : Route) : Prop := route_checks r = true /\ route_reference ps r = true.

Lemma filter_none {A} (P : A -> Prop) `{forall x, Decision (P x)} l x : length (filter P l) = 0%nat -> x ∈ l -> ~ P x.
Proof. intros Hl Hx Hp. apply nil_length_inv in Hl. rewrite filter_nil_iff in Hl. by apply (Hl x). Qed.

(** One insert: the table stays, and a row of the organization may be added. *)
Lemma insert_policy_cases now orgId userId l r :
  (insert_policy now orgId userId l r = l /\ exists row, row ∈ l /\ mp_orgId row = orgId /\ mp_model row = ro_model r) \/
  (exists row, insert_policy now orgId userId l r = l ++ [row] /\ mp_orgId row = orgId /\ mp_route row = r).
Proof.
  unfold insert_policy. destruct (bool_decide_reflect ((orgId, ro_model r) ∈ (fun r => (mp_orgId r, mp_model r)) <$> l)) as [Hin|_].
  - left. split; [done|]. apply list_elem_of_fmap in Hin as (row & [= -> ->] & Hin). by exists row.
  - right. eexists. split_and!; reflexivity.
Qed.

(** Routes of at most one default, with those of the organization, can be inserted; each then
    has a row. *)
Lemma insert_all_ok ps now orgId userId routes l : table_ok ps l -> (forall r, r ∈ routes -> route_ok ps r) ->
  (length (filter (fun r => ro_isDefault r = true) routes) + length (org_defaults orgId l) <= 1)%nat ->
  let l' := foldl (insert_policy now orgId userId) l routes in
  table_ok ps l' /\ (exists added, l' = l ++ added /\ forall row, row ∈ added -> mp_orgId row = orgId /\ mp_route row ∈ routes) /\
  (forall r, r ∈ routes -> exists row, row ∈ l' /\ mp_orgId row = orgId /\ mp_model row = ro_model r).
Proof.
  revert l. induction routes as [|r routes IH]; intros l Ht Hok Hc; cbn [foldl].
  { split; [done|]. split; [exists []; rewrite app_nil_r; split; [done|by intros row Hin%elem_of_nil]|by intros r Hin%elem_of_nil]. }
  rewrite filter_cons in Hc. assert (table_ok ps (insert_policy now orgId userId l r)) as Ht1.
  { apply table_ok_insert; [done|apply (Hok r); set_solver|]. intros Hd r' Hin Ho. destruct (decide (ro_isDefault r = true)) as [_|]; [|done].
    destruct (mp_isDefault r') eqn:E; [|done]. exfalso. apply (filter_none (fun r => mp_orgId r = orgId /\ mp_isDefault r = true) l r'); [|done|done].
    cbn in Hc. unfold org_defaults in Hc. lia. }
  destruct (IH (insert_policy now orgId userId l r) Ht1) as (Ht' & (added & Heq & Hadd) & Hrows); [set_solver| |].
  { destruct (insert_policy_cases now orgId userId l r) as [[-> _]|(row & -> & Ho & Hr)].
    - destruct (decide _); cbn in Hc; lia.
    - unfold org_defaults in *. rewrite filter_app, length_app, filter_cons, filter_nil.
      assert (mp_isDefault row = ro_isDefault r) as Hdr by (unfold mp_isDefault; by rewrite Hr). rewrite Hdr.
      destruct (decide (ro_isDefault r = true)), (decide (mp_orgId row = orgId /\ ro_isDefault r = true)); cbn in Hc |- *; try lia; naive_solver. }
  split; [done|]. destruct (insert_policy_cases now orgId userId l r) as [[Hl (row & Hin & Ho & Hm)]|(row & Hl & Ho & Hr)].
  - split; [exists added; split; [by rewrite Heq, Hl|]; intros row' Hin'; destruct (Hadd row' Hin'); set_solver|].
    intros r' [->|Hin']%elem_of_cons; [|by apply Hrows]. exists row. rewrite Heq, Hl. set_solver.
  - split.
    + exists (row :: added). split; [rewrite Heq, Hl, <- app_assoc; done|]. intros row' [->|Hin']%elem_of_cons; [rewrite Hr; set_solver|].
      destruct (Hadd row' Hin'). set_solver.
    + intros r' [->|Hin']%elem_of_cons; [|by apply Hrows]. exists row. rewrite Heq, Hl. split; [set_solver|]. split; [done|]. unfold mp_model. by rewrite Hr.
Qed.

(** ** The policies are ensured *)

Record PolicyInv (d : PolicyDb) : Prop := { pi_table : table_ok (providers d) (policies d); pi_providers : NoDup (pv_id <$> providers d) }.

(** The default of an organization is a model of the catalog. *)
Definition no_retired_default (orgId : jsstr) (l : list PolicyRow) : Prop :=
  forall r, r ∈ l -> mp_orgId r = orgId -> mp_isDefault r = true -> mp_model r ∈ SUPPORTED_RUN_MODELS.

(** What an operation on an organization keeps. *)
Record org_step (orgId : jsstr) (d d' : PolicyDb) : Prop := {
  os_inv : PolicyInv d'; os_retired : no_retired_default orgId (policies d'); os_providers : providers d' = providers d;
  os_preferences : preferences d' = preferences d; os_others : other_orgs orgId (policies d') = other_orgs orgId (policies d) }.

Lemma seed_ok : forall ps r, r ∈ getDefaultOrgModelPolicySeed -> route_ok ps r /\ ro_model r ∈ SUPPORTED_RUN_MODELS.
Proof.
  assert (forallb (fun r => route_checks r && bool_decide (ro_modelProviderId r = None) && bool_decide (ro_model r ∈ SUPPORTED_RUN_MODELS)) getDefaultOrgModelPolicySeed = true) as H
    by (vm_compute; reflexivity).
  intros ps r Hin. rewrite forallb_true in H. specialize (H r Hin). bool_facts. split; [|done]. split; [done|]. unfold route_reference. by rewrite H1.
Qed.

Lemma ensure_default now orgId userId d r : r ∈ loadRows orgId d -> mp_isDefault r = true ->
  ensureOrgModelPolicies now orgId userId d = (Ok (sortRowsByCatalog (loadRows orgId d)), d).
Proof.
  intros Hin Hd. unfold ensureOrgModelPolicies. destruct (loadRows orgId d) as [|r0 rows] eqn:E; [by apply elem_of_nil in Hin|].
  rewrite <- E in *. assert ((0 <? length (loadRows orgId d))%nat = true) as -> by by rewrite E.
  assert (existsb mp_isDefault (loadRows orgId d) = true) as -> by (apply existsb_true; by exists r). done.
Qed.

Lemma fallback_in existing r : fallback_default existing = Some r -> r ∈ existing.
Proof.
  unfold fallback_default. destruct (head (filter _ existing)) as [r0|] eqn:E; intros Heq.
  - injection Heq as <-. apply head_Some_elem_of in E. by apply list_elem_of_filter in E as [_ E].
  - apply head_Some_elem_of in Heq. unfold sortRowsByCatalog in Heq. by rewrite sort_stable_perm in Heq.
Qed.

Lemma other_orgs_map orgId (f : PolicyRow -> PolicyRow) l :
  (forall r, r ∈ l -> mp_orgId (f r) = mp_orgId r) -> (forall r, r ∈ l -> mp_orgId r <> orgId -> f r = r) ->
  other_orgs orgId (f <$> l) = other_orgs orgId l.
Proof.
  unfold other_orgs. induction l as [|r l IH]; intros Ho Hf; [done|]. rewrite fmap_cons, !filter_cons, IH by set_solver.
  rewrite (Ho r) by set_solver. destruct (decide (mp_orgId r <> orgId)) as [Hne|]; [|done]. rewrite (Hf r); [done|set_solver|done].
Qed.

Lemma other_orgs_added orgId l added : (forall row, row ∈ added -> mp_orgId row = orgId) -> other_orgs orgId (l ++ added) = other_orgs orgId l.
Proof.
  intros Hadd. unfold other_orgs. rewrite filter_app, (proj2 (filter_nil_iff _ added)); [apply app_nil_r|]. intros row Hin Hne. by apply Hne, Hadd.
Qed.

Lemma row_by_id ps l r r' : table_ok ps l -> r ∈ l -> r' ∈ l -> mp_id r = mp_id r' -> r = r'.
Proof. intros Ht. pose proof (to_ids ps l Ht) as Hi. rewrite NoDup_fmap_inj in Hi by by apply (NoDup_fmap_1 mp_id). apply Hi. Qed.

Lemma loadRows_elem orgId d r : r ∈ loadRows orgId d <-> r ∈ policies d /\ mp_orgId r = orgId /\ mp_model r ∈ SUPPORTED_RUN_MODELS.
Proof. unfold loadRows. rewrite list_elem_of_filter. naive_solver. Qed.

(** Without a default in the catalog there is none. *)
Lemma no_default orgId d : no_retired_default orgId (policies d) -> existsb mp_isDefault (loadRows orgId d) = false -> org_defaults orgId (policies d) = [].
Proof.
  intros Hr He. apply filter_nil_iff. intros r Hin [Ho Hd]. assert (existsb mp_isDefault (loadRows orgId d) = true) as Ht; [|congruence].
  apply existsb_true. exists r. split; [|done]. apply loadRows_elem. split_and!; [done|done|by apply Hr].
Qed.

Definition make_default (now : Z) (userId : jsstr) (id : Z) (r : PolicyRow) : PolicyRow :=
  if mp_id r =? id then with_route (Some now) (Some userId) (set_default true (mp_route r)) r else r.

(** A row of an organization without a default becomes its default. *)
Lemma make_default_step now orgId userId d fb : PolicyInv d -> no_retired_default orgId (policies d) -> fb ∈ loadRows orgId d ->
  existsb mp_isDefault (loadRows orgId d) = false -> table_ok (providers d) (make_default now userId (mp_id fb) <$> policies d) /\
  org_step orgId d (with_policies (make_default now userId (mp_id fb) <$> policies d) d).
Proof.
  intros [Ht Hp] Hr (Hin & Ho & Hm)%loadRows_elem He. pose proof (no_default orgId d Hr He) as Hnone. unfold org_defaults in Hnone. rewrite filter_nil_iff in Hnone.
  assert (forall r, r ∈ policies d -> mp_id r = mp_id fb -> r = fb) as Hid by (intros r Hi Heq; by apply (row_by_id (providers d) (policies d))).
  assert (forall r, mp_orgId (make_default now userId (mp_id fb) r) = mp_orgId r /\ mp_model (make_default now userId (mp_id fb) r) = mp_model r /\
    mp_id (make_default now userId (mp_id fb) r) = mp_id r) as Hkeep by (intros r; unfold make_default; by destruct (_ =? _)).
  assert (table_ok (providers d) (make_default now userId (mp_id fb) <$> policies d)) as Ht'.
  { apply table_ok_map; [done| |].
    - intros r Hri. destruct (Hkeep r) as (-> & -> & ->). split_and!; [done..|]. destruct (to_rows _ _ Ht r Hri). unfold make_default, row_ok.
      by destruct (mp_id r =? mp_id fb).
    - intros r r' Hri Hri'. unfold make_default. destruct (mp_id r =? mp_id fb) eqn:E, (mp_id r' =? mp_id fb) eqn:E'; bool_facts; intros D D' Hoo.
      + rewrite (Hid r), (Hid r') by done. done.
      + assert (r = fb) as -> by by apply Hid. exfalso. apply (Hnone r' Hri'). by rewrite <- Hoo.
      + assert (r' = fb) as -> by by apply Hid. exfalso. apply (Hnone r Hri). by rewrite Hoo.
      + by apply (to_default _ _ Ht). }
  split; [done|]. split; [by split| |done|done|].
  - intros r (r0 & -> & Hi)%list_elem_of_fmap. destruct (Hkeep r0) as (-> & -> & _). unfold make_default.
    destruct (mp_id r0 =? mp_id fb) eqn:E; bool_facts; [|by apply Hr]. intros _ _. by rewrite (Hid r0 Hi E).
  - apply other_orgs_map; [intros r _; apply Hkeep|]. intros r Hi Hne. unfold make_default. destruct (mp_id r =? mp_id fb) eqn:E; [|done]. bool_facts.
    by rewrite (Hid r Hi E) in Hne.
Qed.

Lemma ensure_spec now orgId userId d : PolicyInv d -> no_retired_default orgId (policies d) ->
  exists rows d1, ensureOrgModelPolicies now orgId userId d = (Ok rows, d1) /\ org_step orgId d d1.
Proof.
  intros [Ht Hp] Hr. assert (org_step orgId d d) as Hrefl by (split; [by split|done..]). unfold ensureOrgModelPolicies. cbv zeta. destruct (0 <? _)%nat eqn:El.
  - destruct (existsb mp_isDefault (loadRows orgId d)) eqn:Ed; [eauto|]. destruct (fallback_default _) as [fb|] eqn:Ef; [|eauto].
    apply fallback_in in Ef. destruct (make_default_step now orgId userId d fb) as [Ht' Hs]; [done|done|done|done|].
    unfold update_policies. fold (make_default now userId (mp_id fb)). rewrite statement_ok by exact Ht'. eauto.
  - destruct (_ =? 0)%nat; [eauto|]. set (missing := filter _ getDefaultOrgModelPolicySeed).
    assert (loadRows orgId d = []) as Hnil by (destruct (loadRows orgId d); [done|cbn in El; lia]).
    destruct (insert_all_ok (providers d) now orgId userId missing (policies d) Ht) as (Ht' & (added & Heq & Hadd) & _).
    + intros r [_ Hin]%list_elem_of_filter. by apply seed_ok.
    + rewrite (no_default orgId d Hr) by by rewrite Hnil. unfold missing. rewrite Hnil. by vm_compute.
    + unfold insert_policies. rewrite statement_ok by exact Ht'. eexists _, _. split; [reflexivity|]. rewrite Heq in *.
      split; [by split| |done|done|apply other_orgs_added; intros row Hrow; by apply Hadd].
      intros r [Hi|Hi]%elem_of_app; [by apply Hr|]. intros _ _. destruct (Hadd r Hi) as [_ Hroute]. apply list_elem_of_filter in Hroute as [_ Hroute].
      by destruct (seed_ok (providers d) _ Hroute).
Qed.

(** ** Updates *)

(** What validation guarantees. *)
Record valid_update (orgId : jsstr) (d : PolicyDb) (l : list Route) : Prop := {
  vu_policy : forall p, p ∈ l -> parseSupportedModel (ro_model p) = true /\ parseProviderType (ro_defaultProviderType p) = true /\
    parseCredentialScope (ro_credentialScope p) = true /\ validateOrgProviderRoute orgId p d = None;
  vu_models : NoDup (ro_model <$> l);
  vu_default : length (filter (fun p => ro_isDefault p = true) l) = 1%nat }.

Lemma validate_loop_ok orgId d l : forall seen n, validate_loop orgId d seen n l = None ->
  (forall p, p ∈ l -> parseSupportedModel (ro_model p) = true /\ parseProviderType (ro_defaultProviderType p) = true /\
    parseCredentialScope (ro_credentialScope p) = true /\ validateOrgProviderRoute orgId p d = None /\ ro_model p ∉ seen) /\
  NoDup (ro_model <$> l) /\ (n + length (filter (fun p => ro_isDefault p = true) l))%nat = 1%nat.
Proof.
  induction l as [|p l IH]; intros seen n Hv; cbn [validate_loop] in Hv.
  - destruct (n =? 1)%nat eqn:E; [|done]. apply Nat.eqb_eq in E. split; [by intros p Hin%elem_of_nil|]. split; [constructor|]. cbn. lia.
  - destruct (parseSupportedModel _) eqn:E1; [|done]. destruct (parseProviderType _) eqn:E2; [|done]. destruct (parseCredentialScope _) eqn:E3; [|done].
    cbn [negb] in Hv. destruct (bool_decide_reflect (ro_model p ∈ seen)) as [|Hns]; [done|]. destruct (validateOrgProviderRoute orgId p d) eqn:E4; [done|].
    destruct (IH _ _ Hv) as (Hp & Hnd & Hc). split_and!.
    + intros p' [->|Hin]%elem_of_cons; [done|]. destruct (Hp p' Hin) as (? & ? & ? & ? & Hn). rewrite not_elem_of_cons in Hn. naive_solver.
    + rewrite fmap_cons. constructor; [|done]. intros (p' & Hm & Hin)%list_elem_of_fmap. destruct (Hp p' Hin) as (_ & _ & _ & _ & Hn).
      apply Hn. rewrite <- Hm. apply elem_of_cons. by left.
    + rewrite filter_cons. destruct (ro_isDefault p) eqn:Ed; [destruct (decide (true = true)); [|done]|destruct (decide (false = true)); [done|]]; cbn; lia.
Qed.

Lemma validate_ok orgId d l : validateUpdatePolicies orgId l d = None -> valid_update orgId d l.
Proof.
  unfold validateUpdatePolicies. destruct (length l =? 0)%nat; [done|]. intros (Hp & Hnd & Hc)%validate_loop_ok. split; [|done|done].
  intros p Hin. destruct (Hp p Hin). naive_solver.
Qed.

(** A valid route satisfies the constraints of its row. *)
Lemma valid_route_ok orgId d p : parseCredentialScope (ro_credentialScope p) = true -> validateOrgProviderRoute orgId p d = None ->
  ro_modelProviderId p <> Some [] -> route_ok (providers d) p.
Proof.
  intros Hs Hv Hne. unfold validateOrgProviderRoute in Hv. destruct (negb (isModelSupportedByProvider _ _)); [done|].
  assert (truthy_text (ro_modelProviderId p) = ro_modelProviderId p) as Htruthy by (by destruct (ro_modelProviderId p) as [[|c s]|]).
  rewrite Htruthy in Hv. clear Htruthy.
  unfold route_ok, route_checks, route_reference. unfold parseCredentialScope in Hs.
  destruct (bool_decide_reflect (ro_credentialScope p = js "member")) as [Hm|Hm].
  - destruct (isOAuthMemberProviderType _) eqn:Eo; [|done]. cbn [negb] in Hv. destruct (ro_modelProviderId p); [done|].
    rewrite Hm. destruct (bool_decide_reflect (@None jsstr = None)); [|done]. cbn. rewrite !orb_true_r. done.
  - rewrite orb_false_r in Hs. rewrite Hs. destruct (isOAuthMemberProviderType _); [done|]. cbn [negb orb andb].
    destruct (bool_decide_reflect (ro_defaultProviderType p = js "vm0")) as [Hd|Hd].
    + destruct (ro_modelProviderId p); [done|]. by destruct (bool_decide_reflect (@None jsstr = None)).
    + destruct (ro_modelProviderId p) as [id|]; [|done]. split; [done|].
      destruct (head _) as [pv|] eqn:Eh; [|done]. apply head_Some_elem_of, list_elem_of_filter in Eh as [<- Hin].
      apply list_elem_of_filter in Hin as [_ Hin]. apply bool_decide_eq_true. by apply list_elem_of_fmap_2.
Qed.

Lemma org_defaults_one ps orgId l : table_ok ps l -> (length (org_defaults orgId l) <= 1)%nat.
Proof.
  intros Ht. assert (NoDup (org_defaults orgId l)) as Hnd by (apply NoDup_filter, (NoDup_fmap_1 mp_id), Ht).
  destruct (org_defaults orgId l) as [|a [|b rest]] eqn:E; cbn; [lia|lia|]. exfalso.
  assert (forall x, x ∈ a :: b :: rest -> (mp_orgId x = orgId /\ mp_isDefault x = true) /\ x ∈ l) as Hx by (intros x Hin; rewrite <- E in Hin; by apply list_elem_of_filter in Hin).
  destruct (Hx a) as [[Ha1 Ha2] Ha3]; [set_solver|]. destruct (Hx b) as [[Hb1 Hb2] Hb3]; [set_solver|].
  assert (a = b) as -> by (apply (to_default ps l Ht); congruence || done). apply NoDup_cons in Hnd as [Hn _]. set_solver.
Qed.

Lemma the_default {A} (P : A -> Prop) `{forall x, Decision (P x)} (l : list A) x y : length (filter P l) = 1%nat -> x ∈ l -> y ∈ l -> P x -> P y -> x = y.
Proof.
  intros Hl Hx Hy Px Py. destruct (filter P l) as [|z [|? ?]] eqn:E; [done| |done].
  assert (forall w, w ∈ l -> P w -> w = z) as Hw; [|by rewrite (Hw x), (Hw y)].
  intros w Hin Pw. apply list_elem_of_singleton. rewrite <- E. by apply list_elem_of_filter.
Qed.

(** *** The transaction *)

Section Update.
Context (now : Z) (orgId userId : jsstr) (ps : list ProviderRow) (l : list Route).
Hypothesis l_models : NoDup (ro_model <$> l).
Hypothesis l_default : length (filter (fun p => ro_isDefault p = true) l) = 1%nat.
Hypothesis l_ok : forall p, p ∈ l -> route_ok ps p.

Definition set_route (p : Route) (r : PolicyRow) : PolicyRow :=
  if bool_decide (mp_orgId r = orgId) && bool_decide (mp_model r = ro_model p) then with_route (Some now) (Some userId) p r else r.

(** The rows of the organization after some of the updates. *)
Record progress (done_ : list Route) (t0 t : list PolicyRow) : Prop := {
  pg_table : table_ok ps t;
  pg_rows : forall r, r ∈ t -> mp_orgId r = orgId -> mp_route r ∈ done_ \/ (mp_model r ∉ ro_model <$> done_ /\ mp_isDefault r = false);
  pg_keys : (fun r => (mp_orgId r, mp_model r)) <$> t = (fun r => (mp_orgId r, mp_model r)) <$> t0;
  pg_others : other_orgs orgId t = other_orgs orgId t0 }.

Lemma set_route_keeps p r : mp_id (set_route p r) = mp_id r /\ mp_orgId (set_route p r) = mp_orgId r /\ mp_model (set_route p r) = mp_model r.
Proof.
  unfold set_route. destruct (_ && _) eqn:E; [|done]. apply andb_true_iff in E as [_ E%bool_decide_eq_true]. cbn. by rewrite E.
Qed.

Lemma set_route_cases p r : (mp_orgId r = orgId /\ mp_model r = ro_model p /\ mp_route (set_route p r) = p) \/
  (~ (mp_orgId r = orgId /\ mp_model r = ro_model p) /\ set_route p r = r).
Proof.
  unfold set_route. destruct (bool_decide_reflect (mp_orgId r = orgId)), (bool_decide_reflect (mp_model r = ro_model p)); cbn; naive_solver.
Qed.

Lemma progress_rows done_ t0 t p r : progress done_ t0 t -> r ∈ t -> mp_orgId r = orgId ->
  mp_route (set_route p r) ∈ done_ ++ [p] \/ (mp_model r ∉ ro_model <$> (done_ ++ [p]) /\ mp_isDefault (set_route p r) = false).
Proof.
  intros Hpg Hin Ho. destruct (set_route_cases p r) as [(_ & _ & ->)|[Hn ->]]; [left; set_solver|].
  destruct (pg_rows _ _ _ Hpg r Hin Ho) as [Hd|[Hni Hd]]; [left; set_solver|]. right. split; [|done]. rewrite fmap_app, elem_of_app. cbn.
  rewrite list_elem_of_singleton. naive_solver.
Qed.

Lemma progress_step done_ t0 t p : (forall q, q ∈ done_ ++ [p] -> q ∈ l) -> progress done_ t0 t -> progress (done_ ++ [p]) t0 (set_route p <$> t).
Proof.
  intros Hsub Hpg. pose proof (pg_table _ _ _ Hpg) as Ht. split.
  - apply table_ok_map; [done| |].
    + intros r Hin. destruct (set_route_keeps p r) as (-> & -> & ->). split_and!; [done..|]. destruct (set_route_cases p r) as [(_ & _ & Hr)|[_ ->]].
      * unfold row_ok. rewrite Hr. apply l_ok, Hsub. set_solver.
      * by apply (to_rows _ _ Ht).
    + intros r r' Hin Hin' D D' Ho. destruct (decide (mp_orgId r = orgId)) as [Hr|Hr].
      * assert (mp_orgId r' = orgId) as Hr' by congruence.
        destruct (progress_rows _ _ _ p r Hpg Hin Hr) as [H1|[_ H1]]; [|congruence]. destruct (progress_rows _ _ _ p r' Hpg Hin' Hr') as [H2|[_ H2]]; [|congruence].
        apply (to_keys _ _ Ht); [done|done|done|]. destruct (set_route_keeps p r) as (_ & _ & <-), (set_route_keeps p r') as (_ & _ & <-). unfold mp_model.
        f_equal. eapply (the_default (fun q => ro_isDefault q = true) l); [done|by apply Hsub|by apply Hsub|exact D|exact D'].
      * assert (forall x, mp_orgId x <> orgId -> set_route p x = x) as Hid by (intros x Hx; destruct (set_route_cases p x) as [(? & _)|[_ ->]]; done).
        rewrite Hid in D by done. rewrite Hid in D' by congruence. by apply (to_default _ _ Ht).
  - intros r (r0 & -> & Hin)%list_elem_of_fmap. destruct (set_route_keeps p r0) as (_ & -> & ->). intros Ho. by eapply progress_rows.
  - rewrite <- (pg_keys _ _ _ Hpg), <- list_fmap_compose. apply fmap_ext_in. intros r _. cbn. by destruct (set_route_keeps p r) as (_ & -> & ->).
  - rewrite <- (pg_others _ _ _ Hpg). apply other_orgs_map; [intros r _; apply set_route_keeps|]. intros r _ Hne.
    destruct (set_route_cases p r) as [(? & _)|[_ ->]]; done.
Qed.

(** The loop of updates succeeds. *)
Lemma update_loop rest : forall done_ t0 d, providers d = ps -> (forall q, q ∈ done_ ++ rest -> q ∈ l) -> progress done_ t0 (policies d) ->
  exists d', foldl (fun acc policy =>
    d ← acc;
    update_policies (fun r => bool_decide (mp_orgId r = orgId) && bool_decide (mp_model r = ro_model policy)) (with_route (Some now) (Some userId) policy) d)
    (Ok d) rest = Ok d' /\ providers d' = ps /\ preferences d' = preferences d /\ progress (done_ ++ rest) t0 (policies d').
Proof.
  induction rest as [|p rest IH]; intros done_ t0 d Hps Hsub Hpg; cbn [foldl].
  { exists d. by rewrite app_nil_r. }
  cbn [mbind result_bind]. assert (progress (done_ ++ [p]) t0 (set_route p <$> policies d)) as Hpg'
    by (apply progress_step; [set_solver|done]).
  assert (update_policies (fun r => bool_decide (mp_orgId r = orgId) && bool_decide (mp_model r = ro_model p)) (with_route (Some now) (Some userId) p) d =
    Ok (with_policies (set_route p <$> policies d) d)) as -> by (apply statement_ok; rewrite Hps; apply Hpg').
  destruct (IH (done_ ++ [p]) t0 (with_policies (set_route p <$> policies d) d)) as (d' & H1 & H2 & H3 & H4); [done| |done|].
  { intros q. rewrite <- app_assoc. apply Hsub. }
  exists d'. rewrite <- app_assoc in H4. done.
Qed.

End Update.

Definition clear_default (orgId : jsstr) (r : PolicyRow) : PolicyRow :=
  if bool_decide (mp_orgId r = orgId) then with_route None None (set_default false (mp_route r)) r else r.

Lemma clear_default_keeps orgId r :
  mp_id (clear_default orgId r) = mp_id r /\ mp_orgId (clear_default orgId r) = mp_orgId r /\ mp_model (clear_default orgId r) = mp_model r.
Proof. unfold clear_default. by destruct (bool_decide _). Qed.

Lemma clear_default_ok ps orgId t : table_ok ps t -> progress orgId ps [] (clear_default orgId <$> t) (clear_default orgId <$> t).
Proof.
  intros Ht. split; [|intros r (r0 & -> & _)%list_elem_of_fmap|done|done].
  - apply table_ok_map; [done| |].
    + intros r Hin. destruct (clear_default_keeps orgId r) as (-> & -> & ->). split_and!; [done..|]. destruct (to_rows _ _ Ht r Hin).
      unfold clear_default, row_ok. by destruct (bool_decide _).
    + intros r r' Hin Hin'. unfold clear_default.
      destruct (bool_decide_reflect (mp_orgId r = orgId)), (bool_decide_reflect (mp_orgId r' = orgId)); intros D D' Ho; try done. by apply (to_default _ _ Ht).
  - destruct (clear_default_keeps orgId r0) as (_ & -> & _). intros Ho. right. split; [by intros ?%elem_of_nil|]. unfold clear_default.
    by rewrite (bool_decide_eq_true_2 _ Ho).
Qed.

Lemma key_in (t t0 : list PolicyRow) r : (fun r => (mp_orgId r, mp_model r)) <$> t = (fun r => (mp_orgId r, mp_model r)) <$> t0 -> r ∈ t ->
  exists r0, r0 ∈ t0 /\ mp_orgId r0 = mp_orgId r /\ mp_model r0 = mp_model r.
Proof.
  intros Heq Hin. assert ((mp_orgId r, mp_model r) ∈ (fun r => (mp_orgId r, mp_model r)) <$> t0) as Hk by (rewrite <- Heq; by apply (list_elem_of_fmap_2 (fun r => (mp_orgId r, mp_model r)))).
  apply list_elem_of_fmap in Hk as (r0 & [= H1 H2] & H0). by exists r0.
Qed.

(** A valid update succeeds: the catalog rows of the organization are then its routes. *)
Lemma transaction_ok now orgId userId l d : PolicyInv d -> valid_update orgId d l -> (forall p, p ∈ l -> ro_modelProviderId p <> Some []) ->
  exists d', update_transaction now orgId userId l d = Ok d' /\ org_step orgId d d' /\
    (forall r, r ∈ policies d' -> mp_orgId r = orgId -> mp_model r ∈ SUPPORTED_RUN_MODELS \/ mp_isDefault r = true -> mp_route r ∈ l) /\
    (forall p, p ∈ l -> exists r, r ∈ policies d' /\ mp_orgId r = orgId /\ mp_route r = p).
Proof.
  intros [Ht Hp] Hv Hne. assert (forall p, p ∈ l -> route_ok (providers d) p) as Hok.
  { intros p Hin. destruct (vu_policy _ _ _ Hv p Hin) as (_ & _ & Hs & Hr). apply (valid_route_ok orgId); auto. }
  assert (forall p, p ∈ l -> ro_model p ∈ SUPPORTED_RUN_MODELS) as Hsup by (intros p Hin; destruct (vu_policy _ _ _ Hv p Hin) as (Hs & _); by apply bool_decide_eq_true in Hs).
  destruct (insert_all_ok (providers d) now orgId userId (proposed l) (policies d) Ht) as (Ht1 & (added & Heq & Hadd) & Hrows).
  { intros r (p & -> & Hin)%list_elem_of_fmap. exact (Hok p Hin). }
  { assert (filter (fun r => ro_isDefault r = true) (proposed l) = []) as -> by (apply filter_nil_iff; by intros r (p & -> & _)%list_elem_of_fmap).
    by apply (org_defaults_one (providers d)). }
  unfold update_transaction. unfold insert_policies. rewrite statement_ok by exact Ht1. cbn [mbind result_bind].
  set (t1 := foldl _ _ _) in *. set (d1 := with_policies t1 d). set (kept := fun r => ~ (mp_orgId r = orgId /\ mp_model r ∈ SUPPORTED_RUN_MODELS /\ mp_model r ∉ ro_model <$> l)).
  pose proof (table_ok_filter kept _ _ Ht1) as Ht2. rewrite statement_ok by exact Ht2. cbn [mbind result_bind]. set (t2 := filter kept t1) in *.
  change (filter kept (policies d1)) with t2.
  pose proof (clear_default_ok (providers d) orgId t2 Ht2) as Hpg. set (t3 := clear_default orgId <$> t2) in *.
  assert (update_policies (fun r => bool_decide (mp_orgId r = orgId)) (fun r => with_route None None (set_default false (mp_route r)) r) (with_policies t2 d1) =
    Ok (with_policies t3 (with_policies t2 d1))) as -> by (apply statement_ok; exact (pg_table _ _ _ _ _ Hpg)). cbn [mbind result_bind].
  destruct (update_loop now orgId userId (providers d) l (vu_models _ _ _ Hv) (vu_default _ _ _ Hv) Hok l [] t3 (with_policies t3 (with_policies t2 d1))) as (d' & -> & Hps & Hpf & Hpg');
    [done|set_solver|exact Hpg|]. rewrite app_nil_l in Hpg'. exists d'. split; [done|].
  assert (forall r, r ∈ policies d' -> mp_orgId r = orgId -> mp_model r ∈ SUPPORTED_RUN_MODELS \/ mp_isDefault r = true -> mp_route r ∈ l) as Hin'.
  { intros r Hin Ho Hs. destruct (pg_rows _ _ _ _ _ Hpg' r Hin Ho) as [Hr|[Hni Hd]]; [done|]. destruct Hs as [Hs|Hs]; [|congruence].
    destruct (key_in _ _ r (pg_keys _ _ _ _ _ Hpg') Hin) as (r3 & Hr3 & Ho3 & Hm3). apply list_elem_of_fmap in Hr3 as (r2 & -> & Hr2).
    destruct (clear_default_keeps orgId r2) as (_ & Eo & Em). rewrite Eo in Ho3. rewrite Em in Hm3. apply list_elem_of_filter in Hr2 as [Hk _].
    destruct Hk. rewrite Ho3, Hm3. done. }
  split_and!; [|exact Hin'|].
  - split; [split; [rewrite Hps; apply Hpg'|by rewrite Hps]| |done|done|].
    + intros r Hin Ho Hd. apply Hsup. apply (Hin' r Hin Ho). by right.
    + rewrite (pg_others _ _ _ _ _ Hpg'). unfold t3. rewrite other_orgs_map; [|intros r _; apply clear_default_keeps|].
      * unfold t2, t1, other_orgs. fold t1. rewrite Heq, list_filter_filter. fold (other_orgs orgId (policies d)). rewrite <- (other_orgs_added orgId (policies d) added);
          [|intros row Hrow; by apply Hadd]. apply list_filter_iff. intros r. unfold kept. naive_solver.
      * intros r _ Ho. unfold clear_default. by rewrite (bool_decide_eq_false_2 _ Ho).
  - intros p Hin. destruct (Hrows (set_default false p)) as (r1 & Hr1 & Ho1 & Hm1); [by apply list_elem_of_fmap_2|]. cbn in Hm1.
    assert (clear_default orgId r1 ∈ t3) as Hr3.
    { apply list_elem_of_fmap_2, list_elem_of_filter. split; [|done]. intros (_ & _ & Hn). apply Hn. rewrite Hm1. by apply list_elem_of_fmap_2. }
    destruct (key_in t3 (policies d') _ (eq_sym (pg_keys _ _ _ _ _ Hpg')) Hr3) as (r4 & Hr4 & Ho4 & Hm4). destruct (clear_default_keeps orgId r1) as (_ & Eo & Em).
    rewrite Eo, Ho1 in Ho4. rewrite Em, Hm1 in Hm4. exists r4. split_and!; [done|done|].
    assert (mp_route r4 ∈ l) as Hl by (apply (Hin' r4 Hr4 Ho4); left; rewrite Hm4; by apply Hsup).
    pose proof (vu_models _ _ _ Hv) as Hnd. rewrite NoDup_fmap_inj in Hnd by by apply (NoDup_fmap_1 ro_model). by apply Hnd.
Qed.

Lemma Sorted_weaken {A} (R S : A -> A -> Prop) (l : list A) : (forall x y, R x y -> S x y) -> Sorted R l -> Sorted S l.
Proof. intros HRS. induction 1 as [|x l _ IH Hh]; constructor; [done|]. destruct Hh; constructor; auto. Qed.

Lemma Sorted_fmap {A B} (f : A -> B) (R : A -> A -> Prop) (S : B -> B -> Prop) (l : list A) : (forall x y, R x y -> S (f x) (f y)) -> Sorted R l -> Sorted S (f <$> l).
Proof. intros HRS. induction 1 as [|x l _ IH Hh]; constructor; [done|]. destruct Hh; constructor; auto. Qed.

(** ** Listing *)

Lemma result_all_ok {A B} (f : A -> result B) (g : A -> B) l : (forall x, x ∈ l -> f x = Ok (g x)) -> result_all (f <$> l) = Ok (g <$> l).
Proof. induction l as [|x l IH]; intros Hf; [done|]. cbn. rewrite (Hf x) by set_solver. cbn. rewrite IH by set_solver. done. Qed.

(** A valid route is shown as valid. *)
Lemma valid_status orgId d d' p : NoDup (pv_id <$> providers d) -> providers d' = providers d -> ro_modelProviderId p <> Some [] ->
  parseProviderType (ro_defaultProviderType p) = true -> validateOrgProviderRoute orgId p d = None ->
  getRouteStatus p (listOrgProviderRoutes orgId d') = (Valid, None).
Proof.
  intros Hnd Hps Hne Hpt Hv. unfold validateOrgProviderRoute in Hv. unfold getRouteStatus. destruct (isModelSupportedByProvider _ _); [|done].
  cbn [negb] in *. destruct (bool_decide (ro_credentialScope p = js "member")); [by destruct (isOAuthMemberProviderType _)|].
  destruct (isOAuthMemberProviderType _); [done|]. destruct (bool_decide (ro_defaultProviderType p = js "vm0")); [done|].
  destruct (truthy_text (ro_modelProviderId p)) as [id|]; [|done]. destruct (head _) as [pv|] eqn:Eh; [|done].
  destruct (bool_decide_reflect (pv_type pv = ro_defaultProviderType p)) as [Ht|]; [|done].
  apply head_Some_elem_of, list_elem_of_filter in Eh as [Hid Hin].
  assert (pv ∈ filter (fun p => pv_id p = id) (listOrgProviderRoutes orgId d')) as Hin'.
  { apply list_elem_of_filter. split; [done|]. apply list_elem_of_filter. split; [by rewrite Ht|]. unfold org_providers in *. by rewrite Hps. }
  destruct (last _) as [pv'|] eqn:El; [|apply last_None in El; rewrite El in Hin'; by apply elem_of_nil in Hin'].
  apply last_Some_elem_of, list_elem_of_filter in El as [Hid' El]. apply list_elem_of_filter in El as [_ El]. apply list_elem_of_filter in El as [_ El].
  rewrite Hps in El. apply list_elem_of_filter in Hin as [_ Hin]. assert (pv' = pv) as ->; [|by rewrite (bool_decide_eq_true_2 _ Ht)].
  rewrite NoDup_fmap_inj in Hnd by by apply (NoDup_fmap_1 pv_id). apply Hnd; congruence.
Qed.

Definition shown (orgId : jsstr) (d : PolicyDb) (r : PolicyRow) : OrgModelPolicy :=
  {| om_id := mp_id r; om_route := mp_route r; om_status := getRouteStatus (mp_route r) (listOrgProviderRoutes orgId d); om_createdAt := mp_createdAt r;
     om_updatedAt := mp_updatedAt r |}.

Definition rank (p : OrgModelPolicy) : nat := getSupportedModelRank (ro_model (om_route p)).

(** The state after an accepted update. *)
Record updated (orgId : jsstr) (l : list Route) (d d' : PolicyDb) : Prop := {
  ud_step : org_step orgId d d'; ud_valid : valid_update orgId d l;
  ud_rows : forall r, r ∈ policies d' -> mp_orgId r = orgId -> mp_model r ∈ SUPPORTED_RUN_MODELS \/ mp_isDefault r = true -> mp_route r ∈ l;
  ud_routes : forall p, p ∈ l -> exists r, r ∈ policies d' /\ mp_orgId r = orgId /\ mp_route r = p }.

Section Listing.
Context (orgId : jsstr) (l : list Route) (d d' : PolicyDb) (Hu : updated orgId l d d').

Lemma updated_supported p : p ∈ l -> ro_model p ∈ SUPPORTED_RUN_MODELS.
Proof. intros Hin. destruct (vu_policy _ _ _ (ud_valid _ _ _ _ Hu) p Hin) as (Hs & _). by apply bool_decide_eq_true in Hs. Qed.

Lemma updated_loaded r : r ∈ loadRows orgId d' -> mp_route r ∈ l.
Proof. intros (Hin & Ho & Hm)%loadRows_elem. apply (ud_rows _ _ _ _ Hu r Hin Ho). by left. Qed.

Lemma updated_routes : mp_route <$> loadRows orgId d' ≡ₚ l.
Proof.
  pose proof (pi_table _ (os_inv _ _ _ (ud_step _ _ _ _ Hu))) as Ht. apply NoDup_Permutation.
  - apply NoDup_fmap_2_strong; [|apply NoDup_filter, (NoDup_fmap_1 mp_id), Ht]. intros r r' (Hin & Ho & _)%loadRows_elem (Hin' & Ho' & _)%loadRows_elem Heq.
    apply (to_keys _ _ Ht); [done|done|congruence|]. unfold mp_model. by rewrite Heq.
  - apply (NoDup_fmap_1 ro_model), (ud_valid _ _ _ _ Hu).
  - intros p. rewrite list_elem_of_fmap. split; [by intros (r & -> & Hin%updated_loaded)|]. intros Hp. destruct (ud_routes _ _ _ _ Hu p Hp) as (r & Hin & Ho & Hr).
    exists r. split; [done|]. apply loadRows_elem. split_and!; [done|done|]. unfold mp_model. rewrite Hr. by apply updated_supported.
Qed.

Lemma updated_default : exists p, p ∈ l /\ ro_isDefault p = true.
Proof.
  pose proof (vu_default _ _ _ (ud_valid _ _ _ _ Hu)) as Hl. destruct (filter _ l) as [|p rest] eqn:E; [done|]. exists p.
  assert (p ∈ p :: rest) as Hin by set_solver. rewrite <- E in Hin. by apply list_elem_of_filter in Hin as [? ?].
Qed.

Lemma updated_ensure now userId : ensureOrgModelPolicies now orgId userId d' = (Ok (sortRowsByCatalog (loadRows orgId d')), d').
Proof.
  destruct updated_default as (p & Hp & Hd). destruct (ud_routes _ _ _ _ Hu p Hp) as (r & Hin & Ho & Hr).
  apply (ensure_default _ _ _ _ r); [|unfold mp_isDefault; by rewrite Hr]. apply loadRows_elem. split_and!; [done|done|]. unfold mp_model. rewrite Hr. by apply updated_supported.
Qed.

Hypothesis l_ids : forall p, p ∈ l -> ro_modelProviderId p <> Some [].
Hypothesis d_providers : NoDup (pv_id <$> providers d).

Lemma updated_list now userId : let l' := shown orgId d' <$> sortRowsByCatalog (loadRows orgId d') in
  listOrgModelPolicies now orgId userId d' = (Ok (l', selectWorkspaceDefaultPolicy l'), d') /\ om_route <$> l' ≡ₚ l /\
  Sorted (fun a b => (rank a <= rank b)%nat) l' /\ Forall (fun p => om_status p = (Valid, None)) l'.
Proof.
  intros l'. assert (forall r, r ∈ sortRowsByCatalog (loadRows orgId d') -> mp_route r ∈ l) as Hin
    by (intros r; unfold sortRowsByCatalog; rewrite sort_stable_perm; apply updated_loaded).
  split_and!.
  - unfold listOrgModelPolicies. rewrite updated_ensure. rewrite (result_all_ok _ (shown orgId d')); [done|]. intros r Hr%Hin.
    destruct (vu_policy _ _ _ (ud_valid _ _ _ _ Hu) _ Hr) as (H1 & H2 & H3 & _). unfold serializePolicy. by rewrite H1, H2, H3.
  - unfold l'. rewrite <- list_fmap_compose. change (mp_route <$> sortRowsByCatalog (loadRows orgId d') ≡ₚ l). unfold sortRowsByCatalog.
    rewrite sort_stable_perm. apply updated_routes.
  - unfold l'. apply Sorted_fmap with (R := fun a b => (getSupportedModelRank (mp_model a) <= getSupportedModelRank (mp_model b))%nat); [done|].
    eapply Sorted_weaken; [|apply sort_stable_sorted; intros x y; rewrite !Nat.ltb_lt, ?Nat.ltb_ge; lia]. intros x y Hxy. by apply Nat.ltb_ge in Hxy.
  - apply Forall_forall. intros q (r & -> & Hr)%list_elem_of_fmap. destruct (vu_policy _ _ _ (ud_valid _ _ _ _ Hu) _ (Hin r Hr)) as (_ & H2 & _ & H4).
    apply (valid_status orgId d); [done|apply (ud_step _ _ _ _ Hu)|by apply l_ids, Hin|done|done].
Qed.

End Listing.

(** ** Theorems *)

Lemma org_step_trans orgId d1 d2 d3 : org_step orgId d1 d2 -> org_step orgId d2 d3 -> org_step orgId d1 d3.
Proof. intros [_ _ P1 F1 O1] [I2 R2 P2 F2 O2]. split; [done|done|congruence..]. Qed.

(** How an update ends. *)
Lemma update_cases now orgId userId l d : PolicyInv d -> no_retired_default orgId (policies d) -> (forall p, p ∈ l -> ro_modelProviderId p <> Some []) ->
  exists rows d1, ensureOrgModelPolicies now orgId userId d = (Ok rows, d1) /\ org_step orgId d d1 /\
  match validateUpdatePolicies orgId l d1 with
  | Some message => updateOrgModelPolicies now orgId userId l d = (Ok (Refused message), d1)
  | None => exists d', updated orgId l d1 d' /\ org_step orgId d d' /\
      updateOrgModelPolicies now orgId userId l d =
        let l' := shown orgId d' <$> sortRowsByCatalog (loadRows orgId d') in (Ok (Updated (l', selectWorkspaceDefaultPolicy l')), d')
  end.
Proof.
  intros Hi Hr Hne. destruct (ensure_spec now orgId userId d Hi Hr) as (rows & d1 & He & Hs1). exists rows, d1. split_and!; [done|done|].
  unfold updateOrgModelPolicies. rewrite He. destruct (validateUpdatePolicies orgId l d1) as [message|] eqn:Ev; [done|]. apply validate_ok in Ev.
  destruct (transaction_ok now orgId userId l d1 (os_inv _ _ _ Hs1) Ev Hne) as (d' & Htx & Hs2 & Hrows & Hroutes). exists d'.
  assert (updated orgId l d1 d') as Hu by by split. split_and!; [done|by eapply org_step_trans|]. rewrite Htx.
  destruct (updated_list orgId l d1 d' Hu Hne (pi_providers _ (os_inv _ _ _ Hs1)) now userId) as (-> & _). done.
Qed.

(** C29: An accepted update of the model policies is what the workspace lists. In a consistent
    table whose default is a model of the catalog, an update never fails: it is refused with the
    message of the validation and changes nothing beyond the default policies, or it succeeds, no
    statement violating a constraint on the way. Then every listing, as long as the policies and
    the providers are not changed, returns exactly the requested routes in catalog order, all of
    them valid, and the requested default; policies of other organizations do not change, and the
    table stays consistent. *)
Theorem model_policies_exact now orgId userId l d : PolicyInv d -> no_retired_default orgId (policies d) ->
  (forall p, p ∈ l -> ro_modelProviderId p <> Some []) ->
  exists rows d1 d', ensureOrgModelPolicies now orgId userId d = (Ok rows, d1) /\ org_step orgId d d' /\
  match validateUpdatePolicies orgId l d1 with
  | Some message => d' = d1 /\ updateOrgModelPolicies now orgId userId l d = (Ok (Refused message), d')
  | None => exists policies default,
      updateOrgModelPolicies now orgId userId l d = (Ok (Updated (policies, Some default)), d') /\
      om_route <$> policies ≡ₚ l /\ Sorted (fun a b => (rank a <= rank b)%nat) policies /\
      Forall (fun p => om_status p = (Valid, None)) policies /\ default ∈ policies /\ ro_isDefault (om_route default) = true /\
      (forall now' user', listOrgModelPolicies now' orgId user' d' = (Ok (policies, Some default), d'))
  end.
Proof.
  intros Hi Hr Hne. destruct (update_cases now orgId userId l d Hi Hr Hne) as (rows & d1 & He & Hs1 & Hcase). exists rows, d1.
  destruct (validateUpdatePolicies orgId l d1) as [message|]; [by exists d1|]. destruct Hcase as (d' & Hu & Hs & ->). exists d'. split_and!; [done|done|].
  pose proof (updated_list orgId l d1 d' Hu Hne (pi_providers _ (os_inv _ _ _ Hs1))) as Hl. cbv zeta in Hl |- *. set (l' := shown orgId d' <$> _) in *.
  destruct (Hl now userId) as (_ & Hperm & Hsorted & Hvalid). destruct (updated_default orgId l d1 d' Hu) as (p & Hp & Hd).
  assert (exists def, selectWorkspaceDefaultPolicy l' = Some def) as [def Hdef].
  { unfold selectWorkspaceDefaultPolicy. assert (p ∈ om_route <$> l') as Hp' by by rewrite Hperm. apply list_elem_of_fmap in Hp' as (q & -> & Hq).
    destruct (filter _ l') as [|q0 rest] eqn:E; [|by exists q0]. rewrite filter_nil_iff in E. by destruct (E q Hq). }
  exists l', def. rewrite Hdef in *. split_and!; [done|done|done|done|..].
  - apply head_Some_elem_of, list_elem_of_filter in Hdef as [_ Hdef]. done.
  - apply head_Some_elem_of, list_elem_of_filter in Hdef as [Hdef _]. done.
  - intros now' user'. destruct (Hl now' user') as (-> & _). done.
Qed.

Definition pin_route (p : Route) : ModelFirstPin :=
  {| mf_modelProviderId := ro_modelProviderId p; mf_modelProviderType := Some (ro_defaultProviderType p); mf_credentialScope := Some (ro_credentialScope p);
     mf_selectedModel := Some (ro_model p) |}.

Lemma pin_of_row r : parseCredentialScope (ro_credentialScope (mp_route r)) = true -> pin_of r = Ok (pin_route (mp_route r)).
Proof. intros Hs. unfold pin_of, parseModelProviderCredentialScope. by rewrite Hs. Qed.

(** The row a query for one of the routes finds. *)
Lemma updated_head orgId l d d' (P : PolicyRow -> Prop) `{forall r, Decision (P r)} p : updated orgId l d d' -> p ∈ l ->
  (forall r, r ∈ policies d' -> mp_orgId r = orgId -> P r <-> mp_route r = p) ->
  exists r, head (filter (fun r => mp_orgId r = orgId /\ P r) (policies d')) = Some r /\ mp_route r = p.
Proof.
  intros Hu Hp HP. destruct (ud_routes _ _ _ _ Hu p Hp) as (r & Hin & Ho & Hr).
  destruct (filter _ (policies d')) as [|r0 rest] eqn:E.
  - rewrite filter_nil_iff in E. destruct (E r Hin). split; [done|]. by apply HP.
  - exists r0. split; [done|]. assert (r0 ∈ r0 :: rest) as Hin0 by set_solver. rewrite <- E in Hin0. apply list_elem_of_filter in Hin0 as [[Ho0 HP0] Hin0]. by apply HP in HP0.
Qed.

Lemma admission_iff now orgId type s : checkOrgCreditsForRunAdmission now orgId (Some type) s = true <->
  exists o, orgs s !! orgId = Some o /\ o_tier o <> js "pro-suspend" /\ (type = js "vm0" -> 0 < o_credits o - unsettled_expired now orgId s).
Proof.
  unfold checkOrgCreditsForRunAdmission, resolveOrgCreditAvailability. destruct (orgs s !! orgId) as [o|]; cbn [fmap option_fmap option_map av_tier av_spendableCredits].
  - case_bool_decide as Ht; [split; [done|]; by intros (? & [= <-] & ? & _)|]. case_bool_decide as Hv; cbn [negb].
    + injection Hv as ->. rewrite Z.ltb_lt. split; [by exists o; split_and!|]. intros (? & [= <-] & _ & Hc). by apply Hc.
    + split; [|done]. intros _. exists o. split_and!; [done|done|]. intros ->. done.
  - split; [done|]. by intros (? & ? & _).
Qed.

(** C30: Runs follow the model policies. Take tables that satisfy the constraints and whose
    default is a model of the catalog, routes without empty provider identifiers, and no
    preference stored for the placeholder user. After an accepted update the default model of a
    member is the one the member prefers, if the workspace offers it, and the workspace's
    default if the member prefers none, or a model of the catalog that is not offered, or one
    of which no row is left; a preferred model that is no longer in the catalog but has a row
    left is used from that row. A member who selects an offered model gets it. Each comes with
    the provider, scope and credential of its route, the search ends after at most one
    fallback, and a run on the route is admitted exactly if the organization is known and not
    suspended and, exactly if the route uses the platform's own provider, has credits left
    after what expires. *)
Theorem model_selection_follows now orgId userId l d response d' : PolicyInv d -> no_retired_default orgId (policies d) ->
  (forall p, p ∈ l -> ro_modelProviderId p <> Some []) -> preferences d !! (orgId, NO_PREFERENCE) = None ->
  updateOrgModelPolicies now orgId userId l d = (Ok (Updated response), d') ->
  forall member p, p ∈ l ->
  let preferred := truthy_text (mjoin (preferences d !! (orgId, member))) in
  let rows_of m := filter (fun r => mp_orgId r = orgId /\ mp_model r = m) (policies d') in
  ((preferred = Some (ro_model p) \/
     ro_isDefault p = true /\
       match preferred with Some m => m ∈ SUPPORTED_RUN_MODELS /\ m ∉ ro_model <$> l \/ rows_of m = [] | None => True end) ->
   resolveDefaultModelFirstPin 2 orgId member d' = Some (Ok (pin_route p))) /\
  (forall m r, preferred = Some m -> head (rows_of m) = Some r -> resolveDefaultModelFirstPin 2 orgId member d' = Some (pin_of r)) /\
  (forall now', resolveModelSelectionPin now' orgId member MODEL_FIRST_SELECTION_PROVIDER_ID (ro_model p) d' = (Ok (inr (pin_route p)), d')) /\
  (forall now' requested s, exists admitted,
     resolveModelFirstProviderAdmission now' orgId member (pin_route p) requested s d' = (Some (ro_defaultProviderType p), admitted) /\
     (admitted = true <-> exists o, orgs s !! orgId = Some o /\ o_tier o <> js "pro-suspend" /\
        (ro_defaultProviderType p = js "vm0" -> 0 < o_credits o - unsettled_expired now' orgId s))).
Proof.
  intros Hi Hr Hne Hno Hup member p Hp preferred rows_of. destruct (update_cases now orgId userId l d Hi Hr Hne) as (rows & d1 & He & Hs1 & Hcase).
  destruct (validateUpdatePolicies orgId l d1) as [message|]; [rewrite Hcase in Hup; done|]. destruct Hcase as (d2 & Hu & Hs & Heq). cbv zeta in Heq.
  rewrite Heq in Hup. injection Hup as _ <-. rename d2 into d'. clear Heq.
  destruct (vu_policy _ _ _ (ud_valid _ _ _ _ Hu) p Hp) as (Hps & Hpt & Hpc & _). pose proof (vu_models _ _ _ (ud_valid _ _ _ _ Hu)) as Hnd.
  rewrite NoDup_fmap_inj in Hnd by by apply (NoDup_fmap_1 ro_model).
  assert (forall r, r ∈ policies d' -> mp_orgId r = orgId -> mp_model r = ro_model p <-> mp_route r = p) as Hmodel.
  { intros r Hin Ho. split; [|by intros <-]. intros Hm. apply Hnd; [|done|done]. apply (ud_rows _ _ _ _ Hu r Hin Ho). left. rewrite Hm.
    by apply bool_decide_eq_true in Hps. }
  destruct (updated_head orgId l d1 d' (fun r => mp_model r = ro_model p) p Hu Hp Hmodel) as (rm & Hrm & Hrp).
  split_and!.
  - intros Hpref. cbn [resolveDefaultModelFirstPin]. rewrite (os_preferences _ _ _ Hs), Hno. fold preferred. cbn [mjoin option_join truthy_text].
    destruct Hpref as [->|[Hd Hm]]; [by rewrite Hrm, pin_of_row; rewrite Hrp|].
    assert (forall r, r ∈ policies d' -> mp_orgId r = orgId -> mp_isDefault r = true <-> mp_route r = p) as Hdef.
    { intros r Hin Ho. split; [|intros <-; done]. intros Hdr. eapply (the_default (fun q => ro_isDefault q = true) l); [apply (ud_valid _ _ _ _ Hu)| |done|exact Hdr|done].
      apply (ud_rows _ _ _ _ Hu r Hin Ho). by right. }
    destruct (updated_head orgId l d1 d' (fun r => mp_isDefault r = true) p Hu Hp Hdef) as (rd & Hrd & Hrdp).
    destruct preferred as [m|]; [|by rewrite Hrd, pin_of_row; rewrite Hrdp].
    assert (filter (fun r => mp_orgId r = orgId /\ mp_model r = m) (policies d') = []) as ->; [|by cbn [head]; rewrite Hrd, pin_of_row; rewrite Hrdp].
    destruct Hm as [[Hsup Hnot]|Hm]; [|exact Hm]. apply filter_nil_iff. intros r Hin [Ho Hmr]. apply Hnot. rewrite <- Hmr. apply list_elem_of_fmap. exists (mp_route r).
    split; [done|]. apply (ud_rows _ _ _ _ Hu r Hin Ho). left. by rewrite Hmr.
  - intros m r Hm Hh. cbn [resolveDefaultModelFirstPin]. rewrite (os_preferences _ _ _ Hs). fold preferred. rewrite Hm. fold (rows_of m). by rewrite Hh.
  - intros now'. unfold resolveModelSelectionPin. rewrite bool_decide_eq_true_2 by done. cbn [negb isSupportedRunModel]. unfold parseSupportedModel in Hps. rewrite Hps.
    cbn [negb]. rewrite (updated_ensure orgId l d1 d' Hu), Hrm, pin_of_row; by rewrite Hrp.
  - intros now' requested s. eexists. unfold resolveModelFirstProviderAdmission, resolveEffectiveModelProviderType. cbn [pin_route mf_modelProviderType].
    assert (truthy_text (Some (ro_defaultProviderType p)) = Some (ro_defaultProviderType p)) as ->
      by (destruct (ro_defaultProviderType p); [vm_compute in Hpt|]; done).
    split; [reflexivity|]. apply admission_iff.
Qed.

(** ** Witnesses *)

Definition sample_provider : ProviderRow := {| pv_id := js "p1"; pv_orgId := js "o"; pv_userId := ORG_SENTINEL_USER_ID; pv_type := js "anthropic-api-key" |}.

Definition sample_policy_db : PolicyDb :=
  {| policies := []; providers := [sample_provider]; preferences := {[ (js "o", js "u") := Some (js "claude-opus-4-8") ]} |}.

Definition sample_routes : list Route :=
  [{| ro_model := js "deepseek-v4-pro"; ro_isDefault := true; ro_defaultProviderType := js "vm0"; ro_credentialScope := js "org"; ro_modelProviderId := None |};
   {| ro_model := js "claude-opus-4-8"; ro_isDefault := false; ro_defaultProviderType := js "anthropic-api-key"; ro_credentialScope := js "org";
      ro_modelProviderId := Some (js "p1") |}].

Lemma sample_policy_inv : PolicyInv sample_policy_db.
Proof. split; [apply constraints_ok_spec; by vm_compute|apply (bool_decide_unpack _); by vm_compute]. Qed.

Lemma sample_no_retired : no_retired_default (js "o") (policies sample_policy_db).
Proof. by intros r Hin%elem_of_nil. Qed.

Lemma sample_ids : forall p, p ∈ sample_routes -> ro_modelProviderId p <> Some [].
Proof. intros p [->|[->|Hin%elem_of_nil]%elem_of_cons]%elem_of_cons; done. Qed.

Lemma sample_update_accepted : match updateOrgModelPolicies 5 (js "o") (js "u") sample_routes sample_policy_db with (Ok (Updated _), _) => True | _ => False end.
Proof. vm_compute. exact I. Qed.

Lemma model_policies_exact_witness :
  exists shown_policies def d', updateOrgModelPolicies 5 (js "o") (js "u") sample_routes sample_policy_db = (Ok (Updated (shown_policies, Some def)), d') /\
    om_route <$> shown_policies ≡ₚ sample_routes.
Proof.
  destruct (model_policies_exact 5 (js "o") (js "u") sample_routes sample_policy_db sample_policy_inv sample_no_retired sample_ids)
    as (rows & d1 & d' & _ & _ & Hcase).
  pose proof sample_update_accepted as Hacc. destruct (validateUpdatePolicies _ _ d1) as [message|].
  - exfalso. destruct Hcase as [_ Heq]. rewrite Heq in Hacc. exact Hacc.
  - destruct Hcase as (shown_policies & def & Heq & Hperm & _). exists shown_policies, def, d'. split; [exact Heq|exact Hperm].
Defined.

Lemma model_selection_follows_witness :
  resolveDefaultModelFirstPin 2 (js "o") (js "u") (updateOrgModelPolicies 5 (js "o") (js "u") sample_routes sample_policy_db).2 =
    Some (Ok {| mf_modelProviderId := Some (js "p1"); mf_modelProviderType := Some (js "anthropic-api-key"); mf_credentialScope := Some (js "org");
                mf_selectedModel := Some (js "claude-opus-4-8") |}).
Proof.
  pose proof sample_update_accepted as Hacc. destruct (updateOrgModelPolicies 5 (js "o") (js "u") sample_routes sample_policy_db) as [[[message|response]|e] d'] eqn:E;
    [contradiction| |contradiction].
  apply (model_selection_follows 5 (js "o") (js "u") sample_routes sample_policy_db response d' sample_policy_inv sample_no_retired sample_ids eq_refl E
    (js "u") (Build_Route (js "claude-opus-4-8") false (js "anthropic-api-key") (js "org") (Some (js "p1")))).
  - apply elem_of_cons. right. apply elem_of_cons. left. reflexivity.
  - left. vm_compute. reflexivity.
Defined.

(** A model of the catalog that the workspace does not offer is accepted too, without a route. *)
Lemma unlisted_model_accepted :
  let d := (updateOrgModelPolicies 5 (js "o") (js "u") sample_routes sample_policy_db).2 in
  js "gpt-5.5" ∉ mp_model <$> policies d /\
  (resolveModelSelectionPin 6 (js "o") (js "u") MODEL_FIRST_SELECTION_PROVIDER_ID (js "gpt-5.5") d).1 = Ok (inr (modelOnlyModelFirstPin (Some (js "gpt-5.5")))).
Proof. cbv zeta. split; [apply (bool_decide_unpack _); by vm_compute|vm_compute; reflexivity]. Qed.

End ModelSelection.
